(* ===== verification/_CoqProject ===== *)
-Q . S2P
Prelude.v
PMM.v
PMMSpec.v
PageTables.v
PageTablesSpec.v
PageMapper.v
DList.v
ThreadList.v
LinkedList.v
AVLTree.v
WAVL.v
WAVLSpec.v
VMRegionAllocator.v
VMRegionSpec.v
Bitmap.v
FileDescriptor.v
FDManager.v
Heap.v
HeapSpec.v
HeapFree.v
VMM.v
VMMSpec.v
VMMShare.v
Scheduler.v
SchedulerSpec.v
SchedulerTick.v
SemaphoreSpec.v
TempFS.v
VFS.v
VFSSpec.v
TempFSSpec.v
Graphics.v
TTY.v
Stdio.v
Snprintf.v
StdioSpec.v
ConsoleSpec.v
Futex.v
FutexSpec.v
SystemCalls.v
SystemCallsSpec.v
CLib.v
ELFStack.v
ELF.v
InitRAMFS.v
InitRAMFSSpec.v
Process.v
ProcessSpec.v
Exec.v
Time.v
IOAPIC.v
IRQ.v
IRQSpec.v
Descriptors.v
LocalAPIC.v
NMI.v
Symbols.v
CPUInfo.v
Timer.v
ACPI.v
TaskUtil.v
Boot.v
CxxABI.v
