(* ===== verification/Prelude.v ===== *)
(** * FrostyOS kernel: a verification development

    FrostyOS is a kernel for x86-64 (src/kernel). This development translates its memory
    management, scheduling, synchronisation, interrupt, file, terminal, program-loading and
    system-call code, and the data structures they rest on, into executable Rocq
    functions, and proves what makes them correct.

    ** The parts of the kernel and where they are modelled

    Memory, from the bottom up:
    - PMM.v, PMMSpec.v: the physical memory manager (Memory/PMM.cpp); free blocks are
      linked through the free pages themselves.
    - PageTables.v, PageTablesSpec.v, PageMapper.v: page tables of four or five levels, the entry bits,
      the page mapper and the mapping of regions (arch/x86_64/Memory).
    - VMRegionAllocator.v, VMRegionSpec.v: which virtual addresses are in use
      (Memory/VMRegionAllocator.cpp).
    - VMM.v, VMMShare.v, VMMSpec.v: address spaces, page faults, copy on write, fork and the
      validation of user pointers (Memory/VMM.cpp, Pager.cpp).
    - Heap.v, HeapSpec.v, HeapFree.v: the kernel heap (Memory/Heap.cpp).

    Data structures (src/kernel/lib):
    - DList.v, LinkedList.v, ThreadList.v: linked lists, on the heap and intrusive.
    - AVLTree.v, WAVL.v, WAVLSpec.v: the ordered map, and the rank-balanced tree of tree.h
      that implements it.
    - Bitmap.v, CLib.v: bitmaps; strings, blocks of memory and numbers.

    Threads:
    - Scheduler.v, SchedulerSpec.v, SchedulerTick.v: ready lists, ticks, yields, sleeping
      (Scheduling/Scheduler.cpp); SemaphoreSpec.v: semaphores and mutexes.
    - Futex.v, FutexSpec.v: waiting in the kernel for a word of user memory.
    - Process.v, ProcessSpec.v: creation, deletion, fork and end of processes and threads
      (Scheduling/Process.cpp, Thread.cpp, sys_fork); Exec.v: sys_exec.

    Interrupts and processors (arch/x86_64, arch/x86_64/interrupts):
    - IOAPIC.v, IRQ.v, IRQSpec.v: I/O APICs, the legacy controllers, the vectors and handlers
      of interrupts and their dispatch (APIC/IOAPIC.cpp, PIC.cpp, IRQ.cpp, ISR.cpp, HAL/HAL.cpp).
    - LocalAPIC.v: local APICs, their timer and interprocessor interrupts; NMI.v: asking other
      processors to invalidate pages or to halt (APIC/LocalAPIC.cpp, APIC/IPI.cpp, NMI.cpp).
    - Descriptors.v: interrupt gates, segments and the task state segment (IDT.cpp, GDT.cpp);
      CPUInfo.v: identification of the processor and SIMD contexts (Processor.cpp).
    - Timer.v: the way of a tick from a timer through the scheduler, the PIT and the time stamp
      counter (HAL/Time.cpp, LocalAPIC.cpp, PIT.cpp, TSC.cpp); TaskUtil.v: registers of threads,
      interrupt frames, switches and page faults (TaskUtil.cpp, Task.asm, PageFault.cpp).
    - ACPI.v: the tables of the firmware and what uACPI is offered (HAL/ACPI); Boot.v: what the boot
      loader gives, the regions of the kernel, the entry of system calls, and the pager of the memory
      file system (limine_entry.cpp, PagingInit.cpp, Syscall.cpp, TempFSPager.cpp); CxxABI.v:
      destructors and guards for the compiler (lib/src/icxxabi.cpp).

    Files, terminals and programs:
    - TempFS.v, TempFSSpec.v, VFS.v, VFSSpec.v: the memory file system, paths and mounts.
    - FileDescriptor.v, FDManager.v: open files and the table of a process.
    - Graphics.v, TTY.v, Stdio.v, Snprintf.v, StdioSpec.v, ConsoleSpec.v: the framebuffer console,
      the terminals on it and formatted output to them and to arrays.
    - InitRAMFS.v, InitRAMFSSpec.v: unpacking the archive that the boot loader leaves
      (fs/InitRAMFS.cpp), over any file system that keeps its laws and over TempFS.v.
    - ELFStack.v, ELF.v: program loading and the initial stack (Exec/ELF.cpp).
    - SystemCalls.v, SystemCallsSpec.v: the system calls and their dispatcher.
    - Symbols.v: the build tool and the kernel's table of symbols (tools, KernelSymbols.cpp).
    - Time.v: the CMOS clock, the calendar and the HPET (HAL/Time.cpp, arch/x86_64/CMOS.cpp).

    A file X.v holds the data and operations of a component, named as in the source;
    XSpec.v holds its theorems where they do not fit beside the model.

    ** How the code is translated

    A pure function is a Rocq function. Stateful code is a computation [M S A] over a record
    [S] of the memory and variables it uses; null dereferences, failed assertions, accesses to
    memory that is not there and locks taken twice are the failures of that monad, so that a
    theorem [runs m s Q] says that [m] ends without any of them and that [Q] holds. Machine
    integers are [Z] with their wrap-around written out ([add64], [i32], ...). Pointers are
    addresses in maps where the code shares or links objects, and zippers in WAVL.v. What a
    component calls of another is a class whose laws are stated where they are used
    ([Futex.Kernel], [SystemCalls.Env] with [SystemCallsSpec.Laws], [ELF.Loader],
    [Process.Env], [Exec.Kernel], [InitRAMFS.FileSystem] with [InitRAMFS.Laws], which InitRAMFSSpec.v proves of VFS.v and TempFS.v), or the
    other component's model itself (VMM.v over PMM.v, VMRegionAllocator.v and PageMapper.v;
    ConsoleSpec.v over Stdio.v, TTY.v and Graphics.v; ELF.v over ELFStack.v and CLib.v; Timer.v over
    Scheduler.v and LocalAPIC.v; ACPI.v over LocalAPIC.v, IRQ.v and Time.v; TaskUtil.v over VMM.v).

    A device is a parameter: a class with its documented behaviour as laws ([IOAPIC.Device] with
    [IOAPIC.DeviceLaws]), or a function of what was written and read before. What the processor
    makes of a descriptor is written down as a decoder, which serves as the specification.

    Interleavings are sequences of steps: the semaphore, futex and non-maskable-interrupt theorems
    quantify over all of them, with the steps cut where the code can lose the processor or
    another processor can see or change what it works on.

    ** What is shown

    Where the code does not do what it should in some case, the theorem says which case it leaves
    out, and an example or lemma beside it shows what happens there.

    - Allocators (PMM, regions, heap): allocation succeeds when something fits and gives out
      what was free, freeing returns exactly what was given, joined with its free neighbours, and the
      invariants are kept.
    - Page tables: mapping and unmapping change one translation; region mapping tiles the region, and
      translates it as asked where the two addresses agree modulo the page sizes.
    - Address spaces: reference counts of shared pages are exact under faults and forks; a
      write to a shared page gives a private copy; user pointers are accepted exactly when mapped.
    - Scheduling: no thread is lost or duplicated by ticks, yields and sleeps; no nice level
      starves; no wakeup of a semaphore or a futex is lost.
    - File system: a path leads back to the node it was built from; what is first written is
      read back. An archive is unpacked into the vnodes of what was packed. Descriptors: the lowest
      free number is given out.
    - Terminals: formatted output stays on the screen and in its buffer.
    - Programs: the initial stack is that of the System V ABI; aligned segments are placed as the
      file says; files are closed once.
    - System calls: those for files, memory, time and identity do not fault, write only to their buffers
      and lose no kernel object but the two the theorem names; a fork
      that fails leaves nothing but, maybe, a thread, and one that succeeds inherits what it should;
      exec frees its buffers.
    - Interrupts: registering, removing and masking handlers refines a map from interrupts to
      handlers, and an interrupt gets to its own handler; every gate leads to its stub; the wait for
      other processors is over only when they have done what was asked, and never gets stuck; an
      interrupt of the local timer is ended exactly once, whatever the scheduler does.
    - Processors: another processor is started by the right commands in the right order; what an
      interrupt saved of a thread is what a switch restores; a page fault goes to the right manager.
    - Start-up: the entries of the MADT are collected in order; registers of PCI have addresses of their own
      in mapped pages; no region of the kernel is writable and executable.
    - Symbols: what nm prints becomes a table that finds the symbol of an address.
    - Clocks: the time computed is that of counting days in the calendar.
    - Data structures refine sequences and finite maps; the tree stays balanced.

    ** Bounds and fuel

    Loops that are not structural take fuel, and the theorems show that it is enough: the
    fuel is given by the state (free blocks, tree size, accessible bytes, characters of a
    format), or the theorem says from which amount on the result is the same. Ranks, sizes and
    counts that the source keeps in 64 bits are assumed not to wrap only where a theorem says so.

    ** Not modelled

    Interrupt stubs and the first code of the other processors (assembly); the interpreter of the ACPI
    tables, a library whose description of the tables is a parameter, and its callbacks without effect;
    the order of initialisation in kernel.cpp and Processor.cpp and the text of a panic; the
    undefined-behaviour run-time, which only prints. Of the exit of a thread the change of stacks is left out. Caches, the contents of TLBs and weak
    memory are not represented; outside of NMI.v spin locks are flags, and taking one that is held is a
    failure. *)

From Stdlib Require Export ZArith Lia List.
From stdpp Require Export base numbers list functions gmap.

#[global] Open Scope Z_scope.

(** ** Machine integers

    A [uint64_t] is a [Z] in [0, 2^64); every operation of the source that can
    leave that range is written with its wrap-around. *)

Notation W64 := (2 ^ 64)%Z.

Definition wrap64 (x : Z) : Z := x mod W64.
Definition add64 (x y : Z) : Z := wrap64 (x + y).
Definition sub64 (x y : Z) : Z := wrap64 (x - y).
Definition mul64 (x y : Z) : Z := wrap64 (x * y).
Definition shl64 (x y : Z) : Z := wrap64 (Z.shiftl x y).

Definition u64 (x : Z) : Prop := 0 <= x < W64.

(** Largest value of the type, [UINT64_MAX]. *)
Definition UINT64_MAX : Z := W64 - 1.

(** Signed and narrower types: a conversion keeps the low bits, and signed
    arithmetic has its two's complement result. *)
Definition i64 (x : Z) : Z := (x + 2 ^ 63) mod 2 ^ 64 - 2 ^ 63.
Definition i32 (x : Z) : Z := (x + 2 ^ 31) mod 2 ^ 32 - 2 ^ 31.
Definition i16 (x : Z) : Z := (x + 2 ^ 15) mod 2 ^ 16 - 2 ^ 15.
Definition i8 (x : Z) : Z := (x + 2 ^ 7) mod 2 ^ 8 - 2 ^ 7.
Definition u32 (x : Z) : Z := x mod 2 ^ 32.

(** *** The macros of util.h *)

Notation PAGE_SIZE := 4096%Z (only parsing).
Notation PAGE_SIZE_SHIFT := 12%Z (only parsing).

Definition DIV_ROUNDUP (v d : Z) : Z := add64 v (d - 1) / d.
Definition ALIGN_UP (v a : Z) : Z := mul64 (DIV_ROUNDUP v a) a.
Definition ALIGN_DOWN (v a : Z) : Z := v / a * a.

(** ** Failure and state

    [Fail AssertionFailed] is [__assert_fail] (or [PANIC]); [NullDereference]
    and [InvalidAccess] are accesses with undefined behaviour in C++;
    [LockHeld] is a second acquisition of a non-recursive lock by the same flow
    of control, i.e. a self-deadlock; [OutOfFuel] only says that the fuel given
    to an unbounded loop of the model was too small. *)

Inductive failure : Set :=
  | AssertionFailed
  | NullDereference
  | InvalidAccess
  | LockHeld
  | OutOfFuel.

Inductive result (A : Type) : Type :=
  | Ok (a : A)
  | Fail (f : failure).
Arguments Ok {A} a.
Arguments Fail {A} f.

Definition M (S A : Type) : Type := S -> result (A * S).

Definition ret {S A} (a : A) : M S A := fun s => Ok (a, s).
Definition bind {S A B} (m : M S A) (k : A -> M S B) : M S B :=
  fun s => match m s with Ok (a, s') => k a s' | Fail f => Fail f end.
Definition fail {S A} (f : failure) : M S A := fun _ => Fail f.
Definition gets {S A} (f : S -> A) : M S A := fun s => Ok (f s, s).
Definition modify {S} (f : S -> S) : M S unit := fun s => Ok (tt, f s).
Definition assertM {S} (b : bool) : M S unit :=
  if b then ret tt else fail AssertionFailed.
Definition whenM {S} (b : bool) (m : M S unit) : M S unit :=
  if b then m else ret tt.

Declare Scope kernel_scope.
Delimit Scope kernel_scope with kernel.
Notation "'let*' x ':=' m 'in' k" := (bind m (fun x => k))
  (at level 10, x pattern, m at level 100, k at level 200) : kernel_scope.
Notation "m ';;;' k" := (bind m (fun _ => k))
  (at level 100, k at level 200, right associativity) : kernel_scope.
#[global] Open Scope kernel_scope.

(** *** Total correctness of a stateful computation *)

Definition runs {S A} (m : M S A) (s : S) (Q : A -> S -> Prop) : Prop :=
  exists a s', m s = Ok (a, s') /\ Q a s'.

Section Runs.
Context {S : Type}.

Lemma runs_ret {A} (a : A) (s : S) (Q : A -> S -> Prop) : Q a s -> runs (ret a) s Q.
Proof. intros H. exists a, s. by split. Qed.

Lemma runs_bind {A B} (m : M S A) (k : A -> M S B) s Q :
  runs m s (fun a s' => runs (k a) s' Q) -> runs (bind m k) s Q.
Proof.
  intros (a & s' & Hm & b & s'' & Hk & HQ). exists b, s''.
  unfold bind. by rewrite Hm.
Qed.

Lemma bind_Ok {A B} (m : M S A) (k : A -> M S B) s b s' : bind m k s = Ok (b, s') ->
  exists a s1, m s = Ok (a, s1) /\ k a s1 = Ok (b, s').
Proof. unfold bind. destruct (m s) as [[a s1]|]; [eauto|done]. Qed.

Lemma runs_gets {A} (f : S -> A) s (Q : A -> S -> Prop) : Q (f s) s -> runs (gets f) s Q.
Proof. intros H. exists (f s), s. by split. Qed.

Lemma runs_modify (f : S -> S) s (Q : unit -> S -> Prop) :
  Q tt (f s) -> runs (modify f) s Q.
Proof. intros H. exists tt, (f s). by split. Qed.

Lemma runs_assert b s (Q : unit -> S -> Prop) :
  b = true -> Q tt s -> runs (assertM b) s Q.
Proof. intros -> H. exists tt, s. by split. Qed.

Lemma runs_when b (m : M S unit) s (Q : unit -> S -> Prop) :
  (b = true -> runs m s Q) -> (b = false -> Q tt s) -> runs (whenM b m) s Q.
Proof. destruct b; intros H1 H2; [by apply H1 | apply runs_ret; by apply H2]. Qed.

Lemma runs_mono {A} (m : M S A) s (Q Q' : A -> S -> Prop) :
  runs m s Q -> (forall a s', Q a s' -> Q' a s') -> runs m s Q'.
Proof. intros (a & s' & Hm & HQ) H. exists a, s'. eauto. Qed.

Lemma runs_det {A} (m : M S A) s (Q Q' : A -> S -> Prop) :
  runs m s Q -> runs m s Q' -> runs m s (fun a s' => Q a s' /\ Q' a s').
Proof.
  intros (a & s' & Hm & HQ) (b & s'' & Hm' & HQ').
  rewrite Hm in Hm'. simplify_eq. exists b, s''. eauto.
Qed.

Lemma runs_eq {A} (m : M S A) s a s' (Q : A -> S -> Prop) : m s = Ok (a, s') -> Q a s' -> runs m s Q.
Proof. intros Hm HQ. by exists a, s'. Qed.

Lemma runs_if {A} (b : bool) (m1 m2 : M S A) s (Q : A -> S -> Prop) :
  (b = true -> runs m1 s Q) -> (b = false -> runs m2 s Q) ->
  runs (if b then m1 else m2) s Q.
Proof. destruct b; auto. Qed.
End Runs.

(** One symbolic step of a computation; [mgo] runs straight-line code up to
    the first branch or call. *)
Ltac mstep :=
  lazymatch goal with
  | |- runs (ret _) _ _ => apply runs_ret
  | |- runs (bind _ _) _ _ => apply runs_bind
  | |- runs (gets _) _ _ => apply runs_gets
  | |- runs (modify _) _ _ => apply runs_modify
  | |- runs (assertM _) _ _ => apply runs_assert
  | |- runs (whenM _ _) _ _ => apply runs_when
  end.
Ltac mgo := repeat (mstep; cbn beta iota).

(** Boolean comparisons on [Z] to propositions. *)
Ltac zb :=
  repeat match goal with
  | H : (_ =? _) = true |- _ => apply Z.eqb_eq in H
  | H : (_ =? _) = false |- _ => apply Z.eqb_neq in H
  | H : (_ <? _) = true |- _ => apply Z.ltb_lt in H
  | H : (_ <? _) = false |- _ => apply Z.ltb_ge in H
  | H : (_ <=? _) = true |- _ => apply Z.leb_le in H
  | H : (_ <=? _) = false |- _ => apply Z.leb_gt in H
  end.

(** Linear arithmetic with [/] and [mod] by constants. *)
Ltac zlia := Z.to_euclidean_division_equations; lia.

(** ** Lemmas on machine integers *)

Lemma wrap64_small x : 0 <= x < W64 -> wrap64 x = x.
Proof. intros H. by apply Z.mod_small. Qed.

Lemma wrap64_range x : u64 (wrap64 x).
Proof. unfold u64, wrap64. apply Z.mod_pos_bound. lia. Qed.

Lemma wrap64_add x y : wrap64 (wrap64 x + y) = wrap64 (x + y).
Proof. unfold wrap64. by rewrite Zplus_mod_idemp_l. Qed.

Lemma add64_small x y : 0 <= x + y < W64 -> add64 x y = x + y.
Proof. apply wrap64_small. Qed.

Lemma sub64_small x y : 0 <= x - y < W64 -> sub64 x y = x - y.
Proof. apply wrap64_small. Qed.

Lemma mul64_small x y : 0 <= x * y < W64 -> mul64 x y = x * y.
Proof. apply wrap64_small. Qed.

Lemma sub64_add64 x y : u64 x -> sub64 (add64 x y) y = x.
Proof.
  intros H. unfold sub64, add64, wrap64.
  rewrite Zminus_mod_idemp_l. replace (x + y - y) with x by lia.
  by apply Z.mod_small.
Qed.

Lemma add64_sub64 x y : u64 x -> add64 (sub64 x y) y = x.
Proof.
  intros H. unfold sub64, add64, wrap64.
  rewrite Zplus_mod_idemp_l. replace (x - y + y) with x by lia.
  by apply Z.mod_small.
Qed.

Lemma i32_small x : - 2 ^ 31 <= x < 2 ^ 31 -> i32 x = x.
Proof. intros H. unfold i32. rewrite Z.mod_small; lia. Qed.

Lemma i32_range x : - 2 ^ 31 <= i32 x < 2 ^ 31.
Proof. unfold i32. pose proof (Z.mod_pos_bound (x + 2 ^ 31) (2 ^ 32)). lia. Qed.

Lemma i32_add x y : i32 (i32 x + y) = i32 (x + y).
Proof.
  unfold i32. f_equal.
  replace ((x + 2 ^ 31) mod 2 ^ 32 - 2 ^ 31 + y + 2 ^ 31) with ((x + 2 ^ 31) mod 2 ^ 32 + y) by lia.
  rewrite Zplus_mod_idemp_l. f_equal. lia.
Qed.

Lemma i32_add_r x y : i32 (x + i32 y) = i32 (x + y).
Proof. by rewrite Z.add_comm, i32_add, Z.add_comm. Qed.

(** Rounding to a multiple. *)
Lemma ALIGN_UP_bounds x a : 0 <= x -> 0 < a -> x + a < W64 ->
  x <= ALIGN_UP x a < x + a /\ ALIGN_UP x a mod a = 0.
Proof.
  intros Hx Ha Hb. unfold ALIGN_UP, DIV_ROUNDUP. rewrite add64_small by lia.
  pose proof (Z.div_mod (x + (a - 1)) a ltac:(lia)).
  pose proof (Z.mod_pos_bound (x + (a - 1)) a Ha).
  rewrite mul64_small by nia. split; [nia|]. by rewrite Z.mod_mul by lia.
Qed.

Lemma ALIGN_DOWN_bounds x a : 0 <= x -> 0 < a ->
  0 <= ALIGN_DOWN x a <= x /\ x < ALIGN_DOWN x a + a /\ ALIGN_DOWN x a mod a = 0.
Proof.
  intros Hx Ha. unfold ALIGN_DOWN.
  pose proof (Z.div_mod x a ltac:(lia)). pose proof (Z.mod_pos_bound x a Ha).
  pose proof (Z.div_pos x a Hx Ha).
  split_and!; [nia|nia|nia|]. by rewrite Z.mod_mul by lia.
Qed.

Create Rewrite HintDb word64.
#[export] Hint Rewrite wrap64_small add64_small sub64_small mul64_small using lia : word64.

(** ** Word-addressed memory

    Kernel memory reached through the higher-half direct map, as a total map
    from (8-byte aligned) addresses to 64-bit words: every address has some
    contents, possibly left over from an earlier use. *)

Notation memory := (Z -> Z).

(** ** Lists *)

Lemma filter_all {A} (P : A -> Prop) `{forall x, Decision (P x)} (l : list A) :
  (forall x, x ∈ l -> P x) -> filter P l = l.
Proof.
  induction l as [|x l IH]; intros Hl; [done|].
  rewrite filter_cons_True by (apply Hl; set_solver). rewrite IH; [done|set_solver].
Qed.
