(* ===== verification/PMM.v ===== *)
(** * PMM.v: the physical memory manager (src/kernel/src/Memory/PMM.cpp)

    The free list lives inside the free pages themselves: a free block starts
    with its [FreeListNode] (the word at offset 0 is [PageCount], the word at
    offset 8 is [Next]), so the model works on word memory, and freeing a page
    re-uses whatever the page's last owner left there. *)

From S2P Require Import Prelude.
#[local] Open Scope Z_scope.
#[local] Open Scope kernel_scope.

Module PMM.

(** ** Data *)

(** The fields of class [PMM], the word memory behind the free list, and
    whether [m_lock] is held. *)
Record state : Type := mk {
  m_FreeListStart : Z;
  m_FreeListEnd : Z;
  m_FreeListNodeCount : Z;
  m_FreePageCount : Z;
  m_usedPageCount : Z;
  m_totalPageCount : Z;
  m_lock : bool;
  mem : memory
}.

(** [MemoryMapEntry] of MemoryMap.hpp. *)
Record MemoryMapEntry : Type := mkEntry { Base : Z; Length : Z; Type_ : Z }.

Definition MEMORY_MAP_ENTRY_USABLE : Z := 0.

Definition set_Start (v : Z) (s : state) : state :=
  mk v (m_FreeListEnd s) (m_FreeListNodeCount s) (m_FreePageCount s)
     (m_usedPageCount s) (m_totalPageCount s) (m_lock s) (mem s).
Definition set_End (v : Z) (s : state) : state :=
  mk (m_FreeListStart s) v (m_FreeListNodeCount s) (m_FreePageCount s)
     (m_usedPageCount s) (m_totalPageCount s) (m_lock s) (mem s).
Definition set_NodeCount (v : Z) (s : state) : state :=
  mk (m_FreeListStart s) (m_FreeListEnd s) v (m_FreePageCount s)
     (m_usedPageCount s) (m_totalPageCount s) (m_lock s) (mem s).
Definition set_FreeCount (v : Z) (s : state) : state :=
  mk (m_FreeListStart s) (m_FreeListEnd s) (m_FreeListNodeCount s) v
     (m_usedPageCount s) (m_totalPageCount s) (m_lock s) (mem s).
Definition set_UsedCount (v : Z) (s : state) : state :=
  mk (m_FreeListStart s) (m_FreeListEnd s) (m_FreeListNodeCount s) (m_FreePageCount s)
     v (m_totalPageCount s) (m_lock s) (mem s).
Definition set_TotalCount (v : Z) (s : state) : state :=
  mk (m_FreeListStart s) (m_FreeListEnd s) (m_FreeListNodeCount s) (m_FreePageCount s)
     (m_usedPageCount s) v (m_lock s) (mem s).
Definition set_lock (v : bool) (s : state) : state :=
  mk (m_FreeListStart s) (m_FreeListEnd s) (m_FreeListNodeCount s) (m_FreePageCount s)
     (m_usedPageCount s) (m_totalPageCount s) v (mem s).
Definition set_mem (v : memory) (s : state) : state :=
  mk (m_FreeListStart s) (m_FreeListEnd s) (m_FreeListNodeCount s) (m_FreePageCount s)
     (m_usedPageCount s) (m_totalPageCount s) (m_lock s) v.

(** [PMM::PMM()] *)
Definition init_state (m : memory) : state := mk 0 0 0 0 0 0 false m.

(** ** Primitive accesses *)

Definition Lock : M state unit :=
  let* l := gets m_lock in
  if l then fail LockHeld else modify (set_lock true).
Definition Unlock : M state unit := modify (set_lock false).

(** [p->PageCount] and [p->Next] as values and as assignments; dereferencing
    the null pointer is a failure. *)
Definition rd (p off : Z) : M state Z :=
  if p =? 0 then fail NullDereference else gets (fun s => mem s (add64 p off)).
Definition wr (p off v : Z) : M state unit :=
  if p =? 0 then fail NullDereference
  else modify (fun s => set_mem (<[add64 p off := v]> (mem s)) s).
Definition rd_PageCount (p : Z) : M state Z := rd p 0.
Definition rd_Next (p : Z) : M state Z := rd p 8.
Definition wr_PageCount (p v : Z) : M state unit := wr p 0 v.
Definition wr_Next (p v : Z) : M state unit := wr p 8 v.

Definition add_NodeCount (d : Z) : M state unit :=
  modify (fun s => set_NodeCount (wrap64 (m_FreeListNodeCount s + d)) s).
Definition add_FreeCount (d : Z) : M state unit :=
  modify (fun s => set_FreeCount (wrap64 (m_FreePageCount s + d)) s).
Definition add_UsedCount (d : Z) : M state unit :=
  modify (fun s => set_UsedCount (wrap64 (m_usedPageCount s + d)) s).
Definition add_TotalCount (d : Z) : M state unit :=
  modify (fun s => set_TotalCount (wrap64 (m_totalPageCount s + d)) s).

Section HHDM.
(** [g_HHDMOffset], set once at boot. *)
Context (g_HHDMOffset : Z).

Definition to_HHDM (address : Z) : Z := add64 address g_HHDMOffset.
Definition from_HHDM (address : Z) : Z := sub64 address g_HHDMOffset.

(** ** Operations *)

(** The part of the loop of [PMM::Init] that appends a region to the list. *)
Definition Init_append (base length : Z) : M state unit :=
  add_TotalCount (Z.shiftr length 12) ;;;
  add_FreeCount (Z.shiftr length 12) ;;;
  add_NodeCount 1 ;;;
  let* endp := gets m_FreeListEnd in
  if endp =? 0 then
    modify (set_Start (to_HHDM base)) ;;;
    let* st := gets m_FreeListStart in
    wr_PageCount st (Z.shiftr length 12) ;;;
    wr_Next st 0 ;;;
    modify (set_End st)
  else
    wr_Next endp (to_HHDM base) ;;;
    let* n := rd_Next endp in
    modify (set_End n) ;;;
    wr_PageCount n (Z.shiftr length 12) ;;;
    wr_Next n 0.

(** One iteration of the loop of [PMM::Init]; the result is the memory map
    entry as the loop leaves it. *)
Definition Init_entry (e : MemoryMapEntry) : M state MemoryMapEntry :=
  if negb (Type_ e =? MEMORY_MAP_ENTRY_USABLE) then ret e else
  if Base e =? 0 then
    let e' := mkEntry (add64 (Base e) PAGE_SIZE) (sub64 (Length e) PAGE_SIZE) (Type_ e) in
    if Length e' <? PAGE_SIZE then ret e'
    else Init_append (Base e') (Length e') ;;; ret e'
  else Init_append (Base e) (Length e) ;;; ret e.

Fixpoint Init_loop (es : list MemoryMapEntry) : M state (list MemoryMapEntry) :=
  match es with
  | [] => ret []
  | e :: es => let* e' := Init_entry e in let* es' := Init_loop es in ret (e' :: es')
  end.

(** [PMM::Init] *)
Definition Init (memoryMap : list MemoryMapEntry) : M state (list MemoryMapEntry) :=
  let* es := Init_loop memoryMap in
  modify (set_UsedCount 0) ;;;
  ret es.

(** [PMM::AllocatePage] *)
Definition AllocatePage : M state Z :=
  Lock ;;;
  let* fpc := gets m_FreePageCount in
  assertM (0 <? fpc) ;;;
  let* node := gets m_FreeListStart in
  let* c := rd_PageCount node in
  (if c =? 1 then
     let* nx := rd_Next node in
     modify (set_Start nx) ;;;
     add_NodeCount (-1) ;;;
     let* e := gets m_FreeListEnd in
     whenM (node =? e) (modify (set_End 0))
   else
     modify (set_Start (add64 node PAGE_SIZE)) ;;;
     let* st := gets m_FreeListStart in
     let* c' := rd_PageCount node in
     wr_PageCount st (sub64 c' 1) ;;;
     let* nx := rd_Next node in
     wr_Next st nx ;;;
     let* e := gets m_FreeListEnd in
     whenM (node =? e) (modify (set_End st))) ;;;
  add_FreeCount (-1) ;;;
  add_UsedCount 1 ;;;
  Unlock ;;;
  ret (from_HHDM node).

(** The search loop of [FreePage] and [FreePages]: advance to the first node
    above [node]; the result is ([previous], [current]), with [current] null
    when the list ends first. *)
Fixpoint find_slot (fuel : nat) (node previous current : Z) : M state (Z * Z) :=
  match fuel with
  | O => fail OutOfFuel
  | S fuel' =>
      if current =? 0 then ret (previous, current) else
      assertM (previous <? current) ;;;
      if node <? current then ret (previous, current) else
      let* nx := rd_Next current in
      find_slot fuel' node current nx
  end.

(** [PMM::FreePage] *)
Definition FreePage (fuel : nat) (page : Z) : M state unit :=
  Lock ;;;
  let node := to_HHDM page in
  let* start := gets m_FreeListStart in
  let* (previous, current) := find_slot fuel node 0 start in
  (if negb (current =? 0) then
     if previous =? 0 then
       (if add64 node PAGE_SIZE =? current then
          let* c := rd_PageCount current in
          wr_PageCount node (add64 c 1) ;;;
          let* nx := rd_Next current in
          wr_Next node nx ;;;
          let* e := gets m_FreeListEnd in
          whenM (e =? current) (modify (set_End node))
        else
          wr_PageCount node 1 ;;;
          let* st := gets m_FreeListStart in
          wr_Next node st ;;;
          add_NodeCount 1) ;;;
       modify (set_Start node)
     else
       assertM (previous <? node) ;;;
       let* pc := rd_PageCount previous in
       let* node :=
         (if add64 previous (mul64 pc PAGE_SIZE) =? node then
            let* c := rd_PageCount previous in
            wr_PageCount previous (add64 c 1) ;;;
            ret previous
          else
            wr_Next previous node ;;;
            add_NodeCount 1 ;;;
            wr_PageCount node 1 ;;;
            ret node) in
       let* nc := rd_PageCount node in
       (if add64 node (mul64 nc PAGE_SIZE) =? current then
          let* cc := rd_PageCount current in
          let* nc' := rd_PageCount node in
          wr_PageCount node (add64 nc' cc) ;;;
          let* nx := rd_Next current in
          wr_Next node nx ;;;
          add_NodeCount (-1) ;;;
          let* e := gets m_FreeListEnd in
          whenM (e =? current) (modify (set_End node))
        else
          wr_Next node current)
   else
     let* e := gets m_FreeListEnd in
     if e =? 0 then
       modify (set_Start node) ;;;
       modify (set_End node) ;;;
       wr_Next node 0
     else
       let* ec := rd_PageCount e in
       if add64 e (mul64 ec PAGE_SIZE) =? node then
         let* c := rd_PageCount e in
         wr_PageCount e (add64 c 1)
       else
         wr_Next e node ;;;
         modify (set_End node) ;;;
         wr_Next node 0 ;;;
         add_NodeCount 1) ;;;
  add_FreeCount 1 ;;;
  add_UsedCount (-1) ;;;
  Unlock.

(** The first-fit search of [AllocatePages]. *)
Fixpoint find_fit (fuel : nat) (pageCount previous current : Z) : M state (Z * Z) :=
  match fuel with
  | O => fail OutOfFuel
  | S fuel' =>
      if current =? 0 then ret (previous, current) else
      let* c := rd_PageCount current in
      if pageCount <=? c then ret (previous, current) else
      let* nx := rd_Next current in
      find_fit fuel' pageCount current nx
  end.

(** The body of the loop of [AllocatePages] for the block it has found: unlink
    it, or keep its tail as a smaller block. *)
Definition take_block (pageCount previous current : Z) : M state unit :=
  let* c := rd_PageCount current in
  if c =? pageCount then
    if previous =? 0 then
      let* nx := rd_Next current in
      modify (set_Start nx) ;;;
      add_NodeCount (-1) ;;;
      let* e := gets m_FreeListEnd in
      whenM (current =? e) (modify (set_End 0))
    else
      let* nx := rd_Next current in
      wr_Next previous nx ;;;
      let* e := gets m_FreeListEnd in
      whenM (current =? e) (modify (set_End previous)) ;;;
      add_NodeCount (-1)
  else
    if previous =? 0 then
      modify (set_Start (add64 current (mul64 PAGE_SIZE pageCount))) ;;;
      let* st := gets m_FreeListStart in
      let* c' := rd_PageCount current in
      wr_PageCount st (sub64 c' pageCount) ;;;
      let* nx := rd_Next current in
      wr_Next st nx ;;;
      let* e := gets m_FreeListEnd in
      whenM (current =? e) (modify (set_End st))
    else
      wr_Next previous (add64 current (mul64 PAGE_SIZE pageCount)) ;;;
      let* rest := rd_Next previous in
      let* c' := rd_PageCount current in
      wr_PageCount rest (sub64 c' pageCount) ;;;
      let* nx := rd_Next current in
      wr_Next rest nx ;;;
      let* e := gets m_FreeListEnd in
      whenM (current =? e) (let* n := rd_Next previous in modify (set_End n)).

(** [PMM::AllocatePages]; 0 is the null pointer. *)
Definition AllocatePages (fuel : nat) (pageCount : Z) : M state Z :=
  if pageCount =? 1 then AllocatePage else
  Lock ;;;
  let* fpc := gets m_FreePageCount in
  assertM (0 <? fpc) ;;;
  let* start := gets m_FreeListStart in
  let* (previous, current) := find_fit fuel pageCount 0 start in
  if current =? 0 then Unlock ;;; ret 0 else
  take_block pageCount previous current ;;;
  add_FreeCount (- pageCount) ;;;
  add_UsedCount pageCount ;;;
  Unlock ;;;
  ret (from_HHDM current).

(** The body of the loop of [FreePages] once [current] is the first node above
    [node], with no node before it. *)
Definition insert_first (node current pageCount : Z) : M state unit :=
  (if add64 node (mul64 PAGE_SIZE pageCount) =? current then
     let* c := rd_PageCount current in
     wr_PageCount node (add64 c pageCount) ;;;
     let* nx := rd_Next current in
     wr_Next node nx ;;;
     let* e := gets m_FreeListEnd in
     whenM (e =? current) (modify (set_End node))
   else
     wr_PageCount node pageCount ;;;
     let* st := gets m_FreeListStart in
     wr_Next node st ;;;
     add_NodeCount 1) ;;;
  modify (set_Start node).

(** ... and with a node [previous] before it. *)
Definition insert_between (node previous current pageCount : Z) : M state unit :=
  assertM (previous <? node) ;;;
  let* pc := rd_PageCount previous in
  let* node :=
    (if add64 previous (mul64 pc PAGE_SIZE) =? node then
       let* c := rd_PageCount previous in
       wr_PageCount previous (add64 c pageCount) ;;;
       ret previous
     else
       wr_Next previous node ;;;
       add_NodeCount 1 ;;;
       wr_PageCount node pageCount ;;;
       ret node) in
  let* nc := rd_PageCount node in
  if add64 node (mul64 nc PAGE_SIZE) =? current then
    let* cc := rd_PageCount current in
    let* nc' := rd_PageCount node in
    wr_PageCount node (add64 nc' cc) ;;;
    let* nx := rd_Next current in
    wr_Next node nx ;;;
    add_NodeCount (-1) ;;;
    let* e := gets m_FreeListEnd in
    whenM (e =? current) (modify (set_End node))
  else
    wr_Next node current.

(** The code after the loop: every node is below [node]. *)
Definition append_last (node pageCount : Z) : M state unit :=
  let* e := gets m_FreeListEnd in
  if e =? 0 then
    modify (set_Start node) ;;;
    modify (set_End node) ;;;
    wr_Next node 0
  else
    let* ec := rd_PageCount e in
    if add64 e (mul64 ec PAGE_SIZE) =? node then
      let* c := rd_PageCount e in
      wr_PageCount e (add64 c pageCount)
    else
      wr_Next e node ;;;
      modify (set_End node) ;;;
      wr_Next node 0 ;;;
      add_NodeCount 1.

(** [PMM::FreePages] *)
Definition FreePages (fuel : nat) (pages pageCount : Z) : M state unit :=
  Lock ;;;
  let node := to_HHDM pages in
  let* start := gets m_FreeListStart in
  let* (previous, current) := find_slot fuel node 0 start in
  (if negb (current =? 0) then
     if previous =? 0 then insert_first node current pageCount
     else insert_between node previous current pageCount
   else append_last node pageCount) ;;;
  add_FreeCount pageCount ;;;
  add_UsedCount (- pageCount) ;;;
  Unlock.

(** [PMM::GetFreePageCount] *)
Definition GetFreePageCount : M state Z := gets m_FreePageCount.

(** The loop of [PMM::Verify]: [n] iterations remain. *)
Fixpoint Verify_loop (n : nat) (previous current pageCount : Z) : M state (Z * Z * Z) :=
  match n with
  | O => ret (previous, current, pageCount)
  | S n' =>
      assertM (negb (current =? 0)) ;;;
      whenM (negb (previous =? 0))
        (let* pc := rd_PageCount previous in
         assertM (add64 previous (mul64 pc PAGE_SIZE) <=? current)) ;;;
      let* c := rd_PageCount current in
      let* nx := rd_Next current in
      Verify_loop n' current nx (add64 pageCount c)
  end.

(** [PMM::Verify] *)
Definition Verify : M state unit :=
  let* start := gets m_FreeListStart in
  let* n := gets m_FreeListNodeCount in
  let* (previous, current, pageCount) := Verify_loop (Z.to_nat n) 0 start 0 in
  assertM (current =? 0) ;;;
  let* f := gets m_FreePageCount in
  assertM (pageCount =? f) ;;;
  let* e := gets m_FreeListEnd in
  assertM (e =? previous) ;;;
  let* t := gets m_totalPageCount in
  let* u := gets m_usedPageCount in
  assertM (t =? add64 f u).
End HHDM.

(** ** Representation

    A free list is described by the list of its blocks (address, page count)
    in address order. *)

Fixpoint seg (m : memory) (p : Z) (bs : list (Z * Z)) (q : Z) : Prop :=
  match bs with
  | [] => p = q
  | (a, n) :: bs' => p = a /\ m a = n /\ seg m (m (a + 8)) bs' q
  end.

Fixpoint blocks_ok (lo : Z) (bs : list (Z * Z)) : Prop :=
  match bs with
  | [] => True
  | (a, n) :: bs' =>
      lo <= a /\ 0 < n /\ a mod PAGE_SIZE = 0 /\ a + n * PAGE_SIZE < W64 /\
      blocks_ok (a + n * PAGE_SIZE) bs'
  end.

Fixpoint end_of (lo : Z) (bs : list (Z * Z)) : Z :=
  match bs with [] => lo | (a, n) :: bs' => end_of (a + n * PAGE_SIZE) bs' end.

Fixpoint last_addr (d : Z) (bs : list (Z * Z)) : Z :=
  match bs with [] => d | (a, _) :: bs' => last_addr a bs' end.

Fixpoint pages (bs : list (Z * Z)) : Z :=
  match bs with [] => 0 | (_, n) :: bs' => n + pages bs' end.

(** The addresses inside free blocks. *)
Definition covers (bs : list (Z * Z)) (x : Z) : Prop :=
  exists a n, (a, n) ∈ bs /\ a <= x < a + n * PAGE_SIZE.

(** The list structure: well linked, in address order, made of disjoint
    page-aligned blocks, with the end pointer and the node count right. *)
Record linked (bs : list (Z * Z)) (s : state) : Prop := {
  lk_seg : seg (mem s) (m_FreeListStart s) bs 0;
  lk_ok : blocks_ok PAGE_SIZE bs;
  lk_end : m_FreeListEnd s = last_addr 0 bs;
  lk_nodes : m_FreeListNodeCount s = Z.of_nat (length bs)
}.

(** The representation invariant between calls: the list structure, every
    counter agreeing with it, and the lock free. *)
Record rep (bs : list (Z * Z)) (s : state) : Prop := {
  rep_linked : linked bs s;
  rep_free : m_FreePageCount s = pages bs;
  rep_used : 0 <= m_usedPageCount s;
  rep_total : m_totalPageCount s = m_FreePageCount s + m_usedPageCount s;
  rep_bound : m_totalPageCount s < W64;
  rep_lock : m_lock s = false
}.

(** Everything but the list itself is unchanged, and so is all memory outside
    the given blocks. *)
Record list_step (bs : list (Z * Z)) (s s' : state) : Prop := {
  ls_free : m_FreePageCount s' = m_FreePageCount s;
  ls_used : m_usedPageCount s' = m_usedPageCount s;
  ls_total : m_totalPageCount s' = m_totalPageCount s;
  ls_lock : m_lock s' = m_lock s;
  ls_mem : forall x, ~ covers bs x -> mem s' x = mem s x
}.

(** Block list [bs] is [bs'] plus the run of [k] pages at [a], disjointly. *)
Definition in_run (a k x : Z) : Prop := a <= x < a + k * PAGE_SIZE.

Record takes (bs : list (Z * Z)) (a k : Z) (bs' : list (Z * Z)) : Prop := {
  tk_aligned : a mod PAGE_SIZE = 0;
  tk_split : forall x, covers bs x <-> covers bs' x \/ in_run a k x;
  tk_disjoint : forall x, in_run a k x -> ~ covers bs' x
}.

(** *** Lemmas on block lists *)

Lemma seg_app m l r p q : seg m p (l ++ r) q <-> exists x, seg m p l x /\ seg m x r q.
Proof.
  revert p. induction l as [|[a n] l IH]; intros p; simpl; [naive_solver|].
  rewrite IH. naive_solver.
Qed.

Lemma blocks_ok_app lo l r :
  blocks_ok lo (l ++ r) <-> blocks_ok lo l /\ blocks_ok (end_of lo l) r.
Proof.
  revert lo. induction l as [|[a n] l IH]; intros lo; simpl; [naive_solver|].
  rewrite IH. naive_solver.
Qed.

Lemma end_of_app lo l r : end_of lo (l ++ r) = end_of (end_of lo l) r.
Proof. revert lo. induction l as [|[a n] l IH]; intros lo; simpl; auto. Qed.

Lemma last_addr_app d l r : last_addr d (l ++ r) = last_addr (last_addr d l) r.
Proof. revert d. induction l as [|[a n] l IH]; intros d; simpl; auto. Qed.

Lemma pages_app l r : pages (l ++ r) = pages l + pages r.
Proof. induction l as [|[a n] l IH]; simpl; lia. Qed.

Lemma covers_app l r x : covers (l ++ r) x <-> covers l x \/ covers r x.
Proof. unfold covers. set_solver. Qed.

Lemma covers_cons a n r x : covers ((a, n) :: r) x <-> a <= x < a + n * PAGE_SIZE \/ covers r x.
Proof. unfold covers. set_solver. Qed.

Lemma covers_nil x : covers [] x <-> False.
Proof. unfold covers. set_solver. Qed.

Lemma end_of_ge lo bs : blocks_ok lo bs -> lo <= end_of lo bs.
Proof.
  revert lo. induction bs as [|[a n] bs IH]; intros lo; simpl; [lia|].
  intros (? & ? & ? & ? & H). apply IH in H. lia.
Qed.

Lemma blocks_ok_elem lo bs a n :
  blocks_ok lo bs -> (a, n) ∈ bs ->
  lo <= a /\ 0 < n /\ a mod PAGE_SIZE = 0 /\ a + n * PAGE_SIZE < W64 /\
  a + n * PAGE_SIZE <= end_of lo bs.
Proof.
  revert lo. induction bs as [|[b k] bs IH]; intros lo; simpl; [set_solver|].
  intros (? & ? & ? & ? & H) [?|Hin]%elem_of_cons; simplify_eq.
  - apply end_of_ge in H. tauto.
  - destruct (IH _ H Hin) as (? & ? & ? & ? & ?).     repeat split; try assumption; lia.
Qed.

Lemma blocks_ok_weaken lo lo' bs : lo' <= lo -> blocks_ok lo bs -> blocks_ok lo' bs.
Proof. destruct bs as [|[a n] bs]; simpl; [done|]. intros ? (? & ?). split; [lia|done]. Qed.

Lemma pages_nonneg lo bs : blocks_ok lo bs -> 0 <= Z.of_nat (length bs) <= pages bs.
Proof.
  revert lo. induction bs as [|[a n] bs IH]; intros lo; simpl; [lia|].
  intros (? & ? & ? & ? & H). apply IH in H. lia.
Qed.

Lemma pages_bound lo bs :
  0 <= lo -> blocks_ok lo bs -> 0 <= pages bs /\ lo + pages bs * PAGE_SIZE <= end_of lo bs.
Proof.
  revert lo. induction bs as [|[a n] bs IH]; intros lo; simpl; [lia|].
  intros ? (? & ? & ? & ? & H). destruct (IH (a + n * PAGE_SIZE)); [lia|done|].
  lia.
Qed.

Lemma end_of_lt lo bs : lo < W64 -> blocks_ok lo bs -> end_of lo bs < W64.
Proof.
  revert lo. induction bs as [|[a n] bs IH]; intros lo; simpl; [done|].
  intros ? (? & ? & ? & ? & ?). by apply IH.
Qed.

(** A write to the node at [q] does not disturb blocks at other addresses. *)
Lemma seg_write m p bs x lo q y v :
  blocks_ok lo bs -> q mod PAGE_SIZE = 0 -> (y = q \/ y = q + 8) ->
  (forall a n, (a, n) ∈ bs -> a <> q) ->
  seg m p bs x -> seg (<[y := v]> m) p bs x.
Proof.
  intros Hok Hq Hoff. revert lo p Hok.
  induction bs as [|[a n] bs IH]; intros lo p; simpl; [done|].
  intros (Hlo & Hn & Ha & Hb & Hok) Hne (Hp & Hc & Hs).
  assert (a <> q) by (apply (Hne a n); set_solver).
    rewrite !fn_lookup_insert_ne by zlia. split_and!; [done..|].
  eapply IH; [done| |done]. intros b k Hin. apply (Hne b k). set_solver.
Qed.

Lemma last_addr_ge d lo bs : blocks_ok lo bs -> bs <> [] -> lo <= last_addr d bs.
Proof.
  revert d lo. induction bs as [|[a n] bs IH]; intros d lo; simpl; [done|].
  intros (? & ? & ? & ? & H) _. destruct bs as [|b bs]; [done|].
  specialize (IH a _ H ltac:(done)). simpl in *. lia.
Qed.

Lemma last_addr_self d lo bs : blocks_ok lo bs -> d < lo -> last_addr d bs = d -> bs = [].
Proof.
  intros Hok Hd E. destruct bs as [|b bs]; [done|].
  pose proof (last_addr_ge d _ _ Hok ltac:(done)). lia.
Qed.

Lemma last_addr_irrel d d' bs : bs <> [] -> last_addr d bs = last_addr d' bs.
Proof. by destruct bs as [|[a n] bs]. Qed.

Lemma covers_range lo bs x : blocks_ok lo bs -> covers bs x -> lo <= x < end_of lo bs.
Proof. intros Hok (a & n & Hin & Hx). pose proof (blocks_ok_elem _ _ _ _ Hok Hin). lia. Qed.

Lemma takes_split lo l a n r k :
  blocks_ok lo (l ++ (a, n) :: r) -> 0 < k <= n ->
  takes (l ++ (a, n) :: r) a k
    (if n =? k then l ++ r else l ++ (a + k * PAGE_SIZE, n - k) :: r).
Proof.
  rewrite blocks_ok_app. cbn. intros [Hl (Hlo & Hn & Ha & Hb & Hr)] Hk.
  assert (Hrl : forall x, covers l x -> x < a).
  { intros x Hx. apply (covers_range _ _ _ Hl) in Hx. lia. }
  assert (Hrr : forall x, covers r x -> a + n * PAGE_SIZE <= x).
  { intros x Hx. apply (covers_range _ _ _ Hr) in Hx. lia. }
  unfold in_run. destruct (Z.eqb_spec n k) as [->|Hne]; split; [done| | |done| |];
    intros x; specialize (Hrl x); specialize (Hrr x); unfold in_run;
    rewrite ?covers_app, ?covers_cons; clear Hl Hr; intuition lia.
Qed.

Lemma seg_write_hi m p bs x lo q y v :
  blocks_ok lo bs -> end_of lo bs <= q -> q mod PAGE_SIZE = 0 -> (y = q \/ y = q + 8) ->
  seg m p bs x -> seg (<[y := v]> m) p bs x.
Proof.
  intros Hok Hq Hm Hoff. eapply seg_write; [done..|].
  intros a n Hin. pose proof (blocks_ok_elem _ _ _ _ Hok Hin). lia.
Qed.

Lemma seg_write_lo m p bs x lo q y v :
  blocks_ok lo bs -> q < lo -> q mod PAGE_SIZE = 0 -> (y = q \/ y = q + 8) ->
  seg m p bs x -> seg (<[y := v]> m) p bs x.
Proof.
  intros Hok Hq Hm Hoff. eapply seg_write; [done..|].
  intros a n Hin. pose proof (blocks_ok_elem _ _ _ _ Hok Hin). lia.
Qed.

(** Writing the [Next] field of the last block of a segment redirects it. *)
Lemma seg_relink m p l a n x y lo :
  blocks_ok lo (l ++ [(a, n)]) -> seg m p (l ++ [(a, n)]) x ->
  seg (<[a + 8 := y]> m) p (l ++ [(a, n)]) y.
Proof.
  rewrite blocks_ok_app, !seg_app. simpl. intros [Hl (? & ? & Ha & _)] (z & Hs & -> & Hc & Hx).
  exists a. rewrite fn_lookup_insert, fn_lookup_insert_ne by lia. split; [|done].
  by eapply seg_write_hi; eauto.
Qed.

(** *** The two search loops *)

Lemma rd_runs p off s (Q : Z -> state -> Prop) :
  p <> 0 -> Q (mem s (add64 p off)) s -> runs (rd p off) s Q.
Proof. intros Hp HQ. unfold rd. apply Z.eqb_neq in Hp. rewrite Hp. by apply runs_gets. Qed.

Lemma wr_runs p off v s (Q : unit -> state -> Prop) :
  p <> 0 -> Q tt (set_mem (<[add64 p off := v]> (mem s)) s) -> runs (wr p off v) s Q.
Proof. intros Hp HQ. unfold wr. apply Z.eqb_neq in Hp. rewrite Hp. by apply runs_modify. Qed.

(** [find_slot] terminates once the fuel exceeds the length of the list, leaves
    the state alone, and splits the list at the address. *)
Lemma find_slot_spec fuel node prev cur lo bs s :
  seg (mem s) cur bs 0 -> blocks_ok lo bs -> prev < lo -> 0 < lo ->
  (length bs < fuel)%nat ->
  runs (find_slot fuel node prev cur) s (fun pc s' =>
    s' = s /\ exists l r, bs = l ++ r /\
      (forall a n, (a, n) ∈ l -> a <= node) /\
      fst pc = last_addr prev l /\
      match r with [] => snd pc = 0 | (a, n) :: _ => snd pc = a /\ node < a end).
Proof.
  revert fuel prev cur lo. induction bs as [|[a n] bs IH]; intros fuel prev cur lo.
  - simpl. intros -> _ _ _ Hf. destruct fuel as [|fuel]; [lia|]. simpl.
    apply runs_ret. split; [done|]. exists [], []. set_solver.
  - simpl. intros (-> & Hc & Hs) (Hlo & Hn & Ha & Hb & Hok) Hp Hpos Hf.
    destruct fuel as [|fuel]; [lia|]. simpl.
    destruct (Z.eqb_spec a 0) as [|_]; [lia|].
    mstep; mstep; [apply Z.ltb_lt; lia|].
    destruct (Z.ltb_spec node a) as [Hlt|Hge].
    + apply runs_ret. split; [done|]. exists [], ((a, n) :: bs). set_solver.
    + mstep. apply rd_runs; [lia|]. rewrite add64_small by zlia.
      eapply runs_mono; [apply (IH fuel a _ (a + n * PAGE_SIZE)); [done..| | |]; lia|].
      intros [p' c'] s' (-> & l & r & -> & Hl & Hpc & Hr). split; [done|].
      exists ((a, n) :: l), r. split_and!; [done| |done..].
      intros b k [?|?]%elem_of_cons; [simplify_eq; lia|eauto].
Qed.

(** [find_fit] finds the first block with enough pages. *)
Lemma find_fit_spec fuel k prev cur lo bs s :
  seg (mem s) cur bs 0 -> blocks_ok lo bs -> 0 < lo ->
  (length bs < fuel)%nat ->
  runs (find_fit fuel k prev cur) s (fun pc s' =>
    s' = s /\ exists l r, bs = l ++ r /\
      (forall a n, (a, n) ∈ l -> n < k) /\
      fst pc = last_addr prev l /\
      match r with [] => snd pc = 0 | (a, n) :: _ => snd pc = a /\ k <= n end).
Proof.
  revert fuel prev cur lo. induction bs as [|[a n] bs IH]; intros fuel prev cur lo.
  - simpl. intros -> _ _ Hf. destruct fuel as [|fuel]; [lia|]. simpl.
    apply runs_ret. split; [done|]. exists [], []. set_solver.
  - simpl. intros (-> & Hc & Hs) (Hlo & Hn & Ha & Hb & Hok) Hpos Hf.
    destruct fuel as [|fuel]; [lia|]. simpl.
    destruct (Z.eqb_spec a 0) as [|_]; [lia|].
    mstep. apply rd_runs; [lia|]. rewrite add64_small, Z.add_0_r, Hc by zlia.
    destruct (Z.leb_spec k n) as [Hle|Hgt].
    + apply runs_ret. split; [done|]. exists [], ((a, n) :: bs). set_solver.
    + mstep. apply rd_runs; [lia|]. rewrite add64_small by zlia.
      eapply runs_mono; [apply (IH fuel a _ (a + n * PAGE_SIZE)); [done..| |]; lia|].
      intros [p' c'] s' (-> & l & r & -> & Hl & Hpc & Hr). split; [done|].
      exists ((a, n) :: l), r. split_and!; [done| |done..].
      intros b j [?|?]%elem_of_cons; [simplify_eq; lia|eauto].
Qed.

(** *** Symbolic execution of the operations *)

(** Normalise reads from written memory, with page-aligned addresses. *)
Ltac mem_norm :=
  repeat first
    [ rewrite Z.add_0_r in * | rewrite fn_lookup_insert in *
    | rewrite fn_lookup_insert_ne in * by zlia ].

(** Run one access of a node at a known non-null address. *)
Ltac access :=
  unfold rd_PageCount, rd_Next, wr_PageCount, wr_Next;
  lazymatch goal with
  | |- runs (rd ?p ?o) _ _ => apply rd_runs; [zlia|]; rewrite (add64_small p o) by zlia; cbn
  | |- runs (wr ?p ?o _) _ _ => apply wr_runs; [zlia|]; rewrite (add64_small p o) by zlia; cbn
  end; mem_norm.

Ltac run1 :=
  cbn;
  lazymatch goal with
  | |- runs (rd _ _) _ _ => access
  | |- runs (wr _ _ _) _ _ => access
  | |- runs (rd_PageCount _) _ _ => access
  | |- runs (rd_Next _) _ _ => access
  | |- runs (wr_PageCount _ _) _ _ => access
  | |- runs (wr_Next _ _) _ _ => access
  | |- runs (add_NodeCount _) _ _ => apply runs_modify
  | |- runs (add_FreeCount _) _ _ => apply runs_modify
  | |- runs (add_TotalCount _) _ _ => apply runs_modify
  | |- runs (add_UsedCount _) _ _ => apply runs_modify
  | |- runs Unlock _ _ => apply runs_modify
  | |- runs (ret _) _ _ => apply runs_ret
  | |- runs (bind _ _) _ _ => apply runs_bind
  | |- runs (gets _) _ _ => apply runs_gets
  | |- runs (modify _) _ _ => apply runs_modify
  end.

Lemma Lock_runs s (Q : unit -> state -> Prop) :
  m_lock s = false -> Q tt (set_lock true s) -> runs Lock s Q.
Proof. intros H HQ. unfold Lock. mgo. rewrite H. by apply runs_modify. Qed.

(** Frame a segment across writes to nodes below or above it. *)
Ltac frame :=
  repeat first
    [ eassumption
    | lazymatch goal with
      | |- seg (<[?q + 8 := ?v]> ?m) _ _ _ =>
          first [ eapply (seg_write_lo _ _ _ _ _ q); [eassumption|lia|zlia|by right|]
                | eapply (seg_write_hi _ _ _ _ _ q); [eassumption|lia|zlia|by right|] ]
      | |- seg (<[?q := ?v]> ?m) _ _ _ =>
          first [ eapply (seg_write_lo _ _ _ _ _ q); [eassumption|lia|zlia|by left|]
                | eapply (seg_write_hi _ _ _ _ _ q); [eassumption|lia|zlia|by left|] ]
      end ].

(** The writes stayed inside the given blocks. *)
Ltac frame_mem :=
  let x := fresh "x" in let Hx := fresh "Hx" in
  intros x Hx; rewrite ?covers_app, ?covers_cons, ?covers_nil in Hx;
  rewrite ?fn_lookup_insert_ne by zlia; done.

(** Close the goals of [rep]: counters by arithmetic, links by framing. *)
Ltac rep_tac :=
  cbn [length pages last_addr seg blocks_ok] in *;
  constructor; cbn; rewrite ?wrap64_small by lia; mem_norm; split_and?;
  try done; try zlia; try solve [frame | frame_mem].

(** The same when the list starts with a prefix [l] whose successor is at [pa]. *)
Ltac rep_tac_at pa :=
  cbn [length pages last_addr seg blocks_ok] in *;
  constructor; cbn;
  rewrite ?seg_app, ?blocks_ok_app, ?last_addr_app, ?length_app, ?wrap64_small by lia;
  cbn; mem_norm; try frame_mem;
  first [ exists pa | idtac ]; mem_norm; split_and?;
  try done; try zlia; try solve [frame].

Section Specs.
Context (hhdm : Z).


(** The last block of a non-empty prefix. *)
Lemma last_addr_snoc d l : l <> [] -> exists l' a n, l = l' ++ [(a, n)] /\ last_addr d l = a.
Proof.
  intros Hl. destruct (exists_last Hl) as (l' & [a n] & ->). exists l', a, n.
  by rewrite last_addr_app.
Qed.

Lemma take_head_runs k a n r s :
  linked ((a, n) :: r) s -> Z.of_nat (length r) < W64 -> 0 < k <= n ->
  runs (take_block k 0 a) s (fun _ s' =>
    linked (if n =? k then r else (a + k * PAGE_SIZE, n - k) :: r) s' /\
    list_step ((a, n) :: r) s s').
Proof.
  destruct s as [st en nc fc uc tc lk m]. intros [Hsg Hbk He Hnc] Hlen Hk; cbn in *.
  destruct Hsg as (-> & Hc & Hs), Hbk as (Hlo & Hn & Ha & Hb & Hok).
  unfold take_block. repeat run1. rewrite Hc. destruct (Z.eqb_spec n k) as [->|Hn1].
  - cbn. repeat run1. apply runs_when; intros Hq; zb; cbn in Hq; subst en; repeat run1.
    + symmetry in Hq. eapply last_addr_self in Hq; [|done|lia]. subst r.
      split; rep_tac.
    + assert (r <> []) by (intros ->; done).
      split; rep_tac.
      * by eapply blocks_ok_weaken; [|done]; lia.
      * by apply last_addr_irrel.
  - cbn. rewrite (mul64_small 4096 k), (add64_small a), (Z.mul_comm 4096) by lia.
    repeat run1. apply runs_when; intros Hq; zb; cbn in Hq; subst en; repeat run1.
    all: rewrite Hc, (sub64_small n k) by lia.
    all: replace (a + n * 4096) with (a + k * 4096 + (n - k) * 4096) in * by lia.
    + symmetry in Hq. eapply last_addr_self in Hq; [|done|lia]. subst r.
      split; rep_tac.
    + assert (r <> []) by (intros ->; done).
      split; rep_tac. by apply last_addr_irrel.
Qed.

Lemma take_next_runs k l pa pn a n r s :
  linked (l ++ (pa, pn) :: (a, n) :: r) s ->
  Z.of_nat (length (l ++ (pa, pn) :: (a, n) :: r)) < W64 -> 0 < k <= n ->
  runs (take_block k pa a) s (fun _ s' =>
    linked (if n =? k then l ++ (pa, pn) :: r
            else l ++ (pa, pn) :: (a + k * PAGE_SIZE, n - k) :: r) s' /\
    list_step (l ++ (pa, pn) :: (a, n) :: r) s s').
Proof.
  destruct s as [st en nc fc uc tc lk m]. intros [Hsg Hbk He Hnc] Hlen Hk; cbn in *.
  rewrite last_addr_app in He. rewrite length_app in *. cbn in *.
  apply blocks_ok_app in Hbk as [Hol (Hplo & Hpn & Hpa & Hpb & Hlo & Hn & Ha & Hb & Hok)].
  pose proof (end_of_ge _ _ Hol) as Hge.
  apply seg_app in Hsg as (x & Hl & -> & Hpc & Hpx & Hc & Hs).
  unfold take_block. repeat run1. rewrite Hc.
  destruct (Z.eqb_spec pa 0) as [|_]; [lia|].
  destruct (Z.eqb_spec n k) as [->|Hn1].
  - repeat run1. apply runs_when; intros Hq; zb; cbn in Hq; subst en; repeat run1.
    + symmetry in Hq. eapply last_addr_self in Hq; [|done|lia]. subst r.
      split; rep_tac_at pa.
    + assert (r <> []) by (intros ->; done).
      split; rep_tac_at pa.
      * by eapply blocks_ok_weaken; [|done]; lia.
      * by apply last_addr_irrel.
  - cbn. rewrite (mul64_small 4096 k), (add64_small a), (Z.mul_comm 4096) by lia.
    repeat run1. apply runs_when; intros Hq; zb; cbn in Hq; subst en; repeat run1.
    all: rewrite Hc, (sub64_small n k) by lia.
    all: replace (a + n * 4096) with (a + k * 4096 + (n - k) * 4096) in * by lia.
    + symmetry in Hq. eapply last_addr_self in Hq; [|done|lia]. subst r.
      split; rep_tac_at pa.
    + assert (r <> []) by (intros ->; done).
      split; rep_tac_at pa. by apply last_addr_irrel.
Qed.

Lemma AllocatePage_runs a n bs s :
  rep ((a, n) :: bs) s ->
  runs (AllocatePage hhdm) s (fun p s' =>
    p = from_HHDM hhdm a /\
    rep (if n =? 1 then bs else (a + 1 * PAGE_SIZE, n - 1) :: bs) s' /\
    m_usedPageCount s' = m_usedPageCount s + 1 /\
    (forall x, ~ covers ((a, n) :: bs) x -> mem s' x = mem s x)).
Proof.
  destruct s as [st en nc fc uc tc lk m].
  intros [[Hsg Hbk He Hnc] Hf Hu Ht Hbd Hl]; cbn in *.
  destruct Hsg as (-> & Hc & Hs), Hbk as (Hlo & Hn & Ha & Hb & Hok).
  pose proof (pages_nonneg _ _ Hok) as Hpg.
  unfold AllocatePage. mstep. apply Lock_runs; [done|].
  repeat run1. apply runs_assert; [apply Z.ltb_lt; lia|].
  repeat run1. rewrite Hc. destruct (Z.eqb_spec n 1) as [->|Hn1].
  - repeat run1. apply runs_when; intros Hq; zb; cbn in Hq; subst en; repeat run1.
    + symmetry in Hq. eapply last_addr_self in Hq; [|done|lia]. subst bs.
      split_and!; [done|rep_tac; rep_tac|by apply wrap64_small; lia|done].
    + assert (bs <> []) by (intros ->; done).
      split_and!; [done|rep_tac; rep_tac| by apply wrap64_small; lia|done].
      * by eapply blocks_ok_weaken; [|done]; lia.
      * by apply last_addr_irrel.
  - rewrite (add64_small a 4096) by lia.
    repeat run1. apply runs_when; intros Hq; zb; cbn in Hq; subst en; repeat run1.
    all: rewrite Hc, (sub64_small n 1), Z.mul_1_l by lia.
    all: replace (a + n * 4096) with (a + 4096 + (n - 1) * 4096) in * by lia.
    + symmetry in Hq. eapply last_addr_self in Hq; [|done|lia]. subst bs.
      split_and!; [done|rep_tac; rep_tac|by apply wrap64_small; lia|cbn; frame_mem].
    + assert (bs <> []) by (intros ->; done).
      split_and!; [done|rep_tac; rep_tac|by apply wrap64_small; lia|cbn; frame_mem].
      by apply last_addr_irrel.
Qed.

(** Account for [k] pages leaving the list. *)
Lemma rep_take bs bs' k s s' :
  rep bs s -> linked bs' s' -> list_step bs (set_lock true s) s' ->
  pages bs' = pages bs - k -> 0 <= k ->
  rep bs' (set_lock false (set_UsedCount (wrap64 (m_usedPageCount s' + k))
    (set_FreeCount (wrap64 (m_FreePageCount s' + - k)) s'))) /\
  wrap64 (m_usedPageCount s' + k) = m_usedPageCount s + k.
Proof.
  intros [Hlk Hf Hu Ht Hbd Hl] Hlk' [Hf' Hu' Ht' _ _] Hp Hk. destruct Hlk' as [? Hok' ? ?].
  pose proof (pages_nonneg _ _ Hok'). cbn in *.
  rewrite Hf', Hu', !wrap64_small by lia. split; [|done].
  constructor; cbn; try done; try lia.
Qed.

Lemma AllocatePages_runs fuel k bs s :
  rep bs s -> bs <> [] -> 1 < k -> (length bs < fuel)%nat ->
  runs (AllocatePages hhdm fuel k) s (fun p s' =>
    (p = 0 /\ s' = s /\ forall a n, (a, n) ∈ bs -> n < k) \/
    exists a bs', p = from_HHDM hhdm a /\ takes bs a k bs' /\ rep bs' s' /\
      (exists l n r, bs = l ++ (a, n) :: r /\ k <= n /\ forall b j, (b, j) ∈ l -> j < k) /\
      (length bs' <= length bs)%nat /\ m_usedPageCount s' = m_usedPageCount s + k /\
      (forall x, ~ covers bs x -> mem s' x = mem s x)).
Proof.
  intros Hrep Hne Hk1 Hfuel.
  pose proof Hrep as [[Hsg Hbk He Hnc] Hf Hu Ht Hbd Hl].
  pose proof (pages_nonneg _ _ Hbk) as Hpg.
  assert (0 < length bs)%nat by (destruct bs; [done|cbn; lia]).
  unfold AllocatePages. destruct (Z.eqb_spec k 1) as [|_]; [lia|].
  mstep. apply Lock_runs; [done|].
  repeat run1. apply runs_assert; [apply Z.ltb_lt; lia|]. repeat run1.
  eapply runs_mono; [apply (find_fit_spec _ _ _ _ PAGE_SIZE bs); cbn; auto; lia|].
  intros [pv cu] ? (-> & l & r & -> & Hfit & Hpv & Hcu); cbn in Hpv, Hcu.
  destruct r as [|[a n] r].
  { rewrite Hcu. cbn. apply runs_bind, runs_modify, runs_ret. left.
    rewrite app_nil_r. split_and!; [done| |done].
    destruct s; cbn in *; by subst. }
  destruct Hcu as [-> Hkn].
  pose proof (blocks_ok_elem _ _ a n Hbk ltac:(set_solver)) as (Hlo & _).
  destruct (Z.eqb_spec a 0) as [|_]; [lia|].
  mstep.
  eapply (runs_mono _ _ (fun _ s' =>
    linked (if n =? k then l ++ r else l ++ (a + k * PAGE_SIZE, n - k) :: r) s' /\
    list_step (l ++ (a, n) :: r) (set_lock true s) s')).
  { destruct (decide (l = [])) as [->|Hl0]; cbn in Hpv; subst pv.
    - apply take_head_runs; [|cbn in *; lia|lia]. by constructor.
    - destruct (last_addr_snoc 0 l Hl0) as (l' & pa & pn & -> & ->).
      rewrite <- !app_assoc in *. cbn in *.
      apply take_next_runs; [by constructor|lia|lia]. }
  intros [] s' [Hlk Hst]. repeat run1. right.
  exists a, (if n =? k then l ++ r else l ++ (a + k * PAGE_SIZE, n - k) :: r).
  edestruct (rep_take (l ++ (a, n) :: r) _ k s s' Hrep Hlk Hst); [|lia|].
  { destruct (Z.eqb_spec n k); rewrite !pages_app; cbn; lia. }
  split_and!; [done|eapply takes_split; [done|lia]|done|by exists l, n, r| |done|].
  { destruct (n =? k); rewrite !length_app; cbn; lia. }
  intros x Hx. by apply (ls_mem _ _ _ Hst x Hx).
Qed.

Lemma insert_first_runs k node ca cn r s :
  linked ((ca, cn) :: r) s -> Z.of_nat (length r) + 2 < W64 -> 0 < k ->
  PAGE_SIZE <= node -> node mod PAGE_SIZE = 0 -> node + k * PAGE_SIZE <= ca ->
  runs (insert_first node ca k) s (fun _ s' =>
    linked (if node + k * PAGE_SIZE =? ca then (node, k + cn) :: r
            else (node, k) :: (ca, cn) :: r) s' /\
    list_step ((node, k) :: (ca, cn) :: r) s s').
Proof.
  destruct s as [st en nc fc uc tc lk m].
  intros [Hsg Hbk He Hnc] Hlen Hk Hnlo Hna Hle; cbn in *.
  destruct Hsg as (-> & Hc & Hs), Hbk as (Hlo & Hn & Ha & Hb & Hok).
  unfold insert_first. rewrite (mul64_small 4096 k), (add64_small node), (Z.mul_comm 4096) by lia.
  mstep. destruct (Z.eqb_spec (node + k * 4096) ca) as [<-|Hne].
  - repeat run1. rewrite Hc, (add64_small cn k), (Z.add_comm cn) by lia.
    replace (node + k * 4096 + cn * 4096) with (node + (k + cn) * 4096) in * by lia.
    apply runs_when; intros Hq; zb; cbn in Hq; subst en; repeat run1.
    + eapply last_addr_self in Hq; [|done|lia]. subst r. split; rep_tac.
    + assert (r <> []) by (intros ->; done).
      split; rep_tac. by apply last_addr_irrel.
  - repeat run1. split; rep_tac.
Qed.

(** The list after inserting the run at [node] between two blocks. *)
Definition merged (pa pn node k ca cn : Z) : list (Z * Z) :=
  if pa + pn * PAGE_SIZE =? node then
    if node + k * PAGE_SIZE =? ca then [(pa, pn + k + cn)] else [(pa, pn + k); (ca, cn)]
  else
    if node + k * PAGE_SIZE =? ca then [(pa, pn); (node, k + cn)]
    else [(pa, pn); (node, k); (ca, cn)].

Lemma insert_between_runs k node l pa pn ca cn r s :
  linked (l ++ (pa, pn) :: (ca, cn) :: r) s ->
  Z.of_nat (length (l ++ (pa, pn) :: (ca, cn) :: r)) + 1 < W64 -> 0 < k ->
  node mod PAGE_SIZE = 0 -> pa + pn * PAGE_SIZE <= node -> node + k * PAGE_SIZE <= ca ->
  runs (insert_between node pa ca k) s (fun _ s' =>
    linked (l ++ merged pa pn node k ca cn ++ r) s' /\
    list_step (l ++ (pa, pn) :: (node, k) :: (ca, cn) :: r) s s').
Proof.
  destruct s as [st en nc fc uc tc lk m].
  intros [Hsg Hbk He Hnc] Hlen Hk Hna Hple Hle; cbn in *.
  rewrite last_addr_app in He. rewrite length_app in *. cbn in *.
  apply blocks_ok_app in Hbk as [Hol (Hplo & Hpn & Hpa & Hpb & Hlo & Hn & Ha & Hb & Hok)].
  pose proof (end_of_ge _ _ Hol) as Hge.
  apply seg_app in Hsg as (x & Hl & -> & Hpc & Hpx & Hc & Hs).
  unfold insert_between, merged. mstep. apply runs_assert; [apply Z.ltb_lt; lia|].
  repeat run1. rewrite Hpc, (mul64_small pn), (add64_small pa) by lia.
  destruct (Z.eqb_spec (pa + pn * 4096) node) as [<-|Hpne].
  - repeat run1. rewrite Hpc, (add64_small pn) by lia. rewrite mul64_small, (add64_small pa) by lia.
    replace (pa + (pn + k) * 4096) with (pa + pn * 4096 + k * 4096) by lia.
    destruct (Z.eqb_spec (pa + pn * 4096 + k * 4096) ca) as [<-|Hne].
    + repeat run1. rewrite Hc, (add64_small (pn + k)) by lia.
      replace (pa + pn * 4096 + k * 4096 + cn * 4096) with (pa + (pn + k + cn) * 4096) in * by lia.
      apply runs_when; intros Hq; zb; cbn in Hq; subst en; repeat run1.
      * eapply last_addr_self in Hq; [|done|lia]. subst r. split; rep_tac_at pa.
      * assert (r <> []) by (intros ->; done).
        split; rep_tac_at pa. by apply last_addr_irrel.
    + repeat run1. split; rep_tac_at pa.
  - repeat run1. rewrite (mul64_small k), (add64_small node), (wrap64_small (nc + 1)) by lia.
    destruct (Z.eqb_spec (node + k * 4096) ca) as [<-|Hne].
    + repeat run1. rewrite Hc, (add64_small k) by lia.
      replace (node + k * 4096 + cn * 4096) with (node + (k + cn) * 4096) in * by lia.
      apply runs_when; intros Hq; zb; cbn in Hq; subst en; repeat run1.
      * eapply last_addr_self in Hq; [|done|lia]. subst r. split; rep_tac_at pa.
      * assert (r <> []) by (intros ->; done).
        split; rep_tac_at pa. by apply last_addr_irrel.
    + repeat run1. split; rep_tac_at pa.
Qed.

(** Appending after the last block: when it is adjacent the block grows;
    otherwise the node is linked but its [PageCount] is never written, so the
    word found there becomes the page count. *)
Lemma append_last_runs k node l ea en s :
  linked (l ++ [(ea, en)]) s -> Z.of_nat (length l) + 2 < W64 -> 0 < k ->
  node mod PAGE_SIZE = 0 -> ea + en * PAGE_SIZE <= node -> node + k * PAGE_SIZE < W64 ->
  ea + en * PAGE_SIZE = node \/ mem s node = k ->
  runs (append_last node k) s (fun _ s' =>
    linked (l ++ (if ea + en * PAGE_SIZE =? node then [(ea, en + k)]
                  else [(ea, en); (node, k)])) s' /\
    list_step (l ++ [(ea, en); (node, k)]) s s').
Proof.
  destruct s as [st ep nc fc uc tc lk m].
  intros [Hsg Hbk He Hnc] Hlen Hk Hna Hle Hnw Hg; cbn in *.
  rewrite last_addr_app in He. rewrite length_app in *. cbn in *. subst ep.
  apply blocks_ok_app in Hbk as [Hol (Hplo & Hpn & Hpa & Hpb & _)].
  pose proof (end_of_ge _ _ Hol) as Hge.
  apply seg_app in Hsg as (x & Hl & -> & Hc & Hx).
  unfold append_last. repeat run1. cbn. destruct (Z.eqb_spec ea 0) as [|_]; [lia|].
  repeat run1. rewrite Hc, (mul64_small en), (add64_small ea) by lia.
  destruct (Z.eqb_spec (ea + en * 4096) node) as [<-|Hne].
  - repeat run1. rewrite Hc, (add64_small en) by lia. split; rep_tac_at ea.
  - destruct Hg as [|Hg]; [done|]. repeat run1. split; rep_tac_at ea.
Qed.

Lemma takes_insert_first lo k node ca cn r :
  blocks_ok lo ((ca, cn) :: r) -> 0 < k -> node mod PAGE_SIZE = 0 ->
  node + k * PAGE_SIZE <= ca ->
  takes (if node + k * PAGE_SIZE =? ca then (node, k + cn) :: r
         else (node, k) :: (ca, cn) :: r) node k ((ca, cn) :: r).
Proof.
  cbn. intros (Hlo & Hn & Ha & Hb & Hr) Hk Hna Hle.
  assert (Hrr : forall x, covers r x -> ca + cn * PAGE_SIZE <= x).
  { intros x Hx. apply (covers_range _ _ _ Hr) in Hx. lia. }
  destruct (Z.eqb_spec (node + k * 4096) ca) as [<-|Hne]; split; try done;
    intros x; specialize (Hrr x); unfold in_run; rewrite ?covers_cons; clear Hr; intuition lia.
Qed.

Lemma takes_insert_between lo k node l pa pn ca cn r :
  blocks_ok lo (l ++ (pa, pn) :: (ca, cn) :: r) -> 0 < k -> node mod PAGE_SIZE = 0 ->
  pa + pn * PAGE_SIZE <= node -> node + k * PAGE_SIZE <= ca ->
  takes (l ++ merged pa pn node k ca cn ++ r) node k (l ++ (pa, pn) :: (ca, cn) :: r).
Proof.
  rewrite blocks_ok_app. cbn. intros (Hl & Hp & Hpn & Hpa & Hpb & Hlo & Hn & Ha & Hb & Hr) Hk Hna Hple Hle.
  assert (Hrr : forall x, covers r x -> ca + cn * PAGE_SIZE <= x).
  { intros x Hx. apply (covers_range _ _ _ Hr) in Hx. lia. }
  assert (Hrl : forall x, covers l x -> x < pa).
  { intros x Hx. apply (covers_range _ _ _ Hl) in Hx. lia. }
  unfold merged.
  destruct (Z.eqb_spec (pa + pn * 4096) node) as [Hpe|Hpne];
    destruct (Z.eqb_spec (node + k * 4096) ca) as [He|Hne]; split; try done;
    intros x; specialize (Hrr x); specialize (Hrl x); unfold in_run; cbn;
    rewrite ?covers_app, ?covers_cons; clear Hr Hl; intuition lia.
Qed.

Lemma takes_append lo k node l ea en :
  blocks_ok lo (l ++ [(ea, en)]) -> 0 < k -> node mod PAGE_SIZE = 0 ->
  ea + en * PAGE_SIZE <= node ->
  takes (l ++ (if ea + en * PAGE_SIZE =? node then [(ea, en + k)]
               else [(ea, en); (node, k)])) node k (l ++ [(ea, en)]).
Proof.
  rewrite blocks_ok_app. cbn. intros (Hl & Hp & Hpn & Hpa & Hpb & _) Hk Hna Hle.
  assert (Hrl : forall x, covers l x -> x < ea).
  { intros x Hx. apply (covers_range _ _ _ Hl) in Hx. lia. }
  destruct (Z.eqb_spec (ea + en * 4096) node) as [<-|Hne]; split; try done;
    intros x; specialize (Hrl x); unfold in_run;
    rewrite ?covers_app, ?covers_cons, ?covers_nil; clear Hl; intuition lia.
Qed.

(** The run was joined with the blocks that touch it: no block of [bs'] stops
    where it starts or starts where it stops, and the blocks of [bs] that do
    not touch it are blocks of [bs'] as they were. *)
Definition coalesced (bs' : list (Z * Z)) (node k : Z) (bs : list (Z * Z)) : Prop :=
  (forall a n, (a, n) ∈ bs' -> a + n * PAGE_SIZE <> node /\ a <> node + k * PAGE_SIZE) /\
  (forall a n, (a, n) ∈ bs -> a + n * PAGE_SIZE <> node -> a <> node + k * PAGE_SIZE ->
     (a, n) ∈ bs').

Ltac coalesce :=
  repeat match goal with
  | |- context [_ =? _] => case Z.eqb_spec; intros
  | H : context [_ ∈ _ ++ _] |- _ => rewrite elem_of_app in H
  | H : context [_ ∈ _ :: _] |- _ => rewrite elem_of_cons in H
  | H : context [_ ∈ []] |- _ => rewrite elem_of_nil in H
  | H : _ \/ _ |- _ => destruct H
  | H : False |- _ => destruct H
  | H : (_, _) = (_, _) |- _ => injection H as -> ->
  | |- context [_ ∈ _ ++ _] => rewrite elem_of_app
  | |- context [_ ∈ _ :: _] => rewrite elem_of_cons
  end.

Lemma coalesced_insert_first lo k node ca cn r :
  blocks_ok lo ((ca, cn) :: r) -> 0 < k -> node + k * PAGE_SIZE <= ca ->
  coalesced (if node + k * PAGE_SIZE =? ca then (node, k + cn) :: r
             else (node, k) :: (ca, cn) :: r) node k ((ca, cn) :: r).
Proof.
  cbn. intros (Hlo & Hn & Ha & Hb & Hr) Hk Hle.
  assert (Hrr : forall a n, (a, n) ∈ r -> ca + cn * PAGE_SIZE <= a /\ 0 < n).
  { intros a n Hin. pose proof (blocks_ok_elem _ _ _ _ Hr Hin). lia. }
  clear Hr. split; intros a n; specialize (Hrr a n);
    (case Z.eqb_spec; intros He Hin; [clear Ha|]); coalesce;
    try (specialize (Hrr ltac:(done))); try lia; auto.
Qed.

Lemma coalesced_insert_between lo k node l pa pn ca cn r :
  blocks_ok lo (l ++ (pa, pn) :: (ca, cn) :: r) -> 0 < k ->
  pa + pn * PAGE_SIZE <= node -> node + k * PAGE_SIZE <= ca ->
  coalesced (l ++ merged pa pn node k ca cn ++ r) node k (l ++ (pa, pn) :: (ca, cn) :: r).
Proof.
  rewrite blocks_ok_app. cbn. intros (Hl & Hp & Hpn & _ & _ & Hlo & Hn & _ & _ & Hr) Hk Hple Hle.
  assert (Hrr : forall a n, (a, n) ∈ r -> ca + cn * PAGE_SIZE <= a /\ 0 < n).
  { intros a n Hin. pose proof (blocks_ok_elem _ _ _ _ Hr Hin). lia. }
  assert (Hrl : forall a n, (a, n) ∈ l -> a + n * PAGE_SIZE <= pa /\ 0 < n).
  { intros a n Hin. pose proof (blocks_ok_elem _ _ _ _ Hl Hin). lia. }
  clear Hr Hl. unfold merged.
  destruct (Z.eqb_spec (pa + pn * 4096) node) as [He1|He1];
    destruct (Z.eqb_spec (node + k * 4096) ca) as [He2|He2];
    split; intros a n; specialize (Hrr a n); specialize (Hrl a n); intros; coalesce;
    try (specialize (Hrr ltac:(done))); try (specialize (Hrl ltac:(done))); try lia; tauto.
Qed.

Lemma coalesced_append lo k node l ea en :
  blocks_ok lo (l ++ [(ea, en)]) -> 0 < k -> ea + en * PAGE_SIZE <= node ->
  coalesced (l ++ (if ea + en * PAGE_SIZE =? node then [(ea, en + k)]
                   else [(ea, en); (node, k)])) node k (l ++ [(ea, en)]).
Proof.
  rewrite blocks_ok_app. cbn. intros (Hl & Hp & Hpn & _ & _ & _) Hk Hle.
  assert (Hrl : forall a n, (a, n) ∈ l -> a + n * PAGE_SIZE <= ea /\ 0 < n).
  { intros a n Hin. pose proof (blocks_ok_elem _ _ _ _ Hl Hin). lia. }
  clear Hl. split; intros a n; specialize (Hrl a n);
    (case Z.eqb_spec; intros); coalesce; try (specialize (Hrl ltac:(done))); try lia; tauto.
Qed.

(** Account for [k] pages coming back to the list. *)
Lemma rep_give bs bs' fb k s s' :
  rep bs s -> linked bs' s' -> list_step fb (set_lock true s) s' ->
  pages bs' = pages bs + k -> 0 <= k <= m_usedPageCount s ->
  rep bs' (set_lock false (set_UsedCount (wrap64 (m_usedPageCount s' + - k))
    (set_FreeCount (wrap64 (m_FreePageCount s' + k)) s'))) /\
  wrap64 (m_usedPageCount s' + - k) = m_usedPageCount s - k.
Proof.
  intros [Hlk Hf Hu Ht Hbd Hl] Hlk' [Hf' Hu' Ht' _ _] Hp Hk. destruct Hlk' as [? Hok' ? ?].
  pose proof (pages_nonneg _ _ Hok'). cbn in *.
  rewrite Hf', Hu', !wrap64_small by lia. split; [|lia].
  constructor; cbn; try done; try lia.
Qed.

(** The run [k] pages at [node] lies outside the free blocks. *)
Definition outside (bs : list (Z * Z)) (node k : Z) : Prop :=
  forall x, in_run node k x -> ~ covers bs x.

Lemma outside_block bs lo a n node k :
  blocks_ok lo bs -> (a, n) ∈ bs -> 0 < k -> outside bs node k ->
  (a <= node -> a + n * PAGE_SIZE <= node) /\ (node < a -> node + k * PAGE_SIZE <= a).
Proof.
  intros Hok Hin Hk Ho. pose proof (blocks_ok_elem _ _ _ _ Hok Hin) as (_ & Hn & _).
  split; intros Hle.
  - destruct (Z.le_gt_cases (a + n * PAGE_SIZE) node) as [|Hgt]; [done|exfalso].
    apply (Ho node); [unfold in_run; lia|]. exists a, n. split; [done|lia].
  - destruct (Z.le_gt_cases (node + k * PAGE_SIZE) a) as [|Hgt]; [done|exfalso].
    apply (Ho a); [unfold in_run; lia|]. exists a, n. split; [done|lia].
Qed.

Lemma list_step_weaken fb bs s s' :
  (forall x, covers fb x -> covers bs x) -> list_step fb s s' -> list_step bs s s'.
Proof. intros H []. constructor; auto. Qed.

Lemma list_step_takes bs bs' fb node k s s' :
  takes bs' node k bs -> (forall x, covers fb x -> covers bs x \/ in_run node k x) ->
  list_step fb s s' -> list_step bs' s s'.
Proof.
  intros Htk H. apply list_step_weaken. intros x Hx.
  apply (tk_split _ _ _ _ Htk). auto.
Qed.

Ltac step_takes Htk Hst :=
  eapply (list_step_takes _ _ _ _ _ _ _ Htk); [|exact Hst];
  intros ?x; rewrite ?covers_app, ?covers_cons; unfold in_run; tauto.

(** What the tail path of [FreePages] needs, since it does not write the page
    count: a block above the run, or the run extending the last block, or the
    right count left in the page by its last owner. *)
Definition can_append (bs : list (Z * Z)) (m : memory) (node k : Z) : Prop :=
  (exists a n, (a, n) ∈ bs /\ node < a) \/
  (exists l ea en, bs = l ++ [(ea, en)] /\ (ea + en * PAGE_SIZE = node \/ m node = k)).

(** The three placements of a freed run, together. *)
Definition place (node previous current k : Z) : M state unit :=
  if negb (current =? 0) then
    if previous =? 0 then insert_first node current k
    else insert_between node previous current k
  else append_last node k.

Lemma place_runs k node l r cu s :
  linked (l ++ r) s -> outside (l ++ r) node k -> can_append (l ++ r) (mem s) node k ->
  0 < k -> node mod PAGE_SIZE = 0 -> PAGE_SIZE <= node -> node + k * PAGE_SIZE < W64 ->
  Z.of_nat (length (l ++ r)) + 1 < W64 ->
  (forall a n, (a, n) ∈ l -> a <= node) ->
  match r with [] => cu = 0 | (a, n) :: _ => cu = a /\ node < a end ->
  runs (place node (last_addr 0 l) cu k) s (fun _ s' =>
    exists bs', takes bs' node k (l ++ r) /\ coalesced bs' node k (l ++ r) /\ linked bs' s' /\
      pages bs' = pages (l ++ r) + k /\ list_step bs' s s').
Proof.
  intros Hlk Hout Happ Hk Hna Hnlo Hnhi Hlen Hlow Hcu. unfold place.
  pose proof (lk_ok _ _ Hlk) as Hbk.
  assert (Hob : forall a n, (a, n) ∈ l ++ r ->
    (a <= node -> a + n * PAGE_SIZE <= node) /\ (node < a -> node + k * PAGE_SIZE <= a))
    by (intros a n Hin; by eapply outside_block).
  destruct r as [|[ca cn] r].
  - rewrite app_nil_r in *. subst cu. cbn.
    destruct Happ as [(a & n & Hin & Hlt)|(l' & ea & en & -> & Hea)];
      [specialize (Hlow a n Hin); lia|].
    destruct (Hob ea en ltac:(set_solver)) as [Hle _].
    specialize (Hle (Hlow ea en ltac:(set_solver))).
    rewrite length_app in Hlen; cbn in Hlen.
    eapply runs_mono; [apply append_last_runs; try done; lia|].
    intros [] s' [Hlk' Hst].
    pose proof (takes_append _ k node l' ea en Hbk Hk Hna Hle) as Htk.
    eexists; split_and!; [exact Htk|by eapply coalesced_append|exact Hlk'| |].
    + destruct (_ =? _); rewrite !pages_app; cbn; lia.
    + step_takes Htk Hst.
  - destruct Hcu as [-> Hlt]. destruct (Hob ca cn ltac:(set_solver)) as [_ Hle].
    specialize (Hle Hlt). destruct (Z.eqb_spec ca 0) as [|_]; [lia|]. cbn [negb].
    destruct (decide (l = [])) as [->|Hl0]; cbn [last_addr].
    + cbn in Hlen. eapply runs_mono; [apply (insert_first_runs k node ca cn r); try done; cbn in *; lia|].
      intros [] s' [Hlk' Hst].
      pose proof (takes_insert_first _ k node ca cn r Hbk Hk Hna Hle) as Htk.
      eexists; split_and!; [exact Htk|by eapply coalesced_insert_first|exact Hlk'| |].
      * cbn. destruct (_ =? _); cbn; lia.
      * step_takes Htk Hst.
    + destruct (last_addr_snoc 0 l Hl0) as (l' & pa & pn & -> & ->).
      rewrite <- !app_assoc in *. cbn [app] in *.
      destruct (Hob pa pn ltac:(set_solver)) as [Hple _].
      specialize (Hple (Hlow pa pn ltac:(set_solver))).
      pose proof (blocks_ok_elem _ _ pa pn Hbk ltac:(set_solver)) as (Hplo & _).
      destruct (Z.eqb_spec pa 0) as [|_]; [lia|].
      eapply runs_mono; [apply (insert_between_runs k node l' pa pn ca cn r); done|].
      intros [] s' [Hlk' Hst].
      pose proof (takes_insert_between _ k node l' pa pn ca cn r Hbk Hk Hna Hple Hle) as Htk.
      eexists; split_and!; [exact Htk|by eapply coalesced_insert_between|exact Hlk'| |].
      * unfold merged. rewrite !pages_app. cbn. repeat destruct (_ =? _); cbn; lia.
      * step_takes Htk Hst.
Qed.

Lemma FreePages_runs fuel page k bs s :
  let node := to_HHDM hhdm page in
  rep bs s -> outside bs node k -> can_append bs (mem s) node k ->
  0 < k <= m_usedPageCount s -> node mod PAGE_SIZE = 0 ->
  PAGE_SIZE <= node -> node + k * PAGE_SIZE < W64 -> (length bs < fuel)%nat ->
  runs (FreePages hhdm fuel page k) s (fun _ s' =>
    exists bs', takes bs' node k bs /\ coalesced bs' node k bs /\ rep bs' s' /\
      m_usedPageCount s' = m_usedPageCount s - k /\
      (forall x, ~ covers bs' x -> mem s' x = mem s x)).
Proof.
  intros node Hrep Hout Happ Hk Hna Hnlo Hnhi Hfuel.
  pose proof Hrep as [[Hsg Hbk He Hnc] Hf Hu Ht Hbd Hl].
  pose proof (pages_nonneg _ _ Hbk) as Hpg.
  unfold FreePages. fold node. mstep. apply Lock_runs; [done|]. cbn [mem]. repeat run1.
  eapply runs_mono; [apply (find_slot_spec _ _ _ _ PAGE_SIZE bs); cbn; auto; lia|].
  intros [pv cu] ? (-> & l & r & -> & Hlow & Hpv & Hcu); cbn in Hpv, Hcu. subst pv.
  mstep. eapply runs_mono; [apply (place_runs k node l r cu); try done; lia|].
  intros [] s' (bs' & Htk & Hco & Hlk & Hp & Hst). repeat run1.
  edestruct (rep_give (l ++ r) bs' _ k s s' Hrep Hlk Hst Hp); [lia|].
  exists bs'. split_and!; [done..|]. intros x Hx. by apply (ls_mem _ _ _ Hst x Hx).
Qed.
End Specs.

End PMM.
