(* ===== verification/PMMSpec.v ===== *)
(** * PMMSpec.v: what the physical memory manager guarantees *)

From S2P Require Import Prelude PMM.

#[local] Open Scope Z_scope.
#[local] Open Scope kernel_scope.

Module PMMSpec.
Import PMM.

Section Spec.
Context (hhdm : Z).

(** ** Initialisation *)

(** The block a memory map entry contributes to the free list. *)
Definition entry_block (e : MemoryMapEntry) : option (Z * Z) :=
  if negb (Type_ e =? MEMORY_MAP_ENTRY_USABLE) then None
  else if Base e =? 0 then
    let l := sub64 (Length e) PAGE_SIZE in
    if l <? PAGE_SIZE then None
    else Some (to_HHDM hhdm (add64 (Base e) PAGE_SIZE), Z.shiftr l 12)
  else Some (to_HHDM hhdm (Base e), Z.shiftr (Length e) 12).

Definition usable_blocks (es : list MemoryMapEntry) : list (Z * Z) := omap entry_block es.

Lemma Init_append_runs base len bs s :
  let b := (to_HHDM hhdm base, Z.shiftr len 12) in
  rep bs s -> m_usedPageCount s = 0 -> blocks_ok PAGE_SIZE (bs ++ [b]) ->
  runs (Init_append hhdm base len) s (fun _ s' =>
    m_usedPageCount s' = 0 /\ rep (bs ++ [b]) s').
Proof.
  destruct s as [st en nc fc uc tc lk m]. cbv zeta.
  set (a := to_HHDM hhdm base). set (n := Z.shiftr len 12).
  intros [[Hsg Hbk He Hnc] Hf Hu Ht Hbd Hl] Hu0 Hok; cbn in *.
  pose proof (pages_bound PAGE_SIZE (bs ++ [(a, n)]) ltac:(lia) Hok) as [Hpg Hpb].
  pose proof (end_of_lt PAGE_SIZE (bs ++ [(a, n)]) ltac:(lia) Hok) as Hlt.
  pose proof (pages_nonneg _ _ Hok) as Hnn.
  rewrite pages_app, length_app in *. cbn in *.
  apply blocks_ok_app in Hok as [_ (Hlo & Hn & Ha & Hb & _)].
  pose proof (end_of_ge _ _ Hbk) as Hge.
  unfold Init_append. fold a n.
  repeat run1. cbn. subst en.
  destruct (decide (bs = [])) as [->|Hne]; cbn.
  - repeat run1. split; [done|]. do 2 rep_tac.
  - destruct (last_addr_snoc 0 bs Hne) as (l & pa & pn & -> & ->).
    apply seg_app in Hsg as (x & Hsl & -> & Hpc & Hpx).
    apply blocks_ok_app in Hbk as [Hol (Hplo & Hpn & Hpa & Hpb' & _)].
    rewrite end_of_app in *. cbn in *. rewrite pages_app, length_app in *. cbn in *.
    pose proof (end_of_ge _ _ Hol).
    destruct (Z.eqb_spec pa 0) as [|_]; [lia|].
    repeat run1. split; [done|]. rewrite <- !app_assoc. cbn.
    constructor; cbn; rewrite ?pages_app, ?wrap64_small by lia; cbn; try done; try lia.
    rep_tac_at pa.
Qed.

Lemma Init_loop_runs es bs s :
  rep bs s -> m_usedPageCount s = 0 -> blocks_ok PAGE_SIZE (bs ++ usable_blocks es) ->
  runs (Init_loop hhdm es) s (fun _ s' =>
    m_usedPageCount s' = 0 /\ rep (bs ++ usable_blocks es) s').
Proof.
  revert bs s. induction es as [|e es IH]; intros bs s Hrep Hu Hok; cbn [Init_loop].
  - apply runs_ret. cbn in *. rewrite app_nil_r. by split.
  - mstep.
    eapply (runs_mono _ _ (fun _ s' => m_usedPageCount s' = 0 /\
      rep (bs ++ from_option (fun b => [b]) [] (entry_block e)) s')).
    + unfold usable_blocks in Hok. cbn in Hok.
      unfold Init_entry, entry_block in *.
      destruct (negb _); [apply runs_ret; cbn; by rewrite app_nil_r|].
      destruct (Base e =? 0); cbn in *; [destruct (_ <? _)|];
        [apply runs_ret; cbn; by rewrite app_nil_r| |];
        (mstep; eapply runs_mono; [apply (Init_append_runs _ _ bs); try done|];
         [|intros [] s' [? ?]; by apply runs_ret]);
        rewrite (app_assoc bs [_]) in Hok || rewrite cons_middle, app_assoc in Hok;
        by apply blocks_ok_app in Hok as [? _].
    + intros e' s' [Hu' Hrep']. mstep. eapply runs_mono.
      * apply (IH _ _ Hrep' Hu'). unfold usable_blocks in *. cbn in Hok.
        destruct (entry_block e); cbn in *; rewrite ?app_nil_r, <- ?app_assoc; done.
      * intros es' s'' [Hu'' Hrep'']. apply runs_ret. split; [done|].
        unfold usable_blocks in *. cbn.
        destruct (entry_block e); cbn in *; rewrite ?app_nil_r, <- ?app_assoc in *; done.
Qed.

(** C34: [PMM::Init] on a memory map whose usable regions are page-aligned,
    non-empty and in address order builds a free list that contains exactly
    those regions (page 0 excluded), with every counter right. *)
Theorem Init_spec (es : list MemoryMapEntry) (m : memory) :
  blocks_ok PAGE_SIZE (usable_blocks es) ->
  runs (Init hhdm es) (init_state m) (fun _ s' =>
    rep (usable_blocks es) s' /\ m_usedPageCount s' = 0 /\
    m_totalPageCount s' = pages (usable_blocks es)).
Proof.
  intros Hok. unfold Init. mstep. eapply runs_mono.
  - apply (Init_loop_runs es []); [|done|done].
    repeat constructor; cbn; lia.
  - intros es' s' [Hu Hrep]. cbn in Hrep. mgo.
    destruct Hrep as [[] Hf ? Ht ?]. cbn in *.
    split_and!; [|done|lia]. constructor; cbn; try done; try lia.
Qed.

(** ** Allocation *)

(** The two allocation functions, as one statement about the run they take;
    the theorems below and the round trip share them. *)
Definition took (bs : list (Z * Z)) (k : Z) (s : state) (p : Z) (s' : state) : Prop :=
  exists a bs', p = from_HHDM hhdm a /\ takes bs a k bs' /\ rep bs' s' /\
    (exists l n r, bs = l ++ (a, n) :: r /\ k <= n /\ forall b j, (b, j) ∈ l -> j < k) /\
    (length bs' <= length bs)%nat /\ m_usedPageCount s' = m_usedPageCount s + k /\
    (forall x, ~ covers bs x -> mem s' x = mem s x).

Lemma AllocatePage_took (bs : list (Z * Z)) (s : state) :
  rep bs s -> 0 < m_FreePageCount s -> runs (AllocatePage hhdm) s (took bs 1 s).
Proof.
  intros Hrep Hpos. destruct bs as [|[a n] bs].
  { rewrite (rep_free _ _ Hrep) in Hpos. cbn in Hpos. lia. }
  eapply runs_mono; [by apply AllocatePage_runs|].
  intros p s' (-> & Hrep' & Hu & Hm). 
  pose proof (lk_ok _ _ (rep_linked _ _ Hrep)) as Hbk. cbn in Hbk.
  exists a; eexists. split_and!; [done| |done| | |done..].
  - apply (takes_split _ [] a n bs 1 Hbk). lia.
  - exists [], n, bs. split_and!; [done|lia|set_solver].
  - destruct (n =? 1); cbn; lia.
Qed.

Lemma AllocatePages_took (fuel : nat) (k : Z) (bs : list (Z * Z)) (s : state) :
  rep bs s -> 0 < m_FreePageCount s -> 0 < k -> (length bs < fuel)%nat ->
  runs (AllocatePages hhdm fuel k) s (fun p s' =>
    (p = 0 /\ s' = s /\ forall a n, (a, n) ∈ bs -> n < k) \/ took bs k s p s').
Proof.
  intros Hrep Hpos Hk Hfuel. destruct (Z.eq_dec k 1) as [->|Hk1].
  - unfold AllocatePages. cbn. eapply runs_mono; [by apply AllocatePage_took|].
    intros p s' H. by right.
  - apply AllocatePages_runs; try done; [|lia].
    intros ->. rewrite (rep_free _ _ Hrep) in Hpos. cbn in Hpos. lia.
Qed.

(** With a page free, [PMM::AllocatePage] terminates without a failed
    assertion, returns a page-aligned page that was free, removes exactly that
    page from the free list, keeps the invariant, and writes to no memory
    outside the free pages. *)
Theorem AllocatePage_spec (bs : list (Z * Z)) (s : state) :
  rep bs s -> 0 < m_FreePageCount s ->
  runs (AllocatePage hhdm) s (fun p s' => exists a bs',
    p = from_HHDM hhdm a /\ takes bs a 1 bs' /\ rep bs' s' /\
    (exists l n r, bs = l ++ (a, n) :: r /\ 1 <= n /\ forall b j, (b, j) ∈ l -> j < 1) /\
    (length bs' <= length bs)%nat /\ m_usedPageCount s' = m_usedPageCount s + 1 /\
    (forall x, ~ covers bs x -> mem s' x = mem s x)).
Proof. apply AllocatePage_took. Qed.

(** C33: [PMM::AllocatePages] is first fit: with enough fuel it terminates, and
    either returns null because no block is large enough, leaving the state
    alone, or returns a free run of exactly [k] pages and removes exactly that
    run from the free list, with the invariant kept. *)
Theorem AllocatePages_spec (fuel : nat) (k : Z) (bs : list (Z * Z)) (s : state) :
  rep bs s -> 0 < m_FreePageCount s -> 0 < k -> (length bs < fuel)%nat ->
  runs (AllocatePages hhdm fuel k) s (fun p s' =>
    (p = 0 /\ s' = s /\ forall a n, (a, n) ∈ bs -> n < k) \/
    exists a bs', p = from_HHDM hhdm a /\ takes bs a k bs' /\ rep bs' s' /\
      (exists l n r, bs = l ++ (a, n) :: r /\ k <= n /\ forall b j, (b, j) ∈ l -> j < k) /\
      (length bs' <= length bs)%nat /\ m_usedPageCount s' = m_usedPageCount s + k /\
      (forall x, ~ covers bs x -> mem s' x = mem s x)).
Proof. apply AllocatePages_took. Qed.

(** ** Freeing *)

(** C32: freeing a run of pages that is not free returns exactly that run to
    the free list, joined with the free blocks that touch it on either side,
    the other blocks as they were, and keeps the invariant.  The case where
    the code forgets to write the page count of the new block is excluded by
    [can_append]: the list is not empty, and the run lies below some free
    block, or extends the last one, or its first word happens to hold its page
    count already.  What the empty list does instead is
    [FreePages_empty_then_Verify_fails]. *)
Theorem FreePages_spec (fuel : nat) (page k : Z) (bs : list (Z * Z)) (s : state) :
  let node := to_HHDM hhdm page in
  rep bs s -> outside bs node k -> can_append bs (mem s) node k ->
  0 < k <= m_usedPageCount s -> node mod PAGE_SIZE = 0 ->
  PAGE_SIZE <= node -> node + k * PAGE_SIZE < W64 -> (length bs < fuel)%nat ->
  runs (FreePages hhdm fuel page k) s (fun _ s' =>
    exists bs', takes bs' node k bs /\ coalesced bs' node k bs /\ rep bs' s' /\
      m_usedPageCount s' = m_usedPageCount s - k /\
      (forall x, ~ covers bs' x -> mem s' x = mem s x)).
Proof. apply FreePages_runs. Qed.

(** The specialised [PMM::FreePage] is [PMM::FreePages] with one page, on
    every state and argument, failures included. *)
Lemma FreePage_FreePages (fuel : nat) (page : Z) (s : state) :
  FreePage hhdm fuel page s = FreePages hhdm fuel page 1 s.
Proof. reflexivity. Qed.

(** Freed into an empty list, the page's node is linked but neither its page
    count nor the node count is set. *)
Lemma FreePages_empty_runs fuel page k s :
  let node := to_HHDM hhdm page in
  rep [] s -> node <> 0 -> 0 < k <= m_usedPageCount s -> (0 < fuel)%nat ->
  add64 node 8 <> node ->
  runs (FreePages hhdm fuel page k) s (fun _ s' =>
    m_FreeListStart s' = node /\ m_FreeListNodeCount s' = 0 /\
    m_FreePageCount s' = k /\ mem s' node = mem s node).
Proof.
  intros node [[Hsg _ He Hnc] Hf Hu Ht Hbd Hl] Hn Hk Hfuel Hne.
  destruct s as [st en nc fc uc tc lk m]. cbn in *. subst.
  destruct fuel as [|fuel]; [lia|]. apply Z.eqb_neq in Hn.
  unfold FreePages. fold node. mstep. apply Lock_runs; [done|].
  cbn. unfold append_last, wr_Next, wr. rewrite Hn. repeat run1. cbn.
  rewrite fn_lookup_insert_ne by done. rewrite wrap64_small by lia. done.
Qed.

(** Freeing pages while the free list is empty breaks the invariant the
    class states for itself: after [PMM::FreePages] on an empty list,
    [PMM::Verify] fails its assertion (the node count stays 0 and the block's
    page count is whatever the page contained). *)
Theorem FreePages_empty_then_Verify_fails (fuel : nat) (page k : Z) (s : state) :
  let node := to_HHDM hhdm page in
  rep [] s -> node <> 0 -> 0 < k <= m_usedPageCount s -> (0 < fuel)%nat ->
  add64 node 8 <> node ->
  bind (FreePages hhdm fuel page k) (fun _ => Verify) s = Fail AssertionFailed.
Proof.
  intros node Hrep Hn Hk Hfuel Hne.
  destruct (FreePages_empty_runs fuel page k s Hrep Hn Hk Hfuel Hne)
    as ([] & s' & Hrun & Hst & Hnc & Hf & _).
  unfold bind. rewrite Hrun. unfold Verify, bind, gets. rewrite Hnc, Hst. cbn -[to_HHDM].
  apply Z.eqb_neq in Hn. unfold node in Hn. change (Z.to_nat 0) with O. cbn -[to_HHDM]. by rewrite Hn.
Qed.

(** ** The self-check *)

Lemma Verify_loop_runs bs prev cur acc s lo :
  seg (mem s) cur bs 0 -> blocks_ok lo bs -> 0 < lo -> 0 <= acc -> acc + pages bs < W64 ->
  (prev = 0 \/ 0 < prev /\ prev + mem s prev * PAGE_SIZE = lo /\
     0 <= mem s prev /\ lo < W64) ->
  runs (Verify_loop (length bs) prev cur acc) s (fun r s' =>
    s' = s /\ r = (last_addr prev bs, 0, acc + pages bs)).
Proof.
  revert prev cur acc lo. induction bs as [|[a n] bs IH]; intros prev cur acc lo; cbn.
  - intros -> _ _ _ _ _. apply runs_ret. by rewrite Z.add_0_r.
  - intros (-> & Hc & Hs) (Hlo & Hn & Ha & Hb & Hok) Hpos Hacc Hsum Hprev.
    pose proof (pages_nonneg _ _ Hok) as Hpg.
    mstep. apply runs_assert; [by apply negb_true_iff, Z.eqb_neq; lia|].
    mstep. apply runs_when.
    + intros Hp. apply negb_true_iff, Z.eqb_neq in Hp.
      destruct Hprev as [|(Hp0 & Hpl & Hp1 & Hp2)]; [done|].
      mstep. apply rd_runs; [done|]. rewrite (add64_small prev 0), Z.add_0_r by lia.
      rewrite mul64_small, add64_small by lia.
      apply runs_assert; [apply Z.leb_le; lia|].
      repeat run1. rewrite Hc, (add64_small acc) by lia.
      eapply runs_mono; [apply (IH a _ _ (a + n * PAGE_SIZE)); try done; try lia; right; rewrite Hc; lia|].
      intros r s' [-> ->]. split; [done|]. f_equal. lia.
    + intros _. repeat run1. rewrite Hc, (add64_small acc) by lia.
      eapply runs_mono; [apply (IH a _ _ (a + n * PAGE_SIZE)); try done; try lia; right; rewrite Hc; lia|].
      intros r s' [-> ->]. split; [done|]. f_equal. lia.
Qed.

(** [PMM::Verify] passes all of its assertions in every state that
    satisfies the representation invariant, and changes nothing. *)
Theorem Verify_spec (bs : list (Z * Z)) (s : state) :
  rep bs s -> runs Verify s (fun _ s' => s' = s).
Proof.
  intros [[Hsg Hok He Hnc] Hf Hu Ht Hbd Hl]. unfold Verify.
  mstep; mstep. mstep; mstep. rewrite Hnc, Nat2Z.id. mstep.
  eapply runs_mono.
  - apply (Verify_loop_runs bs 0 _ 0 s PAGE_SIZE); auto; lia.
  - intros r s' [-> ->]. cbn. rewrite <- Hf. mgo; try done; try (apply Z.eqb_eq); try done.
    rewrite Ht, add64_small; [done|]. pose proof (pages_nonneg _ _ Hok). lia.
Qed.

(** ** Round trip *)

Lemma run_bounds bs a k bs' :
  blocks_ok PAGE_SIZE bs -> 0 < k -> takes bs a k bs' ->
  PAGE_SIZE <= a /\ a + k * PAGE_SIZE < W64.
Proof.
  intros Hok Hk Htk.
  assert (Hc : forall x, in_run a k x -> PAGE_SIZE <= x < end_of PAGE_SIZE bs).
  { intros x Hx. eapply covers_range; [done|]. apply (tk_split _ _ _ _ Htk). by right. }
  pose proof (end_of_lt PAGE_SIZE bs ltac:(lia) Hok).
  pose proof (Hc a ltac:(unfold in_run; lia)).
  pose proof (Hc (a + k * PAGE_SIZE - 1) ltac:(unfold in_run; lia)). lia.
Qed.

(** A block of the remaining list above the run, when the last block was
    larger than the request. *)
Lemma block_above l ea en a n k bs' :
  blocks_ok PAGE_SIZE (l ++ [(ea, en)]) -> 0 < k < en -> k <= n ->
  (a, n) ∈ l ++ [(ea, en)] ->
  takes (l ++ [(ea, en)]) a k bs' -> exists b j, (b, j) ∈ bs' /\ a < b.
Proof.
  intros Hok Hk Hkn Hin Htk. set (y := ea + en * PAGE_SIZE - 1).
  assert (Hay : a + k * PAGE_SIZE <= y).
  { apply elem_of_app in Hin as [Hin|Hin].
    - apply blocks_ok_app in Hok as [Hl (He & _)].
      pose proof (blocks_ok_elem _ _ _ _ Hl Hin). lia.
    - apply list_elem_of_singleton in Hin. simplify_eq. lia. }
  assert (Hy : covers bs' y \/ in_run a k y).
  { apply (tk_split _ _ _ _ Htk). apply covers_app. right. apply covers_cons. left. lia. }
  destruct Hy as [(b & j & Hb & Hby)|Hy]; [|unfold in_run in Hy; lia].
  exists b, j. split; [done|]. destruct (Z.lt_ge_cases a b) as [|Hge]; [done|exfalso].
  apply (tk_disjoint _ _ _ _ Htk a); [unfold in_run; lia|]. exists b, j. split; [done|lia].
Qed.

(** A successful [AllocatePages] followed by [FreePages] of the result
    gives back exactly the free set and the counters of the start, whenever
    the last free block is larger than the request. *)
Theorem Allocate_Free_roundtrip (fuel : nat) (k : Z) (l : list (Z * Z)) (ea en : Z) (s : state) :
  rep (l ++ [(ea, en)]) s -> 0 < k < en -> (S (length l) < fuel)%nat ->
  runs (bind (AllocatePages hhdm fuel k) (fun p => FreePages hhdm fuel p k)) s
    (fun _ s' => exists bs', rep bs' s' /\
       (forall x, covers bs' x <-> covers (l ++ [(ea, en)]) x) /\
       m_usedPageCount s' = m_usedPageCount s).
Proof.
  intros Hrep Hk Hfuel. pose proof (lk_ok _ _ (rep_linked _ _ Hrep)) as Hok.
  pose proof (rep_used _ _ Hrep).
  assert (Hlen : length (l ++ [(ea, en)]) = S (length l)) by (rewrite length_app; cbn; lia).
  assert (Hpos : 0 < m_FreePageCount s).
  { rewrite (rep_free _ _ Hrep). pose proof (pages_nonneg _ _ Hok). lia. }
  mstep. eapply runs_mono; [apply AllocatePages_took; [done|done|lia|rewrite Hlen; lia]|].
  intros p s' [(_ & _ & Hsmall)|(a & bs' & -> & Htk & Hrep' & (l' & n & r & Hsp & Hkn & _) & Hle & Hu & _)].
  { specialize (Hsmall ea en ltac:(set_solver)). lia. }
  assert (Hin : (a, n) ∈ l ++ [(ea, en)]) by (rewrite Hsp; set_solver).
  destruct (run_bounds (l ++ [(ea, en)]) a k bs' Hok ltac:(lia) Htk) as [Hlo Hhi].
  assert (Ha : to_HHDM hhdm (from_HHDM hhdm a) = a) by (apply add64_sub64; unfold u64; lia).
  eapply runs_mono.
  - apply (FreePages_runs hhdm fuel _ k bs' s' Hrep'); rewrite ?Ha; try done; try lia.
    + intros x. apply (tk_disjoint _ _ _ _ Htk).
    + left. by eapply block_above.
    + apply (tk_aligned _ _ _ _ Htk).
  - intros [] s'' (bs'' & Htk'' & _ & Hrep'' & Hu'' & _). rewrite Ha in Htk''.
    exists bs''. split_and!; [done| |lia].
    intros x. rewrite (tk_split _ _ _ _ Htk''), (tk_split _ _ _ _ Htk). done.
Qed.
End Spec.

(** ** Witnesses *)

(** Two free blocks, of two pages at 4096 and three pages at 16384, and five
    pages in use; the direct map starts at 0. *)
Definition demo_mem : memory :=
  fun x => if x =? 4096 then 2 else if x =? 4104 then 16384
           else if x =? 16384 then 3 else 0.
Definition demo : state := mk 4096 16384 2 5 5 10 false demo_mem.
Definition demo_blocks : list (Z * Z) := [(4096, 2); (16384, 3)].

Lemma demo_rep : rep demo_blocks demo.
Proof. repeat (constructor; cbn); try done; lia. Qed.

(** An allocator all of whose pages are in use. *)
Definition full : state := mk 0 0 0 0 4 4 false demo_mem.

Lemma full_rep : rep [] full.
Proof. repeat (constructor; cbn); try done; lia. Qed.

Definition demo_map : list MemoryMapEntry :=
  [mkEntry 0 12288 0; mkEntry 12288 4096 1; mkEntry 16384 8192 0].

Lemma Init_spec_witness :
  runs (Init 0 demo_map) (init_state demo_mem) (fun _ s' =>
    rep [(4096, 2); (16384, 2)] s' /\ m_usedPageCount s' = 0 /\ m_totalPageCount s' = 4).
Proof.
  apply (Init_spec 0 demo_map demo_mem). vm_compute. repeat split; congruence.
Defined.

Lemma AllocatePage_spec_witness :
  rep demo_blocks demo /\
  runs (AllocatePage 0) demo (fun p s' => exists a bs',
    p = from_HHDM 0 a /\ takes demo_blocks a 1 bs' /\ rep bs' s' /\
    (exists l n r, demo_blocks = l ++ (a, n) :: r /\ 1 <= n /\ forall b j, (b, j) ∈ l -> j < 1) /\
    (length bs' <= length demo_blocks)%nat /\
    m_usedPageCount s' = m_usedPageCount demo + 1 /\
    (forall x, ~ covers demo_blocks x -> mem s' x = mem demo x)).
Proof.
  split; [exact demo_rep|]. apply (AllocatePage_spec 0 demo_blocks demo demo_rep). reflexivity.
Defined.

Lemma AllocatePages_spec_witness :
  runs (AllocatePages 0 3 3) demo (fun p s' =>
    (p = 0 /\ s' = demo /\ forall a n, (a, n) ∈ demo_blocks -> n < 3) \/
    exists a bs', p = from_HHDM 0 a /\ takes demo_blocks a 3 bs' /\ rep bs' s' /\
      (exists l n r, demo_blocks = l ++ (a, n) :: r /\ 3 <= n /\ forall b j, (b, j) ∈ l -> j < 3) /\
      (length bs' <= length demo_blocks)%nat /\ m_usedPageCount s' = m_usedPageCount demo + 3 /\
      (forall x, ~ covers demo_blocks x -> mem s' x = mem demo x)).
Proof.
  apply (AllocatePages_spec 0 3 3 demo_blocks demo demo_rep); [reflexivity|lia|cbn; lia].
Defined.

Lemma FreePages_spec_witness :
  runs (FreePages 0 3 12288 1) demo (fun _ s' =>
    exists bs', takes bs' 12288 1 demo_blocks /\ coalesced bs' 12288 1 demo_blocks /\ rep bs' s' /\
      m_usedPageCount s' = m_usedPageCount demo - 1 /\
      (forall x, ~ covers bs' x -> mem s' x = mem demo x)).
Proof.
  apply (FreePages_spec 0 3 12288 1 demo_blocks demo demo_rep).
  - intros x Hx. change (in_run 12288 1 x) in Hx. unfold in_run in Hx. unfold demo_blocks.
    rewrite !covers_cons, covers_nil. intuition lia.
  - left. exists 16384, 3. split; [set_solver|reflexivity].
  - cbn; lia.
  - reflexivity.
  - vm_compute; congruence.
  - reflexivity.
  - cbn; lia.
Defined.

Lemma FreePages_empty_then_Verify_fails_witness :
  bind (FreePages 0 1 8192 2) (fun _ => Verify) full = Fail AssertionFailed.
Proof.
  apply (FreePages_empty_then_Verify_fails 0 1 8192 2 full full_rep);
    [vm_compute; congruence|cbn; lia|lia|vm_compute; congruence].
Defined.

Lemma Verify_spec_witness : runs Verify demo (fun _ s' => s' = demo).
Proof. exact (Verify_spec demo_blocks demo demo_rep). Defined.

Lemma Allocate_Free_roundtrip_witness :
  runs (bind (AllocatePages 0 3 2) (fun p => FreePages 0 3 p 2)) demo
    (fun _ s' => exists bs', rep bs' s' /\
       (forall x, covers bs' x <-> covers ([(4096, 2)] ++ [(16384, 3)]) x) /\
       m_usedPageCount s' = m_usedPageCount demo).
Proof.
  apply (Allocate_Free_roundtrip 0 3 2 [(4096, 2)] 16384 3 demo demo_rep); [lia|cbn; lia].
Defined.

End PMMSpec.
