(* ===== verification/PageTables.v ===== *)
(** * PageTables.v: the x86-64 page tables
      (src/kernel/src/arch/x86_64/Memory/PageTables.cpp)

    Page tables live in pages of the physical memory manager and are reached
    through the direct map, so the functions work on the state of [PMM] and on
    its word memory: a table is 512 words, and bit 0 of an entry is [Present],
    bit 7 [PageSize]. *)

From S2P Require Import Prelude PMM PMMSpec.
#[local] Open Scope Z_scope.
#[local] Open Scope kernel_scope.

Module PageTables.
Import PMM PMMSpec.

(** The address bits of an entry, for each page size. *)
Definition ADDR_4K : Z := 0x000FFFFFFFFFF000.
Definition ADDR_2M : Z := 0x000FFFFFFFE00000.
Definition ADDR_1G : Z := 0x000FFFFFC0000000.

(** The bit-fields of the entry structures the code reads. *)
Definition Present (entry : Z) : bool := Z.testbit entry 0.
Definition PageSize (entry : Z) : bool := Z.testbit entry 7.

(** A 64-bit access through a pointer. *)
Definition load (p : Z) : M state Z := rd p 0.
Definition store (p v : Z) : M state unit := wr p 0 v.

(** [memset(p, 0, 4096)] *)
Definition zero_page (p : Z) : M state unit :=
  if p =? 0 then fail NullDereference
  else modify (fun s => set_mem (fun x => if (p <=? x) && (x <? p + PAGE_SIZE) then 0 else mem s x) s).

(** [(virtualAddress >> (12 + (i - 1) * 9)) & 0x1FF] and the entry it selects. *)
Definition index (virtualAddress i : Z) : Z :=
  Z.land (Z.shiftr virtualAddress (12 + (i - 1) * 9)) 0x1FF.
Definition entry_of (pageTable virtualAddress i : Z) : Z :=
  add64 pageTable (index virtualAddress i * 8).

(** The entry values the functions write. *)
Definition leaf_4K (physicalAddress flags : Z) : Z :=
  Z.lor (Z.lor (Z.lor (Z.land physicalAddress ADDR_4K)
                      (Z.shiftl (Z.land flags 0x08000000) (52 - 16)))
               (Z.land flags 0x0FFF)) 1.
Definition leaf_large (mask physicalAddress flags : Z) : Z :=
  Z.lor (Z.lor (Z.lor (Z.lor (Z.land physicalAddress mask)
                             (Z.shiftl (Z.land flags 0x08000000) (52 - 16)))
                      (Z.land flags 0x1FFF)) 1) (Z.shiftl 1 7).
Definition table_entry (page flags : Z) : Z :=
  Z.lor (Z.lor page (Z.land flags 0x0F67)) 1.
Definition update_flags (raw flags : Z) : Z :=
  Z.lor (Z.land raw 0x000FFFFFFFFFFFFF) (Z.land flags 0x0F67).

Section Paging.
(** [g_HHDMOffset], and whether the processor has 5-level paging (the answer
    of the CPUID query behind [x86_64_Is5LevelPagingSupported]). *)
Context (hhdm : Z) (la57 : bool).

Definition levels : nat := if la57 then 5 else 4.

(** [x86_64_GetNextPageTable] *)
Definition GetNextPageTable (pageTableEntry i : Z) : M state Z :=
  if (5 <? i) || (i <=? 1) then
    (if (i <? 1) || (5 <? i) then assertM false else ret tt) ;;; ret 0
  else if pageTableEntry =? 0 then ret 0
  else if (i =? 5) && negb la57 then ret 0
  else
    let* e := load pageTableEntry in
    if (i =? 3) && PageSize e then ret 0
    else if (i =? 2) && PageSize e then ret 0
    else if negb (Present e) then ret 0
    else ret (Z.land e ADDR_4K).

(** [i == lvl && entry->PageSize == 1 && entry->Present == 1] *)
Definition large_at (lvl i pageTableEntry : Z) : M state bool :=
  if i =? lvl then
    let* e := load pageTableEntry in ret (PageSize e && Present e)
  else ret false.

(** The loop of [x86_64_GetPhysicalAddress], at level [i]. *)
Fixpoint GetPhysicalAddress_loop (i : nat) (pageTable virtualAddress : Z) : M state Z :=
  if pageTable =? 0 then ret 0 else
  match i with
  | O => ret 0
  | S i' =>
      let lvl := Z.of_nat i in
      let pageTableEntry := entry_of pageTable virtualAddress lvl in
      if lvl =? 1 then
        let* e := load pageTableEntry in ret (Z.land e ADDR_4K)
      else
        let* newPageTable := GetNextPageTable pageTableEntry lvl in
        if newPageTable =? 0 then
          let* l3 := large_at 3 lvl pageTableEntry in
          if l3 then let* e := load pageTableEntry in ret (Z.land e ADDR_1G) else
          let* l2 := large_at 2 lvl pageTableEntry in
          if l2 then let* e := load pageTableEntry in ret (Z.land e ADDR_2M) else
          ret 0
        else
          GetPhysicalAddress_loop i' (to_HHDM hhdm newPageTable) virtualAddress
  end.

Definition GetPhysicalAddress : Z -> Z -> M state Z := GetPhysicalAddress_loop levels.

(** Is there a large page at one of the given levels in the way? *)
Fixpoint blocked_at (lvls : list Z) (i pageTableEntry : Z) : M state bool :=
  match lvls with
  | [] => ret false
  | l :: lvls' =>
      let* b := large_at l i pageTableEntry in
      if b then ret true else blocked_at lvls' i pageTableEntry
  end.

(** The loop that [x86_64_MapPage], [x86_64_Map2MiBPage] and
    [x86_64_Map1GiBPage] share: [lastLvl] is the level of the leaf entry, [lvls]
    the levels whose large pages make the function give up, [leaf] the entry. *)
Fixpoint Map_loop (lastLvl : Z) (lvls : list Z) (leaf flags : Z) (i : nat)
    (pageTable virtualAddress : Z) : M state unit :=
  if pageTable =? 0 then ret tt else
  match i with
  | O => ret tt
  | S i' =>
      let lvl := Z.of_nat i in
      if lvl <? lastLvl then ret tt else
      let pageTableEntry := entry_of pageTable virtualAddress lvl in
      let* newPageTable := GetNextPageTable pageTableEntry lvl in
      if newPageTable =? 0 then
        let* b := blocked_at lvls lvl pageTableEntry in
        if b then ret tt else
        if lvl =? lastLvl then store pageTableEntry leaf else
        let* page := AllocatePage hhdm in
        let data := to_HHDM hhdm page in
        zero_page data ;;;
        store pageTableEntry (table_entry (from_HHDM hhdm data) flags) ;;;
        Map_loop lastLvl lvls leaf flags i' data virtualAddress
      else
        let* raw := load pageTableEntry in
        store pageTableEntry (update_flags raw flags) ;;;
        Map_loop lastLvl lvls leaf flags i' (to_HHDM hhdm newPageTable) virtualAddress
  end.

Definition MapPage (pageTable virtualAddress physicalAddress flags : Z) : M state unit :=
  Map_loop 1 [3; 2] (leaf_4K physicalAddress flags) flags levels pageTable virtualAddress.
Definition Map2MiBPage (pageTable virtualAddress physicalAddress flags : Z) : M state unit :=
  Map_loop 2 [3] (leaf_large ADDR_2M physicalAddress flags) flags levels pageTable virtualAddress.
Definition Map1GiBPage (pageTable virtualAddress physicalAddress flags : Z) : M state unit :=
  Map_loop 3 [] (leaf_large ADDR_1G physicalAddress flags) flags levels pageTable virtualAddress.

(** [x86_64_RemapPage] *)
Fixpoint RemapPage_loop (flags : Z) (i : nat) (pageTable virtualAddress : Z) : M state unit :=
  if pageTable =? 0 then ret tt else
  match i with
  | O => ret tt
  | S i' =>
      let lvl := Z.of_nat i in
      let pageTableEntry := entry_of pageTable virtualAddress lvl in
      if lvl =? 1 then
        let* e := load pageTableEntry in
        store pageTableEntry (leaf_4K e flags)
      else
        let* newPageTable := GetNextPageTable pageTableEntry lvl in
        if newPageTable =? 0 then ret tt else
        let* raw := load pageTableEntry in
        store pageTableEntry (update_flags raw flags) ;;;
        RemapPage_loop flags i' (to_HHDM hhdm newPageTable) virtualAddress
  end.

Definition RemapPage (pageTable virtualAddress flags : Z) : M state unit :=
  RemapPage_loop flags levels pageTable virtualAddress.

(** The loop of [x86_64_Remap2MiBPage] and [x86_64_Remap1GiBPage]: they return
    below level [minLvl] and rewrite the entry at level [lastLvl]. *)
Fixpoint RemapLarge_loop (minLvl lastLvl mask flags : Z) (i : nat)
    (pageTable virtualAddress : Z) : M state unit :=
  if pageTable =? 0 then ret tt else
  match i with
  | O => ret tt
  | S i' =>
      let lvl := Z.of_nat i in
      if lvl <? minLvl then ret tt else
      let pageTableEntry := entry_of pageTable virtualAddress lvl in
      let* newPageTable := GetNextPageTable pageTableEntry lvl in
      if newPageTable =? 0 then
        whenM (lvl =? lastLvl)
          (let* e := load pageTableEntry in
           store pageTableEntry (leaf_large mask e flags))
      else
        let* raw := load pageTableEntry in
        store pageTableEntry (update_flags raw flags) ;;;
        RemapLarge_loop minLvl lastLvl mask flags i' (to_HHDM hhdm newPageTable) virtualAddress
  end.

Definition Remap2MiBPage (pageTable virtualAddress flags : Z) : M state unit :=
  RemapLarge_loop 2 2 ADDR_2M flags levels pageTable virtualAddress.
Definition Remap1GiBPage (pageTable virtualAddress physicalAddress flags : Z) : M state unit :=
  RemapLarge_loop 1 3 ADDR_1G flags levels pageTable virtualAddress.

(** *** Unmapping

    [entryStack] is a local array; an element that was never written is
    [None], and reading one, or indexing outside the array, is undefined. *)

Notation stack := (list (option Z)).

Definition stack_set (stk : stack) (k : Z) (v : Z) : M state stack :=
  if (0 <=? k) && (k <? Z.of_nat (length stk)) then ret (<[Z.to_nat k := Some v]> stk)
  else fail InvalidAccess.
Definition stack_get (stk : stack) (k : nat) : M state Z :=
  match stk !! k with Some (Some v) => ret v | _ => fail InvalidAccess end.

(** The descent to level [lastLvl], where the entry is cleared. [None] is an
    early return of the whole function. *)
Fixpoint Unmap_walk (lastLvl : Z) (stk : stack) (i : nat) (pageTable virtualAddress : Z)
    : M state (option stack) :=
  if pageTable =? 0 then ret (Some stk) else
  match i with
  | O => ret None
  | S i' =>
      let lvl := Z.of_nat i in
      if lvl <? lastLvl then ret None else
      let pageTableEntry := entry_of pageTable virtualAddress lvl in
      if lvl =? lastLvl then store pageTableEntry 0 ;;; ret (Some stk) else
      let* stk' := stack_set stk (lvl - lastLvl - 1) pageTableEntry in
      let* newPageTable := GetNextPageTable pageTableEntry lvl in
      if newPageTable =? 0 then ret None
      else Unmap_walk lastLvl stk' i' (to_HHDM hhdm newPageTable) virtualAddress
  end.

(** [for (j = 0; j < 512; j++) if (table[j] & 1) return;] *)
Fixpoint any_present (n : nat) (table : Z) : M state bool :=
  match n with
  | O => ret false
  | S n' =>
      let* e := load table in
      if Z.testbit e 0 then ret true else any_present n' (add64 table 8)
  end.

(** The loop that frees the tables that have become empty, bottom up. *)
Fixpoint free_empty (fuel : nat) (n k : nat) (stk : stack) : M state unit :=
  match n with
  | O => ret tt
  | S n' =>
      let* entry := stack_get stk k in
      if entry =? 0 then ret tt else
      let* e := load entry in
      let table := to_HHDM hhdm (Z.land e ADDR_4K) in
      let* used := any_present 512 table in
      if used then ret tt else
      FreePage hhdm fuel (from_HHDM hhdm table) ;;;
      store entry 0 ;;;
      free_empty fuel n' (S k) stk
  end.

Definition unmap (fuel : nat) (lastLvl : Z) (stk : stack) (n : nat)
    (pageTable virtualAddress : Z) : M state unit :=
  let* r := Unmap_walk lastLvl stk levels pageTable virtualAddress in
  match r with
  | None => ret tt
  | Some stk' => free_empty fuel n 0 stk'
  end.

Definition UnmapPage (fuel : nat) : Z -> Z -> M state unit :=
  unmap fuel 1 (replicate 4 (Some 0)) levels.
Definition Unmap2MiBPage (fuel : nat) : Z -> Z -> M state unit :=
  unmap fuel 2 (replicate 3 None) 3.
Definition Unmap1GiBPage (fuel : nat) : Z -> Z -> M state unit :=
  unmap fuel 3 (replicate 2 None) 2.

End Paging.
End PageTables.
