(* ===== verification/PageTablesSpec.v ===== *)
(** * PageTablesSpec.v: what mapping and looking up pages guarantee

    The page tables form a tree. Instead of the tree itself, the invariant
    [tables] uses a ghost assignment [own] of table pages to paths: [own t] is
    the list of indices that lead from the root to the table [t], the last
    index first. As [own] is a function, no table is shared by two paths. *)

From S2P Require Import Prelude PMM PMMSpec PageTables.
#[local] Open Scope Z_scope.
#[local] Open Scope kernel_scope.

Module PageTablesSpec.
Import PMM PMMSpec PageTables.

(** ** Bits of entries *)

(** Split a mask over a disjunction of masked words and compute the constants. *)
Ltac masks :=
  rewrite ?Z.land_lor_distr_l, <- ?Z.land_assoc;
  repeat match goal with
  | |- context [Z.land (Z.pos ?a) (Z.pos ?b)] =>
      let c := eval vm_compute in (Z.land (Z.pos a) (Z.pos b)) in
      change (Z.land (Z.pos a) (Z.pos b)) with c
  end;
  rewrite ?Z.land_0_r, ?Z.lor_0_r, ?Z.lor_0_l.

(** Evaluate a bit of an entry. *)
Ltac bits :=
  rewrite ?Z.lor_spec, ?Z.land_spec;
  repeat match goal with
  | |- context [Z.testbit (Z.pos ?a) ?n] =>
      let c := eval vm_compute in (Z.testbit (Z.pos a) n) in
      change (Z.testbit (Z.pos a) n) with c
  end;
  rewrite ?andb_true_r, ?andb_false_r, ?orb_false_r, ?orb_true_r.

Lemma shiftl_land f n k : 0 <= k -> Z.shiftl (Z.land f n) k = Z.land (Z.shiftl f k) (Z.shiftl n k).
Proof. intros. apply Z.shiftl_land. Qed.

Lemma update_addr e f : Z.land (update_flags e f) ADDR_4K = Z.land e ADDR_4K.
Proof. unfold update_flags, ADDR_4K. masks. done. Qed.

Lemma update_bit7 e f : PageSize (update_flags e f) = PageSize e.
Proof. unfold update_flags, PageSize. bits. done. Qed.

Lemma update_bit0 e f : Present e = true -> Present (update_flags e f) = true.
Proof. unfold update_flags, Present. bits. by intros ->. Qed.

Lemma leaf_4K_addr pa f : Z.land (leaf_4K pa f) ADDR_4K = Z.land pa ADDR_4K.
Proof.
  unfold leaf_4K, ADDR_4K. rewrite shiftl_land by lia.
  change (Z.shiftl 0x08000000 (52 - 16)) with 0x8000000000000000. masks. done.
Qed.

Lemma leaf_large_addr m pa f :
  m = ADDR_2M \/ m = ADDR_1G -> Z.land (leaf_large m pa f) m = Z.land pa m.
Proof.
  unfold leaf_large, ADDR_2M, ADDR_1G. rewrite shiftl_land by lia.
  change (Z.shiftl 0x08000000 (52 - 16)) with 0x8000000000000000.
  change (Z.shiftl 1 7) with 128. intros [->| ->]; masks; done.
Qed.

Lemma leaf_large_bits m pa f :
  PageSize (leaf_large m pa f) = true /\ Present (leaf_large m pa f) = true.
Proof.
  unfold leaf_large, PageSize, Present. change (Z.shiftl 1 7) with 128. split; bits; done.
Qed.

Lemma page_addr p : p mod PAGE_SIZE = 0 -> 0 <= p < 2 ^ 52 ->
  Z.land p ADDR_4K = p /\ Z.testbit p 7 = false.
Proof.
  intros Hp Hb. assert (E : p = Z.shiftl (p / 4096) 12).
  { rewrite Z.shiftl_mul_pow2 by lia. zlia. }
  rewrite E. split; [|by rewrite Z.shiftl_spec_low by lia].
  change ADDR_4K with (Z.shiftl (Z.ones 40) 12).
  rewrite <- Z.shiftl_land, Z.land_ones by lia. rewrite Z.mod_small; [done|]. zlia.
Qed.

Lemma table_entry_bits p f : p mod PAGE_SIZE = 0 -> 0 <= p < 2 ^ 52 ->
  Z.land (table_entry p f) ADDR_4K = p /\ PageSize (table_entry p f) = false /\
  Present (table_entry p f) = true.
Proof.
  intros Hp Hb. destruct (page_addr p Hp Hb) as [Ha H7].
  unfold table_entry, PageSize, Present. split_and!; [|bits; by rewrite H7|by bits].
  rewrite !Z.land_lor_distr_l, Ha. unfold ADDR_4K. masks. done.
Qed.

Lemma index_range va i : 0 <= index va i < 512.
Proof. unfold index. change 0x1FF with (Z.ones 9). rewrite Z.land_ones by lia. zlia. Qed.

Section Spec.
Context (hhdm : Z) (la57 : bool).
Notation levels := (levels la57).

(** ** Looking up, as a function of memory *)

(** The address of the next table in an entry of level [i], 0 when it has none. *)
Definition next (i e : Z) : Z :=
  if (i <=? 1) || ((i =? 3) || (i =? 2)) && PageSize e then 0
  else if Present e then Z.land e ADDR_4K else 0.

Definition slot (t va i : Z) : Z := t + index va i * 8.

Definition large (i e : Z) : Z :=
  if (i =? 3) && PageSize e && Present e then Z.land e ADDR_1G
  else if (i =? 2) && PageSize e && Present e then Z.land e ADDR_2M else 0.

Fixpoint translate (m : memory) (i : nat) (t va : Z) : Z :=
  match i with
  | O => 0
  | S i' =>
      let e := m (slot t va (Z.of_nat i)) in
      if Z.of_nat i =? 1 then Z.land e ADDR_4K
      else if next (Z.of_nat i) e =? 0 then large (Z.of_nat i) e
      else translate m i' (to_HHDM hhdm (next (Z.of_nat i) e)) va
  end.

(** ** The invariant *)

Definition in_page (t x : Z) : Prop := t <= x < t + PAGE_SIZE.

Record tables (own : Z -> option (list Z)) (bs : list (Z * Z)) (m : memory) : Prop := {
  tb_ok : forall t p, own t = Some p ->
    0 < t /\ t mod PAGE_SIZE = 0 /\ t + PAGE_SIZE < W64 /\ (length p < levels)%nat;
  tb_used : forall t p x, own t = Some p -> in_page t x -> ~ covers bs x;
  tb_next : forall t p j, own t = Some p -> 0 <= j < 512 -> (S (length p) < levels)%nat ->
    let n := next (Z.of_nat (levels - length p)) (m (t + j * 8)) in
    n <> 0 -> own (to_HHDM hhdm n) = Some (j :: p)
}.

(** The free pages have physical addresses an entry can hold; page 0 is none
    of them. *)
Definition physical (bs : list (Z * Z)) : Prop :=
  forall x, covers bs x -> PAGE_SIZE <= from_HHDM hhdm x < 2 ^ 52.

Lemma slot_range own bs m t p va i : tables own bs m -> own t = Some p ->
  0 < slot t va i < W64 /\ in_page t (slot t va i).
Proof.
  intros Ht Ho. destruct (tb_ok _ _ _ Ht _ _ Ho) as (? & ? & ? & _).
  pose proof (index_range va i). unfold slot, in_page. lia.
Qed.

(** The table an entry leads to. *)
Lemma child_own own bs m t p va i : tables own bs m -> own t = Some p ->
  (S i + length p = levels)%nat -> Z.of_nat (S i) <> 1 ->
  next (Z.of_nat (S i)) (m (slot t va (Z.of_nat (S i)))) <> 0 ->
  own (to_HHDM hhdm (next (Z.of_nat (S i)) (m (slot t va (Z.of_nat (S i)))))) =
    Some (index va (Z.of_nat (S i)) :: p).
Proof.
  intros Ht Ho Hl Hi. pose proof (tb_next _ _ _ Ht t p (index va (Z.of_nat (S i))) Ho) as H.
  cbv zeta in H. replace (levels - length p)%nat with (S i) in H by lia.
  apply H; [apply index_range|lia].
Qed.

(** The subtree under another entry is not below [idx :: p]. *)
Lemma sibling {A} (idx idx' : A) q q' p : idx <> idx' -> q ++ idx :: p <> q' ++ idx' :: p.
Proof.
  intros Hne E. rewrite (cons_middle _ q p), (cons_middle _ q' p), !app_assoc in E.
  apply app_inv_tail in E. by apply app_inj_tail in E as [_ E].
Qed.

Lemma not_below {A} (idx : A) q p : p <> q ++ idx :: p.
Proof. intros E. apply (f_equal length) in E. rewrite length_app in E. cbn in E. lia. Qed.

(** Table pages with different paths do not overlap. *)
Lemma pages_apart own bs m t p t' p' x : tables own bs m ->
  own t = Some p -> own t' = Some p' -> p <> p' -> in_page t x -> ~ in_page t' x.
Proof.
  intros Ht Ho Ho' Hne Hx Hx'. unfold in_page in *.
  destruct (tb_ok _ _ _ Ht _ _ Ho) as (_ & ? & _), (tb_ok _ _ _ Ht _ _ Ho') as (_ & ? & _).
  assert (t = t') as -> by zlia. congruence.
Qed.

(** A lookup only reads tables below the one it starts from. *)
Lemma translate_frame own bs m m' i t p va : tables own bs m ->
  own t = Some p -> (i + length p = levels)%nat ->
  (forall t' q x, own t' = Some (q ++ p) -> in_page t' x -> m' x = m x) ->
  translate m' i t va = translate m i t va.
Proof.
  intros Ht. revert t p. induction i as [|i IH]; intros t p Ho Hl Hm; [done|].
  cbn [translate]. destruct (slot_range _ _ _ _ _ va (Z.of_nat (S i)) Ht Ho) as [_ Hs].
  rewrite (Hm t [] _ Ho Hs).
  destruct (Z.of_nat (S i) =? 1) eqn:E1; [done|].
  destruct (next _ _ =? 0) eqn:E2; [done|]. zb.
  eapply IH; [by eapply child_own|cbn; lia|].
  intros t' q x Ho'. apply (Hm t' (q ++ [index va (Z.of_nat (S i))])).
  by rewrite <- app_assoc.
Qed.

(** ** The code computes [translate] *)

Lemma load_runs p s (Q : Z -> state -> Prop) :
  0 < p < W64 -> Q (mem s p) s -> runs (load p) s Q.
Proof.
  intros Hp HQ. unfold load. apply rd_runs; [lia|].
  by rewrite add64_small, Z.add_0_r by lia.
Qed.

Lemma store_runs p v s (Q : unit -> state -> Prop) :
  0 < p < W64 -> Q tt (set_mem (<[p := v]> (mem s)) s) -> runs (store p v) s Q.
Proof.
  intros Hp HQ. unfold store. apply wr_runs; [lia|].
  by rewrite add64_small, Z.add_0_r by lia.
Qed.

Lemma GetNextPageTable_runs p i s (Q : Z -> state -> Prop) :
  0 < p < W64 -> (1 <= i <= levels)%nat ->
  Q (next (Z.of_nat i) (mem s p)) s -> runs (GetNextPageTable la57 p (Z.of_nat i)) s Q.
Proof.
  intros Hp Hi HQ. unfold GetNextPageTable, next in *.
  assert (Z.of_nat i <= 5) by (unfold PageTables.levels in Hi; destruct la57; lia).
  destruct (Z.ltb_spec 5 (Z.of_nat i)); [lia|]. cbn [orb].
  destruct (Z.leb_spec (Z.of_nat i) 1); cbn [orb] in *.
  { destruct (Z.ltb_spec (Z.of_nat i) 1); [lia|]. cbn [orb]. by mgo. }
  destruct (Z.eqb_spec p 0); [lia|].
  assert ((Z.of_nat i =? 5) && negb la57 = false) as ->.
  { unfold PageTables.levels in Hi. destruct la57; [apply andb_false_r|].
    apply andb_false_iff. left. apply Z.eqb_neq. lia. }
  mstep. apply load_runs; [done|].
  destruct (_ =? 3), (_ =? 2), (PageSize _), (Present _); cbn in *; by apply runs_ret.
Qed.

Lemma large_at_runs l i p s (Q : bool -> state -> Prop) : 0 < p < W64 ->
  Q ((i =? l) && PageSize (mem s p) && Present (mem s p)) s -> runs (large_at l i p) s Q.
Proof.
  intros Hp HQ. unfold large_at. destruct (i =? l); cbn in *; [|by apply runs_ret].
  mstep. apply load_runs; [done|]. by apply runs_ret.
Qed.

Lemma entry_slot own bs m t p va i : tables own bs m -> own t = Some p ->
  entry_of t va i = slot t va i.
Proof.
  intros Ht Ho. destruct (slot_range _ _ _ _ _ va i Ht Ho) as [Hs _].
  unfold entry_of, slot in *. apply add64_small. lia.
Qed.

Lemma GetPhysicalAddress_runs own bs s i t p va (Q : Z -> state -> Prop) :
  tables own bs (mem s) -> own t = Some p -> (i + length p = levels)%nat ->
  Q (translate (mem s) i t va) s -> runs (GetPhysicalAddress_loop hhdm la57 i t va) s Q.
Proof.
  intros Ht. revert t p. induction i as [|i IH]; intros t p Ho Hl HQ.
  { cbn in *. destruct (tb_ok _ _ _ Ht _ _ Ho) as (? & _). by destruct (t =? 0); apply runs_ret. }
  cbn [GetPhysicalAddress_loop translate] in *.
  destruct (tb_ok _ _ _ Ht _ _ Ho) as (Hpos & _). destruct (Z.eqb_spec t 0); [lia|].
  destruct (slot_range _ _ _ _ _ va (Z.of_nat (S i)) Ht Ho) as [Hs _].
  rewrite (entry_slot _ _ _ _ _ va _ Ht Ho).
  destruct (Z.of_nat (S i) =? 1) eqn:E1.
  { mstep. apply load_runs; [done|]. by apply runs_ret. }
  zb. mstep. apply GetNextPageTable_runs; [done|lia|].
  destruct (next _ _ =? 0) eqn:E2.
  - unfold large in HQ. mstep. apply large_at_runs; [done|].
    destruct (_ && _ && _); [mstep; apply load_runs; [done|]; by apply runs_ret|].
    mstep. apply large_at_runs; [done|].
    destruct (_ && _ && _); [mstep; apply load_runs; [done|]|]; by apply runs_ret.
  - zb. eapply IH; [by eapply child_own|cbn; lia|done].
Qed.

(** ** Mapping *)

Definition blocked (lvls : list Z) (i e : Z) : bool :=
  existsb (fun l => (i =? l) && PageSize e && Present e) lvls.

Lemma blocked_at_runs lvls i p s (Q : bool -> state -> Prop) : 0 < p < W64 ->
  Q (blocked lvls i (mem s p)) s -> runs (blocked_at lvls i p) s Q.
Proof.
  intros Hp. induction lvls as [|l lvls IH]; cbn; intros HQ; [by apply runs_ret|].
  mstep. apply large_at_runs; [done|].
  destruct (_ && _ && _); cbn in *; [by apply runs_ret|by apply IH].
Qed.

(** No large page on the path of [va] stops the mapping and, at the last
    level, no table occupies the entry. *)
Fixpoint clear (lvls : list Z) (lastLvl : Z) (m : memory) (i : nat) (t va : Z) : bool :=
  match i with
  | O => false
  | S i' =>
      let e := m (slot t va (Z.of_nat i)) in
      if next (Z.of_nat i) e =? 0 then negb (blocked lvls (Z.of_nat i) e)
      else if Z.of_nat i =? lastLvl then false
      else clear lvls lastLvl m i' (to_HHDM hhdm (next (Z.of_nat i) e)) va
  end.

(** The two addresses part at a level between [lastLvl] and [i], that is, they
    lie in different pages of the size mapped at [lastLvl]. *)
Definition apart (lastLvl i va va' : Z) : Prop :=
  exists k, lastLvl <= k <= i /\ index va k <> index va' k.

(** What a lookup returns for an entry that ends the walk. *)
Definition leaf_value (i e : Z) : Z :=
  if i =? 1 then Z.land e ADDR_4K else large i e.

Lemma translate_S m i t va : translate m (S i) t va =
  let lvl := Z.of_nat (S i) in let e := m (slot t va lvl) in
  if next lvl e =? 0 then leaf_value lvl e
  else translate m i (to_HHDM hhdm (next lvl e)) va.
Proof.
  cbn [translate]. unfold leaf_value. cbv zeta.
  destruct (Z.eqb_spec (Z.of_nat (S i)) 1) as [->|]; done.
Qed.

Lemma slot_inj own bs m t p t' p' j va i : tables own bs m ->
  own t = Some p -> own t' = Some p' -> 0 <= j < 512 ->
  t' + j * 8 = slot t va i -> t' = t /\ j = index va i.
Proof.
  intros Ht Ho Ho' Hj E. unfold slot in E. pose proof (index_range va i).
  destruct (tb_ok _ _ _ Ht _ _ Ho) as (_ & ? & _), (tb_ok _ _ _ Ht _ _ Ho') as (_ & ? & _).
  assert (t' = t) as -> by zlia. split; [done|lia].
Qed.

(** Changing an entry without redirecting it keeps the invariant. *)
Lemma tables_store own bs m t p va e : tables own bs m -> own t = Some p ->
  let lvl := Z.of_nat (levels - length p) in
  (next lvl e = 0 \/ next lvl e = next lvl (m (slot t va lvl))) ->
  tables own bs (<[slot t va lvl := e]> m).
Proof.
  intros Ht Ho lvl He. constructor; [apply (tb_ok _ _ _ Ht)|apply (tb_used _ _ _ Ht)|].
  intros t' p' j Ho' Hj Hl n Hn. subst n.
  destruct (decide (t' + j * 8 = slot t va lvl)) as [E|E].
  - destruct (slot_inj _ _ _ _ _ _ _ _ _ _ Ht Ho Ho' Hj E) as [-> ->].
    rewrite E, fn_lookup_insert in Hn |- *. simplify_eq. fold lvl in Hn |- *.
    destruct He as [He|He]; [congruence|]. rewrite He in Hn |- *.
    rewrite <- E in Hn |- *. apply (tb_next _ _ _ Ht); done.
  - rewrite fn_lookup_insert_ne in Hn |- * by done. apply (tb_next _ _ _ Ht); done.
Qed.

Lemma seg_agree m m' p bs q : (forall x, covers bs x -> m' x = m x) ->
  forall lo, blocks_ok lo bs -> seg m p bs q -> seg m' p bs q.
Proof.
  revert p. induction bs as [|[a n] bs IH]; intros p Hm lo; cbn; [done|].
  intros (? & ? & ? & ? & Hok) (-> & Hc & Hs).
  rewrite !Hm by (apply covers_cons; left; lia). split_and!; [done..|].
  eapply IH; [|done|done]. intros x Hx. apply Hm, covers_cons. by right.
Qed.

Lemma rep_mem bs s m' : rep bs s -> (forall x, covers bs x -> m' x = mem s x) ->
  rep bs (set_mem m' s).
Proof.
  intros [[Hsg Hok He Hn] Hf Hu Ht Hb Hl] Hm. repeat (constructor; cbn; try done).
  by eapply seg_agree.
Qed.

Lemma rep_store bs s x v : rep bs s -> ~ covers bs x -> rep bs (set_mem (<[x := v]> (mem s)) s).
Proof.
  intros Hrep Hx. apply rep_mem; [done|]. intros y Hy.
  rewrite fn_lookup_insert_ne; [done|]. by intros ->.
Qed.

(** A freshly allocated, zeroed page becomes the table below an entry. *)
Record new_table (own : Z -> option (list Z)) (bs : list (Z * Z)) (m : memory)
    (t : Z) (p : list Z) (va : Z) (a : Z) (bs' : list (Z * Z)) (m' : memory) (e : Z) : Prop := {
  nt_own : own t = Some p;
  nt_lvl : (S (length p) < levels)%nat;
  nt_takes : takes bs a 1 bs';
  nt_lo : PAGE_SIZE <= a;
  nt_hi : a + PAGE_SIZE < W64;
  nt_zero : forall x, in_page a x -> m' x = 0;
  nt_next : next (Z.of_nat (levels - length p)) e = from_HHDM hhdm a;
  nt_slot : m' (slot t va (Z.of_nat (levels - length p))) = e;
  nt_mem : forall x, ~ covers bs x -> x <> slot t va (Z.of_nat (levels - length p)) ->
    m' x = m x
}.

Lemma to_from a : u64 a -> to_HHDM hhdm (from_HHDM hhdm a) = a.
Proof. apply add64_sub64. Qed.

Lemma next_0 i : next i 0 = 0.
Proof. unfold next, Present. rewrite Z.bits_0. by destruct (_ || _). Qed.

Lemma takes_page bs a bs' x : takes bs a 1 bs' -> in_page a x -> covers bs x.
Proof. intros Ht Hx. apply (tk_split _ _ _ _ Ht). right. unfold in_run, in_page in *. lia. Qed.

Lemma takes_sub bs a k bs' x : takes bs a k bs' -> covers bs' x -> covers bs x.
Proof. intros Ht Hx. apply (tk_split _ _ _ _ Ht). by left. Qed.

Lemma tables_new own bs m t p va a bs' m' e : tables own bs m ->
  new_table own bs m t p va a bs' m' e ->
  let idx := index va (Z.of_nat (levels - length p)) in
  tables (<[a := Some (idx :: p)]> own) bs' m'.
Proof.
  intros Ht [Ho Hl Htk Hlo Hhi Hz Hn Hs Hm] idx.
  assert (Hfree : forall t' p' x, own t' = Some p' -> in_page t' x -> ~ in_page a x).
  { intros t' p' x Ho' Hx Hx'. apply (tb_used _ _ _ Ht _ _ _ Ho' Hx). by eapply takes_page. }
  assert (Hself : forall t', in_page t' t') by (unfold in_page; lia).
  assert (Hna : forall t' p', own t' = Some p' -> t' <> a).
  { intros t' p' Ho' ->. by apply (Hfree a p' a Ho'). }
  constructor.
  - intros t' p' Ho'. destruct (decide (a = t')) as [->|Hne].
    + rewrite fn_lookup_insert in Ho'. simplify_eq. cbn.
      pose proof (tk_aligned _ _ _ _ Htk). split_and!; lia || done.
    + rewrite fn_lookup_insert_ne in Ho' by done. by apply (tb_ok _ _ _ Ht).
  - intros t' p' x Ho' Hx Hc. destruct (decide (a = t')) as [->|Hne].
    + apply (tk_disjoint _ _ _ _ Htk x); [unfold in_run, in_page in *; lia|done].
    + rewrite fn_lookup_insert_ne in Ho' by done.
      apply (tb_used _ _ _ Ht _ _ _ Ho' Hx). by eapply takes_sub.
  - intros t' p' j Ho' Hj Hlv n Hnz. subst n. destruct (decide (a = t')) as [->|Hne].
    + exfalso. apply Hnz. rewrite Hz by (unfold in_page; lia). apply next_0.
    + rewrite fn_lookup_insert_ne in Ho' by done.
      destruct (tb_ok _ _ _ Ht _ _ Ho') as (? & ? & ? & _).
      destruct (decide (t' + j * 8 = slot t va (Z.of_nat (levels - length p)))) as [E|E].
      * destruct (slot_inj _ _ _ _ _ _ _ _ _ _ Ht Ho Ho' Hj E) as [-> ->].
        assert (p' = p) as -> by congruence.
        rewrite E, Hs, Hn, to_from by (unfold u64; lia). by rewrite fn_lookup_insert.
      * assert (Hnc : ~ covers bs (t' + j * 8)).
        { apply (tb_used _ _ _ Ht _ _ _ Ho'). unfold in_page. lia. }
        rewrite Hm in Hnz |- * by done.
        pose proof (tb_next _ _ _ Ht t' p' j Ho' Hj Hlv Hnz) as Hc.
        rewrite fn_lookup_insert_ne; [done|]. intros Ea. by apply (Hna _ _ Hc).
Qed.

(** What mapping below the table [t] at level [i] establishes. *)
Record mapped (own : Z -> option (list Z)) (bs : list (Z * Z)) (m : memory) (p : list Z)
    (i : nat) (t va lastLvl v : Z) (own' : Z -> option (list Z)) (bs' : list (Z * Z))
    (s' : state) : Prop := {
  mp_rep : rep bs' s';
  mp_tables : tables own' bs' (mem s');
  mp_own : forall t' p', own t' = Some p' -> own' t' = Some p';
  mp_free : forall x, covers bs' x -> covers bs x;
  mp_mem : forall x, ~ covers bs x ->
    (forall t' q, own t' = Some (q ++ p) -> ~ in_page t' x) -> mem s' x = m x;
  mp_value : translate (mem s') i t va = v;
  mp_other : forall va', apart lastLvl (Z.of_nat i) va va' ->
    translate (mem s') i t va' = translate m i t va'
}.

(** One level up: [m1] is the memory after the entry of [t] was written. *)
Lemma mapped_step own bs m p i t va lastLvl v own1 bs1 m1 c own' bs' s' :
  let lvl := Z.of_nat (S i) in let idx := index va lvl in let x0 := slot t va lvl in
  tables own bs m -> own t = Some p -> (S i + length p = levels)%nat -> lvl <> 1 ->
  tables own1 bs1 m1 -> (forall t' p', own t' = Some p' -> own1 t' = Some p') ->
  (forall t' p', own1 t' = Some p' ->
     own t' = Some p' \/ forall x, in_page t' x -> covers bs x) ->
  (forall x, covers bs1 x -> covers bs x) ->
  next lvl (m1 x0) <> 0 -> to_HHDM hhdm (next lvl (m1 x0)) = c -> own1 c = Some (idx :: p) ->
  (forall x, ~ covers bs x -> x <> x0 -> m1 x = m x) ->
  (forall va', index va' lvl = idx -> translate m (S i) t va' = translate m1 i c va') ->
  mapped own1 bs1 m1 (idx :: p) i c va lastLvl v own' bs' s' ->
  mapped own bs m p (S i) t va lastLvl v own' bs' s'.
Proof.
  intros lvl idx x0 Ht Ho Hl Hlvl Ht1 Hsub Hsup Hfr Hnz Hc Hoc Hm1 Htr [Hrep Htb Hown Hfree Hmem Hval Hoth].
  assert (Hx0 : in_page t x0) by apply (slot_range _ _ _ _ _ va lvl Ht Ho).
  (* memory of the tables outside the subtree of the entry is untouched *)
  assert (Hkeep : forall t' p' x, own t' = Some p' -> (forall q, p' <> q ++ idx :: p) ->
            in_page t' x -> mem s' x = m1 x).
  { intros t' p' x Ho' Hp' Hx. apply Hmem.
    - intros Hc'. by apply (tb_used _ _ _ Ht _ _ _ Ho' Hx), Hfr.
    - intros t'' q Ho'' Hx''. eapply (pages_apart _ _ _ t'' _ t' p' x Ht1); eauto. }
  assert (Hpp : forall q, p <> q ++ idx :: p) by (intros q; apply not_below).
  constructor; [done|done|by auto|by auto| | |].
  - intros x Hx Hn. rewrite Hmem; [apply Hm1; [done|]| |].
    + intros ->. by apply (Hn t [] Ho).
    + intros Hx1. by apply Hx, Hfr.
    + intros t' q Ho' Hx'. destruct (Hsup _ _ Ho') as [Ho''|Hcv]; [|by apply Hx, Hcv].
      apply (Hn t' (q ++ [idx])); [by rewrite <- app_assoc|done].
  - rewrite translate_S. cbv zeta. fold lvl x0. rewrite (Hkeep t p x0 Ho Hpp Hx0).
    apply Z.eqb_neq in Hnz as ->. by rewrite Hc.
  - intros va' (k & Hk & Hne).
    destruct (decide (index va' lvl = idx)) as [Ei|Ei].
    + rewrite (Htr va' Ei), translate_S. cbv zeta. fold lvl.
      assert (slot t va' lvl = x0) as -> by (unfold x0, slot; by rewrite Ei).
      rewrite (Hkeep t p x0 Ho Hpp Hx0). apply Z.eqb_neq in Hnz as ->. rewrite Hc.
      apply Hoth. exists k. split; [|done]. destruct (decide (k = lvl)) as [->|]; [by rewrite Ei in Hne|].
      unfold lvl in *. lia.
    + rewrite !translate_S. cbv zeta. fold lvl.
      pose proof (slot_range _ _ _ _ _ va' lvl Ht Ho) as [_ Hx'].
      assert (Hs' : mem s' (slot t va' lvl) = m (slot t va' lvl)).
      { rewrite (Hkeep t p _ Ho Hpp Hx'). apply Hm1; [by apply (tb_used _ _ _ Ht _ _ _ Ho)|].
        unfold x0, slot. intros E. apply Ei. unfold idx. lia. }
      rewrite Hs'. destruct (next lvl (m (slot t va' lvl)) =? 0) eqn:En; [done|]. zb.
      eapply translate_frame; [done|by eapply child_own| cbn; lia|].
      intros t' q x Ho' Hx. rewrite (Hkeep t' _ x Ho'); [apply Hm1| |done].
      * by apply (tb_used _ _ _ Ht _ _ _ Ho').
      * intros ->. eapply (pages_apart _ _ _ t p t' _ x0 Ht Ho Ho'); [apply not_below|done..].
      * intros q'. by apply sibling.
Qed.

(** The entry at the last level is written. *)
Lemma mapped_leaf own bs s p i t va leaf v :
  let lvl := Z.of_nat (S i) in
  tables own bs (mem s) -> rep bs s -> own t = Some p -> (S i + length p = levels)%nat ->
  next lvl leaf = 0 -> leaf_value lvl leaf = v -> next lvl (mem s (slot t va lvl)) = 0 ->
  mapped own bs (mem s) p (S i) t va lvl v own bs
    (set_mem (<[slot t va lvl := leaf]> (mem s)) s).
Proof.
  intros lvl Ht Hrep Ho Hl Hn Hv Hn0.
  assert (Hx0 : in_page t (slot t va lvl)) by apply (slot_range _ _ _ _ _ va lvl Ht Ho).
  constructor; cbn; [|by replace lvl with (Z.of_nat (levels - length p)) in *
      by (unfold lvl; f_equal; lia); apply tables_store; auto|done|done| | |].
  - apply rep_store; [done|]. by eapply tb_used.
  - intros x Hx Hp. rewrite fn_lookup_insert_ne; [done|]. intros <-. by apply (Hp t [] Ho).
  - change (translate (<[slot t va lvl := leaf]> (mem s)) (S i) t va = v).
    rewrite translate_S. cbv zeta. fold lvl. by rewrite fn_lookup_insert, Hn.
  - intros va' (k & Hk & Hne). assert (k = lvl) as -> by (unfold lvl in *; lia).
    change (translate (<[slot t va lvl := leaf]> (mem s)) (S i) t va' =
            translate (mem s) (S i) t va').
    rewrite !translate_S. cbv zeta. fold lvl.
    rewrite fn_lookup_insert_ne by (unfold slot; lia).
    destruct (next lvl (mem s (slot t va' lvl)) =? 0) eqn:En; [done|]. zb.
    destruct (decide (lvl = 1)) as [E|E]; [unfold next in En; rewrite E in En; done|].
    eapply translate_frame; [done|by eapply child_own|cbn; lia|].
    intros t' q x Ho' Hx. rewrite fn_lookup_insert_ne; [done|]. intros <-.
    eapply (pages_apart _ _ _ t p t' _ _ Ht Ho Ho'); [apply not_below|done..].
Qed.

Lemma next_update i e f : next i e <> 0 -> next i (update_flags e f) = next i e.
Proof.
  unfold next. rewrite update_bit7, update_addr.
  destruct (_ || _); [done|]. destruct (Present e) eqn:E; [|done].
  by rewrite update_bit0.
Qed.

(** A lookup in a zeroed table finds nothing. *)
Lemma translate_zero m i t va : (forall x, in_page t x -> m x = 0) -> translate m i t va = 0.
Proof.
  intros Hz. destruct i as [|i]; [done|]. rewrite translate_S. cbv zeta.
  rewrite Hz, next_0; [|pose proof (index_range va (Z.of_nat (S i))); unfold in_page, slot; lia].
  cbn. unfold leaf_value, large, PageSize. rewrite Z.bits_0, !andb_false_r, Z.land_0_l.
  by destruct (_ =? 1).
Qed.

(** The levels that stop the walk include every level with large pages above
    the last one. *)
Definition stops (lvls : list Z) (lastLvl : Z) : Prop :=
  forall l, lastLvl < l -> l = 2 \/ l = 3 -> l ∈ lvls.

Lemma not_blocked lvls lastLvl i e : stops lvls lastLvl -> 1 <= lastLvl < i ->
  blocked lvls i e = false -> leaf_value i e = 0.
Proof.
  intros Hs Hi Hb. unfold leaf_value, large. destruct (Z.eqb_spec i 1); [lia|].
  assert (Hno : forall l, i = l -> l = 2 \/ l = 3 -> PageSize e && Present e = false).
  { intros l -> Hl. destruct (PageSize e && Present e) eqn:E; [|done].
    rewrite <- Hb. symmetry. apply existsb_exists. exists l.
    split; [apply list_elem_of_In; apply Hs; lia|]. by rewrite Z.eqb_refl, <- andb_assoc, E. }
  destruct (Z.eqb_spec i 3) as [E|]; cbn [andb]; [rewrite (Hno 3) by auto|].
  all: destruct (Z.eqb_spec i 2) as [E'|]; cbn [andb]; [rewrite (Hno 2) by auto|]; done.
Qed.

Lemma AllocatePage_count bs s : rep bs s -> 0 < m_FreePageCount s ->
  runs (AllocatePage hhdm) s (fun _ s' => m_FreePageCount s' = m_FreePageCount s - 1).
Proof.
  intros Hrep Hf. destruct bs as [|[a n] bs].
  { rewrite (rep_free _ _ Hrep) in Hf. cbn in Hf. lia. }
  eapply runs_mono; [by apply AllocatePage_runs|].
  intros p s' (_ & Hrep' & _ & _). rewrite (rep_free _ _ Hrep), (rep_free _ _ Hrep').
  destruct (Z.eqb_spec n 1); cbn; lia.
Qed.

(** Allocating, clearing and linking the table below an entry. *)
Lemma new_table_runs own bs s t p va flags (Q : unit -> state -> Prop) (k : Z -> M state unit) :
  let lvl := Z.of_nat (levels - length p) in
  hhdm mod PAGE_SIZE = 0 -> physical bs -> tables own bs (mem s) -> rep bs s ->
  own t = Some p -> (S (length p) < levels)%nat -> 0 < m_FreePageCount s ->
  (forall a bs' s1, rep bs' s1 ->
     new_table own bs (mem s) t p va a bs' (mem s1) (table_entry (from_HHDM hhdm a) flags) ->
     m_FreePageCount s1 = m_FreePageCount s - 1 -> runs (k a) s1 Q) ->
  runs (let* page := AllocatePage hhdm in
        let data := to_HHDM hhdm page in
        zero_page data ;;;
        store (slot t va lvl) (table_entry (from_HHDM hhdm data) flags) ;;;
        k data) s Q.
Proof.
  intros lvl Hh Hph Ht Hrep Ho Hl Hf Hk. mstep.
  eapply runs_mono; [apply runs_det; [by apply (AllocatePage_took hhdm bs)|
                                      by apply (AllocatePage_count bs)]|].
  intros page s1 [(a & bs' & -> & Htk & Hrep1 & _ & _ & _ & Hm1) Hu].
  destruct (run_bounds bs a 1 bs' (lk_ok _ _ (rep_linked _ _ Hrep)) ltac:(lia) Htk) as [Hlo Hhi].
  destruct (slot_range _ _ _ _ _ va lvl Ht Ho) as [Hs Hsp].
  assert (Hsc : ~ covers bs (slot t va lvl)) by by eapply tb_used.
  assert (Ha : covers bs a) by (eapply takes_page; [done|unfold in_page; lia]).
  cbv zeta. rewrite to_from by (unfold u64; lia). mstep. unfold zero_page.
  destruct (Z.eqb_spec a 0); [lia|]. apply runs_modify. mstep. apply store_runs; [done|].
  cbn [mem set_mem]. apply (Hk a bs').
  - apply rep_store; [|by intros ?; eapply Hsc, takes_sub].
    apply rep_mem; [done|]. intros x Hx.
    destruct ((a <=? x) && (x <? a + 4096)) eqn:E; [|done].
    apply andb_true_iff in E as [E1 E2]. zb.
    exfalso. apply (tk_disjoint _ _ _ _ Htk x); [unfold in_run; lia|done].
  - assert (Hout : forall x, ~ covers bs x -> (a <=? x) && (x <? a + 4096) = false).
    { intros x Hx. apply not_true_iff_false. intros E. apply andb_true_iff in E as [E1 E2]. zb.
      apply Hx. eapply takes_page; [done|unfold in_page; lia]. }
    destruct (Hph a Ha) as [Hp1 Hp2].
    assert (Hpm : from_HHDM hhdm a mod 4096 = 0).
    { pose proof (tk_aligned _ _ _ _ Htk). unfold from_HHDM, sub64, wrap64. zlia. }
    destruct (table_entry_bits (from_HHDM hhdm a) flags Hpm ltac:(lia)) as (He & H7 & H0).
    constructor; cbn [mem set_mem]; fold lvl; try done; try lia.
    + intros x Hx. rewrite fn_lookup_insert_ne.
      * unfold in_page in Hx. destruct (Z.leb_spec a x), (Z.ltb_spec x (a + 4096)); done || lia.
      * intros <-. apply Hsc. by eapply takes_page.
    + unfold next. rewrite H7, H0, He, andb_false_r, orb_false_r.
      destruct (Z.leb_spec lvl 1); [lia|done].
    + by rewrite fn_lookup_insert.
    + intros x Hx Hne. rewrite fn_lookup_insert_ne by done. rewrite Hout by done. by apply Hm1.
  - done.
Qed.

Lemma clear_zero lvls lastLvl m i t va : (forall x, in_page t x -> m x = 0) -> (0 < i)%nat ->
  clear lvls lastLvl m i t va = true.
Proof.
  intros Hz Hi. destruct i as [|i]; [lia|]. cbn [clear].
  rewrite Hz, next_0; [|pose proof (index_range va (Z.of_nat (S i))); unfold in_page, slot; lia].
  cbn. apply negb_true_iff. induction lvls as [|l lvls IH]; cbn; [done|].
  by rewrite andb_false_r.
Qed.

(** [clear] of a table is not affected by a write to the table above it. *)
Lemma clear_frame lvls lastLvl own bs m m' i t p va : tables own bs m ->
  own t = Some p -> (i + length p = levels)%nat ->
  (forall t' q x, own t' = Some (q ++ p) -> in_page t' x -> m' x = m x) ->
  clear lvls lastLvl m' i t va = clear lvls lastLvl m i t va.
Proof.
  intros Ht. revert t p. induction i as [|i IH]; intros t p Ho Hl Hm; [done|].
  cbn [clear]. destruct (slot_range _ _ _ _ _ va (Z.of_nat (S i)) Ht Ho) as [_ Hs].
  rewrite (Hm t [] _ Ho Hs).
  destruct (next _ _ =? 0) eqn:E2; [done|]. destruct (_ =? lastLvl); [done|]. zb.
  eapply IH; [eapply child_own; try done|cbn; lia|].
  - intros E. unfold next in E2. by rewrite E in E2.
  - intros t' q x Ho'. apply (Hm t' (q ++ [index va (Z.of_nat (S i))])).
    by rewrite <- app_assoc.
Qed.

Lemma Map_loop_runs lvls lastLvl leaf flags v va :
  hhdm mod PAGE_SIZE = 0 -> stops lvls lastLvl -> 1 <= lastLvl ->
  next lastLvl leaf = 0 -> leaf_value lastLvl leaf = v ->
  forall i own bs s t p, tables own bs (mem s) -> rep bs s -> physical bs ->
  own t = Some p -> (i + length p = levels)%nat -> lastLvl <= Z.of_nat i ->
  Z.of_nat i - lastLvl <= m_FreePageCount s ->
  clear lvls lastLvl (mem s) i t va = true ->
  runs (Map_loop hhdm la57 lastLvl lvls leaf flags i t va) s (fun _ s' =>
    exists own' bs', mapped own bs (mem s) p i t va lastLvl v own' bs' s').
Proof.
  intros Hh Hst Hlast Hleaf Hv. induction i as [|i IH]; intros own bs s t p Ht Hrep Hph Ho Hl Hi Hf Hcl; [done|].
  cbn [Map_loop clear] in *. set (lvl := Z.of_nat (S i)) in *.
  destruct (tb_ok _ _ _ Ht _ _ Ho) as (Hpos & _). destruct (Z.eqb_spec t 0); [lia|].
  destruct (Z.ltb_spec lvl lastLvl); [lia|].
  destruct (slot_range _ _ _ _ _ va lvl Ht Ho) as [Hs Hsp].
  rewrite (entry_slot _ _ _ _ _ va _ Ht Ho).
  mstep. apply GetNextPageTable_runs; [done|lia|]. fold lvl.
  assert (Elvl : lvl = Z.of_nat (levels - length p)) by (unfold lvl; f_equal; lia).
  destruct (Z.eqb_spec (next lvl (mem s (slot t va lvl))) 0) as [En|En].
  - mstep. apply blocked_at_runs; [done|].
    destruct (blocked _ _ _) eqn:Eb; [done|].
    destruct (Z.eqb_spec lvl lastLvl) as [<-|Hne].
    + apply store_runs; [done|]. exists own, bs. by apply mapped_leaf.
    + rewrite Elvl. apply (new_table_runs own bs s t p va flags _
        (fun data => Map_loop hhdm la57 lastLvl lvls leaf flags i data va)); [done..|lia|lia|].
      intros a bs' s1 Hrep1 Hnt Hf1.
      pose proof (tables_new _ _ _ _ _ _ _ _ _ _ Ht Hnt) as Ht1. cbv zeta in Ht1. rewrite <- Elvl in Ht1.
      pose proof Hnt as [_ _ Htk Hlo Hhi Hz Hn1 Hs1 Hm1]. rewrite <- Elvl in Hn1, Hs1, Hm1.
      assert (Ha : covers bs a) by (eapply takes_page; [done|unfold in_page; lia]).
      destruct (Hph a Ha) as [Hp1 _].
      eapply runs_mono; [eapply (IH _ bs' s1 a); try done|].
      * intros x Hx. apply Hph. by eapply takes_sub.
      * by rewrite fn_lookup_insert.
      * cbn. lia.
      * unfold lvl in *. lia.
      * unfold lvl in *. lia.
      * apply clear_zero; [done|lia].
      * intros [] s' (own' & bs'' & Hmp). exists own', bs''.
        eapply (mapped_step _ _ _ _ _ _ _ _ _ _ _ _ a); fold lvl; try done.
        -- lia.
        -- intros t' p' Ho'. rewrite fn_lookup_insert_ne; [done|]. intros ->.
           apply (tb_used _ _ _ Ht _ _ t' Ho'); [unfold in_page; lia|done].
        -- intros t' p' Ho'. destruct (decide (a = t')) as [->|Hn'].
           ++ right. intros x Hx. by eapply takes_page.
           ++ rewrite fn_lookup_insert_ne in Ho' by done. by left.
        -- intros x. by eapply takes_sub.
        -- rewrite Hs1, Hn1. lia.
        -- rewrite Hs1, Hn1. apply to_from. unfold u64. lia.
        -- by rewrite fn_lookup_insert.
        -- intros va' Ei. rewrite translate_S. cbv zeta. fold lvl.
           assert (slot t va' lvl = slot t va lvl) as -> by (unfold slot; by rewrite Ei).
           rewrite En, (translate_zero _ _ _ _ Hz). cbn.
           eapply not_blocked; [done|lia|done].
  - destruct (Z.eqb_spec lvl lastLvl) as [|Hne]; [done|].
    mstep. apply load_runs; [done|]. mstep. apply store_runs; [done|].
    set (c := to_HHDM hhdm (next lvl (mem s (slot t va lvl)))) in *.
    set (e1 := update_flags (mem s (slot t va lvl)) flags).
    set (s1 := set_mem (<[slot t va lvl := e1]> (mem s)) s).
    assert (Hlvl1 : lvl <> 1) by lia.
    assert (Hoc : own c = Some (index va lvl :: p)) by by eapply child_own.
    assert (Hn1 : next lvl e1 = next lvl (mem s (slot t va lvl))) by by apply next_update.
    assert (Ht1 : tables own bs (mem s1)).
    { cbn. rewrite Elvl in *. apply tables_store; auto. }
    assert (Hsub : forall t' q x, own t' = Some (q ++ index va lvl :: p) -> in_page t' x ->
              mem s1 x = mem s x).
    { intros t' q x Ho' Hx. cbn. rewrite fn_lookup_insert_ne; [done|]. intros <-.
      eapply (pages_apart _ _ _ t p t' _ _ Ht Ho Ho'); [apply not_below|done..]. }
    eapply runs_mono; [apply (IH own bs s1 c (index va lvl :: p)); try done|].
    + apply rep_store; [done|]. by apply (tb_used _ _ _ Ht _ _ _ Ho).
    + cbn. lia.
    + unfold lvl in *. lia.
    + unfold lvl in *. cbn. lia.
    + rewrite <- Hcl. eapply clear_frame; try done. cbn. lia.
    + intros [] s' (own' & bs'' & Hmp). exists own', bs''.
      eapply (mapped_step _ _ _ _ _ _ _ _ _ own bs (mem s1) c); fold lvl; try done.
      all: try (cbn; rewrite fn_lookup_insert, Hn1; done).
      * auto.
      * intros x Hx Hne'. cbn. by rewrite fn_lookup_insert_ne.
      * intros va' Ei. rewrite translate_S. cbv zeta. fold lvl.
        assert (slot t va' lvl = slot t va lvl) as -> by (unfold slot; by rewrite Ei).
        apply Z.eqb_neq in En as ->. symmetry.
        eapply translate_frame; [exact Ht|exact Hoc|cbn; lia|exact Hsub].
Qed.

(** ** Keeping every translation *)

(** What an operation below [t] that moves no page establishes. *)
Record kept (own : Z -> option (list Z)) (bs : list (Z * Z)) (m : memory) (p : list Z)
    (i : nat) (t : Z) (s' : state) : Prop := {
  kp_rep : rep bs s';
  kp_tables : tables own bs (mem s');
  kp_mem : forall x, (forall t' q, own t' = Some (q ++ p) -> ~ in_page t' x) ->
    mem s' x = m x;
  kp_value : forall va, translate (mem s') i t va = translate m i t va
}.

Lemma kept_refl own bs s p i t : rep bs s -> tables own bs (mem s) ->
  kept own bs (mem s) p i t s.
Proof. by constructor. Qed.

(** An entry rewritten so that it ends the walk with the same value. *)
Lemma kept_leaf own bs s p i t va e :
  let lvl := Z.of_nat (S i) in
  tables own bs (mem s) -> rep bs s -> own t = Some p -> (S i + length p = levels)%nat ->
  next lvl e = 0 -> next lvl (mem s (slot t va lvl)) = 0 ->
  leaf_value lvl e = leaf_value lvl (mem s (slot t va lvl)) ->
  kept own bs (mem s) p (S i) t (set_mem (<[slot t va lvl := e]> (mem s)) s).
Proof.
  intros lvl Ht Hrep Ho Hl Hn Hn0 Hv.
  destruct (mapped_leaf own bs s p i t va e _ Ht Hrep Ho Hl Hn eq_refl Hn0)
    as [Hrep' Ht' _ _ Hm Hval Hoth].
  constructor; [done|done| |].
  - intros x Hx. cbn. rewrite fn_lookup_insert_ne; [done|]. intros <-.
    apply (Hx t [] Ho). by eapply slot_range.
  - intros va'. destruct (decide (index va' lvl = index va lvl)) as [Ei|Ei].
    + rewrite !translate_S. cbv zeta. fold lvl.
      assert (slot t va' lvl = slot t va lvl) as -> by (unfold slot; by rewrite Ei).
      cbn. by rewrite fn_lookup_insert, Hn, Hn0.
    + apply Hoth. exists lvl. split; [unfold lvl; lia|done].
Qed.

(** Updating the flags of an entry that leads to a table keeps the invariant
    and does not touch the tables below it. *)
Lemma kept_first own bs s p i t va f :
  let lvl := Z.of_nat (S i) in let x0 := slot t va lvl in
  let s1 := set_mem (<[x0 := update_flags (mem s x0) f]> (mem s)) s in
  tables own bs (mem s) -> rep bs s -> own t = Some p -> (S i + length p = levels)%nat ->
  next lvl (mem s x0) <> 0 ->
  tables own bs (mem s1) /\ rep bs s1 /\
  (forall t' q x j, own t' = Some (q ++ j :: p) -> in_page t' x -> mem s1 x = mem s x).
Proof.
  intros lvl x0 s1 Ht Hrep Ho Hl Hn.
  assert (Elvl : lvl = Z.of_nat (levels - length p)) by (unfold lvl; f_equal; lia).
  assert (Hx0 : in_page t x0) by apply (slot_range _ _ _ _ _ va lvl Ht Ho).
  assert (Hn1 : next lvl (update_flags (mem s x0) f) = next lvl (mem s x0)) by by apply next_update.
  split_and!.
  - cbn. unfold x0 in *. rewrite Elvl in *. apply tables_store; auto.
  - apply rep_store; [done|]. by apply (tb_used _ _ _ Ht _ _ _ Ho).
  - intros t' q x j Ho' Hx. cbn. rewrite fn_lookup_insert_ne; [done|]. intros <-.
    eapply (pages_apart _ _ _ t p t' _ _ Ht Ho Ho'); [apply not_below|done..].
Qed.

(** Updating the flags of an entry that leads to a table, and then keeping
    everything below it. *)
Lemma kept_step own bs s p i t va f s' :
  let lvl := Z.of_nat (S i) in let x0 := slot t va lvl in
  let s1 := set_mem (<[x0 := update_flags (mem s x0) f]> (mem s)) s in
  let c := to_HHDM hhdm (next lvl (mem s x0)) in
  tables own bs (mem s) -> rep bs s -> own t = Some p -> (S i + length p = levels)%nat ->
  next lvl (mem s x0) <> 0 ->
  (tables own bs (mem s1) -> rep bs s1 -> own c = Some (index va lvl :: p) ->
   kept own bs (mem s1) (index va lvl :: p) i c s') ->
  kept own bs (mem s) p (S i) t s'.
Proof.
  intros lvl x0 s1 c Ht Hrep Ho Hl Hn IH.
  assert (Hl1 : lvl <> 1) by (intros E; unfold next in Hn; rewrite E in Hn; done).
  assert (Hx0 : in_page t x0) by apply (slot_range _ _ _ _ _ va lvl Ht Ho).
  assert (Hn1 : next lvl (update_flags (mem s x0) f) = next lvl (mem s x0)) by by apply next_update.
  assert (Hoc : own c = Some (index va lvl :: p)) by by eapply child_own.
  destruct (kept_first own bs s p i t va f Ht Hrep Ho Hl Hn) as (Ht1 & Hrep1 & Hs1).
  fold lvl x0 s1 in Ht1, Hrep1, Hs1.
  destruct (IH Ht1 Hrep1 Hoc) as [Hr Htb Hm Hv].
  assert (Hkeep : forall t' p' x, own t' = Some p' -> (forall q, p' <> q ++ index va lvl :: p) ->
            in_page t' x -> mem s' x = mem s1 x).
  { intros t' p' x Ho' Hp' Hx. apply Hm. intros t'' q Ho'' Hx''.
    eapply (pages_apart _ _ _ t'' _ t' p' x Ht); eauto. }
  constructor; [done|done| |].
  - intros x Hx. rewrite Hm.
    + cbn. rewrite fn_lookup_insert_ne; [done|]. intros <-. by apply (Hx t [] Ho).
    + intros t' q Ho'. apply (Hx t' (q ++ [index va lvl])). by rewrite <- app_assoc.
  - intros va'. rewrite !translate_S. cbv zeta. fold lvl.
    pose proof (slot_range _ _ _ _ _ va' lvl Ht Ho) as [_ Hx'].
    rewrite (Hkeep t p _ Ho ltac:(intros q; apply not_below) Hx').
    destruct (decide (index va' lvl = index va lvl)) as [Ei|Ei].
    + assert (slot t va' lvl = x0) as -> by (unfold x0, slot; by rewrite Ei).
      cbn [mem set_mem s1]. rewrite fn_lookup_insert, Hn1. apply Z.eqb_neq in Hn as ->.
      fold c. rewrite Hv. eapply translate_frame; [exact Ht|exact Hoc|cbn; lia|].
      intros t' q x Ho'. by eapply Hs1.
    + assert (mem s1 (slot t va' lvl) = mem s (slot t va' lvl)) as ->.
      { cbn. rewrite fn_lookup_insert_ne; [done|]. unfold x0, slot. lia. }
      destruct (next lvl (mem s (slot t va' lvl)) =? 0) eqn:En; [done|]. zb.
      eapply translate_frame; [done|by eapply child_own|cbn; lia|].
      intros t' q x Ho' Hx. rewrite (Hkeep t' _ x Ho'); [by eapply Hs1| |done].
      intros q'. by apply sibling.
Qed.

(** A mapping that meets a large page, or a table where it wants to put one,
    changes no translation. *)
Lemma Map_loop_refuses lvls lastLvl leaf flags va :
  1 <= lastLvl -> forall i own bs s t p, tables own bs (mem s) -> rep bs s ->
  own t = Some p -> (i + length p = levels)%nat -> lastLvl <= Z.of_nat i ->
  clear lvls lastLvl (mem s) i t va = false ->
  runs (Map_loop hhdm la57 lastLvl lvls leaf flags i t va) s (fun _ s' =>
    kept own bs (mem s) p i t s').
Proof.
  intros Hlast. induction i as [|i IH]; intros own bs s t p Ht Hrep Ho Hl Hi Hcl; [lia|].
  cbn [Map_loop clear] in *. set (lvl := Z.of_nat (S i)) in *.
  destruct (tb_ok _ _ _ Ht _ _ Ho) as (Hpos & _). destruct (Z.eqb_spec t 0); [lia|].
  destruct (Z.ltb_spec lvl lastLvl); [lia|].
  destruct (slot_range _ _ _ _ _ va lvl Ht Ho) as [Hs Hsp].
  rewrite (entry_slot _ _ _ _ _ va _ Ht Ho).
  mstep. apply GetNextPageTable_runs; [done|lia|]. fold lvl.
  destruct (Z.eqb_spec (next lvl (mem s (slot t va lvl))) 0) as [En|En].
  { mstep. apply blocked_at_runs; [done|]. apply negb_false_iff in Hcl as ->.
    apply runs_ret. by apply kept_refl. }
  mstep. apply load_runs; [done|]. mstep. apply store_runs; [done|].
  set (c := to_HHDM hhdm (next lvl (mem s (slot t va lvl)))) in *.
  set (s1 := set_mem _ s).
  assert (Hl1 : lvl <> 1) by (intros E; unfold next in En; rewrite E in En; done).
  assert (Hoc : own c = Some (index va lvl :: p)) by by eapply child_own.
  destruct (kept_first own bs s p i t va flags Ht Hrep Ho Hl En) as (Ht1 & Hrep1 & Hfr).
  fold lvl s1 in Ht1, Hrep1, Hfr.
  destruct (Z.eqb_spec lvl lastLvl) as [E|Hne].
  - (* a table sits at the last level: the walk goes on and stops at once *)
    assert (Hend : runs (Map_loop hhdm la57 lastLvl lvls leaf flags i c va) s1 (fun _ s' => s' = s1)).
    { destruct i; cbn; destruct (_ =? 0); try by apply runs_ret.
      destruct (Z.ltb_spec (Z.of_nat (S i)) lastLvl); [by apply runs_ret|unfold lvl in *; lia]. }
    eapply runs_mono; [exact Hend|]. intros [] s' ->.
    eapply kept_step; [done..|]. intros. by apply kept_refl.
  - eapply runs_mono; [apply (IH own bs s1 c (index va lvl :: p)); try done|].
    + cbn. lia.
    + unfold lvl in *. lia.
    + rewrite <- Hcl. eapply clear_frame; [exact Ht|exact Hoc|cbn; lia|].
      intros t' q x. apply Hfr.
    + intros [] s' Hk. eapply kept_step; [done..|]. by intros.
Qed.

(** ** Changing the flags of a page *)

(** The address of the level 1 entry of [va], when the tables above it exist. *)
Fixpoint leaf_slot (m : memory) (i : nat) (t va : Z) : option Z :=
  match i with
  | O => None
  | S i' =>
      let x := slot t va (Z.of_nat i) in
      if Z.of_nat i =? 1 then Some x
      else if next (Z.of_nat i) (m x) =? 0 then None
      else leaf_slot m i' (to_HHDM hhdm (next (Z.of_nat i) (m x))) va
  end.

(** It lies in a table below the one the walk starts from. *)
Lemma leaf_slot_page own bs m i t p va x : tables own bs m ->
  own t = Some p -> (i + length p = levels)%nat -> leaf_slot m i t va = Some x ->
  exists t' q, own t' = Some (q ++ p) /\ in_page t' x.
Proof.
  intros Ht. revert t p. induction i as [|i IH]; intros t p Ho Hl Hx; [done|].
  cbn [leaf_slot] in Hx. destruct (_ =? 1) eqn:E1.
  { simplify_eq. exists t, []. split; [done|]. by eapply slot_range. }
  destruct (next _ _ =? 0) eqn:E2; [done|]. zb.
  destruct (IH _ (index va (Z.of_nat (S i)) :: p) ltac:(by eapply child_own)
              ltac:(cbn; lia) Hx) as (t' & q & Ho' & Hx').
  exists t', (q ++ [index va (Z.of_nat (S i))]). by rewrite <- app_assoc.
Qed.

Lemma leaf_slot_frame own bs m m' i t p va : tables own bs m ->
  own t = Some p -> (i + length p = levels)%nat ->
  (forall t' q x, own t' = Some (q ++ p) -> in_page t' x -> m' x = m x) ->
  leaf_slot m' i t va = leaf_slot m i t va.
Proof.
  intros Ht. revert t p. induction i as [|i IH]; intros t p Ho Hl Hm; [done|].
  cbn [leaf_slot]. destruct (slot_range _ _ _ _ _ va (Z.of_nat (S i)) Ht Ho) as [_ Hs].
  rewrite (Hm t [] _ Ho Hs). destruct (_ =? 1) eqn:E1; [done|].
  destruct (next _ _ =? 0) eqn:E2; [done|]. zb.
  eapply IH; [by eapply child_own|cbn; lia|].
  intros t' q x Ho'. apply (Hm t' (q ++ [index va (Z.of_nat (S i))])).
  by rewrite <- app_assoc.
Qed.

Lemma RemapPage_loop_runs flags va : forall i own bs s t p,
  tables own bs (mem s) -> rep bs s -> own t = Some p -> (i + length p = levels)%nat ->
  runs (RemapPage_loop hhdm la57 flags i t va) s (fun _ s' =>
    kept own bs (mem s) p i t s' /\
    forall x, leaf_slot (mem s) i t va = Some x -> mem s' x = leaf_4K (mem s x) flags).
Proof.
  induction i as [|i IH]; intros own bs s t p Ht Hrep Ho Hl.
  { cbn. destruct (_ =? 0); apply runs_ret; (split; [by apply kept_refl|done]). }
  cbn [RemapPage_loop leaf_slot]. set (lvl := Z.of_nat (S i)) in *.
  destruct (tb_ok _ _ _ Ht _ _ Ho) as (Hpos & _). destruct (Z.eqb_spec t 0); [lia|].
  destruct (slot_range _ _ _ _ _ va lvl Ht Ho) as [Hs Hsp].
  rewrite (entry_slot _ _ _ _ _ va _ Ht Ho).
  destruct (Z.eqb_spec lvl 1) as [El|El].
  { mstep. apply load_runs; [done|]. apply store_runs; [done|]. split.
    - apply kept_leaf; try done; fold lvl; rewrite El; [done..|].
      unfold leaf_value. cbn. apply leaf_4K_addr.
    - intros x Hx. simplify_eq. cbn. by rewrite fn_lookup_insert. }
  mstep. apply GetNextPageTable_runs; [done|lia|]. fold lvl.
  destruct (Z.eqb_spec (next lvl (mem s (slot t va lvl))) 0) as [En|En].
  { apply runs_ret. split; [by apply kept_refl|done]. }
  mstep. apply load_runs; [done|]. mstep. apply store_runs; [done|].
  set (c := to_HHDM hhdm (next lvl (mem s (slot t va lvl)))) in *.
  set (s1 := set_mem _ s).
  assert (Hoc : own c = Some (index va lvl :: p)) by by eapply child_own.
  destruct (kept_first own bs s p i t va flags Ht Hrep Ho Hl En) as (Ht1 & Hrep1 & Hfr).
  fold lvl s1 in Ht1, Hrep1, Hfr.
  eapply runs_mono; [apply (IH own bs s1 c (index va lvl :: p)); [done..|cbn; lia]|].
  intros [] s' [Hk Hx]. split; [eapply kept_step; [done..|]; by intros|].
  intros x Hls. rewrite Hx.
  - destruct (leaf_slot_page _ _ _ i _ _ _ _ Ht Hoc ltac:(cbn; lia) Hls) as (t' & q & Ho' & Hx').
    by rewrite (Hfr t' q x _ Ho' Hx').
  - rewrite <- Hls. eapply leaf_slot_frame; [exact Ht|exact Hoc|cbn; lia|].
    intros t' q y. apply Hfr.
Qed.

(** ** Unmapping *)

(** The table of level 1 on the path of [va]. *)
Fixpoint last_table (m : memory) (i : nat) (t va : Z) : option Z :=
  match i with
  | O => None
  | S i' =>
      let e := m (slot t va (Z.of_nat i)) in
      if Z.of_nat i =? 1 then Some t
      else if next (Z.of_nat i) e =? 0 then None
      else last_table m i' (to_HHDM hhdm (next (Z.of_nat i) e)) va
  end.

(** The stack that the descent builds holds, at its bottom, the entry that
    leads to the table of level 1. *)
Definition bottom (stk : list (option Z)) (m : memory) (t1 : Z) : Prop :=
  exists x, stk !! O = Some (Some x) /\ 0 < x < W64 /\
    to_HHDM hhdm (Z.land (m x) ADDR_4K) = t1.

Lemma any_present_runs n t s (Q : bool -> state -> Prop) :
  0 < t -> t + 8 * Z.of_nat n < W64 ->
  (exists j, 0 <= j < Z.of_nat n /\ Present (mem s (t + j * 8)) = true) ->
  Q true s -> runs (any_present n t) s Q.
Proof.
  revert t. induction n as [|n IH]; intros t Hp Hb (j & Hj & Hpr) HQ; [lia|].
  cbn [any_present]. mstep. apply load_runs; [lia|]. fold (Present (mem s t)).
  destruct (Present (mem s t)) eqn:E; [by apply runs_ret|].
  rewrite add64_small by lia. apply IH; [lia|lia| |done].
  exists (j - 1). destruct (decide (j = 0)) as [->|]; [rewrite Z.add_0_r in Hpr; congruence|].
  split; [lia|]. by replace (t + 8 + (j - 1) * 8) with (t + j * 8) by lia.
Qed.

Lemma next_addr i e : next i e <> 0 -> next i e = Z.land e ADDR_4K.
Proof. unfold next. destruct (_ || _); [done|]. by destruct (Present e). Qed.

Lemma Unmap_walk_runs va t1 : forall i own bs s t p stk,
  tables own bs (mem s) -> rep bs s -> own t = Some p -> (i + length p = levels)%nat ->
  length stk = 4%nat -> last_table (mem s) i t va = Some t1 ->
  ((i = 1)%nat -> bottom stk (mem s) t1 /\
     exists t' p' x, stk !! O = Some (Some x) /\ own t' = Some p' /\ p' <> p /\ in_page t' x) ->
  runs (Unmap_walk hhdm la57 1 stk i t va) s (fun r s' => exists stk',
    r = Some stk' /\ mapped own bs (mem s) p i t va 1 0 own bs s' /\
    bottom stk' (mem s') t1 /\ (exists p1, own t1 = Some p1) /\
    forall x, x <> slot t1 va 1 -> mem s' x = mem s x).
Proof.
  induction i as [|i IH]; intros own bs s t p stk Ht Hrep Ho Hl Hlen Hlt Hb; [done|].
  cbn [Unmap_walk last_table] in *. set (lvl := Z.of_nat (S i)) in *.
  destruct (tb_ok _ _ _ Ht _ _ Ho) as (Hpos & _). destruct (Z.eqb_spec t 0); [lia|].
  destruct (Z.ltb_spec lvl 1); [lia|].
  destruct (slot_range _ _ _ _ _ va lvl Ht Ho) as [Hs Hsp].
  rewrite (entry_slot _ _ _ _ _ va _ Ht Ho).
  destruct (Z.eqb_spec lvl 1) as [El|El].
  - assert (i = O) as -> by (unfold lvl in El; lia). simplify_eq.
    mstep. apply store_runs; [done|]. apply runs_ret. exists stk.
    destruct (Hb eq_refl) as [(x & Hx & Hxr & Hxt) (t' & p' & x' & Hx' & Ho' & Hpp & Hin)].
    split_and!; [done|by apply mapped_leaf| |by exists p|].
    + exists x. split; [done|split; [done|]]. cbn. rewrite fn_lookup_insert_ne; [done|].
      intros <-. rewrite Hx in Hx'. simplify_eq. exact (pages_apart _ _ _ t' p' t1 p _ Ht Ho' Ho Hpp Hin Hsp).
    + intros y Hy. cbn. by rewrite fn_lookup_insert_ne.
  - destruct (Z.eqb_spec (next lvl (mem s (slot t va lvl))) 0) as [En|En]; [done|].
    assert (Hlv : lvl <= 5) by (unfold lvl, PageTables.levels in *; destruct la57; lia).
    mstep. unfold stack_set. rewrite Hlen.
    destruct ((0 <=? lvl - 1 - 1) && (lvl - 1 - 1 <? Z.of_nat 4)) eqn:Eb.
    2: { apply andb_false_iff in Eb as [Eb|Eb]; zb; unfold lvl in *; lia. }
    apply runs_ret. mstep. apply GetNextPageTable_runs; [done|lia|]. fold lvl.
    apply Z.eqb_neq in En as En'. rewrite En'.
    set (c := to_HHDM hhdm (next lvl (mem s (slot t va lvl)))) in *.
    assert (Hoc : own c = Some (index va lvl :: p)) by by eapply child_own.
    eapply runs_mono; [apply (IH own bs s c (index va lvl :: p)); try done|].
    + cbn. lia.
    + by rewrite length_insert.
    + intros ->. change lvl with 2. cbn [Z.sub Z.opp Z.add Z.pos_sub Z.to_nat].
      destruct stk as [|y stk]; [done|].
      assert (Hc : c = t1) by (change (Some c = Some t1) in Hlt; congruence).
      split; [exists (slot t va lvl); split_and!; [done|lia|lia|]|].
      * rewrite <- (next_addr lvl) by done. exact Hc.
      * exists t, p, (slot t va lvl). split_and!; [done..| |done]. apply (not_below _ []).
    + intros r s' (stk' & -> & Hmp & Hbt & Hown & Hfr). exists stk'. split_and!; try done.
      eapply (mapped_step _ _ _ _ _ _ _ _ _ own bs (mem s) c); fold lvl; try done; [auto|].
      intros va' Ei. rewrite translate_S. cbv zeta. fold lvl.
      assert (slot t va' lvl = slot t va lvl) as -> by (unfold slot; by rewrite Ei).
      by rewrite En'.
Qed.

(** ** The theorems *)

(** The physical memory manager and the page tables under [root] are in order. *)
Record paging (own : Z -> option (list Z)) (bs : list (Z * Z)) (root : Z) (s : state) : Prop := {
  pg_rep : rep bs s;
  pg_tables : tables own bs (mem s);
  pg_physical : physical bs;
  pg_root : own root = Some []
}.

(** [x86_64_GetPhysicalAddress] returns [r] for [va], and only reads. *)
Definition looks_up (root : Z) (s : state) (va r : Z) : Prop :=
  GetPhysicalAddress hhdm la57 root va s = Ok (r, s).

Lemma looks_up_translate own bs root s va r : paging own bs root s ->
  looks_up root s va r <-> translate (mem s) levels root va = r.
Proof.
  intros [_ Ht _ Hr]. unfold looks_up, GetPhysicalAddress.
  destruct (GetPhysicalAddress_runs own bs s levels root [] va
    (fun r' s' => r' = translate (mem s) levels root va /\ s' = s) Ht Hr ltac:(cbn; lia)
    ltac:(done)) as (r' & s' & E & -> & ->).
  rewrite E. split; [by intros [= ->]|by intros ->].
Qed.

(** Everything [va] shares no page with is still translated as before. *)
Definition others_kept (lastLvl root va : Z) (s s' : state) : Prop :=
  forall va' r, apart lastLvl (Z.of_nat levels) va va' ->
    looks_up root s va' r -> looks_up root s' va' r.

Lemma mapped_paging own bs root s va lastLvl v own' bs' s' : paging own bs root s ->
  mapped own bs (mem s) [] levels root va lastLvl v own' bs' s' ->
  paging own' bs' root s' /\ looks_up root s' va v /\ others_kept lastLvl root va s s'.
Proof.
  intros Hpg [Hrep Ht Hown Hfree _ Hval Hoth].
  assert (Hpg' : paging own' bs' root s').
  { constructor; [done|done| |by apply Hown, pg_root with bs s].
    intros x Hx. by apply (pg_physical _ _ _ _ Hpg), Hfree. }
  split_and!; [done|by eapply looks_up_translate|].
  intros va' r Ha Hr. eapply looks_up_translate; [done|].
  rewrite Hoth by done. by eapply looks_up_translate.
Qed.

Lemma kept_paging own bs root s s' : paging own bs root s ->
  kept own bs (mem s) [] levels root s' ->
  paging own bs root s' /\ forall va r, looks_up root s va r -> looks_up root s' va r.
Proof.
  intros Hpg [Hrep Ht _ Hv].
  assert (Hpg' : paging own bs root s') by (destruct Hpg; by constructor).
  split; [done|]. intros va r Hr. eapply looks_up_translate; [done|].
  rewrite Hv. by eapply looks_up_translate.
Qed.

(** The three mapping functions at once. *)
Lemma Map_runs lvls lastLvl leaf flags v own bs root s va :
  hhdm mod PAGE_SIZE = 0 -> stops lvls lastLvl -> 1 <= lastLvl <= 3 ->
  next lastLvl leaf = 0 -> leaf_value lastLvl leaf = v ->
  paging own bs root s -> Z.of_nat levels - lastLvl <= m_FreePageCount s ->
  clear lvls lastLvl (mem s) levels root va = true ->
  runs (Map_loop hhdm la57 lastLvl lvls leaf flags levels root va) s (fun _ s' =>
    (exists own' bs', paging own' bs' root s') /\ looks_up root s' va v /\
    others_kept lastLvl root va s s').
Proof.
  intros Hh Hst Hlast Hn Hv Hpg Hf Hcl. pose proof Hpg as [Hrep Ht Hph Hr].
  eapply runs_mono; [apply (Map_loop_runs lvls lastLvl leaf flags v va Hh Hst ltac:(lia) Hn Hv
                        levels own bs s root []); try done|].
  - unfold PageTables.levels. destruct la57; lia.
  - intros [] s' (own' & bs' & Hmp).
    destruct (mapped_paging _ _ _ _ _ _ _ _ _ _ Hpg Hmp) as (? & ? & ?). eauto.
Qed.

(** C35: [x86_64_MapPage], with enough free pages for the missing tables and no
    large page in the way, maps the page: the lookup of the address gives the
    physical page, every address of another page is translated as before, and
    page tables and free pages stay apart and well formed. *)
Theorem MapPage_spec own bs root s va pa flags :
  hhdm mod PAGE_SIZE = 0 -> paging own bs root s ->
  Z.of_nat levels - 1 <= m_FreePageCount s ->
  clear [3; 2] 1 (mem s) levels root va = true ->
  runs (MapPage hhdm la57 root va pa flags) s (fun _ s' =>
    (exists own' bs', paging own' bs' root s') /\
    looks_up root s' va (Z.land pa ADDR_4K) /\ others_kept 1 root va s s').
Proof.
  intros Hh Hpg Hf Hcl. apply (Map_runs _ _ _ _ _ own bs); try done; try lia.
  - intros l _ [->| ->]; set_solver.
  - apply leaf_4K_addr.
Qed.

Lemma large_leaf lvl mask pa flags : (lvl = 2 /\ mask = ADDR_2M) \/ (lvl = 3 /\ mask = ADDR_1G) ->
  next lvl (leaf_large mask pa flags) = 0 /\
  leaf_value lvl (leaf_large mask pa flags) = Z.land pa mask.
Proof.
  intros H. destruct (leaf_large_bits mask pa flags) as [H7 H0].
  unfold next, leaf_value, large. rewrite H7, H0.
  destruct H as [[-> ->]|[-> ->]]; cbn -[leaf_large ADDR_2M ADDR_1G Z.land];
    (split; [done|apply leaf_large_addr; auto]).
Qed.

(** The same for [x86_64_Map2MiBPage]: the 2 MiB page is mapped and no
    address outside it changes. *)
Theorem Map2MiBPage_spec own bs root s va pa flags :
  hhdm mod PAGE_SIZE = 0 -> paging own bs root s ->
  Z.of_nat levels - 2 <= m_FreePageCount s ->
  clear [3] 2 (mem s) levels root va = true ->
  runs (Map2MiBPage hhdm la57 root va pa flags) s (fun _ s' =>
    (exists own' bs', paging own' bs' root s') /\
    looks_up root s' va (Z.land pa ADDR_2M) /\ others_kept 2 root va s s').
Proof.
  intros Hh Hpg Hf Hcl. destruct (large_leaf 2 ADDR_2M pa flags ltac:(auto)) as [Hn Hv].
  apply (Map_runs _ _ _ _ _ own bs); try done; try lia.
  intros l Hl [->| ->]; [lia|set_solver].
Qed.

(** the same for [x86_64_Map1GiBPage]. *)
Theorem Map1GiBPage_spec own bs root s va pa flags :
  hhdm mod PAGE_SIZE = 0 -> paging own bs root s ->
  Z.of_nat levels - 3 <= m_FreePageCount s ->
  clear [] 3 (mem s) levels root va = true ->
  runs (Map1GiBPage hhdm la57 root va pa flags) s (fun _ s' =>
    (exists own' bs', paging own' bs' root s') /\
    looks_up root s' va (Z.land pa ADDR_1G) /\ others_kept 3 root va s s').
Proof.
  intros Hh Hpg Hf Hcl. destruct (large_leaf 3 ADDR_1G pa flags ltac:(auto)) as [Hn Hv].
  apply (Map_runs _ _ _ _ _ own bs); try done; try lia.
  intros l Hl. lia.
Qed.

(** When a large page covers the address, [x86_64_MapPage] gives up
    without an error: nothing is allocated and no translation changes, so the
    requested page is not mapped although the caller is told nothing. *)
Theorem MapPage_refuses own bs root s va pa flags :
  paging own bs root s -> clear [3; 2] 1 (mem s) levels root va = false ->
  runs (MapPage hhdm la57 root va pa flags) s (fun _ s' =>
    paging own bs root s' /\ forall va' r, looks_up root s va' r -> looks_up root s' va' r).
Proof.
  intros Hpg Hcl. pose proof Hpg as [Hrep Ht Hph Hr].
  eapply runs_mono; [apply (Map_loop_refuses [3; 2] 1 _ flags va ltac:(lia) levels own bs s root []);
                     try done|].
  - unfold PageTables.levels. destruct la57; lia.
  - intros [] s' Hk. exact (kept_paging own bs root s s' Hpg Hk).
Qed.

(** [x86_64_RemapPage] gives the level 1 entry of the address the new
    flags and moves nothing: every translation is as before. *)
Theorem RemapPage_spec own bs root s va flags :
  paging own bs root s ->
  runs (RemapPage hhdm la57 root va flags) s (fun _ s' =>
    paging own bs root s' /\ (forall va' r, looks_up root s va' r -> looks_up root s' va' r) /\
    forall x, leaf_slot (mem s) levels root va = Some x ->
      mem s' x = leaf_4K (mem s x) flags).
Proof.
  intros Hpg. pose proof Hpg as [Hrep Ht Hph Hr].
  eapply runs_mono; [by apply (RemapPage_loop_runs flags va levels own bs s root [])|].
  intros [] s' [Hk Hx]. destruct (kept_paging _ _ _ _ _ Hpg Hk). auto.
Qed.

(** [x86_64_UnmapPage] of an address whose level 1 table holds another
    present page clears the entry, so that the lookup gives 0, frees no table,
    and leaves every other translation alone. *)
Theorem UnmapPage_spec fuel own bs root s va t1 j :
  paging own bs root s -> last_table (mem s) levels root va = Some t1 ->
  0 <= j < 512 -> j <> index va 1 -> Present (mem s (t1 + j * 8)) = true ->
  runs (UnmapPage hhdm la57 fuel root va) s (fun _ s' =>
    paging own bs root s' /\ looks_up root s' va 0 /\ others_kept 1 root va s s').
Proof.
  intros Hpg Hlt Hj Hne Hpr. pose proof Hpg as [Hrep Ht Hph Hr].
  unfold UnmapPage, unmap. mstep.
  eapply runs_mono; [apply (Unmap_walk_runs va t1 levels own bs s root []); try done|].
  { intros E. exfalso. unfold PageTables.levels in E. by destruct la57. }
  intros r s' (stk' & -> & Hmp & (x & Hx & Hxr & Hxt) & (p1 & Ho1) & Hfr).
  destruct (mapped_paging _ _ _ _ _ _ _ _ _ _ Hpg Hmp) as (Hpg' & Hlk & Hoth).
  destruct (tb_ok _ _ _ Ht _ _ Ho1) as (Hp1 & Hm1 & Hb1 & _).
  pose proof (index_range va 1).
  assert (exists n, levels = S n) as [n ->] by (unfold PageTables.levels; destruct la57; eauto).
  cbn [free_empty]. mstep. unfold stack_get. rewrite Hx. apply runs_ret.
  destruct (Z.eqb_spec x 0); [lia|]. mstep. apply load_runs; [done|]. rewrite Hxt. mstep.
  apply any_present_runs; [done|lia| |by apply runs_ret].
  exists j. split; [lia|]. rewrite Hfr; [done|]. unfold slot. lia.
Qed.

End Spec.

(** ** Witnesses

    Four tables at 65536, 69632, 73728 and 77824 (levels 4 to 1) that map the
    pages at 0 and 4096, and a 1 GiB page at 1 GiB; the direct map starts at 0
    and the free pages are those of [PMMSpec.demo]. *)
Definition demo_words : list (Z * Z) :=
  [(65536, 69632 + 3); (69632, 73728 + 3); (69640, 0x40000083); (73728, 77824 + 3);
   (77824, 0x5003); (77832, 0x6003)].
Definition demo_tables : memory := fun x =>
  from_option snd (demo_mem x) (find (fun w => fst w =? x) demo_words).
Definition demo_paging : state := set_mem demo_tables demo.
Definition demo_own (t : Z) : option (list Z) :=
  if t =? 65536 then Some [] else if t =? 69632 then Some [0]
  else if t =? 73728 then Some [0; 0] else if t =? 77824 then Some [0; 0; 0] else None.

Lemma demo_own_inv t p : demo_own t = Some p ->
  (t = 65536 /\ p = []) \/ (t = 69632 /\ p = [0]) \/
  (t = 73728 /\ p = [0; 0]) \/ (t = 77824 /\ p = [0; 0; 0]).
Proof.
  unfold demo_own.
  destruct (Z.eqb_spec t 65536), (Z.eqb_spec t 69632), (Z.eqb_spec t 73728),
    (Z.eqb_spec t 77824); intros; simplify_eq; tauto.
Qed.

Lemma demo_covers x : covers demo_blocks x -> 4096 <= x < 28672.
Proof. unfold demo_blocks. rewrite !covers_cons, covers_nil. lia. Qed.

Lemma demo_blank x : (forall w, w ∈ demo_words -> fst w <> x) -> demo_tables x = demo_mem x.
Proof.
  intros H. unfold demo_tables. destruct (find _ _) as [w|] eqn:E; [|done].
  apply find_some in E as [Hin Hx]. zb. exfalso. apply (H w); [by apply list_elem_of_In|done].
Qed.

Lemma demo_paging_ok : paging 0 false demo_own demo_blocks 65536 demo_paging.
Proof.
  constructor; [|constructor| |done].
  - apply rep_mem; [exact demo_rep|]. intros x Hx. apply demo_covers in Hx.
    apply demo_blank. intros w Hw. repeat (apply elem_of_cons in Hw as [->|Hw]; [cbn; lia|]).
    by apply elem_of_nil in Hw.
  - intros t p Ht. apply demo_own_inv in Ht as H.
    destruct H as [[-> ->]|[[-> ->]|[[-> ->]|[-> ->]]]]; repeat split; cbn; lia.
  - intros t p x Ht Hx Hc. apply demo_covers in Hc. apply demo_own_inv in Ht as H.
    unfold in_page in Hx. lia.
  - intros t p j Ht Hj Hl n Hn. subst n.
    destruct (decide (t + j * 8 ∈ [65536; 69632; 69640; 73728; 77824; 77832])) as [Hin|Hno].
    + apply demo_own_inv in Ht as H. destruct H as [[-> ->]|[[-> ->]|[[-> ->]|[-> ->]]]]; [..|cbn in Hl; lia].
      all: repeat (apply elem_of_cons in Hin as [E|Hin]; [|]); try by apply elem_of_nil in Hin.
      all: try (exfalso; lia).
      all: match goal with E : ?a + ?j * 8 = ?b |- _ =>
             let c := eval vm_compute in ((b - a) / 8) in assert (j = c) as -> by lia end.
      all: vm_compute in Hn |- *; congruence.
    + exfalso. apply Hn. cbn [mem demo_paging set_mem]. rewrite demo_blank.
      * unfold demo_mem. apply demo_own_inv in Ht as H.
        destruct (Z.eqb_spec (t + j * 8) 4096), (Z.eqb_spec (t + j * 8) 4104),
          (Z.eqb_spec (t + j * 8) 16384); [lia..|]. apply next_0.
      * intros w Hw E. apply Hno. rewrite <- E.
        repeat (apply elem_of_cons in Hw as [->|Hw]; [cbn; set_solver|]). by apply elem_of_nil in Hw.
  - intros x Hx. apply demo_covers in Hx. unfold from_HHDM. rewrite sub64_small by lia. lia.
Qed.

(** With 5-level paging, unmapping the only page of a branch empties its four
    lower tables, and the loop that frees them goes on to read the fifth
    element of the four-element [entryStack]. *)
Definition demo_words5 : list (Z * Z) :=
  [(65536, 69632 + 3); (69632, 73728 + 3); (73728, 77824 + 3); (77824, 81920 + 3);
   (81920, 0x5003); (4096, 2); (4104, 1048576); (1048576, 1); (1048584, 0)].
Definition demo_paging5 : state := mk 4096 1048576 2 3 7 10 false
  (fun x => from_option snd 0 (find (fun w => fst w =? x) demo_words5)).

Example UnmapPage_5level_overruns :
  UnmapPage 0 true 3 65536 0 demo_paging5 = Fail InvalidAccess.
Proof. vm_compute. reflexivity. Qed.

(** The pages at 8192 (4 KiB), 2 MiB and 2 GiB are mapped; the 1 GiB page
    refuses a small one. *)
Lemma MapPage_spec_witness :
  runs (MapPage 0 false 65536 8192 0x7000 3) demo_paging (fun _ s' =>
    (exists own' bs', paging 0 false own' bs' 65536 s') /\
    looks_up 0 false 65536 s' 8192 (Z.land 0x7000 ADDR_4K) /\
    others_kept 0 false 1 65536 8192 demo_paging s').
Proof.
  apply (MapPage_spec 0 false demo_own demo_blocks 65536 demo_paging 8192 0x7000 3);
    [reflexivity|exact demo_paging_ok|cbn; lia|reflexivity].
Defined.

Lemma Map2MiBPage_spec_witness :
  runs (Map2MiBPage 0 false 65536 0x200000 0x400000 3) demo_paging (fun _ s' =>
    (exists own' bs', paging 0 false own' bs' 65536 s') /\
    looks_up 0 false 65536 s' 0x200000 (Z.land 0x400000 ADDR_2M) /\
    others_kept 0 false 2 65536 0x200000 demo_paging s').
Proof.
  apply (Map2MiBPage_spec 0 false demo_own demo_blocks 65536 demo_paging 0x200000 0x400000 3);
    [reflexivity|exact demo_paging_ok|cbn; lia|reflexivity].
Defined.

Lemma Map1GiBPage_spec_witness :
  runs (Map1GiBPage 0 false 65536 0x80000000 0x40000000 3) demo_paging (fun _ s' =>
    (exists own' bs', paging 0 false own' bs' 65536 s') /\
    looks_up 0 false 65536 s' 0x80000000 (Z.land 0x40000000 ADDR_1G) /\
    others_kept 0 false 3 65536 0x80000000 demo_paging s').
Proof.
  apply (Map1GiBPage_spec 0 false demo_own demo_blocks 65536 demo_paging 0x80000000 0x40000000 3);
    [reflexivity|exact demo_paging_ok|cbn; lia|reflexivity].
Defined.

Lemma MapPage_refuses_witness :
  runs (MapPage 0 false 65536 0x40001000 0x7000 3) demo_paging (fun _ s' =>
    paging 0 false demo_own demo_blocks 65536 s' /\
    forall va' r, looks_up 0 false 65536 demo_paging va' r -> looks_up 0 false 65536 s' va' r).
Proof.
  apply (MapPage_refuses 0 false demo_own demo_blocks 65536 demo_paging 0x40001000 0x7000 3);
    [exact demo_paging_ok|reflexivity].
Defined.

Lemma RemapPage_spec_witness :
  leaf_slot 0 demo_tables 4 65536 4096 = Some 77832 /\
  runs (RemapPage 0 false 65536 4096 1) demo_paging (fun _ s' =>
    paging 0 false demo_own demo_blocks 65536 s' /\
    (forall va' r, looks_up 0 false 65536 demo_paging va' r -> looks_up 0 false 65536 s' va' r) /\
    forall x, leaf_slot 0 (mem demo_paging) 4 65536 4096 = Some x ->
      mem s' x = leaf_4K (mem demo_paging x) 1).
Proof.
  split; [reflexivity|].
  exact (RemapPage_spec 0 false demo_own demo_blocks 65536 demo_paging 4096 1 demo_paging_ok).
Defined.

Lemma UnmapPage_spec_witness :
  runs (UnmapPage 0 false 3 65536 0) demo_paging (fun _ s' =>
    paging 0 false demo_own demo_blocks 65536 s' /\ looks_up 0 false 65536 s' 0 0 /\
    others_kept 0 false 1 65536 0 demo_paging s').
Proof.
  apply (UnmapPage_spec 0 false 3 demo_own demo_blocks 65536 demo_paging 0 77824 1);
    [exact demo_paging_ok|reflexivity|lia|discriminate|reflexivity].
Defined.

End PageTablesSpec.
