(* ===== verification/PageMapper.v ===== *)
(** * PageMapper.v: protections, the page mapper and region mapping
      (src/kernel/src/arch/x86_64/Memory/PAT.cpp, PageMapper.cpp,
       PagingUtil.cpp)

    [x86_64_PageMapper] turns a protection, a privilege and a cache type into
    entry flags and calls the page table functions under its lock;
    [x86_64_MapRegionWithLargestPages] cuts a region into pages of the largest
    sizes. *)

From S2P Require Import Prelude PMM PMMSpec PageTables PageTablesSpec.
#[local] Open Scope Z_scope.
#[local] Open Scope kernel_scope.

Module PageMapper.
Import PageTables.

(** ** Protections and cache types (VMM.hpp, PAT.hpp) *)

(** [VMM::Protection] is a [uint8_t] enumeration with these values. *)
Definition NONE : Z := 0.
Definition READ : Z := Z.shiftl 1 0.
Definition WRITE : Z := Z.shiftl 1 1.
Definition EXECUTE : Z := Z.shiftl 1 2.
Definition READ_WRITE : Z := Z.lor READ WRITE.
Definition READ_EXECUTE : Z := Z.lor READ EXECUTE.
Definition READ_WRITE_EXECUTE : Z := Z.lor (Z.lor READ WRITE) EXECUTE.

Inductive CacheType : Set :=
  | UNCACHABLE | WRITE_BACK | WRITE_THROUGH | WRITE_PROTECTED | WRITE_COMBINING.

(** [x86_64_PATOffset], by value. *)
Definition PATOffset (c : CacheType) : Z :=
  match c with
  | UNCACHABLE => 3
  | WRITE_BACK => 0
  | WRITE_THROUGH => 1
  | WRITE_PROTECTED => 4
  | WRITE_COMBINING => 5
  end.

(** [x86_64_PATEncoding], by value, and the value [x86_64_InitPAT] writes to
    the PAT register. *)
Definition PATEncoding (c : CacheType) : Z :=
  match c with
  | UNCACHABLE => 0
  | WRITE_COMBINING => 1
  | WRITE_THROUGH => 4
  | WRITE_PROTECTED => 5
  | WRITE_BACK => 6
  end.
Definition PATEncoding_Uncached : Z := 7.

Definition InitPAT : Z :=
  let PAT := 0 in
  let PAT := Z.lor PAT (shl64 (PATEncoding WRITE_BACK) 0) in
  let PAT := Z.lor PAT (shl64 (PATEncoding WRITE_THROUGH) 8) in
  let PAT := Z.lor PAT (shl64 PATEncoding_Uncached 16) in
  let PAT := Z.lor PAT (shl64 (PATEncoding UNCACHABLE) 24) in
  let PAT := Z.lor PAT (shl64 (PATEncoding WRITE_PROTECTED) 32) in
  let PAT := Z.lor PAT (shl64 (PATEncoding WRITE_COMBINING) 40) in
  let PAT := Z.lor PAT (shl64 (PATEncoding WRITE_BACK) 48) in
  Z.lor PAT (shl64 (PATEncoding WRITE_BACK) 56).

(** [x86_64_PAT_GetPageMappingFlags] and its variant for large pages. *)
Definition PAT_GetPageMappingFlags (offset : Z) : Z :=
  Z.lor (Z.shiftl (Z.land offset 3) (3 - 0)) (Z.shiftl (Z.land offset 4) (7 - 2)).
Definition PAT_GetLargePageMappingFlags (offset : Z) : Z :=
  Z.lor (Z.shiftl (Z.land offset 3) (3 - 0)) (Z.shiftl (Z.land offset 4) (12 - 2)).

(** [x86_64_ConvertToLargePageFlags] *)
Definition ConvertToLargePageFlags (flags : Z) : Z :=
  Z.lor (Z.land flags 0x08000F7F) (Z.shiftl (Z.land flags 0x80) (12 - 7)).

(** The [switch] statements of [x86_64_PageMapper::MapPage] and [RemapPage];
    [None] is the early [return false]. *)
Definition page_flags (prot : Z) (user : bool) (cacheType : CacheType) : option Z :=
  let base :=
    if prot =? READ then Some (Z.lor 1 0x08000000)
    else if prot =? READ_WRITE then Some (Z.lor 1 0x08000002)
    else if prot =? READ_EXECUTE then Some (Z.lor 1 0)
    else if prot =? READ_WRITE_EXECUTE then Some (Z.lor 1 2)
    else None in
  match base with
  | None => None
  | Some flags =>
      let flags := if user then Z.lor flags 4 else flags in
      Some (Z.lor flags (PAT_GetPageMappingFlags (PATOffset cacheType)))
  end.

(** [x86_64_PageMapper::isPermsReduction] *)
Definition isPermsReduction (oldProt newProt : Z) : bool :=
  if newProt =? READ then negb (oldProt =? newProt)
  else if (newProt =? WRITE) || (newProt =? READ_WRITE) then
    negb (oldProt =? EXECUTE) && negb (oldProt =? READ_EXECUTE) &&
    negb (oldProt =? READ_WRITE_EXECUTE)
  else if (newProt =? EXECUTE) || (newProt =? READ_EXECUTE) then
    negb (oldProt =? WRITE) && negb (oldProt =? READ_WRITE) &&
    negb (oldProt =? READ_WRITE_EXECUTE)
  else if newProt =? READ_WRITE_EXECUTE then false
  else true.

(** ** The mapper *)

(** What the mapper does to the processor. *)
Inductive cpu_event : Set :=
  | InvalidatePage (virtualAddress : Z)
  | FlushTLB
  | LoadCR3 (cr3 : Z)
  | RaiseInvPages (virt count : Z).

(** The fields of [x86_64_PageMapper], the memory it works on, the root table
    of the kernel's mapper, and the processor operations done so far. *)
Record state : Type := mk {
  m_pageTable : Z;
  m_lock : bool;
  pmm : PMM.state;
  kernelPageTable : Z;
  cpu : list cpu_event
}.

Definition set_pageTable (v : Z) (s : state) : state :=
  mk v (m_lock s) (pmm s) (kernelPageTable s) (cpu s).
Definition set_lock (v : bool) (s : state) : state :=
  mk (m_pageTable s) v (pmm s) (kernelPageTable s) (cpu s).
Definition set_pmm (v : PMM.state) (s : state) : state :=
  mk (m_pageTable s) (m_lock s) v (kernelPageTable s) (cpu s).
Definition emit (e : cpu_event) : M state unit :=
  modify (fun s => mk (m_pageTable s) (m_lock s) (pmm s) (kernelPageTable s) (cpu s ++ [e])).

Definition lift {A} (m : M PMM.state A) : M state A := fun s =>
  match m (pmm s) with
  | Ok (a, p) => Ok (a, set_pmm p s)
  | Fail f => Fail f
  end.

Definition spinlock_acquire : M state unit :=
  let* l := gets m_lock in if l then fail LockHeld else modify (set_lock true).
Definition spinlock_release : M state unit := modify (set_lock false).

Section Mapper.
Context (hhdm : Z) (la57 : bool).

(** [x86_64_PageMapper::MapPage] and [RemapPage] *)
Definition MapPage (virt phys prot : Z) (user : bool) (cacheType : CacheType) : M state bool :=
  match page_flags prot user cacheType with
  | None => ret false
  | Some flags =>
      spinlock_acquire ;;;
      let* t := gets m_pageTable in
      lift (PageTables.MapPage hhdm la57 t virt phys flags) ;;;
      spinlock_release ;;;
      ret true
  end.

Definition RemapPage (virt prot : Z) (user : bool) (cacheType : CacheType) : M state bool :=
  match page_flags prot user cacheType with
  | None => ret false
  | Some flags =>
      spinlock_acquire ;;;
      let* t := gets m_pageTable in
      lift (PageTables.RemapPage hhdm la57 t virt flags) ;;;
      spinlock_release ;;;
      ret true
  end.

Definition UnmapPage (fuel : nat) (virt : Z) : M state bool :=
  spinlock_acquire ;;;
  let* t := gets m_pageTable in
  lift (PageTables.UnmapPage hhdm la57 fuel t virt) ;;;
  spinlock_release ;;;
  ret true.

(** [for (i = 0; i < count; i++) if (!f(i)) return false; return true;] *)
Fixpoint for_pages (n : nat) (i : Z) (f : Z -> M state bool) : M state bool :=
  match n with
  | O => ret true
  | S n' => let* ok := f i in if ok then for_pages n' (i + 1) f else ret false
  end.

Definition MapPages (virt phys count prot : Z) (user : bool) (cacheType : CacheType)
    : M state bool :=
  for_pages (Z.to_nat count) 0 (fun i =>
    MapPage (add64 virt (mul64 i PAGE_SIZE)) (add64 phys (mul64 i PAGE_SIZE)) prot user cacheType).
Definition UnmapPages (fuel : nat) (virt count : Z) : M state bool :=
  for_pages (Z.to_nat count) 0 (fun i => UnmapPage fuel (add64 virt (mul64 i PAGE_SIZE))).
Definition RemapPages (virt count prot : Z) (user : bool) (cacheType : CacheType) : M state bool :=
  for_pages (Z.to_nat count) 0 (fun i =>
    RemapPage (add64 virt (mul64 i PAGE_SIZE)) prot user cacheType).

Definition GetPhysicalAddr (virt : Z) : M state Z :=
  spinlock_acquire ;;;
  let* t := gets m_pageTable in
  let* phys := lift (PageTables.GetPhysicalAddress hhdm la57 t virt) in
  spinlock_release ;;;
  ret phys.

(** [x86_64_InvalidatePages] of PagingUtil.cpp *)
Definition FULL_FLUSH_THRESHOLD : Z := 0x1000.

Fixpoint invalidate_each (n : nat) (i virtualAddress : Z) : M state unit :=
  match n with
  | O => ret tt
  | S n' =>
      emit (InvalidatePage (add64 virtualAddress (mul64 i PAGE_SIZE))) ;;;
      invalidate_each n' (i + 1) virtualAddress
  end.

Definition x86_64_InvalidatePages (virtualAddress size : Z) : M state unit :=
  let pageCount := DIV_ROUNDUP size PAGE_SIZE in
  if FULL_FLUSH_THRESHOLD <=? pageCount then emit FlushTLB
  else invalidate_each (Z.to_nat pageCount) 0 virtualAddress.

(** [x86_64_PageMapper::InvalidatePages]; [hasLAPIC] is whether the current
    processor and its local APIC are known yet. *)
Definition InvalidatePages (hasLAPIC : bool) (virt count : Z) (shootdown : bool) : M state unit :=
  x86_64_InvalidatePages virt (mul64 count PAGE_SIZE) ;;;
  whenM shootdown (whenM hasLAPIC (emit (RaiseInvPages virt count))).

Definition SetPageTable (pageTable : Z) : M state unit := modify (set_pageTable pageTable).
Definition GetPageTable : M state Z := gets m_pageTable.

(** [memcpy(dst, src, PAGE_SIZE)] *)
Definition copy_page (dst src : Z) : M PMM.state unit :=
  if (dst =? 0) || (src =? 0) then fail NullDereference
  else modify (fun s => PMM.set_mem (fun x =>
    if (dst <=? x) && (x <? dst + PAGE_SIZE) then PMM.mem s (src + (x - dst))
    else PMM.mem s x) s).

Definition Create : M state unit :=
  let* page := lift (PMM.AllocatePage hhdm) in
  modify (set_pageTable (PMM.to_HHDM hhdm page)) ;;;
  let* src := gets kernelPageTable in
  let* t := gets m_pageTable in
  lift (copy_page t src).

Definition Delete (fuel : nat) : M state unit :=
  let* t := gets m_pageTable in
  lift (PMM.FreePage hhdm fuel (PMM.from_HHDM hhdm t)) ;;;
  modify (set_pageTable 0).

Definition SwapToThis : M state bool :=
  let* t := gets m_pageTable in
  if t =? 0 then ret false
  else emit (LoadCR3 (PMM.from_HHDM hhdm t)) ;;; ret true.

(** [GetDefaultUserRegion] and [IsInUserRegion] *)
Definition USER_MEMORY_START : Z := 0x1000.
Definition USER_MEMORY_END_4LVL : Z := 0x7FFFFFFFFFFF.
Definition USER_MEMORY_END_5LVL : Z := 0xFFFFFFFFFFFFFF.
Definition GetDefaultUserRegion : Z * Z :=
  (USER_MEMORY_START, if la57 then USER_MEMORY_END_5LVL else USER_MEMORY_END_4LVL).
Definition IsInUserRegion (addr : Z) : bool :=
  (USER_MEMORY_START <=? addr) &&
  (addr <=? (if la57 then USER_MEMORY_END_5LVL else USER_MEMORY_END_4LVL)).

End Mapper.

(** ** Mapping a region with the largest pages (PagingUtil.cpp) *)

Definition LARGE_PAGE_SIZE : Z := 0x200000.
Definition HUGE_PAGE_SIZE : Z := 0x40000000.

(** What the region mapping needs of the page tables: one operation per page
    size, with virtual address, physical address and flags. *)
Class PageSizes (S : Type) : Type := {
  map_page : Z -> Z -> Z -> M S unit;
  map_2MiB : Z -> Z -> Z -> M S unit;
  map_1GiB : Z -> Z -> Z -> M S unit
}.

(** [for (size_t i = start; i < end; i += step) body(i);] *)
Fixpoint for_step {S} (n : nat) (i end_ step : Z) (body : Z -> M S unit) : M S unit :=
  match n with
  | O => if i <? end_ then fail OutOfFuel else ret tt
  | S n' =>
      if i <? end_ then body i ;;; for_step n' (add64 i step) end_ step body else ret tt
  end.
Definition for_range {S} (start end_ step : Z) (body : Z -> M S unit) : M S unit :=
  for_step (Z.to_nat ((end_ - start + step - 1) / step)) start end_ step body.

Section Region.
Context {S : Type} `{PageSizes S} (has2MiB has1GiB : bool).

Definition MapRegionWithLargestPages (virtualAddress physicalAddress size flags : Z) : M S unit :=
  let largeFlags := ConvertToLargePageFlags flags in
  let virt i := add64 (sub64 i physicalAddress) virtualAddress in
  let end_ := add64 physicalAddress size in
  let small i := map_page (virt i) i flags in
  let large i := map_2MiB (virt i) i largeFlags in
  let huge i := map_1GiB (virt i) i largeFlags in
  if (negb has2MiB && negb has1GiB) || (size <? LARGE_PAGE_SIZE) ||
     ((size <? HUGE_PAGE_SIZE) && negb has2MiB) then
    for_range 0 (DIV_ROUNDUP size PAGE_SIZE) 1 (fun i =>
      map_page (add64 virtualAddress (mul64 i PAGE_SIZE))
               (add64 physicalAddress (mul64 i PAGE_SIZE)) flags)
  else if (has2MiB && negb has1GiB) || (size <? HUGE_PAGE_SIZE) then
    let StartOf2MiBAlignment := ALIGN_UP physicalAddress LARGE_PAGE_SIZE in
    for_range physicalAddress StartOf2MiBAlignment PAGE_SIZE small ;;;
    let EndOf2MiBAlignment := ALIGN_DOWN end_ LARGE_PAGE_SIZE in
    for_range StartOf2MiBAlignment EndOf2MiBAlignment LARGE_PAGE_SIZE large ;;;
    for_range EndOf2MiBAlignment end_ PAGE_SIZE small
  else if negb has2MiB && has1GiB then
    let StartOf1GiBAlignment := ALIGN_UP physicalAddress HUGE_PAGE_SIZE in
    for_range physicalAddress StartOf1GiBAlignment PAGE_SIZE small ;;;
    let EndOf1GiBAlignment := ALIGN_DOWN end_ HUGE_PAGE_SIZE in
    for_range StartOf1GiBAlignment EndOf1GiBAlignment HUGE_PAGE_SIZE huge ;;;
    for_range EndOf1GiBAlignment end_ PAGE_SIZE small
  else
    let StartOf2MiBAlignment := ALIGN_UP physicalAddress LARGE_PAGE_SIZE in
    for_range physicalAddress StartOf2MiBAlignment PAGE_SIZE small ;;;
    let StartOf1GiBAlignment := ALIGN_UP physicalAddress HUGE_PAGE_SIZE in
    for_range StartOf2MiBAlignment StartOf1GiBAlignment LARGE_PAGE_SIZE large ;;;
    let EndOf1GiBAlignment := ALIGN_DOWN end_ HUGE_PAGE_SIZE in
    for_range StartOf1GiBAlignment EndOf1GiBAlignment HUGE_PAGE_SIZE huge ;;;
    let EndOf2MiBAlignment := ALIGN_DOWN end_ LARGE_PAGE_SIZE in
    for_range EndOf1GiBAlignment EndOf2MiBAlignment LARGE_PAGE_SIZE large ;;;
    for_range EndOf2MiBAlignment end_ PAGE_SIZE small.
End Region.

(** The page tables provide the three operations. *)
#[export] Instance table_sizes (hhdm : Z) (la57 : bool) (root : Z) : PageSizes PMM.state := {
  map_page := PageTables.MapPage hhdm la57 root;
  map_2MiB := PageTables.Map2MiBPage hhdm la57 root;
  map_1GiB := PageTables.Map1GiBPage hhdm la57 root
}.

(** ** Permissions *)

(** The PAT index an entry selects: bits 3, 4 and [pat] (7 in a 4 KiB entry,
    12 in a large one). *)
Definition pat_index (pat e : Z) : Z :=
  Z.b2z (Z.testbit e 3) + 2 * Z.b2z (Z.testbit e 4) + 4 * Z.b2z (Z.testbit e pat).

Definition pat_entry (i : Z) : Z := Z.land (Z.shiftr InitPAT (8 * i)) 0xFF.

(** An entry grants exactly what was asked for. *)
Definition grants (pat e prot : Z) (user : bool) (cacheType : CacheType) : Prop :=
  Present e = true /\ Z.testbit e 1 = Z.testbit prot 1 /\ Z.testbit e 2 = user /\
  Z.testbit e 63 = negb (Z.testbit prot 2) /\
  pat_entry (pat_index pat e) = PATEncoding cacheType.

Lemma page_flags_cases prot user c f : page_flags prot user c = Some f ->
  prot = READ \/ prot = READ_WRITE \/ prot = READ_EXECUTE \/ prot = READ_WRITE_EXECUTE.
Proof.
  unfold page_flags. destruct (Z.eqb_spec prot READ), (Z.eqb_spec prot READ_WRITE),
    (Z.eqb_spec prot READ_EXECUTE), (Z.eqb_spec prot READ_WRITE_EXECUTE); auto. done.
Qed.

(** Bits of an entry with computed flags and an unknown, masked address. *)
Ltac entry_bits :=
  unfold grants, Present, pat_index; cbn [Z.b2z];
  repeat match goal with
  | |- context [Z.land (Z.pos ?a) (Z.pos ?b)] =>
      let c := eval vm_compute in (Z.land (Z.pos a) (Z.pos b)) in
      change (Z.land (Z.pos a) (Z.pos b)) with c
  | |- context [Z.shiftl (Z.pos ?a) ?b] =>
      let c := eval vm_compute in (Z.shiftl (Z.pos a) b) in
      change (Z.shiftl (Z.pos a) b) with c
  end;
  rewrite !Z.lor_spec, !Z.land_spec;
  repeat match goal with
  | |- context [Z.testbit (Z.pos ?a) ?n] =>
      let c := eval vm_compute in (Z.testbit (Z.pos a) n) in
      change (Z.testbit (Z.pos a) n) with c
  end;
  rewrite ?andb_false_r; repeat split; vm_compute; reflexivity.

Lemma large_flags_grant m pa prot user c f : m = ADDR_2M \/ m = ADDR_1G ->
  page_flags prot user c = Some f ->
  grants 12 (leaf_large m pa (ConvertToLargePageFlags f)) prot user c.
Proof.
  intros Hm Hf. pose proof (page_flags_cases _ _ _ _ Hf) as Hp.
  unfold leaf_large, ADDR_2M, ADDR_1G in *.
  destruct Hp as [->|[->|[->| ->]]], user, c; vm_compute in Hf; injection Hf as <-;
    destruct Hm as [->| ->];
    match goal with |- context [ConvertToLargePageFlags ?x] =>
      let c := eval vm_compute in (ConvertToLargePageFlags x) in
      change (ConvertToLargePageFlags x) with c end; entry_bits.
Qed.

Lemma small_flags_grant pa prot user c f :
  page_flags prot user c = Some f -> grants 7 (leaf_4K pa f) prot user c.
Proof.
  intros Hf. pose proof (page_flags_cases _ _ _ _ Hf) as Hp. unfold leaf_4K, ADDR_4K.
  destruct Hp as [->|[->|[->| ->]]], user, c; vm_compute in Hf; injection Hf as <-; entry_bits.
Qed.

(** The flags computed for a protection, a privilege and a cache type mean
    what they should in the entry the hardware reads: writable, user and
    no-execute bits match the request, and the PAT index selects an entry of
    the register set up by [x86_64_InitPAT] with exactly that memory type; the
    same holds for a 2 MiB or 1 GiB entry with the converted flags. *)
Theorem page_flags_grant m pa prot user cacheType flags :
  m = ADDR_2M \/ m = ADDR_1G -> page_flags prot user cacheType = Some flags ->
  grants 7 (leaf_4K pa flags) prot user cacheType /\
  grants 12 (leaf_large m pa (ConvertToLargePageFlags flags)) prot user cacheType.
Proof. intros Hm Hf. split; [by apply small_flags_grant|by apply large_flags_grant]. Qed.

(** A permission of the old protection is missing from the new one. *)
Definition reduces (oldProt newProt : Z) : bool :=
  negb (Z.land oldProt (Z.lnot newProt) =? 0).

(** [x86_64_PageMapper::isPermsReduction] misses every reduction from
    read-write-execute except the one to read-only, and reports one for a page
    that only gains the right to write or to execute. *)
Theorem isPermsReduction_misses (newProt : Z) :
  newProt = READ_WRITE \/ newProt = READ_EXECUTE ->
  reduces READ_WRITE_EXECUTE newProt = true /\
  isPermsReduction READ_WRITE_EXECUTE newProt = false /\
  reduces READ newProt = false /\ isPermsReduction READ newProt = true.
Proof. by intros [->| ->]. Qed.

(** ** The mapper's operations *)

Lemma lift_runs {A} (m : M PMM.state A) s (Q : A -> state -> Prop) :
  runs m (pmm s) (fun a p => Q a (set_pmm p s)) -> runs (lift m) s Q.
Proof. intros (a & p & E & HQ). exists a, (set_pmm p s). unfold lift. by rewrite E. Qed.

Lemma acquire_runs s (Q : unit -> state -> Prop) :
  m_lock s = false -> Q tt (set_lock true s) -> runs spinlock_acquire s Q.
Proof. intros Hl HQ. unfold spinlock_acquire. mgo. rewrite Hl. by apply runs_modify. Qed.

Section MapperSpec.
Context (hhdm : Z) (la57 : bool).
Import PageTablesSpec.

(** Through the mapper, mapping a page with a valid protection and then
    asking for its physical address returns the page that was mapped, with the
    lock released in between and at the end. *)
Theorem MapPage_GetPhysicalAddr own bs s virt phys prot user cacheType flags :
  hhdm mod PAGE_SIZE = 0 -> paging hhdm la57 own bs (m_pageTable s) (pmm s) ->
  Z.of_nat (levels la57) - 1 <= PMM.m_FreePageCount (pmm s) ->
  clear hhdm [3; 2] 1 (PMM.mem (pmm s)) (levels la57) (m_pageTable s) virt = true ->
  m_lock s = false -> page_flags prot user cacheType = Some flags ->
  runs (let* ok := MapPage hhdm la57 virt phys prot user cacheType in
        let* r := GetPhysicalAddr hhdm la57 virt in ret (ok, r)) s (fun r s' =>
    r = (true, Z.land phys ADDR_4K) /\ m_lock s' = false /\ cpu s' = cpu s).
Proof.
  intros Hh Hpg Hf Hcl Hlk Hfl. unfold MapPage, GetPhysicalAddr. rewrite Hfl.
  mstep. mstep. apply acquire_runs; [done|]. mstep. mstep. mstep. apply lift_runs.
  eapply runs_mono; [eapply (Map_runs hhdm la57 [3; 2] 1 _ _ (Z.land phys ADDR_4K) own bs); try done; try lia|].
  - intros l _ [->| ->]; set_solver.
  - apply leaf_4K_addr.
  - intros [] p (_ & Hlk' & _). unfold spinlock_release. mgo.
    apply acquire_runs; [done|]. mgo. apply lift_runs.
    eapply runs_eq; [exact Hlk'|]. mgo. done.
Qed.
End MapperSpec.

(** ** Region mapping *)

(** A log of mapping calls: size, virtual address, physical address, flags. *)
Definition call : Type := Z * Z * Z * Z.

#[local] Instance log_sizes : PageSizes (list call) := {
  map_page v p f := modify (fun l => l ++ [(4096, v, p, f)]);
  map_2MiB v p f := modify (fun l => l ++ [(LARGE_PAGE_SIZE, v, p, f)]);
  map_1GiB v p f := modify (fun l => l ++ [(HUGE_PAGE_SIZE, v, p, f)])
}.

(** The calls cover the physical range from [p] to [e] without gap or overlap. *)
Fixpoint tiles (l : list call) (p e : Z) : Prop :=
  match l with
  | [] => p = e
  | (sz, _, p', _) :: l' => p' = p /\ 0 < sz /\ tiles l' (p + sz) e
  end.

Lemma calls_app l l' p q e : tiles l p q -> tiles l' q e -> tiles (l ++ l') p e.
Proof.
  revert p. induction l as [|[[[sz v] p'] f] l IH]; cbn; [by intros p ->|].
  intros p (-> & Hs & Hl) Hl'. auto.
Qed.

Section Tiling.
Context (has2MiB has1GiB : bool) (va pa flags : Z).

(** Each call maps the right virtual address to a physical address aligned to
    its size, with a size the processor has and the flags for that size. *)
Definition call_ok (c : call) : Prop :=
  let '(sz, v, p, f) := c in
  v = wrap64 (va + (p - pa)) /\ p mod sz = 0 /\
  (sz = 4096 /\ f = flags \/
   f = ConvertToLargePageFlags flags /\
   (sz = LARGE_PAGE_SIZE /\ has2MiB = true \/ sz = HUGE_PAGE_SIZE /\ has1GiB = true)).

Lemma for_step_log n i end_ step sz f pos body l0 :
  0 <= i <= end_ -> end_ < W64 -> 0 < step -> 0 < sz -> end_ - i = Z.of_nat n * step ->
  (forall j, pos (j + step) = pos j + sz) ->
  (forall j l, i <= j < end_ ->
     body j l = Ok (tt, l ++ [(sz, wrap64 (va + (pos j - pa)), pos j, f)])) ->
  pos i mod sz = 0 ->
  runs (for_step n i end_ step body) l0 (fun _ l => exists new, l = l0 ++ new /\
    tiles new (pos i) (pos end_) /\
    Forall (fun c => exists v p, c = (sz, v, p, f) /\ v = wrap64 (va + (p - pa)) /\ p mod sz = 0) new).
Proof.
  revert i l0. induction n as [|n IH]; intros i l0 Hi He Hst Hsz Hn Hpos Hb Ha; cbn [for_step].
  - assert (i = end_) as -> by lia. destruct (Z.ltb_spec end_ end_); [lia|].
    apply runs_ret. exists []. rewrite app_nil_r. by split_and!.
  - destruct (Z.ltb_spec i end_); [|nia]. mstep. eapply runs_eq; [apply Hb; lia|].
    rewrite add64_small by nia.
    eapply runs_mono; [apply IH; try done; try nia|].
    + intros j l Hj. apply Hb. lia.
    + rewrite Hpos, Z.add_mod, Ha, Z.mod_same by lia. done.
    + intros [] l (new & -> & Ht & Hf). rewrite <- app_assoc. eexists. split; [done|].
      cbn. rewrite <- Hpos. split_and!; [done..|]. constructor; [|done]. eauto 10.
Qed.

(** A loop of the source: from [start] to [end_] by the page size [sz]. *)
Lemma for_range_log start end_ sz f body l0 :
  0 <= start <= end_ -> end_ < W64 -> 0 < sz -> start mod sz = 0 -> end_ mod sz = 0 ->
  (forall j l, start <= j < end_ ->
     body j l = Ok (tt, l ++ [(sz, wrap64 (va + (j - pa)), j, f)])) ->
  runs (for_range start end_ sz body) l0 (fun _ l => exists new, l = l0 ++ new /\
    tiles new start end_ /\
    Forall (fun c => exists v p, c = (sz, v, p, f) /\ v = wrap64 (va + (p - pa)) /\ p mod sz = 0) new).
Proof.
  intros Hi He Hsz Hs Hm Hb. unfold for_range.
  assert (Hd : exists k, end_ - start = Z.of_nat k * sz).
  { exists (Z.to_nat ((end_ - start) / sz)).
    assert ((end_ - start) mod sz = 0) by (rewrite Zminus_mod, Hs, Hm; done).
    rewrite Z2Nat.id by (apply Z.div_pos; lia). pose proof (Z.div_mod (end_ - start) sz). lia. }
  destruct Hd as [k Hk].
  assert (Z.to_nat ((end_ - start + sz - 1) / sz) = k) as ->.
  { rewrite Hk. replace (Z.of_nat k * sz + sz - 1) with (sz - 1 + Z.of_nat k * sz) by lia.
    rewrite Z.div_add, Z.div_small by lia. lia. }
  by apply (for_step_log k start end_ sz sz f (fun j => j)).
Qed.

(** The calls made since [l0] cover [p] to [e] properly. *)
Definition covered (l0 : list call) (p e : Z) (_ : unit) (l : list call) : Prop :=
  exists new, l = l0 ++ new /\ tiles new p e /\ Forall call_ok new.

Lemma covered_seq (m k : M (list call) unit) l0 p q e :
  runs m l0 (covered l0 p q) -> (forall l, runs k l (covered l q e)) ->
  runs (m ;;; k) l0 (covered l0 p e).
Proof.
  intros Hm Hk. mstep. eapply runs_mono; [exact Hm|]. intros [] l (n1 & -> & Ht1 & Hf1).
  eapply runs_mono; [apply Hk|]. intros [] l' (n2 & -> & Ht2 & Hf2).
  exists (n1 ++ n2). rewrite <- app_assoc. split_and!; [done|by eapply calls_app|].
  by apply Forall_app.
Qed.

(** The virtual address as the source computes it. *)
Lemma virt_eq i : add64 (sub64 i pa) va = wrap64 (va + (i - pa)).
Proof. unfold add64, sub64, wrap64. rewrite Zplus_mod_idemp_l. f_equal. lia. Qed.

(** The three loops. *)
Ltac loop_tac :=
  intros;
  eapply runs_mono; [eapply for_range_log; try done; intros; cbn; unfold modify;
                     by rewrite virt_eq|];
  intros [] ? (new & -> & Ht & Hf); exists new; split_and!; [done|done|];
  eapply Forall_impl; [exact Hf|]; cbn beta; intros ? (v & p & -> & -> & Hp);
  split_and!; auto 10.

Lemma small_loop start end_ l0 :
  0 <= start <= end_ -> end_ < W64 -> start mod 4096 = 0 -> end_ mod 4096 = 0 ->
  runs (for_range start end_ 4096 (fun i => map_page (add64 (sub64 i pa) va) i flags)) l0
    (covered l0 start end_).
Proof. loop_tac. Qed.

Lemma large_loop start end_ l0 : has2MiB = true ->
  0 <= start <= end_ -> end_ < W64 -> start mod LARGE_PAGE_SIZE = 0 ->
  end_ mod LARGE_PAGE_SIZE = 0 ->
  runs (for_range start end_ LARGE_PAGE_SIZE (fun i =>
          map_2MiB (add64 (sub64 i pa) va) i (ConvertToLargePageFlags flags))) l0
    (covered l0 start end_).
Proof. loop_tac. Qed.

Lemma huge_loop start end_ l0 : has1GiB = true ->
  0 <= start <= end_ -> end_ < W64 -> start mod HUGE_PAGE_SIZE = 0 ->
  end_ mod HUGE_PAGE_SIZE = 0 ->
  runs (for_range start end_ HUGE_PAGE_SIZE (fun i =>
          map_1GiB (add64 (sub64 i pa) va) i (ConvertToLargePageFlags flags))) l0
    (covered l0 start end_).
Proof. loop_tac. Qed.

(** The loop that counts pages. *)
Lemma count_loop size l0 : 0 <= pa -> pa mod 4096 = 0 -> 0 <= size -> size mod 4096 = 0 ->
  pa + size < W64 ->
  runs (for_range 0 (size / 4096) 1 (fun i =>
          map_page (add64 va (mul64 i 4096)) (add64 pa (mul64 i 4096)) flags)) l0
    (covered l0 pa (pa + size)).
Proof.
  intros Hpa Hm Hs Hsm Hb. unfold for_range.
  replace ((size / 4096 - 0 + 1 - 1) / 1) with (size / 4096) by zlia.
  assert (0 <= size / 4096) by zlia.
  eapply runs_mono.
  - apply (for_step_log _ 0 (size / 4096) 1 4096 flags (fun i => pa + i * 4096));
      [lia|zlia|lia|lia|lia|lia| |by rewrite Z.add_0_r].
    intros j l Hj. assert (j * 4096 + 4096 <= size) by zlia. cbn. unfold modify.
    rewrite (mul64_small j), (add64_small pa) by lia.
    by replace (pa + j * 4096 - pa) with (j * 4096) by lia.
  - cbn beta. intros [] ? (new & -> & Ht & Hf). exists new. split_and!; [done| |].
    + replace (pa + size) with (pa + size / 4096 * 4096) by zlia.
      by rewrite Z.add_0_r in Ht.
    + eapply Forall_impl; [exact Hf|]. cbn beta. intros ? (v & p & -> & -> & Hp).
      split_and!; auto 10.
Qed.

(** A multiple of the larger size is one of the smaller. *)
Lemma mod_4096 x a : a = LARGE_PAGE_SIZE \/ a = HUGE_PAGE_SIZE -> x mod a = 0 -> x mod 4096 = 0.
Proof. unfold LARGE_PAGE_SIZE, HUGE_PAGE_SIZE. intros [->| ->] H; zlia. Qed.

Lemma mod_large x : x mod HUGE_PAGE_SIZE = 0 -> x mod LARGE_PAGE_SIZE = 0.
Proof. unfold LARGE_PAGE_SIZE, HUGE_PAGE_SIZE. intros H. zlia. Qed.

(** Aligned blocks between unaligned ends. *)
Lemma aligned_inside x y a : 0 <= x -> 0 < a -> x + a < W64 -> x + a <= y ->
  ALIGN_UP x a <= ALIGN_DOWN y a.
Proof.
  intros Hx Ha Hb Hy. destruct (ALIGN_UP_bounds x a Hx Ha Hb) as [Hu Hum].
  destruct (ALIGN_DOWN_bounds y a ltac:(lia) Ha) as (Hd1 & Hd2 & Hdm).
  apply Z.div_exact in Hum, Hdm; [|lia..]. rewrite Hum, Hdm.
  apply Z.mul_le_mono_nonneg_l; [lia|]. apply Z.lt_succ_r, (Z.mul_lt_mono_pos_l a); lia.
Qed.

Lemma align_up_mono x : 0 <= x -> x + HUGE_PAGE_SIZE < W64 ->
  ALIGN_UP x LARGE_PAGE_SIZE <= ALIGN_UP x HUGE_PAGE_SIZE.
Proof.
  intros Hx Hb. unfold HUGE_PAGE_SIZE, LARGE_PAGE_SIZE in *.
  destruct (ALIGN_UP_bounds x 0x200000) as [H1 H2]; [lia..|].
  destruct (ALIGN_UP_bounds x 0x40000000) as [H3 H4]; [lia..|]. zlia.
Qed.

Lemma align_down_mono x : 0 <= x -> ALIGN_DOWN x HUGE_PAGE_SIZE <= ALIGN_DOWN x LARGE_PAGE_SIZE.
Proof. intros Hx. unfold ALIGN_DOWN, HUGE_PAGE_SIZE, LARGE_PAGE_SIZE. zlia. Qed.

(** *** The branches of the function, for a page-aligned region *)

Context (size : Z).
Hypotheses (Hpa : 0 <= pa) (Hpm : pa mod PAGE_SIZE = 0) (Hs : 0 <= size)
  (Hsm : size mod PAGE_SIZE = 0) (Hb : pa + size + HUGE_PAGE_SIZE < W64).

Lemma region_ends : 0 <= pa + size < W64 /\ (pa + size) mod 4096 = 0 /\
  pa + LARGE_PAGE_SIZE < W64 /\ pa + HUGE_PAGE_SIZE < W64.
Proof. unfold HUGE_PAGE_SIZE, LARGE_PAGE_SIZE in *. repeat split; zlia. Qed.

Ltac bounds a :=
  pose proof region_ends as (? & ? & ? & ?);
  pose proof (ALIGN_DOWN_bounds (pa + size) a ltac:(lia) ltac:(done)) as (? & ? & ?);
  pose proof (ALIGN_UP_bounds pa a Hpa ltac:(done) ltac:(done)) as [? ?];
  pose proof (aligned_inside pa (pa + size) a Hpa ltac:(done) ltac:(done) ltac:(lia)).

Lemma region_large : has2MiB = true -> LARGE_PAGE_SIZE <= size ->
  let up := ALIGN_UP pa LARGE_PAGE_SIZE in
  let down := ALIGN_DOWN (pa + size) LARGE_PAGE_SIZE in
  runs (for_range pa up 4096 (fun i => map_page (add64 (sub64 i pa) va) i flags) ;;;
        for_range up down LARGE_PAGE_SIZE (fun i =>
          map_2MiB (add64 (sub64 i pa) va) i (ConvertToLargePageFlags flags)) ;;;
        for_range down (pa + size) 4096 (fun i => map_page (add64 (sub64 i pa) va) i flags))
    [] (covered [] pa (pa + size)).
Proof.
  intros H2 Hsz up down. bounds LARGE_PAGE_SIZE.
  apply covered_seq with up; [apply small_loop; try lia; eauto using mod_4096|intros l].
  apply covered_seq with down; [apply large_loop; try done; lia|intros l'].
  apply small_loop; try lia; eauto using mod_4096.
Qed.

Lemma region_huge : has1GiB = true -> HUGE_PAGE_SIZE <= size ->
  let up := ALIGN_UP pa HUGE_PAGE_SIZE in
  let down := ALIGN_DOWN (pa + size) HUGE_PAGE_SIZE in
  runs (for_range pa up 4096 (fun i => map_page (add64 (sub64 i pa) va) i flags) ;;;
        for_range up down HUGE_PAGE_SIZE (fun i =>
          map_1GiB (add64 (sub64 i pa) va) i (ConvertToLargePageFlags flags)) ;;;
        for_range down (pa + size) 4096 (fun i => map_page (add64 (sub64 i pa) va) i flags))
    [] (covered [] pa (pa + size)).
Proof.
  intros H1 Hsz up down. bounds HUGE_PAGE_SIZE.
  apply covered_seq with up; [apply small_loop; try lia; eauto using mod_4096|intros l].
  apply covered_seq with down; [apply huge_loop; try done; lia|intros l'].
  apply small_loop; try lia; eauto using mod_4096.
Qed.

Lemma region_both : has2MiB = true -> has1GiB = true -> HUGE_PAGE_SIZE <= size ->
  let up2 := ALIGN_UP pa LARGE_PAGE_SIZE in let up1 := ALIGN_UP pa HUGE_PAGE_SIZE in
  let down1 := ALIGN_DOWN (pa + size) HUGE_PAGE_SIZE in
  let down2 := ALIGN_DOWN (pa + size) LARGE_PAGE_SIZE in
  let large := fun i => map_2MiB (add64 (sub64 i pa) va) i (ConvertToLargePageFlags flags) in
  runs (for_range pa up2 4096 (fun i => map_page (add64 (sub64 i pa) va) i flags) ;;;
        for_range up2 up1 LARGE_PAGE_SIZE large ;;;
        for_range up1 down1 HUGE_PAGE_SIZE (fun i =>
          map_1GiB (add64 (sub64 i pa) va) i (ConvertToLargePageFlags flags)) ;;;
        for_range down1 down2 LARGE_PAGE_SIZE large ;;;
        for_range down2 (pa + size) 4096 (fun i => map_page (add64 (sub64 i pa) va) i flags))
    [] (covered [] pa (pa + size)).
Proof.
  intros H2 H1 Hsz up2 up1 down1 down2 large. bounds HUGE_PAGE_SIZE.
  assert (LARGE_PAGE_SIZE <= size) by (unfold HUGE_PAGE_SIZE, LARGE_PAGE_SIZE in *; lia).
  bounds LARGE_PAGE_SIZE.
  pose proof (align_up_mono pa Hpa ltac:(done)). pose proof (align_down_mono (pa + size) ltac:(lia)).
  apply covered_seq with up2; [apply small_loop; try lia; eauto using mod_4096|intros l1].
  apply covered_seq with up1; [apply large_loop; try done; try lia; eauto using mod_large|intros l2].
  apply covered_seq with down1; [apply huge_loop; try done; lia|intros l3].
  apply covered_seq with down2; [apply large_loop; try done; try lia; eauto using mod_large|intros l4].
  apply small_loop; try lia; eauto using mod_4096.
Qed.

End Tiling.

(** What the processor makes of the calls: address [x] lies in a page whose
    two addresses are multiples of its size, and the page takes it to [y]. *)
Definition translated (l : list call) (x y : Z) : Prop :=
  exists sz v p f, (sz, v, p, f) ∈ l /\ v mod sz = 0 /\ p mod sz = 0 /\
    v <= x < v + sz /\ y = p + (x - v).

(** Every address of the range is in one of the calls. *)
Lemma tiles_covers l a e y : tiles l a e -> a <= y < e ->
  exists sz v p f, (sz, v, p, f) ∈ l /\ p <= y < p + sz.
Proof.
  revert a. induction l as [|[[[sz v] p] f] l IH]; cbn; intros a; [lia|].
  intros (-> & Hs & Hl) Hy. destruct (Z.lt_ge_cases y (a + sz)).
  - exists sz, v, a, f. split; [set_solver|lia].
  - destruct (IH _ Hl) as (sz' & v' & p' & f' & Hin & ?); [lia|].
    exists sz', v', p', f'. split; [set_solver|done].
Qed.

Lemma call_sizes has2 has1 va pa flags sz v p f :
  call_ok has2 has1 va pa flags (sz, v, p, f) -> 0 < sz /\ (sz | W64).
Proof.
  intros (_ & _ & [[-> _]|(_ & [[-> _]|[-> _]])]); split; try reflexivity;
    apply Z.mod_divide; done.
Qed.

(** A page is aligned in virtual memory exactly when the two addresses of the
    region differ by a multiple of its size. *)
Lemma call_aligned has2 has1 va pa flags sz v p f :
  call_ok has2 has1 va pa flags (sz, v, p, f) ->
  v mod sz = 0 <-> (va - pa) mod sz = 0.
Proof.
  intros Hc. destruct (call_sizes _ _ _ _ _ _ _ _ _ Hc) as [Hs Hd].
  destruct Hc as (-> & Hp & _). unfold wrap64.
  rewrite <- (Znumtheory.Zmod_div_mod sz W64 _ Hs ltac:(done) Hd).
  replace (va + (p - pa)) with (va - pa + p) by lia.
  rewrite Zplus_mod, Hp, Z.add_0_r, Z.mod_mod by lia. done.
Qed.

(** With every page aligned, the region is translated as asked. *)
Lemma calls_translate has2 has1 va pa size flags l :
  tiles l pa (pa + size) -> Forall (call_ok has2 has1 va pa flags) l ->
  (forall sz v p f, (sz, v, p, f) ∈ l -> (va - pa) mod sz = 0) ->
  forall x, 0 <= x < size -> translated l (wrap64 (va + x)) (pa + x).
Proof.
  intros Ht Hok Hal x Hx. destruct (tiles_covers _ _ _ (pa + x) Ht) as (sz & v & p & f & Hin & Hy); [lia|].
  rewrite Forall_forall in Hok. specialize (Hok _ Hin).
  destruct (call_sizes _ _ _ _ _ _ _ _ _ Hok) as [Hs [q Hq]].
  pose proof (proj2 (call_aligned _ _ _ _ _ _ _ _ _ Hok) (Hal _ _ _ _ Hin)) as Hv.
  destruct Hok as (Hve & Hp & _).
  assert (Hvb : 0 <= v /\ v + sz <= W64).
  { pose proof (wrap64_range (va + (p - pa))) as Hr. rewrite <- Hve in Hr. unfold u64 in Hr.
    apply Z.mod_divide in Hv as [c ->]; [|lia].
    assert (c < q) by (apply (Z.mul_lt_mono_pos_r sz); [done|rewrite <- Hq; apply Hr]).
    rewrite Hq. split; [lia|nia]. }
  assert (Hx' : wrap64 (va + x) = v + (pa + x - p)).
  { replace (va + x) with (va + (p - pa) + (pa + x - p)) by lia.
    rewrite <- wrap64_add, <- Hve. apply wrap64_small. lia. }
  exists sz, v, p, f. rewrite Hx'. split_and!; try done; lia.
Qed.

(** C36: for a page-aligned region, [x86_64_MapRegionWithLargestPages]
    terminates, and the calls it makes cover exactly the region, in order and
    without overlap, with page sizes the processor has, physical addresses
    aligned to their size, the matching virtual addresses, and flags converted
    for large pages.  A page is aligned in virtual memory exactly when the two
    addresses differ by a multiple of its size (the code looks at the physical
    address only); when they do for every page made, each address of the
    region is translated to its own physical address by an aligned page. *)
Theorem MapRegion_tiles (has2MiB has1GiB : bool) (va pa size flags : Z) :
  0 <= pa -> pa mod PAGE_SIZE = 0 -> 0 <= size -> size mod PAGE_SIZE = 0 ->
  pa + size + HUGE_PAGE_SIZE < W64 ->
  runs (MapRegionWithLargestPages has2MiB has1GiB va pa size flags) [] (fun _ l =>
    tiles l pa (pa + size) /\ Forall (call_ok has2MiB has1GiB va pa flags) l /\
    (forall sz v p f, (sz, v, p, f) ∈ l -> v mod sz = 0 <-> (va - pa) mod sz = 0) /\
    ((forall sz v p f, (sz, v, p, f) ∈ l -> (va - pa) mod sz = 0) ->
     forall x, 0 <= x < size -> translated l (wrap64 (va + x)) (pa + x))).
Proof.
  intros Hpa Hpm Hs Hsm Hb.
  eapply (runs_mono _ _ (covered has2MiB has1GiB va pa flags [] pa (pa + size)));
    [|intros [] l (new & -> & Ht & Hok); split_and!; try done;
      [intros sz v p f Hin; rewrite Forall_forall in Hok; by eapply call_aligned, Hok
      |by eapply calls_translate]].
  pose proof (region_ends pa size Hpa Hpm Hs Hsm Hb) as (? & ? & ? & ?).
  unfold MapRegionWithLargestPages. cbv zeta.
  assert (DIV_ROUNDUP size 4096 = size / 4096) as ->.
  { unfold DIV_ROUNDUP, HUGE_PAGE_SIZE in *. rewrite add64_small by lia. zlia. }
  rewrite (add64_small pa size) by lia.
  destruct (_ || _ || _) eqn:E1; [apply count_loop; lia|].
  apply orb_false_iff in E1 as [E1 E3]. apply orb_false_iff in E1 as [E1 E2]. zb.
  destruct (has2MiB && negb has1GiB || (size <? HUGE_PAGE_SIZE)) eqn:E4.
  { apply region_large; try done. by destruct has2MiB, has1GiB, (size <? HUGE_PAGE_SIZE). }
  apply orb_false_iff in E4 as [E4 E5]. zb.
  destruct (negb has2MiB && has1GiB) eqn:E6.
  - apply region_huge; try done. by destruct has2MiB, has1GiB.
  - apply region_both; try done; by destruct has2MiB, has1GiB.
Qed.

(** The same physical alignment with another virtual one: a 2 MiB page is put
    at an address that is not a multiple of 2 MiB. *)
Example MapRegion_ignores_virtual_alignment :
  MapRegionWithLargestPages true true 0x201000 0x200000 0x200000 3 [] =
    Ok (tt, [(LARGE_PAGE_SIZE, 0x201000, 0x200000, 3)]).
Proof. vm_compute. reflexivity. Qed.

(** ** Witnesses *)

Lemma page_flags_grant_witness :
  grants 7 (leaf_4K 0x5000 0x800008F) READ_WRITE true WRITE_COMBINING /\
  grants 12 (leaf_large ADDR_2M 0x5000 (ConvertToLargePageFlags 0x800008F))
    READ_WRITE true WRITE_COMBINING.
Proof.
  apply (page_flags_grant ADDR_2M 0x5000 READ_WRITE true WRITE_COMBINING 0x800008F);
    [left; reflexivity|reflexivity].
Defined.

Lemma isPermsReduction_misses_witness :
  reduces READ_WRITE_EXECUTE READ_WRITE = true /\
  isPermsReduction READ_WRITE_EXECUTE READ_WRITE = false /\
  reduces READ READ_WRITE = false /\ isPermsReduction READ READ_WRITE = true.
Proof. apply (isPermsReduction_misses READ_WRITE). left. reflexivity. Defined.

Definition demo_mapper : state := mk 65536 false PageTablesSpec.demo_paging 65536 [].

Lemma MapPage_GetPhysicalAddr_witness :
  runs (let* ok := MapPage 0 false 8192 0x7000 READ_WRITE false WRITE_BACK in
        let* r := GetPhysicalAddr 0 false 8192 in ret (ok, r)) demo_mapper (fun r s' =>
    r = (true, Z.land 0x7000 ADDR_4K) /\ m_lock s' = false /\ cpu s' = cpu demo_mapper).
Proof.
  apply (MapPage_GetPhysicalAddr 0 false PageTablesSpec.demo_own PMMSpec.demo_blocks demo_mapper
           8192 0x7000 READ_WRITE false WRITE_BACK 0x8000003);
    [reflexivity|exact PageTablesSpec.demo_paging_ok|cbn; lia|reflexivity..].
Defined.

Lemma MapRegion_tiles_witness :
  runs (MapRegionWithLargestPages true false 0x1FF000 0x1FF000 0x202000 3) [] (fun _ l =>
    tiles l 0x1FF000 (0x1FF000 + 0x202000) /\ Forall (call_ok true false 0x1FF000 0x1FF000 3) l /\
    (forall sz v p f, (sz, v, p, f) ∈ l -> v mod sz = 0 <-> (0x1FF000 - 0x1FF000) mod sz = 0) /\
    ((forall sz v p f, (sz, v, p, f) ∈ l -> (0x1FF000 - 0x1FF000) mod sz = 0) ->
     forall x, 0 <= x < 0x202000 -> translated l (wrap64 (0x1FF000 + x)) (0x1FF000 + x))).
Proof.
  apply (MapRegion_tiles true false 0x1FF000 0x1FF000 0x202000 3);
    [lia|reflexivity|lia|reflexivity|reflexivity].
Defined.

End PageMapper.
