(* ===== verification/DList.v ===== *)
(** * DList.v: doubly-linked lists

    The link structure that LinkedList.cpp (nodes on the heap) and
    ThreadList.cpp (links embedded in the threads) share, described over any
    map from addresses to their (previous, next) pointers; 0 is null. *)

From S2P Require Import Prelude.

#[local] Open Scope Z_scope.

Module DList.

(** [dseg lk prev p xs q nxt]: starting at [p], whose predecessor is [prev], the
    nodes [xs] are chained in both directions; [q] is the last of them ([prev]
    when there is none) and [nxt] what follows it. *)
Fixpoint dseg (lk : Z -> option (Z * Z)) (prev p : Z) (xs : list Z) (q nxt : Z) : Prop :=
  match xs with
  | [] => p = nxt /\ prev = q
  | a :: xs' => p = a /\ a <> 0 /\ exists n, lk a = Some (prev, n) /\ dseg lk a n xs' q nxt
  end.

(** A whole list with its head and tail pointers. *)
Definition dlist (lk : Z -> option (Z * Z)) (head tail : Z) (xs : list Z) : Prop :=
  dseg lk 0 head xs tail 0 /\ NoDup xs.

Section Lemmas.
Context (lk : Z -> option (Z * Z)).

Lemma dseg_app prev p xs ys q nxt :
  dseg lk prev p (xs ++ ys) q nxt <->
  exists j jn, dseg lk prev p xs j jn /\ dseg lk j jn ys q nxt.
Proof.
  revert prev p. induction xs as [|a xs IH]; intros prev p; cbn.
  - split; [by eauto|]. by intros (? & ? & [-> ->] & ?).
  - split.
    + intros (-> & Ha & n & Hn & (j & jn & ? & ?)%IH). naive_solver.
    + intros (j & jn & (-> & Ha & n & Hn & Hx) & Hy). split_and!; [done..|].
      exists n. split; [done|]. apply IH. eauto.
Qed.

Lemma dseg_ext lk' prev p xs q nxt :
  (forall a, a ∈ xs -> lk' a = lk a) -> dseg lk prev p xs q nxt -> dseg lk' prev p xs q nxt.
Proof.
  revert prev p. induction xs as [|a xs IH]; intros prev p He; cbn; [done|].
  intros (-> & Ha & n & Hn & Hx). split_and!; [done..|]. exists n.
  rewrite He by set_solver. split; [done|]. apply IH; [|done]. set_solver.
Qed.

Lemma dseg_head prev p xs q nxt : dseg lk prev p xs q nxt -> p = default nxt (head xs).
Proof. destruct xs; cbn; [by intros [-> _]|by intros (-> & _)]. Qed.

Lemma dseg_last prev p xs q nxt : dseg lk prev p xs q nxt -> q = default prev (last xs).
Proof.
  revert prev p. induction xs as [|a xs IH]; intros prev p; cbn [dseg]; [by intros [_ ->]|].
  intros (-> & Ha & n & Hn & Hx%IH). rewrite Hx, last_cons. by destruct (last xs).
Qed.

Lemma dseg_nonzero prev p xs q nxt : dseg lk prev p xs q nxt -> 0 ∉ xs.
Proof.
  revert prev p. induction xs as [|a xs IH]; intros prev p; cbn; [set_solver|].
  intros (-> & Ha & n & Hn & Hx%IH). set_solver.
Qed.

(** The links of a node in the middle of a list. *)
Lemma dseg_middle prev p l a r q nxt :
  dseg lk prev p (l ++ a :: r) q nxt ->
  a <> 0 /\ lk a = Some (default prev (last l), default nxt (head r)) /\
  dseg lk prev p l (default prev (last l)) a /\
  dseg lk a (default nxt (head r)) r q nxt.
Proof.
  intros (j & jn & Hl & (-> & Ha & n & Hn & Hr))%dseg_app.
  pose proof (dseg_last _ _ _ _ _ Hl) as ->. pose proof (dseg_head _ _ _ _ _ Hr) as ->.
  done.
Qed.

(** The whole list is determined by its members' links. *)
Lemma dlist_head_tail h t xs : dlist lk h t xs -> h = default 0 (head xs) /\ t = default 0 (last xs).
Proof. intros [H _]. eauto using dseg_head, dseg_last. Qed.

Lemma dlist_nil h t : dlist lk h t [] <-> h = 0 /\ t = 0.
Proof. unfold dlist. cbn. split; [naive_solver|]. intros [-> ->]. split; [done|constructor]. Qed.

Lemma dlist_null t xs : dlist lk 0 t xs -> xs = [].
Proof. intros [H _]. destruct xs as [|a xs]; [done|]. cbn in H. naive_solver. Qed.

Lemma dlist_cons h t x xs : dlist lk h t (x :: xs) -> h = x /\ x <> 0 /\
  lk x = Some (0, default 0 (head xs)) /\ x ∉ xs.
Proof.
  intros [H Hnd]. destruct (dseg_middle _ _ [] _ _ _ _ H) as (? & ? & _ & _).
  pose proof (dseg_head _ _ _ _ _ H). apply NoDup_cons in Hnd. naive_solver.
Qed.
End Lemmas.

(** *** Updates of the link map *)

(** Appending a node: the old tail's next pointer and the new node change. *)
Lemma dseg_snoc lk lk' prev p xs q a :
  dseg lk prev p xs q 0 -> a <> 0 -> a ∉ xs -> NoDup xs ->
  (forall b, b ∈ xs -> b <> q -> lk' b = lk b) ->
  (forall pr, lk q = Some (pr, 0) -> q ∈ xs -> lk' q = Some (pr, a)) ->
  lk' a = Some (q, 0) ->
  dseg lk' prev (default a (head xs)) (xs ++ [a]) a 0.
Proof.
  intros Hs Ha Hnin Hnd Hsame Hq Hnew.
  destruct xs as [|b xs] using rev_ind.
  - cbn in *. destruct Hs as [-> ->]. naive_solver.
  - clear IHxs. pose proof (dseg_last _ _ _ _ _ _ Hs) as Hlast. rewrite last_snoc in Hlast.
    cbn in Hlast. subst q.
    apply dseg_middle in Hs as (Hb & Hlb & Hl & _). cbn in Hlb.
    apply NoDup_app in Hnd as (Hnd & Hdisj & _).
    apply dseg_app. exists b, a. split; [|cbn; naive_solver].
    apply dseg_app. exists (default prev (last xs)), b. split.
    + pose proof (dseg_head _ _ _ _ _ _ Hl) as ->.
      replace (default a (head (xs ++ [b]))) with (default b (head xs)) by (by destruct xs).
      eapply dseg_ext; [|exact Hl]. intros c Hc. apply Hsame; [set_solver|].
      intros ->. apply (Hdisj b Hc). set_solver.
    + cbn. split_and!; [done..|]. exists a. split; [|done]. apply Hq; [done|set_solver].
Qed.

(** Unlinking a node from the middle of a list. *)
Lemma dseg_remove lk lk' prev p l a r q :
  dseg lk prev p (l ++ a :: r) q 0 -> NoDup (l ++ a :: r) -> prev ∉ l ++ a :: r ->
  (forall b, b ∈ l ++ r -> Some b <> last l -> Some b <> head r -> lk' b = lk b) ->
  (forall b pr, last l = Some b -> lk b = Some (pr, a) ->
     lk' b = Some (pr, default 0 (head r))) ->
  (forall b nx, head r = Some b -> lk b = Some (a, nx) ->
     lk' b = Some (default prev (last l), nx)) ->
  dseg lk' prev (default 0 (head (l ++ r))) (l ++ r) (default prev (last (l ++ r))) 0.
Proof.
  intros Hs Hnd Hprev Hsame Hpr Hnx.
  apply dseg_middle in Hs as (Ha & Hla & Hl & Hr).
  apply NoDup_app in Hnd as (Hndl & Hdisj & Hndr).
  apply dseg_app. exists (default prev (last l)), (default 0 (head r)). split.
  - destruct l as [|b l _] using rev_ind; [cbn; by destruct r|].
    rewrite last_snoc in *. cbn in *.
    apply dseg_middle in Hl as (Hb & Hlb & Hl & _). cbn in Hlb.
    apply NoDup_app in Hndl as (Hndl & Hdl & _).
    apply dseg_app. exists (default prev (last l)), b. split.
    + pose proof (dseg_head _ _ _ _ _ _ Hl) as E.
      replace (default 0 (head ((l ++ [b]) ++ r))) with (default b (head l)) by (by destruct l).
      rewrite <- E. eapply dseg_ext; [|exact Hl]. intros c Hc.
      apply Hsame; [set_solver| |].
      * intros [= ->]. apply (Hdl b Hc). set_solver.
      * intros Heq. apply (Hdisj c); [set_solver|]. destruct r; cbn in *; [done|]. set_solver.
    + cbn. split_and!; [done..|]. eexists. split; [by eapply Hpr|done].
  - destruct r as [|b r]; cbn in *.
    { rewrite app_nil_r. done. }
    destruct Hr as (_ & Hb & n & Hlb & Hr).
    apply NoDup_cons in Hndr as [Har Hndr]. apply NoDup_cons in Hndr as [Hbr Hndr].
    split_and!; [done..|]. exists n. split; [by eapply Hnx|].
    pose proof (dseg_last _ _ _ _ _ _ Hr) as E.
    replace (default prev (last (l ++ b :: r))) with q.
    + eapply dseg_ext; [|exact Hr]. intros c Hc. apply Hsame; [set_solver| |].
      * intros Heq. symmetry in Heq. apply last_Some_elem_of in Heq. apply (Hdisj c Heq). set_solver.
      * intros [= ->]. done.
    + rewrite E, last_app_cons, last_cons. by destruct (last r).
Qed.

End DList.
