(* ===== verification/ThreadList.v ===== *)
(** * ThreadList.v: intrusive thread queues (src/kernel/src/Scheduling/ThreadList.cpp)

    A [ThreadList] links threads through a pair of pointers stored in the thread
    itself; [ProcThreadList] is the same class over the thread's second pair. The
    model keeps the threads in a store shared by all lists. *)

From S2P Require Import Prelude DList.

#[local] Open Scope Z_scope.
#[local] Open Scope kernel_scope.

Module ThreadList.
Import DList.

(** ** Data *)

(** [ThreadListItemInternalData] *)
Record ItemData : Type := mkItem { previous : Z; next : Z }.

(** The fields of class [Thread] that the lists touch. *)
Record Thread : Type := mkThread {
  m_ThreadListData : ItemData;
  m_ProcThreadListData : ItemData;
  m_InSchedList : bool;
  m_InProcList : bool
}.

(** [ThreadList::IteratorDecision] *)
Inductive IteratorDecision : Set := Break | Continue | Delete_Break | Delete.

(** The members of [ThreadList], the threads, and the spinlock. *)
Record state : Type := mk {
  m_Head : Z;
  m_Tail : Z;
  m_Count : Z;
  threads : gmap Z Thread
}.

(** [ThreadList::ThreadList()] *)
Definition init_state (ts : gmap Z Thread) : state := mk 0 0 0 ts.

Definition set_Head (v : Z) (s : state) : state := mk v (m_Tail s) (m_Count s) (threads s).
Definition set_Tail (v : Z) (s : state) : state := mk (m_Head s) v (m_Count s) (threads s).
Definition set_Count (v : Z) (s : state) : state := mk (m_Head s) (m_Tail s) v (threads s).
Definition set_threads (v : gmap Z Thread) (s : state) : state :=
  mk (m_Head s) (m_Tail s) (m_Count s) v.

(** [GetDataFromThread] of [ThreadList] and of [ProcThreadList]; the boolean is
    the virtual [IsProcList]. *)
Definition GetDataFromThread (isProc : bool) (t : Thread) : ItemData :=
  if isProc then m_ProcThreadListData t else m_ThreadListData t.
Definition SetData (isProc : bool) (d : ItemData) (t : Thread) : Thread :=
  if isProc then mkThread (m_ThreadListData t) d (m_InSchedList t) (m_InProcList t)
  else mkThread d (m_ProcThreadListData t) (m_InSchedList t) (m_InProcList t).
Definition SetInList (isProc : bool) (v : bool) (t : Thread) : Thread :=
  if isProc then mkThread (m_ThreadListData t) (m_ProcThreadListData t) (m_InSchedList t) v
  else mkThread (m_ThreadListData t) (m_ProcThreadListData t) v (m_InProcList t).

(** Dereferencing a thread pointer. *)
Definition rd_thread (t : Z) : M state Thread :=
  if t =? 0 then fail NullDereference else
  let* ts := gets threads in
  match ts !! t with Some th => ret th | None => fail InvalidAccess end.
Definition upd_thread (t : Z) (f : Thread -> Thread) : M state unit :=
  let* th := rd_thread t in
  modify (fun s => set_threads (<[t := f th]> (threads s)) s).

Section Ops.
Context (isProc : bool).

Definition rd_data (t : Z) : M state ItemData :=
  let* th := rd_thread t in ret (GetDataFromThread isProc th).
Definition wr_data (t : Z) (d : ItemData) : M state unit := upd_thread t (SetData isProc d).
Definition wr_next (t v : Z) : M state unit :=
  upd_thread t (fun th => SetData isProc (mkItem (previous (GetDataFromThread isProc th)) v) th).
Definition wr_previous (t v : Z) : M state unit :=
  upd_thread t (fun th => SetData isProc (mkItem v (next (GetDataFromThread isProc th))) th).

(** ** Operations *)

(** [ThreadList::pushBack] *)
Definition pushBack (thread : Z) : M state unit :=
  assertM (negb (thread =? 0)) ;;;
  let* data := rd_data thread in
  let* head := gets m_Head in
  let* tail := gets m_Tail in
  assertM (negb (negb (previous data =? 0) || negb (next data =? 0)
                 || (thread =? head) || (thread =? tail))) ;;;
  if head =? 0 then
    modify (set_Head thread) ;;;
    modify (set_Tail thread) ;;;
    modify (fun s => set_Count (add64 (m_Count s) 1) s) ;;;
    wr_data thread (mkItem 0 0) ;;;
    upd_thread thread (SetInList isProc true)
  else
    let* tail := gets m_Tail in
    wr_next tail thread ;;;
    wr_previous thread tail ;;;
    wr_next thread 0 ;;;
    modify (set_Tail thread) ;;;
    modify (fun s => set_Count (add64 (m_Count s) 1) s) ;;;
    upd_thread thread (SetInList isProc true).

(** [ThreadList::popFront]; 0 is the null pointer. *)
Definition popFront : M state Z :=
  let* head := gets m_Head in
  if head =? 0 then ret 0 else
  let temp := head in
  let* data := rd_data head in
  modify (set_Head (next data)) ;;;
  let* head := gets m_Head in
  (if negb (head =? 0) then wr_previous head 0 else modify (set_Tail 0)) ;;;
  modify (fun s => set_Count (sub64 (m_Count s) 1) s) ;;;
  wr_data temp (mkItem 0 0) ;;;
  upd_thread temp (SetInList isProc false) ;;;
  ret temp.

(** The assertion at the head of [ThreadList::remove]. *)
Definition remove_check (thread : Z) (data : ItemData) : M state bool :=
  let* head := gets m_Head in
  let* tail := gets m_Tail in
  if negb (negb (previous data =? 0) || (head =? thread)) then ret false else
  if negb (negb (next data =? 0) || (tail =? thread)) then ret false else
  let* okp := (if previous data =? 0 then ret true
               else let* d := rd_data (previous data) in ret (next d =? thread)) in
  if negb okp then ret false else
  if next data =? 0 then ret true
  else let* d := rd_data (next data) in ret (previous d =? thread).

(** [ThreadList::remove] *)
Definition remove (thread : Z) : M state unit :=
  if thread =? 0 then ret tt else
  let* data := rd_data thread in
  let* ok := remove_check thread data in
  assertM ok ;;;
  (if negb (previous data =? 0) then wr_next (previous data) (next data)
   else modify (set_Head (next data))) ;;;
  let* data := rd_data thread in
  (if negb (next data =? 0) then wr_previous (next data) (previous data)
   else modify (set_Tail (previous data))) ;;;
  wr_data thread (mkItem 0 0) ;;;
  modify (fun s => set_Count (sub64 (m_Count s) 1) s) ;;;
  upd_thread thread (SetInList isProc false).

(** [getHead], [getTail], [getCount] *)
Definition getHead : M state Z := gets m_Head.
Definition getTail : M state Z := gets m_Tail.
Definition getCount : M state Z := gets m_Count.

(** The loop of [ThreadList::Enumerate]: [n] iterations of the original count
    remain. The callback runs on the same state as the list. *)
Fixpoint Enumerate_loop (func : Z -> M state IteratorDecision) (n : nat) (thread : Z)
  : M state unit :=
  match n with
  | O => ret tt
  | S n' =>
      if thread =? 0 then ret tt else
      let* data := rd_data thread in
      let nxt := next data in
      let* d := func thread in
      match d with
      | Break => ret tt
      | Continue => Enumerate_loop func n' nxt
      | Delete_Break => remove thread
      | Delete => remove thread ;;; Enumerate_loop func n' nxt
      end
  end.

(** [ThreadList::Enumerate] *)
Definition Enumerate (func : Z -> M state IteratorDecision) : M state unit :=
  let* thread := gets m_Head in
  let* originalCount := gets m_Count in
  Enumerate_loop func (Z.to_nat originalCount) thread.

(** The loop of [ThreadList::EnumerateConst] after [i] iterations; the bound is
    re-read from [m_Count] every time. *)
Fixpoint EnumerateConst_loop (fuel : nat) (func : Z -> M state IteratorDecision) (i thread : Z)
  : M state unit :=
  match fuel with
  | O => fail OutOfFuel
  | S fuel' =>
      let* c := gets m_Count in
      if negb (i <? c) then ret tt else
      if thread =? 0 then ret tt else
      let* d := func thread in
      match d with
      | Break | Delete_Break => ret tt
      | Continue | Delete =>
          let* data := rd_data thread in
          EnumerateConst_loop fuel' func (add64 i 1) (next data)
      end
  end.

(** [ThreadList::EnumerateConst] *)
Definition EnumerateConst (fuel : nat) (func : Z -> M state IteratorDecision) : M state unit :=
  let* thread := gets m_Head in
  EnumerateConst_loop fuel func 0 thread.
End Ops.

(** ** Representation *)

(** The link map of the list kind, as the doubly-linked list library sees it. *)
Definition lk (isProc : bool) (ts : gmap Z Thread) (a : Z) : option (Z * Z) :=
  (fun th => (previous (GetDataFromThread isProc th), next (GetDataFromThread isProc th)))
    <$> ts !! a.

Definition InList (isProc : bool) (th : Thread) : bool :=
  if isProc then m_InProcList th else m_InSchedList th.

(** The list holds exactly the threads [xs], in order. *)
Record rep (isProc : bool) (xs : list Z) (s : state) : Prop := {
  rep_dlist : dlist (lk isProc (threads s)) (m_Head s) (m_Tail s) xs;
  rep_count : m_Count s = Z.of_nat (length xs);
  rep_bound : Z.of_nat (length xs) < W64;
  rep_flag : forall t th, t ∈ xs -> threads s !! t = Some th -> InList isProc th = true
}.

(** A thread that is on no list of this kind. *)
Definition unlinked (isProc : bool) (s : state) (t : Z) : Prop :=
  exists th, threads s !! t = Some th /\ GetDataFromThread isProc th = mkItem 0 0.

Section Basics.
Context (isProc : bool).

Lemma lk_insert ts t th a :
  lk isProc (<[t := th]> ts) a =
  if decide (t = a) then Some (previous (GetDataFromThread isProc th), next (GetDataFromThread isProc th))
  else lk isProc ts a.
Proof.
  unfold lk. rewrite lookup_insert. by case_decide.
Qed.

Lemma lk_Some ts a p n : lk isProc ts a = Some (p, n) ->
  exists th, ts !! a = Some th /\ GetDataFromThread isProc th = mkItem p n.
Proof.
  unfold lk. destruct (ts !! a) as [th|]; cbn; [|done]. intros [= <- <-].
  exists th. split; [done|]. by destruct (GetDataFromThread isProc th).
Qed.

Lemma GetData_SetData d th : GetDataFromThread isProc (SetData isProc d th) = d.
Proof. by destruct isProc. Qed.
Lemma GetData_SetInList v th :
  GetDataFromThread isProc (SetInList isProc v th) = GetDataFromThread isProc th.
Proof. by destruct isProc. Qed.
Lemma InList_SetData d th : InList isProc (SetData isProc d th) = InList isProc th.
Proof. by destruct isProc. Qed.
Lemma InList_SetInList v th : InList isProc (SetInList isProc v th) = v.
Proof. by destruct isProc. Qed.

Lemma rd_thread_runs t th s (Q : Thread -> state -> Prop) :
  t <> 0 -> threads s !! t = Some th -> Q th s -> runs (rd_thread t) s Q.
Proof.
  intros Ht Hl HQ. unfold rd_thread. apply Z.eqb_neq in Ht. rewrite Ht. mgo.
  rewrite Hl. by apply runs_ret.
Qed.

Lemma upd_thread_runs t f th s (Q : unit -> state -> Prop) :
  t <> 0 -> threads s !! t = Some th ->
  Q tt (set_threads (<[t := f th]> (threads s)) s) -> runs (upd_thread t f) s Q.
Proof.
  intros Ht Hl HQ. unfold upd_thread. mstep. eapply rd_thread_runs; [done..|]. by mgo.
Qed.

Lemma rd_data_runs t th s (Q : ItemData -> state -> Prop) :
  t <> 0 -> threads s !! t = Some th -> Q (GetDataFromThread isProc th) s ->
  runs (rd_data isProc t) s Q.
Proof.
  intros Ht Hl HQ. unfold rd_data. mstep. eapply rd_thread_runs; [done..|]. by mgo.
Qed.
End Basics.

Lemma SetData_SetData isProc d d' th :
  SetData isProc d (SetData isProc d' th) = SetData isProc d th.
Proof. by destruct isProc. Qed.

#[local] Hint Rewrite SetData_SetData GetData_SetData GetData_SetInList InList_SetData InList_SetInList : tl.

(** Lookups in a store with several updates. *)
Ltac tl_lookup :=
  repeat first [ rewrite lookup_insert_eq | rewrite lookup_insert_ne by done ]; eauto.

Ltac tl_step :=
  cbn;
  lazymatch goal with
  | |- runs (upd_thread _ _) _ _ => eapply upd_thread_runs; [done|cbn; tl_lookup|]
  | |- runs (wr_data _ _ _) _ _ => eapply upd_thread_runs; [done|cbn; tl_lookup|]
  | |- runs (wr_next _ _ _) _ _ => eapply upd_thread_runs; [done|cbn; tl_lookup|]
  | |- runs (wr_previous _ _ _) _ _ => eapply upd_thread_runs; [done|cbn; tl_lookup|]
  | |- runs (rd_data _ _) _ _ => eapply rd_data_runs; [done|cbn; tl_lookup|]
  | |- _ => mstep
  end.

(** Decide the pointer comparisons whose answer is known. *)
Ltac zdec :=
  repeat match goal with
  | |- context [?a =? ?b] =>
      first [ rewrite (proj2 (Z.eqb_neq a b)) by congruence
            | rewrite (proj2 (Z.eqb_eq a b)) by congruence ]
  end.

Ltac tl_data :=
  repeat match goal with
  | H : GetDataFromThread _ ?x = _ |- context [GetDataFromThread _ ?x] => rewrite H
  end; autorewrite with tl.

Ltac tl_run :=
  repeat first [ progress (cbn; tl_data; zdec; cbn) | apply runs_assert; [done|] | tl_step ].

Section Specs.
Context (isProc : bool).

Lemma pushBack_runs xs t s :
  rep isProc xs s -> unlinked isProc s t -> t <> 0 -> t ∉ xs ->
  Z.of_nat (length xs) + 1 < W64 ->
  runs (pushBack isProc t) s (fun _ s' => rep isProc (xs ++ [t]) s' /\
    dom (threads s') = dom (threads s) /\
    forall u, u <> t -> u ∉ xs -> threads s' !! u = threads s !! u).
Proof.
  intros [[Hd Hnd] Hc Hb Hf] (th & Hth & Hit) Ht Hnin Hlen.
  destruct s as [hd tl c ts]. cbn in *.
  pose proof (dseg_head _ _ _ _ _ _ Hd) as Hhd. pose proof (dseg_last _ _ _ _ _ _ Hd) as Htl.
  assert (Hnz := dseg_nonzero _ _ _ _ _ _ Hd).
  unfold pushBack. mstep. apply runs_assert; [by apply negb_true_iff, Z.eqb_neq|].
  repeat tl_step.
  { rewrite Hit. cbn. apply negb_true_iff, orb_false_iff. rewrite !Z.eqb_neq, Hhd, Htl.
    split; intros ->; apply Hnin.
    - destruct xs; cbn in *; [done|set_solver].
    - destruct (last xs) eqn:E; cbn in *; [by apply last_Some_elem_of|done]. }
  destruct (decide (xs = [])) as [->|Hne].
  - cbn in Hhd, Htl. subst hd tl. repeat tl_step. cbn. rewrite insert_insert_eq. split_and!.
    + constructor; cbn; [|subst; cbn; by rewrite add64_small|lia|].
      * split; [|by apply NoDup_singleton]. cbn. split_and!; [done..|]. exists 0.
        rewrite lk_insert, decide_True by done. autorewrite with tl. by cbn.
      * intros u uh Hu. apply list_elem_of_singleton in Hu as ->.
        rewrite lookup_insert_eq. intros [= <-]. by autorewrite with tl.
    + cbn. rewrite dom_insert_L. apply elem_of_dom_2 in Hth. set_solver.
    + intros u Hu _. cbn. by rewrite lookup_insert_ne.
  - assert (Hh0 : hd <> 0) by (destruct xs; cbn in *; [done|set_solver]).
    apply Z.eqb_neq in Hh0. rewrite Hh0.
    destruct (last xs) as [q|] eqn:Hlast; [|by apply last_None in Hlast].
    cbn in Htl. subst tl.
    assert (Hq : q ∈ xs) by (by apply last_Some_elem_of).
    assert (q <> 0) by set_solver. assert (q <> t) by set_solver. assert (t <> q) by done.
    apply last_Some in Hlast as (l & ->).
    destruct (dseg_middle _ _ _ _ _ _ _ _ Hd) as (_ & Hlq & _ & _).
    destruct (lk_Some _ _ _ _ _ Hlq) as (tq & Htq & Hdq).
    repeat tl_step. cbn. autorewrite with tl. rewrite !insert_insert_eq, Hdq. cbn.
    set (th' := SetInList isProc true _). set (tq' := SetData isProc (mkItem _ t) tq).
    assert (Hth' : GetDataFromThread isProc th' = mkItem q 0) by (unfold th'; by autorewrite with tl).
    assert (Htq' : GetDataFromThread isProc tq' = mkItem (default 0 (last l)) t)
      by (unfold tq'; by autorewrite with tl).
    split_and!.
    + constructor; cbn.
      * split; [|apply NoDup_app; split_and!; [done| |apply NoDup_singleton]; set_solver].
        replace hd with (default t (head (l ++ [q]))) by (subst hd; by destruct l).
        eapply dseg_snoc; [exact Hd|done..| | |].
        -- intros b Hb' Hbq. rewrite !lk_insert, !decide_False by set_solver. done.
        -- intros pr Hpr _. rewrite Hlq in Hpr. cbn in Hpr. simplify_eq.
           rewrite !lk_insert, decide_False, decide_True by done. by rewrite Htq'.
        -- rewrite lk_insert, decide_True by done. by rewrite Hth'.
      * subst c. rewrite (length_app _ [t]), add64_small by lia. cbn. lia.
      * rewrite (length_app _ [t]). cbn. lia.
      * intros u uh. rewrite !lookup_insert. case_decide; [|case_decide]; subst.
        -- intros _ [= <-]. unfold th'. by autorewrite with tl.
        -- intros _ [= <-]. unfold tq'. autorewrite with tl. by apply (Hf u).
        -- intros [Hu|?%list_elem_of_singleton]%elem_of_app Hl; [by eapply Hf|done].
    + rewrite !dom_insert_L. apply elem_of_dom_2 in Hth, Htq. set_solver.
    + intros u Hu Hux. rewrite !lookup_insert_ne; [done|set_solver|done].
Qed.

(** Facts about a thread in the middle of a list, and its neighbours. *)
Lemma rep_middle l t r s :
  rep isProc (l ++ t :: r) s ->
  t <> 0 /\ exists th, threads s !! t = Some th /\
    GetDataFromThread isProc th = mkItem (default 0 (last l)) (default 0 (head r)) /\
    (forall q, last l = Some q -> q <> 0 /\ q <> t /\ exists tq pr, threads s !! q = Some tq /\
       GetDataFromThread isProc tq = mkItem pr t) /\
    (forall q, head r = Some q -> q <> 0 /\ q <> t /\ exists tq nx, threads s !! q = Some tq /\
       GetDataFromThread isProc tq = mkItem t nx) /\
    (forall p q, last l = Some p -> head r = Some q -> p <> q).
Proof.
  intros [[Hd Hnd] _ _ _]. destruct (dseg_middle _ _ _ _ _ _ _ _ Hd) as (Ht & Hlk & Hl & Hr).
  pose proof (dseg_nonzero _ _ _ _ _ _ Hd) as Hnz.
  apply NoDup_app in Hnd as (_ & Hdisj & Hndr). apply NoDup_cons in Hndr as [Htr _].
  split; [done|]. destruct (lk_Some _ _ _ _ _ Hlk) as (th & Hth & Hdt).
  exists th. split_and!; [done|done| | |].
  - intros q Hq. pose proof (last_Some_elem_of _ _ Hq) as Hin.
    apply last_Some in Hq as (l' & ->).
    destruct (dseg_middle _ _ _ _ _ _ _ _ Hl) as (Hq0 & Hlq & _ & _). cbn in Hlq.
    split_and!; [done|intros ->; apply (Hdisj t Hin); set_solver|].
    destruct (lk_Some _ _ _ _ _ Hlq) as (tq & ? & ?). eauto.
  - intros q Hq. destruct r as [|q' r]; cbn in Hq; simplify_eq.
    cbn in Hr. destruct Hr as (_ & Hq0 & n & Hlq & _).
    split_and!; [done|set_solver|]. destruct (lk_Some _ _ _ _ _ Hlq) as (tq & ? & ?). eauto.
  - intros p q Hp Hq ->. apply last_Some_elem_of in Hp. apply (Hdisj q Hp).
    destruct r; cbn in Hq; simplify_eq. set_solver.
Qed.

(** Discharge the obligations of [unlinks] on an explicit final state. *)
Ltac un_tac Hl :=
  try done;
  try (rewrite ?last_app_cons, ?app_nil_r, ?Hl; by cbn);
  try (rewrite !dom_insert_L; repeat match goal with H : _ !! _ = Some _ |- _ =>
         apply elem_of_dom_2 in H end; set_solver);
  try (intros ?u ? ? ?; rewrite ?lookup_insert_ne by congruence; done);
  try (let q := fresh in let Hq := fresh in
       intros q Hq; try rewrite Hl in Hq; try rewrite Hl; simplify_eq; do 2 eexists;
       split_and!; [done|tl_lookup| |]; tl_data; done);
  try (eexists; split; [cbn; apply lookup_insert_eq|by tl_data]);
  try (match goal with l : list Z |- _ => destruct l; done end).

(** What a state must look like for a thread to have been unlinked. *)
Record unlinks (l : list Z) (t : Z) (r : list Z) (s s' : state) : Prop := {
  un_head : m_Head s' = default 0 (head (l ++ r));
  un_tail : m_Tail s' = default 0 (last (l ++ r));
  un_count : m_Count s' = sub64 (m_Count s) 1;
  un_same : forall u, u <> t -> Some u <> last l -> Some u <> head r ->
    threads s' !! u = threads s !! u;
  un_prev : forall q, last l = Some q -> exists tq tq', threads s !! q = Some tq /\
    threads s' !! q = Some tq' /\ InList isProc tq' = InList isProc tq /\
    GetDataFromThread isProc tq' = mkItem (previous (GetDataFromThread isProc tq)) (default 0 (head r));
  un_next : forall q, head r = Some q -> exists tq tq', threads s !! q = Some tq /\
    threads s' !! q = Some tq' /\ InList isProc tq' = InList isProc tq /\
    GetDataFromThread isProc tq' = mkItem (default 0 (last l)) (next (GetDataFromThread isProc tq));
  un_self : unlinked isProc s' t
}.

Lemma lk_of ts a th : ts !! a = Some th ->
  lk isProc ts a = Some (previous (GetDataFromThread isProc th), next (GetDataFromThread isProc th)).
Proof. intros H. unfold lk. by rewrite H. Qed.

Lemma unlinks_rep l t r s s' :
  rep isProc (l ++ t :: r) s -> unlinks l t r s s' -> rep isProc (l ++ r) s'.
Proof.
  intros [[Hd Hnd] Hc Hb Hf] [Hh Htl Hcn Hsame Hp Hn _].
  assert (Hnd' := Hnd). apply NoDup_app in Hnd' as (Hndl & Hdisj & Hndr).
  apply NoDup_cons in Hndr as [Htr Hndr]. rewrite length_app in *. cbn in *.
  constructor.
  - split; [|apply NoDup_app; set_solver]. rewrite Hh, Htl. eapply dseg_remove; [exact Hd|done| | | |].
    + by apply (dseg_nonzero _ _ _ _ _ _ Hd).
    + intros b Hb1 Hb2 Hb3. unfold lk. rewrite Hsame; [done|set_solver|done..].
    + intros b pr Hlast Hlb. destruct (Hp b Hlast) as (tq & tq' & Htq & Htq' & _ & Hd').
      rewrite (lk_of _ _ _ Htq) in Hlb. rewrite (lk_of _ _ _ Htq'), Hd'. cbn. by simplify_eq.
    + intros b nx Hhd Hlb. destruct (Hn b Hhd) as (tq & tq' & Htq & Htq' & _ & Hd').
      rewrite (lk_of _ _ _ Htq) in Hlb. rewrite (lk_of _ _ _ Htq'), Hd'. cbn. by simplify_eq.
  - rewrite Hcn, Hc, sub64_small, length_app by lia. lia.
  - rewrite length_app. lia.
  - intros u uh Hu Huh.
    destruct (decide (Some u = last l)) as [E|Hl0].
    { destruct (Hp u (eq_sym E)) as (tq & tq' & Htq & Htq' & Hin & _). simplify_eq.
      rewrite Hin. apply (Hf u); [set_solver|done]. }
    destruct (decide (Some u = head r)) as [E|Hr0].
    { destruct (Hn u (eq_sym E)) as (tq & tq' & Htq & Htq' & Hin & _). simplify_eq.
      rewrite Hin. apply (Hf u); [set_solver|done]. }
    rewrite Hsame in Huh; [|set_solver|done|done]. apply (Hf u); [set_solver|done].
Qed.

Lemma remove_runs l t r s :
  rep isProc (l ++ t :: r) s ->
  runs (remove isProc t) s (fun _ s' => unlinks l t r s s' /\
    dom (threads s') = dom (threads s)).
Proof.
  intros Hrep. destruct (rep_middle _ _ _ _ Hrep) as (Ht & th & Hth & Hdt & Hpr & Hnx & Hpn).
  destruct Hrep as [[Hd Hnd] Hc Hb Hf].
  pose proof (dseg_head _ _ _ _ _ _ Hd) as Hhd. pose proof (dseg_last _ _ _ _ _ _ Hd) as Htl.
  destruct s as [hd tl c ts]. cbn in *. subst hd tl.
  unfold remove. destruct (Z.eqb_spec t 0) as [|_]; [done|].
  tl_step. tl_step. rewrite Hdt. cbn.
  destruct (last l) as [p|] eqn:Hl; destruct (head r) as [n|] eqn:Hr; cbn in *;
    repeat match goal with
    | H : forall q, Some ?p = Some q -> _ |- _ =>
        specialize (H p eq_refl) as (? & ? & ?tq & ?x & ? & ?)
    end.
  1: assert (p <> n) by (by apply Hpn).
  all: try (apply last_None in Hl; subst l); try (destruct r as [|?n' r]; cbn in Hr; simplify_eq).
  all: rewrite ?last_snoc, ?last_app_cons; cbn [default].
  all: unfold remove_check; tl_run; (split; [constructor; cbn|]); un_tac Hl.
Qed.

Lemma popFront_runs x r s :
  rep isProc (x :: r) s ->
  runs (popFront isProc) s (fun p s' => p = x /\ unlinks [] x r s s' /\
    dom (threads s') = dom (threads s)).
Proof.
  intros Hrep. destruct (rep_middle [] x r s Hrep) as (Ht & th & Hth & Hdt & _ & Hnx & _).
  destruct Hrep as [[Hd Hnd] Hc Hb Hf].
  pose proof (dseg_head _ _ _ _ _ _ Hd) as Hhd. pose proof (dseg_last _ _ _ _ _ _ Hd) as Htl.
  destruct s as [hd tl c ts]. cbn in *. subst hd tl. unfold popFront.
  destruct (head r) as [n|] eqn:Hr; cbn in *;
    [specialize (Hnx n eq_refl) as (? & ? & ?tq & ?x & ? & ?)|].
  all: destruct r as [|?n' r]; cbn in Hr; simplify_eq; tl_run; (split_and!; [done|constructor; cbn|]).
  all: un_tac Hr.
Qed.

Lemma popFront_nil s : rep isProc [] s -> popFront isProc s = Ok (0, s).
Proof.
  intros [Hd _ _ _]. apply dlist_nil in Hd as [Hh _]. unfold popFront, bind, gets. by rewrite Hh.
Qed.
End Specs.

(** ** The queue contract

    What the scheduler relies on: a list behaves as a queue of distinct threads,
    and misuse (queueing a thread twice, removing a thread that is not queued)
    is always caught by an assertion. *)

Inductive op : Set := Push (t : Z) | Pop | Remove (t : Z).

Definition run_op (isProc : bool) (o : op) : M state Z :=
  match o with
  | Push t => pushBack isProc t ;;; ret 0
  | Pop => popFront isProc
  | Remove t => remove isProc t ;;; ret 0
  end.

Fixpoint run_ops (isProc : bool) (os : list op) : M state (list Z) :=
  match os with
  | [] => ret []
  | o :: os => let* v := run_op isProc o in let* vs := run_ops isProc os in ret (v :: vs)
  end.

(** The abstract queue; [None] is a failed assertion. *)
Definition queue_op (xs : list Z) (o : op) : option (list Z * Z) :=
  match o with
  | Push t => if decide (t ∈ xs) then None else Some (xs ++ [t], 0)
  | Pop => match xs with [] => Some ([], 0) | x :: r => Some (r, x) end
  | Remove t => if decide (t ∈ xs) then Some (filter (fun u => u <> t) xs, 0) else None
  end.

Fixpoint queue_ops (xs : list Z) (os : list op) : option (list Z * list Z) :=
  match os with
  | [] => Some (xs, [])
  | o :: os =>
      match queue_op xs o with
      | None => None
      | Some (xs', v) =>
          match queue_ops xs' os with None => None | Some (xs'', vs) => Some (xs'', v :: vs) end
      end
  end.

(** The operation names a live thread. *)
Definition legal (D : gset Z) (o : op) : Prop :=
  match o with Push t | Remove t => t ∈ D /\ t <> 0 | Pop => True end.

(** The list is [xs], and every other live thread is unlinked. *)
Record wf (isProc : bool) (D : gset Z) (xs : list Z) (s : state) : Prop := {
  wf_rep : rep isProc xs s;
  wf_dom : dom (threads s) = D;
  wf_size : Z.of_nat (size D) < W64;
  wf_in : forall t, t ∈ xs -> t ∈ D;
  wf_out : forall t, t ∈ D -> t ∉ xs -> unlinked isProc s t
}.

Section Contract.
Context (isProc : bool) (D : gset Z).

Lemma wf_length xs s : wf isProc D xs s -> forall t, t ∈ D -> t ∉ xs ->
  Z.of_nat (length xs) + 1 < W64.
Proof.
  intros [Hrep Hdom Hsz Hin _] t Ht Hnin. destruct Hrep as [[_ Hnd] _ _ _].
  assert (Hlen : (length (t :: xs) <= size D)%nat).
  { rewrite <- (size_list_to_set (C := gset Z) (t :: xs)) by (by constructor).
    apply subseteq_size. intros u. rewrite elem_of_list_to_set. set_solver. }
  cbn in Hlen. lia.
Qed.

Lemma unlinks_wf l t r s s' :
  wf isProc D (l ++ t :: r) s -> unlinks isProc l t r s s' -> dom (threads s') = dom (threads s) ->
  wf isProc D (l ++ r) s'.
Proof.
  intros [Hrep Hdom Hsz Hin Hout] Hun Hd. constructor; [by eapply unlinks_rep|congruence|done| |].
  - intros u Hu. apply Hin. set_solver.
  - intros u HuD Hu. destruct (decide (u = t)) as [->|Hne]; [by apply (un_self _ _ _ _ _ _ Hun)|].
    destruct (Hout u HuD ltac:(set_solver)) as (th & Hth & Hd0). exists th. split; [|done].
    rewrite (un_same _ _ _ _ _ _ Hun u Hne); [done| |].
    + intros E. symmetry in E. apply last_Some_elem_of in E. set_solver.
    + intros E. destruct r; cbn in E; simplify_eq. set_solver.
Qed.

Lemma pushBack_queued xs t s :
  wf isProc D xs s -> t ∈ xs -> pushBack isProc t s = Fail AssertionFailed.
Proof.
  intros [Hrep _ _ _ _] Hin. apply list_elem_of_split in Hin as (l & r & ->).
  destruct (rep_middle _ _ _ _ _ Hrep) as (Ht & th & Hth & Hdt & Hp & Hn & _).
  destruct Hrep as [[Hd _] _ _ _].
  pose proof (dseg_head _ _ _ _ _ _ Hd) as Hhd. apply Z.eqb_neq in Ht as Ht'.
  unfold pushBack, assertM, rd_data, rd_thread, bind, gets, ret. rewrite Ht'. cbn. rewrite Hth, Hdt. cbn.
  destruct (last l) as [p|] eqn:Hl; cbn.
  - destruct (Hp p eq_refl) as (Hp0 & _). apply Z.eqb_neq in Hp0. by rewrite Hp0.
  - apply last_None in Hl as ->. cbn in Hhd. rewrite Hhd, Z.eqb_refl.
    by rewrite !orb_true_r.
Qed.

Lemma remove_unqueued xs t s :
  wf isProc D xs s -> t ∈ D -> t <> 0 -> t ∉ xs -> remove isProc t s = Fail AssertionFailed.
Proof.
  intros [Hrep _ _ _ Hout] HD Ht Hnin. destruct (Hout t HD Hnin) as (th & Hth & Hdt).
  destruct Hrep as [[Hd _] _ _ _]. pose proof (dseg_head _ _ _ _ _ _ Hd) as Hhd.
  assert (Hne : m_Head s <> t).
  { intros E. apply Hnin. rewrite <- E, Hhd in *. destruct xs; cbn in *; [done|set_solver]. }
  apply Z.eqb_neq in Ht, Hne.
  unfold remove, remove_check, rd_data, rd_thread, bind, gets, ret. cbn. rewrite Ht. cbn.
  rewrite Hth, Hdt. cbn. by rewrite Hne.
Qed.

Lemma run_op_spec xs o s :
  wf isProc D xs s -> legal D o ->
  match queue_op xs o with
  | Some (xs', v) => runs (run_op isProc o) s (fun v' s' => v' = v /\ wf isProc D xs' s')
  | None => run_op isProc o s = Fail AssertionFailed
  end.
Proof.
  intros Hwf Hleg. destruct o as [t| |t]; cbn in *.
  - destruct Hleg as [HD Ht]. case_decide as Hin.
    + unfold bind. by rewrite (pushBack_queued xs t s).
    + mstep. eapply runs_mono.
      { apply (pushBack_runs _ xs); [apply Hwf|by apply (wf_out _ _ _ _ Hwf)|done..|].
        by eapply wf_length. }
      intros [] s' (Hrep' & Hdom & Hsame). apply runs_ret. split; [done|].
      destruct Hwf as [Hrep Hd Hsz Hi Ho]. constructor; [done|congruence|done|set_solver|].
      intros u Hu Hux. destruct (Ho u Hu ltac:(set_solver)) as (th & Hth & Hd0).
      exists th. split; [|done]. rewrite Hsame; [done|set_solver|set_solver].
  - destruct xs as [|x r].
    + exists 0, s. split; [|done]. apply (popFront_nil isProc). apply Hwf.
    + eapply runs_mono; [apply (popFront_runs _ x r); apply Hwf|].
      intros p s' (-> & Hun & Hdom). split; [done|]. by eapply (unlinks_wf []).
  - destruct Hleg as [HD Ht]. case_decide as Hin.
    + assert (Hnd := proj2 (rep_dlist _ _ _ (wf_rep _ _ _ _ Hwf))).
      apply list_elem_of_split in Hin as (l & r & ->).
      replace (filter (fun u => u <> t) (l ++ t :: r)) with (l ++ r).
      * mstep. eapply runs_mono; [apply (remove_runs _ l t r); apply Hwf|].
        intros [] s' [Hun Hdom]. apply runs_ret. split; [done|]. by eapply unlinks_wf.
      * apply NoDup_app in Hnd as (_ & Hdj & Hnd). apply NoDup_cons in Hnd as [Hr _].
        rewrite filter_app, filter_cons_False by (by intros H).
        rewrite !filter_all; [done|set_solver|]. intros u Hu ->. apply (Hdj t Hu). set_solver.
    + unfold bind. by rewrite (remove_unqueued xs t s).
Qed.

(** A [ThreadList] refines a queue of distinct threads: every sequence of
    [pushBack], [popFront] and [remove] on live threads returns exactly what the
    abstract queue returns and leaves the list representing the abstract
    contents, or fails an assertion exactly when the abstract queue rejects an
    operation (a thread queued twice, or removed while not queued). *)
Theorem ThreadList_refines_queue (os : list op) (xs : list Z) (s : state) :
  wf isProc D xs s -> Forall (legal D) os ->
  match queue_ops xs os with
  | Some (xs', vs) => runs (run_ops isProc os) s (fun vs' s' => vs' = vs /\ wf isProc D xs' s')
  | None => run_ops isProc os s = Fail AssertionFailed
  end.
Proof.
  intros Hwf Hleg. revert xs s Hwf. induction Hleg as [|o os Ho Hos IH]; intros xs s Hwf; cbn.
  - by apply runs_ret.
  - pose proof (run_op_spec xs o s Hwf Ho) as Hop.
    destruct (queue_op xs o) as [[xs' v]|]; [|unfold bind; by rewrite Hop].
    destruct Hop as (v' & s' & Hrun & -> & Hwf'). specialize (IH xs' s' Hwf').
    destruct (queue_ops xs' os) as [[xs'' vs]|].
    + mstep. exists v, s'. split; [done|]. mstep.
      eapply runs_mono; [exact IH|]. intros vs' s'' [-> ?]. by apply runs_ret.
    + unfold bind. by rewrite Hrun, IH.
Qed.
End Contract.

(** ** Enumeration *)

Section Enumerate.
Context (isProc : bool) (p : Z -> bool).

Lemma Enumerate_loop_runs l r s :
  rep isProc (l ++ r) s ->
  runs (Enumerate_loop isProc (fun t => ret (if p t then Delete else Continue)) (length r)
          (default 0 (head r))) s
    (fun _ s' => rep isProc (l ++ filter (fun t => p t = false) r) s').
Proof.
  revert l s. induction r as [|t r IH]; intros l s Hrep; cbn [Enumerate_loop length].
  - apply runs_ret. done.
  - destruct (rep_middle _ _ _ _ _ Hrep) as (Ht & th & Hth & Hdt & _).
    cbn [default head]. apply Z.eqb_neq in Ht as Ht'.
    eapply runs_mono with (Q := fun _ s' => rep isProc (l ++ if p t then filter (fun t => p t = false) r
      else t :: filter (fun t => p t = false) r) s'); cycle 1.
    { intros _ s'. rewrite filter_cons. destruct (p t); case_decide; done. }
    cbn. rewrite Ht'. repeat tl_step. rewrite Hdt. cbn.
    destruct (p t) eqn:Hp.
    + mstep. eapply runs_mono; [by apply (remove_runs _ l t r)|].
      intros [] s' [Hun _]. apply IH. by eapply unlinks_rep.
    + rewrite (cons_middle t l), app_assoc.
      apply IH. by rewrite <- app_assoc.
Qed.

(** [ThreadList::Enumerate] with a callback that deletes the threads
    satisfying [p] visits every thread once, deletes exactly those, keeps the
    order of the rest and terminates. *)
Theorem Enumerate_filters (xs : list Z) (s : state) :
  rep isProc xs s ->
  runs (Enumerate isProc (fun t => ret (if p t then Delete else Continue))) s
    (fun _ s' => rep isProc (filter (fun t => p t = false) xs) s').
Proof.
  intros Hrep. unfold Enumerate. destruct Hrep as [[Hd Hnd] Hc Hb Hf] eqn:E.
  mgo. rewrite Hc, Nat2Z.id, (dseg_head _ _ _ _ _ _ Hd).
  by apply (Enumerate_loop_runs []).
Qed.
End Enumerate.

(** *** Instances at concrete lists *)

Definition blank_thread : Thread := mkThread (mkItem 0 0) (mkItem 0 0) false false.
Definition example_threads : gmap Z Thread :=
  {[ 16 := blank_thread; 32 := blank_thread; 48 := blank_thread ]}.

Lemma example_init_wf : wf false (dom example_threads) [] (init_state example_threads).
Proof.
  constructor; [constructor| | | |]; cbn; [by split; [|constructor]|done|lia|set_solver|done| |set_solver|].
  - vm_compute. done.
  - intros t Ht _. exists blank_thread. split; [|done]. cbn.
    apply elem_of_dom in Ht as [th Hth]. rewrite Hth. f_equal.
    unfold example_threads in Hth. repeat (apply lookup_insert_Some in Hth as [[_ <-]|[_ Hth]]; [done|]).
    by apply lookup_singleton_Some in Hth as [_ <-].
Qed.

Lemma ThreadList_refines_queue_witness :
  runs (run_ops false [Push 16; Push 32; Remove 16; Pop; Pop]) (init_state example_threads)
    (fun vs s => vs = [0; 0; 0; 32; 0] /\ wf false (dom example_threads) [] s).
Proof.
  exact (ThreadList_refines_queue false (dom example_threads) [Push 16; Push 32; Remove 16; Pop; Pop]
           [] (init_state example_threads) example_init_wf
           ltac:(repeat constructor; solve [by apply elem_of_dom; eexists; vm_compute | done])).
Defined.

Definition example_list : state :=
  mk 16 48 3 {[ 16 := mkThread (mkItem 0 32) (mkItem 0 0) true false;
                32 := mkThread (mkItem 16 48) (mkItem 0 0) true false;
                48 := mkThread (mkItem 32 0) (mkItem 0 0) true false ]}.

Lemma example_list_rep : rep false [16; 32; 48] example_list.
Proof.
  constructor; [|done..|].
  - split; [|repeat constructor; set_solver].
    cbn. split_and!; [done..|]. eexists. split; [done|]. split_and!; [done..|].
    eexists. split; [done|]. split_and!; [done..|]. by eexists.
  - intros t th Ht. rewrite !elem_of_cons in Ht.
    destruct Ht as [->|[->|[->|H]]]; [by vm_compute; intros [= <-]..|by apply not_elem_of_nil in H].
Qed.

Lemma Enumerate_filters_witness :
  runs (Enumerate false (fun t => ret (if t =? 32 then Delete else Continue))) example_list
    (fun _ s' => rep false [16; 48] s').
Proof.
  exact (Enumerate_filters false (fun t => t =? 32) [16; 32; 48] example_list example_list_rep).
Defined.

End ThreadList.
