(* ===== verification/LinkedList.v ===== *)
(** * LinkedList.v: the generic linked lists of the kernel library

    Models src/kernel/lib/src/DataStructures/LinkedList.cpp (lists of nodes on
    the heap, handled through a pointer to the first node) and the classes
    [SimpleLinkedList] and [RearInsertLinkedList] of
    src/kernel/lib/include/DataStructures/LinkedList.hpp. *)

From S2P Require Import Prelude DList.

#[local] Open Scope Z_scope.
#[local] Open Scope kernel_scope.

Module LinkedList.
Import DList.

(** ** Data *)

(** [LinkedList::Node] *)
Record Node : Type := mkNode { previous : Z; data : Z; next : Z }.

(** The live nodes. A freed node is not in the store. *)
Notation store := (gmap Z Node).

(** What the lists need of their allocators (the node pool, [kcalloc_vmm],
    [new Node]), chosen by the flags [vmm] and [usePool]: the address of a node
    that is not in use, or null. *)
Class NodeAllocator : Type := {
  fresh_node : bool -> bool -> store -> Z;
  fresh_node_fresh : forall vmm pool h, fresh_node vmm pool h <> 0 -> h !! fresh_node vmm pool h = None
}.

(** An allocator that has not run out of memory. *)
Class PlentifulAllocator `{NodeAllocator} : Prop :=
  fresh_node_nonnull : forall vmm pool h, fresh_node vmm pool h <> 0.

Definition set_previous (v : Z) (n : Node) : Node := mkNode v (data n) (next n).
Definition set_next (v : Z) (n : Node) : Node := mkNode (previous n) (data n) v.

Definition rd_node (p : Z) : M store Node :=
  if p =? 0 then fail NullDereference else
  let* h := gets (fun h : store => h) in
  match h !! p with Some n => ret n | None => fail InvalidAccess end.
Definition upd_node (p : Z) (f : Node -> Node) : M store unit :=
  let* n := rd_node p in modify (fun h => <[p := f n]> h).
Definition wr_next (p v : Z) : M store unit := upd_node p (set_next v).
Definition wr_previous (p v : Z) : M store unit := upd_node p (set_previous v).

(** Returning a node to its allocator. *)
Definition free_node (p : Z) : M store unit :=
  let* _ := rd_node p in modify (fun h => base.delete p h).

(** A loop over a list without a cycle makes fewer iterations than this. *)
Definition list_fuel : M store nat := gets (fun h => S (size h)).

Section Ops.
Context `{NodeAllocator}.

(** ** LinkedList.cpp *)

Fixpoint length_loop (fuel : nat) (current count : Z) : M store Z :=
  match fuel with
  | O => fail OutOfFuel
  | S fuel' =>
      let count := add64 count 1 in
      let* n := rd_node current in
      if next n =? 0 then ret count else length_loop fuel' (next n) count
  end.

(** [LinkedList::length] *)
Definition length (head : Z) : M store Z :=
  if head =? 0 then ret 0 else
  let* fuel := list_fuel in length_loop fuel head 0.

(** [LinkedList::newNode] *)
Definition newNode (d : Z) (vmm usePool : bool) : M store Z :=
  let* node := gets (fresh_node vmm usePool) in
  if node =? 0 then ret 0 else
  modify (fun h => <[node := mkNode 0 d 0]> h) ;;;
  ret node.

(** The loop that moves to the last node. *)
Fixpoint last_loop (fuel : nat) (current : Z) : M store Z :=
  match fuel with
  | O => fail OutOfFuel
  | S fuel' =>
      let* n := rd_node current in
      if next n =? 0 then ret current else last_loop fuel' (next n)
  end.

(** [LinkedList::insertNode]; the result is the new value of [head]. *)
Definition insertNode (head d : Z) (vmm usePool : bool) : M store Z :=
  if head =? 0 then newNode d vmm usePool else
  let* fuel := list_fuel in
  let* current := last_loop fuel head in
  let* node := newNode d vmm usePool in
  wr_next current node ;;;
  let* n := rd_node current in
  wr_previous (next n) current ;;;
  ret head.

Fixpoint findNode_loop (fuel : nat) (current d : Z) : M store Z :=
  match fuel with
  | O => fail OutOfFuel
  | S fuel' =>
      if current =? 0 then ret 0 else
      let* n := rd_node current in
      if data n =? d then ret current else findNode_loop fuel' (next n) d
  end.

(** [LinkedList::findNode] *)
Definition findNode (head d : Z) : M store Z :=
  let* fuel := list_fuel in findNode_loop fuel head d.

(** The search loop of [deleteNode]; null when the key is absent. *)
Fixpoint deleteNode_loop (fuel : nat) (temp key : Z) : M store Z :=
  match fuel with
  | O => fail OutOfFuel
  | S fuel' =>
      let* n := rd_node temp in
      if negb (data n =? key) then
        if next n =? 0 then ret 0 else deleteNode_loop fuel' (next n) key
      else ret temp
  end.

(** [LinkedList::deleteNode] by key; the result is the new value of [head]. *)
Definition deleteNode (head key : Z) : M store Z :=
  let temp := head in
  let* at_head := (if temp =? 0 then ret false
                   else let* n := rd_node temp in ret (data n =? key)) in
  if (at_head : bool) then
    let* n := rd_node temp in
    let head := next n in
    whenM (negb (head =? 0))
      (wr_previous head 0 ;;;
       let* hn := rd_node head in
       whenM (negb (next hn =? 0)) (wr_previous (next hn) head)) ;;;
    free_node temp ;;;
    ret head
  else if temp =? 0 then ret head
  else
    let* fuel := list_fuel in
    let* temp := deleteNode_loop fuel temp key in
    if temp =? 0 then ret head else
    let* n := rd_node temp in
    whenM (negb (next n =? 0)) (wr_previous (next n) (previous n)) ;;;
    let* n := rd_node temp in
    whenM (negb (previous n =? 0)) (wr_next (previous n) (next n)) ;;;
    free_node temp ;;;
    ret head.

(** [LinkedList::deleteNode] of a given node. *)
Definition deleteNode_ptr (head node : Z) : M store Z :=
  if (node =? 0) || (head =? 0) then ret head else
  let* n := rd_node node in
  whenM (negb (next n =? 0)) (wr_previous (next n) (previous n)) ;;;
  let* n := rd_node node in
  whenM (negb (previous n =? 0)) (wr_next (previous n) (next n)) ;;;
  let* n := rd_node node in
  let head := if head =? node then next n else head in
  free_node node ;;;
  ret head.
End Ops.

(** ** The classes

    The members of [SimpleLinkedList] and [RearInsertLinkedList] (the first has
    no [m_end]) beside the node store. *)

Record list_state : Type := mkList {
  m_count : Z;
  m_start : Z;
  m_end : Z;
  nodes : store
}.

Definition set_count (v : Z) (s : list_state) : list_state := mkList v (m_start s) (m_end s) (nodes s).
Definition set_start (v : Z) (s : list_state) : list_state := mkList (m_count s) v (m_end s) (nodes s).
Definition set_end (v : Z) (s : list_state) : list_state := mkList (m_count s) (m_start s) v (nodes s).
Definition set_nodes (v : store) (s : list_state) : list_state := mkList (m_count s) (m_start s) (m_end s) v.

(** A function of LinkedList.cpp called from a method. *)
Definition onNodes {A} (f : M store A) : M list_state A :=
  fun s => match f (nodes s) with
           | Ok (a, h) => Ok (a, set_nodes h s)
           | Fail e => Fail e
           end.
Definition inc_count : M list_state unit := modify (fun s => set_count (add64 (m_count s) 1) s).
Definition dec_count : M list_state unit := modify (fun s => set_count (sub64 (m_count s) 1) s).

(** The constructors. *)
Definition init_state (h : store) : list_state := mkList 0 0 0 h.

Section Classes.
Context `{NodeAllocator} (vmm usePool : bool).

(** *** [SimpleLinkedList] *)

(** [SimpleLinkedList::insert] *)
Definition insert (obj : Z) : M list_state unit :=
  let* start := gets m_start in
  let* start := onNodes (insertNode start obj vmm usePool) in
  modify (set_start start) ;;;
  inc_count.

(** The loop of [insertAt]: [index] steps remain. *)
Fixpoint insertAt_loop (index : nat) (prev temp : Z) : M store Z :=
  match index with
  | O => ret temp
  | S i =>
      if temp =? 0 then ret prev else
      let* n := rd_node temp in insertAt_loop i temp (next n)
  end.

(** [SimpleLinkedList::insertAt] *)
Definition insertAt (index obj : Z) : M list_state unit :=
  let* count := gets m_count in
  if count <=? index then ret tt else
  let* start := gets m_start in
  if index =? 0 then
    let* node := onNodes (newNode obj vmm usePool) in
    onNodes (wr_next node start) ;;;
    whenM (negb (start =? 0)) (onNodes (wr_previous start node)) ;;;
    modify (set_start node) ;;;
    inc_count
  else
    let* temp := onNodes (insertAt_loop (Z.to_nat index) 0 start) in
    let* node := onNodes (newNode obj vmm usePool) in
    if temp =? 0 then
      modify (set_start node) ;;; inc_count
    else
      let* t := onNodes (rd_node temp) in
      whenM (negb (next t =? 0))
        (onNodes (wr_previous (next t) node) ;;; onNodes (wr_next node (next t))) ;;;
      onNodes (wr_next temp node) ;;;
      onNodes (wr_previous node temp) ;;;
      inc_count.

(** The loop of [get] *)
Fixpoint get_loop (index : nat) (temp : Z) : M store Z :=
  match index with
  | O => ret temp
  | S i => if temp =? 0 then ret 0 else let* n := rd_node temp in get_loop i (next n)
  end.

(** [SimpleLinkedList::get] and [RearInsertLinkedList::get] *)
Definition get (index : Z) : M list_state Z :=
  let* count := gets m_count in
  if count <=? index then ret 0 else
  let* start := gets m_start in
  let* temp := onNodes (get_loop (Z.to_nat index) start) in
  if temp =? 0 then ret 0 else
  let* n := onNodes (rd_node temp) in ret (data n).

(** [SimpleLinkedList::getNext] *)
Definition getNext (obj : Z) : M list_state Z :=
  let* start := gets m_start in
  let* temp := onNodes (findNode start obj) in
  if temp =? 0 then ret 0 else
  let* n := onNodes (rd_node temp) in
  if next n =? 0 then ret 0 else
  let* n' := onNodes (rd_node (next n)) in ret (data n').

(** The loop of [getIndex]: [left] of the [m_count] iterations remain. *)
Fixpoint getIndex_loop (left : nat) (i temp obj : Z) : M store Z :=
  match left with
  | O => ret UINT64_MAX
  | S l =>
      if temp =? 0 then ret UINT64_MAX else
      let* n := rd_node temp in
      if data n =? obj then ret i else getIndex_loop l (add64 i 1) (next n) obj
  end.

(** [SimpleLinkedList::getIndex] and [RearInsertLinkedList::getIndex] *)
Definition getIndex (obj : Z) : M list_state Z :=
  let* start := gets m_start in
  let* count := gets m_count in
  onNodes (getIndex_loop (Z.to_nat count) 0 start obj).

(** [remove] of an object, of both classes *)
Definition remove (obj : Z) : M list_state unit :=
  let* start := gets m_start in
  let* start := onNodes (deleteNode start obj) in
  modify (set_start start) ;;;
  dec_count.

(** [remove] of an index, of both classes *)
Definition remove_index (index : Z) : M list_state unit :=
  let* obj := get index in remove obj.

(** The loop of the destructors, after [i] iterations. *)
Fixpoint destroy_loop (fuel : nat) (i : Z) : M list_state unit :=
  match fuel with
  | O => fail OutOfFuel
  | S f =>
      let* count := gets m_count in
      if i <? count then remove_index 0 ;;; destroy_loop f (add64 i 1) else ret tt
  end.

(** [~SimpleLinkedList] and [~RearInsertLinkedList]; at most [m_count]
    iterations. *)
Definition destroy : M list_state unit :=
  let* count := gets m_count in destroy_loop (S (Z.to_nat count)) 0.

(** [SimpleLinkedList::rotateLeft] *)
Definition rotateLeft : M list_state unit :=
  let* count := gets m_count in
  if count <? 2 then ret tt else
  let* start := gets m_start in
  assertM (negb (start =? 0)) ;;;
  let* fuel := onNodes list_fuel in
  let* end_ := onNodes (last_loop fuel start) in
  assertM (negb (end_ =? 0)) ;;;
  onNodes (wr_next end_ start) ;;;
  onNodes (wr_previous start end_) ;;;
  let* n := onNodes (rd_node start) in
  modify (set_start (next n)) ;;;
  onNodes (wr_previous (next n) 0) ;;;
  let* e := onNodes (rd_node end_) in
  onNodes (wr_next (next e) 0).

(** [SimpleLinkedList::rotateRight] *)
Definition rotateRight : M list_state unit :=
  let* count := gets m_count in
  if count <? 2 then ret tt else
  let* start := gets m_start in
  assertM (negb (start =? 0)) ;;;
  let* fuel := onNodes list_fuel in
  let* end_ := onNodes (last_loop fuel start) in
  assertM (negb (end_ =? 0)) ;;;
  onNodes (wr_previous start end_) ;;;
  onNodes (wr_next end_ start) ;;;
  onNodes (wr_previous end_ 0) ;;;
  modify (set_start end_).

(** [SimpleLinkedList::getHead] *)
Definition getHead : M list_state Z :=
  let* start := gets m_start in
  if start =? 0 then ret 0 else
  let* n := onNodes (rd_node start) in ret (data n).

(** The loop of [Enumerate]: [left] iterations remain. The callback works on
    its own [data]. *)
Fixpoint Enumerate_loop {A} (func : Z -> A -> bool * A) (left : nat) (temp : Z) (acc : A) : M store A :=
  match left with
  | O => ret acc
  | S l =>
      let* n := rd_node temp in
      let (go, acc) := func (data n) acc in
      if go then Enumerate_loop func l (next n) acc else ret acc
  end.

(** [SimpleLinkedList::Enumerate] *)
Definition Enumerate {A} (func : Z -> A -> bool * A) (acc : A) : M list_state A :=
  let* start := gets m_start in
  let* count := gets m_count in
  onNodes (Enumerate_loop func (Z.to_nat count) start acc).

(** [getCount] *)
Definition getCount : M list_state Z := gets m_count.

(** *** [RearInsertLinkedList] *)

(** [RearInsertLinkedList::insert] *)
Definition Rear_insert (obj : Z) : M list_state unit :=
  let* node := onNodes (newNode obj vmm usePool) in
  let* count := gets m_count in
  (if count =? 0 then
     modify (set_start node) ;;; modify (set_end node)
   else
     let* end_ := gets m_end in
     onNodes (wr_next end_ node) ;;;
     onNodes (wr_previous node end_) ;;;
     modify (set_end node)) ;;;
  inc_count.

(** Linking [node] after [temp], the common tail of the three functions below. *)
Definition Rear_link_after (temp node : Z) : M list_state unit :=
  let* t := onNodes (rd_node temp) in
  (if negb (next t =? 0) then
     onNodes (wr_previous (next t) node) ;;; onNodes (wr_next node (next t))
   else modify (set_end node)) ;;;
  onNodes (wr_next temp node) ;;;
  onNodes (wr_previous node temp) ;;;
  inc_count.

(** [RearInsertLinkedList::insertAt] *)
Definition Rear_insertAt (index obj : Z) : M list_state unit :=
  let* count := gets m_count in
  if count <=? index then ret tt else
  let* start := gets m_start in
  let* temp := onNodes (insertAt_loop (Z.to_nat index) 0 start) in
  let* node := onNodes (newNode obj vmm usePool) in
  if temp =? 0 then
    modify (set_start node) ;;; modify (set_end node) ;;; inc_count
  else Rear_link_after temp node.

(** [RearInsertLinkedList::insertAfter] *)
Definition insertAfter (obj newObj : Z) : M list_state unit :=
  let* start := gets m_start in
  let* temp := onNodes (findNode start obj) in
  if temp =? 0 then ret tt else
  let* node := onNodes (newNode newObj vmm usePool) in
  Rear_link_after temp node.

(** [RearInsertLinkedList::Enumerate] with the callback's data: the callback's
    answer is ignored. *)
Definition Rear_Enumerate {A} (func : Z -> A -> bool * A) (acc : A) : M list_state A :=
  let* start := gets m_start in
  let* count := gets m_count in
  onNodes (Enumerate_loop (fun d a => (true, snd (func d a))) (Z.to_nat count) start acc).

(** The loop that skips the first [n] nodes, without a null check. *)
Fixpoint skip_loop (step : Node -> Z) (n : nat) (temp : Z) : M store Z :=
  match n with
  | O => ret temp
  | S n' => let* nd := rd_node temp in skip_loop step n' (step nd)
  end.

(** The loop with an index, forwards ([step = next]) or backwards. *)
Fixpoint EnumerateIndex_loop {A} (step : Node -> Z) (func : Z -> Z -> A -> bool * A) (left : nat)
  (i temp : Z) (acc : A) : M store A :=
  match left with
  | O => ret acc
  | S l =>
      let* n := rd_node temp in
      let (go, acc) := func (data n) i acc in
      if go then EnumerateIndex_loop step func l (add64 i 1) (step n) acc else ret acc
  end.

(** The two [Enumerate] overloads with an index *)
Definition EnumerateIndex {A} (func : Z -> Z -> A -> bool * A) (from : Z) (acc : A) : M list_state A :=
  let* count := gets m_count in
  if count <=? from then ret acc else
  let* start := gets m_start in
  let* temp := onNodes (skip_loop next (Z.to_nat from) start) in
  onNodes (EnumerateIndex_loop next func (Z.to_nat (count - from)) from temp acc).

(** [EnumerateReverse] without an index: the callback's answer is ignored. *)
Definition EnumerateReverse {A} (func : Z -> A -> bool * A) (acc : A) : M list_state A :=
  let* end_ := gets m_end in
  let* count := gets m_count in
  onNodes (EnumerateIndex_loop previous (fun d _ a => (true, snd (func d a))) (Z.to_nat count) 0 end_ acc).

(** [EnumerateReverse] with an index *)
Definition EnumerateReverseIndex {A} (func : Z -> Z -> A -> bool * A) (from : Z) (acc : A)
  : M list_state A :=
  let* end_ := gets m_end in
  let* count := gets m_count in
  let* temp := onNodes (skip_loop previous (Z.to_nat from) end_) in
  onNodes (EnumerateIndex_loop previous func (Z.to_nat (count - from)) from temp acc).

(** [LinkedList::IteratorDecision] *)
Inductive IteratorDecision : Set := CONTINUE | BREAK | DELETE | DELETE_BREAK.

(** The unlinking of [temp] in [EnumerateDelete]. *)
Definition EnumerateDelete_unlink (temp nxt : Z) : M list_state unit :=
  let* t := onNodes (rd_node temp) in
  (if nxt =? 0 then modify (set_end (previous t))
   else onNodes (wr_previous nxt (previous t))) ;;;
  let* t := onNodes (rd_node temp) in
  (if negb (previous t =? 0) then onNodes (wr_next (previous t) nxt)
   else modify (set_start nxt)) ;;;
  onNodes (free_node temp) ;;;
  dec_count.

Fixpoint EnumerateDelete_loop {A} (func : Z -> Z -> A -> IteratorDecision * A) (fuel : nat)
  (index temp : Z) (acc : A) : M list_state A :=
  match fuel with
  | O => fail OutOfFuel
  | S f =>
      if temp =? 0 then ret acc else
      let* t := onNodes (rd_node temp) in
      let nxt := next t in
      let (d, acc) := func (data t) index acc in
      match d with
      | BREAK => ret acc
      | DELETE =>
          EnumerateDelete_unlink temp nxt ;;;
          EnumerateDelete_loop func f (add64 index 1) nxt acc
      | DELETE_BREAK => EnumerateDelete_unlink temp nxt ;;; ret acc
      | CONTINUE => EnumerateDelete_loop func f (add64 index 1) nxt acc
      end
  end.

(** [RearInsertLinkedList::EnumerateDelete] *)
Definition EnumerateDelete {A} (func : Z -> Z -> A -> IteratorDecision * A) (from : Z) (acc : A)
  : M list_state A :=
  let* start := gets m_start in
  let* temp := onNodes (skip_loop next (Z.to_nat from) start) in
  let* fuel := onNodes list_fuel in
  EnumerateDelete_loop func fuel from temp acc.

Fixpoint clear_loop (n : nat) : M list_state unit :=
  match n with
  | O => ret tt
  | S n' =>
      let* start := gets m_start in
      let* start := onNodes (deleteNode_ptr start start) in
      modify (set_start start) ;;; clear_loop n'
  end.

(** [RearInsertLinkedList::clear] *)
Definition clear : M list_state unit :=
  let* count := gets m_count in
  clear_loop (Z.to_nat count) ;;;
  modify (set_count 0) ;;;
  modify (set_end 0).
End Classes.

(** ** Representation *)

Definition lk (h : store) (a : Z) : option (Z * Z) := (fun n => (previous n, next n)) <$> h !! a.

(** The nodes reached from [head] are [ps]: addresses paired with their data. *)
Record lrep (h : store) (head : Z) (ps : list (Z * Z)) : Prop := {
  lrep_links : dlist (lk h) head (default 0 (last ps.*1)) ps.*1;
  lrep_data : forall a d, (a, d) ∈ ps -> data <$> h !! a = Some d
}.

Section Lemmas.

Lemma lrep_nil h head : lrep h head [] <-> head = 0.
Proof.
  split; [intros [[Hl _] _]; cbn in Hl; naive_solver|].
  intros ->. split; [by apply dlist_nil|]. intros ?? E. by apply not_elem_of_nil in E.
Qed.

Lemma lrep_head h head ps : lrep h head ps -> head = default 0 (list.head ps.*1).
Proof. intros [Hl _]. by apply dlist_head_tail in Hl as [? _]. Qed.

(** The contents of a node in the middle of a list. *)
Lemma lrep_middle h head l a d r :
  lrep h head (l ++ (a, d) :: r) ->
  a <> 0 /\ h !! a = Some (mkNode (default 0 (last l.*1)) d (default 0 (list.head r.*1))) /\
  a ∉ l.*1 /\ a ∉ r.*1.
Proof.
  intros [[Hl Hnd] Hd]. rewrite fmap_app, fmap_cons in Hl, Hnd. cbn in Hl, Hnd.
  apply dseg_middle in Hl as (Ha & Hlk & _). split; [done|]. split.
  - specialize (Hd a d ltac:(set_solver)). unfold lk in Hlk.
    destruct (h !! a) as [[p d' n]|]; cbn in *; [|done]. by simplify_eq.
  - apply NoDup_app in Hnd as (_ & Hdj & Hnd). apply NoDup_cons in Hnd as [? _].
    split; [|done]. intros Hin. apply (Hdj a Hin). set_solver.
Qed.

Lemma lrep_elem h head ps a : lrep h head ps -> a ∈ ps.*1 -> a <> 0 /\ is_Some (h !! a).
Proof.
  intros Hr Ha. apply list_elem_of_fmap in Ha as ([a' d] & -> & Ha).
  apply list_elem_of_split in Ha as (l & r & ->).
  apply lrep_middle in Hr as (? & Hn & _). cbn. rewrite Hn. eauto.
Qed.

(** A list without a cycle is no longer than the store. *)
Lemma lrep_size h head ps : lrep h head ps -> (Datatypes.length ps <= size h)%nat.
Proof.
  intros Hr. rewrite <- (length_fmap fst).
  pose proof (proj2 (lrep_links _ _ _ Hr)) as Hnd.
  rewrite <- (size_list_to_set (C := gset Z) _ Hnd), <- (size_dom (D := gset Z)).
  apply subseteq_size. intros a Ha%elem_of_list_to_set.
  apply elem_of_dom. eapply lrep_elem; eauto.
Qed.

(** Writes outside a list do not change it. *)
Lemma lrep_frame h h' head ps :
  lrep h head ps -> (forall a, a ∈ ps.*1 -> h' !! a = h !! a) -> lrep h' head ps.
Proof.
  intros [[Hl Hnd] Hd] Hsame. split.
  - split; [|done]. eapply dseg_ext; [|exact Hl]. intros a Ha. unfold lk. by rewrite Hsame.
  - intros a d Ha. rewrite Hsame; [by apply Hd|]. apply list_elem_of_fmap. by exists (a, d).
Qed.

Lemma rd_node_runs p n h (Q : Node -> store -> Prop) :
  p <> 0 -> h !! p = Some n -> Q n h -> runs (rd_node p) h Q.
Proof.
  intros Hp Hl HQ. unfold rd_node. apply Z.eqb_neq in Hp. rewrite Hp. mgo.
  rewrite Hl. by apply runs_ret.
Qed.

Lemma upd_node_runs p f n h (Q : unit -> store -> Prop) :
  p <> 0 -> h !! p = Some n -> Q tt (<[p := f n]> h) -> runs (upd_node p f) h Q.
Proof. intros Hp Hl HQ. unfold upd_node. mstep. eapply rd_node_runs; [done..|]. by mgo. Qed.

Lemma free_node_runs p n h (Q : unit -> store -> Prop) :
  p <> 0 -> h !! p = Some n -> Q tt (base.delete p h) -> runs (free_node p) h Q.
Proof. intros Hp Hl HQ. unfold free_node. mstep. eapply rd_node_runs; [done..|]. by mgo. Qed.

(** Appending a node. *)
Lemma lrep_snoc h h' head ps a d :
  lrep h head ps -> a <> 0 -> a ∉ ps.*1 ->
  h' !! a = Some (mkNode (default 0 (last ps.*1)) d 0) ->
  (forall b n, last ps.*1 = Some b -> h !! b = Some n -> h' !! b = Some (set_next a n)) ->
  (forall b, b ∈ ps.*1 -> last ps.*1 <> Some b -> h' !! b = h !! b) ->
  lrep h' (default a (list.head ps.*1)) (ps ++ [(a, d)]).
Proof.
  intros [[Hl Hnd] Hd] Ha Hnin Hnew Hlast Hsame. split.
  - rewrite fmap_app. cbn. split.
    + rewrite last_snoc. cbn. eapply dseg_snoc; [done..| | |].
      * intros b Hb Hne. unfold lk. rewrite Hsame; [done|done|]. intros E. by rewrite E in Hne.
      * intros pr Hq Hin. destruct (last ps.*1) as [q|] eqn:E; cbn in *.
        -- unfold lk in *. destruct (h !! q) as [n|] eqn:Hn; cbn in *; simplify_eq.
           by rewrite (Hlast q n).
        -- by apply last_None in E; rewrite E in Hin; apply not_elem_of_nil in Hin.
      * unfold lk. by rewrite Hnew.
    + apply NoDup_app. split_and!; [done|set_solver|apply NoDup_singleton].
  - intros b e [Hb|Hb]%elem_of_app.
    + destruct (decide (last ps.*1 = Some b)) as [E|E].
      * specialize (Hd b e Hb). destruct (h !! b) as [n|] eqn:Hn; [|done].
        by rewrite (Hlast b n E Hn).
      * rewrite Hsame; [by apply Hd| |done]. apply list_elem_of_fmap. by exists (b, e).
    + apply list_elem_of_singleton in Hb as [= -> ->]. by rewrite Hnew.
Qed.

(** Unlinking and freeing a node. *)
Record unlinks (l : list (Z * Z)) (a : Z) (r : list (Z * Z)) (h h' : store) : Prop := {
  un_self : h' !! a = None;
  un_same : forall b, b <> a -> last l.*1 <> Some b -> list.head r.*1 <> Some b -> h' !! b = h !! b;
  un_last : forall b n, last l.*1 = Some b -> h !! b = Some n ->
    h' !! b = Some (set_next (default 0 (list.head r.*1)) n);
  un_head : forall b n, list.head r.*1 = Some b -> h !! b = Some n ->
    h' !! b = Some (set_previous (default 0 (last l.*1)) n)
}.

Lemma unlinks_lrep l a d r h h' head :
  lrep h head (l ++ (a, d) :: r) -> unlinks l a r h h' ->
  lrep h' (default 0 (list.head (l ++ r).*1)) (l ++ r).
Proof.
  intros Hr [Hself Hsame Hlast Hhead].
  destruct (lrep_middle _ _ _ _ _ _ Hr) as (Ha & Hna & Hal & Har).
  destruct Hr as [[Hl Hnd] Hd]. rewrite fmap_app, fmap_cons in Hl, Hnd. cbn in Hl, Hnd.
  assert (Hne : forall b, b ∈ l.*1 ++ r.*1 -> b <> a) by set_solver. split.
  - rewrite fmap_app. split.
    + eapply dseg_remove; [exact Hl|done| | | |].
      * by apply (dseg_nonzero _ _ _ _ _ _ Hl).
      * intros b Hb H1 H2. unfold lk. by rewrite Hsame by (auto; congruence).
      * intros b pr E Hb. unfold lk in *. destruct (h !! b) as [n|] eqn:En; cbn in *; simplify_eq.
        by rewrite (Hlast b n).
      * intros b nx E Hb. unfold lk in *. destruct (h !! b) as [n|] eqn:En; cbn in *; simplify_eq.
        by rewrite (Hhead b n).
    + apply NoDup_app in Hnd as (? & Hdj & Hnd'). apply NoDup_cons in Hnd' as [? ?].
      apply NoDup_app. split_and!; [done| |done]. intros b Hb Hb'. apply (Hdj b Hb). set_solver.
  - intros b e Hb. assert (Hb1 : b ∈ l.*1 ++ r.*1).
    { rewrite <- fmap_app. apply list_elem_of_fmap. by exists (b, e). }
    specialize (Hd b e ltac:(set_solver)). destruct (h !! b) as [n|] eqn:En; [|done].
    destruct (decide (last l.*1 = Some b)) as [E|E]; [by rewrite (Hlast b n)|].
    destruct (decide (list.head r.*1 = Some b)) as [E'|E']; [by rewrite (Hhead b n)|].
    rewrite Hsame; [by rewrite En|by apply Hne|done..].
Qed.
End Lemmas.

(** ** The functions of LinkedList.cpp *)

Section Specs.
Context `{NodeAllocator}.

Lemma rd_node_at h head l a d r :
  lrep h head (l ++ (a, d) :: r) ->
  rd_node a h = Ok (mkNode (default 0 (last l.*1)) d (default 0 (list.head r.*1)), h).
Proof.
  intros (Ha & Hn & _)%lrep_middle. unfold rd_node, bind, gets, ret.
  apply Z.eqb_neq in Ha. by rewrite Ha, Hn.
Qed.

Lemma length_loop_eq h head l a d r fuel c :
  lrep h head (l ++ (a, d) :: r) -> (Datatypes.length r < fuel)%nat ->
  0 <= c -> c + 1 + Z.of_nat (Datatypes.length r) < W64 ->
  length_loop fuel a c h = Ok (c + 1 + Z.of_nat (Datatypes.length r), h).
Proof.
  revert l a d fuel c. induction r as [|[b e] r IH]; intros l a d fuel c Hr Hf Hc Hb;
    (destruct fuel as [|fuel]; [cbn in Hf; lia|]); cbn [length_loop]; unfold bind;
    rewrite (rd_node_at _ _ _ _ _ _ Hr); cbn [next fmap list_fmap fst list.head default] in *.
  - cbn. unfold ret. by rewrite add64_small, Z.add_0_r by lia.
  - assert (Hr' : lrep h head ((l ++ [(a, d)]) ++ (b, e) :: r)) by (by rewrite <- app_assoc).
    destruct (lrep_middle _ _ _ _ _ _ Hr') as (Hb0 & _). apply Z.eqb_neq in Hb0. cbn. rewrite Hb0.
    cbn [Datatypes.length] in *. rewrite add64_small by lia.
    rewrite (IH _ _ _ _ _ Hr') by lia. do 2 f_equal. lia.
Qed.

Lemma last_loop_eq h head l a d r fuel :
  lrep h head (l ++ (a, d) :: r) -> (Datatypes.length r < fuel)%nat ->
  last_loop fuel a h = Ok (default a (last r.*1), h).
Proof.
  revert l a d fuel. induction r as [|[b e] r IH]; intros l a d fuel Hr Hf;
    (destruct fuel as [|fuel]; [cbn in Hf; lia|]); cbn [last_loop]; unfold bind;
    rewrite (rd_node_at _ _ _ _ _ _ Hr); [done|].
  assert (Hr' : lrep h head ((l ++ [(a, d)]) ++ (b, e) :: r)) by (by rewrite <- app_assoc).
  destruct (lrep_middle _ _ _ _ _ _ Hr') as (Hb0 & _). apply Z.eqb_neq in Hb0. rewrite fmap_cons, last_cons.
  cbn -[last]. rewrite Hb0, (IH _ _ _ _ Hr') by (cbn in Hf; lia).
  by destruct (last r.*1).
Qed.

(** The address of the first node holding [d]. *)
Fixpoint find_addr (d : Z) (ps : list (Z * Z)) : Z :=
  match ps with
  | [] => 0
  | (a, e) :: ps => if e =? d then a else find_addr d ps
  end.

Lemma findNode_loop_eq h head l r d fuel :
  lrep h head (l ++ r) -> (Datatypes.length r < fuel)%nat ->
  findNode_loop fuel (default 0 (list.head r.*1)) d h = Ok (find_addr d r, h).
Proof.
  revert l fuel. induction r as [|[a e] r IH]; intros l fuel Hr Hf;
    (destruct fuel as [|fuel]; [cbn in Hf; lia|]); cbn; [done|].
  destruct (lrep_middle _ _ _ _ _ _ Hr) as (Ha & _). apply Z.eqb_neq in Ha. rewrite Ha.
  unfold bind. rewrite (rd_node_at _ _ _ _ _ _ Hr). cbn. destruct (e =? d); [done|].
  apply (IH (l ++ [(a, e)])); [by rewrite <- app_assoc|cbn in Hf; lia].
Qed.

Lemma deleteNode_loop_eq h head l a e r d fuel :
  lrep h head (l ++ (a, e) :: r) -> (Datatypes.length r < fuel)%nat ->
  deleteNode_loop fuel a d h = Ok (find_addr d ((a, e) :: r), h).
Proof.
  revert l a e fuel. induction r as [|[b f] r IH]; intros l a e fuel Hr Hf;
    (destruct fuel as [|fuel]; [cbn in Hf; lia|]); cbn [deleteNode_loop find_addr]; unfold bind;
    rewrite (rd_node_at _ _ _ _ _ _ Hr); cbn; destruct (e =? d); cbn; try done.
  assert (Hr' : lrep h head ((l ++ [(a, e)]) ++ (b, f) :: r)) by (by rewrite <- app_assoc).
  destruct (lrep_middle _ _ _ _ _ _ Hr') as (Hb & _). apply Z.eqb_neq in Hb. rewrite Hb.
  rewrite (IH _ _ _ _ Hr'); [done|cbn in Hf; lia].
Qed.

Lemma find_addr_split d ps :
  (d ∉ ps.*2 /\ find_addr d ps = 0) \/
  exists l a r, ps = l ++ (a, d) :: r /\ d ∉ l.*2 /\ find_addr d ps = a.
Proof.
  induction ps as [|[a e] ps IH]; cbn; [left; set_solver|].
  destruct (Z.eqb_spec e d) as [->|Hne]; [right; by exists [], a, ps; split_and!; [|set_solver|]|].
  destruct IH as [[? ->]|(l & b & r & -> & ? & ->)]; [left; split; [set_solver|done]|].
  right. exists ((a, e) :: l), b, r. split_and!; [done|set_solver|done].
Qed.

Lemma newNode_runs `{!PlentifulAllocator} d vmm pool h (Q : Z -> store -> Prop) :
  (forall a, a <> 0 -> h !! a = None -> Q a (<[a := mkNode 0 d 0]> h)) ->
  runs (newNode d vmm pool) h Q.
Proof.
  intros HQ. unfold newNode. mgo.
  pose proof (fresh_node_nonnull vmm pool h) as Hne. pose proof (fresh_node_fresh vmm pool h Hne).
  apply Z.eqb_neq in Hne as Hne'. rewrite Hne'. mgo. by apply HQ.
Qed.

Lemma insertNode_runs `{!PlentifulAllocator} d vmm pool h head ps :
  lrep h head ps ->
  runs (insertNode head d vmm pool) h (fun head' h' => exists a,
    a <> 0 /\ h !! a = None /\ lrep h' head' (ps ++ [(a, d)]) /\
    forall b, b ∉ ps.*1 -> b <> a -> h' !! b = h !! b).
Proof.
  intros Hr. pose proof (lrep_head _ _ _ Hr) as Hhd. unfold insertNode, list_fuel.
  destruct ps as [|[x e] r].
  - cbn in Hhd. subst head. cbn [Z.eqb]. apply newNode_runs. intros a Ha Hna.
    exists a. split_and!; [done..| |].
    + eapply (lrep_snoc h _ 0 [] a d Hr); cbn; [done|set_solver|by rewrite lookup_insert_eq|done|].
      intros b Hb. by apply not_elem_of_nil in Hb.
    + intros b _ Hb. by rewrite lookup_insert_ne.
  - cbn in Hhd. subst head. pose proof (lrep_size _ _ _ Hr) as Hsz.
    destruct (lrep_middle _ _ [] _ _ _ Hr) as (Hx & _). apply Z.eqb_neq in Hx as Hx'. rewrite Hx'.
    mgo. eexists _, _. split; [apply (last_loop_eq _ _ [] _ _ _ _ Hr); cbn in *; lia|].
    set (q := default x (last r.*1)).
    assert (Hq : last ((x, e) :: r).*1 = Some q).
    { rewrite fmap_cons, last_cons. by destruct (last r.*1). }
    destruct (lrep_elem _ _ _ q Hr) as [Hq0 [n Hn]]; [by apply last_Some_elem_of|].
    mstep. apply newNode_runs. intros a Ha Hna.
    assert (Hqa : q <> a) by congruence. mstep.
    eapply upd_node_runs; [done|by rewrite lookup_insert_ne|]. mstep.
    eapply rd_node_runs; [done|by rewrite lookup_insert_eq|]. cbn [next set_next]. mstep.
    eapply upd_node_runs; [done|by rewrite lookup_insert_ne, lookup_insert_eq|]. mstep.
    assert (Hax : a ∉ ((x, e) :: r).*1).
    { intros Hin. apply (lrep_elem _ _ _ _ Hr) in Hin as [_ [??]]. congruence. }
    exists a. split_and!; [done..| |].
    + apply (lrep_snoc h _ x ((x, e) :: r) a d Hr Ha Hax); rewrite Hq.
      * rewrite lookup_insert_eq. done.
      * intros b m [= <-] Hm. rewrite lookup_insert_ne, lookup_insert_eq by done. congruence.
      * intros b Hb Hqb. rewrite !lookup_insert_ne; [done|set_solver|congruence|set_solver].
    + intros b Hb Hba. assert (b <> q).
      { intros ->. apply Hb. by apply last_Some_elem_of. }
      by rewrite !lookup_insert_ne.
Qed.

Lemma lrep_neighbours h head l a d r :
  lrep h head (l ++ (a, d) :: r) ->
  (forall b, last l.*1 = Some b -> b <> 0 /\ b <> a /\ is_Some (h !! b) /\ list.head r.*1 <> Some b) /\
  (forall b, list.head r.*1 = Some b -> b <> 0 /\ b <> a /\ is_Some (h !! b)).
Proof.
  intros Hr. destruct (lrep_middle _ _ _ _ _ _ Hr) as (_ & _ & Hal & Har).
  assert (Hb0 : forall b, b ∈ l.*1 ++ r.*1 -> b <> 0 /\ b <> a /\ is_Some (h !! b)).
  { intros b Hb. split_and!; [|set_solver|].
    all: eapply lrep_elem; [exact Hr|]; rewrite fmap_app, fmap_cons; cbn; set_solver. }
  assert (Hhd : forall b, list.head r.*1 = Some b -> b ∈ r.*1).
  { intros b Hb. destruct (r.*1); cbn in *; simplify_eq. set_solver. }
  split; intros b Hb.
  - pose proof (last_Some_elem_of _ _ Hb) as Hin. destruct (Hb0 b) as (? & ? & ?); [set_solver|].
    split_and!; [done..|]. intros Hb'%Hhd. pose proof (proj2 (lrep_links _ _ _ Hr)) as Hnd.
    rewrite fmap_app in Hnd. apply NoDup_app in Hnd as (_ & Hdj & _). apply (Hdj b Hin). set_solver.
  - apply Hb0. set_solver.
Qed.

(** Linking the predecessor of [a] to its successor, whose [previous] was
    already updated in [h1]. *)
Lemma unlink_previous_runs {A} h h1 head l a d r (k : M store A) Q :
  lrep h head (l ++ (a, d) :: r) -> h1 !! a = h !! a ->
  (forall b, b <> a -> list.head r.*1 <> Some b -> h1 !! b = h !! b) ->
  (forall b n, list.head r.*1 = Some b -> h !! b = Some n ->
     h1 !! b = Some (set_previous (default 0 (last l.*1)) n)) ->
  (forall h', h' !! a = h !! a -> unlinks l a r h (base.delete a h') -> runs k h' Q) ->
  runs (let* n := rd_node a in
        whenM (negb (previous n =? 0)) (wr_next (previous n) (next n)) ;;; k) h1 Q.
Proof.
  intros Hr H1 H2 H3 Hk. destruct (lrep_middle _ _ _ _ _ _ Hr) as (Ha & Hna & _ & _).
  destruct (lrep_neighbours _ _ _ _ _ _ Hr) as [Hlast Hhead].
  mstep. eapply rd_node_runs; [done|by rewrite H1|]. cbn [previous next]. mstep.
  destruct (last l.*1) as [b|] eqn:Eb; cbn.
  - destruct (Hlast b) as (Hb & Hba & [n Hn] & Hbh); [done|].
    apply Z.eqb_neq in Hb as Hb'. rewrite Hb'.
    eapply upd_node_runs; [done|by rewrite H2 by auto|]. apply Hk; [by rewrite lookup_insert_ne|].
    constructor; rewrite ?Eb.
    + by rewrite lookup_delete_eq.
    + intros c Hc Hc1 Hc2. rewrite lookup_delete_ne, lookup_insert_ne by congruence. auto.
    + intros c m [= <-] Hm. rewrite lookup_delete_ne, lookup_insert_eq by congruence. congruence.
    + intros c m Hc Hm. destruct (Hhead c) as (_ & Hca & _); [done|].
      rewrite lookup_delete_ne, lookup_insert_ne by naive_solver. by apply H3.
  - apply runs_ret. apply Hk; [done|]. constructor; rewrite ?Eb.
    + by rewrite lookup_delete_eq.
    + intros c Hc _ Hc2. rewrite lookup_delete_ne by congruence. auto.
    + done.
    + intros c m Hc Hm. destruct (Hhead c) as (_ & Hca & _); [done|].
      rewrite lookup_delete_ne by congruence. by apply H3.
Qed.

(** The code shared by both [deleteNode]s that links the neighbours of [a]. *)
Lemma unlink_runs {A} h head l a d r (k : M store A) Q :
  lrep h head (l ++ (a, d) :: r) ->
  (forall h', h' !! a = h !! a -> unlinks l a r h (base.delete a h') -> runs k h' Q) ->
  runs (let* n := rd_node a in
        whenM (negb (next n =? 0)) (wr_previous (next n) (previous n)) ;;;
        let* n := rd_node a in
        whenM (negb (previous n =? 0)) (wr_next (previous n) (next n)) ;;; k) h Q.
Proof.
  intros Hr Hk. destruct (lrep_middle _ _ _ _ _ _ Hr) as (Ha & Hna & _ & _).
  destruct (lrep_neighbours _ _ _ _ _ _ Hr) as [_ Hhead].
  mstep. eapply rd_node_runs; [done..|]. cbn [previous next]. mstep.
  destruct (list.head r.*1) as [b|] eqn:Eb; cbn.
  - destruct (Hhead b) as (Hb & Hba & n & Hn); [done|]. apply Z.eqb_neq in Hb as Hb'. rewrite Hb'.
    eapply upd_node_runs; [done..|]. eapply unlink_previous_runs; [done|..|done]; rewrite ?Eb.
    + by rewrite lookup_insert_ne.
    + intros c Hc Hcb. by rewrite lookup_insert_ne by congruence.
    + intros c m [= <-] Hm. rewrite lookup_insert_eq. congruence.
  - apply runs_ret. eapply unlink_previous_runs; [done..| |done]. by rewrite Eb.
Qed.

Lemma deleteNode_ptr_runs h head l a d r :
  lrep h head (l ++ (a, d) :: r) ->
  runs (deleteNode_ptr head a) h (fun head' h' => lrep h' head' (l ++ r) /\ unlinks l a r h h').
Proof.
  intros Hr. destruct (lrep_middle _ _ _ _ _ _ Hr) as (Ha & Hna & Hal & _).
  pose proof (lrep_head _ _ _ Hr) as Hhd.
  assert (Hh0 : head <> 0).
  { destruct (lrep_elem _ _ _ head Hr); [|done]. rewrite Hhd, fmap_app. destruct l; cbn; set_solver. }
  unfold deleteNode_ptr. apply Z.eqb_neq in Ha as Ha', Hh0 as Hh0'. rewrite Ha', Hh0'. cbn [orb].
  eapply unlink_runs; [done|]. intros h1 H1 Hun. rewrite Hna in H1.
  mstep. eapply rd_node_runs; [done..|]. mstep. eapply free_node_runs; [done..|]. mstep.
  split; [|done]. pose proof (unlinks_lrep _ _ _ _ _ _ _ Hr Hun) as Hr'.
  cbn [next]. rewrite fmap_app in Hhd. destruct l as [|[x e] l]; cbn in Hhd |- *.
  - subst head. by rewrite Z.eqb_refl.
  - subst head. rewrite (proj2 (Z.eqb_neq x a)) by set_solver. done.
Qed.

Lemma set_previous_same n p : previous n = p -> set_previous p n = n.
Proof. intros <-. by destruct n. Qed.

(** The case of [deleteNode] where the first node holds the key. *)
Lemma deleteNode_head_runs h x key ps Q :
  lrep h x ((x, key) :: ps) ->
  (forall h', lrep h' (default 0 (list.head ps.*1)) ps -> unlinks [] x ps h h' ->
     Q (default 0 (list.head ps.*1)) h') ->
  runs (let* n := rd_node x in
        let head := next n in
        whenM (negb (head =? 0))
          (wr_previous head 0 ;;;
           let* hn := rd_node head in
           whenM (negb (next hn =? 0)) (wr_previous (next hn) head)) ;;;
        free_node x ;;;
        ret head) h Q.
Proof.
  intros Hr HQ. destruct (lrep_middle _ _ [] _ _ _ Hr) as (Hx & Hnx & _ & Hxp).
  assert (K : forall h', unlinks [] x ps h h' -> Q (default 0 (list.head ps.*1)) h').
  { intros h' Hun. apply HQ; [|done]. apply (unlinks_lrep [] x key ps h h' x Hr Hun). }
  mstep. eapply rd_node_runs; [done..|]. cbn [next]. mstep.
  destruct ps as [|[y f] ps]; cbn.
  { apply runs_ret. mstep. eapply free_node_runs; [done..|]. mstep. apply K.
    constructor; cbn; [by rewrite lookup_delete_eq| |done..].
    intros b Hb _ _. by rewrite lookup_delete_ne. }
  destruct (lrep_middle _ _ [(x, key)] _ _ _ Hr) as (Hy & Hny & _ & Hyp).
  apply Z.eqb_neq in Hy as Hy'. rewrite Hy'. cbn. mstep. eapply upd_node_runs; [done..|].
  mstep. eapply rd_node_runs; [done|by rewrite lookup_insert_eq|]. cbn [set_previous next].
  assert (Hxy : x <> y) by set_solver.
  assert (Hfin : forall h1, (forall b, h1 !! b = <[y := set_previous 0 (mkNode x f (default 0 (list.head ps.*1)))]> h !! b) ->
    runs (free_node x ;;; ret y) h1 Q).
  { intros h1 Hh1. mstep.
    eapply free_node_runs; [done|by rewrite Hh1, lookup_insert_ne|]. mstep. apply K.
    constructor; cbn; [by rewrite lookup_delete_eq| |done|].
    - intros b Hb _ Hyb. rewrite lookup_delete_ne, Hh1, lookup_insert_ne by congruence. done.
    - intros b n [= <-] Hn. rewrite lookup_delete_ne, Hh1, lookup_insert_eq by done.
      rewrite Hny in Hn. by simplify_eq. }
  destruct ps as [|[z g] ps]; cbn; [apply runs_ret; by apply Hfin|].
  destruct (lrep_middle _ _ [(x, key); (y, f)] _ _ _ Hr) as (Hz & Hnz & Hzl & _).
  apply Z.eqb_neq in Hz as Hz'. rewrite Hz'. cbn. assert (Hyz : y <> z) by set_solver.
  eapply upd_node_runs; [done|by rewrite lookup_insert_ne|]. apply Hfin.
  intros b. destruct (decide (b = z)) as [->|Hb]; [|by rewrite lookup_insert_ne].
  rewrite lookup_insert_eq, lookup_insert_ne, Hnz by done. by rewrite set_previous_same.
Qed.

(** Deletion by key removes the first node holding it, or does nothing. *)
Lemma deleteNode_runs h head ps key :
  lrep h head ps ->
  runs (deleteNode head key) h (fun head' h' =>
    (key ∉ ps.*2 /\ head' = head /\ h' = h) \/
    exists l a r, ps = l ++ (a, key) :: r /\ key ∉ l.*2 /\ lrep h' head' (l ++ r) /\ unlinks l a r h h').
Proof.
  intros Hr. pose proof (lrep_head _ _ _ Hr) as Hhd. unfold deleteNode, list_fuel.
  destruct ps as [|[x e] ps]; cbn in Hhd; subst head.
  { cbn [Z.eqb]. mgo. left. split; [set_solver|done]. }
  destruct (lrep_middle _ _ [] _ _ _ Hr) as (Hx & Hnx & _). apply Z.eqb_neq in Hx as Hx'. rewrite Hx'.
  mgo. eapply rd_node_runs; [done..|]. mstep. cbn [data].
  destruct (Z.eqb_spec e key) as [->|Hne].
  - apply (deleteNode_head_runs h x key ps); [done|]. intros h' Hr' Hun.
    right. by exists [], x, ps; split_and!; [|set_solver|..].
  - mgo. eexists _, _. split; [apply (deleteNode_loop_eq _ _ [] _ _ _ _ _ Hr)|].
    { apply lrep_size in Hr. cbn in Hr. lia. }
    destruct (find_addr_split key ((x, e) :: ps)) as [[Hnin ->]|(l & a & r & E & Hl & ->)].
    + cbn [Z.eqb]. mgo. by left.
    + rewrite E in Hr |- *. destruct (lrep_middle _ _ _ _ _ _ Hr) as (Ha & Hna & _).
      apply Z.eqb_neq in Ha as Ha'. rewrite Ha'.
      eapply unlink_runs; [done|]. intros h1 H1 Hun. mstep.
      eapply free_node_runs; [done|by rewrite H1|]. mstep. right. exists l, a, r.
      split_and!; [done..| |done]. pose proof (unlinks_lrep _ _ _ _ _ _ _ Hr Hun) as Hr'.
      destruct l as [|[y f] l]; cbn in E; simplify_eq. done.
Qed.
End Specs.

(** ** [SimpleLinkedList] refines a list *)

Record srep (s : list_state) (ps : list (Z * Z)) : Prop := {
  srep_nodes : lrep (nodes s) (m_start s) ps;
  srep_count : m_count s = Z.of_nat (Datatypes.length ps);
  srep_bound : Z.of_nat (Datatypes.length ps) < UINT64_MAX
}.

Lemma onNodes_runs {A} (f : M store A) s (Q : A -> list_state -> Prop) :
  runs f (nodes s) (fun a h => Q a (set_nodes h s)) -> runs (onNodes f) s Q.
Proof.
  intros (a & h & Hf & HQ). exists a, (set_nodes h s). unfold onNodes. by rewrite Hf.
Qed.

(** The operations of the class and the list operations they implement. *)
Inductive list_op : Set :=
  | Insert (d : Z) | Remove (d : Z) | RemoveIndex (i : Z)
  | Get (i : Z) | GetNext (d : Z) | GetIndex (d : Z) | GetHead | RotateLeft.

Fixpoint remove_first (d : Z) (xs : list Z) : list Z :=
  match xs with [] => [] | x :: xs => if x =? d then xs else x :: remove_first d xs end.

Fixpoint index_of (d i : Z) (xs : list Z) : Z :=
  match xs with
  | [] => UINT64_MAX
  | x :: xs => if x =? d then i else index_of d (i + 1) xs
  end.

Fixpoint next_of (d : Z) (xs : list Z) : Z :=
  match xs with
  | [] => 0
  | x :: xs => if x =? d then default 0 (list.head xs) else next_of d xs
  end.

Definition rotate_left (xs : list Z) : list Z :=
  match xs with [] => [] | x :: xs => xs ++ [x] end.

Definition abstract_op (xs : list Z) (o : list_op) : list Z * Z :=
  match o with
  | Insert d => (xs ++ [d], 0)
  | Remove d => (remove_first d xs, 0)
  | RemoveIndex i => (remove_first (default 0 (xs !! Z.to_nat i)) xs, 0)
  | Get i => (xs, default 0 (xs !! Z.to_nat i))
  | GetNext d => (xs, next_of d xs)
  | GetIndex d => (xs, index_of d 0 xs)
  | GetHead => (xs, default 0 (list.head xs))
  | RotateLeft => (rotate_left xs, 0)
  end.

(** What the callers have to respect: removed objects are in the list, and the
    number of nodes stays representable. *)
Definition legal_op (xs : list Z) (o : list_op) : Prop :=
  match o with
  | Insert _ => Z.of_nat (Datatypes.length xs) + 1 < UINT64_MAX
  | Remove d => d ∈ xs
  | RemoveIndex i => 0 <= i < Z.of_nat (Datatypes.length xs)
  | Get i => 0 <= i
  | _ => True
  end.

Fixpoint abstract_ops (xs : list Z) (os : list list_op) : list Z * list Z :=
  match os with
  | [] => (xs, [])
  | o :: os => let (xs1, v) := abstract_op xs o in
               let (xs2, vs) := abstract_ops xs1 os in (xs2, v :: vs)
  end.

Fixpoint legal_ops (xs : list Z) (os : list list_op) : Prop :=
  match os with
  | [] => True
  | o :: os => legal_op xs o /\ legal_ops (fst (abstract_op xs o)) os
  end.

Section Simple.
Context `{NodeAllocator} `{!PlentifulAllocator} (vmm usePool : bool).

Definition run_op (o : list_op) : M list_state Z :=
  match o with
  | Insert d => insert vmm usePool d ;;; ret 0
  | Remove d => remove d ;;; ret 0
  | RemoveIndex i => remove_index i ;;; ret 0
  | Get i => get i
  | GetNext d => getNext d
  | GetIndex d => getIndex d
  | GetHead => getHead
  | RotateLeft => rotateLeft ;;; ret 0
  end.

Fixpoint run_ops (os : list list_op) : M list_state (list Z) :=
  match os with
  | [] => ret []
  | o :: os => let* v := run_op o in let* vs := run_ops os in ret (v :: vs)
  end.

Lemma insert_runs d s ps :
  srep s ps -> Z.of_nat (Datatypes.length ps) + 1 < UINT64_MAX ->
  runs (insert vmm usePool d) s (fun _ s' => exists a, srep s' (ps ++ [(a, d)])).
Proof.
  intros [Hr Hc Hb] Hlen. unfold insert, inc_count. mgo. apply onNodes_runs.
  eapply runs_mono; [by apply insertNode_runs|]. intros hd h (a & _ & _ & Hr' & _). mgo.
  exists a. constructor; cbn; [done|..]; rewrite length_app; cbn; [|lia].
  unfold UINT64_MAX in *. rewrite add64_small; lia.
Qed.

Lemma remove_first_app d l r : d ∉ l -> remove_first d (l ++ d :: r) = l ++ r.
Proof.
  induction l as [|x l IH]; cbn; intros Hd; [by rewrite Z.eqb_refl|].
  rewrite (proj2 (Z.eqb_neq x d)) by set_solver. by rewrite IH by set_solver.
Qed.

Lemma list_remove_runs d s ps :
  srep s ps -> d ∈ ps.*2 ->
  runs (remove d) s (fun _ s' => exists ps', srep s' ps' /\ ps'.*2 = remove_first d ps.*2).
Proof.
  intros [Hr Hc Hb] Hin. unfold remove, dec_count. mgo. apply onNodes_runs.
  eapply runs_mono; [by apply deleteNode_runs|].
  intros hd h [[Hnin _]|(l & a & r & -> & Hl & Hr' & _)]; [done|]. mgo.
  exists (l ++ r). split; [|by rewrite !fmap_app, fmap_cons; cbn; rewrite remove_first_app].
  rewrite length_app in Hc, Hb. cbn in Hc, Hb.
  constructor; cbn; [done|..]; rewrite length_app; unfold UINT64_MAX in *; [|lia].
  rewrite Hc, sub64_small; lia.
Qed.

Lemma get_loop_eq h head l r i :
  lrep h head (l ++ r) -> get_loop i (default 0 (list.head r.*1)) h = Ok (default 0 (r.*1 !! i), h).
Proof.
  revert l r. induction i as [|i IH]; intros l r Hr; cbn; [by destruct r|].
  destruct r as [|[a d] r]; cbn; [done|].
  destruct (lrep_middle _ _ _ _ _ _ Hr) as (Ha & _). apply Z.eqb_neq in Ha. rewrite Ha.
  unfold bind. rewrite (rd_node_at _ _ _ _ _ _ Hr). cbn. apply (IH (l ++ [(a, d)])).
  by rewrite <- app_assoc.
Qed.

Lemma get_runs i s ps :
  srep s ps -> 0 <= i ->
  runs (get i) s (fun v s' => v = default 0 (ps.*2 !! Z.to_nat i) /\ s' = s).
Proof.
  intros [Hr Hc Hb] Hi. unfold get. mgo. rewrite Hc. destruct s as [c st en h]. cbn in *.
  destruct (Z.leb_spec (Z.of_nat (Datatypes.length ps)) i) as [Hle|Hlt].
  { apply runs_ret. rewrite lookup_ge_None_2; [done|]. rewrite length_fmap. lia. }
  mgo. apply onNodes_runs. cbn. pose proof (lrep_head _ _ _ Hr) as ->.
  eexists _, _. split; [apply (get_loop_eq _ _ [] ps _ Hr)|]. cbn.
  destruct (ps !! Z.to_nat i) as [[a d]|] eqn:E; [|apply lookup_ge_None_1 in E; lia].
  rewrite !list_lookup_fmap, E. cbn. apply list_elem_of_split_length in E as (l & r & -> & _).
  destruct (lrep_middle _ _ _ _ _ _ Hr) as (Ha & Hn & _). apply Z.eqb_neq in Ha as Ha'. rewrite Ha'.
  mstep. apply onNodes_runs. eapply rd_node_runs; [done..|]. mstep. done.
Qed.

Lemma next_of_app d l r : d ∉ l -> next_of d (l ++ d :: r) = default 0 (list.head r).
Proof.
  induction l as [|x l IH]; cbn; intros Hd; [by rewrite Z.eqb_refl|].
  rewrite (proj2 (Z.eqb_neq x d)) by set_solver. by apply IH; set_solver.
Qed.

Lemma next_of_absent d xs : d ∉ xs -> next_of d xs = 0.
Proof.
  induction xs as [|x xs IH]; cbn; intros Hd; [done|].
  rewrite (proj2 (Z.eqb_neq x d)) by set_solver. by apply IH; set_solver.
Qed.

Lemma getNext_runs d s ps :
  srep s ps -> runs (getNext d) s (fun v s' => v = next_of d ps.*2 /\ s' = s).
Proof.
  intros [Hr Hc Hb]. unfold getNext, findNode, list_fuel. mgo. apply onNodes_runs. mgo.
  destruct s as [c st en h]. cbn [nodes m_start m_count] in *. pose proof (lrep_head _ _ _ Hr) as ->.
  eexists _, _. split; [apply (findNode_loop_eq _ _ [] ps _ _ Hr); apply lrep_size in Hr; lia|].
  destruct (find_addr_split d ps) as [[Hnin ->]|(l & a & r & -> & Hl & ->)].
  { cbn. mgo. by rewrite next_of_absent. }
  assert (E : next_of d (l ++ (a, d) :: r).*2 = default 0 (list.head r.*2)).
  { rewrite fmap_app, fmap_cons. by apply next_of_app. }
  rewrite E. clear E. destruct (lrep_middle _ _ _ _ _ _ Hr) as (Ha & Hn & _). apply Z.eqb_neq in Ha as Ha'. rewrite Ha'.
  mstep. apply onNodes_runs. eapply rd_node_runs; [done..|]. cbn [next].
  destruct r as [|[b e] r]; cbn; [by mgo|].
  rewrite (cons_middle (a, d)), app_assoc in Hr.
  destruct (lrep_middle _ _ _ _ _ _ Hr) as (Hb0 & Hnb & _). apply Z.eqb_neq in Hb0 as Hb0'. rewrite Hb0'.
  mstep. apply onNodes_runs. eapply rd_node_runs; [done..|]. by mstep.
Qed.

Lemma getIndex_loop_eq h head l r d i :
  lrep h head (l ++ r) -> 0 <= i -> i + Z.of_nat (Datatypes.length r) < W64 ->
  getIndex_loop (Datatypes.length r) i (default 0 (list.head r.*1)) d h = Ok (index_of d i r.*2, h).
Proof.
  revert l i. induction r as [|[a e] r IH]; intros l i Hr Hi Hb; cbn; [done|].
  destruct (lrep_middle _ _ _ _ _ _ Hr) as (Ha & _). apply Z.eqb_neq in Ha. rewrite Ha.
  unfold bind. rewrite (rd_node_at _ _ _ _ _ _ Hr). cbn in Hb |- *. destruct (e =? d); [done|].
  rewrite add64_small by lia. apply (IH (l ++ [(a, e)])); [by rewrite <- app_assoc|lia..].
Qed.

Lemma getIndex_runs d s ps :
  srep s ps -> runs (getIndex d) s (fun v s' => v = index_of d 0 ps.*2 /\ s' = s).
Proof.
  intros [Hr Hc Hb]. unfold getIndex. mgo. apply onNodes_runs. destruct s as [c st en h]. cbn in *.
  rewrite Hc, Nat2Z.id. pose proof (lrep_head _ _ _ Hr) as ->. unfold UINT64_MAX in Hb.
  eexists _, _. split; [apply (getIndex_loop_eq _ _ [] ps _ _ Hr); lia|]. by subst c.
Qed.

Lemma getHead_runs s ps :
  srep s ps -> runs getHead s (fun v s' => v = default 0 (list.head ps.*2) /\ s' = s).
Proof.
  intros [Hr Hc Hb]. unfold getHead. mgo. destruct s as [c st en h]. cbn in *.
  pose proof (lrep_head _ _ _ Hr) as ->. destruct ps as [|[a d] r]; cbn; [by mgo|].
  destruct (lrep_middle _ _ [] _ _ _ Hr) as (Ha & Hn & _). apply Z.eqb_neq in Ha as Ha'. rewrite Ha'.
  mstep. apply onNodes_runs. eapply rd_node_runs; [done..|]. by mstep.
Qed.

(** Rotation of a list of two or more nodes: the first node is unlinked and
    appended. *)
Lemma rotate_lrep h x e y f r q n :
  lrep h x ((x, e) :: (y, f) :: r) -> last ((y, f) :: r).*1 = Some q -> h !! q = Some n ->
  forall h', (forall b, h' !! b =
    if decide (b = x) then Some (mkNode q e 0)
    else if decide (b = y) then
      Some (mkNode 0 f (if decide (y = q) then x else default 0 (list.head r.*1)))
    else if decide (b = q) then Some (set_next x n) else h !! b) ->
  lrep h' y ((y, f) :: r ++ [(x, e)]).
Proof.
  intros Hr Hq Hn h' Hh'.
  destruct (lrep_middle _ _ [] _ _ _ Hr) as (Hx & Hnx & _ & Hxr).
  destruct (lrep_middle _ _ [(x, e)] _ _ _ Hr) as (Hy & Hny & _ & Hyr).
  set (g := base.delete x (<[y := mkNode 0 f (default 0 (list.head r.*1))]> h)).
  assert (Hg : lrep g y ((y, f) :: r)).
  { apply (unlinks_lrep [] x e ((y, f) :: r) h g x Hr).
    constructor; cbn; [by apply lookup_delete_eq| |done|].
    - intros b Hb _ Hb'. unfold g. by rewrite lookup_delete_ne, lookup_insert_ne by congruence.
    - intros b m [= <-] Hm. unfold g. rewrite lookup_delete_ne, lookup_insert_eq by set_solver.
      rewrite Hny in Hm. by simplify_eq. }
  apply (lrep_snoc g h' y ((y, f) :: r) x e Hg Hx Hxr).
  - rewrite Hh', decide_True by done. by rewrite Hq.
  - intros b m Hb Hm. rewrite Hq in Hb. injection Hb as ->. unfold g in Hm.
    apply lookup_delete_Some in Hm as [Hbx Hm]. rewrite Hh', decide_False by done.
    destruct (decide (b = y)) as [->|Hby].
    + rewrite lookup_insert_eq in Hm. simplify_eq. by rewrite decide_True.
    + rewrite lookup_insert_ne in Hm by done. rewrite decide_True by done. by simplify_eq.
  - intros b Hb Hbq. rewrite Hq in Hbq. assert (x <> b) by set_solver. unfold g.
    rewrite lookup_delete_ne by done. rewrite Hh', decide_False by done.
    destruct (decide (b = y)) as [->|Hby].
    + rewrite lookup_insert_eq, decide_False by congruence. done.
    + rewrite lookup_insert_ne, decide_False by congruence. done.
Qed.

(** The loop that finds the last node, as the rotations run it. *)
Lemma rotate_last_runs h x e y f r :
  lrep h x ((x, e) :: (y, f) :: r) ->
  exists q n, last ((y, f) :: r).*1 = Some q /\ q <> 0 /\ q <> x /\ h !! q = Some n /\ next n = 0 /\
    last_loop (S (size h)) x h = Ok (q, h).
Proof.
  intros Hr. destruct (last ((y, f) :: r).*1) as [q|] eqn:Hq; [|by apply last_None in Hq].
  pose proof (last_loop_eq _ _ [] _ _ _ (S (size h)) Hr) as Hl.
  destruct (lrep_middle _ _ [] _ _ _ Hr) as (Hx & Hnx & _ & Hxr).
  pose proof (last_Some_elem_of _ _ Hq) as Hin.
  apply last_Some in Hq as [l' Hl'].
  assert (exists l d, (y, f) :: r = l ++ [(q, d)]) as (l & d & E).
  { exists (take (Datatypes.length r) ((y, f) :: r)).
    destruct (last ((y, f) :: r)) as [[q' d]|] eqn:E; [|by apply last_None in E].
    apply last_Some in E as [l E]. rewrite E in Hl'. rewrite fmap_app in Hl'. cbn in Hl'.
    apply app_inj_tail in Hl' as [_ [= ->]]. exists d. rewrite E.
    assert (Datatypes.length r = Datatypes.length l) as ->.
    { apply (f_equal (@Datatypes.length _)) in E. rewrite length_app in E. cbn in E. lia. }
    by rewrite take_app_length. }
  assert (Hr' := Hr). rewrite E in Hr'. rewrite app_comm_cons in Hr'.
  destruct (lrep_middle _ _ _ _ _ _ Hr') as (Hq0 & Hnq & _).
  exists q, (mkNode (default 0 (last ((x, e) :: l).*1)) d 0). split_and!; [done|done|set_solver|done|done|].
  rewrite Hl; [|apply lrep_size in Hr; cbn in *; lia].
  rewrite E, fmap_app, last_app. done.
Qed.

Lemma rotateLeft_runs s ps :
  srep s ps -> runs rotateLeft s (fun _ s' => exists ps', srep s' ps' /\ ps'.*2 = rotate_left ps.*2).
Proof.
  intros [Hr Hc Hb]. unfold rotateLeft. mgo. destruct s as [c st en h].
  cbn [nodes m_start m_count] in *. subst c.
  destruct ps as [|[x e] [|[y f] r]].
  1,2: cbn; apply runs_ret; by eexists; split; [by split|].
  assert (st = x) as -> by (by apply lrep_head in Hr).
  destruct (rotate_last_runs _ _ _ _ _ _ Hr) as (q & n & Hq & Hq0 & Hqx & Hn & Hnn & Hl).
  destruct (lrep_middle _ _ [] _ _ _ Hr) as (Hx & Hnx & _ & Hxr).
  destruct (lrep_middle _ _ [(x, e)] _ _ _ Hr) as (Hy & Hny & _ & Hyr).
  assert (Hyx : y <> x) by set_solver.
  rewrite (proj2 (Z.ltb_ge _ _)) by (cbn; lia).
  mgo. { by apply negb_true_iff, Z.eqb_neq. }
  apply onNodes_runs. unfold list_fuel. mgo. apply onNodes_runs. eexists _, _. split; [exact Hl|].
  mgo. { by apply negb_true_iff, Z.eqb_neq. }
  apply onNodes_runs. eapply upd_node_runs; [done..|]. mgo.
  apply onNodes_runs. eapply upd_node_runs; [done|cbn; by rewrite lookup_insert_ne|]. mgo.
  apply onNodes_runs. eapply rd_node_runs; [done|cbn; by rewrite lookup_insert_eq|]. mgo.
  apply onNodes_runs. cbn [next set_previous]. change (default 0 (list.head ((y, f) :: r).*1)) with y.
  assert (Hy1 : exists m, <[x := set_previous q (mkNode (default 0 (last ([] : list (Z*Z)).*1)) e y)]>
      (<[q := set_next x n]> h) !! y = Some m /\ data m = f /\
      next m = if decide (y = q) then x else default 0 (list.head r.*1)).
  { rewrite lookup_insert_ne by done. destruct (decide (y = q)) as [->|Hyq].
    - rewrite lookup_insert_eq. eexists. split; [done|]. rewrite Hny in Hn. simplify_eq. done.
    - rewrite lookup_insert_ne by done. by eexists. }
  destruct Hy1 as (m & Hm & Hmd & Hmn).
  eapply upd_node_runs; [done|cbn; exact Hm|]. mgo. apply onNodes_runs.
  eapply (rd_node_runs q (if decide (y = q) then set_previous 0 m else set_next x n)); [done| |].
  { cbn. destruct (decide (y = q)) as [->|?]; [by rewrite lookup_insert_eq|].
    by rewrite lookup_insert_ne, lookup_insert_ne, lookup_insert_eq by done. }
  apply onNodes_runs.
  assert (E : next (if decide (y = q) then set_previous 0 m else set_next x n) = x).
  { destruct (decide (y = q)); [by cbn; rewrite Hmn|done]. }
  rewrite E. eapply upd_node_runs; [done|cbn; by rewrite lookup_insert_ne, lookup_insert_eq by done|].
  exists ((y, f) :: r ++ [(x, e)]). split; [|by cbn; rewrite fmap_app].
  constructor; cbn [nodes set_nodes m_start set_start m_count]; [|cbn; rewrite length_app; cbn; lia|
    cbn in Hb |- *; rewrite length_app; cbn; lia].
  eapply (rotate_lrep h x e y f r q n Hr Hq Hn). intros b. cbn.
  destruct (decide (b = x)) as [->|Hbx]; [by rewrite lookup_insert_eq|]. rewrite lookup_insert_ne by done.
  destruct (decide (b = y)) as [->|Hby].
  { rewrite lookup_insert_eq. destruct m; cbn in *; by simplify_eq. }
  rewrite !lookup_insert_ne by done. by destruct (decide (b = q)) as [->|?];
    [rewrite lookup_insert_eq|rewrite lookup_insert_ne].
Qed.

Lemma list_run_op_spec o s ps :
  srep s ps -> legal_op ps.*2 o ->
  runs (run_op o) s (fun v s' => v = snd (abstract_op ps.*2 o) /\
    exists ps', srep s' ps' /\ ps'.*2 = fst (abstract_op ps.*2 o)).
Proof.
  intros Hr Hleg. destruct o as [d|d|i|i|d|d| |]; cbn [run_op abstract_op legal_op fst snd] in *.
  - rewrite length_fmap in Hleg. mstep. eapply runs_mono; [by apply insert_runs|].
    intros _ s' [a Ha]. mstep. split; [done|]. eexists. split; [done|]. by rewrite fmap_app.
  - mstep. eapply runs_mono; [by apply list_remove_runs|]. intros [] s' H'. by mstep.
  - rewrite length_fmap in Hleg. mstep. unfold remove_index. mstep.
    eapply runs_mono; [apply (get_runs i _ _ Hr); lia|]. intros v s' [-> ->].
    eapply runs_mono; [apply (list_remove_runs _ _ _ Hr)|].
    { destruct (ps.*2 !! Z.to_nat i) as [v|] eqn:E; [by apply list_elem_of_lookup_2 in E|].
      apply lookup_ge_None_1 in E. rewrite length_fmap in E. lia. }
    intros [] s' H'. by mstep.
  - eapply runs_mono; [by apply get_runs|]. intros v s' [-> ->]. eauto.
  - eapply runs_mono; [by apply getNext_runs|]. intros v s' [-> ->]. eauto.
  - eapply runs_mono; [by apply getIndex_runs|]. intros v s' [-> ->]. eauto.
  - eapply runs_mono; [by apply getHead_runs|]. intros v s' [-> ->]. eauto.
  - mstep. eapply runs_mono; [by apply rotateLeft_runs|]. intros [] s' H'. by mstep.
Qed.

(** [SimpleLinkedList] refines a list: any sequence of [insert], [remove],
    [get], [getNext], [getIndex], [getHead] and [rotateLeft] in which removed
    objects are present returns what the list operations return, never touches
    an invalid node, and leaves nodes holding the abstract list. *)
Theorem SimpleLinkedList_refines (os : list list_op) (s : list_state) (ps : list (Z * Z)) :
  srep s ps -> legal_ops ps.*2 os ->
  runs (run_ops os) s (fun vs s' => vs = snd (abstract_ops ps.*2 os) /\
    exists ps', srep s' ps' /\ ps'.*2 = fst (abstract_ops ps.*2 os)).
Proof.
  revert s ps. induction os as [|o os IH]; intros s ps Hr Hleg; cbn in *.
  { apply runs_ret. eauto. }
  destruct Hleg as [Ho Hos]. mstep. eapply runs_mono; [by apply list_run_op_spec|].
  intros v s' (-> & ps' & Hr' & E). rewrite <- E in Hos. mstep.
  eapply runs_mono; [by apply (IH _ _ Hr')|]. intros vs s'' (-> & ps'' & Hr'' & E''). mstep.
  destruct (abstract_op ps.*2 o) as [xs1 v]. cbn in *. subst xs1.
  destruct (abstract_ops ps'.*2 os). cbn in *. eauto.
Qed.

(** Every node of a set has a successor in it: following [next] never ends. *)
Lemma length_loop_cycle (h : store) (xs : list Z) fuel a c :
  (forall b, b ∈ xs -> b <> 0 /\ exists n, h !! b = Some n /\ next n ∈ xs) ->
  a ∈ xs -> length_loop fuel a c h = Fail OutOfFuel.
Proof.
  intros Hx. revert a c. induction fuel as [|fuel IH]; intros a c Ha; [done|].
  destruct (Hx a Ha) as (Ha0 & n & Hn & Hin). destruct (Hx _ Hin) as [Hn0 _].
  cbn. unfold bind, rd_node, gets, bind, ret.
  apply Z.eqb_neq in Ha0, Hn0. rewrite Ha0, Hn, Hn0. by apply IH.
Qed.

(** [rotateRight] does not clear the [next] pointer of the node that becomes
    last: on any list of two or more nodes it leaves a cycle, and [length] (like
    every other traversal to the end) does not terminate afterwards. *)
Theorem rotateRight_makes_cycle (s : list_state) (ps : list (Z * Z)) :
  srep s ps -> (2 <= Datatypes.length ps)%nat ->
  runs rotateRight s (fun _ s' =>
    m_start s' <> 0 /\ forall fuel, length_loop fuel (m_start s') 0 (nodes s') = Fail OutOfFuel).
Proof.
  intros [Hr Hc Hb] Hlen. destruct ps as [|[x e] [|[y f] r]]; cbn in Hlen; [lia..|].
  unfold rotateRight. mgo. destruct s as [c st en h]. cbn [nodes m_start m_count] in *. subst c.
  assert (st = x) as -> by (by apply lrep_head in Hr).
  destruct (rotate_last_runs _ _ _ _ _ _ Hr) as (q & n & Hq & Hq0 & Hqx & Hn & Hnn & Hl).
  destruct (lrep_middle _ _ [] _ _ _ Hr) as (Hx & Hnx & _ & Hxr).
  rewrite (proj2 (Z.ltb_ge _ _)) by (cbn; lia).
  mgo. { by apply negb_true_iff, Z.eqb_neq. }
  apply onNodes_runs. unfold list_fuel. mgo. apply onNodes_runs. eexists _, _. split; [exact Hl|].
  mgo. { by apply negb_true_iff, Z.eqb_neq. }
  apply onNodes_runs. eapply upd_node_runs; [done..|]. mgo.
  apply onNodes_runs. eapply upd_node_runs; [done|cbn; by rewrite lookup_insert_ne|]. mgo.
  apply onNodes_runs. eapply upd_node_runs; [done|cbn; by rewrite lookup_insert_eq|]. mgo.
  split; [done|]. intros fuel. cbn. apply (length_loop_cycle _ ((x, e) :: (y, f) :: r).*1).
  2: { apply last_Some_elem_of in Hq. set_solver. }
  intros b Hb'. destruct (lrep_elem _ _ _ _ Hr Hb') as [Hb0 _]. split; [done|].
  destruct (decide (b = q)) as [->|Hbq].
  { rewrite lookup_insert_eq. eexists. split; [done|]. cbn. set_solver. }
  rewrite !(lookup_insert_ne _ q) by done.
  apply list_elem_of_fmap in Hb' as ([b' d] & -> & Hin). cbn in *.
  apply list_elem_of_split in Hin as (l & r' & E). rewrite E in Hr.
  destruct (lrep_middle _ _ _ _ _ _ Hr) as (_ & Hnb & _).
  assert (Hin' : default 0 (list.head r'.*1) ∈ ((x, e) :: (y, f) :: r).*1).
  { rewrite E, fmap_app, fmap_cons. destruct r' as [|[z g] r']; cbn; [|set_solver].
    exfalso. apply (f_equal (fun l => last l.*1)) in E. rewrite fmap_app, last_app in E. cbn in E.
    assert (Some q = Some b') by (by rewrite <- Hq). congruence. }
  destruct (decide (b' = x)) as [->|Hbx].
  - rewrite lookup_insert_eq. eexists. split; [done|]. cbn. rewrite Hnx in Hnb. by simplify_eq.
  - rewrite lookup_insert_ne by done. by exists (mkNode (default 0 (last l.*1)) d (default 0 (list.head r'.*1))).
Qed.

(** [RearInsertLinkedList::remove] does not maintain [m_end]: removing the
    last object leaves [m_end] pointing to the freed node, and the next [insert]
    writes through it (unless the allocator hands out that very node). *)
Theorem Rear_remove_leaves_dangling_end (s : list_state) l a d obj :
  srep s (l ++ [(a, d)]) -> m_end s = a -> l <> [] -> d ∉ l.*2 ->
  runs (remove d) s (fun _ s' => srep s' l /\ m_end s' = a /\ nodes s' !! a = None /\
    (fresh_node vmm usePool (nodes s') <> a ->
     Rear_insert vmm usePool obj s' = Fail InvalidAccess)).
Proof.
  intros [Hr Hc Hb] Hend Hl Hd. destruct (lrep_middle _ _ _ _ _ _ Hr) as (Ha & _).
  unfold remove, dec_count. mgo. apply onNodes_runs.
  eapply runs_mono; [by apply deleteNode_runs|].
  intros hd h [[Hnin _]|(l' & a' & r & E & Hl' & Hr' & Hun)].
  { exfalso. apply Hnin. rewrite fmap_app. set_solver. }
  assert (l' = l /\ a' = a /\ r = []) as (-> & -> & ->).
  { clear -E Hl' Hd. revert l' E Hl'. induction l as [|[y f] l IH]; intros [|[x e] l'] E Hl'; cbn in *; simplify_eq.
    - done.
    - by destruct l'.
    - set_solver.
    - destruct (IH ltac:(set_solver) l') as (-> & -> & ->); [done|set_solver|done]. }
  rewrite app_nil_r in Hr'. rewrite length_app in Hc, Hb. cbn in Hc, Hb. mgo. unfold UINT64_MAX in *.
  assert (Hcount : sub64 (m_count s) 1 = Z.of_nat (Datatypes.length l)).
  { rewrite Hc, sub64_small; lia. }
  split_and!; [constructor; cbn; [done|done|unfold UINT64_MAX; lia]|done|apply (un_self _ _ _ _ _ Hun)|].
  intros Hfresh. cbn in Hfresh. unfold Rear_insert, newNode, onNodes, bind, gets, ret, modify. cbn.
  pose proof (fresh_node_nonnull vmm usePool h) as Hf0. apply Z.eqb_neq in Hf0. rewrite Hf0. cbn.
  rewrite Hcount. destruct l as [|p l]; [done|].
  rewrite (proj2 (Z.eqb_neq _ _)) by (cbn; lia). cbn. rewrite Hend.
  unfold wr_next, upd_node, rd_node, bind, gets. apply Z.eqb_neq in Ha. rewrite Ha.
  rewrite lookup_insert_ne by done. by rewrite (un_self _ _ _ _ _ Hun).
Qed.
End Simple.

(** *** Instances at concrete lists *)

#[local] Instance example_allocator : NodeAllocator.
Proof.
  refine {| fresh_node := fun _ _ h => fresh ({[ 0 ]} ∪ dom h) |}.
  intros _ _ h _. apply not_elem_of_dom. pose proof (is_fresh ({[0]} ∪ dom h)). set_solver.
Defined.

#[local] Instance example_plentiful : PlentifulAllocator.
Proof. intros vmm pool h. cbn. pose proof (is_fresh ({[0]} ∪ dom h)). set_solver. Qed.

Definition example_store : store :=
  {[ 16 := mkNode 0 7 32; 32 := mkNode 16 8 48; 48 := mkNode 32 9 0 ]}.
Definition example_state : list_state := mkList 3 16 48 example_store.
Definition example_nodes : list (Z * Z) := [(16, 7); (32, 8); (48, 9)].

Lemma example_srep : srep example_state example_nodes.
Proof.
  constructor; [constructor|done..].
  - split; [|by repeat constructor; set_solver]. vm_compute. repeat split; try done.
    all: repeat (eexists; split; [done|]; split_and!; try done).
  - intros a d Hin. unfold example_nodes in Hin. rewrite !elem_of_cons in Hin.
    destruct Hin as [E|[E|[E|E]]]; [simplify_eq; by vm_compute..|by apply not_elem_of_nil in E].
Qed.

Lemma SimpleLinkedList_refines_witness :
  runs (run_ops false false [Get 1; Remove 8; Insert 5; GetIndex 5; RotateLeft; GetHead]) example_state
    (fun vs s' => vs = [8; 0; 0; 2; 0; 9] /\ exists ps, srep s' ps /\ ps.*2 = [9; 5; 7]).
Proof.
  apply (SimpleLinkedList_refines false false
    [Get 1; Remove 8; Insert 5; GetIndex 5; RotateLeft; GetHead] example_state example_nodes example_srep).
  cbn. unfold UINT64_MAX. split_and!; try done; try lia. set_solver.
Defined.

Lemma rotateRight_makes_cycle_witness :
  runs rotateRight example_state (fun _ s' =>
    m_start s' <> 0 /\ forall fuel, length_loop fuel (m_start s') 0 (nodes s') = Fail OutOfFuel).
Proof. apply (rotateRight_makes_cycle example_state example_nodes example_srep). cbn. lia. Defined.

Lemma Rear_remove_leaves_dangling_end_witness :
  runs (remove 9) example_state (fun _ s' => m_end s' = 48 /\ nodes s' !! 48 = None).
Proof.
  eapply runs_mono.
  - apply (Rear_remove_leaves_dangling_end false false example_state [(16, 7); (32, 8)] 48 9 5 example_srep);
      [done|done|cbn; set_solver].
  - intros [] s' (_ & ? & ? & _). done.
Defined.

End LinkedList.
