(* ===== verification/AVLTree.v ===== *)
(** * AVLTree.v: ordered maps (src/kernel/lib/include/DataStructures/AVLTree.hpp)

    The class [wAVLTree] wraps the tree macros of tree.h ([RB_INSERT],
    [RB_REMOVE], [RB_FIND], [RB_NFIND], [RB_MIN], [RB_MAX], [RB_NEXT],
    [RB_PREV]), whose results depend only on the in-order sequence of the nodes.
    Here, and in the components that use the class, a tree is its in-order sequence
    of (key, value) pairs, and the macros are given on it; WAVL.v models the macros
    themselves, with the shape and the balancing of the tree, and WAVLSpec.v shows that
    they do what is given here. Nodes come from [kcalloc], which is taken to succeed. *)

From S2P Require Import Prelude.

#[local] Open Scope Z_scope.
#[local] Open Scope kernel_scope.

Module AVLTree.

(** The in-order sequence of the nodes. *)
Notation tree V := (list (Z * V)).

(** A pointer to a [wAVLTreeNode]. Keys are unique in a tree, so a node that is
    in the tree is identified by its key; [RB_INSERT] of a key that is already
    present leaves the new node outside the tree, and [Insert] returns it. *)
Inductive noderef (V : Type) : Type :=
  | Linked (key : Z)
  | Detached (key : Z) (value : V).
Arguments Linked {V} key.
Arguments Detached {V} key value.

Section Tree.
Context {V : Type}.
Implicit Types (t : tree V) (k : Z) (v : V).

(** ** The macros of tree.h on in-order sequences *)

Fixpoint RB_FIND k t : option V :=
  match t with
  | [] => None
  | (k', v) :: t' => if k =? k' then Some v else RB_FIND k t'
  end.

(** Least node that is not less than the key. *)
Fixpoint RB_NFIND k t : option (Z * V) :=
  match t with
  | [] => None
  | (k', v) :: t' => if k <=? k' then Some (k', v) else RB_NFIND k t'
  end.

Definition RB_MIN t : option (Z * V) := head t.
Definition RB_MAX t : option (Z * V) := last t.

Fixpoint RB_NEXT k t : option (Z * V) :=
  match t with
  | [] => None
  | (k', v) :: t' => if k <? k' then Some (k', v) else RB_NEXT k t'
  end.

Fixpoint RB_PREV k t : option (Z * V) :=
  match t with
  | [] => None
  | (k', v) :: t' =>
      if k' <? k then
        match RB_PREV k t' with Some p => Some p | None => Some (k', v) end
      else None
  end.

(** No change when the key is present. *)
Fixpoint RB_INSERT k v t : tree V :=
  match t with
  | [] => [(k, v)]
  | (k', v') :: t' =>
      if k <? k' then (k, v) :: t
      else if k =? k' then t
      else (k', v') :: RB_INSERT k v t'
  end.

Fixpoint RB_REMOVE k t : tree V :=
  match t with
  | [] => []
  | (k', v) :: t' => if k =? k' then t' else (k', v) :: RB_REMOVE k t'
  end.

(** Assignment to the value of a node of the tree. *)
Fixpoint set_value k v t : tree V :=
  match t with
  | [] => []
  | (k', v') :: t' => if k =? k' then (k, v) :: t' else (k', v') :: set_value k v t'
  end.

(** ** The class [wAVLTree] *)

Definition Insert k v t : noderef V * tree V :=
  match RB_FIND k t with
  | Some _ => (Detached k v, t)
  | None => (Linked k, RB_INSERT k v t)
  end.

Definition Remove k t : tree V :=
  match RB_FIND k t with Some _ => RB_REMOVE k t | None => t end.

Definition FindNode k t : option (Z * V) := (fun v => (k, v)) <$> RB_FIND k t.
Definition Find k t : option V := RB_FIND k t.
Definition FindNodeOrHigher k t : option (Z * V) := RB_NFIND k t.
Definition FindNodeOrLower k t : option (Z * V) :=
  match RB_NFIND k t with
  | None => RB_MAX t
  | Some (k', v) => if k <? k' then RB_PREV k' t else Some (k', v)
  end.
Definition PreviousNode k t : option (Z * V) := RB_PREV k t.
Definition NextNode k t : option (Z * V) := RB_NEXT k t.

(** [forEach] with a callback that always continues. *)
Definition forEach {A} (callback : Z -> V -> A -> A) t (a : A) : A :=
  fold_left (fun a '(k, v) => callback k v a) t a.

(** [forEach] with a callback that may stop: [i] only advances while it differs
    from [startingIndex], so the first [startingIndex] nodes are skipped. *)
Fixpoint forEachUntil {A} (callback : Z -> V -> A -> bool * A) (startingIndex i : Z) t (a : A) : A :=
  match t with
  | [] => a
  | (k, v) :: t' =>
      if negb (i =? startingIndex) then forEachUntil callback startingIndex (add64 i 1) t' a
      else let (go, a) := callback k v a in
           if go then forEachUntil callback startingIndex i t' a else a
  end.

(** [Clear] removes the least node until there is none; [fuel] bounds the
    number of nodes. *)
Fixpoint Clear_loop (fuel : nat) (node : option (Z * V)) t : tree V :=
  match fuel, node with
  | S f, Some (k, _) => Clear_loop f (RB_NEXT k t) (RB_REMOVE k t)
  | _, _ => t
  end.
Definition Clear t : tree V := Clear_loop (length t) (RB_MIN t) t.

Definition isEmpty t : bool := match t with [] => true | _ => false end.

(** ** Ordered trees *)

(** Keys increase strictly. *)
Fixpoint sorted t : Prop :=
  match t with
  | [] => True
  | (k, _) :: t' => (forall k' v', (k', v') ∈ t' -> k < k') /\ sorted t'
  end.

(** Bounds on the keys of a part of a tree. *)
Definition below t k : Prop := forall k' v', (k', v') ∈ t -> k' < k.
Definition above k t : Prop := forall k' v', (k', v') ∈ t -> k < k'.

Lemma sorted_app l r : sorted (l ++ r) <->
  sorted l /\ sorted r /\ forall k v k' v', (k, v) ∈ l -> (k', v') ∈ r -> k < k'.
Proof.
  induction l as [|[k v] l IH]; cbn.
  { split; [|tauto]. intros ?. split_and!; [done|done|].
    intros ?????%not_elem_of_nil. done. }
  rewrite IH. split.
  - intros (Hk & Hl & Hr & Hlr). split_and!; [set_solver|done..|].
    intros k1 v1 k2 v2 [[= -> ->]|H1]%elem_of_cons H2; [|by eauto].
    apply (Hk k2 v2). set_solver.
  - intros ([Hk Hl] & Hr & Hlr). split_and!; [|done..|].
    + intros k' v' [?|?]%elem_of_app; [by eauto|]. eapply (Hlr k v); [set_solver|done].
    + intros k1 v1 k2 v2 H1 H2. apply (Hlr k1 v1 k2 v2); [set_solver|done].
Qed.

Lemma sorted_middle l k v r : sorted (l ++ (k, v) :: r) <->
  sorted l /\ sorted r /\ below l k /\ above k r.
Proof.
  rewrite sorted_app. cbn. unfold below, above. split.
  - intros (Hl & [Hr1 Hr2] & Hlr). split_and!; [done..| |done].
    intros k' v' Hin. apply (Hlr k' v' k v); [done|]. set_solver.
  - intros (Hl & Hr & Hb & Ha). split_and!; [done..|].
    intros k1 v1 k2 v2 H1 [[= -> ->]|H2]%elem_of_cons; [by eauto|].
    specialize (Hb _ _ H1). specialize (Ha _ _ H2). lia.
Qed.

Lemma below_app l r k : below (l ++ r) k <-> below l k /\ below r k.
Proof. unfold below. set_solver. Qed.
Lemma above_app l r k : above k (l ++ r) <-> above k l /\ above k r.
Proof. unfold above. set_solver. Qed.

Lemma RB_FIND_below l r k : below l k -> RB_FIND k (l ++ r) = RB_FIND k r.
Proof.
  induction l as [|[k' v'] l IH]; intros Hb; cbn; [done|].
  specialize (Hb k' v' ltac:(set_solver)) as Hk. rewrite (proj2 (Z.eqb_neq _ _)) by lia.
  apply IH. intros k2 v2 ?. apply (Hb k2 v2). set_solver.
Qed.

Lemma RB_FIND_above r k : above k r -> RB_FIND k r = None.
Proof.
  induction r as [|[k' v'] r IH]; intros Ha; cbn; [done|].
  specialize (Ha k' v' ltac:(set_solver)) as Hk. rewrite (proj2 (Z.eqb_neq _ _)) by lia.
  apply IH. intros k2 v2 ?. apply (Ha k2 v2). set_solver.
Qed.

Lemma RB_FIND_middle l k v r : below l k -> RB_FIND k (l ++ (k, v) :: r) = Some v.
Proof. intros Hb. rewrite RB_FIND_below by done. cbn. by rewrite Z.eqb_refl. Qed.

Lemma set_value_middle l k v v' r : below l k -> set_value k v' (l ++ (k, v) :: r) = l ++ (k, v') :: r.
Proof.
  induction l as [|[k1 v1] l IH]; intros Hb; cbn; [by rewrite Z.eqb_refl|].
  specialize (Hb k1 v1 ltac:(set_solver)) as Hk. rewrite (proj2 (Z.eqb_neq _ _)) by lia.
  f_equal. apply IH. intros k2 v2 ?. apply (Hb k2 v2). set_solver.
Qed.

Lemma RB_REMOVE_middle l k v r : below l k -> RB_REMOVE k (l ++ (k, v) :: r) = l ++ r.
Proof.
  induction l as [|[k1 v1] l IH]; intros Hb; cbn; [by rewrite Z.eqb_refl|].
  specialize (Hb k1 v1 ltac:(set_solver)) as Hk. rewrite (proj2 (Z.eqb_neq _ _)) by lia.
  f_equal. apply IH. intros k2 v2 ?. apply (Hb k2 v2). set_solver.
Qed.

Lemma RB_INSERT_middle l k v r : below l k -> above k r -> RB_INSERT k v (l ++ r) = l ++ (k, v) :: r.
Proof.
  induction l as [|[k1 v1] l IH]; intros Hb Ha; cbn.
  - destruct r as [|[k1 v1] r]; cbn; [done|].
    specialize (Ha k1 v1 ltac:(set_solver)). by rewrite (proj2 (Z.ltb_lt _ _)) by lia.
  - specialize (Hb k1 v1 ltac:(set_solver)) as Hk.
    rewrite (proj2 (Z.ltb_ge _ _)), (proj2 (Z.eqb_neq _ _)) by lia.
    f_equal. apply IH; [|done]. intros k2 v2 ?. apply (Hb k2 v2). set_solver.
Qed.

Lemma Insert_middle l k v r : below l k -> above k r ->
  Insert k v (l ++ r) = (Linked k, l ++ (k, v) :: r).
Proof.
  intros Hb Ha. unfold Insert. rewrite RB_FIND_below, RB_FIND_above by done.
  by rewrite RB_INSERT_middle.
Qed.

Lemma RB_NFIND_below l r k : below l k -> RB_NFIND k (l ++ r) = RB_NFIND k r.
Proof.
  induction l as [|[k1 v1] l IH]; intros Hb; cbn; [done|].
  specialize (Hb k1 v1 ltac:(set_solver)) as Hk. rewrite (proj2 (Z.leb_gt _ _)) by lia.
  apply IH. intros k2 v2 ?. apply (Hb k2 v2). set_solver.
Qed.

Lemma RB_NFIND_above k r : above k r -> RB_NFIND k r = head r.
Proof.
  destruct r as [|[k1 v1] r]; intros Ha; cbn; [done|].
  specialize (Ha k1 v1 ltac:(set_solver)). by rewrite (proj2 (Z.leb_le _ _)) by lia.
Qed.

Lemma RB_PREV_middle l k v r : below l k -> RB_PREV k (l ++ (k, v) :: r) = last l.
Proof.
  induction l as [|[k1 v1] l IH]; intros Hb; cbn [app RB_PREV]; [by rewrite Z.ltb_irrefl|].
  specialize (Hb k1 v1 ltac:(set_solver)) as Hk. rewrite (proj2 (Z.ltb_lt _ _)) by lia.
  rewrite IH by (intros k2 v2 ?; apply (Hb k2 v2); set_solver). rewrite last_cons. by destruct (last l).
Qed.

Lemma RB_NEXT_middle l k v r : below l k -> above k r -> RB_NEXT k (l ++ (k, v) :: r) = head r.
Proof.
  induction l as [|[k1 v1] l IH]; intros Hb Ha; cbn [app RB_NEXT].
  - rewrite Z.ltb_irrefl. destruct r as [|[k1 v1] r]; cbn; [done|].
    specialize (Ha k1 v1 ltac:(set_solver)). by rewrite (proj2 (Z.ltb_lt _ _)) by lia.
  - specialize (Hb k1 v1 ltac:(set_solver)) as Hk. rewrite (proj2 (Z.ltb_ge _ _)) by lia.
    apply IH; [|done]. intros k2 v2 ?. apply (Hb k2 v2). set_solver.
Qed.

(** ** The tree as a map *)

Lemma RB_FIND_elem k v t : RB_FIND k t = Some v -> (k, v) ∈ t.
Proof.
  induction t as [|[k' v'] t IH]; cbn; [done|].
  destruct (Z.eqb_spec k k') as [->|?]; [intros [= ->]; set_solver|]. intros ?%IH. set_solver.
Qed.

Lemma RB_FIND_split k v t : sorted t -> RB_FIND k t = Some v ->
  exists l r, t = l ++ (k, v) :: r /\ below l k /\ above k r.
Proof.
  intros Hs Hf. apply RB_FIND_elem, list_elem_of_split in Hf as (l & r & ->).
  apply sorted_middle in Hs as (_ & _ & ? & ?). eauto.
Qed.

Lemma RB_FIND_Some k v t : sorted t -> RB_FIND k t = Some v <-> (k, v) ∈ t.
Proof.
  intros Hs. split; [apply RB_FIND_elem|]. intros (l & r & ->)%list_elem_of_split.
  apply RB_FIND_middle. by apply sorted_middle in Hs as (_ & _ & ? & _).
Qed.

Lemma RB_FIND_INSERT k v k' t : sorted t ->
  RB_FIND k' (RB_INSERT k v t) =
  if k' =? k then Some (default v (RB_FIND k t)) else RB_FIND k' t.
Proof.
  induction t as [|[k1 v1] t IH]; cbn; intros Hs; [by destruct (k' =? k)|].
  destruct Hs as [Hk Hs]. destruct (Z.ltb_spec k k1).
  - cbn. destruct (Z.eqb_spec k' k); [|done].
    rewrite (proj2 (Z.eqb_neq _ _)), RB_FIND_above; [done| |lia].
    intros k2 v2 Hin. specialize (Hk _ _ Hin). lia.
  - destruct (Z.eqb_spec k k1) as [->|Hne]; cbn.
    + destruct (k' =? k1); done.
    + rewrite IH by done. destruct (Z.eqb_spec k' k1), (Z.eqb_spec k' k); try done. lia.
Qed.

Lemma elem_INSERT k v k' v' t : (k', v') ∈ RB_INSERT k v t -> (k', v') = (k, v) \/ (k', v') ∈ t.
Proof.
  induction t as [|[k1 v1] t IH]; cbn; [set_solver|].
  destruct (k <? k1); [set_solver|]. destruct (k =? k1); [set_solver|].
  intros [?|?%IH]%elem_of_cons; set_solver.
Qed.

Lemma sorted_INSERT k v t : sorted t -> sorted (RB_INSERT k v t).
Proof.
  induction t as [|[k1 v1] t IH]; cbn; intros Hs.
  { split; [|done]. intros ??. by intros ?%not_elem_of_nil. }
  destruct Hs as [Hk Hs]. destruct (Z.ltb_spec k k1) as [Hlt|?].
  - cbn. split; [|done]. intros k2 v2 [[= -> ->]|Hin]%elem_of_cons; [done|]. specialize (Hk _ _ Hin). lia.
  - destruct (Z.eqb_spec k k1); cbn; [done|]. split; [|by apply IH].
    intros k2 v2 [[= -> ->]|Hin]%elem_INSERT; [lia|]. by eapply Hk.
Qed.

Lemma elem_REMOVE k k' v' t : (k', v') ∈ RB_REMOVE k t -> (k', v') ∈ t.
Proof.
  induction t as [|[k1 v1] t IH]; cbn; [done|]. destruct (k =? k1); [set_solver|].
  intros [?|?%IH]%elem_of_cons; set_solver.
Qed.

Lemma sorted_REMOVE k t : sorted t -> sorted (RB_REMOVE k t).
Proof.
  induction t as [|[k1 v1] t IH]; cbn; [done|]. intros [Hk Hs].
  destruct (k =? k1); [done|]. cbn. split; [|by apply IH].
  intros k2 v2 Hin%elem_REMOVE. by eapply Hk.
Qed.

Lemma RB_FIND_REMOVE k k' t : sorted t ->
  RB_FIND k' (RB_REMOVE k t) = if k' =? k then None else RB_FIND k' t.
Proof.
  induction t as [|[k1 v1] t IH]; cbn; [by destruct (k' =? k)|]. intros [Hk Hs].
  destruct (Z.eqb_spec k k1) as [->|Hne]; cbn.
  - destruct (Z.eqb_spec k' k1) as [->|?]; [|done]. apply RB_FIND_above. intros ???. by eapply Hk.
  - rewrite IH by done. destruct (Z.eqb_spec k' k1), (Z.eqb_spec k' k); try done. lia.
Qed.

Lemma keys_set_value k v t : (set_value k v t).*1 = t.*1.
Proof.
  induction t as [|[k1 v1] t IH]; cbn; [done|]. destruct (Z.eqb_spec k k1) as [->|?]; [done|].
  cbn. by f_equal.
Qed.

Lemma sorted_keys t (t' : tree V) : t.*1 = t'.*1 -> sorted t -> sorted t'.
Proof.
  revert t'. induction t as [|[k v] t IH]; intros [|[k' v'] t']; cbn; intros E; simplify_eq; [done|].
  intros [Hk Hs]. split; [|by apply IH]. intros k2 v2 Hin.
  assert (k2 ∈ t.*1) as ([k3 v3] & -> & Hin')%list_elem_of_fmap.
  { match goal with H : t.*1 = _ |- _ => rewrite H end. apply list_elem_of_fmap. by exists (k2, v2). }
  by eapply Hk.
Qed.

Lemma sorted_set_value k v t : sorted t -> sorted (set_value k v t).
Proof. apply sorted_keys. by rewrite keys_set_value. Qed.

Lemma RB_FIND_set_value k v k' t :
  RB_FIND k' (set_value k v t) = if k' =? k then (fun _ => v) <$> RB_FIND k t else RB_FIND k' t.
Proof.
  induction t as [|[k1 v1] t IH]; cbn; [by destruct (k' =? k)|].
  destruct (Z.eqb_spec k k1) as [->|Hne]; cbn; [by destruct (k' =? k1)|].
  rewrite IH. destruct (Z.eqb_spec k' k1), (Z.eqb_spec k' k); try done. lia.
Qed.

(** [RB_NFIND] finds the least key that is large enough. *)
Lemma RB_NFIND_spec k t : sorted t ->
  match RB_NFIND k t with
  | Some (k', v) => RB_FIND k' t = Some v /\ k <= k' /\ forall k2, k <= k2 < k' -> RB_FIND k2 t = None
  | None => forall k2, k <= k2 -> RB_FIND k2 t = None
  end.
Proof.
  induction t as [|[k1 v1] t IH]; cbn; [done|]. intros [Hk Hs].
  destruct (Z.leb_spec k k1) as [Hle|Hlt].
  - rewrite Z.eqb_refl. split_and!; [done..|]. intros k2 Hk2.
    rewrite (proj2 (Z.eqb_neq _ _)), RB_FIND_above; [done| |lia].
    intros k3 v3 Hin. specialize (Hk _ _ Hin). lia.
  - specialize (IH Hs). destruct (RB_NFIND k t) as [[k' v]|].
    + destruct IH as (Hf & Hle & Hnone). rewrite (proj2 (Z.eqb_neq _ _)) by lia.
      split_and!; [done..|]. intros k2 Hk2. rewrite (proj2 (Z.eqb_neq _ _)) by lia. by apply Hnone.
    + intros k2 Hk2. rewrite (proj2 (Z.eqb_neq _ _)) by lia. by apply IH.
Qed.

Lemma FindNodeOrLower_middle l k v r p :
  sorted (l ++ (k, v) :: r) -> k <= p -> above p r ->
  FindNodeOrLower p (l ++ (k, v) :: r) = Some (k, v).
Proof.
  intros (Hl & Hr & Hb & Ha)%sorted_middle Hkp Har. unfold FindNodeOrLower.
  rewrite RB_NFIND_below by (intros ?? Hin; specialize (Hb _ _ Hin); lia). cbn.
  destruct (Z.leb_spec p k) as [Hle|Hlt].
  { by rewrite (proj2 (Z.ltb_ge _ _)) by lia. }
  rewrite RB_NFIND_above by done. destruct r as [|[k1 v1] r]; cbn.
  - unfold RB_MAX. by rewrite last_app.
  - specialize (Har k1 v1 ltac:(set_solver)). rewrite (proj2 (Z.ltb_lt _ _)) by lia.
    rewrite (cons_middle (k, v)), app_assoc, RB_PREV_middle; [by rewrite last_app|].
    apply below_app. split; [intros ?? Hin; specialize (Hb _ _ Hin); lia|].
    intros k2 v2 [= -> ->]%list_elem_of_singleton. lia.
Qed.

Lemma FindNodeOrLower_below p t : above p t -> FindNodeOrLower p t = None.
Proof.
  intros Ha. unfold FindNodeOrLower. rewrite RB_NFIND_above by done.
  destruct t as [|[k v] t]; [done|]. cbn. specialize (Ha k v ltac:(set_solver)) as Hk.
  rewrite (proj2 (Z.ltb_lt _ _)) by lia. by rewrite Z.ltb_irrefl.
Qed.

(** A sorted tree cut at a key. *)
Lemma cut t p : sorted t ->
  above p t \/ exists l k v r, t = l ++ (k, v) :: r /\ k <= p /\ above p r.
Proof.
  induction t as [|[k v] t IH]; cbn; intros Hs; [left; intros ??; by intros ?%not_elem_of_nil|].
  destruct Hs as [Hk Hs]. destruct (IH Hs) as [Ha|(l & k' & v' & r & -> & Hle & Ha)].
  - destruct (decide (p < k)) as [Hlt|Hge].
    + left. intros k2 v2 [[= -> ->]|Hin]%elem_of_cons; [done|by eapply Ha].
    + right. exists [], k, v, t. split_and!; [done|lia|done].
  - right. by exists ((k, v) :: l), k', v', r.
Qed.

(** [FindNodeOrLower] returns the node with the greatest key that is not above
    the given key, and null exactly when every key is above it. *)
Theorem FindNodeOrLower_spec t p : sorted t ->
  match FindNodeOrLower p t with
  | Some (k, v) => RB_FIND k t = Some v /\ k <= p /\ forall k2, k < k2 <= p -> RB_FIND k2 t = None
  | None => forall k2, k2 <= p -> RB_FIND k2 t = None
  end.
Proof.
  intros Hs. destruct (cut t p Hs) as [Ha|(l & k & v & r & -> & Hle & Ha)].
  - rewrite FindNodeOrLower_below by done. intros k2 Hk2. apply RB_FIND_above.
    intros k3 v3 Hin. specialize (Ha _ _ Hin). lia.
  - rewrite FindNodeOrLower_middle by done. pose proof Hs as (_ & _ & Hb & _)%sorted_middle.
    split_and!; [by apply RB_FIND_middle|done|]. intros k2 Hk2.
    rewrite RB_FIND_below by (intros ?? Hin; specialize (Hb _ _ Hin); lia). cbn.
    rewrite (proj2 (Z.eqb_neq _ _)) by lia. apply RB_FIND_above.
    intros k3 v3 Hin. specialize (Ha _ _ Hin). lia.
Qed.

Lemma Clear_empty t : sorted t -> Clear t = [].
Proof.
  unfold Clear. intros Hs.
  assert (E : forall n t, length t = n -> sorted t -> Clear_loop n (RB_MIN t) t = []); [|by apply E].
  clear t Hs. induction n as [|n IH]; intros [|[k v] t] Hlen Hs; cbn in *; try lia; [done|].
  rewrite Z.ltb_irrefl, Z.eqb_refl. destruct Hs as [Hk Hs].
  replace (RB_NEXT k t) with (RB_MIN t); [by apply IH; [lia|]|].
  destruct t as [|[k1 v1] t]; [done|]. cbn. by rewrite (proj2 (Z.ltb_lt _ _)) by (apply (Hk k1 v1); set_solver).
Qed.
End Tree.

Lemma FindNodeOrLower_spec_witness :
  FindNodeOrLower 7 [(2, 20); (5, 50); (9, 90)] = Some (5, 50) /\
  RB_FIND 6 [(2, 20); (5, 50); (9, 90)] = None.
Proof.
  split; [reflexivity|].
  assert (Hs : sorted [(2, 20); (5, 50); (9, 90)]).
  { cbn. split_and!; try done; intros k v Hin; rewrite ?elem_of_cons in Hin;
      repeat (destruct Hin as [[= -> ->]|Hin]; [lia|]); by apply not_elem_of_nil in Hin. }
  apply (FindNodeOrLower_spec [(2, 20); (5, 50); (9, 90)] 7 Hs). lia.
Defined.

End AVLTree.
