(* ===== verification/WAVLSpec.v ===== *)
(** * WAVLSpec.v: rank-balanced trees stay balanced and ordered

    The rank of a missing node is 0 and that of a leaf 1; the edges say how much lower the
    ranks of the children are. [ranked t n]: all of this holds in [t], and [n] is the rank
    of its root. A path is [hung] from a root if a subtree of rank [n] at its end makes the
    whole ranked. *)

From S2P Require Import Prelude AVLTree WAVL.
Import WAVL.

#[local] Open Scope Z_scope.

Module WAVLSpec.

Section Spec.
Context {V : Type}.
Notation tree := (tree V).
Notation ctx := (list (frame V)).
Implicit Types (t : tree) (c : ctx).

(** ** Order *)

Fixpoint inorder t : list (Z * V) :=
  match t with E => [] | N _ _ l kv r => inorder l ++ kv :: inorder r end.

(** What is left and right of the end of a path. *)
Fixpoint before c : list (Z * V) :=
  match c with
  | [] => []
  | mkFrame DL _ _ _ _ :: c' => before c'
  | mkFrame DR _ _ kv s :: c' => before c' ++ inorder s ++ [kv]
  end.
Fixpoint after c : list (Z * V) :=
  match c with
  | [] => []
  | mkFrame DL _ _ kv s :: c' => kv :: inorder s ++ after c'
  | mkFrame DR _ _ _ _ :: c' => after c'
  end.

Lemma inorder_plug c : forall t, inorder (plug t c) = before c ++ inorder t ++ after c.
Proof.
  induction c as [|[[] eb sb kv s] c IH]; intros t; cbn [plug before after]; [by rewrite app_nil_r|..]; rewrite IH;
    unfold up; cbn; by rewrite <- !app_assoc.
Qed.

Lemma inorder_plug_eq c t t' : inorder t = inorder t' -> inorder (plug t c) = inorder (plug t' c).
Proof. intros Ht. by rewrite !inorder_plug, Ht. Qed.

Lemma view_node d t eb sb e kv s : view d t = Some (eb, sb, e, kv, s) -> t = node d eb sb e kv s.
Proof. destruct t as [|lb rb l kv' r]; [done|]. destruct d; cbn; intros Hv; by simplify_eq. Qed.

Ltac flat := unfold up; cbn [fdir feb fsb fkv fsib node inorder]; rewrite <- ?app_assoc; cbn [app]; rewrite <- ?app_assoc; reflexivity.

(** Rebalancing does not change the order. *)
Lemma INSERT_COLOR_inorder c : forall t t', RB_INSERT_COLOR c t = Ok t' -> inorder t' = inorder (plug t c).
Proof.
  induction c as [|[d eb sb kv s] c IH]; intros t t' Ht; cbn [RB_INSERT_COLOR plug] in *; [by simplify_eq|].
  destruct eb; [simplify_eq; apply inorder_plug_eq; destruct d; flat|].
  destruct sb; cbn [negb] in Ht; [|rewrite (IH _ _ Ht); apply inorder_plug_eq; destruct d; flat].
  destruct (view d t) as [[[[[eeb esb] ee] ekv] es]|] eqn:Ev; [|done]. apply view_node in Ev as ->.
  destruct eeb; [|simplify_eq; apply inorder_plug_eq; unfold up; destruct d; flat].
  destruct (view d es) as [[[[[ceb csb] ce] ckv] cs]|] eqn:Ec; [|done]. apply view_node in Ec as ->.
  simplify_eq. apply inorder_plug_eq. unfold up. destruct d; flat.
Qed.

Lemma REMOVE_COLOR_loop_inorder c : forall t t', REMOVE_COLOR_loop c t = Ok t' -> inorder t' = inorder (plug t c).
Proof.
  induction c as [|[d eb sb kv s] c IH]; intros t t' Ht; cbn [REMOVE_COLOR_loop plug] in *; [by simplify_eq|].
  destruct eb; cbn [negb] in Ht; [|simplify_eq; apply inorder_plug_eq; destruct d; flat].
  destruct sb; [rewrite (IH _ _ Ht); apply inorder_plug_eq; destruct d; flat|].
  destruct (view d s) as [[[[[seb ssb] se] skv] ss]|] eqn:Ev; [|done]. apply view_node in Ev as ->.
  destruct (seb && ssb); [rewrite (IH _ _ Ht); apply inorder_plug_eq; unfold up; destruct d; flat|].
  destruct ssb; [|simplify_eq; apply inorder_plug_eq; unfold up; destruct d; flat].
  destruct (view d se) as [[[[[ueb usb] ue] ukv] us]|] eqn:Eu; [|done]. apply view_node in Eu as ->.
  simplify_eq. apply inorder_plug_eq. unfold up. destruct d; flat.
Qed.

Lemma REMOVE_COLOR_inorder c t t' : RB_REMOVE_COLOR c t = Ok t' -> inorder t' = inorder (plug t c).
Proof.
  unfold RB_REMOVE_COLOR. intros Ht.
  destruct c as [|[d eb sb kv [|]] c], t; try by apply REMOVE_COLOR_loop_inorder in Ht.
  apply REMOVE_COLOR_loop_inorder in Ht. rewrite Ht. cbn [plug]. apply inorder_plug_eq. by destruct d.
Qed.

(** ** Balance *)

Definition edge (b : bool) : Z := if b then 2 else 1.

Fixpoint ranked t (n : Z) : Prop :=
  match t with
  | E => n = 0
  | N lb rb l _ r => ranked l (n - edge lb) /\ ranked r (n - edge rb) /\ (l = E -> r = E -> n = 1)
  end.

Fixpoint hung c (n : Z) : Prop :=
  match c with
  | [] => True
  | mkFrame _ eb sb _ s :: c' =>
      ranked s (n + edge eb - edge sb) /\ (n = 0 -> s = E -> n + edge eb = 1) /\ hung c' (n + edge eb)
  end.

Lemma ranked_nonneg t : forall n, ranked t n -> 0 <= n.
Proof.
  induction t as [|lb rb l IHl kv r IHr]; intros n Hn; cbn in Hn; [lia|].
  destruct Hn as (Hl & _ & _). apply IHl in Hl. destruct lb; cbn in Hl; lia.
Qed.

Lemma ranked_zero t : ranked t 0 -> t = E.
Proof.
  destruct t as [|lb rb l kv r]; [done|]. intros (Hl & _). apply ranked_nonneg in Hl. destruct lb; cbn in Hl; lia.
Qed.

Lemma ranked_pos t n : ranked t n -> 0 < n -> t <> E.
Proof. intros Ht Hn ->. cbn in Ht. lia. Qed.

(** A node in terms of its direction. *)
Lemma ranked_node d eb sb e kv s n : ranked (node d eb sb e kv s) n <->
  ranked e (n - edge eb) /\ ranked s (n - edge sb) /\ (e = E -> s = E -> n = 1).
Proof. destruct d; cbn; tauto. Qed.

Lemma ranked_plug c : forall t n, ranked t n -> hung c n -> exists m, ranked (plug t c) m.
Proof.
  induction c as [|[d eb sb kv s] c IH]; intros t n Ht Hc; cbn [plug hung] in *; [by exists n|].
  destruct Hc as (Hs & Hleaf & Hc). apply (IH _ (n + edge eb)); [|done]. unfold up. cbn [fdir feb fsb fkv fsib].
  apply ranked_node. split_and!.
  - by replace (n + edge eb - edge eb) with n by lia.
  - done.
  - intros -> ->. cbn in Ht. auto.
Qed.

(** Every node of the trees below is taken apart in direction [d]. *)
Ltac nodes := repeat match goal with
  | H : ranked (node _ _ _ _ _ _) _ |- _ => apply ranked_node in H as (? & ? & ?)
  end.
Ltac rank :=
  match goal with
  | H : ranked ?t ?n |- ranked ?t ?m => replace m with n by (cbn [edge]; lia); exact H
  end.

(** [elm] is one rank higher than its place; unless it is a leaf, one of its edges is long. *)
Definition grown (t : tree) (n : Z) : Prop :=
  ranked t (n + 1) /\ (n = 0 \/ exists d e kv s, t = node d false true e kv s).

Lemma grown_view d t n : grown t n -> 0 < n -> exists eeb ee ekv es,
  t = node d eeb (negb eeb) ee ekv es.
Proof.
  intros [_ [?|(d' & e & kv & s & ->)]] Hn; [lia|].
  destruct d, d'; [exists false|exists true|exists true|exists false]; by repeat eexists.
Qed.

Lemma view_of_node d eb sb e (kv : Z * V) s : view d (node d eb sb e kv s) = Some (eb, sb, e, kv, s).
Proof. by destruct d. Qed.

Lemma node_of_pos d t n : ranked t n -> 0 < n -> exists eb sb e kv s, t = node d eb sb e kv s.
Proof.
  intros Ht Hn. destruct t as [|lb rb l kv r]; [cbn in Ht; lia|].
  destruct d; [exists lb, rb, l, kv, r|exists rb, lb, r, kv, l]; done.
Qed.

Lemma node_not_E d eb sb e (kv : Z * V) s : node d eb sb e kv s <> E.
Proof. by destruct d. Qed.

Lemma INSERT_COLOR_ranked c : forall t n, grown t n -> 0 <= n -> hung c n ->
  exists t' m, RB_INSERT_COLOR c t = Ok t' /\ ranked t' m.
Proof.
  induction c as [|[d eb sb kv s] c IH]; intros t n Hg H0 Hc; cbn [RB_INSERT_COLOR hung] in *.
  { destruct Hg as [Ht _]. by exists t, (n + 1). }
  destruct Hc as (Hs & Hleaf & Hc). pose proof Hg as [Ht _].
  assert (t <> E) by (intros ->; cbn in Ht; lia).
  destruct eb; [|destruct sb]; cbn [negb edge] in *.
  - assert (Hp : ranked (node d false sb t kv s) (n + 2)).
    { apply ranked_node. split_and!; [rank|rank|done]. }
    destruct (ranked_plug c _ _ Hp Hc) as [m Hm]. by eexists _, m.
  - pose proof (ranked_nonneg _ _ Hs). destruct (grown_view d t n Hg ltac:(lia)) as (eeb & ee & ekv & es & ->).
    rewrite view_of_node. nodes. destruct eeb; cbn [negb edge] in *.
    + destruct (node_of_pos d es (n + 1 - 1)) as (ceb & csb & ce & ckv & cs & ->); [done|lia|].
      rewrite view_of_node. nodes. assert (Hp : ranked (node d false false
        (node d false (if ceb then true else false) ee ekv ce) ckv (node d csb false cs kv s)) (n + 1)).
      { apply ranked_node. split_and!; [| |intros Hbad; by apply node_not_E in Hbad].
        - apply ranked_node. destruct ceb; cbn [edge] in *; (split_and!; [rank|rank|]); intros -> _; cbn in *; lia.
        - apply ranked_node. split_and!; [rank|rank|]. intros _ ->. cbn in *. lia. }
      destruct (ranked_plug c _ _ Hp Hc) as [m Hm]. by eexists _, m.
    + assert (Hp : ranked (node d false false ee ekv (node d false false es kv s)) (n + 1)).
      { apply ranked_node. split_and!; [rank| |intros _ Hbad; by apply node_not_E in Hbad].
        apply ranked_node. split_and!; [rank|rank|]. intros _ ->. cbn in *. lia. }
      destruct (ranked_plug c _ _ Hp Hc) as [m Hm]. by eexists _, m.
  - apply (IH _ (n + 1)); [|lia|done]. split; [|right; by repeat eexists].
    apply ranked_node. split_and!; [rank|rank|done].
Qed.

Lemma REMOVE_COLOR_loop_ranked c : forall t n, ranked t (n - 1) -> 1 <= n -> hung c n ->
  (forall f c', c = f :: c' -> t = E -> fsib f <> E) ->
  exists t' m, REMOVE_COLOR_loop c t = Ok t' /\ ranked t' m.
Proof.
  induction c as [|[d eb sb kv s] c IH]; intros t n Ht Hn Hc Hne; cbn [REMOVE_COLOR_loop hung] in *.
  { by exists t, (n - 1). }
  destruct Hc as (Hs & Hleaf & Hc). specialize (Hne _ _ eq_refl). cbn [fsib] in Hne.
  assert (Hdone : forall x, ranked x (n + edge eb) -> exists t' m, Ok (plug x c) = Ok t' /\ ranked t' m).
  { intros x Hx. destruct (ranked_plug c _ _ Hx Hc) as [m Hm]. by eexists _, m. }
  destruct eb; cbn [negb edge] in *.
  2:{ apply Hdone, ranked_node. split_and!; [rank|rank|]. intros -> ->. by destruct (Hne eq_refl). }
  destruct sb; cbn [edge] in *.
  { apply (IH _ (n + 2)); [|lia|done|intros f c' _ Hbad; by apply node_not_E in Hbad].
    apply ranked_node. split_and!; [rank|rank|]. intros -> ->. by destruct (Hne eq_refl). }
  destruct (node_of_pos d s (n + 2 - 1)) as (seb & ssb & se & skv & ss & ->); [done|lia|].
  rewrite view_of_node. nodes. destruct (seb && ssb) eqn:Eb.
  { apply andb_true_iff in Eb as [-> ->]. cbn [edge] in *.
    apply (IH _ (n + 2)); [|lia|done|intros f c' _ Hbad; by apply node_not_E in Hbad].
    apply ranked_node. split_and!; [rank| |intros _ Hbad; by apply node_not_E in Hbad].
    apply ranked_node. split_and!; [rank|rank|]. intros -> _. cbn in *. lia. }
  destruct ssb; [destruct seb; [done|]|]; cbn [edge] in *.
  - destruct (node_of_pos d se (n + 2 - 1 - 1)) as (ueb & usb & ue & ukv & us & ->); [done|lia|].
    rewrite view_of_node. nodes. apply Hdone, ranked_node.
    split_and!; [| |intros Hbad; by apply node_not_E in Hbad]; apply ranked_node.
    + destruct ueb; cbn [edge negb] in *; (split_and!; [rank|rank|]); intros -> _; cbn in *; lia.
    + destruct usb; cbn [edge negb] in *; (split_and!; [rank|rank|]); intros _ ->; cbn in *; lia.
  - apply Hdone, ranked_node. destruct seb; cbn [edge negb] in *;
      (split_and!; [|rank|intros Hbad; by apply node_not_E in Hbad]); apply ranked_node;
      (split_and!; [rank|rank|]); intros -> Hse; [cbn in *; lia|]. subst se. cbn in *. lia.
Qed.

Lemma REMOVE_COLOR_ranked c t n : ranked t (n - 1) -> 1 <= n -> hung c n ->
  exists t' m, RB_REMOVE_COLOR c t = Ok t' /\ ranked t' m.
Proof.
  intros Ht Hn Hc.
  assert (Hgo : (forall f c', c = f :: c' -> t = E -> fsib f <> E) ->
    exists t' m, REMOVE_COLOR_loop c t = Ok t' /\ ranked t' m) by (intros; by apply (REMOVE_COLOR_loop_ranked _ _ n)).
  unfold RB_REMOVE_COLOR. destruct c as [|[d eb sb kv s] c]; [apply Hgo; done|].
  destruct s as [|slb srb sl skv sr]; [|apply Hgo; intros ? ? [= <- <-] _; cbn; done].
  destruct t as [|lb rb l kv' r]; [|apply Hgo; done].
  cbn in Ht. cbn [hung] in Hc. destruct Hc as (Hs & Hleaf & Hc). cbn in Hs.
  assert (n = 1) as -> by lia. assert (edge eb = 1) as He by (destruct eb, sb; cbn [edge] in *; lia).
  apply (REMOVE_COLOR_loop_ranked _ _ 2); [|lia|by rewrite He in Hc|done]. cbn. done.
Qed.

(** A node of rank 1 is a leaf, and has no long edges. *)
Lemma clear_bits_leaf t : ranked t 1 -> clear_bits t = t.
Proof.
  destruct t as [|lb rb l kv r]; [done|]. intros (Hl & Hr & _). apply ranked_nonneg in Hl, Hr.
  destruct lb, rb; cbn [edge] in *; (lia || done).
Qed.

(** One step down a path. *)
Lemma hung_left c lb rb l kv r n : ranked (N lb rb l kv r) n -> hung c n -> hung (mkFrame DL lb rb kv r :: c) (n - edge lb).
Proof.
  intros (H1 & H2 & H3) Hc. cbn [hung]. replace (n - edge lb + edge lb) with n by lia. split_and!; [done| |done].
  intros Hz ->. rewrite Hz in H1. apply ranked_zero in H1. auto.
Qed.

Lemma hung_right c lb rb l kv r n : ranked (N lb rb l kv r) n -> hung c n -> hung (mkFrame DR rb lb kv l :: c) (n - edge rb).
Proof.
  intros (H1 & H2 & H3) Hc. cbn [hung]. replace (n - edge rb + edge rb) with n by lia. split_and!; [done| |done].
  intros Hz ->. rewrite Hz in H2. apply ranked_zero in H2. auto.
Qed.

(** What is left of a node with at most one child. *)
Lemma single_child b1 b2 t n : n = edge b1 -> ranked t (n - edge b2) -> (t = E -> n = 1) ->
  ranked (clear_bits t) (n - 1) /\ 1 <= n.
Proof.
  intros Hn Ht Hleaf. destruct t as [|lb rb l kv r].
  { rewrite Hleaf by done. split; [done|lia]. }
  assert (Hpos : 0 < n - edge b2).
  { destruct Ht as (Hl & _). apply ranked_nonneg in Hl. destruct lb; cbn [edge] in Hl; lia. }
  assert (n = 2 /\ edge b2 = 1) as [-> Eb] by (destruct b1, b2; cbn [edge] in *; lia).
  rewrite Eb in Ht. change (2 - 1) with 1 in *. by rewrite clear_bits_leaf.
Qed.

Lemma leftmost_hung l : forall lb rb (kv : Z * V) r c n ikv child path, ranked (N lb rb l kv r) n -> hung c n ->
  leftmost l lb rb kv r c = (ikv, child, path) ->
  exists q, hung path q /\ ranked (clear_bits child) (q - 1) /\ 1 <= q.
Proof.
  induction l as [|lb' rb' l' IH kv' r' _]; intros lb rb kv r c n ikv child path Hr Hc Hlm; cbn [leftmost] in Hlm.
  - simplify_eq. destruct Hr as (H1 & H2 & H3). exists n. split; [done|].
    apply (single_child lb rb); [cbn in H1; lia|done|auto].
  - eapply (IH lb' rb' kv' r' _ (n - edge lb)); [apply Hr|by eapply hung_left|exact Hlm].
Qed.

Lemma leftmost_app l : forall lb rb (kv : Z * V) r c X, leftmost l lb rb kv r (c ++ X) =
  (let '(ikv, child, path) := leftmost l lb rb kv r c in (ikv, child, path ++ X)).
Proof.
  induction l as [|lb' rb' l' IH kv' r' _]; intros lb rb kv r c X; cbn [leftmost]; [done|].
  apply (IH lb' rb' kv' r' (mkFrame DL lb rb kv r :: c) X).
Qed.

(** In order, the least node comes first. *)
Lemma leftmost_inorder l : forall lb rb (kv : Z * V) r c ikv child path,
  leftmost l lb rb kv r c = (ikv, child, path) ->
  before path = before c /\ ikv :: inorder child ++ after path = inorder (N lb rb l kv r) ++ after c.
Proof.
  induction l as [|lb' rb' l' IH kv' r' _]; intros lb rb kv r c ikv child path Hlm; cbn [leftmost] in Hlm.
  - by simplify_eq.
  - apply IH in Hlm as [H1 H2]. cbn [before after] in H1, H2. split; [done|]. rewrite H2. cbn [inorder].
    rewrite <- !app_assoc. cbn. by rewrite <- ?app_assoc.
Qed.

Lemma inorder_clear t : inorder (clear_bits t) = inorder t.
Proof. by destruct t. Qed.

(** ** Insertion *)

Lemma INSERT_at_spec kv t : forall c n, ranked t n -> hung c n -> 0 <= n ->
  exists t' m, RB_INSERT_at kv t c = Ok t' /\ ranked t' m.
Proof.
  induction t as [|lb rb l IHl kv' r IHr]; intros c n Ht Hc Hn; cbn [RB_INSERT_at].
  - cbn in Ht. subst n. apply (INSERT_COLOR_ranked c _ 0); [|lia|done]. split; [by cbn|by left].
  - pose proof Ht as (H1 & H2 & H3). destruct (kv.1 <? kv'.1); [|destruct (kv'.1 <? kv.1)].
    + apply (IHl _ (n - edge lb)); [done|by eapply hung_left|by eapply ranked_nonneg].
    + apply (IHr _ (n - edge rb)); [done|by eapply hung_right|by eapply ranked_nonneg].
    + destruct (ranked_plug c _ _ Ht Hc) as [m Hm]. by eexists _, m.
Qed.

Lemma INSERT_down_spec d kv t : forall c n, ranked t n -> hung c n -> 0 <= n ->
  exists t' m, INSERT_down d kv t c = Ok t' /\ ranked t' m /\
    inorder t' = before c ++ (match d with DL => kv :: inorder t | DR => inorder t ++ [kv] end) ++ after c.
Proof.
  induction t as [|lb rb l IHl kv' r IHr]; intros c n Ht Hc Hn; cbn [INSERT_down].
  - cbn in Ht. subst n. destruct (INSERT_COLOR_ranked c (N false false E kv E) 0) as (t' & m & Ht' & Hm);
      [split; [by cbn|by left]|lia|done|]. exists t', m. split_and!; try done.
    apply INSERT_COLOR_inorder in Ht'. rewrite Ht', inorder_plug. by destruct d.
  - pose proof Ht as (H1 & H2 & _). destruct d.
    + destruct (IHl (mkFrame DL lb rb kv' r :: c) (n - edge lb)) as (t' & m & Ht' & Hm & Hi);
        [done|by eapply hung_left|by eapply ranked_nonneg|]. exists t', m. split_and!; try done.
      rewrite Hi. cbn [before after inorder]. rewrite <- ?app_assoc. cbn. by rewrite <- ?app_assoc.
    + destruct (IHr (mkFrame DR rb lb kv' l :: c) (n - edge rb)) as (t' & m & Ht' & Hm & Hi);
        [done|by eapply hung_right|by eapply ranked_nonneg|]. exists t', m. split_and!; try done.
      rewrite Hi. cbn [before after inorder]. rewrite <- ?app_assoc. cbn. by rewrite <- ?app_assoc.
Qed.

(** The new node comes right after, or right before, the given one. *)
Lemma INSERT_NEXT_PREV_spec c lb rb l kv r new n : ranked (N lb rb l kv r) n -> hung c n ->
  (exists t' m, RB_INSERT_NEXT_at c lb rb l kv r new = Ok t' /\ ranked t' m /\
     inorder t' = before c ++ inorder l ++ kv :: new :: inorder r ++ after c) /\
  (exists t' m, RB_INSERT_PREV_at c lb rb l kv r new = Ok t' /\ ranked t' m /\
     inorder t' = before c ++ inorder l ++ new :: kv :: inorder r ++ after c).
Proof.
  intros Ht Hc. pose proof Ht as (H1 & H2 & _). split.
  - destruct (INSERT_down_spec DL new r (mkFrame DR rb lb kv l :: c) (n - edge rb)) as (t' & m & Ht' & Hm & Hi);
      [done|by eapply hung_right|by eapply ranked_nonneg|]. exists t', m. split_and!; try done.
    rewrite Hi. cbn [before after]. rewrite <- ?app_assoc. cbn. by rewrite <- ?app_assoc.
  - destruct (INSERT_down_spec DR new l (mkFrame DL lb rb kv r :: c) (n - edge lb)) as (t' & m & Ht' & Hm & Hi);
      [done|by eapply hung_left|by eapply ranked_nonneg|]. exists t', m. split_and!; try done.
    rewrite Hi. cbn [before after]. rewrite <- ?app_assoc. cbn. by rewrite <- ?app_assoc.
Qed.

Lemma list_INSERT_present l k (v v' : V) r : AVLTree.below l k ->
  AVLTree.RB_INSERT k v (l ++ (k, v') :: r) = l ++ (k, v') :: r.
Proof.
  induction l as [|[k1 v1] l IH]; intros Hb; cbn.
  - by rewrite Z.ltb_irrefl, Z.eqb_refl.
  - specialize (Hb k1 v1 ltac:(set_solver)) as Hk.
    rewrite (proj2 (Z.ltb_ge k k1)), (proj2 (Z.eqb_neq k k1)) by lia. f_equal. apply IH.
    intros k2 v2 ?. apply (Hb k2 v2). set_solver.
Qed.

Lemma list_REMOVE_absent l k (r : list (Z * V)) : AVLTree.below l k -> AVLTree.above k r ->
  AVLTree.RB_REMOVE k (l ++ r) = l ++ r.
Proof.
  intros Hl Hr. assert (Hall : forall k' v', (k', v') ∈ l ++ r -> k' <> k).
  { intros k' v' [Hin|Hin]%elem_of_app; [apply Hl in Hin|apply Hr in Hin]; lia. }
  clear Hl Hr. induction (l ++ r) as [|[k1 v1] x IH]; cbn; [done|].
  rewrite (proj2 (Z.eqb_neq k k1)) by (symmetry; intros ->; by apply (Hall k v1); [set_solver|]).
  f_equal. apply IH. intros k' v' Hin. apply (Hall k' v'). set_solver.
Qed.

(** The keys on either side of a path, one step down. *)
Lemma sides_left c k l kv r (lb rb : bool) : AVLTree.sorted (inorder (plug (N lb rb l kv r) c)) -> k < kv.1 ->
  AVLTree.below (before c) k -> AVLTree.above k (after c) -> AVLTree.above k (after (mkFrame DL lb rb kv r :: c)).
Proof.
  destruct kv as [k' v']. intros Hs Hk Hb Ha. rewrite inorder_plug in Hs. cbn [inorder after] in *.
  rewrite <- app_assoc in Hs. cbn in Hs. rewrite app_assoc in Hs. apply AVLTree.sorted_middle in Hs as (_ & _ & _ & Hr).
  intros k2 v2 [[= -> ->]|Hin]%elem_of_cons; [done|]. apply Hr in Hin. cbn in Hk. lia.
Qed.

Lemma sides_right c k l kv r (lb rb : bool) : AVLTree.sorted (inorder (plug (N lb rb l kv r) c)) -> kv.1 < k ->
  AVLTree.below (before c) k -> AVLTree.above k (after c) -> AVLTree.below (before (mkFrame DR rb lb kv l :: c)) k.
Proof.
  destruct kv as [k' v']. intros Hs Hk Hb Ha. rewrite inorder_plug in Hs. cbn [inorder before] in *.
  rewrite <- app_assoc in Hs. cbn in Hs. rewrite app_assoc in Hs. apply AVLTree.sorted_middle in Hs as (_ & _ & Hl & _).
  intros k2 v2 Hin. rewrite app_assoc in Hin. apply elem_of_app in Hin as [Hin|Hin].
  - apply Hl in Hin. cbn in Hk. lia.
  - apply list_elem_of_singleton in Hin. by simplify_eq.
Qed.

(** A node between its sides. *)
Lemma inorder_here c l kv r (lb rb : bool) : inorder (plug (N lb rb l kv r) c) =
  (before c ++ inorder l) ++ kv :: inorder r ++ after c.
Proof. rewrite inorder_plug. cbn [inorder]. by rewrite <- !app_assoc. Qed.

Lemma here_sides c k v l r (lb rb : bool) : AVLTree.sorted (inorder (plug (N lb rb l (k, v) r) c)) ->
  AVLTree.below (before c ++ inorder l) k /\ AVLTree.above k (inorder r ++ after c).
Proof. rewrite inorder_here. intros (_ & _ & ? & ?)%AVLTree.sorted_middle. done. Qed.

Lemma INSERT_at_inorder k v t : forall c t', AVLTree.sorted (inorder (plug t c)) -> AVLTree.below (before c) k ->
  AVLTree.above k (after c) -> RB_INSERT_at (k, v) t c = Ok t' ->
  inorder t' = AVLTree.RB_INSERT k v (inorder (plug t c)).
Proof.
  induction t as [|lb rb l IHl [k' v'] r IHr]; intros c t' Hs Hb Ha Ht; cbn [RB_INSERT_at fst] in Ht.
  - apply INSERT_COLOR_inorder in Ht. rewrite Ht, !inorder_plug. cbn. by rewrite AVLTree.RB_INSERT_middle.
  - destruct (k <? k') eqn:E1; [|destruct (k' <? k) eqn:E2]; zb.
    + apply (IHl (mkFrame DL lb rb (k', v') r :: c)); try done. by apply (sides_left c k l).
    + apply (IHr (mkFrame DR rb lb (k', v') l :: c)); try done. by apply (sides_right c k l (k', v') r lb rb).
    + assert (k' = k) as -> by lia. simplify_eq. destruct (here_sides _ _ _ _ _ _ _ Hs).
      rewrite inorder_here. by rewrite list_INSERT_present.
Qed.

(** ** Removal *)

Lemma REMOVE_at_ranked c lb rb l kv r n : ranked (N lb rb l kv r) n -> hung c n ->
  exists t' m, RB_REMOVE_at c lb rb l kv r = Ok t' /\ ranked t' m.
Proof.
  intros Ht Hc. pose proof Ht as (H1 & H2 & H3). unfold RB_REMOVE_at.
  assert (Hone : forall child, ranked (clear_bits child) (n - 1) /\ 1 <= n -> exists t' m,
    match c with [] => Ok (clear_bits child) | _ => RB_REMOVE_COLOR c (clear_bits child) end = Ok t' /\ ranked t' m).
  { intros child [Hch Hn]. destruct c; [by eexists _, _|]. by apply (REMOVE_COLOR_ranked _ _ n). }
  destruct l as [|llb lrb ll lkv lr].
  { apply Hone, (single_child lb rb); [cbn in H1; lia|done|auto]. }
  destruct r as [|rlb rrb rl rkv rr].
  { apply Hone, (single_child rb lb); [cbn in H2; lia|done|auto]. }
  destruct (leftmost rl rlb rrb rkv rr []) as [[ikv child] path] eqn:Elm.
  assert (Elm' := leftmost_app rl rlb rrb rkv rr [] (mkFrame DR rb lb ikv (N llb lrb ll lkv lr) :: c)).
  rewrite Elm in Elm'. cbn [app] in Elm'.
  assert (Hung : hung (mkFrame DR rb lb ikv (N llb lrb ll lkv lr) :: c) (n - edge rb)) by exact (hung_right c lb rb (N llb lrb ll lkv lr) ikv (N rlb rrb rl rkv rr) n Ht Hc).
  destruct (leftmost_hung rl rlb rrb rkv rr _ _ _ _ _ H2 Hung Elm') as (q & Hq & Hch & Hq1).
  by apply (REMOVE_COLOR_ranked _ _ q).
Qed.

Lemma REMOVE_at_inorder c lb rb l kv r t' : RB_REMOVE_at c lb rb l kv r = Ok t' ->
  inorder t' = before c ++ inorder l ++ inorder r ++ after c.
Proof.
  unfold RB_REMOVE_at.
  assert (Hone : forall child, match c with [] => Ok (clear_bits child) | _ => RB_REMOVE_COLOR c (clear_bits child) end = Ok t' ->
    inorder t' = before c ++ inorder child ++ after c).
  { intros child. destruct c; [intros [= <-]; cbn; by rewrite inorder_clear, app_nil_r|].
    intros Ht%REMOVE_COLOR_inorder. by rewrite Ht, inorder_plug, inorder_clear. }
  destruct l as [|llb lrb ll lkv lr]; [apply Hone|]. destruct r as [|rlb rrb rl rkv rr]; [apply Hone|].
  destruct (leftmost rl rlb rrb rkv rr []) as [[ikv child] path] eqn:Elm.
  assert (Elm' := leftmost_app rl rlb rrb rkv rr [] (mkFrame DR rb lb ikv (N llb lrb ll lkv lr) :: c)).
  rewrite Elm in Elm'. cbn [app] in Elm'. intros Ht%REMOVE_COLOR_inorder. rewrite Ht, inorder_plug, inorder_clear.
  apply leftmost_inorder in Elm' as [-> Ha]. cbn [before after] in *. rewrite <- !app_assoc. do 2 f_equal.
  cbn [app]. exact Ha.
Qed.

Lemma REMOVE_key_ranked k t : forall c n, ranked t n -> hung c n ->
  exists t' m, RB_REMOVE_key k t c = Ok t' /\ ranked t' m.
Proof.
  induction t as [|lb rb l IHl kv r IHr]; intros c n Ht Hc; cbn [RB_REMOVE_key].
  - destruct (ranked_plug c _ _ Ht Hc) as [m Hm]. by eexists _, m.
  - pose proof Ht as (H1 & H2 & _). destruct (k <? kv.1); [|destruct (kv.1 <? k)].
    + apply (IHl _ (n - edge lb)); [done|by eapply hung_left].
    + apply (IHr _ (n - edge rb)); [done|by eapply hung_right].
    + by apply (REMOVE_at_ranked _ _ _ _ _ _ n).
Qed.

Lemma REMOVE_key_inorder k t : forall c t', AVLTree.sorted (inorder (plug t c)) -> AVLTree.below (before c) k ->
  AVLTree.above k (after c) -> RB_REMOVE_key k t c = Ok t' ->
  inorder t' = AVLTree.RB_REMOVE k (inorder (plug t c)).
Proof.
  induction t as [|lb rb l IHl [k' v'] r IHr]; intros c t' Hs Hb Ha Ht; cbn [RB_REMOVE_key fst] in Ht.
  - simplify_eq. rewrite inorder_plug. cbn. by rewrite list_REMOVE_absent.
  - destruct (k <? k') eqn:E1; [|destruct (k' <? k) eqn:E2]; zb.
    + apply (IHl (mkFrame DL lb rb (k', v') r :: c)); try done. by apply (sides_left c k l).
    + apply (IHr (mkFrame DR rb lb (k', v') l :: c)); try done. by apply (sides_right c k l (k', v') r lb rb).
    + assert (k' = k) as -> by lia. apply REMOVE_at_inorder in Ht. destruct (here_sides _ _ _ _ _ _ _ Hs).
      rewrite inorder_here, AVLTree.RB_REMOVE_middle by done. by rewrite Ht, <- app_assoc.
Qed.

(** ** Searching *)

Lemma list_FIND_left k (l r : list (Z * V)) : AVLTree.above k r -> AVLTree.RB_FIND k (l ++ r) = AVLTree.RB_FIND k l.
Proof.
  intros Ha. induction l as [|[k1 v1] l IH]; cbn; [by apply AVLTree.RB_FIND_above|]. by destruct (k =? k1).
Qed.

Lemma list_NFIND_left k (l r : list (Z * V)) : AVLTree.above k r ->
  AVLTree.RB_NFIND k (l ++ r) = match AVLTree.RB_NFIND k l with Some x => Some x | None => head r end.
Proof.
  intros Ha. induction l as [|[k1 v1] l IH]; cbn; [by apply AVLTree.RB_NFIND_above|]. by destruct (k <=? k1).
Qed.

Lemma above_cons k k' (v' : V) r : k < k' -> AVLTree.above k' r -> AVLTree.above k ((k', v') :: r).
Proof. intros Hk Ha k2 v2 [[= -> ->]|Hin]%elem_of_cons; [done|]. apply Ha in Hin. lia. Qed.

Lemma below_key_snoc k k' (v' : V) l : k' < k -> AVLTree.below l k' -> AVLTree.below (l ++ [(k', v')]) k.
Proof.
  intros Hk Hb k2 v2 [Hin|Hin]%elem_of_app; [apply Hb in Hin; lia|].
  apply list_elem_of_singleton in Hin. by simplify_eq.
Qed.

Lemma FIND_inorder k t : AVLTree.sorted (inorder t) ->
  RB_FIND k t = (fun v => (k, v)) <$> AVLTree.RB_FIND k (inorder t).
Proof.
  induction t as [|lb rb l IHl [k' v'] r IHr]; intros Hs; cbn [RB_FIND inorder fst] in *; [done|].
  apply AVLTree.sorted_middle in Hs as (Hl & Hr & Hb & Ha). destruct (k <? k') eqn:E1; [|destruct (k' <? k) eqn:E2]; zb.
  - rewrite IHl by done. by rewrite list_FIND_left by (by apply above_cons).
  - rewrite IHr by done. rewrite cons_middle, app_assoc. by rewrite AVLTree.RB_FIND_below by (by apply below_key_snoc).
  - assert (k' = k) as -> by lia. by rewrite AVLTree.RB_FIND_middle.
Qed.

Lemma NFIND_inorder k t : forall res, AVLTree.sorted (inorder t) ->
  RB_NFIND k t res = match AVLTree.RB_NFIND k (inorder t) with Some x => Some x | None => res end.
Proof.
  induction t as [|lb rb l IHl [k' v'] r IHr]; intros res Hs; cbn [RB_NFIND inorder fst] in *; [done|].
  apply AVLTree.sorted_middle in Hs as (Hl & Hr & Hb & Ha). destruct (k <? k') eqn:E1; [|destruct (k' <? k) eqn:E2]; zb.
  - rewrite IHl by done. rewrite list_NFIND_left by (by apply above_cons). by destruct (AVLTree.RB_NFIND k (inorder l)).
  - rewrite IHr by done. rewrite cons_middle, app_assoc. by rewrite AVLTree.RB_NFIND_below by (by apply below_key_snoc).
  - assert (k' = k) as -> by lia. rewrite AVLTree.RB_NFIND_below by done. cbn. by rewrite Z.leb_refl.
Qed.

Lemma MINMAX_inorder t : forall p,
  RB_MINMAX t (-1) p = (match head (inorder t) with Some x => Some x | None => p end) /\
  RB_MINMAX t 1 p = (match last (inorder t) with Some x => Some x | None => p end).
Proof.
  induction t as [|lb rb l IHl kv r IHr]; intros p; cbn [RB_MINMAX inorder]; [done|].
  change (-1 <? 0) with true. change (1 <? 0) with false. cbn iota.
  destruct (IHl (Some kv)) as [-> _], (IHr (Some kv)) as [_ ->]. split.
  - by destruct (inorder l).
  - rewrite last_app_cons, last_cons. by destruct (last (inorder r)).
Qed.

Lemma furthest_left l : forall kv, Some (furthest DL l kv) = head (inorder l ++ [kv]).
Proof.
  induction l as [|lb rb l IH kv' r _]; intros kv; cbn [furthest inorder]; [done|].
  rewrite IH. by destruct (inorder l).
Qed.

Lemma furthest_right r : forall kv, Some (furthest DR r kv) = last (kv :: inorder r).
Proof.
  induction r as [|lb rb l _ kv' r IH]; intros kv; cbn [furthest inorder]; [done|].
  rewrite IH. by rewrite app_comm_cons, last_app_cons.
Qed.

Lemma climb_right c : climb DR c = head (after c).
Proof. induction c as [|[[] eb sb kv s] c IH]; cbn; [done|done|]. by rewrite IH. Qed.

Lemma climb_left c : climb DL c = last (before c).
Proof. induction c as [|[[] eb sb kv s] c IH]; cbn; [done|by rewrite IH|]. by rewrite app_assoc, last_snoc. Qed.

Lemma NEXT_inorder c k v l r (lb rb : bool) : AVLTree.sorted (inorder (plug (N lb rb l (k, v) r) c)) ->
  RB_NEXT_at c r = AVLTree.RB_NEXT k (inorder (plug (N lb rb l (k, v) r) c)).
Proof.
  intros Hs. destruct (here_sides _ _ _ _ _ _ _ Hs). rewrite inorder_here, AVLTree.RB_NEXT_middle by done.
  destruct r as [|rlb rrb rl rkv rr]; cbn [RB_NEXT_at inorder]; [apply climb_right|].
  rewrite furthest_left. by destruct (inorder rl).
Qed.

Lemma PREV_inorder c k v l r (lb rb : bool) : AVLTree.sorted (inorder (plug (N lb rb l (k, v) r) c)) ->
  RB_PREV_at c l = AVLTree.RB_PREV k (inorder (plug (N lb rb l (k, v) r) c)).
Proof.
  intros Hs. destruct (here_sides _ _ _ _ _ _ _ Hs). rewrite inorder_here, AVLTree.RB_PREV_middle by done.
  destruct l as [|llb lrb ll lkv lr]; cbn [RB_PREV_at inorder]; [by rewrite app_nil_r; apply climb_left|].
  rewrite furthest_right. by rewrite app_assoc, last_app_cons.
Qed.

(** ** Height *)

Fixpoint height t : Z := match t with E => 0 | N _ _ l _ r => 1 + Z.max (height l) (height r) end.
Fixpoint nodes t : Z := match t with E => 0 | N _ _ l _ r => 1 + nodes l + nodes r end.

Lemma height_rank t : forall n, ranked t n -> 0 <= height t <= n.
Proof.
  induction t as [|lb rb l IHl kv r IHr]; intros n Hn; cbn [height]; [cbn in Hn; lia|].
  destruct Hn as (Hl & Hr & _). apply IHl in Hl. apply IHr in Hr. destruct lb, rb; cbn [edge] in *; lia.
Qed.

Lemma nodes_nonneg t : 0 <= nodes t.
Proof. induction t; cbn; lia. Qed.

Lemma nodes_rank t : forall n, ranked t n -> 2 ^ n <= (nodes t + 1) ^ 2.
Proof.
  induction t as [|lb rb l IHl kv r IHr]; intros n Hn; cbn [nodes].
  - cbn in Hn. subst n. cbn. lia.
  - destruct Hn as (Hl & Hr & Hleaf). pose proof (ranked_nonneg _ _ Hl). pose proof (ranked_nonneg _ _ Hr).
    apply IHl in Hl. apply IHr in Hr. pose proof (nodes_nonneg l). pose proof (nodes_nonneg r).
    destruct (decide (n < 2)) as [Hn|Hn].
    { assert (n = 1) as -> by (destruct lb; cbn [edge] in *; lia). change (2 ^ 1) with 2. nia. }
    assert (Hpow : 2 ^ n = 4 * 2 ^ (n - 2)) by (replace n with (2 + (n - 2)) at 1 by lia; rewrite Z.pow_add_r by lia; lia).
    assert (Hmono : forall b, 2 ^ (n - 2) <= 2 ^ (n - edge b)) by (intros b; apply Z.pow_le_mono_r; destruct b; cbn [edge]; lia).
    pose proof (Hmono lb). pose proof (Hmono rb). rewrite Hpow. rewrite Z.pow_2_r in *. nia.
Qed.

(** ** Sequences of operations *)

Inductive op : Type := OpInsert (k : Z) (v : V) | OpRemove (k : Z).

Definition run_op (o : op) t : result tree :=
  match o with OpInsert k v => RB_INSERT (k, v) t | OpRemove k => RB_REMOVE k t end.
Fixpoint run_ops (os : list op) t : result tree :=
  match os with
  | [] => Ok t
  | o :: os' => match run_op o t with Ok t' => run_ops os' t' | Fail f => Fail f end
  end.

(** The same on sequences, as AVLTree.v has it. *)
Definition list_op (o : op) (l : list (Z * V)) : list (Z * V) :=
  match o with OpInsert k v => AVLTree.RB_INSERT k v l | OpRemove k => AVLTree.RB_REMOVE k l end.
Definition list_ops (os : list op) (l : list (Z * V)) : list (Z * V) := fold_left (fun l o => list_op o l) os l.

Lemma nil_sides k : AVLTree.below (V := V) [] k /\ AVLTree.above (V := V) k [].
Proof. split; intros k' v' Hin; by apply elem_of_nil in Hin. Qed.

Lemma tree_op_spec o t n : ranked t n -> AVLTree.sorted (inorder t) -> exists t' m,
  run_op o t = Ok t' /\ ranked t' m /\ inorder t' = list_op o (inorder t) /\ AVLTree.sorted (inorder t').
Proof.
  intros Hr Hs. destruct o as [k v|k]; cbn [run_op list_op]; destruct (nil_sides k) as [Hb Ha].
  - destruct (INSERT_at_spec (k, v) t [] n Hr I (ranked_nonneg _ _ Hr)) as (t' & m & Ht' & Hm).
    pose proof (INSERT_at_inorder k v t [] t' Hs Hb Ha Ht') as Hi. cbn [plug] in Hi. exists t', m. split_and!; try done.
    rewrite Hi. by apply AVLTree.sorted_INSERT.
  - destruct (REMOVE_key_ranked k t [] n Hr I) as (t' & m & Ht' & Hm).
    pose proof (REMOVE_key_inorder k t [] t' Hs Hb Ha Ht') as Hi. cbn [plug] in Hi. exists t', m. split_and!; try done.
    rewrite Hi. by apply AVLTree.sorted_REMOVE.
Qed.

Lemma tree_ops_spec os : forall t n, ranked t n -> AVLTree.sorted (inorder t) -> exists t' m,
  run_ops os t = Ok t' /\ ranked t' m /\ inorder t' = list_ops os (inorder t) /\ AVLTree.sorted (inorder t').
Proof.
  induction os as [|o os IH]; intros t n Hr Hs; cbn [run_ops]; [by exists t, n|].
  destruct (tree_op_spec o t n Hr Hs) as (t1 & m1 & -> & Hr1 & Hi1 & Hs1).
  destruct (IH t1 m1 Hr1 Hs1) as (t2 & m2 & Hrun & Hr2 & Hi2 & Hs2). exists t2, m2. split_and!; try done.
  by rewrite Hi2, Hi1.
Qed.

(** C21: the tree implements the ordered map. Every sequence of insertions and removals, begun with the empty
    tree, runs without following a null pointer and gives a tree whose in-order sequence is the one that
    the sorted-list operations of AVLTree.v give; the searches for a key, for the least key that is large
    enough and for the least and the greatest node give what they give there, and so do the steps to the
    next and the previous node from every node of the tree. *)
Theorem wavl_refines os : exists t, run_ops os E = Ok t /\ inorder t = list_ops os [] /\
  (forall k, RB_FIND k t = (fun v => (k, v)) <$> AVLTree.RB_FIND k (inorder t)) /\
  (forall k, RB_NFIND k t None = AVLTree.RB_NFIND k (inorder t)) /\
  RB_MINMAX t (-1) None = AVLTree.RB_MIN (inorder t) /\ RB_MINMAX t 1 None = AVLTree.RB_MAX (inorder t) /\
  (forall c lb rb l k v r, plug (N lb rb l (k, v) r) c = t ->
    RB_NEXT_at c r = AVLTree.RB_NEXT k (inorder t) /\ RB_PREV_at c l = AVLTree.RB_PREV k (inorder t)).
Proof.
  destruct (tree_ops_spec os E 0 eq_refl I) as (t & m & Hrun & _ & Hi & Hs). exists t.
  destruct (MINMAX_inorder t None) as [-> ->]. split_and!; try done.
  - intros k. by apply FIND_inorder.
  - intros k. rewrite NFIND_inorder by done. by destruct (AVLTree.RB_NFIND k (inorder t)).
  - unfold AVLTree.RB_MIN. by destruct (head (inorder t)).
  - unfold AVLTree.RB_MAX. by destruct (last (inorder t)).
  - intros c lb rb l k v r <-. by rewrite <- (NEXT_inorder c k v l r lb rb), <- (PREV_inorder c k v l r lb rb).
Qed.

(** C22: the tree stays balanced. After every sequence of insertions and removals the edges are as long as the
    ranks say and leaves have rank 1, so that a tree of [n] nodes has at most 2 log2 (n + 1) levels. *)
Theorem wavl_height os : exists t m, run_ops os E = Ok t /\ ranked t m /\
  2 ^ height t <= (nodes t + 1) ^ 2.
Proof.
  destruct (tree_ops_spec os E 0 eq_refl I) as (t & m & Hrun & Hr & _). exists t, m. split_and!; try done.
  pose proof (height_rank _ _ Hr). transitivity (2 ^ m); [apply Z.pow_le_mono_r; lia|by apply nodes_rank].
Qed.
End Spec.

(** The keys 1 to 7 in order make a complete tree of three levels; without 4, 2 and 6 there are still three. *)
Example complete_tree :
  match run_ops [OpInsert 1 0; OpInsert 2 0; OpInsert 3 0; OpInsert 4 0; OpInsert 5 0; OpInsert 6 0; OpInsert 7 0] E with
  | Ok t => (height t, (inorder t).*1) = (3, [1; 2; 3; 4; 5; 6; 7]) /\
      match run_ops [OpRemove 4; OpRemove 2; OpRemove 6] t with
      | Ok t' => (height t', (inorder t').*1) = (3, [1; 3; 5; 7])
      | Fail _ => False
      end
  | Fail _ => False
  end.
Proof. vm_compute. by split. Qed.
End WAVLSpec.
