(* ===== verification/VMRegionAllocator.v ===== *)
(** * VMRegionAllocator.v: allocation of virtual address regions

    Models src/kernel/src/Memory/VMRegionAllocator.cpp. The allocator keeps two
    trees: [m_allPagesTree] maps the start of every region to its size and state,
    [m_freePagesTree] maps a size to the list of the free regions of that size.
    The list nodes hanging off the second tree are owned by one tree node each
    and are represented by their data (LinkedList.v relates the two); the null
    pointer is the empty list. *)

From S2P Require Import Prelude AVLTree.

#[local] Open Scope Z_scope.
#[local] Open Scope kernel_scope.

Module VMRegionAllocator.
Import AVLTree.

(** ** Data *)

(** [CompleteTreeNodeData]: a 62-bit field and two flags. *)
Record CompleteTreeNodeData : Type := mkData { size : Z; isFree : bool; isReserved : bool }.

(** Assignment to the 62-bit field [size]. *)
Definition wrap62 (x : Z) : Z := x mod 2 ^ 62.
Definition set_size (v : Z) (d : CompleteTreeNodeData) : CompleteTreeNodeData :=
  mkData (wrap62 v) (isFree d) (isReserved d).
Definition set_isFree (v : bool) (d : CompleteTreeNodeData) : CompleteTreeNodeData :=
  mkData (size d) v (isReserved d).

Record state : Type := mk {
  m_start : Z;
  m_end : Z;
  m_allPagesTree : tree CompleteTreeNodeData;
  m_freePagesTree : tree (list Z);
  m_freePageCount : Z;
  m_usedPageCount : Z;
  m_reservedPageCount : Z;
  m_totalPageCount : Z;
  m_locked : bool
}.

Definition set_apt v s := mk (m_start s) (m_end s) v (m_freePagesTree s) (m_freePageCount s)
  (m_usedPageCount s) (m_reservedPageCount s) (m_totalPageCount s) (m_locked s).
Definition set_fpt v s := mk (m_start s) (m_end s) (m_allPagesTree s) v (m_freePageCount s)
  (m_usedPageCount s) (m_reservedPageCount s) (m_totalPageCount s) (m_locked s).
Definition set_counts f u s := mk (m_start s) (m_end s) (m_allPagesTree s) (m_freePagesTree s) f
  u (m_reservedPageCount s) (m_totalPageCount s) (m_locked s).
Definition set_locked v s := mk (m_start s) (m_end s) (m_allPagesTree s) (m_freePagesTree s)
  (m_freePageCount s) (m_usedPageCount s) (m_reservedPageCount s) (m_totalPageCount s) v.

(** [VMRegionAllocator::VMRegionAllocator()] *)
Definition init_state : state := mk UINT64_MAX 0 [] [] 0 0 0 0 false.

(** [m_lock]: a second [Lock] by the holder never returns. *)
Definition Lock : M state unit :=
  let* l := gets m_locked in
  if l then fail LockHeld else modify (set_locked true).
Definition Unlock : M state unit := modify (set_locked false).

(** Access to the node of [m_allPagesTree] behind a pointer. Writing a node that
    is not in the tree gives back the updated node. *)
Definition rd_apt (n : noderef CompleteTreeNodeData) : M state (Z * CompleteTreeNodeData) :=
  match n with
  | Linked k =>
      let* t := gets m_allPagesTree in
      match RB_FIND k t with Some d => ret (k, d) | None => fail InvalidAccess end
  | Detached k d => ret (k, d)
  end.
Definition wr_apt (n : noderef CompleteTreeNodeData) (d : CompleteTreeNodeData)
  : M state (noderef CompleteTreeNodeData) :=
  match n with
  | Linked k =>
      let* t := gets m_allPagesTree in
      match RB_FIND k t with
      | Some _ => modify (set_apt (set_value k d t)) ;;; ret (Linked k)
      | None => fail InvalidAccess
      end
  | Detached k _ => ret (Detached k d)
  end.
Definition apt_Insert (k : Z) (d : CompleteTreeNodeData) : M state (noderef CompleteTreeNodeData) :=
  let* t := gets m_allPagesTree in
  let (n, t') := Insert k d t in
  modify (set_apt t') ;;; ret n.
(** [RB_REMOVE] of a node that is not in the tree is undefined. *)
Definition apt_RemoveNode (n : noderef CompleteTreeNodeData) : M state unit :=
  match n with
  | Linked k =>
      let* t := gets m_allPagesTree in
      match RB_FIND k t with
      | Some _ => modify (set_apt (RB_REMOVE k t))
      | None => fail InvalidAccess
      end
  | Detached _ _ => fail InvalidAccess
  end.

(** [if (list == nullptr) RemoveNode(node); else node->value = list;] *)
Definition fpt_put (sz : Z) (list : list Z) : M state unit :=
  match list with
  | [] => modify (fun s => set_fpt (RB_REMOVE sz (m_freePagesTree s)) s)
  | _ => modify (fun s => set_fpt (set_value sz list (m_freePagesTree s)) s)
  end.

(** [LinkedList::deleteNode(list, key)] on the data of the list. *)
Fixpoint list_delete (key : Z) (list : list Z) : Datatypes.list Z :=
  match list with
  | [] => []
  | x :: l => if x =? key then l else x :: list_delete key l
  end.

(** Find or insert the node of a size and append a region to its list. *)
Definition fpt_add (sz start : Z) : M state unit :=
  let* t := gets m_freePagesTree in
  whenM (match FindNode sz t with None => true | Some _ => false end)
    (modify (set_fpt (snd (Insert sz [] t)))) ;;;
  let* t := gets m_freePagesTree in
  match FindNode sz t with
  | Some (_, l) => modify (set_fpt (set_value sz (l ++ [start]) t))
  | None => fail NullDereference
  end.

(** ** Operations *)

(** [VMRegionAllocator::Init] *)
Definition Init (start end_ : Z) : M state unit :=
  let start := ALIGN_DOWN start PAGE_SIZE in
  let end_ := ALIGN_UP end_ PAGE_SIZE in
  let pageCount :=
    if (start =? 0) && (end_ =? 0) then 2 ^ (64 - PAGE_SIZE_SHIFT)
    else Z.shiftr (sub64 end_ start) PAGE_SIZE_SHIFT in
  modify (fun s => mk start end_ (m_allPagesTree s) (m_freePagesTree s) (m_freePageCount s)
    (m_usedPageCount s) (m_reservedPageCount s) (m_totalPageCount s) (m_locked s)) ;;;
  let* _ := apt_Insert start (mkData (wrap62 pageCount) true false) in
  modify (fun s => set_fpt (snd (Insert pageCount [start] (m_freePagesTree s))) s) ;;;
  modify (fun s => mk (m_start s) (m_end s) (m_allPagesTree s) (m_freePagesTree s)
    pageCount 0 0 pageCount (m_locked s)).

(** [VMRegionAllocator::Delete] *)
Definition Delete : M state unit :=
  Lock ;;;
  modify (fun s => set_fpt (Clear (m_freePagesTree s)) s) ;;;
  modify (fun s => set_apt (Clear (m_allPagesTree s)) s) ;;;
  modify (fun s => mk (m_start s) (m_end s) (m_allPagesTree s) (m_freePagesTree s)
    0 0 0 0 (m_locked s)) ;;;
  Unlock.

(** [VMRegionAllocator::SplitAPTNode]: the node itself (with its new value) and
    the new node. *)
Definition SplitAPTNode (node : noderef CompleteTreeNodeData) (numPages : Z)
  : M state (noderef CompleteTreeNodeData * noderef CompleteTreeNodeData) :=
  let* (key, nodeData) := rd_apt node in
  let oldPageCount := size nodeData in
  let nodeData := set_size numPages nodeData in
  let* node := wr_apt node nodeData in
  let newNodeData := set_size (sub64 oldPageCount numPages) nodeData in
  let* new := apt_Insert (add64 key (shl64 numPages PAGE_SIZE_SHIFT)) newNodeData in
  ret (node, new).

(** [VMRegionAllocator::AllocatePages(uint64_t)]; null is 0. *)
Definition AllocatePages (numPages : Z) : M state Z :=
  Lock ;;;
  let* fpt := gets m_freePagesTree in
  match FindNodeOrHigher numPages fpt with
  | None => Unlock ;;; ret 0
  | Some (key, list) =>
      match list with
      | [] => fail NullDereference
      | start :: freeNode =>
          (if numPages <? key then
             let newNodePageCount := sub64 key numPages in
             fpt_put key freeNode ;;;
             fpt_add newNodePageCount (add64 start (shl64 numPages PAGE_SIZE_SHIFT))
           else fpt_put key freeNode) ;;;
          let* apt := gets m_allPagesTree in
          match FindNodeOrLower start apt with
          | None => Unlock ;;; ret 0
          | Some (akey, _) =>
              let allPagesNode := Linked akey in
              let* allPagesNode :=
                (if akey <? start then
                   let* (_, new) := SplitAPTNode allPagesNode
                                      (Z.shiftr (sub64 start akey) PAGE_SIZE_SHIFT) in ret new
                 else ret allPagesNode) in
              let* (_, nodeData) := rd_apt allPagesNode in
              if negb (isFree nodeData) then Unlock ;;; ret 0 else
              let* allPagesNode :=
                (if numPages <? size nodeData then
                   let* (node, _) := SplitAPTNode allPagesNode numPages in ret node
                 else ret allPagesNode) in
              let* (_, nodeData) := rd_apt allPagesNode in
              let* _ := wr_apt allPagesNode (set_isFree false nodeData) in
              modify (fun s => set_counts (sub64 (m_freePageCount s) numPages)
                                 (add64 (m_usedPageCount s) numPages) s) ;;;
              Unlock ;;;
              ret start
          end
      end
  end.

(** [VMRegionAllocator::AllocatePages(void*, uint64_t, bool)] *)
Definition AllocatePages_at (ptr numPages : Z) (lock : bool) : M state Z :=
  whenM lock Lock ;;;
  let* apt := gets m_allPagesTree in
  match FindNodeOrLower ptr apt with
  | None => whenM lock Unlock ;;; ret 0
  | Some (key, nodeData) =>
      let allPagesNode := Linked key in
      if negb (isFree nodeData)
         || (add64 key (shl64 (size nodeData) PAGE_SIZE_SHIFT)
             <? add64 ptr (shl64 numPages PAGE_SIZE_SHIFT))
      then whenM lock Unlock ;;; ret 0 else
      let* fpt := gets m_freePagesTree in
      match FindNode (size nodeData) fpt with
      | None => whenM lock Unlock ;;; ret 0
      | Some (sz, list) =>
          fpt_put sz (list_delete key list) ;;;
          let* (allPagesNode, nodeData) :=
            (if key <? ptr then
               let pageCount := Z.shiftr (sub64 ptr key) PAGE_SIZE_SHIFT in
               let* (_, node) := SplitAPTNode allPagesNode pageCount in
               fpt_add pageCount key ;;;
               let* (_, nodeData) := rd_apt node in
               ret (node, nodeData)
             else ret (allPagesNode, nodeData)) in
          let* (allPagesNode, nodeData) :=
            (if numPages <? size nodeData then
               let* (allPagesNode, node) := SplitAPTNode allPagesNode numPages in
               let* (nkey, newNodeData) := rd_apt node in
               fpt_add (size newNodeData) nkey ;;;
               let* (_, nodeData) := rd_apt allPagesNode in
               ret (allPagesNode, nodeData)
             else ret (allPagesNode, nodeData)) in
          let* _ := wr_apt allPagesNode (set_isFree false nodeData) in
          modify (fun s => set_counts (sub64 (m_freePageCount s) numPages)
                             (add64 (m_usedPageCount s) numPages) s) ;;;
          whenM lock Unlock ;;;
          ret ptr
      end
  end.

(** Step 1 of [FreePages]: the node to free and its data, or [None] when the
    function returns early. *)
Definition FreePages_find (ptr numPages : Z) (exact : bool)
  : M state (option (noderef CompleteTreeNodeData * CompleteTreeNodeData)) :=
  let* apt := gets m_allPagesTree in
  if exact then
    match FindNode ptr apt with
    | None => ret None
    | Some (key, nodeData) =>
        if isFree nodeData || negb (size nodeData =? numPages) then ret None
        else ret (Some (Linked key, nodeData))
    end
  else
    match FindNodeOrLower ptr apt with
    | None => ret None
    | Some (key, nodeData) =>
        if isFree nodeData
           || (add64 key (mul64 (size nodeData) PAGE_SIZE) <? add64 ptr (mul64 numPages PAGE_SIZE))
        then ret None else
        let* (allPagesNode, nodeData) :=
          (if key <? ptr then
             let* (_, node) := SplitAPTNode (Linked key) (Z.shiftr (sub64 ptr key) PAGE_SIZE_SHIFT) in
             let* (_, nodeData) := rd_apt node in ret (node, nodeData)
           else ret (Linked key, nodeData)) in
        let* (allPagesNode, nodeData) :=
          (if negb (size nodeData =? numPages) then
             let* (node, _) := SplitAPTNode allPagesNode numPages in
             let* (_, nodeData) := rd_apt node in ret (node, nodeData)
           else ret (allPagesNode, nodeData)) in
        ret (Some (allPagesNode, nodeData))
    end.

(** [PreviousNode] through a pointer; undefined outside the tree. *)
Definition apt_PreviousNode (n : noderef CompleteTreeNodeData)
  : M state (option (Z * CompleteTreeNodeData)) :=
  match n with
  | Linked k =>
      let* t := gets m_allPagesTree in
      match RB_FIND k t with Some _ => ret (PreviousNode k t) | None => fail InvalidAccess end
  | Detached _ _ => fail InvalidAccess
  end.

(** [Region] *)
Record Region : Type := mkRegion { r_start : Z; r_size : Z }.

(** Step 2, first half: merge with the previous region. The results are
    [regionToInsert] and the removed regions. *)
Definition merge_previous (allPagesNode : noderef CompleteTreeNodeData) (ptr numPages : Z)
  : M state (Region * list Region) :=
  let* previous := apt_PreviousNode allPagesNode in
  match previous with
  | None => ret (mkRegion ptr numPages, [])
  | Some (pkey, pdata) =>
      if isFree pdata && (add64 pkey (shl64 (size pdata) PAGE_SIZE_SHIFT) =? ptr) then
        apt_RemoveNode (Linked pkey) ;;;
        apt_RemoveNode allPagesNode ;;;
        ret (mkRegion pkey (add64 numPages (size pdata)), [mkRegion pkey (size pdata)])
      else ret (mkRegion ptr numPages, [])
  end.

(** Step 2, second half: merge with the next region. *)
Definition merge_next (allPagesNode : noderef CompleteTreeNodeData) (ptr numPages : Z)
  (ins : Region) (removed : list Region) : M state (Region * list Region) :=
  let* apt := gets m_allPagesTree in
  let end_ := add64 ptr (shl64 numPages PAGE_SIZE_SHIFT) in
  match FindNodeOrHigher end_ apt with
  | None => ret (ins, removed)
  | Some (nkey, ndata) =>
      if isFree ndata && (end_ =? nkey) then
        apt_RemoveNode (Linked nkey) ;;;
        whenM (match removed with [] => true | _ => false end) (apt_RemoveNode allPagesNode) ;;;
        ret (mkRegion (r_start ins) (add64 (r_size ins) (size ndata)),
             removed ++ [mkRegion nkey (size ndata)])
      else ret (ins, removed)
  end.

(** Step 4: take the merged regions off the free lists. *)
Fixpoint remove_regions (removed : list Region) : M state unit :=
  match removed with
  | [] => ret tt
  | r :: removed =>
      let* t := gets m_freePagesTree in
      match FindNode (r_size r) t with
      | None => ret tt
      | Some (sz, l) => fpt_put sz (list_delete (r_start r) l)
      end ;;;
      remove_regions removed
  end.

(** Step 5: insert the new region into the free lists, with the check after it. *)
Definition insert_region (ins : Region) : M state unit :=
  fpt_add (r_size ins) (r_start ins) ;;;
  let* t := gets m_freePagesTree in
  match FindNode (r_size ins) t with
  | Some (_, l) => assertM (bool_decide (r_start ins ∈ l))
  | None => fail NullDereference
  end.

(** [VMRegionAllocator::FreePages] *)
Definition FreePages (ptr numPages : Z) (exact lock : bool) : M state unit :=
  whenM lock Lock ;;;
  let* found := FreePages_find ptr numPages exact in
  match found with
  | None => whenM lock Unlock
  | Some (allPagesNode, nodeData) =>
      let* allPagesNode := wr_apt allPagesNode (set_isFree true nodeData) in
      let* (ins, removed) := merge_previous allPagesNode ptr numPages in
      let* (ins, removed) := merge_next allPagesNode ptr numPages ins removed in
      whenM (match removed with [] => false | _ => true end)
        (let* _ := apt_Insert (r_start ins) (mkData (wrap62 (r_size ins)) true false) in ret tt) ;;;
      remove_regions removed ;;;
      insert_region ins ;;;
      modify (fun s => set_counts (add64 (m_freePageCount s) numPages)
                         (sub64 (m_usedPageCount s) numPages) s) ;;;
      whenM lock Unlock
  end.

(** [ReservePages] and [UnreservePages] are empty in the source. *)
Definition ReservePages (ptr numPages : Z) : M state unit := ret tt.
Definition UnreservePages (ptr numPages : Z) : M state unit := ret tt.

(** [VMRegionAllocator::ResizeAllocatedRegion] *)
Definition ResizeAllocatedRegion (ptr numPages newStart newNumPages : Z) : M state bool :=
  Lock ;;;
  let* apt := gets m_allPagesTree in
  match FindNode ptr apt with
  | None => Unlock ;;; ret false
  | Some (key, nodeData) =>
      if isFree nodeData || negb (size nodeData =? numPages) then Unlock ;;; ret false else
      let* (allPagesNode, nodeData) :=
        (if ptr <? newStart then
           let* (_, node) := SplitAPTNode (Linked key) (Z.shiftr (sub64 newStart ptr) PAGE_SIZE_SHIFT) in
           let* (_, nodeData) := rd_apt node in ret (node, nodeData)
         else ret (Linked key, nodeData)) in
      whenM (negb (size nodeData =? newNumPages))
        (let* _ := SplitAPTNode allPagesNode newNumPages in ret tt) ;;;
      Unlock ;;;
      ret true
  end.

(** [VMRegionAllocator::Fork]: the state is that of [this], [other] is only
    read (both locks are taken and released). *)
Definition Fork (other : state) : M state bool :=
  if m_locked other then fail LockHeld else
  Lock ;;;
  modify (fun s => set_apt (forEach (fun k d t => snd (Insert k d t)) (m_allPagesTree other)
                              (m_allPagesTree s)) s) ;;;
  modify (fun s => set_fpt (forEach (fun k l t => snd (Insert k l t)) (m_freePagesTree other)
                              (m_freePagesTree s)) s) ;;;
  modify (fun s => mk (m_start other) (m_end other) (m_allPagesTree s) (m_freePagesTree s)
    (m_freePageCount other) (m_usedPageCount other) (m_reservedPageCount other)
    (m_totalPageCount other) (m_locked s)) ;;;
  Unlock ;;;
  ret true.

Definition GetStart : M state Z := gets m_start.
Definition GetEnd : M state Z := gets m_end.

(** The callback of [Verify] on one region. *)
Definition Verify_region (fpt : tree (list Z)) (key : Z) (d : CompleteTreeNodeData) : M state unit :=
  assertM (0 <? size d) ;;;
  whenM (isFree d)
    match FindNode (size d) fpt with
    | None => fail AssertionFailed
    | Some (_, []) => fail AssertionFailed
    | Some (_, l) => assertM (bool_decide (key ∈ l))
    end.

Fixpoint Verify_loop (fpt : tree (list Z)) (apt : tree CompleteTreeNodeData) : M state unit :=
  match apt with
  | [] => ret tt
  | (k, d) :: apt => Verify_region fpt k d ;;; Verify_loop fpt apt
  end.

(** [VMRegionAllocator::Verify] *)
Definition Verify : M state unit :=
  let* s := gets (fun s => s) in
  assertM (negb (m_start s =? UINT64_MAX)) ;;;
  assertM (negb (m_end s =? 0)) ;;;
  assertM (m_start s <? m_end s) ;;;
  assertM (add64 (add64 (m_freePageCount s) (m_usedPageCount s)) (m_reservedPageCount s)
           =? m_totalPageCount s) ;;;
  Verify_loop (m_freePagesTree s) (m_allPagesTree s).

End VMRegionAllocator.
