(* ===== verification/VMRegionSpec.v ===== *)
(** * VMRegionSpec.v: correctness of the region allocator

    The invariant of VMRegionAllocator.v (the regions tile the address range,
    neighbouring free regions are merged, the size-indexed lists hold exactly the
    free regions, the counters are right) and the behaviour of every operation,
    stated on the owner of each address. *)

From S2P Require Import Prelude AVLTree VMRegionAllocator.

#[local] Open Scope Z_scope.
#[local] Open Scope kernel_scope.

Module VMRegionSpec.
Import AVLTree VMRegionAllocator.

Notation Data := CompleteTreeNodeData.
Implicit Types (t l r : tree Data) (d : Data) (ft : tree (list Z)).

(** ** Regions *)

Definition bytes (d : Data) : Z := size d * PAGE_SIZE.

(** The regions cover [a, b) without gap or overlap. *)
Fixpoint tiles (a : Z) t (b : Z) : Prop :=
  match t with
  | [] => a = b
  | (k, d) :: t => k = a /\ 0 < size d /\ tiles (k + bytes d) t b
  end.

(** The state of the region an address is in: free, in use, or outside. *)
Fixpoint owner t (p : Z) : option bool :=
  match t with
  | [] => None
  | (k, d) :: t => if (k <=? p) && (p <? k + bytes d) then Some (isFree d) else owner t p
  end.

(** Number of pages in free (in used) regions. *)
Fixpoint pages (f : bool) t : Z :=
  match t with
  | [] => 0
  | (_, d) :: t => (if eqb (isFree d) f then size d else 0) + pages f t
  end.

(** No two neighbouring regions are both free. *)
Fixpoint coalesced t : Prop :=
  match t with
  | (_, d) :: t => match t with (_, d') :: _ => isFree d && isFree d' = false | [] => True end
                   /\ coalesced t
  | [] => True
  end.

(** The free regions, as (start, size). *)
Fixpoint free_regions t : list (Z * Z) :=
  match t with
  | [] => []
  | (k, d) :: t => if isFree d then (k, size d) :: free_regions t else free_regions t
  end.

(** The free list of a size. *)
Definition flist ft (sz : Z) : list Z := default [] (RB_FIND sz ft).

(** The size-indexed tree holds non-empty lists without duplicates. *)
Record fwf ft : Prop := {
  fwf_sorted : sorted ft;
  fwf_lists : forall sz (xs : list Z), RB_FIND sz ft = Some xs -> xs <> [] /\ NoDup xs
}.

(** It holds exactly the free regions. *)
Definition matches ft t : Prop := forall sz x, x ∈ flist ft sz <-> (x, sz) ∈ free_regions t.

Record inv (s : state) : Prop := {
  inv_range : 0 < m_start s < m_end s /\ m_end s < W64;
  inv_aligned : m_start s mod PAGE_SIZE = 0;
  inv_tiles : tiles (m_start s) (m_allPagesTree s) (m_end s);
  inv_coalesced : coalesced (m_allPagesTree s);
  inv_fwf : fwf (m_freePagesTree s);
  inv_matches : matches (m_freePagesTree s) (m_allPagesTree s);
  inv_free : m_freePageCount s = pages true (m_allPagesTree s);
  inv_used : m_usedPageCount s = pages false (m_allPagesTree s);
  inv_reserved : m_reservedPageCount s = 0;
  inv_total : m_totalPageCount s = pages true (m_allPagesTree s) + pages false (m_allPagesTree s)
}.

(** ** Lemmas on tilings *)

Lemma tiles_app a l r b : tiles a (l ++ r) b <-> exists m, tiles a l m /\ tiles m r b.
Proof.
  revert a. induction l as [|[k d] l IH]; intros a; cbn; [naive_solver|].
  rewrite IH. naive_solver.
Qed.

Lemma tiles_le a t b : tiles a t b -> a <= b.
Proof.
  revert a. induction t as [|[k d] t IH]; intros a; cbn; [lia|].
  intros (-> & Hd & Ht%IH). unfold bytes in *. lia.
Qed.

Lemma tiles_elem a t b k d : tiles a t b -> (k, d) ∈ t -> a <= k /\ 0 < size d /\ k + bytes d <= b.
Proof.
  revert a. induction t as [|[k' d'] t IH]; intros a Ht Hin; [by apply not_elem_of_nil in Hin|].
  destruct Ht as (-> & Hd & Ht). apply elem_of_cons in Hin as [[= -> ->]|Hin].
  - apply tiles_le in Ht. split_and!; [lia|done|done].
  - specialize (IH _ Ht Hin). unfold bytes in *. lia.
Qed.

Lemma tiles_sorted a t b : tiles a t b -> sorted t.
Proof.
  revert a. induction t as [|[k d] t IH]; intros a; cbn; [done|].
  intros (-> & Hd & Ht). split; [|by eapply IH]. intros k' d' Hin.
  apply (tiles_elem _ _ _ _ _ Ht) in Hin. unfold bytes in *. lia.
Qed.

Lemma tiles_aligned a t b k d : tiles a t b -> a mod PAGE_SIZE = 0 -> (k, d) ∈ t -> k mod PAGE_SIZE = 0.
Proof.
  revert a. induction t as [|[k' d'] t IH]; intros a Ht Ha Hin; [by apply not_elem_of_nil in Hin|].
  destruct Ht as (-> & Hd & Ht). apply elem_of_cons in Hin as [[= -> ->]|Hin]; [done|].
  eapply IH; [done| |done]. unfold bytes. rewrite Z.mod_add by lia. done.
Qed.

(** A region in the middle of a tiling. *)
Lemma tiles_middle a l k d r b : tiles a (l ++ (k, d) :: r) b ->
  tiles a l k /\ 0 < size d /\ tiles (k + bytes d) r b /\ below l k /\ above (k + bytes d - 1) r.
Proof.
  intros Ht. pose proof (tiles_sorted _ _ _ Ht) as Hs.
  apply tiles_app in Ht as (m & Hl & -> & Hd & Hr).
  apply sorted_middle in Hs as (_ & _ & Hb & _). split_and!; [done..|].
  intros k' d' Hin. apply (tiles_elem _ _ _ _ _ Hr) in Hin. lia.
Qed.

Lemma owner_app l r p : owner (l ++ r) p = match owner l p with Some b => Some b | None => owner r p end.
Proof. induction l as [|[k d] l IH]; cbn; [done|]. by destruct ((k <=? p) && _). Qed.

Lemma owner_outside a t b p : tiles a t b -> p < a \/ b <= p -> owner t p = None.
Proof.
  revert a. induction t as [|[k d] t IH]; intros a Ht Hp; cbn; [done|].
  destruct Ht as (-> & Hd & Ht). pose proof (tiles_le _ _ _ Ht). unfold bytes in *.
  replace ((a <=? p) && (p <? a + size d * PAGE_SIZE)) with false by lia.
  eapply IH; [done|]. lia.
Qed.

Lemma owner_inside a t b p : tiles a t b -> a <= p < b -> is_Some (owner t p).
Proof.
  revert a. induction t as [|[k d] t IH]; intros a Ht Hp; cbn in *; [lia|].
  destruct Ht as (-> & Hd & Ht). unfold bytes in *.
  destruct (Z.ltb_spec p (a + size d * PAGE_SIZE)) as [Hlt|Hge].
  - replace (a <=? p) with true by lia. by eexists.
  - rewrite andb_false_r. eapply IH; [done|lia].
Qed.

Lemma region_pages_app f l r : pages f (l ++ r) = pages f l + pages f r.
Proof. induction l as [|[k d] l IH]; cbn; [done|]. rewrite IH. lia. Qed.

Lemma region_pages_nonneg a f t b : tiles a t b -> 0 <= pages f t.
Proof.
  revert a. induction t as [|[k d] t IH]; intros a; cbn; [lia|].
  intros (-> & Hd & Ht%IH). destruct (eqb (isFree d) f); lia.
Qed.

Lemma pages_total a t b : tiles a t b -> (pages true t + pages false t) * PAGE_SIZE = b - a.
Proof.
  revert a. induction t as [|[k d] t IH]; intros a; cbn; [lia|].
  intros (-> & Hd & Ht%IH). unfold bytes in *. destruct (isFree d); cbn; lia.
Qed.

Lemma free_regions_app l r : free_regions (l ++ r) = free_regions l ++ free_regions r.
Proof. induction l as [|[k d] l IH]; cbn; [done|]. destruct (isFree d); cbn; by rewrite IH. Qed.

Lemma elem_of_free_regions x sz t :
  (x, sz) ∈ free_regions t <-> exists d, (x, d) ∈ t /\ isFree d = true /\ size d = sz.
Proof.
  induction t as [|[k d] t IH]; cbn.
  - split; [by intros ?%not_elem_of_nil|]. by intros (d & ?%not_elem_of_nil & _).
  - assert (E : (exists d', (x, d') ∈ (k, d) :: t /\ isFree d' = true /\ size d' = sz) <->
      (x = k /\ isFree d = true /\ size d = sz) \/ (exists d', (x, d') ∈ t /\ isFree d' = true /\ size d' = sz)).
    { setoid_rewrite elem_of_cons. naive_solver. }
    rewrite E, <- IH. destruct (isFree d); rewrite ?elem_of_cons; naive_solver.
Qed.

Definition lastfree t : bool := match last t with Some (_, d) => isFree d | None => false end.
Definition headfree t : bool := match t with (_, d) :: _ => isFree d | [] => false end.

Lemma coalesced_cons k d t : coalesced ((k, d) :: t) <-> isFree d && headfree t = false /\ coalesced t.
Proof. destruct t as [|[k' d'] t]; cbn; [|done]. by rewrite andb_false_r. Qed.

Lemma lastfree_cons x t : t <> [] -> lastfree (x :: t) = lastfree t.
Proof.
  intros Ht. unfold lastfree. rewrite last_cons.
  destruct (last t) eqn:E; [done|]. by apply last_None in E.
Qed.

Lemma coalesced_app l r : coalesced (l ++ r) <->
  coalesced l /\ coalesced r /\ lastfree l && headfree r = false.
Proof.
  induction l as [|[k d] l IH]; [unfold lastfree; cbn; tauto|].
  rewrite <- app_comm_cons, !coalesced_cons, IH.
  destruct l as [|[k' d'] l]; [unfold lastfree; cbn; rewrite andb_false_r; tauto|].
  rewrite (lastfree_cons (k, d)) by done. cbn [app headfree]. tauto.
Qed.

Lemma lastfree_app l x r : lastfree (l ++ x :: r) = lastfree (x :: r).
Proof. unfold lastfree. rewrite last_app. destruct (last (x :: r)) eqn:E; [done|]. by apply last_None in E. Qed.

(** ** The size-indexed free lists *)

Definition tput (sz : Z) (xs : list Z) ft : tree (list Z) :=
  match xs with [] => RB_REMOVE sz ft | _ => set_value sz xs ft end.
Definition tadd (sz x : Z) ft : tree (list Z) :=
  let ft1 := match RB_FIND sz ft with None => RB_INSERT sz [] ft | Some _ => ft end in
  set_value sz (flist ft1 sz ++ [x]) ft1.

Lemma fpt_put_eq sz xs s : fpt_put sz xs s = Ok (tt, set_fpt (tput sz xs (m_freePagesTree s)) s).
Proof. by destruct xs. Qed.

Lemma fpt_add_eq sz x s : sorted (m_freePagesTree s) ->
  fpt_add sz x s = Ok (tt, set_fpt (tadd sz x (m_freePagesTree s)) s).
Proof.
  intros Hs. destruct s as [a b apt ft f u res tot lk]. cbn in *.
  unfold fpt_add, bind, gets, whenM, modify, ret, FindNode, tadd, flist, Insert, set_fpt. cbn.
  destruct (RB_FIND sz ft) as [xs|] eqn:E; cbn; [by rewrite E|].
  rewrite RB_FIND_INSERT, Z.eqb_refl, E by done. done.
Qed.

Lemma flist_tput sz xs ft sz' : sorted ft -> is_Some (RB_FIND sz ft) ->
  flist (tput sz xs ft) sz' = if sz' =? sz then xs else flist ft sz'.
Proof.
  intros Hs [ys Hy]. unfold flist, tput. destruct xs as [|x xs].
  - rewrite RB_FIND_REMOVE by done. by destruct (sz' =? sz).
  - rewrite RB_FIND_set_value, Hy. by destruct (sz' =? sz).
Qed.

Lemma RB_FIND_tadd sz x ft sz' : sorted ft ->
  RB_FIND sz' (tadd sz x ft) = if sz' =? sz then Some (flist ft sz ++ [x]) else RB_FIND sz' ft.
Proof.
  intros Hs. unfold tadd, flist. destruct (RB_FIND sz ft) as [ys|] eqn:E.
  - rewrite RB_FIND_set_value, E. done.
  - rewrite RB_FIND_set_value, !RB_FIND_INSERT, E, Z.eqb_refl by done. cbn. by destruct (sz' =? sz).
Qed.

Lemma flist_tadd sz x ft sz' : sorted ft ->
  flist (tadd sz x ft) sz' = if sz' =? sz then flist ft sz ++ [x] else flist ft sz'.
Proof. intros Hs. unfold flist at 1. rewrite RB_FIND_tadd by done. by destruct (sz' =? sz). Qed.

Lemma elem_list_delete x xs y : NoDup xs -> y ∈ list_delete x xs <-> y ∈ xs /\ y <> x.
Proof.
  induction xs as [|z xs IH]; cbn; intros Hnd; [set_solver|]. apply NoDup_cons in Hnd as [Hz Hnd].
  destruct (Z.eqb_spec z x) as [->|Hne]; [set_solver|]. rewrite !elem_of_cons, IH by done. set_solver.
Qed.

Lemma NoDup_list_delete x xs : NoDup xs -> NoDup (list_delete x xs).
Proof.
  induction xs as [|z xs IH]; cbn; intros Hnd; [done|]. apply NoDup_cons in Hnd as [Hz Hnd].
  destruct (z =? x); [done|]. constructor; [|by apply IH]. rewrite elem_list_delete by done. tauto.
Qed.

Lemma flist_elem ft sz x : x ∈ flist ft sz -> is_Some (RB_FIND sz ft).
Proof. unfold flist. destruct (RB_FIND sz ft); cbn; [done|]. by intros ?%not_elem_of_nil. Qed.

(** Taking a region off its list. *)
Lemma take_region ft sz x : fwf ft -> x ∈ flist ft sz ->
  let ft' := tput sz (list_delete x (flist ft sz)) ft in
  fwf ft' /\ forall sz' y, y ∈ flist ft' sz' <-> y ∈ flist ft sz' /\ (y, sz') <> (x, sz).
Proof.
  intros [Hs Hl] Hx ft'. destruct (flist_elem _ _ _ Hx) as [xs Hxs].
  assert (Hnd : NoDup (flist ft sz)) by (unfold flist; rewrite Hxs; by eapply Hl).
  split.
  - split.
    + unfold ft', tput. destruct (list_delete _ _); [by apply sorted_REMOVE|by apply sorted_set_value].
    + intros sz' ys Hys. unfold ft', tput in Hys.
      destruct (list_delete x (flist ft sz)) as [|z zs] eqn:E.
      * rewrite RB_FIND_REMOVE in Hys by done. destruct (sz' =? sz); [done|by eapply Hl].
      * rewrite RB_FIND_set_value, Hxs in Hys. destruct (sz' =? sz); [|by eapply Hl].
        cbn in Hys. simplify_eq. split; [done|]. rewrite <- E. by apply NoDup_list_delete.
  - intros sz' y. unfold ft'. rewrite flist_tput by (done || eauto).
    destruct (Z.eqb_spec sz' sz) as [->|?]; [|naive_solver]. rewrite elem_list_delete by done. naive_solver.
Qed.

(** Adding a region. *)
Lemma add_region ft sz x : fwf ft -> x ∉ flist ft sz ->
  let ft' := tadd sz x ft in
  fwf ft' /\ forall sz' y, y ∈ flist ft' sz' <-> y ∈ flist ft sz' \/ (y, sz') = (x, sz).
Proof.
  intros [Hs Hl] Hx ft'.
  assert (Hnd : NoDup (flist ft sz)).
  { unfold flist. destruct (RB_FIND sz ft) eqn:E; [by eapply Hl|constructor]. }
  split.
  - split.
    + unfold ft', tadd. apply sorted_set_value. destruct (RB_FIND sz ft); [done|by apply sorted_INSERT].
    + intros sz' ys Hys. unfold ft' in Hys. rewrite RB_FIND_tadd in Hys by done.
      destruct (sz' =? sz); [|by eapply Hl]. simplify_eq. split; [by destruct (flist ft sz)|].
      apply NoDup_app. split_and!; [done|set_solver|apply NoDup_singleton].
  - intros sz' y. unfold ft'. rewrite flist_tadd by done.
    destruct (Z.eqb_spec sz' sz) as [->|?]; [|naive_solver].
    rewrite elem_of_app, list_elem_of_singleton. naive_solver.
Qed.

(** ** Replacing regions *)

Lemma tiles_split a l mid r b : tiles a (l ++ mid ++ r) b ->
  exists x y, tiles a l x /\ tiles x mid y /\ tiles y r b.
Proof. intros (x & Hl & (y & Hm & Hr)%tiles_app)%tiles_app. eauto. Qed.

Lemma owner_replace a l mid mid' r b x y p :
  tiles a l x -> tiles x mid y -> tiles x mid' y -> tiles y r b ->
  owner (l ++ mid' ++ r) p =
  if (x <=? p) && (p <? y) then owner mid' p else owner (l ++ mid ++ r) p.
Proof.
  intros Hl Hm Hm' Hr. rewrite !owner_app.
  destruct (Z.leb_spec x p), (Z.ltb_spec p y); cbn.
  - rewrite (owner_outside _ _ _ _ Hl) by lia.
    destruct (owner_inside _ _ _ p Hm') as [? ->]; [lia|done].
  - by rewrite (owner_outside _ _ _ _ Hm), (owner_outside _ _ _ _ Hm') by lia.
  - by rewrite (owner_outside _ _ _ _ Hm), (owner_outside _ _ _ _ Hm') by lia.
  - by rewrite (owner_outside _ _ _ _ Hm), (owner_outside _ _ _ _ Hm') by lia.
Qed.

Lemma matches_replace ft ft' a l mid mid' r b :
  tiles a (l ++ mid ++ r) b -> matches ft (l ++ mid ++ r) ->
  (forall sz y, y ∈ flist ft' sz <->
     (y ∈ flist ft sz /\ (y, sz) ∉ free_regions mid) \/ (y, sz) ∈ free_regions mid') ->
  matches ft' (l ++ mid' ++ r).
Proof.
  intros (x & y & Hl & Hm & Hr)%tiles_split Hmat Hft' sz z. rewrite Hft', (Hmat sz z), !free_regions_app.
  rewrite !elem_of_app.
  assert (Hdl : (z, sz) ∈ free_regions l -> (z, sz) ∉ free_regions mid).
  { intros (d & Hd & _)%elem_of_free_regions (d' & Hd' & _)%elem_of_free_regions.
    apply (tiles_elem _ _ _ _ _ Hl) in Hd. apply (tiles_elem _ _ _ _ _ Hm) in Hd'. unfold bytes in *. lia. }
  assert (Hdr : (z, sz) ∈ free_regions r -> (z, sz) ∉ free_regions mid).
  { intros (d & Hd & _)%elem_of_free_regions (d' & Hd' & _)%elem_of_free_regions.
    apply (tiles_elem _ _ _ _ _ Hr) in Hd. apply (tiles_elem _ _ _ _ _ Hm) in Hd'. unfold bytes in *. lia. }
  tauto.
Qed.

(** The invariant after the regions [mid] are replaced by [mid']. *)
Lemma inv_replace s l mid mid' r x y ft' f' u' lk :
  inv s -> m_allPagesTree s = l ++ mid ++ r ->
  tiles x mid y -> tiles x mid' y -> coalesced (l ++ mid' ++ r) -> fwf ft' ->
  (forall sz z, z ∈ flist ft' sz <->
     (z ∈ flist (m_freePagesTree s) sz /\ (z, sz) ∉ free_regions mid) \/ (z, sz) ∈ free_regions mid') ->
  f' = m_freePageCount s - pages true mid + pages true mid' ->
  u' = m_usedPageCount s - pages false mid + pages false mid' ->
  mid <> [] ->
  inv (mk (m_start s) (m_end s) (l ++ mid' ++ r) ft' f' u' (m_reservedPageCount s) (m_totalPageCount s) lk).
Proof.
  intros [Hrg Hal Ht Hco Hfw Hmat Hf Hu Hres Htot] Hapt Hm Hm' Hco' Hfw' Hft' -> -> Hne.
  rewrite Hapt in *. pose proof Ht as (x' & y' & Hl & Hm2 & Hr)%tiles_split.
  assert (x' = x) as ->.
  { destruct mid as [|[k d] mid]; [done|]. destruct Hm as [<- _], Hm2 as [<- _]. done. }
  assert (y' = y) as ->.
  { pose proof (pages_total _ _ _ Hm). pose proof (pages_total _ _ _ Hm2). lia. }
  pose proof (pages_total _ _ _ Hm) as Hp. pose proof (pages_total _ _ _ Hm') as Hp'.
  constructor; cbn; [done..| |done|done| |rewrite Hf|rewrite Hu|done|rewrite Htot];
    try (rewrite !region_pages_app in *; lia).
  - apply tiles_app. exists x. split; [done|]. apply tiles_app. by exists y.
  - by eapply matches_replace.
Qed.

(** The region of a node and the bounds needed to compute with it. *)
Lemma region_facts s l k d r : inv s -> m_allPagesTree s = l ++ (k, d) :: r ->
  0 < m_start s /\ m_start s <= k /\ 0 < size d < 2 ^ 52 /\ k + bytes d <= m_end s /\ m_end s < W64 /\
  k mod PAGE_SIZE = 0 /\ below l k /\ above (k + bytes d - 1) r /\ sorted (l ++ (k, d) :: r) /\
  tiles (m_start s) l k /\ tiles (k + bytes d) r (m_end s).
Proof.
  intros Hinv E. pose proof (inv_tiles _ Hinv) as Ht. rewrite E in Ht.
  pose proof (inv_range _ Hinv). pose proof (inv_aligned _ Hinv) as Hal.
  assert (Hin : (k, d) ∈ l ++ (k, d) :: r) by set_solver.
  pose proof (tiles_elem _ _ _ _ _ Ht Hin). pose proof (tiles_aligned _ _ _ _ _ Ht Hal Hin).
  pose proof (tiles_middle _ _ _ _ _ _ Ht) as (? & ? & ? & ? & ?). pose proof (tiles_sorted _ _ _ Ht).
  unfold bytes in *. split_and!; try done; lia.
Qed.

(** The other free regions are not free regions of this size and start. *)
Lemma region_listed s l k d r : inv s -> m_allPagesTree s = l ++ (k, d) :: r ->
  (k ∈ flist (m_freePagesTree s) (size d) <-> isFree d = true) /\
  (forall x sz, m_start s <= x -> x ∈ flist (m_freePagesTree s) sz -> owner (m_allPagesTree s) x = Some true).
Proof.
  intros Hinv E. pose proof (inv_tiles _ Hinv) as Ht. split.
  - rewrite (inv_matches _ Hinv (size d) k), elem_of_free_regions, E. split.
    + intros (d' & Hd' & Hf & Hsz). rewrite E in Ht. pose proof (tiles_sorted _ _ _ Ht) as Hs.
      apply (RB_FIND_Some k d' _ Hs) in Hd'. pose proof Hs as (_ & _ & Hb & _)%sorted_middle.
      rewrite RB_FIND_middle in Hd' by done. by simplify_eq.
    + intros Hf. exists d. split_and!; [set_solver|done|done].
  - intros x sz _ Hx. rewrite (inv_matches _ Hinv sz x), elem_of_free_regions in Hx.
    destruct Hx as (d' & Hd' & Hf & Hsz). apply list_elem_of_split in Hd' as (l' & r' & E').
    rewrite E' in *. pose proof Ht as (Hl & Hd & _)%tiles_middle.
    rewrite owner_app, (owner_outside _ _ _ _ Hl) by lia. cbn.
    replace ((x <=? x) && (x <? x + bytes d')) with true by (unfold bytes; lia). by rewrite Hf.
Qed.

(** ** Execution *)

#[local] Arguments FindNodeOrLower : simpl never.
#[local] Arguments FindNodeOrHigher : simpl never.
#[local] Arguments flist : simpl never.
#[local] Arguments tput : simpl never.
#[local] Arguments tadd : simpl never.
#[local] Arguments rd_apt : simpl never.
#[local] Arguments apt_RemoveNode : simpl never.
#[local] Arguments fpt_put : simpl never.
#[local] Arguments wr_apt : simpl never.
#[local] Arguments add64 : simpl never.
#[local] Arguments sub64 : simpl never.
#[local] Arguments shl64 : simpl never.
#[local] Arguments Z.mul : simpl never.

(** Compute the fields of an updated state. *)
Ltac st := cbn [m_start m_end m_allPagesTree m_freePagesTree m_freePageCount m_usedPageCount
  m_reservedPageCount m_totalPageCount m_locked set_apt set_fpt set_counts set_locked
  size isFree isReserved set_isFree orb negb andb].
Ltac go := do 2 (cbn beta iota; mgo; st).

Lemma shl64_pages n : 0 <= n < 2 ^ 52 -> shl64 n PAGE_SIZE_SHIFT = n * PAGE_SIZE.
Proof. intros Hn. unfold shl64. rewrite Z.shiftl_mul_pow2 by lia. rewrite wrap64_small; lia. Qed.

Lemma shiftr_pages n : Z.shiftr (n * PAGE_SIZE) PAGE_SIZE_SHIFT = n.
Proof. rewrite Z.shiftr_div_pow2 by lia. change (2 ^ PAGE_SIZE_SHIFT) with PAGE_SIZE. apply Z.div_mul. lia. Qed.

Lemma wrap62_small n : 0 <= n < 2 ^ 52 -> wrap62 n = n.
Proof. intros. unfold wrap62. apply Z.mod_small. lia. Qed.

Lemma rd_apt_eq s l k d r : m_allPagesTree s = l ++ (k, d) :: r -> below l k ->
  rd_apt (Linked k) s = Ok ((k, d), s).
Proof. intros E Hb. unfold rd_apt, bind, gets. rewrite E, RB_FIND_middle by done. done. Qed.

Lemma wr_apt_eq s l k d d' r : m_allPagesTree s = l ++ (k, d) :: r -> below l k ->
  wr_apt (Linked k) d' s = Ok (Linked k, set_apt (l ++ (k, d') :: r) s).
Proof.
  intros E Hb. unfold wr_apt, bind, gets, modify, ret. rewrite E, RB_FIND_middle by done.
  by rewrite set_value_middle.
Qed.

Lemma SplitAPTNode_eq s l k d r n :
  m_allPagesTree s = l ++ (k, d) :: r -> below l k -> above (k + bytes d - 1) r ->
  0 < n < size d -> size d < 2 ^ 52 -> 0 <= k -> k + bytes d < W64 ->
  SplitAPTNode (Linked k) n s =
  Ok ((Linked k, Linked (k + n * PAGE_SIZE)),
      set_apt (l ++ (k, mkData n (isFree d) (isReserved d)) ::
                    (k + n * PAGE_SIZE, mkData (size d - n) (isFree d) (isReserved d)) :: r) s).
Proof.
  intros E Hb Ha Hn Hsz Hk Hend. unfold SplitAPTNode, bind. rewrite (rd_apt_eq _ _ _ _ _ E Hb).
  rewrite (wr_apt_eq _ _ _ _ _ _ E Hb). unfold apt_Insert, bind, gets, set_size, modify, ret. cbn.
  unfold bytes in *. rewrite shl64_pages, add64_small, sub64_small, !wrap62_small by lia.
  rewrite cons_middle, app_assoc, Insert_middle; [by rewrite <- app_assoc| |].
  - apply below_app. split.
    + intros k' d' Hin. specialize (Hb _ _ Hin). lia.
    + intros k' d' [= -> ->]%list_elem_of_singleton. lia.
  - intros k' d' Hin. specialize (Ha _ _ Hin). lia.
Qed.

(** ** Allocation of any region *)

Lemma list_delete_head x xs : list_delete x (x :: xs) = xs.
Proof. cbn. by rewrite Z.eqb_refl. Qed.

(** The state after the free region [k] (of [d] pages) lost its first [n] pages
    to a used region. *)
Definition alloc_state (s : state) l (k : Z) d r (n : Z) : state :=
  let used := (k, mkData n false (isReserved d)) in
  let rest := (k + n * PAGE_SIZE, mkData (size d - n) true (isReserved d)) in
  let ft := tput (size d) (list_delete k (flist (m_freePagesTree s) (size d))) (m_freePagesTree s) in
  if n <? size d then
    mk (m_start s) (m_end s) (l ++ used :: rest :: r) (tadd (size d - n) (k + n * PAGE_SIZE) ft)
       (m_freePageCount s - n) (m_usedPageCount s + n) (m_reservedPageCount s) (m_totalPageCount s) (m_locked s)
  else
    mk (m_start s) (m_end s) (l ++ used :: r) ft
       (m_freePageCount s - n) (m_usedPageCount s + n) (m_reservedPageCount s) (m_totalPageCount s) (m_locked s).

Lemma counts_bound s f : inv s -> 0 <= pages f (m_allPagesTree s) < 2 ^ 52.
Proof.
  intros Hinv. pose proof (inv_tiles _ Hinv) as Ht. pose proof (inv_range _ Hinv).
  pose proof (region_pages_nonneg _ true _ _ Ht). pose proof (region_pages_nonneg _ false _ _ Ht).
  pose proof (pages_total _ _ _ Ht). destruct f; lia.
Qed.

Lemma pages_middle f l k d r : pages f (l ++ (k, d) :: r) =
  pages f l + (if eqb (isFree d) f then size d else 0) + pages f r.
Proof. rewrite region_pages_app. cbn. lia. Qed.

Lemma region_AllocatePages_runs s n l k d r xs :
  inv s -> m_locked s = false -> 0 < n -> m_allPagesTree s = l ++ (k, d) :: r -> isFree d = true ->
  FindNodeOrHigher n (m_freePagesTree s) = Some (size d, k :: xs) -> n <= size d ->
  runs (AllocatePages n) s (fun p s' => p = k /\ s' = alloc_state s l k d r n).
Proof.
  intros Hinv Hlk Hn E Hf Hnf Hle.
  destruct (region_facts _ _ _ _ _ Hinv E) as (Hs0 & Hsk & Hsz & Hend & HW & Hal & Hb & Ha & Hsort & Htl & Htr).
  pose proof (counts_bound s true Hinv) as Hfb. pose proof (counts_bound s false Hinv) as Hub.
  pose proof (inv_free _ Hinv) as Hfc. pose proof (inv_used _ Hinv) as Huc.
  assert (Hn52 : n <= pages true (m_allPagesTree s)).
  { pose proof (inv_tiles _ Hinv) as Ht. rewrite E in Ht |- *. rewrite pages_middle, Hf. cbn.
    pose proof (region_pages_nonneg _ true _ _ Htl). pose proof (region_pages_nonneg _ true _ _ Htr). lia. }
  pose proof (RB_NFIND_spec n _ (fwf_sorted _ (inv_fwf _ Hinv))) as Hspec.
  unfold FindNodeOrHigher in Hnf. rewrite Hnf in Hspec. destruct Hspec as (Hfind & _ & _).
  assert (Hfl : flist (m_freePagesTree s) (size d) = k :: xs) by (unfold flist; by rewrite Hfind).
  assert (Hkin : k ∈ flist (m_freePagesTree s) (size d)) by (rewrite Hfl; set_solver).
  destruct (take_region _ _ _ (inv_fwf _ Hinv) Hkin) as [Hfw1 Hft1].
  unfold alloc_state. rewrite Hfl, list_delete_head in *.
  assert (Hs1 : sorted (tput (size d) xs (m_freePagesTree s))) by apply Hfw1.
  destruct s as [ms me apt ft fc uc rc tc lk]. cbn in * |-. subst lk apt fc uc.
  unfold AllocatePages, Lock. go. cbn [m_locked]. go. cbn [m_freePagesTree set_locked].
  unfold FindNodeOrHigher. rewrite Hnf. go. unfold bytes in *.
  match goal with |- runs _ _ ?Q => set (Q0 := Q) end.
  rewrite shl64_pages, sub64_small, add64_small by lia.
  destruct (Z.ltb_spec n (size d)) as [Hlt|Hge].
  - go. eapply runs_eq; [apply fpt_put_eq|]. go. eapply runs_eq; [by apply fpt_add_eq|].
    unfold Q0. go. rewrite FindNodeOrLower_middle; [|done|lia|intros ?? Hin; specialize (Ha _ _ Hin); lia].
    rewrite Z.ltb_irrefl. go. eapply runs_eq; [eapply rd_apt_eq; [reflexivity|done]|]. go. rewrite Hf. st.
    rewrite (proj2 (Z.ltb_lt _ _) Hlt). go. eapply runs_eq; [eapply SplitAPTNode_eq; [reflexivity|..]; unfold bytes; done || lia|].
    go. eapply runs_eq; [eapply rd_apt_eq; [reflexivity|done]|]. go. eapply runs_eq; [eapply wr_apt_eq; [reflexivity|done]|].
    go. unfold Unlock. go. split; [done|]. st. unfold set_isFree, set_locked, set_counts. cbn.
    rewrite sub64_small, add64_small by lia. rewrite Hf. done.
  - eapply runs_eq; [apply fpt_put_eq|].
    unfold Q0. go. rewrite FindNodeOrLower_middle; [|done|lia|intros ?? Hin; specialize (Ha _ _ Hin); lia].
    rewrite Z.ltb_irrefl. go. eapply runs_eq; [eapply rd_apt_eq; [reflexivity|done]|]. go. rewrite Hf. st.
    rewrite (proj2 (Z.ltb_ge _ _) Hge). go.
    eapply runs_eq; [eapply rd_apt_eq; [reflexivity|done]|]. go. eapply runs_eq; [eapply wr_apt_eq; [reflexivity|done]|].
    go. unfold Unlock. go. split; [done|]. st. unfold set_isFree, set_locked, set_counts. cbn.
    rewrite sub64_small, add64_small by lia. by replace n with (size d) by lia.
Qed.

Lemma coalesced_middle l k d r : coalesced (l ++ (k, d) :: r) <->
  coalesced l /\ coalesced r /\ lastfree l && isFree d = false /\ isFree d && headfree r = false.
Proof. rewrite coalesced_app, coalesced_cons. cbn [headfree]. tauto. Qed.

(** ** Allocation at an address *)

(** A listed region that starts inside the region [k] is that region. *)
Lemma listed_unique s l k d r x sz : inv s -> m_allPagesTree s = l ++ (k, d) :: r ->
  x ∈ flist (m_freePagesTree s) sz -> k <= x < k + bytes d -> x = k /\ sz = size d.
Proof.
  intros Hinv E Hx Hr.
  destruct (region_facts _ _ _ _ _ Hinv E) as (_ & _ & _ & _ & _ & _ & Hb & Ha & _).
  rewrite (inv_matches _ Hinv _ _), elem_of_free_regions, E in Hx. destruct Hx as (d' & Hin & _ & <-).
  apply elem_of_app in Hin as [Hin|[[= -> ->]|Hin]%elem_of_cons]; [|done|].
  - specialize (Hb _ _ Hin). lia.
  - specialize (Ha _ _ Hin). lia.
Qed.

(** The state after [n] pages, [n1] pages into the free region [k], became used. *)
Definition at_regions (k : Z) d (n1 n : Z) : tree Data :=
  (if 0 <? n1 then [(k, mkData n1 true (isReserved d))] else []) ++
  (k + n1 * PAGE_SIZE, mkData n false (isReserved d)) ::
  (if n <? size d - n1 then
     [(k + n1 * PAGE_SIZE + n * PAGE_SIZE, mkData (size d - n1 - n) true (isReserved d))] else []).
Definition at_lists ft (k : Z) d (n1 n : Z) : tree (list Z) :=
  let ft0 := tput (size d) (list_delete k (flist ft (size d))) ft in
  let ft1 := if 0 <? n1 then tadd n1 k ft0 else ft0 in
  if n <? size d - n1 then tadd (size d - n1 - n) (k + n1 * PAGE_SIZE + n * PAGE_SIZE) ft1 else ft1.
Definition at_state (s : state) l (k : Z) d r (n1 n : Z) : state :=
  mk (m_start s) (m_end s) (l ++ at_regions k d n1 n ++ r) (at_lists (m_freePagesTree s) k d n1 n)
     (m_freePageCount s - n) (m_usedPageCount s + n) (m_reservedPageCount s) (m_totalPageCount s) (m_locked s).

Lemma at_lists_spec s l k d r n1 n :
  inv s -> m_allPagesTree s = l ++ (k, d) :: r -> isFree d = true -> 0 <= n1 -> 0 < n -> n1 + n <= size d ->
  let ft0 := tput (size d) (list_delete k (flist (m_freePagesTree s) (size d))) (m_freePagesTree s) in
  let ft1 := if 0 <? n1 then tadd n1 k ft0 else ft0 in
  fwf ft0 /\ fwf ft1 /\ fwf (at_lists (m_freePagesTree s) k d n1 n) /\
  forall sz z, z ∈ flist (at_lists (m_freePagesTree s) k d n1 n) sz <->
    (z ∈ flist (m_freePagesTree s) sz /\ (z, sz) <> (k, size d)) \/ (z, sz) ∈ free_regions (at_regions k d n1 n).
Proof.
  intros Hinv E Hf Hn1 Hn Hle ft0 ft1.
  destruct (region_facts _ _ _ _ _ Hinv E) as (Hs0 & Hsk & Hsz & Hend & HW & _).
  specialize (proj2 (proj1 (region_listed _ _ _ _ _ Hinv E)) Hf) as Hkin.
  destruct (take_region _ _ _ (inv_fwf _ Hinv) Hkin) as [Hfw0 Hft0]. fold ft0 in Hfw0, Hft0.
  pose proof (listed_unique s l k d r) as Huniq. specialize (fun x sz => Huniq x sz Hinv E).
  assert (H1 : fwf ft1 /\ forall sz z, z ∈ flist ft1 sz <->
    (z ∈ flist (m_freePagesTree s) sz /\ (z, sz) <> (k, size d)) \/ (0 < n1 /\ (z, sz) = (k, n1))).
  { unfold ft1. destruct (Z.ltb_spec 0 n1).
    - destruct (add_region ft0 n1 k Hfw0) as [Hfw1 Hft1].
      { rewrite Hft0. intros [Hin Hne]. apply Huniq in Hin as [_ ->]; [|unfold bytes; lia]. done. }
      split; [done|]. intros sz z. rewrite Hft1, Hft0. naive_solver.
    - split; [done|]. intros sz z. rewrite Hft0. split; [tauto|]. intros [?|[? _]]; [done|lia]. }
  destruct H1 as [Hfw1 Hft1]. split_and!; [done..| |].
  - unfold at_lists. fold ft0. fold ft1. destruct (Z.ltb_spec n (size d - n1)); [|done].
    apply add_region; [done|]. rewrite Hft1. intros [[Hin Hne]|[_ [=]]]; [|lia].
    apply Huniq in Hin as [? _]; unfold bytes in *; lia.
  - intros sz z. unfold at_lists. fold ft0. fold ft1. unfold at_regions.
    rewrite free_regions_app, elem_of_app. destruct (Z.ltb_spec n (size d - n1)) as [Hlt|Hge].
    + destruct (add_region ft1 (size d - n1 - n) (k + n1 * PAGE_SIZE + n * PAGE_SIZE) Hfw1) as [_ Hft2].
      { rewrite Hft1. intros [[Hin Hne]|[_ [=]]]; [|lia].
        apply Huniq in Hin as [? _]; unfold bytes in *; lia. }
      rewrite Hft2, Hft1. destruct (Z.ltb_spec 0 n1); cbn; rewrite ?list_elem_of_singleton; [tauto|].
      assert (~ 0 < n1) by lia. rewrite elem_of_nil. tauto.
    + rewrite Hft1. destruct (Z.ltb_spec 0 n1); cbn; rewrite ?list_elem_of_singleton, ?elem_of_nil; [tauto|].
      assert (~ 0 < n1) by lia. tauto.
Qed.

Lemma at_inv s l k d r n1 n :
  inv s -> m_allPagesTree s = l ++ (k, d) :: r -> isFree d = true -> 0 <= n1 -> 0 < n -> n1 + n <= size d ->
  inv (at_state s l k d r n1 n) /\
  forall p, owner (m_allPagesTree (at_state s l k d r n1 n)) p =
    if (k + n1 * PAGE_SIZE <=? p) && (p <? k + n1 * PAGE_SIZE + n * PAGE_SIZE) then Some false
    else owner (m_allPagesTree s) p.
Proof.
  intros Hinv E Hf Hn1 Hn Hle.
  destruct (region_facts _ _ _ _ _ Hinv E) as (Hs0 & Hsk & Hsz & Hend & HW & Hal & Hb & Ha & Hsort & Htl & Htr).
  pose proof (inv_coalesced _ Hinv) as Hco. rewrite E, coalesced_middle, Hf in Hco.
  rewrite andb_true_r in Hco. cbn in Hco. destruct Hco as (Hcl & Hcr & Hll & Hhr).
  destruct (at_lists_spec s l k d r n1 n Hinv E Hf Hn1 Hn Hle) as (_ & _ & Hfw & Hft).
  assert (Hm : tiles k [(k, d)] (k + bytes d)) by (cbn; split_and!; [done|lia|done]).
  assert (Hm' : tiles k (at_regions k d n1 n) (k + bytes d)).
  { unfold at_regions. destruct (Z.ltb_spec 0 n1), (Z.ltb_spec n (size d - n1)); cbn; unfold bytes; cbn;
      split_and!; lia. }
  unfold at_state. split.
  - eapply (inv_replace s l [(k, d)] _ r); [done|done|exact Hm|exact Hm'| |exact Hfw| | | |done].
    + unfold at_regions. destruct (0 <? n1), (n <? size d - n1); cbn [app].
      all: rewrite ?coalesced_middle, ?coalesced_cons; cbn; rewrite ?Hll, ?Hhr, ?andb_false_r; done.
    + intros sz z. rewrite Hft. cbn. rewrite Hf, list_elem_of_singleton. done.
    + unfold at_regions. cbn. rewrite Hf. rewrite region_pages_app.
      destruct (Z.ltb_spec 0 n1), (Z.ltb_spec n (size d - n1)); cbn; lia.
    + unfold at_regions. cbn. rewrite Hf. rewrite region_pages_app.
      destruct (Z.ltb_spec 0 n1), (Z.ltb_spec n (size d - n1)); cbn; lia.
  - intros p. cbn [m_allPagesTree]. rewrite E.
    etransitivity; [exact (owner_replace _ l [(k, d)] _ r _ _ _ p Htl Hm Hm' Htr)|].
    destruct ((k <=? p) && (p <? k + bytes d)) eqn:Hin; unfold bytes in *.
    + rewrite owner_app, (owner_outside _ _ _ _ Htl) by lia. unfold at_regions. cbn. unfold bytes. rewrite Hin, Hf.
      destruct (Z.ltb_spec 0 n1), (Z.ltb_spec n (size d - n1)); cbn; unfold bytes; cbn;
        repeat match goal with |- context [if ?b then _ else _] => destruct b eqn:? end; try done; lia.
    + replace ((k + n1 * PAGE_SIZE <=? p) && (p <? k + n1 * PAGE_SIZE + n * PAGE_SIZE)) with false by lia. done.
Qed.

Lemma alloc_state_at s l k d r n : alloc_state s l k d r n = at_state s l k d r 0 n.
Proof.
  unfold alloc_state, at_state, at_regions, at_lists. cbn [Z.ltb Z.compare app].
  rewrite Z.mul_0_l, Z.add_0_r, Z.sub_0_r. by destruct (n <? size d).
Qed.

(** C40: [AllocatePages] is best fit and exact. It returns null only when every
    free region is smaller than the request, and then changes nothing. Otherwise
    it returns the start of a smallest sufficient free region; exactly the
    requested pages change from free to used and the invariant (tiling, merged
    free regions, lists and counters) is kept. *)
Theorem region_AllocatePages_spec (s : state) (n : Z) :
  inv s -> m_locked s = false -> 0 < n ->
  runs (AllocatePages n) s (fun p s' => inv s' /\ m_locked s' = false /\
    ((p = 0 /\ s' = s /\ forall k d, (k, d) ∈ m_allPagesTree s -> isFree d = true -> size d < n) \/
     (p <> 0 /\
      (exists d, (p, d) ∈ m_allPagesTree s /\ isFree d = true /\ n <= size d /\
         forall k' d', (k', d') ∈ m_allPagesTree s -> isFree d' = true -> n <= size d' -> size d <= size d') /\
      forall q, owner (m_allPagesTree s') q =
        if (p <=? q) && (q <? p + n * PAGE_SIZE) then Some false else owner (m_allPagesTree s) q))).
Proof.
  intros Hinv Hlk Hn. pose proof (RB_NFIND_spec n _ (fwf_sorted _ (inv_fwf _ Hinv))) as Hspec.
  destruct (RB_NFIND n (m_freePagesTree s)) as [[sz list]|] eqn:Hnf.
  - destruct Hspec as (Hfind & Hle & Hbest).
    destruct (fwf_lists _ (inv_fwf _ Hinv) _ _ Hfind) as [Hne _]. destruct list as [|k xs]; [done|].
    assert (Hin : k ∈ flist (m_freePagesTree s) sz) by (unfold flist; rewrite Hfind; set_solver).
    rewrite (inv_matches _ Hinv _ _), elem_of_free_regions in Hin. destruct Hin as (d & Hin & Hf & <-).
    pose proof Hin as (l & r & E)%list_elem_of_split.
    eapply runs_mono; [by eapply region_AllocatePages_runs|]. intros p s' [-> ->].
    destruct (at_inv s l k d r 0 n Hinv E Hf) as [Hinv' Hown]; [lia..|].
    rewrite <- alloc_state_at in Hown, Hinv'. rewrite Z.mul_0_l, Z.add_0_r in Hown.
    destruct (region_facts _ _ _ _ _ Hinv E) as (Hs0 & Hsk & _).
    split_and!; [done|unfold alloc_state; by destruct (n <? size d)|]. right.
    split_and!; [lia| |done]. exists d. split_and!; [done..|]. intros k' d' Hin' Hf' Hn'.
    destruct (decide (size d <= size d')) as [|Hlt]; [done|]. exfalso.
    assert (Hx : k' ∈ flist (m_freePagesTree s) (size d')).
    { rewrite (inv_matches _ Hinv _ _), elem_of_free_regions. eauto. }
    apply flist_elem in Hx as [ys Hys]. rewrite Hbest in Hys; [done|lia].
  - unfold AllocatePages, Lock. go. rewrite Hlk. go.
    unfold FindNodeOrHigher. rewrite Hnf. unfold Unlock. go.
    assert (Es : set_locked false (set_locked true s) = s) by (destruct s; cbn in *; by subst).
    rewrite Es. split_and!; [done..|]. left. split_and!; [done..|]. intros k d Hin Hf.
    destruct (decide (size d < n)); [done|]. exfalso.
    assert (Hx : k ∈ flist (m_freePagesTree s) (size d)).
    { rewrite (inv_matches _ Hinv _ _), elem_of_free_regions. eauto. }
    apply flist_elem in Hx as [ys Hys]. rewrite Hspec in Hys; [done|lia].
Qed.

(** Step 3 of [AllocatePages_at]: the free part before the address. *)
Lemma at_first_runs s l k d r n1 :
  m_allPagesTree s = l ++ (k, d) :: r -> below l k -> above (k + bytes d - 1) r ->
  0 <= n1 < size d -> size d < 2 ^ 52 -> 0 <= k -> k + bytes d < W64 -> sorted (m_freePagesTree s) ->
  runs (if k <? k + n1 * PAGE_SIZE then
          let pageCount := Z.shiftr (sub64 (k + n1 * PAGE_SIZE) k) PAGE_SIZE_SHIFT in
          let* (_, node) := SplitAPTNode (Linked k) pageCount in
          fpt_add pageCount k ;;;
          let* (_, nodeData) := rd_apt node in
          ret (node, nodeData)
        else ret (Linked k, d)) s
    (fun v s' => v = (Linked (k + n1 * PAGE_SIZE), mkData (size d - n1) (isFree d) (isReserved d)) /\
       s' = set_fpt (if 0 <? n1 then tadd n1 k (m_freePagesTree s) else m_freePagesTree s)
             (set_apt (l ++ (if 0 <? n1 then [(k, mkData n1 (isFree d) (isReserved d))] else []) ++
                (k + n1 * PAGE_SIZE, mkData (size d - n1) (isFree d) (isReserved d)) :: r) s)).
Proof.
  intros E Hb Ha Hn1 Hsz Hk Hend Hs. unfold bytes in *. destruct (Z.ltb_spec 0 n1) as [Hlt|Hge].
  - rewrite (proj2 (Z.ltb_lt _ _)) by lia. rewrite sub64_small by lia.
    replace (k + n1 * PAGE_SIZE - k) with (n1 * PAGE_SIZE) by lia. rewrite shiftr_pages.
    go. eapply runs_eq; [eapply SplitAPTNode_eq; [exact E|..]; unfold bytes; done || lia|]. go.
    eapply runs_eq; [by apply fpt_add_eq|]. go.
    eapply runs_eq; [eapply (rd_apt_eq _ (l ++ [_])); [by rewrite <- app_assoc|]|go; done].
    apply below_app. split; [intros ?? Hin; specialize (Hb _ _ Hin); lia|].
    intros ?? [= -> ->]%list_elem_of_singleton. lia.
  - assert (n1 = 0) as -> by lia. rewrite (proj2 (Z.ltb_ge _ _)) by lia. go.
    rewrite Z.mul_0_l, Z.add_0_r, Z.sub_0_r. destruct s, d; cbn in *. by subst.
Qed.

(** The free part after the allocated pages. *)
Lemma at_second_runs s l k d r n :
  m_allPagesTree s = l ++ (k, d) :: r -> below l k -> above (k + bytes d - 1) r ->
  0 < n <= size d -> size d < 2 ^ 52 -> 0 <= k -> k + bytes d < W64 -> sorted (m_freePagesTree s) ->
  runs (if n <? size d then
          let* (allPagesNode, node) := SplitAPTNode (Linked k) n in
          let* (nkey, newNodeData) := rd_apt node in
          fpt_add (size newNodeData) nkey ;;;
          let* (_, nodeData) := rd_apt allPagesNode in
          ret (allPagesNode, nodeData)
        else ret (Linked k, d)) s
    (fun v s' => v = (Linked k, mkData n (isFree d) (isReserved d)) /\
       s' = set_fpt (if n <? size d then tadd (size d - n) (k + n * PAGE_SIZE) (m_freePagesTree s)
                     else m_freePagesTree s)
             (set_apt (l ++ (k, mkData n (isFree d) (isReserved d)) ::
                (if n <? size d then [(k + n * PAGE_SIZE, mkData (size d - n) (isFree d) (isReserved d))]
                 else []) ++ r) s)).
Proof.
  intros E Hb Ha Hn Hsz Hk Hend Hs. unfold bytes in *. destruct (Z.ltb_spec n (size d)) as [Hlt|Hge].
  - go. eapply runs_eq; [eapply SplitAPTNode_eq; [exact E|..]; unfold bytes; done || lia|]. go.
    eapply runs_eq; [eapply (rd_apt_eq _ (l ++ [_])); [by rewrite <- app_assoc|]|].
    { apply below_app. split; [intros ?? Hin; specialize (Hb _ _ Hin); lia|].
      intros ?? [= -> ->]%list_elem_of_singleton. lia. }
    go. eapply runs_eq; [by apply fpt_add_eq|]. go.
    eapply runs_eq; [eapply rd_apt_eq; [reflexivity|done]|]. go. done.
  - assert (n = size d) as -> by lia. go. destruct s, d; cbn in *. by subst.
Qed.

Lemma AllocatePages_at_runs s l k d r n1 n lock :
  inv s -> (lock = true -> m_locked s = false) -> m_allPagesTree s = l ++ (k, d) :: r -> isFree d = true ->
  0 <= n1 -> 0 < n -> n1 + n <= size d ->
  runs (AllocatePages_at (k + n1 * PAGE_SIZE) n lock) s (fun p s' =>
    p = k + n1 * PAGE_SIZE /\ s' = at_state s l k d r n1 n).
Proof.
  intros Hinv Hlk E Hf Hn1 Hn Hle.
  destruct (region_facts _ _ _ _ _ Hinv E) as (Hs0 & Hsk & Hsz & Hend & HW & Hal & Hb & Ha & Hsort & Htl & Htr).
  destruct (at_lists_spec s l k d r n1 n Hinv E Hf Hn1 Hn Hle) as (Hfw0 & Hfw1 & _ & _).
  specialize (proj2 (proj1 (region_listed _ _ _ _ _ Hinv E)) Hf) as Hkin.
  destruct (flist_elem _ _ _ Hkin) as [xs Hxs].
  pose proof (counts_bound s true Hinv) as Hfb. pose proof (counts_bound s false Hinv) as Hub.
  pose proof (inv_free _ Hinv) as Hfc. pose proof (inv_used _ Hinv) as Huc.
  assert (Hn52 : n <= pages true (m_allPagesTree s)).
  { rewrite E, pages_middle, Hf. cbn. pose proof (region_pages_nonneg _ true _ _ Htl).
    pose proof (region_pages_nonneg _ true _ _ Htr). lia. }
  destruct s as [ms me apt ft fc uc rc tc lk]. cbn in Hxs, E, Hfc, Huc, Hlk. subst apt fc uc.
  cbn in Hfw0, Hfw1, Hs0, Hsk, Hend, HW, Hfb, Hub, Hn52. unfold bytes in *.
  assert (Hfl : flist ft (size d) = xs) by (unfold flist; by rewrite Hxs).
  unfold at_state, at_lists. st. rewrite Hfl in Hfw0, Hfw1 |- *.
  unfold AllocatePages_at. mstep. eapply runs_eq with (s' := mk ms me (l ++ (k, d) :: r) ft
    (pages true (l ++ (k, d) :: r)) (pages false (l ++ (k, d) :: r)) rc tc (if lock then true else lk)).
  { destruct lock; [|done]. unfold whenM, Lock, bind, gets, modify. st. by rewrite (Hlk eq_refl). }
  go. rewrite FindNodeOrLower_middle; [|done|lia|intros ?? Hin; specialize (Ha _ _ Hin); lia].
  rewrite Hf, !shl64_pages, !add64_small by lia. st.
  rewrite (proj2 (Z.ltb_ge _ _)) by lia. go. unfold FindNode. rewrite Hxs. cbn [fmap option_fmap option_map].
  go. eapply runs_eq; [apply fpt_put_eq|]. go.
  eapply runs_mono; [eapply (at_first_runs _ l k d r n1); [reflexivity|..]; unfold bytes; done || lia || apply Hfw0|].
  intros ? ? [-> ->]. go.
  eapply runs_mono.
  { eapply (at_second_runs _ (l ++ (if 0 <? n1 then [(k, mkData n1 (isFree d) (isReserved d))] else []))
      (k + n1 * PAGE_SIZE) (mkData (size d - n1) (isFree d) (isReserved d)) r n).
    - st. by rewrite <- app_assoc.
    - apply below_app. split; [intros ?? Hin; specialize (Hb _ _ Hin); lia|].
      destruct (Z.ltb_spec 0 n1); [|by intros ?? ?%not_elem_of_nil].
      intros ?? [= -> ->]%list_elem_of_singleton. lia.
    - intros ?? Hin. specialize (Ha _ _ Hin). unfold bytes. st. lia.
    - st. lia.
    - st. lia.
    - lia.
    - unfold bytes. st. lia.
    - apply Hfw1. }
  intros ? ? [-> ->]. go.
  eapply runs_eq; [eapply (wr_apt_eq _ (l ++ _)); [reflexivity|]|].
  { apply below_app. split; [intros ?? Hin; specialize (Hb _ _ Hin); lia|].
    destruct (Z.ltb_spec 0 n1); [|by intros ?? ?%not_elem_of_nil].
    intros ?? [= -> ->]%list_elem_of_singleton. lia. }
  go; intros ->; unfold Unlock; go; (split; [done|]);
    rewrite sub64_small, add64_small by lia; unfold at_regions; rewrite Hf;
    rewrite <- !app_assoc, <- app_comm_cons; [by rewrite (Hlk eq_refl)|done].
Qed.

(** The address after a free region is not free. *)
Lemma owner_after_free s l k d r : inv s -> m_allPagesTree s = l ++ (k, d) :: r -> isFree d = true ->
  owner (m_allPagesTree s) (k + bytes d) <> Some true.
Proof.
  intros Hinv E Hf.
  destruct (region_facts _ _ _ _ _ Hinv E) as (_ & _ & Hsz & _ & _ & _ & _ & _ & _ & Htl & Htr).
  pose proof (inv_coalesced _ Hinv) as Hco. rewrite E, coalesced_middle, Hf in Hco. cbn in Hco.
  destruct Hco as (_ & _ & _ & Hhr).
  rewrite E, owner_app, (owner_outside _ _ _ _ Htl) by (unfold bytes; lia). cbn.
  rewrite (proj2 (Z.ltb_ge (k + bytes d) (k + bytes d))), andb_false_r by lia.
  destruct r as [|[k' d'] r]; [done|]. destruct Htr as (-> & Hd' & _). cbn in Hhr |- *. unfold bytes in *.
  replace ((k + size d * PAGE_SIZE <=? k + size d * PAGE_SIZE) &&
    (k + size d * PAGE_SIZE <? k + size d * PAGE_SIZE + size d' * PAGE_SIZE)) with true by lia. congruence.
Qed.

(** The owner of an address, from the region found below it. *)
Lemma owner_found s l k d r p : inv s -> m_allPagesTree s = l ++ (k, d) :: r -> k <= p -> above p r ->
  owner (m_allPagesTree s) p = if p <? k + bytes d then Some (isFree d) else None.
Proof.
  intros Hinv E Hkp Har.
  destruct (region_facts _ _ _ _ _ Hinv E) as (_ & _ & _ & _ & _ & _ & _ & _ & _ & Htl & Htr).
  rewrite E, owner_app, (owner_outside _ _ _ _ Htl) by lia. cbn.
  rewrite (proj2 (Z.leb_le k p)) by lia. cbn. destruct (Z.ltb_spec p (k + bytes d)); [done|].
  destruct r as [|[k' d'] r]; [done|]. destruct Htr as (-> & _).
  specialize (Har _ _ ltac:(by left)). lia.
Qed.

(** Locking and failing without a change. *)
Lemma early_return {A} (lock : bool) (s : state) (v : A) (Q : A -> state -> Prop) :
  (lock = true -> m_locked s = false) -> Q v s ->
  runs (whenM lock Unlock ;;; ret v) (if lock then set_locked true s else s) Q.
Proof.
  intros Hlk HQ. mstep. destruct lock; cbn.
  - unfold Unlock. go. specialize (Hlk eq_refl). destruct s; cbn in *. by subst.
  - by go.
Qed.

Lemma region_Lock_runs (lock : bool) (s : state) (Q : unit -> state -> Prop) :
  (lock = true -> m_locked s = false) -> Q tt (if lock then set_locked true s else s) ->
  runs (whenM lock Lock) s Q.
Proof.
  intros Hlk HQ. destruct lock; cbn in *; [|by apply runs_ret].
  unfold Lock. go. rewrite (Hlk eq_refl). by go.
Qed.

(** [AllocatePages] at an address succeeds exactly when every requested page is
    free; it then returns the address and makes exactly those pages used.
    Otherwise it returns null and changes nothing. The invariant is kept. *)
Theorem AllocatePages_at_spec (s : state) (ptr n : Z) (lock : bool) :
  inv s -> (lock = true -> m_locked s = false) ->
  ptr mod PAGE_SIZE = 0 -> 0 <= ptr -> 0 < n -> ptr + n * PAGE_SIZE < W64 ->
  runs (AllocatePages_at ptr n lock) s (fun p s' => inv s' /\ m_locked s' = m_locked s /\
    ((p = ptr /\ (forall q, ptr <= q < ptr + n * PAGE_SIZE -> owner (m_allPagesTree s) q = Some true) /\
      forall q, owner (m_allPagesTree s') q =
        if (ptr <=? q) && (q <? ptr + n * PAGE_SIZE) then Some false else owner (m_allPagesTree s) q) \/
     (p = 0 /\ s' = s /\
      exists q, ptr <= q < ptr + n * PAGE_SIZE /\ owner (m_allPagesTree s) q <> Some true))).
Proof.
  intros Hinv Hlk Hal Hp0 Hn Hend.
  assert (Hsort := tiles_sorted _ _ _ (inv_tiles _ Hinv)).
  destruct (cut _ ptr Hsort) as [Ha|(l & k & d & r & E & Hle & Har)].
  { unfold AllocatePages_at. mstep. apply region_Lock_runs; [done|]. go.
    replace (m_allPagesTree (if lock then set_locked true s else s)) with (m_allPagesTree s) by (by destruct lock).
    rewrite FindNodeOrLower_below by done. apply early_return; [done|]. split_and!; [done..|]. right.
    split_and!; [done..|]. exists ptr. split; [lia|].
    rewrite (owner_outside (m_start s) _ (m_end s)); [done|apply inv_tiles, Hinv|].
    pose proof (inv_tiles _ Hinv) as Ht. pose proof (inv_range _ Hinv).
    destruct (m_allPagesTree s) as [|[k0 d0] t]; cbn in Ht; [lia|]. destruct Ht as [-> _].
    specialize (Ha _ _ ltac:(by left)). lia. }
  destruct (region_facts _ _ _ _ _ Hinv E) as (Hs0 & Hsk & Hsz & Hke & HW & Hka & Hb & Ha & _).
  pose proof (owner_found _ _ _ _ _ _ Hinv E Hle Har) as Hown. unfold bytes in Hown, Hke.
  destruct (isFree d && (ptr + n * PAGE_SIZE <=? k + bytes d)) eqn:Hc.
  - apply andb_true_iff in Hc as [Hf Hc%Z.leb_le]. unfold bytes in Hc.
    assert (exists n1, 0 <= n1 /\ ptr = k + n1 * PAGE_SIZE) as (n1 & Hn1 & ->).
    { exists ((ptr - k) / PAGE_SIZE). zlia. }
    eapply runs_mono; [eapply (AllocatePages_at_runs s l k d r n1 n lock); try done; lia|].
    intros p s' [-> ->]. destruct (at_inv s l k d r n1 n) as [Hinv' Hown']; try done; [lia|].
    split_and!; [done..|]. left. split_and!; [done| |done]. intros q Hq.
    rewrite E, owner_app, (owner_outside (m_start s) l k) by (try lia; eapply tiles_middle; rewrite <- E; apply inv_tiles, Hinv).
    cbn. unfold bytes. replace ((k <=? q) && (q <? k + size d * PAGE_SIZE)) with true by lia. by rewrite Hf.
  - unfold AllocatePages_at. mstep. apply region_Lock_runs; [done|]. go.
    replace (m_allPagesTree (if lock then set_locked true s else s)) with (m_allPagesTree s) by (by destruct lock).
    rewrite E, FindNodeOrLower_middle by (done || by rewrite <- E).
    replace (negb (isFree d) || (add64 k (shl64 (size d) PAGE_SIZE_SHIFT) <? add64 ptr (shl64 n PAGE_SIZE_SHIFT)))
      with true.
    2: { unfold bytes in Hc. rewrite !shl64_pages, !add64_small by lia. destruct (isFree d); cbn in *; [|done]. lia. }
    apply early_return; [done|]. split_and!; [done..|]. right. split_and!; [done..|].
    rewrite <- E. destruct (isFree d) eqn:Hf; cbn in Hc.
    + apply Z.leb_gt in Hc. unfold bytes in Hc. destruct (Z.ltb_spec ptr (k + size d * PAGE_SIZE)).
      * exists (k + size d * PAGE_SIZE). split; [lia|]. by apply (owner_after_free s l k d r).
      * exists ptr. split; [lia|]. by rewrite Hown.
    + exists ptr. split; [lia|]. rewrite Hown. by destruct (ptr <? k + size d * PAGE_SIZE).
Qed.

(** ** Freeing *)

(** Splitting a used region changes no owner. *)
Lemma inv_split_used s l k d r n :
  inv s -> m_allPagesTree s = l ++ (k, d) :: r -> isFree d = false -> 0 < n < size d ->
  let s' := set_apt (l ++ (k, mkData n false (isReserved d)) ::
                     (k + n * PAGE_SIZE, mkData (size d - n) false (isReserved d)) :: r) s in
  inv s' /\ forall p, owner (m_allPagesTree s') p = owner (m_allPagesTree s) p.
Proof.
  intros Hinv E Hf Hn s'.
  destruct (region_facts _ _ _ _ _ Hinv E) as (Hs0 & Hsk & Hsz & Hend & HW & Hal & Hb & Ha & Hsort & Htl & Htr).
  pose proof (inv_coalesced _ Hinv) as Hco. rewrite E, coalesced_middle, Hf in Hco.
  destruct Hco as (Hcl & Hcr & _ & _).
  assert (Hm : tiles k [(k, d)] (k + bytes d)) by (cbn; split_and!; [done|lia|done]).
  assert (Hm' : tiles k [(k, mkData n false (isReserved d));
    (k + n * PAGE_SIZE, mkData (size d - n) false (isReserved d))] (k + bytes d)).
  { cbn. unfold bytes. cbn. split_and!; lia. }
  split.
  - eapply (inv_replace s l [(k, d)] [_; _] r _ _ (m_freePagesTree s) (m_freePageCount s) (m_usedPageCount s));
      [done|done|exact Hm|exact Hm'| |apply Hinv| | | |done].
    + cbn [app]. rewrite coalesced_middle, coalesced_cons. cbn. by rewrite andb_false_r.
    + intros sz z. cbn. rewrite Hf. set_solver.
    + cbn. rewrite Hf. cbn. lia.
    + cbn. rewrite Hf. cbn. lia.
  - intros p. unfold s'. st. rewrite E.
    etransitivity; [exact (owner_replace _ l [(k, d)] _ r _ _ _ p Htl Hm Hm' Htr)|].
    destruct ((k <=? p) && (p <? k + bytes d)) eqn:Hin; unfold bytes in *; [|done].
    rewrite owner_app, (owner_outside _ _ _ _ Htl) by lia. cbn. unfold bytes. cbn. rewrite Hin, Hf.
    repeat match goal with |- context [if ?b then _ else _] => destruct b eqn:? end; try done; lia.
Qed.

Lemma FreePages_find_exact s ptr n : inv s ->
  runs (FreePages_find ptr n true) s (fun v s1 => s1 = s /\
    match v with
    | Some (node, d) => node = Linked ptr /\ isFree d = false /\ size d = n /\
        exists l r, m_allPagesTree s = l ++ (ptr, d) :: r
    | None => ~ exists d, (ptr, d) ∈ m_allPagesTree s /\ isFree d = false /\ size d = n
    end).
Proof.
  intros Hinv. assert (Hsort := tiles_sorted _ _ _ (inv_tiles _ Hinv)).
  unfold FreePages_find. go. unfold FindNode. destruct (RB_FIND ptr (m_allPagesTree s)) as [d|] eqn:Hfind; cbn.
  - destruct (isFree d || negb (size d =? n)) eqn:Hc; go; (split; [done|]).
    + intros (d' & Hin & Hf & Hsz). apply (RB_FIND_Some _ _ _ Hsort) in Hin. rewrite Hfind in Hin.
      simplify_eq. rewrite Hf, Z.eqb_refl in Hc. done.
    + apply orb_false_iff in Hc as [Hf Hc%negb_false_iff%Z.eqb_eq].
      apply RB_FIND_split in Hfind as (l & r & E & _); [|done]. eauto 10.
  - go. split; [done|]. intros (d' & Hin & _). apply (RB_FIND_Some _ _ _ Hsort) in Hin. congruence.
Qed.

(** The used region a range of pages lies in. *)
Definition in_used t (ptr n : Z) : Prop :=
  exists k d, (k, d) ∈ t /\ isFree d = false /\ k <= ptr /\ ptr + n * PAGE_SIZE <= k + bytes d.

Lemma FreePages_find_inexact s ptr n :
  inv s -> ptr mod PAGE_SIZE = 0 -> 0 <= ptr -> 0 < n -> ptr + n * PAGE_SIZE < W64 ->
  runs (FreePages_find ptr n false) s (fun v s1 => inv s1 /\ m_locked s1 = m_locked s /\
    (forall p, owner (m_allPagesTree s1) p = owner (m_allPagesTree s) p) /\
    match v with
    | Some (node, d) => in_used (m_allPagesTree s) ptr n /\ node = Linked ptr /\ isFree d = false /\ size d = n /\
        exists l r, m_allPagesTree s1 = l ++ (ptr, d) :: r
    | None => s1 = s /\ ~ in_used (m_allPagesTree s) ptr n
    end).
Proof.
  intros Hinv Hal Hp0 Hn Hend. assert (Hsort := tiles_sorted _ _ _ (inv_tiles _ Hinv)).
  unfold FreePages_find. go. destruct (cut _ ptr Hsort) as [Ha|(l & k & d & r & E & Hle & Har)].
  { rewrite FindNodeOrLower_below by done. go. split_and!; [done..|].
    intros (k & d & Hin & _ & Hk & _). specialize (Ha _ _ Hin). lia. }
  destruct (region_facts _ _ _ _ _ Hinv E) as (Hs0 & Hsk & Hsz & Hke & HW & Hka & Hb & Ha & _).
  rewrite E, FindNodeOrLower_middle by (done || by rewrite <- E). cbn beta iota. unfold bytes in *.
  rewrite !mul64_small, !add64_small by lia.
  destruct (isFree d || (k + size d * PAGE_SIZE <? ptr + n * PAGE_SIZE)) eqn:Hc.
  { go. split_and!; [done..|by rewrite E|done|]. intros (k' & d' & Hin & Hf & Hk & Hn').
    assert ((k', d') = (k, d)) as [= -> ->].
    { apply elem_of_app in Hin as [Hin|[?|Hin]%elem_of_cons]; [|done|].
      - exfalso. pose proof (inv_tiles _ Hinv) as Ht. rewrite E in Ht.
        apply tiles_middle in Ht as (Hl & _). apply (tiles_elem _ _ _ _ _ Hl) in Hin. unfold bytes in *. lia.
      - specialize (Har _ _ Hin). lia. }
    rewrite Hf in Hc. cbn in Hc. unfold bytes in *. lia. }
  apply orb_false_iff in Hc as [Hf Hc%Z.ltb_ge].
  assert (Hused : in_used (l ++ (k, d) :: r) ptr n).
  { exists k, d. split_and!; [set_solver|done|done|done]. }
  assert (exists n1, 0 <= n1 /\ ptr = k + n1 * PAGE_SIZE) as (n1 & Hn1 & ->).
  { exists ((ptr - k) / PAGE_SIZE). zlia. }
  mstep.
  eapply runs_mono with (Q := fun v s1 => inv s1 /\ m_locked s1 = m_locked s /\
    (forall p, owner (m_allPagesTree s1) p = owner (m_allPagesTree s) p) /\
    v = (Linked (k + n1 * PAGE_SIZE), mkData (size d - n1) false (isReserved d)) /\
    exists l1, m_allPagesTree s1 = l1 ++ (k + n1 * PAGE_SIZE, mkData (size d - n1) false (isReserved d)) :: r).
  { destruct (Z.ltb_spec k (k + n1 * PAGE_SIZE)) as [Hlt|Hge].
    - rewrite sub64_small by lia. replace (k + n1 * PAGE_SIZE - k) with (n1 * PAGE_SIZE) by lia.
      rewrite shiftr_pages. go.
      eapply runs_eq; [eapply SplitAPTNode_eq; [exact E|..]; unfold bytes; done || lia|]. go. rewrite Hf.
      destruct (inv_split_used s l k d r n1 Hinv E Hf) as [Hinv' Hown]; [lia|].
      eapply runs_eq; [eapply (rd_apt_eq _ (l ++ [_])); [by rewrite <- app_assoc|]|].
      { apply below_app. split; [intros ?? Hin; specialize (Hb _ _ Hin); lia|].
        intros ?? [= -> ->]%list_elem_of_singleton. lia. }
      go. split_and!; [done..|]. eexists. st. by rewrite (cons_middle (k, _)), app_assoc.
    - assert (n1 = 0) as -> by lia. go. rewrite Z.mul_0_l, Z.add_0_r, Z.sub_0_r.
      assert (d = mkData (size d) false (isReserved d)) as Hd by (destruct d; cbn in *; by subst).
      rewrite <- Hd. eauto 10. }
  intros ? s1 (Hinv1 & Hlk1 & Hown1 & -> & l1 & E1). cbn beta iota. st.
  destruct (region_facts _ _ _ _ _ Hinv1 E1) as (Hs01 & Hsk1 & Hsz1 & Hke1 & HW1 & Hka1 & Hb1 & Ha1 & _).
  cbn in Hsz1. unfold bytes in *. cbn in Ha1, Hke1. destruct (Z.eqb_spec (size d - n1) n) as [Heq|Hne]; go.
  - rewrite E in Hown1. split_and!; [done..|]. eauto.
  - eapply runs_eq; [eapply SplitAPTNode_eq; [exact E1|..]; unfold bytes; cbn; done || lia|]. go.
    destruct (inv_split_used s1 l1 _ _ r n Hinv1 E1 eq_refl) as [Hinv' Hown]; [cbn; lia|]. cbn in Hinv', Hown.
    eapply runs_eq; [eapply rd_apt_eq; [reflexivity|done]|]. go. st.
    split_and!; [done|done| |done..|by eauto]. intros p. rewrite Hown. by rewrite Hown1, E.
Qed.

(** The two merges of [FreePages], on the regions around the freed one. *)

Lemma apt_RemoveNode_eq s l k d r : m_allPagesTree s = l ++ (k, d) :: r -> below l k ->
  apt_RemoveNode (Linked k) s = Ok (tt, set_apt (l ++ r) s).
Proof.
  intros E Hb. unfold apt_RemoveNode, bind, gets, modify. rewrite E, RB_FIND_middle by done.
  by rewrite RB_REMOVE_middle.
Qed.

Lemma merge_previous_hit s l pk pd d r n :
  let ptr := pk + bytes pd in
  m_allPagesTree s = l ++ (pk, pd) :: (ptr, d) :: r -> below l pk -> isFree pd = true ->
  0 <= pk -> 0 < size pd < 2 ^ 52 -> 0 <= n < 2 ^ 52 -> ptr < W64 ->
  merge_previous (Linked ptr) ptr n s =
  Ok ((mkRegion pk (n + size pd), [mkRegion pk (size pd)]), set_apt (l ++ r) s).
Proof.
  intros ptr E Hb Hf Hk Hpd Hn HW. unfold ptr, bytes in *.
  assert (Hb' : below (l ++ [(pk, pd)]) (pk + size pd * PAGE_SIZE)).
  { apply below_app. split; [intros ?? Hin; specialize (Hb _ _ Hin); lia|].
    intros ?? [= -> ->]%list_elem_of_singleton. lia. }
  unfold merge_previous, apt_PreviousNode, bind, gets, ret. rewrite E, cons_middle, app_assoc.
  rewrite RB_FIND_middle by done. unfold PreviousNode. rewrite RB_PREV_middle, last_app by done. cbn.
  rewrite Hf, shl64_pages, add64_small, Z.eqb_refl by lia. cbn.
  rewrite (apt_RemoveNode_eq s l pk pd ((pk + size pd * PAGE_SIZE, d) :: r)) by done.
  rewrite (apt_RemoveNode_eq _ l (pk + size pd * PAGE_SIZE) d r); [|done|intros ?? Hin; specialize (Hb _ _ Hin); lia].
  rewrite add64_small by lia. done.
Qed.

Lemma merge_previous_miss s l ptr d r n :
  m_allPagesTree s = l ++ (ptr, d) :: r -> below l ptr -> lastfree l = false ->
  merge_previous (Linked ptr) ptr n s = Ok ((mkRegion ptr n, []), s).
Proof.
  intros E Hb Hf. unfold merge_previous, apt_PreviousNode, bind, gets, ret. rewrite E.
  rewrite RB_FIND_middle by done. unfold PreviousNode. rewrite RB_PREV_middle by done.
  unfold lastfree in Hf. destruct (last l) as [[pk pd]|]; [|done]. by rewrite Hf.
Qed.

Lemma merge_next_miss node s A ptr n r b ins rs :
  m_allPagesTree s = A ++ r -> below A (ptr + n * PAGE_SIZE) -> tiles (ptr + n * PAGE_SIZE) r b ->
  headfree r = false -> 0 <= ptr -> 0 <= n < 2 ^ 52 -> ptr + n * PAGE_SIZE < W64 ->
  merge_next node ptr n ins rs s = Ok ((ins, rs), s).
Proof.
  intros E Hb Ht Hf Hp Hn HW. unfold merge_next, bind, gets, ret. rewrite shl64_pages, add64_small, E by lia.
  unfold FindNodeOrHigher. rewrite RB_NFIND_below by done.
  destruct r as [|[k d] r]; [done|]. destruct Ht as (-> & _). cbn in Hf |- *.
  rewrite Z.leb_refl, Hf. done.
Qed.

Lemma merge_next_hit s A ptr n nd r ins rs (node : noderef Data) A' :
  m_allPagesTree s = A ++ (ptr + n * PAGE_SIZE, nd) :: r -> below A (ptr + n * PAGE_SIZE) ->
  isFree nd = true -> 0 <= ptr -> 0 <= n < 2 ^ 52 -> ptr + n * PAGE_SIZE < W64 ->
  0 <= r_size ins < 2 ^ 52 -> 0 <= size nd < 2 ^ 52 ->
  match rs with
  | [] => exists l d, A = l ++ [(ptr, d)] /\ below l ptr /\ node = Linked ptr /\ A' = l
  | _ => A' = A
  end ->
  merge_next node ptr n ins rs s =
  Ok ((mkRegion (r_start ins) (r_size ins + size nd), rs ++ [mkRegion (ptr + n * PAGE_SIZE) (size nd)]),
      set_apt (A' ++ r) s).
Proof.
  intros E Hb Hf Hp Hn HW Hins Hnd Hrs. unfold merge_next, bind at 1, gets at 1.
  rewrite shl64_pages, add64_small, E by lia. unfold FindNodeOrHigher. rewrite RB_NFIND_below by done. cbn.
  rewrite Z.leb_refl, Hf, Z.eqb_refl. cbn. unfold bind, ret.
  rewrite (apt_RemoveNode_eq _ _ _ _ _ E) by done. rewrite add64_small by lia. destruct rs as [|r0 rs].
  - destruct Hrs as (l & d & -> & Hbl & -> & ->). cbn.
    rewrite (apt_RemoveNode_eq _ l ptr d r); [done|cbn; by rewrite <- app_assoc|done].
  - by subst A'.
Qed.

Lemma remove_regions_runs (rs : list Region) s :
  fwf (m_freePagesTree s) -> NoDup rs ->
  (forall g, g ∈ rs -> r_start g ∈ flist (m_freePagesTree s) (r_size g)) ->
  runs (remove_regions rs) s (fun _ s' => exists ft', s' = set_fpt ft' s /\ fwf ft' /\
    forall sz z, z ∈ flist ft' sz <-> z ∈ flist (m_freePagesTree s) sz /\ mkRegion z sz ∉ rs).
Proof.
  revert s. induction rs as [|[x sz0] rs IH]; intros s Hfw Hnd Hin; cbn [remove_regions].
  - apply runs_ret. exists (m_freePagesTree s). split; [by destruct s|]. split; [done|]. set_solver.
  - apply NoDup_cons in Hnd as [Hx Hnd]. specialize (Hin _ ltac:(by left)) as Hx0. cbn in Hx0.
    destruct (flist_elem _ _ _ Hx0) as [xs Hxs].
    destruct (take_region _ _ _ Hfw Hx0) as [Hfw1 Hft1].
    assert (Hfl : flist (m_freePagesTree s) sz0 = xs) by (unfold flist; by rewrite Hxs).
    rewrite Hfl in Hfw1, Hft1.
    go. unfold FindNode. cbn [r_size]. rewrite Hxs. cbn. eapply runs_eq; [apply fpt_put_eq|]. cbn beta iota.
    eapply runs_mono; [apply IH; [done|done|]|].
    + intros g Hg. st. apply Hft1. split; [apply Hin; by right|].
      intros [= E1 E2]. apply Hx. by destruct g; cbn in *; subst.
    + intros _ s' (ft' & -> & Hfw' & Hft'). exists ft'. split; [done|]. split; [done|]. intros sz z.
      rewrite Hft'. st. rewrite Hft1, elem_of_cons. naive_solver.
Qed.

Lemma insert_region_eq st0 sz s : fwf (m_freePagesTree s) ->
  insert_region (mkRegion st0 sz) s = Ok (tt, set_fpt (tadd sz st0 (m_freePagesTree s)) s).
Proof.
  intros Hfw. unfold insert_region, bind. cbn [r_size r_start]. rewrite fpt_add_eq by apply Hfw.
  unfold gets, FindNode. st. rewrite RB_FIND_tadd, Z.eqb_refl by apply Hfw. cbn.
  rewrite bool_decide_eq_true_2 by set_solver. done.
Qed.

(** The state after the regions [mid] around a freed region became one free
    region. *)
Definition merged_state (s : state) (l0 r0 : tree Data) ft1 (st0 tot : Z) (rsv : bool) (n : Z) (lk : bool) : state :=
  mk (m_start s) (m_end s) (l0 ++ (st0, mkData tot true rsv) :: r0) (tadd tot st0 ft1)
     (m_freePageCount s + n) (m_usedPageCount s - n) (m_reservedPageCount s) (m_totalPageCount s) lk.

Lemma merged_inv s l0 mid r0 ptr d ft1 st0 tot rsv lk :
  inv s -> m_allPagesTree s = l0 ++ mid ++ r0 -> lastfree l0 = false -> headfree r0 = false ->
  tiles st0 mid (st0 + tot * PAGE_SIZE) -> mid <> [] -> pages false mid = size d ->
  (forall q, st0 <= q < st0 + tot * PAGE_SIZE -> ~ (ptr <= q < ptr + bytes d) -> owner mid q = Some true) ->
  st0 <= ptr -> ptr + bytes d <= st0 + tot * PAGE_SIZE -> 0 < tot ->
  fwf ft1 -> (forall sz z, z ∈ flist ft1 sz <->
    z ∈ flist (m_freePagesTree s) sz /\ (z, sz) ∉ free_regions mid) ->
  inv (merged_state s l0 r0 ft1 st0 tot rsv (size d) lk) /\
  forall q, owner (m_allPagesTree (merged_state s l0 r0 ft1 st0 tot rsv (size d) lk)) q =
    if (ptr <=? q) && (q <? ptr + bytes d) then Some true else owner (m_allPagesTree s) q.
Proof.
  intros Hinv E Hl Hr Hm Hne Hpg Hown Hlo Hhi Htot Hfw1 Hft1.
  pose proof (inv_tiles _ Hinv) as Ht. pose proof Ht as Ht0. rewrite E in Ht0.
  apply tiles_split in Ht0 as (x & y & Htl & Hmid & Htr).
  assert (x = st0) as -> by (destruct mid as [|[??]?]; [done|]; by destruct Hmid as [<- _], Hm as [<- _]).
  assert (y = st0 + tot * PAGE_SIZE) as ->.
  { pose proof (pages_total _ _ _ Hm). pose proof (pages_total _ _ _ Hmid). lia. }
  pose proof (inv_coalesced _ Hinv) as Hco. rewrite E, !coalesced_app in Hco.
  destruct Hco as (Hcl & (_ & Hcr & _) & _). pose proof (pages_total _ _ _ Hm) as Hpt.
  assert (Hm' : tiles st0 [(st0, mkData tot true rsv)] (st0 + tot * PAGE_SIZE)) by (cbn; split_and!; [done|lia|done]).
  destruct (add_region ft1 tot st0 Hfw1) as [Hfw2 Hft2].
  { rewrite Hft1. intros [Hin Hnin]. rewrite (inv_matches _ Hinv _ _), E, !free_regions_app, !elem_of_app in Hin.
    destruct Hin as [Hin|[?|Hin]]; [|done|]; apply elem_of_free_regions in Hin as (d' & Hin & _).
    - apply (tiles_elem _ _ _ _ _ Htl) in Hin. unfold bytes in *. lia.
    - apply (tiles_elem _ _ _ _ _ Htr) in Hin. lia. }
  unfold merged_state. split.
  - eapply (inv_replace s l0 mid [_] r0); [done|done|exact Hm|exact Hm'| |exact Hfw2| | | |done].
    + cbn [app]. rewrite coalesced_middle. cbn. by rewrite Hl, Hr.
    + intros sz z. rewrite Hft2, Hft1. cbn. rewrite list_elem_of_singleton. done.
    + cbn. lia.
    + cbn. lia.
  - intros q. st. rewrite E.
    etransitivity; [exact (owner_replace _ l0 mid _ r0 _ _ _ q Htl Hm Hm' Htr)|].
    destruct ((st0 <=? q) && (q <? st0 + tot * PAGE_SIZE)) eqn:Hin; cbn; unfold bytes in *; cbn.
    + rewrite Hin. destruct ((ptr <=? q) && (q <? ptr + size d * PAGE_SIZE)) eqn:Hin2; [done|].
      rewrite owner_app, (owner_outside _ _ _ _ Htl), owner_app by lia. rewrite Hown; [done|lia|lia].
    + by replace ((ptr <=? q) && (q <? ptr + size d * PAGE_SIZE)) with false by lia.
Qed.

(** A list of regions either ends (begins) with a free region or does not. *)
Lemma lastfree_cases l : lastfree l = false \/ exists l0 k d, l = l0 ++ [(k, d)] /\ isFree d = true.
Proof.
  unfold lastfree. destruct (last l) as [[k d]|] eqn:E; [|by left].
  apply last_Some in E as [l0 ->]. destruct (isFree d) eqn:Hf; [|by left]. right. eauto.
Qed.
Lemma headfree_cases r : headfree r = false \/ exists k d r0, r = (k, d) :: r0 /\ isFree d = true.
Proof. destruct r as [|[k d] r]; [by left|]. cbn. destruct (isFree d) eqn:Hf; [right; eauto|by left]. Qed.

(** The part of [FreePages] after the node was found. *)
Definition FreePages_rest (ptr n : Z) (lock : bool) (node : noderef Data) (d : Data) : M state unit :=
  let* allPagesNode := wr_apt node (set_isFree true d) in
  let* (ins, removed) := merge_previous allPagesNode ptr n in
  let* (ins, removed) := merge_next allPagesNode ptr n ins removed in
  whenM (match removed with [] => false | _ => true end)
    (let* _ := apt_Insert (r_start ins) (mkData (wrap62 (r_size ins)) true false) in ret tt) ;;;
  remove_regions removed ;;;
  insert_region ins ;;;
  modify (fun s => set_counts (add64 (m_freePageCount s) n)
                     (sub64 (m_usedPageCount s) n) s) ;;;
  whenM lock Unlock.

(** Its end: the free lists and the counters. *)
Lemma rest_tail_runs s s1 l0 mid r0 ptr d st0 tot rsv rs (lock : bool) (Q : unit -> state -> Prop) :
  inv s -> m_allPagesTree s = l0 ++ mid ++ r0 -> lastfree l0 = false -> headfree r0 = false ->
  tiles st0 mid (st0 + tot * PAGE_SIZE) -> mid <> [] -> pages false mid = size d ->
  (forall q, st0 <= q < st0 + tot * PAGE_SIZE -> ~ (ptr <= q < ptr + bytes d) -> owner mid q = Some true) ->
  st0 <= ptr -> ptr + bytes d <= st0 + tot * PAGE_SIZE -> 0 < tot ->
  NoDup rs -> (forall g, g ∈ rs <-> (r_start g, r_size g) ∈ free_regions mid) ->
  s1 = set_apt (l0 ++ (st0, mkData tot true rsv) :: r0) s ->
  (forall s', inv s' -> m_locked s' = (if lock then false else m_locked s) ->
     (forall q, owner (m_allPagesTree s') q =
        if (ptr <=? q) && (q <? ptr + bytes d) then Some true else owner (m_allPagesTree s) q) -> Q tt s') ->
  runs (remove_regions rs ;;;
        insert_region (mkRegion st0 tot) ;;;
        modify (fun s => set_counts (add64 (m_freePageCount s) (size d))
                           (sub64 (m_usedPageCount s) (size d)) s) ;;;
        whenM lock Unlock) s1 Q.
Proof.
  intros Hinv E Hl Hr Hm Hne Hpg Hown Hlo Hhi Htot Hnd Hrs -> HQ. mstep.
  eapply runs_mono; [apply remove_regions_runs; [apply Hinv|done|]|].
  { intros g Hg%Hrs. st. rewrite (inv_matches _ Hinv _ _), E, !free_regions_app. set_solver. }
  intros [] s' (ft1 & -> & Hfw1 & Hft1). st.
  destruct (merged_inv s l0 mid r0 ptr d ft1 st0 tot rsv (if lock then false else m_locked s)) as [Hinv' Hown']; try done.
  { intros sz z. rewrite Hft1. st. by rewrite (Hrs (mkRegion z sz)). }
  specialize (HQ _ Hinv' eq_refl Hown').
  pose proof (counts_bound s true Hinv) as Hfb. pose proof (counts_bound s false Hinv) as Hub.
  assert (Hpd : 0 <= size d <= pages false (m_allPagesTree s)).
  { pose proof (inv_tiles _ Hinv) as Ht. rewrite E in Ht |- *. rewrite !region_pages_app, Hpg.
    apply tiles_split in Ht as (x & y & Htl & _ & Htr). pose proof (region_pages_nonneg _ false _ _ Htl).
    pose proof (region_pages_nonneg _ false _ _ Htr). pose proof (region_pages_nonneg _ false _ _ Hm). lia. }
  rewrite <- (inv_free _ Hinv) in Hfb. rewrite <- (inv_used _ Hinv) in Hub, Hpd.
  assert (m_freePageCount s + size d < W64).
  { pose proof (inv_tiles _ Hinv) as Ht. pose proof (pages_total _ _ _ Ht). pose proof (inv_range _ Hinv).
    rewrite (inv_free _ Hinv), (inv_used _ Hinv) in *. lia. }
  mstep. eapply runs_eq; [by apply insert_region_eq|]. go.
  - intros ->. unfold Unlock. go. unfold merged_state in HQ. rewrite add64_small, sub64_small by lia. exact HQ.
  - intros ->. unfold merged_state in HQ. rewrite add64_small, sub64_small by lia. exact HQ.
Qed.

Lemma apt_Insert_eq s l k d r : m_allPagesTree s = l ++ r -> below l k -> above k r ->
  apt_Insert k d s = Ok (Linked k, set_apt (l ++ (k, d) :: r) s).
Proof. intros E Hb Ha. unfold apt_Insert, bind, gets, modify, ret. by rewrite E, Insert_middle. Qed.

Lemma below_snoc l k d q : below l k -> k < q -> below (l ++ [(k, d)]) q.
Proof.
  intros Hb Hk. apply below_app. split; [intros ?? Hin; specialize (Hb _ _ Hin); lia|].
  intros ?? [= -> ->]%list_elem_of_singleton. lia.
Qed.
Lemma below_weaken l k q : below l k -> k <= q -> below l q.
Proof. intros Hb Hk ?? Hin. specialize (Hb _ _ Hin). lia. Qed.
Lemma above_weaken r k q : above k r -> q <= k -> above q r.
Proof. intros Hb Hk ?? Hin. specialize (Hb _ _ Hin). lia. Qed.

(** Solve the side conditions on the ownership inside the merged regions. *)
Ltac own_mid := intros q Hq1 Hq2; cbn; unfold bytes in *; cbn;
  repeat match goal with |- context [if ?b then _ else _] => destruct b eqn:? end; try done; try congruence; lia.

Ltac tile_mid := cbn; unfold bytes in *; cbn; split_and!; try done; lia.

Lemma FreePages_rest_runs s l ptr d r (lock : bool) (Q : unit -> state -> Prop) :
  inv s -> m_allPagesTree s = l ++ (ptr, d) :: r -> isFree d = false ->
  (forall s', inv s' -> m_locked s' = (if lock then false else m_locked s) ->
     (forall q, owner (m_allPagesTree s') q =
        if (ptr <=? q) && (q <? ptr + bytes d) then Some true else owner (m_allPagesTree s) q) -> Q tt s') ->
  runs (FreePages_rest ptr (size d) lock (Linked ptr) d) s Q.
Proof.
  intros Hinv E Hf HQ.
  destruct (region_facts _ _ _ _ _ Hinv E) as (Hs0 & Hsk & Hsz & Hend & HW & Hal & Hb & Ha & Hsort & Htl & Htr).
  unfold FreePages_rest. mstep. eapply runs_eq; [by eapply wr_apt_eq|]. cbn beta.
  unfold set_isFree. unfold bytes in Htr, Hend, Ha.
  destruct (lastfree_cases l) as [Hl|(l0 & pk & pd & -> & Hpf)];
    destruct (headfree_cases r) as [Hr|(nk & nd & r0 & -> & Hnf)].
  - mstep. eapply runs_eq; [by eapply merge_previous_miss|]. go.
    eapply runs_eq.
    { eapply (merge_next_miss _ _ (l ++ [(ptr, mkData (size d) true (isReserved d))]) _ _ r); try done; try lia.
      - st. by rewrite <- app_assoc.
      - apply (below_snoc l ptr); [done|lia]. }
    go; [done|intros _]. eapply (rest_tail_runs s _ l [(ptr, d)] r ptr d ptr (size d) (isReserved d) []); try done; try lia.
    + tile_mid.
    + cbn. rewrite Hf. cbn. lia.
    + constructor.
    + intros g. cbn. rewrite Hf. by rewrite !elem_of_nil.
  - destruct Htr as (-> & Hnd & Htr). unfold bytes in *.
    pose proof (tiles_le _ _ _ Htr) as Hnle.
    mstep. eapply runs_eq; [by eapply merge_previous_miss|]. go.
    eapply runs_eq.
    { eapply (merge_next_hit _ (l ++ [(ptr, mkData (size d) true (isReserved d))]) ptr (size d) nd r0 _ [] _ l);
        try done; cbn; try lia.
      - by rewrite <- app_assoc.
      - apply (below_snoc l ptr); [done|lia].
      - eexists _, _. split_and!; [reflexivity|done|reflexivity|reflexivity]. }
    go; [intros _|done]. go. eapply runs_eq; [eapply apt_Insert_eq; [reflexivity|done|]|].
    { st. intros ?? Hin. apply (tiles_elem _ _ _ _ _ Htr) in Hin. cbn. lia. }
    mstep. cbn [r_start r_size app]. eapply (rest_tail_runs s _ l [(ptr, d); (ptr + size d * PAGE_SIZE, nd)] r0 ptr d ptr (size d + size nd) false
                 [mkRegion (ptr + size d * PAGE_SIZE) (size nd)]); try done; unfold bytes; try lia.
    + pose proof (inv_coalesced _ Hinv) as Hco. rewrite E, coalesced_middle, coalesced_cons, Hnf in Hco.
      by destruct Hco as (_ & [? _] & _).
    + tile_mid.
    + cbn. rewrite Hf, Hnf. cbn. lia.
    + own_mid.
    + apply NoDup_singleton.
    + intros [? ?]. cbn. rewrite Hf, Hnf, !list_elem_of_singleton. naive_solver.
    + cbn. rewrite wrap62_small by lia. done.
  - rewrite <- app_assoc in E. cbn in E.
    apply tiles_app in Htl as (x & Htl & <- & Hpd & Hpt). cbn in Hpt. unfold bytes in *. subst ptr.
    pose proof (tiles_le _ _ _ Htl) as Hple.
    assert (Hbl : below l0 pk) by (intros ?? Hin; apply (tiles_elem _ _ _ _ _ Htl) in Hin; unfold bytes in *; lia).
    mstep. eapply runs_eq; [eapply (merge_previous_hit _ l0 pk pd _ r); try done; cbn; unfold bytes; try lia; by rewrite <- app_assoc|].
    go. eapply runs_eq.
    { eapply (merge_next_miss _ _ l0 _ _ r); try done; try lia. eapply below_weaken; [done|lia]. }
    go; [intros _|done]. go. eapply runs_eq; [eapply apt_Insert_eq; [reflexivity|done|]|].
    { st. eapply above_weaken; [exact Ha|cbn; lia]. }
    mstep. cbn [r_start r_size app]. eapply (rest_tail_runs s _ l0 [(pk, pd); (pk + size pd * PAGE_SIZE, d)] r (pk + size pd * PAGE_SIZE) d pk
                 (size d + size pd) false [mkRegion pk (size pd)]); try done; unfold bytes; try lia.
    + pose proof (inv_coalesced _ Hinv) as Hco. rewrite E, coalesced_middle, Hpf, andb_true_r in Hco. tauto.
    + tile_mid.
    + cbn. rewrite Hf, Hpf. cbn. lia.
    + own_mid.
    + apply NoDup_singleton.
    + intros [? ?]. cbn. rewrite Hf, Hpf, !list_elem_of_singleton. naive_solver.
    + cbn. rewrite wrap62_small by lia. done.
  - rewrite <- app_assoc in E. cbn in E. destruct Htr as (-> & Hnd & Htr).
    apply tiles_app in Htl as (x & Htl & <- & Hpd & Hpt). cbn in Hpt. unfold bytes in *. subst ptr.
    pose proof (tiles_le _ _ _ Htl) as Hple. pose proof (tiles_le _ _ _ Htr) as Hnle.
    assert (Hbl : below l0 pk) by (intros ?? Hin; apply (tiles_elem _ _ _ _ _ Htl) in Hin; unfold bytes in *; lia).
    mstep. eapply runs_eq; [eapply (merge_previous_hit _ l0 pk pd); try done; cbn; unfold bytes; try lia; by rewrite <- app_assoc|].
    go. eapply runs_eq.
    { eapply (merge_next_hit _ l0 _ _ nd r0 _ [_] _ l0); try done; cbn; try lia. eapply below_weaken; [done|lia]. }
    go; [intros _|done]. go. eapply runs_eq; [eapply apt_Insert_eq; [reflexivity|done|]|].
    { st. intros ?? Hin. apply (tiles_elem _ _ _ _ _ Htr) in Hin. cbn. lia. }
    mstep. cbn [r_start r_size app]. eapply (rest_tail_runs s _ l0
      [(pk, pd); (pk + size pd * PAGE_SIZE, d); (pk + size pd * PAGE_SIZE + size d * PAGE_SIZE, nd)] r0
      (pk + size pd * PAGE_SIZE) d pk (size d + size pd + size nd) false
      [mkRegion pk (size pd); mkRegion (pk + size pd * PAGE_SIZE + size d * PAGE_SIZE) (size nd)]);
      try done; unfold bytes; try lia.
    + pose proof (inv_coalesced _ Hinv) as Hco. rewrite E, coalesced_middle, Hpf, andb_true_r in Hco. tauto.
    + pose proof (inv_coalesced _ Hinv) as Hco. rewrite E, coalesced_app, !coalesced_cons, Hnf in Hco.
      cbn in Hco. tauto.
    + tile_mid.
    + cbn. rewrite Hf, Hpf, Hnf. cbn. lia.
    + own_mid.
    + apply NoDup_cons. split; [|apply NoDup_singleton]. rewrite list_elem_of_singleton. intros [=]. lia.
    + intros [? ?]. cbn. rewrite Hf, Hpf, Hnf, !elem_of_cons, !elem_of_nil.
      split; intros; destruct_or!; simplify_eq; auto.
    + cbn. rewrite wrap62_small by lia. done.
Qed.

(** What [FreePages] accepts: a whole used region, or pages inside one. *)
Definition freeable t (ptr n : Z) (exact : bool) : Prop :=
  if exact then exists d, (ptr, d) ∈ t /\ isFree d = false /\ size d = n else in_used t ptr n.

Lemma inv_set_locked s b : inv s -> inv (set_locked b s).
Proof. intros [? ? ? ? ? ? ? ? ? ?]. by constructor. Qed.

(** A range of at least one whole page that ends below 2^64. *)
Definition whole_pages (ptr n : Z) : Prop :=
  ptr mod PAGE_SIZE = 0 /\ 0 <= ptr /\ 0 < n /\ ptr + n * PAGE_SIZE < W64.

Lemma region_FreePages_runs s ptr n exact lock :
  inv s -> (lock = true -> m_locked s = false) ->
  (exact = false -> whole_pages ptr n) ->
  runs (FreePages ptr n exact lock) s (fun _ s' => inv s' /\ m_locked s' = m_locked s /\
    ((freeable (m_allPagesTree s) ptr n exact /\
      forall q, owner (m_allPagesTree s') q =
        if (ptr <=? q) && (q <? ptr + n * PAGE_SIZE) then Some true else owner (m_allPagesTree s) q) \/
     (~ freeable (m_allPagesTree s) ptr n exact /\ s' = s))).
Proof.
  intros Hinv Hlk Hw. unfold FreePages. mstep. apply region_Lock_runs; [done|].
  set (s0 := if lock then set_locked true s else s).
  assert (Hinv0 : inv s0) by (unfold s0; destruct lock; [by apply inv_set_locked|done]).
  assert (Eapt : m_allPagesTree s0 = m_allPagesTree s) by (unfold s0; by destruct lock).
  assert (Hback : forall Q : unit -> state -> Prop, Q tt s -> runs (whenM lock Unlock) s0 Q).
  { intros Q HQ. unfold s0. destruct lock; [|by apply runs_ret]. cbn. unfold Unlock. go.
    specialize (Hlk eq_refl). destruct s; cbn in *. by subst. }
  assert (Hl0 : (if lock then false else m_locked s0) = m_locked s).
  { unfold s0. destruct lock; [|done]. by rewrite Hlk. }
  mstep. destruct exact.
  - eapply runs_mono; [by apply FreePages_find_exact|]. rewrite Eapt.
    intros [[node d]|] s1 [-> Hv].
    + destruct Hv as (-> & Hf & <- & l & r & E).
      change (runs (FreePages_rest ptr (size d) lock (Linked ptr) d) s0 (fun _ s' => inv s' /\ m_locked s' = m_locked s /\
        ((freeable (m_allPagesTree s) ptr (size d) true /\
          forall q, owner (m_allPagesTree s') q =
            if (ptr <=? q) && (q <? ptr + size d * PAGE_SIZE) then Some true else owner (m_allPagesTree s) q) \/
         (~ freeable (m_allPagesTree s) ptr (size d) true /\ s' = s)))).
      eapply FreePages_rest_runs; [done|by rewrite Eapt|done|].
      intros s' Hinv' Hlk' Hown. split_and!; [done|congruence|]. left. split; [|by rewrite <- Eapt].
      exists d. rewrite E. split_and!; [set_solver|done|done].
    + apply Hback. split_and!; [done..|]. by right.
  - destruct (Hw eq_refl) as (Hal & Hp & Hn & HW).
    eapply runs_mono; [by apply FreePages_find_inexact|]. rewrite Eapt.
    intros [[node d]|] s1 (Hinv1 & Hlk1 & Hown1 & Hv).
    + destruct Hv as (Hused & -> & Hf & <- & l & r & E).
      change (runs (FreePages_rest ptr (size d) lock (Linked ptr) d) s1 (fun _ s' => inv s' /\ m_locked s' = m_locked s /\
        ((freeable (m_allPagesTree s) ptr (size d) false /\
          forall q, owner (m_allPagesTree s') q =
            if (ptr <=? q) && (q <? ptr + size d * PAGE_SIZE) then Some true else owner (m_allPagesTree s) q) \/
         (~ freeable (m_allPagesTree s) ptr (size d) false /\ s' = s)))).
      eapply FreePages_rest_runs; [done|done|done|].
      intros s' Hinv' Hlk' Hown. rewrite Hlk1 in Hlk'. split_and!; [done|congruence|]. left. split; [done|].
      intros q. rewrite Hown, Hown1. done.
    + destruct Hv as [-> Hv]. apply Hback. split_and!; [done..|]. by right.
Qed.

(** C39: [FreePages] frees exactly the given pages when they form a used region
    ([exact]) or lie inside one, merges the result with both free neighbours and
    keeps the invariant; any other request changes nothing.  A request that is
    not exact has to name at least one whole page and end below 2^64
    ([whole_pages]): the code does not check this, and the examples below show
    what it does with the others. *)
Theorem region_FreePages_spec (s : state) (ptr n : Z) (exact lock : bool) :
  inv s -> (lock = true -> m_locked s = false) ->
  (exact = false -> whole_pages ptr n) ->
  runs (FreePages ptr n exact lock) s (fun _ s' => inv s' /\ m_locked s' = m_locked s /\
    ((freeable (m_allPagesTree s) ptr n exact /\
      forall q, owner (m_allPagesTree s') q =
        if (ptr <=? q) && (q <? ptr + n * PAGE_SIZE) then Some true else owner (m_allPagesTree s) q) \/
     (~ freeable (m_allPagesTree s) ptr n exact /\ s' = s))).
Proof. apply region_FreePages_runs. Qed.

(** Pages obtained from [AllocatePages] and given back with [FreePages] leave the
    owner of every address as it was. *)
Theorem Allocate_Free_owner (s : state) (n : Z) :
  inv s -> m_locked s = false -> 0 < n ->
  runs (let* p := AllocatePages n in
        if p =? 0 then ret tt else FreePages p n true true) s
    (fun _ s' => inv s' /\ m_locked s' = false /\
       forall q, owner (m_allPagesTree s') q = owner (m_allPagesTree s) q).
Proof.
  intros Hinv Hlk Hn. mstep. pose proof (RB_NFIND_spec n _ (fwf_sorted _ (inv_fwf _ Hinv))) as Hspec.
  destruct (RB_NFIND n (m_freePagesTree s)) as [[sz list]|] eqn:Hnf.
  - destruct Hspec as (Hfind & Hle & _).
    destruct (fwf_lists _ (inv_fwf _ Hinv) _ _ Hfind) as [Hne _]. destruct list as [|k xs]; [done|].
    assert (Hin : k ∈ flist (m_freePagesTree s) sz) by (unfold flist; rewrite Hfind; set_solver).
    rewrite (inv_matches _ Hinv _ _), elem_of_free_regions in Hin. destruct Hin as (d & Hin & Hf & <-).
    apply list_elem_of_split in Hin as (l & r & E).
    eapply runs_mono; [by eapply region_AllocatePages_runs|]. intros p s' [-> ->]. rewrite alloc_state_at.
    destruct (at_inv s l k d r 0 n Hinv E Hf) as [Hinv' Hown]; [lia..|].
    destruct (region_facts _ _ _ _ _ Hinv E) as (Hs0 & Hsk & Hsz & Hend & HW & Hal & _ & _ & _ & Htl & _).
    rewrite (proj2 (Z.eqb_neq k 0)) by lia. unfold bytes in Hend.
    eapply runs_mono; [by apply region_FreePages_runs|].
    intros [] s' (Hinv2 & Hlk2 & [[_ Hown2]|[Hnf2 _]]).
    + split_and!; [done|by rewrite Hlk2|]. intros q. rewrite Hown2, Hown, Z.mul_0_l, Z.add_0_r.
      destruct ((k <=? q) && (q <? k + n * PAGE_SIZE)) eqn:Hq; [|done].
      rewrite E, owner_app, (owner_outside _ _ _ _ Htl) by lia. cbn. unfold bytes.
      replace ((k <=? q) && (q <? k + size d * PAGE_SIZE)) with true by lia. by rewrite Hf.
    + exfalso. apply Hnf2. exists (mkData n false (isReserved d)). split_and!; [|done..].
      unfold at_state, at_regions. st. rewrite Z.mul_0_l, Z.add_0_r. cbn. set_solver.
  - unfold AllocatePages, Lock. go. rewrite Hlk. go.
    unfold FindNodeOrHigher. rewrite Hnf. unfold Unlock. go. cbn. mstep.
    assert (Es : set_locked false (set_locked true s) = s) by (destruct s; cbn in *; by subst).
    by rewrite Es.
Qed.

(** ** Initialisation, resizing, copying, checking *)

(** [Init] on a range of whole pages gives one free region, and the
    invariant. *)
Theorem region_Init_spec (start end_ : Z) :
  0 < ALIGN_DOWN start PAGE_SIZE < ALIGN_UP end_ PAGE_SIZE -> 0 <= end_ -> end_ + PAGE_SIZE < W64 ->
  runs (Init start end_) init_state (fun _ s' => inv s' /\ m_locked s' = false /\
    m_start s' = ALIGN_DOWN start PAGE_SIZE /\ m_end s' = ALIGN_UP end_ PAGE_SIZE /\
    forall q, owner (m_allPagesTree s') q =
      if (m_start s' <=? q) && (q <? m_end s') then Some true else None).
Proof.
  intros Hse He HW. unfold Init. go.
  set (a := ALIGN_DOWN start PAGE_SIZE) in *. set (b := ALIGN_UP end_ PAGE_SIZE) in *.
  assert (Ha : a mod PAGE_SIZE = 0) by (apply Z.mod_mul; lia).
  assert (Hb : b mod PAGE_SIZE = 0 /\ b < W64).
  { unfold b, ALIGN_UP, DIV_ROUNDUP. rewrite add64_small, mul64_small by zlia. split; [apply Z.mod_mul; lia|zlia]. }
  destruct Hb as [Hb HbW]. set (n := (b - a) / PAGE_SIZE).
  assert (Hn : a + n * PAGE_SIZE = b /\ 0 < n < 2 ^ 52) by (unfold n; zlia). destruct Hn as [Hab Hn].
  replace ((a =? 0) && (b =? 0)) with false by lia.
  rewrite sub64_small by lia. replace (b - a) with (n * PAGE_SIZE) by lia. rewrite shiftr_pages.
  eapply runs_eq; [by eapply (apt_Insert_eq _ [] a _ []); [|intros ?? ?%not_elem_of_nil..]|]. go.
  cbn. rewrite wrap62_small by lia. split_and!; [constructor; cbn|done..|].
  - lia.
  - done.
  - unfold bytes. cbn. split_and!; [done|lia|lia].
  - done.
  - constructor; [cbn; split; [intros ?? ?%not_elem_of_nil|]; done|].
    intros sz xs. cbn. destruct (sz =? n); [|done]. intros [= <-]. split; [done|apply NoDup_singleton].
  - intros sz x. unfold flist. cbn. destruct (Z.eqb_spec sz n) as [->|?]; cbn;
      rewrite ?list_elem_of_singleton, ?elem_of_nil; naive_solver.
  - lia.
  - done.
  - done.
  - lia.
  - intros q. unfold bytes. cbn. by rewrite Hab.
Qed.

Lemma Verify_loop_ok ft t s : fwf ft ->
  (forall k d, (k, d) ∈ t -> 0 < size d /\ (isFree d = true -> k ∈ flist ft (size d))) ->
  Verify_loop ft t s = Ok (tt, s).
Proof.
  intros Hfw. induction t as [|[k d] t IH]; intros Ht; cbn; [done|].
  destruct (Ht k d ltac:(by left)) as [Hsz Hk].
  unfold Verify_region, bind, assertM, whenM, FindNode. rewrite (proj2 (Z.ltb_lt _ _)) by lia. cbn.
  assert (IH' : Verify_loop ft t s = Ok (tt, s)) by (apply IH; intros; apply Ht; by right).
  destruct (isFree d); [|done]. specialize (Hk eq_refl). destruct (flist_elem _ _ _ Hk) as [xs Hxs].
  unfold flist in Hk. rewrite Hxs in Hk |- *. cbn in *. destruct xs; [by apply not_elem_of_nil in Hk|].
  by rewrite bool_decide_eq_true_2.
Qed.

(** the allocator's own consistency check passes in every state that satisfies
    the invariant. *)
Theorem Verify_passes (s : state) : inv s -> Verify s = Ok (tt, s).
Proof.
  intros Hinv. pose proof (inv_range _ Hinv). pose proof (counts_bound s true Hinv). pose proof (counts_bound s false Hinv).
  unfold Verify, bind at 1, gets. cbn beta iota. unfold bind, assertM.
  replace (m_start s =? UINT64_MAX) with false by (unfold UINT64_MAX; lia).
  replace (m_end s =? 0) with false by lia. replace (m_start s <? m_end s) with true by lia.
  rewrite (inv_free _ Hinv), (inv_used _ Hinv), (inv_reserved _ Hinv), (inv_total _ Hinv).
  rewrite (add64_small (pages true _)), add64_small, Z.add_0_r, Z.eqb_refl by lia. cbn.
  apply Verify_loop_ok; [apply Hinv|]. intros k d Hin. split.
  - apply (tiles_elem _ _ _ _ _ (inv_tiles _ Hinv)) in Hin. lia.
  - intros Hf. rewrite (inv_matches _ Hinv _ _), elem_of_free_regions. eauto.
Qed.

(** [ResizeAllocatedRegion] to a smaller range inside a used region isolates that
    range as a region of its own and changes the owner of no address. *)
Theorem ResizeAllocatedRegion_spec (s : state) (ptr n newStart newN : Z) d :
  inv s -> m_locked s = false -> (ptr, d) ∈ m_allPagesTree s -> isFree d = false -> size d = n ->
  newStart mod PAGE_SIZE = 0 -> ptr <= newStart -> 0 < newN ->
  newStart + newN * PAGE_SIZE <= ptr + n * PAGE_SIZE ->
  runs (ResizeAllocatedRegion ptr n newStart newN) s (fun v s' => v = true /\ inv s' /\ m_locked s' = false /\
    (exists d', (newStart, d') ∈ m_allPagesTree s' /\ isFree d' = false /\ size d' = newN) /\
    forall q, owner (m_allPagesTree s') q = owner (m_allPagesTree s) q).
Proof.
  intros Hinv Hlk Hin Hf <- Hal Hle Hn Hend. apply list_elem_of_split in Hin as (l & r & E).
  destruct (region_facts _ _ _ _ _ Hinv E) as (Hs0 & Hsk & Hsz & Hke & HW & Hka & Hb & Ha & _). unfold bytes in *.
  assert (exists n1, 0 <= n1 /\ newStart = ptr + n1 * PAGE_SIZE) as (n1 & Hn1 & ->).
  { exists ((newStart - ptr) / PAGE_SIZE). zlia. }
  unfold ResizeAllocatedRegion, Lock. go. rewrite Hlk. go. unfold FindNode. rewrite E, RB_FIND_middle by done. cbn.
  rewrite Hf, Z.eqb_refl. cbn. mstep.
  eapply runs_mono with (Q := fun v s1 => inv s1 /\ m_locked s1 = true /\
    (forall p, owner (m_allPagesTree s1) p = owner (m_allPagesTree s) p) /\
    v = (Linked (ptr + n1 * PAGE_SIZE), mkData (size d - n1) false (isReserved d)) /\
    exists l1, m_allPagesTree s1 = l1 ++ (ptr + n1 * PAGE_SIZE, mkData (size d - n1) false (isReserved d)) :: r).
  { destruct (Z.ltb_spec ptr (ptr + n1 * PAGE_SIZE)) as [Hlt|Hge].
    - rewrite sub64_small by lia. replace (ptr + n1 * PAGE_SIZE - ptr) with (n1 * PAGE_SIZE) by lia.
      rewrite shiftr_pages. go.
      eapply runs_eq; [eapply SplitAPTNode_eq; [exact E|..]; unfold bytes; done || lia|]. go. rewrite Hf.
      destruct (inv_split_used s l ptr d r n1 Hinv E Hf) as [Hinv' Hown]; [lia|].
      eapply runs_eq; [eapply (rd_apt_eq _ (l ++ [_])); [by rewrite <- app_assoc|]|].
      { apply (below_snoc l ptr); [done|lia]. }
      go. split_and!; [by apply (inv_set_locked _ true) in Hinv'|done..|]. eexists. st.
      by rewrite (cons_middle (ptr, _)), app_assoc.
    - assert (n1 = 0) as -> by lia. go. rewrite Z.mul_0_l, Z.add_0_r, Z.sub_0_r.
      assert (d = mkData (size d) false (isReserved d)) as Hd by (destruct d; cbn in *; by subst).
      rewrite <- Hd. split_and!; [by apply inv_set_locked|done..|]. eauto. }
  intros ? s1 (Hinv1 & Hlk1 & Hown1 & -> & l1 & E1). cbn beta iota. st. unfold Unlock.
  destruct (region_facts _ _ _ _ _ Hinv1 E1) as (_ & Hsk1 & Hsz1 & Hke1 & HW1 & _ & Hb1 & Ha1 & _).
  cbn in Hsz1. unfold bytes in *. cbn in Ha1, Hke1. mstep.
  destruct (Z.eqb_spec (size d - n1) newN) as [Heq|Hne]; cbn [negb].
  - go; [done|intros _]. go. split_and!; [done|by apply inv_set_locked|done| |intros q; st; by rewrite Hown1, E].
    exists (mkData (size d - n1) false (isReserved d)). st. rewrite E1. split_and!; [set_solver|done|exact Heq].
  - destruct (inv_split_used s1 l1 _ _ r newN Hinv1 E1 eq_refl) as [Hinv' Hown]; [cbn; lia|].
    go; [intros _|done]. go.
    eapply runs_eq; [eapply SplitAPTNode_eq; [exact E1|..]; unfold bytes; cbn; done || lia|]. go.
    split_and!; [done|by apply inv_set_locked|done| |].
    + eexists. split_and!; [apply elem_of_app; right; by left|done|done].
    + intros q. cbn in Hown. by rewrite Hown, Hown1, E.
Qed.

Lemma forEach_Insert {V} (t acc : tree V) : sorted (acc ++ t) ->
  forEach (fun k v (u : tree V) => snd (Insert k v u)) t acc = acc ++ t.
Proof.
  revert acc. induction t as [|[k v] t IH]; intros acc Hs; cbn; [by rewrite app_nil_r|].
  assert (Hb : below acc k) by (by apply sorted_middle in Hs as (_ & _ & ? & _)).
  change (fold_left _ t ?a) with (forEach (fun k v (u : tree V) => snd (Insert k v u)) t a).
  rewrite <- (app_nil_r acc) at 1. rewrite Insert_middle by (done || by intros ?? ?%not_elem_of_nil). cbn.
  rewrite IH; [by rewrite <- app_assoc|by rewrite <- app_assoc].
Qed.

(** [Fork] into a new allocator copies the other allocator: both trees, the
    bounds and the counters. *)
Theorem Fork_copies (other : state) : inv other -> m_locked other = false ->
  Fork other init_state = Ok (true, other).
Proof.
  intros Hinv Hlk. unfold Fork, Lock, Unlock, bind, gets, modify, ret. rewrite Hlk. cbn -[forEach].
  rewrite (forEach_Insert (m_allPagesTree other) []) by (cbn; eapply tiles_sorted, inv_tiles, Hinv).
  rewrite (forEach_Insert (m_freePagesTree other) []) by (apply Hinv). cbn.
  destruct other; cbn in *. by subst.
Qed.

(** *** Instances at a concrete allocator *)

Definition example : state :=
  mk 65536 98304
    [(65536, mkData 2 false false); (73728, mkData 3 true false);
     (86016, mkData 1 false false); (90112, mkData 2 true false)]
    [(2, [90112]); (3, [73728])] 5 3 0 8 false.

Lemma example_inv : inv example.
Proof.
  constructor; cbn; try done; [constructor|].
  - cbn. split_and!; [|by intros ?? ?%not_elem_of_nil|done].
    intros k v [[= -> ->]|?%not_elem_of_nil]%elem_of_cons; done.
  - intros sz xs. cbn. destruct (sz =? 2); [intros [= <-]; split; [done|apply NoDup_singleton]|].
    destruct (sz =? 3); [intros [= <-]; split; [done|apply NoDup_singleton]|done].
  - intros sz x. unfold flist. cbn.
    destruct (Z.eqb_spec sz 2) as [->|]; [|destruct (Z.eqb_spec sz 3) as [->|]]; cbn;
      rewrite !elem_of_cons, ?elem_of_nil; naive_solver.
Qed.

Lemma region_AllocatePages_spec_witness : exists p s', AllocatePages 1 example = Ok (p, s') /\ inv s' /\ p = 90112.
Proof.
  destruct (region_AllocatePages_spec example 1 example_inv eq_refl ltac:(lia)) as (p & s' & Hrun & Hinv & _).
  exists p, s'. split_and!; [done..|]. assert (E := Hrun). vm_compute in E. by injection E as <- _.
Defined.

Lemma AllocatePages_at_spec_witness :
  exists s', AllocatePages_at 77824 1 true example = Ok (77824, s') /\ inv s' /\
    owner (m_allPagesTree s') 77824 = Some false.
Proof.
  destruct (AllocatePages_at_spec example 77824 1 true example_inv ltac:(done) eq_refl ltac:(lia) ltac:(lia) ltac:(lia))
    as (p & s' & Hrun & Hinv & _ & [(-> & _ & Hown)|(-> & _)]).
  - exists s'. split_and!; [done..|]. rewrite Hown. reflexivity.
  - exfalso. vm_compute in Hrun. discriminate Hrun.
Defined.

Lemma region_FreePages_spec_witness :
  exists s', FreePages 86016 1 true true example = Ok (tt, s') /\ inv s' /\
    m_allPagesTree s' = [(65536, mkData 2 false false); (73728, mkData 6 true false)].
Proof.
  destruct (region_FreePages_spec example 86016 1 true true example_inv ltac:(done) ltac:(done))
    as ([] & s' & Hrun & Hinv & _).
  exists s'. split_and!; [done..|]. vm_compute in Hrun. by injection Hrun as <-.
Defined.

(** One used region of eight pages. *)
Definition eight_used : state := mk 8192 40960 [(8192, mkData 8 false false)] [] 0 8 0 8 false.

Lemma eight_used_inv : inv eight_used.
Proof.
  constructor; cbn; try done.
  intros sz x. unfold flist. cbn. by rewrite !elem_of_nil.
Qed.

(** A length whose byte count wraps passes the containment test: a region of
    almost 2^52 pages is entered as free and the counters run over. *)
Example FreePages_length_wraps :
  match FreePages 8192 (2 ^ 52 - 1) false true eight_used with
  | Ok (_, s') => (RB_FIND 8192 (m_allPagesTree s'), m_usedPageCount s' <? 2 ^ 63)
  | Fail _ => (None, true)
  end = (Some (mkData (2 ^ 52 - 1) true false), false).
Proof. vm_compute. reflexivity. Qed.

(** An address inside a page is accepted: the region is freed at the page
    boundary but entered in the free list at the address given. *)
Example FreePages_unaligned_accepted :
  match FreePages 12289 6 false true eight_used with
  | Ok (_, s') => (m_freePagesTree s', RB_FIND 12289 (m_allPagesTree s'))
  | Fail _ => ([], None)
  end = ([(6, [12289])], None).
Proof. vm_compute. reflexivity. Qed.

(** Zero pages: the split leaves a region of size 0, which is found as its own
    next neighbour, merged with itself and removed twice. *)
Example FreePages_of_none_fails : FreePages 8192 0 false true eight_used = Fail InvalidAccess.
Proof. vm_compute. reflexivity. Qed.

Lemma Allocate_Free_owner_witness :
  runs (let* p := AllocatePages 2 in if p =? 0 then ret tt else FreePages p 2 true true) example
    (fun _ s' => inv s' /\ m_locked s' = false /\
       forall q, owner (m_allPagesTree s') q = owner (m_allPagesTree example) q).
Proof. apply (Allocate_Free_owner example 2 example_inv eq_refl). lia. Defined.

Lemma region_Init_spec_witness : exists s', Init 65537 98000 init_state = Ok (tt, s') /\ inv s' /\ m_end s' = 98304.
Proof.
  destruct (region_Init_spec 65537 98000) as ([] & s' & Hrun & Hinv & _ & _ & He & _);
    [vm_compute; done|lia|lia|]. exists s'. split_and!; [done..|]. rewrite He. reflexivity.
Defined.

Lemma Verify_passes_witness : Verify example = Ok (tt, example).
Proof. exact (Verify_passes example example_inv). Defined.

Lemma ResizeAllocatedRegion_spec_witness :
  exists s', ResizeAllocatedRegion 65536 2 69632 1 example = Ok (true, s') /\ inv s'.
Proof.
  destruct (ResizeAllocatedRegion_spec example 65536 2 69632 1 (mkData 2 false false) example_inv eq_refl)
    as (v & s' & Hrun & -> & Hinv & _); try done; [by left|]. by exists s'.
Defined.

Lemma Fork_copies_witness : Fork example init_state = Ok (true, example).
Proof. exact (Fork_copies example example_inv eq_refl). Defined.

End VMRegionSpec.
