(* ===== verification/Bitmap.v ===== *)
(** * Bitmap.v: the class RawBitmap (src/kernel/lib/src/DataStructures/Bitmap.cpp)

    The buffer is provided by the caller, so its real length is kept beside the
    size the bitmap believes it has; an access behind the real end is an error. *)

From S2P Require Import Prelude.

#[local] Open Scope Z_scope.
#[local] Open Scope kernel_scope.

Module Bitmap.

(** The members of [RawBitmap]; a null buffer is the empty list. *)
Record RawBitmap : Type := mkBitmap { m_Buffer : list Z; m_Size : Z }.

(** [RawBitmap::RawBitmap()] *)
Definition empty : RawBitmap := mkBitmap [] 0.

(** A byte of the buffer. *)
Definition rd_byte (i : Z) : M RawBitmap Z :=
  let* b := gets m_Buffer in
  match b !! Z.to_nat i with Some v => ret v | None => fail InvalidAccess end.
Definition wr_byte (i v : Z) : M RawBitmap unit :=
  let* _ := rd_byte i in
  modify (fun bm => mkBitmap (<[Z.to_nat i := v mod 256]> (m_Buffer bm)) (m_Size bm)).

(** [RawBitmap::Set] *)
Definition Set_ (index : Z) (value : bool) : M RawBitmap unit :=
  let* size := gets m_Size in
  if mul64 size 8 <=? index then ret tt else
  let* b := rd_byte (index / 8) in
  if value then wr_byte (index / 8) (Z.lor b (Z.shiftl 1 (index mod 8)))
  else wr_byte (index / 8) (Z.land b (Z.lnot (Z.shiftl 1 (index mod 8)))).

(** [RawBitmap::Get] *)
Definition Get (index : Z) : M RawBitmap bool :=
  let* size := gets m_Size in
  if mul64 size 8 <=? index then ret false else
  let* b := rd_byte (index / 8) in
  ret (negb (Z.land b (Z.shiftl 1 (index mod 8)) =? 0)).

(** [GetBuffer], [GetSize], [SetBuffer], [SetSize] *)
Definition GetBuffer : M RawBitmap (list Z) := gets m_Buffer.
Definition GetSize : M RawBitmap Z := gets m_Size.
Definition SetBuffer (b : list Z) : M RawBitmap unit := modify (fun bm => mkBitmap b (m_Size bm)).
Definition SetSize (n : Z) : M RawBitmap unit := modify (fun bm => mkBitmap (m_Buffer bm) n).

(** ** Abstraction: a bitmap is a function from indices to bits *)

Definition bit (bm : RawBitmap) (i : Z) : bool :=
  match m_Buffer bm !! Z.to_nat (i / 8) with Some b => Z.testbit b (i mod 8) | None => false end.

Definition byte (b : Z) : Prop := 0 <= b < 256.

Record wf (bm : RawBitmap) : Prop := {
  wf_length : Z.of_nat (length (m_Buffer bm)) = m_Size bm;
  wf_bytes : Forall byte (m_Buffer bm);
  wf_bound : m_Size bm * 8 < W64
}.

Lemma land_single b k : 0 <= k -> negb (Z.land b (Z.shiftl 1 k) =? 0) = Z.testbit b k.
Proof.
  intros Hk. rewrite Z.shiftl_1_l. destruct (Z.testbit b k) eqn:Hb.
  - apply negb_true_iff, Z.eqb_neq. intros E.
    assert (Hz : Z.testbit (Z.land b (2 ^ k)) k = true).
    { rewrite Z.land_spec, Hb, Z.pow2_bits_true by lia. done. }
    rewrite E, Z.bits_0 in Hz. done.
  - apply negb_false_iff, Z.eqb_eq. apply Z.bits_inj'. intros n Hn. rewrite Z.bits_0, Z.land_spec.
    destruct (decide (n = k)) as [->|Hne]; [by rewrite Hb|]. rewrite Z.pow2_bits_false by lia. apply andb_false_r.
Qed.

Lemma byte_testbit b : byte b <-> 0 <= b /\ forall n, 8 <= n -> Z.testbit b n = false.
Proof.
  unfold byte. split.
  - intros Hb. split; [lia|]. intros n Hn. destruct (decide (b = 0)) as [->|]; [apply Z.bits_0|].
    apply Z.bits_above_log2; [lia|]. apply Z.log2_lt_pow2; [lia|].
    apply Z.lt_le_trans with (2 ^ 8); [lia|]. apply Z.pow_le_mono_r; lia.
  - intros [Hb Hn]. split; [done|]. replace b with (b mod 2 ^ 8); [apply Z.mod_pos_bound; lia|].
    apply Z.bits_inj'. intros n Hn0. destruct (decide (n < 8)).
    + by rewrite Z.mod_pow2_bits_low by lia.
    + rewrite Z.mod_pow2_bits_high, Hn by lia. done.
Qed.

(** The byte [Set_] writes. *)
Definition set_bit (b k : Z) (v : bool) : Z :=
  if v then Z.lor b (Z.shiftl 1 k) else Z.land b (Z.lnot (Z.shiftl 1 k)).

Lemma set_bit_testbit b k v n : 0 <= k -> 0 <= n ->
  Z.testbit (set_bit b k v) n = if decide (n = k) then v else Z.testbit b n.
Proof.
  intros Hk Hn. unfold set_bit. rewrite Z.shiftl_1_l. destruct v.
  - rewrite Z.lor_spec. case_decide; subst.
    + rewrite Z.pow2_bits_true by lia. apply orb_true_r.
    + rewrite Z.pow2_bits_false by lia. apply orb_false_r.
  - rewrite Z.land_spec, Z.lnot_spec by lia. case_decide; subst.
    + rewrite Z.pow2_bits_true by lia. apply andb_false_r.
    + rewrite Z.pow2_bits_false by lia. apply andb_true_r.
Qed.

Lemma set_bit_byte b k v : byte b -> 0 <= k < 8 -> byte (set_bit b k v).
Proof.
  rewrite !byte_testbit. intros [Hb Hn] Hk. split.
  - unfold set_bit. rewrite Z.shiftl_1_l. destruct v.
    + apply Z.lor_nonneg. lia.
    + apply Z.land_nonneg. lia.
  - intros n Hn8. rewrite set_bit_testbit by lia. rewrite decide_False by lia. by apply Hn.
Qed.

Section Specs.
Context (bm : RawBitmap) (Hwf : wf bm).

Lemma wf_size : 0 <= m_Size bm.
Proof. pose proof (wf_length _ Hwf). lia. Qed.

Lemma wf_lookup i : 0 <= i < m_Size bm * 8 ->
  exists b, m_Buffer bm !! Z.to_nat (i / 8) = Some b /\ byte b.
Proof.
  intros Hi. pose proof (wf_length _ Hwf) as Hl.
  destruct (lookup_lt_is_Some_2 (m_Buffer bm) (Z.to_nat (i / 8))) as [b Hb]; [zlia|].
  exists b. split; [done|]. pose proof (wf_bytes _ Hwf) as Hf. rewrite Forall_lookup in Hf. by eapply Hf.
Qed.

Lemma Get_eq i : 0 <= i ->
  Get i bm = Ok (if i <? m_Size bm * 8 then bit bm i else false, bm).
Proof.
  intros Hi. unfold Get, rd_byte, bind, gets, ret. pose proof (wf_bound _ Hwf). pose proof wf_size.
  rewrite mul64_small by lia. destruct (Z.ltb_spec i (m_Size bm * 8)) as [Hlt|Hge].
  - rewrite (proj2 (Z.leb_gt _ _)) by lia. destruct (wf_lookup i) as (b & Hb & _); [lia|].
    unfold bit. rewrite Hb. rewrite land_single by (apply Z.mod_pos_bound; lia). done.
  - by rewrite (proj2 (Z.leb_le _ _)) by lia.
Qed.

(** The bitmap after [Set_]. *)
Definition updated (i : Z) (v : bool) : RawBitmap :=
  if i <? m_Size bm * 8 then
    mkBitmap (<[Z.to_nat (i / 8) := set_bit (default 0 (m_Buffer bm !! Z.to_nat (i / 8))) (i mod 8) v]> (m_Buffer bm))
      (m_Size bm)
  else bm.

Lemma Set_eq i v : 0 <= i -> Set_ i v bm = Ok (tt, updated i v).
Proof.
  intros Hi. pose proof (wf_bound _ Hwf). pose proof wf_size.
  unfold Set_, wr_byte, rd_byte, bind, gets, ret, modify, updated. rewrite mul64_small by lia.
  destruct (Z.ltb_spec i (m_Size bm * 8)) as [Hlt|Hge].
  - rewrite (proj2 (Z.leb_gt _ _)) by lia. destruct (wf_lookup i) as (b & Hb & Hbyte); [lia|].
    rewrite Hb. cbn. pose proof (Z.mod_pos_bound i 8 ltac:(lia)) as Hk.
    pose proof (set_bit_byte b (i mod 8) v Hbyte Hk) as Hs. unfold byte in Hs. unfold set_bit in *.
    destruct v; rewrite Hb; cbn; rewrite Z.mod_small by lia; done.
  - by rewrite (proj2 (Z.leb_le _ _)) by lia.
Qed.

Lemma updated_wf i v : 0 <= i -> wf (updated i v).
Proof.
  intros Hi. unfold updated. destruct (Z.ltb_spec i (m_Size bm * 8)) as [Hlt|Hge]; [|done].
  destruct Hwf as [Hl Hb Hs]. destruct (wf_lookup i) as (b & Hbk & Hbyte); [lia|]. constructor; cbn.
  - by rewrite length_insert.
  - apply Forall_insert; [done|]. rewrite Hbk. cbn. apply set_bit_byte; [done|]. apply Z.mod_pos_bound. lia.
  - done.
Qed.

Lemma updated_bit i v j : 0 <= i < m_Size bm * 8 -> 0 <= j ->
  bit (updated i v) j = if decide (j = i) then v else bit bm j.
Proof.
  intros Hi Hj. unfold updated. rewrite (proj2 (Z.ltb_lt _ _)) by lia.
  destruct (wf_lookup i Hi) as (b & Hb & Hbyte). rewrite Hb. cbn. unfold bit. cbn.
  destruct (decide (j / 8 = i / 8)) as [E|E].
  - rewrite E, Hb, list_lookup_insert_eq by (apply lookup_lt_Some in Hb; lia).
    rewrite set_bit_testbit by (apply Z.mod_pos_bound; lia).
    destruct (decide (j mod 8 = i mod 8)), (decide (j = i)); try done; subst; zlia.
  - rewrite list_lookup_insert_ne by zlia. rewrite decide_False by (intros ->; done). done.
Qed.

Lemma updated_size i v : m_Size (updated i v) = m_Size bm.
Proof. unfold updated. by destruct (i <? m_Size bm * 8). Qed.
End Specs.

(** After [Set i v], [Get j] reads [v] at [j = i] and the old bit elsewhere;
    indices behind the end read as clear and writes to them change nothing. *)
Lemma Set_Get (bm : RawBitmap) (i j : Z) (v : bool) :
  wf bm -> 0 <= i -> 0 <= j ->
  runs (Set_ i v ;;; Get j) bm (fun b bm' => wf bm' /\ m_Size bm' = m_Size bm /\
    b = if j <? m_Size bm * 8 then (if decide (j = i) then v else bit bm j) else false).
Proof.
  intros Hwf Hi Hj. mstep. eapply runs_eq; [by apply Set_eq|].
  eapply runs_eq; [apply Get_eq; [by apply updated_wf|done]|].
  split; [by apply updated_wf|]. rewrite updated_size. split; [done|].
  destruct (Z.ltb_spec j (m_Size bm * 8)) as [Hlt|Hge]; [|done].
  destruct (decide (i < m_Size bm * 8)) as [Hin|Hout]; [by rewrite updated_bit by (done || lia)|].
  unfold updated. rewrite (proj2 (Z.ltb_ge _ _)) by lia. by rewrite decide_False by lia.
Qed.

Lemma Set_Get_witness : runs (Set_ 10 true ;;; Get 9) (mkBitmap [255; 2] 2) (fun b bm' => b = true).
Proof.
  eapply runs_mono; [apply (Set_Get (mkBitmap [255; 2] 2) 10 9 true)|].
  - constructor; cbn; [done|repeat constructor; lia|lia].
  - lia.
  - lia.
  - intros b bm' (_ & _ & ->). reflexivity.
Defined.

End Bitmap.
