(* ===== verification/FileDescriptor.v ===== *)
(** * FileDescriptor.v: open files (src/kernel/src/fs/FileDescriptor.cpp)

    A descriptor refers to a vnode or a terminal. Both belong to other parts of
    the kernel and are reached through the interface [Files]: the operations of
    [FS::VNode] and [TTY] that the descriptor calls, acting on their own state. *)

From S2P Require Import Prelude.

#[local] Open Scope Z_scope.
#[local] Open Scope kernel_scope.

Module FileDescriptor.

(** ** Data *)

(** The error codes of errno.h that occur below. *)
Definition ESUCCESS : Z := 0.
Definition EBADF : Z := 9.
Definition ENOTDIR : Z := 20.
Definition EINVAL : Z := 22.
Definition ENOSYS : Z := 38.

Definition O_APPEND : Z := 1024.

Inductive FDType : Set := File | TTY_ | Directory | Invalid.
Inductive FDOffsetStart : Set := START | END_ | CURRENT.
Inductive TTYStream : Set := IN | OUT | ERR | DEBUG | INVALID.

#[global] Instance FDType_eq_dec : EqDecision FDType.
Proof. solve_decision. Defined.
#[global] Instance TTYStream_eq_dec : EqDecision TTYStream.
Proof. solve_decision. Defined.

(** What the descriptor uses of [FS::VNode] and [TTY]; [W] is their state. *)
Class Files (W : Type) : Type := {
  VNode_Lock : Z -> W -> W;
  VNode_Unlock : Z -> W -> W;
  (* vnode, buffer, count, offset, process: result, bytes read *)
  VNode_Read : Z -> Z -> Z -> Z -> Z -> W -> Z * Z * W;
  VNode_Write : Z -> Z -> Z -> Z -> Z -> W -> Z * Z * W;
  (* result and the size attribute *)
  VNode_GetAttr : Z -> W -> Z * Z * W;
  (* vnode, buffer, count, offset: result and entries read *)
  VNode_GetDents : Z -> Z -> Z -> Z -> W -> Z * Z * W;
  TTY_Lock : Z -> TTYStream -> W -> W;
  TTY_Unlock : Z -> TTYStream -> W -> W;
  TTY_ReadString : Z -> Z -> Z -> TTYStream -> W -> W;
  TTY_WriteString : Z -> Z -> Z -> TTYStream -> W -> W
}.

(** The members of class [FileDescriptor]; [m_locked] is its mutex. *)
Record fd : Type := mkFd {
  m_proc : Z;
  m_type : FDType;
  m_offset : Z;
  m_open : bool;
  m_append : bool;
  m_vnode : Z;
  m_tty : Z;
  m_ttyStream : TTYStream;
  m_locked : bool
}.

(** The constructors. *)
Definition new_fd : fd := mkFd 0 Invalid 0 false false 0 0 INVALID false.
Definition new_fd_vnode (proc : Z) (type : FDType) (vnode : Z) : fd :=
  mkFd proc type 0 false false vnode 0 INVALID false.
Definition new_fd_tty (proc : Z) (type : FDType) (tty : Z) (stream : TTYStream) : fd :=
  mkFd proc type 0 false false 0 tty stream false.

Definition set_offset (v : Z) (f : fd) : fd :=
  mkFd (m_proc f) (m_type f) v (m_open f) (m_append f) (m_vnode f) (m_tty f) (m_ttyStream f) (m_locked f).
Definition set_open (v : bool) (f : fd) : fd :=
  mkFd (m_proc f) (m_type f) (m_offset f) v (m_append f) (m_vnode f) (m_tty f) (m_ttyStream f) (m_locked f).
Definition set_append (v : bool) (f : fd) : fd :=
  mkFd (m_proc f) (m_type f) (m_offset f) (m_open f) v (m_vnode f) (m_tty f) (m_ttyStream f) (m_locked f).
Definition set_locked (v : bool) (f : fd) : fd :=
  mkFd (m_proc f) (m_type f) (m_offset f) (m_open f) (m_append f) (m_vnode f) (m_tty f) (m_ttyStream f) v.

Section Ops.
Context {W : Type} `{Files W}.

(** A descriptor together with the files and terminals. *)
Notation state := (fd * W)%type.

Definition field {A} (f : fd -> A) : M state A := gets (fun s => f (fst s)).
Definition upd (f : fd -> fd) : M state unit := modify (fun s => (f (fst s), snd s)).
Definition world (f : W -> W) : M state unit := modify (fun s => (fst s, f (snd s))).
Definition call {A} (f : W -> A * W) : M state A :=
  fun s => let (a, w) := f (snd s) in Ok (a, (fst s, w)).

(** [m_mutex] *)
Definition Lock : M state unit :=
  let* l := field m_locked in if l then fail LockHeld else upd (set_locked true).
Definition Unlock : M state unit := upd (set_locked false).
Definition fail_with (rc : Z) : M state Z := Unlock ;;; ret rc.

(** ** Operations *)

(** [FileDescriptor::Open] *)
Definition Open (flags : Z) : M state Z :=
  Lock ;;;
  let* proc := field m_proc in
  if proc =? 0 then fail_with (- EBADF) else
  let* type := field m_type in
  let* vnode := field m_vnode in
  let opened := (upd (set_open true) ;;; upd (set_offset 0) ;;; Unlock ;;; ret ESUCCESS) in
  match type with
  | File =>
      if vnode =? 0 then fail_with (- EBADF) else
      whenM (0 <? Z.land flags O_APPEND) (upd (set_append true)) ;;;
      opened
  | TTY_ => if Z.land flags O_APPEND =? 0 then opened else fail_with (- EBADF)
  | Directory => if vnode =? 0 then fail_with (- EBADF) else opened
  | Invalid => fail_with (- EBADF)
  end.

(** [FileDescriptor::Close] *)
Definition Close : M state unit :=
  Lock ;;;
  upd (set_offset 0) ;;;
  upd (set_append false) ;;;
  upd (set_open false) ;;;
  Unlock.

(** [FileDescriptor::isOpen] *)
Definition isOpen : M state bool := field m_open.

(** [FileDescriptor::Read]: the result and, when it is written, [*realCount].
    Pointers are addresses, null is 0. *)
Definition Read (buf count realCount : Z) : M state (Z * option Z) :=
  if (buf =? 0) || (count =? 0) || (realCount =? 0) then ret (- EINVAL, None) else
  Lock ;;;
  let* open := field m_open in
  if negb open then Unlock ;;; ret (- EBADF, None) else
  let* type := field m_type in
  match type with
  | File =>
      let* vnode := field m_vnode in
      if vnode =? 0 then Unlock ;;; ret (- EBADF, None) else
      world (VNode_Lock vnode) ;;;
      let* offset := field m_offset in
      let* proc := field m_proc in
      let* (rc, bytesRead) := call (VNode_Read vnode buf count offset proc) in
      world (VNode_Unlock vnode) ;;;
      upd (fun f => set_offset (add64 (m_offset f) bytesRead) f) ;;;
      Unlock ;;; ret (rc, Some bytesRead)
  | TTY_ =>
      let* tty := field m_tty in
      let* stream := field m_ttyStream in
      if (tty =? 0) || bool_decide (stream = INVALID) then Unlock ;;; ret (- EBADF, None) else
      world (TTY_Lock tty stream) ;;;
      world (TTY_ReadString tty buf count stream) ;;;
      world (TTY_Unlock tty stream) ;;;
      Unlock ;;; ret (ESUCCESS, Some count)
  | Directory => Unlock ;;; ret (- EBADF, None)
  | Invalid => Unlock ;;; ret (- ENOSYS, None)
  end.

(** [FileDescriptor::Write] *)
Definition Write (buf count realCount : Z) : M state (Z * option Z) :=
  if (buf =? 0) || (count =? 0) || (realCount =? 0) then ret (- EINVAL, None) else
  Lock ;;;
  let* open := field m_open in
  if negb open then Unlock ;;; ret (- EBADF, None) else
  let* type := field m_type in
  match type with
  | File =>
      let* vnode := field m_vnode in
      if vnode =? 0 then Unlock ;;; ret (- EBADF, None) else
      world (VNode_Lock vnode) ;;;
      let* offset := field m_offset in
      let* append := field m_append in
      let* (rc, offset) :=
        (if (append : bool) then call (VNode_GetAttr vnode) else ret (0, offset)) in
      if append && (rc <? 0) then world (VNode_Unlock vnode) ;;; Unlock ;;; ret (rc, None) else
      let* proc := field m_proc in
      let* (rc, bytesWritten) := call (VNode_Write vnode buf count offset proc) in
      world (VNode_Unlock vnode) ;;;
      whenM (negb append) (upd (fun f => set_offset (add64 (m_offset f) bytesWritten) f)) ;;;
      Unlock ;;; ret (rc, Some bytesWritten)
  | TTY_ =>
      let* tty := field m_tty in
      let* stream := field m_ttyStream in
      if (tty =? 0) || bool_decide (stream = INVALID) then Unlock ;;; ret (- EBADF, None) else
      world (TTY_Lock tty stream) ;;;
      world (TTY_WriteString tty buf count stream) ;;;
      world (TTY_Unlock tty stream) ;;;
      Unlock ;;; ret (ESUCCESS, Some count)
  | Directory => Unlock ;;; ret (- EBADF, None)
  | Invalid => Unlock ;;; ret (- ENOSYS, None)
  end.

(** The switch on [whence] in [Seek]: the new offset, or [None] for [EINVAL].
    [offset] is an [int64_t]. *)
Definition Seek_target (whence : FDOffsetStart) (offset m_offset fileSize : Z) : option Z :=
  match whence with
  | START =>
      if (offset <? 0) || (fileSize <? wrap64 offset) then None else Some (wrap64 offset)
  | END_ =>
      if (0 <? offset) || (fileSize <? wrap64 (- offset)) then None else Some (add64 fileSize offset)
  | CURRENT =>
      if ((offset <? 0) && (m_offset <? wrap64 (- offset)))
         || ((0 <? offset) && (fileSize <? add64 m_offset offset))
      then None else Some (add64 m_offset offset)
  end.

(** [FileDescriptor::Seek]: the result and, when it is written, [*realOffset]. *)
Definition Seek (offset : Z) (whence : FDOffsetStart) (realOffset : Z) : M state (Z * option Z) :=
  if realOffset =? 0 then ret (- EINVAL, None) else
  Lock ;;;
  let* open := field m_open in
  if negb open then Unlock ;;; ret (- EBADF, None) else
  let* type := field m_type in
  let* v :=
    match type with
    | File =>
        let* vnode := field m_vnode in
        if vnode =? 0 then ret (- EBADF, None) else
        world (VNode_Lock vnode) ;;;
        let* (rc, fileSize) := call (VNode_GetAttr vnode) in
        world (VNode_Unlock vnode) ;;;
        if rc <? 0 then ret (rc, None) else
        let* cur := field m_offset in
        match Seek_target whence offset cur fileSize with
        | None => ret (- EINVAL, None)
        | Some o => upd (set_offset o) ;;; ret (ESUCCESS, Some o)
        end
    | TTY_ => ret (ESUCCESS, None)
    | Directory => ret (- EBADF, None)
    | Invalid => ret (- ENOSYS, None)
    end in
  Unlock ;;;
  ret v.

(** [FileDescriptor::GetDents] *)
Definition GetDents (buf count realCount : Z) : M state (Z * option Z) :=
  if (buf =? 0) || (count =? 0) || (realCount =? 0) then ret (- EINVAL, None) else
  Lock ;;;
  let* open := field m_open in
  if negb open then Unlock ;;; ret (- EBADF, None) else
  let* type := field m_type in
  if negb (bool_decide (type = Directory)) then Unlock ;;; ret (- ENOTDIR, None) else
  let* vnode := field m_vnode in
  if vnode =? 0 then fail NullDereference else
  world (VNode_Lock vnode) ;;;
  let* offset := field m_offset in
  let* (rc, read) := call (VNode_GetDents vnode buf count offset) in
  world (VNode_Unlock vnode) ;;;
  upd (fun f => set_offset (add64 (m_offset f) read) f) ;;;
  Unlock ;;;
  ret (rc, if 0 <=? rc then Some read else None).

(** [FileDescriptor::Fork]: copies [other] (whose mutex is taken and released). *)
Definition Fork (other : fd) (newProc : Z) : M state bool :=
  if m_locked other then fail LockHeld else
  Lock ;;;
  upd (fun f => mkFd newProc (m_type other) (m_offset other) (m_open other) (m_append other)
                  (m_vnode other) (m_tty other) (m_ttyStream other) (m_locked f)) ;;;
  Unlock ;;;
  ret true.

(** [GetType], [GetVNode] *)
Definition GetType : M state FDType := field m_type.
Definition GetVNode : M state Z := field m_vnode.
End Ops.

(** ** Correctness *)

(** An open descriptor that is not a terminal has a vnode, and only valid
    descriptors are open. *)
Record wf (f : fd) : Prop := {
  wf_unlocked : m_locked f = false;
  wf_valid : m_open f = true -> m_type f <> Invalid;
  wf_vnode : m_open f = true -> m_type f = File \/ m_type f = Directory -> m_vnode f <> 0
}.

Inductive fd_op : Set :=
  | OpOpen (flags : Z) | OpClose | OpRead (buf count rc : Z) | OpWrite (buf count rc : Z)
  | OpSeek (offset : Z) (whence : FDOffsetStart) (ro : Z) | OpGetDents (buf count rc : Z).

Section Specs.
Context {W : Type} `{Files W}.

Definition run_fd_op (o : fd_op) : M (fd * W) Z :=
  match o with
  | OpOpen flags => Open flags
  | OpClose => Close ;;; ret 0
  | OpRead b c r => let* v := Read b c r in ret (fst v)
  | OpWrite b c r => let* v := Write b c r in ret (fst v)
  | OpSeek o wh r => let* v := Seek o wh r in ret (fst v)
  | OpGetDents b c r => let* v := GetDents b c r in ret (fst v)
  end.

Lemma call_runs {A} (f : W -> A * W) s (Q : A -> fd * W -> Prop) :
  (forall a w, f (snd s) = (a, w) -> Q a (fst s, w)) -> runs (call f) s Q.
Proof.
  intros HQ. destruct (f (snd s)) as [a w] eqn:E. exists a, (fst s, w). unfold call. rewrite E.
  split; [done|]. by apply HQ.
Qed.

Lemma Lock_ok f w (Q : unit -> fd * W -> Prop) :
  m_locked f = false -> Q tt (set_locked true f, w) -> runs Lock (f, w) Q.
Proof. intros Hl HQ. unfold Lock, field, upd. mgo. cbn. rewrite Hl. by mgo. Qed.

(** Run one branch of an operation. *)
Ltac fd_go :=
  repeat (cbn [fst snd m_proc m_type m_offset m_open m_append m_vnode m_tty m_ttyStream m_locked
               set_offset set_open set_append set_locked];
    first
    [ progress mstep
    | apply call_runs; intros ?? ?
    | match goal with
      | |- runs (fail_with _) _ _ => unfold fail_with
      | |- runs Unlock _ _ => unfold Unlock
      | |- runs (upd _) _ _ => unfold upd
      | |- runs (world _) _ _ => unfold world
      | |- runs (field _) _ _ => unfold field
      | |- runs (if ?b then _ else _) _ _ => destruct b eqn:?
      | |- runs (let (_, _) := ?p in _) _ _ => destruct p
      | |- _ = true -> _ => intros ?
      | |- _ = false -> _ => intros ?
      end ]).

(** No sequence of operations on a descriptor dereferences a null vnode or
    deadlocks on the descriptor's mutex: each operation returns with the mutex
    released and keeps the descriptor well formed, whatever the files and
    terminals answer. *)
Theorem fd_op_safe (o : fd_op) (f : fd) (w : W) :
  wf f -> runs (run_fd_op o) (f, w) (fun _ s' => wf (fst s')).
Proof.
  intros [Hl Hv Hn]. destruct f as [proc ty off op ap vn tty str lk]. cbn in *. subst lk.
  destruct o as [flags| |b c r|b c r|o wh r|b c r]; cbn [run_fd_op].
  - unfold Open. mstep. apply Lock_ok; [done|]. destruct ty; fd_go; zb; by constructor; cbn; naive_solver.
  - unfold Close. mstep. mstep. apply Lock_ok; [done|]. fd_go. by constructor.
  - unfold Read. mstep. case_match; [fd_go; by constructor|]. mstep. apply Lock_ok; [done|].
    destruct ty; fd_go; by constructor; cbn.
  - unfold Write. mstep. case_match; [fd_go; by constructor|]. mstep. apply Lock_ok; [done|].
    destruct ty; fd_go; by constructor; cbn.
  - unfold Seek. mstep. case_match; [fd_go; by constructor|]. mstep. apply Lock_ok; [done|].
    destruct ty; fd_go; try (by constructor; cbn).
    match goal with |- context [Seek_target ?a ?b ?c ?d] => destruct (Seek_target a b c d) end; fd_go; by constructor; cbn.
  - unfold GetDents. mstep. case_match; [fd_go; by constructor|]. mstep. apply Lock_ok; [done|].
    destruct ty; fd_go; try (by constructor; cbn); exfalso; zb;
      match goal with H : negb (bool_decide _) = false |- _ =>
        apply negb_false_iff, bool_decide_eq_true in H end; destruct op; cbn in *; naive_solver.
Qed.

(** The position a seek is relative to. *)
Definition seek_base (whence : FDOffsetStart) (offset fileSize : Z) : Z :=
  match whence with START => 0 | END_ => fileSize | CURRENT => offset end.

Lemma Seek_target_eq whence offset cur fileSize :
  - 2 ^ 63 < offset < 2 ^ 63 -> 0 <= cur <= fileSize -> fileSize < 2 ^ 63 ->
  Seek_target whence offset cur fileSize =
  let target := seek_base whence cur fileSize + offset in
  if (0 <=? target) && (target <=? fileSize) then Some target else None.
Proof.
  intros Ho Hc Hf. unfold Seek_target, seek_base.
  assert (Hpos : 0 <= offset -> wrap64 offset = offset) by (intros; apply wrap64_small; lia).
  assert (Hneg : offset <= 0 -> wrap64 (- offset) = - offset) by (intros; apply wrap64_small; lia).
  assert (Hend : offset <= 0 -> - offset <= fileSize -> add64 fileSize offset = fileSize + offset)
    by (intros; apply add64_small; lia).
  assert (Hcur : 0 <= cur + offset -> add64 cur offset = cur + offset) by (intros; apply add64_small; lia).
  destruct whence; cbn zeta;
    destruct (Z.ltb_spec offset 0), (Z.ltb_spec 0 offset); try lia; rewrite ?Hpos, ?Hneg by lia; cbn [orb andb].
  all: try rewrite Hcur by lia.
  all: repeat match goal with
       | |- context [?a <? ?b] => destruct (Z.ltb_spec a b)
       | |- context [?a <=? ?b] => destruct (Z.leb_spec a b)
       end; cbn [orb andb]; rewrite ?Hend, ?Hcur by lia; try done; try lia; f_equal; lia.
Qed.

(** [Seek] on an open file moves to base + offset when that lies within the
    file and reports it; otherwise it fails with [EINVAL] and leaves the offset
    alone. Hence the offset never leaves the file, and nothing overflows. *)
Theorem Seek_spec (f : fd) (w w' : W) (offset : Z) (whence : FDOffsetStart) (ro rc fileSize : Z) :
  wf f -> m_open f = true -> m_type f = File -> ro <> 0 ->
  VNode_GetAttr (m_vnode f) (VNode_Lock (m_vnode f) w) = (rc, fileSize, w') -> 0 <= rc ->
  - 2 ^ 63 < offset < 2 ^ 63 -> 0 <= m_offset f <= fileSize -> fileSize < 2 ^ 63 ->
  let target := seek_base whence (m_offset f) fileSize + offset in
  Seek offset whence ro (f, w) =
  if (0 <=? target) && (target <=? fileSize)
  then Ok ((ESUCCESS, Some target), (set_offset target f, VNode_Unlock (m_vnode f) w'))
  else Ok ((- EINVAL, None), (f, VNode_Unlock (m_vnode f) w')).
Proof.
  intros [Hl _ Hn] Hop Hty Hro Hattr Hrc Ho Hoff Hf target.
  specialize (Hn Hop (or_introl Hty)). apply Z.eqb_neq in Hn as Hn', Hro as Hro'.
  destruct f as [proc ty off op ap vn tty str lk]. cbn in *. subst.
  unfold Seek, Lock, Unlock, field, upd, world, call, bind, gets, modify, ret. rewrite Hro'. cbn.
  rewrite Hn'. cbn. rewrite Hattr. cbn. rewrite (proj2 (Z.ltb_ge rc 0)) by lia.
  rewrite Seek_target_eq by done. cbn. fold target.
  by destruct ((0 <=? target) && (target <=? fileSize)).
Qed.

(** In append mode [Write] writes at the end of the file as reported under the
    vnode's lock and keeps the offset; otherwise it writes at the offset and
    advances it by the bytes written. *)
Theorem Write_position (f : fd) (w w1 w2 : W) (buf count r rc size rcw n : Z) :
  wf f -> m_open f = true -> m_type f = File -> buf <> 0 -> count <> 0 -> r <> 0 ->
  VNode_GetAttr (m_vnode f) (VNode_Lock (m_vnode f) w) = (rc, size, w1) -> 0 <= rc ->
  VNode_Write (m_vnode f) buf count (if m_append f then size else m_offset f) (m_proc f)
    (if m_append f then w1 else VNode_Lock (m_vnode f) w) = (rcw, n, w2) ->
  Write buf count r (f, w) =
  Ok ((rcw, Some n),
      (if m_append f then f else set_offset (add64 (m_offset f) n) f, VNode_Unlock (m_vnode f) w2)).
Proof.
  intros [Hl _ Hn] Hop Hty Hb Hc Hr Hattr Hrc Hw.
  specialize (Hn Hop (or_introl Hty)). apply Z.eqb_neq in Hn as Hn', Hb, Hc, Hr.
  destruct f as [proc ty off op ap vn tty str lk]. cbn in *. subst.
  unfold Write, Lock, Unlock, field, upd, world, call, whenM, bind, gets, modify, ret. rewrite Hb, Hc, Hr. cbn.
  rewrite Hn'. cbn. destruct ap; cbn.
  - rewrite Hattr. cbn. rewrite (proj2 (Z.ltb_ge rc 0)) by lia. cbn. by rewrite Hw.
  - by rewrite Hw.
Qed.
End Specs.

(** *** Instances: one file whose contents are its size *)

Definition example_files : Files Z := {|
  VNode_Lock := fun _ w => w;
  VNode_Unlock := fun _ w => w;
  VNode_Read := fun _ _ count offset _ w => (0, Z.min count (w - offset), w);
  VNode_Write := fun _ _ count offset _ w => (0, count, Z.max w (offset + count));
  VNode_GetAttr := fun _ w => (0, w, w);
  VNode_GetDents := fun _ _ _ _ w => (0, 0, w);
  TTY_Lock := fun _ _ w => w;
  TTY_Unlock := fun _ _ w => w;
  TTY_ReadString := fun _ _ _ _ w => w;
  TTY_WriteString := fun _ _ _ _ w => w
|}.

Definition example_fd : fd := mkFd 1 File 10 true true 4096 0 INVALID false.

Lemma example_fd_wf : wf example_fd.
Proof. by constructor. Qed.

Lemma fd_op_safe_witness :
  runs (run_fd_op (H := example_files) (OpWrite 8 5 8)) (example_fd, 100) (fun _ s' => wf (fst s')).
Proof. apply (fd_op_safe (H := example_files)). exact example_fd_wf. Defined.

Lemma Seek_spec_witness :
  Seek (H := example_files) (-30) END_ 8 (example_fd, 100) = Ok ((0, Some 70), (set_offset 70 example_fd, 100)).
Proof.
  exact (Seek_spec (H := example_files) example_fd 100 100 (-30) END_ 8 0 100 example_fd_wf eq_refl eq_refl
           ltac:(lia) eq_refl ltac:(lia) ltac:(lia) ltac:(cbn; lia) ltac:(lia)).
Defined.

Lemma Write_position_witness :
  Write (H := example_files) 8 5 8 (example_fd, 100) = Ok ((0, Some 5), (example_fd, 105)).
Proof.
  exact (Write_position (H := example_files) example_fd 100 100 105 8 5 8 0 100 0 5 example_fd_wf eq_refl eq_refl
           ltac:(lia) ltac:(lia) ltac:(lia) eq_refl ltac:(lia) eq_refl).
Defined.

End FileDescriptor.
