(* ===== verification/FDManager.v ===== *)
(** * FDManager.v: file descriptor tables (src/kernel/src/fs/FDManager.cpp)

    A table maps descriptor numbers to [FileDescriptor] objects (a tree) and
    records the numbers in use in a bitmap that grows in steps of 128. The
    descriptor objects live in a store of their own. *)

From S2P Require Import Prelude AVLTree Bitmap FileDescriptor.

#[local] Open Scope Z_scope.
#[local] Open Scope kernel_scope.

Module FDManager.
Import AVLTree Bitmap.

Definition INITIAL_FD_TABLE_SIZE : Z := 128.
Definition MAX_FD : Z := 65536.
Definition EMFILE : Z := 24.
Definition ENOMEM : Z := 12.

(** The members of [FileDescriptorManager]; the two flags are the mutex of the
    bitmap and the one inside the tree. *)
Record mgr : Type := mkMgr {
  m_currentFDs : tree Z;
  m_bitmap : RawBitmap;
  m_bitmapLock : bool;
  fds_lock : bool
}.

(** A manager and the descriptor objects. *)
Record state : Type := mk { this : mgr; descs : gmap Z FileDescriptor.fd }.

(** [FileDescriptorManager::FileDescriptorManager()] *)
Definition init_mgr : mgr := mkMgr [] Bitmap.empty false false.

Definition set_fds (v : tree Z) (g : mgr) : mgr := mkMgr v (m_bitmap g) (m_bitmapLock g) (fds_lock g).
Definition set_bitmap (v : RawBitmap) (g : mgr) : mgr := mkMgr (m_currentFDs g) v (m_bitmapLock g) (fds_lock g).
Definition set_bitmapLock (v : bool) (g : mgr) : mgr := mkMgr (m_currentFDs g) (m_bitmap g) v (fds_lock g).
Definition set_fdsLock (v : bool) (g : mgr) : mgr := mkMgr (m_currentFDs g) (m_bitmap g) (m_bitmapLock g) v.

(** The allocators behind [new]: whether an array of a given size is available
    (its bytes are zero, [operator new[]] is [kcalloc]), and the address of a new
    descriptor object or null. *)
Class Allocators : Type := {
  array_available : Z -> bool;
  fresh_desc : gmap Z FileDescriptor.fd -> Z
}.

Section Ops.
Context `{Allocators}.

(** ** Access to one manager *)

Definition on {A} (f : M mgr A) : M state A :=
  fun s => match f (this s) with Ok (a, g) => Ok (a, mk g (descs s)) | Fail e => Fail e end.
Definition onBitmap {A} (f : M RawBitmap A) : M mgr A :=
  fun g => match f (m_bitmap g) with Ok (a, b) => Ok (a, set_bitmap b g) | Fail e => Fail e end.
Definition lockBitmap : M mgr unit :=
  let* l := gets m_bitmapLock in if l then fail LockHeld else modify (set_bitmapLock true).
Definition unlockBitmap : M mgr unit := modify (set_bitmapLock false).
Definition lockFDs : M mgr unit :=
  let* l := gets fds_lock in if l then fail LockHeld else modify (set_fdsLock true).
Definition unlockFDs : M mgr unit := modify (set_fdsLock false).
Definition new_array (n : Z) : option (list Z) :=
  if array_available n then Some (replicate (Z.to_nat n) 0) else None.

(** ** Operations *)

(** [FileDescriptorManager::Init] *)
Definition Init : M mgr bool :=
  match new_array (INITIAL_FD_TABLE_SIZE / 8) with
  | None => ret false
  | Some buffer =>
      lockBitmap ;;;
      onBitmap (SetBuffer buffer) ;;;
      onBitmap (SetSize (INITIAL_FD_TABLE_SIZE / 8)) ;;;
      unlockBitmap ;;;
      ret true
  end.

(** The callback that closes and deletes every descriptor. *)
Fixpoint close_all (t : tree Z) : M state unit :=
  match t with
  | [] => ret tt
  | (_, desc) :: t =>
      (if desc =? 0 then ret tt else
       let* ds := gets descs in
       match ds !! desc with
       | None => fail InvalidAccess
       | Some f =>
           match (if FileDescriptor.m_open f then FileDescriptor.Close (f, tt) else Ok (tt, (f, tt))) with
           | Fail e => fail e
           | Ok _ => modify (fun s => mk (this s) (base.delete desc (descs s)))
           end
       end) ;;;
      close_all t
  end.

(** [FileDescriptorManager::Delete] *)
Definition Delete : M state unit :=
  on lockBitmap ;;;
  on (onBitmap (SetBuffer [])) ;;;
  on (onBitmap (SetSize 0)) ;;;
  on unlockBitmap ;;;
  on lockFDs ;;;
  let* t := on (gets m_currentFDs) in
  close_all t ;;;
  on (modify (fun g => set_fds (Clear (m_currentFDs g)) g)) ;;;
  on unlockFDs.

(** The search loop of [Allocate]: [n] iterations remain, the index is [i]. *)
Fixpoint Allocate_loop (n : nat) (i : Z) : M mgr (option Z) :=
  match n with
  | O => ret None
  | S n' =>
      let* b := onBitmap (Get i) in
      if negb b then onBitmap (Set_ i true) ;;; ret (Some i) else Allocate_loop n' (i + 1)
  end.

Definition insertFD (fd desc : Z) : M mgr unit :=
  lockFDs ;;;
  modify (fun g => set_fds (snd (Insert fd desc (m_currentFDs g))) g) ;;;
  unlockFDs.

(** [FileDescriptorManager::Allocate] *)
Definition Allocate (desc : Z) : M mgr Z :=
  lockBitmap ;;;
  let* size := onBitmap GetSize in
  let* found := Allocate_loop (Z.to_nat (mul64 size 8)) 0 in
  match found with
  | Some i => unlockBitmap ;;; insertFD i desc ;;; ret i
  | None =>
      if mul64 size 8 =? MAX_FD then unlockBitmap ;;; ret (- EMFILE) else
      let currentSize := size in
      match new_array (currentSize + INITIAL_FD_TABLE_SIZE / 8) with
      | None => unlockBitmap ;;; ret (- ENOMEM)
      | Some buffer =>
          let* old := onBitmap GetBuffer in
          let n := Z.to_nat currentSize in
          (* memcpy *)
          (if (Datatypes.length old <? n)%nat then fail InvalidAccess else
           onBitmap (SetBuffer (take n old ++ drop n buffer))) ;;;
          onBitmap (SetSize (currentSize + INITIAL_FD_TABLE_SIZE / 8)) ;;;
          onBitmap (Set_ (mul64 currentSize 8) true) ;;;
          unlockBitmap ;;;
          insertFD (mul64 currentSize 8) desc ;;;
          ret (mul64 currentSize 8)
      end
  end.

(** [FileDescriptorManager::Free]: success and [*descOut]. *)
Definition Free (fd : Z) : M mgr (bool * option Z) :=
  lockFDs ;;;
  let* t := gets m_currentFDs in
  match FindNode (wrap64 fd) t with
  | None => unlockFDs ;;; ret (false, None)
  | Some (k, desc) =>
      modify (set_fds (RB_REMOVE k t)) ;;;
      unlockFDs ;;;
      lockBitmap ;;;
      onBitmap (Set_ (wrap64 fd) false) ;;;
      unlockBitmap ;;;
      ret (true, Some desc)
  end.

(** [FileDescriptorManager::ReserveFD] *)
Definition ReserveFD (fd desc : Z) : M mgr bool :=
  lockBitmap ;;;
  let* b := onBitmap (Get (wrap64 fd)) in
  if (b : bool) then unlockBitmap ;;; ret false else
  onBitmap (Set_ (wrap64 fd) true) ;;;
  unlockBitmap ;;;
  insertFD (wrap64 fd) desc ;;;
  ret true.

(** [FileDescriptorManager::Get] *)
Definition GetFD (fd : Z) : M mgr Z :=
  lockFDs ;;;
  let* t := gets m_currentFDs in
  unlockFDs ;;;
  ret (default 0 (Find (wrap64 fd) t)).

(** The copying callback of [Fork]: whether every descriptor was copied. *)
Fixpoint Fork_loop (t : tree Z) (newProc : Z) : M state bool :=
  match t with
  | [] => ret true
  | (fd, desc) :: t =>
      let* ds := gets descs in
      let newDesc := fresh_desc ds in
      if newDesc =? 0 then ret false else
      match ds !! desc with
      | None => fail InvalidAccess
      | Some f =>
          match FileDescriptor.Fork f newProc (FileDescriptor.new_fd, tt) with
          | Fail e => fail e
          | Ok (_, (f', _)) =>
              modify (fun s => mk (this s) (<[newDesc := f']> (descs s))) ;;;
              on (modify (fun g => set_fds (snd (Insert fd newDesc (m_currentFDs g))) g)) ;;;
              Fork_loop t newProc
          end
      end
  end.

(** [FileDescriptorManager::Fork]: the result, [this] and the objects in the
    state, and [other] after the call. *)
Definition Fork (other : mgr) (newProc : Z) : M state (bool * mgr) :=
  if m_bitmapLock other then fail LockHeld else
  let size := m_Size (m_bitmap other) in
  match new_array size with
  | None => ret (false, set_bitmapLock true other)
  | Some buffer =>
      let n := Z.to_nat size in
      let old := m_Buffer (m_bitmap other) in
      if (Datatypes.length old <? n)%nat then fail InvalidAccess else
      on lockBitmap ;;;
      on (onBitmap (SetBuffer (take n old))) ;;;
      on (onBitmap (SetSize size)) ;;;
      on unlockBitmap ;;;
      if fds_lock other then fail LockHeld else
      on lockFDs ;;;
      let* success := Fork_loop (m_currentFDs other) newProc in
      whenM (negb success)
        (let* t := on (gets m_currentFDs) in
         close_all t ;;;
         on (modify (fun g => set_fds (Clear (m_currentFDs g)) g))) ;;;
      on unlockFDs ;;;
      if negb success then
        on lockBitmap ;;;
        on (onBitmap (SetBuffer [])) ;;;
        on (onBitmap (SetSize 0)) ;;;
        on unlockBitmap ;;;
        ret (false, other)
      else ret (true, other)
  end.
End Ops.

(** ** Correctness *)

(** The bitmap records exactly the numbers in the table. *)
Record inv (g : mgr) : Prop := {
  inv_sorted : sorted (m_currentFDs g);
  inv_bitmap : wf (m_bitmap g);
  inv_size : m_Size (m_bitmap g) mod 16 = 0 /\ m_Size (m_bitmap g) * 8 <= MAX_FD;
  inv_bits : forall i, is_Some (RB_FIND i (m_currentFDs g)) <->
    0 <= i < m_Size (m_bitmap g) * 8 /\ bit (m_bitmap g) i = true;
  inv_unlocked : m_bitmapLock g = false /\ fds_lock g = false
}.

Section Specs.
Context `{Allocators}.

Lemma onBitmap_eq {A} (f : M RawBitmap A) g a b :
  f (m_bitmap g) = Ok (a, b) -> onBitmap f g = Ok (a, set_bitmap b g).
Proof. intros E. unfold onBitmap. by rewrite E. Qed.

Lemma set_bitmap_same g : set_bitmap (m_bitmap g) g = g.
Proof. by destruct g. Qed.

Lemma Allocate_loop_runs g n i :
  wf (m_bitmap g) -> 0 <= i -> i + Z.of_nat n = m_Size (m_bitmap g) * 8 ->
  runs (Allocate_loop n i) g (fun v g' =>
    match v with
    | Some j => i <= j < m_Size (m_bitmap g) * 8 /\ (forall k, i <= k < j -> bit (m_bitmap g) k = true) /\
        bit (m_bitmap g) j = false /\ g' = set_bitmap (updated (m_bitmap g) j true) g
    | None => (forall k, i <= k < m_Size (m_bitmap g) * 8 -> bit (m_bitmap g) k = true) /\ g' = g
    end).
Proof.
  intros Hwf. revert i. induction n as [|n IH]; intros i Hi Hn; cbn [Allocate_loop].
  - apply runs_ret. split; [|done]. intros k Hk. lia.
  - mstep. eapply runs_eq; [by apply onBitmap_eq, Get_eq|]. rewrite set_bitmap_same.
    rewrite (proj2 (Z.ltb_lt _ _)) by lia. destruct (bit (m_bitmap g) i) eqn:Hb; cbn [negb].
    + eapply runs_mono; [apply IH; lia|]. intros [j|] g'.
      * intros (Hj & Hall & Hbj & ->). split_and!; [lia|lia| |done|done]. intros k Hk.
        destruct (Z.eq_dec k i) as [E|E]; [by rewrite E|]. apply Hall. lia.
      * intros [Hall ->]. split; [|done]. intros k Hk.
        destruct (Z.eq_dec k i) as [E|E]; [by rewrite E|]. apply Hall. lia.
    + mstep. eapply runs_eq; [by apply onBitmap_eq, Set_eq|]. mstep.
      split_and!; [lia|lia|lia|done|done].
Qed.

Lemma insertFD_eq g fd desc : fds_lock g = false ->
  insertFD fd desc g = Ok (tt, set_fds (snd (Insert fd desc (m_currentFDs g))) g).
Proof.
  intros Hl. destruct g. cbn in Hl. subst. done.
Qed.

(** The table after a number was taken. *)
Lemma inv_take g b fd desc :
  inv g -> wf b -> m_Size b mod 16 = 0 -> m_Size b * 8 <= MAX_FD -> 0 <= fd < m_Size b * 8 ->
  RB_FIND fd (m_currentFDs g) = None -> bit b fd = true ->
  m_Size (m_bitmap g) <= m_Size b ->
  (forall i, 0 <= i < m_Size b * 8 -> i <> fd ->
     bit b i = true <-> (i < m_Size (m_bitmap g) * 8 /\ bit (m_bitmap g) i = true)) ->
  let g' := set_fds (snd (Insert fd desc (m_currentFDs g))) (set_bitmap b g) in
  inv g' /\ forall j, RB_FIND j (m_currentFDs g') = if j =? fd then Some desc else RB_FIND j (m_currentFDs g).
Proof.
  intros [Hs Hbm Hsz Hbits Hun] Hwf Hmod Hmax Hfd Hnone Hbit Hgrow Hb g'.
  assert (Hfind : forall j, RB_FIND j (m_currentFDs g') = if j =? fd then Some desc else RB_FIND j (m_currentFDs g)).
  { intros j. unfold g', Insert. cbn. rewrite Hnone. cbn. by rewrite RB_FIND_INSERT, Hnone. }
  split; [|done]. constructor; cbn; [|done..| |done].
  - unfold Insert. rewrite Hnone. by apply sorted_INSERT.
  - intros i. specialize (Hfind i). cbn in Hfind. rewrite Hfind. clear Hfind. destruct (Z.eqb_spec i fd) as [E|Hne].
    + rewrite E. split; [done|eauto].
    + rewrite Hbits. split.
      * intros [Hi Hbi]. split; [lia|]. apply Hb; [lia|done|]. split; [lia|done].
      * intros [Hi Hbi]. apply Hb in Hbi as [? ?]; [|done..]. split; [lia|done].
Qed.

(** The grown bitmap. *)
Lemma grown_bitmap bm : wf bm -> m_Size bm * 8 < MAX_FD ->
  let n := Z.to_nat (m_Size bm) in
  let b := mkBitmap (take n (m_Buffer bm) ++ drop n (replicate (Z.to_nat (m_Size bm + 16)) 0)) (m_Size bm + 16) in
  wf b /\ (forall i, 0 <= i -> bit b i = true <-> i < m_Size bm * 8 /\ bit bm i = true).
Proof.
  intros [Hl Hby Hbd] Hmax n b.
  assert (Hn : Datatypes.length (m_Buffer bm) = n) by (unfold n; lia).
  assert (Eb : m_Buffer b = m_Buffer bm ++ replicate 16 0).
  { unfold b. cbn [m_Buffer]. rewrite firstn_all2 by lia. f_equal.
    rewrite drop_replicate. f_equal. unfold n. lia. }
  split.
  - constructor; rewrite ?Eb.
    + rewrite length_app, length_replicate. cbn. lia.
    + apply Forall_app. split; [done|]. by apply Forall_replicate.
    + cbn. unfold MAX_FD in Hmax. lia.
  - intros i Hi. unfold bit. rewrite Eb. destruct (decide (i < m_Size bm * 8)) as [Hlt|Hge].
    + rewrite lookup_app_l by zlia. tauto.
    + rewrite lookup_app_r by zlia. split; [|lia]. intros Hb. exfalso.
      destruct (replicate 16 0 !! _) as [v|] eqn:E; [|done].
      apply lookup_replicate in E as [-> _]. by rewrite Z.bits_0 in Hb.
Qed.

(** A number without its bit is not in use. *)
Lemma free_number g j : inv g -> bit (m_bitmap g) j = false \/ m_Size (m_bitmap g) * 8 <= j -> RB_FIND j (m_currentFDs g) = None.
Proof.
  intros Hinv Hj. destruct (RB_FIND j (m_currentFDs g)) eqn:E; [|done].
  destruct (proj1 (inv_bits _ Hinv j)) as [Hb1 Hb2]; [by rewrite E|]. destruct Hj; [congruence|lia].
Qed.

(** Taking a number of the table, and the first one of a table that has grown. *)
Lemma inv_take_old g j desc : inv g -> 0 <= j < m_Size (m_bitmap g) * 8 -> bit (m_bitmap g) j = false ->
  let g' := set_fds (snd (Insert j desc (m_currentFDs g))) (set_bitmap (updated (m_bitmap g) j true) g) in
  inv g' /\ forall k, RB_FIND k (m_currentFDs g') = if k =? j then Some desc else RB_FIND k (m_currentFDs g).
Proof.
  intros Hinv Hj Hbj. pose proof Hinv as [Hs Hbm [Hmod Hmax] Hbits _].
  apply inv_take; rewrite ?updated_size; try done.
  - apply updated_wf; [done|lia].
  - apply free_number; [done|by left].
  - rewrite updated_bit by (done || lia). by rewrite decide_True.
  - intros i Hi Hne. rewrite updated_bit by (done || lia).
    rewrite decide_False by done. split; [intros ?; split; [lia|done]|tauto].
Qed.
Lemma inv_take_grown g b desc : inv g -> m_Size (m_bitmap g) * 8 < MAX_FD -> wf b -> m_Size b = m_Size (m_bitmap g) + 16 ->
  (forall i, 0 <= i -> bit b i = true <-> i < m_Size (m_bitmap g) * 8 /\ bit (m_bitmap g) i = true) ->
  let fd := m_Size (m_bitmap g) * 8 in
  let g' := set_fds (snd (Insert fd desc (m_currentFDs g))) (set_bitmap (updated b fd true) g) in
  inv g' /\ forall k, RB_FIND k (m_currentFDs g') = if k =? fd then Some desc else RB_FIND k (m_currentFDs g).
Proof.
  intros Hinv Hlt Hwf Hsb Hbit fd. pose proof Hinv as [Hs Hbm [Hmod Hmax] Hbits _]. pose proof (wf_size _ Hbm).
  apply inv_take; rewrite ?updated_size, ?Hsb; unfold fd in *; try done; try lia.
  - apply updated_wf; [done|lia].
  - rewrite Z.add_mod, Hmod by lia. done.
  - unfold MAX_FD in *. zlia.
  - apply free_number; [done|right; lia].
  - rewrite updated_bit by (done || lia). by rewrite decide_True.
  - intros i Hi Hne'. rewrite updated_bit by (done || lia). rewrite decide_False by done. apply Hbit. lia.
Qed.

(** [Allocate] gives out the lowest number that is not in use and records the
    descriptor under it, growing the table when it is full; it fails only with
    all [MAX_FD] numbers in use or without memory, and then changes nothing. *)
Theorem Allocate_lowest (g : mgr) (desc : Z) : inv g ->
  runs (Allocate desc) g (fun fd g' => inv g' /\
    ((0 <= fd /\ RB_FIND fd (m_currentFDs g) = None /\
      (forall j, 0 <= j < fd -> is_Some (RB_FIND j (m_currentFDs g))) /\
      forall j, RB_FIND j (m_currentFDs g') = if j =? fd then Some desc else RB_FIND j (m_currentFDs g)) \/
     (fd = - EMFILE /\ g' = g /\ forall j, 0 <= j < MAX_FD -> is_Some (RB_FIND j (m_currentFDs g))) \/
     (fd = - ENOMEM /\ g' = g /\ array_available (m_Size (m_bitmap g) + 16) = false))).
Proof.
  intros Hinv. pose proof Hinv as [Hs Hbm [Hmod Hmax] Hbits [Hu1 Hu2]].
  pose proof (wf_size _ Hbm) as Hsz0. pose proof (wf_bound _ Hbm) as HW.
  unfold Allocate, lockBitmap, unlockBitmap. mgo. rewrite Hu1. mgo.
  eapply runs_eq; [by apply onBitmap_eq|]. cbn beta. mgo.
  set (g1 := set_bitmap (m_bitmap (set_bitmapLock true g)) (set_bitmapLock true g)).
  assert (Hg1 : m_bitmap g1 = m_bitmap g) by done. cbn [m_bitmap set_bitmapLock] in *.
  rewrite mul64_small by lia.
  eapply runs_mono; [apply Allocate_loop_runs; rewrite ?Hg1; try done; lia|]. rewrite Hg1.
  intros [j|] g2.
  - intros (Hj & Hall & Hbj & ->). mgo. eapply runs_eq; [apply insertFD_eq; done|]. mgo. cbn.
    destruct (inv_take_old g j desc Hinv) as [Hinv' Hfind]; [lia|done|].
    pose proof (free_number g j Hinv (or_introl Hbj)). destruct g; cbn in *; subst. split; [exact Hinv'|].
    left. split_and!; [lia|done| |exact Hfind]. intros k Hk. apply Hbits. split; [lia|]. apply Hall. lia.
  - intros [Hall ->]. destruct (Z.eqb_spec (m_Size (m_bitmap g) * 8) MAX_FD) as [Heq|Hne].
    { mgo. destruct g; cbn in *; subst. split; [exact Hinv|]. right. left. split_and!; [done..|].
      intros k Hk. apply Hbits. split; [lia|]. apply Hall. lia. }
    unfold new_array. change (INITIAL_FD_TABLE_SIZE / 8) with 16.
    destruct (array_available (m_Size (m_bitmap g) + 16)) eqn:Hav.
    2: { mgo. destruct g; cbn in *; subst. split; [exact Hinv|]. right. right. done. }
    mgo. eapply runs_eq; [by apply onBitmap_eq|]. cbn [m_bitmap set_bitmap]. mgo.
    assert (Hlen : Datatypes.length (m_Buffer (m_bitmap g1)) = Z.to_nat (m_Size (m_bitmap g))).
    { rewrite Hg1. pose proof (wf_length _ Hbm). lia. }
    rewrite Hlen, Nat.ltb_irrefl. eapply runs_eq; [by apply onBitmap_eq|]. mgo.
    eapply runs_eq; [by apply onBitmap_eq|]. cbn [m_bitmap set_bitmap m_Buffer m_Size]. mgo.
    destruct (grown_bitmap (m_bitmap g) Hbm) as [Hwf' Hbit']; [lia|].
    eapply runs_eq; [apply onBitmap_eq; cbn [m_bitmap set_bitmap]; apply Set_eq; [rewrite Hg1; exact Hwf'|lia]|].
    cbn [m_bitmap set_bitmap]. rewrite Hg1. mgo. eapply runs_eq; [by apply insertFD_eq|]. mgo. cbn.
    destruct (inv_take_grown g _ desc Hinv ltac:(lia) Hwf' eq_refl Hbit') as [Hinv' Hfind].
    pose proof (free_number g _ Hinv (or_intror (Z.le_refl (m_Size (m_bitmap g) * 8)))).
    destruct g; cbn in *; subst. split; [exact Hinv'|]. left. split_and!; [lia|done| |exact Hfind].
    intros k Hk. apply Hbits. split; [lia|]. apply Hall. lia.
Qed.

(** [Free] removes the number and reports the descriptor it held; a number that
    is not in use is refused without a change. *)
Theorem Free_spec (g : mgr) (fd : Z) : inv g -> 0 <= fd < W64 ->
  runs (Free fd) g (fun v g' => inv g' /\
    match RB_FIND fd (m_currentFDs g) with
    | Some desc => v = (true, Some desc) /\
        forall j, RB_FIND j (m_currentFDs g') = if j =? fd then None else RB_FIND j (m_currentFDs g)
    | None => v = (false, None) /\ g' = g
    end).
Proof.
  intros Hinv Hfd. pose proof Hinv as [Hs Hbm [Hmod Hmax] Hbits [Hu1 Hu2]].
  unfold Free, lockFDs, unlockFDs, lockBitmap, unlockBitmap. mgo. rewrite Hu2. mgo. cbn.
  rewrite wrap64_small by done. unfold FindNode. destruct (RB_FIND fd (m_currentFDs g)) as [desc|] eqn:E; cbn.
  - mgo. cbn. rewrite Hu1. mgo. destruct (proj1 (Hbits fd)) as [Hr Hb]; [by rewrite E|].
    eapply runs_eq; [apply onBitmap_eq; apply Set_eq; [done|lia]|]. mgo.
    assert (Hfind : forall j, RB_FIND j (RB_REMOVE fd (m_currentFDs g)) = if j =? fd then None else RB_FIND j (m_currentFDs g))
      by (intros; by apply RB_FIND_REMOVE).
    split; [|done]. destruct g; cbn in *; subst. constructor; cbn.
    + by apply sorted_REMOVE.
    + apply updated_wf; [done|lia].
    + by rewrite updated_size.
    + intros i. rewrite updated_size, Hfind. destruct (Z.eqb_spec i fd) as [Ei|Hne].
      * rewrite Ei. split; [by intros [? ?]|]. rewrite updated_bit by (done || lia). rewrite decide_True by done. naive_solver.
      * rewrite Hbits. split; intros [Hi Hbi]; (split; [done|]); rewrite updated_bit in * by (done || lia);
          by rewrite decide_False in *.
    + done.
  - mgo. destruct g; cbn in *; subst. done.
Qed.

(** [ReserveFD] of a number inside the table succeeds exactly when the number is
    free, and records the descriptor; [Get] then finds it. *)
Lemma Reserve_Get (g : mgr) (fd desc : Z) : inv g -> 0 <= fd < m_Size (m_bitmap g) * 8 ->
  runs (let* ok := ReserveFD fd desc in let* d := GetFD fd in ret (ok, d)) g (fun v g' => inv g' /\
    match RB_FIND fd (m_currentFDs g) with
    | Some d => v = (false, d) /\ g' = g
    | None => v = (true, desc) /\
        forall j, RB_FIND j (m_currentFDs g') = if j =? fd then Some desc else RB_FIND j (m_currentFDs g)
    end).
Proof.
  intros Hinv Hfd. pose proof Hinv as [Hs Hbm [Hmod Hmax] Hbits [Hu1 Hu2]].
  pose proof (wf_bound _ Hbm) as HW. assert (Hfd64 : 0 <= fd < W64) by lia.
  unfold ReserveFD, GetFD, lockFDs, unlockFDs, lockBitmap, unlockBitmap. mgo. rewrite Hu1. mgo.
  rewrite wrap64_small by done.
  eapply runs_eq; [apply onBitmap_eq; apply Get_eq; [done|lia]|]. cbn [m_bitmap set_bitmapLock].
  rewrite (proj2 (Z.ltb_lt _ _)) by lia. destruct (bit (m_bitmap g) fd) eqn:Hb.
  - destruct (proj2 (Hbits fd)) as [d Hd]; [done|]. rewrite Hd. mgo. cbn. rewrite Hu2. mgo. cbn.
    unfold Find. rewrite Hd. destruct g; cbn in *; subst. done.
  - assert (Hnone : RB_FIND fd (m_currentFDs g) = None).
    { destruct (RB_FIND fd (m_currentFDs g)) eqn:E; [|done].
      destruct (proj1 (Hbits fd)) as [_ ?]; [by rewrite E|]. congruence. }
    rewrite Hnone. mgo. eapply runs_eq; [apply onBitmap_eq; apply Set_eq; [done|lia]|]. mgo.
    eapply runs_eq; [by apply insertFD_eq|]. mgo. cbn. rewrite Hu2. mgo. cbn.
    destruct (inv_take g (updated (m_bitmap g) fd true) fd desc) as [Hinv' Hfind]; try done;
      rewrite ?updated_size; try done.
    + apply updated_wf; [done|lia].
    + rewrite updated_bit by (done || lia). by rewrite decide_True.
    + intros i Hi Hne. rewrite updated_bit by (done || lia).
      rewrite decide_False by done. split; [intros ?; split; [lia|done]|tauto].
    + destruct g; cbn in *; subst. split; [exact Hinv'|]. split; [|exact Hfind].
      unfold Find. by rewrite Hfind, Z.eqb_refl.
Qed.

(** [ReserveFD] of a number behind the end of the bitmap is not recorded there:
    the same number can be reserved a second time, and the table keeps the first
    descriptor while the second caller is told that it succeeded. *)
Theorem ReserveFD_behind_table (g : mgr) (fd d1 d2 : Z) :
  inv g -> m_Size (m_bitmap g) * 8 <= fd < W64 ->
  runs (let* a := ReserveFD fd d1 in let* b := ReserveFD fd d2 in let* d := GetFD fd in ret (a, b, d)) g
    (fun v _ => v = (true, true, d1)).
Proof.
  intros Hinv Hfd. pose proof Hinv as [Hs Hbm [Hmod Hmax] Hbits [Hu1 Hu2]].
  pose proof (wf_size _ Hbm) as Hsz0. assert (Hfd64 : 0 <= fd < W64) by lia.
  assert (Hnone : RB_FIND fd (m_currentFDs g) = None).
  { destruct (RB_FIND fd (m_currentFDs g)) eqn:E; [|done].
    destruct (proj1 (Hbits fd)) as [? _]; [by rewrite E|]. lia. }
  assert (Hres : forall t d, sorted t -> ReserveFD fd d (set_fds t g) =
    Ok (true, set_fds (snd (Insert fd d t)) g)).
  { intros t d Ht. unfold ReserveFD, lockBitmap, unlockBitmap, bind, gets, modify, ret. cbn. rewrite Hu1. cbn.
    rewrite wrap64_small by done. rewrite (onBitmap_eq _ _ false (m_bitmap g)).
    2: { etransitivity; [apply Get_eq; [done|lia]|]. cbn [m_bitmap set_bitmapLock set_fds].
         by rewrite (proj2 (Z.ltb_ge _ _)) by lia. }
    rewrite (onBitmap_eq _ _ tt (m_bitmap g)).
    2: { etransitivity; [apply Set_eq; [done|lia]|]. unfold updated.
         cbn [m_bitmap set_bitmapLock set_fds set_bitmap]. by rewrite (proj2 (Z.ltb_ge _ _)) by lia. }
    cbn. destruct g; cbn in *; subst. rewrite insertFD_eq by done. done. }
  pose proof (Hres (m_currentFDs g) d1 Hs) as Hres1.
  replace (set_fds (m_currentFDs g) g) with g in Hres1 by (by destruct g).
  mstep. eapply runs_eq; [exact Hres1|]. mstep.
  eapply runs_eq; [apply Hres; unfold Insert; rewrite Hnone; by apply sorted_INSERT|].
  unfold GetFD, lockFDs, unlockFDs. mgo. cbn. rewrite Hu2. mgo. cbn. rewrite wrap64_small by done.
  unfold Find, Insert. rewrite Hnone. cbn.
  assert (E : RB_FIND fd (RB_INSERT fd d1 (m_currentFDs g)) = Some d1).
  { by rewrite RB_FIND_INSERT, Z.eqb_refl, Hnone. }
  rewrite E. cbn. by rewrite E.
Qed.

(** When the copy of the bitmap cannot be allocated, [Fork] returns without
    releasing the bitmap lock of the table it copies from; the next [Allocate] on
    that table never returns. *)
Theorem Fork_leaks_lock (s : state) (other : mgr) (newProc desc : Z) :
  m_bitmapLock other = false -> array_available (m_Size (m_bitmap other)) = false ->
  exists other', Fork other newProc s = Ok ((false, other'), s) /\ Allocate desc other' = Fail LockHeld.
Proof.
  intros Hl Hav. exists (set_bitmapLock true other). split; [|done].
  unfold Fork, new_array. by rewrite Hl, Hav.
Qed.

(** A descriptor allocator with memory left. *)
Hypothesis fresh_nonnull : forall ds, fresh_desc ds <> 0.
Hypothesis fresh_unused : forall ds, ds !! fresh_desc ds = None.

(** What [FileDescriptor::Fork] makes of a descriptor. *)
Definition forked (f : FileDescriptor.fd) (newProc : Z) : FileDescriptor.fd :=
  FileDescriptor.mkFd newProc (FileDescriptor.m_type f) (FileDescriptor.m_offset f) (FileDescriptor.m_open f)
    (FileDescriptor.m_append f) (FileDescriptor.m_vnode f) (FileDescriptor.m_tty f)
    (FileDescriptor.m_ttyStream f) false.

(** The new entry is a fresh copy of the old one under the same number. *)
Definition copied (newProc : Z) (ds ds' : gmap Z FileDescriptor.fd) (e e' : Z * Z) : Prop :=
  fst e' = fst e /\ ds !! snd e' = None /\
  exists f, ds !! snd e = Some f /\ ds' !! snd e' = Some (forked f newProc).

Lemma Fork_loop_runs newProc ds0 t s :
  sorted (m_currentFDs (this s) ++ t) ->
  (forall k d, (k, d) ∈ t -> exists f, ds0 !! d = Some f /\ FileDescriptor.m_locked f = false) ->
  (forall x, is_Some (ds0 !! x) -> descs s !! x = ds0 !! x) ->
  runs (Fork_loop t newProc) s (fun ok s' => ok = true /\ exists t',
    this s' = set_fds (m_currentFDs (this s) ++ t') (this s) /\
    (forall x, is_Some (descs s !! x) -> descs s' !! x = descs s !! x) /\
    Forall2 (copied newProc ds0 (descs s')) t t').
Proof.
  revert s. induction t as [|[k d] t IH]; intros s Hs Hd Hsub; cbn [Fork_loop].
  - apply runs_ret. split; [done|]. exists []. rewrite app_nil_r. split_and!; [by destruct s as [[]]|done|constructor].
  - mgo. rewrite (proj2 (Z.eqb_neq _ _)) by apply fresh_nonnull.
    destruct (Hd k d ltac:(by left)) as (f & Hf & Hl). rewrite Hsub, Hf by (rewrite Hf; eauto).
    unfold FileDescriptor.Fork. rewrite Hl. cbn.
    pose proof Hs as (_ & _ & Hb & _)%sorted_middle. set (nd := fresh_desc (descs s)).
    pose proof (fresh_unused (descs s)) as Hnd. fold nd in Hnd. mgo.
    eapply runs_eq with (a := tt)
      (s' := mk (set_fds (m_currentFDs (this s) ++ [(k, nd)]) (this s)) (<[nd := forked f newProc]> (descs s))).
    { unfold on, modify. cbn. do 3 f_equal. rewrite <- (app_nil_r (m_currentFDs (this s))).
      rewrite Insert_middle by (done || by intros ?? ?%not_elem_of_nil). by rewrite app_nil_r. }
    eapply runs_mono; [apply IH; [eapply sorted_keys; [|exact Hs]; cbn; by rewrite <- app_assoc, !fmap_app|intros k' d' Hin; apply (Hd k' d'); by right|]|].
    + intros x [fx Hx]. cbn. rewrite lookup_insert_ne; [apply Hsub; eauto|].
      intros ->. specialize (Hsub x ltac:(eauto)). congruence.
    + intros ok s' (-> & t' & Hthis & Hkeep & Hall). cbn in *. split; [done|]. exists ((k, nd) :: t').
      rewrite Hthis, <- app_assoc. split_and!; [by destruct s as [[]]| |].
      * intros x [fx Hx]. rewrite Hkeep; rewrite lookup_insert_ne by congruence; eauto.
      * constructor; [|done]. split_and!; [done| |].
        -- cbn. destruct (ds0 !! nd) eqn:E; [|done]. specialize (Hsub nd ltac:(eauto)). congruence.
        -- exists f. split; [done|]. cbn. rewrite Hkeep; rewrite lookup_insert_eq; eauto.
Qed.

(** With memory available, [Fork] into a new table copies the table of the other
    process: every number keeps its descriptor as a fresh copy belonging to the
    new process, nothing of the other table or its descriptors changes, and all
    locks are released. *)
Theorem Fork_copies_table (other : mgr) (ds : gmap Z FileDescriptor.fd) (newProc : Z) :
  inv other -> array_available (m_Size (m_bitmap other)) = true ->
  (forall k d, (k, d) ∈ m_currentFDs other ->
     exists f, ds !! d = Some f /\ FileDescriptor.m_locked f = false) ->
  runs (Fork other newProc) (mk init_mgr ds) (fun v s' => v = (true, other) /\ inv (this s') /\
    (forall x, is_Some (ds !! x) -> descs s' !! x = ds !! x) /\
    Forall2 (copied newProc ds (descs s')) (m_currentFDs other) (m_currentFDs (this s'))).
Proof.
  intros Hinv Hav Hd. pose proof Hinv as [Hs Hbm Hsz Hbits [Hu1 Hu2]].
  unfold Fork, new_array. rewrite Hu1, Hav, Hu2.
  assert (Hlen : Datatypes.length (m_Buffer (m_bitmap other)) = Z.to_nat (m_Size (m_bitmap other))).
  { pose proof (wf_length _ Hbm). lia. }
  rewrite Hlen, Nat.ltb_irrefl, firstn_all2 by lia.
  mgo. eapply runs_eq; [reflexivity|]. mgo. eapply runs_eq; [reflexivity|]. mgo.
  eapply runs_eq; [reflexivity|]. mgo. eapply runs_eq; [reflexivity|]. mgo.
  eapply runs_eq; [reflexivity|]. mgo. cbn.
  eapply runs_mono; [apply (Fork_loop_runs newProc ds); [done|done|done]|].
  intros ok [g' ds'] (-> & t' & Hthis & Hkeep & Hall). cbn in Hthis, Hkeep, Hall. subst g'. cbn [negb].
  mgo; [done|intros _]. mgo. eapply runs_eq; [reflexivity|]. mgo. cbn.
  assert (Hkeys : t'.*1 = (m_currentFDs other).*1).
  { clear -Hall. induction Hall as [|[k d] [k' d'] t t' (E & _) _ IH]; cbn in *; [done|]. by rewrite E, IH. }
  assert (Hfind : forall j, is_Some (RB_FIND j t') <-> is_Some (RB_FIND j (m_currentFDs other))).
  { intros j. clear -Hkeys. revert Hkeys. generalize (m_currentFDs other) as t.
    induction t' as [|[k d] t' IH]; intros [|[k' d'] t] E; cbn in *; simplify_eq; [done|].
    destruct (j =? k'); [split; eauto|]. by apply IH. }
  split_and!; [done| |done|done]. destruct (m_bitmap other) as [b n] eqn:Eb. constructor; cbn.
  - eapply sorted_keys; [symmetry; exact Hkeys|done].
  - done.
  - done.
  - intros j. by rewrite Hfind, Hbits.
  - done.
Qed.
End Specs.

(** *** Instances at a concrete table *)

Definition example_allocators : Allocators := {|
  array_available := fun n => 0 <? n;
  fresh_desc := fun ds => fresh ({[ 0 ]} ∪ dom ds)
|}.

Definition no_memory : Allocators := {|
  array_available := fun _ => false;
  fresh_desc := fun _ => 0
|}.

(** A table of 128 numbers of which 0 and 2 are in use. *)
Definition example_table : mgr :=
  mkMgr [(0, 4096); (2, 8192)] (mkBitmap (5 :: replicate 15 0) 16) false false.

Lemma example_bits i : is_Some (RB_FIND i (m_currentFDs example_table)) <->
  0 <= i < 128 /\ bit (m_bitmap example_table) i = true.
Proof.
  cbn -[bit]. destruct (Z.eqb_spec i 0) as [->|].
  { split; [intros _; split; [lia|reflexivity]|eauto]. }
  destruct (Z.eqb_spec i 2) as [->|].
  { split; [intros _; split; [lia|reflexivity]|eauto]. }
  split; [by intros [? ?]|].
  intros [Hi Hb]. exfalso. unfold bit in Hb. cbn [m_bitmap example_table m_Buffer] in Hb.
  destruct (decide (i / 8 = 0)) as [E|E].
  - rewrite E in Hb. cbn [lookup list_lookup Z.to_nat] in Hb.
    assert (i = 1 \/ i = 3 \/ i = 4 \/ i = 5 \/ i = 6 \/ i = 7) as Hc by zlia.
    destruct Hc as [->|[->|[->|[->|[->| ->]]]]]; done.
  - rewrite lookup_cons_ne_0 in Hb by zlia.
    revert Hb. change [0; 0; 0; 0; 0; 0; 0; 0; 0; 0; 0; 0; 0; 0; 0] with (replicate 15 0).
    destruct (replicate 15 0 !! Nat.pred (Z.to_nat (i / 8))) as [v|] eqn:Ev; [|done]. intros Hb.
    apply lookup_replicate in Ev as [-> _]. by rewrite Z.bits_0 in Hb.
Qed.

Lemma example_table_inv : inv example_table.
Proof.
  constructor; [|constructor|done|apply example_bits|done]; cbn.
  - split_and!; [|by intros ?? ?%not_elem_of_nil|done].
    intros k v [[= -> ->]|?%not_elem_of_nil]%elem_of_cons; done.
  - done.
  - repeat constructor; done.
  - done.
Qed.

Lemma Allocate_lowest_witness :
  exists g', Allocate (H := example_allocators) 12288 example_table = Ok (1, g') /\ inv g'.
Proof.
  destruct (Allocate_lowest (H := example_allocators) example_table 12288 example_table_inv) as (fd & g' & Hrun & Hinv & _).
  exists g'. split; [|done]. assert (E := Hrun). vm_compute in E. injection E as <- _. exact Hrun.
Defined.

Lemma Free_spec_witness : exists g', Free 2 example_table = Ok ((true, Some 8192), g') /\ inv g'.
Proof.
  destruct (Free_spec example_table 2 example_table_inv ltac:(lia)) as (v & g' & Hrun & Hinv & Hv & _).
  exists g'. by rewrite <- Hv.
Defined.

Lemma Reserve_Get_witness :
  runs (let* ok := ReserveFD 7 12288 in let* d := GetFD 7 in ret (ok, d)) example_table
    (fun v g' => inv g' /\ v = (true, 12288)).
Proof.
  eapply runs_mono; [apply (Reserve_Get example_table 7 12288 example_table_inv); cbn; lia|].
  intros v g' [Hinv [-> _]]. done.
Defined.

Lemma ReserveFD_behind_table_witness :
  runs (let* a := ReserveFD 200 16 in let* b := ReserveFD 200 32 in let* d := GetFD 200 in ret (a, b, d))
    example_table (fun v _ => v = (true, true, 16)).
Proof. apply (ReserveFD_behind_table example_table 200 16 32 example_table_inv). cbn. lia. Defined.

Lemma Fork_leaks_lock_witness :
  exists other', Fork (H := no_memory) example_table 1 (mk init_mgr ∅) = Ok ((false, other'), mk init_mgr ∅) /\
    Allocate (H := no_memory) 16 other' = Fail LockHeld.
Proof. apply (Fork_leaks_lock (H := no_memory)); reflexivity. Defined.

Definition example_descs : gmap Z FileDescriptor.fd :=
  {[ 4096 := FileDescriptor.example_fd; 8192 := FileDescriptor.example_fd ]}.

Lemma Fork_copies_table_witness :
  runs (Fork (H := example_allocators) example_table 77) (mk init_mgr example_descs)
    (fun v s' => v = (true, example_table) /\ inv (this s')).
Proof.
  eapply runs_mono; [apply (Fork_copies_table (H := example_allocators))|].
  - intros ds. pose proof (is_fresh ({[0]} ∪ dom ds)). cbn. set_solver.
  - intros ds. cbn. apply not_elem_of_dom. pose proof (is_fresh ({[0]} ∪ dom ds)). set_solver.
  - exact example_table_inv.
  - reflexivity.
  - intros k d [[= -> ->]|[[= -> ->]|?%not_elem_of_nil]%elem_of_cons]%elem_of_cons; [by eexists..|done].
  - intros v s' (-> & ? & _). done.
Defined.

End FDManager.
