(* ===== verification/Heap.v ===== *)
(** * Heap.v: the kernel heap (src/kernel/src/Memory/Heap.cpp)

    A heap is a list of sections; a section starts with its [HeapSection]
    (words [size], [next], [firstBlock], [_align]) and is cut into blocks, each
    with a [HeapBlock] header (a word with a 63-bit [size] and the [free] bit,
    and the word [next]) in front of its payload. Only free blocks are linked,
    so an allocated block is found again through its header alone. The model
    works on word memory. What the section allocator answers is an input of
    [Allocate], the sections given back to it are an output of [Free]. *)

From S2P Require Import Prelude.
#[local] Open Scope Z_scope.
#[local] Open Scope kernel_scope.

Module Heap.

(** ** Data *)

Record state : Type := mk {
  m_Head : Z;
  m_lock : bool;
  m_UsedMemory : Z;
  m_FreeMemory : Z;
  m_MetadataMemory : Z;
  m_TotalMemory : Z;
  mem : memory;
  released : list (Z * Z)
}.

Definition init_state (m : memory) : state := mk 0 false 0 0 0 0 m [].

Notation sizeof_HeapBlock := 16 (only parsing).
Notation sizeof_HeapSection := 32 (only parsing).
Notation HEAP_MIN_BLOCK_SIZE := 16 (only parsing).
Definition HEAP_MIN_SECTION_SIZE : Z := 32 * PAGE_SIZE.

Definition set_Head (v : Z) (s : state) : state :=
  mk v (m_lock s) (m_UsedMemory s) (m_FreeMemory s) (m_MetadataMemory s) (m_TotalMemory s)
     (mem s) (released s).
Definition set_lock (v : bool) (s : state) : state :=
  mk (m_Head s) v (m_UsedMemory s) (m_FreeMemory s) (m_MetadataMemory s) (m_TotalMemory s)
     (mem s) (released s).
Definition set_mem (v : memory) (s : state) : state :=
  mk (m_Head s) (m_lock s) (m_UsedMemory s) (m_FreeMemory s) (m_MetadataMemory s)
     (m_TotalMemory s) v (released s).
(** [m_UsedMemory += u], and the same for the other counters. *)
Definition count (u f md t : Z) : M state unit := modify (fun s =>
  mk (m_Head s) (m_lock s) (wrap64 (m_UsedMemory s + u)) (wrap64 (m_FreeMemory s + f))
     (wrap64 (m_MetadataMemory s + md)) (wrap64 (m_TotalMemory s + t)) (mem s) (released s)).

Definition Lock : M state unit :=
  let* l := gets m_lock in if l then fail LockHeld else modify (set_lock true).
Definition Unlock : M state unit := modify (set_lock false).

(** *** Fields *)

Definition rd (p off : Z) : M state Z :=
  if p =? 0 then fail NullDereference else gets (fun s => mem s (add64 p off)).
Definition wr (p off v : Z) : M state unit :=
  if p =? 0 then fail NullDereference
  else modify (fun s => set_mem (<[add64 p off := v]> (mem s)) s).

(** The header word of a block: [size : 63] and [free : 1]. *)
Definition hdr (n : Z) (f : bool) : Z := n + (if f then 2 ^ 63 else 0).
Definition hsize (w : Z) : Z := w mod 2 ^ 63.
Definition hfree (w : Z) : bool := 2 ^ 63 <=? w.

Definition size_of (block : Z) : M state Z := let* w := rd block 0 in ret (hsize w).
Definition free_of (block : Z) : M state bool := let* w := rd block 0 in ret (hfree w).
Definition set_size (block v : Z) : M state unit :=
  let* w := rd block 0 in wr block 0 (hdr (v mod 2 ^ 63) (hfree w)).
Definition set_free (block : Z) (v : bool) : M state unit :=
  let* w := rd block 0 in wr block 0 (hdr (hsize w) v).
Definition next_of (block : Z) : M state Z := rd block 8.
Definition set_next (block v : Z) : M state unit := wr block 8 v.

Definition sec_size (section : Z) : M state Z := rd section 0.
Definition sec_next (section : Z) : M state Z := rd section 8.
Definition sec_first (section : Z) : M state Z := rd section 16.
Definition set_first (section v : Z) : M state unit := wr section 16 v.

(** ** [HeapAllocator::Allocate] *)

(** The inner search loop: the first free block that is large enough. *)
Fixpoint find_block (fuel : nat) (size previousBlock block : Z) : M state (option (Z * Z)) :=
  if block =? 0 then ret None else
  match fuel with
  | O => fail OutOfFuel
  | S fuel' =>
      let* f := free_of block in
      let* n := size_of block in
      if f && (size <=? n) then ret (Some (previousBlock, block)) else
      let* nx := next_of block in
      find_block fuel' size block nx
  end.

(** The outer loop over the sections. *)
Fixpoint find_section (fuel fuelb : nat) (size section : Z) : M state (option (Z * Z * Z)) :=
  if section =? 0 then ret None else
  match fuel with
  | O => fail OutOfFuel
  | S fuel' =>
      let* first := sec_first section in
      let* r := find_block fuelb size 0 first in
      match r with
      | Some (previousBlock, block) => ret (Some (section, previousBlock, block))
      | None => let* nx := sec_next section in find_section fuel' fuelb size nx
      end
  end.

(** What the loop does with the block it found. *)
Definition take_block (section previousBlock block size : Z) : M state Z :=
  let* n := size_of block in
  whenM (add64 (add64 size sizeof_HeapBlock) HEAP_MIN_BLOCK_SIZE <? n)
    (let newBlock := add64 (add64 block sizeof_HeapBlock) size in
     set_size newBlock (sub64 (sub64 n size) sizeof_HeapBlock) ;;;
     set_free newBlock true ;;;
     (let* nx := next_of block in set_next newBlock nx) ;;;
     set_size block size ;;;
     set_next block newBlock ;;;
     count 0 (- sizeof_HeapBlock) sizeof_HeapBlock 0) ;;;
  set_free block false ;;;
  (let* nx := next_of block in
   if previousBlock =? 0 then set_first section nx else set_next previousBlock nx) ;;;
  set_next block 0 ;;;
  (let* n := size_of block in count n (- n) 0 0) ;;;
  Unlock ;;;
  ret (add64 block sizeof_HeapBlock).

(** A new section, cut into the requested block and a free rest; [section] is
    what the section allocator returned. *)
Definition new_section (section sectionSize size : Z) : M state Z :=
  count 0 0 (sizeof_HeapSection + sizeof_HeapBlock) sectionSize ;;;
  wr section 0 (sub64 sectionSize sizeof_HeapSection) ;;;
  (let* h := gets m_Head in wr section 8 h) ;;;
  let block := add64 section sizeof_HeapSection in
  (let* n := sec_size section in set_size block (sub64 n sizeof_HeapBlock)) ;;;
  set_free block false ;;;
  set_next block 0 ;;;
  let* n := size_of block in
  (if add64 (add64 size sizeof_HeapBlock) HEAP_MIN_BLOCK_SIZE <? n then
     let newBlock := add64 (add64 block sizeof_HeapBlock) size in
     set_size newBlock (sub64 (sub64 n size) sizeof_HeapBlock) ;;;
     set_free newBlock true ;;;
     set_next newBlock 0 ;;;
     set_size block size ;;;
     set_first section newBlock ;;;
     (let* n' := size_of newBlock in count 0 n' sizeof_HeapBlock 0)
   else set_first section 0) ;;;
  (let* n := size_of block in count n 0 0 0) ;;;
  modify (set_Head section) ;;;
  Unlock ;;;
  ret (add64 block sizeof_HeapBlock).

(** [sectionAllocate] is [m_SectionAllocator->Allocate]; 0 when it returns
    null, or when there is no section allocator. *)
Definition Allocate (sectionAllocate : Z -> Z) (fuel fuelb : nat) (size : Z) : M state Z :=
  let size := ALIGN_UP size HEAP_MIN_BLOCK_SIZE in
  Lock ;;;
  let* head := gets m_Head in
  let* r := find_section fuel fuelb size head in
  match r with
  | Some (section, previousBlock, block) => take_block section previousBlock block size
  | None =>
      let sectionSize :=
        ALIGN_UP (add64 (sizeof_HeapSection + sizeof_HeapBlock) size) HEAP_MIN_SECTION_SIZE in
      let section := sectionAllocate sectionSize in
      if section =? 0 then Unlock ;;; ret 0 else new_section section sectionSize size
  end.

(** ** [HeapAllocator::Free] *)

(** The loop over the sections that looks for the one [block] lies in. *)
Fixpoint owner (fuel : nat) (block section : Z) : M state Z :=
  if section =? 0 then ret 0 else
  match fuel with
  | O => fail OutOfFuel
  | S fuel' =>
      let* sz := sec_size section in
      if (add64 section sizeof_HeapSection <=? block) && (block <? add64 section sz) then ret section
      else let* nx := sec_next section in owner fuel' block nx
  end.

(** The loop over the free blocks of the section: the neighbours between which
    [block] belongs ([currentBlock] is null at the end of the list). *)
Fixpoint find_place (fuel : nat) (block previousBlock currentBlock : Z) : M state (Z * Z) :=
  if currentBlock =? 0 then ret (previousBlock, currentBlock) else
  match fuel with
  | O => fail OutOfFuel
  | S fuel' =>
      let* here :=
        (if block <? currentBlock then
           if previousBlock =? 0 then ret true else
           let* pn := size_of previousBlock in
           ret (add64 (add64 previousBlock sizeof_HeapBlock) pn <=? block)
         else ret false) in
      if here then ret (previousBlock, currentBlock) else
      let* nx := next_of currentBlock in
      find_place fuel' block currentBlock nx
  end.

(** Absorb the free block [right] that follows [left] directly, or link it. *)
Definition join_next (left right : Z) : M state unit :=
  let* n := size_of left in
  if add64 (add64 left sizeof_HeapBlock) n =? right then
    (let* rn := size_of right in
     let* n := size_of left in set_size left (add64 n (add64 sizeof_HeapBlock rn))) ;;;
    (let* nx := next_of right in set_next left nx) ;;;
    count 0 sizeof_HeapBlock (- sizeof_HeapBlock) 0
  else set_next left right.

(** Absorb [block] into the free block [previousBlock] in front of it, or link
    it; the result is the block that now contains it. *)
Definition join_previous (previousBlock block : Z) : M state Z :=
  let* pn := size_of previousBlock in
  if add64 (add64 previousBlock sizeof_HeapBlock) pn =? block then
    (let* n := size_of block in
     let* pn := size_of previousBlock in
     set_size previousBlock (add64 pn (add64 sizeof_HeapBlock n))) ;;;
    count 0 sizeof_HeapBlock (- sizeof_HeapBlock) 0 ;;;
    ret previousBlock
  else set_free block true ;;; set_next previousBlock block ;;; ret block.

(** Put [block] back between its neighbours. *)
Definition put_back (section block previousBlock currentBlock : Z) : M state unit :=
  if negb (currentBlock =? 0) then
    if previousBlock =? 0 then
      let* size := size_of block in
      join_next block currentBlock ;;;
      count (- size) size 0 0 ;;;
      set_free block true ;;;
      set_first section block
    else
      let* size := size_of block in
      let* block := join_previous previousBlock block in
      join_next block currentBlock ;;;
      count (- size) size 0 0
  else if previousBlock =? 0 then
    set_next block 0 ;;;
    set_first section block ;;;
    let* size := size_of block in count (- size) size 0 0
  else
    let* size := size_of block in
    let* block := join_previous previousBlock block in
    set_next block 0 ;;;
    count (- size) size 0 0.

(** The condition of the loop below: the section consists of one free block. *)
Definition section_empty (section : Z) : M state bool :=
  let* first := sec_first section in
  if first =? 0 then ret false else
  let* nx := next_of first in
  if negb (nx =? 0) then ret false else
  let* n := size_of first in
  let* sz := sec_size section in
  ret (add64 n sizeof_HeapBlock =? sz).

(** Give sections that consist of one free block back. *)
Fixpoint release_empty (fuel : nat) (previousSection section : Z) : M state unit :=
  if section =? 0 then ret tt else
  match fuel with
  | O => fail OutOfFuel
  | S fuel' =>
      let* empty := section_empty section in
      if empty then
        (let* nx := sec_next section in
         if previousSection =? 0 then modify (set_Head nx) else wr previousSection 8 nx) ;;;
        let* sz := sec_size section in
        count 0 (- (sz - sizeof_HeapBlock)) (- (sizeof_HeapSection + sizeof_HeapBlock))
          (- (sz + sizeof_HeapSection)) ;;;
        let* nextSection := sec_next section in
        modify (fun s => mk (m_Head s) (m_lock s) (m_UsedMemory s) (m_FreeMemory s)
          (m_MetadataMemory s) (m_TotalMemory s) (mem s)
          (released s ++ [(section, add64 sz sizeof_HeapSection)])) ;;;
        release_empty fuel' previousSection nextSection
      else
        let* nx := sec_next section in release_empty fuel' section nx
  end.

Definition Free (fuel fuelb : nat) (ptr : Z) : M state unit :=
  if ptr =? 0 then ret tt else
  Lock ;;;
  let block := sub64 ptr sizeof_HeapBlock in
  (let* f := free_of block in assertM (negb f)) ;;;
  set_free block true ;;;
  (let* head := gets m_Head in
   let* section := owner fuel block head in
   if section =? 0 then ret tt else
   let* first := sec_first section in
   let* (previousBlock, currentBlock) := find_place fuelb block 0 first in
   put_back section block previousBlock currentBlock) ;;;
  (let* head := gets m_Head in release_empty fuel 0 head) ;;;
  Unlock.

(** ** The other operations *)

Definition GetSize (ptr : Z) : M state Z :=
  if ptr =? 0 then ret 0 else size_of (sub64 ptr sizeof_HeapBlock).

(** [static_cast<int64_t>(x) >= 0] *)
Definition nonneg (x : Z) : bool := x <? 2 ^ 63.

Definition Verify : M state unit :=
  let* u := gets m_UsedMemory in let* f := gets m_FreeMemory in
  let* md := gets m_MetadataMemory in let* t := gets m_TotalMemory in
  assertM (add64 (add64 u f) md =? t) ;;;
  assertM (nonneg u) ;;; assertM (nonneg f) ;;; assertM (nonneg md) ;;; assertM (nonneg t).

(** *** The C interface *)

Definition kmalloc := Allocate.
Definition kfree := Free.

(** [k] bytes of the word [new], the others of the word [old] (little endian). *)
Definition merge_bytes (k new old : Z) : Z :=
  if 8 <=? k then new else new mod 2 ^ (8 * k) + old / 2 ^ (8 * k) * 2 ^ (8 * k).

(** [memset(p, 0, n)] and [memcpy(dst, src, n)], for word-aligned pointers. *)
Definition fill_zero (p n : Z) : M state unit :=
  modify (fun s => set_mem (fun x =>
    if (p <=? x) && (x <? p + n) then merge_bytes (p + n - x) 0 (mem s x) else mem s x) s).
Definition copy_bytes (dst src n : Z) : M state unit :=
  modify (fun s => set_mem (fun x =>
    if (dst <=? x) && (x <? dst + n) then merge_bytes (dst + n - x) (mem s (src + (x - dst))) (mem s x)
    else mem s x) s).

Definition kcalloc (sectionAllocate : Z -> Z) (fuel fuelb : nat) (num size : Z) : M state Z :=
  let* ptr := Allocate sectionAllocate fuel fuelb (mul64 num size) in
  if ptr =? 0 then ret 0 else
  fill_zero ptr (mul64 num size) ;;; ret ptr.

Definition krealloc (sectionAllocate : Z -> Z) (fuel fuelb : nat) (ptr size : Z) : M state Z :=
  if ptr =? 0 then Allocate sectionAllocate fuel fuelb size
  else if size =? 0 then Free fuel fuelb ptr ;;; ret 0
  else
    let* oldSize := GetSize ptr in
    if oldSize =? 0 then ret 0
    else if size <=? oldSize then ret ptr
    else
      let* newBuf := Allocate sectionAllocate fuel fuelb size in
      if newBuf =? 0 then ret 0
      else
        copy_bytes newBuf ptr oldSize ;;;
        Free fuel fuelb ptr ;;;
        ret newBuf.

(** [krealloc_vmm] *)
Definition krealloc_vmm (ptr size : Z) : M state Z := assertM false ;;; ret 0.

End Heap.
