(* ===== verification/HeapSpec.v ===== *)
(** * HeapSpec.v: what the kernel heap guarantees

    A section is described by its address and the list of its blocks (size,
    free?), which tile it in address order. *)

From S2P Require Import Prelude Heap.
#[local] Open Scope Z_scope.
#[local] Open Scope kernel_scope.

Module HeapSpec.
Import Heap.

Notation blk := (Z * bool)%type.
Notation sect := (Z * list blk)%type.

(** ** Description of the memory *)

Fixpoint extent (bl : list blk) : Z :=
  match bl with [] => 0 | (n, _) :: bl' => 16 + n + extent bl' end.

(** The headers: from [b] to [e] the memory is tiled by the blocks. *)
Fixpoint hdrs (m : memory) (b : Z) (bl : list blk) (e : Z) : Prop :=
  match bl with
  | [] => b = e
  | (n, f) :: bl' => 0 <= n /\ n mod 16 = 0 /\ m b = hdr n f /\ hdrs m (b + 16 + n) bl' e
  end.

(** The addresses of the free blocks. *)
Fixpoint faddrs (b : Z) (bl : list blk) : list Z :=
  match bl with
  | [] => []
  | (n, f) :: bl' => (if f then [b] else []) ++ faddrs (b + 16 + n) bl'
  end.

(** The free list: a chain of [next] pointers from [p] to [q]. *)
Fixpoint lseg (m : memory) (p : Z) (fl : list Z) (q : Z) : Prop :=
  match fl with [] => p = q | x :: fl' => p = x /\ lseg m (m (x + 8)) fl' q end.

(** The word that points behind a chain whose head is stored at [fp]. *)
Fixpoint link (fp : Z) (fl : list Z) : Z :=
  match fl with [] => fp | x :: fl' => link (x + 8) fl' end.

(** The blocks are no smaller than the source makes them at the end. *)
Definition last_ok (bl : list blk) : Prop := exists l n f, bl = l ++ [(n, f)] /\ 32 <= n.

Record sec_ok (m : memory) (a : Z) (bl : list blk) : Prop := {
  sc_pos : 0 < a;
  sc_align : a mod 16 = 0;
  sc_bound : a + 32 + extent bl < W64;
  sc_size : m a = extent bl;
  sc_small : extent bl < 2 ^ 62;
  sc_hdrs : hdrs m (a + 32) bl (a + 32 + extent bl);
  sc_chain : lseg m (m (a + 16)) (faddrs (a + 32) bl) 0;
  sc_last : last_ok bl
}.

Fixpoint secs_ok (m : memory) (h : Z) (secs : list sect) : Prop :=
  match secs with
  | [] => h = 0
  | (a, bl) :: secs' => h = a /\ sec_ok m a bl /\ secs_ok m (m (a + 8)) secs'
  end.

(** The address ranges of two sections do not meet. *)
Definition sep (x y : sect) : Prop :=
  x.1 + 32 + extent x.2 <= y.1 \/ y.1 + 32 + extent y.2 <= x.1.

Fixpoint sum (f : blk -> Z) (bl : list blk) : Z :=
  match bl with [] => 0 | x :: bl' => f x + sum f bl' end.
Definition used (bl : list blk) : Z := sum (fun x => if x.2 then 0 else x.1) bl.
Definition unused (bl : list blk) : Z := sum (fun x => if x.2 then x.1 else 0) bl.
Definition meta (bl : list blk) : Z := 32 + sum (fun _ => 16) bl.
#[local] Arguments used : simpl never.
#[local] Arguments unused : simpl never.
#[local] Arguments meta : simpl never.
Fixpoint total (f : list blk -> Z) (secs : list sect) : Z :=
  match secs with [] => 0 | x :: secs' => f x.2 + total f secs' end.

(** The representation invariant between calls. *)
Record heap_rep (secs : list sect) (s : state) : Prop := {
  hp_secs : secs_ok (mem s) (m_Head s) secs;
  hp_sep : ForallOrdPairs sep secs;
  hp_used : m_UsedMemory s = total used secs;
  hp_free : m_FreeMemory s = total unused secs;
  hp_meta : m_MetadataMemory s = total meta secs;
  hp_total : m_TotalMemory s = total (fun bl => 32 + extent bl) secs;
  hp_bound : m_TotalMemory s < 2 ^ 63;
  hp_lock : m_lock s = false
}.

(** The blocks in use: the address of the payload and its size. *)
Fixpoint blive (b : Z) (bl : list blk) : list (Z * Z) :=
  match bl with
  | [] => []
  | (n, f) :: bl' => (if f then [] else [(b + 16, n)]) ++ blive (b + 16 + n) bl'
  end.
Fixpoint lives (secs : list sect) : list (Z * Z) :=
  match secs with [] => [] | (a, bl) :: secs' => blive (a + 32) bl ++ lives secs' end.

(** ** Lists of blocks *)

Lemma extent_app l r : extent (l ++ r) = extent l + extent r.
Proof. induction l as [|[n f] l IH]; cbn; lia. Qed.

Lemma sum_app f l r : sum f (l ++ r) = sum f l + sum f r.
Proof. induction l as [|x l IH]; cbn; lia. Qed.

Lemma hdrs_app m b l r e : hdrs m b (l ++ r) e <->
  hdrs m b l (b + extent l) /\ hdrs m (b + extent l) r e.
Proof.
  revert b. induction l as [|[n f] l IH]; intros b; cbn.
  - rewrite Z.add_0_r. tauto.
  - rewrite IH. replace (b + 16 + n + extent l) with (b + (16 + n + extent l)) by lia. tauto.
Qed.

Lemma faddrs_app b l r : faddrs b (l ++ r) = faddrs b l ++ faddrs (b + extent l) r.
Proof.
  revert b. induction l as [|[n f] l IH]; intros b; cbn; [by rewrite Z.add_0_r|].
  rewrite IH, <- app_assoc. do 3 f_equal. lia.
Qed.

Lemma lseg_app m p l r q : lseg m p (l ++ r) q <-> exists x, lseg m p l x /\ lseg m x r q.
Proof.
  revert p. induction l as [|y l IH]; intros p; cbn; [naive_solver|].
  rewrite IH. naive_solver.
Qed.

Lemma hdrs_extent m b bl e : hdrs m b bl e -> e = b + extent bl /\ 0 <= extent bl.
Proof.
  revert b. induction bl as [|[n f] bl IH]; intros b; cbn; [lia|].
  intros (? & ? & ? & H). apply IH in H. lia.
Qed.

Lemma hdrs_mod m b bl e : hdrs m b bl e -> extent bl mod 16 = 0.
Proof.
  revert b. induction bl as [|[n f] bl IH]; intros b; cbn; [done|].
  intros (? & ? & ? & H). apply IH in H. zlia.
Qed.

Lemma hdrs_agree m m' b bl e : hdrs m b bl e ->
  (forall x, b <= x < e -> x mod 16 = b mod 16 -> m' x = m x) -> hdrs m' b bl e.
Proof.
  revert b. induction bl as [|[n f] bl IH]; intros b H Hm; [done|]. cbn in *.
  destruct H as (Hn & Hmod & Hh & H). apply hdrs_extent in H as He.
  split_and!; [done|done|by rewrite Hm by lia|].
  apply IH; [done|]. intros x Hx Hxm. apply Hm; [lia|]. zlia.
Qed.

(** Free blocks lie between the ends, aligned, in order. *)
Lemma faddrs_range m b bl e x : hdrs m b bl e -> x ∈ faddrs b bl ->
  b <= x /\ x + 16 <= e /\ x mod 16 = b mod 16.
Proof.
  revert b. induction bl as [|[n f] bl IH]; intros b H Hx; cbn in *.
  - by apply elem_of_nil in Hx.
  - destruct H as (Hn & Hmod & Hh & H). apply hdrs_extent in H as He.
    apply elem_of_app in Hx as [Hx|Hx].
    + destruct f; [|by apply elem_of_nil in Hx]. apply list_elem_of_singleton in Hx. subst. lia.
    + apply (IH _ H) in Hx as (? & ? & ?). split_and!; [lia|lia|zlia].
Qed.

Lemma lseg_agree m m' p fl q : lseg m p fl q ->
  (forall x, x ∈ fl -> m' (x + 8) = m (x + 8)) -> lseg m' p fl q.
Proof.
  revert p. induction fl as [|x fl IH]; intros p; cbn; [done|].
  intros [-> H] Hm. split; [done|]. rewrite Hm by set_solver.
  apply IH; [done|]. intros y Hy. apply Hm. set_solver.
Qed.

Lemma link_value m fp fl q : lseg m (m fp) fl q -> m (link fp fl) = q.
Proof. revert fp. induction fl as [|x fl IH]; intros fp; cbn; [done|]. intros [_ H]. by apply IH. Qed.

(** The link behind the free blocks of [l] is at the head or in one of them. *)
Lemma link_cases fp fl : (fl = [] /\ link fp fl = fp) \/ (exists x, x ∈ fl /\ link fp fl = x + 8).
Proof.
  revert fp. induction fl as [|x fl IH]; intros fp; cbn; [by left|].
  right. destruct (IH (x + 8)) as [[-> ->]|(y & Hy & ->)]; [exists x|exists y]; set_solver.
Qed.

(** Redirecting the link behind a chain. *)
Lemma relink m m' b bl e fp q y : hdrs m b bl e -> fp < b + 8 ->
  lseg m (m fp) (faddrs b bl) q -> m' (link fp (faddrs b bl)) = y ->
  (forall x, x <> link fp (faddrs b bl) -> x = fp \/ b + 8 <= x < e /\ x mod 16 = (b + 8) mod 16 ->
     m' x = m x) ->
  lseg m' (m' fp) (faddrs b bl) y.
Proof.
  revert b fp. induction bl as [|[n f] bl IH]; intros b fp H Hfp Hl Hy Hm; cbn in *; [done|].
  destruct H as (Hn & Hmod & Hh & H). apply hdrs_extent in H as He.
  destruct f; cbn in *.
  - destruct Hl as [Hb Hl]. split.
    + rewrite Hm; [done| |by left]. 
      destruct (link_cases (b + 8) (faddrs (b + 16 + n) bl)) as [[_ ->]|(x & Hx & ->)]; [lia|].
      apply (faddrs_range _ _ _ _ _ H) in Hx. lia.
    + eapply IH; [done|lia|done|done|]. intros x Hne Hx. apply Hm; [done|right].
      destruct Hx as [->|Hx]; [lia|]. split; [lia|]. zlia.
  - eapply IH; [done|lia|done|done|]. intros x Hne Hx. apply Hm; [done|].
    destruct Hx as [->|Hx]; [by left|right]. split; [lia|]. zlia.
Qed.

(** *** Replacing a group of blocks

    The blocks [mid] at [c] become [mid']; besides the words of the group
    itself only the link behind the free blocks of [l] changes. *)
Lemma sec_replace m m' a l mid mid' r cr :
  let c := a + 32 + extent l in let c' := c + extent mid in
  let lk := link (a + 16) (faddrs (a + 32) l) in
  sec_ok m a (l ++ mid ++ r) -> extent mid' = extent mid -> last_ok (l ++ mid' ++ r) ->
  lseg m (m lk) (faddrs c mid) cr -> hdrs m' c mid' c' -> lseg m' (m' lk) (faddrs c mid') cr ->
  (forall x, x <> lk -> ~ (c <= x < c') -> m' x = m x) ->
  sec_ok m' a (l ++ mid' ++ r).
Proof.
  intros c c' lk [Hpos Hal Hbd Hsz Hsm Hh Hch _] Hext Hlast Hcr Hh' Hch' Hm.
  rewrite !extent_app in *.
  apply hdrs_app in Hh as [Hl Hh]. apply hdrs_app in Hh as [Hmid Hr]. fold c in Hmid, Hr. fold c' in Hr.
  pose proof (hdrs_extent _ _ _ _ Hl) as [_ ?]. pose proof (hdrs_extent _ _ _ _ Hmid) as [_ ?].
  pose proof (hdrs_extent _ _ _ _ Hr) as [_ ?].
  pose proof (hdrs_mod _ _ _ _ Hl). pose proof (hdrs_mod _ _ _ _ Hmid).
  assert (Hlk : lk = a + 16 \/ a + 32 <= lk < c /\ lk mod 16 = 8).
  { unfold lk. destruct (link_cases (a + 16) (faddrs (a + 32) l)) as [[_ ->]|(x & Hx & ->)]; [by left|].
    apply (faddrs_range _ _ _ _ _ Hl) in Hx. right. unfold c. split; [lia|]. zlia. }
  rewrite !faddrs_app in Hch. apply lseg_app in Hch as (x1 & Hc1 & Hch).
  apply lseg_app in Hch as (x2 & Hc2 & Hc3). fold c in Hc2, Hc3. fold c' in Hc3.
  pose proof (link_value _ _ _ _ Hc1) as Hx1. fold lk in Hx1.
  assert (x2 = cr) as ->.
  { rewrite Hx1 in Hcr. clear -Hc2 Hcr. revert x1 Hc2 Hcr.
    induction (faddrs c mid) as [|y fl IH]; cbn; intros x1; [by intros -> ->|].
    intros [_ ?] [_ ?]. eauto. }
  constructor; rewrite ?extent_app, ?Hext; try done; try lia.
  - rewrite Hm; [done| |lia]. intros E. destruct Hlk as [|[? ?]]; lia.
  - rewrite hdrs_app. split.
    { eapply hdrs_agree; [done|]. intros x Hx Hxm. apply Hm; [|lia].
      intros ->. destruct Hlk as [|[? ?]]; [lia|zlia]. }
    rewrite hdrs_app. fold c. rewrite Hext. fold c'. split; [done|].
    eapply hdrs_agree; [exact Hr|]. intros x Hx Hxm. apply Hm; [|lia]. intros ->. lia.
  - rewrite !faddrs_app. fold c. rewrite Hext. fold c'. apply lseg_app. exists (m' lk). split.
    { eapply relink; [exact Hl|lia|exact Hc1|done|]. fold lk. intros x Hne Hx. apply Hm; [done|].
      fold c in Hx. lia. }
    apply lseg_app. exists cr. split; [done|].
    eapply lseg_agree; [exact Hc3|]. intros x Hx.
    apply (faddrs_range _ _ _ _ _ Hr) in Hx. apply Hm; [|lia]. lia.
Qed.

(** *** Sections *)

Lemma sec_extent m a bl : sec_ok m a bl -> 48 <= extent bl.
Proof.
  intros H. destruct (sc_last _ _ _ H) as (l & n & f & -> & Hn).
  pose proof (sc_hdrs _ _ _ H) as Hh. apply hdrs_app in Hh as [Hl _].
  apply hdrs_extent in Hl. rewrite extent_app. cbn. lia.
Qed.

Lemma sec_agree m m' a bl : sec_ok m a bl ->
  (forall x, a <= x < a + 32 + extent bl -> x <> a + 8 -> m' x = m x) -> sec_ok m' a bl.
Proof.
  intros Hs Hm. pose proof (sec_extent _ _ _ Hs) as He.
  destruct Hs as [Hpos Hal Hbd Hsz Hsm Hh Hch Hl]. constructor; try done.
  - by rewrite Hm by lia.
  - eapply hdrs_agree; [done|]. intros x Hx _. apply Hm; lia.
  - rewrite Hm by lia. eapply lseg_agree; [done|]. intros x Hx.
    apply (faddrs_range _ _ _ _ _ Hh) in Hx. apply Hm; lia.
Qed.

(** The value at the [next] of the last section of [S1]. *)
Fixpoint rest (m : memory) (h : Z) (S1 : list sect) : Z :=
  match S1 with [] => h | (a, _) :: S1' => rest m (m (a + 8)) S1' end.

Fixpoint secs_part (m : memory) (h : Z) (S1 : list sect) : Prop :=
  match S1 with
  | [] => True
  | (a, bl) :: S1' => h = a /\ sec_ok m a bl /\ secs_part m (m (a + 8)) S1'
  end.

Lemma secs_split m h S1 S2 : secs_ok m h (S1 ++ S2) <->
  secs_part m h S1 /\ secs_ok m (rest m h S1) S2.
Proof.
  revert h. induction S1 as [|[a bl] S1 IH]; intros h; cbn; [tauto|]. rewrite IH. tauto.
Qed.

Lemma secs_part_agree m m' h S1 : secs_part m h S1 ->
  (forall a bl x, (a, bl) ∈ S1 -> a <= x < a + 32 + extent bl -> m' x = m x) ->
  secs_part m' h S1 /\ rest m' h S1 = rest m h S1.
Proof.
  revert h. induction S1 as [|[a bl] S1 IH]; intros h; cbn; [done|].
  intros (-> & Hs & H) Hm. pose proof (sec_extent _ _ _ Hs).
  rewrite (Hm a bl (a + 8)) by (set_solver || lia).
  destruct (IH _ H) as [? ?]; [intros b bb x Hb; apply (Hm b bb x); set_solver|].
  split_and!; [done| |done|done]. eapply sec_agree; [done|]. intros x Hx _. apply (Hm a bl); set_solver.
Qed.

Lemma secs_ok_agree m m' h S2 : secs_ok m h S2 ->
  (forall a bl x, (a, bl) ∈ S2 -> a <= x < a + 32 + extent bl -> m' x = m x) ->
  secs_ok m' h S2.
Proof.
  intros H Hm. rewrite <- (app_nil_r S2) in H. apply secs_split in H as [Hp Hn].
  destruct (secs_part_agree _ m' _ _ Hp Hm) as [Hp' Hr].
  rewrite <- (app_nil_r S2). apply secs_split. split; [done|]. cbn in *. congruence.
Qed.

(** A section of the list, and what lies outside it. *)
Lemma secs_sec m h S1 a bl S2 : secs_ok m h (S1 ++ (a, bl) :: S2) -> sec_ok m a bl.
Proof. intros H. apply secs_split in H as [_ (_ & H & _)]. done. Qed.

Lemma sep_sym x y : sep x y -> sep y x.
Proof. unfold sep. tauto. Qed.

Lemma sep_others S1 a bl S2 b bl' : ForallOrdPairs sep (S1 ++ (a, bl) :: S2) ->
  (b, bl') ∈ S1 ++ S2 -> sep (a, bl) (b, bl').
Proof.
  induction S1 as [|y S1 IH]; cbn; intros H Hin.
  - inversion H as [|? ? Hf _]; subst. rewrite Forall_forall in Hf. by apply Hf.
  - inversion H as [|? ? Hf Hr]; subst. apply elem_of_cons in Hin as [<-|Hin]; [|by apply IH].
    rewrite Forall_forall in Hf. apply sep_sym, Hf. set_solver.
Qed.

Lemma secs_update m m' h S1 a bl bl' S2 : secs_ok m h (S1 ++ (a, bl) :: S2) ->
  ForallOrdPairs sep (S1 ++ (a, bl) :: S2) ->
  (forall x, ~ (a <= x < a + 32 + extent bl) -> m' x = m x) -> m' (a + 8) = m (a + 8) ->
  sec_ok m' a bl' -> secs_ok m' h (S1 ++ (a, bl') :: S2).
Proof.
  intros H Hsep Hm Hnx Hs. apply secs_split in H as [Hp (Hr & Hs0 & H2)].
  assert (Hout : forall b bb x, (b, bb) ∈ S1 ++ S2 -> b <= x < b + 32 + extent bb -> m' x = m x).
  { intros b bb x Hin Hx. apply Hm. pose proof (sep_others _ _ _ _ _ _ Hsep Hin) as [E|E];
      cbn in E; lia. }
  apply secs_split. destruct (secs_part_agree _ m' _ _ Hp) as [Hp' Hr'].
  { intros b bb x Hin. apply (Hout b bb). set_solver. }
  split; [done|]. cbn. rewrite Hr', Hnx. split_and!; [done..|].
  eapply secs_ok_agree; [done|]. intros b bb x Hin. apply (Hout b bb). set_solver.
Qed.

Lemma sep_update S1 a bl bl' S2 : extent bl' = extent bl ->
  ForallOrdPairs sep (S1 ++ (a, bl) :: S2) -> ForallOrdPairs sep (S1 ++ (a, bl') :: S2).
Proof.
  intros He. induction S1 as [|y S1 IH]; cbn; intros H; inversion H as [|? ? Hf Hr]; subst.
  - constructor; [|done]. eapply Forall_impl; [exact Hf|]. unfold sep. cbn. by rewrite He.
  - constructor; [|by apply IH]. apply Forall_app in Hf as [Hf1 Hf2].
    inversion Hf2; subst. apply Forall_app. split; [done|]. constructor; [|done].
    unfold sep in *. cbn in *. by rewrite He.
Qed.

Lemma total_app f S1 S2 : total f (S1 ++ S2) = total f S1 + total f S2.
Proof. induction S1 as [|x S1 IH]; cbn; lia. Qed.

(** ** Accesses *)

Lemma hsize_hdr n f : 0 <= n < 2 ^ 63 -> hsize (hdr n f) = n.
Proof.
  intros H. unfold hsize, hdr. destruct f; [|by rewrite Z.add_0_r, Z.mod_small].
  rewrite <- (Z.mul_1_l (2 ^ 63)) at 1. rewrite Z.mod_add by lia. by apply Z.mod_small.
Qed.

Lemma hfree_hdr n f : 0 <= n < 2 ^ 63 -> hfree (hdr n f) = f.
Proof. intros H. unfold hfree, hdr. destruct f; [apply Z.leb_le|apply Z.leb_gt]; lia. Qed.

Lemma hrd_runs p off s (Q : Z -> state -> Prop) : 0 < p -> 0 <= off -> p + off < W64 ->
  Q (mem s (p + off)) s -> runs (rd p off) s Q.
Proof.
  intros Hp Ho Hb HQ. unfold rd. destruct (Z.eqb_spec p 0); [lia|].
  rewrite add64_small by lia. by apply runs_gets.
Qed.

Lemma hwr_runs p off v s (Q : unit -> state -> Prop) : 0 < p -> 0 <= off -> p + off < W64 ->
  Q tt (set_mem (<[p + off := v]> (mem s)) s) -> runs (wr p off v) s Q.
Proof.
  intros Hp Ho Hb HQ. unfold wr. destruct (Z.eqb_spec p 0); [lia|].
  rewrite add64_small by lia. by apply runs_modify.
Qed.

Section Header.
Context (b n : Z) (f : bool) (s : state).
Hypotheses (Hb : 0 < b) (Hw : b + 16 < W64) (Hn : 0 <= n < 2 ^ 63) (Hh : mem s b = hdr n f).

Lemma size_of_runs (Q : Z -> state -> Prop) : Q n s -> runs (size_of b) s Q.
Proof.
  intros HQ. unfold size_of. mstep. apply hrd_runs; [lia..|]. rewrite Z.add_0_r, Hh.
  apply runs_ret. by rewrite hsize_hdr.
Qed.

Lemma free_of_runs (Q : bool -> state -> Prop) : Q f s -> runs (free_of b) s Q.
Proof.
  intros HQ. unfold free_of. mstep. apply hrd_runs; [lia..|]. rewrite Z.add_0_r, Hh.
  apply runs_ret. by rewrite hfree_hdr.
Qed.

Lemma set_size_runs v (Q : unit -> state -> Prop) : 0 <= v < 2 ^ 63 ->
  Q tt (set_mem (<[b := hdr v f]> (mem s)) s) -> runs (set_size b v) s Q.
Proof.
  intros Hv HQ. unfold set_size. mstep. apply hrd_runs; [lia..|]. rewrite Z.add_0_r, Hh.
  apply hwr_runs; [lia..|]. by rewrite Z.add_0_r, hfree_hdr, Z.mod_small.
Qed.

Lemma set_free_runs v (Q : unit -> state -> Prop) :
  Q tt (set_mem (<[b := hdr n v]> (mem s)) s) -> runs (set_free b v) s Q.
Proof.
  intros HQ. unfold set_free. mstep. apply hrd_runs; [lia..|]. rewrite Z.add_0_r, Hh.
  apply hwr_runs; [lia..|]. by rewrite Z.add_0_r, hsize_hdr.
Qed.
End Header.

(** Writing the size where there is no header yet. *)
Lemma set_size_any b v s (Q : unit -> state -> Prop) : 0 < b -> b + 16 < W64 ->
  0 <= v < 2 ^ 63 -> (forall g, Q tt (set_mem (<[b := hdr v g]> (mem s)) s)) ->
  runs (set_size b v) s Q.
Proof.
  intros Hb Hw Hv HQ. unfold set_size. mstep. apply hrd_runs; [lia..|].
  apply hwr_runs; [lia..|]. rewrite !Z.add_0_r, (Z.mod_small v) by lia. apply HQ.
Qed.

Lemma next_of_runs b s (Q : Z -> state -> Prop) : 0 < b -> b + 16 < W64 ->
  Q (mem s (b + 8)) s -> runs (next_of b) s Q.
Proof. intros. apply hrd_runs; [lia..|done]. Qed.

Lemma set_next_runs b v s (Q : unit -> state -> Prop) : 0 < b -> b + 16 < W64 ->
  Q tt (set_mem (<[b + 8 := v]> (mem s)) s) -> runs (set_next b v) s Q.
Proof. intros. apply hwr_runs; [lia..|done]. Qed.

(** ** The searches of [Allocate] *)

(** The address of the last free block of a list, or a default. *)
Definition last_free (d : Z) (fl : list Z) : Z := List.last fl d.

Lemma last_free_cons d x fl : last_free d (x :: fl) = last_free x fl.
Proof.
  unfold last_free. revert x d. induction fl as [|y fl IH]; intros x d; [done|].
  change (List.last (y :: fl) d = List.last (y :: fl) x). by rewrite !IH.
Qed.

Definition fits (size : Z) (bl : list blk) : Prop := exists n, (n, true) ∈ bl /\ size <= n.

Lemma find_block_runs size s e : e < W64 ->
  forall bl c fuel prev b, hdrs (mem s) c bl e -> 0 < c -> extent bl < 2 ^ 62 ->
  lseg (mem s) b (faddrs c bl) 0 -> (length bl <= fuel)%nat ->
  runs (find_block fuel size prev b) s (fun r s' => s' = s /\
    match r with
    | None => ~ fits size bl
    | Some (pv, x) => exists l n bl', bl = l ++ (n, true) :: bl' /\ x = c + extent l /\
        size <= n /\ pv = last_free prev (faddrs c l) /\ ~ fits size l
    end).
Proof.
  intros He. induction bl as [|[n f] bl IH]; intros c fuel prev b Hh Hc Hx Hl Hf; cbn in *.
  - subst b. destruct fuel; cbn; apply runs_ret; (split; [done|]); by intros (n & Hn%elem_of_nil & _).
  - destruct Hh as (Hn & Hm & Hb & Hh). pose proof (hdrs_extent _ _ _ _ Hh) as [Hee ?].
    destruct fuel as [|fuel]; [lia|]. destruct f; cbn in Hl.
    + destruct Hl as [-> Hl]. cbn [find_block]. destruct (Z.eqb_spec c 0); [lia|].
      mstep. eapply free_of_runs; [lia|lia| |exact Hb|]; [lia|].
      mstep. eapply size_of_runs; [lia|lia| |exact Hb|]; [lia|]. cbn [andb].
      destruct (Z.leb_spec size n).
      * apply runs_ret. split; [done|]. exists [], n, bl. cbn.
        split_and!; [done|lia|done|done|]. by intros (k & Hk%elem_of_nil & _).
      * mstep. apply hrd_runs; [lia..|].
        eapply runs_mono; [eapply (IH _ fuel c); try done; lia|].
        intros r s' [-> Hr]. split; [done|]. destruct r as [[pv x]|].
        -- destruct Hr as (l & k & bl' & -> & -> & Hk & -> & Hno).
           exists ((n, true) :: l), k, bl'. cbn [faddrs app extent]. rewrite last_free_cons.
           split_and!; [done|lia|done|done|].
           intros (j & Hj & Hj'). apply elem_of_cons in Hj as [Hj|Hj]; [simplify_eq; lia|].
           apply Hno. by exists j.
        -- intros (j & Hj & Hj'). apply elem_of_cons in Hj as [Hj|Hj]; [simplify_eq; lia|].
           apply Hr. by exists j.
    + eapply runs_mono; [eapply (IH _ (S fuel) prev); try done; lia|].
      intros r s' [-> Hr]. split; [done|]. destruct r as [[pv x]|].
      * destruct Hr as (l & k & bl' & -> & -> & Hk & -> & Hno).
        exists ((n, false) :: l), k, bl'. cbn. split_and!; [done|lia|done|done|].
        intros (j & Hj & Hj'). apply elem_of_cons in Hj as [Hj|Hj]; [simplify_eq|].
        apply Hno. by exists j.
      * intros (j & Hj & Hj'). apply elem_of_cons in Hj as [Hj|Hj]; [simplify_eq|].
        apply Hr. by exists j.
Qed.

Lemma find_section_runs size fuelb s : forall secs fuel h, secs_ok (mem s) h secs ->
  (length secs <= fuel)%nat -> (forall a bl, (a, bl) ∈ secs -> (length bl <= fuelb)%nat) ->
  runs (find_section fuel fuelb size h) s (fun r s' => s' = s /\
    match r with
    | None => forall a bl, (a, bl) ∈ secs -> ~ fits size bl
    | Some (a, pv, x) => exists S1 l n r S2, secs = S1 ++ (a, l ++ (n, true) :: r) :: S2 /\
        x = a + 32 + extent l /\ size <= n /\ pv = last_free 0 (faddrs (a + 32) l)
    end).
Proof.
  induction secs as [|[a bl] secs IH]; intros fuel h Hs Hf Hfb; cbn in Hs.
  - subst h. destruct fuel; cbn; apply runs_ret; (split; [done|]);
      by intros a bl Hin%elem_of_nil.
  - destruct Hs as (-> & Hs & Hrest). destruct fuel as [|fuel]; [cbn in Hf; lia|].
    pose proof (sec_extent _ _ _ Hs). pose proof Hs as [Hpos Hal Hbd Hsz Hsm Hh Hch _].
    cbn [find_section]. destruct (Z.eqb_spec a 0); [lia|].
    mstep. apply hrd_runs; [lia..|]. mstep.
    eapply runs_mono.
    { eapply (find_block_runs size s (a + 32 + extent bl) ltac:(lia) bl (a + 32)); try done; try lia.
      apply (Hfb a). set_solver. }
    intros r s' [-> Hr]. destruct r as [[pv x]|].
    + destruct Hr as (l & n' & bl' & -> & -> & Hn & -> & _).
      apply runs_ret. split; [done|]. exists [], l, n', bl', secs. done.
    + mstep. apply hrd_runs; [lia..|].
      eapply runs_mono; [apply (IH fuel); [done|cbn in Hf; lia|set_solver]|].
      intros r s' [-> Hr']. split; [done|]. destruct r as [[[a' pv] x]|].
      * destruct Hr' as (S1 & l & n' & r & S2 & -> & Hrr). by exists ((a, bl) :: S1), l, n', r, S2.
      * intros b bb Hin. apply elem_of_cons in Hin as [Hin|Hin]; [by simplify_eq|by apply (Hr' b)].
Qed.

(** ** Replacing blocks and counting *)

(** The effect on everything but memory. *)
Record counted (s s' : state) (du df dm dt : Z) : Prop := {
  ct_head : m_Head s' = m_Head s;
  ct_used : m_UsedMemory s' = wrap64 (m_UsedMemory s + du);
  ct_free : m_FreeMemory s' = wrap64 (m_FreeMemory s + df);
  ct_meta : m_MetadataMemory s' = wrap64 (m_MetadataMemory s + dm);
  ct_total : m_TotalMemory s' = wrap64 (m_TotalMemory s + dt);
  ct_released : released s' = released s
}.

Lemma sums_split bl : extent bl = used bl + unused bl + (meta bl - 32).
Proof. induction bl as [|[n f] bl IH]; cbn in *; [done|]. unfold used, unused, meta in *. cbn. destruct f; cbn; lia. Qed.

Lemma hdrs_sums m b bl e : hdrs m b bl e -> 0 <= used bl /\ 0 <= unused bl /\ 32 <= meta bl.
Proof.
  unfold used, unused, meta. revert b. induction bl as [|[n f] bl IH]; intros b; cbn; [lia|].
  intros (? & _ & _ & H). apply IH in H. destruct f; cbn; lia.
Qed.

Lemma total_bounds m h secs : secs_ok m h secs ->
  0 <= total used secs /\ 0 <= total unused secs /\ 0 <= total meta secs /\
  total (fun bl => 32 + extent bl) secs = total used secs + total unused secs + total meta secs.
Proof.
  revert h. induction secs as [|[a bl] secs IH]; intros h; cbn; [lia|].
  intros (_ & Hs & H). apply IH in H. pose proof (hdrs_sums _ _ _ _ (sc_hdrs _ _ _ Hs)).
  pose proof (sums_split bl). lia.
Qed.

Lemma rep_replace S1 a bl bl' S2 s s' :
  heap_rep (S1 ++ (a, bl) :: S2) s -> sec_ok (mem s') a bl' -> extent bl' = extent bl ->
  (forall x, ~ (a <= x < a + 32 + extent bl) -> mem s' x = mem s x) ->
  mem s' (a + 8) = mem s (a + 8) -> m_lock s' = false ->
  counted s s' (used bl' - used bl) (unused bl' - unused bl) (meta bl' - meta bl) 0 ->
  heap_rep (S1 ++ (a, bl') :: S2) s'.
Proof.
  intros [Hs Hsep Hu Hf Hm Ht Hb Hl] Hsec Hext Hmem Hnx Hlk [Eh Eu Ef Em Et _].
  assert (Hs' : secs_ok (mem s') (m_Head s') (S1 ++ (a, bl') :: S2)).
  { rewrite Eh. by eapply secs_update. }
  pose proof (total_bounds _ _ _ Hs') as Hbd'. rewrite !total_app in *. cbn in *.
  rewrite Hext in Hbd'.
  constructor; rewrite ?total_app; cbn; try done.
  - by eapply sep_update.
  - rewrite Eu, wrap64_small; lia.
  - rewrite Ef, wrap64_small; lia.
  - rewrite Em, wrap64_small; lia.
  - rewrite Et, wrap64_small; lia.
  - rewrite Et, wrap64_small; lia.
Qed.

(** The write to the link behind the free blocks of [l]. *)
Lemma link_last fp d fl : fl <> [] -> link fp fl = last_free d fl + 8.
Proof.
  revert fp d. induction fl as [|x fl IH]; intros fp d Hne; [done|].
  rewrite last_free_cons. cbn [link]. destruct fl; [done|]. by apply IH.
Qed.

Lemma last_free_in d fl : fl <> [] -> last_free d fl ∈ fl.
Proof.
  revert d. induction fl as [|x fl IH]; intros d Hne; [done|]. rewrite last_free_cons.
  destruct fl; [by apply list_elem_of_singleton|]. apply elem_of_cons. right. by apply IH.
Qed.

Lemma link_write_runs a l v s e (Q : unit -> state -> Prop) :
  hdrs (mem s) (a + 32) l e -> e < W64 -> 0 < a -> a + 32 < W64 ->
  Q tt (set_mem (<[link (a + 16) (faddrs (a + 32) l) := v]> (mem s)) s) ->
  runs (if last_free 0 (faddrs (a + 32) l) =? 0 then set_first a v
        else set_next (last_free 0 (faddrs (a + 32) l)) v) s Q.
Proof.
  intros Hh He Ha Hb HQ. destruct (decide (faddrs (a + 32) l = [])) as [E|E].
  - rewrite E in *. cbn in *. apply hwr_runs; [lia..|done].
  - pose proof (last_free_in 0 _ E) as Hin.
    apply (faddrs_range _ _ _ _ _ Hh) in Hin. rewrite (link_last _ 0) in HQ by done.
    destruct (Z.eqb_spec (last_free 0 (faddrs (a + 32) l)) 0); [lia|].
    apply set_next_runs; [lia..|done].
Qed.

(** *** Blocks in use *)

Lemma blive_app b l r : blive b (l ++ r) = blive b l ++ blive (b + extent l) r.
Proof.
  revert b. induction l as [|[n f] l IH]; intros b; cbn; [by rewrite Z.add_0_r|].
  rewrite IH, <- app_assoc. do 3 f_equal. lia.
Qed.

Lemma lives_app S1 S2 : lives (S1 ++ S2) = lives S1 ++ lives S2.
Proof. induction S1 as [|[a bl] S1 IH]; cbn; [done|]. by rewrite IH, app_assoc. Qed.

Lemma blive_range m b bl e q k : hdrs m b bl e -> (q, k) ∈ blive b bl ->
  b + 16 <= q /\ q + k <= e /\ 0 <= k.
Proof.
  revert b. induction bl as [|[n f] bl IH]; intros b H Hx; cbn in *.
  - by apply elem_of_nil in Hx.
  - destruct H as (Hn & Hmod & Hh & H). apply hdrs_extent in H as He.
    apply elem_of_app in Hx as [Hx|Hx].
    + destruct f; [by apply elem_of_nil in Hx|]. apply list_elem_of_singleton in Hx. simplify_eq. lia.
    + apply (IH _ H) in Hx. lia.
Qed.

(** Headers of free blocks lie outside the payloads. *)
Lemma blive_free m b bl e q k x : hdrs m b bl e -> (q, k) ∈ blive b bl -> x ∈ faddrs b bl ->
  x + 16 <= q \/ q + k <= x.
Proof.
  revert b. induction bl as [|[n f] bl IH]; intros b H Hq Hx; cbn in *.
  - by apply elem_of_nil in Hx.
  - destruct H as (Hn & Hmod & Hh & H).
    apply elem_of_app in Hq, Hx. destruct Hq as [Hq|Hq], Hx as [Hx|Hx]; [..|by eauto].
    + destruct f; [by apply elem_of_nil in Hq|by apply elem_of_nil in Hx].
    + destruct f; [by apply elem_of_nil in Hq|]. apply list_elem_of_singleton in Hq. simplify_eq.
      apply (faddrs_range _ _ _ _ _ H) in Hx. lia.
    + destruct f; [|by apply elem_of_nil in Hx]. apply list_elem_of_singleton in Hx. subst.
      apply (blive_range _ _ _ _ _ _ H) in Hq. lia.
Qed.

Definition clear_of (x y : Z * Z) : Prop := x.1 + x.2 <= y.1 \/ y.1 + y.2 <= x.1.

Lemma pairs_app {A} (R : A -> A -> Prop) l r : ForallOrdPairs R l -> ForallOrdPairs R r ->
  (forall x y, x ∈ l -> y ∈ r -> R x y) -> ForallOrdPairs R (l ++ r).
Proof.
  induction 1 as [|x l Hf Hl IH]; intros Hr HR; cbn; [done|]. constructor.
  - apply Forall_app. split; [done|]. apply Forall_forall. intros y Hy. apply HR; set_solver.
  - apply IH; [done|]. intros y z Hy. apply HR. set_solver.
Qed.

Lemma blive_clear m b bl e : hdrs m b bl e -> ForallOrdPairs clear_of (blive b bl).
Proof.
  revert b. induction bl as [|[n f] bl IH]; intros b H; cbn in *; [constructor|].
  destruct H as (Hn & Hmod & Hh & H). apply pairs_app; [|by eapply IH|].
  - destruct f; repeat constructor.
  - intros x [q k] Hx Hy. destruct f; [by apply elem_of_nil in Hx|].
    apply list_elem_of_singleton in Hx as ->. apply (blive_range _ _ _ _ _ _ H) in Hy.
    left. cbn. lia.
Qed.

Lemma lives_in secs q k : (q, k) ∈ lives secs -> exists a bl, (a, bl) ∈ secs /\ (q, k) ∈ blive (a + 32) bl.
Proof.
  induction secs as [|[a bl] secs IH]; cbn; intros H; [by apply elem_of_nil in H|].
  apply elem_of_app in H as [H|H]; [exists a, bl; set_solver|].
  destruct (IH H) as (b & bb & ? & ?). exists b, bb. set_solver.
Qed.

Lemma secs_elem m h secs a bl : secs_ok m h secs -> (a, bl) ∈ secs -> sec_ok m a bl.
Proof.
  revert h. induction secs as [|[b bb] secs IH]; intros h; cbn.
  - by intros _ H%elem_of_nil.
  - intros (_ & Hs & H) Hin. apply elem_of_cons in Hin as [Hin|Hin]; [by simplify_eq|eauto].
Qed.

Lemma lives_clear m h secs : secs_ok m h secs -> ForallOrdPairs sep secs ->
  ForallOrdPairs clear_of (lives secs).
Proof.
  revert h. induction secs as [|[a bl] secs IH]; intros h Hs Hsep; cbn; [constructor|].
  destruct Hs as (_ & Hs & H). inversion Hsep as [|? ? Hf Hr]; subst.
  apply pairs_app; [by eapply blive_clear, sc_hdrs|by eapply IH|].
  intros [q k] [q' k'] Hq Hq'. apply lives_in in Hq' as (b & bb & Hin & Hq').
  rewrite Forall_forall in Hf. apply Hf in Hin as Hse.
  apply (blive_range _ _ _ _ _ _ (sc_hdrs _ _ _ Hs)) in Hq.
  apply (blive_range _ _ _ _ _ _ (sc_hdrs _ _ _ (secs_elem _ _ _ _ _ H Hin))) in Hq'.
  unfold sep, clear_of in *. cbn in *. lia.
Qed.

(** *** One group of blocks of a section *)

Record group (m : memory) (a : Z) (l mid r : list blk) (c lk cr : Z) : Prop := {
  gr_c : c = a + 32 + extent l;
  gr_pos : a + 32 <= c;
  gr_mod : c mod 16 = 0;
  gr_end : c + extent mid + extent r < W64;
  gr_extents : 0 <= extent mid /\ 0 <= extent r /\ extent mid + extent r < 2 ^ 62;
  gr_left : hdrs m (a + 32) l c;
  gr_mid : hdrs m c mid (c + extent mid);
  gr_right : hdrs m (c + extent mid) r (c + extent mid + extent r);
  gr_lk : lk = link (a + 16) (faddrs (a + 32) l);
  gr_lk_range : lk = a + 16 \/ a + 32 <= lk /\ lk + 8 <= c /\ lk mod 16 = 8;
  gr_chain : lseg m (m lk) (faddrs c mid) cr;
  gr_rest : lseg m cr (faddrs (c + extent mid) r) 0
}.

Lemma sec_group m a l mid r : sec_ok m a (l ++ mid ++ r) ->
  exists cr, group m a l mid r (a + 32 + extent l) (link (a + 16) (faddrs (a + 32) l)) cr.
Proof.
  intros [Hpos Hal Hbd Hsz Hsm Hh Hch _]. rewrite !extent_app in *.
  apply hdrs_app in Hh as [Hl Hh]. apply hdrs_app in Hh as [Hmid Hr].
  pose proof (hdrs_extent _ _ _ _ Hl) as [_ ?]. pose proof (hdrs_extent _ _ _ _ Hmid) as [_ ?].
  pose proof (hdrs_extent _ _ _ _ Hr) as [_ ?]. pose proof (hdrs_mod _ _ _ _ Hl).
  rewrite !faddrs_app in Hch. apply lseg_app in Hch as (x1 & Hc1 & Hch).
  apply lseg_app in Hch as (x2 & Hc2 & Hc3).
  pose proof (link_value _ _ _ _ Hc1) as Hx1.
  exists x2. constructor; try done; try lia.
  - zlia.
  - replace (a + 32 + extent l + extent mid + extent r) with
      (a + 32 + (extent l + (extent mid + extent r))) by lia. done.
  - destruct (link_cases (a + 16) (faddrs (a + 32) l)) as [[_ ->]|(x & Hx & ->)]; [by left|].
    apply (faddrs_range _ _ _ _ _ Hl) in Hx. right. split_and!; [lia|lia|zlia].
  - by rewrite Hx1.
Qed.

Lemma last_ok_replace l mid mid' r : last_ok (l ++ mid ++ r) -> (r = [] -> last_ok mid') ->
  last_ok (l ++ mid' ++ r).
Proof.
  intros (l0 & n & f & E & Hn) H. destruct r as [|x r] using rev_ind.
  - destruct (H eq_refl) as (l1 & n1 & f1 & -> & ?). exists (l ++ l1), n1, f1.
    by rewrite app_nil_r, app_assoc.
  - exists (l ++ mid' ++ r), n, f. rewrite !app_assoc in *. apply app_inj_tail in E as [_ ->]. done.
Qed.

Lemma used_mid l mid r : used (l ++ mid ++ r) = used l + used mid + used r.
Proof. unfold used. rewrite !sum_app. lia. Qed.
Lemma unused_mid l mid r : unused (l ++ mid ++ r) = unused l + unused mid + unused r.
Proof. unfold unused. rewrite !sum_app. lia. Qed.
Lemma meta_mid l mid r : meta (l ++ mid ++ r) = meta l + (meta mid - 32) + (meta r - 32).
Proof. unfold meta. rewrite !sum_app. lia. Qed.

(** The whole heap after a group of blocks was replaced. *)
Lemma group_replace S1 a l mid mid' r S2 s s' c lk cr :
  heap_rep (S1 ++ (a, l ++ mid ++ r) :: S2) s -> group (mem s) a l mid r c lk cr ->
  extent mid' = extent mid -> (r = [] -> last_ok mid') ->
  hdrs (mem s') c mid' (c + extent mid) -> lseg (mem s') (mem s' lk) (faddrs c mid') cr ->
  (forall x, x <> lk -> ~ (c <= x < c + extent mid) -> mem s' x = mem s x) ->
  m_lock s' = false ->
  counted s s' (used mid' - used mid) (unused mid' - unused mid) (meta mid' - meta mid) 0 ->
  heap_rep (S1 ++ (a, l ++ mid' ++ r) :: S2) s'.
Proof.
  intros Hrep G Hext Hlast Hh Hch Hm Hlk Hct.
  pose proof (secs_sec _ _ _ _ _ _ (hp_secs _ _ Hrep)) as Hsec.
  destruct G as [-> Hpos Hmod Hend Hex Hl Hmid Hr -> Hlkr Hc Hrest].
  assert (Htot : extent (l ++ mid ++ r) = extent l + extent mid + extent r)
    by (rewrite !extent_app; lia).
  pose proof (hdrs_extent _ _ _ _ Hl).
  eapply rep_replace; [exact Hrep| | | | |done|].
  - eapply sec_replace; [exact Hsec|done| |exact Hc|done|done|done].
    eapply last_ok_replace; [exact (sc_last _ _ _ Hsec)|done].
  - rewrite !extent_app. lia.
  - intros x Hx. rewrite Htot in Hx. apply Hm; lia.
  - apply Hm; lia.
  - rewrite !used_mid, !unused_mid, !meta_mid.
    destruct Hct as [? Eu Ef Em ? ?]. constructor; try done.
    + rewrite Eu. f_equal. lia.
    + rewrite Ef. f_equal. lia.
    + rewrite Em. f_equal. lia.
Qed.

(** The payloads of the blocks in use outside the group are out of its reach. *)
Lemma group_frame S1 a l mid r S2 s c lk cr q k x :
  heap_rep (S1 ++ (a, l ++ mid ++ r) :: S2) s -> group (mem s) a l mid r c lk cr ->
  (q, k) ∈ lives S1 ++ (blive (a + 32) l ++ blive (c + extent mid) r) ++ lives S2 ->
  q <= x < q + k -> x <> lk /\ ~ (c <= x < c + extent mid).
Proof.
  intros Hrep G Hin Hx.
  pose proof (hp_secs _ _ Hrep) as Hs. pose proof (hp_sep _ _ Hrep) as Hsep.
  destruct G as [-> Hpos Hmod Hend Hex Hl Hmid Hr -> Hlkr Hc Hrest].
  pose proof (hdrs_extent _ _ _ _ Hl).
  assert (Hother : (q, k) ∈ lives S1 ++ lives S2 ->
            x < a \/ a + 32 + extent (l ++ mid ++ r) <= x).
  { rewrite <- lives_app. intros (b & bb & Hb & Hq)%lives_in.
    pose proof (sep_others _ _ _ _ _ _ Hsep Hb) as Hse.
    assert (Hb' : (b, bb) ∈ S1 ++ (a, l ++ mid ++ r) :: S2) by set_solver.
    apply (blive_range _ _ _ _ _ _ (sc_hdrs _ _ _ (secs_elem _ _ _ _ _ Hs Hb'))) in Hq.
    unfold sep in Hse. cbn in Hse. lia. }
  rewrite !extent_app in Hother.
  apply elem_of_app in Hin as [Hin|Hin]; [specialize (Hother ltac:(set_solver)); lia|].
  apply elem_of_app in Hin as [Hin|Hin]; [|specialize (Hother ltac:(set_solver)); lia].
  apply elem_of_app in Hin as [Hin|Hin].
  - apply (blive_range _ _ _ _ _ _ Hl) in Hin as Hq. split; [|lia].
    destruct (link_cases (a + 16) (faddrs (a + 32) l)) as [[_ ->]|(y & Hy & ->)]; [lia|].
    pose proof (blive_free _ _ _ _ _ _ _ Hl Hin Hy). lia.
  - apply (blive_range _ _ _ _ _ _ Hr) in Hin. lia.
Qed.

(** Read a word through a series of writes. *)
Ltac look := repeat first [rewrite fn_lookup_insert | rewrite fn_lookup_insert_ne by lia].

(** Equal counters after several additions modulo 2^64. *)
Ltac counters :=
  rewrite ?wrap64_add, <- ?Z.add_assoc, ?wrap64_add, <- ?Z.add_assoc, ?wrap64_add;
  unfold used, unused, meta; cbn; f_equal; lia.

(** The block found by the search is cut and handed out. *)
Definition taken (n size : Z) : list blk :=
  if size + 32 <? n then [(size, false); (n - size - 16, true)] else [(n, false)].

Lemma take_block_runs S1 a l n r S2 s size :
  let c := a + 32 + extent l in
  heap_rep (S1 ++ (a, l ++ [(n, true)] ++ r) :: S2) s ->
  0 <= size <= n -> size mod 16 = 0 ->
  runs (take_block a (last_free 0 (faddrs (a + 32) l)) c size) (set_lock true s) (fun p s' =>
    p = c + 16 /\ heap_rep (S1 ++ (a, l ++ taken n size ++ r) :: S2) s' /\
    forall q k x, (q, k) ∈ lives (S1 ++ (a, l ++ [(n, true)] ++ r) :: S2) -> q <= x < q + k ->
      mem s' x = mem s x).
Proof.
  intros c Hrep Hsz Hszm. pose proof (secs_sec _ _ _ _ _ _ (hp_secs _ _ Hrep)) as Hsec.
  destruct (sec_group _ _ _ _ _ Hsec) as [cr G]. pose proof G as [_ Hpos Hmod Hend Hex Hl Hmid Hr _ Hlkr Hch Hrest].
  fold c in Hpos, Hmod, Hend, Hl, Hmid, Hr, Hlkr, Hch, Hrest. pose proof (sc_pos _ _ _ Hsec).
  set (lk := link (a + 16) (faddrs (a + 32) l)) in *.
  cbn in Hex, Hend, Hmid, Hch. destruct Hmid as (Hn & Hnm & Hhd & _), Hch as [Hlkv Hcr].
  assert (Hframe : forall s', (forall x, x <> lk -> ~ (c <= x < c + (16 + n + 0)) -> mem s' x = mem s x) ->
    forall q k x, (q, k) ∈ lives (S1 ++ (a, l ++ [(n, true)] ++ r) :: S2) -> q <= x < q + k ->
      mem s' x = mem s x).
  { intros s' Hm q k x Hin Hx. rewrite lives_app in Hin. cbn in Hin. rewrite !blive_app in Hin. cbn in Hin.
    destruct (group_frame _ _ _ _ _ _ _ _ _ _ q k x Hrep G) as [? ?]; [|done|by apply Hm].
    fold c in Hin. cbn. by rewrite Z.add_0_r, Z.add_assoc. }
  unfold take_block. mstep. eapply (size_of_runs c n true); [lia|lia|lia|done|].
  rewrite (add64_small size), (add64_small (size + 16)) by lia.
  unfold taken in *. mstep. replace (size + 16 + 16) with (size + 32) by lia.
  apply runs_when; intros Hcmp; rewrite Hcmp; zb.
  - rewrite (add64_small c), (add64_small (c + 16)), (sub64_small n), (sub64_small (n - size)) by lia.
    mstep. apply set_size_any; [lia..|]. intros g.
    mstep. eapply (set_free_runs (c + 16 + size)); [lia|lia| |cbn; by look|]; [lia|].
    mstep. mstep. apply next_of_runs; [lia..|]. cbn. look. apply set_next_runs; [lia..|].
    mstep. eapply (set_size_runs c n true); [lia|lia|lia|cbn; by look|lia|].
    mstep. apply set_next_runs; [lia..|]. apply runs_modify. cbn.
    mstep. eapply (set_free_runs c size true); [lia|lia|lia|cbn; by look|].
    mstep. mstep. apply next_of_runs; [lia..|]. cbn. look.
    apply (link_write_runs _ _ _ _ c); [|lia|lia|lia|].
    { eapply hdrs_agree; [exact Hl|]. intros x Hx _. cbn. look. done. }
    fold lk. mstep. apply set_next_runs; [lia..|]. cbn.
    mstep. mstep. eapply (size_of_runs c size false); [lia|lia|lia|cbn; by look|].
    apply runs_modify. unfold Unlock. mgo. split; [done|split].
    + apply (group_replace S1 a l [(n, true)] [(size, false); (n - size - 16, true)] r S2 s _ c lk cr);
        [exact Hrep|exact G|cbn; lia| | | | |done|]; cbn.
      * intros _. exists [(size, false)], (n - size - 16), true. split; [done|]. zlia.
      * look. split_and!; try done; try lia; try zlia.
      * look. done.
      * intros x Hx1 Hx2. look. done.
      * constructor; cbn; try done; counters.
    + apply Hframe. intros x Hx1 Hx2. cbn. look. done.
  - mstep. eapply (set_free_runs c n true); [lia|lia|lia|done|].
    mstep. mstep. apply next_of_runs; [lia..|]. cbn. look.
    apply (link_write_runs _ _ _ _ c); [|lia|lia|lia|].
    { eapply hdrs_agree; [exact Hl|]. intros x Hx _. cbn. look. done. }
    fold lk. mstep. apply set_next_runs; [lia..|]. cbn.
    mstep. mstep. eapply (size_of_runs c n false); [lia|lia|lia|cbn; by look|].
    apply runs_modify. unfold Unlock. mgo. split; [by rewrite add64_small by lia|split].
    + apply (group_replace S1 a l [(n, true)] [(n, false)] r S2 s _ c lk cr);
        [exact Hrep|exact G|cbn; lia| | | | |done|]; cbn.
      * intros ->. pose proof (sc_last _ _ _ Hsec) as (l' & n' & f' & E & Hn').
        exists [], n, false. split; [done|]. rewrite app_nil_r in E.
        apply app_inj_tail in E as [_ E]. by simplify_eq.
      * look. split_and!; try done; lia.
      * look. done.
      * intros x Hx1 Hx2. look. done.
      * constructor; cbn; try done; counters.
    + apply Hframe. intros x Hx1 Hx2. cbn. look. done.
Qed.

(** ** A new section *)

(** A region the section allocator may hand out: non-null, aligned, apart from
    the sections in use, and not so large that the counters overflow. *)
Record fresh (secs : list sect) (s : state) (a sz : Z) : Prop := {
  fr_pos : 0 < a;
  fr_align : a mod 16 = 0;
  fr_bound : a + sz < W64;
  fr_small : sz < 2 ^ 62;
  fr_total : m_TotalMemory s + sz < 2 ^ 63;
  fr_sep : forall b bl, (b, bl) ∈ secs -> a + sz <= b \/ b + 32 + extent bl <= a
}.

Lemma taken_extent n size : extent (taken n size) = 16 + n.
Proof. unfold taken. destruct (_ <? _); cbn; lia. Qed.

(** The heap with one more section in front. *)
Lemma rep_push secs s s' a sz bl :
  heap_rep secs s -> fresh secs s a sz -> sec_ok (mem s') a bl -> 32 + extent bl = sz ->
  (forall x, ~ (a <= x < a + sz) -> mem s' x = mem s x) ->
  mem s' (a + 8) = m_Head s -> m_Head s' = a -> m_lock s' = false ->
  m_UsedMemory s' = wrap64 (m_UsedMemory s + used bl) ->
  m_FreeMemory s' = wrap64 (m_FreeMemory s + unused bl) ->
  m_MetadataMemory s' = wrap64 (m_MetadataMemory s + meta bl) ->
  m_TotalMemory s' = wrap64 (m_TotalMemory s + sz) ->
  heap_rep ((a, bl) :: secs) s'.
Proof.
  intros [Hs Hsep Hu Hf Hm Ht Hb Hl] [Fp Fa Fb Fs Ft Fsep] Hsec Hext Hmem Hnx Hh Hlk Eu Ef Em Et.
  assert (Hs' : secs_ok (mem s') (m_Head s') ((a, bl) :: secs)).
  { cbn. split_and!; [done..|]. rewrite Hnx. eapply secs_ok_agree; [done|].
    intros b bb x Hin Hx. apply Hmem. destruct (Fsep _ _ Hin); lia. }
  pose proof (total_bounds _ _ _ Hs') as Hbd. pose proof (total_bounds _ _ _ Hs). cbn in Hbd.
  pose proof (hdrs_sums _ _ _ _ (sc_hdrs _ _ _ Hsec)).
  constructor; cbn; try done.
  - constructor; [|done]. apply Forall_forall. intros [b bb] Hin. unfold sep. cbn.
    destruct (Fsep _ _ Hin); lia.
  - rewrite Eu, wrap64_small; lia.
  - rewrite Ef, wrap64_small; lia.
  - rewrite Em, wrap64_small; lia.
  - rewrite Et, wrap64_small; lia.
  - rewrite Et, wrap64_small; lia.
Qed.

Lemma new_section_runs secs s a sz size :
  heap_rep secs s -> fresh secs s a sz -> sz mod 16 = 0 -> 0 <= size -> size mod 16 = 0 ->
  size + 48 <= sz -> 80 <= sz ->
  runs (new_section a sz size) (set_lock true s) (fun p s' =>
    p = a + 48 /\ heap_rep ((a, taken (sz - 48) size) :: secs) s' /\
    forall x, ~ (a <= x < a + sz) -> mem s' x = mem s x).
Proof.
  intros Hrep Hfr Hzm Hsz Hszm Hle Hbig. pose proof Hfr as [Fp Fa Fb Fs Ft Fsep].
  unfold new_section. mstep. apply runs_modify.
  mstep. apply hwr_runs; [lia..|]. rewrite Z.add_0_r.
  mstep. mstep. mstep. apply hwr_runs; [lia..|]. cbn [m_Head set_mem].
  rewrite (sub64_small sz), (add64_small a 32) by lia. cbn [mem set_mem].
  mstep. mstep. apply hrd_runs; [lia..|]. cbn [mem set_mem]. rewrite Z.add_0_r. look.
  rewrite (sub64_small (sz - 32)) by lia. replace (sz - 32 - 16) with (sz - 48) by lia.
  apply set_size_any; [lia..|]. intros g.
  mstep. eapply (set_free_runs (a + 32) (sz - 48)); [lia|lia|lia|cbn; by look|].
  mstep. apply set_next_runs; [lia..|]. cbn [mem set_mem].
  mstep. eapply (size_of_runs (a + 32) (sz - 48) false); [lia|lia|lia|cbn; by look|].
  rewrite (add64_small size), (add64_small (size + 16)) by lia.
  replace (size + 16 + 16) with (size + 32) by lia.
  unfold taken. destruct (Z.ltb_spec (size + 32) (sz - 48)) as [Hcmp|Hcmp].
  - rewrite (add64_small (a + 32)), (add64_small (a + 32 + 16)), (sub64_small (sz - 48)),
      (sub64_small (sz - 48 - size)) by lia.
    mstep. mstep. apply set_size_any; [lia..|]. intros g'.
    mstep. eapply (set_free_runs (a + 32 + 16 + size)); [lia|lia| |cbn; by look|]; [lia|].
    mstep. apply set_next_runs; [lia..|]. cbn [mem set_mem].
    mstep. eapply (set_size_runs (a + 32) (sz - 48) false); [lia|lia|lia|cbn; by look|lia|].
    mstep. apply hwr_runs; [lia..|]. cbn [mem set_mem].
    mstep. eapply (size_of_runs (a + 32 + 16 + size) (sz - 48 - size - 16) true);
      [lia|lia|lia|cbn; by look|].
    apply runs_modify. cbn. mstep. mstep.
    eapply (size_of_runs (a + 32) size false); [lia|lia|lia|cbn; by look|].
    apply runs_modify. unfold Unlock. mgo. rewrite ?(add64_small (a + 32)) by lia.
    split; [lia|split].
    + eapply (rep_push _ s _ _ sz); [done|done| |cbn; lia|..]; cbn;
        try done; try counters.
      * constructor; cbn; look; try done; try lia.
        -- split_and!; try done; try lia; try zlia. 
        -- exists [(size, false)], (sz - 48 - size - 16), true. split; [done|]. zlia.
      * intros x Hx. look. done.
      * look. done.
    + intros x Hx. cbn. look. done.
  - mstep. apply hwr_runs; [lia..|]. cbn [mem set_mem].
    mstep. mstep. eapply (size_of_runs (a + 32) (sz - 48) false); [lia|lia|lia|cbn; by look|].
    apply runs_modify. unfold Unlock. mgo. rewrite ?(add64_small (a + 32)) by lia.
    split; [lia|split].
    + eapply (rep_push _ s _ _ sz); [done|done| |cbn; lia|..]; cbn;
        try done; try counters.
      * constructor; cbn; look; try done; try lia.
        -- split_and!; try done; try lia; try zlia.
        -- exists [], (sz - 48), false. split; [done|]. lia.
      * intros x Hx. look. done.
      * look. done.
    + intros x Hx. cbn. look. done.
Qed.

(** ** [Allocate] *)

Definition section_size (size : Z) : Z :=
  ALIGN_UP (add64 48 (ALIGN_UP size 16)) HEAP_MIN_SECTION_SIZE.

Lemma section_size_bounds size : 0 <= size -> size + HEAP_MIN_SECTION_SIZE + 64 < W64 ->
  ALIGN_UP size 16 + 48 <= section_size size /\ 80 <= section_size size /\
  section_size size mod 16 = 0.
Proof.
  intros Hs Hsz. unfold section_size, HEAP_MIN_SECTION_SIZE in *.
  destruct (ALIGN_UP_bounds size 16) as [Hb Hm]; [lia..|].
  rewrite (add64_small 48) by lia.
  destruct (ALIGN_UP_bounds (48 + ALIGN_UP size 16) (32 * 4096)) as [Hb' Hm']; [lia..|].
  split_and!; [lia|zlia|zlia].
Qed.

Definition given (n size : Z) : Z := if size + 32 <? n then size else n.

Lemma given_le n size : size <= n -> size <= given n size.
Proof. unfold given. destruct (Z.ltb_spec (size + 32) n); lia. Qed.

Lemma taken_live c n size : blive c (taken n size) = [(c + 16, given n size)].
Proof. unfold taken, given. by destruct (_ <? _). Qed.

(** The contents of the blocks in use are kept. *)
Definition untouched (secs : list sect) (s s' : state) : Prop :=
  forall q k x, (q, k) ∈ lives secs -> q <= x < q + k -> mem s' x = mem s x.

Lemma live_in_section m h secs q k : secs_ok m h secs -> (q, k) ∈ lives secs ->
  exists a bl, (a, bl) ∈ secs /\ a + 48 <= q /\ q + k <= a + 32 + extent bl.
Proof.
  intros Hs (a & bl & Hin & Hq)%lives_in. exists a, bl.
  apply (blive_range _ _ _ _ _ _ (sc_hdrs _ _ _ (secs_elem _ _ _ _ _ Hs Hin))) in Hq.
  split; [done|]. lia.
Qed.

Lemma unlock_lock s : m_lock s = false -> set_lock false (set_lock true s) = s.
Proof. destruct s. cbn. by intros ->. Qed.

(** C37: [HeapAllocator::Allocate] either returns null, when no free block is
    large enough and the section allocator has no memory, or a 16-byte aligned
    block of at least the requested size that overlaps no block in use; the
    heap stays well formed (its sections tiled by blocks, the free list
    complete, the counters exact) and the contents of the blocks in use are
    untouched.  This is for sizes whose section size does not wrap, that is
    below 2^64 - 131136 (above that see [Allocate_wraps] and [Allocate_in_no_section]), and
    over a section allocator that returns null or memory of the size asked
    that no section uses ([fresh]). *)
Theorem heap_Allocate_spec secs s (sectionAllocate : Z -> Z) fuel fuelb size :
  let a := sectionAllocate (section_size size) in
  heap_rep secs s -> 0 <= size -> size + HEAP_MIN_SECTION_SIZE + 64 < W64 ->
  (length secs <= fuel)%nat ->
  (forall b bl, (b, bl) ∈ secs -> (length bl <= fuelb)%nat) ->
  a = 0 \/ fresh secs s a (section_size size) ->
  runs (Allocate sectionAllocate fuel fuelb size) s (fun p s' =>
    (p = 0 /\ s' = s /\ a = 0 /\ forall b bl, (b, bl) ∈ secs -> ~ fits (ALIGN_UP size 16) bl) \/
    exists secs' n, heap_rep secs' s' /\ p mod 16 = 0 /\ size <= n /\
      lives secs' ≡ₚ (p, n) :: lives secs /\ ForallOrdPairs clear_of (lives secs') /\
      untouched secs s s').
Proof.
  intros a Hrep Hsz Hsz' Hf Hfb Ha.
  destruct (ALIGN_UP_bounds size 16) as [Hb Hm]; [unfold HEAP_MIN_SECTION_SIZE in *; lia..|].
  destruct (section_size_bounds size Hsz Hsz') as (Hle & Hbig & Hmod).
  unfold Allocate. set (size' := ALIGN_UP size 16) in *. mstep. unfold Lock. mgo.
  rewrite (hp_lock _ _ Hrep). apply runs_modify. mgo.
  eapply runs_mono; [apply (find_section_runs size' fuelb (set_lock true s) secs);
                     [apply (hp_secs _ _ Hrep)|done|done]|].
  intros r s0 [-> Hr]. destruct r as [[[a0 pv] x]|].
  - destruct Hr as (S1 & l & n & r & S2 & -> & -> & Hn & ->).
    eapply runs_mono; [apply (take_block_runs S1 a0 l n r S2 s size' Hrep); [lia|done]|].
    intros p s' (-> & Hrep' & Hfr). right. eexists _, (given n size'). split; [exact Hrep'|].
    pose proof (secs_sec _ _ _ _ _ _ (hp_secs _ _ Hrep)) as Hsec.
    destruct (sec_group _ a0 l [(n, true)] r Hsec) as [cr G]. pose proof (gr_mod _ _ _ _ _ _ _ _ G).
    split_and!; [zlia|pose proof (given_le n size' Hn); lia| | |exact Hfr].
    + rewrite !lives_app. cbn. rewrite !blive_app, taken_live, taken_extent. cbn.
      replace (a0 + 32 + extent l + (16 + n)) with (a0 + 32 + extent l + 16 + n) by lia.
      rewrite <- !app_assoc. cbn. by rewrite <- !Permutation_middle.
    + eapply lives_clear; [apply (hp_secs _ _ Hrep')|apply (hp_sep _ _ Hrep')].
  - cbv zeta. change (ALIGN_UP (add64 (32 + 16) size') HEAP_MIN_SECTION_SIZE) with (section_size size).
    fold a. destruct (Z.eqb_spec a 0) as [E|E].
    { mstep. apply runs_modify. apply runs_ret. left. split_and!; [done|by apply unlock_lock, (hp_lock _ _ Hrep)|done|done]. }
    destruct Ha as [?|Hfr]; [done|].
    eapply runs_mono; [apply (new_section_runs secs s a (section_size size) size'); try done; lia|].
    intros p s' (-> & Hrep' & Hm'). right. eexists _, (given (section_size size - 48) size').
    split; [exact Hrep'|]. pose proof (fr_align _ _ _ _ Hfr).
    split_and!; [zlia|pose proof (given_le (section_size size - 48) size' ltac:(lia)); lia| | |].
    + cbn. rewrite taken_live. cbn. by replace (a + 32 + 16) with (a + 48) by lia.
    + eapply lives_clear; [apply (hp_secs _ _ Hrep')|apply (hp_sep _ _ Hrep')].
    + intros q k x Hin Hx. apply Hm'.
      destruct (live_in_section _ _ _ _ _ (hp_secs _ _ Hrep) Hin) as (b & bb & Hb' & ? & ?).
      destruct (fr_sep _ _ _ _ Hfr _ _ Hb'); lia.
Qed.

(** The fifteen largest sizes round up to 0: asking for any of them is asking
    for 0 bytes. *)
Lemma Allocate_wraps (sectionAllocate : Z -> Z) fuel fuelb size s :
  W64 - 16 < size < W64 ->
  Allocate sectionAllocate fuel fuelb size s = Allocate sectionAllocate fuel fuelb 0 s.
Proof.
  intros Hs. unfold Allocate.
  assert (ALIGN_UP size HEAP_MIN_BLOCK_SIZE = ALIGN_UP 0 HEAP_MIN_BLOCK_SIZE) as ->; [|done].
  unfold ALIGN_UP, DIV_ROUNDUP. f_equal.
  assert (add64 size (16 - 1) = size + 15 - W64) as ->.
  { unfold add64, wrap64. symmetry. apply Z.mod_unique with 1; unfold W64 in *; lia. }
  rewrite Z.div_small by lia. reflexivity.
Qed.

(** [kmalloc] of 2^64 - 1 bytes succeeds with a block of size 0. *)
Example Allocate_max_gives_nothing :
  match Allocate (fun _ => 65536) 4 4 (2 ^ 64 - 1) (init_state (fun _ => 0)) with
  | Ok (p, s') => (p, m_UsedMemory s')
  | Fail _ => (0, 0)
  end = (65536 + 48, 0).
Proof. vm_compute. reflexivity. Qed.

(** Below them the size of the section wraps: a section of 0 bytes is asked for, and whatever
    address comes back, a block of almost 2^63 bytes is made there. *)
Example Allocate_in_no_section : section_size (2 ^ 64 - 65536) = 0 /\
  match Allocate (fun n => if n =? 0 then 65536 else 0) 4 4 (2 ^ 64 - 65536) (init_state (fun _ => 0)) with
  | Ok (p, s') => (p, m_UsedMemory s', m_TotalMemory s')
  | Fail _ => (0, 0, 0)
  end = (65536 + 48, 2 ^ 63 - 48, 0).
Proof. vm_compute. done. Qed.

(** The first allocation of a heap opens a section. *)
Lemma heap_Allocate_spec_witness :
  let s := init_state (fun _ => 0) in let alloc := fun _ => 65536 in
  heap_rep [] s /\
  runs (Allocate alloc 4 4 100) s (fun p s' =>
    (p = 0 /\ s' = s /\ 65536 = 0 /\ forall b bl, (b, bl) ∈ ([] : list sect) -> ~ fits (ALIGN_UP 100 16) bl) \/
    exists secs' n, heap_rep secs' s' /\ p mod 16 = 0 /\ 100 <= n /\
      lives secs' ≡ₚ (p, n) :: lives [] /\ ForallOrdPairs clear_of (lives secs') /\
      untouched [] s s').
Proof.
  assert (heap_rep [] (init_state (fun _ => 0))) as Hrep.
  { constructor; cbn; try done. constructor. }
  split; [exact Hrep|].
  apply (heap_Allocate_spec [] _ (fun _ => 65536) 4 4 100 Hrep); [lia|reflexivity|cbn; lia| |].
  - intros b bl H. inversion H.
  - right. constructor; try (vm_compute; done). intros b bl H. inversion H.
Defined.

End HeapSpec.
