(* ===== verification/HeapFree.v ===== *)
(** * HeapFree.v: what freeing guarantees (HeapAllocator::Free) *)

From S2P Require Import Prelude Heap HeapSpec.
#[local] Open Scope Z_scope.
#[local] Open Scope kernel_scope.

Module HeapFree.
Import Heap HeapSpec.

#[local] Arguments used : simpl never.
#[local] Arguments unused : simpl never.
#[local] Arguments meta : simpl never.

(** ** The block and its section *)

Lemma blive_split b bl q k : (q, k) ∈ blive b bl ->
  exists l r, bl = l ++ (k, false) :: r /\ q = b + extent l + 16.
Proof.
  revert b. induction bl as [|[n f] bl IH]; intros b H; cbn in H; [by apply elem_of_nil in H|].
  apply elem_of_app in H as [H|H].
  - destruct f; [by apply elem_of_nil in H|]. apply list_elem_of_singleton in H. simplify_eq.
    exists [], bl. cbn. split; [done|lia].
  - destruct (IH _ H) as (l & r & -> & ->). exists ((n, f) :: l), r. cbn. split; [done|lia].
Qed.

Lemma lives_split secs q k : (q, k) ∈ lives secs ->
  exists S1 a l r S2, secs = S1 ++ (a, l ++ [(k, false)] ++ r) :: S2 /\ q = a + 32 + extent l + 16.
Proof.
  intros (a & bl & Hin & Hq)%lives_in. apply blive_split in Hq as (l & r & -> & ->).
  apply list_elem_of_split in Hin as (S1 & S2 & ->). by exists S1, a, l, r, S2.
Qed.

(** The last free block of a list, and the first one. *)
Lemma last_free_split d b l : faddrs b l <> [] -> exists l1 k l2,
  l = l1 ++ (k, true) :: l2 /\ faddrs (b + extent l1 + 16 + k) l2 = [] /\
  last_free d (faddrs b l) = b + extent l1.
Proof.
  revert d b. induction l as [|[n f] l IH]; intros d b Hne; [done|]. cbn [faddrs] in *.
  destruct (decide (faddrs (b + 16 + n) l = [])) as [E|E].
  - destruct f; [|by rewrite E in Hne]. exists [], n, l. cbn. rewrite E, Z.add_0_r. done.
  - destruct (IH (if f then b else d) _ E) as (l1 & k & l2 & -> & E2 & El).
    exists ((n, f) :: l1), k, l2. cbn [extent]. split; [done|].
    split; [by replace (b + (16 + n + extent l1)) with (b + 16 + n + extent l1) by lia|].
    destruct f; cbn [app]; rewrite ?last_free_cons, El; lia.
Qed.

Lemma first_free_split b l : faddrs b l <> [] -> exists l1 k l2,
  l = l1 ++ (k, true) :: l2 /\ faddrs b l1 = [] /\
  faddrs b l = (b + extent l1) :: faddrs (b + extent l1 + 16 + k) l2.
Proof.
  revert b. induction l as [|[n f] l IH]; intros b Hne; [done|]. cbn [faddrs] in *.
  destruct f; cbn [app] in *.
  - exists [], n, l. cbn. by rewrite Z.add_0_r.
  - destruct (IH _ Hne) as (l1 & k & l2 & -> & E1 & E2).
    exists ((n, false) :: l1), k, l2. cbn [extent faddrs app]. split_and!; [done|done|].
    rewrite E2. by replace (b + (16 + n + extent l1)) with (b + 16 + n + extent l1) by lia.
Qed.

Lemma hdrs_nil m b bl e : hdrs m b bl e -> extent bl <= 0 -> bl = [].
Proof.
  destruct bl as [|[n f] bl]; [done|]. cbn. intros (Hn & _ & _ & H) He.
  apply hdrs_extent in H. lia.
Qed.

(** ** Finding the section *)

Lemma owner_runs S1 a bl S2 s m h b fuel : secs_ok m h (S1 ++ (a, bl) :: S2) ->
  ForallOrdPairs sep (S1 ++ (a, bl) :: S2) ->
  (forall a' bl', (a', bl') ∈ S1 ++ (a, bl) :: S2 ->
     mem s a' = m a' /\ mem s (a' + 8) = m (a' + 8)) ->
  a + 32 <= b < a + extent bl -> (length (S1 ++ (a, bl) :: S2) <= fuel)%nat ->
  runs (owner fuel b h) s (fun r s' => s' = s /\ r = a).
Proof.
  revert h fuel. induction S1 as [|[a' bl'] S1 IH]; intros h fuel Hs Hsep Hm Hb Hf; cbn in Hs.
  - destruct Hs as (-> & Hs & _). destruct fuel as [|fuel]; [cbn in Hf; lia|].
    pose proof (sc_pos _ _ _ Hs). pose proof (sc_bound _ _ _ Hs).
    destruct (Hm a bl ltac:(set_solver)) as [E1 _].
    cbn [owner]. destruct (Z.eqb_spec a 0); [lia|]. mstep. apply hrd_runs; [lia..|].
    rewrite Z.add_0_r, E1, (sc_size _ _ _ Hs), !add64_small by lia.
    destruct (Z.leb_spec (a + 32) b), (Z.ltb_spec b (a + extent bl)); [|lia..].
    by apply runs_ret.
  - destruct Hs as (-> & Hs & Hr). destruct fuel as [|fuel]; [cbn in Hf; lia|].
    pose proof (sc_pos _ _ _ Hs). pose proof (sc_bound _ _ _ Hs). pose proof (sec_extent _ _ _ Hs).
    destruct (Hm a' bl' ltac:(set_solver)) as [E1 E2].
    assert (sep (a', bl') (a, bl)) as Hse.
    { inversion Hsep as [|? ? Hf' _]; subst. rewrite Forall_forall in Hf'. apply Hf'. set_solver. }
    pose proof (sec_extent _ _ _ (secs_sec _ _ _ _ _ _ Hr)).
    cbn [owner]. destruct (Z.eqb_spec a' 0); [lia|]. mstep. apply hrd_runs; [lia..|].
    rewrite Z.add_0_r, E1, (sc_size _ _ _ Hs), !add64_small by lia.
    destruct ((a' + 32 <=? b) && (b <? a' + extent bl')) eqn:E.
    { exfalso. apply andb_true_iff in E as [Ea Eb]. zb. unfold sep in Hse. cbn in Hse. lia. }
    mstep. apply hrd_runs; [lia..|]. rewrite E2.
    eapply IH; [exact Hr| | |done|cbn in Hf; lia].
    + by inversion Hsep.
    + intros ? ? Hin. eapply Hm. cbn. apply elem_of_cons. right. exact Hin.
Qed.

(** ** Finding the neighbours *)

Lemma find_place_runs s c fl : c < W64 -> Forall (fun x => c < x) fl ->
  forall l b0 prev cur fuel, hdrs (mem s) b0 l c -> 0 < b0 -> extent l < 2 ^ 62 ->
  (prev = 0 \/ exists k f, 0 < prev /\ prev + 16 + k <= b0 /\ 0 <= k < 2 ^ 62 /\ mem s prev = hdr k f) ->
  lseg (mem s) cur (faddrs b0 l ++ fl) 0 -> (length l < fuel)%nat ->
  runs (find_place fuel c prev cur) s (fun r s' =>
    s' = s /\ r = (last_free prev (faddrs b0 l), hd 0 fl)).
Proof.
  intros Hc Hfl. induction l as [|[n f] l IH]; intros b0 prev cur fuel Hh Hb Hx Hp Hl Hf; cbn in Hh.
  - destruct fuel as [|fuel]; [cbn in Hf; lia|]. subst b0. cbn in *. destruct fl as [|y fl].
    { cbn in Hl. subst cur. cbn. by apply runs_ret. }
    destruct Hl as [-> _]. inversion Hfl; subst.
    destruct (Z.eqb_spec y 0); [lia|]. destruct (Z.ltb_spec c y); [|lia].
    mstep. destruct Hp as [->|(k & g & Hp0 & Hpe & Hk & Hph)].
    + apply runs_ret. by apply runs_ret.
    + destruct (Z.eqb_spec prev 0); [lia|]. mstep.
      eapply size_of_runs; [lia|lia| |exact Hph|]; [lia|]. apply runs_ret.
      rewrite (add64_small prev), (add64_small (prev + 16)) by lia. destruct (Z.leb_spec (prev + 16 + k) c); [|lia].
      by apply runs_ret.
  - destruct Hh as (Hn & Hm & Hhd & Hh). pose proof (hdrs_extent _ _ _ _ Hh) as [He ?].
    cbn [faddrs] in *. cbn in Hx, Hf. destruct f; cbn [app] in *.
    + destruct Hl as [-> Hl]. destruct fuel as [|fuel]; [lia|]. cbn [find_place].
      destruct (Z.eqb_spec b0 0); [lia|]. destruct (Z.ltb_spec c b0); [lia|]. mstep. apply runs_ret.
      mstep. apply next_of_runs; [lia..|]. rewrite last_free_cons.
      eapply IH; [exact Hh|lia|lia| |exact Hl|lia].
      right. exists n, true. split_and!; [lia..|done].
    + eapply IH; [exact Hh|lia|lia| |exact Hl|lia].
      destruct Hp as [|(k & g & ? & ? & ? & ?)]; [by left|right]. exists k, g. split_and!; [lia..|done].
Qed.

(** ** Putting the block back *)

(** Read a word through a series of writes. *)
Ltac look := repeat first [rewrite fn_lookup_insert | rewrite fn_lookup_insert_ne by lia].

Lemma lseg_head m p fl : lseg m p fl 0 -> p = hd 0 fl.
Proof. destruct fl; cbn; [done|]. by intros [-> _]. Qed.

Definition all_free (bl : list blk) : Prop := Forall (fun x => x.2 = true) bl.

Lemma all_free_sums bl : all_free bl -> used bl = 0 /\ unused bl = extent bl - 16 * Z.of_nat (length bl) /\
  meta bl = 32 + 16 * Z.of_nat (length bl).
Proof.
  unfold used, unused, meta. induction 1 as [|[n f] bl Hf _ IH]; cbn in *; [lia|]. subst f. lia.
Qed.

Lemma all_free_live b bl : all_free bl -> blive b bl = [].
Proof. intros H. revert b. induction H as [|[n f] bl Hf _ IH]; intros b; cbn in *; [done|]. subst f. apply IH. Qed.

(** The memory after a block, with the free neighbours [L] and [R] it absorbs,
    has become one free block. *)
Record merged (s s' : state) (c0 lk cr N j n : Z) : Prop := {
  mg_hdr : mem s' c0 = hdr N true;
  mg_next : mem s' (c0 + 8) = cr;
  mg_link : mem s' lk = c0;
  mg_mem : forall x, x <> lk -> ~ (c0 <= x < c0 + 16 + N) -> mem s' x = mem s x;
  mg_count : counted s s' (- n) (n + 16 * j) (- (16 * j)) 0
}.

Lemma merged_rep S1 a l L n R r S2 s s' c0 lk cr N :
  heap_rep (S1 ++ (a, l ++ (L ++ [(n, false)] ++ R) ++ r) :: S2) s ->
  group (mem s) a l (L ++ [(n, false)] ++ R) r c0 lk cr -> all_free L -> all_free R ->
  16 + N = extent (L ++ [(n, false)] ++ R) ->
  merged s s' c0 lk cr N (Z.of_nat (length L + length R)) n ->
  heap_rep (S1 ++ (a, l ++ [(N, true)] ++ r) :: S2) (set_lock false s').
Proof.
  intros Hrep G HL HR HN [Hh Hnx Hlk Hm Hct].
  pose proof (all_free_sums _ HL) as (EL1 & EL2 & EL3).
  pose proof (all_free_sums _ HR) as (ER1 & ER2 & ER3).
  pose proof (gr_mid _ _ _ _ _ _ _ _ G) as Hmid. pose proof (gr_extents _ _ _ _ _ _ _ _ G).
  pose proof (hdrs_mod _ _ _ _ Hmid) as Hmod.
  pose proof (secs_sec _ _ _ _ _ _ (hp_secs _ _ Hrep)) as Hsec.
  assert (Hn : 0 <= n /\ 0 <= extent L /\ 0 <= extent R).
  { apply hdrs_app in Hmid as [HhL Hmid]. apply hdrs_extent in HhL.
    cbn in Hmid. destruct Hmid as (? & _ & _ & HhR). apply hdrs_extent in HhR. lia. }
  assert (HNe : N = n + extent L + extent R) by (rewrite !extent_app in HN; cbn in HN; lia).
  eapply (group_replace _ _ _ _ [(N, true)]); [exact Hrep|exact G|rewrite <- HN; cbn; lia| | | | |done|].
  - intros ->. exists [], N, true. split; [done|].
    destruct (sc_last _ _ _ Hsec) as (l0 & n0 & f0 & E & Hn0). rewrite app_nil_r in E.
    rewrite !app_assoc in E. destruct R as [|[cn g] R] using rev_ind.
    + rewrite app_nil_r in E. apply app_inj_tail in E as [_ E]. assert (n0 = n) as -> by congruence. lia.
    + rewrite app_assoc in E. apply app_inj_tail in E as [_ E].
      assert (n0 = cn) as -> by congruence. apply hdrs_app in Hmid as [_ Hmid]. cbn in Hmid. destruct Hmid as (_ & _ & _ & Hmid).
      apply hdrs_app in Hmid as [HhR _]. apply hdrs_extent in HhR.
      rewrite extent_app in HNe. cbn in HNe. destruct Hn as (? & ? & ?). lia.
  - rewrite <- HN in *. cbn. split_and!; [lia|zlia|done|lia].
  - cbn. by rewrite Hlk.
  - intros x Hx1 Hx2. cbn. apply Hm; [done|]. rewrite <- HN in Hx2. lia.
  - destruct Hct as [? Eu Ef Em Et Er]. constructor; cbn; try done.
    + rewrite Eu. f_equal. unfold used in *. rewrite !sum_app in *. cbn. lia.
    + rewrite Ef. f_equal. unfold unused in *. rewrite !sum_app. cbn. lia.
    + rewrite Em. f_equal. unfold meta in *. rewrite !sum_app. cbn. lia.
Qed.

Definition cnt (u f md t : Z) (s : state) : state :=
  mk (m_Head s) (m_lock s) (wrap64 (m_UsedMemory s + u)) (wrap64 (m_FreeMemory s + f))
     (wrap64 (m_MetadataMemory s + md)) (wrap64 (m_TotalMemory s + t)) (mem s) (released s).

Lemma count_runs u f md t s (Q : unit -> state -> Prop) : Q tt (cnt u f md t s) ->
  runs (count u f md t) s Q.
Proof. apply runs_modify. Qed.

(** A header at an address, with room for the sums the code computes. *)
Definition header_at (s : state) (b n : Z) (f : bool) : Prop :=
  0 < b /\ b + 16 < W64 /\ 0 <= n < 2 ^ 62 /\ b + 16 + n < W64 /\ mem s b = hdr n f.

Section Joins.
Context (s : state).

Lemma join_next_adj x xn f yn g (Q : unit -> state -> Prop) :
  header_at s x xn f -> header_at s (x + 16 + xn) yn g -> xn + 16 + yn < 2 ^ 62 ->
  Q tt (cnt 0 16 (- 16) 0 (set_mem (<[x + 8 := mem s (x + 16 + xn + 8)]>
         (<[x := hdr (xn + 16 + yn) f]> (mem s))) s)) ->
  runs (join_next x (x + 16 + xn)) s Q.
Proof.
  intros (Hx & Hw & Hn & Hb & Hh) (Hy & Hyw & Hyn & Hyb & Hyh) Hsum HQ. unfold join_next.
  mstep. eapply size_of_runs; [lia|lia| |exact Hh|]; [lia|].
  rewrite (add64_small x), (add64_small (x + 16)), Z.eqb_refl by lia.
  mstep. mstep. eapply size_of_runs; [lia|lia| |exact Hyh|]; [lia|].
  mstep. eapply size_of_runs; [lia|lia| |exact Hh|]; [lia|].
  rewrite (add64_small 16), (add64_small xn) by lia.
  eapply set_size_runs; [lia|lia| |exact Hh|lia|]; [lia|].
  mstep. mstep. apply next_of_runs; [lia..|]. cbn [mem set_mem]. look.
  apply set_next_runs; [lia..|]. apply count_runs. cbn [mem set_mem].
  replace (xn + (16 + yn)) with (xn + 16 + yn) by lia. exact HQ.
Qed.

Lemma join_next_far x xn f y (Q : unit -> state -> Prop) :
  header_at s x xn f -> y <> x + 16 + xn ->
  Q tt (set_mem (<[x + 8 := y]> (mem s)) s) -> runs (join_next x y) s Q.
Proof.
  intros (Hx & Hw & Hn & Hb & Hh) Hne HQ. unfold join_next.
  mstep. eapply size_of_runs; [lia|lia| |exact Hh|]; [lia|].
  rewrite (add64_small x), (add64_small (x + 16)) by lia.
  destruct (Z.eqb_spec (x + 16 + xn) y); [lia|]. apply set_next_runs; [lia..|done].
Qed.

Lemma join_previous_adj p pn f n g (Q : Z -> state -> Prop) :
  header_at s p pn f -> header_at s (p + 16 + pn) n g -> pn + 16 + n < 2 ^ 62 ->
  Q p (cnt 0 16 (- 16) 0 (set_mem (<[p := hdr (pn + 16 + n) f]> (mem s)) s)) ->
  runs (join_previous p (p + 16 + pn)) s Q.
Proof.
  intros (Hx & Hw & Hn & Hb & Hh) (Hy & Hyw & Hyn & Hyb & Hyh) Hsum HQ. unfold join_previous.
  mstep. eapply size_of_runs; [lia|lia| |exact Hh|]; [lia|].
  rewrite (add64_small p), (add64_small (p + 16)), Z.eqb_refl by lia.
  mstep. mstep. eapply size_of_runs; [lia|lia| |exact Hyh|]; [lia|].
  mstep. eapply size_of_runs; [lia|lia| |exact Hh|]; [lia|].
  rewrite (add64_small 16), (add64_small pn) by lia.
  eapply set_size_runs; [lia|lia| |exact Hh|lia|]; [lia|].
  mstep. apply count_runs. apply runs_ret.
  replace (pn + (16 + n)) with (pn + 16 + n) by lia. exact HQ.
Qed.

Lemma join_previous_far p pn f b n g (Q : Z -> state -> Prop) :
  header_at s p pn f -> header_at s b n g -> b <> p + 16 + pn -> b <> p + 8 ->
  Q b (set_mem (<[p + 8 := b]> (<[b := hdr n true]> (mem s))) s) ->
  runs (join_previous p b) s Q.
Proof.
  intros (Hx & Hw & Hn & Hb & Hh) (Hy & Hyw & Hyn & Hyb & Hyh) Hne Hne' HQ. unfold join_previous.
  mstep. eapply size_of_runs; [lia|lia| |exact Hh|]; [lia|].
  rewrite (add64_small p), (add64_small (p + 16)) by lia.
  destruct (Z.eqb_spec (p + 16 + pn) b); [lia|].
  mstep. eapply set_free_runs; [lia|lia| |exact Hyh|]; [lia|].
  mstep. apply set_next_runs; [lia..|]. by apply runs_ret.
Qed.
End Joins.

(** What [put_back] establishes: a well-formed heap (but for the lock) with the
    same blocks in use but this one. *)
Definition put_post (S1 : list sect) (a : Z) (l : list blk) (n : Z) (r : list blk) (S2 : list sect)
    (s s' : state) : Prop :=
  exists bl, heap_rep (S1 ++ (a, bl) :: S2) (set_lock false s') /\ extent bl = extent (l ++ [(n, false)] ++ r) /\
    (length bl <= length (l ++ [(n, false)] ++ r))%nat /\
    blive (a + 32) bl = blive (a + 32) l ++ blive (a + 32 + extent l + 16 + n) r /\
    released s' = released s /\ m_Head s' = m_Head s /\
    untouched (S1 ++ (a, bl) :: S2) s s'.

Lemma put_post_intro S1 a l L n R r S2 s s' c0 lk cr N :
  heap_rep (S1 ++ (a, (l ++ L) ++ [(n, false)] ++ (R ++ r)) :: S2) s ->
  group (mem s) a l (L ++ [(n, false)] ++ R) r c0 lk cr -> all_free L -> all_free R ->
  16 + N = extent (L ++ [(n, false)] ++ R) ->
  merged s s' c0 lk cr N (Z.of_nat (length L + length R)) n ->
  put_post S1 a (l ++ L) n (R ++ r) S2 s s'.
Proof.
  intros Hrep G HL HR HN Hmg.
  assert (Hrep0 : heap_rep (S1 ++ (a, l ++ (L ++ [(n, false)] ++ R) ++ r) :: S2) s)
    by (by rewrite <- !app_assoc in * ).
  exists (l ++ [(N, true)] ++ r).
  assert (Hlive : blive (a + 32) (l ++ [(N, true)] ++ r) =
            blive (a + 32) l ++ blive (c0 + extent (L ++ [(n, false)] ++ R)) r).
  { rewrite blive_app, <- HN, (gr_c _ _ _ _ _ _ _ _ G). cbn [app blive]. do 2 f_equal. lia. }
  split_and!.
  - by eapply merged_rep.
  - rewrite !extent_app in *. cbn in *. lia.
  - rewrite !length_app. cbn. lia.
  - rewrite Hlive, !blive_app, !(all_free_live _ _ HL), !(all_free_live _ _ HR), app_nil_r. cbn.
    f_equal. f_equal. rewrite (gr_c _ _ _ _ _ _ _ _ G), !extent_app. cbn. lia.
  - apply (ct_released _ _ _ _ _ _ (mg_count _ _ _ _ _ _ _ _ Hmg)).
  - apply (ct_head _ _ _ _ _ _ (mg_count _ _ _ _ _ _ _ _ Hmg)).
  - intros q k x Hin Hx. rewrite lives_app in Hin. cbn [lives] in Hin. rewrite Hlive in Hin.
    destruct (group_frame _ _ _ _ _ _ _ _ _ _ q k x Hrep0 G Hin Hx) as [H1 H2].
    apply (mg_mem _ _ _ _ _ _ _ _ Hmg); [done|]. rewrite <- HN in H2. lia.
Qed.

(** The group a block forms with free neighbours, seen from the code. *)
Lemma free_group S1 a l L n R r S2 s :
  heap_rep (S1 ++ (a, (l ++ L) ++ [(n, false)] ++ (R ++ r)) :: S2) s ->
  exists cr, 0 < a /\ group (mem s) a l (L ++ [(n, false)] ++ R) r
    (a + 32 + extent l) (link (a + 16) (faddrs (a + 32) l)) cr.
Proof.
  intros Hrep. pose proof (secs_sec _ _ _ _ _ _ (hp_secs _ _ Hrep)) as Hsec.
  rewrite <- !app_assoc in Hsec. rewrite (app_assoc L), (app_assoc (L ++ _)) in Hsec.
  rewrite <- (app_assoc L) in Hsec.
  destruct (sec_group _ _ _ _ _ Hsec) as [cr G]. exists cr. split; [|done].
  apply (sc_pos _ _ _ Hsec).
Qed.

(** *** The four ways through [put_back] *)

Section PutBack.
Context (S1 S2 : list sect) (a n : Z) (s : state).

(** The state in which the block at [c] has been marked free. *)
Definition marked (c : Z) : state := set_mem (<[c := hdr n true]> (mem s)) (set_lock true s).

(** The words of a group: everything the leaves of the proof need. *)
Lemma group_facts l L R r c0 lk cr : group (mem s) a l (L ++ [(n, false)] ++ R) r c0 lk cr ->
  let c := c0 + extent L in
  0 <= n /\ mem s c = hdr n false /\ 0 <= extent L /\ 0 <= extent R /\ 0 <= extent r /\
  hdrs (mem s) c0 L c /\ hdrs (mem s) (c + 16 + n) R (c + 16 + n + extent R) /\
  c + 16 + n + extent R + extent r < W64 /\
  extent L + 16 + n + extent R + extent r < 2 ^ 62 /\ extent L mod 16 = 0 /\ n mod 16 = 0.
Proof.
  intros G c. pose proof (gr_mid _ _ _ _ _ _ _ _ G) as Hm. pose proof (gr_end _ _ _ _ _ _ _ _ G).
  pose proof (gr_extents _ _ _ _ _ _ _ _ G) as (? & ? & ?).
  rewrite !extent_app in *. apply hdrs_app in Hm as [HL Hm]. fold c in HL, Hm.
  cbn in Hm. destruct Hm as (Hn & Hnm & Hh & HR). cbn [extent] in *.
  pose proof (hdrs_extent _ _ _ _ HL) as [_ ?]. pose proof (hdrs_extent _ _ _ _ HR) as [HRe ?].
  pose proof (hdrs_mod _ _ _ _ HL).
  split_and!; try done; try lia. by rewrite <- HRe.
Qed.

Ltac facts G :=
  pose proof (group_facts _ _ _ _ _ _ _ G) as (? & ? & ? & ? & ? & ? & ? & ? & ? & ? & ?);
  pose proof (gr_pos _ _ _ _ _ _ _ _ G); pose proof (gr_mod _ _ _ _ _ _ _ _ G);
  pose proof (gr_lk_range _ _ _ _ _ _ _ _ G);
  pose proof (gr_chain _ _ _ _ _ _ _ _ G) as Hchain;
  pose proof (lseg_head _ _ _ (gr_rest _ _ _ _ _ _ _ _ G)) as Hcr.

(** Close a leaf: read the final memory and add up the counters. *)
Ltac leaf Hrep G l L R r N :=
  eapply (put_post_intro _ _ l L n R r _ _ _ _ _ _ N Hrep G);
  [repeat constructor|repeat constructor|cbn; lia|];
  constructor; cbn;
  [look; try done|look; try congruence|look; try congruence
  |intros x Hx1 Hx2; look; done|constructor; cbn; try done; counters].

Lemma put_back_only l r c : c = a + 32 + extent l ->
  heap_rep (S1 ++ (a, l ++ [(n, false)] ++ r) :: S2) s ->
  faddrs (a + 32) l = [] -> faddrs (c + 16 + n) r = [] ->
  runs (put_back a c 0 0) (marked c) (fun _ s' => put_post S1 a l n r S2 s s').
Proof.
  intros Hc Hrep El Er.
  assert (Hrep0 : heap_rep (S1 ++ (a, (l ++ []) ++ [(n, false)] ++ ([] ++ r)) :: S2) s)
    by by rewrite app_nil_r.
  destruct (free_group _ _ _ _ _ _ _ _ _ Hrep0) as (cr & Ha & G). rewrite El, <- Hc in G. facts G.
  cbn in *. rewrite ?Z.add_0_r in *.
  replace (c + (16 + n)) with (c + 16 + n) in Hcr by lia. rewrite Er in Hcr. cbn in Hcr. subst cr.
  unfold put_back, marked. cbn [negb Z.eqb]. mstep. apply set_next_runs; [lia..|].
  mstep. apply hwr_runs; [lia..|]. cbn [mem set_mem]. mstep.
  eapply (size_of_runs c n true); [lia|lia|lia|cbn; by look|]. apply count_runs.
  rewrite <- (app_nil_r l). change r with ([] ++ r).
  leaf Hrep0 G l (@nil blk) (@nil blk) r n.
Qed.

Lemma put_back_first l r c : c = a + 32 + extent l ->
  heap_rep (S1 ++ (a, l ++ [(n, false)] ++ r) :: S2) s ->
  faddrs (a + 32) l = [] -> faddrs (c + 16 + n) r <> [] ->
  runs (put_back a c 0 (hd 0 (faddrs (c + 16 + n) r))) (marked c)
    (fun _ s' => put_post S1 a l n r S2 s s').
Proof.
  intros Hc Hrep El Er.
  destruct (first_free_split _ _ Er) as (r1 & cn & r2 & -> & Er1 & Ehd). rewrite Ehd. cbn [hd].
  destruct r1 as [|x r1].
  - (* the next block is free *)
    assert (Hrep0 : heap_rep (S1 ++ (a, (l ++ []) ++ [(n, false)] ++ ([(cn, true)] ++ r2)) :: S2) s)
      by by rewrite app_nil_r.
    destruct (free_group _ _ _ _ _ _ _ _ _ Hrep0) as (cr & Ha & G). rewrite El, <- Hc in G. facts G.
    cbn in Hchain.
    destruct Hchain as [Hlk Hnx]. rewrite !Z.add_0_r in *. cbn [extent] in *. rewrite !Z.add_0_r in *.
    match goal with H : hdrs _ _ [(cn, true)] _ |- _ => destruct H as (Hcn & _ & Hch & _) end.
    unfold put_back, marked. destruct (Z.eqb_spec (c + 16 + n) 0); [lia|]. cbn [negb Z.eqb].
    mstep. eapply (size_of_runs c n true); [lia|lia|lia|cbn; by look|].
    mstep. eapply (join_next_adj _ c n true cn true);
      [split_and!; try lia; cbn; look; done|split_and!; try lia; cbn; look; done|lia|].
    cbn [mem set_mem]. look. mstep. apply count_runs. mstep.
    eapply (set_free_runs c (n + 16 + cn) true); [lia|lia|lia|cbn; by look|].
    apply hwr_runs; [lia..|]. cbn [mem set_mem].
    rewrite <- (app_nil_r l). change ([] ++ (cn, true) :: r2) with ([(cn, true)] ++ r2).
    leaf Hrep0 G l (@nil blk) [(cn, true)] r2 (n + 16 + cn).
  - (* it is in use *)
    assert (Hrep0 : heap_rep (S1 ++ (a, (l ++ []) ++ [(n, false)] ++ ([] ++ ((x :: r1) ++ (cn, true) :: r2))) :: S2) s)
      by by rewrite app_nil_r.
    destruct (free_group _ _ _ _ _ _ _ _ _ Hrep0) as (cr & Ha & G). rewrite El, <- Hc in G. facts G.
    pose proof (gr_right _ _ _ _ _ _ _ _ G) as Hr. cbn [app extent] in Hr.
    replace (c + (16 + n + 0)) with (c + 16 + n) in Hr by lia.
    change (x :: r1 ++ (cn, true) :: r2) with ((x :: r1) ++ (cn, true) :: r2) in Hr.
    apply hdrs_app in Hr as [Hr1 _]. destruct x as [xn xf]. pose proof Hr1 as (? & _ & _ & Hr1').
    pose proof (hdrs_extent _ _ _ _ Hr1') as [_ ?].
    assert (Hcur : cr = c + 16 + n + extent ((xn, xf) :: r1)).
    { cbn [app extent] in Hcr. replace (c + (16 + n + 0)) with (c + 16 + n) in Hcr by lia.
      rewrite Hcr. exact (f_equal (hd 0) Ehd). }
    cbn in Hchain. cbn [extent] in *. rewrite !Z.add_0_r in *.
    unfold put_back, marked. destruct (Z.eqb_spec (c + 16 + n + (16 + xn + extent r1)) 0); [lia|].
    cbn [negb Z.eqb].
    mstep. eapply (size_of_runs c n true); [lia|lia|lia|cbn; by look|].
    mstep. eapply (join_next_far _ c n true); [split_and!; try lia; cbn; look; done|lia|].
    cbn [mem set_mem]. mstep. apply count_runs. mstep.
    eapply (set_free_runs c n true); [lia|lia|lia|cbn; by look|].
    apply hwr_runs; [lia..|]. cbn [mem set_mem].
    rewrite <- (app_nil_r l). change (((xn, xf) :: r1) ++ (cn, true) :: r2) with ([] ++ (((xn, xf) :: r1) ++ (cn, true) :: r2)).
    leaf Hrep0 G l (@nil blk) (@nil blk) (((xn, xf) :: r1) ++ (cn, true) :: r2) n.
Qed.

(** What the code does on the right of the block at [b] that it has put in its
    place: absorb the next block when it is free, link the next free block, or
    end the list. *)
Lemma right_runs s' b N r e (Q : unit -> state -> Prop) cur :
  header_at s' b N true -> hdrs (mem s') (b + 16 + N) r e -> e < W64 -> N + extent r < 2 ^ 62 ->
  cur = hd 0 (faddrs (b + 16 + N) r) ->
  (forall cn r2, r = [(cn, true)] ++ r2 ->
     Q tt (cnt 0 16 (- 16) 0 (set_mem (<[b + 8 := mem s' (b + 16 + N + 8)]>
             (<[b := hdr (N + 16 + cn) true]> (mem s'))) s'))) ->
  Q tt (set_mem (<[b + 8 := cur]> (mem s')) s') ->
  runs (if negb (cur =? 0) then join_next b cur else set_next b 0) s' Q.
Proof.
  intros Hb Hr He Hsz Hcur Hadj Hfar. pose proof Hb as (? & ? & ? & ? & ?).
  destruct r as [|[cn [|]] r2].
  - cbn in Hcur. subst cur. by apply set_next_runs; [lia..|].
  - cbn in Hcur, Hr. destruct Hr as (? & _ & Hh & Hr). apply hdrs_extent in Hr. cbn in Hsz.
    subst cur. destruct (Z.eqb_spec (b + 16 + N) 0); [lia|].
    eapply (join_next_adj _ b N true cn true); [done|split_and!; try lia; done|lia|].
    by eapply Hadj.
  - destruct (Z.eqb_spec cur 0) as [->|Hne]; [apply set_next_runs; [lia..|done]|].
    eapply (join_next_far _ b N true); [done| |done].
    cbn in Hcur, Hr. destruct Hr as (? & _ & _ & Hr).
    destruct (faddrs (b + 16 + N + 16 + cn) r2) as [|y ys] eqn:E; [done|].
    cbn in Hcur. subst y. assert (cur ∈ faddrs (b + 16 + N + 16 + cn) r2) as Hin by (rewrite E; left).
    apply (faddrs_range _ _ _ _ _ Hr) in Hin. lia.
Qed.

Lemma put_back_after l r c prev cur (Q : unit -> state -> Prop) : prev <> 0 ->
  runs (join_previous prev c) (marked c) (fun b s1 =>
    runs (if negb (cur =? 0) then join_next b cur else set_next b 0) s1 (fun _ s2 =>
      Q tt (cnt (- n) n 0 0 s2))) ->
  c = a + 32 + extent l -> heap_rep (S1 ++ (a, l ++ [(n, false)] ++ r) :: S2) s ->
  runs (put_back a c prev cur) (marked c) Q.
Proof.
  intros Hp H Hc Hrep. unfold put_back.
  pose proof (secs_sec _ _ _ _ _ _ (hp_secs _ _ Hrep)) as Hsec.
  destruct (sec_group _ _ _ _ _ Hsec) as (cr & G). rewrite <- Hc in G.
  pose proof (sc_pos _ _ _ Hsec). pose proof (gr_pos _ _ _ _ _ _ _ _ G).
  pose proof (gr_end _ _ _ _ _ _ _ _ G). pose proof (gr_extents _ _ _ _ _ _ _ _ G).
  pose proof (gr_mid _ _ _ _ _ _ _ _ G) as (? & _). cbn [extent app] in *.
  destruct (Z.eqb_spec prev 0) as [|_]; [done|].
  destruct (cur =? 0); cbn [negb] in *; mstep;
    (eapply (size_of_runs c n true); [lia|lia|lia|cbn; by look|]); mstep;
    (eapply runs_mono; [exact H|]); intros b s1 Hs1; mstep;
    (eapply runs_mono; [exact Hs1|]); intros [] s2 Hs2; by apply count_runs.
Qed.

(** The block in front of it is free. *)
Lemma put_back_prev_adj l pn r c : c = a + 32 + extent (l ++ [(pn, true)]) ->
  heap_rep (S1 ++ (a, (l ++ [(pn, true)]) ++ [(n, false)] ++ r) :: S2) s ->
  runs (put_back a c (a + 32 + extent l) (hd 0 (faddrs (c + 16 + n) r))) (marked c)
    (fun _ s' => put_post S1 a (l ++ [(pn, true)]) n r S2 s s').
Proof.
  intros Hc Hrep. set (p := a + 32 + extent l).
  assert (Hcp : c = p + 16 + pn) by (rewrite Hc, extent_app; cbn; lia).
  pose proof (free_group _ _ _ [(pn, true)] _ [] r _ _ Hrep) as (cr & Ha & G). fold p in G. facts G.
  cbn in Hchain. destruct Hchain as [Hlk Hnx]. cbn [extent] in *.
  match goal with H : hdrs _ _ [(pn, true)] _ |- _ => destruct H as (Hpn & Hpm & Hph & _) end.
  pose proof (gr_right _ _ _ _ _ _ _ _ G) as Hr.
  cbn [app extent] in Hr, Hcr. replace (p + (16 + pn + (16 + n + 0))) with (c + 16 + n) in Hr, Hcr by lia.
  replace (p + (16 + pn + 0)) with c in * by lia.
  eapply put_back_after; [lia| |done|exact Hrep]. rewrite Hcp. unfold marked.
  eapply (join_previous_adj _ p pn true n true);
    [split_and!; try lia; cbn; look; done|split_and!; try lia; cbn; look; done|lia|].
  rewrite <- Hcp. eapply (right_runs _ p (pn + 16 + n)).
  - split_and!; try lia. cbn. by look.
  - replace (p + 16 + (pn + 16 + n)) with (c + 16 + n) by lia. eapply hdrs_agree; [exact Hr|].
    intros x Hx _. cbn. by look.
  - lia.
  - lia.
  - by replace (p + 16 + (pn + 16 + n)) with (c + 16 + n) by lia.
  - intros cn r2 ->. clear G Hlk Hnx Hcr.
    pose proof (free_group _ _ _ [(pn, true)] _ [(cn, true)] r2 _ _ Hrep) as (cr2 & _ & G).
    fold p in G. pose proof (gr_chain _ _ _ _ _ _ _ _ G) as (Hlk & Hnx & Hnx2).
    replace (p + 16 + pn + 16 + n) with (c + 16 + n) in * by lia.
    replace (p + 16 + (pn + 16 + n)) with (c + 16 + n) by lia. cbn [mem set_mem cnt]. look.
    cbn in Hr. destruct Hr as (? & _ & _ & Hr). apply hdrs_extent in Hr.
    leaf Hrep G l [(pn, true)] [(cn, true)] r2 (pn + 16 + n + 16 + cn).
  - leaf Hrep G l [(pn, true)] (@nil blk) r (pn + 16 + n).
Qed.

(** The last free block in front of it lies further away. *)
Lemma put_back_prev_far l r c p pn : c = a + 32 + extent l ->
  heap_rep (S1 ++ (a, l ++ [(n, false)] ++ r) :: S2) s ->
  link (a + 16) (faddrs (a + 32) l) = p + 8 -> mem s p = hdr pn true -> 0 <= pn ->
  a + 32 <= p -> p mod 16 = a mod 16 -> p + 16 + pn < c ->
  runs (put_back a c p (hd 0 (faddrs (c + 16 + n) r))) (marked c)
    (fun _ s' => put_post S1 a l n r S2 s s').
Proof.
  intros Hc Hrep Hlk Hp Hpn Hap Hpm Hpc.
  assert (Hrep0 : heap_rep (S1 ++ (a, (l ++ []) ++ [(n, false)] ++ ([] ++ r)) :: S2) s)
    by by rewrite app_nil_r.
  destruct (free_group _ _ _ _ _ _ _ _ _ Hrep0) as (cr & Ha & G). rewrite Hlk, <- Hc in G. facts G.
  assert (extent l < 2 ^ 62).
  { pose proof (sc_small _ _ _ (secs_sec _ _ _ _ _ _ (hp_secs _ _ Hrep))) as Hsm.
    rewrite extent_app in Hsm. cbn in Hsm. lia. }
  pose proof (gr_right _ _ _ _ _ _ _ _ G) as Hr. cbn [app extent] in *. rewrite !Z.add_0_r in *.
  replace (c + (16 + n)) with (c + 16 + n) in * by lia.
  eapply (put_back_after l r); [lia| |done|done]. unfold marked.
  eapply (join_previous_far _ p pn true c n true);
    [split_and!; try lia; cbn; look; done|split_and!; try lia; cbn; look; done|lia|lia|].
  eapply (right_runs _ c n).
  - split_and!; try lia. cbn. by look.
  - eapply hdrs_agree; [exact Hr|]. intros x Hx _. cbn. by look.
  - lia.
  - lia.
  - done.
  - intros cn r2 ->. clear G Hchain Hcr.
    assert (Hrep1 : heap_rep (S1 ++ (a, (l ++ []) ++ [(n, false)] ++ ([(cn, true)] ++ r2)) :: S2) s)
      by by rewrite app_nil_r.
    destruct (free_group _ _ _ _ _ _ _ _ _ Hrep1) as (cr2 & _ & G). rewrite Hlk, <- Hc in G.
    pose proof (gr_chain _ _ _ _ _ _ _ _ G) as (_ & Hnx). cbn [mem set_mem cnt]. look.
    cbn in Hr. destruct Hr as (? & _ & _ & Hr). apply hdrs_extent in Hr. rewrite <- (app_nil_r l).
    leaf Hrep1 G l (@nil blk) [(cn, true)] r2 (n + 16 + cn).
  - rewrite <- (app_nil_r l). change r with ([] ++ r) at 2.
    leaf Hrep0 G l (@nil blk) (@nil blk) r n.
Qed.

(** Wherever the block lies, it is put back. *)
Lemma put_back_runs l r c : c = a + 32 + extent l ->
  heap_rep (S1 ++ (a, l ++ [(n, false)] ++ r) :: S2) s ->
  runs (put_back a c (last_free 0 (faddrs (a + 32) l)) (hd 0 (faddrs (c + 16 + n) r))) (marked c)
    (fun _ s' => put_post S1 a l n r S2 s s').
Proof.
  intros Hc Hrep. destruct (decide (faddrs (a + 32) l = [])) as [El|El].
  - rewrite El. cbn [last_free List.last]. destruct (decide (faddrs (c + 16 + n) r = [])) as [Er|Er].
    + rewrite Er. by apply put_back_only.
    + by apply put_back_first.
  - pose proof (link_last (a + 16) 0 _ El) as Hlk.
    destruct (last_free_split 0 _ _ El) as (l1 & pn & l2 & -> & E2 & Ep). rewrite Ep in *.
    destruct l2 as [|[k f] l2]; [by apply put_back_prev_adj|].
    pose proof (secs_sec _ _ _ _ _ _ (hp_secs _ _ Hrep)) as Hsec.
    pose proof (sc_hdrs _ _ _ Hsec) as Hh. rewrite <- app_assoc in Hh.
    apply hdrs_app in Hh as [Hh1 Hh]. destruct Hh as (? & ? & Hp & Hh).
    apply hdrs_app in Hh as [(? & ? & _ & Hh2) _]. pose proof (hdrs_mod _ _ _ _ Hh1).
    apply hdrs_extent in Hh1, Hh2. rewrite extent_app in Hc. cbn in Hc.
    eapply (put_back_prev_far _ _ _ _ pn); [|done|done|done|done|lia|zlia|lia].
    rewrite extent_app. cbn. lia.
Qed.

End PutBack.

(** ** Giving sections back *)

(** A section that is one free block. *)
Definition empty_sec (x : sect) : bool :=
  match x.2 with [(_, true)] => true | _ => false end.

Lemma lives_cons a bl secs : lives ((a, bl) :: secs) = blive (a + 32) bl ++ lives secs.
Proof. done. Qed.

(** The test of the loop: the free list of the section has one element, of the
    section's size. *)
Lemma section_empty_runs a bl s (Q : bool -> state -> Prop) : sec_ok (mem s) a bl ->
  Q (empty_sec (a, bl)) s ->
  runs (section_empty a) s Q.
Proof.
  intros Hs HQ. pose proof (sc_pos _ _ _ Hs). pose proof (sc_bound _ _ _ Hs).
  pose proof (sc_small _ _ _ Hs). pose proof (sc_hdrs _ _ _ Hs) as Hh. pose proof (sec_extent _ _ _ Hs).
  unfold section_empty. mstep. apply hrd_runs; [lia..|].
  pose proof (sc_chain _ _ _ Hs) as Hc.
  destruct (decide (faddrs (a + 32) bl = [])) as [E|E].
  - rewrite E in Hc. cbn in Hc. rewrite Hc. cbn. apply runs_ret.
    replace false with (empty_sec (a, bl)); [done|].
    destruct bl as [|[n [|]] [|]]; done.
  - destruct (first_free_split _ _ E) as (l1 & n & l2 & -> & E1 & E2). rewrite E2 in Hc.
    destruct Hc as [-> Hc]. apply hdrs_app in Hh as [Hh1 (? & _ & Hn & Hh2)].
    pose proof (hdrs_extent _ _ _ _ Hh1) as [_ ?]. pose proof (hdrs_extent _ _ _ _ Hh2) as [_ ?].
    rewrite extent_app in *. cbn in H1, H0.
    destruct (Z.eqb_spec (a + 32 + extent l1) 0); [lia|]. mstep. apply next_of_runs; [lia..|].
    assert (Hne : l1 <> [] \/ l2 <> [] -> empty_sec (a, l1 ++ (n, true) :: l2) = false).
    { destruct l1 as [|[? []] []], l2; cbn; intros []; done. }
    destruct (Z.eqb_spec (mem s (a + 32 + extent l1 + 8)) 0) as [E0|E0]; cbn [negb].
    + mstep. eapply (size_of_runs _ n true); [lia|lia|lia|done|].
      mstep. apply hrd_runs; [lia..|]. mstep.
      rewrite Z.add_0_r, (sc_size _ _ _ Hs), extent_app, add64_small by lia. cbn [extent].
      destruct (Z.eqb_spec (n + 16) (extent l1 + (16 + n + extent l2))) as [Ee|Ee].
      * rewrite (hdrs_nil _ _ _ _ Hh1), (hdrs_nil _ _ _ _ Hh2) in HQ by lia. done.
      * rewrite Hne in HQ; [done|]. destruct l1; [|by left]. right. intros ->. cbn in Ee. lia.
    + apply runs_ret. rewrite Hne in HQ; [done|]. right. intros ->. done.
Qed.
(** The state after the section behind [P] has been unlinked. *)
Definition unlinked (P : list sect) (nx : Z) (s : state) : state :=
  match last P with
  | None => set_Head nx s
  | Some (p, _) => set_mem (<[p + 8 := nx]> (mem s)) s
  end.

Lemma secs_unlink P a bl R s : secs_ok (mem s) (m_Head s) (P ++ (a, bl) :: R) ->
  ForallOrdPairs sep (P ++ (a, bl) :: R) ->
  let s' := unlinked P (mem s (a + 8)) s in secs_ok (mem s') (m_Head s') (P ++ R).
Proof.
  intros Hs Hsep. destruct P as [|[p pb] P _] using rev_ind.
  - cbn in *. tauto.
  - unfold unlinked. rewrite last_snoc. cbn. rewrite <- !app_assoc in *. cbn in *.
    apply secs_split in Hs as [HP (Hp & Hpb & _ & Ha & HR)].
    pose proof (sc_pos _ _ _ Hpb). pose proof (sec_extent _ _ _ Hpb).
    assert (Hout : forall b bb x, (b, bb) ∈ P ++ R -> b <= x < b + 32 + extent bb ->
              <[p + 8 := mem s (a + 8)]> (mem s) x = mem s x).
    { intros b bb x Hin Hx. pose proof (sep_others _ _ _ _ b bb Hsep ltac:(set_solver)) as [E|E]; cbn in E;
        by rewrite fn_lookup_insert_ne by lia. }
    apply secs_split. destruct (secs_part_agree _ (<[p + 8 := mem s (a + 8)]> (mem s)) _ _ HP) as [HP' Hr].
    { intros b bb x Hin. apply (Hout b bb). set_solver. }
    split; [done|]. rewrite Hr. cbn. split_and!; [done| |].
    + eapply sec_agree; [exact Hpb|]. intros x Hx Hne. by rewrite fn_lookup_insert_ne by lia.
    + rewrite fn_lookup_insert. eapply secs_ok_agree; [exact HR|]. intros b bb x Hin.
      apply (Hout b bb). set_solver.
Qed.

Lemma sep_drop P x R : ForallOrdPairs sep (P ++ x :: R) -> ForallOrdPairs sep (P ++ R).
Proof.
  induction P as [|y P IH]; cbn; intros H; inversion H as [|? ? Hf Hr]; subst; [done|].
  constructor; [|by apply IH]. apply Forall_app in Hf as [? Hf]. inversion Hf; subst.
  by apply Forall_app.
Qed.

(** The section at [a] leaves the heap, with its share of the counters. *)
Lemma rep_unlink P a k R s s' rel : heap_rep (P ++ (a, [(k, true)]) :: R) (set_lock false s) ->
  s' = cnt 0 (- (16 + k - 16)) (- 48) (- (16 + k + 32)) (unlinked P (mem s (a + 8)) s) ->
  heap_rep (P ++ R) (mk (m_Head s') false (m_UsedMemory s') (m_FreeMemory s')
    (m_MetadataMemory s') (m_TotalMemory s') (mem s') rel).
Proof.
  intros [Hs Hsep Hu Hf Hm Ht Hb Hl] ->. cbn in *.
  pose proof (secs_sec _ _ _ _ _ _ Hs) as Hk. pose proof (sec_extent _ _ _ Hk) as Hk0. cbn in Hk0.
  pose proof (secs_unlink _ _ _ _ _ Hs Hsep) as Hs'. cbn in Hs'.
  pose proof (total_bounds _ _ _ Hs') as Hbd. rewrite !total_app in *. cbn in *.
  unfold used, unused, meta in Hu, Hf, Hm. cbn in Hu, Hf, Hm.
  fold used in Hu. fold unused in Hf. fold meta in Hm.
  constructor; rewrite ?total_app; cbn; [done|by eapply sep_drop| | | | | |done];
    unfold unlinked; destruct (last P) as [[]|]; cbn; rewrite wrap64_small; lia.
Qed.

Definition last_addr (P : list sect) : Z := match last P with None => 0 | Some x => x.1 end.

Lemma sec_unlink_runs P a bl R s nx (Q : unit -> state -> Prop) :
  heap_rep (P ++ (a, bl) :: R) (set_lock false s) -> Q tt (unlinked P nx s) ->
  runs (if last_addr P =? 0 then modify (set_Head nx) else wr (last_addr P) 8 nx) s Q.
Proof.
  intros Hrep HQ. unfold last_addr, unlinked in *. destruct P as [|[p pb] P _] using rev_ind.
  - by apply runs_modify.
  - rewrite last_snoc in *. cbn in *. pose proof (hp_secs _ _ Hrep) as Hs.
    rewrite <- app_assoc in Hs. pose proof (secs_sec _ _ _ _ _ _ Hs) as Hp.
    pose proof (sc_pos _ _ _ Hp). pose proof (sc_bound _ _ _ Hp). pose proof (sec_extent _ _ _ Hp).
    destruct (Z.eqb_spec p 0); [lia|]. by apply hwr_runs; [lia..|].
Qed.

(** Unlinking writes only the [next] of a section. *)
Lemma unlinked_mem P a bl R s nx x : heap_rep (P ++ (a, bl) :: R) (set_lock false s) ->
  mem (unlinked P nx s) x <> mem s x -> exists p pb, (p, pb) ∈ P /\ x = p + 8.
Proof.
  intros Hrep. unfold unlinked. destruct P as [|[p pb] P _] using rev_ind; [done|].
  rewrite last_snoc. cbn. destruct (decide (x = p + 8)) as [->|Hne].
  - intros _. exists p, pb. set_solver.
  - by rewrite fn_lookup_insert_ne.
Qed.

Lemma unlinked_section P a bl R s nx x : heap_rep (P ++ (a, bl) :: R) (set_lock false s) ->
  a <= x < a + 48 -> mem (unlinked P nx s) x = mem s x.
Proof.
  intros Hrep Hx. destruct (decide (mem (unlinked P nx s) x = mem s x)) as [|Hne]; [done|exfalso].
  apply (unlinked_mem _ _ _ _ _ _ _ Hrep) in Hne as (p & pb & Hin & ->).
  pose proof (secs_elem _ _ _ p pb (hp_secs _ _ Hrep) ltac:(set_solver)) as Hp.
  pose proof (sec_extent _ _ _ Hp). pose proof (sec_extent _ _ _ (secs_sec _ _ _ _ _ _ (hp_secs _ _ Hrep))).
  destruct (sep_others _ _ _ _ p pb (hp_sep _ _ Hrep) ltac:(set_solver)) as [E|E]; cbn in E; lia.
Qed.

Lemma unlinked_untouched P a bl R s nx : heap_rep (P ++ (a, bl) :: R) (set_lock false s) ->
  untouched (P ++ (a, bl) :: R) s (unlinked P nx s).
Proof.
  intros Hrep q k x Hin Hx. destruct (decide (mem (unlinked P nx s) x = mem s x)) as [|Hne]; [done|exfalso].
  apply (unlinked_mem _ _ _ _ _ _ _ Hrep) in Hne as (p & pb & Hp & ->).
  destruct (live_in_section _ _ _ _ _ (hp_secs _ _ Hrep) Hin) as (b & bb & Hb & ? & ?).
  pose proof (secs_elem _ _ _ p pb (hp_secs _ _ Hrep) ltac:(set_solver)) as Hpo.
  pose proof (sec_extent _ _ _ Hpo).
  apply list_elem_of_split in Hp as (P1 & P2 & ->). pose proof (hp_sep _ _ Hrep) as Hsep.
  rewrite <- app_assoc in Hsep, Hb. cbn in Hb. rewrite <- app_comm_cons in Hsep.
  assert ((b, bb) = (p, pb) \/ (b, bb) ∈ P1 ++ (P2 ++ (a, bl) :: R)) as [E|E] by set_solver.
  - simplify_eq. lia.
  - destruct (sep_others _ _ _ _ _ _ Hsep E) as [E'|E']; cbn in E'; lia.
Qed.

Notation kept := (filter (fun x : sect => empty_sec x = false)).
Notation gone := (filter (fun x : sect => empty_sec x = true)).

Lemma empty_live secs : lives (kept secs) = lives secs.
Proof.
  induction secs as [|[a bl] secs IH]; [done|]. rewrite filter_cons. destruct (decide _) as [E|E].
  - rewrite !lives_cons. by rewrite IH.
  - rewrite lives_cons, IH. destruct bl as [|[n [|]] [|]]; cbn in E; done.
Qed.

Lemma rest_snoc m h P a bl : rest m h (P ++ [(a, bl)]) = m (a + 8).
Proof. revert h. induction P as [|[p pb] P IH]; intros h; cbn; [done|]. apply IH. Qed.

Lemma rest_unlinked P a bl R s nx : heap_rep (P ++ (a, bl) :: R) (set_lock false s) ->
  rest (mem (unlinked P nx s)) (m_Head (unlinked P nx s)) P = nx.
Proof.
  intros _. unfold unlinked. destruct P as [|[p pb] P _] using rev_ind; [done|].
  rewrite last_snoc, rest_snoc. cbn. by rewrite fn_lookup_insert.
Qed.

Lemma release_runs rem : forall P s prev cur fuel,
  heap_rep (P ++ rem) (set_lock false s) -> prev = last_addr P -> cur = rest (mem s) (m_Head s) P ->
  (length rem <= fuel)%nat ->
  runs (release_empty fuel prev cur) s (fun _ s' =>
    heap_rep (P ++ kept rem) (set_lock false s') /\
    released s' = released s ++ map (fun x => (x.1, 32 + extent x.2)) (gone rem) /\
    untouched (P ++ rem) s s').
Proof.
  induction rem as [|[a bl] rem IH]; intros P s prev cur fuel Hrep -> Hcur Hf.
  - pose proof (hp_secs _ _ Hrep) as Hs. apply secs_split in Hs as [_ Hs]. cbn in Hs.
    assert (Hret : runs (ret tt) s (fun _ s' => heap_rep (P ++ kept []) (set_lock false s') /\
      released s' = released s ++ map (fun x => (x.1, 32 + extent x.2)) (gone []) /\
      untouched (P ++ []) s s')) by (apply runs_ret; split_and!; [done|by rewrite app_nil_r|by intros ?]).
    rewrite Hs in Hcur. subst cur. destruct fuel; exact Hret.
  - pose proof (hp_secs _ _ Hrep) as Hs. apply secs_split in Hs as [_ (Ha & Hsec & _)]. cbn in Ha, Hsec.
    assert (cur = a) as -> by congruence.
    pose proof (sc_pos _ _ _ Hsec). pose proof (sc_bound _ _ _ Hsec). pose proof (sec_extent _ _ _ Hsec).
    destruct fuel as [|fuel]; [cbn in Hf; lia|]. cbn in Hf. cbn [release_empty].
    destruct (Z.eqb_spec a 0); [lia|]. mstep. eapply section_empty_runs; [exact Hsec|].
    rewrite !filter_cons. destruct (empty_sec (a, bl)) eqn:Ee.
    + destruct (decide (true = false)); [done|]. destruct (decide (true = true)); [|done].
      destruct bl as [|[k [|]] [|]]; try done. mstep. mstep. apply hrd_runs; [lia..|].
      eapply sec_unlink_runs; [exact Hrep|]. set (nx := mem s (a + 8)). set (s1 := unlinked P nx s).
      pose proof (unlinked_section _ _ _ _ _ nx a Hrep ltac:(lia)) as E1.
      pose proof (unlinked_section _ _ _ _ _ nx (a + 8) Hrep ltac:(lia)) as E2. fold s1 in E1, E2.
      mstep. apply hrd_runs; [lia..|]. rewrite Z.add_0_r, E1, (sc_size _ _ _ Hsec). mstep. apply count_runs.
      mstep. apply hrd_runs; [lia..|]. cbn [mem cnt]. rewrite E2. fold nx. mstep. apply runs_modify.
      assert (Hk : extent [(k, true)] = 16 + k) by (cbn; lia). rewrite Hk in *.
      rewrite add64_small by lia.
      pose proof (fun rel => rep_unlink P a k rem s _ rel Hrep eq_refl) as Hrep'. fold nx s1 in Hrep'.
      eapply runs_mono; [apply (IH P); [apply Hrep'|done| |lia]|].
      * cbn. symmetry. by eapply rest_unlinked.
      * intros [] s' (H1' & H2' & H3'). split_and!; [done| |].
        -- rewrite H2'. cbn [map released]. rewrite <- app_assoc. cbn [app fst snd]. rewrite Hk. replace (16 + k + 32) with (32 + (16 + k)) by lia.
           cbn [released cnt]. unfold s1, unlinked. by destruct (last P) as [[]|].
        -- intros q j x Hin Hx. rewrite H3' with q j x by (rewrite ?lives_app, ?lives_cons in *; done).
           cbn. by apply (unlinked_untouched _ _ _ _ _ nx Hrep q j x).
    + destruct (decide (false = false)); [|done]. destruct (decide (false = true)); [done|].
      mstep. apply hrd_runs; [lia..|]. rewrite cons_middle, app_assoc in Hrep.
      eapply runs_mono; [apply (IH (P ++ [(a, bl)])); [exact Hrep| | |lia]|].
      * unfold last_addr. by rewrite last_snoc.
      * by rewrite rest_snoc.
      * intros [] s'. rewrite <- !app_assoc. done.
Qed.

(** ** The whole of [Free] *)

(** Finding the section and the place in it, and putting the block back. *)
Lemma free_place_runs S1 a l n r S2 s fuel fuelb c : c = a + 32 + extent l ->
  heap_rep (S1 ++ (a, l ++ [(n, false)] ++ r) :: S2) s ->
  (length (S1 ++ (a, l ++ [(n, false)] ++ r) :: S2) <= fuel)%nat -> (length l < fuelb)%nat ->
  runs (let* section := owner fuel c (m_Head s) in
        if section =? 0 then ret tt else
        let* first := sec_first section in
        let* (previousBlock, currentBlock) := find_place fuelb c 0 first in
        put_back section c previousBlock currentBlock) (marked n s c)
    (fun _ s' => put_post S1 a l n r S2 s s').
Proof.
  intros Hc Hrep Hf Hfb. pose proof (hp_secs _ _ Hrep) as Hs. pose proof (secs_sec _ _ _ _ _ _ Hs) as Hsec.
  destruct (sec_group _ _ _ _ _ Hsec) as (cr & G). rewrite <- Hc in G.
  pose proof (sc_pos _ _ _ Hsec). pose proof (sc_small _ _ _ Hsec).
  pose proof (gr_pos _ _ _ _ _ _ _ _ G). pose proof (gr_mod _ _ _ _ _ _ _ _ G).
  pose proof (gr_end _ _ _ _ _ _ _ _ G). pose proof (gr_extents _ _ _ _ _ _ _ _ G).
  pose proof (gr_mid _ _ _ _ _ _ _ _ G) as (? & _ & Hh & _). rewrite !extent_app in *. cbn [extent] in *.
  pose proof (gr_right _ _ _ _ _ _ _ _ G) as Hr. pose proof (gr_left _ _ _ _ _ _ _ _ G) as Hl.
  cbn [extent] in Hr. replace (c + (16 + n + 0)) with (c + 16 + n) in Hr by lia.
  mstep. eapply runs_mono; [eapply owner_runs; [exact Hs|apply (hp_sep _ _ Hrep)| | |done]|].
  - intros a' bl' Hin. pose proof (secs_elem _ _ _ _ _ Hs Hin) as Hs'. pose proof (sec_extent _ _ _ Hs').
    assert ((a', bl') = (a, l ++ [(n, false)] ++ r) \/ (a', bl') ∈ S1 ++ S2) as [E|E] by set_solver.
    + simplify_eq. unfold marked. cbn. by look.
    + pose proof (sep_others _ _ _ _ _ _ (hp_sep _ _ Hrep) E) as [E'|E']; cbn in E';
        rewrite ?extent_app in E'; cbn in E'; unfold marked; cbn; by look.
  - rewrite !extent_app. cbn [extent]. destruct (sc_last _ _ _ Hsec) as (l0 & k & f & E & Hk).
    destruct r as [|[rk rf] r _] using rev_ind.
    + rewrite app_nil_r in E. apply app_inj_tail in E as [_ [= -> _]]. cbn in *. lia.
    + rewrite !app_assoc in E. apply app_inj_tail in E as [_ [= -> _]].
      apply hdrs_app in Hr as [Hr _]. apply hdrs_extent in Hr. rewrite extent_app in *. cbn in *. lia.
  - intros ? ? [-> ->]. destruct (Z.eqb_spec a 0); [lia|]. mstep. apply hrd_runs; [lia..|].
    mstep. eapply runs_mono; [apply (find_place_runs _ c (faddrs (c + 16 + n) r)) with (l := l) (b0 := a + 32)|].
    + lia.
    + apply Forall_forall. intros x Hx. apply (faddrs_range _ _ _ _ _ Hr) in Hx. lia.
    + eapply hdrs_agree; [exact Hl|]. intros x Hx _. unfold marked. cbn. by look.
    + lia.
    + lia.
    + by left.
    + pose proof (sc_chain _ _ _ Hsec) as Hch. rewrite !faddrs_app in Hch. cbn [faddrs app extent] in Hch.
      rewrite <- Hc in Hch. replace (c + (16 + n + 0)) with (c + 16 + n) in Hch by lia. unfold marked. cbn [mem set_mem]. rewrite fn_lookup_insert_ne by lia.
      eapply lseg_agree; [exact Hch|]. intros x Hx. rewrite fn_lookup_insert_ne; [done|]. intros ->.
      apply elem_of_app in Hx as [Hx|Hx].
      * apply (faddrs_range _ _ _ _ _ Hl) in Hx. lia.
      * apply (faddrs_range _ _ _ _ _ Hr) in Hx. lia.
    + done.
    + intros ? ? [-> ->]. by apply put_back_runs.
Qed.

(** Two sections of a heap are not at the same address. *)
Lemma section_distinct secs s a bl bl' : heap_rep secs s -> (a, bl) ∈ secs -> (a, bl') ∈ secs -> bl = bl'.
Proof.
  intros Hrep H1 H2. pose proof (sec_extent _ _ _ (secs_elem _ _ _ _ _ (hp_secs _ _ Hrep) H1)).
  pose proof (sec_extent _ _ _ (secs_elem _ _ _ _ _ (hp_secs _ _ Hrep) H2)).
  apply list_elem_of_split in H1 as (P & R & ->).
  assert ((a, bl') = (a, bl) \/ (a, bl') ∈ P ++ R) as [E|E] by set_solver; [by simplify_eq|].
  destruct (sep_others _ _ _ _ _ _ (hp_sep _ _ Hrep) E) as [E'|E']; cbn in E'; lia.
Qed.

(** C38: [HeapAllocator::Free] of a block in use succeeds: exactly that block
    stops being in use, the heap stays well formed (each section tiled by
    blocks, the free list complete and in address order, the counters exact),
    the contents of the remaining blocks are untouched, the sections that have
    become one free block are handed back to the section allocator with their
    full size, and no such section is left behind. *)
Theorem heap_Free_spec secs s p n fuel fuelb :
  heap_rep secs s -> (p, n) ∈ lives secs -> (length secs <= fuel)%nat ->
  (forall b bl, (b, bl) ∈ secs -> (length bl < fuelb)%nat) ->
  runs (Free fuel fuelb p) s (fun _ s' => exists secs' back,
    heap_rep secs' s' /\ (p, n) :: lives secs' ≡ₚ lives secs /\ untouched secs' s s' /\
    released s' = released s ++ back /\
    Forall (fun x => exists a bl, (a, bl) ∈ secs /\ x = (a, 32 + extent bl) /\
                       forall a' bl', (a', bl') ∈ secs' -> a' <> a) back /\
    Forall (fun x => empty_sec x = false) secs').
Proof.
  intros Hrep Hin Hf Hfb. apply lives_split in Hin as (S1 & a & l & r & S2 & -> & ->).
  pose proof (secs_sec _ _ _ _ _ _ (hp_secs _ _ Hrep)) as Hsec. set (c := a + 32 + extent l).
  destruct (sec_group _ _ _ _ _ Hsec) as (cr & G). fold c in G.
  pose proof (sc_pos _ _ _ Hsec). pose proof (gr_pos _ _ _ _ _ _ _ _ G).
  pose proof (gr_end _ _ _ _ _ _ _ _ G). pose proof (gr_extents _ _ _ _ _ _ _ _ G).
  pose proof (gr_mid _ _ _ _ _ _ _ _ G) as (? & _ & Hh & _). cbn [extent app] in *.
  unfold Free. destruct (Z.eqb_spec (c + 16) 0); [lia|].
  mstep. unfold Lock. mgo. rewrite (hp_lock _ _ Hrep). apply runs_modify.
  rewrite sub64_small by lia. replace (c + 16 - 16) with c by lia.
  mstep. mstep. eapply (free_of_runs c n false); [lia|lia|lia|done|]. apply runs_assert; [done|].
  mstep. eapply (set_free_runs c n false); [lia|lia|lia|done|].
  change (set_mem _ _) with (marked n s c).
  mstep. mstep. apply runs_gets. change (m_Head (marked n s c)) with (m_Head s).
  eapply runs_mono; [apply (free_place_runs S1 a l n r S2 s); try done|].
  { specialize (Hfb a (l ++ (n, false) :: r) ltac:(set_solver)). rewrite length_app in Hfb. cbn in Hfb. lia. }
  intros [] s1 (bl & Hrep1 & He & Hlen & Hlv & Hrl & Hhd & Hun).
  mstep. mstep. apply runs_gets.
  eapply runs_mono; [apply (release_runs _ [] s1 0 (m_Head s1) fuel Hrep1); [done|done|]|].
  { rewrite !length_app in *. cbn in *. lia. }
  intros [] s2 (Hrep2 & Hrl2 & Hun2). cbn [app] in *. apply runs_modify.
  exists (kept (S1 ++ (a, bl) :: S2)). eexists. split_and!; [exact Hrep2| | |cbn; by rewrite Hrl2, Hrl| |].
  - rewrite empty_live, !lives_app, !lives_cons, Hlv, !blive_app. cbn [blive].
    fold c. rewrite <- !app_assoc. cbn. by rewrite <- !Permutation_middle.
  - intros q k x Hin Hx. rewrite empty_live in Hin. cbn. by rewrite (Hun2 q k x Hin Hx), (Hun q k x Hin Hx).
  - apply Forall_forall. intros x (y & -> & Hy)%list_elem_of_fmap.
    apply list_elem_of_filter in Hy as [Hye Hy]. destruct y as [b bb]. cbn.
    assert (exists bb', (b, bb') ∈ S1 ++ (a, l ++ [(n, false)] ++ r) :: S2 /\ extent bb' = extent bb)
      as (bb' & Hb & Hbe).
    { apply elem_of_app in Hy as [Hy|[Hy|Hy]%elem_of_cons]; [exists bb; set_solver| |exists bb; set_solver].
      simplify_eq. eexists. split; [apply elem_of_app; right; left|done]. }
    exists b, bb'. split_and!; [done|by rewrite Hbe|]. intros a' bl' [E Hin]%list_elem_of_filter ->.
    by rewrite (section_distinct _ _ _ _ _ Hrep1 Hin Hy), Hye in E.
  - apply Forall_forall. intros x Hx. by apply list_elem_of_filter in Hx as [? _].
Qed.

(** A heap with one section, one block in use and the rest free. *)
Definition example_heap : state :=
  mk 65536 false 64 130944 64 131072
    (<[65536 := 131040]> (<[65536 + 8 := 0]> (<[65536 + 16 := 65536 + 32 + 80]>
       (<[65536 + 32 := hdr 64 false]> (<[65536 + 32 + 80 := hdr 130944 true]> (fun _ => 0))))))
    [].

Lemma heap_Free_spec_witness :
  let secs := [(65536, [(64, false); (130944, true)])] in
  heap_rep secs example_heap /\
  runs (Free 4 4 (65536 + 48)) example_heap (fun _ s' => exists secs' back,
    heap_rep secs' s' /\ (65536 + 48, 64) :: lives secs' ≡ₚ lives secs /\
    untouched secs' example_heap s' /\ released s' = released example_heap ++ back /\
    Forall (fun x => exists a bl, (a, bl) ∈ secs /\ x = (a, 32 + extent bl) /\
                       forall a' bl', (a', bl') ∈ secs' -> a' <> a) back /\
    Forall (fun x => empty_sec x = false) secs').
Proof.
  assert (heap_rep [(65536, [(64, false); (130944, true)])] example_heap) as Hrep.
  { constructor; try (vm_compute; done); [|by constructor; [constructor|constructor]].
    split_and!; try done. constructor; try (vm_compute; done).
    by exists [(64, false)], 130944, true. }
  split; [exact Hrep|]. apply (heap_Free_spec _ _ (65536 + 48) 64 4 4 Hrep); [|cbn; lia|].
  - cbn. left.
  - intros b bl [= -> ->]%list_elem_of_singleton. cbn. lia.
Defined.

End HeapFree.
