(* ===== verification/VMM.v ===== *)
(** * VMM.v: the virtual memory manager (src/kernel/src/Memory/VMM.cpp)

    A [VMM] owns a region allocator, a page mapper and a tree of map entries. A
    map entry describes a range of pages; it refers to an [AnonMap] (an array of
    slots, one per page, each null or a reference-counted [Anon] with its frame)
    or to a [MemoryObject] (pages supplied by a pager), or both. Entries, maps,
    anons, objects and pages are shared by pointer between address spaces, so
    the model keeps one store per type; a freed object is no longer in its
    store. The C++ arrays [slots] belong to one [AnonMap] each and are part of
    it. The physical memory manager and the page mappers are used through the
    interface [Machine], the pager of a memory object through [Pager]. *)

From S2P Require Import Prelude PageMapper AVLTree VMRegionAllocator.
#[local] Open Scope Z_scope.
#[local] Open Scope kernel_scope.

Module VMM.
Import AVLTree.
Notation CacheType := PageMapper.CacheType.
Notation READ := PageMapper.READ.
Notation WRITE := PageMapper.WRITE.
Notation EXECUTE := PageMapper.EXECUTE.

(** ** Data *)

Record PageFaultCode : Type := mkCode { present : bool; write : bool; user_mode : bool; execute : bool }.

Record Page : Type := mkPage { pg_physAddr : Z; pg_protection : Z; pg_isWired : bool }.
Record Anon : Type := mkAnon { an_refCount : Z; an_physAddr : Z }.
Record AnonMap : Type := mkMap { am_refCount : Z; slotCount : Z; am_lock : bool; slots : list Z }.
Record MemoryObject : Type := mkObj {
  mo_size : Z; mo_refCount : Z; pages : tree Z; mo_pager : Z; mo_pagerData : Z; mo_lock : bool }.

Record Flags : Type := mkFlags {
  protection : Z; cacheType : CacheType; user : bool; needsCopy : bool; isPrivate : bool; zero : bool }.
Record MapEntry : Type := mkEntry {
  startVirt : Z; endVirt : Z; offset : Z; anonMap : Z; memoryObject : Z; flags : Flags; wireCount : Z }.
Record AllocFlags : Type := mkAlloc {
  a_protection : Z; a_cacheType : CacheType; a_user : bool; a_isPrivate : bool; a_zero : bool;
  allocPhys : bool; addrIsHint : bool; replace : bool }.

Definition set_refs (n : Z) (a : Anon) : Anon := mkAnon n (an_physAddr a).
Definition set_map_refs (n : Z) (m : AnonMap) : AnonMap := mkMap n (slotCount m) (am_lock m) (slots m).
Definition set_map_lock (b : bool) (m : AnonMap) : AnonMap := mkMap (am_refCount m) (slotCount m) b (slots m).
Definition set_slots (n : Z) (l : list Z) (m : AnonMap) : AnonMap := mkMap (am_refCount m) n (am_lock m) l.
Definition set_obj_refs (n : Z) (o : MemoryObject) : MemoryObject :=
  mkObj (mo_size o) n (pages o) (mo_pager o) (mo_pagerData o) (mo_lock o).
Definition set_obj_lock (b : bool) (o : MemoryObject) : MemoryObject :=
  mkObj (mo_size o) (mo_refCount o) (pages o) (mo_pager o) (mo_pagerData o) b.
Definition set_obj_pages (t : tree Z) (o : MemoryObject) : MemoryObject :=
  mkObj (mo_size o) (mo_refCount o) t (mo_pager o) (mo_pagerData o) (mo_lock o).
Definition set_page_phys (p : Z) (g : Page) : Page := mkPage p (pg_protection g) (pg_isWired g).
Definition set_prot (p : Z) (u : bool) (f : Flags) : Flags :=
  mkFlags p (cacheType f) u (needsCopy f) (isPrivate f) (zero f).
Definition set_needsCopy (b : bool) (f : Flags) : Flags :=
  mkFlags (protection f) (cacheType f) (user f) b (isPrivate f) (zero f).
Definition set_endVirt (v : Z) (e : MapEntry) : MapEntry :=
  mkEntry (startVirt e) v (offset e) (anonMap e) (memoryObject e) (flags e) (wireCount e).
Definition set_anonMap (v : Z) (e : MapEntry) : MapEntry :=
  mkEntry (startVirt e) (endVirt e) (offset e) v (memoryObject e) (flags e) (wireCount e).
Definition set_flags (v : Flags) (e : MapEntry) : MapEntry :=
  mkEntry (startVirt e) (endVirt e) (offset e) (anonMap e) (memoryObject e) v (wireCount e).

(** One address space: its region allocator ([None] for a null pointer), the
    page mapper it uses, and the tree of its map entries with the tree's lock. *)
Record AddressSpace : Type := mkVMM {
  m_vmRegionAllocator : option VMRegionAllocator.state;
  m_pageMapper : Z;
  m_mapEntries : tree Z;
  entries_lock : bool
}.

(** ** What the manager uses *)

(** The physical memory manager, the frames it hands out (through the direct
    map) and the page mappers, named by a number each. *)
Class Machine (E : Type) : Type := {
  AllocatePage : M E Z;
  FreePage : Z -> M E unit;
  zero_frame : Z -> M E unit;
  copy_frame : Z -> Z -> M E unit;
  read_byte : Z -> Z -> M E Z;
  pm_MapPage : Z -> Z -> Z -> Z -> bool -> CacheType -> M E bool;
  pm_RemapPage : Z -> Z -> Z -> bool -> CacheType -> M E bool;
  pm_RemapPages : Z -> Z -> Z -> Z -> bool -> CacheType -> M E bool;
  pm_UnmapPage : Z -> Z -> M E bool;
  pm_InvalidatePages : Z -> Z -> Z -> bool -> M E unit
}.

Section VMM.
Context {E : Type} `{Machine E}.

Record state : Type := mk {
  anons : gmap Z Anon;
  maps : gmap Z AnonMap;
  objs : gmap Z MemoryObject;
  pgs : gmap Z Page;
  ents : gmap Z MapEntry;
  vmms : Z -> AddressSpace;
  allocs : nat;
  env : E
}.

Definition set_anons v s := mk v (maps s) (objs s) (pgs s) (ents s) (vmms s) (allocs s) (env s).
Definition set_maps v s := mk (anons s) v (objs s) (pgs s) (ents s) (vmms s) (allocs s) (env s).
Definition set_objs v s := mk (anons s) (maps s) v (pgs s) (ents s) (vmms s) (allocs s) (env s).
Definition set_pgs v s := mk (anons s) (maps s) (objs s) v (ents s) (vmms s) (allocs s) (env s).
Definition set_ents v s := mk (anons s) (maps s) (objs s) (pgs s) v (vmms s) (allocs s) (env s).
Definition set_vmms v s := mk (anons s) (maps s) (objs s) (pgs s) (ents s) v (allocs s) (env s).
Definition set_allocs v s := mk (anons s) (maps s) (objs s) (pgs s) (ents s) (vmms s) v (env s).
Definition set_env v s := mk (anons s) (maps s) (objs s) (pgs s) (ents s) (vmms s) (allocs s) v.

(** [kcalloc_ok n] says whether the [n]th request to the VMM heap succeeds.
    [GetPage] is the virtual method of the pager of a memory object: the pager,
    the object, the offset and whether the access is a write; the result is
    what it returns and the page it stores. *)
Context (kcalloc_ok : nat -> bool).
Context (GetPage : Z -> Z -> Z -> bool -> M state (bool * Z)).

(** *** Machine and regions *)

Definition machine {A} (m : M E A) : M state A := fun s =>
  match m (env s) with Ok (a, e) => Ok (a, set_env e s) | Fail f => Fail f end.

(** [DefaultPager]: the methods of the base class of the pagers; its [GetPage]
    has no pages to offer and leaves [*outPage] alone. *)
Definition DefaultPager_AllocatePage : M state Z := machine AllocatePage.
Definition DefaultPager_GetPage (pager obj off : Z) (write : bool) : M state (bool * Z) := ret (false, 0).
Definition DefaultPager_FreePage (page : Z) : M state unit := machine (FreePage page).

Definition upd_vmm (self : Z) (f : AddressSpace -> AddressSpace) : M state unit :=
  modify (fun s => set_vmms (<[self := f (vmms s self)]> (vmms s)) s).

Definition regions {A} (self : Z) (m : M VMRegionAllocator.state A) : M state A := fun s =>
  match m_vmRegionAllocator (vmms s self) with
  | None => Fail NullDereference
  | Some r =>
      match m r with
      | Ok (a, r') =>
          Ok (a, set_vmms (<[self := mkVMM (Some r') (m_pageMapper (vmms s self))
                     (m_mapEntries (vmms s self)) (entries_lock (vmms s self))]> (vmms s)) s)
      | Fail f => Fail f
      end
  end.

Definition mapper (self : Z) : M state Z := gets (fun s => m_pageMapper (vmms s self)).
Definition MapPage (self virt phys prot : Z) (user : bool) (c : CacheType) : M state bool :=
  let* p := mapper self in machine (pm_MapPage p virt phys prot user c).
Definition RemapPage (self virt prot : Z) (user : bool) (c : CacheType) : M state bool :=
  let* p := mapper self in machine (pm_RemapPage p virt prot user c).
Definition RemapPages_pm (self virt count prot : Z) (user : bool) (c : CacheType) : M state bool :=
  let* p := mapper self in machine (pm_RemapPages p virt count prot user c).
Definition UnmapPage (self virt : Z) : M state bool :=
  let* p := mapper self in machine (pm_UnmapPage p virt).
Definition InvalidatePages (self virt count : Z) (shootdown : bool) : M state unit :=
  let* p := mapper self in machine (pm_InvalidatePages p virt count shootdown).

(** *** Objects *)

(** Access through a pointer. *)
Definition ld {T} (store : state -> gmap Z T) (p : Z) : M state T := fun s =>
  if p =? 0 then Fail NullDereference
  else match store s !! p with None => Fail InvalidAccess | Some x => Ok (x, s) end.
Definition upd {T} (store : state -> gmap Z T) (put : gmap Z T -> state -> state) (p : Z)
    (f : T -> T) : M state unit :=
  let* x := ld store p in modify (fun s => put (<[p := f x]> (store s)) s).

Definition ld_anon := ld anons.
Definition upd_anon := upd anons set_anons.
Definition ld_map := ld maps.
Definition upd_map := upd maps set_maps.
Definition ld_obj := ld objs.
Definition upd_obj := upd objs set_objs.
Definition ld_page := ld pgs.
Definition upd_page := upd pgs set_pgs.
Definition ld_ent := ld ents.
Definition upd_ent := upd ents set_ents.

(** [kcalloc_vmm]: null, or a new pointer. *)
Definition kcalloc : M state Z := fun s =>
  Ok (if kcalloc_ok (allocs s) then Z.of_nat (S (allocs s)) else 0, set_allocs (S (allocs s)) s).
Definition put_anon (p : Z) (x : Anon) : M state unit := modify (fun s => set_anons (<[p := x]> (anons s)) s).
Definition put_map (p : Z) (x : AnonMap) : M state unit := modify (fun s => set_maps (<[p := x]> (maps s)) s).
Definition put_obj (p : Z) (x : MemoryObject) : M state unit := modify (fun s => set_objs (<[p := x]> (objs s)) s).
Definition put_page (p : Z) (x : Page) : M state unit := modify (fun s => set_pgs (<[p := x]> (pgs s)) s).
Definition put_ent (p : Z) (x : MapEntry) : M state unit := modify (fun s => set_ents (<[p := x]> (ents s)) s).
Definition kfree_anon (p : Z) : M state unit := modify (fun s => set_anons (delete p (anons s)) s).
Definition kfree_map (p : Z) : M state unit := modify (fun s => set_maps (delete p (maps s)) s).
Definition kfree_obj (p : Z) : M state unit := modify (fun s => set_objs (delete p (objs s)) s).
Definition kfree_page (p : Z) : M state unit := modify (fun s => set_pgs (delete p (pgs s)) s).
Definition kfree_ent (p : Z) : M state unit := modify (fun s => set_ents (delete p (ents s)) s).

(** [map->slots[i]] *)
Definition slot (m : Z) (i : Z) : M state Z :=
  let* x := ld_map m in
  match slots x !! Z.to_nat i with None => fail InvalidAccess | Some a => ret a end.
Definition set_slot (m i v : Z) : M state unit :=
  let* x := ld_map m in
  if (Z.to_nat i <? length (slots x))%nat
  then upd_map m (fun x => set_slots (slotCount x) (<[Z.to_nat i := v]> (slots x)) x)
  else fail InvalidAccess.

(** *** Locks *)

Definition lock_entries (self : Z) : M state unit :=
  let* l := gets (fun s => entries_lock (vmms s self)) in
  if l then fail LockHeld else
  upd_vmm self (fun v => mkVMM (m_vmRegionAllocator v) (m_pageMapper v) (m_mapEntries v) true).
Definition unlock_entries (self : Z) : M state unit :=
  upd_vmm self (fun v => mkVMM (m_vmRegionAllocator v) (m_pageMapper v) (m_mapEntries v) false).
Definition acquire_map (p : Z) : M state unit :=
  let* m := ld_map p in if am_lock m then fail LockHeld else upd_map p (set_map_lock true).
Definition release_map (p : Z) : M state unit := upd_map p (set_map_lock false).
Definition acquire_obj (p : Z) : M state unit :=
  let* o := ld_obj p in if mo_lock o then fail LockHeld else upd_obj p (set_obj_lock true).
Definition release_obj (p : Z) : M state unit := upd_obj p (set_obj_lock false).

(** *** The tree of the entries *)

Definition entries (self : Z) : M state (tree Z) := gets (fun s => m_mapEntries (vmms s self)).
Definition set_entries (self : Z) (t : tree Z) : M state unit :=
  upd_vmm self (fun v => mkVMM (m_vmRegionAllocator v) (m_pageMapper v) t (entries_lock v)).
Definition Insert_entry (self k e : Z) : M state unit :=
  let* t := entries self in set_entries self (snd (Insert k e t)).
Definition RemoveNode (self k : Z) : M state unit :=
  let* t := entries self in set_entries self (RB_REMOVE k t).

(** *** Loops *)

Fixpoint for_n (n : nat) (i : Z) (body : Z -> M state unit) : M state unit :=
  match n with O => ret tt | S n' => body i ;;; for_n n' (i + 1) body end.
Definition for_count (n : Z) : (Z -> M state unit) -> M state unit := for_n (Z.to_nat n) 0.

(** [forEach] with a callback that returns nothing, and with one that says
    whether to go on; the latter starts at a node index. *)
Fixpoint forEach (t : tree Z) (callback : Z -> Z -> M state unit) : M state unit :=
  match t with [] => ret tt | (k, v) :: t' => callback k v ;;; forEach t' callback end.
Fixpoint forEach_from (startingIndex i : Z) (t : tree Z) (callback : Z -> Z -> M state bool) : M state unit :=
  match t with
  | [] => ret tt
  | (k, v) :: t' =>
      if negb (i =? startingIndex) then forEach_from startingIndex (add64 i 1) t' callback
      else let* go := callback k v in
           if go then forEach_from startingIndex i t' callback else ret tt
  end.
Notation page_at start i := (add64 start (mul64 i PAGE_SIZE)).
Notation page_count e := (Z.shiftr (sub64 (endVirt e) (startVirt e)) PAGE_SIZE_SHIFT).
Notation without_write p := (Z.land p (Z.lxor WRITE 0xFF)).

(** ** Protection *)

Definition isLessOrEqualProt (a b : Z) : bool :=
  if a =? b then true
  else if Z.land b READ <? Z.land a READ then false
  else if Z.land b WRITE <? Z.land a WRITE then false
  else if Z.land b EXECUTE <? Z.land a EXECUTE then false
  else true.

(** ** [VMM::SplitMapEntry] *)

(** [memcpy] of [n] pointers starting at [i] of an array. *)
Definition slice (l : list Z) (i n : Z) : M state (list Z) :=
  if (Z.to_nat i + Z.to_nat n <=? length l)%nat then ret (take (Z.to_nat n) (drop (Z.to_nat i) l))
  else fail InvalidAccess.

(** Divide the slots of the map [am] behind [newPageCount]; the result is the
    map of the lower part and that of the upper part, both 0 when memory is
    short. A new object is put into its store when it is complete. *)
Definition split_map (am newPageCount upperPageCount : Z) : M state (Z * Z) :=
  let* map := kcalloc in
  if map =? 0 then ret (0, 0) else
  let* mapSlots := kcalloc in
  let* newSlots := kcalloc in
  if (newSlots =? 0) || (mapSlots =? 0) then ret (0, 0) else
  acquire_map am ;;;
  let* old := ld_map am in
  let* lower := slice (slots old) 0 newPageCount in
  let* upper := slice (slots old) newPageCount upperPageCount in
  if 1 <? am_refCount old then
    let* newMap := kcalloc in
    if newMap =? 0 then release_map am ;;; ret (0, 0) else
    put_map newMap (mkMap 1 newPageCount false lower) ;;;
    put_map map (mkMap 1 upperPageCount false upper) ;;;
    upd_map am (fun x => set_map_refs (sub64 (am_refCount x) 1) x) ;;;
    release_map am ;;;
    ret (newMap, map)
  else
    put_map map (mkMap 1 upperPageCount false upper) ;;;
    upd_map am (set_slots newPageCount lower) ;;;
    release_map am ;;;
    ret (am, map).

Definition SplitMapEntry (entry newPageCount : Z) : M state Z :=
  let* newEntry := kcalloc in
  if newEntry =? 0 then ret 0 else
  let* e := ld_ent entry in
  let start := page_at (startVirt e) newPageCount in
  let upperPageCount := Z.shiftr (sub64 (endVirt e) start) PAGE_SIZE_SHIFT in
  let* (low, map) := (if anonMap e =? 0 then ret (0, 0) else split_map (anonMap e) newPageCount upperPageCount) in
  if negb (anonMap e =? 0) && (map =? 0) then ret 0 else
  upd_ent entry (set_anonMap low) ;;;
  whenM (negb (memoryObject e =? 0))
    (acquire_obj (memoryObject e) ;;;
     upd_obj (memoryObject e) (fun o => set_obj_refs (add64 (mo_refCount o) 1) o) ;;;
     release_obj (memoryObject e)) ;;;
  put_ent newEntry (mkEntry start (endVirt e)
    (if memoryObject e =? 0 then 0 else add64 (offset e) newPageCount) map (memoryObject e) (flags e) 0) ;;;
  upd_ent entry (set_endVirt start) ;;;
  ret newEntry.

(** ** [VMM::Internal_FreePages] *)

(** Drop a reference to an object; [last] runs when it was the last one. *)
Definition drop_obj (obj : Z) (last : M state unit) : M state unit :=
  upd_obj obj (fun o => set_obj_refs (sub64 (mo_refCount o) 1) o) ;;;
  let* o := ld_obj obj in
  if mo_refCount o =? 0 then last ;;; kfree_obj obj else release_obj obj.

(** The callback that frees the pages of a memory object. *)
Definition free_page (_ page : Z) : M state bool :=
  let* g := ld_page page in
  whenM (negb (pg_physAddr g =? 0)) (machine (FreePage (pg_physAddr g))) ;;;
  kfree_page page ;;;
  ret true.

(** The first pass over the slots: unmap what is mapped, and the lowest and the
    highest index unmapped. *)
Fixpoint unmap_slots (self : Z) (e : MapEntry) (n : nat) (i lowest highest : Z) : M state (Z * Z) :=
  match n with
  | O => ret (lowest, highest)
  | S n' =>
      let* a := slot (anonMap e) i in
      let* mapped :=
        (if negb (a =? 0) then ret true
         else if negb (memoryObject e =? 0) then
           let* o := ld_obj (memoryObject e) in
           ret (match Find (add64 (offset e) i) (pages o) with Some p => negb (p =? 0) | None => false end)
         else ret false) in
      if mapped then
        UnmapPage self (page_at (startVirt e) i) ;;;
        unmap_slots self e n' (i + 1) (if i <? lowest then i else lowest) i
      else unmap_slots self e n' (i + 1) lowest highest
  end.

(** The second pass: give up the anon of slot [i]. *)
Definition free_slot (map i : Z) : M state unit :=
  let* a := slot map i in
  if a =? 0 then ret tt else
  set_slot map i 0 ;;;
  let* an := ld_anon a in
  machine (FreePage (an_physAddr an)) ;;;
  upd_anon a (fun x => set_refs (sub64 (an_refCount x) 1) x) ;;;
  let* an := ld_anon a in
  whenM (an_refCount an =? 0) (kfree_anon a).

Definition free_anon_entry (self virtAddr : Z) (e : MapEntry) : M state unit :=
  let map := anonMap e in
  let obj := memoryObject e in
  acquire_map map ;;;
  upd_map map (fun x => set_map_refs (sub64 (am_refCount x) 1) x) ;;;
  whenM (negb (obj =? 0)) (acquire_obj obj) ;;;
  let* m := ld_map map in
  let* (lowest, highest) := unmap_slots self e (Z.to_nat (slotCount m)) 0 UINT64_MAX 0 in
  whenM (negb (lowest =? UINT64_MAX))
    (InvalidatePages self (page_at virtAddr lowest) (mul64 (sub64 highest lowest) PAGE_SIZE) true) ;;;
  for_count (slotCount m) (free_slot map) ;;;
  (let* m := ld_map map in if am_refCount m =? 0 then kfree_map map else release_map map) ;;;
  whenM (negb (obj =? 0))
    (drop_obj obj (let* o := ld_obj obj in forEach_from (offset e) 0 (pages o) free_page)).

(** The first pass over the pages of an object: as in the source, the key of
    the page is passed to the mapper as its address. *)
Fixpoint unmap_obj_pages (self startingIndex i : Z) (t : tree Z) (lowest highest : Z) : M state (Z * Z) :=
  match t with
  | [] => ret (lowest, highest)
  | (addr, page) :: t' =>
      if negb (i =? startingIndex) then unmap_obj_pages self startingIndex (add64 i 1) t' lowest highest
      else
        let* g := ld_page page in
        if pg_physAddr g =? 0 then unmap_obj_pages self startingIndex i t' lowest highest
        else
          UnmapPage self addr ;;;
          unmap_obj_pages self startingIndex i t' (if addr <? lowest then addr else lowest) addr
  end.

Definition free_obj_entry (self : Z) (e : MapEntry) : M state unit :=
  let obj := memoryObject e in
  acquire_obj obj ;;;
  upd_obj obj (fun o => set_obj_refs (sub64 (mo_refCount o) 1) o) ;;;
  let* o := ld_obj obj in
  let* (lowest, highest) := unmap_obj_pages self (offset e) 0 (pages o) UINT64_MAX 0 in
  whenM (negb (lowest =? UINT64_MAX)) (InvalidatePages self lowest (sub64 highest lowest) true) ;;;
  let* o := ld_obj obj in
  if mo_refCount o =? 0 then forEach_from (offset e) 0 (pages o) free_page ;;; kfree_obj obj
  else release_obj obj.

(** Take the pages [virt, virt + count) out of the tree: the entry to free, or
    0 when memory for the division of an entry is short. *)
Definition carve (self : Z) (full : bool) (node virt count : Z) (entry : Z) : M state Z :=
  let* e := ld_ent entry in
  let end_ := page_at virt count in
  if negb full && (negb (startVirt e =? virt) || negb (endVirt e =? end_)) then
    let* entry :=
      (if startVirt e <? virt then
         SplitMapEntry entry (Z.shiftr (sub64 virt (startVirt e)) PAGE_SIZE_SHIFT)
       else RemoveNode self node ;;; ret entry) in
    if entry =? 0 then ret 0 else
    let* e := ld_ent entry in
    if end_ <? endVirt e then
      let* newEntry := SplitMapEntry entry count in
      if newEntry =? 0 then ret 0 else
      let* n := ld_ent newEntry in
      Insert_entry self (startVirt n) newEntry ;;;
      ret entry
    else ret entry
  else RemoveNode self node ;;; ret entry.

(** The entry for [virt] the loops of [Internal_FreePages] and [RemapPages]
    work on, with the number of pages in this round. *)
Definition next_entry (self virt currentCount totalCount : Z) (full first multipleRegions : bool)
    : M state (option (Z * Z * Z)) :=
  let* t := entries self in
  match (if full then FindNode virt t else FindNodeOrLower virt t) with
  | None => ret None
  | Some (node, entry) =>
      if entry =? 0 then ret None else
      let count := if first && negb multipleRegions then totalCount else 1 in
      let* e := ld_ent entry in
      if (full && negb (startVirt e =? virt)) || (negb full && (endVirt e <? page_at virt count)) then ret None
      else
        let count := if negb first && multipleRegions
                     then Z.min (page_count e) (sub64 totalCount currentCount) else count in
        ret (Some (node, entry, count))
  end.

Fixpoint FreePages_loop (fuel : nat) (self virtAddr virt currentCount totalCount : Z)
    (full first multipleRegions lock : bool) : M state bool :=
  if negb (currentCount <? totalCount) then ret true else
  match fuel with
  | O => fail OutOfFuel
  | S fuel' =>
      whenM lock (lock_entries self) ;;;
      let* r := next_entry self virt currentCount totalCount full first multipleRegions in
      match r with
      | None => whenM lock (unlock_entries self) ;;; ret false
      | Some (node, entry, count) =>
          let* e := ld_ent entry in
          let* entry := carve self full node virt count entry in
          if entry =? 0 then whenM lock (unlock_entries self) ;;; ret false else
          let count := if full then page_count e else count in
          whenM lock (unlock_entries self) ;;;
          regions self (VMRegionAllocator.FreePages virt count full lock) ;;;
          let* e := ld_ent entry in
          (if negb (anonMap e =? 0) then free_anon_entry self virtAddr e
           else if negb (memoryObject e =? 0) then free_obj_entry self e
           else ret tt) ;;;
          kfree_ent entry ;;;
          FreePages_loop fuel' self virtAddr (page_at virt count) (add64 currentCount count) totalCount
            full false multipleRegions lock
      end
  end.

(** The range check in front of the loops. *)
Definition outside (self virt totalCount : Z) : M state bool :=
  let* v := gets (fun s => vmms s self) in
  ret (match m_vmRegionAllocator v with
       | None => true
       | Some r => (virt <? VMRegionAllocator.m_start r) || (VMRegionAllocator.m_end r <? page_at virt totalCount)
       end).

Definition Internal_FreePages (self virtAddr totalCount : Z) (multipleRegions lock : bool) : M state bool :=
  let full := totalCount =? 0 in
  if full && multipleRegions then ret false else
  let totalCount := if full then 1 else totalCount in
  let* out := outside self virtAddr totalCount in
  if out then ret false
  else FreePages_loop (S (Z.to_nat totalCount)) self virtAddr virtAddr 0 totalCount full true multipleRegions lock.

Definition FreePages (self virtAddr count : Z) (multipleRegions : bool) : M state bool :=
  Internal_FreePages self virtAddr count multipleRegions true.

(** ** Allocation *)

(** Step 1 of [AllocateAnonPages] and [AllocateBackedPages]: the region. *)
Definition get_region (self count addr : Z) (f : AllocFlags) : M state Z :=
  if addr =? 0 then regions self (VMRegionAllocator.AllocatePages count) else
  let* pages := regions self (VMRegionAllocator.AllocatePages_at addr count true) in
  if negb (pages =? 0) then ret pages
  else if addrIsHint f then regions self (VMRegionAllocator.AllocatePages count)
  else if replace f then
    lock_entries self ;;;
    regions self VMRegionAllocator.Lock ;;;
    let* rc := Internal_FreePages self addr count true false in
    unlock_entries self ;;;
    if negb rc then regions self VMRegionAllocator.Unlock ;;; ret 0 else
    let* pages := regions self (VMRegionAllocator.AllocatePages_at addr count false) in
    regions self VMRegionAllocator.Unlock ;;;
    if (pages =? 0) && addrIsHint f then regions self (VMRegionAllocator.AllocatePages count)
    else ret pages
  else ret 0.

(** A new anon with a frame; the source does not test the pointer. *)
Definition new_anon : M state Z :=
  let* anon := kcalloc in
  if anon =? 0 then fail NullDereference else
  let* frame := machine AllocatePage in
  put_anon anon (mkAnon 1 frame) ;;;
  ret anon.

Definition new_slots (count : Z) : list Z := replicate (Z.to_nat count) 0.

(** Step 3 of [AllocateAnonPages], for page [i]. *)
Definition populate (self pages map : Z) (f : AllocFlags) (i : Z) : M state unit :=
  let* anon := new_anon in
  let* an := ld_anon anon in
  whenM (a_zero f) (machine (zero_frame (an_physAddr an))) ;;;
  MapPage self (page_at pages i) (an_physAddr an) (a_protection f) (a_user f) (a_cacheType f) ;;;
  set_slot map i anon.

(** [hasPager] says whether [g_defaultPager] is set. *)
Definition AllocateAnonPages (hasPager : bool) (self count addr : Z) (f : AllocFlags) : M state Z :=
  if (count =? 0) || negb hasPager then ret 0 else
  let* pages := get_region self count addr f in
  if pages =? 0 then ret 0 else
  let giveUp := regions self (VMRegionAllocator.FreePages pages count true true) ;;; ret 0 in
  let* map := kcalloc in
  if map =? 0 then giveUp else
  let* mapSlots := kcalloc in
  if mapSlots =? 0 then giveUp else
  let* entry := kcalloc in
  if entry =? 0 then giveUp else
  put_map map (mkMap 1 count false (new_slots count)) ;;;
  whenM (allocPhys f) (for_count count (populate self pages map f)) ;;;
  put_ent entry (mkEntry pages (page_at pages count) 0 map 0
    (mkFlags (a_protection f) (a_cacheType f) (a_user f) false (a_isPrivate f) (a_zero f)) 0) ;;;
  lock_entries self ;;;
  Insert_entry self pages entry ;;;
  unlock_entries self ;;;
  whenM (allocPhys f) (InvalidatePages self pages count false) ;;;
  ret pages.

(** Step 4 of [AllocateBackedPages], for page [i]. *)
Definition populate_backed (self pages obj off map : Z) (f : AllocFlags) (i : Z) : M state unit :=
  let write := 0 <? Z.land (a_protection f) WRITE in
  let* o := ld_obj obj in
  let* (rc, page) := GetPage (mo_pager o) obj (page_at off i) write in
  assertM rc ;;;
  let* g := ld_page page in
  if a_isPrivate f && write then
    let* anon := new_anon in
    let* an := ld_anon anon in
    machine (copy_frame (an_physAddr an) (pg_physAddr g)) ;;;
    MapPage self (page_at pages i) (an_physAddr an) (a_protection f) (a_user f) (a_cacheType f) ;;;
    set_slot map i anon
  else
    MapPage self (page_at pages i) (pg_physAddr g) (a_protection f) (a_user f) (a_cacheType f) ;;;
    ret tt.

Definition AllocateBackedPages (self count obj off addr : Z) (f : AllocFlags) : M state Z :=
  if (count =? 0) || (obj =? 0) then ret 0 else
  let page := Z.shiftr off PAGE_SIZE_SHIFT in
  acquire_obj obj ;;;
  let* o := ld_obj obj in
  if mo_size o <? add64 page count then release_obj obj ;;; ret 0 else
  let* pages := get_region self count addr f in
  if pages =? 0 then ret 0 else
  let giveUp := regions self (VMRegionAllocator.FreePages pages count true true) ;;; ret 0 in
  let* entry := kcalloc in
  if entry =? 0 then giveUp else
  let* map := (if a_isPrivate f then kcalloc else ret 0) in
  if a_isPrivate f && (map =? 0) then giveUp else
  let* mapSlots := (if a_isPrivate f then kcalloc else ret 0) in
  if a_isPrivate f && (mapSlots =? 0) then giveUp else
  whenM (a_isPrivate f) (put_map map (mkMap 1 count false (new_slots count))) ;;;
  whenM (allocPhys f) (for_count count (populate_backed self pages obj off map f)) ;;;
  put_ent entry (mkEntry pages (page_at pages count) off map obj
    (mkFlags (a_protection f) (a_cacheType f) (a_user f) false (a_isPrivate f) false) 0) ;;;
  upd_obj obj (fun o => set_obj_refs (add64 (mo_refCount o) 1) o) ;;;
  release_obj obj ;;;
  lock_entries self ;;;
  Insert_entry self pages entry ;;;
  unlock_entries self ;;;
  whenM (allocPhys f) (InvalidatePages self pages count false) ;;;
  ret pages.

(** Step 3 of [AllocMemObjAnonPages], for page [i]. *)
Definition populate_obj (self region obj off : Z) (f : AllocFlags) (i : Z) : M state unit :=
  let* page := kcalloc in
  if page =? 0 then fail NullDereference else
  let* frame := machine AllocatePage in
  put_page page (mkPage frame (a_protection f) (allocPhys f)) ;;;
  whenM (a_zero f) (machine (zero_frame frame)) ;;;
  MapPage self (page_at region i) frame (a_protection f) (a_user f) (a_cacheType f) ;;;
  upd_obj obj (fun o => set_obj_pages (snd (Insert (page_at off i) page (pages o))) o).

(** [objIn] is [*objOut], 0 for a null [objOut] too; the result is the address
    and the object stored in [*objOut]. The object passed in is locked and, as
    in the source, not released ([lockedObj] is never set). *)
Definition AllocMemObjAnonPages (self count pagerData off : Z) (f : AllocFlags) (objIn pager : Z)
    : M state (Z * Z) :=
  if (count =? 0) || (pagerData =? 0) then ret (0, objIn) else
  let* region := regions self (VMRegionAllocator.AllocatePages count) in
  if region =? 0 then ret (0, objIn) else
  let giveUp := regions self (VMRegionAllocator.FreePages region count true true) ;;; ret (0, objIn) in
  let* obj :=
    (if objIn =? 0 then
       let* obj := kcalloc in
       whenM (negb (obj =? 0)) (put_obj obj (mkObj count 1 [] pager pagerData false)) ;;; ret obj
     else
       acquire_obj objIn ;;;
       upd_obj objIn (fun o => mkObj (add64 (mo_size o) count) (add64 (mo_refCount o) 1) (pages o)
                                     (mo_pager o) (mo_pagerData o) (mo_lock o)) ;;;
       ret objIn) in
  if obj =? 0 then giveUp else
  let* entry := kcalloc in
  if entry =? 0 then kfree_obj obj ;;; giveUp else
  whenM (allocPhys f) (for_count count (populate_obj self region obj off f)) ;;;
  put_ent entry (mkEntry region (page_at region count) off 0 obj
    (mkFlags (a_protection f) (a_cacheType f) (a_user f) false (a_isPrivate f) (a_zero f))
    (if allocPhys f then count else 0)) ;;;
  lock_entries self ;;;
  Insert_entry self region entry ;;;
  unlock_entries self ;;;
  whenM (allocPhys f) (InvalidatePages self region count false) ;;;
  ret (region, obj).

(** ** [VMM::RemapPages] *)

(** Whether every page the callback sees admits the protection. *)
Fixpoint admits (prot startingIndex i : Z) (t : tree Z) : M state bool :=
  match t with
  | [] => ret true
  | (_, page) :: t' =>
      if negb (i =? startingIndex) then admits prot startingIndex (add64 i 1) t'
      else
        let* g := ld_page page in
        if isLessOrEqualProt prot (pg_protection g) then admits prot startingIndex i t' else ret false
  end.

(** Divide the entry so that one covers exactly the pages; 0 when memory is
    short or the region allocator refuses. *)
Definition isolate (self virtAddr virt count entry : Z) : M state Z :=
  let* e := ld_ent entry in
  let start := startVirt e in
  let end_ := endVirt e in
  let* entry :=
    (if startVirt e <? virt then
       let* newEntry := SplitMapEntry entry (Z.shiftr (sub64 virt (startVirt e)) PAGE_SIZE_SHIFT) in
       if newEntry =? 0 then ret 0 else
       let* n := ld_ent newEntry in
       Insert_entry self (startVirt n) newEntry ;;; ret newEntry
     else ret entry) in
  if entry =? 0 then ret 0 else
  let* e := ld_ent entry in
  let* ok :=
    (if page_at virt count <? endVirt e then
       let* newEntry := SplitMapEntry entry count in
       if newEntry =? 0 then ret false else
       let* n := ld_ent newEntry in
       Insert_entry self (startVirt n) newEntry ;;; ret true
     else ret true) in
  if negb ok then ret 0 else
  let* ok := regions self (VMRegionAllocator.ResizeAllocatedRegion start
    (Z.shiftr (sub64 end_ start) PAGE_SIZE_SHIFT) virtAddr count) in
  ret (if ok then entry else 0).

(** The page tables of one entry; [false] when a page does not admit the
    protection. *)
Definition remap_entry (self virt count prot : Z) (user : bool) (c : CacheType) (e : MapEntry) : M state bool :=
  let map := anonMap e in
  let obj := memoryObject e in
  if negb (map =? 0) then
    acquire_map map ;;;
    let* valid :=
      (if negb (obj =? 0) then
         acquire_obj obj ;;; let* o := ld_obj obj in admits prot (offset e) 0 (pages o)
       else ret true) in
    if negb valid then release_obj obj ;;; release_map map ;;; ret false else
    for_count count (fun i =>
      let* a := slot map i in
      if negb (a =? 0) then RemapPage self (page_at virt i) prot user c ;;; ret tt
      else if negb (obj =? 0) then
        let* o := ld_obj obj in
        match Find (add64 (offset e) i) (pages o) with
        | Some p => if p =? 0 then ret tt else RemapPage self (page_at virt i) prot user c ;;; ret tt
        | None => ret tt
        end
      else ret tt) ;;;
    whenM (negb (obj =? 0)) (release_obj obj) ;;;
    release_map map ;;;
    ret true
  else if negb (obj =? 0) then
    acquire_obj obj ;;;
    let* o := ld_obj obj in
    let* valid := admits prot (offset e) 0 (pages o) in
    if negb valid then release_obj obj ;;; release_map map ;;; ret false else
    forEach (pages o) (fun off _ =>
      RemapPage self (page_at virt (sub64 off (offset e))) prot user c ;;; ret tt) ;;;
    release_obj obj ;;;
    ret true
  else ret true.

Fixpoint RemapPages_loop (fuel : nat) (self virtAddr virt currentCount totalCount prot : Z) (user : bool)
    (c : CacheType) (full first multipleRegions shootdown : bool) : M state bool :=
  if negb (currentCount <? totalCount) then
    InvalidatePages self virtAddr totalCount shootdown ;;; ret true
  else
  match fuel with
  | O => fail OutOfFuel
  | S fuel' =>
      lock_entries self ;;;
      let* r := next_entry self virt currentCount totalCount full first multipleRegions in
      match r with
      | None => unlock_entries self ;;; ret false
      | Some (node, entry, count) =>
          let* e := ld_ent entry in
          let exactly := (startVirt e =? virt) && (endVirt e =? page_at virt count) in
          let* entry := (if negb full && negb exactly then isolate self virtAddr virt count entry else ret entry) in
          if entry =? 0 then unlock_entries self ;;; ret false else
          let count := if full then page_count e else count in
          let* e := ld_ent entry in
          let* ok := remap_entry self virt count prot user c e in
          if negb ok then unlock_entries self ;;; ret false else
          upd_ent entry (fun e => set_flags (set_prot prot user (flags e)) e) ;;;
          unlock_entries self ;;;
          let shootdown := shootdown || xorb user (VMM.user (flags e))
                           || PageMapper.isPermsReduction (protection (flags e)) prot in
          RemapPages_loop fuel' self virtAddr (page_at virt count) (add64 currentCount count) totalCount
            prot user c full false multipleRegions shootdown
      end
  end.

Definition RemapPages (self virtAddr totalCount prot : Z) (user : bool) (c : CacheType)
    (multipleRegions : bool) : M state bool :=
  let full := totalCount =? 0 in
  if full && multipleRegions then ret false else
  let totalCount := if full then 1 else totalCount in
  let* out := outside self virtAddr totalCount in
  if out then ret false
  else RemapPages_loop (S (Z.to_nat totalCount)) self virtAddr virtAddr 0 totalCount prot user c
         full true multipleRegions false.

(** ** [VMM::MapPages] *)

Definition MapPages (self virtAddr count : Z) : M state bool :=
  lock_entries self ;;;
  let* t := entries self in
  match FindNodeOrLower virtAddr t with
  | None => unlock_entries self ;;; ret false
  | Some (_, entry) =>
      if entry =? 0 then unlock_entries self ;;; ret false else
      let* e := ld_ent entry in
      if (endVirt e <=? virtAddr) || (endVirt e <? page_at virtAddr count) || (anonMap e =? 0)
      then unlock_entries self ;;; ret false else
      let map := anonMap e in
      acquire_map map ;;;
      let* m := ld_map map in
      let first := Z.shiftr (sub64 virtAddr (startVirt e)) PAGE_SIZE_SHIFT in
      for_n (Z.to_nat (slotCount m - first)) first (fun i =>
        let* a := slot map i in
        if negb (a =? 0) then ret tt else
        let* anon := new_anon in
        let* an := ld_anon anon in
        MapPage self (page_at (startVirt e) i) (an_physAddr an) (protection (flags e)) (user (flags e))
          (cacheType (flags e)) ;;;
        set_slot map i anon) ;;;
      release_map map ;;;
      unlock_entries self ;;;
      InvalidatePages self virtAddr count false ;;;
      ret true
  end.

(** ** [VMM::HandlePageFault] *)

(** Whether the protection allows the access that faulted. *)
Definition fault_valid (prot : Z) (code : PageFaultCode) : bool :=
  if prot =? READ then negb (write code) && negb (execute code)
  else if prot =? WRITE then write code && negb (execute code)
  else if prot =? EXECUTE then execute code
  else if prot =? PageMapper.READ_WRITE then negb (execute code)
  else if prot =? PageMapper.READ_EXECUTE then negb (write code)
  else prot =? PageMapper.READ_WRITE_EXECUTE.

(** The lookup in front of the work: the entry of the address, when there is
    one and the access is allowed. On [None] the tree is unlocked again. *)
Definition fault_entry (self : Z) (code : PageFaultCode) (virtAddr : Z) : M state (option (Z * MapEntry)) :=
  let* t := entries self in
  match FindNodeOrLower virtAddr t with
  | None => ret None
  | Some (_, entry) =>
      if entry =? 0 then ret None else
      let* e := ld_ent entry in
      if (virtAddr <? startVirt e) || (endVirt e <=? virtAddr) || ((anonMap e =? 0) && (memoryObject e =? 0))
      then ret None
      else if negb (fault_valid (protection (flags e)) code) then ret None
      else ret (Some (entry, e))
  end.

(** A new anon with a frame, 0 when there is no memory for one of them. *)
Definition try_new_anon : M state Z :=
  let* anon := kcalloc in
  if anon =? 0 then ret 0 else
  let* frame := machine AllocatePage in
  if frame =? 0 then ret 0 else
  put_anon anon (mkAnon 1 frame) ;;; ret anon.

(** The page has an anon, and a write to a shared one needs a copy. *)
Definition fault_copy (self virtAddr pageIndex anon : Z) (code : PageFaultCode) (e : MapEntry) : M state bool :=
  let map := anonMap e in
  let obj := memoryObject e in
  let* newAnon := try_new_anon in
  if newAnon =? 0 then release_map map ;;; ret false else
  let* n := ld_anon newAnon in
  let* an := ld_anon anon in
  let* result :=
    (if obj =? 0 then machine (copy_frame (an_physAddr n) (an_physAddr an)) ;;; ret true
     else
       acquire_obj obj ;;;
       let* o := ld_obj obj in
       let* (result, page) := GetPage (mo_pager o) obj (page_at (offset e) pageIndex) (write code) in
       whenM result (let* g := ld_page page in machine (copy_frame (an_physAddr n) (pg_physAddr g))) ;;;
       release_obj obj ;;;
       ret result) in
  let* result :=
    (if result then MapPage self virtAddr (an_physAddr n) (protection (flags e)) (user (flags e)) (cacheType (flags e))
     else ret false) in
  (if result then
     set_slot map pageIndex newAnon ;;;
     upd_anon anon (fun x => set_refs (sub64 (an_refCount x) 1) x) ;;;
     let* an := ld_anon anon in
     whenM (an_refCount an =? 0) (machine (FreePage (an_physAddr an)) ;;; kfree_anon anon)
   else machine (FreePage (an_physAddr n)) ;;; kfree_anon newAnon) ;;;
  release_map map ;;;
  ret result.

(** The page has an anon that need not be copied. *)
Definition fault_present_anon (self virtAddr anon : Z) (code : PageFaultCode) (e : MapEntry) : M state bool :=
  let* an := ld_anon anon in
  let prot := protection (flags e) in
  let mapProt := if 1 <? an_refCount an then without_write prot else prot in
  let* result :=
    (if present code then RemapPage self virtAddr mapProt (user (flags e)) (cacheType (flags e))
     else MapPage self virtAddr (an_physAddr an) mapProt (user (flags e)) (cacheType (flags e))) in
  release_map (anonMap e) ;;;
  ret result.

(** The slot is empty and the entry has a memory object behind it. The paths
    that return early leave the lock of the map held, as in the source. *)
Definition fault_backed (self virtAddr pageIndex : Z) (code : PageFaultCode) (e : MapEntry) : M state bool :=
  let map := anonMap e in
  let obj := memoryObject e in
  let prot := protection (flags e) in
  acquire_obj obj ;;;
  let* o := ld_obj obj in
  let* (rc, page) := GetPage (mo_pager o) obj (page_at (offset e) pageIndex) (write code) in
  if negb rc then release_obj obj ;;; ret false
  else if write code && needsCopy (flags e) then
    let* newAnon := try_new_anon in
    if newAnon =? 0 then release_obj obj ;;; ret false else
    let* n := ld_anon newAnon in
    let* g := ld_page page in
    machine (copy_frame (an_physAddr n) (pg_physAddr g)) ;;;
    let* result := MapPage self virtAddr (an_physAddr n) prot (user (flags e)) (cacheType (flags e)) in
    (if result then set_slot map pageIndex newAnon
     else machine (FreePage (an_physAddr n)) ;;; kfree_anon newAnon) ;;;
    release_obj obj ;;;
    ret result
  else
    let* g := ld_page page in
    let prot := if needsCopy (flags e) then without_write prot else prot in
    let* result := MapPage self virtAddr (pg_physAddr g) prot (user (flags e)) (cacheType (flags e)) in
    release_obj obj ;;;
    release_map map ;;;
    ret result.

(** The slot is empty and there is nothing behind it: a new frame. *)
Definition fault_fresh (self virtAddr pageIndex : Z) (code : PageFaultCode) (e : MapEntry) : M state bool :=
  let map := anonMap e in
  if present code then release_map map ;;; ret false else
  let* anon := kcalloc in
  if anon =? 0 then release_map map ;;; ret false else
  let* frame := machine AllocatePage in
  put_anon anon (mkAnon 1 frame) ;;;
  set_slot map pageIndex anon ;;;
  whenM (zero (flags e)) (machine (zero_frame frame)) ;;;
  let* result := MapPage self virtAddr frame (protection (flags e)) (user (flags e)) (cacheType (flags e)) in
  release_map map ;;;
  ret result.

(** An entry with a memory object only. *)
Definition fault_object (self virtAddr pageIndex : Z) (code : PageFaultCode) (e : MapEntry) : M state bool :=
  let obj := memoryObject e in
  let prot := protection (flags e) in
  let* o := ld_obj obj in
  let* (rc, page) := GetPage (mo_pager o) obj (page_at (offset e) pageIndex) (write code) in
  if negb rc || (page =? 0) then release_obj obj ;;; ret false else
  let* g := ld_page page in
  if negb (pg_physAddr g =? 0) then
    let* result :=
      (if present code then RemapPage self virtAddr prot (user (flags e)) (cacheType (flags e))
       else MapPage self virtAddr (pg_physAddr g) prot (user (flags e)) (cacheType (flags e))) in
    release_obj obj ;;;
    ret result
  else if present code then release_obj obj ;;; ret false
  else
    let* frame := machine AllocatePage in
    upd_page page (set_page_phys frame) ;;;
    whenM (zero (flags e)) (machine (zero_frame frame)) ;;;
    let* result := MapPage self virtAddr frame prot (user (flags e)) (cacheType (flags e)) in
    release_obj obj ;;;
    ret result.

Definition HandlePageFault (self : Z) (code : PageFaultCode) (virtAddr : Z) : M state bool :=
  let* v := gets (fun s => vmms s self) in
  if match m_vmRegionAllocator v with
     | None => true
     | Some r => (virtAddr <? VMRegionAllocator.m_start r) || (VMRegionAllocator.m_end r <=? virtAddr)
     end then ret false else
  lock_entries self ;;;
  let* r := fault_entry self code virtAddr in
  match r with
  | None => unlock_entries self ;;; ret false
  | Some (_, e) =>
      let virtAddr := ALIGN_DOWN virtAddr PAGE_SIZE in
      let pageIndex := Z.shiftr (sub64 virtAddr (startVirt e)) PAGE_SIZE_SHIFT in
      if negb (anonMap e =? 0) then
        acquire_map (anonMap e) ;;;
        unlock_entries self ;;;
        let* anon := slot (anonMap e) pageIndex in
        if negb (anon =? 0) then
          let* an := ld_anon anon in
          if write code && (1 <? an_refCount an) then fault_copy self virtAddr pageIndex anon code e
          else fault_present_anon self virtAddr anon code e
        else if negb (memoryObject e =? 0) then fault_backed self virtAddr pageIndex code e
        else fault_fresh self virtAddr pageIndex code e
      else
        acquire_obj (memoryObject e) ;;;
        unlock_entries self ;;;
        fault_object self virtAddr pageIndex code e
  end.

(** ** [VMM::ValidateRead] and [VMM::ValidateWrite] *)

(** The loop they share; [need] is the protection bit they ask for. *)
Fixpoint Validate_loop (fuel : nat) (need self virtAddr size : Z) (asUser : bool) : M state bool :=
  match fuel with
  | O => fail OutOfFuel
  | S fuel' =>
      let* t := entries self in
      match FindNodeOrLower virtAddr t with
      | None => unlock_entries self ;;; ret false
      | Some (_, entry) =>
          if entry =? 0 then unlock_entries self ;;; ret false else
          let* e := ld_ent entry in
          if (virtAddr <? startVirt e) || (asUser && negb (user (flags e))) || (Z.land (protection (flags e)) need =? 0)
          then unlock_entries self ;;; ret false
          else if add64 virtAddr size <=? endVirt e then unlock_entries self ;;; ret true
          else Validate_loop fuel' need self (endVirt e) (sub64 size (sub64 (endVirt e) virtAddr)) asUser
      end
  end.

Definition Validate (fuel : nat) (need self addr size : Z) (asUser : bool) : M state bool :=
  lock_entries self ;;; Validate_loop fuel need self addr size asUser.
Definition ValidateRead (fuel : nat) : Z -> Z -> Z -> bool -> M state bool := Validate fuel READ.
Definition ValidateWrite (fuel : nat) : Z -> Z -> Z -> bool -> M state bool := Validate fuel WRITE.

(** ** [VMM::CopyStringFromUser] *)

(** Where the bytes of the page come from. *)
Inductive source : Set := Frame (physAddr : Z) | ZeroPage | NotLoaded.

Definition page_source (e : MapEntry) (pageIndex : Z) : M state source :=
  let empty := if zero (flags e) then ZeroPage else NotLoaded in
  if negb (anonMap e =? 0) then
    acquire_map (anonMap e) ;;;
    let* a := slot (anonMap e) pageIndex in
    let* r := (if a =? 0 then ret empty else
               let* an := ld_anon a in
               ret (if an_physAddr an =? 0 then empty else Frame (an_physAddr an))) in
    release_map (anonMap e) ;;; ret r
  else if negb (memoryObject e =? 0) then
    acquire_obj (memoryObject e) ;;;
    let* o := ld_obj (memoryObject e) in
    let* r := match Find (page_at (offset e) pageIndex) (pages o) with
              | None => ret empty
              | Some p =>
                  if p =? 0 then ret empty else
                  let* g := ld_page p in
                  ret (if pg_physAddr g =? 0 then empty else Frame (pg_physAddr g))
              end in
    release_obj (memoryObject e) ;;; ret r
  else ret NotLoaded.

(** Copy bytes of a frame up to and including a null byte; the bytes copied and
    whether the null byte was among them. *)
Fixpoint copy_bytes (n : nat) (frame pageOffset : Z) : M state (list Z * bool) :=
  match n with
  | O => ret ([], false)
  | S n' =>
      let* c := machine (read_byte frame pageOffset) in
      if c =? 0 then ret ([c], true) else
      let* (l, stop) := copy_bytes n' frame (pageOffset + 1) in ret (c :: l, stop)
  end.

(** [copied] is the contents of [kernelDst] so far; the result is what is
    returned and the final contents, whose length is [*outSize]. *)
Fixpoint CopyString_loop (fuel : nat) (self virtAddr maxSize : Z) (asUser : bool) (copied : list Z)
    : M state (bool * list Z) :=
  let totalCopied := Z.of_nat (length copied) in
  if negb (totalCopied <? maxSize) then unlock_entries self ;;; ret (false, copied) else
  match fuel with
  | O => fail OutOfFuel
  | S fuel' =>
      let* t := entries self in
      match FindNodeOrLower virtAddr t with
      | None => unlock_entries self ;;; ret (false, copied)
      | Some (_, entry) =>
          if entry =? 0 then unlock_entries self ;;; ret (false, copied) else
          let* e := ld_ent entry in
          if (virtAddr <? startVirt e) || (endVirt e <=? virtAddr) || (asUser && negb (user (flags e))) ||
             (Z.land (protection (flags e)) READ =? 0)
          then unlock_entries self ;;; ret (false, copied) else
          let pageIndex := Z.shiftr (sub64 virtAddr (startVirt e)) PAGE_SIZE_SHIFT in
          let pageOffset := Z.land virtAddr (PAGE_SIZE - 1) in
          let bytesToProcess :=
            Z.min (PAGE_SIZE - pageOffset) (Z.min (sub64 (endVirt e) virtAddr) (maxSize - totalCopied)) in
          let* src := page_source e pageIndex in
          match src with
          | NotLoaded =>
              unlock_entries self ;;;
              let* ok := HandlePageFault self (mkCode false false asUser false) virtAddr in
              if negb ok then ret (false, copied) else
              lock_entries self ;;;
              CopyString_loop fuel' self virtAddr maxSize asUser copied
          | ZeroPage => unlock_entries self ;;; ret (true, copied ++ [0])
          | Frame frame =>
              let* (l, stop) := copy_bytes (Z.to_nat bytesToProcess) frame pageOffset in
              if stop then unlock_entries self ;;; ret (true, copied ++ l)
              else CopyString_loop fuel' self (add64 virtAddr bytesToProcess) maxSize asUser (copied ++ l)
          end
      end
  end.

Definition CopyStringFromUser (fuel : nat) (self userSrc maxSize : Z) (asUser : bool) : M state (bool * list Z) :=
  if maxSize =? 0 then ret (false, []) else
  lock_entries self ;;; CopyString_loop fuel self userSrc maxSize asUser [].

(** ** [VMM::Fork] *)

Definition share_slot (a : Z) : M state unit :=
  if a =? 0 then ret tt else upd_anon a (fun x => set_refs (add64 (an_refCount x) 1) x).
Fixpoint share_slots (l : list Z) : M state unit :=
  match l with [] => ret tt | a :: l' => share_slot a ;;; share_slots l' end.

(** The callback for one entry of [other]: [false] stops the traversal. *)
Definition Fork_entry (self other entry : Z) : M state bool :=
  let* newEntry := kcalloc in
  if newEntry =? 0 then ret false else
  let* e := ld_ent entry in
  let* map :=
    (if anonMap e =? 0 then ret (Some 0) else
     acquire_map (anonMap e) ;;;
     let* m := ld_map (anonMap e) in
     let* map := kcalloc in
     let* newSlots := kcalloc in
     if (map =? 0) || (newSlots =? 0) then release_map (anonMap e) ;;; ret None else
     let* l := slice (slots m) 0 (slotCount m) in
     share_slots l ;;;
     put_map map (mkMap 1 (slotCount m) false l) ;;;
     release_map (anonMap e) ;;;
     ret (Some map)) in
  match map with
  | None => ret false
  | Some map =>
      whenM (negb (memoryObject e =? 0))
        (acquire_obj (memoryObject e) ;;;
         upd_obj (memoryObject e) (fun o => set_obj_refs (add64 (mo_refCount o) 1) o) ;;;
         release_obj (memoryObject e)) ;;;
      upd_ent entry (fun e => set_flags (set_needsCopy (isPrivate (flags e)) (flags e)) e) ;;;
      let* e := ld_ent entry in
      put_ent newEntry (mkEntry (startVirt e) (endVirt e) (offset e) map (memoryObject e) (flags e) 0) ;;;
      whenM (isPrivate (flags e) && negb (Z.land (protection (flags e)) WRITE =? 0))
        (RemapPages_pm other (startVirt e) (page_count e) (without_write (protection (flags e)))
           (user (flags e)) (cacheType (flags e)) ;;;
         InvalidatePages other (startVirt e) (page_count e) true) ;;;
      Insert_entry self (startVirt e) newEntry ;;;
      ret true
  end.

(** The traversal, and [data.success]. *)
Fixpoint Fork_loop (self other : Z) (t : tree Z) : M state bool :=
  match t with
  | [] => ret true
  | (_, entry) :: t' => let* ok := Fork_entry self other entry in if ok then Fork_loop self other t' else ret false
  end.

Definition Fork (self other : Z) : M state bool :=
  lock_entries other ;;;
  lock_entries self ;;;
  let* t := entries other in
  let* ok := Fork_loop self other t in
  unlock_entries self ;;;
  unlock_entries other ;;;
  ret ok.

(** ** [VMM::Delete] and the rest *)

Definition delete_slot (self map : Z) (e : MapEntry) (i : Z) : M state unit :=
  let* a := slot map i in
  if a =? 0 then ret tt else
  let* an := ld_anon a in
  whenM (negb (an_physAddr an =? 0)) (UnmapPage self (page_at (startVirt e) i) ;;; ret tt) ;;;
  upd_anon a (fun x => set_refs (sub64 (an_refCount x) 1) x) ;;;
  let* an := ld_anon a in
  whenM (an_refCount an =? 0) (machine (FreePage (an_physAddr an)) ;;; kfree_anon a).

Definition delete_entry (self : Z) (_ entry : Z) : M state bool :=
  let* e := ld_ent entry in
  let map := anonMap e in
  let obj := memoryObject e in
  whenM (negb (map =? 0))
    (acquire_map map ;;;
     upd_map map (fun x => set_map_refs (sub64 (am_refCount x) 1) x) ;;;
     let* m := ld_map map in
     for_count (slotCount m) (delete_slot self map e) ;;;
     let* m := ld_map map in
     if am_refCount m =? 0 then kfree_map map else release_map map) ;;;
  whenM (negb (obj =? 0))
    (acquire_obj obj ;;;
     upd_obj obj (fun o => set_obj_refs (sub64 (mo_refCount o) 1) o) ;;;
     let* o := ld_obj obj in
     let del := mo_refCount o =? 0 in
     forEach (pages o) (fun off page =>
       let* g := ld_page page in
       whenM (negb (pg_physAddr g =? 0))
         (UnmapPage self (page_at (startVirt e) (sub64 off (offset e))) ;;;
          whenM del (machine (FreePage (pg_physAddr g)))) ;;;
       whenM del (kfree_page page)) ;;;
     if del then kfree_obj obj else release_obj obj) ;;;
  kfree_ent entry ;;;
  ret true.

Definition Delete (self : Z) : M state unit :=
  lock_entries self ;;;
  let* t := entries self in
  forEach_from 0 0 t (delete_entry self) ;;;
  (let* t := entries self in set_entries self (Clear t)) ;;;
  unlock_entries self.

Definition Init (self pageMapper : Z) (r : option VMRegionAllocator.state) : M state unit :=
  upd_vmm self (fun v => mkVMM r pageMapper (m_mapEntries v) (entries_lock v)).
Definition GetPageMapper (self : Z) : M state Z := mapper self.

End VMM.
End VMM.
