(* ===== verification/VMMSpec.v ===== *)
(** * VMMSpec.v: user pointer validation of the virtual memory manager

    [ValidateRead] and [ValidateWrite] decide whether a system call may touch a
    user buffer. They are right for buffers that are wholly mapped, accept no
    other buffer that does not wrap around the address space, but never return
    for a buffer that runs into a hole. *)

From S2P Require Import Prelude PageMapper AVLTree VMRegionAllocator VMM.
#[local] Open Scope Z_scope.
#[local] Open Scope kernel_scope.

Module VMMSpec.
Import AVLTree VMM.

(** *** Running the accesses *)

Section Access.
Context {E : Type}.
Implicit Types s : @state E.

Lemma bind_ok {A B} (m : M (@state E) A) (k : A -> M state B) s a s' : m s = Ok (a, s') -> bind m k s = k a s'.
Proof. intros Hm. unfold bind. by rewrite Hm. Qed.

Lemma ld_ok {T} (store : @state E -> gmap Z T) p x s :
  p <> 0 -> store s !! p = Some x -> ld store p s = Ok (x, s).
Proof. intros Hp Hx. unfold ld. by rewrite (proj2 (Z.eqb_neq _ _)), Hx. Qed.

Lemma ld_runs {T} (store : state -> gmap Z T) p x s (Q : T -> state -> Prop) :
  p <> 0 -> store s !! p = Some x -> Q x s -> runs (ld store p) s Q.
Proof.
  intros Hp Hx HQ. exists x, s. unfold ld. destruct (Z.eqb_spec p 0); [done|]. by rewrite Hx.
Qed.

Lemma upd_runs {T} (store : state -> gmap Z T) put p f x s (Q : unit -> state -> Prop) :
  p <> 0 -> store s !! p = Some x -> Q tt (put (<[p := f x]> (store s)) s) -> runs (upd store put p f) s Q.
Proof.
  intros Hp Hx HQ. unfold upd. mstep. eapply ld_runs; [done..|]. by apply runs_modify.
Qed.

Lemma unlock_runs self s (Q : unit -> state -> Prop) :
  Q tt (set_vmms (<[self := mkVMM (m_vmRegionAllocator (vmms s self)) (m_pageMapper (vmms s self))
                      (m_mapEntries (vmms s self)) false]> (vmms s)) s) ->
  runs (unlock_entries self) s Q.
Proof. intros HQ. eexists tt, _. split; [reflexivity|exact HQ]. Qed.

Lemma lock_entries_runs self s (Q : unit -> state -> Prop) : entries_lock (vmms s self) = false ->
  Q tt (set_vmms (<[self := mkVMM (m_vmRegionAllocator (vmms s self)) (m_pageMapper (vmms s self))
                      (m_mapEntries (vmms s self)) true]> (vmms s)) s) ->
  runs (lock_entries self) s Q.
Proof. intros Hl HQ. unfold lock_entries. mstep. mstep. rewrite Hl. eexists tt, _. split; [reflexivity|exact HQ]. Qed.
End Access.

(** *** Well-formed address spaces *)

Section Validate.
Context {E : Type} (self : Z).
Implicit Types s : @state E.

(** The tree holds live entries under their start, in order and disjoint. *)
Record space_ok (t : tree Z) (s : @state E) : Prop := {
  sp_sorted : sorted t;
  sp_entry : forall k p, (k, p) ∈ t -> exists e, p <> 0 /\ ents s !! p = Some e /\
    startVirt e = k /\ 0 <= k < endVirt e /\ endVirt e < W64;
  sp_disjoint : forall k p e k' p', (k, p) ∈ t -> ents s !! p = Some e -> (k', p') ∈ t -> k < k' ->
    endVirt e <= k'
}.

(** The address [x] lies in an entry with the protection bit [need], and in a
    user entry if [asUser]. *)
Definition allowed (need : Z) (asUser : bool) (e : MapEntry) : Prop :=
  (asUser = true -> user (flags e) = true) /\ Z.land (protection (flags e)) need <> 0.
Definition covered (need : Z) (asUser : bool) (t : tree Z) (s : @state E) (x : Z) : Prop :=
  exists k p e, (k, p) ∈ t /\ ents s !! p = Some e /\ k <= x < endVirt e /\ allowed need asUser e.

(** The state in which the tree is locked or not. *)
Definition with_lock (b : bool) s : state :=
  set_vmms (<[self := mkVMM (m_vmRegionAllocator (vmms s self)) (m_pageMapper (vmms s self))
                     (m_mapEntries (vmms s self)) b]> (vmms s)) s.

Context (need : Z) (asUser : bool) (t : tree Z) (s : @state E).
Context (Ht : m_mapEntries (vmms s self) = t) (Hok : space_ok t s).

(** What the tests of the loop decide. *)
Definition refused (addr : Z) (e : MapEntry) : bool :=
  (addr <? startVirt e) || (asUser && negb (user (flags e))) || (Z.land (protection (flags e)) need =? 0).

Lemma refused_spec addr e : startVirt e <= addr -> refused addr e = false <-> allowed need asUser e.
Proof.
  intros Hle. unfold refused, allowed. rewrite (proj2 (Z.ltb_ge _ _)) by lia. cbn.
  rewrite orb_false_iff, Z.eqb_neq. destruct asUser, (user (flags e)); cbn; intuition done.
Qed.

Lemma entry_facts l k p r e : t = l ++ (k, p) :: r -> ents s !! p = Some e ->
  p <> 0 /\ startVirt e = k /\ 0 <= k < endVirt e /\ endVirt e < W64.
Proof.
  intros Et He. destruct (sp_entry _ _ Hok k p) as (e' & Hp & He' & Hst & Hk & Hw); [rewrite Et; set_solver|].
  assert (e' = e) as -> by congruence. done.
Qed.

(** One round of the loop at the node it finds. *)
Lemma Validate_step fuel l k p r e addr size :
  t = l ++ (k, p) :: r -> ents s !! p = Some e -> k <= addr -> above addr r ->
  Validate_loop (S fuel) need self addr size asUser s =
  if refused addr e then Ok (false, with_lock false s)
  else if add64 addr size <=? endVirt e then Ok (true, with_lock false s)
  else Validate_loop fuel need self (endVirt e) (sub64 size (sub64 (endVirt e) addr)) asUser s.
Proof.
  intros Et He Hk Ha. destruct (entry_facts _ _ _ _ _ Et He) as (Hp & _).
  cbn [Validate_loop]. erewrite bind_ok by reflexivity. rewrite Ht, Et.
  rewrite FindNodeOrLower_middle; [|rewrite <- Et; apply (sp_sorted _ _ Hok)|done|done].
  rewrite (proj2 (Z.eqb_neq p 0)) by done. unfold ld_ent. erewrite bind_ok by (by apply ld_ok).
  fold (refused addr e). destruct (refused addr e); [done|]. by destruct (_ <=? _).
Qed.

(** At the end of an entry that is not followed by another one the loop makes
    no progress. *)
Lemma Validate_stuck l k p r e size : t = l ++ (k, p) :: r -> ents s !! p = Some e ->
  above (endVirt e) r -> allowed need asUser e -> 0 < size -> endVirt e + size < W64 ->
  forall fuel, Validate_loop fuel need self (endVirt e) size asUser s = Fail OutOfFuel.
Proof.
  intros Et He Ha Hal Hs Hb. destruct (entry_facts _ _ _ _ _ Et He) as (_ & Hst & Hk & _).
  induction fuel as [|fuel IH]; [done|].
  erewrite Validate_step; [|done|exact He|lia|done].
  rewrite (proj2 (refused_spec (endVirt e) e ltac:(lia)) Hal).
  rewrite add64_small, (proj2 (Z.leb_gt _ _)) by lia.
  rewrite (sub64_small (endVirt e) (endVirt e)), Z.sub_diag, sub64_small, Z.sub_0_r by lia. exact IH.
Qed.

Lemma Validate_past l k p r e addr size : t = l ++ (k, p) :: r -> ents s !! p = Some e ->
  endVirt e <= addr -> above addr r -> allowed need asUser e -> 0 < size -> addr + size < W64 ->
  forall fuel, Validate_loop fuel need self addr size asUser s = Fail OutOfFuel.
Proof.
  intros Et He Hge Ha Hal Hs Hb [|fuel]; [done|].
  destruct (entry_facts _ _ _ _ _ Et He) as (_ & Hst & Hk & Hw).
  erewrite Validate_step; [|done|exact He|lia|done].
  rewrite (proj2 (refused_spec addr e ltac:(lia)) Hal), add64_small, (proj2 (Z.leb_gt _ _)) by lia.
  replace (sub64 size (sub64 (endVirt e) addr)) with (size + (addr - endVirt e)).
  - eapply Validate_stuck; [exact Et|done|intros ?? Hin; specialize (Ha _ _ Hin); lia|done|lia|lia].
  - unfold sub64, wrap64. rewrite Zminus_mod_idemp_r.
    replace (size - (endVirt e - addr)) with (size + (addr - endVirt e)) by lia.
    rewrite Z.mod_small by lia. done.
Qed.

Lemma after_entry l k p r e k2 p2 : t = l ++ (k, p) :: r -> ents s !! p = Some e -> (k2, p2) ∈ r ->
  endVirt e <= k2.
Proof.
  intros Et He Hin. pose proof (sp_sorted _ _ Hok) as Hs. rewrite Et in Hs.
  apply sorted_middle in Hs as (_ & _ & _ & Har).
  eapply (sp_disjoint _ _ Hok k p e k2 p2); [rewrite Et; set_solver|done|rewrite Et; set_solver|by eapply Har].
Qed.

(** Inside an entry: the loop returns at once or moves to the end of it. *)
Lemma Validate_inside l k p r e addr size fuel : t = l ++ (k, p) :: r -> ents s !! p = Some e ->
  k <= addr < endVirt e -> allowed need asUser e -> 0 < size -> addr + size < W64 ->
  Validate_loop (S fuel) need self addr size asUser s =
  if addr + size <=? endVirt e then Ok (true, with_lock false s)
  else Validate_loop fuel need self (endVirt e) (addr + size - endVirt e) asUser s.
Proof.
  intros Et He Hk Hal Hs Hb. destruct (entry_facts _ _ _ _ _ Et He) as (_ & Hst & ? & ?).
  erewrite Validate_step; [|done|exact He|lia|].
  - rewrite (proj2 (refused_spec addr e ltac:(lia)) Hal), add64_small by lia.
    destruct (Z.leb_spec (addr + size) (endVirt e)); [done|].
    rewrite (sub64_small (endVirt e)), sub64_small by lia. f_equal. lia.
  - intros k2 p2 Hin. pose proof (after_entry _ _ _ _ _ _ _ Et He Hin). lia.
Qed.

(** The address after the last byte of an entry is covered only by the entry
    that starts there. *)
Lemma covered_next l k p r e : t = l ++ (k, p) :: r -> ents s !! p = Some e ->
  covered need asUser t s (endVirt e) ->
  exists p' r' e', r = (endVirt e, p') :: r' /\ ents s !! p' = Some e' /\ allowed need asUser e'.
Proof.
  intros Et He (k' & p' & e' & Hin & He' & Hx & Hal). pose proof (sp_sorted _ _ Hok) as Hs.
  destruct (entry_facts _ _ _ _ _ Et He) as (_ & _ & Hk & _).
  rewrite Et in Hs, Hin. apply sorted_middle in Hs as (_ & Hsr & Hb & Har).
  apply elem_of_app in Hin as [Hin|[Hin|Hin]%elem_of_cons].
  - assert (endVirt e' <= k); [|lia].
    eapply (sp_disjoint _ _ Hok k' p' e' k p); [rewrite Et; set_solver|done|rewrite Et; set_solver|by eapply Hb].
  - simplify_eq. lia.
  - pose proof (after_entry _ _ _ _ _ _ _ Et He Hin) as Hle. assert (k' = endVirt e) as -> by lia.
    apply list_elem_of_split in Hin as ([|[k2 p2] r1] & r2 & Er).
    { exists p', r2, e'. done. }
    exfalso. rewrite Er in Hsr. destruct Hsr as [Hk2 _].
    specialize (Hk2 (endVirt e) p' ltac:(set_solver)).
    pose proof (after_entry _ _ _ _ _ k2 p2 Et He ltac:(rewrite Er; set_solver)). lia.
Qed.

(** A buffer that is covered is accepted, in as many rounds as there are
    entries from its first one on. *)
Lemma Validate_complete r : forall l k p e addr size fuel, t = l ++ (k, p) :: r -> ents s !! p = Some e ->
  k <= addr < endVirt e -> 0 < size -> addr + size < W64 ->
  (forall x, addr <= x < addr + size -> covered need asUser t s x) ->
  allowed need asUser e -> (length r < fuel)%nat ->
  Validate_loop fuel need self addr size asUser s = Ok (true, with_lock false s).
Proof.
  induction r as [|[k1 p1] r IH]; intros l k p e addr size fuel Et He Hk Hs Hb Hc Hal Hf;
    (destruct fuel as [|fuel]; [cbn in Hf; lia|]); erewrite (Validate_inside _ _ _ _ _ _ _ _ Et He) by (done || lia);
    destruct (Z.leb_spec (addr + size) (endVirt e)) as [|Hgt]; try done;
    destruct (covered_next _ _ _ _ _ Et He (Hc (endVirt e) ltac:(lia))) as (p' & r' & e' & Er & He' & Hal'); [done|].
  injection Er as -> -> <-. destruct (entry_facts (l ++ [(k, p)]) (endVirt e) p' r e') as (_ & _ & Hk' & _);
    [by rewrite <- app_assoc|done|].
  eapply (IH (l ++ [(k, p)]) (endVirt e) p' e'); [by rewrite <- app_assoc|done|lia|lia|lia| |done|cbn in Hf; lia].
  intros x Hx. apply Hc. lia.
Qed.

(** A buffer that is accepted is covered. *)
Lemma Validate_sound fuel : forall addr size s', 0 < size -> 0 <= addr -> addr + size < W64 ->
  Validate_loop fuel need self addr size asUser s = Ok (true, s') ->
  forall x, addr <= x < addr + size -> covered need asUser t s x.
Proof.
  induction fuel as [|fuel IH]; intros addr size s' Hs Ha Hb Hv x Hx; [done|].
  destruct (cut t addr (sp_sorted _ _ Hok)) as [Hab|(l & k & p & r & Et & Hk & Hab)].
  { cbn [Validate_loop] in Hv. erewrite bind_ok in Hv by reflexivity.
    rewrite Ht, FindNodeOrLower_below in Hv by done. done. }
  destruct (sp_entry _ _ Hok k p) as (e & Hp & He & Hst & Hke & _); [rewrite Et; set_solver|].
  destruct (refused addr e) eqn:Er.
  { erewrite Validate_step, Er in Hv by done. done. }
  apply refused_spec in Er; [|lia].
  destruct (decide (endVirt e <= addr)) as [Hge|Hlt].
  { by erewrite Validate_past in Hv by done. }
  erewrite (Validate_inside _ _ _ _ _ _ _ _ Et He) in Hv by (done || lia).
  destruct (decide (x < endVirt e)) as [Hxe|Hxe].
  { exists k, p, e. split; [rewrite Et; set_solver|]. split; [done|]. split; [lia|exact Er]. }
  destruct (Z.leb_spec (addr + size) (endVirt e)); [lia|].
  eapply (IH (endVirt e) (addr + size - endVirt e) s'); [lia|lia|lia|exact Hv|lia].
Qed.

End Validate.

(** Taking the lock changes neither the entries nor the tree. *)
Lemma space_ok_lock {E} self b t (s : @state E) : space_ok t s -> space_ok t (with_lock self b s).
Proof. intros [H1 H2 H3]. by constructor. Qed.

Lemma with_lock_tree {E} self b (s : @state E) :
  m_mapEntries (vmms (with_lock self b s) self) = m_mapEntries (vmms s self).
Proof. unfold with_lock. cbn. by rewrite fn_lookup_insert. Qed.

Lemma Validate_unfold {E} fuel need self addr size asUser (s : @state E) : entries_lock (vmms s self) = false ->
  Validate fuel need self addr size asUser s = Validate_loop fuel need self addr size asUser (with_lock self true s).
Proof.
  intros Hl. unfold Validate. erewrite (bind_ok (lock_entries self) _ s tt); [reflexivity|].
  unfold lock_entries. erewrite bind_ok by reflexivity. by rewrite Hl.
Qed.

(** C4: [VMM::ValidateRead] and [VMM::ValidateWrite] accept a buffer that does
    not wrap around the address space exactly when every byte of it lies in an
    entry with the required protection (and user access): a covered buffer is
    accepted within one round per entry, releasing the lock and changing nothing
    else, and no other buffer is ever accepted. *)
Theorem Validate_spec {E} need self addr size asUser (t : tree Z) (s : @state E) :
  m_mapEntries (vmms s self) = t -> space_ok t s -> entries_lock (vmms s self) = false ->
  0 <= addr -> 0 < size -> addr + size < W64 ->
  ((forall x, addr <= x < addr + size -> covered need asUser t s x) ->
   runs (Validate (length t) need self addr size asUser) s (fun r s' =>
     r = true /\ s' = with_lock self false (with_lock self true s))) /\
  (forall fuel s', Validate fuel need self addr size asUser s = Ok (true, s') ->
   forall x, addr <= x < addr + size -> covered need asUser t s x).
Proof.
  intros Et Hok Hl Ha Hs Hb. set (s1 := with_lock self true s).
  assert (Et1 : m_mapEntries (vmms s1 self) = t) by (by unfold s1; rewrite with_lock_tree).
  assert (Hok1 : space_ok t s1) by by apply space_ok_lock.
  split.
  - intros Hc. destruct (Hc addr ltac:(lia)) as (k & p & e & Hin & He & Hk & Hal).
    apply list_elem_of_split in Hin as (l & r & Etl).
    eapply runs_eq; [|done]. rewrite Validate_unfold by done. fold s1.
    eapply Validate_complete; [exact Et1|exact Hok1|exact Etl|exact He|lia|done|done|exact Hc|done|].
    rewrite Etl, length_app. cbn. lia.
  - intros fuel s' Hv. rewrite Validate_unfold in Hv by done. fold s1 in Hv.
    eapply (Validate_sound self need asUser t s1 Et1 Hok1 fuel addr size s'); try done.
Qed.

(** For a buffer that starts in an accessible entry and runs past its end,
    with no entry following directly, the loop of [ValidateRead] and
    [ValidateWrite] makes no progress: the functions never return, while they
    hold the lock of the tree. *)
Theorem Validate_hangs {E} need self addr size asUser (t : tree Z) (s : @state E) k p e :
  m_mapEntries (vmms s self) = t -> space_ok t s -> entries_lock (vmms s self) = false ->
  (k, p) ∈ t -> ents s !! p = Some e -> k <= addr < endVirt e -> allowed need asUser e ->
  (forall k' p', (k', p') ∈ t -> k' <> endVirt e) ->
  0 < size -> endVirt e < addr + size < W64 ->
  forall fuel, Validate fuel need self addr size asUser s = Fail OutOfFuel.
Proof.
  intros Et Hok Hl Hin He Hk Hal Hno Hs Hb fuel. rewrite Validate_unfold by done.
  assert (Et1 : m_mapEntries (vmms (with_lock self true s) self) = t) by by rewrite with_lock_tree.
  pose proof (space_ok_lock self true t s Hok) as Hok1.
  apply list_elem_of_split in Hin as (l & r & Etl). destruct fuel as [|fuel]; [done|].
  rewrite (Validate_inside self need asUser t _ Et1 Hok1 l k p r e) by (done || lia).
  destruct (Z.leb_spec (addr + size) (endVirt e)); [lia|].
  eapply Validate_stuck; [exact Et1|exact Hok1|exact Etl|exact He| |exact Hal|lia|lia].
  intros k2 p2 Hin2. pose proof (after_entry self t _ Et1 Hok1 _ _ _ _ _ _ _ Etl He Hin2).
  specialize (Hno k2 p2). rewrite Etl in Hno. specialize (Hno ltac:(set_solver)). lia.
Qed.

(** The end of the buffer is computed modulo 2^64: a buffer that starts in
    an accessible entry and is so long that it wraps around is accepted, though
    almost none of it is mapped. *)
Theorem Validate_wraps {E} need self addr size asUser (t : tree Z) (s : @state E) k p e fuel :
  m_mapEntries (vmms s self) = t -> space_ok t s -> entries_lock (vmms s self) = false ->
  (k, p) ∈ t -> ents s !! p = Some e -> k <= addr < endVirt e -> allowed need asUser e ->
  W64 <= addr + size <= W64 + endVirt e ->
  runs (Validate (S fuel) need self addr size asUser) s (fun r _ => r = true).
Proof.
  intros Et Hok Hl Hin He Hk Hal Hb.
  assert (Et1 : m_mapEntries (vmms (with_lock self true s) self) = t) by by rewrite with_lock_tree.
  pose proof (space_ok_lock self true t s Hok) as Hok1.
  apply list_elem_of_split in Hin as (l & r & Etl).
  destruct (entry_facts self t s Et Hok _ _ _ _ _ Etl He) as (_ & Hst & Hke & Hew).
  eapply runs_eq; [rewrite Validate_unfold by done|done].
  erewrite (Validate_step self need asUser t _ Et1 Hok1 fuel l k p r e); [|done|done|lia|].
  - rewrite (proj2 (refused_spec need asUser addr e ltac:(lia)) Hal).
    unfold add64, wrap64. replace (addr + size) with ((addr + size - W64) + 1 * W64) by lia.
    rewrite Z_mod_plus_full. destruct (decide (addr + size - W64 < W64)) as [Hlt|Hge]; [|lia].
    rewrite Z.mod_small, (proj2 (Z.leb_le _ _)) by lia. done.
  - intros k2 p2 Hin2. pose proof (after_entry self t _ Et1 Hok1 _ _ _ _ _ _ _ Etl He Hin2). lia.
Qed.
(** *** An address space with two entries and a hole behind them *)

Definition demo_entry (start end_ : Z) : MapEntry :=
  mkEntry start end_ 0 7 0 (mkFlags PageMapper.READ_WRITE PageMapper.WRITE_BACK true false true true) 0.
Definition demo_tree : tree Z := [(4096, 1); (8192, 2)].
Definition demo_space : @state unit :=
  mk ∅ ∅ ∅ ∅ (<[1 := demo_entry 4096 8192]> (<[2 := demo_entry 8192 16384]> ∅))
     (fun _ => mkVMM None 0 demo_tree false) 2 tt.

Lemma demo_space_ok : space_ok demo_tree demo_space.
Proof.
  constructor.
  - cbn. split_and!; try done; intros k v Hin; rewrite ?elem_of_cons in Hin;
      repeat (destruct Hin as [[= -> ->]|Hin]; [lia|]); by apply not_elem_of_nil in Hin.
  - intros k p [[= -> ->]|[[= -> ->]|[]%not_elem_of_nil]%elem_of_cons]%elem_of_cons;
      eexists; (split; [done|]); (split; [reflexivity|]); cbn; lia.
  - intros k p e k' p' H1 He H2 Hlt. revert He.
    apply elem_of_cons in H1 as [[= -> ->]|[[= -> ->]|[]%not_elem_of_nil]%elem_of_cons];
    apply elem_of_cons in H2 as [[= -> ->]|[[= -> ->]|[]%not_elem_of_nil]%elem_of_cons];
      try lia; intros He; vm_compute in He; injection He as <-; cbn; lia.
Qed.

Lemma Validate_spec_witness :
  runs (ValidateRead 2 0 5000 10000 true) demo_space (fun r s' =>
    r = true /\ s' = with_lock 0 false (with_lock 0 true demo_space)).
Proof.
  apply (Validate_spec READ 0 5000 10000 true demo_tree demo_space); [done|exact demo_space_ok|done|lia..|].
  intros x Hx. destruct (decide (x < 8192)).
  - exists 4096, 1, (demo_entry 4096 8192). split; [set_solver|]. split; [done|]. split; [cbn; lia|].
    by split; vm_compute.
  - exists 8192, 2, (demo_entry 8192 16384). split; [set_solver|]. split; [done|]. split; [cbn; lia|].
    by split; vm_compute.
Defined.

Lemma Validate_hangs_witness :
  ValidateRead 1000 0 9000 10000 true demo_space = Fail OutOfFuel.
Proof.
  apply (Validate_hangs READ 0 9000 10000 true demo_tree demo_space 8192 2 (demo_entry 8192 16384));
    [done|exact demo_space_ok|done|set_solver|done|cbn; lia|by split; vm_compute| |lia|cbn; lia].
  intros k' p' [[= -> ->]|[[= -> ->]|[]%not_elem_of_nil]%elem_of_cons]%elem_of_cons; cbn; lia.
Defined.

Lemma Validate_wraps_witness :
  runs (ValidateRead 1 0 9000 (2 ^ 64 - 9000) true) demo_space (fun r _ => r = true).
Proof.
  apply (Validate_wraps READ 0 9000 (2 ^ 64 - 9000) true demo_tree demo_space 8192 2 (demo_entry 8192 16384) 0);
    [done|exact demo_space_ok|done|set_solver|done|cbn; lia|by split; vm_compute|cbn; lia].
Defined.

End VMMSpec.
