(* ===== verification/VMMShare.v ===== *)
(** * VMMShare.v: sharing of anonymous pages between address spaces

    After a fork two address spaces refer to the same anons; a write fault gives
    the writer a copy. This file proves that the reference count of every anon
    stays the number of slots that refer to it, through forks and page faults,
    what a copy-on-write fault does, and where the code loses track of a shared
    frame. *)

From S2P Require Import Prelude PageMapper AVLTree VMRegionAllocator VMM VMMSpec.
#[local] Open Scope Z_scope.
#[local] Open Scope kernel_scope.

Module VMMShare.
Import AVLTree VMM VMMSpec.

(** ** Counting references *)

Definition occurs (a : Z) (l : list Z) : Z := Z.of_nat (length (filter (fun x => x = a) l)).
(** The slots of all maps; a map is represented by its slot count and slots. *)
Notation slot_table := (gmap Z (Z * list Z)).
Definition refs (a : Z) (L : slot_table) : Z :=
  foldr Z.add 0 ((fun x => occurs a x.2.2) <$> map_to_list L).

Lemma occurs_cons a x l : occurs a (x :: l) = (if decide (x = a) then 1 else 0) + occurs a l.
Proof. unfold occurs. rewrite filter_cons. destruct (decide (x = a)); cbn [length]; lia. Qed.

Lemma occurs_insert a l i old v : l !! i = Some old ->
  occurs a (<[i := v]> l) = occurs a l - (if decide (old = a) then 1 else 0) + (if decide (v = a) then 1 else 0).
Proof.
  revert i. induction l as [|x l IH]; intros [|i] Hi; try done; cbn in Hi.
  - simplify_eq. change (<[0%nat := v]> (old :: l)) with (v :: l). rewrite !occurs_cons. lia.
  - change (<[S i := v]> (x :: l)) with (x :: <[i := v]> l). rewrite !occurs_cons, (IH i Hi). lia.
Qed.

Lemma occurs_none a l : a ∉ l -> occurs a l = 0.
Proof.
  induction l as [|x l IH]; intros Ha; [done|]. rewrite occurs_cons, IH by set_solver.
  rewrite decide_False; [done|set_solver].
Qed.

Lemma foldr_add_perm (l1 l2 : list Z) : l1 ≡ₚ l2 -> foldr Z.add 0 l1 = foldr Z.add 0 l2.
Proof. induction 1; cbn; lia. Qed.

Lemma refs_insert_new a L p x : L !! p = None -> refs a (<[p := x]> L) = occurs a x.2 + refs a L.
Proof.
  intros Hp. unfold refs. erewrite foldr_add_perm; [|by rewrite (map_to_list_insert L p x)]. done.
Qed.

Lemma refs_insert a L p x y : L !! p = Some x ->
  refs a (<[p := y]> L) = refs a L - occurs a x.2 + occurs a y.2.
Proof.
  intros Hp. rewrite <- (insert_delete_eq L p y).
  rewrite refs_insert_new by apply lookup_delete_eq.
  rewrite <- (insert_id L p x Hp) at 2. rewrite <- (insert_delete_eq L p x).
  rewrite refs_insert_new by apply lookup_delete_eq. lia.
Qed.

Lemma refs_none a L : (forall p c l, L !! p = Some (c, l) -> a ∉ l) -> refs a L = 0.
Proof.
  induction L as [|p x L Hp IH] using map_ind; intros Ha; [done|].
  rewrite refs_insert_new, occurs_none, IH; [done| | |done].
  - intros q c l Hq. apply (Ha q c l). rewrite lookup_insert_ne; [done|]. intros ->. by rewrite Hp in Hq.
  - destruct x as [c l]. apply (Ha p c l). by rewrite lookup_insert_eq.
Qed.

Section Share.
Context {E : Type} `{Machine E}.
Context (kcalloc_ok : nat -> bool).
Context (GetPage : Z -> Z -> Z -> bool -> M (@state E) (bool * Z)).
Implicit Types s : @state E.

Definition slots_of s : slot_table := (fun m => (slotCount m, slots m)) <$> maps s.

(** ** The invariant

    Anons and maps live at pointers that have been handed out, slots are null or
    point to live anons, and the count of an anon is the number of slots that
    point to it (in the 64 bits of the counter). *)
Record shared s : Prop := {
  sh_anon : forall a, is_Some (anons s !! a) -> 0 < a <= Z.of_nat (allocs s);
  sh_map : forall p, is_Some (slots_of s !! p) -> 0 < p <= Z.of_nat (allocs s);
  sh_slot : forall p c l a, slots_of s !! p = Some (c, l) -> a ∈ l -> a = 0 \/ is_Some (anons s !! a);
  sh_count : forall a an, anons s !! a = Some an -> an_refCount an = wrap64 (refs a (slots_of s))
}.

(** What most steps leave alone. *)
Record kept_view s s' : Prop := {
  kv_anons : anons s' = anons s;
  kv_slots : slots_of s' = slots_of s;
  kv_allocs : (allocs s <= allocs s')%nat
}.

Lemma shared_view s s' : kept_view s s' -> shared s -> shared s'.
Proof.
  intros [Ea Es El] [H1 H2 H3 H4]. constructor; rewrite ?Ea, ?Es; try done.
  - intros a Ha. specialize (H1 a Ha). lia.
  - intros p Hp. specialize (H2 p Hp). lia.
Qed.

#[global] Instance kept_view_preorder : PreOrder kept_view.
Proof.
  split.
  - by constructor.
  - intros s1 s2 s3 [A1 B1 C1] [A2 B2 C2]. constructor; [congruence|congruence|lia].
Qed.

(** *** What holds after a computation that returns *)

Definition post {A} (m : M (@state E) A) s (Q : A -> @state E -> Prop) : Prop :=
  forall a s', m s = Ok (a, s') -> Q a s'.

Lemma post_bind {A B} (m : M state A) (k : A -> M state B) s Q :
  post m s (fun a s1 => post (k a) s1 Q) -> post (bind m k) s Q.
Proof.
  intros Hm b s' Hb. unfold bind in Hb. destruct (m s) as [[a s1]|] eqn:Em; [|done]. by eapply Hm.
Qed.
Lemma post_ret {A} (a : A) s (Q : A -> state -> Prop) : Q a s -> post (ret a) s Q.
Proof. intros HQ ?? [= <- <-]. done. Qed.
Lemma post_mono {A} (m : M state A) s (Q Q' : A -> state -> Prop) :
  post m s Q -> (forall a s', Q a s' -> Q' a s') -> post m s Q'.
Proof. intros Hm HQ a s' Ha. by apply HQ, Hm. Qed.
Lemma post_fail {A} f s (Q : A -> state -> Prop) : post (fail f) s Q.
Proof. done. Qed.
Lemma post_modify f s (Q : unit -> state -> Prop) : Q tt (f s) -> post (modify f) s Q.
Proof. intros HQ ?? [= <- <-]. done. Qed.
Lemma post_gets {A} (f : state -> A) s (Q : A -> state -> Prop) : Q (f s) s -> post (gets f) s Q.
Proof. intros HQ ?? [= <- <-]. done. Qed.
Lemma post_ld {T} (store : state -> gmap Z T) p s (Q : T -> state -> Prop) :
  (forall x, p <> 0 -> store s !! p = Some x -> Q x s) -> post (ld store p) s Q.
Proof.
  intros HQ x s' Hx. unfold ld in Hx. destruct (Z.eqb_spec p 0); [done|].
  destruct (store s !! p) eqn:Ep; [|done]. simplify_eq. by apply HQ.
Qed.
Lemma post_upd {T} (store : state -> gmap Z T) put p f s (Q : unit -> state -> Prop) :
  (forall x, p <> 0 -> store s !! p = Some x -> Q tt (put (<[p := f x]> (store s)) s)) ->
  post (upd store put p f) s Q.
Proof. intros HQ. unfold upd. apply post_bind, post_ld. intros x Hp Hx. by apply post_modify, HQ. Qed.

(** A computation that keeps the view. *)
Definition quiet {A} (m : M state A) : Prop := forall s, post m s (fun _ s' => kept_view s s').

Lemma quiet_bind {A B} (m : M state A) (k : A -> M state B) : quiet m -> (forall a, quiet (k a)) -> quiet (bind m k).
Proof.
  intros Hm Hk s. apply post_bind. eapply post_mono; [apply Hm|]. intros a s1 H1.
  eapply post_mono; [apply Hk|]. intros b s2 H2. etrans; [exact H1|exact H2].
Qed.
Lemma quiet_ret {A} (a : A) : quiet (ret a).
Proof. intros s. apply post_ret. reflexivity. Qed.
Lemma quiet_fail {A} f : quiet (@fail state A f).
Proof. intros s. apply post_fail. Qed.
Lemma quiet_if {A} (b : bool) (m1 m2 : M state A) : quiet m1 -> quiet m2 -> quiet (if b then m1 else m2).
Proof. by destruct b. Qed.
Lemma quiet_when b (m : M state unit) : quiet m -> quiet (whenM b m).
Proof. intros Hm. unfold whenM. destruct b; [done|apply quiet_ret]. Qed.
Lemma quiet_assert b : quiet (@assertM state b).
Proof. unfold assertM. destruct b; [apply quiet_ret|apply quiet_fail]. Qed.
Lemma quiet_gets {A} (f : state -> A) : quiet (gets f).
Proof. intros s. apply post_gets. reflexivity. Qed.
Lemma quiet_modify f : (forall s, kept_view s (f s)) -> quiet (modify f).
Proof. intros Hf s. by apply post_modify. Qed.
Lemma quiet_ld {T} (store : state -> gmap Z T) p : quiet (ld store p).
Proof. intros s. apply post_ld. reflexivity. Qed.
Lemma quiet_machine {A} (m : M E A) : quiet (machine m).
Proof.
  intros s a s' Ha. unfold machine in Ha. destruct (m (env s)) as [[b e]|]; [|done]. simplify_eq. by constructor.
Qed.
Lemma quiet_regions {A} self (m : M VMRegionAllocator.state A) : quiet (regions self m).
Proof.
  intros s a s' Ha. unfold regions in Ha. destruct (m_vmRegionAllocator _) as [r|]; [|done].
  destruct (m r) as [[b r']|]; [|done]. simplify_eq. by constructor.
Qed.
Lemma quiet_kcalloc : quiet (kcalloc kcalloc_ok).
Proof. intros s a s' Ha. unfold kcalloc in Ha. injection Ha as _ <-. by constructor; [..|cbn; lia]. Qed.
Lemma quiet_upd_map p f : (forall m, slotCount (f m) = slotCount m /\ slots (f m) = slots m) -> quiet (upd_map p f).
Proof.
  intros Hf s. apply post_upd. intros m Hp Hm. constructor; [done| |done]. unfold slots_of. cbn.
  rewrite fmap_insert. destruct (Hf m) as [-> ->]. apply insert_id. by rewrite lookup_fmap, Hm.
Qed.

Lemma quiet_upd_obj p f : quiet (upd_obj p f).
Proof. intros s. apply post_upd. by constructor. Qed.
Lemma quiet_upd_ent p f : quiet (upd_ent p f).
Proof. intros s. apply post_upd. by constructor. Qed.
Lemma quiet_upd_page p f : quiet (upd_page p f).
Proof. intros s. apply post_upd. by constructor. Qed.
Lemma quiet_upd_vmm self f : quiet (upd_vmm self f).
Proof. apply quiet_modify. by constructor. Qed.

(** Decompose a computation into quiet steps. *)
Ltac quiet_step :=
  lazymatch goal with
  | |- quiet (bind _ _) => apply quiet_bind; [|intros ?]
  | |- quiet (ret _) => apply quiet_ret
  | |- quiet (fail _) => apply quiet_fail
  | |- quiet (whenM _ _) => apply quiet_when
  | |- quiet (assertM _) => apply quiet_assert
  | |- quiet (gets _) => apply quiet_gets
  | |- quiet (machine _) => apply quiet_machine
  | |- quiet (regions _ _) => apply quiet_regions
  | |- quiet (kcalloc _) => apply quiet_kcalloc
  | |- quiet (ld_anon _) => apply quiet_ld
  | |- quiet (ld_map _) => apply quiet_ld
  | |- quiet (ld_obj _) => apply quiet_ld
  | |- quiet (ld_page _) => apply quiet_ld
  | |- quiet (ld_ent _) => apply quiet_ld
  | |- quiet (upd_map _ _) => apply quiet_upd_map; done
  | |- quiet (upd_obj _ _) => apply quiet_upd_obj
  | |- quiet (upd_ent _ _) => apply quiet_upd_ent
  | |- quiet (upd_page _ _) => apply quiet_upd_page
  | |- quiet (upd_vmm _ _) => apply quiet_upd_vmm
  | |- quiet (modify _) => apply quiet_modify; by constructor
  | |- quiet (if ?b then _ else _) => apply quiet_if
  | |- quiet (match ?x with _ => _ end) => destruct x
  end.
Ltac quiet := repeat quiet_step; try done.

Lemma quiet_acquire_map p : quiet (acquire_map p). Proof. unfold acquire_map. quiet. Qed.
Lemma quiet_release_map p : quiet (release_map p). Proof. unfold release_map. quiet. Qed.
Lemma quiet_acquire_obj p : quiet (acquire_obj p). Proof. unfold acquire_obj. quiet. Qed.
Lemma quiet_release_obj p : quiet (release_obj p). Proof. unfold release_obj. quiet. Qed.
Lemma quiet_lock_entries p : quiet (lock_entries p). Proof. unfold lock_entries. quiet. Qed.
Lemma quiet_unlock_entries p : quiet (unlock_entries p). Proof. unfold unlock_entries. quiet. Qed.
Lemma quiet_entries p : quiet (entries p). Proof. unfold entries. quiet. Qed.
Lemma quiet_Insert_entry self k e : quiet (Insert_entry self k e).
Proof. unfold Insert_entry, set_entries. quiet. apply quiet_entries. Qed.
Lemma quiet_slot m i : quiet (slot m i). Proof. unfold slot. quiet. Qed.
Lemma quiet_MapPage self v f p u c : quiet (MapPage self v f p u c). Proof. unfold MapPage, mapper. quiet. Qed.
Lemma quiet_RemapPage self v p u c : quiet (RemapPage self v p u c). Proof. unfold RemapPage, mapper. quiet. Qed.
Lemma quiet_RemapPages self v n p u c : quiet (RemapPages_pm self v n p u c).
Proof. unfold RemapPages_pm, mapper. quiet. Qed.
Lemma quiet_Invalidate self v n b : quiet (InvalidatePages self v n b).
Proof. unfold InvalidatePages, mapper. quiet. Qed.
Hint Resolve quiet_acquire_map quiet_release_map quiet_acquire_obj quiet_release_obj quiet_lock_entries
  quiet_unlock_entries quiet_entries quiet_Insert_entry quiet_slot quiet_MapPage quiet_RemapPage
  quiet_RemapPages quiet_Invalidate : core.

(** Go over a quiet step. *)
Lemma post_quiet {A B} (m : M state A) (k : A -> M state B) s Q : quiet m ->
  (forall a s1, kept_view s s1 -> post (k a) s1 Q) -> post (bind m k) s Q.
Proof.
  intros Hm Hk. apply post_bind. eapply post_mono; [apply Hm|]. intros a s1 H1. by apply Hk.
Qed.

(** ** Steps that change the slots *)

(** Slot [i] of a map changes from [old] (0 or an anon) to a new anon. *)
Lemma shared_swap s s' m c l i old n f :
  shared s -> slots_of s !! m = Some (c, l) -> l !! i = Some old ->
  Z.of_nat (allocs s) < n <= Z.of_nat (allocs s') ->
  slots_of s' = <[m := (c, <[i := n]> l)]> (slots_of s) ->
  (forall x, anons s' !! x = if decide (x = n) then Some (mkAnon 1 f)
     else if decide (x = old) then (fun y => set_refs (sub64 (an_refCount y) 1) y) <$> anons s !! x
     else anons s !! x) ->
  shared s'.
Proof.
  intros Hs Hm Hi Hn EL EA.
  assert (Hfresh : anons s !! n = None).
  { destruct (anons s !! n) eqn:En; [|done]. pose proof (sh_anon _ Hs n (mk_is_Some _ _ En)). lia. }
  assert (Hlive : forall x, is_Some (anons s !! x) -> is_Some (anons s' !! x)).
  { intros x Hx. rewrite EA. repeat case_decide; rewrite ?fmap_is_Some; eauto. }
  assert (Hrefs : forall x, refs x (slots_of s') =
            refs x (slots_of s) - (if decide (old = x) then 1 else 0) + (if decide (n = x) then 1 else 0)).
  { intros x. rewrite EL. rewrite (refs_insert x _ _ _ _ Hm). cbn. rewrite (occurs_insert x l i old n Hi). lia. }
  constructor.
  - intros x Hx. rewrite EA in Hx. repeat case_decide; subst.
    + lia.
    + apply fmap_is_Some in Hx. pose proof (sh_anon _ Hs _ Hx). lia.
    + pose proof (sh_anon _ Hs _ Hx). lia.
  - intros p Hp. rewrite EL in Hp. destruct (decide (p = m)) as [->|Hne].
    + pose proof (sh_map _ Hs _ (mk_is_Some _ _ Hm)). lia.
    + rewrite lookup_insert_ne in Hp by done. pose proof (sh_map _ Hs _ Hp). lia.
  - intros p c' l' x Hp Hx. rewrite EL in Hp. destruct (decide (p = m)) as [->|Hne].
    + rewrite lookup_insert_eq in Hp. simplify_eq.
      apply list_elem_of_lookup in Hx as [j Hj]. destruct (decide (j = i)) as [->|Hji].
      * rewrite list_lookup_insert_eq in Hj by (by eapply lookup_lt_Some). simplify_eq.
        right. rewrite EA, decide_True by done. eauto.
      * rewrite list_lookup_insert_ne in Hj by done.
        destruct (sh_slot _ Hs _ _ _ x Hm) as [|Hx]; [by eapply list_elem_of_lookup_2|by left|right; by apply Hlive].
    + rewrite lookup_insert_ne in Hp by done.
      destruct (sh_slot _ Hs _ _ _ x Hp Hx); [by left|right; by apply Hlive].
  - intros x an Hx. rewrite Hrefs. rewrite EA in Hx. destruct (decide (x = n)) as [->|Hxn].
    + simplify_eq. rewrite (decide_True (P := n = n)) by done. cbn.
      assert (refs n (slots_of s) = 0) as ->.
      { apply refs_none. intros p c' l' Hp Hin.
        destruct (sh_slot _ Hs _ _ _ _ Hp Hin) as [->|[y Hy]]; [lia|congruence]. }
      rewrite decide_False; [done|]. intros ->. apply list_elem_of_lookup_2 in Hi.
      destruct (sh_slot _ Hs _ _ _ _ Hm Hi) as [->|[y Hy]]; [lia|congruence].
    + rewrite (decide_False (P := n = x)) by congruence. rewrite Z.add_0_r.
      destruct (decide (x = old)) as [->|Hxo].
      * rewrite (decide_True (P := old = old)) by done. apply fmap_Some in Hx as (y & Hy & ->). cbn.
        rewrite (sh_count _ Hs _ _ Hy). unfold sub64, wrap64. by rewrite Zminus_mod_idemp_l.
      * rewrite (decide_False (P := old = x)) by congruence. rewrite Z.sub_0_r. by apply (sh_count _ Hs).
Qed.

Lemma post_slot m i s (Q : Z -> state -> Prop) :
  (forall a c l, slots_of s !! m = Some (c, l) -> l !! Z.to_nat i = Some a -> Q a s) -> post (slot m i) s Q.
Proof.
  intros HQ. unfold slot. apply post_bind, post_ld. intros x Hm Hx.
  destruct (slots x !! Z.to_nat i) as [a|] eqn:Ea; [|apply post_fail]. apply post_ret.
  apply (HQ a (slotCount x) (slots x)); [|done]. unfold slots_of. by rewrite lookup_fmap, Hx.
Qed.

Lemma post_set_slot m i v s (Q : unit -> state -> Prop) :
  (forall c l s', slots_of s !! m = Some (c, l) -> anons s' = anons s -> allocs s' = allocs s ->
     slots_of s' = <[m := (c, <[Z.to_nat i := v]> l)]> (slots_of s) -> Q tt s') ->
  post (set_slot m i v) s Q.
Proof.
  intros HQ. unfold set_slot. apply post_bind, post_ld. intros x Hm Hx.
  destruct (_ <? _)%nat; [|apply post_fail]. apply post_upd. intros y _ Hy. simplify_eq.
  apply (HQ (slotCount x) (slots x)); [unfold slots_of; by rewrite lookup_fmap, Hx|done|done|].
  unfold slots_of. cbn. by rewrite fmap_insert.
Qed.

(** A new anon [n] with frame [f] that no slot refers to yet. *)
Record pending (n f : Z) s s1 : Prop := {
  pn_anons : anons s1 = <[n := mkAnon 1 f]> (anons s);
  pn_slots : slots_of s1 = slots_of s;
  pn_ptr : Z.of_nat (allocs s) < n <= Z.of_nat (allocs s1)
}.

Lemma pending_view n f s s1 s2 : pending n f s s1 -> kept_view s1 s2 -> pending n f s s2.
Proof. intros [A1 B1 C1] [A2 B2 C2]. constructor; [congruence|congruence|lia]. Qed.

Lemma post_try_new_anon s (Q : Z -> state -> Prop) :
  (forall s', kept_view s s' -> Q 0 s') -> (forall n f s', n <> 0 -> pending n f s s' -> Q n s') ->
  post (try_new_anon kcalloc_ok) s Q.
Proof.
  intros H0 Hn. unfold try_new_anon. apply post_bind. intros p s1 Hp. unfold kcalloc in Hp.
  injection Hp as Hp <-. destruct (Z.eqb_spec p 0) as [->|Hne].
  { apply post_ret. apply H0. constructor; [done..|cbn; lia]. }
  destruct (kcalloc_ok (allocs s)); [|done].
  apply post_bind. intros f s2 Hf. pose proof (quiet_machine _ _ _ _ Hf) as [A B C].
  destruct (Z.eqb_spec f 0); [apply post_ret, H0; constructor; [done|done|cbn in *; lia]|].
  apply post_bind, post_modify, post_ret. apply (Hn p f); [done|]. constructor; [cbn; by rewrite A|exact B|].
  cbn in *. lia.
Qed.

Lemma pending_fresh n f s s1 : shared s -> pending n f s s1 -> anons s !! n = None.
Proof.
  intros Hs Hp. destruct (anons s !! n) eqn:En; [|done].
  pose proof (sh_anon _ Hs n (mk_is_Some _ _ En)). pose proof (pn_ptr _ _ _ _ Hp). lia.
Qed.

Lemma post_discard n f s s1 x : shared s -> pending n f s s1 ->
  post (machine (FreePage x) ;;; kfree_anon n) s1 (fun _ s' => kept_view s s').
Proof.
  intros Hs Hp. apply post_quiet; [apply quiet_machine|]. intros _ s2 Hv.
  pose proof (pending_view _ _ _ _ _ Hp Hv) as [A B C]. apply post_modify.
  constructor; [|exact B|cbn; lia]. cbn.
  rewrite A. by rewrite delete_insert_id by (by eapply pending_fresh).
Qed.

(** The new anon enters an empty slot. *)
Lemma post_attach n f s s1 m i c l : shared s -> pending n f s s1 ->
  slots_of s !! m = Some (c, l) -> l !! Z.to_nat i = Some 0 ->
  post (set_slot m i n) s1 (fun _ s' => shared s').
Proof.
  intros Hs [A B C] Hm Hi. apply post_set_slot. intros c' l' s' Hm' EA En EL.
  rewrite B in Hm'. simplify_eq. eapply (shared_swap s s' m c l (Z.to_nat i) 0 n f); try done.
  - by rewrite En.
  - by rewrite EL, B.
  - intros x. rewrite EA, A. destruct (decide (x = n)) as [->|Hne]; [by rewrite lookup_insert_eq|].
    rewrite lookup_insert_ne by done. destruct (decide (x = 0)) as [->|]; [|done].
    destruct (anons s !! 0) eqn:E0; [|done]. pose proof (sh_anon _ Hs 0 (mk_is_Some _ _ E0)). lia.
Qed.

(** The new anon replaces a shared one. *)
Lemma post_replace n f s s1 m i c l a an : shared s -> pending n f s s1 ->
  slots_of s !! m = Some (c, l) -> l !! Z.to_nat i = Some a -> anons s !! a = Some an -> 1 < an_refCount an ->
  post (set_slot m i n ;;;
        upd_anon a (fun x => set_refs (sub64 (an_refCount x) 1) x) ;;;
        let* an := ld_anon a in
        whenM (an_refCount an =? 0) (machine (FreePage (an_physAddr an)) ;;; kfree_anon a))
    s1 (fun _ s' => shared s').
Proof.
  intros Hs Hp Hm Hi Ha Hr. pose proof (pending_fresh _ _ _ _ Hs Hp) as Hn. destruct Hp as [A B C].
  assert (a <> n) by congruence. apply post_bind, post_set_slot. intros c' l' s2 Hm' EA En EL.
  rewrite B in Hm'. simplify_eq. apply post_bind, post_upd. intros an' _ Han.
  rewrite EA, A, lookup_insert_ne, Ha in Han by done. simplify_eq.
  apply post_bind, post_ld. intros an2 _ Han2. cbn in Han2. rewrite lookup_insert_eq in Han2.
  injection Han2 as <-. cbn. pose proof (sh_count _ Hs _ _ Ha) as Hc.
  pose proof (wrap64_range (refs a (slots_of s))) as Hw. rewrite <- Hc in Hw. unfold u64 in Hw.
  rewrite sub64_small, (proj2 (Z.eqb_neq _ _)) by lia. apply post_ret.
  eapply (shared_swap s _ m c l (Z.to_nat i) a n f); try done.
  - cbn. by rewrite En.
  - rewrite <- B. exact EL.
  - intros x. cbn. rewrite EA, A. destruct (decide (x = a)) as [->|Hxa].
    + rewrite lookup_insert_eq, decide_False, Ha by done. cbn. by rewrite sub64_small by lia.
    + rewrite lookup_insert_ne by done. destruct (decide (x = n)) as [->|Hne]; [by rewrite lookup_insert_eq|].
      by rewrite lookup_insert_ne.
Qed.

(** ** Page faults *)

(** The pager of a memory object works on objects and pages. *)
Context (Hpager : forall pager obj off w, quiet (GetPage pager obj off w)).
Hint Resolve Hpager : core.

Lemma post_quiet_end {A} (m : M state A) s : quiet m -> shared s -> post m s (fun _ s' => shared s').
Proof. intros Hm Hs. eapply post_mono; [apply Hm|]. intros a s' Hv. exact (shared_view _ _ Hv Hs). Qed.

(** The end of a computation, behind the step that matters. *)
Lemma post_then {A B} (m : M state A) (k : A -> M state B) s :
  post m s (fun _ s' => shared s') -> (forall a, quiet (k a)) -> post (bind m k) s (fun _ s' => shared s').
Proof.
  intros Hm Hk. apply post_bind. eapply post_mono; [exact Hm|]. intros a s' Hs. by apply post_quiet_end.
Qed.

Lemma post_if_discard n f s s1 (b : bool) m x : shared s -> pending n f s s1 ->
  (b = true -> post m s1 (fun _ s' => shared s')) ->
  post (if b then m else machine (FreePage x) ;;; kfree_anon n) s1 (fun _ s' => shared s').
Proof.
  intros Hs Hp Hm. destruct b; [by apply Hm|]. eapply post_mono; [exact (post_discard n f s s1 x Hs Hp)|].
  intros ? s' Hv. exact (shared_view _ _ Hv Hs).
Qed.

Section Fault.
Context (self virtAddr pageIndex : Z) (code : PageFaultCode) (e : MapEntry).
Context (s : @state E) (Hs : shared s).
Context (c : Z) (l : list Z) (Hm : slots_of s !! anonMap e = Some (c, l)).

Lemma fault_copy_shared a an : l !! Z.to_nat pageIndex = Some a -> anons s !! a = Some an -> 1 < an_refCount an ->
  post (fault_copy kcalloc_ok GetPage self virtAddr pageIndex a code e) s (fun _ s' => shared s').
Proof.
  intros Hi Ha Hr. unfold fault_copy. apply post_bind, post_try_new_anon.
  { intros s1 Hv. change (0 =? 0) with true. apply post_quiet_end; [quiet; auto|exact (shared_view _ _ Hv Hs)]. }
  intros n f s1 Hn Hp. rewrite (proj2 (Z.eqb_neq _ _)) by done.
  apply post_quiet; [quiet|]. intros n1 s2 V2. apply post_quiet; [quiet|]. intros a1 s3 V3.
  apply post_quiet; [quiet; auto|]. intros r s4 V4. apply post_quiet; [quiet; auto|]. intros ok s5 V5.
  pose proof (pending_view _ _ _ _ _ (pending_view _ _ _ _ _ (pending_view _ _ _ _ _ (pending_view _ _ _ _ _ Hp V2) V3) V4) V5) as Hp5.
  apply post_then; [|intros; quiet; auto]. eapply post_if_discard; [exact Hs|exact Hp5|].
  intros _. by eapply post_replace.
Qed.

Lemma fault_backed_shared : l !! Z.to_nat pageIndex = Some 0 ->
  post (fault_backed kcalloc_ok GetPage self virtAddr pageIndex code e) s (fun _ s' => shared s').
Proof.
  intros Hi. unfold fault_backed. apply post_quiet; [auto|]. intros _ s1 V1.
  apply post_quiet; [quiet|]. intros o s2 V2. apply post_quiet; [auto|]. intros [rc page] s3 V3.
  assert (V : kept_view s s3) by (do 2 (etrans; [eassumption|]); done).
  pose proof (shared_view _ _ V Hs) as Hs3.
  destruct rc; cbn [negb]; [|apply post_quiet_end; [quiet; auto|done]].
  destruct (write code && needsCopy (flags e)); [|apply post_quiet_end; [quiet; auto|done]].
  apply post_bind, post_try_new_anon.
  { intros s4 V4. change (0 =? 0) with true. apply post_quiet_end; [quiet; auto|exact (shared_view _ _ V4 Hs3)]. }
  intros n f s4 Hn Hp. rewrite (proj2 (Z.eqb_neq _ _)) by done.
  apply post_quiet; [quiet|]. intros n1 s5 V5. apply post_quiet; [quiet|]. intros g s6 V6.
  apply post_quiet; [quiet|]. intros _ s7 V7. apply post_quiet; [auto|]. intros ok s8 V8.
  pose proof (pending_view _ _ _ _ _ (pending_view _ _ _ _ _ (pending_view _ _ _ _ _ (pending_view _ _ _ _ _ Hp V5) V6) V7) V8) as Hp8.
  apply post_then; [|intros; quiet; auto]. eapply post_if_discard; [exact Hs3|exact Hp8|].
  intros _. eapply post_attach; [exact Hs3|exact Hp8| |exact Hi]. rewrite (kv_slots _ _ V). exact Hm.
Qed.

Lemma fault_fresh_shared : l !! Z.to_nat pageIndex = Some 0 ->
  post (fault_fresh kcalloc_ok self virtAddr pageIndex code e) s (fun _ s' => shared s').
Proof.
  intros Hi. unfold fault_fresh. destruct (present code); [apply post_quiet_end; [quiet; auto|done]|].
  apply post_bind. intros n s1 Hn. unfold kcalloc in Hn. injection Hn as Hn <-.
  destruct (Z.eqb_spec n 0) as [->|Hne].
  { apply post_quiet_end; [quiet; auto|]. eapply shared_view; [|exact Hs]. constructor; [done..|cbn; lia]. }
  destruct (kcalloc_ok (allocs s)); [|done].
  apply post_bind. intros f s2 Hf. pose proof (quiet_machine _ _ _ _ Hf) as [A B C].
  apply post_bind, post_modify. set (s3 := set_anons _ s2).
  assert (Hp : pending n f s s3) by (constructor; [cbn; by rewrite A|exact B|cbn in *; lia]).
  apply post_then; [by eapply post_attach|]. intros _. quiet; auto.
Qed.
End Fault.

(** C1: the reference count of every anon is the number of slots that refer to
    it: [VMM::HandlePageFault] keeps this invariant on every path (first touch,
    copy-on-write, pages of memory objects, failures for lack of memory),
    whatever the machine and the pagers answer. *)
Theorem HandlePageFault_shared self code virtAddr s r s' : shared s ->
  HandlePageFault kcalloc_ok GetPage self code virtAddr s = Ok (r, s') -> shared s'.
Proof.
  intros Hs. revert r s'. change (post (HandlePageFault kcalloc_ok GetPage self code virtAddr) s (fun _ s' => shared s')).
  unfold HandlePageFault. apply post_quiet; [quiet|]. intros v s1 V1.
  pose proof (shared_view _ _ V1 Hs) as Hs1. clear s V1 Hs.
  case_match; [by apply post_ret|]. apply post_quiet; [auto|]. intros _ s2 V2.
  apply post_quiet; [unfold fault_entry; quiet; auto|]. intros [[p e]|] s3 V3.
  2: { apply post_quiet_end; [quiet; auto|]. by do 2 (eapply shared_view; [eassumption|]). }
  assert (Hs3 : shared s3) by by do 2 (eapply shared_view; [eassumption|]). clear s1 s2 V2 V3 Hs1.
  destruct (anonMap e =? 0); cbn [negb].
  { apply post_quiet_end; [|done]. unfold fault_object. quiet; auto. }
  apply post_quiet; [auto|]. intros _ s4 V4. apply post_quiet; [auto|]. intros _ s5 V5.
  assert (Hs5 : shared s5) by by do 2 (eapply shared_view; [eassumption|]). clear s3 s4 V4 V5 Hs3.
  apply post_bind, post_slot. intros a c l Hm Hi.
  destruct (Z.eqb_spec a 0) as [->|Ha]; cbn [negb].
  - destruct (memoryObject e =? 0); cbn [negb]; [by eapply fault_fresh_shared|by eapply fault_backed_shared].
  - apply post_bind, post_ld. intros an _ Han.
    destruct (write code); cbn [andb]; [|apply post_quiet_end; [unfold fault_present_anon; quiet; auto|done]].
    destruct (Z.ltb_spec 1 (an_refCount an)); [by eapply fault_copy_shared|].
    apply post_quiet_end; [unfold fault_present_anon; quiet; auto|done].
Qed.

(** ** Fork *)

(** The anons after [k x] more references to each [x]. *)
Definition more_refs (k : Z -> Z) (A A' : gmap Z Anon) : Prop := forall x,
  A' !! x = (fun y => set_refs (wrap64 (an_refCount y + k x)) y) <$> A !! x.

Lemma share_slots_post l : forall s, (forall x y, anons s !! x = Some y -> 0 < x /\ u64 (an_refCount y)) ->
  post (share_slots l) s (fun _ s' => slots_of s' = slots_of s /\ allocs s' = allocs s /\
    more_refs (fun x => occurs x l) (anons s) (anons s')).
Proof.
  induction l as [|a l IH]; intros s Hu; cbn [share_slots].
  - apply post_ret. split_and!; [done|done|]. intros x. destruct (anons s !! x) as [y|] eqn:Ey; cbn; [|done].
    destruct (Hu _ _ Ey) as [_ Hy]. rewrite Z.add_0_r, wrap64_small by done. by destruct y.
  - apply post_bind. unfold share_slot. destruct (Z.eqb_spec a 0) as [->|Hne].
    + apply post_ret. eapply post_mono; [by apply IH|]. intros ? s' (HL & Hn & HA). split_and!; [done|done|].
      intros x. rewrite (HA x). destruct (anons s !! x) as [y|] eqn:Ey; [|done]. cbn.
      rewrite occurs_cons, decide_False; [done|]. destruct (Hu _ _ Ey). lia.
    + apply post_upd. intros y _ Hy. cbn.
      eapply post_mono; [apply IH|].
      { cbn. intros x z Hz. destruct (decide (x = a)) as [->|Hxa].
        - rewrite lookup_insert_eq in Hz. simplify_eq. cbn. split; [by destruct (Hu _ _ Hy)|apply wrap64_range].
        - rewrite lookup_insert_ne in Hz by done. eauto. }
      cbn. intros ? s' (HL & Hn & HA). split_and!; [by rewrite HL|done|].
      intros x. rewrite (HA x), occurs_cons. destruct (decide (x = a)) as [->|Hxa].
      * rewrite lookup_insert_eq, decide_True, Hy by done. cbn. unfold set_refs. cbn. f_equal. f_equal.
        unfold add64. rewrite wrap64_add. f_equal. lia.
      * rewrite lookup_insert_ne, decide_False by done. done.
Qed.

(** A new map whose slots refer to live anons, each counted once more. *)
Lemma shared_add s s' p c l : shared s -> Z.of_nat (allocs s) < p <= Z.of_nat (allocs s') ->
  (forall a, a ∈ l -> a = 0 \/ is_Some (anons s !! a)) ->
  slots_of s' = <[p := (c, l)]> (slots_of s) -> more_refs (fun x => occurs x l) (anons s) (anons s') ->
  shared s'.
Proof.
  intros Hs Hp Hl EL EA.
  assert (Hnew : slots_of s !! p = None).
  { destruct (slots_of s !! p) eqn:Ep; [|done]. pose proof (sh_map _ Hs p (mk_is_Some _ _ Ep)). lia. }
  assert (Hlive : forall x, is_Some (anons s' !! x) <-> is_Some (anons s !! x)).
  { intros x. by rewrite (EA x), fmap_is_Some. }
  constructor.
  - intros x Hx. apply Hlive in Hx. pose proof (sh_anon _ Hs x Hx). lia.
  - intros q Hq. rewrite EL in Hq. destruct (decide (q = p)) as [->|Hne]; [lia|].
    rewrite lookup_insert_ne in Hq by done. pose proof (sh_map _ Hs q Hq). lia.
  - intros q c' l' x Hq Hx. rewrite Hlive, EL in *. destruct (decide (q = p)) as [->|Hne].
    + rewrite lookup_insert_eq in Hq. simplify_eq. by apply Hl.
    + rewrite lookup_insert_ne in Hq by done. by eapply (sh_slot _ Hs).
  - intros x an Hx. rewrite (EA x) in Hx. apply fmap_Some in Hx as (y & Hy & ->).
    rewrite EL, (refs_insert_new _ _ _ _ Hnew). cbn. rewrite (sh_count _ Hs _ _ Hy), wrap64_add. f_equal. lia.
Qed.

Lemma shared_counts s : shared s -> forall x y, anons s !! x = Some y -> 0 < x /\ u64 (an_refCount y).
Proof.
  intros Hs x y Hy. split; [apply (sh_anon _ Hs x (mk_is_Some _ _ Hy))|].
  rewrite (sh_count _ Hs _ _ Hy). apply wrap64_range.
Qed.

(** The copy of a map: the pointer to it, 0 for no map, nothing when memory is
    short. *)
Lemma copy_map_post am s : shared s ->
  post (acquire_map am ;;;
        let* m := ld_map am in
        let* map := kcalloc kcalloc_ok in
        let* newSlots := kcalloc kcalloc_ok in
        if (map =? 0) || (newSlots =? 0) then release_map am ;;; ret None else
        let* l := slice (slots m) 0 (slotCount m) in
        share_slots l ;;;
        put_map map (mkMap 1 (slotCount m) false l) ;;;
        release_map am ;;;
        ret (Some map)) s (fun _ s' => shared s').
Proof.
  intros Hs. apply post_quiet; [auto|]. intros _ s1 V1. pose proof (shared_view _ _ V1 Hs) as Hs1. clear s V1 Hs.
  apply post_bind, post_ld. intros m Hne Hm. apply post_bind. intros map s2 Hk.
  unfold kcalloc in Hk. injection Hk as Hmap <-.
  assert (V2 : kept_view s1 (set_allocs (S (allocs s1)) s1)) by (constructor; [done..|cbn; lia]).
  pose proof (shared_view _ _ V2 Hs1) as Hs2. apply post_quiet; [apply quiet_kcalloc|]. intros q s3 V3.
  pose proof (shared_view _ _ V3 Hs2) as Hs3.
  destruct (Z.eqb_spec map 0) as [|Hn0]; cbn [orb]; [apply post_quiet_end; [quiet; auto|done]|].
  destruct (q =? 0); [apply post_quiet_end; [quiet; auto|done]|]. destruct (kcalloc_ok _); [|done].
  unfold slice. cbn [Z.to_nat]. destruct (_ <=? _)%nat; [|intros ???; done]. rewrite drop_0.
  apply post_bind, post_ret. set (l := take _ _).
  assert (Hl : forall a, a ∈ l -> a = 0 \/ is_Some (anons s1 !! a)).
  { intros a Ha. apply (sh_slot _ Hs1 am (slotCount m) (slots m)); [unfold slots_of; by rewrite lookup_fmap, Hm|].
    unfold l in Ha. apply elem_of_take in Ha as (j & Hj & _). by eapply list_elem_of_lookup_2. }
  apply post_bind. eapply post_mono; [apply share_slots_post; by apply shared_counts|].
  intros ? s4 (EL & EN & EA). apply post_bind, post_modify.
  apply post_quiet_end; [quiet; auto|]. destruct V3 as [A3 B3 C3]. cbn in A3, B3, C3.
  eapply (shared_add s1 _ map (slotCount m) l Hs1); [cbn; rewrite EN; lia|exact Hl| |].
  - unfold slots_of in *. cbn. rewrite fmap_insert. f_equal. rewrite EL, B3. done.
  - cbn. rewrite <- A3. exact EA.
Qed.

Lemma Fork_entry_shared self other entry s : shared s ->
  post (Fork_entry kcalloc_ok self other entry) s (fun _ s' => shared s').
Proof.
  intros Hs. unfold Fork_entry. apply post_quiet; [apply quiet_kcalloc|]. intros p s1 V1.
  pose proof (shared_view _ _ V1 Hs) as Hs1. destruct (p =? 0); [by apply post_ret|].
  apply post_quiet; [quiet|]. intros e s2 V2. pose proof (shared_view _ _ V2 Hs1) as Hs2.
  apply post_then.
  - destruct (anonMap e =? 0); [by apply post_ret|by apply copy_map_post].
  - intros [map|]; [|quiet]. unfold put_ent. quiet; auto.
Qed.

Lemma Fork_loop_shared self other t : forall s, shared s ->
  post (Fork_loop kcalloc_ok self other t) s (fun _ s' => shared s').
Proof.
  induction t as [|[k p] t IH]; intros s Hs; cbn [Fork_loop]; [by apply post_ret|].
  apply post_bind. eapply post_mono; [by apply Fork_entry_shared|]. intros ok s1 Hs1.
  destruct ok; [by apply IH|by apply post_ret].
Qed.

(** C2: [VMM::Fork] keeps the invariant, whether it succeeds or stops for lack
    of memory: every anon that the new address space shares is counted once for
    each slot that refers to it. *)
Theorem Fork_shared self other s r s' : shared s ->
  Fork kcalloc_ok self other s = Ok (r, s') -> shared s'.
Proof.
  intros Hs. revert r s'. change (post (Fork kcalloc_ok self other) s (fun _ s' => shared s')).
  unfold Fork. apply post_quiet; [auto|]. intros _ s1 V1. apply post_quiet; [auto|]. intros _ s2 V2.
  apply post_quiet; [auto|]. intros t s3 V3.
  assert (Hs3 : shared s3) by (do 3 (eapply shared_view; [eassumption|]); done).
  apply post_then; [by apply Fork_loop_shared|]. intros ok. quiet; auto.
Qed.

(** ** What a fault does *)

(** A fault at [va] in an entry [e] with the map [m], by an access the entry
    allows. *)
Record fault_at (self : Z) (code : PageFaultCode) (va : Z) s (e : MapEntry) (m : AnonMap) : Prop := {
  fa_regions : exists rg, m_vmRegionAllocator (vmms s self) = Some rg /\
    VMRegionAllocator.m_start rg <= va < VMRegionAllocator.m_end rg;
  fa_unlocked : entries_lock (vmms s self) = false;
  fa_entry : exists k p, FindNodeOrLower va (m_mapEntries (vmms s self)) = Some (k, p) /\ p <> 0 /\
    ents s !! p = Some e;
  fa_range : startVirt e <= va < endVirt e;
  fa_valid : fault_valid (protection (flags e)) code = true;
  fa_map : anonMap e <> 0 /\ maps s !! anonMap e = Some m
}.

(** The page of the address. *)
Definition page_index (e : MapEntry) (va : Z) : Z :=
  Z.shiftr (sub64 (ALIGN_DOWN va PAGE_SIZE) (startVirt e)) PAGE_SIZE_SHIFT.

(** The state with the map locked and the tree unlocked again. *)
Definition in_fault (self : Z) (e : MapEntry) (m : AnonMap) s : state :=
  with_lock self false (set_maps (<[anonMap e := set_map_lock true m]> (maps s)) (with_lock self true s)).

(** The work of the handler once the entry is found. *)
Definition fault_work (self : Z) (code : PageFaultCode) (va : Z) (e : MapEntry) : M state bool :=
  let* anon := slot (anonMap e) (page_index e va) in
  if negb (anon =? 0) then
    let* an := ld_anon anon in
    if write code && (1 <? an_refCount an)
    then fault_copy kcalloc_ok GetPage self (ALIGN_DOWN va PAGE_SIZE) (page_index e va) anon code e
    else fault_present_anon self (ALIGN_DOWN va PAGE_SIZE) anon code e
  else if negb (memoryObject e =? 0)
  then fault_backed kcalloc_ok GetPage self (ALIGN_DOWN va PAGE_SIZE) (page_index e va) code e
  else fault_fresh kcalloc_ok self (ALIGN_DOWN va PAGE_SIZE) (page_index e va) code e.

Lemma HandlePageFault_find self code va s e m : fault_at self code va s e m ->
  HandlePageFault kcalloc_ok GetPage self code va s =
  (acquire_map (anonMap e) ;;; unlock_entries self ;;; fault_work self code va e) (with_lock self true s).
Proof.
  intros [(rg & Erg & Hrg) Hun (k & p & Et & Hp & He) Hr Hv (Hm0 & Hm)]. unfold HandlePageFault.
  erewrite bind_ok by reflexivity. rewrite Erg.
  rewrite (proj2 (Z.ltb_ge _ _)), (proj2 (Z.leb_gt _ _)) by lia. cbn [orb].
  erewrite (bind_ok (lock_entries self) _ s tt (with_lock self true s)).
  2: { unfold lock_entries. erewrite bind_ok by reflexivity. by rewrite Hun. }
  erewrite (bind_ok (fault_entry self code va) _ _ (Some (p, e)) (with_lock self true s)).
  2: { unfold fault_entry. erewrite bind_ok by reflexivity. rewrite with_lock_tree, Et.
       rewrite (proj2 (Z.eqb_neq p 0)) by done. erewrite bind_ok by (by apply ld_ok).
       rewrite (proj2 (Z.ltb_ge _ _)), (proj2 (Z.leb_gt _ _)), (proj2 (Z.eqb_neq _ _)), Hv by (done || lia). done. }
  rewrite (proj2 (Z.eqb_neq _ _)) by done. reflexivity.
Qed.

(** The lock of the map is free: the work is done under it ... *)
Lemma HandlePageFault_reach self code va s e m (Q : bool -> state -> Prop) :
  fault_at self code va s e m -> am_lock m = false ->
  runs (fault_work self code va e) (in_fault self e m s) Q ->
  runs (HandlePageFault kcalloc_ok GetPage self code va) s Q.
Proof.
  intros Hf Hl (r & s' & Hw & HQ). destruct (fa_map _ _ _ _ _ _ Hf) as [Hm0 Hm]. exists r, s'. split; [|done].
  rewrite (HandlePageFault_find _ _ _ _ _ _ Hf). erewrite (bind_ok (acquire_map (anonMap e)) _ _ tt).
  2: { unfold acquire_map. erewrite bind_ok by (by apply ld_ok). rewrite Hl. unfold upd_map, upd.
       erewrite bind_ok by (by apply ld_ok). reflexivity. }
  erewrite (bind_ok (unlock_entries self) _ _ tt) by reflexivity. exact Hw.
Qed.

(** ... and otherwise the handler waits. *)
Lemma HandlePageFault_waits self code va s e m : fault_at self code va s e m -> am_lock m = true ->
  HandlePageFault kcalloc_ok GetPage self code va s = Fail LockHeld.
Proof.
  intros Hf Hl. destruct (fa_map _ _ _ _ _ _ Hf) as [Hm0 Hm]. rewrite (HandlePageFault_find _ _ _ _ _ _ Hf).
  unfold bind at 1, acquire_map. erewrite (bind_ok (ld_map (anonMap e))); [|by apply ld_ok]. by rewrite Hl.
Qed.

Lemma machine_runs {A} (m : M E A) s a e (Q : A -> state -> Prop) : m (env s) = Ok (a, e) ->
  Q a (set_env e s) -> runs (machine m) s Q.
Proof. intros Hm HQ. exists a, (set_env e s). unfold machine. by rewrite Hm. Qed.

Lemma kcalloc_runs s (Q : Z -> state -> Prop) : kcalloc_ok (allocs s) = true ->
  Q (Z.of_nat (S (allocs s))) (set_allocs (S (allocs s)) s) -> runs (kcalloc kcalloc_ok) s Q.
Proof. intros Hk HQ. eexists _, _. split; [reflexivity|]. by rewrite Hk. Qed.

Lemma kcalloc_null_runs s (Q : Z -> state -> Prop) : kcalloc_ok (allocs s) = false ->
  Q 0 (set_allocs (S (allocs s)) s) -> runs (kcalloc kcalloc_ok) s Q.
Proof. intros Hk HQ. eexists _, _. split; [reflexivity|]. by rewrite Hk. Qed.

Lemma slot_runs p m i a s (Q : Z -> state -> Prop) : p <> 0 -> maps s !! p = Some m ->
  slots m !! Z.to_nat i = Some a -> Q a s -> runs (slot p i) s Q.
Proof. intros Hp Hm Ha HQ. unfold slot. mstep. eapply ld_runs; [done..|]. rewrite Ha. by apply runs_ret. Qed.

Lemma set_slot_runs p m i v s (Q : unit -> state -> Prop) : p <> 0 -> maps s !! p = Some m ->
  is_Some (slots m !! Z.to_nat i) ->
  Q tt (set_maps (<[p := set_slots (slotCount m) (<[Z.to_nat i := v]> (slots m)) m]> (maps s)) s) ->
  runs (set_slot p i v) s Q.
Proof.
  intros Hp Hm Hi HQ. unfold set_slot. mstep. eapply ld_runs; [done..|].
  rewrite (proj2 (Nat.ltb_lt _ _)) by (by apply lookup_lt_is_Some). by eapply upd_runs.
Qed.

(** Everything but the anons and maps is as before. *)
Definition rest_kept s s' : Prop :=
  objs s' = objs s /\ pgs s' = pgs s /\ ents s' = ents s /\ forall x, vmms s' x = vmms s x.

Lemma in_fault_vmms self e m s x : entries_lock (vmms s self) = false ->
  vmms (in_fault self e m s) x = vmms s x.
Proof.
  intros Hl. unfold in_fault, with_lock. cbn. destruct (decide (x = self)) as [->|Hne].
  - rewrite !fn_lookup_insert. cbn. destruct (vmms s self). cbn in *. by subst.
  - by rewrite !fn_lookup_insert_ne.
Qed.

(** There is no memory: the lock of the map is released and the fault fails. *)
Lemma no_memory_runs self code va s e m st (Q : bool -> state -> Prop) : fault_at self code va s e m -> am_lock m = false ->
  maps st = maps (in_fault self e m s) -> anons st = anons s -> objs st = objs s -> pgs st = pgs s -> ents st = ents s ->
  vmms st = vmms (in_fault self e m s) ->
  (forall s', env s' = env st -> anons s' = anons s -> maps s' = maps s -> rest_kept s s' -> Q false s') ->
  runs (release_map (anonMap e) ;;; ret false) st Q.
Proof.
  intros Hf Hl Hma Han Hob Hpg Hen Hvm HQ. destruct (fa_map _ _ _ _ _ _ Hf) as [Hm0 Hm].
  mstep. eapply (upd_runs maps); [done|rewrite Hma; cbn; by rewrite lookup_insert_eq|]. apply runs_ret. apply HQ; [done|done| |].
  - cbn. rewrite Hma. cbn. rewrite insert_insert_eq. rewrite <- (insert_id (maps s) (anonMap e) m) at 2 by done.
    f_equal. destruct m. cbn in *. by subst.
  - split_and!; [done..|]. intros x. cbn. rewrite Hvm. apply (in_fault_vmms self e m s x (fa_unlocked _ _ _ _ _ _ Hf)).
Qed.

(** How the work on a write fault on a shared anon goes on once there is memory
    for a new anon [n] with the frame [f]: the frame is mapped or not. *)
Lemma fault_copy_runs self code va s e m a an f e1 e2 e3 e4 b (Q : bool -> state -> Prop) :
  let n := Z.of_nat (S (allocs s)) in
  fault_at self code va s e m -> am_lock m = false -> memoryObject e = 0 ->
  a <> 0 -> slots m !! Z.to_nat (page_index e va) = Some a -> anons s !! a = Some an -> 1 < an_refCount an < W64 ->
  kcalloc_ok (allocs s) = true -> anons s !! n = None ->
  AllocatePage (env s) = Ok (f, e1) -> f <> 0 -> copy_frame f (an_physAddr an) e1 = Ok (tt, e2) ->
  pm_MapPage (m_pageMapper (vmms s self)) (ALIGN_DOWN va PAGE_SIZE) f (protection (flags e))
    (user (flags e)) (cacheType (flags e)) e2 = Ok (b, e3) -> FreePage f e3 = Ok (tt, e4) ->
  (forall s', env s' = (if b then e3 else e4) ->
    anons s' = (if b then <[a := mkAnon (an_refCount an - 1) (an_physAddr an)]> (<[n := mkAnon 1 f]> (anons s)) else anons s) ->
    maps s' = (if b then <[anonMap e := set_slots (slotCount m) (<[Z.to_nat (page_index e va) := n]> (slots m)) m]> (maps s) else maps s) ->
    rest_kept s s' -> Q b s') ->
  runs (fault_copy kcalloc_ok GetPage self (ALIGN_DOWN va PAGE_SIZE) (page_index e va) a code e) (in_fault self e m s) Q.
Proof.
  intros n Hf Hl Hobj Ha0 Hi Ha Hr Hk Hn Hal Hf0 Hcp Hmap Hfr HQ.
  assert (Hna : n <> a) by (intros <-; congruence). destruct (fa_map _ _ _ _ _ _ Hf) as [Hm0 Hm].
  unfold fault_copy. rewrite Hobj. cbn [Z.eqb]. mstep. unfold try_new_anon. mstep. apply kcalloc_runs; [exact Hk|].
  rewrite (proj2 (Z.eqb_neq _ _)) by lia. mstep. eapply machine_runs; [exact Hal|].
  rewrite (proj2 (Z.eqb_neq _ _)) by done. mstep. apply runs_modify. apply runs_ret.
  rewrite (proj2 (Z.eqb_neq _ _)) by lia. change (Z.of_nat (S (allocs (in_fault self e m s)))) with n.
  mstep. eapply (ld_runs anons n (mkAnon 1 f)); [lia|cbn; by rewrite lookup_insert_eq|].
  mstep. eapply (ld_runs anons a an); [done|cbn; by rewrite lookup_insert_ne|].
  mstep. mstep. eapply machine_runs; [exact Hcp|]. apply runs_ret.
  mstep. unfold MapPage, mapper. mstep. apply runs_gets. eapply machine_runs.
  { cbn [vmms set_env set_anons set_allocs m_pageMapper env]. rewrite in_fault_vmms by apply (fa_unlocked _ _ _ _ _ _ Hf).
    exact Hmap. }
  assert (Hset : forall lk, set_map_lock false (set_map_lock lk m) = m) by (intros; destruct m; cbn in *; by subst).
  destruct b.
  - mstep. mstep. eapply (set_slot_runs (anonMap e) (set_map_lock true m)); [done|cbn; by rewrite lookup_insert_eq|eauto|].
    mstep. eapply (upd_runs anons); [done|cbn; by rewrite lookup_insert_ne|].
    mstep. eapply (ld_runs anons a); [done|cbn; by rewrite lookup_insert_eq|]. cbn [an_refCount set_refs].
    rewrite sub64_small, (proj2 (Z.eqb_neq _ _)) by lia. apply runs_ret.
    mstep. eapply (upd_runs maps); [done|cbn; by rewrite lookup_insert_eq|]. apply runs_ret. apply HQ; [done|done| |].
    + cbn. rewrite !insert_insert_eq. f_equal. destruct m as [? ? lk ?]. unfold set_slots, set_map_lock. cbn. by rewrite <- Hl.
    + split_and!; [done|done|done|]. intros x. apply (in_fault_vmms self e m s x (fa_unlocked _ _ _ _ _ _ Hf)).
  - mstep. mstep. eapply machine_runs; [exact Hfr|]. apply runs_modify.
    mstep. eapply (upd_runs maps); [done|cbn; by rewrite lookup_insert_eq|]. apply runs_ret. apply HQ; [done| | |].
    + cbn. rewrite delete_insert_eq. by apply delete_id.
    + cbn. rewrite insert_insert_eq, Hset. by apply insert_id.
    + split_and!; [done|done|done|]. intros x. apply (in_fault_vmms self e m s x (fa_unlocked _ _ _ _ _ _ Hf)).
Qed.

(** C3: a write fault on a page whose anon is shared, in an entry without a
    memory object, gives the writer its own copy or changes nothing. When there
    is memory for an anon and a frame and the frame can be mapped: a new frame,
    filled with the contents of the old one and mapped with the protection of
    the entry, behind a new anon with one reference that takes the place of the
    shared one in this map only; the shared anon keeps its frame and loses one
    reference. When any of the three fails, the handler returns false, no anon
    and no map has changed and the new frame is freed. Either way every other
    map, entry and address space is unchanged and all locks are free again. *)
Theorem write_fault_copies self code va s e m a an f e1 e2 e3 e4 b :
  let n := Z.of_nat (S (allocs s)) in
  fault_at self code va s e m -> am_lock m = false -> memoryObject e = 0 -> write code = true ->
  a <> 0 -> slots m !! Z.to_nat (page_index e va) = Some a -> anons s !! a = Some an ->
  1 < an_refCount an < W64 -> anons s !! n = None ->
  AllocatePage (env s) = Ok (f, e1) ->
  (f <> 0 -> copy_frame f (an_physAddr an) e1 = Ok (tt, e2) /\
    pm_MapPage (m_pageMapper (vmms s self)) (ALIGN_DOWN va PAGE_SIZE) f (protection (flags e))
      (user (flags e)) (cacheType (flags e)) e2 = Ok (b, e3) /\ FreePage f e3 = Ok (tt, e4)) ->
  runs (HandlePageFault kcalloc_ok GetPage self code va) s (fun r s' =>
    rest_kept s s' /\
    if kcalloc_ok (allocs s) && negb (f =? 0) && b then
      r = true /\ env s' = e3 /\
      anons s' = <[a := mkAnon (an_refCount an - 1) (an_physAddr an)]> (<[n := mkAnon 1 f]> (anons s)) /\
      maps s' = <[anonMap e := set_slots (slotCount m) (<[Z.to_nat (page_index e va) := n]> (slots m)) m]> (maps s)
    else r = false /\ anons s' = anons s /\ maps s' = maps s /\
      env s' = (if negb (kcalloc_ok (allocs s)) then env s else if f =? 0 then e1 else e4)).
Proof.
  intros n Hf Hl Hobj Hw Ha0 Hi Ha Hr Hn Hal Hfrm. destruct (fa_map _ _ _ _ _ _ Hf) as [Hm0 Hm].
  eapply HandlePageFault_reach; [exact Hf|exact Hl|]. unfold fault_work. mstep.
  eapply (slot_runs (anonMap e) (set_map_lock true m)); [done|cbn; by rewrite lookup_insert_eq|exact Hi|].
  rewrite (proj2 (Z.eqb_neq _ _)) by done. cbn [negb]. mstep. eapply (ld_runs anons a an); [done|done|].
  rewrite Hw, (proj2 (Z.ltb_lt _ _)) by lia. cbn [andb].
  destruct (kcalloc_ok (allocs s)) eqn:Hk; [destruct (Z.eqb_spec f 0) as [->|Hf0]|]; cbn [andb negb].
  - unfold fault_copy, try_new_anon. mstep. mstep. apply kcalloc_runs; [exact Hk|].
    rewrite (proj2 (Z.eqb_neq _ _)) by lia. mstep. eapply machine_runs; [exact Hal|]. cbn [Z.eqb]. apply runs_ret.
    cbn [Z.eqb]. eapply no_memory_runs; [exact Hf|exact Hl|done..|]. intros. by split_and!.
  - destruct (Hfrm Hf0) as (Hcp & Hmap & Hfr). eapply (fault_copy_runs self code va s e m a an f e1 e2 e3 e4 b); try done.
    intros s' He Han Hma Hrest. split; [done|]. by destruct b.
  - unfold fault_copy, try_new_anon. mstep. mstep. apply kcalloc_null_runs; [exact Hk|]. apply runs_ret.
    cbn [Z.eqb]. eapply no_memory_runs; [exact Hf|exact Hl|done..|]. intros. by split_and!.
Qed.

(** [VMM::Internal_FreePages] gives the frame of an anon back to the physical
    memory manager whenever a slot is dropped, also when other slots still refer
    to the anon (after a fork): afterwards the anon is alive, with the freed
    frame, and the other address space keeps using it. [VMM::Delete], for the
    same slot, only drops the reference and leaves the frame alone. *)
Theorem FreePages_frees_shared_frame s p m i a an e1 self e e2 b :
  p <> 0 -> maps s !! p = Some m -> slots m !! Z.to_nat i = Some a -> a <> 0 -> anons s !! a = Some an ->
  1 < an_refCount an < W64 -> an_physAddr an <> 0 -> FreePage (an_physAddr an) (env s) = Ok (tt, e1) ->
  pm_UnmapPage (m_pageMapper (vmms s self)) (add64 (startVirt e) (mul64 i PAGE_SIZE)) (env s) = Ok (b, e2) ->
  let an' := mkAnon (an_refCount an - 1) (an_physAddr an) in
  runs (free_slot p i) s (fun _ s' => env s' = e1 /\ anons s' = <[a := an']> (anons s) /\
    forall p' m', p' <> p -> maps s !! p' = Some m' -> maps s' !! p' = Some m') /\
  runs (delete_slot self p e i) s (fun _ s' => env s' = e2 /\ anons s' = <[a := an']> (anons s) /\ maps s' = maps s).
Proof.
  intros Hp Hm Hi Ha0 Ha Hr Hph Hfree Hun. cbn zeta. split.
  - unfold free_slot. mstep. eapply slot_runs; [done..|]. rewrite (proj2 (Z.eqb_neq _ _)) by done.
    mstep. eapply set_slot_runs; [done|exact Hm|eauto|]. mstep. eapply (ld_runs anons a an); [done|done|].
    mstep. eapply machine_runs; [exact Hfree|]. mstep. eapply (upd_runs anons _ a _ an); [done|done|].
    mstep. eapply (ld_runs anons a); [done|cbn; by rewrite lookup_insert_eq|]. cbn [an_refCount set_refs].
    rewrite sub64_small, (proj2 (Z.eqb_neq _ _)) by lia. apply runs_ret. cbn. unfold set_refs. cbn. rewrite ?sub64_small by lia.
    split_and!; [done|done|]. intros p' m' Hne Hm'. by rewrite lookup_insert_ne.
  - unfold delete_slot. mstep. eapply slot_runs; [done..|]. rewrite (proj2 (Z.eqb_neq a 0)) by done.
    mstep. eapply (ld_runs anons a an); [done|done|]. mstep. rewrite (proj2 (Z.eqb_neq (an_physAddr an) 0)) by done.
    cbn [negb whenM]. mstep. unfold UnmapPage, mapper. mstep. apply runs_gets. eapply machine_runs; [exact Hun|].
    apply runs_ret. mstep. eapply (upd_runs anons _ a _ an); [done|done|].
    mstep. eapply (ld_runs anons a); [done|cbn; by rewrite lookup_insert_eq|]. cbn [an_refCount set_refs].
    rewrite sub64_small, (proj2 (Z.eqb_neq _ _)) by lia. apply runs_ret. cbn. unfold set_refs. cbn. rewrite ?sub64_small by lia.
    done.
Qed.

(** When the pager cannot supply a page of a private mapping ([DefaultPager]
    never can), the handler returns without releasing the lock of the anon map:
    the next fault in the entry waits for ever. *)
Theorem pager_failure_leaks_lock self code va s e m o page :
  fault_at self code va s e m -> am_lock m = false -> memoryObject e <> 0 -> objs s !! memoryObject e = Some o -> mo_lock o = false ->
  slots m !! Z.to_nat (page_index e va) = Some 0 ->
  (forall s1, GetPage (mo_pager o) (memoryObject e) (add64 (offset e) (mul64 (page_index e va) PAGE_SIZE))
                (write code) s1 = Ok ((false, page), s1)) ->
  runs (HandlePageFault kcalloc_ok GetPage self code va) s (fun r s' => r = false /\
    HandlePageFault kcalloc_ok GetPage self code va s' = Fail LockHeld).
Proof.
  intros Hf Hl Ho0 Ho Hol Hi Hg. destruct (fa_map _ _ _ _ _ _ Hf) as [Hm0 Hm].
  eapply HandlePageFault_reach; [exact Hf|exact Hl|]. unfold fault_work. mstep.
  eapply (slot_runs (anonMap e) (set_map_lock true m)); [done|cbn; by rewrite lookup_insert_eq|exact Hi|].
  cbn [Z.eqb negb]. rewrite (proj2 (Z.eqb_neq _ _)) by done. cbn [negb]. unfold fault_backed.
  mstep. unfold acquire_obj. mstep. eapply (ld_runs objs _ o); [done|done|]. rewrite Hol.
  eapply (upd_runs objs _ _ _ o); [done|done|]. mstep.
  eapply (ld_runs objs _ (set_obj_lock true o)); [done|cbn; by rewrite lookup_insert_eq|].
  mstep. eapply runs_eq; [apply Hg|]. cbn [negb]. mstep.
  eapply (upd_runs objs _ _ _ (set_obj_lock true o)); [done|cbn; by rewrite lookup_insert_eq|].
  apply runs_ret. split; [done|].
  apply (HandlePageFault_waits _ _ _ _ e (set_map_lock true m)); [|done].
  pose proof (in_fault_vmms self e m s self (fa_unlocked _ _ _ _ _ _ Hf)) as EV.
  destruct Hf as [Hrg Hun Hent Hr Hv _]. constructor; cbn [vmms set_objs]; rewrite ?EV; try done.
  split; [done|]. cbn. by rewrite lookup_insert_eq.
Qed.

(** ** Dividing an entry *)

(** The pointers in use have been handed out. *)
Definition ptrs_ok s : Prop :=
  (forall q, is_Some (ents s !! q) -> q <= Z.of_nat (allocs s)) /\
  (forall q, is_Some (maps s !! q) -> q <= Z.of_nat (allocs s)).

(** What [split_map] returns when memory suffices. *)
Lemma split_map_runs am m k u s (Q : Z * Z -> state -> Prop) :
  am <> 0 -> maps s !! am = Some m -> am_lock m = false -> am_refCount m = 1 -> am <= Z.of_nat (allocs s) ->
  0 < k -> 0 < u -> Z.of_nat (length (slots m)) = k + u ->
  (forall s', ents s' = ents s -> anons s' = anons s -> maps s' = maps s -> Q (0, 0) s') ->
  (forall n s', n <> 0 -> n <> am -> Z.of_nat (allocs s) < n -> ents s' = ents s -> anons s' = anons s ->
     maps s' = <[am := mkMap 1 k false (take (Z.to_nat k) (slots m))]>
               (<[n := mkMap 1 u false (drop (Z.to_nat k) (slots m))]> (maps s)) -> Q (am, n) s') ->
  runs (split_map kcalloc_ok am k u) s Q.
Proof.
  intros Hp Hm Hl Hr Hle Hk Hu Hlen H0 HQ. unfold split_map.
  assert (Hfail : forall s1, ents s1 = ents s -> anons s1 = anons s -> maps s1 = maps s -> runs (ret (0, 0)) s1 Q).
  { intros s1 ???. apply runs_ret. by apply H0. }
  mstep. eexists _, _. split; [reflexivity|]. destruct (kcalloc_ok (allocs s)); [|by apply Hfail].
  set (n := Z.of_nat (S (allocs s))). rewrite (proj2 (Z.eqb_neq _ _)) by lia.
  mstep. eexists _, _. split; [reflexivity|]. mstep. eexists _, _. split; [reflexivity|].
  case_match eqn:Ez; [by apply Hfail|]. clear Ez.
  mstep. unfold acquire_map. mstep. eapply (ld_runs maps am m); [done|done|]. rewrite Hl.
  eapply (upd_runs maps _ am _ m); [done|done|]. mstep.
  eapply (ld_runs maps am (set_map_lock true m)); [done|cbn; by rewrite lookup_insert_eq|]. cbn [slots set_map_lock am_refCount].
  unfold slice. rewrite !(proj2 (Nat.leb_le _ _)) by lia. mstep. apply runs_ret. mstep. apply runs_ret.
  rewrite Hr. cbn [Z.ltb Z.compare Pos.compare Pos.compare_cont]. mstep. apply runs_modify. mstep.
  eapply (upd_runs maps _ am _ (set_map_lock true m)); [done|cbn; rewrite lookup_insert_ne by lia; by rewrite lookup_insert_eq|].
  mstep. eapply (upd_runs maps _ am); [done|cbn; by rewrite lookup_insert_eq|]. apply runs_ret.
  apply HQ; [lia|lia|lia|done|done|]. cbn [maps set_maps set_allocs].
  rewrite drop_0, (take_ge (drop _ _)) by (rewrite length_drop; lia).
  rewrite insert_insert_eq, (insert_insert_ne _ n am) by lia. rewrite insert_insert_eq. f_equal.
  destruct m. cbn in *. by subst.
Qed.

(** [VMM::SplitMapEntry] of an anonymous entry with [N] pages behind page
    [k] either returns null and leaves every entry and map as it was, or makes
    two entries that meet at page [k], with the flags of the old one, and
    divides the slots between their maps in order: every page keeps its anon. *)
Theorem SplitMapEntry_spec s p e m k N : ptrs_ok s ->
  p <> 0 -> ents s !! p = Some e -> anonMap e <> 0 -> maps s !! anonMap e = Some m ->
  am_lock m = false -> am_refCount m = 1 -> memoryObject e = 0 ->
  0 <= startVirt e -> endVirt e = startVirt e + N * PAGE_SIZE -> endVirt e < W64 ->
  Z.of_nat (length (slots m)) = N -> 0 < k < N ->
  runs (SplitMapEntry kcalloc_ok p k) s (fun n s' =>
    (n = 0 /\ ents s' = ents s /\ maps s' = maps s /\ anons s' = anons s) \/
    exists q lo hi, n <> 0 /\ n <> p /\ q <> anonMap e /\ anons s' = anons s /\
      ents s' = <[p := set_endVirt (startVirt e + k * PAGE_SIZE) e]>
        (<[n := mkEntry (startVirt e + k * PAGE_SIZE) (endVirt e) 0 q 0 (flags e) 0]> (ents s)) /\
      maps s' = <[anonMap e := mkMap 1 k false lo]> (<[q := mkMap 1 (N - k) false hi]> (maps s)) /\
      slots m = lo ++ hi /\ Z.of_nat (length lo) = k).
Proof.
  intros [Hpe Hpm] Hp He Hm0 Hm Hl Hr Hobj Hst Hend Hw Hlen Hk. unfold SplitMapEntry.
  mstep. eexists _, _. split; [reflexivity|]. destruct (kcalloc_ok (allocs s)); [|apply runs_ret; by left].
  set (n := Z.of_nat (S (allocs s))). rewrite (proj2 (Z.eqb_neq _ _)) by lia.
  pose proof (Hpe p (mk_is_Some _ _ He)). pose proof (Hpm _ (mk_is_Some _ _ Hm)).
  mstep. eapply (ld_runs ents p e); [done|done|].
  rewrite (mul64_small k), add64_small, sub64_small by lia.
  replace (Z.shiftr (endVirt e - (startVirt e + k * 4096)) 12) with (N - k).
  2: { rewrite Z.shiftr_div_pow2 by lia. change (2 ^ 12) with 4096.
       replace (endVirt e - (startVirt e + k * 4096)) with ((N - k) * 4096) by lia. by rewrite Z.div_mul. }
  rewrite !(proj2 (Z.eqb_neq (anonMap e) 0)) by done. mstep.
  apply (split_map_runs (anonMap e) m k (N - k)); [done|done|done|done|cbn; lia|lia|lia|lia| |].
  { intros s' E1 E2 E3. cbn [negb andb Z.eqb]. apply runs_ret. by left. }
  intros q s1 Hq Hqa Hqn E1 E2 E3. rewrite (proj2 (Z.eqb_neq q 0)), Hobj by done. cbn [negb andb Z.eqb whenM].
  cbn in E1, E2, E3. mstep. eapply (upd_runs ents _ p _ e); [done|by rewrite E1|].
  mstep. apply runs_ret. mstep. apply runs_modify. mstep.
  eapply (upd_runs ents _ p _ (set_anonMap (anonMap e) e));
    [done|cbn; rewrite lookup_insert_ne by lia; by rewrite lookup_insert_eq|]. apply runs_ret.
  right. exists q, (take (Z.to_nat k) (slots m)), (drop (Z.to_nat k) (slots m)).
  split_and!; [lia|lia|done|done| |done|by rewrite take_drop|rewrite length_take; lia].
  cbn. rewrite E1, (insert_insert_ne _ n p), insert_insert_eq by lia. done.
Qed.

End Share.

(** ** Two address spaces that share a page

    Anon 5 with frame 0x5000 is in the maps 3 and 4 of the entries 1 and 2 of the
    address spaces 0 and 1; the machine hands out frames in order. *)

Definition demo_machine : Machine Z := {|
  AllocatePage := fun n => Ok (n * PAGE_SIZE, n + 1);
  FreePage := fun _ => ret tt;
  zero_frame := fun _ => ret tt;
  copy_frame := fun _ _ => ret tt;
  read_byte := fun _ _ => ret 0;
  pm_MapPage := fun _ _ _ _ _ _ => ret true;
  pm_RemapPage := fun _ _ _ _ _ => ret true;
  pm_RemapPages := fun _ _ _ _ _ _ => ret true;
  pm_UnmapPage := fun _ _ => ret true;
  pm_InvalidatePages := fun _ _ _ _ => ret tt
|}.
#[local] Existing Instance demo_machine.

Definition demo_pager : Z -> Z -> Z -> bool -> M (@state Z) (bool * Z) := DefaultPager_GetPage.
Definition demo_ok (_ : nat) : bool := true.
Definition demo_regions : VMRegionAllocator.state :=
  VMRegionAllocator.mk 4096 (2 ^ 40) [] [] 0 0 0 0 false.
Definition demo_map_entry (map obj : Z) : MapEntry :=
  mkEntry 4096 12288 0 map obj (mkFlags PageMapper.READ_WRITE PageMapper.WRITE_BACK true true true true) 0.
Definition demo_map : AnonMap := mkMap 1 2 false [5; 0].
Definition demo (obj : Z) : @state Z :=
  mk (<[5 := mkAnon 2 0x5000]> ∅) (<[3 := demo_map]> (<[4 := demo_map]> ∅))
     (<[6 := mkObj 2 1 [] 0 0 false]> ∅) ∅
     (<[1 := demo_map_entry 3 obj]> (<[2 := demo_map_entry 4 0]> ∅))
     (fun i => mkVMM (Some demo_regions) i [(4096, i + 1)] false) 6 16.

Lemma demo_shared obj : shared (demo obj).
Proof.
  assert (ES : slots_of (demo obj) = <[3 := (2, [5; 0])]> (<[4 := (2, [5; 0])]> ∅)) by reflexivity.
  constructor; rewrite ?ES.
  - intros a [x Hx]. cbn in Hx. destruct (decide (a = 5)) as [->|]; [cbn; lia|].
    by rewrite lookup_insert_ne, lookup_empty in Hx.
  - intros p [x Hx]. destruct (decide (p = 3)) as [->|]; [cbn; lia|].
    destruct (decide (p = 4)) as [->|]; [cbn; lia|]. by rewrite !lookup_insert_ne, lookup_empty in Hx.
  - intros p c l a Hp Ha. assert (l = [5; 0]) as ->.
    { destruct (decide (p = 3)) as [->|]; [by rewrite lookup_insert_eq in Hp; simplify_eq|].
      destruct (decide (p = 4)) as [->|]; [by rewrite lookup_insert_ne, lookup_insert_eq in Hp by done; simplify_eq|].
      by rewrite !lookup_insert_ne, lookup_empty in Hp. }
    apply elem_of_cons in Ha as [->|Ha]; [right; by eexists|]. left. set_solver.
  - intros a an Ha. destruct (decide (a = 5)) as [->|].
    + cbn in Ha. rewrite lookup_insert_eq in Ha. simplify_eq. vm_compute. done.
    + cbn in Ha. by rewrite lookup_insert_ne, lookup_empty in Ha.
Qed.

Lemma demo_pager_quiet pager obj off w : quiet (demo_pager pager obj off w).
Proof. apply quiet_ret. Qed.

Definition write_code : PageFaultCode := mkCode true true true false.

Lemma demo_fault obj : fault_at 0 write_code 5000 (demo obj) (demo_map_entry 3 obj) demo_map.
Proof.
  constructor; try done.
  - exists demo_regions. cbn. split; [done|lia].
  - by exists 4096, 1.
Qed.

(** The computation returns [true]. *)
Definition returns_true (r : result (bool * @state Z)) : bool :=
  match r with Ok (b, _) => b | Fail _ => false end.

Lemma HandlePageFault_shared_witness :
  returns_true (HandlePageFault demo_ok demo_pager 0 write_code 5000 (demo 0)) = true /\
  forall r s', HandlePageFault demo_ok demo_pager 0 write_code 5000 (demo 0) = Ok (r, s') -> shared s'.
Proof.
  split; [vm_compute; reflexivity|]. intros r s'.
  apply (HandlePageFault_shared demo_ok demo_pager demo_pager_quiet 0 write_code 5000 (demo 0) r s' (demo_shared 0)).
Defined.

Definition demo_child : @state Z :=
  set_vmms (<[7 := mkVMM None 7 [] false]> (vmms (demo 0))) (demo 0).

Lemma Fork_shared_witness : returns_true (Fork demo_ok 7 0 demo_child) = true /\
  forall r s', Fork demo_ok 7 0 demo_child = Ok (r, s') -> shared s'.
Proof.
  split; [vm_compute; reflexivity|]. intros r s'. apply (Fork_shared demo_ok 7 0 demo_child r s').
  eapply shared_view; [|apply (demo_shared 0)]. by constructor.
Defined.

Lemma write_fault_copies_witness : runs (HandlePageFault demo_ok demo_pager 0 write_code 5000) (demo 0) (fun r s' =>
    rest_kept (demo 0) s' /\ r = true /\ env s' = 17 /\
    anons s' = <[5 := mkAnon 1 0x5000]> (<[7 := mkAnon 1 0x10000]> (anons (demo 0))) /\
    maps s' = <[3 := mkMap 1 2 false [7; 0]]> (maps (demo 0))).
Proof.
  apply (write_fault_copies demo_ok demo_pager 0 write_code 5000 (demo 0) (demo_map_entry 3 0) demo_map
           5 (mkAnon 2 0x5000) 0x10000 17 17 17 17 true (demo_fault 0)); try done.
Defined.

Lemma FreePages_frees_shared_frame_witness :
  runs (free_slot 3 0) (demo 0) (fun _ s' => env s' = 16 /\ anons s' = <[5 := mkAnon 1 0x5000]> (anons (demo 0)) /\
    forall p' m', p' <> 3 -> maps (demo 0) !! p' = Some m' -> maps s' !! p' = Some m').
Proof.
  apply (FreePages_frees_shared_frame (demo 0) 3 demo_map 0 5 (mkAnon 2 0x5000) 16 0 (demo_map_entry 3 0) 16 true); done.
Defined.

Lemma pager_failure_leaks_lock_witness :
  runs (HandlePageFault demo_ok demo_pager 0 write_code 9000) (demo 6) (fun r s' => r = false /\
    HandlePageFault demo_ok demo_pager 0 write_code 9000 s' = Fail LockHeld).
Proof.
  apply (pager_failure_leaks_lock demo_ok demo_pager 0 write_code 9000 (demo 6) (demo_map_entry 3 6) demo_map
           (mkObj 2 1 [] 0 0 false) 0); try done.
  constructor; try done; [exists demo_regions; cbn; split; [done|lia]|by exists 4096, 1].
Defined.

Lemma SplitMapEntry_spec_witness :
  runs (SplitMapEntry demo_ok 1 1) (demo 0) (fun n s' =>
    (n = 0 /\ ents s' = ents (demo 0) /\ maps s' = maps (demo 0) /\ anons s' = anons (demo 0)) \/
    exists q lo hi, n <> 0 /\ n <> 1 /\ q <> 3 /\ anons s' = anons (demo 0) /\
      ents s' = <[1 := set_endVirt 8192 (demo_map_entry 3 0)]>
        (<[n := mkEntry 8192 12288 0 q 0 (flags (demo_map_entry 3 0)) 0]> (ents (demo 0))) /\
      maps s' = <[3 := mkMap 1 1 false lo]> (<[q := mkMap 1 1 false hi]> (maps (demo 0))) /\
      [5; 0] = lo ++ hi /\ Z.of_nat (length lo) = 1).
Proof.
  apply (SplitMapEntry_spec demo_ok (demo 0) 1 (demo_map_entry 3 0) demo_map 1 2); try done.
  split; intros q [x Hx]; cbn in *.
  - destruct (decide (q = 1)); [lia|]. destruct (decide (q = 2)); [lia|].
    by rewrite !lookup_insert_ne, lookup_empty in Hx.
  - destruct (decide (q = 3)); [lia|]. destruct (decide (q = 4)); [lia|].
    by rewrite !lookup_insert_ne, lookup_empty in Hx.
Defined.

End VMMShare.
