(* ===== verification/Scheduler.v ===== *)
(** * Scheduler.v: the scheduler (src/kernel/src/Scheduling/Scheduler.cpp)

    Every processor keeps one ready list per nice level, a list of sleeping
    threads, its current and its idle thread, and a run count per level. The
    model works on the lists as sequences of threads (ThreadList.v proves that
    the linked lists behave so for threads that are in one list at a time, which
    is the invariant proved in SchedulerSpec.v) with the lock each of them has.
    An operation runs on the processor [me], the index of its state in the list
    of the processors ([GetCurrentProcessorState]). Saving and loading the
    registers of a thread is architecture code; it is recorded as an event, and
    [RunThread], which does not return, ends an operation with the thread it
    runs. *)

From S2P Require Import Prelude.
#[local] Open Scope Z_scope.
#[local] Open Scope kernel_scope.

Module Scheduler.

Notation NICE_LEVELS := 16%nat (only parsing).
Definition MAX_RUN_COUNT : Z := 2.
Definition DEFAULT_TIMESLICE : Z := 10.

(** ** Data *)

Inductive ProcessMode : Set := KERNEL | USER.

(** The fields of [Process] and [Thread] the scheduler uses; pointers are
    numbers, 0 is null. *)
Record Process : Type := mkProcess { p_mode : ProcessMode; p_nice : Z; p_pid : Z }.
Record Thread : Type := mkThread {
  t_parent : Z;
  t_timeRemaining : Z;
  t_sleepRemainingTime : Z;
  t_yieldCallback : Z;
  t_cpu : option Z;
  t_cpuLock : bool
}.

Record TList : Type := mkList { items : list Z; locked : bool }.

Record ProcessorState : Type := mkCPU {
  c_id : Z;
  c_currentThread : Z;
  c_idleThread : Z;
  c_runCounts : list Z;
  c_threads : list TList;
  c_sleeping : TList;
  c_isIdle : bool;
  c_startAllowed : bool;
  c_lock : bool;
  c_prev : bool  (* [prev] is not null *)
}.

(** [Semaphore] *)
Record Semaphore : Type := mkSemaphore {
  m_value : Z;
  m_maxValue : Z;
  m_waitingThreads : list Z;
  m_lock : bool
}.

(** What happens to the processor and to the context of threads. *)
Inductive event : Set :=
  | SaveContext (thread : Z)
  | InitRegisters (thread : Z)
  | InitExtraContext (thread : Z)
  | EndTimerTick.

Record state : Type := mk {
  procs : list ProcessorState;
  threads : gmap Z Thread;
  processes : gmap Z Process;
  g_Processes : list Z;
  g_LastPID : Z;
  g_processorCount : Z;
  g_StealLock : bool;
  g_isRunning : bool;
  g_deadThreads : list Z;
  semaphores : gmap Z Semaphore;
  events : list event
}.

Definition set_procs v s := mk v (threads s) (processes s) (g_Processes s) (g_LastPID s)
  (g_processorCount s) (g_StealLock s) (g_isRunning s) (g_deadThreads s) (semaphores s) (events s).
Definition set_threads v s := mk (procs s) v (processes s) (g_Processes s) (g_LastPID s)
  (g_processorCount s) (g_StealLock s) (g_isRunning s) (g_deadThreads s) (semaphores s) (events s).
Definition set_processes v l n s := mk (procs s) (threads s) v l n
  (g_processorCount s) (g_StealLock s) (g_isRunning s) (g_deadThreads s) (semaphores s) (events s).
Definition set_count v s := mk (procs s) (threads s) (processes s) (g_Processes s) (g_LastPID s)
  v (g_StealLock s) (g_isRunning s) (g_deadThreads s) (semaphores s) (events s).
Definition set_steal v s := mk (procs s) (threads s) (processes s) (g_Processes s) (g_LastPID s)
  (g_processorCount s) v (g_isRunning s) (g_deadThreads s) (semaphores s) (events s).
Definition set_running v s := mk (procs s) (threads s) (processes s) (g_Processes s) (g_LastPID s)
  (g_processorCount s) (g_StealLock s) v (g_deadThreads s) (semaphores s) (events s).
Definition set_dead v s := mk (procs s) (threads s) (processes s) (g_Processes s) (g_LastPID s)
  (g_processorCount s) (g_StealLock s) (g_isRunning s) v (semaphores s) (events s).
Definition set_semaphores v s := mk (procs s) (threads s) (processes s) (g_Processes s) (g_LastPID s)
  (g_processorCount s) (g_StealLock s) (g_isRunning s) (g_deadThreads s) v (events s).
Definition emit (e : event) : M state unit := modify (fun s =>
  mk (procs s) (threads s) (processes s) (g_Processes s) (g_LastPID s)
     (g_processorCount s) (g_StealLock s) (g_isRunning s) (g_deadThreads s) (semaphores s) (events s ++ [e])).

Definition set_current v c := mkCPU (c_id c) v (c_idleThread c) (c_runCounts c) (c_threads c) (c_sleeping c)
  (c_isIdle c) (c_startAllowed c) (c_lock c) (c_prev c).
Definition set_idleThread v c := mkCPU (c_id c) (c_currentThread c) v (c_runCounts c) (c_threads c) (c_sleeping c)
  (c_isIdle c) (c_startAllowed c) (c_lock c) (c_prev c).
Definition set_runCounts v c := mkCPU (c_id c) (c_currentThread c) (c_idleThread c) v (c_threads c) (c_sleeping c)
  (c_isIdle c) (c_startAllowed c) (c_lock c) (c_prev c).
Definition set_lists v c := mkCPU (c_id c) (c_currentThread c) (c_idleThread c) (c_runCounts c) v (c_sleeping c)
  (c_isIdle c) (c_startAllowed c) (c_lock c) (c_prev c).
Definition set_sleeping v c := mkCPU (c_id c) (c_currentThread c) (c_idleThread c) (c_runCounts c) (c_threads c) v
  (c_isIdle c) (c_startAllowed c) (c_lock c) (c_prev c).
Definition set_isIdle v c := mkCPU (c_id c) (c_currentThread c) (c_idleThread c) (c_runCounts c) (c_threads c)
  (c_sleeping c) v (c_startAllowed c) (c_lock c) (c_prev c).
Definition set_startAllowed v c := mkCPU (c_id c) (c_currentThread c) (c_idleThread c) (c_runCounts c) (c_threads c)
  (c_sleeping c) (c_isIdle c) v (c_lock c) (c_prev c).
Definition set_lock v c := mkCPU (c_id c) (c_currentThread c) (c_idleThread c) (c_runCounts c) (c_threads c)
  (c_sleeping c) (c_isIdle c) (c_startAllowed c) v (c_prev c).
Definition set_prev v c := mkCPU (c_id c) (c_currentThread c) (c_idleThread c) (c_runCounts c) (c_threads c)
  (c_sleeping c) (c_isIdle c) (c_startAllowed c) (c_lock c) v.

Definition set_time v t := mkThread (t_parent t) v (t_sleepRemainingTime t) (t_yieldCallback t) (t_cpu t) (t_cpuLock t).
Definition set_sleep v t := mkThread (t_parent t) (t_timeRemaining t) v (t_yieldCallback t) (t_cpu t) (t_cpuLock t).
Definition set_callback v t := mkThread (t_parent t) (t_timeRemaining t) (t_sleepRemainingTime t) v (t_cpu t) (t_cpuLock t).
Definition set_cpu v t := mkThread (t_parent t) (t_timeRemaining t) (t_sleepRemainingTime t) (t_yieldCallback t) v (t_cpuLock t).
Definition set_cpuLock v t := mkThread (t_parent t) (t_timeRemaining t) (t_sleepRemainingTime t) (t_yieldCallback t) (t_cpu t) v.

(** [remove] of a list: the first occurrence goes. *)
Fixpoint without (x : Z) (l : list Z) : list Z :=
  match l with [] => [] | y :: l' => if y =? x then l' else y :: without x l' end.

(** ** Access *)

Definition cpu (i : nat) : M state ProcessorState := fun s =>
  match procs s !! i with Some c => Ok (c, s) | None => Fail NullDereference end.
Definition upd_cpu (i : nat) (f : ProcessorState -> ProcessorState) : M state unit :=
  let* c := cpu i in modify (fun s => set_procs (<[i := f c]> (procs s)) s).
Definition thread_of (t : Z) : M state Thread := fun s =>
  if t =? 0 then Fail NullDereference
  else match threads s !! t with Some x => Ok (x, s) | None => Fail InvalidAccess end.
Definition upd_thread (t : Z) (f : Thread -> Thread) : M state unit :=
  let* x := thread_of t in modify (fun s => set_threads (<[t := f x]> (threads s)) s).
Definition process_of (p : Z) : M state Process := fun s =>
  if p =? 0 then Fail NullDereference
  else match processes s !! p with Some x => Ok (x, s) | None => Fail InvalidAccess end.
(** [thread->GetParent()->GetNice()] *)
Definition nice_of (t : Z) : M state Z :=
  let* x := thread_of t in let* p := process_of (t_parent x) in ret (p_nice p).

(** Ready list [n] of a processor. *)
Definition ready (i : nat) (n : Z) : M state TList :=
  let* c := cpu i in
  match (if n <? 0 then None else c_threads c !! Z.to_nat n) with Some l => ret l | None => fail InvalidAccess end.
Definition set_ready (i : nat) (n : Z) (l : TList) : M state unit :=
  upd_cpu i (fun c => set_lists (<[Z.to_nat n := l]> (c_threads c)) c).
Definition lock_ready (i : nat) (n : Z) : M state unit :=
  let* l := ready i n in if locked l then fail LockHeld else set_ready i n (mkList (items l) true).
Definition unlock_ready (i : nat) (n : Z) : M state unit :=
  let* l := ready i n in set_ready i n (mkList (items l) false).

(** The threads in the lists of a processor, in the queues of the semaphores and
    in the list of dead threads. *)
Definition lists_of (c : ProcessorState) : list Z := concat (items <$> c_threads c) ++ items (c_sleeping c).
Definition elsewhere (s : state) : list Z :=
  concat ((fun x => m_waitingThreads x.2) <$> map_to_list (semaphores s)) ++ g_deadThreads s.
Definition all_listed (s : state) : list Z := concat (lists_of <$> procs s) ++ elsewhere s.

(** The operations of [ThreadList] on its sequence. The links of a thread serve
    one list: to link a thread that is in a list fails (the assertion of
    [pushBack], or the list it is in is corrupted). *)
Definition unlinked (t : Z) : M state unit :=
  let* l := gets all_listed in assertM (negb (t =? 0) && negb (bool_decide (t ∈ l))).
Definition pushBack (t : Z) (l : TList) : M state TList := unlinked t ;;; ret (mkList (items l ++ [t]) (locked l)).
Definition popFront (l : TList) : Z * TList := (hd 0 (items l), mkList (tail (items l)) (locked l)).
Definition getHead (l : TList) : Z := hd 0 (items l).

(** [list.lock(); list.pushBack(thread); list.unlock();] *)
Definition enqueue (i : nat) (n t : Z) : M state unit :=
  lock_ready i n ;;;
  (let* l := ready i n in let* l := pushBack t l in set_ready i n l) ;;;
  unlock_ready i n.

(** Run counts are 32-bit. *)
Definition runCount (i : nat) (n : Z) : M state Z :=
  let* c := cpu i in
  match (if n <? 0 then None else c_runCounts c !! Z.to_nat n) with Some x => ret x | None => fail InvalidAccess end.
Definition set_runCount (i : nat) (n v : Z) : M state unit :=
  upd_cpu i (fun c => set_runCounts (<[Z.to_nat n := v mod 2 ^ 32]> (c_runCounts c)) c).

Definition acquire_cpuInfo (t : Z) : M state unit :=
  let* x := thread_of t in if t_cpuLock x then fail LockHeld else upd_thread t (set_cpuLock true).
Definition release_cpuInfo (t : Z) : M state unit := upd_thread t (set_cpuLock false).
Definition acquire_cpu (i : nat) : M state unit :=
  let* c := cpu i in if c_lock c then fail LockHeld else upd_cpu i (set_lock true).
Definition release_cpu (i : nat) : M state unit := upd_cpu i (set_lock false).

(** ** Picking a thread *)

(** The loop over the nice levels of [PickNext] and [StealThreadFromOther]: the
    lists are those of [src], the run counts those of [cur]; [thread] and [nice]
    are what has been found below level [i]. *)
Fixpoint scan (n : nat) (src cur : nat) (i thread nice : Z) : M state (Z * Z) :=
  match n with
  | O => ret (thread, nice)
  | S n' =>
      lock_ready src i ;;;
      let* l := ready src i in
      let* rc := runCount cur i in
      if bool_decide (items l = []) || ((MAX_RUN_COUNT <=? rc) && negb (i =? 0) && negb (thread =? 0)) then
        unlock_ready src i ;;;
        scan n' src cur (i + 1) thread nice
      else
        (if negb (thread =? 0) then unlock_ready src nice
         else whenM (MAX_RUN_COUNT <=? rc) (set_runCount cur i 0)) ;;;
        scan n' src cur (i + 1) (getHead l) i
  end.

(** The loop over the processors of [StealThreadFromOther]: the thread, with its
    CPU info locked, and its level; thread 0 when there is none. *)
Fixpoint steal_from (me : nat) (myId : Z) (others : list nat) : M state (Z * Z) :=
  match others with
  | [] => modify (set_steal false) ;;; ret (0, -1)
  | src :: others' =>
      let* c := cpu src in
      if c_id c =? myId then steal_from me myId others' else
      let* (thread, nice) := scan NICE_LEVELS src me 0 0 (-1) in
      if negb (thread =? 0) then
        acquire_cpuInfo thread ;;;
        let* l := ready src nice in
        let (t2, l') := popFront l in
        set_ready src nice l' ;;;
        assertM (t2 =? thread) ;;;
        unlock_ready src nice ;;;
        modify (set_steal false) ;;;
        ret (thread, nice)
      else steal_from me myId others'
  end.

Definition StealThreadFromOther (me : nat) : M state (Z * Z) :=
  let* b := gets g_StealLock in
  (if b then fail LockHeld else modify (set_steal true)) ;;;
  let* c := cpu me in
  let* n := gets (fun s => length (procs s)) in
  steal_from me (c_id c) (seq 0 n).

(** The last loop of [PickNext]: the run counts above the chosen level. *)
Fixpoint reset_counts (n : nat) (me : nat) (i : Z) : M state unit :=
  match n with
  | O => ret tt
  | S n' =>
      let* rc := runCount me i in
      whenM (MAX_RUN_COUNT <=? rc) (set_runCount me i 0) ;;;
      reset_counts n' me (i + 1)
  end.

Definition PickNext (me : nat) (lockState : bool) : M state unit :=
  let* (thread, nice) := scan NICE_LEVELS me me 0 0 (-1) in
  let lastNice := nice in
  let normal := negb (thread =? 0) in
  let* (thread, nice, idle) :=
    (if normal then ret (thread, nice, false) else
     let* (thread, stolen) := StealThreadFromOther me in
     if thread =? 0 then
       let* c := cpu me in
       assertM (negb (c_idleThread c =? 0)) ;;;
       ret (c_idleThread c, nice, true)
     else
       let* c := cpu me in
       upd_thread thread (set_cpu (Some (c_id c))) ;;;
       release_cpuInfo thread ;;;
       ret (thread, stolen, false)) in
  whenM (negb idle && (0 <=? nice)) (let* rc := runCount me nice in set_runCount me nice (rc + 1)) ;;;
  whenM normal (let* l := ready me nice in set_ready me nice (snd (popFront l))) ;;;
  whenM (0 <=? lastNice) (unlock_ready me lastNice) ;;;
  reset_counts (NICE_LEVELS - Z.to_nat (nice + 1)) me (nice + 1) ;;;
  whenM lockState (acquire_cpu me) ;;;
  (let* c := cpu me in upd_cpu me (set_isIdle (thread =? c_idleThread c))) ;;;
  upd_cpu me (set_current thread) ;;;
  whenM lockState (release_cpu me).

(** ** Ticks and yields *)

(** The callback of the enumeration of the sleeping threads. *)
Definition wake (me : nat) (msSinceLast t : Z) : M state unit :=
  let* x := thread_of t in
  if t_sleepRemainingTime x <=? msSinceLast then
    upd_thread t (set_sleep 0) ;;;
    upd_cpu me (fun c => set_sleeping (mkList (without t (items (c_sleeping c))) (locked (c_sleeping c))) c) ;;;
    let* n := nice_of t in
    enqueue me n t
  else upd_thread t (fun x => set_sleep (t_sleepRemainingTime x - msSinceLast) x).
Fixpoint wake_all (me : nat) (msSinceLast : Z) (l : list Z) : M state unit :=
  match l with [] => ret tt | t :: l' => wake me msSinceLast t ;;; wake_all me msSinceLast l' end.

Definition lock_sleeping (me : nat) (b : bool) : M state unit :=
  upd_cpu me (fun c => set_sleeping (mkList (items (c_sleeping c)) b) c).

(** [RunThread] on the current thread: the result of the operation. *)
Definition run_current (me : nat) : M state (option Z) :=
  let* c := cpu me in ret (Some (c_currentThread c)).

(** [None]: the interrupted thread goes on; [Some t]: [RunThread(t)]. *)
Definition TimerTick (me : nat) (msSinceLast : Z) : M state (option Z) :=
  let* c := cpu me in
  if negb (c_startAllowed c) then ret None else
  (if locked (c_sleeping c) then fail LockHeld else lock_sleeping me true) ;;;
  wake_all me msSinceLast (items (c_sleeping c)) ;;;
  lock_sleeping me false ;;;
  let* c := cpu me in
  let oldThread := c_currentThread c in
  let* goOn :=
    (if oldThread =? 0 then ret false else
     emit (SaveContext oldThread) ;;;
     let* x := thread_of oldThread in
     let left := if t_timeRemaining x <=? msSinceLast then 0 else t_timeRemaining x - msSinceLast in
     upd_thread oldThread (set_time left) ;;;
     if (0 <? left) && negb (c_isIdle c) then ret true else
     whenM (negb (c_isIdle c)) (let* n := nice_of oldThread in enqueue me n oldThread) ;;;
     upd_cpu me (set_current 0) ;;;
     ret false) in
  if goOn then ret None else
  PickNext me false ;;;
  let* c := cpu me in
  assertM (negb (c_currentThread c =? 0)) ;;;
  upd_thread (c_currentThread c) (set_time DEFAULT_TIMESLICE) ;;;
  emit EndTimerTick ;;;
  run_current me.

(** [Yield_Internal]; [callback] runs the [yieldCallback] of a thread, and
    [fromInterrupt] says whether [data] is not null. *)
Definition Yield_Internal (callback : Z -> Z -> M state unit) (me : nat) (forceSwitch : bool) (oldThread : Z)
    (fromInterrupt : bool) : M state (option Z) :=
  acquire_cpu me ;;;
  let* oldThread :=
    (if negb (oldThread =? 0) then
       let* x := thread_of oldThread in
       (if 0 <? t_sleepRemainingTime x then
          let* c := cpu me in
          if locked (c_sleeping c) then fail LockHeld else
          lock_sleeping me true ;;;
          (let* c := cpu me in let* l := pushBack oldThread (c_sleeping c) in upd_cpu me (set_sleeping l)) ;;;
          lock_sleeping me false
        else whenM (negb (t_yieldCallback x =? 0)) (callback (t_yieldCallback x) oldThread)) ;;;
       ret 0
     else
       let* c := cpu me in
       let oldThread := c_currentThread c in
       whenM (negb (oldThread =? 0) && forceSwitch)
         (whenM fromInterrupt (emit (SaveContext oldThread)) ;;;
          (let* n := nice_of oldThread in enqueue me n oldThread) ;;;
          upd_cpu me (set_current 0)) ;;;
       ret oldThread) in
  whenM ((oldThread =? 0) || forceSwitch) (PickNext me false) ;;;
  let* c := cpu me in
  (if c_currentThread c =? 0 then release_cpu me ;;; assertM false else ret tt) ;;;
  upd_thread (c_currentThread c) (set_time DEFAULT_TIMESLICE) ;;;
  release_cpu me ;;;
  run_current me.

(** ** Threads and processes *)

(** A thread enters the ready list of a processor. *)
Definition place (i : nat) (nice thread : Z) : M state unit :=
  lock_ready i nice ;;;
  acquire_cpuInfo thread ;;;
  (let* c := cpu i in upd_thread thread (set_cpu (Some (c_id c)))) ;;;
  release_cpuInfo thread ;;;
  (let* l := ready i nice in let* l := pushBack thread l in set_ready i nice l) ;;;
  unlock_ready i nice.

Definition ScheduleThread (me : nat) (thread : Z) (on : option nat) : M state unit :=
  let* x := thread_of thread in
  if t_parent x =? 0 then ret tt else
  let* p := process_of (t_parent x) in
  if 16 <=? p_nice p then ret tt else
  upd_thread thread (fun x => set_sleep 0 (set_time DEFAULT_TIMESLICE x)) ;;;
  emit (InitRegisters thread) ;;;
  match p_mode p with USER => emit (InitExtraContext thread) | KERNEL => ret tt end ;;;
  place (default me on) (p_nice p) thread.

Definition AddExistingThread (me : nat) (thread : Z) : M state bool :=
  let* x := thread_of thread in
  if t_parent x =? 0 then ret false else
  let* p := process_of (t_parent x) in
  if 16 <=? p_nice p then ret false else
  upd_thread thread (fun x => set_sleep 0 (set_time DEFAULT_TIMESLICE x)) ;;;
  place me (p_nice p) thread ;;;
  ret true.

Definition RemoveCurrentThread (me : nat) (lock : bool) : M state Z :=
  whenM lock (acquire_cpu me) ;;;
  let* c := cpu me in
  upd_cpu me (set_current 0) ;;;
  whenM lock (release_cpu me) ;;;
  ret (c_currentThread c).

(** [SleepCurrentThread], up to and including the yield that
    [Scheduler_SaveAndYield] makes when it has saved the registers. *)
Definition SleepCurrentThread (callback : Z -> Z -> M state unit) (me : nat) (ms : Z) : M state (option Z) :=
  if ms =? 0 then ret None else
  let* thread := RemoveCurrentThread me true in
  if thread =? 0 then ret None else
  upd_thread thread (set_sleep ms) ;;;
  emit (SaveContext thread) ;;;
  Yield_Internal callback me false thread false.

Definition AddProcess (p : Z) : M state unit :=
  let* x := process_of p in
  modify (fun s => set_processes (<[p := mkProcess (p_mode x) (p_nice x) (g_LastPID s)]> (processes s))
                     (g_Processes s ++ [p]) (add64 (g_LastPID s) 1) s).

(** The first process with the number, 0 when there is none. *)
Definition GetProcess (pid : Z) : M state Z := gets (fun s =>
  default 0 (head (filter (fun p => p_pid <$> processes s !! p = Some pid) (g_Processes s)))).
Definition RemoveProcess (pid : Z) : M state unit :=
  let* p := GetProcess pid in
  whenM (negb (p =? 0)) (modify (fun s =>
    set_processes (processes s) (without p (g_Processes s)) (g_LastPID s) s)).

(** ** Processors *)

Definition no_lists : list TList := replicate NICE_LEVELS (mkList [] false).
Definition no_counts : list Z := replicate NICE_LEVELS 0.

(** [InitBSPState] *)
Definition InitBSPState : ProcessorState := mkCPU 0 0 0 no_counts no_lists (mkList [] false) false false false false.

(** [InitNewProcessor] and [AddProcessor]: the new state goes to the end of the
    list, with the next number. *)
Definition AddProcessor : M state nat :=
  let* ps := gets procs in
  match last ps with
  | None => fail NullDereference
  | Some head =>
      modify (fun s => set_procs (procs s ++
        [mkCPU (add64 (c_id head) 1) 0 0 no_counts no_lists (mkList [] false) false false false true]) s) ;;;
      modify (fun s => set_count (add64 (g_processorCount s) 1) s) ;;;
      ret (length ps)
  end.
Definition InitNewProcessor : M state nat := AddProcessor.

(** [GetProcessor]: the index of the processor in the list. *)
Fixpoint find_id (id : Z) (ps : list ProcessorState) (i : nat) : option nat :=
  match ps with [] => None | c :: ps' => if c_id c =? id then Some i else find_id id ps' (S i) end.
Definition GetProcessor (id : Z) : M state (option nat) := gets (fun s => find_id id (procs s) 0).

(** [RemoveProcessor]: [head->prev->next = head->next] takes the state out of
    the list, unless it has no predecessor; [head->next->prev = head->prev]. *)
Definition relink (prev : bool) (ps : list ProcessorState) : list ProcessorState :=
  match ps with [] => [] | c :: ps' => set_prev prev c :: ps' end.
Definition unlink (i : nat) (ps : list ProcessorState) : list ProcessorState :=
  match ps !! i with
  | None => ps
  | Some c => (if c_prev c then take i ps else take (S i) ps) ++ relink (c_prev c) (drop (S i) ps)
  end.
Definition RemoveProcessor (id : Z) : M state unit :=
  let* ps := gets procs in
  match find_id id ps 0 with
  | None => ret tt
  | Some i =>
      modify (set_procs (unlink i ps)) ;;;
      modify (fun s => set_count (sub64 (g_processorCount s) 1) s)
  end.
Definition GetProcessorCount : M state Z := gets g_processorCount.

(** [Start] allows all processors to run and runs the first thread. *)
Fixpoint allow (n : nat) (i : nat) : M state unit :=
  match n with
  | O => ret tt
  | S n' =>
      let* ps := gets procs in
      if (length ps <=? i)%nat then ret tt else
      upd_cpu i (set_startAllowed true) ;;; allow n' (S i)
  end.
Definition Start (me : nat) (AP : bool) : M state (option Z) :=
  PickNext me true ;;;
  whenM (negb AP)
    (upd_cpu me (set_startAllowed true) ;;;
     modify (set_running true) ;;;
     let* n := gets g_processorCount in allow (Z.to_nat n) 0) ;;;
  run_current me.
Definition isRunning : M state bool := gets g_isRunning.

(** [CreateIdleThread]; [thread] is the new [Thread] and [init] the result of
    its [Init]. *)
Definition CreateIdleThread (me : nat) (thread : Z) (init : bool) : M state unit :=
  if negb init then ret tt else
  (let* c := cpu me in upd_thread thread (set_cpu (Some (c_id c)))) ;;;
  emit (InitRegisters thread) ;;;
  acquire_cpu me ;;;
  upd_cpu me (set_idleThread thread) ;;;
  release_cpu me.

(** ** Semaphores (Semaphore.cpp) *)

Definition sem (a : Z) : M state Semaphore := fun s =>
  match semaphores s !! a with Some x => Ok (x, s) | None => Fail InvalidAccess end.
Definition upd_sem (a : Z) (f : Semaphore -> Semaphore) : M state unit :=
  let* x := sem a in modify (fun s => set_semaphores (<[a := f x]> (semaphores s)) s).
Definition acquire_sem (a : Z) : M state unit :=
  let* x := sem a in
  if m_lock x then fail LockHeld
  else upd_sem a (fun x => mkSemaphore (m_value x) (m_maxValue x) (m_waitingThreads x) true).
Definition release_sem (a : Z) : M state unit :=
  upd_sem a (fun x => mkSemaphore (m_value x) (m_maxValue x) (m_waitingThreads x) false).
Definition set_value (v : Z) (x : Semaphore) := mkSemaphore v (m_maxValue x) (m_waitingThreads x) (m_lock x).
Definition set_waiting (l : list Z) (x : Semaphore) := mkSemaphore (m_value x) (m_maxValue x) l (m_lock x).

(** How [Wait] goes on: the semaphore is taken, the caller spins, or [thread]
    is queued and the processor has to save its registers and yield. *)
Inductive waited : Set := Taken | Spins | Queued (thread : Z).

(** The body of the loop of [Wait] that runs with the lock held. The lock is
    free at its end: what other processors do comes between it and the rest. *)
Definition Wait_block (me : nat) (a : Z) : M state waited :=
  let* running := gets g_isRunning in
  let* c := cpu me in
  if running && negb (c_currentThread c =? 0) then
    let* thread := RemoveCurrentThread me true in
    assertM (negb (thread =? 0)) ;;;
    upd_thread thread (fun x => set_callback 0 (set_sleep 0 x)) ;;;
    unlinked thread ;;;
    (let* x := sem a in
     upd_sem a (set_waiting (m_waitingThreads x ++ [thread]))) ;;;
    release_sem a ;;;
    ret (Queued thread)
  else release_sem a ;;; ret Spins.

(** [Scheduler_SaveAndYield(thread)], after the lock has been released. *)
Definition Wait_yield (callback : Z -> Z -> M state unit) (me : nat) (thread : Z) : M state (option Z) :=
  emit (SaveContext thread) ;;;
  Yield_Internal callback me false thread false.

(** The first test of [Wait] and the one a caller makes when it runs again are
    the same; without a unit to take, the caller blocks. Each test is one
    critical section of the semaphore's lock. *)
Definition Wait (me : nat) (a : Z) : M state waited :=
  acquire_sem a ;;;
  let* x := sem a in
  if 0 <? m_value x then upd_sem a (set_value (m_value x - 1)) ;;; release_sem a ;;; ret Taken
  else Wait_block me a.

(** A thread leaves the queue and is scheduled on this processor. *)
Definition wake_first (me : nat) (a : Z) : M state unit :=
  let* x := sem a in
  match m_waitingThreads x with
  | [] => fail NullDereference
  | thread :: rest =>
      upd_sem a (set_waiting rest) ;;;
      upd_thread thread (fun y => set_sleep 0 (set_callback 0 y)) ;;;
      let* b := AddExistingThread me thread in
      assertM b
  end.

Definition Signal (me : nat) (a : Z) : M state unit :=
  acquire_sem a ;;;
  let* x := sem a in
  whenM (m_value x <? m_maxValue x)
    (upd_sem a (set_value (m_value x + 1)) ;;;
     let* running := gets g_isRunning in
     whenM (running && negb (bool_decide (m_waitingThreads x = []))) (wake_first me a)) ;;;
  release_sem a.

(** [~Semaphore] wakes every waiter. *)
Fixpoint wake_waiters (n : nat) (me : nat) (a : Z) : M state unit :=
  match n with
  | O => ret tt
  | S n' =>
      let* x := sem a in
      if bool_decide (m_waitingThreads x = []) then ret tt
      else wake_first me a ;;; wake_waiters n' me a
  end.
Definition Semaphore_delete (me : nat) (a : Z) : M state unit :=
  acquire_sem a ;;;
  (let* x := sem a in wake_waiters (length (m_waitingThreads x)) me a) ;;;
  release_sem a.

(** [Mutex] *)
Definition Mutex : Semaphore := mkSemaphore 1 1 [] false.
Definition Mutex_Lock := Wait.
Definition Mutex_Unlock := Signal.

(** [DeleteThread]; [dead] is [g_deadThreadsSemaphore]. *)
Definition DeleteThread (me : nat) (dead thread : Z) : M state bool :=
  unlinked thread ;;;
  modify (fun s => set_dead (g_deadThreads s ++ [thread]) s) ;;;
  Signal me dead ;;;
  ret true.

End Scheduler.
