(* ===== verification/SchedulerSpec.v ===== *)
(** * SchedulerSpec.v: what the scheduler guarantees

    [PickNext] takes the head of one ready list; which one depends on the run
    counts. The rule lets no level starve: as long as a level has a ready
    thread, it is served within a bounded number of picks. Ticks and yields
    lose no thread and duplicate none. *)

From S2P Require Import Prelude Scheduler.
#[local] Open Scope Z_scope.
#[local] Open Scope kernel_scope.

Module SchedulerSpec.
Import Scheduler.

(** ** Running on one processor *)

(** The state with processor [me] replaced. *)
Definition at_cpu (me : nat) (c : ProcessorState) (s : state) : state := set_procs (<[me := c]> (procs s)) s.

Section OnCPU.
Context (me : nat) (s : state) (Hme : (me < length (procs s))%nat).

Lemma at_cpu_lookup c : procs (at_cpu me c s) !! me = Some c.
Proof. cbn. by apply list_lookup_insert_eq. Qed.

Lemma cpu_runs c (Q : ProcessorState -> state -> Prop) : Q c (at_cpu me c s) -> runs (cpu me) (at_cpu me c s) Q.
Proof. intros HQ. exists c, (at_cpu me c s). unfold cpu. by rewrite at_cpu_lookup. Qed.

Lemma upd_cpu_runs c f (Q : unit -> state -> Prop) : Q tt (at_cpu me (f c) s) -> runs (upd_cpu me f) (at_cpu me c s) Q.
Proof.
  intros HQ. unfold upd_cpu. mstep. apply cpu_runs, runs_modify. unfold at_cpu in *. cbn.
  rewrite list_insert_insert_eq. exact HQ.
Qed.

Lemma ready_runs c n l (Q : TList -> state -> Prop) : 0 <= n -> c_threads c !! Z.to_nat n = Some l ->
  Q l (at_cpu me c s) -> runs (ready me n) (at_cpu me c s) Q.
Proof.
  intros Hn Hl HQ. unfold ready. mstep. apply cpu_runs. rewrite (proj2 (Z.ltb_ge _ _)), Hl by lia. by apply runs_ret.
Qed.

Lemma lock_ready_runs c n l (Q : unit -> state -> Prop) : 0 <= n -> c_threads c !! Z.to_nat n = Some l ->
  locked l = false -> Q tt (at_cpu me (set_lists (<[Z.to_nat n := mkList (items l) true]> (c_threads c)) c) s) ->
  runs (lock_ready me n) (at_cpu me c s) Q.
Proof.
  intros Hn Hl Hf HQ. unfold lock_ready. mstep. eapply ready_runs; [done..|]. rewrite Hf. by apply upd_cpu_runs.
Qed.

Lemma unlock_ready_runs c n l (Q : unit -> state -> Prop) : 0 <= n -> c_threads c !! Z.to_nat n = Some l ->
  Q tt (at_cpu me (set_lists (<[Z.to_nat n := mkList (items l) false]> (c_threads c)) c) s) ->
  runs (unlock_ready me n) (at_cpu me c s) Q.
Proof.
  intros Hn Hl HQ. unfold unlock_ready. mstep. eapply ready_runs; [done..|]. by apply upd_cpu_runs.
Qed.

Lemma runCount_runs c n x (Q : Z -> state -> Prop) : 0 <= n -> c_runCounts c !! Z.to_nat n = Some x ->
  Q x (at_cpu me c s) -> runs (runCount me n) (at_cpu me c s) Q.
Proof.
  intros Hn Hl HQ. unfold runCount. mstep. apply cpu_runs. rewrite (proj2 (Z.ltb_ge _ _)), Hl by lia. by apply runs_ret.
Qed.
End OnCPU.

Lemma at_cpu_id me c s : procs s !! me = Some c -> at_cpu me c s = s.
Proof. intros Hc. unfold at_cpu. rewrite list_insert_id by done. by destruct s. Qed.

(** ** The choice *)

(** The waiting threads and the run counts, by level. *)
Definition queues (c : ProcessorState) : list (list Z) := items <$> c_threads c.

Record cpu_ok (c : ProcessorState) : Prop := {
  co_levels : length (c_threads c) = NICE_LEVELS;
  co_counts : length (c_runCounts c) = NICE_LEVELS;
  co_range : forall i x, c_runCounts c !! i = Some x -> 0 <= x < 2 ^ 31;
  co_free : forall i l, c_threads c !! i = Some l -> locked l = false;
  co_nonnull : forall i q t, queues c !! i = Some q -> t ∈ q -> t <> 0
}.

(** The first level with a thread. *)
Definition first_level (qs : list (list Z)) (f : nat) : Prop :=
  (forall j, (j < f)%nat -> qs !! j = Some []) /\ exists q, qs !! f = Some q /\ q <> [].

(** Its run count starts again when it is used up. *)
Definition renewed (f : nat) (rc : list Z) : list Z :=
  if MAX_RUN_COUNT <=? default 0 (rc !! f) then <[f := 0]> rc else rc.

(** What the scan has found below level [i]. *)
Definition found (qs : list (list Z)) (rc0 : list Z) (i : nat) (thread nice : Z) (rc : list Z) : Prop :=
  (thread = 0 /\ nice = -1 /\ rc = rc0 /\ forall j, (j < i)%nat -> qs !! j = Some []) \/
  (thread <> 0 /\ exists f n q, nice = Z.of_nat n /\ (f <= n < i)%nat /\ first_level qs f /\ rc = renewed f rc0 /\
     qs !! n = Some (thread :: q) /\ (n = f \/ default 0 (rc0 !! n) < MAX_RUN_COUNT) /\
     forall j q', (n < j < i)%nat -> qs !! j = Some q' -> q' <> [] -> MAX_RUN_COUNT <= default 0 (rc0 !! j)).

Lemma renewed_ne f rc0 j : j <> f -> renewed f rc0 !! j = rc0 !! j.
Proof. intros Hne. unfold renewed. destruct (_ <=? _); [|done]. by rewrite list_lookup_insert_ne. Qed.

Lemma found_skip qs rc0 i thread nice rc q : found qs rc0 i thread nice rc -> qs !! i = Some q ->
  q = [] \/ (thread <> 0 /\ MAX_RUN_COUNT <= default 0 (rc0 !! i)) -> found qs rc0 (S i) thread nice rc.
Proof.
  intros [(-> & -> & -> & He)|(Ht & f & n & q0 & -> & Hn & Hf & -> & Hq & Hc & Hup)] Hi Hs.
  - left. destruct Hs as [->|[? _]]; [|done]. split_and!; [done..|]. intros j Hj.
    destruct (decide (j = i)) as [->|]; [done|]. apply He. lia.
  - right. split; [done|]. exists f, n, q0. split_and!; [done|lia|lia|done|done|done|done|].
    intros j q' Hj Hq' Hne. destruct (decide (j = i)) as [->|]; [|apply (Hup j q'); [lia|done|done]].
    rewrite Hi in Hq'. simplify_eq. destruct Hs as [->|[_ ?]]; done.
Qed.

Lemma found_take qs rc0 i thread nice rc t q : found qs rc0 i thread nice rc -> qs !! i = Some (t :: q) -> t <> 0 ->
  thread = 0 \/ default 0 (rc0 !! i) < MAX_RUN_COUNT ->
  found qs rc0 (S i) t (Z.of_nat i) (if decide (thread = 0) then renewed i rc0 else rc).
Proof.
  intros [(-> & -> & -> & He)|(Ht & f & n & q0 & -> & Hn & Hf & -> & Hq & Hc & Hup)] Hi Ht0 Hs.
  - right. split; [done|]. exists i, i, q. rewrite decide_True by done.
    split_and!; [done|lia|lia|split; [exact He|by exists (t :: q)]|done|done|by left|]. intros. lia.
  - right. split; [done|]. exists f, i, q. rewrite decide_False by done.
    split_and!; [done|lia|lia|done|done|done|right; by destruct Hs|]. intros. lia.
Qed.

(** *** The scan of the levels *)

Lemma queues_relock (L : list TList) j l b : L !! j = Some l -> items <$> <[j := mkList (items l) b]> L = items <$> L.
Proof. intros Hl. rewrite list_fmap_insert. cbn. apply list_insert_id. by rewrite list_lookup_fmap, Hl. Qed.

Lemma relock_same (L : list TList) j l : L !! j = Some l -> locked l = false ->
  <[j := mkList (items l) false]> (<[j := mkList (items l) true]> L) = L.
Proof. intros Hl Hf. rewrite list_insert_insert_eq, list_insert_id; [done|]. rewrite Hl. destruct l. cbn in *. by subst. Qed.

(** The state with the ready lists of processor [src] and the run counts of
    processor [cur] replaced; they may be the same processor. *)
Definition scanned (src cur : nat) (s : state) (L : list TList) (R : list Z) : state :=
  set_procs (alter (set_lists L) src (alter (set_runCounts R) cur (procs s))) s.

Lemma alter_twice {A} (f g : A -> A) i (l : list A) : alter f i (alter g i l) = alter (f ∘ g) i l.
Proof.
  apply list_eq. intros j. destruct (decide (i = j)) as [->|Hne].
  - rewrite !list_lookup_alter_eq. by destruct (l !! j).
  - by rewrite !list_lookup_alter_ne.
Qed.
Lemma alter_commute {A} (f g : A -> A) i k (l : list A) : (forall x, f (g x) = g (f x)) ->
  alter f i (alter g k l) = alter g k (alter f i l).
Proof.
  intros H. apply list_eq. intros j. destruct (decide (i = j)) as [->|Hi], (decide (k = j)) as [->|Hk].
  - rewrite !list_lookup_alter_eq. destruct (l !! j); cbn; by rewrite ?H.
  - by repeat (rewrite list_lookup_alter_eq || rewrite list_lookup_alter_ne by done).
  - by repeat (rewrite list_lookup_alter_eq || rewrite list_lookup_alter_ne by done).
  - by rewrite !list_lookup_alter_ne.
Qed.
Lemma upd_cpu_alter i f s c (Q : unit -> state -> Prop) : procs s !! i = Some c ->
  Q tt (set_procs (alter f i (procs s)) s) -> runs (upd_cpu i f) s Q.
Proof.
  intros Hc HQ. exists tt, (set_procs (alter f i (procs s)) s). split; [|done]. unfold upd_cpu, bind, cpu. rewrite Hc.
  unfold modify. repeat f_equal. apply list_eq. intros j. rewrite list_lookup_alter, list_lookup_insert.
  case_decide as Hj; [destruct Hj as [-> _]; rewrite decide_True, Hc by done; done|].
  case_decide; [|done]. subst. exfalso. apply Hj. split; [done|]. by eapply lookup_lt_Some.
Qed.

Section Scan.
Context (src cur : nat) (s : state) (csrc ccur : ProcessorState).
Context (Hsrc : procs s !! src = Some csrc) (Hcur : procs s !! cur = Some ccur).
Notation at_ := (scanned src cur s).
Notation qs0 := (queues csrc).
Notation rc0 := (c_runCounts ccur).

Lemma scanned_start : at_ (c_threads csrc) rc0 = s.
Proof.
  unfold scanned. transitivity (set_procs (procs s) s); [|by destruct s]. f_equal. apply list_eq. intros i.
  assert (Heq : src = cur -> csrc = ccur) by (intros ->; congruence).
  rewrite !list_lookup_alter. repeat case_decide; subst; rewrite ?Hsrc, ?Hcur; cbn; try done; f_equal;
    [rewrite <- Heq by done; by destruct csrc|by destruct csrc|by destruct ccur].
Qed.

Lemma scanned_src L R : exists c, procs (at_ L R) !! src = Some c /\ c_threads c = L.
Proof. unfold scanned. cbn. rewrite list_lookup_alter_eq, list_lookup_alter. case_decide; subst; rewrite ?Hsrc, ?Hcur; cbn; eauto. Qed.
Lemma scanned_cur L R : exists c, procs (at_ L R) !! cur = Some c /\ c_runCounts c = R.
Proof.
  unfold scanned. cbn. rewrite list_lookup_alter. case_decide; subst; rewrite list_lookup_alter_eq, Hcur; cbn; eauto.
Qed.

Lemma scan_upd_lists g L R (Q : unit -> state -> Prop) : Q tt (at_ (g L) R) ->
  runs (upd_cpu src (fun c => set_lists (g (c_threads c)) c)) (at_ L R) Q.
Proof.
  intros HQ. destruct (scanned_src L R) as (c & Hc & _). apply (upd_cpu_alter _ _ _ _ _ Hc).
  unfold scanned in *. cbn. rewrite alter_twice. exact HQ.
Qed.

Lemma scan_upd_counts g L R (Q : unit -> state -> Prop) : Q tt (at_ L (g R)) ->
  runs (upd_cpu cur (fun c => set_runCounts (g (c_runCounts c)) c)) (at_ L R) Q.
Proof.
  intros HQ. destruct (scanned_cur L R) as (c & Hc & _). apply (upd_cpu_alter _ _ _ _ _ Hc).
  unfold scanned in *. cbn. rewrite alter_commute, alter_twice by done. exact HQ.
Qed.

Lemma scan_ready_runs n l L R (Q : TList -> state -> Prop) : 0 <= n -> L !! Z.to_nat n = Some l -> Q l (at_ L R) ->
  runs (ready src n) (at_ L R) Q.
Proof.
  intros Hn Hl HQ. destruct (scanned_src L R) as (c & Hc & <-). unfold ready. mstep. exists c, (at_ (c_threads c) R).
  unfold cpu. rewrite Hc. split; [done|]. rewrite (proj2 (Z.ltb_ge _ _)), Hl by lia. by apply runs_ret.
Qed.
Lemma scan_count_runs n x L R (Q : Z -> state -> Prop) : 0 <= n -> R !! Z.to_nat n = Some x -> Q x (at_ L R) ->
  runs (runCount cur n) (at_ L R) Q.
Proof.
  intros Hn Hl HQ. destruct (scanned_cur L R) as (c & Hc & <-). unfold runCount. mstep. exists c, (at_ L (c_runCounts c)).
  unfold cpu. rewrite Hc. split; [done|]. rewrite (proj2 (Z.ltb_ge _ _)), Hl by lia. by apply runs_ret.
Qed.
Lemma scan_set_runs n l' L R (Q : unit -> state -> Prop) : Q tt (at_ (<[Z.to_nat n := l']> L) R) ->
  runs (set_ready src n l') (at_ L R) Q.
Proof. intros HQ. by apply (scan_upd_lists (fun L => <[Z.to_nat n := l']> L)). Qed.
Lemma scan_lock_runs n l L R (Q : unit -> state -> Prop) : 0 <= n -> L !! Z.to_nat n = Some l -> locked l = false ->
  Q tt (at_ (<[Z.to_nat n := mkList (items l) true]> L) R) -> runs (lock_ready src n) (at_ L R) Q.
Proof.
  intros Hn Hl Hf HQ. unfold lock_ready. mstep. eapply scan_ready_runs; [done..|]. rewrite Hf. by apply scan_set_runs.
Qed.
Lemma scan_unlock_runs n l L R (Q : unit -> state -> Prop) : 0 <= n -> L !! Z.to_nat n = Some l ->
  Q tt (at_ (<[Z.to_nat n := mkList (items l) false]> L) R) -> runs (unlock_ready src n) (at_ L R) Q.
Proof.
  intros Hn Hl HQ. unfold unlock_ready. mstep. eapply scan_ready_runs; [done..|]. by apply scan_set_runs.
Qed.

Context (Osrc : cpu_ok csrc) (Ocur : cpu_ok ccur).

(** The lists and the counts when the levels below [i] have been looked at. *)
Record scanning (i : nat) (thread nice : Z) (L : list TList) (R : list Z) : Prop := {
  sn_queues : items <$> L = qs0;
  sn_locks : forall j l, L !! j = Some l -> locked l = bool_decide (thread <> 0 /\ nice = Z.of_nat j);
  sn_found : found qs0 rc0 i thread nice R
}.

Lemma scanning_list i thread nice L R j : scanning i thread nice L R -> (j < 16)%nat ->
  exists l q, L !! j = Some l /\ items l = q /\ qs0 !! j = Some q.
Proof.
  intros Hc Hj. pose proof (sn_queues _ _ _ _ _ Hc) as Hq.
  destruct (qs0 !! j) as [q|] eqn:Eq.
  - rewrite <- Hq in Eq. rewrite list_lookup_fmap in Eq. apply fmap_Some in Eq as (l & Hl & ->). eauto.
  - apply lookup_ge_None in Eq. unfold queues in Eq. rewrite length_fmap, (co_levels _ Osrc) in Eq. lia.
Qed.

Lemma scanning_count i thread nice L R : scanning i thread nice L R -> R !! i = rc0 !! i.
Proof.
  intros Hc. destruct (sn_found _ _ _ _ _ Hc) as [(_ & _ & -> & _)|(_ & f & n & q & _ & Hn & _ & -> & _)]; [done|].
  apply renewed_ne. lia.
Qed.

Lemma scanning_nice i thread nice L R : scanning i thread nice L R -> nice < Z.of_nat i /\ (thread <> 0 -> 0 <= nice).
Proof.
  intros Hc. destruct (sn_found _ _ _ _ _ Hc) as [(-> & -> & _)|(_ & f & n & q & -> & Hn & _)]; lia.
Qed.

(** The list that is taken is the only one locked, and the one taken before is
    free again. *)
Lemma sn_locks_first i nice L R l t : scanning i 0 nice L R -> t <> 0 -> L !! i = Some l ->
  forall j l', <[i := mkList (items l) true]> L !! j = Some l' -> locked l' = bool_decide (t <> 0 /\ Z.of_nat i = Z.of_nat j).
Proof.
  intros Hc Ht Hl j l' Hj. apply list_lookup_insert_Some in Hj as [(-> & <- & _)|[Hne Hj]].
  - cbn. symmetry. by apply bool_decide_eq_true.
  - rewrite (sn_locks _ _ _ _ _ Hc _ _ Hj). rewrite !bool_decide_eq_false_2; [done|lia|lia].
Qed.
Lemma sn_locks_next i thread n L R l ln t : scanning i thread (Z.of_nat n) L R -> t <> 0 -> thread <> 0 -> n <> i ->
  L !! i = Some l -> L !! n = Some ln ->
  forall j l', <[n := mkList (items ln) false]> (<[i := mkList (items l) true]> L) !! j = Some l' ->
  locked l' = bool_decide (t <> 0 /\ Z.of_nat i = Z.of_nat j).
Proof.
  intros Hc Ht Hth Hni Hl Hln j l' Hj. apply list_lookup_insert_Some in Hj as [(-> & <- & _)|[Hne Hj]].
  - cbn. symmetry. apply bool_decide_eq_false. lia.
  - apply list_lookup_insert_Some in Hj as [(-> & <- & _)|[Hne' Hj]]; [cbn; symmetry; by apply bool_decide_eq_true|].
    rewrite (sn_locks _ _ _ _ _ Hc _ _ Hj). rewrite !bool_decide_eq_false_2; [done|lia|lia].
Qed.

(** The first list with a thread, and a later one. *)
Lemma scanning_first i nice L R l t q : scanning i 0 nice L R -> L !! i = Some l -> items l = t :: q -> t <> 0 ->
  scanning (S i) t (Z.of_nat i) (<[i := mkList (items l) true]> L) (renewed i rc0).
Proof.
  intros Hc Hl Hq Ht. constructor; [by rewrite queues_relock, (sn_queues _ _ _ _ _ Hc)|by eapply sn_locks_first|].
  assert (Hi : qs0 !! i = Some (t :: q)) by (by rewrite <- (sn_queues _ _ _ _ _ Hc), list_lookup_fmap, Hl, <- Hq).
  apply (found_take _ _ _ _ _ _ _ _ (sn_found _ _ _ _ _ Hc) Hi Ht). by left.
Qed.
Lemma scanning_next i thread n L R l ln t q : scanning i thread (Z.of_nat n) L R -> thread <> 0 -> n <> i ->
  L !! i = Some l -> L !! n = Some ln -> items l = t :: q -> t <> 0 -> default 0 (rc0 !! i) < MAX_RUN_COUNT ->
  scanning (S i) t (Z.of_nat i) (<[n := mkList (items ln) false]> (<[i := mkList (items l) true]> L)) R.
Proof.
  intros Hc Hth Hni Hl Hln Hq Ht Hrc. constructor; [|by eapply sn_locks_next|].
  - rewrite queues_relock by (by rewrite list_lookup_insert_ne). by rewrite queues_relock, (sn_queues _ _ _ _ _ Hc).
  - assert (Hi : qs0 !! i = Some (t :: q)) by (by rewrite <- (sn_queues _ _ _ _ _ Hc), list_lookup_fmap, Hl, <- Hq).
    pose proof (found_take _ _ _ _ _ _ _ _ (sn_found _ _ _ _ _ Hc) Hi Ht (or_intror Hrc)) as H.
    by rewrite decide_False in H.
Qed.
Lemma scanning_skip i thread nice L R l : scanning i thread nice L R -> L !! i = Some l ->
  items l = [] \/ (thread <> 0 /\ MAX_RUN_COUNT <= default 0 (rc0 !! i)) -> scanning (S i) thread nice L R.
Proof.
  intros [H1 H2 H3] Hl Hs. constructor; try done. eapply found_skip; [exact H3| |exact Hs].
  by rewrite <- H1, list_lookup_fmap, Hl.
Qed.

Lemma scan_runs n : forall i thread nice L R (Q : Z * Z -> state -> Prop), (n + i = 16)%nat -> scanning i thread nice L R ->
  (forall t' n' L' R', scanning 16 t' n' L' R' -> Q (t', n') (at_ L' R')) ->
  runs (scan n src cur (Z.of_nat i) thread nice) (at_ L R) Q.
Proof.
  induction n as [|n IH]; intros i thread nice L R Q Hn Hc HQ.
  { assert (i = 16%nat) as -> by lia. apply runs_ret. by apply HQ. }
  cbn [scan]. destruct (scanning_nice _ _ _ _ _ Hc) as [Hni Hn0].
  destruct (scanning_list _ _ _ _ _ i Hc ltac:(lia)) as (l & q & Hl & Hlq & Hq).
  assert (Hlf : locked l = false).
  { rewrite (sn_locks _ _ _ _ _ Hc _ _ Hl). apply bool_decide_eq_false. lia. }
  destruct (lookup_lt_is_Some_2 rc0 i) as [x Hx]; [rewrite (co_counts _ Ocur); lia|].
  pose proof (lookup_lt_Some _ _ _ Hl) as Hilen.
  mstep. eapply scan_lock_runs; [lia|by rewrite Nat2Z.id|done|]. rewrite Nat2Z.id.
  mstep. eapply scan_ready_runs; [lia|rewrite Nat2Z.id; by apply list_lookup_insert_eq|]. cbn [items].
  mstep. eapply scan_count_runs; [lia|rewrite Nat2Z.id; by rewrite (scanning_count _ _ _ _ _ Hc)|].
  replace (Z.of_nat i + 1) with (Z.of_nat (S i)) by lia. case_match eqn:Eb.
  - mstep. eapply scan_unlock_runs; [lia|rewrite Nat2Z.id; by apply list_lookup_insert_eq|].
    rewrite Nat2Z.id. cbn [items]. rewrite relock_same by done. apply IH; [lia| |done].
    eapply scanning_skip; [done..|]. rewrite Hx. apply orb_true_iff in Eb as [Eb|Eb]; [left; by apply bool_decide_eq_true in Eb|right].
    apply andb_true_iff in Eb as [Eb Et]. apply andb_true_iff in Eb as [Eb _]. apply negb_true_iff in Et. zb. done.
  - apply orb_false_iff in Eb as [Eb1 Eb2]. apply bool_decide_eq_false in Eb1. rewrite Hlq in Eb1.
    destruct q as [|t q]; [done|]. assert (Ht : t <> 0) by (eapply (co_nonnull _ Osrc i); [exact Hq|set_solver]).
    assert (Hhead : getHead (mkList (items l) true) = t) by (unfold getHead; cbn; by rewrite Hlq). rewrite Hhead.
    mstep. destruct (Z.eqb_spec thread 0) as [->|Hne]; cbn [negb].
    + destruct (sn_found _ _ _ _ _ Hc) as [(_ & _ & -> & _)|(? & _)]; [|done].
      pose proof (scanning_first _ _ _ _ _ _ _ Hc Hl Hlq Ht) as Hstep. unfold renewed in Hstep. rewrite Hx in Hstep. cbn in Hstep.
      destruct (MAX_RUN_COUNT <=? x); cbn [whenM]; [|apply runs_ret; by apply IH; [lia|..]].
      apply (scan_upd_counts (fun R => <[Z.to_nat (Z.of_nat i) := 0 mod 2 ^ 32]> R)). rewrite Nat2Z.id. apply IH; [lia|exact Hstep|done].
    + specialize (Hn0 Hne). destruct (Z_of_nat_complete _ Hn0) as [k ->].
      destruct (scanning_list _ _ _ _ _ k Hc ltac:(lia)) as (ln & qn & Hln & _ & _).
      eapply scan_unlock_runs; [lia|rewrite Nat2Z.id, list_lookup_insert_ne by lia; exact Hln|]. rewrite Nat2Z.id.
      apply IH; [lia| |done]. eapply (scanning_next _ _ _ _ _ _ _ _ _ Hc Hne); [lia|done|done|exact Hlq|exact Ht|].
      rewrite Hx. cbn. destruct (Z.leb_spec MAX_RUN_COUNT x); [|lia]. 
      cbn in Eb2. rewrite andb_true_r in Eb2. apply negb_false_iff in Eb2. zb. lia.
Qed.

Lemma scanning_start : scanning 0 0 (-1) (c_threads csrc) rc0.
Proof.
  constructor; [done| |].
  - intros j l Hl. rewrite (co_free _ Osrc _ _ Hl). by rewrite bool_decide_eq_false_2 by lia.
  - left. split_and!; done || lia.
Qed.
End Scan.

(** *** The run counts after a pick *)

Definition reset_from (i : nat) (rc : list Z) : list Z :=
  imap (fun j x => if bool_decide (i <= j)%nat && (MAX_RUN_COUNT <=? x) then 0 else x) rc.
Definition counts_after (f n : nat) (rc : list Z) : list Z :=
  reset_from (S n) (<[n := default 0 (renewed f rc !! n) + 1]> (renewed f rc)).

Lemma reset_from_end rc : reset_from (length rc) rc = rc.
Proof.
  unfold reset_from. apply list_eq. intros j. rewrite list_lookup_imap.
  destruct (rc !! j) eqn:Ej; cbn; [|done]. apply lookup_lt_Some in Ej. rewrite bool_decide_eq_false_2 by lia. done.
Qed.

Lemma reset_from_step i rc x : rc !! i = Some x ->
  reset_from i rc = reset_from (S i) (if MAX_RUN_COUNT <=? x then <[i := 0]> rc else rc).
Proof.
  intros Hx. unfold reset_from. apply list_eq. intros j. rewrite !list_lookup_imap.
  destruct (decide (j = i)) as [->|Hne].
  - rewrite Hx. destruct (MAX_RUN_COUNT <=? x) eqn:E.
    + rewrite list_lookup_insert_eq by (by eapply lookup_lt_Some). cbn [fmap option_fmap option_map]. rewrite E, (bool_decide_eq_true_2 (i <= i)%nat) by lia. cbn [andb]. by case_match.
    + rewrite Hx. cbn. by rewrite E, !andb_false_r.
  - replace ((if MAX_RUN_COUNT <=? x then <[i:=0]> rc else rc) !! j) with (rc !! j)
      by (destruct (_ <=? _); [by rewrite list_lookup_insert_ne|done]).
    destruct (rc !! j); cbn; [|done]. rewrite (bool_decide_ext (i <= j)%nat (S i <= j)%nat) by lia. done.
Qed.

Lemma reset_counts_runs me s k : (me < length (procs s))%nat -> forall i c (Q : unit -> state -> Prop),
  (k + i = length (c_runCounts c))%nat ->
  Q tt (at_cpu me (set_runCounts (reset_from i (c_runCounts c)) c) s) ->
  runs (reset_counts k me (Z.of_nat i)) (at_cpu me c s) Q.
Proof.
  intros Hme. induction k as [|k IH]; intros i c Q Hk HQ; cbn [reset_counts].
  { apply runs_ret. cbn in Hk. subst i. rewrite reset_from_end in HQ. by destruct c. }
  destruct (lookup_lt_is_Some_2 (c_runCounts c) i) as [x Hx]; [lia|].
  mstep. eapply runCount_runs; [done|lia|by rewrite Nat2Z.id|]. mstep.
  rewrite (reset_from_step _ _ _ Hx) in HQ. replace (Z.of_nat i + 1) with (Z.of_nat (S i)) by lia.
  destruct (MAX_RUN_COUNT <=? x); cbn [whenM].
  - apply upd_cpu_runs; [done|]. rewrite Nat2Z.id. apply IH; [cbn; rewrite length_insert; lia|]. exact HQ.
  - apply runs_ret. apply IH; [lia|done].
Qed.

(** ** What [PickNext] does *)

(** The level that is served, and the thread; [qs] are the waiting threads and
    [rc] the run counts. *)
Record serves (qs : list (list Z)) (rc : list Z) (n : nat) (t : Z) (f : nat) (q : list Z) : Prop := {
  sv_first : first_level qs f;
  sv_level : (f <= n < 16)%nat;
  sv_head : qs !! n = Some (t :: q);
  sv_low : n = f \/ default 0 (rc !! n) < MAX_RUN_COUNT;
  sv_high : forall j q', (n < j < 16)%nat -> qs !! j = Some q' -> q' <> [] -> MAX_RUN_COUNT <= default 0 (rc !! j)
}.

(** The processor after it has taken the head of level [n] of its own lists. *)
Definition takes (c0 : ProcessorState) (n : nat) (t : Z) (f : nat) (q : list Z) : ProcessorState :=
  set_current t (set_isIdle (t =? c_idleThread c0) (set_runCounts (counts_after f n (c_runCounts c0))
    (set_lists (<[n := mkList q false]> (c_threads c0)) c0))).

(** No list of the processor has a thread. *)
Definition nothing_ready (c : ProcessorState) : Prop := forall j, (j < 16)%nat -> queues c !! j = Some [].

Section Final.
Context (csrc ccur : ProcessorState) (Osrc : cpu_ok csrc).

Lemma scanning_none n L R : scanning csrc ccur 16 0 n L R ->
  nothing_ready csrc /\ n = -1 /\ L = c_threads csrc /\ R = c_runCounts ccur.
Proof.
  intros Hc. destruct (sn_found _ _ _ _ _ _ _ Hc) as [(_ & -> & -> & He)|(? & _)]; [|done]. split_and!; [exact He|done| |done].
  apply list_eq. intros j. pose proof (f_equal (lookup j) (sn_queues _ _ _ _ _ _ _ Hc)) as Hq. unfold queues in Hq.
  rewrite !list_lookup_fmap in Hq. destruct (L !! j) as [l|] eqn:El, (c_threads csrc !! j) as [l'|] eqn:El'; try done.
  cbn in Hq. injection Hq as Hq. pose proof (sn_locks _ _ _ _ _ _ _ Hc _ _ El) as Hlk. rewrite bool_decide_eq_false_2 in Hlk by lia.
  pose proof (co_free _ Osrc _ _ El'). destruct l, l'. cbn in *. congruence.
Qed.

Lemma scanning_some t n L R : scanning csrc ccur 16 t n L R -> t <> 0 ->
  exists k f q l, n = Z.of_nat k /\ serves (queues csrc) (c_runCounts ccur) k t f q /\ R = renewed f (c_runCounts ccur) /\
    L !! k = Some l /\ items l = t :: q /\
    forall q', <[k := mkList q' false]> L = <[k := mkList q' false]> (c_threads csrc).
Proof.
  intros Hc Ht. destruct (sn_found _ _ _ _ _ _ _ Hc) as [(? & _)|(_ & f & k & q & -> & Hk & Hf & -> & Hq & Hl & Hh)]; [done|].
  destruct (scanning_list csrc ccur Osrc _ _ _ _ _ k Hc ltac:(lia)) as (l & q0 & Hlk & Hit & Hq0).
  rewrite Hq in Hq0. simplify_eq. exists k, f, q, l. split_and!; [done|by constructor|done|done|done|].
  intros q'. apply list_eq. intros j. pose proof (f_equal length (sn_queues _ _ _ _ _ _ _ Hc)) as Hlen. unfold queues in Hlen.
  rewrite !length_fmap in Hlen. destruct (decide (j = k)) as [->|Hne].
  - pose proof (lookup_lt_Some _ _ _ Hlk). by rewrite !list_lookup_insert_eq by lia.
  - rewrite !list_lookup_insert_ne by done. pose proof (f_equal (lookup j) (sn_queues _ _ _ _ _ _ _ Hc)) as Hqj. unfold queues in Hqj.
    rewrite !list_lookup_fmap in Hqj. destruct (L !! j) as [lj|] eqn:El, (c_threads csrc !! j) as [l'|] eqn:El'; try done.
    cbn in Hqj. injection Hqj as Hqj. pose proof (sn_locks _ _ _ _ _ _ _ Hc _ _ El) as Hlj. rewrite bool_decide_eq_false_2 in Hlj by lia.
    pose proof (co_free _ Osrc _ _ El'). destruct lj, l'. cbn in *. congruence.
Qed.
End Final.

Lemma renewed_length f rc : length (renewed f rc) = length rc.
Proof. unfold renewed. destruct (_ <=? _); [apply length_insert|done]. Qed.
Lemma reset_from_length i rc : length (reset_from i rc) = length rc.
Proof. apply length_imap. Qed.
Lemma counts_after_length f n rc : length (counts_after f n rc) = length rc.
Proof. unfold counts_after. by rewrite reset_from_length, length_insert, renewed_length. Qed.

Lemma renewed_range f rc : (forall i x, rc !! i = Some x -> 0 <= x < 2 ^ 31) ->
  forall i x, renewed f rc !! i = Some x -> 0 <= x < 2 ^ 31.
Proof.
  intros Hr i x Hx. unfold renewed in Hx. destruct (_ <=? _); [|by eapply Hr].
  apply list_lookup_insert_Some in Hx as [(-> & <- & _)|[_ Hx]]; [lia|by eapply Hr].
Qed.

(** The count of the level that is served is below the limit before the pick. *)
Lemma serves_count qs c0 n t f q : cpu_ok c0 -> serves qs (c_runCounts c0) n t f q ->
  exists x, renewed f (c_runCounts c0) !! n = Some x /\ 0 <= x < MAX_RUN_COUNT.
Proof.
  intros Hok [Hf Hn Hh Hl _]. destruct (lookup_lt_is_Some_2 (c_runCounts c0) n) as [x Hx]; [rewrite (co_counts _ Hok); lia|].
  pose proof (co_range _ Hok _ _ Hx). unfold MAX_RUN_COUNT in *.
  destruct (decide (n = f)) as [->|Hne].
  - unfold renewed, MAX_RUN_COUNT. rewrite Hx. cbn. destruct (Z.leb_spec 2 x).
    + exists 0. rewrite list_lookup_insert_eq by (by eapply lookup_lt_Some). split; [done|lia].
    + exists x. split; [done|lia].
  - rewrite renewed_ne by done. rewrite Hx in Hl. cbn in Hl. exists x. split; [done|]. destruct Hl; [done|lia].
Qed.

Lemma counts_after_range qs c0 n t f q : cpu_ok c0 -> serves qs (c_runCounts c0) n t f q ->
  forall i x, counts_after f n (c_runCounts c0) !! i = Some x -> 0 <= x < 2 ^ 31.
Proof.
  intros Hok Hsv i x Hx. destruct (serves_count _ _ _ _ _ _ Hok Hsv) as (y & Hy & Hyr). unfold MAX_RUN_COUNT in Hyr.
  unfold counts_after, reset_from in Hx. rewrite list_lookup_imap in Hx. apply fmap_Some in Hx as (z & Hz & ->).
  case_match; [lia|]. rewrite Hy in Hz. cbn in Hz.
  apply list_lookup_insert_Some in Hz as [(-> & <- & _)|[_ Hz]]; [lia|].
  eapply renewed_range; [apply (co_range _ Hok)|exact Hz].
Qed.

(** Every processor stays well formed. *)
Lemma cpu_ok_counts qs c0 n t f q : cpu_ok c0 -> serves qs (c_runCounts c0) n t f q ->
  cpu_ok (set_runCounts (counts_after f n (c_runCounts c0)) c0).
Proof.
  intros Hok Hsv. destruct Hok as [H1 H2 H3 H4 H5] eqn:E. constructor; [done| |by eapply counts_after_range|done|done].
  cbn -[counts_after]. by rewrite counts_after_length.
Qed.
Lemma cpu_ok_taken c0 rc n t f q : cpu_ok c0 -> serves (queues c0) rc n t f q ->
  cpu_ok (set_lists (<[n := mkList q false]> (c_threads c0)) c0).
Proof.
  intros Hok Hsv. constructor; cbn; [by rewrite length_insert, (co_levels _ Hok)|apply Hok|apply Hok| |].
  - intros i l Hi. apply list_lookup_insert_Some in Hi as [(-> & <- & _)|[Hik Hi]]; [done|]. by eapply (co_free _ Hok).
  - unfold queues. cbn. rewrite list_fmap_insert. cbn. intros i q' t' Hi Hin.
    apply list_lookup_insert_Some in Hi as [(-> & <- & _)|[Hik Hi]].
    + eapply (co_nonnull _ Hok); [apply (sv_head _ _ _ _ _ _ Hsv)|set_solver].
    + by eapply (co_nonnull _ Hok).
Qed.
Lemma cpu_ok_takes c0 n t f q : cpu_ok c0 -> serves (queues c0) (c_runCounts c0) n t f q -> cpu_ok (takes c0 n t f q).
Proof.
  intros Hok Hsv. destruct (cpu_ok_taken _ _ _ _ _ _ Hok Hsv) as [H1 H2 H3 H4 H5].
  destruct (cpu_ok_counts _ _ _ _ _ _ Hok Hsv) as [G1 G2 G3 G4 G5]. by constructor.
Qed.

(** *** Taking a thread *)

Lemma at_cpu_twice me c c' s : at_cpu me c (at_cpu me c' s) = at_cpu me c s.
Proof. unfold at_cpu. cbn. by rewrite list_insert_insert_eq. Qed.

Lemma alter_insert {A} (f : A -> A) i (l : list A) x : l !! i = Some x -> alter f i l = <[i := f x]> l.
Proof.
  intros Hx. apply list_eq. intros j. destruct (decide (i = j)) as [->|Hne].
  - rewrite list_lookup_alter_eq, list_lookup_insert_eq, Hx by (by eapply lookup_lt_Some). done.
  - by rewrite list_lookup_alter_ne, list_lookup_insert_ne.
Qed.
Lemma scanned_own me s c L R : procs s !! me = Some c -> scanned me me s L R = at_cpu me (set_lists L (set_runCounts R c)) s.
Proof. intros Hc. unfold scanned. rewrite alter_twice, (alter_insert _ _ _ c) by done. done. Qed.
Lemma scanned_other src me s c c' L R : src <> me -> procs s !! src = Some c -> procs s !! me = Some c' ->
  scanned src me s L R = at_cpu me (set_runCounts R c') (at_cpu src (set_lists L c) s).
Proof.
  intros Hne Hc Hc'. unfold scanned, at_cpu. unfold set_procs. cbn. f_equal. rewrite alter_commute by done.
  rewrite (alter_insert _ src _ c) by done. by rewrite (alter_insert _ me _ c') by (by rewrite list_lookup_insert_ne).
Qed.

(** The end of [PickNext]. *)
Lemma finish_runs me s c t lockState (Q : unit -> state -> Prop) : (me < length (procs s))%nat ->
  (lockState = true -> c_lock c = false) ->
  Q tt (at_cpu me (set_current t (set_isIdle (t =? c_idleThread c) c)) s) ->
  runs (whenM lockState (acquire_cpu me) ;;; (let* c := cpu me in upd_cpu me (set_isIdle (t =? c_idleThread c))) ;;;
        upd_cpu me (set_current t) ;;; whenM lockState (release_cpu me)) (at_cpu me c s) Q.
Proof.
  intros Hme Hlk HQ. destruct lockState; cbn [whenM].
  - specialize (Hlk eq_refl). mstep. unfold acquire_cpu. mstep. apply cpu_runs; [done|]. rewrite Hlk.
    apply upd_cpu_runs; [done|]. mstep. mstep. apply cpu_runs; [done|]. apply upd_cpu_runs; [done|].
    mstep. apply upd_cpu_runs; [done|]. apply upd_cpu_runs; [done|].
    match goal with |- Q tt (at_cpu me ?x s) => replace x with (set_current t (set_isIdle (t =? c_idleThread c) c)) end; [done|].
    destruct c. cbn in *. by subst.
  - mstep. apply runs_ret. mstep. mstep. apply cpu_runs; [done|]. apply upd_cpu_runs; [done|].
    mstep. apply upd_cpu_runs; [done|]. by apply runs_ret.
Qed.

(** Counting a run on the level that is served, and the counts above it. *)
Lemma level_count_runs me s c n x (Q : unit -> state -> Prop) : (me < length (procs s))%nat ->
  c_runCounts c !! n = Some x -> 0 <= x < 2 -> Q tt (at_cpu me (set_runCounts (<[n := x + 1]> (c_runCounts c)) c) s) ->
  runs (let* rc := runCount me (Z.of_nat n) in set_runCount me (Z.of_nat n) (rc + 1)) (at_cpu me c s) Q.
Proof.
  intros Hme Hx Hr HQ. mstep. eapply runCount_runs; [done|lia|by rewrite Nat2Z.id|].
  apply upd_cpu_runs; [done|]. by rewrite Nat2Z.id, Z.mod_small by lia.
Qed.
Lemma reset_above_runs me s c n (Q : unit -> state -> Prop) : (me < length (procs s))%nat -> (n <= 16)%nat ->
  length (c_runCounts c) = NICE_LEVELS -> Q tt (at_cpu me (set_runCounts (reset_from n (c_runCounts c)) c) s) ->
  runs (reset_counts (NICE_LEVELS - Z.to_nat (Z.of_nat n)) me (Z.of_nat n)) (at_cpu me c s) Q.
Proof. intros Hme Hn Hlen HQ. rewrite Nat2Z.id. apply reset_counts_runs; [done|lia|done]. Qed.

Section Take.
Context (me : nat) (s : state) (c0 : ProcessorState) (Hc0 : procs s !! me = Some c0) (Hok : cpu_ok c0).
Context (lockState : bool) (Hlock : lockState = true -> c_lock c0 = false).

(** [PickNext] after the scan has found a thread. *)
Lemma PickNext_own (Q : unit -> state -> Prop) : (exists i q, queues c0 !! i = Some q /\ q <> []) ->
  (forall n t f q, serves (queues c0) (c_runCounts c0) n t f q -> Q tt (at_cpu me (takes c0 n t f q) s)) ->
  runs (PickNext me lockState) s Q.
Proof.
  intros (i0 & q0 & Hi0 & Hne) HQ. assert (Hme : (me < length (procs s))%nat) by (by eapply lookup_lt_Some).
  rewrite <- (scanned_start me me s c0 c0 Hc0 Hc0) at 1. unfold PickNext. mstep.
  apply (scan_runs me me s c0 c0 Hc0 Hc0 Hok Hok 16 0 0 (-1)); [done|by apply scanning_start|].
  intros t n L R Hsc. destruct (decide (t = 0)) as [->|Ht].
  { exfalso. apply Hne. destruct (scanning_none _ _ Hok _ _ _ Hsc) as (He & _).
    rewrite He in Hi0; [congruence|]. apply lookup_lt_Some in Hi0. unfold queues in Hi0. by rewrite length_fmap, (co_levels _ Hok) in Hi0. }
  destruct (scanning_some _ _ Hok _ _ _ _ Hsc Ht) as (k & f & q & l & -> & Hsv & -> & Hl & Hit & HL).
  destruct (serves_count _ _ _ _ _ _ Hok Hsv) as (x & Hx & Hxr). unfold MAX_RUN_COUNT in Hxr.
  pose proof (sv_level _ _ _ _ _ _ Hsv) as Hk. pose proof (lookup_lt_Some _ _ _ Hl) as Hklen.
  rewrite (scanned_own _ _ c0) by done. rewrite (proj2 (Z.eqb_neq t 0)) by done. cbn [negb]. mstep. apply runs_ret. cbn [negb andb].
  rewrite (proj2 (Z.leb_le 0 (Z.of_nat k))) by lia. cbn [whenM].
  mstep. apply (level_count_runs _ _ _ _ x); [done|exact Hx|lia|].
  mstep. mstep. eapply ready_runs; [done|lia|rewrite Nat2Z.id; exact Hl|].
  apply upd_cpu_runs; [done|]. rewrite Nat2Z.id. cbn [popFront snd].
  mstep. eapply unlock_ready_runs; [done|lia|rewrite Nat2Z.id; cbn; by apply list_lookup_insert_eq|].
  rewrite Nat2Z.id. cbn [items c_threads set_lists set_runCounts]. rewrite list_insert_insert_eq, Hit. cbn [tail].
  mstep. replace (Z.of_nat k + 1) with (Z.of_nat (S k)) by lia.
  apply reset_above_runs; [done|lia|cbn; by rewrite length_insert, renewed_length, (co_counts _ Hok)|].
  apply finish_runs; [done|done|].
  match goal with |- Q tt (at_cpu me ?c s) => replace c with (takes c0 k t f q) end; [by apply HQ|].
  unfold takes, counts_after. rewrite Hx, <- HL. reflexivity.
Qed.
End Take.

(** *** Stealing a thread *)

Lemma thread_of_runs s t x (Q : Thread -> state -> Prop) : t <> 0 -> threads s !! t = Some x -> Q x s -> runs (thread_of t) s Q.
Proof. intros Ht Hx HQ. exists x, s. unfold thread_of. by rewrite (proj2 (Z.eqb_neq t 0)), Hx. Qed.
Lemma put_thread_runs s t x f (Q : unit -> state -> Prop) : t <> 0 -> threads s !! t = Some x ->
  Q tt (set_threads (<[t := f x]> (threads s)) s) -> runs (upd_thread t f) s Q.
Proof. intros Ht Hx HQ. unfold upd_thread. mstep. eapply thread_of_runs; [done..|]. by mstep. Qed.
Lemma cpu_at s i c (Q : ProcessorState -> state -> Prop) : procs s !! i = Some c -> Q c s -> runs (cpu i) s Q.
Proof. intros Hc HQ. exists c, s. unfold cpu. by rewrite Hc. Qed.

(** Every thread in a ready list exists and its CPU information is free. *)
Definition threads_free (s : state) : Prop := forall i c n q t, procs s !! i = Some c -> queues c !! n = Some q -> t ∈ q ->
  exists x, threads s !! t = Some x /\ t_cpuLock x = false.

Record system_ok (s : state) : Prop := {
  so_cpus : forall i c, procs s !! i = Some c -> cpu_ok c;
  so_ids : forall i j c d, procs s !! i = Some c -> procs s !! j = Some d -> c_id c = c_id d -> i = j;
  so_threads : threads_free s
}.

(** The state after thread [t] has been taken from level [n] of processor [src]
    by processor [me], which is done with run counts [R]. *)
Definition stolen (src me : nat) (csrc : ProcessorState) (x : Thread) (n : nat) (t : Z) (q : list Z) (R : list Z) (s : state) : state :=
  set_threads (<[t := x]> (threads s)) (scanned src me s (<[n := mkList q false]> (c_threads csrc)) R).

Section Steal.
Context (me : nat) (s : state) (c0 : ProcessorState) (Hc0 : procs s !! me = Some c0) (Hs : system_ok s).

Lemma steal_take src csrc t n L R (Q : Z * Z -> state -> Prop) : procs s !! src = Some csrc ->
  scanning csrc c0 16 t n L R -> t <> 0 ->
  (forall k f q x, serves (queues csrc) (c_runCounts c0) k t f q -> threads s !! t = Some x -> t_cpuLock x = false ->
    Q (t, Z.of_nat k) (set_steal false (stolen src me csrc (set_cpuLock true x) k t q (renewed f (c_runCounts c0)) s))) ->
  runs (acquire_cpuInfo t ;;;
        let* l := ready src n in
        let (t2, l') := popFront l in
        set_ready src n l' ;;; assertM (t2 =? t) ;;; unlock_ready src n ;;; modify (set_steal false) ;;; ret (t, n))
    (scanned src me s L R) Q.
Proof.
  intros Hsrc Hsc Ht HQ. pose proof (so_cpus _ Hs _ _ Hsrc) as Osrc. pose proof (so_cpus _ Hs _ _ Hc0) as Ocur.
  destruct (scanning_some _ _ Osrc _ _ _ _ Hsc Ht) as (k & f & q & l & -> & Hsv & -> & Hl & Hit & HL).
  destruct (so_threads _ Hs src csrc k (t :: q) t Hsrc (sv_head _ _ _ _ _ _ Hsv)) as (x & Hx & Hxf); [set_solver|].
  pose proof (lookup_lt_Some _ _ _ Hl) as Hkl.
  mstep. unfold acquire_cpuInfo. mstep. apply (thread_of_runs _ _ x); [done..|]. rewrite Hxf.
  apply (put_thread_runs _ _ x); [done..|].
  change (set_threads (<[t := set_cpuLock true x]> (threads (scanned src me s L (renewed f (c_runCounts c0)))))
    (scanned src me s L (renewed f (c_runCounts c0)))) with
    (scanned src me (set_threads (<[t := set_cpuLock true x]> (threads s)) s) L (renewed f (c_runCounts c0))).
  mstep. eapply scan_ready_runs; [exact Hsrc|exact Hc0|lia|rewrite Nat2Z.id; exact Hl|].
  unfold popFront. mstep. apply (scan_set_runs _ _ _ csrc c0); [exact Hsrc|exact Hc0|]. rewrite Hit, Nat2Z.id. cbn [hd tail].
  mstep. apply runs_assert; [by apply Z.eqb_eq|]. mstep.
  eapply scan_unlock_runs; [exact Hsrc|exact Hc0|lia|rewrite Nat2Z.id; by apply list_lookup_insert_eq|].
  rewrite Nat2Z.id, list_insert_insert_eq. cbn [items]. rewrite HL. mstep. mstep. apply runs_ret.
  by apply (HQ k f q x).
Qed.

Lemma steal_from_runs others : forall (Q : Z * Z -> state -> Prop), Forall (fun i => (i < length (procs s))%nat) others ->
  (forall src csrc k t f q x, src <> me -> procs s !! src = Some csrc -> serves (queues csrc) (c_runCounts c0) k t f q ->
    t <> 0 -> threads s !! t = Some x -> t_cpuLock x = false ->
    Q (t, Z.of_nat k) (set_steal false (stolen src me csrc (set_cpuLock true x) k t q (renewed f (c_runCounts c0)) s))) ->
  ((forall i c, i ∈ others -> i <> me -> procs s !! i = Some c -> nothing_ready c) -> Q (0, -1) (set_steal false s)) ->
  runs (steal_from me (c_id c0) others) s Q.
Proof.
  induction others as [|src others IH]; intros Q Hall HS HN; cbn [steal_from].
  { mstep. mstep. apply runs_ret. apply HN. intros i c Hi. by apply elem_of_nil in Hi. }
  apply Forall_cons in Hall as [Hlt Hall]. destruct (lookup_lt_is_Some_2 _ _ Hlt) as [csrc Hsrc].
  pose proof (so_cpus _ Hs _ _ Hsrc) as Osrc. pose proof (so_cpus _ Hs _ _ Hc0) as Ocur.
  mstep. apply (cpu_at _ _ csrc); [done|]. destruct (Z.eqb_spec (c_id csrc) (c_id c0)) as [Hid|Hid].
  { pose proof (so_ids _ Hs _ _ _ _ Hsrc Hc0 Hid) as ->. apply IH; [done|done|]. intros HN'. apply HN.
    intros i c Hi Hne Hc. apply elem_of_cons in Hi as [->|Hi]; [done|by eapply HN']. }
  assert (Hne : src <> me) by (intros ->; congruence).
  mstep. rewrite <- (scanned_start src me s csrc c0 Hsrc Hc0) at 1.
  apply (scan_runs src me s csrc c0 Hsrc Hc0 Osrc Ocur 16 0 0 (-1)); [done|by apply scanning_start|].
  intros t n L R Hsc. destruct (Z.eqb_spec t 0) as [->|Ht]; cbn [negb].
  - destruct (scanning_none _ _ Osrc _ _ _ Hsc) as (He & -> & -> & ->). rewrite (scanned_start src me s csrc c0) by done.
    apply IH; [done|done|]. intros HN'. apply HN. intros i c Hi Hne' Hc. apply elem_of_cons in Hi as [->|Hi]; [|by eapply HN'].
    rewrite Hsrc in Hc. by simplify_eq.
  - apply (steal_take src csrc t n L R); [done..|]. intros k f q x Hsv Hx Hxf. by eapply HS.
Qed.
End Steal.

(** *** The three outcomes *)

(** The thread at the head of a level of the own lists; a thread of another
    processor when they are empty; the idle thread when there is none. *)
Inductive pick_result (me : nat) (s : state) (c0 : ProcessorState) : state -> Prop :=
  | pick_own n t f q :
      serves (queues c0) (c_runCounts c0) n t f q -> pick_result me s c0 (at_cpu me (takes c0 n t f q) s)
  | pick_other src csrc n t f q x :
      src <> me -> nothing_ready c0 -> procs s !! src = Some csrc ->
      serves (queues csrc) (c_runCounts c0) n t f q -> threads s !! t = Some x ->
      pick_result me s c0 (set_threads (<[t := set_cpu (Some (c_id c0)) x]> (threads s))
        (at_cpu me (set_current t (set_isIdle (t =? c_idleThread c0) (set_runCounts (counts_after f n (c_runCounts c0)) c0)))
          (at_cpu src (set_lists (<[n := mkList q false]> (c_threads csrc)) csrc) s)))
  | pick_idle :
      (forall i c, procs s !! i = Some c -> nothing_ready c) ->
      pick_result me s c0 (at_cpu me (set_current (c_idleThread c0) (set_isIdle true
        (set_runCounts (reset_from 0 (c_runCounts c0)) c0))) s).

Lemma ready_or_nothing c : cpu_ok c -> nothing_ready c \/ exists i q, queues c !! i = Some q /\ q <> [].
Proof.
  intros Hok. destruct (decide (Forall (fun q => q = []) (queues c))) as [Hall|Hnot].
  - left. intros j Hj. destruct (lookup_lt_is_Some_2 (queues c) j) as [q Hq]; [unfold queues; by rewrite length_fmap, (co_levels _ Hok)|].
    rewrite Forall_lookup in Hall. rewrite Hq. by rewrite (Hall _ _ Hq).
  - right. apply not_Forall_Exists in Hnot; [|apply _]. apply Exists_exists in Hnot as (q & Hin & Hne).
    apply list_elem_of_lookup in Hin as [i Hi]. eauto.
Qed.

Section Outcomes.
Context (me : nat) (s : state) (c0 : ProcessorState) (Hc0 : procs s !! me = Some c0) (Hs : system_ok s).
Context (lockState : bool) (Hlock : lockState = true -> c_lock c0 = false) (Hsteal : g_StealLock s = false).

Lemma after_steal {A} (m : M state A) src csrc x k t f q (Q : A -> state -> Prop) : src <> me -> procs s !! src = Some csrc ->
  serves (queues csrc) (c_runCounts c0) k t f q -> t <> 0 -> threads s !! t = Some x -> t_cpuLock x = false ->
  (forall s', s' = set_threads (<[t := set_cpu (Some (c_id c0)) x]> (threads s))
     (at_cpu me (set_runCounts (renewed f (c_runCounts c0)) c0)
       (at_cpu src (set_lists (<[k := mkList q false]> (c_threads csrc)) csrc) s)) -> runs m s' Q) ->
  runs (let* c := cpu me in upd_thread t (set_cpu (Some (c_id c))) ;;; release_cpuInfo t ;;; m)
    (set_steal false (stolen src me csrc (set_cpuLock true x) k t q (renewed f (c_runCounts c0)) s)) Q.
Proof.
  intros Hne Hsrc Hsv Ht Hx Hxf HQ. unfold stolen. rewrite (scanned_other _ _ _ csrc c0) by done.
  mstep. eapply cpu_at; [cbn; apply list_lookup_insert_eq; rewrite length_insert; by eapply lookup_lt_Some|].
  mstep. eapply put_thread_runs; [done|cbn; apply lookup_insert_eq|].
  mstep. eapply put_thread_runs; [done|cbn; apply lookup_insert_eq|]. apply HQ. cbn. rewrite !insert_insert_eq.
  destruct s, x. cbn in *. by subst.
Qed.

Lemma PickNext_result : c_idleThread c0 <> 0 -> runs (PickNext me lockState) s (fun _ s' => pick_result me s c0 s').
Proof.
  intros Hidle. pose proof (so_cpus _ Hs _ _ Hc0) as Hok. assert (Hme : (me < length (procs s))%nat) by (by eapply lookup_lt_Some).
  destruct (ready_or_nothing c0 Hok) as [Hnone|Hsome].
  2: { apply (PickNext_own me s c0 Hc0 Hok lockState Hlock); [done|]. intros. by apply pick_own. }
  rewrite <- (scanned_start me me s c0 c0 Hc0 Hc0) at 1. unfold PickNext. mstep.
  apply (scan_runs me me s c0 c0 Hc0 Hc0 Hok Hok 16 0 0 (-1)); [done|by apply scanning_start|].
  intros t n L R Hsc. destruct (decide (t = 0)) as [->|Ht].
  2: { destruct (scanning_some _ _ Hok _ _ _ _ Hsc Ht) as (k & f & q & l & -> & Hsv & _).
       pose proof (sv_head _ _ _ _ _ _ Hsv) as Hh. rewrite Hnone in Hh by apply Hsv. done. }
  destruct (scanning_none _ _ Hok _ _ _ Hsc) as (_ & -> & -> & ->). rewrite (scanned_start me me s c0 c0) by done.
  cbn [Z.eqb negb]. mstep. mstep. unfold StealThreadFromOther. mstep. mstep. rewrite Hsteal. mstep. mstep.
  mstep. apply (cpu_at _ _ c0); [done|]. mstep. mstep.
  change (length (procs (set_steal true s))) with (length (procs s)).
  apply steal_from_runs; [done|by destruct Hs|apply Forall_forall; intros i Hi; apply elem_of_seq in Hi; cbn; lia| |].
  - intros src csrc k t f q x Hne Hsrc Hsv Ht Hx Hxf. rewrite (proj2 (Z.eqb_neq t 0)) by done.
    apply (after_steal _ src csrc x k t f q); [done..|]. intros s' ->. apply runs_ret.
    rewrite (proj2 (Z.leb_le 0 (Z.of_nat k))) by lia. cbn [negb andb whenM].
    destruct (serves_count _ _ _ _ _ _ Hok Hsv) as (y & Hy & Hyr). unfold MAX_RUN_COUNT in Hyr. pose proof (sv_level _ _ _ _ _ _ Hsv).
    set (s1 := at_cpu src _ s). change (set_threads ?T (at_cpu me ?c s1)) with (at_cpu me c (set_threads T s1)).
    mstep. apply (level_count_runs _ _ _ _ y); [cbn; by rewrite length_insert|exact Hy|lia|].
    mstep. apply runs_ret. mstep. apply runs_ret. mstep. replace (Z.of_nat k + 1) with (Z.of_nat (S k)) by lia.
    apply reset_above_runs; [cbn; by rewrite length_insert|lia|cbn; by rewrite length_insert, renewed_length, (co_counts _ Hok)|].
    apply finish_runs; [cbn; by rewrite length_insert|done|].
    replace (set_runCounts _ (set_runCounts _ (set_runCounts _ c0))) with (set_runCounts (counts_after f k (c_runCounts c0)) c0)
      by (unfold counts_after; rewrite Hy; reflexivity).
    by apply (pick_other me s c0 src csrc k t f q x).
  - intros Hno. cbn [Z.eqb]. mstep. apply (cpu_at _ _ c0); [done|]. mstep. apply runs_assert; [by apply negb_true_iff, Z.eqb_neq|].
    apply runs_ret. cbn [negb andb whenM]. mstep. apply runs_ret. mstep. apply runs_ret. mstep. apply runs_ret. mstep.
    replace (set_steal false (set_steal true s)) with (at_cpu me c0 s) by (rewrite at_cpu_id by done; destruct s; cbn in *; by subst).
    apply (reset_above_runs me s c0 0); [done|lia|apply Hok|]. apply finish_runs; [done|done|]. cbn [c_idleThread set_runCounts].
    rewrite Z.eqb_refl. apply pick_idle. intros i c Hc. destruct (decide (i = me)) as [->|Hi]; [by simplify_eq|].
    apply (Hno i c); [|done|done]. apply elem_of_seq. pose proof (lookup_lt_Some _ _ _ Hc). lia.
Qed.
End Outcomes.

(** ** No level starves *)

(** The run counts above a level, read as a number in base 3. *)
Fixpoint reading (rc : list Z) : Z :=
  match rc with [] => 0 | x :: rc' => Z.min x 2 * 3 ^ Z.of_nat (length rc') + reading rc' end.

Lemma reading_bounds rc : Forall (fun x => 0 <= x) rc -> 0 <= reading rc < 3 ^ Z.of_nat (length rc).
Proof.
  induction 1 as [|x rc Hx _ IH]; cbn [reading length]; [done|].
  rewrite Nat2Z.inj_succ, Z.pow_succ_r by lia. nia.
Qed.

Lemma reset_from_cons i x rc : reset_from (S i) (x :: rc) = x :: reset_from i rc.
Proof.
  unfold reset_from. rewrite imap_cons. f_equal. apply imap_ext. intros j y _. cbn. by rewrite (bool_decide_ext (S i <= S j)%nat (i <= j)%nat) by lia.
Qed.

Lemma reset_from_nonneg i rc : Forall (fun x => 0 <= x) rc -> Forall (fun x => 0 <= x) (reset_from i rc).
Proof.
  rewrite !Forall_lookup. intros H j y. unfold reset_from. rewrite list_lookup_imap.
  intros (x & Hx & ->)%fmap_Some. case_match; [lia|]. by eapply H.
Qed.

(** Counting a run and starting the higher levels again makes the number larger. *)
Lemma reading_step rc n x : Forall (fun x => 0 <= x) rc -> rc !! n = Some x -> x < 2 ->
  reading rc < reading (reset_from (S n) (<[n := x + 1]> rc)).
Proof.
  revert rc. induction n as [|n IH]; intros [|y rc] Hnn Hx Hlt; try done; apply Forall_cons in Hnn as [Hy Hnn].
  - cbn in Hx. injection Hx as ->. cbn [insert list_insert]. rewrite reset_from_cons. cbn [reading]. rewrite reset_from_length.
    pose proof (reading_bounds _ Hnn). pose proof (reading_bounds _ (reset_from_nonneg 0 _ Hnn)). nia.
  - change (<[S n := x + 1]> (y :: rc)) with (y :: <[n := x + 1]> rc). rewrite reset_from_cons. cbn [reading].
    rewrite reset_from_length, length_insert. pose proof (IH rc Hnn Hx Hlt). lia.
Qed.

Lemma reset_from_drop k i rc : (k <= i)%nat -> drop k (reset_from i rc) = reset_from (i - k) (drop k rc).
Proof.
  intros Hki. apply list_eq. intros j. unfold reset_from. rewrite lookup_drop, !list_lookup_imap, lookup_drop.
  destruct (rc !! (k + j)%nat); cbn; [|done]. by rewrite (bool_decide_ext (i <= k + j)%nat (i - k <= j)%nat) by lia.
Qed.

Lemma renewed_drop f k rc : (f < k)%nat -> drop k (renewed f rc) = drop k rc.
Proof. intros Hf. unfold renewed. destruct (_ <=? _); [|done]. by rewrite drop_insert_lt by lia. Qed.

(** The levels above [j] while a level above [j] is served. *)
Lemma counts_after_above f n j rc x : (f <= j < n)%nat -> rc !! n = Some x ->
  drop (S j) (counts_after f n rc) = reset_from (S (n - S j)) (<[(n - S j)%nat := x + 1]> (drop (S j) rc)).
Proof.
  intros Hj Hx. unfold counts_after. rewrite renewed_ne, Hx by lia. cbn [default].
  rewrite reset_from_drop by lia. replace (S n - S j)%nat with (S (n - S j)) by lia. f_equal.
  rewrite drop_insert_ge by lia. by rewrite renewed_drop by lia.
Qed.

(** The count of level [j] after a pick. *)
Lemma counts_after_at_above f n j rc : (j < n)%nat -> counts_after f n rc !! j = renewed f rc !! j.
Proof.
  intros Hj. unfold counts_after, reset_from. rewrite list_lookup_imap, list_lookup_insert_ne by lia.
  destruct (renewed f rc !! j); cbn; [|done]. by rewrite bool_decide_eq_false_2 by lia.
Qed.
Lemma counts_after_at_below f n j rc x : (f <= n < j)%nat -> rc !! j = Some x -> MAX_RUN_COUNT <= x ->
  counts_after f n rc !! j = Some 0.
Proof.
  intros Hj Hx Hm. unfold counts_after, reset_from. rewrite list_lookup_imap, list_lookup_insert_ne, renewed_ne, Hx by lia.
  cbn [fmap option_fmap option_map]. rewrite bool_decide_eq_true_2, (proj2 (Z.leb_le _ _)) by lia. done.
Qed.

(** Level [j] has a ready thread on the processor. *)
Definition waits (me j : nat) (c : ProcessorState) (s : state) : Prop :=
  procs s !! me = Some c /\ cpu_ok c /\ exists q, queues c !! j = Some q /\ q <> [].

(** The levels served by the picks of a processor, in order; between the picks
    anything may happen that leaves the run counts of the processor alone. *)
Inductive schedule (me j : nat) : state -> list nat -> Prop :=
  | schedule_stop s : schedule me j s []
  | schedule_pick s c s' c' n t q levels :
      waits me j c s -> PickNext me false s = Ok (tt, s') -> procs s' !! me = Some c' ->
      queues c !! n = Some (t :: q) -> c_currentThread c' = t -> queues c' = <[n := q]> (queues c) ->
      schedule me j s' levels -> schedule me j s (n :: levels)
  | schedule_other s c s' c' levels :
      procs s !! me = Some c -> procs s' !! me = Some c' -> c_runCounts c' = c_runCounts c ->
      schedule me j s' levels -> schedule me j s levels.

Lemma pick_served me j s c s' c' n t q : waits me j c s -> PickNext me false s = Ok (tt, s') -> procs s' !! me = Some c' ->
  queues c !! n = Some (t :: q) -> queues c' = <[n := q]> (queues c) ->
  exists f, serves (queues c) (c_runCounts c) n t f q /\ c' = takes c n t f q.
Proof.
  intros (Hc & Hok & q0 & Hq0 & Hne) Hrun Hc' Hq Hq'.
  destruct (PickNext_own me s c Hc Hok false ltac:(done) (fun _ s1 => exists n t f q,
    serves (queues c) (c_runCounts c) n t f q /\ s1 = at_cpu me (takes c n t f q) s) ltac:(eauto))
    as (? & s1 & Hrun1 & n1 & t1 & f & q1 & Hsv & ->); [by eauto 10|].
  rewrite Hrun in Hrun1. injection Hrun1 as _ ->.
  rewrite at_cpu_lookup in Hc' by (by eapply lookup_lt_Some). injection Hc' as <-.
  pose proof (sv_head _ _ _ _ _ _ Hsv) as Hh.
  assert (n = n1) as ->.
  { destruct (decide (n = n1)) as [|Hnn]; [done|]. exfalso. unfold queues in Hq' at 1. cbn in Hq'. rewrite list_fmap_insert in Hq'.
    apply (f_equal (lookup n)) in Hq'. change (items <$> c_threads c) with (queues c) in Hq'.
    rewrite list_lookup_insert_ne, list_lookup_insert_eq, Hq in Hq' by (done || by eapply lookup_lt_Some).
    injection Hq' as Hq'. apply (f_equal length) in Hq'. cbn in Hq'. lia. }
  rewrite Hq in Hh. simplify_eq. eauto.
Qed.

Definition counts_ok (c : ProcessorState) : Prop :=
  length (c_runCounts c) = NICE_LEVELS /\ Forall (fun x => 0 <= x) (c_runCounts c).
Lemma cpu_counts_ok c : cpu_ok c -> counts_ok c.
Proof. intros Hok. split; [apply (co_counts _ Hok)|]. apply Forall_lookup. intros i x Hx. apply (co_range _ Hok i x Hx). Qed.

(** Where level [j] has a thread, a pick serves a level above [j] and the number
    read above [j] grows; or [j] itself; or a level below, which takes that the
    count of [j] is used up and starts it again. *)
Definition above (j : nat) (c : ProcessorState) : Z := reading (drop (S j) (c_runCounts c)).
Definition count_of (j : nat) (c : ProcessorState) : Z := default 0 (c_runCounts c !! j).

Lemma takes_progress me j s c c' n t f q : waits me j c s -> serves (queues c) (c_runCounts c) n t f q -> c' = takes c n t f q ->
  (j < n)%nat /\ above j c < above j c' /\ (count_of j c < MAX_RUN_COUNT -> count_of j c' = count_of j c \/ count_of j c' = 0) \/
  n = j \/
  (n < j)%nat /\ MAX_RUN_COUNT <= count_of j c /\ count_of j c' = 0.
Proof.
  intros (_ & Hok & q0 & Hq0 & Hne) Hsv ->.
  destruct (sv_first _ _ _ _ _ _ Hsv) as (Hempty & qf & Hqf & Hnf).
  assert (Hfj : (f <= j)%nat).
  { destruct (decide (f <= j)%nat) as [|Hf]; [done|]. rewrite (Hempty j) in Hq0 by lia. congruence. }
  pose proof (sv_level _ _ _ _ _ _ Hsv) as Hl.
  assert (Hj16 : (j < 16)%nat).
  { apply lookup_lt_Some in Hq0. unfold queues in Hq0. by rewrite length_fmap, (co_levels _ Hok) in Hq0. }
  destruct (lookup_lt_is_Some_2 (c_runCounts c) j) as [y Hy]; [by rewrite (co_counts _ Hok)|].
  unfold above, count_of. change (c_runCounts (takes c n t f q)) with (counts_after f n (c_runCounts c)).
  destruct (lt_eq_lt_dec n j) as [[Hnj| ->]|Hnj].
  - right; right. assert (Hm : MAX_RUN_COUNT <= y).
    { pose proof (sv_high _ _ _ _ _ _ Hsv j q0 ltac:(lia) Hq0 Hne) as Hh. by rewrite Hy in Hh. }
    rewrite (counts_after_at_below _ _ _ _ _ (conj (proj1 Hl) Hnj) Hy Hm), Hy. done.
  - by right; left.
  - left. split; [done|]. destruct (lookup_lt_is_Some_2 (c_runCounts c) n) as [x Hx]; [rewrite (co_counts _ Hok); lia|].
    rewrite (counts_after_above _ _ _ _ _ (conj Hfj Hnj) Hx), counts_after_at_above by exact Hnj. split.
    + apply reading_step; [apply Forall_drop, cpu_counts_ok, Hok|rewrite lookup_drop; replace (S j + (n - S j))%nat with n by lia; exact Hx|].
      destruct (sv_low _ _ _ _ _ _ Hsv) as [->|Hlow]; [lia|]. by rewrite Hx in Hlow.
    + intros _. unfold renewed. destruct (_ <=? _); [|by left].
      destruct (decide (f = j)) as [->|Hne']; [right; by rewrite list_lookup_insert_eq by (by eapply lookup_lt_Some)|left].
      by rewrite list_lookup_insert_ne.
Qed.

(** The picks still possible before level [j] is served. *)
Definition window (j : nat) : Z := 3 ^ (15 - Z.of_nat j).

Lemma above_bounds j c : counts_ok c -> (j < 16)%nat -> 0 <= above j c < window j.
Proof.
  intros [Hlen Hnn] Hj. unfold above, window. pose proof (reading_bounds _ (Forall_drop _ (S j) _ Hnn)) as H.
  rewrite length_drop, Hlen in H. by replace (15 - Z.of_nat j) with (Z.of_nat (16 - S j)) by lia.
Qed.

Definition allowance (j : nat) (c : ProcessorState) : Z :=
  window j - 1 - above j c + (if MAX_RUN_COUNT <=? count_of j c then window j else 0).

Lemma schedule_bound me j s levels c : schedule me j s levels -> procs s !! me = Some c -> counts_ok c -> (j < 16)%nat ->
  j ∉ levels -> Z.of_nat (length levels) <= allowance j c.
Proof.
  intros Hs. revert c. induction Hs as [s|s c s' c' n t q levels Hw Hrun Hc' Hq Ht Hq' _ IH|s c s' c' levels Hc Hc' Hrc _ IH];
    intros c0 Hc0 Hok Hj Hnot.
  - pose proof (above_bounds j c0 Hok Hj). unfold allowance. cbn. destruct (_ <=? _); lia.
  - pose proof Hw as (Hc & _). rewrite Hc in Hc0. injection Hc0 as <-.
    destruct (pick_served _ _ _ _ _ _ _ _ _ Hw Hrun Hc' Hq Hq') as (f & Hsv & Htk).
    assert (Hok' : counts_ok c') by (rewrite Htk; apply cpu_counts_ok, cpu_ok_takes; [by destruct Hw as (_ & ? & _)|done]).
    apply not_elem_of_cons in Hnot as [Hjn Hnot]. specialize (IH c' Hc' Hok' Hj Hnot).
    pose proof (above_bounds j c Hok Hj). pose proof (above_bounds j c' Hok' Hj).
    destruct (takes_progress _ _ _ _ _ _ _ _ _ Hw Hsv Htk) as [(_ & Hup & Hcnt)|[->|(_ & Hfull & Hzero)]]; [| done |].
    + unfold allowance in *. cbn [length]. destruct (Z.leb_spec MAX_RUN_COUNT (count_of j c)) as [|Hlow].
      * destruct (_ <=? _) in IH; lia.
      * specialize (Hcnt Hlow). rewrite (proj2 (Z.leb_gt _ _)) in IH by (unfold MAX_RUN_COUNT in *; lia). lia.
    + unfold allowance in *. rewrite Hzero in IH. rewrite (proj2 (Z.leb_le _ _) Hfull). cbn [length]. cbn in IH. lia.
  - rewrite Hc in Hc0. injection Hc0 as <-. unfold allowance, above, count_of. rewrite <- Hrc. apply IH; [done| |done..].
    unfold counts_ok. by rewrite Hrc.
Qed.

(** C6: no nice level starves: as long as a level has a ready thread on the
    processor, one of any [2 * 3 ^ (15 - level)] consecutive picks serves it,
    whatever happens to the ready lists between the picks. *)
Theorem PickNext_no_starvation me j s c levels : procs s !! me = Some c -> cpu_ok c -> (j < 16)%nat ->
  schedule me j s levels -> 2 * 3 ^ (15 - Z.of_nat j) <= Z.of_nat (length levels) -> j ∈ levels.
Proof.
  intros Hc Hok Hj Hs Hlen. destruct (decide (j ∈ levels)) as [|Hnot]; [done|exfalso].
  pose proof (schedule_bound _ _ _ _ _ Hs Hc (cpu_counts_ok _ Hok) Hj Hnot) as H.
  pose proof (above_bounds j c (cpu_counts_ok _ Hok) Hj) as Hb. unfold allowance, window in *.
  destruct (_ <=? _); lia.
Qed.

(** C5: [Scheduler::PickNext] returns, and one of three things has happened.
    With a ready thread on the processor it serves the highest nice level whose
    run count is not used up, or the lowest level with a thread when all are:
    the thread at the head of that level, and no other, leaves its list and is
    current, the run is counted, and the used-up counts of the higher levels
    start again. With none, it takes a thread of another processor by the same
    rule, moves it here and leaves the lists of that processor otherwise as they
    were. With no ready thread anywhere the idle thread runs. Every ready list is
    unlocked and so are the steal lock and the thread. *)
Theorem PickNext_spec me s c0 lockState : procs s !! me = Some c0 -> system_ok s ->
  (lockState = true -> c_lock c0 = false) -> g_StealLock s = false -> c_idleThread c0 <> 0 ->
  runs (PickNext me lockState) s (fun _ s' => pick_result me s c0 s').
Proof. intros Hc Hs Hl Hst Hi. by apply PickNext_result. Qed.

(** *** Witnesses *)

(** A processor with two threads at level 15 and one at level 3. *)
Definition demo_lists : list TList :=
  <[3%nat := mkList [7] false]> (<[15%nat := mkList [5; 6] false]> no_lists).
Definition demo_cpu : ProcessorState := set_lists demo_lists (set_idleThread 9 InitBSPState).
Definition demo : state := mk [demo_cpu] ∅ ∅ [] 0 1 false true [] ∅ [].

Lemma demo_list i l : c_threads demo_cpu !! i = Some l -> locked l = false /\ Forall (fun t => t <> 0) (items l).
Proof. revert i l. apply (proj1 (Forall_lookup (fun l => locked l = false /\ Forall (fun t => t <> 0) (items l)) _)). by repeat constructor. Qed.
Lemma demo_ok : cpu_ok demo_cpu.
Proof.
  constructor; [done|done| | |].
  - apply (proj1 (Forall_lookup (fun x => 0 <= x < 2 ^ 31) _)), Forall_replicate. lia.
  - intros i l Hl. apply (demo_list i l Hl).
  - intros i q t Hq Ht. unfold queues in Hq. rewrite list_lookup_fmap in Hq. apply fmap_Some in Hq as (l & Hl & ->).
    apply demo_list in Hl as [_ Hl]. rewrite Forall_forall in Hl. by apply Hl.
Qed.

(** The same with a second processor that has nothing to run. *)
Definition demo_thread : Thread := mkThread 1 10 0 0 None false.
Definition demo_second : ProcessorState := mkCPU 1 0 11 no_counts no_lists (mkList [] false) false true false true.
Definition demo2 : state :=
  mk [demo_cpu; demo_second] {[5 := demo_thread; 6 := demo_thread; 7 := demo_thread; 9 := demo_thread; 11 := demo_thread]}
    {[1 := mkProcess KERNEL 3 0]} [1] 1 2 false true [] ∅ [].

Lemma second_list i l : c_threads demo_second !! i = Some l -> l = mkList [] false.
Proof. intros H. apply (lookup_replicate NICE_LEVELS) in H. by destruct H. Qed.
Lemma second_queues i q : queues demo_second !! i = Some q -> q = [].
Proof. unfold queues. rewrite list_lookup_fmap. intros (l & Hl%second_list & ->)%fmap_Some. by subst. Qed.
Lemma second_ok : cpu_ok demo_second.
Proof.
  constructor; [done|done| | |].
  - apply (proj1 (Forall_lookup (fun x => 0 <= x < 2 ^ 31) _)), Forall_replicate. lia.
  - intros i l Hl. by rewrite (second_list i l Hl).
  - intros i q t Hq Ht. rewrite (second_queues i q Hq) in Ht. by apply elem_of_nil in Ht.
Qed.
Lemma demo2_cpu i c : procs demo2 !! i = Some c -> i = 0%nat /\ c = demo_cpu \/ i = 1%nat /\ c = demo_second.
Proof. destruct i as [|[|i]]; cbn; intros H; [left|right|done]; by simplify_eq. Qed.
Lemma demo_queued i q t : queues demo_cpu !! i = Some q -> t ∈ q -> t ∈ [5; 6; 7].
Proof.
  intros Hq Ht. assert (Hin : t ∈ concat (queues demo_cpu)).
  2: { change (concat (queues demo_cpu)) with [7; 5; 6] in Hin. set_solver. }
  apply list_elem_of_In, in_concat. exists q. split; apply list_elem_of_In; [|done]. by eapply list_elem_of_lookup_2.
Qed.
Lemma demo2_ok : system_ok demo2.
Proof.
  constructor.
  - intros i c [[_ ->]|[_ ->]]%demo2_cpu; [exact demo_ok|exact second_ok].
  - intros i j c d [[-> ->]|[-> ->]]%demo2_cpu [[-> ->]|[-> ->]]%demo2_cpu Hid; done.
  - intros i c n q t [[_ ->]|[_ ->]]%demo2_cpu Hq Ht; [|rewrite (second_queues _ _ Hq) in Ht; by apply elem_of_nil in Ht].
    exists demo_thread. split; [|done]. pose proof (demo_queued _ _ _ Hq Ht) as Hin.
    repeat (apply elem_of_cons in Hin as [->|Hin]; [done|]). by apply elem_of_nil in Hin.
Qed.

Lemma PickNext_spec_witness : system_ok demo2 /\
  runs (PickNext 1 false) demo2 (fun _ s' => pick_result 1 demo2 demo_second s').
Proof. split; [exact demo2_ok|]. apply (PickNext_spec 1 demo2 demo_second false); [reflexivity|exact demo2_ok|discriminate|reflexivity|discriminate]. Defined.

Definition after (s : state) : state := match PickNext 0 false s with Ok (_, s') => s' | Fail _ => s end.
Definition cpu0 (s : state) : ProcessorState := default demo_cpu (procs s !! 0%nat).

Lemma PickNext_no_starvation_witness : c_currentThread (cpu0 (after demo)) = 5 /\ 15%nat ∈ [15%nat; 15%nat].
Proof.
  split; [vm_compute; reflexivity|].
  apply (PickNext_no_starvation 0 15 demo demo_cpu); [reflexivity|exact demo_ok|lia| |vm_compute; discriminate].
  assert (Hw : waits 0 15 demo_cpu demo).
  { split; [reflexivity|split; [exact demo_ok|]]. exists [5; 6]. split; [reflexivity|discriminate]. }
  eapply (schedule_pick 0 15 demo demo_cpu (after demo) (cpu0 (after demo)) 15 5 [6]); [exact Hw|vm_compute; reflexivity..|].
  assert (Hok : cpu_ok (cpu0 (after demo))).
  { destruct (pick_served 0 15 demo demo_cpu (after demo) (cpu0 (after demo)) 15 5 [6] Hw) as (f & Hsv & ->);
      [vm_compute; reflexivity..|]. apply cpu_ok_takes; [exact demo_ok|exact Hsv]. }
  eapply (schedule_pick 0 15 _ (cpu0 (after demo)) (after (after demo)) (cpu0 (after (after demo))) 15 6 []);
    [|vm_compute; reflexivity..|apply schedule_stop].
  split; [vm_compute; reflexivity|split; [exact Hok|]]. exists [6]. split; [vm_compute; reflexivity|discriminate].
Defined.

End SchedulerSpec.
