(* ===== verification/SchedulerTick.v ===== *)
(** * SchedulerTick.v: ticks and yields keep the threads

    Every thread the scheduler runs is in one place: current on a processor, in
    one ready list or in one list of sleepers. A tick of the timer moves threads
    between these places; it loses none and duplicates none, on whatever path it
    takes, and it keeps the state of all processors well formed. *)

From S2P Require Import Prelude Scheduler SchedulerSpec.
#[local] Open Scope Z_scope.
#[local] Open Scope kernel_scope.

Module SchedulerTick.
Import Scheduler SchedulerSpec.

(** ** Where the threads are *)

(** The threads of a processor; its idle thread is not counted. *)
Definition running (c : ProcessorState) : list Z :=
  if (c_currentThread c =? 0) || (c_currentThread c =? c_idleThread c) then [] else [c_currentThread c].
Definition held (c : ProcessorState) : list Z := running c ++ lists_of c.
Lemma held_eq c : held c = running c ++ concat (queues c) ++ items (c_sleeping c).
Proof. done. Qed.
Lemma held_current c : c_currentThread c <> 0 -> c_currentThread c <> c_idleThread c -> held c = c_currentThread c :: lists_of c.
Proof. intros Ht Hni. unfold held, running. by rewrite (proj2 (Z.eqb_neq _ _) Ht), (proj2 (Z.eqb_neq _ _) Hni). Qed.
Definition all_held (s : state) : list Z := concat (held <$> procs s).

(** The thread exists, belongs to a process with a valid nice level and its CPU
    information is not locked. *)
Definition known (s : state) (t : Z) : Prop := t <> 0 /\ exists x p, threads s !! t = Some x /\ t_cpuLock x = false /\
  t_parent x <> 0 /\ processes s !! t_parent x = Some p /\ 0 <= p_nice p < 16.

(** The processors between two operations. *)
Record idle_ok (c : ProcessorState) (s : state) : Prop := {
  io_idle : c_idleThread c <> 0;
  io_exists : is_Some (threads s !! c_idleThread c);
  io_flag : c_currentThread c <> 0 -> c_isIdle c = (c_currentThread c =? c_idleThread c);
  io_sleeping : locked (c_sleeping c) = false
}.
Record wf (s : state) : Prop := {
  wf_cpus : forall i c, procs s !! i = Some c -> cpu_ok c /\ idle_ok c s;
  wf_ids : forall i j c d, procs s !! i = Some c -> procs s !! j = Some d -> c_id c = c_id d -> i = j;
  wf_once : NoDup (all_held s);
  wf_known : forall t, t ∈ all_held s -> known s t;
  wf_idle : forall i c, procs s !! i = Some c -> c_idleThread c ∉ all_held s;
  wf_elsewhere : forall t, t ∈ all_held s -> t ∉ elsewhere s;
  wf_steal : g_StealLock s = false
}.

(** *** Replacing one processor *)

Definition others (me : nat) (s : state) : list Z := concat (held <$> delete me (procs s)).

Lemma all_held_split me c s : procs s !! me = Some c -> all_held s ≡ₚ held c ++ others me s.
Proof.
  intros Hc. unfold all_held, others. rewrite (delete_Permutation _ _ _ Hc) at 1. done.
Qed.

Lemma delete_insert {A} (l : list A) i x : delete i (<[i := x]> l) = delete i l.
Proof. revert i. induction l as [|y l IH]; intros [|i]; [done|done|done|]. cbn. f_equal. apply IH. Qed.

Lemma all_held_at me c s s' : (me < length (procs s))%nat -> procs s' = <[me := c]> (procs s) ->
  all_held s' ≡ₚ held c ++ others me s.
Proof.
  intros Hme Hp. rewrite (all_held_split me c s') by (rewrite Hp; by apply list_lookup_insert_eq).
  unfold others. by rewrite Hp, delete_insert.
Qed.

(** A processor that keeps its threads keeps those of the system. *)
Lemma all_held_same me c0 c s s' : procs s !! me = Some c0 -> procs s' = <[me := c]> (procs s) -> held c ≡ₚ held c0 ->
  all_held s' ≡ₚ all_held s.
Proof.
  intros Hc0 Hp Hh. rewrite (all_held_at me c s s'), (all_held_split me c0 s), Hh; [done|done|by eapply lookup_lt_Some|done].
Qed.

Lemma queued_held c n q t : queues c !! n = Some q -> t ∈ q -> t ∈ held c.
Proof.
  intros Hq Ht. rewrite !held_eq. apply elem_of_app. right. apply elem_of_app. left. apply list_elem_of_In, in_concat.
  exists q. split; apply list_elem_of_In; [by eapply list_elem_of_lookup_2|done].
Qed.
Lemma held_all i c s t : procs s !! i = Some c -> t ∈ held c -> t ∈ all_held s.
Proof. intros Hc Ht. rewrite (all_held_split i c s Hc). apply elem_of_app. by left. Qed.

(** *** Changing one list *)

Lemma concat_insert (L : list (list Z)) n q q' : L !! n = Some q -> q ++ concat (<[n := q']> L) ≡ₚ q' ++ concat L.
Proof.
  revert n. induction L as [|x L IH]; intros [|n] Hn; try done; cbn in *.
  - injection Hn as ->. solve_Permutation.
  - rewrite (Permutation_app_comm q), <- app_assoc, (Permutation_app_comm _ q), (IH n Hn). solve_Permutation.
Qed.

Lemma queue_pop (L : list (list Z)) n t q : L !! n = Some (t :: q) -> t :: concat (<[n := q]> L) ≡ₚ concat L.
Proof.
  intros Hn. pose proof (concat_insert L n (t :: q) q Hn) as H. cbn in H. rewrite (Permutation_middle q) in H.
  by apply (Permutation_app_inv_l q).
Qed.
Lemma queue_push (L : list (list Z)) n t q : L !! n = Some q -> concat (<[n := q ++ [t]]> L) ≡ₚ t :: concat L.
Proof.
  intros Hn. pose proof (concat_insert L n q (q ++ [t]) Hn) as H. rewrite <- app_assoc in H. by apply (Permutation_app_inv_l q).
Qed.
Lemma without_split t l : t ∈ l -> t :: without t l ≡ₚ l.
Proof.
  induction l as [|y l IH]; intros Hin; [by apply elem_of_nil in Hin|]. cbn. destruct (Z.eqb_spec y t) as [->|Hne]; [done|].
  apply elem_of_cons in Hin as [|Hin]; [done|]. transitivity (y :: t :: without t l); [apply perm_swap|by rewrite IH].
Qed.

(** ** Running before the choice *)

(** What operations leave of the threads and processes of a state. *)
Definition static (s s' : state) : Prop := processes s' = processes s /\ forall t x, threads s !! t = Some x ->
  exists x', threads s' !! t = Some x' /\ t_parent x' = t_parent x /\ t_cpuLock x' = t_cpuLock x.
#[local] Instance static_refl : Reflexive static.
Proof. intros s. split; [done|]. eauto. Qed.
#[local] Instance static_trans : Transitive static.
Proof.
  intros s1 s2 s3 [H1 G1] [H2 G2]. split; [congruence|]. intros t x Hx. destruct (G1 t x Hx) as (y & Hy & Hp & Hl).
  destruct (G2 t y Hy) as (z & Hz & Hp' & Hl'). exists z. split_and!; [done|congruence..].
Qed.
Lemma static_known s s' t : static s s' -> known s t -> known s' t.
Proof.
  intros [Hp Ht] (Hne & x & p & Hx & Hl & Hpar & Hproc & Hn). destruct (Ht t x Hx) as (x' & Hx' & Ep & El).
  split; [done|]. exists x', p. rewrite Ep, El, Hp. split_and!; done || apply Hn.
Qed.
Lemma static_thread s t x f : threads s !! t = Some x -> t_parent (f x) = t_parent x -> t_cpuLock (f x) = t_cpuLock x ->
  static s (set_threads (<[t := f x]> (threads s)) s).
Proof.
  intros Hx Hp Hl. split; [done|]. intros t' x' Hx'. cbn. destruct (decide (t' = t)) as [->|Hne].
  - rewrite Hx in Hx'. injection Hx' as <-. exists (f x). by rewrite lookup_insert_eq.
  - exists x'. by rewrite lookup_insert_ne.
Qed.

(** The state [s'] has come from [s] by steps of processor [me], whose state is
    now [c]. *)
Record near (me : nat) (s s' : state) (c : ProcessorState) : Prop := {
  nr_procs : procs s' = <[me := c]> (procs s);
  nr_static : static s s';
  nr_steal : g_StealLock s' = g_StealLock s;
  nr_elsewhere : elsewhere s' = elsewhere s
}.

Lemma near_at me s c : near me s (at_cpu me c s) c.
Proof. constructor; [done|exact (static_refl s)|done|done]. Qed.

(** What a processor keeps while threads move between its lists. *)
Record keeps (c c' : ProcessorState) : Prop := {
  kp_ok : cpu_ok c';
  kp_held : held c' ≡ₚ held c;
  kp_id : c_id c' = c_id c;
  kp_current : c_currentThread c' = c_currentThread c;
  kp_idle : c_idleThread c' = c_idleThread c;
  kp_isIdle : c_isIdle c' = c_isIdle c;
  kp_lock : c_lock c' = c_lock c;
  kp_sleeping : locked (c_sleeping c') = locked (c_sleeping c)
}.
Lemma keeps_refl c : cpu_ok c -> keeps c c.
Proof. by constructor. Qed.
Lemma keeps_trans c1 c2 c3 : keeps c1 c2 -> keeps c2 c3 -> keeps c1 c3.
Proof. intros [] []. constructor; try congruence. by etrans. Qed.

(** Threads enter a ready list. *)
Definition queue_in (n : nat) (t : Z) (l : TList) (c : ProcessorState) : ProcessorState :=
  set_lists (<[n := mkList (items l ++ [t]) false]> (c_threads c)) c.

Lemma cpu_ok_queue_in c n t l : cpu_ok c -> c_threads c !! n = Some l -> t <> 0 -> cpu_ok (queue_in n t l c).
Proof.
  intros Hok Hl Ht. constructor; cbn; [by rewrite length_insert, (co_levels _ Hok)|apply Hok|apply Hok| |].
  - intros i l' Hi. apply list_lookup_insert_Some in Hi as [(-> & <- & _)|[_ Hi]]; [done|by eapply (co_free _ Hok)].
  - unfold queues. cbn. rewrite list_fmap_insert. cbn. intros i q t' Hi Hin.
    apply list_lookup_insert_Some in Hi as [(-> & <- & _)|[_ Hi]]; [|by eapply (co_nonnull _ Hok)].
    apply elem_of_app in Hin as [Hin|Hin]; [|by apply list_elem_of_singleton in Hin as ->].
    eapply (co_nonnull _ Hok); [|exact Hin]. unfold queues. by rewrite list_lookup_fmap, Hl.
Qed.
Lemma queues_queue_in c n t l : c_threads c !! n = Some l -> concat (queues (queue_in n t l c)) ≡ₚ t :: concat (queues c).
Proof.
  intros Hl. unfold queues, queue_in. cbn. rewrite list_fmap_insert. apply queue_push. by rewrite list_lookup_fmap, Hl.
Qed.

Lemma all_listed_at me c c' s : procs s !! me = Some c -> lists_of c' = lists_of c -> all_listed (at_cpu me c' s) = all_listed s.
Proof.
  intros Hc Hl. unfold all_listed. cbn. f_equal. rewrite list_fmap_insert, Hl. f_equal. apply list_insert_id.
  by rewrite list_lookup_fmap, Hc.
Qed.
Lemma unlinked_runs s t (Q : unit -> state -> Prop) : t <> 0 -> t ∉ all_listed s -> Q tt s -> runs (unlinked t) s Q.
Proof.
  intros Ht Hnot HQ. unfold unlinked. mstep. mstep. apply runs_assert; [|done].
  by rewrite (proj2 (Z.eqb_neq t 0)), bool_decide_eq_false_2.
Qed.

Lemma enqueue_runs me s c n t l (Q : unit -> state -> Prop) : procs s !! me = Some c -> cpu_ok c ->
  c_threads c !! n = Some l -> t <> 0 -> t ∉ all_listed s ->
  Q tt (at_cpu me (queue_in n t l c) s) -> runs (enqueue me (Z.of_nat n) t) s Q.
Proof.
  intros Hc Hok Hl Ht Hnot HQ. assert (Hme : (me < length (procs s))%nat) by (by eapply lookup_lt_Some).
  pose proof (lookup_lt_Some _ _ _ Hl). rewrite <- (at_cpu_id me c s Hc) at 1. unfold enqueue.
  mstep. eapply lock_ready_runs; [done|lia|by rewrite Nat2Z.id|by eapply (co_free _ Hok)|]. rewrite Nat2Z.id.
  mstep. mstep. eapply ready_runs; [done|lia|rewrite Nat2Z.id; cbn; by apply list_lookup_insert_eq|].
  mstep. unfold pushBack. mstep. apply unlinked_runs; [done| |].
  { rewrite (all_listed_at me c); [done|done|]. unfold lists_of. cbn. by rewrite queues_relock. }
  apply runs_ret. apply upd_cpu_runs; [done|]. rewrite Nat2Z.id. cbn [items c_threads set_lists locked]. rewrite list_insert_insert_eq.
  eapply unlock_ready_runs; [done|lia|rewrite Nat2Z.id; cbn; by apply list_lookup_insert_eq|].
  rewrite Nat2Z.id. cbn [items c_threads set_lists]. rewrite list_insert_insert_eq. exact HQ.
Qed.

Lemma nice_of_runs s t (Q : Z -> state -> Prop) : known s t -> (forall n, (n < 16)%nat -> Q (Z.of_nat n) s) -> runs (nice_of t) s Q.
Proof.
  intros (Ht & x & p & Hx & _ & Hpar & Hp & Hn) HQ. unfold nice_of. mstep. eapply thread_of_runs; [done..|]. mstep.
  exists p, s. unfold process_of. rewrite (proj2 (Z.eqb_neq _ 0)), Hp by done. split; [done|]. apply runs_ret.
  replace (p_nice p) with (Z.of_nat (Z.to_nat (p_nice p))) by lia. apply HQ. lia.
Qed.

(** *** Sleepers wake up *)

Definition wake_up (n : nat) (t : Z) (l : TList) (c : ProcessorState) : ProcessorState :=
  queue_in n t l (set_sleeping (mkList (without t (items (c_sleeping c))) (locked (c_sleeping c))) c).

Lemma keeps_wake_up c n t l : cpu_ok c -> c_threads c !! n = Some l -> t <> 0 -> t ∈ items (c_sleeping c) -> keeps c (wake_up n t l c).
Proof.
  intros Hok Hl Ht Hin. constructor; try done; unfold wake_up.
  - apply cpu_ok_queue_in; [|done|done]. destruct Hok. by constructor.
  - rewrite !held_eq. rewrite queues_queue_in by done. cbn. change (queues (set_sleeping ?l c)) with (queues c).
    change (running (queue_in n t l (set_sleeping ?l' c))) with (running c).
    rewrite <- (without_split t (items (c_sleeping c))) at 2 by done. solve_Permutation.
Qed.

Section Tick.
Context (me : nat) (s : state) (c0 : ProcessorState) (Hc0 : procs s !! me = Some c0).

Lemma near_cpu s1 c : near me s s1 c -> procs s1 !! me = Some c.
Proof. intros Hn. rewrite (nr_procs _ _ _ _ Hn). apply list_lookup_insert_eq. by eapply lookup_lt_Some. Qed.
Lemma near_upd s1 c c' : near me s s1 c -> near me s (at_cpu me c' s1) c'.
Proof.
  intros [Hp Hst Hl He]. constructor; [cbn; by rewrite Hp, list_insert_insert_eq|exact Hst|exact Hl|exact He].
Qed.
Lemma near_thread s1 c t x f : near me s s1 c -> threads s1 !! t = Some x -> t_parent (f x) = t_parent x ->
  t_cpuLock (f x) = t_cpuLock x -> near me s (set_threads (<[t := f x]> (threads s1)) s1) c.
Proof. intros [Hp Hst Hl He] Hx E1 E2. constructor; [done| |done|done]. etrans; [exact Hst|]. by apply static_thread. Qed.
Lemma near_known s1 c t : near me s s1 c -> known s t -> known s1 t.
Proof. intros Hn. apply static_known, Hn. Qed.

(** The thread is in no list of the other processors and in no other list. *)
Definition mine (t : Z) : Prop := t ∉ concat (lists_of <$> delete me (procs s)) /\ t ∉ elsewhere s.
Lemma near_unlisted s1 c t : near me s s1 c -> mine t -> t ∉ lists_of c -> t ∉ all_listed s1.
Proof.
  intros Hn [Ho He] Hc Hin. unfold all_listed in Hin. rewrite (nr_elsewhere _ _ _ _ Hn) in Hin.
  rewrite (delete_Permutation _ _ _ (near_cpu _ _ Hn)), (nr_procs _ _ _ _ Hn), delete_insert in Hin. set_solver.
Qed.
Lemma wf_mine t : wf s -> t ∈ held c0 -> mine t.
Proof.
  intros Hwf Ht. split; [|apply (wf_elsewhere _ Hwf); by eapply held_all].
  pose proof (wf_once _ Hwf) as Hnd. rewrite (all_held_split me c0 s Hc0) in Hnd. apply NoDup_app in Hnd as (_ & Hd & _).
  intros Hin. apply (Hd t Ht). unfold others. apply list_elem_of_In, in_concat in Hin as (l & Hl & Hin). apply list_elem_of_In in Hl, Hin.
  apply list_elem_of_fmap in Hl as (c & -> & Hc). apply list_elem_of_In, in_concat. exists (held c).
  split; apply list_elem_of_In; [by apply list_elem_of_fmap_2|]. rewrite !held_eq. set_solver.
Qed.

(** Updating the own processor. *)
Lemma near_upd_cpu s1 c f (Q : unit -> state -> Prop) : near me s s1 c ->
  (forall s2, near me s s2 (f c) -> Q tt s2) -> runs (upd_cpu me f) s1 Q.
Proof.
  intros Hn HQ. pose proof (near_cpu _ _ Hn) as Hc. rewrite <- (at_cpu_id me c s1 Hc) at 1.
  apply upd_cpu_runs; [by eapply lookup_lt_Some|]. apply HQ. by eapply near_upd.
Qed.
Lemma near_upd_thread s1 c t x f (Q : unit -> state -> Prop) : near me s s1 c -> t <> 0 -> threads s1 !! t = Some x ->
  t_parent (f x) = t_parent x -> t_cpuLock (f x) = t_cpuLock x ->
  (forall s2, near me s s2 c -> Q tt s2) -> runs (upd_thread t f) s1 Q.
Proof. intros Hn Ht Hx E1 E2 HQ. eapply put_thread_runs; [done..|]. apply HQ. by apply near_thread. Qed.

Lemma near_enqueue s1 c t (Q : unit -> state -> Prop) : near me s s1 c -> cpu_ok c -> known s t -> mine t -> t ∉ lists_of c ->
  (forall s2 n l, c_threads c !! n = Some l -> near me s s2 (queue_in n t l c) -> Q tt s2) ->
  runs (let* n := nice_of t in enqueue me n t) s1 Q.
Proof.
  intros Hn Hok Hk Hm Hnot HQ. pose proof Hk as [Ht _]. mstep. eapply nice_of_runs; [by eapply near_known|]. intros n Hlt.
  destruct (lookup_lt_is_Some_2 (c_threads c) n) as [l Hl]; [by rewrite (co_levels _ Hok)|].
  apply (enqueue_runs me s1 c n t l); [by eapply near_cpu|done..|by eapply near_unlisted|].
  apply (HQ _ n l); [done|]. by eapply near_upd.
Qed.

Lemma wake_runs s1 c t ms (Q : unit -> state -> Prop) : near me s s1 c -> cpu_ok c -> known s t -> mine t -> NoDup (held c) ->
  t ∈ items (c_sleeping c) ->
  (forall s2 c2, near me s s2 c2 -> keeps c c2 -> (forall t', t' <> t -> t' ∈ items (c_sleeping c) -> t' ∈ items (c_sleeping c2)) -> Q tt s2) ->
  runs (wake me ms t) s1 Q.
Proof.
  intros Hn Hok Hk Hm Hnd Hin HQ. pose proof (near_known _ _ _ Hn Hk) as (Ht & x & p & Hx & _).
  unfold wake. mstep. eapply thread_of_runs; [done..|]. destruct (_ <=? ms).
  - mstep. eapply near_upd_thread; [done..|]. intros s2 Hn2. mstep. eapply near_upd_cpu; [done|]. intros s3 Hn3.
    eapply near_enqueue; [done|destruct Hok; by constructor|done|done| |].
    + rewrite held_eq in Hnd. unfold lists_of. apply NoDup_app in Hnd as (_ & _ & Hnd). apply NoDup_app in Hnd as (_ & Hd & Hnds). cbn.
      intros Hq. apply elem_of_app in Hq as [Hq|Hq]; [by apply (Hd t)|].
      rewrite <- (without_split t) in Hnds by done. by apply NoDup_cons in Hnds as [? _].
    + intros s4 n l Hl Hn4. eapply (HQ _ _ Hn4); [by apply keeps_wake_up|].
      intros t' Hne Hin'. cbn. rewrite <- (without_split t) in Hin' by done. by apply elem_of_cons in Hin' as [|].
  - eapply near_upd_thread; [done..|]. intros s2 Hn2. eapply HQ; [exact Hn2|by apply keeps_refl|done].
Qed.

Lemma wake_all_runs ms l : forall s1 c (Q : unit -> state -> Prop), near me s s1 c -> cpu_ok c -> NoDup (held c) -> NoDup l ->
  (forall t, t ∈ l -> known s t /\ mine t /\ t ∈ items (c_sleeping c)) ->
  (forall s2 c2, near me s s2 c2 -> keeps c c2 -> Q tt s2) -> runs (wake_all me ms l) s1 Q.
Proof.
  induction l as [|t l IH]; intros s1 c Q Hn Hok Hnd Hndl Hall HQ; cbn [wake_all].
  { apply runs_ret. eapply HQ; [done|by apply keeps_refl]. }
  apply NoDup_cons in Hndl as [Hnot Hndl]. destruct (Hall t) as (Hk & Hm & Hin); [set_solver|].
  mstep. eapply wake_runs; [done..|]. intros s2 c2 Hn2 Hk2 Hrest.
  eapply IH; [exact Hn2|apply Hk2|by rewrite (kp_held _ _ Hk2)|done| |].
  - intros t' Ht'. destruct (Hall t') as (? & ? & ?); [set_solver|]. split; [done|split; [done|]]. apply Hrest; [set_solver|done].
  - intros s3 c3 Hn3 Hk3. eapply HQ; [exact Hn3|]. by eapply keeps_trans.
Qed.
End Tick.

(** ** The choice keeps the threads *)

(** A processor that is ready for the next operation. *)
Record settled (c c' : ProcessorState) : Prop := {
  se_ok : cpu_ok c';
  se_id : c_id c' = c_id c;
  se_idle : c_idleThread c' = c_idleThread c;
  se_flag : c_currentThread c' <> 0 -> c_isIdle c' = (c_currentThread c' =? c_idleThread c');
  se_sleeping : locked (c_sleeping c') = false
}.
Lemma settled_refl i s c : wf s -> procs s !! i = Some c -> settled c c.
Proof. intros Hwf Hc. destruct (wf_cpus _ Hwf _ _ Hc) as [Hok []]. by constructor. Qed.

Lemma wf_step s s' : wf s -> all_held s' ≡ₚ all_held s -> static s s' -> g_StealLock s' = false -> elsewhere s' = elsewhere s ->
  (forall i c', procs s' !! i = Some c' -> exists c, procs s !! i = Some c /\ settled c c') -> wf s'.
Proof.
  intros Hwf Hh Hst Hsl He Hc. constructor; [| |by rewrite Hh; apply Hwf| | |rewrite He; intros t; rewrite Hh; apply Hwf|done].
  - intros i c' Hc'. destruct (Hc i c' Hc') as (c & Hcc & Hse). split; [apply Hse|].
    destruct (wf_cpus _ Hwf _ _ Hcc) as [_ [H1 [x Hx] _ _]]. destruct Hse as [E1 E2 E3 E4 E5]. constructor; [congruence| |done..].
    rewrite E3. destruct (proj2 Hst _ _ Hx) as (x' & Hx' & _). by exists x'.
  - intros i j c' d' Hi Hj Hid. destruct (Hc i c' Hi) as (c & Hcc & Hse), (Hc j d' Hj) as (d & Hdd & Hse').
    apply (wf_ids _ Hwf i j c d Hcc Hdd). by rewrite <- (se_id _ _ Hse), <- (se_id _ _ Hse').
  - intros t. rewrite Hh. intros Ht. eapply static_known; [exact Hst|]. by apply (wf_known _ Hwf).
  - intros i c' Hi. destruct (Hc i c' Hi) as (c & Hcc & Hse). rewrite Hh, (se_idle _ _ Hse). by apply (wf_idle _ Hwf i).
Qed.

Lemma wf_near me s s' c0 c : wf s -> procs s !! me = Some c0 -> near me s s' c -> held c ≡ₚ held c0 -> settled c0 c ->
  wf s' /\ all_held s' ≡ₚ all_held s.
Proof.
  intros Hwf Hc0 Hn Hh Hse. assert (all_held s' ≡ₚ all_held s) as Hall by (eapply all_held_same; [done|apply Hn|done]).
  split; [|done]. eapply wf_step; [done|done|apply Hn|rewrite (nr_steal _ _ _ _ Hn); apply Hwf|apply Hn|].
  intros i c' Hi. rewrite (nr_procs _ _ _ _ Hn) in Hi. apply list_lookup_insert_Some in Hi as [(-> & -> & _)|[Hne Hi]]; [eauto|].
  exists c'. split; [done|]. by eapply settled_refl.
Qed.

Lemma wf_system s : wf s -> system_ok s.
Proof.
  intros Hwf. constructor; [intros i c Hc; apply (wf_cpus _ Hwf _ _ Hc)|apply Hwf|].
  intros i c n q t Hc Hq Ht. destruct (wf_known _ Hwf t) as (_ & x & p & Hx & Hl & _); [|by exists x].
  eapply held_all; [exact Hc|]. by eapply queued_held.
Qed.

Section Pick.
Context (me : nat) (s : state) (c0 : ProcessorState) (Hwf : wf s) (Hc0 : procs s !! me = Some c0) (Hcur : c_currentThread c0 = 0).

Lemma served_thread i c rc n t f q : procs s !! i = Some c -> serves (queues c) rc n t f q ->
  t <> 0 /\ known s t /\ t <> c_idleThread c0.
Proof.
  intros Hc Hsv. assert (t ∈ all_held s) as Hin.
  { eapply held_all; [exact Hc|]. eapply queued_held; [apply (sv_head _ _ _ _ _ _ Hsv)|set_solver]. }
  split_and!; [by apply (wf_known _ Hwf)|by apply (wf_known _ Hwf)|]. intros ->. by apply (wf_idle _ Hwf _ _ Hc0).
Qed.

Lemma held_idle_slot : held c0 = concat (queues c0) ++ items (c_sleeping c0).
Proof. rewrite !held_eq. unfold running. by rewrite Hcur. Qed.

(** A processor with another current thread and other run counts. *)
Lemma settled_current c t b rc : settled c0 c -> length rc = NICE_LEVELS -> (forall i x, rc !! i = Some x -> 0 <= x < 2 ^ 31) ->
  b = (t =? c_idleThread c0) -> settled c0 (set_current t (set_isIdle b (set_runCounts rc c))).
Proof.
  intros [E1 E2 E3 E4 E5] Hlen Hr ->. constructor; cbn; [|done|done|by rewrite E3|done]. destruct E1. by constructor.
Qed.

Lemma settled_taken i c rc n t f q : procs s !! i = Some c -> serves (queues c) rc n t f q ->
  settled c (set_lists (<[n := mkList q false]> (c_threads c)) c).
Proof.
  intros Hc Hsv. destruct (wf_cpus _ Hwf _ _ Hc) as [Hok []]. constructor; try done. by eapply cpu_ok_taken.
Qed.
Lemma taken_queues c rc n t f q : serves (queues c) rc n t f q ->
  t :: concat (queues (set_lists (<[n := mkList q false]> (c_threads c)) c)) ≡ₚ concat (queues c).
Proof. intros Hsv. unfold queues at 1. cbn. rewrite list_fmap_insert. apply queue_pop, Hsv. Qed.

(** What holds after a choice. *)
Definition chosen (s' : state) : Prop := wf s' /\ all_held s' ≡ₚ all_held s /\
  exists c', procs s' !! me = Some c' /\ c_lock c' = c_lock c0 /\ c_currentThread c' <> 0 /\ is_Some (threads s' !! c_currentThread c').

Lemma chosen_own n t f q : serves (queues c0) (c_runCounts c0) n t f q -> chosen (at_cpu me (takes c0 n t f q) s).
Proof.
  intros Hsv. destruct (served_thread _ _ _ _ _ _ _ Hc0 Hsv) as (Ht & (_ & x & p & Hx & _) & Hni).
  destruct (wf_cpus _ Hwf _ _ Hc0) as [Hok _].
  assert (Hh : held (takes c0 n t f q) ≡ₚ held c0).
  { rewrite held_idle_slot. rewrite !held_eq. unfold running. cbn -[counts_after]. rewrite (proj2 (Z.eqb_neq _ _) Ht), (proj2 (Z.eqb_neq _ _) Hni).
    cbn -[counts_after]. rewrite <- (taken_queues _ _ _ _ _ _ Hsv). done. }
  assert (Hse : settled c0 (takes c0 n t f q)).
  { apply settled_current; [exact (settled_taken _ _ _ _ _ _ _ Hc0 Hsv)|by rewrite counts_after_length, (co_counts _ Hok)|by eapply counts_after_range|done]. }
  assert (Hn : near me s (at_cpu me (takes c0 n t f q) s) (takes c0 n t f q)) by apply near_at.
  destruct (wf_near _ _ _ _ _ Hwf Hc0 Hn Hh Hse) as [? ?]. split_and!; [done..|].
  exists (takes c0 n t f q). split_and!; [by eapply near_cpu|done|done|]. cbn. by exists x.
Qed.

Lemma chosen_idle : chosen (at_cpu me (set_current (c_idleThread c0) (set_isIdle true
  (set_runCounts (reset_from 0 (c_runCounts c0)) c0))) s).
Proof.
  destruct (wf_cpus _ Hwf _ _ Hc0) as [Hok Hio]. set (c := set_current _ _).
  assert (Hh : held c ≡ₚ held c0).
  { rewrite held_idle_slot. rewrite !held_eq. unfold running. cbn -[reset_from]. by rewrite Z.eqb_refl, orb_true_r. }
  assert (Hse : settled c0 c).
  { apply settled_current; [by eapply settled_refl|by rewrite reset_from_length, (co_counts _ Hok)| |by rewrite Z.eqb_refl].
    intros i x Hx. unfold reset_from in Hx. rewrite list_lookup_imap in Hx. apply fmap_Some in Hx as (y & Hy & ->).
    case_match; [lia|]. by eapply (co_range _ Hok). }
  assert (Hn : near me s (at_cpu me c s) c) by apply near_at.
  destruct (wf_near _ _ _ _ _ Hwf Hc0 Hn Hh Hse) as [? ?]. split_and!; [done..|].
  exists c. split_and!; [by eapply near_cpu|done|apply Hio|apply Hio].
Qed.

Lemma chosen_other src csrc n t f q x : src <> me -> procs s !! src = Some csrc ->
  serves (queues csrc) (c_runCounts c0) n t f q -> threads s !! t = Some x ->
  chosen (set_threads (<[t := set_cpu (Some (c_id c0)) x]> (threads s))
    (at_cpu me (set_current t (set_isIdle (t =? c_idleThread c0) (set_runCounts (counts_after f n (c_runCounts c0)) c0)))
      (at_cpu src (set_lists (<[n := mkList q false]> (c_threads csrc)) csrc) s))).
Proof.
  intros Hne Hsrc Hsv Hx. destruct (served_thread _ _ _ _ _ _ _ Hsrc Hsv) as (Ht & _ & Hni).
  destruct (wf_cpus _ Hwf _ _ Hc0) as [Hok _]. set (c' := set_current _ _). set (csrc' := set_lists _ csrc). set (s1 := at_cpu src csrc' s).
  assert (Hc1 : procs s1 !! me = Some c0) by (cbn; by rewrite list_lookup_insert_ne).
  assert (H1 : t :: held csrc' ≡ₚ held csrc).
  { rewrite !held_eq. pose proof (taken_queues _ _ _ _ _ _ Hsv) as Hq. fold csrc' in Hq. rewrite <- Hq. change (running csrc') with (running csrc).
    cbn [c_sleeping csrc' set_lists]. solve_Permutation. }
  assert (H2 : held c' ≡ₚ t :: held c0).
  { rewrite held_idle_slot. rewrite !held_eq. unfold running. cbn -[counts_after]. by rewrite (proj2 (Z.eqb_neq _ _) Ht), (proj2 (Z.eqb_neq _ _) Hni). }
  assert (Hall : all_held (at_cpu me c' s1) ≡ₚ all_held s).
  { rewrite (all_held_at me c' s1) by (done || by eapply lookup_lt_Some). rewrite H2, (all_held_split src csrc s Hsrc), <- H1. cbn. f_equiv.
    rewrite <- (all_held_split me c0 s1 Hc1). apply (all_held_at src csrc' s); [by eapply lookup_lt_Some|done]. }
  split_and!; [|exact Hall|].
  - eapply wf_step; [exact Hwf|exact Hall|by apply (static_thread s t x)|apply Hwf|done|].
    intros i c Hi. cbn in Hi. apply list_lookup_insert_Some in Hi as [(<- & <- & _)|[_ Hi]].
    + exists c0. split; [done|]. apply settled_current; [by eapply settled_refl|by rewrite counts_after_length, (co_counts _ Hok)|by eapply counts_after_range|done].
    + apply list_lookup_insert_Some in Hi as [(<- & <- & _)|[_ Hi]]; [exists csrc; split; [done|exact (settled_taken _ _ _ _ _ _ _ Hsrc Hsv)]|].
      exists c. split; [done|by eapply settled_refl].
  - exists c'. split_and!; [|done|done|cbn; by rewrite lookup_insert_eq]. cbn. apply list_lookup_insert_eq. rewrite length_insert. by eapply lookup_lt_Some.
Qed.

Lemma PickNext_chosen : runs (PickNext me false) s (fun _ s' => chosen s').
Proof.
  destruct (wf_cpus _ Hwf _ _ Hc0) as [Hok Hio]. eapply runs_mono.
  { apply (PickNext_result me s c0 Hc0 (wf_system _ Hwf) false); [done|apply Hwf|apply Hio]. }
  intros _ s' [n t f q Hsv|src csrc n t f q x Hne _ Hsrc Hsv Hx|_]; [by apply chosen_own|by apply chosen_other|apply chosen_idle].
Qed.
End Pick.

(** ** A tick *)

Lemma near_emit me s s1 c e (Q : unit -> state -> Prop) : near me s s1 c -> (forall s2, near me s s2 c -> threads s2 = threads s1 -> Q tt s2) ->
  runs (emit e) s1 Q.
Proof. intros [H1 H2 H3 H4] HQ. unfold emit. mstep. apply HQ; [by constructor|done]. Qed.

(** What holds when a tick or a yield is over: the threads are where they have
    to be, and the thread that runs is the current one. *)
Definition switched (me : nat) (s : state) (b : bool) (r : option Z) (s' : state) : Prop := wf s' /\ all_held s' ≡ₚ all_held s /\
  (c_lock <$> procs s' !! me) = Some b /\
  match r with
  | None => True
  | Some t => t <> 0 /\ exists c x, procs s' !! me = Some c /\ c_currentThread c = t /\ threads s' !! t = Some x /\
      t_timeRemaining x = DEFAULT_TIMESLICE
  end.

Section TimerTick.
Context (me : nat) (s : state) (c0 : ProcessorState) (Hwf : wf s) (Hc0 : procs s !! me = Some c0).

Lemma held_nodup : NoDup (held c0).
Proof. pose proof (wf_once _ Hwf) as H. rewrite (all_held_split me c0 s Hc0) in H. by apply NoDup_app in H as (? & _). Qed.

(** The choice and what follows it, with no current thread; [m] may change the
    lock of the processor. *)
Lemma pick_and_run s1 c m b : near me s s1 c -> held c ≡ₚ held c0 -> settled c0 c -> c_currentThread c = 0 ->
  (forall s2 c' (Q : unit -> state -> Prop), procs s2 !! me = Some c' -> c_lock c' = c_lock c ->
     (forall s3, procs s3 = <[me := set_lock b c']> (procs s2) -> threads s3 = threads s2 -> processes s3 = processes s2 ->
       g_StealLock s3 = g_StealLock s2 -> elsewhere s3 = elsewhere s2 -> Q tt s3) -> runs m s2 Q) ->
  runs (PickNext me false ;;; let* c := cpu me in
    (if c_currentThread c =? 0 then release_cpu me ;;; assertM false else ret tt) ;;;
    upd_thread (c_currentThread c) (set_time DEFAULT_TIMESLICE) ;;; m ;;; run_current me) s1 (switched me s b).
Proof.
  intros Hn Hh Hse Hcur Hm. destruct (wf_near _ _ _ _ _ Hwf Hc0 Hn Hh Hse) as [Hwf1 Hall].
  mstep. eapply runs_mono; [apply (PickNext_chosen me s1 c Hwf1); [by eapply near_cpu|done]|].
  intros [] s2 (Hwf2 & Hall2 & c' & Hc' & Hlk & Ht & x & Hx). mstep. apply (cpu_at _ _ c'); [done|]. mstep.
  rewrite (proj2 (Z.eqb_neq _ 0) Ht). apply runs_ret. mstep. eapply put_thread_runs; [done..|]. mstep.
  apply (Hm _ c'); [exact Hc'|done|]. cbn. intros s3 Ep Et Epr Es Ee.
  assert (Hc3 : procs s3 !! me = Some (set_lock b c')) by (rewrite Ep; apply list_lookup_insert_eq; by eapply lookup_lt_Some).
  unfold run_current. mstep. apply (cpu_at _ _ (set_lock b c')); [done|]. apply runs_ret.
  assert (Hst : static s2 s3).
  { destruct (static_thread s2 _ x (set_time DEFAULT_TIMESLICE) Hx eq_refl eq_refl) as [H1 H2].
    split; [rewrite Epr; exact H1|]. rewrite Et. exact H2. }
  assert (Hn3 : near me s2 s3 (set_lock b c')) by (by constructor).
  assert (Hse3 : settled c' (set_lock b c')).
  { destruct (settled_refl _ _ _ Hwf2 Hc') as [E1 E2 E3 E4 E5]. constructor; try done. destruct E1. by constructor. }
  destruct (wf_near _ _ _ _ _ Hwf2 Hc' Hn3 (reflexivity (held c')) Hse3) as [Hwf3 Hall3].
  split_and!; [done|by rewrite Hall3, Hall2, Hall|by rewrite Hc3|done|].
  exists (set_lock b c'), (set_time DEFAULT_TIMESLICE x). split_and!; [done..| |done]. rewrite Et. cbn. by rewrite lookup_insert_eq.
Qed.

(** The current thread goes to the end of its ready list. *)
Lemma settled_requeued c n l t : settled c0 c -> c_threads c !! n = Some l -> t <> 0 -> settled c0 (set_current 0 (queue_in n t l c)).
Proof.
  intros [E1 E2 E3 E4 E5] Hl Ht. constructor; cbn; try done. destruct (cpu_ok_queue_in c n t l E1 Hl Ht). by constructor.
Qed.
Lemma held_requeued c n l : c_threads c !! n = Some l -> c_currentThread c <> 0 -> c_currentThread c <> c_idleThread c ->
  held (set_current 0 (queue_in n (c_currentThread c) l c)) ≡ₚ held c.
Proof.
  intros Hl Ht Hni. rewrite !held_eq.
  change (queues (set_current 0 (queue_in n (c_currentThread c) l c))) with (queues (queue_in n (c_currentThread c) l c)).
  rewrite queues_queue_in by done. unfold running. cbn.
  by rewrite (proj2 (Z.eqb_neq _ _) Ht), (proj2 (Z.eqb_neq _ _) Hni).
Qed.
Lemma held_idle c : c_currentThread c = c_idleThread c -> held (set_current 0 c) = held c.
Proof. intros E. rewrite !held_eq. unfold running. cbn. by rewrite E, Z.eqb_refl, orb_true_r. Qed.

(** The sleepers. *)
Lemma woken_runs {A} ms (m : M state A) (Q : A -> state -> Prop) :
  (forall s1 c, near me s s1 c -> held c ≡ₚ held c0 -> settled c0 c -> c_currentThread c = c_currentThread c0 ->
    c_isIdle c = c_isIdle c0 -> c_lock c = c_lock c0 -> runs m s1 Q) ->
  runs ((if locked (c_sleeping c0) then fail LockHeld else lock_sleeping me true) ;;;
        wake_all me ms (items (c_sleeping c0)) ;;; lock_sleeping me false ;;; m) s Q.
Proof.
  intros HQ. destruct (wf_cpus _ Hwf _ _ Hc0) as [Hok Hio]. rewrite (io_sleeping _ _ Hio). unfold lock_sleeping.
  assert (Hn0 : near me s s c0) by (constructor; [by rewrite list_insert_id|exact (static_refl s)|done|done]).
  assert (Hold : forall t, t ∈ items (c_sleeping c0) -> known s t /\ mine me s t).
  { intros t Ht. assert (t ∈ held c0) by (rewrite !held_eq; set_solver).
    split; [apply (wf_known _ Hwf); by eapply held_all|by eapply wf_mine]. }
  mstep. eapply near_upd_cpu; [done..|]. intros s1 Hn1. set (c1 := set_sleeping _ c0) in *.
  mstep. eapply (wake_all_runs me s c0 Hc0 ms _ s1 c1); [exact Hn1|destruct Hok; by constructor|exact held_nodup| | |].
  - pose proof held_nodup as H. rewrite held_eq in H. apply NoDup_app in H as (_ & _ & H). by apply NoDup_app in H as (_ & _ & H).
  - intros t Ht. destruct (Hold t Ht). split; [done|split; [done|exact Ht]].
  - intros s2 c2 Hn2 [K1 K2 K3 K4 K5 K6 K7 K8]. mstep. eapply near_upd_cpu; [done..|]. intros s3 Hn3.
    apply (HQ _ _ Hn3); [exact K2| |exact K4|exact K6|exact K7].
    constructor; cbn; [destruct K1; by constructor|exact K3|exact K5| |done].
    rewrite K4, K5, K6. apply Hio.
Qed.

(** The current thread gives the processor away, or goes on. *)
Lemma expire_runs s1 c ms (Q : bool -> state -> Prop) : near me s s1 c -> held c ≡ₚ held c0 -> settled c0 c -> c_currentThread c <> 0 ->
  (forall s2, near me s s2 c -> Q true s2) ->
  (forall s2 c2, near me s s2 c2 -> held c2 ≡ₚ held c0 -> settled c0 c2 -> c_currentThread c2 = 0 -> c_lock c2 = c_lock c -> Q false s2) ->
  runs (emit (SaveContext (c_currentThread c)) ;;;
     let* x := thread_of (c_currentThread c) in
     let left := if t_timeRemaining x <=? ms then 0 else t_timeRemaining x - ms in
     upd_thread (c_currentThread c) (set_time left) ;;;
     if (0 <? left) && negb (c_isIdle c) then ret true else
     whenM (negb (c_isIdle c)) (let* n := nice_of (c_currentThread c) in enqueue me n (c_currentThread c)) ;;;
     upd_cpu me (set_current 0) ;;;
     ret false) s1 Q.
Proof.
  intros Hn Hh Hse Ht Hgo Hstop. destruct (wf_near _ _ _ _ _ Hwf Hc0 Hn Hh Hse) as [Hwf1 Hall]. pose proof (near_cpu _ _ _ Hc0 _ _ Hn) as Hc.
  assert (Hex : exists x, threads s1 !! c_currentThread c = Some x).
  { destruct (decide (c_currentThread c = c_idleThread c)) as [->|Hni]; [apply (wf_cpus _ Hwf1 _ _ Hc)|].
    destruct (wf_known _ Hwf1 (c_currentThread c)) as (_ & x & _ & Hx & _); [|by exists x].
    eapply held_all; [exact Hc|]. rewrite held_current by done. set_solver. }
  destruct Hex as [x Hx]. mstep. eapply near_emit; [exact Hn|]. intros s2 Hn2 Et. rewrite <- Et in Hx.
  mstep. eapply thread_of_runs; [done..|]. cbn zeta. set (left := if _ <=? _ then _ else _).
  mstep. eapply near_upd_thread; [done..|]. intros s3 Hn3. destruct ((0 <? left) && negb (c_isIdle c)).
  { apply runs_ret. by apply Hgo. }
  mstep. pose proof (se_flag _ _ Hse Ht) as Hflag. destruct (c_isIdle c); cbn [negb whenM].
  - apply runs_ret. mstep. eapply near_upd_cpu; [exact Hc0|exact Hn3|]. intros s4 Hn4. apply runs_ret. eapply Hstop; [exact Hn4| | |done|done].
    + rewrite held_idle by (by apply Z.eqb_eq). done.
    + destruct Hse as [E1 E2 E3 E4 E5]. constructor; try done. destruct E1. by constructor.
  - symmetry in Hflag. apply Z.eqb_neq in Hflag.
    assert (Hnd : NoDup (held c)) by (rewrite Hh; exact held_nodup). pose proof (held_current c Ht Hflag) as Hhc.
    assert (Hin : c_currentThread c ∈ held c) by (rewrite Hhc; set_solver). rewrite Hhc in Hnd. apply NoDup_cons in Hnd as [Hnot _].
    eapply near_enqueue; [exact Hc0|exact Hn3|apply Hse| |eapply wf_mine; [exact Hc0|done|by rewrite <- Hh]|done|].
    + apply (wf_known _ Hwf). rewrite <- Hall. by eapply held_all.
    + intros s4 n l Hl Hn4. mstep. eapply near_upd_cpu; [exact Hc0|exact Hn4|]. intros s5 Hn5. apply runs_ret.
      eapply Hstop; [exact Hn5|by rewrite held_requeued|by apply settled_requeued|done|done].
Qed.

(** The test for a thread in [TimerTick] is that of [Yield_Internal] without the
    release of the lock. *)
Lemma runs_assert_tail m st (Q : option Z -> state -> Prop) :
  runs (PickNext me false ;;; let* c := cpu me in
    (if c_currentThread c =? 0 then release_cpu me ;;; assertM false else ret tt) ;;; m c) st Q ->
  runs (PickNext me false ;;; let* c := cpu me in assertM (negb (c_currentThread c =? 0)) ;;; m c) st Q.
Proof.
  unfold runs, bind. intros (a & s' & Hr & HQ). exists a, s'. split; [|done]. destruct (PickNext me false st) as [[[] s1]|]; [|done].
  destruct (cpu me s1) as [[c s2]|]; [|done]. destruct (c_currentThread c =? 0); [|exact Hr]. by destruct (release_cpu me s2) as [[[] s3]|].
Qed.

Lemma TimerTick_runs ms : c_startAllowed c0 = true -> runs (TimerTick me ms) s (switched me s (c_lock c0)).
Proof.
  intros Hstart. unfold TimerTick. mstep. apply (cpu_at _ _ c0); [done|]. rewrite Hstart. cbn [negb].
  apply woken_runs. intros s1 c Hn Hh Hse Ecur Eidle Elock. mstep. apply (cpu_at _ _ c); [by eapply near_cpu|].
  assert (Hrun : forall s2 c2, near me s s2 c2 -> held c2 ≡ₚ held c0 -> settled c0 c2 -> c_currentThread c2 = 0 -> c_lock c2 = c_lock c0 ->
    runs (PickNext me false ;;; let* c := cpu me in assertM (negb (c_currentThread c =? 0)) ;;;
      upd_thread (c_currentThread c) (set_time DEFAULT_TIMESLICE) ;;; emit EndTimerTick ;;; run_current me) s2 (switched me s (c_lock c0))).
  { intros s2 c2 H1 H2 H3 H4 H5. eapply runs_assert_tail, pick_and_run; [done..|]. intros s3 c3 Q Hc3 Hlk HQ. unfold emit. mstep.
    apply HQ; [|done..]. cbn. rewrite <- H5, <- Hlk. rewrite list_insert_id; [done|]. rewrite Hc3. by destruct c3. }
  mstep. destruct (Z.eqb_spec (c_currentThread c) 0) as [E|Hne].
  - apply runs_ret. by eapply Hrun.
  - eapply expire_runs; [done..| |].
    + intros s2 Hn2. apply runs_ret. destruct (wf_near _ _ _ _ _ Hwf Hc0 Hn2 Hh Hse). split_and!; [done..| |done].
      rewrite (near_cpu _ _ _ Hc0 _ _ Hn2). cbn. by rewrite Elock.
    + intros s2 c2 H1 H2 H3 H4 H5. eapply Hrun; [done..|]. by rewrite H5.
Qed.
End TimerTick.

(** ** Yields *)

Section Yield.
Context (me : nat) (s : state) (c0 : ProcessorState) (Hwf : wf s) (Hc0 : procs s !! me = Some c0) (Hlock : c_lock c0 = false).
Context (callback : Z -> Z -> M state unit).

Lemma near_start : near me s s c0.
Proof. constructor; [by rewrite list_insert_id|exact (static_refl s)|done|done]. Qed.

Lemma near_acquire s1 c (Q : unit -> state -> Prop) : near me s s1 c -> c_lock c = false ->
  (forall s2, near me s s2 (set_lock true c) -> threads s2 = threads s1 -> Q tt s2) -> runs (acquire_cpu me) s1 Q.
Proof.
  intros Hn Hl HQ. unfold acquire_cpu. mstep. apply (cpu_at _ _ c); [by eapply near_cpu|]. rewrite Hl.
  pose proof (near_cpu _ _ _ Hc0 _ _ Hn) as Hc. rewrite <- (at_cpu_id me c s1 Hc) at 1.
  apply upd_cpu_runs; [by eapply lookup_lt_Some|]. apply HQ; [by eapply near_upd|done].
Qed.

(** The end of a yield. *)
Lemma yield_tail s1 c : near me s s1 c -> held c ≡ₚ held c0 -> settled c0 c -> c_currentThread c = 0 ->
  runs (PickNext me false ;;; let* c := cpu me in
    (if c_currentThread c =? 0 then release_cpu me ;;; assertM false else ret tt) ;;;
    upd_thread (c_currentThread c) (set_time DEFAULT_TIMESLICE) ;;; release_cpu me ;;; run_current me) s1 (switched me s false).
Proof.
  intros Hn Hh Hse Hcur. eapply pick_and_run; [done..|]. intros s2 c' Q Hc' _ HQ. unfold release_cpu.
  rewrite <- (at_cpu_id me c' s2 Hc') at 1. apply upd_cpu_runs; [by eapply lookup_lt_Some|]. by apply HQ.
Qed.

Lemma settled_lock c b : settled c0 c -> settled c0 (set_lock b c).
Proof. intros [[] E2 E3 E4 E5]. by constructor; [constructor|..]. Qed.

Lemma near_sleep s1 c t (Q : unit -> state -> Prop) : near me s s1 c -> t <> 0 -> mine me s t -> t ∉ lists_of c ->
  (forall s2 l, l = mkList (items (c_sleeping c) ++ [t]) false -> near me s s2 (set_sleeping l c) -> Q tt s2) ->
  runs (lock_sleeping me true ;;;
        (let* c := cpu me in let* l := pushBack t (c_sleeping c) in upd_cpu me (set_sleeping l)) ;;;
        lock_sleeping me false) s1 Q.
Proof.
  intros Hn Hne Hm Hnot HQ. unfold lock_sleeping. mstep. eapply near_upd_cpu; [exact Hc0|exact Hn|]. intros s2 Hn2.
  mstep. mstep. eapply cpu_at; [by eapply near_cpu|]. mstep. unfold pushBack. mstep.
  apply unlinked_runs; [done|by eapply near_unlisted|]. apply runs_ret.
  eapply near_upd_cpu; [exact Hc0|exact Hn2|]. intros s3 Hn3. eapply near_upd_cpu; [exact Hc0|exact Hn3|]. intros s4 Hn4.
  by eapply HQ.
Qed.

(** A current thread other than the idle thread. *)
Context (Ht : c_currentThread c0 <> 0) (Hni : c_currentThread c0 <> c_idleThread c0).

Lemma current_in : c_currentThread c0 ∈ held c0.
Proof. rewrite held_current by done. set_solver. Qed.
Lemma current_known : known s (c_currentThread c0).
Proof. apply (wf_known _ Hwf). eapply held_all; [exact Hc0|apply current_in]. Qed.
Lemma current_mine : mine me s (c_currentThread c0).
Proof. eapply wf_mine; [exact Hc0|done|apply current_in]. Qed.
Lemma current_only : c_currentThread c0 ∉ lists_of c0.
Proof. pose proof (held_nodup _ _ _ Hwf Hc0) as H. rewrite held_current in H by done. by apply NoDup_cons in H as [? _]. Qed.

Lemma Yield_runs fromInterrupt : runs (Yield_Internal callback me true 0 fromInterrupt) s (switched me s false).
Proof.
  pose proof (settled_refl _ _ _ Hwf Hc0) as Hse. unfold Yield_Internal. cbn [Z.eqb negb].
  mstep. eapply near_acquire; [apply near_start|done|]. intros s1 Hn1 _. mstep. mstep. apply (cpu_at _ _ (set_lock true c0)); [by eapply near_cpu|].
  cbn zeta. change (c_currentThread (set_lock true c0)) with (c_currentThread c0). rewrite (proj2 (Z.eqb_neq _ 0) Ht). cbn [negb andb whenM].
  assert (Hgo : forall s2, near me s s2 (set_lock true c0) ->
    runs ((let* n := nice_of (c_currentThread c0) in enqueue me n (c_currentThread c0)) ;;; upd_cpu me (set_current 0)) s2
      (fun _ s3 => exists n l, c_threads c0 !! n = Some l /\ near me s s3 (set_current 0 (queue_in n (c_currentThread c0) l (set_lock true c0))))).
  { intros s2 Hn2. mstep. eapply near_enqueue; [exact Hc0|exact Hn2|apply (settled_lock _ true Hse)|apply current_known|apply current_mine|exact current_only|].
    intros s3 n l Hl Hn3. eapply near_upd_cpu; [exact Hc0|exact Hn3|]. eauto. }
  mstep. assert (Hall : runs (whenM fromInterrupt (emit (SaveContext (c_currentThread c0))) ;;;
    (let* n := nice_of (c_currentThread c0) in enqueue me n (c_currentThread c0)) ;;; upd_cpu me (set_current 0)) s1
      (fun _ s3 => exists n l, c_threads c0 !! n = Some l /\ near me s s3 (set_current 0 (queue_in n (c_currentThread c0) l (set_lock true c0))))).
  { mstep. destruct fromInterrupt; cbn [whenM]; [|by apply runs_ret, Hgo]. eapply near_emit; [exact Hn1|]. intros s2 Hn2 _. by apply Hgo. }
  eapply runs_mono; [exact Hall|]. intros _ s2 (n & l & Hl & Hn2). apply runs_ret. rewrite orb_true_r. cbn [whenM].
  apply (yield_tail _ _ Hn2); [|by apply settled_requeued; [apply settled_lock|..]|done].
  apply (held_requeued (set_lock true c0) n l Hl); done.
Qed.

Lemma Sleep_runs ms : 0 < ms -> runs (SleepCurrentThread callback me ms) s (switched me s false).
Proof.
  intros Hms. pose proof (settled_refl _ _ _ Hwf Hc0) as Hse. unfold SleepCurrentThread. rewrite (proj2 (Z.eqb_neq _ 0)) by lia.
  mstep. unfold RemoveCurrentThread. cbn [whenM]. mstep. eapply near_acquire; [apply near_start|done|]. intros s1 Hn1 _.
  mstep. apply (cpu_at _ _ (set_lock true c0)); [by eapply near_cpu|]. mstep. eapply near_upd_cpu; [exact Hc0|exact Hn1|]. intros s2 Hn2.
  mstep. eapply near_upd_cpu; [exact Hc0|exact Hn2|]. intros s3 Hn3. apply runs_ret.
  change (c_currentThread (set_lock true c0)) with (c_currentThread c0). rewrite (proj2 (Z.eqb_neq _ 0) Ht).
  pose proof (near_known _ _ _ _ _ Hn3 current_known) as (_ & x & p & Hx & _).
  mstep. apply (put_thread_runs _ _ x); [done..|].
  pose proof (near_thread _ _ _ _ _ x (set_sleep ms) Hn3 Hx eq_refl eq_refl) as Hn4. set (s4 := set_threads _ s3) in *.
  assert (Hx4 : threads s4 !! c_currentThread c0 = Some (set_sleep ms x)) by apply lookup_insert_eq.
  mstep. eapply near_emit; [exact Hn4|]. intros s5 Hn5 Et. rewrite <- Et in Hx4.
  unfold Yield_Internal. rewrite (proj2 (Z.eqb_neq _ 0) Ht). cbn [negb].
  mstep. eapply near_acquire; [exact Hn5|done|]. intros s6 Hn6 Et6. rewrite <- Et6 in Hx4.
  mstep. mstep. eapply thread_of_runs; [done..|]. mstep. cbn [t_sleepRemainingTime set_sleep]. rewrite (proj2 (Z.ltb_lt 0 ms) Hms).
  mstep. eapply cpu_at; [by eapply near_cpu|]. cbn [c_sleeping set_lock set_current]. rewrite (se_sleeping _ _ Hse).
  eapply near_sleep; [exact Hn6|done|apply current_mine|exact current_only|]. intros s7 l -> Hn7. apply runs_ret. cbn [Z.eqb orb whenM].
  apply (yield_tail _ _ Hn7); [| |done].
  - rewrite (held_current c0) by done. rewrite held_eq. unfold running, lists_of. cbn. change (queues (set_sleeping _ _)) with (queues c0). solve_Permutation.
  - destruct Hse as [[] E2 E3 E4 E5]. by constructor; [constructor|..].
Qed.
End Yield.

(** C8: a forced yield and a sleep of a thread other than the idle thread
    ([Scheduler::Yield], [Scheduler::SleepCurrentThread]) run to their end: the
    thread goes to the end of its ready list, or to the sleepers of the
    processor, no thread is lost or duplicated, the state is well formed again
    and its lock is released, and the thread that runs next is the current one,
    with a full time slice. A forced yield of the idle thread is the exception:
    it puts the idle thread into a ready list ([idle_yield_queues_idle]). *)
Theorem Yield_and_Sleep_conserve me s c0 callback fromInterrupt ms : wf s -> procs s !! me = Some c0 -> c_lock c0 = false ->
  c_currentThread c0 <> 0 -> c_currentThread c0 <> c_idleThread c0 -> 0 < ms ->
  runs (Yield_Internal callback me true 0 fromInterrupt) s (switched me s false) /\
  runs (SleepCurrentThread callback me ms) s (switched me s false).
Proof. intros Hwf Hc0 Hl Ht Hni Hms. split; [by eapply Yield_runs|by eapply Sleep_runs]. Qed.

(** C7: a tick of the timer ([Scheduler::TimerTick]) on a well-formed state runs to
    its end: every thread that was running, ready or asleep on some processor is
    so on exactly one processor afterwards and no other thread is, whether
    sleepers wake up, the current thread goes on or is put back, and the next
    thread comes from the own lists, from another processor or is the idle
    thread; the state is well formed again, and a thread that is switched to is
    the current one and has a full time slice. *)
Theorem TimerTick_conserves me s c0 ms : wf s -> procs s !! me = Some c0 -> c_startAllowed c0 = true ->
  runs (TimerTick me ms) s (switched me s (c_lock c0)).
Proof. intros Hwf Hc0. by eapply TimerTick_runs. Qed.
(** *** Witnesses *)

(** Two processors: the first runs thread 8, with threads 5, 6 and 7 ready and 10
    asleep; the second is idle. *)
Definition busy : ProcessorState :=
  set_startAllowed true (set_sleeping (mkList [10] false) (set_current 8 demo_cpu)).
Definition sleeper : Thread := mkThread 1 0 4 0 None false.
Definition tick_demo : state :=
  mk [busy; demo_second]
    (<[10 := sleeper]> (list_to_map ((fun t => (t, demo_thread)) <$> [5; 6; 7; 8; 9; 11])))
    {[1 := mkProcess KERNEL 3 0]} [1] 1 2 false true [] ∅ [].

Lemma tick_demo_held : all_held tick_demo = [8; 7; 5; 6; 10].
Proof. reflexivity. Qed.
Lemma tick_demo_cpu i c : procs tick_demo !! i = Some c -> i = 0%nat /\ c = busy \/ i = 1%nat /\ c = demo_second.
Proof. destruct i as [|[|i]]; cbn; intros H; [left|right|done]; by simplify_eq. Qed.
Lemma tick_demo_known : Forall (known tick_demo) [8; 7; 5; 6; 10].
Proof.
  repeat constructor; try done; [exists demo_thread, (mkProcess KERNEL 3 0)|exists demo_thread, (mkProcess KERNEL 3 0)|
    exists demo_thread, (mkProcess KERNEL 3 0)|exists demo_thread, (mkProcess KERNEL 3 0)|exists sleeper, (mkProcess KERNEL 3 0)]; by vm_compute.
Qed.
Lemma tick_demo_wf : wf tick_demo.
Proof.
  constructor.
  - intros i c [[_ ->]|[_ ->]]%tick_demo_cpu.
    + split; [destruct demo_ok; by constructor|]. constructor; [done|by exists demo_thread|done|done].
    + split; [exact second_ok|]. constructor; [done|by exists demo_thread|done|done].
  - intros i j c d [[-> ->]|[-> ->]]%tick_demo_cpu [[-> ->]|[-> ->]]%tick_demo_cpu Hid; done.
  - rewrite tick_demo_held. apply (bool_decide_unpack _). by vm_compute.
  - rewrite tick_demo_held. apply Forall_forall, tick_demo_known.
  - intros i c Hc. rewrite tick_demo_held. destruct (tick_demo_cpu i c Hc) as [[_ ->]|[_ ->]]; apply (bool_decide_unpack _); by vm_compute.
  - intros t _. change (elsewhere tick_demo) with (@nil Z). apply not_elem_of_nil.
  - done.
Qed.

Lemma TimerTick_conserves_witness : wf tick_demo /\ runs (TimerTick 0 5) tick_demo (switched 0 tick_demo false).
Proof. split; [exact tick_demo_wf|]. apply (TimerTick_conserves 0 tick_demo busy 5); [exact tick_demo_wf|reflexivity|reflexivity]. Defined.

Lemma Yield_and_Sleep_conserve_witness : wf tick_demo /\
  runs (Yield_Internal (fun _ _ => ret tt) 0 true 0 true) tick_demo (switched 0 tick_demo false) /\
  runs (SleepCurrentThread (fun _ _ => ret tt) 0 3) tick_demo (switched 0 tick_demo false).
Proof.
  split; [exact tick_demo_wf|].
  apply (Yield_and_Sleep_conserve 0 tick_demo busy); [exact tick_demo_wf|reflexivity|reflexivity|discriminate|discriminate|reflexivity].
Defined.

(** The tick wakes the sleeper (it goes to the end of level 3), puts thread 8
    back behind it and serves level 15. *)
Example tick_demo_runs : exists s', TimerTick 0 20 tick_demo = Ok (Some 5, s') /\
  (queues <$> procs s' !! 0%nat) = Some (<[3%nat := [7; 10; 8]]> (<[15%nat := [6]]> (replicate NICE_LEVELS []))).
Proof. eexists. vm_compute. split; reflexivity. Qed.

(** A forced yield on the idle processor puts its idle thread into a ready list,
    where another processor may take it. *)
Example idle_yield_queues_idle : exists s', Yield_Internal (fun _ _ => ret tt) 1 true 0 false
    (at_cpu 1 (set_current 11 (set_isIdle true demo_second)) tick_demo) = Ok (Some 11, s') /\
  idle_ok (set_current 11 (set_isIdle true demo_second)) tick_demo /\
  (c_runCounts <$> procs s' !! 1%nat) = Some (<[3%nat := 1]> (replicate NICE_LEVELS 0)).
Proof. eexists. split; [vm_compute; reflexivity|split; [|reflexivity]]. constructor; [done|by exists demo_thread|done|done]. Qed.

End SchedulerTick.
