(* ===== verification/SemaphoreSpec.v ===== *)
(** * SemaphoreSpec.v: semaphores and mutexes (src/kernel/src/Scheduling/Semaphore.cpp)

    The steps are the critical sections of a semaphore's lock: a test, a signal,
    and, apart from the test that queued the thread, the saving of its registers
    and the yield. Between them anything may happen that leaves the semaphore
    alone: other threads run, other processors take them. Over all such
    interleavings a semaphore stays in its bounds, a thread that waits is
    never forgotten while units are left, and one that is used as a lock is held
    by no more threads than it has units. *)

From S2P Require Import Prelude Scheduler SchedulerSpec SchedulerTick.
#[local] Open Scope Z_scope.
#[local] Open Scope kernel_scope.

Module SemaphoreSpec.
Import Scheduler.

(** ** What the scheduler leaves alone *)

(** The computation changes no semaphore and does not start or stop the
    scheduler. *)
Definition frames {A} (m : M state A) : Prop := forall s a s', m s = Ok (a, s') ->
  semaphores s' = semaphores s /\ g_isRunning s' = g_isRunning s.

Lemma frames_bind {A B} (m : M state A) (k : A -> M state B) : frames m -> (forall a, frames (k a)) -> frames (bind m k).
Proof.
  intros Hm Hk s b s' (a & s1 & H1 & H2)%bind_Ok. destruct (Hm _ _ _ H1), (Hk _ _ _ _ H2). split; congruence.
Qed.
Lemma frames_ret {A} (a : A) : frames (ret a).
Proof. intros s b s' H. by injection H as <- <-. Qed.
Lemma frames_gets {A} (f : state -> A) : frames (gets f).
Proof. intros s b s' H. by injection H as <- <-. Qed.
Lemma frames_fail {A} e : frames (@fail state A e).
Proof. done. Qed.
Lemma frames_modify f : (forall s, semaphores (f s) = semaphores s /\ g_isRunning (f s) = g_isRunning s) -> frames (modify f).
Proof. intros Hf s b s' H. injection H as _ <-. apply Hf. Qed.
Lemma frames_assert b : frames (@assertM state b).
Proof. unfold assertM. destruct b; [apply frames_ret|apply frames_fail]. Qed.
Lemma frames_when b (m : M state unit) : frames m -> frames (whenM b m).
Proof. destruct b; [done|intros _; apply frames_ret]. Qed.
Lemma frames_cpu i : frames (cpu i).
Proof. intros s c s' H. unfold cpu in H. by destruct (procs s !! i); simplify_eq. Qed.
Lemma frames_thread_of t : frames (thread_of t).
Proof. intros s c s' H. unfold thread_of in H. destruct (t =? 0); [done|]. by destruct (threads s !! t); simplify_eq. Qed.
Lemma frames_process_of t : frames (process_of t).
Proof. intros s c s' H. unfold process_of in H. destruct (t =? 0); [done|]. by destruct (processes s !! t); simplify_eq. Qed.
Create HintDb frames.
#[local] Hint Resolve frames_ret frames_gets frames_fail frames_assert frames_cpu frames_thread_of frames_process_of : frames.

Ltac frame := repeat first
  [ progress eauto with frames
  | match goal with
    | |- frames (bind _ _) => apply frames_bind; [|intros ?]
    | |- frames (whenM _ _) => apply frames_when
    | |- frames (modify _) => apply frames_modify; done
    | |- frames (let '(_, _) := ?x in _) => destruct x
    | |- frames (if ?b then _ else _) => destruct b
    | |- frames (match ?x with _ => _ end) => destruct x
    end ].

Lemma frames_upd_cpu i f : frames (upd_cpu i f).
Proof. unfold upd_cpu. frame. Qed.
Lemma frames_upd_thread t f : frames (upd_thread t f).
Proof. unfold upd_thread. frame. Qed.
Lemma frames_emit e : frames (emit e).
Proof. unfold emit. frame. Qed.
#[local] Hint Resolve frames_upd_cpu frames_upd_thread frames_emit : frames.
Lemma frames_nice_of t : frames (nice_of t).
Proof. unfold nice_of. frame. Qed.
Lemma frames_ready i n : frames (ready i n).
Proof. unfold ready. frame. Qed.
Lemma frames_set_ready i n l : frames (set_ready i n l).
Proof. apply frames_upd_cpu. Qed.
#[local] Hint Resolve frames_nice_of frames_ready frames_set_ready : frames.
Lemma frames_lock_ready i n : frames (lock_ready i n).
Proof. unfold lock_ready. frame. Qed.
Lemma frames_unlock_ready i n : frames (unlock_ready i n).
Proof. unfold unlock_ready. frame. Qed.
Lemma frames_unlinked t : frames (unlinked t).
Proof. unfold unlinked. frame. Qed.
#[local] Hint Resolve frames_unlinked : frames.
Lemma frames_pushBack t l : frames (pushBack t l).
Proof. unfold pushBack. frame. Qed.
Lemma frames_runCount i n : frames (runCount i n).
Proof. unfold runCount. frame. Qed.
Lemma frames_set_runCount i n v : frames (set_runCount i n v).
Proof. apply frames_upd_cpu. Qed.
Lemma frames_acquire_cpuInfo t : frames (acquire_cpuInfo t).
Proof. unfold acquire_cpuInfo. frame. Qed.
Lemma frames_acquire_cpu i : frames (acquire_cpu i).
Proof. unfold acquire_cpu. frame. Qed.
#[local] Hint Resolve frames_lock_ready frames_unlock_ready frames_pushBack frames_runCount frames_set_runCount
  frames_acquire_cpuInfo frames_acquire_cpu : frames.
Lemma frames_enqueue i n t : frames (enqueue i n t).
Proof. unfold enqueue. frame. Qed.
Lemma frames_place i n t : frames (place i n t).
Proof. unfold place, release_cpuInfo. frame. Qed.
#[local] Hint Resolve frames_enqueue frames_place : frames.
Lemma frames_AddExistingThread me t : frames (AddExistingThread me t).
Proof. unfold AddExistingThread. frame. Qed.
Lemma frames_RemoveCurrentThread me b : frames (RemoveCurrentThread me b).
Proof. unfold RemoveCurrentThread, release_cpu. frame. Qed.

Lemma frames_scan n : forall src cur i t k, frames (scan n src cur i t k).
Proof. induction n as [|n IH]; intros src cur i t k; cbn [scan]; [apply frames_ret|]. frame; apply IH. Qed.
#[local] Hint Resolve frames_scan : frames.
Lemma frames_steal_from me id l : frames (steal_from me id l).
Proof. induction l as [|i l IH]; cbn [steal_from]; frame. Qed.
#[local] Hint Resolve frames_steal_from : frames.
Lemma frames_reset_counts n : forall me i, frames (reset_counts n me i).
Proof. induction n as [|n IH]; intros me i; cbn [reset_counts]; [apply frames_ret|]. frame. Qed.
#[local] Hint Resolve frames_reset_counts : frames.
Lemma frames_PickNext me b : frames (PickNext me b).
Proof. unfold PickNext, StealThreadFromOther, release_cpuInfo, release_cpu. frame. Qed.
#[local] Hint Resolve frames_PickNext frames_AddExistingThread frames_RemoveCurrentThread : frames.

Section Semaphores.
Context (callback : Z -> Z -> M state unit) (Hcallback : forall f t, frames (callback f t)) (a : Z).

Lemma frames_Yield me b t i : frames (Yield_Internal callback me b t i).
Proof. unfold Yield_Internal, release_cpu, lock_sleeping, run_current. frame. Qed.
#[local] Hint Resolve frames_Yield : frames.
Lemma frames_Wait_yield me t : frames (Wait_yield callback me t).
Proof. unfold Wait_yield. frame. Qed.

(** ** What the operations do *)

Lemma sem_Ok s x s' : sem a s = Ok (x, s') -> s' = s /\ semaphores s !! a = Some x.
Proof. unfold sem. destruct (semaphores s !! a); [|done]. intros H. by simplify_eq. Qed.
Lemma upd_sem_Ok s f u s' : upd_sem a f s = Ok (u, s') ->
  exists x, semaphores s !! a = Some x /\ semaphores s' !! a = Some (f x) /\ g_isRunning s' = g_isRunning s.
Proof.
  intros (x & s1 & [-> Hx]%sem_Ok & H)%bind_Ok. injection H as _ <-. exists x. split; [done|]. cbn. by rewrite lookup_insert_eq.
Qed.
Lemma acquire_sem_Ok s u s' : acquire_sem a s = Ok (u, s') -> exists x, semaphores s !! a = Some x /\
  semaphores s' !! a = Some (mkSemaphore (m_value x) (m_maxValue x) (m_waitingThreads x) true) /\ g_isRunning s' = g_isRunning s.
Proof.
  intros (x & s1 & [-> Hx]%sem_Ok & H)%bind_Ok. destruct (m_lock x); [done|].
  apply upd_sem_Ok in H as (y & Hy & Hs' & Hr). exists x. by simplify_eq.
Qed.

(** The semaphore when its lock is free. *)
Definition value_of (s : state) : Z := default 0 (m_value <$> semaphores s !! a).
Definition max_of (s : state) : Z := default 0 (m_maxValue <$> semaphores s !! a).
Definition queue_of (s : state) : list Z := default [] (m_waitingThreads <$> semaphores s !! a).

(** [Wait] takes a unit, or leaves the value at 0 and the caller in the queue,
    which takes that the scheduler runs. *)
Inductive wait_effect (s s' : state) : waited -> Prop :=
  | wait_taken : 0 < value_of s -> value_of s' = value_of s - 1 -> queue_of s' = queue_of s -> wait_effect s s' Taken
  | wait_spins : value_of s <= 0 -> value_of s' = value_of s -> queue_of s' = queue_of s -> wait_effect s s' Spins
  | wait_queued t : value_of s <= 0 -> value_of s' = value_of s -> queue_of s' = queue_of s ++ [t] ->
      g_isRunning s = true -> wait_effect s s' (Queued t).

Lemma Wait_effect me s r s' : Wait me a s = Ok (r, s') ->
  wait_effect s s' r /\ max_of s' = max_of s /\ g_isRunning s' = g_isRunning s.
Proof.
  unfold Wait. intros ([] & s1 & (x & Hx & Hx1 & Hr1)%acquire_sem_Ok & H)%bind_Ok.
  apply bind_Ok in H as (x1 & s2 & [-> Hx2]%sem_Ok & H). rewrite Hx1 in Hx2. simplify_eq. cbn in H.
  destruct (0 <? m_value x) eqn:Ev; zb.
  - apply bind_Ok in H as ([] & s2 & (y & Hy & Hy2 & Hr2)%upd_sem_Ok & H).
    apply bind_Ok in H as ([] & s3 & (z & Hz & Hz3 & Hr3)%upd_sem_Ok & H). injection H as <- <-. simplify_eq. cbn in Hz3.
    split; [|split; [unfold max_of; by rewrite Hz3, Hx|congruence]].
    apply wait_taken; unfold value_of, queue_of; by rewrite ?Hz3, Hx.
  - unfold Wait_block in H. apply bind_Ok in H as (b & s2 & Hb & H). injection Hb as <- <-.
    apply bind_Ok in H as (c & s2 & Hc & H). apply frames_cpu in Hc as [Es2 Er2]. destruct (g_isRunning s1 && _) eqn:Erun.
    + apply andb_true_iff in Erun as [Erun _].
      apply bind_Ok in H as (t & s3 & [Es3 Er3]%frames_RemoveCurrentThread & H).
      apply bind_Ok in H as ([] & s4 & [Es4 Er4]%frames_assert & H). apply bind_Ok in H as ([] & s5 & [Es5 Er5]%frames_upd_thread & H).
      apply bind_Ok in H as ([] & s7 & [Es7 Er7]%frames_unlinked & H).
      apply bind_Ok in H as ([] & s6 & (y & s6' & [-> Hy]%sem_Ok & (z & Hz & Hz6 & Hr6)%upd_sem_Ok)%bind_Ok & H).
      apply bind_Ok in H as ([] & s8 & (z8 & Hz8 & Hz8' & Hr8)%upd_sem_Ok & H). injection H as <- <-.
      rewrite Es7, Es5, Es4, Es3, Es2, Hx1 in Hy. simplify_eq. rewrite Es7, Es5, Es4, Es3, Es2, Hx1 in Hz. simplify_eq. cbn in Hz8'.
      split; [|split; [unfold max_of; by rewrite Hz8', Hx|congruence]].
      apply wait_queued; [| | |congruence]; unfold value_of, queue_of; by rewrite ?Hz8', Hx.
    + apply bind_Ok in H as ([] & s3 & (z & Hz & Hz3 & Hr3)%upd_sem_Ok & H). injection H as <- <-. rewrite Es2, Hx1 in Hz. simplify_eq. cbn in Hz3.
      split; [|split; [unfold max_of; by rewrite Hz3, Hx|congruence]].
      apply wait_spins; unfold value_of, queue_of; by rewrite ?Hz3, Hx.
Qed.

(** [Signal] adds a unit unless there are as many as there may be, and then
    wakes the first waiter if the scheduler runs. *)
Definition signal_effect (s s' : state) : Prop :=
  if value_of s <? max_of s then
    value_of s' = value_of s + 1 /\
    queue_of s' = (if g_isRunning s then tail (queue_of s) else queue_of s)
  else value_of s' = value_of s /\ queue_of s' = queue_of s.

Lemma wake_first_Ok me s u s' : wake_first me a s = Ok (u, s') -> exists x, semaphores s !! a = Some x /\
  semaphores s' !! a = Some (set_waiting (tail (m_waitingThreads x)) x) /\ g_isRunning s' = g_isRunning s.
Proof.
  intros (x & s1 & [-> Hx]%sem_Ok & H)%bind_Ok. destruct (m_waitingThreads x) as [|t rest] eqn:El; [done|].
  apply bind_Ok in H as ([] & s2 & (y & Hy & Hy2 & Hr2)%upd_sem_Ok & H). apply bind_Ok in H as ([] & s3 & [Es3 Er3]%frames_upd_thread & H).
  apply bind_Ok in H as (b & s4 & [Es4 Er4]%frames_AddExistingThread & [Es5 Er5]%frames_assert).
  exists x. simplify_eq. split_and!; [done|by rewrite Es5, Es4, Es3, El|congruence].
Qed.

Lemma Signal_effect me s u s' : Signal me a s = Ok (u, s') ->
  signal_effect s s' /\ max_of s' = max_of s /\ g_isRunning s' = g_isRunning s.
Proof.
  unfold Signal. intros ([] & s1 & (x & Hx & Hx1 & Hr1)%acquire_sem_Ok & H)%bind_Ok.
  apply bind_Ok in H as (x1 & s2 & [-> Hx2]%sem_Ok & H). rewrite Hx1 in Hx2. simplify_eq. cbn in H.
  apply bind_Ok in H as ([] & s3 & H3 & (z & Hz & Hz' & Hr4)%upd_sem_Ok).
  unfold signal_effect, value_of, max_of, queue_of. rewrite Hz', Hx. cbn. destruct (m_value x <? m_maxValue x); cbn [whenM] in H3.
  - apply bind_Ok in H3 as ([] & s4 & (y & Hy & Hy4 & Hr5)%upd_sem_Ok & H3). apply bind_Ok in H3 as (b & s5 & Hb & H3).
    injection Hb as <- <-. rewrite Hx1 in Hy. simplify_eq. cbn in Hy4. rewrite Hr5, Hr1 in H3.
    destruct (g_isRunning s && negb (bool_decide (m_waitingThreads x = []))) eqn:Eb; cbn [whenM] in H3.
    + apply wake_first_Ok in H3 as (w & Hw & Hw3 & Hr6). rewrite Hy4 in Hw. simplify_eq. cbn.
      apply andb_true_iff in Eb as [Er _]. split_and!; [done|by rewrite Er|done|congruence].
    + injection H3 as <-. rewrite Hy4 in Hz. simplify_eq. cbn. split_and!; [done| |done|congruence].
      destruct (g_isRunning s); [|done]. cbn in Eb. apply negb_false_iff, bool_decide_eq_true in Eb. by rewrite Eb.
  - injection H3 as <-. rewrite Hx1 in Hz. simplify_eq. cbn. split_and!; [done..|congruence].
Qed.

(** ** Interleavings *)

(** A state of the system with the threads that have been woken and have not
    tested the semaphore again, the threads that have taken a unit and not given
    it back, and the threads that are queued by a processor that has not yet
    saved their registers, each with its processor. *)
Record config : Type := mkConfig { cf_state : state; cf_woken : list Z; cf_holders : list Z; cf_unsaved : list (nat * Z) }.

Definition took (t : Z) (r : waited) (h : list Z) : list Z := match r with Taken => t :: h | _ => h end.
Definition unsaved (me : nat) (r : waited) (p : list (nat * Z)) : list (nat * Z) := match r with Queued t => (me, t) :: p | _ => p end.

(** [owners]: the semaphore is used as a lock, only threads that hold a unit
    signal. A processor that has to save a thread has its interrupts disabled
    and does nothing else. *)
Inductive step (owners : bool) : config -> config -> Prop :=
  | step_wait me t s r s' w h p :
      me ∉ p.*1 -> Wait me a s = Ok (r, s') ->
      step owners (mkConfig s w h p) (mkConfig s' w (took t r h) (unsaved me r p))
  | step_retry me t s r s' w h p :
      me ∉ p.*1 -> t ∉ p.*2 -> t ∈ w -> Wait me a s = Ok (r, s') ->
      step owners (mkConfig s w h p) (mkConfig s' (without t w) (took t r h) (unsaved me r p))
  | step_signal me t s s' w h p :
      me ∉ p.*1 -> (owners = true -> t ∈ h) -> Signal me a s = Ok (tt, s') ->
      step owners (mkConfig s w h p)
        (mkConfig s' (w ++ take (length (queue_of s) - length (queue_of s')) (queue_of s)) (without t h) p)
  | step_yield me t s next s' w h p q :
      Wait_yield callback me t s = Ok (next, s') ->
      step owners (mkConfig s w h (p ++ (me, t) :: q)) (mkConfig s' w h (p ++ q))
  | step_other s s' w h p :
      semaphores s' !! a = semaphores s !! a -> (g_isRunning s = true -> g_isRunning s' = true) ->
      step owners (mkConfig s w h p) (mkConfig s' w h p).

Record consistent (owners : bool) (m : Z) (c : config) : Prop := {
  cs_max : max_of (cf_state c) = m;
  cs_bounds : 0 <= value_of (cf_state c) <= max_of (cf_state c);
  cs_woken : queue_of (cf_state c) <> [] ->
    g_isRunning (cf_state c) = true /\ value_of (cf_state c) <= Z.of_nat (length (cf_woken c));
  cs_units : owners = true -> value_of (cf_state c) + Z.of_nat (length (cf_holders c)) = max_of (cf_state c)
}.

Lemma length_without t l : t ∈ l -> length l = S (length (without t l)).
Proof.
  induction l as [|y l IH]; intros Hin; [by apply elem_of_nil in Hin|]. cbn. destruct (Z.eqb_spec y t) as [->|Hne]; [done|].
  apply elem_of_cons in Hin as [|Hin]; [done|]. cbn. by rewrite IH.
Qed.

Lemma consistent_wait owners m me t s r s' w w' h p p' : Wait me a s = Ok (r, s') -> consistent owners m (mkConfig s w h p) ->
  Z.of_nat (length w) - 1 <= Z.of_nat (length w') -> consistent owners m (mkConfig s' w' (took t r h) p').
Proof.
  intros (He & Hm & Hr)%Wait_effect [Hx Hb Hw Hu] Hlen. cbn in *.
  destruct He as [Hv Hv' Hq'|Hv Hv' Hq'|t' Hv Hv' Hq' Hrun]; constructor; cbn; rewrite ?Hv', ?Hq', ?Hm, ?Hr; try lia.
  - intros Hne. destruct (Hw Hne). split; [done|lia].
  - intros Ho. specialize (Hu Ho). lia.
  - intros Hne. destruct (Hw Hne). split; [done|lia].
  - done.
  - split; [done|lia].
  - done.
Qed.

Lemma consistent_signal owners m me t s s' w h p : Signal me a s = Ok (tt, s') -> (owners = true -> t ∈ h) ->
  consistent owners m (mkConfig s w h p) ->
  consistent owners m (mkConfig s' (w ++ take (length (queue_of s) - length (queue_of s')) (queue_of s)) (without t h) p).
Proof.
  intros (He & Hm & Hr)%Signal_effect Hown [Hx Hb Hw Hu]. cbn in *. unfold signal_effect in He.
  assert (Hh : owners = true -> Z.of_nat (length h) = Z.of_nat (length (without t h)) + 1).
  { intros Ho. rewrite (length_without t h) by auto. lia. }
  destruct (Z.ltb_spec (value_of s) (max_of s)) as [Hlt|Hge]; destruct He as [Hv' Hq']; constructor; cbn; rewrite ?Hv', ?Hm, ?Hr; try lia.
  - rewrite Hq'. destruct (queue_of s) as [|t0 q] eqn:Eq; [by destruct (g_isRunning s)|].
    intros Hne. destruct Hw as [Hrun Hle]; [done|]. rewrite Hrun in *. cbn in *. split; [done|].
    rewrite length_app, length_take, length_cons. lia.
  - intros Ho. specialize (Hh Ho). specialize (Hu Ho). lia.
  - rewrite Hq', Nat.sub_diag. cbn. rewrite app_nil_r. exact Hw.
  - intros Ho. specialize (Hh Ho). specialize (Hu Ho). lia.
Qed.

Lemma consistent_frame owners m s s' w h p p' : semaphores s' !! a = semaphores s !! a -> (g_isRunning s = true -> g_isRunning s' = true) ->
  consistent owners m (mkConfig s w h p) -> consistent owners m (mkConfig s' w h p').
Proof.
  intros Hs Hrun [Hx Hb Hw Hu]. unfold value_of, max_of, queue_of in *. cbn in *.
  constructor; unfold value_of, max_of, queue_of; cbn; rewrite ?Hs; try done.
  intros Hne. destruct (Hw Hne). by split; [apply Hrun|].
Qed.

Lemma step_consistent owners m c c' : step owners c c' -> consistent owners m c -> consistent owners m c'.
Proof.
  intros [me t s r s' w h p _ Hr|me t s r s' w h p _ _ Hin Hr|me t s s' w h p _ Hown Hr|me t s next s' w h p q Hy|s s' w h p Hs Hrun] Hc.
  - eapply consistent_wait; [exact Hr|exact Hc|lia].
  - eapply consistent_wait; [exact Hr|exact Hc|]. rewrite (length_without t w Hin). lia.
  - by eapply consistent_signal.
  - apply frames_Wait_yield in Hy as [Es Er]. eapply consistent_frame; [by rewrite Es|by rewrite Er|exact Hc].
  - by eapply consistent_frame.
Qed.

Lemma steps_consistent owners m c c' : rtc (step owners) c c' -> consistent owners m c -> consistent owners m c'.
Proof. induction 1; [done|]. intros Hc. eauto using step_consistent. Qed.

(** A semaphore nobody waits for. *)
Lemma fresh_consistent owners v m s : semaphores s !! a = Some (mkSemaphore v m [] false) -> 0 <= v <= m ->
  (owners = true -> v = m) -> consistent owners m (mkConfig s [] [] []).
Proof.
  intros Hs Hv Ho. constructor; unfold value_of, max_of, queue_of; cbn; rewrite Hs; cbn; [done|done|done|]. intros H. rewrite (Ho H). lia.
Qed.

(** C9: no wake-up of a semaphore is lost. The steps are the critical sections
    of the lock, [Wait_block] and [Wait_yield] apart, so a [Signal] may come
    after a thread is queued and before its registers are saved. However they
    and everything else interleave, the value stays between 0 and its maximum,
    and while threads are queued every unit that is left is matched by a thread
    that [Signal] has taken out of the queue and made ready and that has not
    tested the semaphore since. (A thread that is woken before its registers are
    saved counts as woken; [woken_before_saved] shows that this can happen.) *)
Theorem Semaphore_no_lost_wakeup v m s c : semaphores s !! a = Some (mkSemaphore v m [] false) -> 0 <= v <= m ->
  rtc (step false) (mkConfig s [] [] []) c ->
  0 <= value_of (cf_state c) <= m /\
  (queue_of (cf_state c) <> [] -> value_of (cf_state c) <= Z.of_nat (length (cf_woken c))).
Proof.
  intros Hs Hv Hsteps. destruct (steps_consistent false m _ _ Hsteps) as [Hm Hb Hw _]; [by eapply fresh_consistent|].
  rewrite Hm in Hb. split; [done|]. intros Hne. by apply Hw.
Qed.

(** A semaphore that is used as a lock is one: when it starts with all its
    units and only threads that hold a unit signal, then in every interleaving
    the threads that hold one are at most as many as its units, so a [Mutex] is
    held by at most one thread. *)
Theorem Semaphore_mutual_exclusion m s c : semaphores s !! a = Some (mkSemaphore m m [] false) -> 0 <= m ->
  rtc (step true) (mkConfig s [] [] []) c -> Z.of_nat (length (cf_holders c)) = m - value_of (cf_state c) /\
  Z.of_nat (length (cf_holders c)) <= m.
Proof.
  intros Hs Hv Hsteps. destruct (steps_consistent true m _ _ Hsteps) as [Hm Hb _ Hu]; [by eapply fresh_consistent|].
  rewrite Hm in *. specialize (Hu eq_refl). lia.
Qed.
End Semaphores.

(** *** Witnesses *)

(** A mutex at address 100: thread 8 locks it, thread 5 runs, has to wait and is
    queued; before its registers are saved thread 8 unlocks the mutex on the
    other processor; then the first processor saves and yields. *)
Definition no_callback : Z -> Z -> M state unit := fun _ _ => ret tt.
Lemma no_callback_frames f t : frames (no_callback f t).
Proof. apply frames_ret. Qed.
Definition lock_demo : state := set_semaphores {[100 := Mutex]} SchedulerTick.tick_demo.
Definition run {A} (m : M state A) (s : state) : state := match m s with Ok (_, s') => s' | Fail _ => s end.
Definition locked_state : state := run (Wait 0 100) lock_demo.
Definition yielded : state := run (Yield_Internal no_callback 0 true 0 true) locked_state.
Definition blocked : state := run (Wait 0 100) yielded.
Definition unlocked_state : state := run (Signal 1 100) blocked.
Definition saved_state : state := run (Wait_yield no_callback 0 5) unlocked_state.

(** A signal comes between the release of the semaphore's lock and the saving
    of the registers: the thread is woken, and in a ready list, while its
    registers are still those of an earlier time. *)
Lemma woken_before_saved owners :
  rtc (step no_callback 100 owners) (mkConfig lock_demo [] [] []) (mkConfig unlocked_state [5] [] [(0%nat, 5)]).
Proof.
  eapply rtc_l; [apply (step_wait _ _ _ 0 8 lock_demo Taken locked_state); [by apply not_elem_of_nil|vm_compute; reflexivity]|].
  eapply rtc_l; [apply (step_other _ _ _ locked_state yielded); [vm_compute; reflexivity|vm_compute; intros _; reflexivity]|].
  eapply rtc_l; [apply (step_wait _ _ _ 0 5 yielded (Queued 5) blocked); [by apply not_elem_of_nil|vm_compute; reflexivity]|].
  eapply rtc_l; [apply (step_signal _ _ _ 1 8 blocked unlocked_state); [cbn; set_solver|intros _; cbn; set_solver|vm_compute; reflexivity]|].
  replace (mkConfig unlocked_state _ _ _) with (mkConfig unlocked_state [5] [] [(0%nat, 5)]) by (f_equal; vm_compute; reflexivity). apply rtc_refl.
Qed.

Lemma lock_demo_steps owners : rtc (step no_callback 100 owners) (mkConfig lock_demo [] [] []) (mkConfig saved_state [5] [] []).
Proof.
  eapply rtc_r; [apply woken_before_saved|].
  apply (step_yield no_callback 100 owners 0 5 unlocked_state (Some 6) saved_state [5] [] [] []). vm_compute. reflexivity.
Qed.

Lemma Semaphore_no_lost_wakeup_witness :
  semaphores lock_demo !! 100 = Some (mkSemaphore 1 1 [] false) /\ 0 <= value_of 100 saved_state <= 1.
Proof.
  split; [vm_compute; reflexivity|].
  apply (Semaphore_no_lost_wakeup no_callback no_callback_frames 100 1 1 lock_demo (mkConfig saved_state [5] [] []));
    [vm_compute; reflexivity|split; discriminate|apply lock_demo_steps].
Defined.

Lemma Semaphore_mutual_exclusion_witness :
  semaphores lock_demo !! 100 = Some (mkSemaphore 1 1 [] false) /\ value_of 100 saved_state = 1 /\ 0 = 1 - value_of 100 saved_state.
Proof.
  split; [vm_compute; reflexivity|split; [vm_compute; reflexivity|]].
  apply (Semaphore_mutual_exclusion no_callback no_callback_frames 100 1 lock_demo (mkConfig saved_state [5] [] []));
    [vm_compute; reflexivity|discriminate|apply lock_demo_steps].
Defined.

End SemaphoreSpec.
