(* ===== verification/TempFS.v ===== *)
(** * TempFS.v: vnodes and the memory file system (src/kernel/src/fs/TempFS/TempFS.cpp)

    The only file system of the kernel keeps its files in blocks of kernel
    memory, found by page number in a tree, and the entries of a directory in a
    linked list. Pointers to vnodes and file systems are numbers, 0 is null.
    Memory for the blocks comes from [VMM::AllocMemObjAnonPages], which is
    reached through the interface [BlockMemory]. *)

From S2P Require Import Prelude AVLTree FileDescriptor FDManager.
#[local] Open Scope Z_scope.
#[local] Open Scope kernel_scope.

Module TempFS.
Export AVLTree.AVLTree.
Import FileDescriptor(ESUCCESS, EINVAL, ENOTDIR, ENOSYS).
Import FDManager(ENOMEM).

Definition ENOENT : Z := 2.
Definition ERANGE : Z := 34.
Definition ENAMETOOLONG : Z := 36.
Definition NAME_MAX : Z := 255.
Definition ROOT_DIR_MODE : Z := 493.

(** ** Data *)

Inductive FSType : Set := FS_TempFS | FS_Invalid.
Inductive VType : Set := NON | REG | DIR | BLK | CHR | LNK | SOCK | FIFO | BAD.
#[global] Instance VType_eq_dec : EqDecision VType.
Proof. solve_decision. Defined.
#[global] Instance FSType_eq_dec : EqDecision FSType.
Proof. solve_decision. Defined.

Record Credential : Type := mkCred { euid : Z; egid : Z }.

Record VAttr : Type := mkAttr {
  a_type : VType;
  a_mode : Z;
  a_uid : Z;
  a_gid : Z;
  a_fsid : FSType;
  a_inode : Z;
  a_nlinks : Z;
  a_size : Z;
  a_fsBlockSize : Z;
  a_atime : Z;
  a_mtime : Z;
  a_ctime : Z;
  a_blocks : Z
}.
Definition set_size (v : Z) (x : VAttr) : VAttr := mkAttr (a_type x) (a_mode x) (a_uid x) (a_gid x) (a_fsid x) (a_inode x)
  (a_nlinks x) v (a_fsBlockSize x) (a_atime x) (a_mtime x) (a_ctime x) (a_blocks x).
Definition set_blockSize (v : Z) (x : VAttr) : VAttr := mkAttr (a_type x) (a_mode x) (a_uid x) (a_gid x) (a_fsid x) (a_inode x)
  (a_nlinks x) (a_size x) v (a_atime x) (a_mtime x) (a_ctime x) (a_blocks x).
Definition set_blocks (v : Z) (x : VAttr) : VAttr := mkAttr (a_type x) (a_mode x) (a_uid x) (a_gid x) (a_fsid x) (a_inode x)
  (a_nlinks x) (a_size x) (a_fsBlockSize x) (a_atime x) (a_mtime x) (a_ctime x) v.

(** A block: where it is mapped, its pages and the bytes they hold. *)
Record Block : Type := mkBlock { b_addr : Z; b_pages : Z; b_data : list Z }.

(** The members of [VNode] and [TempFSVNode]; [m_name] is [None] for null. *)
Record VNode : Type := mkVNode {
  m_attr : VAttr;
  m_lock : bool;
  m_refCount : Z;
  m_vfs : Z;
  m_vfsMounted : Z;
  m_parent : Z;
  m_name : option (list Z);
  m_nameLen : Z;
  m_memObj : Z;
  m_defaultProt : Z;
  m_blocks : tree Block;
  m_children : list Z
}.
Record VFS : Type := mkVFS { m_type : FSType; m_next : Z; m_nodeCovered : Z; m_root : Z; m_flags : Z }.

Definition set_attr v n := mkVNode v (m_lock n) (m_refCount n) (m_vfs n) (m_vfsMounted n) (m_parent n) (m_name n) (m_nameLen n)
  (m_memObj n) (m_defaultProt n) (m_blocks n) (m_children n).
Definition set_lock v n := mkVNode (m_attr n) v (m_refCount n) (m_vfs n) (m_vfsMounted n) (m_parent n) (m_name n) (m_nameLen n)
  (m_memObj n) (m_defaultProt n) (m_blocks n) (m_children n).
Definition set_refCount v n := mkVNode (m_attr n) (m_lock n) v (m_vfs n) (m_vfsMounted n) (m_parent n) (m_name n) (m_nameLen n)
  (m_memObj n) (m_defaultProt n) (m_blocks n) (m_children n).
Definition set_file o p b n := mkVNode (m_attr n) (m_lock n) (m_refCount n) (m_vfs n) (m_vfsMounted n) (m_parent n) (m_name n)
  (m_nameLen n) o p b (m_children n).
Definition set_children v n := mkVNode (m_attr n) (m_lock n) (m_refCount n) (m_vfs n) (m_vfsMounted n) (m_parent n) (m_name n)
  (m_nameLen n) (m_memObj n) (m_defaultProt n) (m_blocks n) v.

(** What a file uses of the memory manager: [AllocMemObjAnonPages] of a number
    of pages for a vnode gives an address, the bytes there and the memory
    object, or nothing. *)
Class BlockMemory (E : Type) : Type := {
  AllocMemObjAnonPages : Z -> Z -> Z -> Z -> E -> option (Z * list Z * Z) * E;
  (* pages, object, offset, hint, protection, user, flags: address or 0 *)
  AllocateBackedPages : Z -> Z -> Z -> Z -> Z -> bool -> Z -> E -> Z * E
}.

Section Model.
Context {E : Type} `{BlockMemory E}.

Record state : Type := mk { vnodes : gmap Z VNode; vfss : gmap Z VFS; g_rootVFS : Z; env : E }.
Definition set_vnodes v s := mk v (vfss s) (g_rootVFS s) (env s).
Definition set_vfss v s := mk (vnodes s) v (g_rootVFS s) (env s).
Definition set_env v s := mk (vnodes s) (vfss s) (g_rootVFS s) v.

Definition ld_vnode (v : Z) : M state VNode := fun s =>
  if v =? 0 then Fail NullDereference else match vnodes s !! v with Some n => Ok (n, s) | None => Fail InvalidAccess end.
Definition upd_vnode (v : Z) (f : VNode -> VNode) : M state unit :=
  let* n := ld_vnode v in modify (fun s => set_vnodes (<[v := f n]> (vnodes s)) s).
Definition ld_vfs (v : Z) : M state VFS := fun s =>
  if v =? 0 then Fail NullDereference else match vfss s !! v with Some x => Ok (x, s) | None => Fail InvalidAccess end.

(** [memcpy(dst + i, src + j, n)] inside the two buffers. *)
Definition memcpy (dst : list Z) (i : Z) (src : list Z) (j n : Z) : M state (list Z) :=
  if (i + n <=? Z.of_nat (length dst)) && (j + n <=? Z.of_nat (length src)) then
    ret (take (Z.to_nat i) dst ++ take (Z.to_nat n) (drop (Z.to_nat j) src) ++ drop (Z.to_nat (i + n)) dst)
  else fail InvalidAccess.

(** ** Blocks *)

(** [CreateBlock]; the key of the new block is [offset]. *)
Definition CreateBlock (node offset pages : Z) : M state (option Block) :=
  let* n := ld_vnode node in
  let* r := (fun s => let (r, e) := AllocMemObjAnonPages pages node offset (m_memObj n) (env s) in Ok (r, set_env e s)) in
  match r with
  | None => ret None
  | Some (addr, data, obj) =>
      let block := mkBlock addr pages data in
      upd_vnode node (fun n => set_file obj 3 (snd (Insert offset block (m_blocks n))) n) ;;;
      ret (Some block)
  end.

(** The block that holds page [blockNum]. *)
Definition covering (blockNum : Z) (t : tree Block) : option (Z * Block) :=
  match FindNodeOrLower blockNum t with
  | Some (key, b) => if add64 key (b_pages b) <=? blockNum then None else Some (key, b)
  | None => None
  end.
(** The next block, unless it lies behind the request. *)
Definition following (blockNum limit : Z) (t : tree Block) : option (Z * Block) :=
  match FindNodeOrHigher blockNum t with
  | Some (key, b) => if limit <=? key then None else Some (key, b)
  | None => None
  end.

(** ** [TempFSVNode::Read] *)

Fixpoint Read_loop (fuel : nat) (node size offset read : Z) (out : list Z) : M state (Z * Z * list Z) :=
  match fuel with
  | O => fail OutOfFuel
  | S fuel' =>
      if size <=? read then ret (ESUCCESS, read, out) else
      let* n := ld_vnode node in
      if a_size (m_attr n) <=? add64 offset read then ret (ESUCCESS, read, out) else
      let blockNum := add64 offset read / PAGE_SIZE in
      let blockOffset := add64 offset read mod PAGE_SIZE in
      match covering blockNum (m_blocks n) with
      | Some (key, b) =>
          let readSize := Z.min (sub64 size read) (mul64 (sub64 (b_pages b) (sub64 blockNum key)) PAGE_SIZE) in
          let* out := memcpy out read (b_data b) (add64 (mul64 (sub64 blockNum key) PAGE_SIZE) blockOffset) readSize in
          Read_loop fuel' node size offset (add64 read readSize) out
      | None =>
          match following blockNum (add64 offset size) (m_blocks n) with
          | None =>
              let* b := CreateBlock node blockNum (DIV_ROUNDUP (sub64 size read) PAGE_SIZE) in
              match b with
              | None => ret (- ENOMEM, read, out)
              | Some b =>
                  let* out := memcpy out read (b_data b) blockOffset (sub64 size read) in
                  ret (ESUCCESS, size, out)
              end
          | Some (nextKey, next) =>
              let* b := CreateBlock node blockNum (sub64 nextKey blockNum) in
              match b with
              | None => ret (- ENOMEM, read, out)
              | Some b =>
                  let* out := memcpy out read (b_data b) blockOffset (mul64 (b_pages b) PAGE_SIZE) in
                  let read := add64 read (mul64 (b_pages b) PAGE_SIZE) in
                  let readSize := Z.min (sub64 size read) (mul64 (b_pages next) PAGE_SIZE) in
                  let* out := memcpy out read (b_data next) 0 readSize in
                  let read := add64 read readSize in
                  if read =? size then ret (ESUCCESS, read, out)
                  else Read_loop fuel' node size offset read out
              end
          end
      end
  end.

(** The result, the number of bytes read and the buffer. *)
Definition Read (node : Z) (out : list Z) (size offset : Z) : M state (Z * Z * list Z) :=
  let* n := ld_vnode node in
  if a_size (m_attr n) <=? offset then ret (- EINVAL, 0, out) else
  let size := if a_size (m_attr n) <? add64 offset size then sub64 (a_size (m_attr n)) offset else size in
  Read_loop (S (Z.to_nat size)) node size offset 0 out.

(** ** [TempFSVNode::Write] *)

(** Bytes are stored into the block with key [key]. *)
Definition store_block (node key i : Z) (src : list Z) (j n : Z) : M state unit :=
  let* v := ld_vnode node in
  match RB_FIND key (m_blocks v) with
  | None => fail InvalidAccess
  | Some b =>
      let* data := memcpy (b_data b) i src j n in
      upd_vnode node (fun v => set_file (m_memObj v) (m_defaultProt v)
        (set_value key (mkBlock (b_addr b) (b_pages b) data) (m_blocks v)) v)
  end.

Fixpoint Write_loop (fuel : nat) (node : Z) (src : list Z) (size offset written : Z) : M state (Z * Z) :=
  match fuel with
  | O => fail OutOfFuel
  | S fuel' =>
      if size <=? written then ret (ESUCCESS, written) else
      let blockNum := add64 offset written / PAGE_SIZE in
      let blockOffset := add64 offset written mod PAGE_SIZE in
      let* n := ld_vnode node in
      if a_blocks (m_attr n) <=? add64 offset written then
        let* b := CreateBlock node blockNum (DIV_ROUNDUP (sub64 size written) PAGE_SIZE) in
        match b with
        | None => ret (- ENOMEM, written)
        | Some _ =>
            store_block node blockNum blockOffset src written (sub64 size written) ;;;
            upd_vnode node (fun n => set_attr
              (set_blocks (add64 (a_blocks (m_attr n)) (ALIGN_UP (sub64 size written) PAGE_SIZE))
                (set_size (add64 (a_size (m_attr n)) (sub64 size written)) (m_attr n))) n) ;;;
            ret (ESUCCESS, size)
        end
      else
        match covering blockNum (m_blocks n) with
        | Some (key, b) =>
            let writeSize := Z.min (sub64 size written) (mul64 (sub64 (b_pages b) (sub64 blockNum key)) PAGE_SIZE) in
            store_block node key (add64 (mul64 (sub64 blockNum key) PAGE_SIZE) blockOffset) src written
              (sub64 writeSize blockOffset) ;;;
            Write_loop fuel' node src size offset (add64 written writeSize)
        | None =>
            match following blockNum (add64 offset size) (m_blocks n) with
            | None =>
                let* b := CreateBlock node blockNum (DIV_ROUNDUP (sub64 size written) PAGE_SIZE) in
                match b with
                | None => ret (- ENOMEM, written)
                | Some _ =>
                    store_block node blockNum blockOffset src written (sub64 (sub64 size written) blockOffset) ;;;
                    ret (ESUCCESS, size)
                end
            | Some (nextKey, next) =>
                let* b := CreateBlock node blockNum (sub64 nextKey blockNum) in
                match b with
                | None => ret (- ENOMEM, written)
                | Some b =>
                    store_block node blockNum blockOffset src written (sub64 (mul64 (b_pages b) PAGE_SIZE) blockOffset) ;;;
                    let written := add64 written (mul64 (b_pages b) PAGE_SIZE) in
                    let writeSize := Z.min (sub64 size written) (mul64 (b_pages next) PAGE_SIZE) in
                    store_block node nextKey 0 src written writeSize ;;;
                    let written := add64 written writeSize in
                    if written =? size then ret (ESUCCESS, written)
                    else Write_loop fuel' node src size offset written
                end
            end
        end
  end.
Definition Write (node : Z) (src : list Z) (size offset : Z) : M state (Z * Z) :=
  Write_loop (S (Z.to_nat size)) node src size offset 0.

(** ** Directories *)

(** The children of a node have a spinlock of their own, which is free between
    operations. The [Enumerate] of the list does not look at the result of the
    callback: the last child that fits is found. *)
Fixpoint find_child (cs : list Z) (name : list Z) (nameLen found : Z) : M state Z :=
  match cs with
  | [] => ret found
  | c :: cs' =>
      if c =? 0 then find_child cs' name nameLen found else
      let* n := ld_vnode c in
      if (m_nameLen n =? nameLen) && bool_decide (default [] (m_name n) = name) then find_child cs' name nameLen c
      else find_child cs' name nameLen found
  end.
(** [name] is null or the characters at the pointer. *)
Definition Lookup (node : Z) (name : option (list Z)) (nameLen : Z) : M state (Z * Z) :=
  match name with
  | None => ret (- EINVAL, 0)
  | Some name =>
      if nameLen =? 0 then ret (- EINVAL, 0) else
      let* n := ld_vnode node in
      let* c := find_child (m_children n) (take (Z.to_nat (Z.min nameLen (Z.of_nat (length name)))) name) nameLen 0 in
      ret (if negb (c =? 0) then (ESUCCESS, c) else (- ENOENT, 0))
  end.

Definition Create (node parent : Z) (name : option (list Z)) (nameLen : Z) (attr : option VAttr) : M state Z :=
  match attr with
  | None => ret (- EINVAL)
  | Some attr =>
      if negb (parent =? 0) && (bool_decide (name = None) || (nameLen =? 0)) then ret (- EINVAL) else
      let* n := ld_vnode node in
      let newName := match name with Some x => Some (take (Z.to_nat nameLen) x) | None => m_name n end in
      let newLen := match name with Some _ => nameLen | None => m_nameLen n end in
      upd_vnode node (fun n => mkVNode (set_blockSize PAGE_SIZE (set_size 0 attr)) (m_lock n) (1 + 1) (m_vfs n) 0 (m_parent n)
        newName newLen (m_memObj n) (m_defaultProt n) (m_blocks n) (m_children n)) ;;;
      whenM (negb (parent =? 0)) (upd_vnode parent (fun p => set_children (m_children p ++ [node]) p)) ;;;
      upd_vnode node (fun n => mkVNode (m_attr n) (m_lock n) (m_refCount n) (m_vfs n) (m_vfsMounted n) parent (m_name n)
        (m_nameLen n) (m_memObj n) (m_defaultProt n) (m_blocks n) (m_children n)) ;;;
      whenM (negb (parent =? 0)) (upd_vnode parent (fun p => set_refCount (m_refCount p + 1) p)) ;;;
      ret ESUCCESS
  end.

Definition GetAttr (node : Z) : M state (Z * VAttr) := let* n := ld_vnode node in ret (ESUCCESS, m_attr n).
Definition SetAttr (node : Z) (attr : VAttr) : M state Z := upd_vnode node (set_attr attr) ;;; ret ESUCCESS.

(** [VNode::Lock] and [VNode::Unlock]: the mutex of the node. *)
Definition Lock (node : Z) : M state unit :=
  let* n := ld_vnode node in if m_lock n then fail LockHeld else upd_vnode node (set_lock true).
Definition Unlock (node : Z) : M state unit := upd_vnode node (set_lock false).

Record Dentry : Type := mkDentry { d_inode : Z; d_offset : Z; d_recordLen : Z; d_type : Z; d_name : list Z }.

Definition VFS_GetPosixType (t : VType) : Z :=
  match t with NON => 0 | REG => 8 | DIR => 4 | BLK => 6 | CHR => 2 | LNK => 10 | SOCK => 12 | FIFO => 1 | BAD => 0 end.

(** The callback for child number [i]; [read] entries of the buffer are filled. *)
Fixpoint fill_dents (cs : list Z) (i stop count : Z) (buffer : list Dentry) : M state (list Dentry) :=
  match cs with
  | [] => ret buffer
  | c :: cs' =>
      if stop =? i then ret buffer else
      Lock c ;;;
      let* n := ld_vnode c in
      let read := Z.of_nat (length buffer) in
      if (count <=? read) || (NAME_MAX <? m_nameLen n) then fail InvalidAccess else
      let buffer := buffer ++ [mkDentry (a_inode (m_attr n)) read 280 (VFS_GetPosixType (a_type (m_attr n))) (default [] (m_name n))] in
      Unlock c ;;;
      fill_dents cs' (i + 1) stop count buffer
  end.
(** The entries and their number; the buffer has room for [count]. *)
Definition GetDents (node count offset : Z) : M state (Z * list Dentry * Z) :=
  let* n := ld_vnode node in
  if Z.of_nat (length (m_children n)) <=? offset then ret (ESUCCESS, [], 0) else
  let* l := fill_dents (drop (Z.to_nat offset) (m_children n)) offset (add64 offset count) count [] in
  ret (0, l, Z.of_nat (length l)).

(** [obj] is [false] for a null pointer; the result and the memory object. *)
Definition Mmap (node offset size : Z) (obj : bool) : M state (Z * Z) :=
  let* n := ld_vnode node in
  if (a_blocks (m_attr n) <? add64 offset size) || negb obj || (size =? 0) || negb (offset mod PAGE_SIZE =? 0) ||
     negb (size mod PAGE_SIZE =? 0) then ret (- EINVAL, 0) else
  if negb (m_memObj n =? 0) then ret (ESUCCESS, m_memObj n) else
  if isEmpty (m_blocks n) then ret (- EINVAL, 0) else
  let* b := CreateBlock node 0 1 in
  let* n := ld_vnode node in
  match b with
  | None => ret (- ENOMEM, 0)
  | Some _ => ret (if m_memObj n =? 0 then (- ENOMEM, 0) else (ESUCCESS, m_memObj n))
  end.

(** The characters copied to the buffer of [size] bytes, and their number. *)
Definition GetName (node size : Z) : M state (Z * list Z * Z) :=
  let* n := ld_vnode node in
  if size <=? m_nameLen n then ret (- ERANGE, [], 0)
  else ret (ESUCCESS, take (Z.to_nat (m_nameLen n)) (default [] (m_name n)), m_nameLen n).

Definition GetAddr (node offset : Z) : M state Z :=
  let* n := ld_vnode node in
  match FindNodeOrLower offset (m_blocks n) with
  | None => ret 0
  | Some (key, b) =>
      if add64 key (mul64 (b_pages b) PAGE_SIZE) <=? offset then ret 0 else ret (add64 (b_addr b) (sub64 offset key))
  end.
Definition GetDefaultProt (node : Z) : M state Z := let* n := ld_vnode node in ret (m_defaultProt n).

(** The operations that are not implemented. *)
Definition not_implemented : Z := - ENOSYS.

(** ** Nodes and the file system *)

(** [new TempFSVNode(vfs)] at address [node]. *)
Definition new_vnode (node vfs : Z) : M state unit := modify (fun s => set_vnodes (<[node :=
  mkVNode (mkAttr BAD 0 0 0 FS_Invalid (-1) 0 0 0 0 0 0 0) false 0 vfs 0 0 None 0 0 0 [] []]> (vnodes s)) s).
Definition delete_vnode (node : Z) : M state unit := modify (fun s => set_vnodes (delete node (vnodes s)) s).

Definition RefVNode (node : Z) : M state unit := upd_vnode node (fun n => set_refCount (m_refCount n + 1) n).
Definition UnrefVNode (node : Z) : M state unit :=
  upd_vnode node (fun n => set_refCount (m_refCount n - 1) n) ;;;
  let* n := ld_vnode node in
  whenM (m_refCount n =? 0) (delete_vnode node).

(** [TempFS::Mount] of the file system [vfs]; [root] is the address of the new
    node. *)
Definition Mount (vfs root : Z) (cred : Credential) : M state Z :=
  let attr := mkAttr DIR ROOT_DIR_MODE (euid cred) (egid cred) FS_TempFS (-1) 0 0 PAGE_SIZE 0 0 0 0 in
  new_vnode root vfs ;;;
  let* rc := Create root 0 None 0 (Some attr) in
  if rc <? 0 then delete_vnode root ;;; ret rc else
  RefVNode root ;;;
  let* v := ld_vfs vfs in
  modify (fun s => set_vfss (<[vfs := mkVFS (m_type v) 0 0 root 0]> (vfss s)) s) ;;;
  ret ESUCCESS.
End Model.
End TempFS.
