(* ===== verification/VFS.v ===== *)
(** * VFS.v: paths (src/kernel/src/fs/VFS.cpp)

    Paths are sequences of characters without a terminating zero; a pointer into
    one is an index. [VFS_LookupPath] walks down from the root or the working
    directory, [VFS_BuildPath] up from a node. *)

From S2P Require Import Prelude AVLTree FileDescriptor FDManager TempFS.
#[local] Open Scope Z_scope.
#[local] Open Scope kernel_scope.

Module VFS.
Export TempFS.TempFS.
Import FileDescriptor(ESUCCESS, EINVAL, ENOTDIR, ENOSYS).
Import FDManager(ENOMEM).

Definition SLASH : Z := 47.
Definition DOT : Z := 46.
Definition DEFAULT_DIR_MODE : Z := 493.
Definition DEFAULT_FILE_MODE : Z := 420.

(** ** Strings *)

(** The character at an index; zero at the end. *)
Definition char_at (path : list Z) (i : Z) : Z := nth (Z.to_nat i) path 0.
(** [strchr] from an index. *)
Fixpoint index_of (ch : Z) (l : list Z) : option Z :=
  match l with [] => None | x :: l' => if x =? ch then Some 0 else Z.succ <$> index_of ch l' end.
Definition strchr (path : list Z) (i ch : Z) : option Z := (fun j => i + j) <$> index_of ch (drop (Z.to_nat i) path).
Definition strlen (path : list Z) (i : Z) : Z := Z.of_nat (length path) - i.

Section Model.
Context {E : Type} `{BlockMemory E}.
Notation state := (@state E).

(** ** [VFS_LookupPath] *)

(** A node that a file system is mounted on stands for the root of that. *)
Definition cross (vnode vfs : Z) : M state (Z * Z) :=
  let* n := ld_vnode vnode in
  if negb (m_vfsMounted n =? 0) then let* v := ld_vfs (m_vfsMounted n) in ret (m_root v, m_vfsMounted n)
  else ret (vnode, vfs).

Definition is_dir (vnode : Z) : M state bool :=
  let* n := ld_vnode vnode in ret (bool_decide (a_type (m_attr n) = DIR)).

(** One segment of [len] characters at index [cur]: the next node and file
    system, or an error. *)
Definition segment (path : list Z) (cur len vnode vfs : Z) : M state (sum Z (Z * Z)) :=
  if (len =? 2) && (char_at path cur =? DOT) && (char_at path (cur + 1) =? DOT) then
    let* d := is_dir vnode in
    if negb d then ret (inl (- ENOTDIR)) else
    let* n := ld_vnode vnode in
    if negb (m_parent n =? 0) then ret (inr (m_parent n, vfs)) else
    let* v := ld_vfs vfs in
    if m_nodeCovered v =? 0 then ret (inl (- ENOENT)) else
    let* p := ld_vnode (m_nodeCovered v) in
    ret (inr (m_nodeCovered v, m_vfs p))
  else if negb ((len =? 1) && (char_at path cur =? DOT)) then
    let* d := is_dir vnode in
    if negb d then ret (inl (- ENOTDIR)) else
    let* (rc, nextVNode) := Lookup vnode (Some (drop (Z.to_nat cur) path)) len in
    if rc <? 0 then ret (inl rc) else ret (inr (nextVNode, vfs))
  else ret (inr (vnode, vfs)).

(** The loop: an error, or the node and file system it ends with. [next] is the
    index of the next slash. *)
Fixpoint LookupPath_loop (fuel : nat) (path : list Z) (cur : Z) (next : option Z) (vnode vfs : Z) : M state (sum Z (Z * Z)) :=
  match fuel with
  | O => fail OutOfFuel
  | S fuel' =>
      if (vfs =? 0) || (vnode =? 0) then ret (inl (- ENOSYS)) else
      let* (vnode, vfs) := cross vnode vfs in
      let cur := if char_at path cur =? SLASH then cur + 1 else cur in
      if char_at path cur =? 0 then ret (inr (vnode, vfs)) else
      match next with
      | None =>
          let len := strlen path cur in
          if char_at path (cur + len - 1) =? SLASH then ret (inr (vnode, vfs)) else
          let* d := is_dir vnode in
          if negb d then ret (inl (- ENOTDIR)) else
          let* (rc, nextVNode) := Lookup vnode (Some (drop (Z.to_nat cur) path)) len in
          if rc <? 0 then ret (inl rc) else
          let* n := ld_vnode nextVNode in
          ret (inr (nextVNode, m_vfs n))
      | Some next =>
          let* r := segment path cur (sub64 next cur) vnode vfs in
          match r with
          | inl rc => ret (inl rc)
          | inr (vnode, vfs) =>
              let cur := if char_at path next =? SLASH then next + 1 else next in
              LookupPath_loop fuel' path cur (strchr path cur SLASH) vnode vfs
          end
      end
  end.

(** [path] is [None] for null, and so for [cwd]. The result and, on success, the
    node and its file system. *)
Definition VFS_LookupPath (path : option (list Z)) (cwd : Z) : M state (Z * Z * Z) :=
  match path with
  | None => ret (- EINVAL, 0, 0)
  | Some path =>
      let* root := gets g_rootVFS in
      let* r := ld_vfs root in
      let* start :=
        (if negb (char_at path 0 =? SLASH) && negb (char_at path 0 =? 0) then
           if cwd =? 0 then ret (inl (- EINVAL)) else
           let* n := ld_vnode cwd in
           if negb (m_vfsMounted n =? 0) then let* v := ld_vfs (m_vfsMounted n) in ret (inr (m_root v, m_vfsMounted n, 0))
           else ret (inr (cwd, m_vfs n, 0))
         else ret (inr (m_root r, root, if char_at path 0 =? SLASH then 1 else 0))) in
      match start with
      | inl rc => ret (rc, 0, 0)
      | inr (vnode, vfs, cur) =>
          if char_at path cur =? 0 then ret (ESUCCESS, vnode, vfs) else
          let* r := LookupPath_loop (S (length path)) path cur (strchr path cur SLASH) vnode vfs in
          match r with
          | inl rc => ret (rc, 0, 0)
          | inr (vnode, vfs) => let* (vnode, vfs) := cross vnode vfs in ret (ESUCCESS, vnode, vfs)
          end
      end
  end.

(** ** Files and directories *)

(** [VFS_CreateDir] and [VFS_CreateFile]; [node] is the address of the new node. *)
Definition create (type : VType) (mode : Z) (path name : option (list Z)) (cwd : Z) (cred : Credential) (node : Z) : M state Z :=
  match path, name with
  | Some path, Some name =>
      let* (rc, parent, vfs) := VFS_LookupPath (Some path) cwd in
      if rc <? 0 then ret rc else
      let* v := ld_vfs vfs in
      if negb (bool_decide (m_type v = FS_TempFS)) then ret (- ENOSYS) else
      new_vnode node vfs ;;;
      let nameLen := Z.of_nat (length name) in
      if NAME_MAX <? nameLen then delete_vnode node ;;; ret (- ENAMETOOLONG) else
      let* rc := Create node parent (Some name) nameLen
        (Some (mkAttr type mode (euid cred) (egid cred) (m_type v) (-1) 0 0 0 0 0 0 0)) in
      if rc <? 0 then delete_vnode node ;;; ret rc else ret ESUCCESS
  | _, _ => ret (- EINVAL)
  end.
Definition VFS_CreateDir := create DIR DEFAULT_DIR_MODE.
Definition VFS_CreateFile := create REG DEFAULT_FILE_MODE.

(** [Open] and [Close] of a [TempFSVNode] succeed. *)
Definition VFS_Open (path : option (list Z)) (cwd : Z) : M state (Z * Z) :=
  match path with
  | None => ret (- EINVAL, 0)
  | Some path =>
      let* (rc, vnode, vfs) := VFS_LookupPath (Some path) cwd in
      if rc <? 0 then ret (rc, 0) else
      Lock vnode ;;;
      Unlock vnode ;;;
      RefVNode vnode ;;;
      ret (ESUCCESS, vnode)
  end.
Definition VFS_Close (vnode : Z) : M state Z :=
  if vnode =? 0 then ret (- EINVAL) else
  Lock vnode ;;;
  Unlock vnode ;;;
  UnrefVNode vnode ;;;
  ret ESUCCESS.

Definition VFS_Init : M state Z := modify (fun s => mk (vnodes s) (vfss s) 0 (env s)) ;;; ret ESUCCESS.
(** [vfs] and [root] are the addresses of the new file system and its root. *)
Definition VFS_MountRoot (type : FSType) (vfs root : Z) (cred : Credential) : M state Z :=
  match type with
  | FS_Invalid => fail NullDereference
  | FS_TempFS =>
      modify (fun s => set_vfss (<[vfs := mkVFS FS_TempFS 0 0 0 0]> (vfss s)) s) ;;;
      let* rc := Mount vfs root cred in
      if rc <? 0 then modify (fun s => set_vfss (delete vfs (vfss s)) s) ;;; ret rc else
      modify (fun s => mk (vnodes s) (vfss s) vfs (env s)) ;;;
      ret ESUCCESS
  end.

(** [VFS_MapFile]; the result and the address of the mapping. *)
Definition VFS_MapFile (hint length prot flags : Z) (user : bool) (vnode offset : Z) (addr vmm : bool) : M state (Z * Z) :=
  if negb vmm || (vnode =? 0) || negb addr then ret (- EINVAL, 0) else
  let* (rc, obj) := Mmap vnode offset length true in
  if rc <? 0 then ret (rc, 0) else
  let* pages := (fun s => let (p, e) := AllocateBackedPages (length / PAGE_SIZE) obj offset hint prot user flags (env s) in
                          Ok (p, set_env e s)) in
  ret (if pages =? 0 then (- ENOMEM, 0) else (ESUCCESS, pages)).

(** ** [VFS_BuildPath] *)

(** Writing characters at an index of the buffer. *)
Definition put (buf : list Z) (i : Z) (l : list Z) : list Z :=
  take (Z.to_nat i) buf ++ l ++ drop (Z.to_nat i + length l) buf.

(** The loop; [ptr] is an index into the buffer. *)
Fixpoint BuildPath_loop (fuel : nat) (root current ptr : Z) (buf : list Z) : M state (Z * Z * list Z) :=
  match fuel with
  | O => fail OutOfFuel
  | S fuel' =>
      if current =? root then ret (ESUCCESS, ptr, buf) else
      let* (rc, name, nameLen) := GetName current (NAME_MAX + 1) in
      if rc <? 0 then ret (rc, ptr, buf) else
      if ptr <? nameLen + 1 then ret (- ERANGE, ptr, buf) else
      let ptr := ptr - nameLen in
      let buf := put buf ptr name in
      let ptr := ptr - 1 in
      let buf := put buf ptr [SLASH] in
      let* n := ld_vnode current in
      let* parent :=
        (if negb (m_parent n =? 0) then ret (m_parent n) else
         if m_vfs n =? 0 then ret 0 else let* v := ld_vfs (m_vfs n) in ret (m_nodeCovered v)) in
      if parent =? 0 then ret (- ENOENT, ptr, buf) else
      BuildPath_loop fuel' root parent ptr buf
  end.

(** [buf] is the buffer of [size] bytes, [None] for null; [fuel] bounds the depth
    of the tree. *)
Definition VFS_BuildPath (fuel : nat) (vnode : Z) (buf : option (list Z)) : M state (Z * list Z) :=
  match buf with
  | None => ret (- EINVAL, [])
  | Some buf =>
      let size := Z.of_nat (length buf) in
      if (vnode =? 0) || (size =? 0) then ret (- EINVAL, buf) else
      let* rootVFS := gets g_rootVFS in
      if rootVFS =? 0 then ret (- ENOSYS, buf) else
      let* r := ld_vfs rootVFS in
      if m_root r =? 0 then ret (- ENOSYS, buf) else
      if vnode =? m_root r then
        if size <? 2 then ret (- ERANGE, buf) else ret (ESUCCESS, put buf 0 [SLASH; 0])
      else
        let* (rc, ptr, buf) := BuildPath_loop fuel (m_root r) vnode (size - 1) (put buf (size - 1) [0]) in
        if rc <? 0 then ret (rc, buf) else
        let pathLen := size - 1 - ptr in
        ret (ESUCCESS, put buf 0 (take (Z.to_nat (pathLen + 1)) (drop (Z.to_nat ptr) buf)))
  end.
End Model.
End VFS.
