(* ===== verification/VFSSpec.v ===== *)
(** * VFSSpec.v: names lead to nodes and back

    In a tree of directories whose entries have proper names, the path that
    [VFS_BuildPath] makes for a node is the path under which [VFS_LookupPath]
    finds it. *)

From S2P Require Import Prelude AVLTree FileDescriptor FDManager TempFS VFS.
#[local] Open Scope Z_scope.
#[local] Open Scope kernel_scope.

Module VFSSpec.
Import VFS.
Import FileDescriptor(ESUCCESS, EINVAL, ENOTDIR, ENOSYS).

(** ** The tree *)

(** A name that can be part of a path. *)
Record name_ok (n : list Z) : Prop := {
  no_nonempty : n <> [];
  no_slash : SLASH ∉ n;
  no_zero : 0 ∉ n;
  no_dot : n <> [DOT];
  no_dotdot : n <> [DOT; DOT];
  no_length : Z.of_nat (length n) <= NAME_MAX
}.

Section Tree.
Context {E : Type} `{BlockMemory E}.
Notation state := (@state E).
Context (s : state) (rv r : Z).

Definition named (n : list Z) (x : VNode) : Prop := m_name x = Some n /\ m_nameLen x = Z.of_nat (length n).

(** Directory [v] has the entry [c] under the name [n], and no other. *)
Record child_of (v : Z) (n : list Z) (c : Z) : Prop := {
  ch_dir : exists x, vnodes s !! v = Some x /\ v <> 0 /\ a_type (m_attr x) = DIR /\ m_vfsMounted x = 0 /\ c ∈ m_children x /\
    (forall d, d ∈ m_children x -> d <> 0 /\ exists y, vnodes s !! d = Some y /\ (named n y -> d = c));
  ch_node : exists y, vnodes s !! c = Some y /\ c <> 0 /\ named n y /\ m_parent y = v /\ m_vfsMounted y = 0 /\ m_vfs y = rv;
  ch_name : name_ok n
}.

(** The file system: its root and the nodes below it, by the names on the way. *)
Record root_ok : Prop := {
  rt_vfs : g_rootVFS s = rv /\ rv <> 0 /\ r <> 0;
  rt_root : exists x, vfss s !! rv = Some x /\ m_root x = r;
  rt_node : exists x, vnodes s !! r = Some x /\ m_vfsMounted x = 0 /\ m_parent x = 0
}.
Inductive reaches : Z -> list (list Z) -> Prop :=
  | reaches_root : reaches r []
  | reaches_child v names n c : reaches v names -> child_of v n c -> reaches c (names ++ [n]).

(** Downwards. *)
Inductive leads : Z -> list (list Z) -> Z -> Prop :=
  | leads_here v : leads v [] v
  | leads_down v n c names w : child_of v n c -> leads c names w -> leads v (n :: names) w.

Lemma leads_snoc v names w n c : leads v names w -> child_of w n c -> leads v (names ++ [n]) c.
Proof. induction 1; cbn; eauto using leads. Qed.
Lemma reaches_leads v names : reaches v names -> leads r names v.
Proof. induction 1; [constructor|]. by eapply leads_snoc. Qed.

Definition path_tail (names : list (list Z)) : list Z := concat ((fun n => SLASH :: n) <$> names).
Definition path_of (names : list (list Z)) : list Z := match names with [] => [SLASH] | _ => path_tail names end.

(** ** Finding an entry *)

Lemma ld_vnode_runs v x (Q : VNode -> state -> Prop) : v <> 0 -> vnodes s !! v = Some x -> Q x s -> runs (ld_vnode v) s Q.
Proof. intros Hv Hx HQ. exists x, s. unfold ld_vnode. by rewrite (proj2 (Z.eqb_neq v 0)), Hx. Qed.
Lemma ld_vfs_runs v x (Q : VFS -> state -> Prop) : v <> 0 -> vfss s !! v = Some x -> Q x s -> runs (ld_vfs v) s Q.
Proof. intros Hv Hx HQ. exists x, s. unfold ld_vfs. by rewrite (proj2 (Z.eqb_neq v 0)), Hx. Qed.

Lemma find_child_runs cs n c found (Q : Z -> state -> Prop) : n <> [] ->
  (forall d, d ∈ cs -> d <> 0 /\ exists y, vnodes s !! d = Some y /\ (named n y <-> d = c)) ->
  (c ∈ cs -> Q c s) -> (c ∉ cs -> Q found s) -> runs (find_child cs n (Z.of_nat (length n)) found) s Q.
Proof.
  intros Hn0. revert found. induction cs as [|d cs IH]; intros found Hall Hin Hout; cbn [find_child].
  { apply runs_ret, Hout, not_elem_of_nil. }
  assert (Hall' : forall d', d' ∈ cs -> d' <> 0 /\ exists y, vnodes s !! d' = Some y /\ (named n y <-> d' = c))
    by (intros d' Hd'; apply Hall; apply elem_of_cons; by right).
  assert (Hin' : c ∈ cs -> Q c s) by (intros Hc; apply Hin, elem_of_cons; by right).
  destruct (Hall d) as (Hd & y & Hy & Hn); [apply elem_of_cons; by left|]. rewrite (proj2 (Z.eqb_neq d 0)) by done. mstep.
  apply (ld_vnode_runs d y); [done..|].
  assert (Hiff : ((m_nameLen y =? Z.of_nat (length n)) && bool_decide (default [] (m_name y) = n)) = true <->
    m_nameLen y = Z.of_nat (length n) /\ default [] (m_name y) = n) by (rewrite andb_true_iff, Z.eqb_eq, bool_decide_eq_true; done).
  destruct (decide (d = c)) as [->|Hne].
  - destruct (proj2 Hn eq_refl) as [En El]. rewrite (proj2 Hiff) by (by rewrite En).
    apply IH; [done|done|intros _; apply Hin, elem_of_cons; by left].
  - case_match eqn:Eb.
    + destruct (proj1 Hiff eq_refl) as [El En]. destruct (m_name y) as [n'|] eqn:Em; cbn in En; [|congruence].
      exfalso. apply Hne, Hn. split; congruence.
    + apply IH; [done|done|]. intros Hc. apply Hout. intros [?|?]%elem_of_cons; [congruence|done].
Qed.

(** [Lookup] in a directory. *)
Lemma Lookup_runs v n c l (Q : Z * Z -> state -> Prop) : child_of v n c -> take (length n) l = n ->
  Q (ESUCCESS, c) s -> runs (Lookup v (Some l) (Z.of_nat (length n))) s Q.
Proof.
  intros [(x & Hx & Hv & _ & _ & Hc & Hall) (y & Hy & Hc0 & Hnm & _) Hn] Hl HQ. unfold Lookup.
  pose proof (no_nonempty _ Hn) as Hne. destruct (Z.eqb_spec (Z.of_nat (length n)) 0) as [E0|_]; [destruct n; done|].
  assert (length n <= length l)%nat by (rewrite <- Hl, length_take; lia).
  mstep. apply (ld_vnode_runs v x); [done..|]. mstep. rewrite Z.min_l, Nat2Z.id, Hl by lia.
  apply (find_child_runs _ _ c); [done| | |done].
  - intros d Hd. destruct (Hall d Hd) as (Hd0 & z & Hz & Hun). split; [done|]. exists z. split; [done|]. split; [done|].
    intros ->. rewrite Hy in Hz. by simplify_eq.
  - intros _. rewrite (proj2 (Z.eqb_neq c 0)) by done. by apply runs_ret.
Qed.

(** ** Walking down *)

Lemma index_of_none ch l : ch ∉ l -> index_of ch l = None.
Proof.
  induction l as [|x l IH]; intros Hnot; [done|]. apply not_elem_of_cons in Hnot as [Hne Hnot]. cbn.
  rewrite (proj2 (Z.eqb_neq x ch)) by done. by rewrite IH.
Qed.
Lemma index_of_app ch l l' : ch ∉ l -> index_of ch (l ++ ch :: l') = Some (Z.of_nat (length l)).
Proof.
  induction l as [|x l IH]; intros Hnot; cbn; [by rewrite Z.eqb_refl|]. apply not_elem_of_cons in Hnot as [Hne Hnot].
  rewrite (proj2 (Z.eqb_neq x ch)) by done. rewrite IH by done. cbn. f_equal. lia.
Qed.
Lemma char_at_drop path cur l k : 0 <= cur -> 0 <= k -> drop (Z.to_nat cur) path = l -> char_at path (cur + k) = nth (Z.to_nat k) l 0.
Proof.
  intros Hc Hk <-. unfold char_at. rewrite !nth_lookup, lookup_drop. do 2 f_equal. lia.
Qed.
Lemma name_char n k : name_ok n -> (k < length n)%nat -> nth k n 0 <> SLASH /\ nth k n 0 <> 0.
Proof.
  intros Hn Hk. destruct (lookup_lt_is_Some_2 n k Hk) as [x Hx]. rewrite (nth_lookup_Some _ _ 0 _ Hx).
  pose proof (list_elem_of_lookup_2 _ _ _ Hx). split; intros ->; [by apply (no_slash _ Hn)|by apply (no_zero _ Hn)].
Qed.

(** The state of the walk: a name of the path starts at the index. *)
Lemma walk_chars path cur n rest : name_ok n -> 0 <= cur -> drop (Z.to_nat cur) path = n ++ path_tail rest ->
  char_at path cur <> SLASH /\ char_at path cur <> 0 /\
  ((Z.of_nat (length n) =? 2) && (char_at path cur =? DOT) && (char_at path (cur + 1) =? DOT)) = false /\
  ((Z.of_nat (length n) =? 1) && (char_at path cur =? DOT)) = false.
Proof.
  intros Hn Hcur Hd. pose proof (char_at_drop path cur _ 0 Hcur ltac:(lia) Hd) as H0. rewrite Z.add_0_r in H0.
  pose proof (char_at_drop path cur _ 1 Hcur ltac:(lia) Hd) as H1.
  change (Z.to_nat 0) with 0%nat in H0. change (Z.to_nat 1) with 1%nat in H1.
  destruct n as [|x n]; [by destruct Hn|]. destruct (name_char _ 0 Hn) as [Hs Hz]; [cbn; lia|]. cbn in H0, Hs, Hz. rewrite H0.
  split_and!; [done|done| |].
  - destruct n as [|y [|z n]]; [done| |by rewrite (proj2 (Z.eqb_neq _ 2)) by (rewrite !length_cons; lia)].
    cbn in H1. rewrite H1. destruct (Z.eqb_spec x DOT) as [->|]; [|by rewrite andb_false_r].
    destruct (Z.eqb_spec y DOT) as [->|]; [|by rewrite andb_false_r]. by destruct Hn.
  - destruct n as [|y n]; [|by rewrite (proj2 (Z.eqb_neq _ 1)) by (rewrite !length_cons; lia)].
    destruct (Z.eqb_spec x DOT) as [->|]; [|by rewrite andb_false_r]. by destruct Hn.
Qed.

Lemma walk_next path cur n rest : name_ok n -> 0 <= cur -> drop (Z.to_nat cur) path = n ++ path_tail rest ->
  strchr path cur SLASH = match rest with [] => None | _ => Some (cur + Z.of_nat (length n)) end.
Proof.
  intros Hn Hcur Hd. unfold strchr. rewrite Hd. destruct rest as [|m rest]; cbn.
  - rewrite app_nil_r. by rewrite index_of_none by apply Hn.
  - by rewrite index_of_app by apply Hn.
Qed.

(** A node without a mounted file system. *)
Lemma cross_runs v x vfs (Q : Z * Z -> state -> Prop) : v <> 0 -> vnodes s !! v = Some x -> m_vfsMounted x = 0 -> Q (v, vfs) s ->
  runs (cross v vfs) s Q.
Proof. intros Hv Hx Hm HQ. unfold cross. mstep. apply (ld_vnode_runs v x); [done..|]. rewrite Hm. by apply runs_ret. Qed.
Lemma is_dir_runs v x (Q : bool -> state -> Prop) : v <> 0 -> vnodes s !! v = Some x -> a_type (m_attr x) = DIR -> Q true s ->
  runs (is_dir v) s Q.
Proof. intros Hv Hx Hm HQ. unfold is_dir. mstep. apply (ld_vnode_runs v x); [done..|]. rewrite Hm. by apply runs_ret. Qed.

Lemma segment_runs path cur n rest v c (Q : Z + Z * Z -> state -> Prop) : child_of v n c -> 0 <= cur ->
  drop (Z.to_nat cur) path = n ++ path_tail rest -> Q (inr (c, rv)) s ->
  runs (segment path cur (Z.of_nat (length n)) v rv) s Q.
Proof.
  intros Hch Hcur Hd HQ. pose proof Hch as [(x & Hx & Hv & Hdir & Hm & _) _ Hn].
  destruct (walk_chars _ _ _ _ Hn Hcur Hd) as (_ & _ & E1 & E2). unfold segment. rewrite E1, E2. cbn [negb].
  mstep. apply (is_dir_runs v x); [done..|]. cbn [negb]. mstep.
  apply (Lookup_runs v n c); [done|rewrite Hd; by rewrite take_app_length|]. cbn. by apply runs_ret.
Qed.

Lemma LookupPath_loop_runs names : forall fuel path cur v n w (Q : Z + Z * Z -> state -> Prop), rv <> 0 ->
  leads v (n :: names) w -> 0 <= cur -> drop (Z.to_nat cur) path = n ++ path_tail names -> (length names < fuel)%nat ->
  Z.of_nat (length path) < 2 ^ 63 ->
  Q (inr (w, rv)) s -> runs (LookupPath_loop fuel path cur (strchr path cur SLASH) v rv) s Q.
Proof.
  induction names as [|m names IH]; intros fuel path cur v n w Q Hrv Hl Hcur Hd Hf Hlen HQ;
    inversion Hl as [|? ? c ? ? Hch Hl']; subst; destruct fuel as [|fuel]; [cbn in *; lia| |cbn in *; lia|];
    pose proof Hch as [(x & Hx & Hv & Hdir & Hm & _) (y & Hy & Hc0 & _ & _ & _ & Hvfs) Hn]; rewrite (walk_next _ _ _ _ Hn Hcur Hd);
    destruct (walk_chars _ _ _ _ Hn Hcur Hd) as (C1 & C2 & _); cbn [LookupPath_loop];
    rewrite (proj2 (Z.eqb_neq rv 0)), (proj2 (Z.eqb_neq v 0)) by done; cbn [orb]; mstep;
    apply (cross_runs v x); try done; rewrite (proj2 (Z.eqb_neq _ SLASH) C1), (proj2 (Z.eqb_neq _ 0) C2).
  - inversion Hl'; subst. cbn in Hd. rewrite app_nil_r in Hd.
    pose proof (no_nonempty _ Hn) as Hne. assert (length n <> 0)%nat by (by destruct n).
    assert (Hlen' : strlen path cur = Z.of_nat (length n)).
    { pose proof (f_equal length Hd) as HL. rewrite length_drop in HL. unfold strlen. lia. }
    rewrite Hlen'.
    replace (cur + Z.of_nat (length n) - 1) with (cur + (Z.of_nat (length n) - 1)) by lia.
    rewrite (char_at_drop path cur n) by (done || lia). destruct (name_char n (Z.to_nat (Z.of_nat (length n) - 1)) Hn) as [Hs _]; [lia|].
    rewrite (proj2 (Z.eqb_neq _ SLASH) Hs). mstep. apply (is_dir_runs v x); [done..|]. cbn [negb]. mstep.
    apply (Lookup_runs v n w); [done|rewrite Hd; by apply take_ge|]. cbn. mstep. apply (ld_vnode_runs w y); [done..|].
    apply runs_ret. by rewrite Hvfs.
  - assert (Hlp : (Z.to_nat cur + length n < length path)%nat).
    { apply (f_equal length) in Hd. rewrite length_drop, length_app in Hd. cbn [path_tail fmap list_fmap concat app length] in Hd. lia. }
    rewrite sub64_small by lia. replace (cur + Z.of_nat (length n) - cur) with (Z.of_nat (length n)) by lia.
    mstep. apply (segment_runs _ _ _ (m :: names) v c); [done..|].
    rewrite (char_at_drop path cur _ (Z.of_nat (length n)) Hcur ltac:(lia) Hd), Nat2Z.id. cbn [path_tail fmap list_fmap concat app].
    rewrite nth_middle, Z.eqb_refl.
    eapply (IH fuel path _ c m w); [done|done|lia| |cbn in Hf; lia|done|done].
    replace (Z.to_nat (cur + Z.of_nat (length n) + 1)) with (Z.to_nat cur + (length n + 1))%nat by lia.
    rewrite <- drop_drop, Hd, <- drop_drop, drop_app_length. done.
Qed.

Lemma LookupPath_runs v names cwd : root_ok -> reaches v names -> Z.of_nat (length (path_of names)) < 2 ^ 63 ->
  runs (VFS_LookupPath (Some (path_of names)) cwd) s (fun res s' => s' = s /\ res = (ESUCCESS, v, rv)).
Proof.
  intros [(Hg & Hrv & Hr) (fs & Hfs & Hroot) (x & Hx & Hm & _)] Hre Hlen. unfold VFS_LookupPath. mstep. mstep. rewrite Hg. mstep.
  apply (ld_vfs_runs rv fs); [done..|]. rewrite Hroot.
  assert (H0 : char_at (path_of names) 0 = SLASH) by (by destruct names). rewrite H0. cbn [Z.eqb negb andb]. rewrite Z.eqb_refl. cbn [negb andb].
  mstep. apply runs_ret. pose proof (reaches_leads _ _ Hre) as Hl. destruct names as [|n names].
  - inversion Hl; subst. cbn. apply runs_ret. done.
  - inversion Hl as [|? ? c ? ? Hch Hl']; subst. pose proof Hch as [_ _ Hn].
    assert (Hd : drop (Z.to_nat 1) (path_of (n :: names)) = n ++ path_tail names) by done.
    destruct (walk_chars _ 1 _ _ Hn ltac:(lia) Hd) as (_ & C2 & _). rewrite (proj2 (Z.eqb_neq _ 0) C2). mstep.
    apply (LookupPath_loop_runs names _ _ _ _ n v); try done.
    + assert (length names <= length (path_tail names))%nat; [|cbn; rewrite length_app; unfold path_tail in *; lia].
      clear. induction names as [|m names IH]; [done|]. cbn. rewrite length_app. unfold path_tail in IH. lia.
    + mstep. assert (Hv : exists y, vnodes s !! v = Some y /\ v <> 0 /\ m_vfsMounted y = 0).
      { inversion Hre as [|w ns m ? ? Hlast]. destruct Hlast as [_ (y & Hy & Hc & _ & _ & Hmt & _) _]. eauto. }
      destruct Hv as (y & Hy & Hv0 & Hmt). apply (cross_runs v y); [done..|]. by apply runs_ret.
Qed.

(** The path without the slash in front, from the root as working directory. *)
Definition join (names : list (list Z)) : list Z := tail (path_tail names).

Lemma LookupPath_join_runs v n names x : root_ok -> vnodes s !! r = Some x -> m_vfs x = rv -> reaches v (n :: names) ->
  Z.of_nat (length (join (n :: names))) < 2 ^ 63 ->
  runs (VFS_LookupPath (Some (join (n :: names))) r) s (fun res s' => s' = s /\ res = (ESUCCESS, v, rv)).
Proof.
  intros [(Hg & Hrv & Hr) (fs & Hfs & Hroot) (x0 & Hx & Hm & _)] Hx' Hvf Hre Hlen. rewrite Hx in Hx'. simplify_eq.
  unfold VFS_LookupPath. mstep. mstep. rewrite Hg. mstep. apply (ld_vfs_runs rv fs); [done..|].
  pose proof (reaches_leads _ _ Hre) as Hl. assert (Hn : name_ok n) by (by inversion Hl as [|? ? c ? ? [_ _ Hn] _]).
  assert (Hd : drop (Z.to_nat 0) (join (n :: names)) = n ++ path_tail names) by done.
  destruct (walk_chars _ 0 _ _ Hn ltac:(lia) Hd) as (C1 & C2 & _).
  rewrite (proj2 (Z.eqb_neq _ SLASH) C1), (proj2 (Z.eqb_neq _ 0) C2), (proj2 (Z.eqb_neq _ 0) Hr). cbn [negb andb].
  mstep. mstep. apply (ld_vnode_runs r x); [done..|]. rewrite Hm, Hvf. cbn [Z.eqb negb]. apply runs_ret.
  rewrite (proj2 (Z.eqb_neq _ 0) C2). mstep.
  apply (LookupPath_loop_runs names _ _ _ _ n v); try done.
  - assert (length names <= length (path_tail names))%nat; [|unfold join; cbn; rewrite length_app; unfold path_tail in *; lia].
    clear. induction names as [|m names IH]; [done|]. cbn. rewrite length_app. unfold path_tail in IH. lia.
  - mstep. assert (Hv : exists y, vnodes s !! v = Some y /\ v <> 0 /\ m_vfsMounted y = 0).
    { inversion Hre as [|w ns m ? ? Hlast]. destruct Hlast as [_ (y & Hy & Hc & _ & _ & Hmt & _) _]. eauto. }
    destruct Hv as (y & Hy & Hv0 & Hmt). apply (cross_runs v y); [done..|]. by apply runs_ret.
Qed.

(** ** Walking up *)

Lemma length_put buf i l : 0 <= i -> (Z.to_nat i + length l <= length buf)%nat -> length (put buf i l) = length buf.
Proof. intros Hi Hl. unfold put. rewrite !length_app, length_take, length_drop. lia. Qed.
Lemma drop_put buf i l : (Z.to_nat i + length l <= length buf)%nat ->
  drop (Z.to_nat i) (put buf i l) = l ++ drop (Z.to_nat i + length l) buf.
Proof. intros Hl. unfold put. rewrite drop_app_length'; [done|]. rewrite length_take. lia. Qed.

Lemma path_tail_snoc names n : path_tail (names ++ [n]) = path_tail names ++ SLASH :: n.
Proof. unfold path_tail. rewrite fmap_app, concat_app. cbn. by rewrite app_nil_r. Qed.

(** The name of a node is put in front of what has been built. *)
Lemma put_name buf ptr n : 0 <= ptr < Z.of_nat (length buf) -> Z.of_nat (length n) + 1 <= ptr ->
  let buf' := put (put buf (ptr - Z.of_nat (length n)) n) (ptr - Z.of_nat (length n) - 1) [SLASH] in
  length buf' = length buf /\ drop (Z.to_nat (ptr - Z.of_nat (length n) - 1)) buf' = SLASH :: n ++ drop (Z.to_nat ptr) buf.
Proof.
  intros Hp Hn buf'. unfold buf'. set (i := ptr - Z.of_nat (length n)) in *.
  assert (Hl : length (put buf i n) = length buf) by (apply length_put; lia).
  split; [rewrite length_put; cbn; lia|]. rewrite drop_put by (cbn; lia). cbn.
  replace (Z.to_nat (i - 1) + 1)%nat with (Z.to_nat i) by lia. rewrite drop_put by lia. do 3 f_equal. lia.
Qed.

Lemma BuildPath_loop_runs v names : root_ok -> reaches v names -> forall fuel ptr buf (Q : Z * Z * list Z -> state -> Prop),
  (length names < fuel)%nat -> 0 <= ptr < Z.of_nat (length buf) ->
  (Z.of_nat (length (path_tail names)) <= ptr -> forall ptr' buf', length buf' = length buf -> 0 <= ptr' <= ptr ->
     ptr' = ptr - Z.of_nat (length (path_tail names)) ->
     drop (Z.to_nat ptr') buf' = path_tail names ++ drop (Z.to_nat ptr) buf -> Q (ESUCCESS, ptr', buf') s) ->
  (ptr < Z.of_nat (length (path_tail names)) -> forall ptr' buf', Q (- ERANGE, ptr', buf') s) ->
  runs (BuildPath_loop fuel r v ptr buf) s Q.
Proof.
  intros Hro Hre. induction Hre as [|v names n c Hre IH Hch]; intros fuel ptr buf Q Hf Hptr Hok Hrange; destruct fuel as [|fuel]; try lia; cbn [BuildPath_loop].
  { rewrite Z.eqb_refl. apply runs_ret. apply Hok; cbn; lia || done. }
  pose proof Hch as [(x & Hx & Hv & _) (y & Hy & Hc & [Hnm Hnl] & Hpar & _ & _) Hn].
  assert (Hcr : c <> r).
  { intros ->. destruct (rt_node Hro) as (z & Hz & _ & Hz0). rewrite Hy in Hz. simplify_eq. }
  rewrite path_tail_snoc, length_app in Hok, Hrange. cbn [length] in Hok, Hrange.
  rewrite (proj2 (Z.eqb_neq c r)) by done. mstep. unfold GetName. mstep. apply (ld_vnode_runs c y); [done..|].
  pose proof (no_length _ Hn) as Hlen. rewrite Hnl, Hnm, (proj2 (Z.leb_gt _ _)) by lia. apply runs_ret. change (default [] (Some n)) with n.
  rewrite Nat2Z.id, take_ge by lia. cbn. destruct (Z.ltb_spec ptr (Z.of_nat (length n) + 1)) as [Hsmall|Hbig].
  { apply runs_ret. apply Hrange. lia. }
  destruct (put_name buf ptr n Hptr ltac:(lia)) as [Hl' Hd']. mstep. apply (ld_vnode_runs c y); [done..|]. rewrite Hpar.
  rewrite (proj2 (Z.eqb_neq v 0)) by done. cbn [negb]. mstep. apply runs_ret. rewrite (proj2 (Z.eqb_neq v 0)) by done.
  apply IH; [rewrite length_app in Hf; cbn in Hf; lia|rewrite Hl'; lia| |].
  - intros Hle ptr' buf' Hlb Hp' Ep Hd. apply Hok; [lia|congruence|lia|lia|]. rewrite Hd, Hd', <- app_assoc. done.
  - intros Hlt ptr' buf'. apply Hrange. lia.
Qed.

Lemma BuildPath_runs v names fuel buf : root_ok -> reaches v names -> (length names < fuel)%nat -> v <> 0 -> buf <> [] ->
  runs (VFS_BuildPath fuel v (Some buf)) s (fun res s' => s' = s /\
    if Z.of_nat (length (path_of names)) <? Z.of_nat (length buf) then
      fst res = ESUCCESS /\ exists rest, snd res = path_of names ++ 0 :: rest /\ length (snd res) = length buf
    else fst res = - ERANGE).
Proof.
  intros Hro Hre Hf Hv Hbuf. pose proof Hro as [(Hg & Hrv & Hr) (fs & Hfs & Hroot) _]. unfold VFS_BuildPath.
  assert (Hb : (1 <= length buf)%nat) by (destruct buf; [done|cbn; lia]).
  rewrite (proj2 (Z.eqb_neq v 0)), (proj2 (Z.eqb_neq (Z.of_nat (length buf)) 0)) by (done || lia). cbn [orb].
  mstep. mstep. rewrite Hg, (proj2 (Z.eqb_neq rv 0)) by done. mstep. apply (ld_vfs_runs rv fs); [done..|].
  rewrite Hroot, (proj2 (Z.eqb_neq r 0)) by done. destruct (Z.eqb_spec v r) as [->|Hvr].
  { assert (names = []) as ->.
    { inversion Hre as [|w ns m ? ? Hlast]; [done|]. exfalso. destruct Hlast as [(z & _ & Hw & _) (y & Hy & _ & _ & Hp & _) _].
      destruct (rt_node Hro) as (z' & Hz & _ & Hz0). rewrite Hy in Hz. simplify_eq. }
    cbn [path_of length]. destruct (Z.ltb_spec (Z.of_nat (length buf)) 2); apply runs_ret; (split; [done|]).
    - rewrite (proj2 (Z.ltb_ge _ _)) by lia. done.
    - rewrite (proj2 (Z.ltb_lt _ _)) by lia. split; [done|]. exists (drop 2 buf). split; [done|]. apply length_put; cbn; lia. }
  destruct names as [|n names]; [apply reaches_leads in Hre; by inversion Hre|]. change (path_of (n :: names)) with (path_tail (n :: names)).
  assert (Hl : length (put buf (Z.of_nat (length buf) - 1) [0]) = length buf) by (apply length_put; cbn; lia).
  mstep. apply (BuildPath_loop_runs v (n :: names)); [done..|rewrite Hl; lia| |].
  - intros Hle ptr' buf' Hl' Hp' Ep Hd. cbn [Z.ltb Z.compare]. apply runs_ret. split; [done|].
    rewrite (proj2 (Z.ltb_lt _ _)) by lia. cbn [fst snd]. split; [done|].
    rewrite drop_put in Hd by (cbn; lia). rewrite (drop_ge buf) in Hd by (cbn; lia).
    assert (Hlp : Z.of_nat (length buf) - 1 - ptr' + 1 = Z.of_nat (length (path_tail (n :: names) ++ [0]))) by (rewrite length_app; cbn [length]; lia).
    rewrite Hlp, Nat2Z.id, Hd. replace ([0] ++ []) with [0] by done. rewrite take_ge by done.
    exists (drop (length (path_tail (n :: names) ++ [0])) buf'). split; [unfold put; cbn [Z.to_nat take app Nat.add]; by rewrite <- app_assoc|].
    rewrite length_put; [lia|lia|]. rewrite length_app. cbn [length]. lia.
  - intros Hlt ptr' buf'. cbn [Z.ltb Z.compare]. apply runs_ret. split; [done|]. rewrite (proj2 (Z.ltb_ge _ _)) by lia. done.
Qed.
End Tree.

(** ** New nodes *)

Section Create.
Context {E : Type} `{BlockMemory E}.
Notation state := (@state E).

(** The state with a new entry [node] under the name [n] in directory [v]. *)
Definition new_entry (type : VType) (mode : Z) (cred : Credential) (rv v node : Z) (n : list Z) : VNode :=
  mkVNode (mkAttr type mode (euid cred) (egid cred) FS_TempFS (-1) 0 0 PAGE_SIZE 0 0 0 0) false 2 rv 0 v (Some n)
    (Z.of_nat (length n)) 0 0 [] [].
Definition with_entry (type : VType) (mode : Z) (cred : Credential) (rv v node : Z) (n : list Z) (x : VNode) (s : state) : state :=
  set_vnodes (<[v := set_refCount (m_refCount x + 1) (set_children (m_children x ++ [node]) x)]>
    (<[node := new_entry type mode cred rv v node n]> (vnodes s))) s.

Lemma upd_vnode_runs (s : state) v x f (Q : unit -> state -> Prop) : v <> 0 -> vnodes s !! v = Some x ->
  Q tt (set_vnodes (<[v := f x]> (vnodes s)) s) -> runs (upd_vnode v f) s Q.
Proof. intros Hv Hx HQ. unfold upd_vnode. mstep. eapply ld_vnode_runs; [done..|]. by mstep. Qed.

Lemma Create_runs (s : state) type mode cred rv v x node n : vnodes s !! v = Some x -> v <> 0 -> node <> 0 -> node <> v -> n <> [] ->
  vnodes s !! node = None ->
  runs (new_vnode node rv ;;; Create node v (Some n) (Z.of_nat (length n)) (Some (mkAttr type mode (euid cred) (egid cred) FS_TempFS (-1) 0 0 0 0 0 0 0)))
    s (fun rc s' => rc = ESUCCESS /\ s' = with_entry type mode cred rv v node n x s).
Proof.
  intros Hx Hv Hnode Hne Hn Hfresh. mstep. unfold new_vnode. mstep. unfold Create.
  rewrite (proj2 (Z.eqb_neq v 0)), (proj2 (Z.eqb_neq (Z.of_nat (length n)) 0)) by (done || (destruct n; [done|]; rewrite length_cons; lia)). cbn [negb andb orb].
  rewrite bool_decide_eq_false_2 by done. cbn [orb]. mstep. eapply ld_vnode_runs; [done|cbn; apply lookup_insert_eq|].
  rewrite Nat2Z.id, take_ge by lia. mstep. eapply upd_vnode_runs; [done|cbn; apply lookup_insert_eq|]. mstep. cbn [whenM].
  eapply upd_vnode_runs; [done|cbn; rewrite !lookup_insert_ne by done; exact Hx|]. mstep.
  eapply upd_vnode_runs; [done|cbn; rewrite lookup_insert_ne by done; apply lookup_insert_eq|]. mstep. cbn [whenM].
  eapply upd_vnode_runs; [done|cbn; rewrite lookup_insert_ne by done; apply lookup_insert_eq|]. apply runs_ret. split; [done|].
  unfold with_entry, set_vnodes. cbn. f_equal. apply map_eq. intros k. destruct (decide (k = v)) as [->|Hkv]; [by rewrite !lookup_insert_eq|].
  rewrite lookup_insert_ne, (lookup_insert_ne (<[node:=new_entry _ _ _ _ _ _ _]> (vnodes s))) by done.
  destruct (decide (k = node)) as [->|Hkn]; [by rewrite !lookup_insert_eq|].
  by repeat rewrite lookup_insert_ne by done.
Qed.

(** The new entry is found, and everything that was found before. *)
Section NewEntry.
Context (s : state) (type : VType) (mode : Z) (cred : Credential) (rv r v : Z) (x : VNode) (node : Z) (n : list Z).
Context (Hx : vnodes s !! v = Some x) (Hv : v <> 0) (Hnode : node <> 0) (Hne : node <> v) (Hn : name_ok n).
Context (Hfresh : vnodes s !! node = None) (Hdir : a_type (m_attr x) = DIR) (Hmt : m_vfsMounted x = 0).
Context (Hnew : forall d, d ∈ m_children x -> d <> 0 /\ exists y, vnodes s !! d = Some y /\ ~ named n y).
Notation s' := (with_entry type mode cred rv v node n x s).

Lemma with_entry_old w y : vnodes s !! w = Some y -> exists y', vnodes s' !! w = Some y' /\ m_attr y' = m_attr y /\
  m_vfsMounted y' = m_vfsMounted y /\ m_parent y' = m_parent y /\ m_vfs y' = m_vfs y /\ m_name y' = m_name y /\ m_nameLen y' = m_nameLen y /\
  m_children y' = if decide (w = v) then m_children y ++ [node] else m_children y.
Proof.
  intros Hy. assert (w <> node) by congruence. unfold with_entry. cbn. destruct (decide (w = v)) as [->|Hwv].
  - rewrite lookup_insert_eq. rewrite Hx in Hy. simplify_eq. eauto 10.
  - rewrite !lookup_insert_ne by done. eauto 10.
Qed.
Lemma with_entry_new : vnodes s' !! node = Some (new_entry type mode cred rv v node n).
Proof. unfold with_entry. cbn. by rewrite lookup_insert_ne, lookup_insert_eq. Qed.

Lemma child_of_new : child_of s' rv v n node.
Proof.
  destruct (with_entry_old v x Hx) as (x' & Hx' & Ea & Em & _ & _ & _ & _ & Ec). rewrite decide_True in Ec by done. constructor; [| |done].
  - exists x'. rewrite Ea, Em, Ec. split_and!; try done; [set_solver|]. intros d [Hd|Hd]%elem_of_app.
    + destruct (Hnew d Hd) as (Hd0 & y & Hy & Hnn). split; [done|]. destruct (with_entry_old d y Hy) as (y' & Hy' & _ & _ & _ & _ & En & El & _).
      exists y'. split; [done|]. unfold named in *. rewrite En, El. done.
    + apply list_elem_of_singleton in Hd as ->. split; [done|]. eexists. by rewrite with_entry_new.
  - eexists. rewrite with_entry_new. by split_and!.
Qed.

Lemma child_of_old w m c : child_of s rv w m c -> child_of s' rv w m c.
Proof.
  intros [(y & Hy & Hw & Hd & Hm & Hc & Hall) (z & Hz & Hc0 & [Hz1 Hz2] & Hp & Hmz & Hvz) Hmn].
  destruct (with_entry_old w y Hy) as (y' & Hy' & Ea & Em & _ & _ & _ & _ & Ec).
  destruct (with_entry_old c z Hz) as (z' & Hz' & _ & Em' & Ep & Ev & En & El & _). constructor; [| |done].
  - exists y'. rewrite Ea, Em, Ec. split_and!; try done; [case_decide; set_solver|]. intros d Hdin.
    assert (Hold : d ∈ m_children y -> d <> 0 /\ exists y0, vnodes s' !! d = Some y0 /\ (named m y0 -> d = c)).
    { intros Hd'. destruct (Hall d Hd') as (Hd0 & y0 & Hy0 & Hun). split; [done|].
      destruct (with_entry_old d y0 Hy0) as (y0' & Hy0' & _ & _ & _ & _ & En0 & El0 & _). exists y0'. split; [done|].
      unfold named in *. by rewrite En0, El0. }
    case_decide as Hwv; [|by apply Hold]. apply elem_of_app in Hdin as [Hdin|Hdin]; [by apply Hold|].
    apply list_elem_of_singleton in Hdin as ->. split; [done|]. eexists. rewrite with_entry_new. split; [done|].
    intros [Hnm _]. cbn in Hnm. injection Hnm as <-. rewrite Hwv, Hx in Hy. injection Hy as <-.
    destruct (Hnew c Hc) as (_ & z0 & Hz0 & Hnn). rewrite Hz in Hz0. simplify_eq. by destruct Hnn.
  - exists z'. rewrite Em', Ep, Ev. unfold named. by rewrite En, El.
Qed.

Lemma reaches_old w names : reaches s rv r w names -> reaches s' rv r w names.
Proof. induction 1; [constructor|]. econstructor; [done|]. by apply child_of_old. Qed.
Lemma root_ok_old : root_ok s rv r -> root_ok s' rv r.
Proof.
  intros [H1 H2 (z & Hz & Hm & Hp)]. constructor; [done|done|]. destruct (with_entry_old r z Hz) as (z' & Hz' & _ & Em & Ep & _).
  exists z'. by rewrite Em, Ep.
Qed.
End NewEntry.
End Create.

Section Theorems.
Context {E : Type} `{BlockMemory E}.
Notation state := (@state E).

(** C10: the path of a node is its name: for a node of the tree [VFS_BuildPath]
    puts the slash-separated names on the way from the root into the buffer,
    with a terminating zero, or returns [-ERANGE] when the buffer is too short,
    and [VFS_LookupPath] of that path finds the node. *)
Theorem BuildPath_LookupPath (s : state) rv r v names fuel buf cwd : root_ok s rv r -> reaches s rv r v names -> v <> 0 ->
  (length names < fuel)%nat -> buf <> [] -> Z.of_nat (length (path_of names)) < 2 ^ 63 ->
  runs (VFS_BuildPath fuel v (Some buf)) s (fun res s' => s' = s /\
    if Z.of_nat (length (path_of names)) <? Z.of_nat (length buf) then
      fst res = ESUCCESS /\ exists rest, snd res = path_of names ++ 0 :: rest /\ length (snd res) = length buf
    else fst res = - ERANGE) /\
  runs (VFS_LookupPath (Some (path_of names)) cwd) s (fun res s' => s' = s /\ res = (ESUCCESS, v, rv)).
Proof. intros Hro Hre Hv Hf Hb Hl. split; [by eapply BuildPath_runs|by eapply LookupPath_runs]. Qed.

(** The directory in which an entry is created. *)
Record can_hold (s : state) (v : Z) (x : VNode) (n : list Z) (node : Z) : Prop := {
  cn_dir : vnodes s !! v = Some x /\ v <> 0 /\ a_type (m_attr x) = DIR /\ m_vfsMounted x = 0;
  cn_fresh : node <> 0 /\ node <> v /\ vnodes s !! node = None;
  cn_new : forall d, d ∈ m_children x -> d <> 0 /\ exists y, vnodes s !! d = Some y /\ ~ named n y;
  cn_name : name_ok n
}.

(** What [create] does once the path has led to the directory. *)
Lemma create_makes (s : state) type mode cred rv r v x path n node cwd : root_ok s rv r ->
  runs (VFS_LookupPath (Some path) cwd) s (fun res s' => s' = s /\ res = (ESUCCESS, v, rv)) ->
  can_hold s v x n node -> (exists f, vfss s !! rv = Some f /\ m_type f = FS_TempFS) ->
  runs (create type mode (Some path) (Some n) cwd cred node) s (fun rc s' => rc = ESUCCESS /\
    s' = with_entry type mode cred rv v node n x s).
Proof.
  intros Hro Hlk [(Hx & Hv & Hdir & Hmt) (Hn0 & Hnv & Hfresh) Hnew Hn] (fs & Hfs & Hft). unfold create. mstep.
  eapply runs_mono; [exact Hlk|]. intros res ? [-> ->]. cbn [Z.ltb Z.compare ESUCCESS]. mstep.
  eapply ld_vfs_runs; [apply Hro|done|]. rewrite Hft, bool_decide_eq_true_2 by done. cbn [negb].
  pose proof (no_length _ Hn). rewrite (proj2 (Z.ltb_ge NAME_MAX _)) by lia.
  pose proof (Create_runs s type mode cred rv v x node n Hx Hv Hn0 Hnv (no_nonempty _ Hn) Hfresh) as Hcr.
  apply runs_bind.
  destruct Hcr as (rc & s1 & Hrun & -> & ->). unfold bind in Hrun. destruct (new_vnode node rv s) as [[[] s0]|] eqn:E0; [|done].
  exists tt, s0. split; [done|]. apply runs_bind. exists ESUCCESS. eexists. split; [exact Hrun|]. cbn [Z.ltb Z.compare ESUCCESS]. by apply runs_ret.
Qed.

(** C11: [VFS_CreateDir] and [VFS_CreateFile] with the path of a directory and a
    new name add exactly one node: it is a node of the requested type, reached
    by the path of the directory followed by the name, and every node that was
    reached by a path before still is. *)
Theorem create_reaches (s : state) type mode cred rv r v x names n node cwd : root_ok s rv r -> reaches s rv r v names ->
  can_hold s v x n node -> (exists f, vfss s !! rv = Some f /\ m_type f = FS_TempFS) -> Z.of_nat (length (path_of names)) < 2 ^ 63 ->
  runs (create type mode (Some (path_of names)) (Some n) cwd cred node) s (fun rc s' => rc = ESUCCESS /\
    root_ok s' rv r /\ reaches s' rv r node (names ++ [n]) /\
    (exists y, vnodes s' !! node = Some y /\ a_type (m_attr y) = type /\ a_size (m_attr y) = 0) /\
    (forall w ns, reaches s rv r w ns -> reaches s' rv r w ns) /\
    forall w, w <> node -> w <> v -> vnodes s' !! w = vnodes s !! w).
Proof.
  intros Hro Hre Hch Hfs Hl. pose proof Hch as [(Hx & Hv & Hdir & Hmt) (Hn0 & Hnv & Hfresh) Hnew Hn].
  eapply runs_mono; [by eapply create_makes; [done|apply (LookupPath_runs s rv r v names)|done|done]|]. intros rc s' [-> ->].
  split_and!; [done|by eapply root_ok_old| | | |].
  - econstructor; [by eapply reaches_old|]. by apply child_of_new.
  - eexists. rewrite (with_entry_new s type mode cred rv v x node n) by done. split_and!; done.
  - intros w ns Hw. by eapply reaches_old.
  - intros w Hw1 Hw2. unfold with_entry. cbn. by rewrite !lookup_insert_ne.
Qed.
End Theorems.

(** *** Witnesses *)

(** Memory that never runs out, filled with zeros. *)
#[local] Instance zeroed_memory : BlockMemory unit := {
  AllocMemObjAnonPages pages node offset obj e := (Some (4096, replicate (Z.to_nat (pages * 4096)) 0, 77), e);
  AllocateBackedPages pages obj offset hint prot user flags e := (8192, e)
}.
Definition exec {A} (m : M (@state unit) A) (s : @state unit) : @state unit := match m s with Ok (_, s') => s' | Fail _ => s end.
Definition user : Credential := mkCred 0 0.
Definition foo : list Z := [102; 111; 111].
Definition bar : list Z := [98; 97; 114].

(** The root directory 2 of file system 1, with the directory foo (3) that holds
    the file bar (4). *)
Definition mounted : @state unit := exec (VFS_MountRoot FS_TempFS 1 2 user) (mk ∅ ∅ 0 tt).
Definition with_foo : @state unit := exec (VFS_CreateDir (Some [SLASH]) (Some foo) 0 user 3) mounted.
Definition with_bar : @state unit := exec (VFS_CreateFile (Some (SLASH :: foo)) (Some bar) 0 user 4) with_foo.

Lemma foo_ok : name_ok foo.
Proof. constructor; [done|by apply (bool_decide_unpack _)..|]. done. Qed.
Lemma bar_ok : name_ok bar.
Proof. constructor; [done|by apply (bool_decide_unpack _)..|]. done. Qed.
Lemma with_bar_root : root_ok with_bar 1 2.
Proof. constructor; [by vm_compute|by eexists|by eexists]. Qed.
Lemma with_foo_root : root_ok with_foo 1 2.
Proof. constructor; [by vm_compute|by eexists|by eexists]. Qed.

(** A directory with one entry. *)
Lemma only_child (st : @state unit) v n c x y : vnodes st !! v = Some x -> v <> 0 -> a_type (m_attr x) = DIR -> m_vfsMounted x = 0 ->
  m_children x = [c] -> vnodes st !! c = Some y -> c <> 0 -> named n y -> m_parent y = v -> m_vfsMounted y = 0 -> m_vfs y = 1 ->
  name_ok n -> child_of st 1 v n c.
Proof.
  intros Hx Hv Hd Hm Hc Hy Hc0 Hn Hp Hmy Hvf Hok. constructor; [exists x|exists y|done].
  - split_and!; try done; [rewrite Hc; set_solver|]. intros d. rewrite Hc. intros ->%list_elem_of_singleton. eauto.
  - by split_and!.
Qed.
Lemma foo_reached : reaches with_foo 1 2 3 [foo].
Proof. apply (reaches_child _ _ _ 2 [] foo 3); [constructor|]. eapply only_child; [by vm_compute..|apply foo_ok]. Qed.
Lemma bar_reached : reaches with_bar 1 2 4 [foo; bar].
Proof.
  apply (reaches_child _ _ _ 3 [foo] bar 4); [apply (reaches_child _ _ _ 2 [] foo 3); [constructor|]|].
  - eapply only_child; [by vm_compute..|apply foo_ok].
  - eapply only_child; [by vm_compute..|apply bar_ok].
Qed.

Lemma BuildPath_LookupPath_witness : path_of [foo; bar] = [47; 102; 111; 111; 47; 98; 97; 114] /\
  runs (VFS_LookupPath (Some [47; 102; 111; 111; 47; 98; 97; 114]) 0) with_bar (fun res s' => s' = with_bar /\ res = (ESUCCESS, 4, 1)).
Proof.
  split; [reflexivity|].
  apply (BuildPath_LookupPath with_bar 1 2 4 [foo; bar] 3 (replicate 16 0) 0);
    [exact with_bar_root|exact bar_reached|discriminate|cbn; lia|discriminate|reflexivity].
Defined.

Lemma foo_can_hold : exists x, can_hold with_foo 3 x bar 4.
Proof. eexists. constructor; [by vm_compute|by vm_compute|intros d Hd; vm_compute in Hd; by apply elem_of_nil in Hd|apply bar_ok]. Qed.
Lemma create_reaches_witness : root_ok with_foo 1 2 /\ exists x, can_hold with_foo 3 x bar 4 /\
  runs (create REG DEFAULT_FILE_MODE (Some (path_of [foo])) (Some bar) 0 user 4) with_foo (fun rc s' => rc = ESUCCESS /\
    root_ok s' 1 2 /\ reaches s' 1 2 4 [foo; bar] /\ (exists y, vnodes s' !! 4 = Some y /\ a_type (m_attr y) = REG /\ a_size (m_attr y) = 0) /\
    (forall w ns, reaches with_foo 1 2 w ns -> reaches s' 1 2 w ns) /\ forall w, w <> 4 -> w <> 3 -> vnodes s' !! w = vnodes with_foo !! w).
Proof.
  split; [exact with_foo_root|]. destruct foo_can_hold as [x Hx]. exists x. split; [exact Hx|].
  apply (create_reaches with_foo REG DEFAULT_FILE_MODE user 1 2 3 x [foo] bar 4 0);
    [exact with_foo_root|exact foo_reached|exact Hx|eexists; split; vm_compute; reflexivity|reflexivity].
Defined.

(** Two slashes in a row, and dots as the last segment, are not understood. *)
Example double_slash_not_found : exists s', VFS_LookupPath (Some (SLASH :: SLASH :: foo)) 0 with_bar = Ok (- ENOENT, 0, 0, s').
Proof. eexists. vm_compute. reflexivity. Qed.
Example last_dotdot_not_found : exists s', VFS_LookupPath (Some (SLASH :: foo ++ [SLASH; DOT; DOT])) 0 with_bar = Ok (- ENOENT, 0, 0, s').
Proof. eexists. vm_compute. reflexivity. Qed.

End VFSSpec.
