(* ===== verification/TempFSSpec.v ===== *)
(** * TempFSSpec.v: what is written to a file is read back

    A write to the start of an empty file stores all bytes and [Read] returns
    them, whole or in part. Later
    writes to the blocks a file has lose data: they take the offset in the page
    off the number of bytes and do not move the end of the file. *)

From S2P Require Import Prelude AVLTree FileDescriptor FDManager TempFS VFS VFSSpec.
#[local] Open Scope Z_scope.
#[local] Open Scope kernel_scope.

Module TempFSSpec.
Import VFS VFSSpec.
Import FileDescriptor(ESUCCESS, EINVAL).

Section Files.
Context {E : Type} `{BlockMemory E}.
Notation state := (@state E).
Context (s : state) (node : Z) (v : VNode) (Hnode : node <> 0) (Hv : vnodes s !! node = Some v).

(** [AllocMemObjAnonPages] succeeds and maps the pages it was asked for. *)
Definition maps_pages (pages : Z) (block : Block) (obj : Z) (e : E) : Prop :=
  AllocMemObjAnonPages pages node 0 (m_memObj v) (env s) = (Some (b_addr block, b_data block, obj), e) /\
  b_pages block = pages /\ Z.of_nat (length (b_data block)) = pages * 4096.

(** The file after its first write. *)
Definition written (src : list Z) (block : Block) (obj : Z) : VNode :=
  set_attr (set_blocks (ALIGN_UP (Z.of_nat (length src)) PAGE_SIZE) (set_size (Z.of_nat (length src)) (m_attr v)))
    (set_file obj 3 [(0, mkBlock (b_addr block) (b_pages block) (src ++ drop (length src) (b_data block)))] v).

Lemma DIV_ROUNDUP_pages size : 0 < size < 2 ^ 62 -> 0 < DIV_ROUNDUP size 4096 < 2 ^ 51 /\ size <= DIV_ROUNDUP size 4096 * 4096 < size + 4096.
Proof. intros Hs. unfold DIV_ROUNDUP. rewrite add64_small by (unfold W64; lia). split; zlia. Qed.

Lemma memcpy_eq (dst src : list Z) i j n (st : state) : 0 <= i -> 0 <= j -> 0 <= n -> i + n <= Z.of_nat (length dst) -> j + n <= Z.of_nat (length src) ->
  memcpy dst i src j n st = Ok (take (Z.to_nat i) dst ++ take (Z.to_nat n) (drop (Z.to_nat j) src) ++ drop (Z.to_nat (i + n)) dst, st).
Proof. intros H1 H2 H3 H4 H5. unfold memcpy. rewrite !(proj2 (Z.leb_le _ _)) by lia. done. Qed.

Lemma Write_first src block obj e : m_blocks v = [] -> a_size (m_attr v) = 0 -> a_blocks (m_attr v) = 0 ->
  0 < Z.of_nat (length src) < 2 ^ 62 -> maps_pages (DIV_ROUNDUP (Z.of_nat (length src)) PAGE_SIZE) block obj e ->
  runs (Write node src (Z.of_nat (length src)) 0) s (fun res s' => res = (ESUCCESS, Z.of_nat (length src)) /\
    s' = set_vnodes (<[node := written src block obj]> (vnodes s)) (set_env e s)).
Proof.
  intros Hb Hs Hbl Hlen (Hal & Hpg & Hdl). destruct (DIV_ROUNDUP_pages _ Hlen) as [Hp1 Hp2]. set (size := Z.of_nat (length src)) in *.
  unfold Write. cbn [Write_loop]. rewrite (proj2 (Z.leb_gt size 0)) by lia. mstep. apply (ld_vnode_runs s node v); [done..|].
  change (add64 0 0) with 0. rewrite Hbl. cbn [Z.leb Z.compare]. change (0 / 4096) with 0. change (0 mod 4096) with 0.
  rewrite sub64_small by (unfold W64; lia). rewrite Z.sub_0_r. mstep. unfold CreateBlock. mstep. apply (ld_vnode_runs s node v); [done..|].
  mstep. exists (Some (b_addr block, b_data block, obj)), (set_env e s). rewrite Hal. split; [done|].
  mstep. eapply upd_vnode_runs; [done|exact Hv|]. apply runs_ret. rewrite Hb.
  mstep. unfold store_block. mstep. eapply ld_vnode_runs; [done|cbn; apply lookup_insert_eq|]. cbn [m_blocks set_file Insert RB_FIND RB_INSERT snd].
  rewrite Z.eqb_refl. mstep. eapply runs_eq; [apply memcpy_eq; cbn; lia|]. cbn beta.
  eapply upd_vnode_runs; [done|cbn; apply lookup_insert_eq|]. mstep. eapply upd_vnode_runs; [done|cbn; apply lookup_insert_eq|].
  apply runs_ret. split; [done|]. unfold set_vnodes, set_env. cbn [vnodes vfss g_rootVFS env]. rewrite !insert_insert_eq. do 2 f_equal.
  unfold written. cbn. rewrite Hs, Hbl.
  rewrite !add64_small by (unfold ALIGN_UP, mul64, W64 in *; try rewrite wrap64_small; unfold W64; lia). rewrite !Z.add_0_l, Hpg.
  change (Z.to_nat 0) with 0%nat. cbn [take drop app]. unfold size. rewrite Nat2Z.id, (take_ge src) by lia. done.
Qed.

(** What a read of [k] bytes at [o] finds in the text [src]. *)
Definition read_back (src out : list Z) (k o : Z) : Z * Z * list Z :=
  let len := Z.of_nat (length src) in
  if len <=? o then (- EINVAL, 0, out)
  else let n := Z.min k (len - o) in
       (ESUCCESS, n, take (Z.to_nat n) (drop (Z.to_nat o) src) ++ drop (Z.to_nat n) out).

Lemma FindNodeOrLower_single {V} (x : V) p : 0 <= p -> FindNodeOrLower p [(0, x)] = Some (0, x).
Proof. intros Hp. unfold FindNodeOrLower. cbn. destruct (Z.leb_spec p 0) as [Hle|]; [|done]. cbn. by destruct (Z.ltb_spec p 0); [lia|]. Qed.

Lemma take_drop_app {A} (l l' : list A) i j : (i + j <= length l)%nat -> take j (drop i (l ++ l')) = take j (drop i l).
Proof. intros Hl. rewrite drop_app_le by lia. rewrite take_app_le; [done|]. rewrite length_drop. lia. Qed.

Lemma Read_first src block obj out k o : vnodes s !! node = Some (written src block obj) -> 0 < Z.of_nat (length src) < 2 ^ 62 ->
  b_pages block = DIV_ROUNDUP (Z.of_nat (length src)) PAGE_SIZE -> Z.of_nat (length (b_data block)) = b_pages block * 4096 ->
  0 <= k < 2 ^ 62 -> 0 <= o < 2 ^ 62 -> Z.min k (Z.of_nat (length src) - o) <= Z.of_nat (length out) ->
  runs (Read node out k o) s (fun res s' => s' = s /\ res = read_back src out k o).
Proof.
  intros Hw Hlen Hpg Hdl Hk Ho Hout. destruct (DIV_ROUNDUP_pages _ Hlen) as [Hp1 Hp2]. rewrite <- Hpg in Hp1, Hp2.
  set (size := Z.of_nat (length src)) in *. unfold Read, read_back. fold size. mstep. apply (ld_vnode_runs s node _ _ Hnode Hw).
  cbn [m_attr written a_size set_attr set_blocks set_size]. fold size.
  destruct (Z.leb_spec size o) as [Hle|Hlt]; [by apply runs_ret|].
  rewrite add64_small, sub64_small by (unfold W64; lia). set (n := Z.min k (size - o)) in *.
  replace (if size <? o + k then size - o else k) with n by (unfold n; destruct (Z.ltb_spec size (o + k)); lia).
  destruct (Z.eq_dec n 0) as [->|Hn]; [cbn [Read_loop]; by apply runs_ret|].
  cbn [Read_loop]. rewrite (proj2 (Z.leb_gt n 0)) by lia. mstep. apply (ld_vnode_runs s node _ _ Hnode Hw).
  rewrite add64_small, Z.add_0_r by (unfold W64; lia). cbn [m_attr written a_size set_attr set_blocks set_size]. fold size.
  rewrite (proj2 (Z.leb_gt size o)) by lia.
  assert (Hcov : covering (o / 4096) (m_blocks (written src block obj)) =
    Some (0, mkBlock (b_addr block) (b_pages block) (src ++ drop (length src) (b_data block)))).
  { unfold covering, written. cbn [m_blocks set_attr set_file].
    rewrite FindNodeOrLower_single by zlia. rewrite add64_small by (unfold W64; cbn [b_pages]; lia).
    cbn [b_pages].
    rewrite (proj2 (Z.leb_gt _ _)) by zlia. done. }
  rewrite Hcov. cbn [b_pages b_data]. assert (Hq : 0 <= o / 4096 < b_pages block) by zlia.
  rewrite (sub64_small (o / 4096) 0), Z.sub_0_r by (unfold W64; lia). unfold mul64.
  rewrite !(sub64_small (b_pages block)), (sub64_small n 0), !wrap64_small, Z.sub_0_r by (unfold W64; zlia).
  rewrite Z.min_l by zlia. rewrite (add64_small (o / 4096 * 4096)) by (unfold W64; zlia).
  replace (o / 4096 * 4096 + o mod 4096) with o by zlia.
  mstep. eapply runs_eq; [apply memcpy_eq; rewrite ?length_app, ?length_drop; unfold size in *; lia|]. cbn beta.
  change (Z.to_nat 0) with 0%nat. rewrite take_0, app_nil_l, Z.add_0_l, take_drop_app by (unfold size in *; lia).
  assert (Hfuel : exists f, Z.to_nat n = S f) by (exists (Nat.pred (Z.to_nat n)); lia). destruct Hfuel as [f Ef].
  rewrite Ef at 1. cbn [Read_loop]. rewrite Z.leb_refl. by apply runs_ret.
Qed.

(** A file of one block of one page, with [n] the offset of the next write. *)
Context (b : Block) (n : Z) (Hblocks : m_blocks v = [(0, b)]) (Hpages : b_pages b = 1) (Hdata : length (b_data b) = 4096%nat).
Context (Hattr : a_blocks (m_attr v) = 4096) (Hn : 0 < n < 4096).

Lemma second_covering : covering 0 (m_blocks v) = Some (0, b).
Proof. rewrite Hblocks. unfold covering. cbn. rewrite Hpages. done. Qed.

(** The next write as far as its [memcpy]. *)
Lemma Write_second src k : Z.of_nat (length src) = k -> 0 < k -> n + k <= 4096 ->
  Write node src k n s = (store_block node 0 n src 0 (sub64 k n) ;;; Write_loop (Z.to_nat k) node src k n k) s.
Proof.
  intros Hs Hk Hnk. unfold Write. cbn [Write_loop]. rewrite (proj2 (Z.leb_gt k 0)) by lia. unfold bind at 1, ld_vnode at 1.
  rewrite (proj2 (Z.eqb_neq node 0)), Hv by done. rewrite add64_small by (unfold W64; lia). rewrite Z.add_0_r, Hattr, (proj2 (Z.leb_gt _ _)) by lia.
  rewrite Z.div_small, Z.mod_small by lia. rewrite second_covering, Hpages. change (sub64 0 0) with 0. change (mul64 0 4096) with 0.
  change (mul64 (sub64 1 0) 4096) with 4096. rewrite (sub64_small k 0), Z.sub_0_r, Z.min_l by (unfold W64; lia).
  rewrite !add64_small by (unfold W64; lia). by rewrite !Z.add_0_l.
Qed.

(** The file after the next write: the first [k - n] bytes are in the block, the
    size has not changed. *)
Definition overwritten (src : list Z) (k : Z) : VNode :=
  set_file (m_memObj v) (m_defaultProt v)
    [(0, mkBlock (b_addr b) 1 (take (Z.to_nat n) (b_data b) ++ take (Z.to_nat (k - n)) src ++ drop (Z.to_nat k) (b_data b)))] v.

Lemma Write_second_runs src k : Z.of_nat (length src) = k -> n <= k -> n + k <= 4096 ->
  runs (Write node src k n) s (fun res s' => res = (ESUCCESS, k) /\ vnodes s' !! node = Some (overwritten src k)).
Proof.
  intros Hs Hk Hnk. unfold runs. rewrite (Write_second src k Hs) by lia.
  assert (Hgoal : runs (store_block node 0 n src 0 (sub64 k n) ;;; Write_loop (Z.to_nat k) node src k n k) s
    (fun res s' => res = (ESUCCESS, k) /\ vnodes s' !! node = Some (overwritten src k))); [|exact Hgoal].
  mstep. unfold store_block. mstep. apply (ld_vnode_runs s node v); [done..|]. rewrite Hblocks. cbn [RB_FIND]. rewrite Z.eqb_refl.
  rewrite sub64_small by (unfold W64; lia). mstep. eapply runs_eq; [apply memcpy_eq; lia|]. cbn beta.
  eapply upd_vnode_runs; [done|exact Hv|].
  assert (Hfuel : exists f, Z.to_nat k = S f) by (exists (Nat.pred (Z.to_nat k)); lia). destruct Hfuel as [f Ef]. rewrite Ef.
  cbn [Write_loop]. rewrite Z.leb_refl. apply runs_ret. split; [done|]. cbn [vnodes set_vnodes]. rewrite lookup_insert_eq. f_equal.
  unfold overwritten. rewrite Hblocks, Hpages. cbn [set_value]. rewrite Z.eqb_refl, Ef, drop_0. do 4 f_equal. do 3 f_equal. lia.
Qed.
Lemma Write_second_fails src k : Z.of_nat (length src) = k -> 0 < k < n -> n + k <= 4096 -> Write node src k n s = Fail InvalidAccess.
Proof.
  intros Hs Hk Hnk. rewrite (Write_second src k Hs) by lia. unfold bind, store_block, bind, ld_vnode.
  rewrite (proj2 (Z.eqb_neq node 0)), Hv by done. rewrite Hblocks. cbn [RB_FIND]. rewrite Z.eqb_refl. unfold memcpy.
  rewrite (proj2 (Z.leb_gt _ _)); [done|]. unfold sub64, wrap64. rewrite (Z.mod_eq (k - n)) by (unfold W64; lia).
  replace ((k - n) / W64) with (-1) by (unfold W64; zlia). unfold W64. lia.
Qed.
End Files.

Section Theorems.
Context {E : Type} `{BlockMemory E}.
Notation state := (@state E).


(** A second write loses data: to a file that has its first page, a write of
    [k] bytes at offset [n] inside the page stores only the first [k - n] of
    them but reports all, and does not move the end of the file, so that they
    cannot be read; with [k < n] the number of bytes to copy wraps around and
    [memcpy] runs over the end of the page. *)
Theorem Write_second_loses (s : state) node v b n src k : node <> 0 -> vnodes s !! node = Some v ->
  m_blocks v = [(0, b)] -> b_pages b = 1 -> length (b_data b) = 4096%nat -> a_blocks (m_attr v) = 4096 -> a_size (m_attr v) = n ->
  0 < n < 4096 -> Z.of_nat (length src) = k -> 0 < k -> n + k <= 4096 ->
  if k <? n then Write node src k n s = Fail InvalidAccess
  else runs (let* w := Write node src k n in let* r := Read node [] k n in ret (w, r)) s
    (fun res s' => res = (ESUCCESS, k, (- EINVAL, 0, [])) /\ vnodes s' !! node = Some (overwritten v b n src k)).
Proof.
  intros Hnode Hv Hb Hp Hd Hbl Hsz Hn Hs Hk Hnk. destruct (Z.ltb_spec k n); [by eapply (Write_second_fails s node v)|].
  mstep. eapply runs_mono; [by eapply (Write_second_runs s node v)|]. intros w s1 [-> Hw]. mstep.
  unfold Read. mstep. eapply ld_vnode_runs; [done|exact Hw|]. cbn [overwritten m_attr set_file]. rewrite Hsz, Z.leb_refl.
  apply runs_ret. by apply runs_ret.
Qed.
End Theorems.

(** *** Witnesses *)

(** The empty file bar of [VFSSpec.with_bar], and the same file after a write of
    three bytes. *)
Definition empty_page : Block := mkBlock 4096 1 (replicate 4096 0).
Definition bar_node : VNode := new_entry REG DEFAULT_FILE_MODE user 1 3 4 bar.
Definition three : list Z := [1; 2; 3].
Definition bar_written : VNode := written bar_node three empty_page 77.

Lemma bar_node_eq : vnodes with_bar !! 4 = Some bar_node.
Proof. vm_compute. reflexivity. Qed.


Lemma Write_second_loses_witness : a_size (m_attr bar_written) = 3 /\
  Write (H := zeroed_memory) 4 [7; 8] 2 3 (set_vnodes {[4 := bar_written]} with_bar) = Fail InvalidAccess.
Proof.
  split; [reflexivity|].
  apply (Write_second_loses (H := zeroed_memory) (set_vnodes {[4 := bar_written]} with_bar) 4 bar_written
    (mkBlock 4096 1 (three ++ drop 3 (replicate 4096 0))) 3 [7; 8] 2);
    [discriminate|reflexivity|reflexivity|reflexivity|vm_compute; reflexivity|vm_compute; reflexivity|reflexivity|lia|reflexivity|lia|lia].
Defined.

End TempFSSpec.
