(* ===== verification/Graphics.v ===== *)
(** * Graphics.v: framebuffer, font and text console (src/kernel/src/Graphics)

    The bytes of video memory are a map from addresses to bytes; [valid] says
    which addresses are mapped framebuffer memory, and a store anywhere else is
    [Fail InvalidAccess]. The console (class [VGA]) draws into a back buffer
    and keeps a cursor in pixels. *)

From S2P Require Import Prelude.

#[local] Open Scope Z_scope.
#[local] Open Scope kernel_scope.

Module Graphics.

(** ** Colours (Colour.cpp) *)

Record Colour : Set := mkColour {
  m_dirty : bool;
  m_colour : Z;
  m_r : Z;
  m_g : Z;
  m_b : Z
}.

Definition new_Colour (r g b : Z) : Colour := mkColour true 0 r g b.

(** [Colour::Render]: the raw pixel, and the object with its cache filled. *)
Definition Render (bpp rm rs gm gs bm bs : Z) (k : Colour) : Z * Colour :=
  if negb (m_dirty k) then (m_colour k, k) else
  let raw := Z.land
    (Z.lor (Z.lor (shl64 (Z.land (m_r k) rm) rs) (shl64 (Z.land (m_g k) gm) gs))
           (shl64 (Z.land (m_b k) bm) bs))
    (Z.shiftr UINT64_MAX (64 - bpp)) in
  (raw, mkColour false raw (m_r k) (m_g k) (m_b k)).

(** ** Framebuffers (Framebuffer.cpp) *)

Record FrameBuffer : Set := mkFB {
  BaseAddress : Z;
  width : Z;
  height : Z;
  pitch : Z;
  bpp : Z;
  red_mask : Z;
  red_shift : Z;
  green_mask : Z;
  green_shift : Z;
  blue_mask : Z;
  blue_shift : Z
}.

(** ** The font (VGAFont.cpp) *)

Definition CHAR_WIDTH : Z := 10.
Definition CHAR_HEIGHT : Z := 16.

Definition letters : list (list Z) := [
  [0; 0; 0; 0; 0; 0; 0; 0; 0; 0; 0; 0; 0; 0; 0; 0];
  [0; 0; 24; 24; 0; 0; 24; 24; 24; 24; 24; 24; 24; 0; 0; 0];
  [0; 0; 0; 0; 0; 0; 0; 0; 0; 54; 54; 54; 54; 0; 0; 0];
  [0; 0; 0; 102; 102; 255; 102; 102; 255; 102; 102; 0; 0; 0; 0; 0];
  [0; 0; 24; 126; 255; 27; 31; 126; 248; 216; 255; 126; 24; 0; 0; 0];
  [0; 0; 14; 27; 219; 110; 48; 24; 12; 118; 219; 216; 112; 0; 0; 0];
  [0; 0; 127; 198; 207; 216; 112; 112; 216; 204; 204; 108; 56; 0; 0; 0];
  [0; 0; 0; 0; 0; 0; 0; 0; 0; 24; 28; 12; 14; 0; 0; 0];
  [0; 0; 12; 24; 48; 48; 48; 48; 48; 48; 48; 24; 12; 0; 0; 0];
  [0; 0; 48; 24; 12; 12; 12; 12; 12; 12; 12; 24; 48; 0; 0; 0];
  [0; 0; 0; 0; 0; 0; 0; 0; 195; 102; 24; 60; 255; 24; 24; 0];
  [0; 0; 0; 24; 24; 24; 255; 255; 24; 24; 24; 0; 0; 0; 0; 0];
  [0; 0; 48; 24; 28; 28; 0; 0; 0; 0; 0; 0; 0; 0; 0; 0];
  [0; 0; 0; 0; 0; 0; 255; 255; 0; 0; 0; 0; 0; 0; 0; 0];
  [0; 0; 0; 56; 56; 0; 0; 0; 0; 0; 0; 0; 0; 0; 0; 0];
  [0; 96; 96; 48; 48; 24; 24; 12; 12; 6; 6; 3; 3; 0; 0; 0];
  [0; 0; 60; 102; 195; 227; 243; 219; 207; 199; 195; 102; 60; 0; 0; 0];
  [0; 0; 126; 24; 24; 24; 24; 24; 24; 24; 120; 56; 24; 0; 0; 0];
  [0; 0; 255; 192; 192; 96; 48; 24; 12; 6; 3; 231; 126; 0; 0; 0];
  [0; 0; 126; 231; 3; 3; 7; 126; 7; 3; 3; 231; 126; 0; 0; 0];
  [0; 0; 12; 12; 12; 12; 12; 255; 204; 108; 60; 28; 12; 0; 0; 0];
  [0; 0; 126; 231; 3; 3; 7; 254; 192; 192; 192; 192; 255; 0; 0; 0];
  [0; 0; 126; 231; 195; 195; 199; 254; 192; 192; 192; 231; 126; 0; 0; 0];
  [0; 0; 48; 48; 48; 48; 24; 12; 6; 3; 3; 3; 255; 0; 0; 0];
  [0; 0; 126; 231; 195; 195; 231; 126; 231; 195; 195; 231; 126; 0; 0; 0];
  [0; 0; 126; 231; 3; 3; 3; 127; 231; 195; 195; 231; 126; 0; 0; 0];
  [0; 0; 0; 56; 56; 0; 0; 56; 56; 0; 0; 0; 0; 0; 0; 0];
  [0; 0; 48; 24; 28; 28; 0; 0; 28; 28; 0; 0; 0; 0; 0; 0];
  [0; 0; 6; 12; 24; 48; 96; 192; 96; 48; 24; 12; 6; 0; 0; 0];
  [0; 0; 0; 0; 255; 255; 0; 255; 255; 0; 0; 0; 0; 0; 0; 0];
  [0; 0; 96; 48; 24; 12; 6; 3; 6; 12; 24; 48; 96; 0; 0; 0];
  [0; 0; 24; 0; 0; 24; 24; 12; 6; 3; 195; 195; 126; 0; 0; 0];
  [0; 0; 63; 96; 207; 219; 211; 221; 195; 126; 0; 0; 0; 0; 0; 0];
  [0; 0; 195; 195; 195; 195; 255; 195; 195; 195; 102; 60; 24; 0; 0; 0];
  [0; 0; 254; 199; 195; 195; 199; 254; 199; 195; 195; 199; 254; 0; 0; 0];
  [0; 0; 126; 231; 192; 192; 192; 192; 192; 192; 192; 231; 126; 0; 0; 0];
  [0; 0; 252; 206; 199; 195; 195; 195; 195; 195; 199; 206; 252; 0; 0; 0];
  [0; 0; 255; 192; 192; 192; 192; 252; 192; 192; 192; 192; 255; 0; 0; 0];
  [0; 0; 192; 192; 192; 192; 192; 192; 252; 192; 192; 192; 255; 0; 0; 0];
  [0; 0; 126; 231; 195; 195; 207; 192; 192; 192; 192; 231; 126; 0; 0; 0];
  [0; 0; 195; 195; 195; 195; 195; 255; 195; 195; 195; 195; 195; 0; 0; 0];
  [0; 0; 126; 24; 24; 24; 24; 24; 24; 24; 24; 24; 126; 0; 0; 0];
  [0; 0; 124; 238; 198; 6; 6; 6; 6; 6; 6; 6; 6; 0; 0; 0];
  [0; 0; 195; 198; 204; 216; 240; 224; 240; 216; 204; 198; 195; 0; 0; 0];
  [0; 0; 255; 192; 192; 192; 192; 192; 192; 192; 192; 192; 192; 0; 0; 0];
  [0; 0; 195; 195; 195; 195; 195; 195; 219; 255; 255; 231; 195; 0; 0; 0];
  [0; 0; 199; 199; 207; 207; 223; 219; 251; 243; 243; 227; 227; 0; 0; 0];
  [0; 0; 126; 231; 195; 195; 195; 195; 195; 195; 195; 231; 126; 0; 0; 0];
  [0; 0; 192; 192; 192; 192; 192; 254; 199; 195; 195; 199; 254; 0; 0; 0];
  [0; 0; 63; 110; 223; 219; 195; 195; 195; 195; 195; 102; 60; 0; 0; 0];
  [0; 0; 195; 198; 204; 216; 240; 254; 199; 195; 195; 199; 254; 0; 0; 0];
  [0; 0; 126; 231; 3; 3; 7; 126; 224; 192; 192; 231; 126; 0; 0; 0];
  [0; 0; 24; 24; 24; 24; 24; 24; 24; 24; 24; 24; 255; 0; 0; 0];
  [0; 0; 126; 231; 195; 195; 195; 195; 195; 195; 195; 195; 195; 0; 0; 0];
  [0; 0; 24; 60; 60; 102; 102; 195; 195; 195; 195; 195; 195; 0; 0; 0];
  [0; 0; 195; 231; 255; 255; 219; 219; 195; 195; 195; 195; 195; 0; 0; 0];
  [0; 0; 195; 102; 102; 60; 60; 24; 60; 60; 102; 102; 195; 0; 0; 0];
  [0; 0; 24; 24; 24; 24; 24; 24; 60; 60; 102; 102; 195; 0; 0; 0];
  [0; 0; 255; 192; 192; 96; 48; 24; 12; 6; 3; 3; 255; 0; 0; 0];
  [0; 0; 60; 48; 48; 48; 48; 48; 48; 48; 48; 48; 60; 0; 0; 0];
  [0; 3; 3; 6; 6; 12; 12; 24; 24; 48; 48; 96; 96; 0; 0; 0];
  [0; 0; 60; 12; 12; 12; 12; 12; 12; 12; 12; 12; 60; 0; 0; 0];
  [0; 0; 0; 0; 0; 0; 0; 0; 0; 195; 102; 60; 24; 0; 0; 0];
  [255; 255; 0; 0; 0; 0; 0; 0; 0; 0; 0; 0; 0; 0; 0; 0];
  [0; 0; 0; 0; 0; 0; 0; 0; 0; 24; 56; 48; 112; 0; 0; 0];
  [0; 0; 127; 195; 195; 127; 3; 195; 126; 0; 0; 0; 0; 0; 0; 0];
  [0; 0; 254; 195; 195; 195; 195; 254; 192; 192; 192; 192; 192; 0; 0; 0];
  [0; 0; 126; 195; 192; 192; 192; 195; 126; 0; 0; 0; 0; 0; 0; 0];
  [0; 0; 127; 195; 195; 195; 195; 127; 3; 3; 3; 3; 3; 0; 0; 0];
  [0; 0; 127; 192; 192; 254; 195; 195; 126; 0; 0; 0; 0; 0; 0; 0];
  [0; 0; 48; 48; 48; 48; 48; 252; 48; 48; 48; 51; 30; 0; 0; 0];
  [126; 195; 3; 3; 127; 195; 195; 195; 126; 0; 0; 0; 0; 0; 0; 0];
  [0; 0; 195; 195; 195; 195; 195; 195; 254; 192; 192; 192; 192; 0; 0; 0];
  [0; 0; 24; 24; 24; 24; 24; 24; 24; 0; 0; 24; 0; 0; 0; 0];
  [56; 108; 12; 12; 12; 12; 12; 12; 12; 0; 0; 12; 0; 0; 0; 0];
  [0; 0; 198; 204; 248; 240; 216; 204; 198; 192; 192; 192; 192; 0; 0; 0];
  [0; 0; 126; 24; 24; 24; 24; 24; 24; 24; 24; 24; 120; 0; 0; 0];
  [0; 0; 219; 219; 219; 219; 219; 219; 254; 0; 0; 0; 0; 0; 0; 0];
  [0; 0; 198; 198; 198; 198; 198; 198; 252; 0; 0; 0; 0; 0; 0; 0];
  [0; 0; 124; 198; 198; 198; 198; 198; 124; 0; 0; 0; 0; 0; 0; 0];
  [192; 192; 192; 254; 195; 195; 195; 195; 254; 0; 0; 0; 0; 0; 0; 0];
  [3; 3; 3; 127; 195; 195; 195; 195; 127; 0; 0; 0; 0; 0; 0; 0];
  [0; 0; 192; 192; 192; 192; 192; 224; 254; 0; 0; 0; 0; 0; 0; 0];
  [0; 0; 254; 3; 3; 126; 192; 192; 127; 0; 0; 0; 0; 0; 0; 0];
  [0; 0; 28; 54; 48; 48; 48; 48; 252; 48; 48; 48; 0; 0; 0; 0];
  [0; 0; 126; 198; 198; 198; 198; 198; 198; 0; 0; 0; 0; 0; 0; 0];
  [0; 0; 24; 60; 60; 102; 102; 195; 195; 0; 0; 0; 0; 0; 0; 0];
  [0; 0; 195; 231; 255; 219; 195; 195; 195; 0; 0; 0; 0; 0; 0; 0];
  [0; 0; 195; 102; 60; 24; 60; 102; 195; 0; 0; 0; 0; 0; 0; 0];
  [192; 96; 96; 48; 24; 60; 102; 102; 195; 0; 0; 0; 0; 0; 0; 0];
  [0; 0; 255; 96; 48; 24; 12; 6; 255; 0; 0; 0; 0; 0; 0; 0];
  [0; 0; 15; 24; 24; 24; 56; 240; 56; 24; 24; 24; 15; 0; 0; 0];
  [24; 24; 24; 24; 24; 24; 24; 24; 24; 24; 24; 24; 24; 0; 0; 0];
  [0; 0; 240; 24; 24; 24; 28; 15; 28; 24; 24; 24; 240; 0; 0; 0];
  [0; 0; 0; 0; 0; 0; 6; 143; 241; 96; 0; 0; 0; 0; 0; 0]
].

Definition IsCharValid (c : Z) : bool := negb ((c <? 32) || (126 <? c)).

(** [getChar] fills the buffer bottom row first, or leaves it as it is. *)
Definition getChar (c : Z) (buffer : list Z) : list Z :=
  if negb (IsCharValid c) then buffer
  else map (fun i => nth (15 - i) (nth (Z.to_nat (c - 32)) letters []) 0) (seq 0 16).

(** ** The console (VGA.cpp) *)

(** The members of class [VGA] and the video memory. [m_stack] is the
    uninitialised local array of [WriteCharToFrameBuffer]. *)
Record vga : Type := mkVGA {
  m_frontBuffer : FrameBuffer;
  m_backBuffer : FrameBuffer;
  m_backgroundColour : Colour;
  m_foregroundColour : Colour;
  m_cursorX : Z;
  m_cursorY : Z;
  m_numberOfRows : Z;
  m_numberOfColumns : Z;
  m_doubleBufferingEnabled : bool;
  m_stack : list Z;
  vmem : Z -> Z
}.

Definition set_cursor (x y : Z) (v : vga) : vga :=
  mkVGA (m_frontBuffer v) (m_backBuffer v) (m_backgroundColour v) (m_foregroundColour v)
        x y (m_numberOfRows v) (m_numberOfColumns v) (m_doubleBufferingEnabled v) (m_stack v) (vmem v).
Definition set_vmem (mm : Z -> Z) (v : vga) : vga :=
  mkVGA (m_frontBuffer v) (m_backBuffer v) (m_backgroundColour v) (m_foregroundColour v)
        (m_cursorX v) (m_cursorY v) (m_numberOfRows v) (m_numberOfColumns v)
        (m_doubleBufferingEnabled v) (m_stack v) mm.
Definition set_colours (bg fg : Colour) (v : vga) : vga :=
  mkVGA (m_frontBuffer v) (m_backBuffer v) bg fg
        (m_cursorX v) (m_cursorY v) (m_numberOfRows v) (m_numberOfColumns v)
        (m_doubleBufferingEnabled v) (m_stack v) (vmem v).
Definition set_buffers (front back : FrameBuffer) (double : bool) (v : vga) : vga :=
  mkVGA front back (m_backgroundColour v) (m_foregroundColour v)
        (m_cursorX v) (m_cursorY v) (m_numberOfRows v) (m_numberOfColumns v)
        double (m_stack v) (vmem v).
Definition set_grid (rows columns : Z) (v : vga) : vga :=
  mkVGA (m_frontBuffer v) (m_backBuffer v) (m_backgroundColour v) (m_foregroundColour v)
        (m_cursorX v) (m_cursorY v) rows columns
        (m_doubleBufferingEnabled v) (m_stack v) (vmem v).

Section Ops.
(** Mapped video memory. *)
Context (valid : Z -> bool).

Notation V := (M vga).

(** A loop [for (i = 0; i < n; i++) body(a + i)]. *)
Fixpoint loopM (n : nat) (a : Z) (body : Z -> V unit) : V unit :=
  match n with
  | O => ret tt
  | S n' => body a ;;; loopM n' (add64 a 1) body
  end.

(** A store of one byte. *)
Definition store8 (a v : Z) : V unit :=
  if valid a then modify (fun s => set_vmem (<[a := v]> (vmem s)) s)
  else fail InvalidAccess.

(** A store of [n] bytes, low byte first. *)
Fixpoint store (n : nat) (a v : Z) : V unit :=
  match n with
  | O => ret tt
  | S n' => store8 a (v mod 256) ;;; store n' (add64 a 1) (Z.shiftr v 8)
  end.

(** [memcpy] as the byte copy in ascending order that util.asm performs. *)
Fixpoint memcpy (n : nat) (dst src : Z) : V unit :=
  match n with
  | O => ret tt
  | S n' =>
      (if valid src then ret tt else fail InvalidAccess) ;;;
      let* x := gets (fun s => vmem s src) in
      store8 dst x ;;; memcpy n' (add64 dst 1) (add64 src 1)
  end.

(** [WriteToFrameBuffer] *)
Definition WriteToFrameBuffer (fb : FrameBuffer) (x y : Z) (colour : Colour) : V unit :=
  let pixel := add64 (add64 (BaseAddress fb) (mul64 y (pitch fb))) (mul64 x (bpp fb / 8)) in
  let raw_colour := fst (Render (bpp fb) (red_mask fb) (red_shift fb)
    (green_mask fb) (green_shift fb) (blue_mask fb) (blue_shift fb) colour) in
  match bpp fb with
  | 64 => store 8 pixel raw_colour
  | 56 => store 4 pixel (Z.land raw_colour 0xFFFFFFFF) ;;;
          store 2 (add64 pixel 4) (Z.land (Z.shiftr raw_colour 32) 0xFFFF) ;;;
          store 1 (add64 pixel 6) (Z.land (Z.shiftr raw_colour 48) 0xFF)
  | 48 => store 4 pixel (Z.land raw_colour 0xFFFFFFFF) ;;;
          store 2 (add64 pixel 4) (Z.land (Z.shiftr raw_colour 32) 0xFFFF)
  | 40 => store 4 pixel (Z.land raw_colour 0xFFFFFFFF) ;;;
          store 1 (add64 pixel 4) (Z.land (Z.shiftr raw_colour 32) 0xFF)
  | 32 => store 4 pixel raw_colour
  | 24 => store 2 pixel (Z.land raw_colour 0xFFFF) ;;;
          store 1 (add64 pixel 2) (Z.land (Z.shiftr raw_colour 16) 0xFF)
  | 16 => store 2 pixel raw_colour
  | 8 => store 1 pixel raw_colour
  | _ => ret tt
  end.

(** [ClearFrameBuffer] *)
Definition ClearFrameBuffer (fb : FrameBuffer) (colour : Colour) : V unit :=
  loopM (Z.to_nat (height fb)) 0 (fun y =>
    loopM (Z.to_nat (width fb)) 0 (fun x => WriteToFrameBuffer fb x y colour)).

(** [WriteCharToFrameBuffer] *)
Definition WriteCharToFrameBuffer (fb : FrameBuffer) (x y : Z) (fg bg : Colour) (c : Z) : V unit :=
  let* stack := gets m_stack in
  let buffer := getChar c stack in
  loopM 16 0 (fun cy => loopM 8 0 (fun cx =>
    if Z.testbit (nth (Z.to_nat cy) buffer 0) (7 - cx)
    then WriteToFrameBuffer fb (add64 x cx) (add64 y cy) fg
    else WriteToFrameBuffer fb (add64 x cx) (add64 y cy) bg)).

Definition PlotPixel (x y : Z) (colour : Colour) : V unit :=
  let* fb := gets m_backBuffer in WriteToFrameBuffer fb x y colour.

Definition ClearScreen (colour : Colour) : V unit :=
  let* fb := gets m_backBuffer in ClearFrameBuffer fb colour.

(** [VGA::Init] *)
Definition Init (fb : FrameBuffer) (bg fg : Colour) : V unit :=
  modify (fun s => set_buffers fb fb (m_doubleBufferingEnabled s) s) ;;;
  modify (set_colours bg fg) ;;;
  modify (set_grid (height fb / CHAR_HEIGHT) (width fb / CHAR_WIDTH)) ;;;
  modify (set_cursor 0 0) ;;;
  ClearScreen bg.

Definition SetFrameBuffer (fb : FrameBuffer) : V unit :=
  modify (fun s => set_buffers (m_frontBuffer s) fb (m_doubleBufferingEnabled s) s).
Definition SetBackgroundColour (colour : Colour) : V unit :=
  modify (fun s => set_colours colour (m_foregroundColour s) s).
Definition SetForegroundColour (colour : Colour) : V unit :=
  modify (fun s => set_colours (m_backgroundColour s) colour s).

(** The number of iterations of [for (i = a; i < a + n; i++)]. *)
Definition span (a n : Z) : nat := Z.to_nat (add64 a n - a).

(** [VGA::DrawRectangle] *)
Definition DrawRectangle (x y w h : Z) (colour : Colour) : V unit :=
  loopM (span x w) x (fun i =>
    PlotPixel i y colour ;;; PlotPixel i (sub64 (add64 y h) 1) colour) ;;;
  loopM (span y h) y (fun i =>
    PlotPixel x i colour ;;; PlotPixel (sub64 (add64 x w) 1) i colour).

(** [VGA::DrawFilledRectangle] *)
Definition DrawFilledRectangle (x y w h : Z) (colour : Colour) : V unit :=
  loopM (span x w) x (fun i => loopM (span y h) y (fun j => PlotPixel i j colour)).

(** [VGA::Scroll] *)
Definition Scroll (n : Z) : V unit :=
  let* fb := gets m_backBuffer in
  let* bg := gets m_backgroundColour in
  let rows := mul64 n CHAR_HEIGHT in
  memcpy (Z.to_nat (mul64 (pitch fb) (sub64 (height fb) rows))) (BaseAddress fb)
         (add64 (BaseAddress fb) (mul64 (mul64 n (pitch fb)) CHAR_HEIGHT)) ;;;
  DrawFilledRectangle 0 (sub64 (height fb) rows) (width fb) rows bg ;;;
  modify (fun s => set_cursor (m_cursorX s) (sub64 (m_cursorY s) rows) s).

(** [VGA::NewLine] *)
Definition NewLine : V unit :=
  modify (fun s => set_cursor 0 (m_cursorY s) s) ;;;
  modify (fun s => set_cursor (m_cursorX s) (add64 (m_cursorY s) CHAR_HEIGHT) s) ;;;
  let* y := gets m_cursorY in
  let* rows := gets m_numberOfRows in
  whenM (mul64 rows CHAR_HEIGHT <=? y) (Scroll 1).

(** [VGA::Backspace] *)
Definition Backspace : V unit :=
  let* x := gets m_cursorX in
  let* y := gets m_cursorY in
  let* columns := gets m_numberOfColumns in
  (if x =? 0
   then whenM (0 <? y)
     (modify (set_cursor (mul64 (sub64 columns 1) CHAR_WIDTH) (sub64 y CHAR_HEIGHT)))
   else modify (set_cursor (sub64 x CHAR_WIDTH) y)) ;;;
  let* bg := gets m_backgroundColour in
  let* x' := gets m_cursorX in
  let* y' := gets m_cursorY in
  DrawFilledRectangle x' y' CHAR_WIDTH CHAR_HEIGHT bg.

(** The default case of [VGA::PrintChar]. *)
Definition PrintGlyph (c : Z) : V unit :=
  let* fb := gets m_backBuffer in
  let* x := gets m_cursorX in
  let* y := gets m_cursorY in
  let* fg := gets m_foregroundColour in
  let* bg := gets m_backgroundColour in
  WriteCharToFrameBuffer fb x y fg bg c ;;;
  modify (fun s => set_cursor (add64 (m_cursorX s) CHAR_WIDTH) (m_cursorY s) s) ;;;
  let* x' := gets m_cursorX in
  let* columns := gets m_numberOfColumns in
  whenM (mul64 columns CHAR_WIDTH <=? x') NewLine.

(** [VGA::PrintChar]; a tab prints four spaces. *)
Definition PrintChar (c : Z) : V unit :=
  match c with
  | 10 | 11 => NewLine
  | 8 => Backspace
  | 7 => ret tt
  | 13 => modify (fun s => set_cursor 0 (m_cursorY s) s)
  | 9 => loopM 4 0 (fun _ => PrintGlyph 32)
  | 12 => let* bg := gets m_backgroundColour in
          ClearScreen bg ;;; modify (set_cursor 0 0)
  | _ => PrintGlyph c
  end.

(** [VGA::PrintString] over the characters up to the terminator (or [length]). *)
Fixpoint PrintString (str : list Z) : V unit :=
  match str with
  | [] => ret tt
  | c :: str' => PrintChar c ;;; PrintString str'
  end.

Definition SetCursor (x y : Z) : V unit := modify (set_cursor x y).
Definition GetCursor : V (Z * Z) := gets (fun s => (m_cursorX s, m_cursorY s)).
Definition GetNumberOfRows : V Z := gets m_numberOfRows.
Definition GetNumberOfColumns : V Z := gets m_numberOfColumns.

(** [VGA::EnableDoubleBuffering] *)
Definition EnableDoubleBuffering (buffer : FrameBuffer) : V unit :=
  modify (fun s => set_buffers (m_frontBuffer s) buffer (m_doubleBufferingEnabled s) s) ;;;
  let* front := gets m_frontBuffer in
  memcpy (Z.to_nat (mul64 (pitch front) (height front))) (BaseAddress buffer) (BaseAddress front) ;;;
  modify (fun s => set_buffers (m_frontBuffer s) (m_backBuffer s) true s).

Definition DisableDoubleBuffering : V unit :=
  modify (fun s => set_buffers (m_frontBuffer s) (m_frontBuffer s) false s).

(** [VGA::SwapBuffers] *)
Definition SwapBuffers : V unit :=
  let* double := gets m_doubleBufferingEnabled in
  let* front := gets m_frontBuffer in
  let* back := gets m_backBuffer in
  whenM double (memcpy (Z.to_nat (mul64 (pitch front) (height front)))
                       (BaseAddress front) (BaseAddress back)).

(** ** Staying inside the framebuffer *)

(** The bytes of a framebuffer from row [y0] down. *)
Definition rows_from (fb : FrameBuffer) (y0 a : Z) : Prop :=
  BaseAddress fb + y0 * pitch fb <= a < BaseAddress fb + pitch fb * height fb.

Notation in_fb fb := (rows_from fb 0).

(** A framebuffer whose geometry is consistent and whose bytes are mapped. *)
Record fb_ok (fb : FrameBuffer) : Prop := {
  fb_base : 0 <= BaseAddress fb;
  fb_width : 0 <= width fb;
  fb_height : 0 <= height fb;
  fb_bpp : 8 <= bpp fb <= 64;
  fb_pitch : width fb * (bpp fb / 8) <= pitch fb;
  fb_end : BaseAddress fb + pitch fb * height fb < W64;
  fb_valid : forall a, in_fb fb a -> valid a = true
}.

(** [s'] differs from [s] only in bytes of [fb] from row [y0] down. *)
Definition draws (fb : FrameBuffer) (y0 : Z) (s s' : vga) : Prop :=
  exists mm, s' = set_vmem mm s /\ forall a, ~ rows_from fb y0 a -> mm a = vmem s a.

#[local] Instance draws_po fb y0 : PreOrder (draws fb y0).
Proof.
  split.
  - intros s. exists (vmem s). split; [by destruct s|done].
  - intros s1 s2 s3 (m1 & -> & H1) (m2 & -> & H2). exists m2.
    split; [by destruct s1|]. intros a Ha. rewrite (H2 a Ha). by apply H1.
Qed.

Lemma draws_trans fb y0 s1 s2 (m : V unit) :
  draws fb y0 s1 s2 -> runs m s2 (fun _ => draws fb y0 s2) -> runs m s2 (fun _ => draws fb y0 s1).
Proof. intros H Hm. eapply runs_mono; [exact Hm|]. intros ? s3 H3. by transitivity s2. Qed.

Lemma draws_bind fb y0 s (m1 : V unit) (m2 : V unit) :
  runs m1 s (fun _ => draws fb y0 s) ->
  (forall s1, draws fb y0 s s1 -> runs m2 s1 (fun _ => draws fb y0 s1)) ->
  runs (m1 ;;; m2) s (fun _ => draws fb y0 s).
Proof.
  intros H1 H2. apply runs_bind. eapply runs_mono; [exact H1|].
  intros ? s1 Hs. eapply draws_trans; eauto.
Qed.

Lemma loopM_draws fb y0 n : forall a (body : Z -> V unit) s,
  0 <= a -> a + Z.of_nat n <= W64 ->
  (forall i s1, a <= i < a + Z.of_nat n -> draws fb y0 s s1 -> runs (body i) s1 (fun _ => draws fb y0 s1)) ->
  runs (loopM n a body) s (fun _ => draws fb y0 s).
Proof.
  induction n as [|n IH]; intros a body s Ha Hn Hbody; cbn [loopM]; [by apply runs_ret|].
  apply draws_bind; [apply Hbody; [lia|reflexivity]|]. intros s1 Hs1.
  destruct n as [|n]; [by apply runs_ret|].
  rewrite add64_small by lia. apply IH; [lia|lia|].
  intros i s2 Hi Hs2. apply Hbody; [lia|by transitivity s1].
Qed.

Section InBounds.
Context (fb : FrameBuffer) (Hfb : fb_ok fb) (y0 : Z) (Hy0 : 0 <= y0).

Lemma rows_valid a : rows_from fb y0 a -> valid a = true.
Proof.
  destruct Hfb as [H1 H2 H3 H4 H5 H6 H7]. intros Ha. apply H7. unfold rows_from in *.
  assert (0 <= bpp fb / 8) by (apply Z.div_pos; lia).
  assert (0 <= pitch fb) by nia. nia.
Qed.

Lemma base_rows : BaseAddress fb <= BaseAddress fb + y0 * pitch fb.
Proof.
  destruct Hfb as [H1 H2 H3 H4 H5 H6 H7].
  assert (0 <= bpp fb / 8) by (apply Z.div_pos; lia).
  assert (0 <= pitch fb) by nia. nia.
Qed.

Lemma store8_draws a v s : rows_from fb y0 a -> runs (store8 a v) s (fun _ => draws fb y0 s).
Proof.
  intros Ha. unfold store8. rewrite (rows_valid a Ha). apply runs_modify.
  eexists. split; [done|]. intros b Hb. by rewrite fn_lookup_insert_ne by congruence.
Qed.

Lemma store_draws n : forall a v s,
  BaseAddress fb + y0 * pitch fb <= a -> a + Z.of_nat n <= BaseAddress fb + pitch fb * height fb ->
  runs (store n a v) s (fun _ => draws fb y0 s).
Proof.
  pose proof base_rows. pose proof (fb_base _ Hfb). pose proof (fb_end _ Hfb).
  induction n as [|n IH]; intros a v s Ha Hn; cbn [store]; [by apply runs_ret|].
  apply draws_bind; [apply store8_draws; split; lia|]. intros s1 _.
  rewrite add64_small by lia. apply IH; lia.
Qed.

(** A pixel of the picture lies in the framebuffer. *)
Lemma pixel_bounds x y : 0 <= x < width fb -> y0 <= y < height fb ->
  let pixel := add64 (add64 (BaseAddress fb) (mul64 y (pitch fb))) (mul64 x (bpp fb / 8)) in
  BaseAddress fb + y0 * pitch fb <= pixel /\ pixel + bpp fb / 8 <= BaseAddress fb + pitch fb * height fb.
Proof.
  destruct Hfb as [H1 H2 H3 H4 H5 H6 H7]. intros Hx Hy.
  assert (0 <= bpp fb / 8) by (apply Z.div_pos; lia).
  assert (x * (bpp fb / 8) + bpp fb / 8 <= pitch fb) by nia.
  assert (y * pitch fb + pitch fb <= pitch fb * height fb) by nia.
  assert (0 <= x * (bpp fb / 8)) by nia. assert (0 <= y * pitch fb) by nia.
  assert (y0 * pitch fb <= y * pitch fb) by nia.
  cbv zeta. rewrite (mul64_small y) by lia. rewrite (mul64_small x) by lia.
  rewrite (add64_small (BaseAddress fb)) by lia. rewrite add64_small by lia. lia.
Qed.

Lemma WriteToFrameBuffer_draws x y colour s : 0 <= x < width fb -> y0 <= y < height fb ->
  runs (WriteToFrameBuffer fb x y colour) s (fun _ => draws fb y0 s).
Proof.
  intros Hx Hy. pose proof (pixel_bounds x y Hx Hy) as Hp. cbv zeta in Hp.
  pose proof base_rows. pose proof (fb_base _ Hfb). pose proof (fb_end _ Hfb).
  unfold WriteToFrameBuffer. cbv zeta.
  set (p := add64 (add64 (BaseAddress fb) (mul64 y (pitch fb))) (mul64 x (bpp fb / 8))) in *.
  clearbody p. set (raw := fst _). clearbody raw.
  remember (bpp fb / 8) as k eqn:Hk.
  assert (Hst : forall n a v s1, BaseAddress fb + y0 * pitch fb <= a -> a + Z.of_nat n <= p + k ->
    runs (store n a v) s1 (fun _ => draws fb y0 s1)) by (intros; apply store_draws; lia).
  assert (Hadd : forall i, 0 <= i <= k -> add64 p i = p + i)
    by (intros; apply add64_small; lia).
  destruct (bpp fb) as [|q|] eqn:Eb; [by apply runs_ret| |by apply runs_ret].
  repeat (destruct q as [q|q|]; try by apply runs_ret);
    vm_compute in Hk; subst k; rewrite ?Hadd by lia;
    repeat (lazymatch goal with |- runs (bind _ _) _ _ => apply draws_bind; [|intros ? _] end);
    apply Hst; lia.
Qed.

Lemma ClearFrameBuffer_draws colour s : y0 = 0 ->
  height fb < W64 -> width fb < W64 ->
  runs (ClearFrameBuffer fb colour) s (fun _ => draws fb y0 s).
Proof.
  destruct Hfb as [_ H2 H3 _ _ _ _]. intros Hz Hh Hw.
  apply loopM_draws; [lia|lia|]. intros y s1 Hy _. apply loopM_draws; [lia|lia|].
  intros x s2 Hx _. apply WriteToFrameBuffer_draws; lia.
Qed.

(** A character cell. *)
Lemma WriteChar_draws x y fg bg c s :
  0 <= x -> x + 8 <= width fb -> y0 <= y -> y + 16 <= height fb ->
  width fb < W64 -> height fb < W64 ->
  runs (WriteCharToFrameBuffer fb x y fg bg c) s (fun _ => draws fb y0 s).
Proof.
  intros Hx Hx' Hy Hy' Hw Hh. unfold WriteCharToFrameBuffer. mgo.
  apply loopM_draws; [lia|lia|]. intros cy s1 Hcy _. apply loopM_draws; [lia|lia|].
  intros cx s2 Hcx _. rewrite !add64_small by lia.
  apply runs_if; intros _; apply WriteToFrameBuffer_draws; lia.
Qed.

Lemma FilledRectangle_draws x y w h colour s : m_backBuffer s = fb ->
  0 <= x -> 0 <= w -> x + w <= width fb -> y0 <= y -> 0 <= h -> y + h <= height fb ->
  width fb < W64 -> height fb < W64 ->
  runs (DrawFilledRectangle x y w h colour) s (fun _ => draws fb y0 s).
Proof.
  intros Hb Hx Hw Hx' Hy Hh Hy' Hw' Hh'.
  assert (Hs : forall a n, 0 <= a -> 0 <= n -> a + n < W64 -> Z.of_nat (span a n) = n)
    by (intros a n ???; unfold span; rewrite add64_small by lia; lia).
  apply loopM_draws; [lia|rewrite Hs; lia|]. intros i s1 Hi Hs1.
  apply loopM_draws; [lia|rewrite Hs; lia|]. intros j s2 Hj Hs2.
  rewrite Hs in Hi by lia. rewrite Hs in Hj by lia.
  assert (m_backBuffer s2 = fb) as Hb2
    by (destruct Hs1 as (?&->&_), Hs2 as (?&->&_); destruct s; exact Hb).
  unfold PlotPixel. mgo. rewrite Hb2. apply WriteToFrameBuffer_draws; lia.
Qed.

Lemma memcpy_draws n : forall dst src s,
  BaseAddress fb + y0 * pitch fb <= dst -> dst + Z.of_nat n <= BaseAddress fb + pitch fb * height fb ->
  0 <= src -> src + Z.of_nat n < W64 ->
  (forall a, src <= a < src + Z.of_nat n -> valid a = true) ->
  runs (memcpy n dst src) s (fun _ => draws fb y0 s).
Proof.
  pose proof base_rows as Hbr. pose proof (fb_base _ Hfb). pose proof (fb_end _ Hfb).
  induction n as [|n IH]; intros dst src s G1 G2 G3 G4 G5; cbn [memcpy]; [by apply runs_ret|].
  rewrite G5 by lia. mgo. rewrite !add64_small by lia.
  eapply runs_mono; [apply store8_draws; split; lia|]. intros ? s1 Hs1.
  eapply draws_trans; [exact Hs1|]. apply IH; try lia. intros b Hb. apply G5. lia.
Qed.
End InBounds.


(** A forward copy to a lower address moves every byte, overlap or not. *)
Lemma memcpy_moves n : forall dst src s,
  0 <= dst <= src -> src + Z.of_nat n < W64 ->
  (forall a, dst <= a < dst + Z.of_nat n \/ src <= a < src + Z.of_nat n -> valid a = true) ->
  exists mm, memcpy n dst src s = Ok (tt, set_vmem mm s) /\
    forall a, mm a = if decide (dst <= a < dst + Z.of_nat n) then vmem s (a - dst + src) else vmem s a.
Proof.
  induction n as [|n IH]; intros dst src s H1 H2 H3.
  - exists (vmem s). split; [by destruct s|]. intros a. by rewrite decide_False by lia.
  - cbn [memcpy]. unfold bind, store8, gets, modify, ret. rewrite !H3 by lia.
    rewrite !add64_small by lia.
    set (s1 := set_vmem (<[dst := vmem s src]> (vmem s)) s).
    destruct (IH (dst + 1) (src + 1) s1) as (mm & Hmm & Hat); [lia|lia|intros; apply H3; lia|].
    exists mm. split; [by rewrite Hmm; destruct s|]. intros a. rewrite Hat.
    unfold s1. destruct s; cbn.
    case_decide as D1; case_decide as D2; try lia.
    + rewrite fn_lookup_insert_ne by lia. f_equal. lia.
    + assert (a = dst) as -> by lia. rewrite fn_lookup_insert. f_equal. lia.
    + by rewrite fn_lookup_insert_ne by lia.
Qed.

(** ** The console's invariant *)

(** The cursor is on a cell of the grid. *)
Definition on_grid (v : vga) : Prop :=
  exists cx cy, 0 <= cx < m_numberOfColumns v /\ 0 <= cy < m_numberOfRows v /\
    m_cursorX v = cx * CHAR_WIDTH /\ m_cursorY v = cy * CHAR_HEIGHT.

(** The grid lies in the picture, the cursor on the grid. *)
Record console_ok (v : vga) : Prop := {
  c_fb : fb_ok (m_backBuffer v);
  c_rows : m_numberOfRows v * CHAR_HEIGHT <= height (m_backBuffer v);
  c_columns : m_numberOfColumns v * CHAR_WIDTH <= width (m_backBuffer v);
  c_cursor : on_grid v
}.

(** [v'] differs from [v] in the cursor and in bytes of the back buffer, nothing else. *)
Definition moves (v v' : vga) : Prop :=
  exists x y mm, v' = set_vmem mm (set_cursor x y v) /\
    forall a, ~ in_fb (m_backBuffer v) a -> mm a = vmem v a.

#[local] Instance moves_po : PreOrder moves.
Proof.
  split.
  - intros v. exists (m_cursorX v), (m_cursorY v), (vmem v). by destruct v.
  - intros v1 v2 v3 (x1 & y1 & m1 & -> & H1) (x2 & y2 & m2 & -> & H2).
    exists x2, y2, m2. split; [by destruct v1|].
    destruct v1; cbn in *. intros a Ha. rewrite H2 by done. by apply H1.
Qed.

(** What printing may do: it moves the cursor to a cell and draws. *)
Definition prints (v v' : vga) : Prop := moves v v' /\ on_grid v'.

Lemma moves_cursor x y v : moves v (set_cursor x y v).
Proof. exists x, y, (vmem v). by destruct v. Qed.

Lemma draws_moves v v' : draws (m_backBuffer v) 0 v v' -> moves v v'.
Proof.
  intros (mm & -> & H). exists (m_cursorX v), (m_cursorY v), mm.
  split; [by destruct v|done].
Qed.

Lemma moves_on_grid v v' cx cy : moves v v' ->
  0 <= cx < m_numberOfColumns v -> 0 <= cy < m_numberOfRows v ->
  m_cursorX v' = cx * CHAR_WIDTH -> m_cursorY v' = cy * CHAR_HEIGHT -> prints v v'.
Proof.
  intros H Hx Hy Ex Ey. split; [done|]. destruct H as (x & y & mm & -> & _).
  exists cx, cy. by destruct v.
Qed.

Lemma prints_ok v v' : console_ok v -> prints v v' -> console_ok v'.
Proof. intros [H1 H2 H3 H4] ((x & y & mm & -> & _) & Hg). destruct v. by split. Qed.

Lemma prints_refl v : console_ok v -> prints v v.
Proof. intros H. split; [reflexivity|apply H]. Qed.

Lemma prints_trans v1 v2 v3 : moves v1 v2 -> prints v2 v3 -> prints v1 v3.
Proof. intros H1 [H2 H3]. split; [by transitivity v2|done]. Qed.

Lemma prints_bind v (m1 m2 : V unit) :
  runs m1 v (fun _ => prints v) ->
  (forall v1, console_ok v1 -> runs m2 v1 (fun _ => prints v1)) ->
  console_ok v -> runs (m1 ;;; m2) v (fun _ => prints v).
Proof.
  intros H1 H2 Hok. apply runs_bind. eapply runs_mono; [exact H1|]. intros ? v1 Hv1.
  eapply runs_mono; [apply H2; by eapply prints_ok|]. intros ? v2. apply prints_trans, Hv1.
Qed.

(** The sizes of the picture fit a word. *)
Lemma console_sizes v : console_ok v ->
  16 <= height (m_backBuffer v) < W64 /\ 10 <= width (m_backBuffer v) < W64 /\
  width (m_backBuffer v) <= pitch (m_backBuffer v) /\
  1 <= m_numberOfColumns v /\ 1 <= m_numberOfRows v.
Proof.
  intros [[H1 H2 H3 H4 H5 H6 H7] Hr Hc (cx & cy & Hx & Hy & _)]. unfold CHAR_WIDTH, CHAR_HEIGHT in *.
  set (fb := m_backBuffer v) in *.
  assert (1 <= bpp fb / 8) by (apply Z.div_le_lower_bound; lia).
  assert (width fb <= pitch fb) by nia.
  assert (height fb <= pitch fb * height fb) by nia.
  assert (pitch fb <= pitch fb * height fb) by nia. lia.
Qed.

(** Scrolling by one line. *)
Lemma Scroll_runs v : fb_ok (m_backBuffer v) -> 16 <= m_cursorY v < W64 ->
  16 <= height (m_backBuffer v) < W64 -> 0 < width (m_backBuffer v) < W64 ->
  width (m_backBuffer v) <= pitch (m_backBuffer v) ->
  runs (Scroll 1) v (fun _ v' => moves v v' /\
    m_cursorX v' = m_cursorX v /\ m_cursorY v' = m_cursorY v - 16).
Proof.
  intros Hfb Hy Hh Hw Hp. set (fb := m_backBuffer v) in *.
  pose proof (fb_base _ Hfb). pose proof (fb_end _ Hfb).
  assert (16 * pitch fb <= pitch fb * height fb) by nia.
  unfold Scroll, CHAR_HEIGHT. mgo. fold fb.
  change (mul64 1 16) with 16. rewrite (sub64_small (height fb)) by lia.
  rewrite (mul64_small 1) by lia. rewrite Z.mul_1_l.
  rewrite (mul64_small (pitch fb) 16) by lia. rewrite mul64_small by nia.
  rewrite add64_small by lia.
  eapply runs_mono.
  { apply memcpy_draws with (fb := fb) (y0 := 0); [done|lia|lia|nia|lia|nia|].
    intros a Ha. apply (fb_valid _ Hfb). unfold rows_from. nia. }
  intros ? v1 Hv1. apply runs_bind.
  assert (Hb : m_backBuffer v1 = fb) by (destruct Hv1 as (?&->&_); by destruct v).
  eapply runs_mono; [apply FilledRectangle_draws with (fb := fb) (y0 := 0); try done; lia|].
  intros ? v2 Hv2. mgo. pose proof (transitivity Hv1 Hv2) as H12. split.
  - etransitivity; [apply draws_moves, H12|]. apply moves_cursor.
  - destruct H12 as (mm & -> & _). destruct v; cbn in *. by rewrite sub64_small by lia.
Qed.

(** Only the row of the cursor matters to [NewLine]. *)
Lemma NewLine_row v cy : console_ok (set_cursor 0 (cy * 16) v) ->
  0 <= cy < m_numberOfRows v -> m_cursorY v = cy * 16 -> runs NewLine v (fun _ => prints v).
Proof.
  intros Hok Hy Ey. pose proof (console_sizes _ Hok) as (Hh & Hw & Hp & Hc & Hr).
  destruct Hok as [Hfb Hrows Hcols _]. unfold CHAR_WIDTH, CHAR_HEIGHT in *.
  cbn in Hfb, Hrows, Hcols, Hh, Hw, Hp, Hc, Hr. unfold NewLine, CHAR_HEIGHT. mgo.
  - intros Hb. cbn in Hb. zb. rewrite mul64_small in Hb by lia.
    rewrite add64_small in Hb by lia.
    eapply runs_mono; [apply Scroll_runs; cbn; try done; rewrite ?add64_small; lia|].
    intros ? v' (Hm & Ex' & Ey'). cbn in Ex', Ey'. rewrite add64_small in Ey' by lia.
    apply (moves_on_grid _ _ 0 cy); unfold CHAR_HEIGHT; try lia.
    etransitivity; [|exact Hm]. etransitivity; apply moves_cursor.
  - intros Hb. cbn in Hb. zb. rewrite mul64_small in Hb by lia. rewrite add64_small in Hb by lia.
    apply (moves_on_grid _ _ 0 (cy + 1)); cbn; unfold CHAR_HEIGHT; rewrite ?add64_small by lia; try lia.
    etransitivity; apply moves_cursor.
Qed.

Lemma NewLine_prints v : console_ok v -> runs NewLine v (fun _ => prints v).
Proof.
  intros Hok. pose proof (console_sizes _ Hok) as (_ & _ & _ & Hc & _).
  destruct Hok as [Hfb Hrows Hcols (cx & cy & Hx & Hy & Ex & Ey)].
  apply (NewLine_row v cy); [|done|done]. split; try done. exists 0, cy. cbn. unfold CHAR_HEIGHT. lia.
Qed.

Lemma Backspace_prints v : console_ok v -> runs Backspace v (fun _ => prints v).
Proof.
  intros Hok. pose proof (console_sizes v Hok) as (Hh & Hw & Hp & Hc & Hr).
  destruct Hok as [Hfb Hrows Hcols (cx & cy & Hx & Hy & Ex & Ey)].
  unfold CHAR_WIDTH, CHAR_HEIGHT in *. unfold Backspace, CHAR_WIDTH, CHAR_HEIGHT. mgo.
  apply (runs_mono _ _ (fun _ v' => exists cx' cy', v' = set_cursor (cx' * 10) (cy' * 16) v /\
    0 <= cx' < m_numberOfColumns v /\ 0 <= cy' < m_numberOfRows v)).
  - apply runs_if; intros Hb; zb.
    + apply runs_when; intros Hb'; zb.
      * mgo. exists (m_numberOfColumns v - 1), (cy - 1).
        rewrite (sub64_small _ 1), mul64_small, sub64_small by lia.
        split; [f_equal; lia|lia].
      * exists cx, cy. rewrite <- Ex, <- Ey. split; [by destruct v|lia].
    + mgo. exists (cx - 1), cy. rewrite sub64_small by lia. split; [f_equal; lia|lia].
  - intros ? v' (cx' & cy' & -> & Hx' & Hy'). mgo.
    eapply runs_mono; [apply FilledRectangle_draws with (fb := m_backBuffer v) (y0 := 0);
      cbn; done || lia|].
    intros ? v'' Hd. cbv beta in Hd. apply (moves_on_grid _ _ cx' cy'); try lia.
    + etransitivity; [apply moves_cursor|by apply draws_moves].
    + by destruct Hd as (mm & -> & _).
    + by destruct Hd as (mm & -> & _).
Qed.

Lemma PrintGlyph_prints c v : console_ok v -> runs (PrintGlyph c) v (fun _ => prints v).
Proof.
  intros Hok. pose proof (console_sizes v Hok) as (Hh & Hw & Hp & Hc & Hr).
  pose proof Hok as [Hfb Hrows Hcols (cx & cy & Hx & Hy & Ex & Ey)].
  unfold CHAR_WIDTH, CHAR_HEIGHT in *. unfold PrintGlyph, CHAR_WIDTH. mgo.
  eapply runs_mono; [apply WriteChar_draws with (y0 := 0); done || lia|].
  intros ? v1 Hd. cbv beta in Hd. do 6 (mstep; cbv beta).
  set (v2 := set_cursor _ _ v1).
  assert (Hm : moves v v2) by (etransitivity; [by apply draws_moves|apply moves_cursor]).
  assert (m_cursorX v2 = cx * 10 + 10 /\ m_cursorY v2 = cy * 16 /\
    m_numberOfColumns v2 = m_numberOfColumns v) as (Ex2 & Ey2 & Ec2).
  { subst v2. destruct Hd as (mm & -> & _). cbn. rewrite add64_small by lia. lia. }
  rewrite Ex2, Ec2, mul64_small by lia. apply runs_when; intros Hb; zb.
  - eapply runs_mono; [apply (NewLine_row v2 cy)|by intros ? ?; apply prints_trans].
    + clear - Hm Hfb Hrows Hcols Hy Hx Hc. destruct Hm as (x & y & mm & -> & _).
      split; try done. exists 0, cy. cbn. unfold CHAR_HEIGHT. lia.
    + clear - Hm Hy. by destruct Hm as (x & y & mm & -> & _).
    + done.
  - apply (moves_on_grid _ _ (cx + 1) cy); unfold CHAR_WIDTH, CHAR_HEIGHT; done || lia.
Qed.

Lemma loopM_prints n : forall a m v, (forall v1, console_ok v1 -> runs m v1 (fun _ => prints v1)) ->
  console_ok v -> runs (loopM n a (fun _ => m)) v (fun _ => prints v).
Proof.
  induction n as [|n IH]; intros a m v Hm Hok; cbn [loopM].
  - apply runs_ret. by apply prints_refl.
  - apply prints_bind; [by apply Hm| |done]. intros v1 Hv1. by apply IH.
Qed.

Lemma PrintChar_prints c v : console_ok v -> runs (PrintChar c) v (fun _ => prints v).
Proof.
  intros Hok.
  assert (Hrest : runs (PrintGlyph c) v (fun _ => prints v)) by by apply PrintGlyph_prints.
  pose proof (console_sizes v Hok) as (Hh & Hw & _ & Hc & Hr).
  assert (H12 : runs (let* bg := gets m_backgroundColour in ClearScreen bg ;;; modify (set_cursor 0 0)) v
    (fun _ => prints v)).
  { mgo. unfold ClearScreen. mgo.
    eapply runs_mono; [apply ClearFrameBuffer_draws with (y0 := 0); [apply Hok|lia|lia|lia|lia]|].
    intros ? v1 Hd. cbv beta in Hd. mgo.
    apply (moves_on_grid _ _ 0 0); try lia; try done.
    etransitivity; [by apply draws_moves|apply moves_cursor]. }
  assert (H13 : runs (modify (fun s => set_cursor 0 (m_cursorY s) s)) v (fun _ => prints v)).
  { mgo. destruct Hok as [_ _ _ (cx & cy & Hx & Hy & Ex & Ey)].
    apply (moves_on_grid _ _ 0 cy); try done; [apply moves_cursor|lia]. }
  assert (H9 : runs (loopM 4 0 (fun _ => PrintGlyph 32)) v (fun _ => prints v)).
  { apply loopM_prints; [|done]. intros. by apply PrintGlyph_prints. }
  assert (H7 : runs (ret tt) v (fun _ => prints v)) by (apply runs_ret; by apply prints_refl).
  pose proof (NewLine_prints v Hok). pose proof (Backspace_prints v Hok).
  unfold PrintChar. destruct c as [|q|]; [exact Hrest| |exact Hrest].
  repeat (destruct q as [q|q|]; try assumption).
Qed.

Lemma PrintString_prints str : forall v, console_ok v -> runs (PrintString str) v (fun _ => prints v).
Proof.
  induction str as [|c str IH]; intros v Hok; cbn [PrintString].
  - apply runs_ret. by apply prints_refl.
  - apply prints_bind; [by apply PrintChar_prints|done|done].
Qed.

(** What [Init] establishes, for a mapped framebuffer that holds one cell. *)
Lemma Init_ok fb bg fg v : fb_ok fb -> CHAR_WIDTH <= width fb < W64 -> CHAR_HEIGHT <= height fb < W64 ->
  runs (Init fb bg fg) v (fun _ => console_ok).
Proof.
  intros Hfb Hw Hh. unfold Init, ClearScreen, CHAR_WIDTH, CHAR_HEIGHT in *. mgo.
  eapply runs_mono; [apply ClearFrameBuffer_draws with (y0 := 0); cbn; done || lia|].
  intros ? v' (mm & -> & _). destruct v; cbn.
  assert (1 <= width fb / 10) by (apply Z.div_le_lower_bound; lia).
  assert (1 <= height fb / 16) by (apply Z.div_le_lower_bound; lia).
  split; cbn; [done| | |exists 0, 0; cbn; lia]; unfold CHAR_WIDTH, CHAR_HEIGHT; zlia.
Qed.

(** ** Theorems *)

(** Printing any string on a console with its cursor on the grid draws only inside
    the back buffer and leaves the cursor on the grid again: no character, control
    character or scroll makes the console store outside its framebuffer. *)
Theorem console_stays_on_screen v str : console_ok v ->
  exists v', PrintString str v = Ok (tt, v') /\ console_ok v' /\
    m_backBuffer v' = m_backBuffer v /\
    forall a, ~ in_fb (m_backBuffer v) a -> vmem v' a = vmem v a.
Proof.
  intros Hok. destruct (PrintString_prints str v Hok) as ([] & v' & Hrun & Hp).
  exists v'. split; [done|]. split; [by eapply prints_ok|].
  destruct Hp as [(x & y & mm & -> & Hmm) _]. by destruct v.
Qed.

(** Scrolling shows, in every row above the last text line, the row that was one
    text line lower, although source and destination of the copy overlap; and it moves
    the cursor up by one line. *)
Theorem Scroll_shifts v : fb_ok (m_backBuffer v) -> CHAR_HEIGHT <= m_cursorY v < W64 ->
  CHAR_HEIGHT <= height (m_backBuffer v) < W64 -> 0 < width (m_backBuffer v) < W64 ->
  exists v', Scroll 1 v = Ok (tt, v') /\ m_cursorY v' = m_cursorY v - CHAR_HEIGHT /\
    forall y k, 0 <= y < height (m_backBuffer v) - CHAR_HEIGHT -> 0 <= k < pitch (m_backBuffer v) ->
      vmem v' (BaseAddress (m_backBuffer v) + y * pitch (m_backBuffer v) + k) =
      vmem v (BaseAddress (m_backBuffer v) + (y + CHAR_HEIGHT) * pitch (m_backBuffer v) + k).
Proof.
  intros Hfb Hy Hh Hw. unfold CHAR_HEIGHT in *. set (fb := m_backBuffer v) in *.
  pose proof (fb_base _ Hfb). pose proof (fb_end _ Hfb).
  assert (1 <= bpp fb / 8) by (apply Z.div_le_lower_bound; pose proof (fb_bpp _ Hfb); lia).
  assert (width fb <= pitch fb) by (pose proof (fb_pitch _ Hfb); nia).
  assert (16 * pitch fb <= pitch fb * height fb) by nia.
  set (n := Z.to_nat (pitch fb * (height fb - 16))).
  destruct (memcpy_moves n (BaseAddress fb) (BaseAddress fb + pitch fb * 16) v)
    as (m1 & Hcopy & Hm1); [lia|unfold n; nia| |].
  { intros a Ha. apply (fb_valid _ Hfb). unfold rows_from, n in *. nia. }
  destruct (FilledRectangle_draws fb Hfb (height fb - 16) ltac:(lia)
    0 (height fb - 16) (width fb) 16 (m_backgroundColour v) (set_vmem m1 v))
    as ([] & v2 & Hfill & m2 & -> & Hm2); try done || lia.
  eexists. split.
  { unfold Scroll, CHAR_HEIGHT. cbv beta iota delta [bind gets modify]. fold fb.
    change (mul64 1 16) with 16. rewrite (sub64_small (height fb)), (mul64_small 1), Z.mul_1_l by lia.
    rewrite (mul64_small (pitch fb) 16), mul64_small, add64_small by nia. fold n.
    rewrite Hcopy, Hfill. reflexivity. }
  destruct v; cbn in *. split; [by rewrite sub64_small by lia|].
  intros y k Hy' Hk. rewrite Hm2 by (unfold rows_from; nia). rewrite Hm1.
  rewrite decide_True by (unfold n; nia). f_equal. lia.
Qed.
End Ops.

(** A console of two lines and one column at eight bits per pixel. *)
Definition demo_fb : FrameBuffer := mkFB 4096 10 32 10 8 255 0 0 0 0 0.
Definition demo_valid (a : Z) : bool := (4096 <=? a) && (a <? 4416).
Definition demo_vga : vga :=
  mkVGA demo_fb demo_fb (new_Colour 0 0 0) (new_Colour 255 255 255) 0 16 2 1 false [] (fun _ => 0).

Lemma demo_fb_ok : fb_ok demo_valid demo_fb.
Proof.
  split; try (vm_compute; repeat split; discriminate || done).
  unfold rows_from, demo_valid. cbn. intros a Ha. apply andb_true_intro. split; [apply Z.leb_le | apply Z.ltb_lt]; lia.
Qed.

Lemma console_stays_on_screen_witness :
  exists v', PrintString demo_valid [65; 10; 9; 8] demo_vga = Ok (tt, v') /\ console_ok demo_valid v'.
Proof.
  destruct (console_stays_on_screen demo_valid demo_vga [65; 10; 9; 8]) as (v' & H1 & H2 & _).
  - split; [exact demo_fb_ok|cbn; unfold CHAR_HEIGHT; lia|cbn; unfold CHAR_WIDTH; lia|].
    exists 0, 1. vm_compute. repeat split; discriminate || reflexivity.
  - exists v'. exact (conj H1 H2).
Defined.

Lemma Scroll_shifts_witness :
  exists v', Scroll demo_valid 1 demo_vga = Ok (tt, v') /\ m_cursorY v' = 0.
Proof.
  destruct (Scroll_shifts demo_valid demo_vga demo_fb_ok) as (v' & H1 & H2 & _);
    [vm_compute; split; discriminate || reflexivity..|].
  exists v'. exact (conj H1 H2).
Defined.
End Graphics.
