(* ===== verification/TTY.v ===== *)
(** * TTY.v: terminals (src/kernel/src/tty)

    A terminal has four streams, each with a backend: the VGA console, the debug
    port, or the base class, whose virtual methods do nothing. Backends and
    consoles are objects reached by pointer and shared between streams, so they
    live in a store. *)

From S2P Require Import Prelude FileDescriptor Graphics.
Import FileDescriptor(TTYStream, IN, OUT, ERR, DEBUG, INVALID).

#[local] Open Scope Z_scope.
#[local] Open Scope kernel_scope.

Module TTY.

Notation vga := Graphics.vga.

(** ** Data *)

Inductive TTYBackendType : Set := VGA | Debug | INVALID_TYPE.

#[global] Instance TTYBackendType_eq_dec : EqDecision TTYBackendType.
Proof. solve_decision. Defined.

(** Class [TTYBackend]; [m_vga] is the member of [TTYBackendVGA]. *)
Record TTYBackend : Set := mkBackend {
  m_type : TTYBackendType;
  m_lock : bool;
  m_intState : Z;
  m_vga : Z
}.

(** Class [TTY] *)
Record TTY : Set := mkTTY {
  m_backends : list Z;
  m_debugMirroring : bool
}.

Definition new_TTY : TTY := mkTTY [0; 0; 0; 0] true.

(** The terminal in use, the objects it reaches, the bytes sent to the debug
    port and the interrupt flag of the processor. *)
Record world : Type := mkWorld {
  g_CurrentTTY : option TTY;
  backends : gmap Z TTYBackend;
  vgas : gmap Z vga;
  port : list Z;
  interrupts : bool
}.

Definition set_tty (t : option TTY) (w : world) : world :=
  mkWorld t (backends w) (vgas w) (port w) (interrupts w).
Definition set_backends (b : gmap Z TTYBackend) (w : world) : world :=
  mkWorld (g_CurrentTTY w) b (vgas w) (port w) (interrupts w).
Definition set_vgas (v : gmap Z vga) (w : world) : world :=
  mkWorld (g_CurrentTTY w) (backends w) v (port w) (interrupts w).
Definition set_port (p : list Z) (w : world) : world :=
  mkWorld (g_CurrentTTY w) (backends w) (vgas w) p (interrupts w).
Definition set_interrupts (i : bool) (w : world) : world :=
  mkWorld (g_CurrentTTY w) (backends w) (vgas w) (port w) i.

(** [(uint64_t)stream] *)
Definition stream_index (s : TTYStream) : nat :=
  match s with IN => 0 | OUT => 1 | ERR => 2 | DEBUG => 3 | INVALID => 4 end.

Section Ops.
(** Mapped video memory. *)
Context (valid : Z -> bool).

Notation W := (M world).

(** ** Processor (arch/x86_64/Processor.cpp) *)

Definition DisableInterrupts : W Z :=
  let* i := gets interrupts in
  modify (set_interrupts false) ;;; ret (if i then 512 else 0).

Definition EnableInterrupts (state : Z) : W unit :=
  whenM ((state =? -1) || (0 <? Z.land state 512)) (modify (set_interrupts true)).

(** ** Debug port (E9.cpp, debug.cpp) *)

Definition debug_putc (c : Z) : W unit := modify (fun w => set_port (port w ++ [c]) w).

Fixpoint debug_puts (str : list Z) : W unit :=
  match str with
  | [] => ret tt
  | c :: str' => debug_putc c ;;; debug_puts str'
  end.

(** ** Backends (TTYBackend.cpp, backends/) *)

(** Access through a pointer. *)
Definition get_backend (p : Z) : W TTYBackend :=
  if p =? 0 then fail NullDereference else
  let* b := gets (fun w => backends w !! p) in
  match b with Some b => ret b | None => fail InvalidAccess end.

Definition put_backend (p : Z) (b : TTYBackend) : W unit :=
  modify (fun w => set_backends (<[p := b]> (backends w)) w).

(** A method call on the console object [p]. *)
Definition call_vga {A} (p : Z) (m : M vga A) : W A :=
  fun w =>
    match vgas w !! p with
    | None => Fail InvalidAccess
    | Some v =>
        match m v with
        | Ok (a, v') => Ok (a, set_vgas (<[p := v']> (vgas w)) w)
        | Fail f => Fail f
        end
    end.

Definition GetType (p : Z) : W TTYBackendType :=
  let* b := get_backend p in ret (m_type b).

Definition Backend_WriteChar (p c : Z) : W unit :=
  let* b := get_backend p in
  match m_type b with
  | VGA => whenM (negb (m_vga b =? 0)) (call_vga (m_vga b) (Graphics.PrintChar valid c))
  | Debug => debug_putc c
  | INVALID_TYPE => ret tt
  end.

Definition Backend_WriteString (p : Z) (str : list Z) : W unit :=
  let* b := get_backend p in
  match m_type b with
  | VGA => whenM (negb (m_vga b =? 0)) (call_vga (m_vga b) (Graphics.PrintString valid str))
  | Debug => debug_puts str
  | INVALID_TYPE => ret tt
  end.

Definition Backend_SwapBuffers (p : Z) : W unit :=
  let* b := get_backend p in
  whenM (negb (m_vga b =? 0)) (call_vga (m_vga b) (Graphics.SwapBuffers valid)).

(** [WriteString(str, length, flush)], [str] being the first [length] characters. *)
Definition Backend_WriteStringN (p : Z) (str : list Z) (flush : bool) : W unit :=
  let* b := get_backend p in
  match m_type b with
  | VGA =>
      whenM (negb (m_vga b =? 0))
        (call_vga (m_vga b) (Graphics.PrintString valid str) ;;;
         whenM flush (call_vga (m_vga b) (Graphics.SwapBuffers valid)))
  | Debug => debug_puts str
  | INVALID_TYPE => ret tt
  end.

(** No backend overrides the reading methods of the base class. *)
Definition Backend_ReadChar (p : Z) : W Z := get_backend p ;;; ret 0.

Definition Backend_SetCursor (p x y : Z) : W unit :=
  let* b := get_backend p in
  match m_type b with
  | VGA => whenM (negb (m_vga b =? 0))
      (call_vga (m_vga b) (Graphics.SetCursor (mul64 x Graphics.CHAR_WIDTH) (mul64 y Graphics.CHAR_HEIGHT)))
  | _ => ret tt
  end.

(** The position in characters, or [None] where the references stay as they are. *)
Definition Backend_GetCursor (p : Z) : W (option (Z * Z)) :=
  let* b := get_backend p in
  match m_type b with
  | VGA =>
      if m_vga b =? 0 then ret None else
      let* xy := call_vga (m_vga b) Graphics.GetCursor in
      ret (Some (fst xy / Graphics.CHAR_WIDTH, snd xy / Graphics.CHAR_HEIGHT))
  | _ => ret None
  end.

Definition Backend_Seek (p pos : Z) : W unit :=
  let* b := get_backend p in
  match m_type b with
  | VGA =>
      whenM (negb (m_vga b =? 0))
        (let* columns := call_vga (m_vga b) Graphics.GetNumberOfColumns in
         if columns =? 0 then fail InvalidAccess else
         call_vga (m_vga b) (Graphics.SetCursor (mul64 (pos mod columns) Graphics.CHAR_WIDTH)
                                                (mul64 (pos / columns) Graphics.CHAR_HEIGHT)))
  | _ => ret tt
  end.

(** [TTYBackend::Lock]; acquiring a lock that the same flow of control holds spins forever. *)
Definition Backend_Lock (p : Z) : W unit :=
  let* intState := DisableInterrupts in
  let* b := get_backend p in
  if m_lock b then fail LockHeld else
  put_backend p (mkBackend (m_type b) true intState (m_vga b)).

Definition Backend_Unlock (p : Z) : W unit :=
  let* b := get_backend p in
  put_backend p (mkBackend (m_type b) false (m_intState b) (m_vga b)) ;;;
  EnableInterrupts (m_intState b).

Definition Backend_ForceUnlock (p : Z) : W unit :=
  let* b := get_backend p in
  put_backend p (mkBackend (m_type b) false (m_intState b) (m_vga b)).

(** ** Terminals (TTY.cpp) *)

(** [m_backends[(uint64_t)stream]]; the array has four entries. *)
Definition GetBackend (t : TTY) (stream : TTYStream) : W Z :=
  match m_backends t !! stream_index stream with Some p => ret p | None => fail InvalidAccess end.

Definition SetBackend (t : TTY) (backend : Z) (stream : TTYStream) : W TTY :=
  let* _ := GetBackend t stream in
  ret (mkTTY (<[stream_index stream := backend]> (m_backends t)) (m_debugMirroring t)).

(** A call on the backend of a stream, if it has one. *)
Definition on_backend {A} (t : TTY) (stream : TTYStream) (dflt : A) (m : Z -> W A) : W A :=
  let* p := GetBackend t stream in if p =? 0 then ret dflt else m p.

(** What is written to OUT or ERR also goes to the debug backend. *)
Definition mirrored (t : TTY) (stream : TTYStream) : bool :=
  m_debugMirroring t && (bool_decide (stream = OUT) || bool_decide (stream = ERR)).

Definition WriteChar (t : TTY) (c : Z) (stream : TTYStream) : W unit :=
  on_backend t stream tt (fun p =>
    Backend_WriteChar p c ;;;
    whenM (mirrored t stream) (let* d := GetBackend t DEBUG in Backend_WriteChar d c)).

Definition WriteString (t : TTY) (str : list Z) (stream : TTYStream) : W unit :=
  on_backend t stream tt (fun p =>
    Backend_WriteString p str ;;;
    whenM (mirrored t stream) (let* d := GetBackend t DEBUG in Backend_WriteString d str)).

Definition WriteStringN (t : TTY) (str : list Z) (stream : TTYStream) (flush : bool) : W unit :=
  on_backend t stream tt (fun p =>
    Backend_WriteStringN p str flush ;;;
    whenM (mirrored t stream) (let* d := GetBackend t DEBUG in Backend_WriteStringN d str flush)).

Definition ReadChar (t : TTY) (stream : TTYStream) : W Z :=
  on_backend t stream 0 Backend_ReadChar.

Definition SetCursor (t : TTY) (x y : Z) (stream : TTYStream) : W unit :=
  on_backend t stream tt (fun p => Backend_SetCursor p x y).

Definition GetCursor (t : TTY) (stream : TTYStream) : W (option (Z * Z)) :=
  on_backend t stream None Backend_GetCursor.

Definition Seek (t : TTY) (stream : TTYStream) (pos : Z) : W unit :=
  on_backend t stream tt (fun p => Backend_Seek p pos).

Definition Lock (t : TTY) (stream : TTYStream) : W unit :=
  on_backend t stream tt Backend_Lock.

Definition Unlock (t : TTY) (stream : TTYStream) : W unit :=
  on_backend t stream tt Backend_Unlock.

(** [TTY::ForceUnlockAll] *)
Fixpoint ForceUnlock_each (ps : list Z) : W unit :=
  match ps with
  | [] => ret tt
  | p :: ps' => (if p =? 0 then ret tt else Backend_ForceUnlock p) ;;; ForceUnlock_each ps'
  end.

Definition ForceUnlockAll (t : TTY) : W unit := ForceUnlock_each (m_backends t).

Definition EnableDebugMirroring (t : TTY) : TTY := mkTTY (m_backends t) true.
Definition DisableDebugMirroring (t : TTY) : TTY := mkTTY (m_backends t) false.
End Ops.
End TTY.
