(* ===== verification/Stdio.v ===== *)
(** * Stdio.v: formatted output (src/kernel/lib/src/stdio.cpp)

    The source has two copies of the formatter. This file follows the first,
    [fprintf_uint], [fprintf_int] and [vfprintf], over an arbitrary [putc], which
    is [internal_fputc] on a stream there; Snprintf.v follows the second.

    Characters are [Z]; a C string is the list of its characters before the
    terminator. An [int] is a [Z] in [-2^31, 2^31), with the two's complement
    result where an operation leaves that range. *)

From S2P Require Import Prelude FileDescriptor Graphics TTY.
Import FileDescriptor(TTYStream, IN, OUT, ERR, DEBUG, INVALID).

#[local] Open Scope Z_scope.
#[local] Open Scope kernel_scope.

Module Stdio.

(** Characters of the source. *)
Notation ch_zero := 48 (only parsing).
Notation ch_space := 32 (only parsing).
Notation ch_minus := 45 (only parsing).
Notation ch_plus := 43 (only parsing).

(** ** Variable arguments

    An argument slot of the calling convention is a 64-bit word; a [%s] argument
    is the string it points to and a [%n] argument the object it points to. *)
Inductive va_slot : Type :=
  | VWord (w : Z)
  | VStr (s : list Z)
  | VPtr (p : Z).

(** The output, the remaining arguments and the stores made through [%n]. *)
Record io (S : Type) : Type := mkIO {
  sink : S;
  args : list va_slot;
  stores : list (Z * Z)
}.
Arguments mkIO {S} _ _ _.
Arguments sink {S} _.
Arguments args {S} _.
Arguments stores {S} _.

(** ** The formatter's state *)

Inductive PRINTF_MODES : Set := NORMAL | FLAGS | WIDTH | PREC | LEN | SPEC.
Inductive PRINTF_LENGTH : Set :=
  L_CHAR | L_SHORT | L_NORMAL | L_LONG | L_LONG_LONG | L_INTMAX | L_SIZET | L_PTRDIFFT | L_LDOUB.

#[global] Instance PRINTF_LENGTH_eq_dec : EqDecision PRINTF_LENGTH.
Proof. solve_decision. Defined.

(** What one conversion specification has said so far. *)
Record directive : Set := mkDir {
  left_justify : bool;
  force_sign : bool;
  add_blank : bool;
  flags_extra : bool;
  zero_pad : bool;
  width : Z;
  precision : Z;
  len : PRINTF_LENGTH
}.

(** The initial values, and those every specification ends with. *)
Definition directive0 : directive := mkDir false false false false false 0 (-1) L_NORMAL.

Definition set_left (d : directive) : directive :=
  mkDir true (force_sign d) (add_blank d) (flags_extra d) (zero_pad d) (width d) (precision d) (len d).
Definition set_plus (d : directive) : directive :=
  mkDir (left_justify d) true (add_blank d) (flags_extra d) (zero_pad d) (width d) (precision d) (len d).
Definition set_blank (d : directive) : directive :=
  mkDir (left_justify d) (force_sign d) true (flags_extra d) (zero_pad d) (width d) (precision d) (len d).
Definition set_extra (d : directive) : directive :=
  mkDir (left_justify d) (force_sign d) (add_blank d) true (zero_pad d) (width d) (precision d) (len d).
Definition set_zero (d : directive) : directive :=
  mkDir (left_justify d) (force_sign d) (add_blank d) (flags_extra d) true (width d) (precision d) (len d).
Definition set_width (w : Z) (d : directive) : directive :=
  mkDir (left_justify d) (force_sign d) (add_blank d) (flags_extra d) (zero_pad d) w (precision d) (len d).
Definition set_precision (p : Z) (d : directive) : directive :=
  mkDir (left_justify d) (force_sign d) (add_blank d) (flags_extra d) (zero_pad d) (width d) p (len d).
Definition set_len (l : PRINTF_LENGTH) (d : directive) : directive :=
  mkDir (left_justify d) (force_sign d) (add_blank d) (flags_extra d) (zero_pad d) (width d) (precision d) l.

(** The kind of conversion a specifier selects. *)
Record conversion : Set := mkConv {
  number : bool;
  sign : bool;
  upper : bool;
  floating : bool;
  radix : Z
}.

Definition g_HexCharsLOWER : list Z :=
  [48; 49; 50; 51; 52; 53; 54; 55; 56; 57; 97; 98; 99; 100; 101; 102; 0].
Definition g_HexCharsUPPER : list Z :=
  [48; 49; 50; 51; 52; 53; 54; 55; 56; 57; 65; 66; 67; 68; 69; 70; 0].
Definition hex_chars (uppercase : bool) : list Z :=
  if uppercase then g_HexCharsUPPER else g_HexCharsLOWER.

(** The loop that fills [buffer] with the digits of [num], lowest first. The
    array has 64 entries; storing past it ends the loop, so the fuel of 65
    iterations cannot run out. *)
Fixpoint digit_loop (fuel : nat) (buffer : list Z) (pos num radix : Z) (uppercase : bool)
  : result (list Z * Z) :=
  match fuel with
  | O => Fail OutOfFuel
  | S fuel' =>
      if radix =? 0 then Fail InvalidAccess else
      let rem := num mod radix in
      let num' := num / radix in
      match hex_chars uppercase !! Z.to_nat rem with
      | None => Fail InvalidAccess
      | Some ch =>
          if pos <? 64 then
            let buffer' := <[Z.to_nat pos := ch]> buffer in
            if 0 <? num' then digit_loop fuel' buffer' (pos + 1) num' radix uppercase
            else Ok (buffer', pos + 1)
          else Fail InvalidAccess
      end
  end.

Section Format.
(** The state of the output and the call that emits one character. *)
Context {Sk : Type} (putc : Z -> M Sk unit).

Notation T := (M Sk).

(** [for (i = 0; i < n; i++) { putc('0'); min_length--; chars_printed++; }] *)
Fixpoint put_zeros (n : nat) (min_length chars_printed : Z) : T (Z * Z) :=
  match n with
  | O => ret (min_length, chars_printed)
  | S n' => putc ch_zero ;;; put_zeros n' (i32 (min_length - 1)) (i32 (chars_printed + 1))
  end.

(** [for (i = 0; i < n; i++) { putc(padding_type ? '0' : ' '); chars_printed++; }] *)
Fixpoint put_padding (n : nat) (padding_type : bool) (chars_printed : Z) : T Z :=
  match n with
  | O => ret chars_printed
  | S n' => putc (if padding_type then ch_zero else ch_space) ;;;
            put_padding n' padding_type (i32 (chars_printed + 1))
  end.

(** The same loop with a number of leading zeros to use up. *)
Fixpoint put_field (n : nat) (padding_type : bool) (min_digits chars_printed : Z) : T Z :=
  match n with
  | O => ret chars_printed
  | S n' =>
      if padding_type || (0 <? min_digits)
      then putc ch_zero ;;; put_field n' padding_type (i32 (min_digits - 1)) (i32 (chars_printed + 1))
      else putc ch_space ;;; put_field n' padding_type min_digits (i32 (chars_printed + 1))
  end.

(** [for (pos--; pos >= 0; pos--) { putc(buffer[pos]); chars_printed++; }] *)
Fixpoint put_buffer (pos : nat) (buffer : list Z) (chars_printed : Z) : T Z :=
  match pos with
  | O => ret chars_printed
  | S pos' =>
      match buffer !! pos' with
      | None => fail InvalidAccess
      | Some ch => putc ch ;;; put_buffer pos' buffer (i32 (chars_printed + 1))
      end
  end.

(** The case [num == 0] of [fprintf_uint]. *)
Definition print_zero (min_length min_digits : Z) (padding_type padding_orientation : bool) : T Z :=
  if 1 <? min_length then
    if padding_orientation then
      let* (min_length, chars_printed) := put_zeros (Z.to_nat min_digits) min_length 0 in
      let* (min_length, chars_printed) :=
        (if negb (min_digits =? 0)
         then putc ch_zero ;;; ret (i32 (min_length - 1), i32 (chars_printed + 1))
         else ret (min_length, chars_printed)) in
      put_padding (Z.to_nat min_length) padding_type chars_printed
    else
      let zero := negb (min_digits =? 0) in
      let min_digits := if zero then i32 (min_digits - 1) else min_digits in
      let min_length := if zero then i32 (min_length - 1) else min_length in
      let* chars_printed := put_field (Z.to_nat min_length) padding_type min_digits 0 in
      if zero then putc ch_zero ;;; ret (i32 (chars_printed + 1)) else ret chars_printed
  else
    if negb (min_digits =? 0) then putc ch_zero ;;; ret 1 else ret 0.

(** [fprintf_uint] *)
Definition print_uint (min_length min_digits num radix : Z)
    (padding_type padding_orientation uppercase : bool) : T Z :=
  if num =? 0 then print_zero min_length min_digits padding_type padding_orientation else
  match digit_loop 65 (repeat 0 64) 0 num (wrap64 radix) uppercase with
  | Fail f => fail f
  | Ok (buffer, pos) =>
      if pos <? min_length then
        let min_length := i32 (min_length - pos) in
        let min_digits := i32 (min_digits - pos) in
        if padding_orientation then
          let* (min_length, chars_printed) := put_zeros (Z.to_nat min_digits) min_length 0 in
          let* chars_printed := put_buffer (Z.to_nat pos) buffer chars_printed in
          put_padding (Z.to_nat min_length) padding_type chars_printed
        else
          let* chars_printed := put_field (Z.to_nat min_length) padding_type min_digits 0 in
          put_buffer (Z.to_nat pos) buffer chars_printed
      else put_buffer (Z.to_nat pos) buffer 0
  end.

(** [fprintf_int]; a negative [num] is passed on as its absolute value modulo 2^64. *)
Definition print_int (num : Z) (force_sign pad_sign : bool) (min_length min_digits radix : Z)
    (padding_type padding_orientation uppercase : bool) : T Z :=
  let body min_length num chars_printed :=
    let* n := print_uint min_length min_digits (wrap64 num) radix
                padding_type padding_orientation uppercase in
    ret (i32 (n + chars_printed)) in
  if num <? 0 then putc ch_minus ;;; body (i32 (min_length - 1)) (i64 (num * -1)) 1
  else if force_sign then putc ch_plus ;;; body (i32 (min_length - 1)) num 1
  else if pad_sign then putc ch_space ;;; body (i32 (min_length - 1)) num 1
  else body min_length num 0.

(** ** Arguments *)

Notation F := (M (io Sk)).

(** An operation on the output. *)
Definition out {A} (m : T A) : F A :=
  fun s => match m (sink s) with
           | Ok (a, k) => Ok (a, mkIO k (args s) (stores s))
           | Fail f => Fail f
           end.

(** The next argument; reading past the last one is undefined. *)
Definition va_next : F va_slot :=
  fun s => match args s with
           | [] => Fail InvalidAccess
           | a :: rest => Ok (a, mkIO (sink s) rest (stores s))
           end.

Definition va_word : F Z :=
  let* a := va_next in match a with VWord w => ret w | _ => fail InvalidAccess end.
Definition va_string : F (list Z) :=
  let* a := va_next in match a with VStr s => ret s | _ => fail InvalidAccess end.
Definition va_pointer : F Z :=
  let* a := va_next in match a with VPtr p => ret p | _ => fail InvalidAccess end.
Definition va_int : F Z := let* w := va_word in ret (i32 w).

(** A store through a pointer argument. *)
Definition va_store (value : Z) : F unit :=
  let* p := va_pointer in
  modify (fun s => mkIO (sink s) (args s) (stores s ++ [(p, value)])).

(** The signed argument of a number conversion. *)
Definition va_signed (l : PRINTF_LENGTH) : F Z :=
  match l with
  | L_CHAR | L_SHORT => va_int
  | L_LONG | L_LONG_LONG | L_INTMAX | L_SIZET | L_PTRDIFFT => let* w := va_word in ret (i64 w)
  | _ => va_int
  end.

(** The unsigned argument of a number conversion. *)
Definition va_unsigned (l : PRINTF_LENGTH) : F Z :=
  match l with
  | L_CHAR | L_SHORT => let* w := va_word in ret (u32 w)
  | L_LONG | L_LONG_LONG | L_INTMAX | L_SIZET | L_PTRDIFFT => let* w := va_word in ret (wrap64 w)
  | _ => let* w := va_word in ret (u32 w)
  end.

(** [%n]: the number of characters so far, at the width of the argument. *)
Definition store_count (l : PRINTF_LENGTH) (symbols_printed : Z) : F unit :=
  match l with
  | L_CHAR => va_store (i8 symbols_printed)
  | L_SHORT => va_store (i16 symbols_printed)
  | L_LONG | L_LONG_LONG | L_INTMAX | L_PTRDIFFT => va_store (i64 symbols_printed)
  | L_SIZET => va_store (wrap64 symbols_printed)
  | _ => va_store (i32 symbols_printed)
  end.

(** ** One step per mode

    Each returns the next mode, the specification so far and [gotoNextChar]. *)

Definition is_digit (c : Z) : bool := (48 <=? c) && (c <=? 57).

Definition step_flags (c : Z) (d : directive) : PRINTF_MODES * directive * bool :=
  match c with
  | 45 => (FLAGS, set_left d, true)
  | 43 => (FLAGS, set_plus d, true)
  | 32 => (FLAGS, set_blank d, true)
  | 35 => (FLAGS, set_extra d, true)
  | 48 => (FLAGS, set_zero d, true)
  | _ => (WIDTH, d, false)
  end.

Definition step_width (c : Z) (d : directive) : F (PRINTF_MODES * directive * bool) :=
  if c =? 42 then let* w := va_int in ret (LEN, set_width w d, true)
  else if is_digit c then ret (WIDTH, set_width (i32 (i32 (width d * 10) + (c - 48))) d, true)
  else ret (LEN, d, false).

Definition step_prec (c : Z) (d : directive) : F (PRINTF_MODES * directive * bool) :=
  if c =? 42 then let* p := va_int in ret (LEN, set_precision p d, true)
  else if is_digit c then ret (PREC, set_precision (i32 (i32 (precision d * 10) + (c - 48))) d, true)
  else ret (LEN, d, false).

Definition step_len (c : Z) (d : directive) : F (PRINTF_MODES * directive * bool) :=
  match c with
  | 46 => if precision d =? -1 then ret (PREC, set_precision 0 d, true) else fail AssertionFailed
  | 104 => ret (LEN, set_len (if decide (len d = L_SHORT) then L_CHAR else L_SHORT) d, true)
  | 108 => ret (LEN, set_len (if decide (len d = L_LONG) then L_LONG_LONG else L_LONG) d, true)
  | 106 => ret (LEN, set_len L_INTMAX d, true)
  | 122 => ret (LEN, set_len L_SIZET d, true)
  | 116 => ret (LEN, set_len L_PTRDIFFT d, true)
  | 76 => ret (LEN, set_len L_LDOUB d, true)
  | _ => ret (SPEC, d, false)
  end.

(** The specifiers that only select a conversion. *)
Definition select (c : Z) : option conversion :=
  match c with
  | 100 | 105 => Some (mkConv true true false false 10)
  | 117 => Some (mkConv true false false false 10)
  | 111 => Some (mkConv true false false false 8)
  | 112 => Some (mkConv true false false false 16)
  | 120 => Some (mkConv true false false false 16)
  | 88 => Some (mkConv true false true false 16)
  | 102 | 101 | 103 => Some (mkConv true true false true 10)
  | 70 | 69 | 71 => Some (mkConv true true true true 10)
  | 97 => Some (mkConv true true false true 16)
  | 65 => Some (mkConv true true true true 16)
  | _ => None
  end.

(** [%s]: up to [precision] characters when that is positive, then blanks to
    [width]; [j] is the index in the string. *)
Fixpoint put_string (str : list Z) (j : Z) (d : directive) (symbols_printed : Z) : T (directive * Z) :=
  match str with
  | [] => ret (d, symbols_printed)
  | c2 :: str' =>
      if c2 =? 0 then ret (d, symbols_printed) else
      if (0 <? precision d) && (u32 (precision d) <=? j) then ret (d, symbols_printed) else
      putc c2 ;;;
      put_string str' (j + 1) (set_width (i32 (width d - 1)) d) (i32 (symbols_printed + 1))
  end.

(** The prefix printed for the flag [#]. *)
Definition put_prefix (d : directive) (v : conversion) (symbols_printed : Z) : T (directive * Z) :=
  if flags_extra d then
    match radix v with
    | 16 => putc ch_zero ;;; putc (if upper v then 88 else 120) ;;;
            let w := i32 (width d - 2) in
            ret (set_width (if w <? 0 then 0 else w) d, i32 (symbols_printed + 2))
    | 8 => putc ch_zero ;;;
           let w := i32 (width d - 1) in
           ret (set_width (if w <? 0 then 0 else w) d, i32 (symbols_printed + 1))
    | _ => ret (d, symbols_printed)
    end
  else ret (d, symbols_printed).

(** The specifiers that print at once; the others leave the output alone. *)
Definition put_direct (c : Z) (d : directive) (symbols_printed : Z) : F (directive * Z) :=
  match c with
  | 99 => let* a := va_int in
          out (putc (i8 a)) ;;; ret (d, i32 (symbols_printed + 1))
  | 115 => let* str := va_string in
           let* (d, symbols_printed) := out (put_string str 0 d symbols_printed) in
           let* symbols_printed := out (put_padding (Z.to_nat (width d)) false symbols_printed) in
           ret (d, symbols_printed)
  | 110 => store_count (len d) symbols_printed ;;; ret (d, symbols_printed)
  | 37 => out (putc 37) ;;; ret (d, i32 (symbols_printed + 1))
  | _ => ret (d, symbols_printed)
  end.

(** The printing of a number. *)
Definition put_number (d : directive) (v : conversion) (symbols_printed : Z) : F Z :=
  if number v then
    if floating v then fail AssertionFailed else
    if sign v then
      let* num := va_signed (len d) in
      let* n := out (print_int num (force_sign d) (add_blank d) (Z.max (width d) (precision d))
                       (precision d) (radix v) (zero_pad d) (left_justify d) (upper v)) in
      ret (i32 (symbols_printed + n))
    else
      let* num := va_unsigned (len d) in
      let* n := out (print_uint (Z.max (width d) (precision d)) (precision d) num (radix v)
                       (zero_pad d) (left_justify d) (upper v)) in
      ret (i32 (symbols_printed + n))
  else ret symbols_printed.

(** The mode SPEC; [%p] reads a long. *)
Definition step_spec (c : Z) (d : directive) (symbols_printed : Z) : F Z :=
  let d := if c =? 112 then set_len L_LONG d else d in
  let v := match select c with Some v => v | None => mkConv false false false false 10 end in
  let* (d, symbols_printed) := put_direct c d symbols_printed in
  let* (d, symbols_printed) := out (put_prefix d v symbols_printed) in
  put_number d v symbols_printed.

(** ** The loop over the format string *)

(** [format[i]] *)
Definition char_at (format : list Z) (i : nat) : F Z :=
  match format !! i with
  | Some c => ret c
  | None => if (i =? length format)%nat then ret 0 else fail InvalidAccess
  end.

Fixpoint format_loop (fuel : nat) (format : list Z) (i : nat) (mode : PRINTF_MODES)
    (d : directive) (symbols_printed : Z) : F Z :=
  match fuel with
  | O => fail OutOfFuel
  | S fuel' =>
      let* c := char_at format i in
      if c =? 0 then ret symbols_printed else
      let next mode d goto n :=
        format_loop fuel' format (if goto : bool then S i else i) mode d n in
      match mode with
      | NORMAL =>
          if c =? 37 then next FLAGS d true symbols_printed
          else out (putc c) ;;; next NORMAL d true (i32 (symbols_printed + 1))
      | FLAGS => let '(mode, d, goto) := step_flags c d in next mode d goto symbols_printed
      | WIDTH => let* (mode, d, goto) := step_width c d in next mode d goto symbols_printed
      | PREC => let* (mode, d, goto) := step_prec c d in next mode d goto symbols_printed
      | LEN => let* (mode, d, goto) := step_len c d in next mode d goto symbols_printed
      | SPEC => let* symbols_printed := step_spec c d symbols_printed in
                next NORMAL directive0 true symbols_printed
      end
  end.

(** A character is looked at at most once per mode. *)
Definition format_fuel (format : list Z) : nat := 6 * length format + 7.

Definition vformat (format : list Z) : F Z :=
  format_loop (format_fuel format) format 0 NORMAL directive0 0.
End Format.

(** ** Output to a stream *)

Section Streams.
(** Mapped video memory. *)
Context (valid : Z -> bool).

Notation W := (M TTY.world).

Definition stdin : Z := 0.
Definition stdout : Z := 1.
Definition stderr : Z := 2.
Definition stddebug : Z := 3.
Definition EOF : Z := -1.

Definition FDToTTYStream (file : Z) : TTYStream :=
  match file with
  | 0 => IN
  | 1 => OUT
  | 2 => ERR
  | 3 => DEBUG
  | _ => INVALID
  end.

(** The test every function starts with: a terminal and one of its streams, or
    what the function returns without them. *)
Definition with_stream {A} (file : Z) (no_tty bad_fd : A)
    (m : TTY.TTY -> TTYStream -> W A) : W A :=
  let* t := gets TTY.g_CurrentTTY in
  match t with
  | None => ret no_tty
  | Some t =>
      let stream := FDToTTYStream file in
      if decide (stream = INVALID) then ret bad_fd else m t stream
  end.

Fixpoint write_each (t : TTY.TTY) (stream : TTYStream) (data : list Z) : W unit :=
  match data with
  | [] => ret tt
  | c :: data' => TTY.WriteChar valid t c stream ;;; write_each t stream data'
  end.

(** [internal_write], [data] being the bytes at the pointer *)
Definition internal_write (file : Z) (data : list Z) : W Z :=
  with_stream file (- FileDescriptor.ENOSYS) (- FileDescriptor.EBADF) (fun t stream =>
    write_each t stream data ;;; ret (Z.of_nat (length data))).

Fixpoint read_each (t : TTY.TTY) (stream : TTYStream) (n : nat) : W (list Z) :=
  match n with
  | O => ret []
  | S n' => let* c := TTY.ReadChar t stream in
            let* data := read_each t stream n' in ret (c :: data)
  end.

(** [internal_read]: the result and the bytes stored, if any. *)
Definition internal_read (file : Z) (size : nat) : W (Z * list Z) :=
  with_stream file (- FileDescriptor.ENOSYS, []) (- FileDescriptor.EBADF, []) (fun t stream =>
    let* data := read_each t stream size in ret (Z.of_nat size, data)).

Definition internal_seek (file offset : Z) : W Z :=
  with_stream file (- FileDescriptor.ENOSYS) (- FileDescriptor.EBADF) (fun t stream =>
    TTY.Seek t stream (wrap64 offset) ;;; ret offset).

Definition internal_swap_buffers (file : Z) : W unit :=
  with_stream file tt tt (fun t stream =>
    let* backend := TTY.GetBackend t stream in
    let* type := TTY.GetType backend in
    if decide (type = TTY.VGA) then TTY.Backend_SwapBuffers valid backend else ret tt).

Definition internal_lock (file : Z) : W unit :=
  with_stream file tt tt (fun t stream => TTY.Lock t stream).

Definition internal_unlock (file : Z) : W unit :=
  with_stream file tt tt (fun t stream => TTY.Unlock t stream).

Definition stdio_force_unlock : W unit :=
  let* t := gets TTY.g_CurrentTTY in
  match t with None => ret tt | Some t => TTY.ForceUnlockAll t end.

Definition internal_fputs (file : Z) (str : list Z) (swap lock : bool) : W unit :=
  whenM lock (internal_lock file) ;;;
  internal_write file str ;;;
  whenM swap (internal_swap_buffers file) ;;;
  whenM lock (internal_unlock file).

Definition internal_fputc (file c : Z) (swap lock : bool) : W unit :=
  whenM lock (internal_lock file) ;;;
  internal_write file [c] ;;;
  whenM swap (internal_swap_buffers file) ;;;
  whenM lock (internal_unlock file).

(** [getc], [fgetc]: one byte is stored over the low byte of an [int] that
    holds [EOF]. *)
Definition fgetc (file : Z) : W Z :=
  let* (rc, data) := internal_read file 1 in
  let c := match data with [] => EOF | b :: _ => EOF - 255 + b mod 256 end in
  ret (if rc =? EOF then EOF else c).
Definition getc : W Z := fgetc stdin.

Definition putc (c : Z) : W unit := internal_fputc stdout c true true.
Definition puts (str : list Z) : W unit := internal_fputs stdout str true true.
Definition dbgputc (c : Z) : W unit := internal_write stddebug [c] ;;; ret tt.
Definition dbgputs (str : list Z) : W unit := internal_write stddebug str ;;; ret tt.
Definition fputc (file c : Z) : W unit := internal_fputc file c true true.
Definition fputs (file : Z) (str : list Z) : W unit := internal_fputs file str true true.

(** One character of formatted output. *)
Definition stream_putc (file c : Z) : W unit := internal_fputc file c false false.

Definition fprintf_uint (file : Z) := print_uint (stream_putc file).
Definition fprintf_int (file : Z) := print_int (stream_putc file).

(** [vfprintf] *)
Definition vfprintf (file : Z) (format : list Z) : M (io TTY.world) Z :=
  out (internal_lock file) ;;;
  let* symbols_printed := vformat (stream_putc file) format in
  out (internal_unlock file) ;;;
  ret symbols_printed.

Definition fprintf (file : Z) (format : list Z) : M (io TTY.world) Z :=
  let* rc := vfprintf file format in
  out (internal_swap_buffers file) ;;; ret rc.
Definition printf (format : list Z) : M (io TTY.world) Z := fprintf stdout format.
Definition vprintf (format : list Z) : M (io TTY.world) Z := fprintf stdout format.
Definition dbgprintf (format : list Z) : M (io TTY.world) Z := vfprintf stddebug format.
Definition dbgvprintf (format : list Z) : M (io TTY.world) Z := vfprintf stddebug format.

(** [fwrite]: blocks of [size] bytes until one is not written. *)
Fixpoint fwrite_loop (file : Z) (blocks : list (list Z)) (written : Z) : W Z :=
  match blocks with
  | [] => ret written
  | b :: blocks' =>
      let* n := internal_write file b in
      if 0 <? n then fwrite_loop file blocks' (written + 1) else ret written
  end.

Definition fwrite (file : Z) (blocks : list (list Z)) : W Z :=
  let* written := fwrite_loop file blocks 0 in
  whenM (0 <? written) (internal_swap_buffers file) ;;; ret written.

Fixpoint fread_loop (file : Z) (size count : nat) (got : Z) (acc : list Z) : W (Z * list Z) :=
  match count with
  | O => ret (got, acc)
  | S count' =>
      let* (n, data) := internal_read file size in
      if 0 <? n then fread_loop file size count' (got + 1) (acc ++ data) else ret (got, acc)
  end.

Definition fread (file : Z) (size count : nat) : W (Z * list Z) := fread_loop file size count 0 [].

Definition fseek (file offset origin : Z) : W Z :=
  if negb (origin =? 0) then ret (- FileDescriptor.EINVAL) else
  let* rc := internal_seek file offset in ret (i32 rc).
Definition rewind (file : Z) : W unit := internal_seek file 0 ;;; ret tt.
End Streams.

(** ** Output to an array *)

(** The array [s] and [*current_size]. *)
Record snbuf : Set := mkSn { sn_s : list Z; sn_size : Z }.

Definition snputc (max_size c : Z) : M snbuf unit :=
  fun b =>
    if sn_size b <? max_size then
      if sn_size b <? Z.of_nat (length (sn_s b))
      then Ok (tt, mkSn (<[Z.to_nat (sn_size b) := c]> (sn_s b)) (add64 (sn_size b) 1))
      else Fail InvalidAccess
    else Ok (tt, b).

Definition SIZE_MAX : Z := UINT64_MAX.

End Stdio.
