(* ===== verification/Snprintf.v ===== *)
(** * Snprintf.v: formatted output into an array (src/kernel/lib/src/stdio.cpp)

    The second copy of the formatter: [snprintf_uint], [snprintf_int] and
    [vsnprintf] repeat the code of [fprintf_uint], [fprintf_int] and [vfprintf]
    (Stdio.v) with [snputc] in the place of [internal_fputc]. This file follows
    the second copy; the last part shows that the two agree, function by
    function. The record of a conversion, the state of the argument list and the
    array with its fill count are those of Stdio.v. *)

From S2P Require Import Prelude FileDescriptor Graphics TTY Stdio.
#[local] Open Scope Z_scope.
#[local] Open Scope kernel_scope.

Module Snprintf.
Import Stdio(va_slot, io, mkIO, sink, args, stores, PRINTF_MODES, NORMAL, FLAGS, WIDTH, PREC, LEN, SPEC,
  PRINTF_LENGTH, L_CHAR, L_SHORT, L_NORMAL, L_LONG, L_LONG_LONG, L_INTMAX, L_SIZET, L_PTRDIFFT, L_LDOUB,
  directive, mkDir, left_justify, force_sign, add_blank, flags_extra, zero_pad, width, precision, len,
  set_left, set_plus, set_blank, set_extra, set_zero, set_width, set_precision, set_len,
  conversion, mkConv, number, sign, upper, floating, radix, hex_chars, snbuf, mkSn, sn_s, sn_size, snputc, SIZE_MAX,
  out, va_next, va_word, va_string, va_pointer, va_int, va_store, is_digit, char_at).

#[local] Notation ch_zero := 48 (only parsing).
#[local] Notation ch_space := 32 (only parsing).
#[local] Notation ch_minus := 45 (only parsing).
#[local] Notation ch_plus := 43 (only parsing).

(** What every conversion starts with. *)
Definition directive0 : directive := mkDir false false false false false 0 (-1) L_NORMAL.

(** The loop that fills [buffer] with the digits of [num], lowest first. The
    array has 64 entries; storing past it ends the loop, so the fuel of 65
    iterations cannot run out. *)
Fixpoint digit_loop (fuel : nat) (buffer : list Z) (pos num radix : Z) (uppercase : bool)
  : result (list Z * Z) :=
  match fuel with
  | O => Fail OutOfFuel
  | S fuel' =>
      if radix =? 0 then Fail InvalidAccess else
      let rem := num mod radix in
      let num' := num / radix in
      match hex_chars uppercase !! Z.to_nat rem with
      | None => Fail InvalidAccess
      | Some ch =>
          if pos <? 64 then
            let buffer' := <[Z.to_nat pos := ch]> buffer in
            if 0 <? num' then digit_loop fuel' buffer' (pos + 1) num' radix uppercase
            else Ok (buffer', pos + 1)
          else Fail InvalidAccess
      end
  end.

Section Format.
(** The number of characters that may be stored. *)
Context (max_size : Z).

#[local] Notation T := (M snbuf).

(** The loops that print leading zeros and count [min_length] down. *)
Fixpoint put_zeros (n : nat) (min_length chars_printed : Z) : T (Z * Z) :=
  match n with
  | O => ret (min_length, chars_printed)
  | S n' => snputc max_size ch_zero ;;; put_zeros n' (i32 (min_length - 1)) (i32 (chars_printed + 1))
  end.

(** The loops that fill a field up. *)
Fixpoint put_padding (n : nat) (padding_type : bool) (chars_printed : Z) : T Z :=
  match n with
  | O => ret chars_printed
  | S n' => snputc max_size (if padding_type then ch_zero else ch_space) ;;;
            put_padding n' padding_type (i32 (chars_printed + 1))
  end.

(** The same loop with a number of leading zeros to use up. *)
Fixpoint put_field (n : nat) (padding_type : bool) (min_digits chars_printed : Z) : T Z :=
  match n with
  | O => ret chars_printed
  | S n' =>
      if padding_type || (0 <? min_digits)
      then snputc max_size ch_zero ;;; put_field n' padding_type (i32 (min_digits - 1)) (i32 (chars_printed + 1))
      else snputc max_size ch_space ;;; put_field n' padding_type min_digits (i32 (chars_printed + 1))
  end.

(** The digits from the highest to the lowest. *)
Fixpoint put_buffer (pos : nat) (buffer : list Z) (chars_printed : Z) : T Z :=
  match pos with
  | O => ret chars_printed
  | S pos' =>
      match buffer !! pos' with
      | None => fail InvalidAccess
      | Some ch => snputc max_size ch ;;; put_buffer pos' buffer (i32 (chars_printed + 1))
      end
  end.

(** The case [num == 0] of [snprintf_uint]. *)
Definition snprintf_zero (min_length min_digits : Z) (padding_type padding_orientation : bool) : T Z :=
  if 1 <? min_length then
    if padding_orientation then
      let* (min_length, chars_printed) := put_zeros (Z.to_nat min_digits) min_length 0 in
      let* (min_length, chars_printed) :=
        (if negb (min_digits =? 0)
         then snputc max_size ch_zero ;;; ret (i32 (min_length - 1), i32 (chars_printed + 1))
         else ret (min_length, chars_printed)) in
      put_padding (Z.to_nat min_length) padding_type chars_printed
    else
      let zero := negb (min_digits =? 0) in
      let min_digits := if zero then i32 (min_digits - 1) else min_digits in
      let min_length := if zero then i32 (min_length - 1) else min_length in
      let* chars_printed := put_field (Z.to_nat min_length) padding_type min_digits 0 in
      if zero then snputc max_size ch_zero ;;; ret (i32 (chars_printed + 1)) else ret chars_printed
  else
    if negb (min_digits =? 0) then snputc max_size ch_zero ;;; ret 1 else ret 0.

(** [snprintf_uint] *)
Definition snprintf_uint (min_length min_digits num radix : Z)
    (padding_type padding_orientation uppercase : bool) : T Z :=
  if num =? 0 then snprintf_zero min_length min_digits padding_type padding_orientation else
  match digit_loop 65 (repeat 0 64) 0 num (wrap64 radix) uppercase with
  | Fail f => fail f
  | Ok (buffer, pos) =>
      if pos <? min_length then
        let min_length := i32 (min_length - pos) in
        let min_digits := i32 (min_digits - pos) in
        if padding_orientation then
          let* (min_length, chars_printed) := put_zeros (Z.to_nat min_digits) min_length 0 in
          let* chars_printed := put_buffer (Z.to_nat pos) buffer chars_printed in
          put_padding (Z.to_nat min_length) padding_type chars_printed
        else
          let* chars_printed := put_field (Z.to_nat min_length) padding_type min_digits 0 in
          put_buffer (Z.to_nat pos) buffer chars_printed
      else put_buffer (Z.to_nat pos) buffer 0
  end.

(** [snprintf_int]; a negative [num] is passed on as its absolute value modulo 2^64. *)
Definition snprintf_int (num : Z) (force_sign pad_sign : bool) (min_length min_digits radix : Z)
    (padding_type padding_orientation uppercase : bool) : T Z :=
  let body min_length num chars_printed :=
    let* n := snprintf_uint min_length min_digits (wrap64 num) radix
                padding_type padding_orientation uppercase in
    ret (i32 (n + chars_printed)) in
  if num <? 0 then snputc max_size ch_minus ;;; body (i32 (min_length - 1)) (i64 (num * -1)) 1
  else if force_sign then snputc max_size ch_plus ;;; body (i32 (min_length - 1)) num 1
  else if pad_sign then snputc max_size ch_space ;;; body (i32 (min_length - 1)) num 1
  else body min_length num 0.

(** ** Arguments *)

Notation F := (M (io snbuf)).

(** The signed argument of a number conversion. *)
Definition va_signed (l : PRINTF_LENGTH) : F Z :=
  match l with
  | L_CHAR | L_SHORT => va_int
  | L_LONG | L_LONG_LONG | L_INTMAX | L_SIZET | L_PTRDIFFT => let* w := va_word in ret (i64 w)
  | _ => va_int
  end.

(** The unsigned argument of a number conversion. *)
Definition va_unsigned (l : PRINTF_LENGTH) : F Z :=
  match l with
  | L_CHAR | L_SHORT => let* w := va_word in ret (u32 w)
  | L_LONG | L_LONG_LONG | L_INTMAX | L_SIZET | L_PTRDIFFT => let* w := va_word in ret (wrap64 w)
  | _ => let* w := va_word in ret (u32 w)
  end.

(** [%n]: the number of characters so far, at the width of the argument. *)
Definition store_count (l : PRINTF_LENGTH) (symbols_printed : Z) : F unit :=
  match l with
  | L_CHAR => va_store (i8 symbols_printed)
  | L_SHORT => va_store (i16 symbols_printed)
  | L_LONG | L_LONG_LONG | L_INTMAX | L_PTRDIFFT => va_store (i64 symbols_printed)
  | L_SIZET => va_store (wrap64 symbols_printed)
  | _ => va_store (i32 symbols_printed)
  end.

(** ** One step per mode

    Each returns the next mode, the specification so far and [gotoNextChar]. *)

Definition step_flags (c : Z) (d : directive) : PRINTF_MODES * directive * bool :=
  match c with
  | 45 => (FLAGS, set_left d, true)
  | 43 => (FLAGS, set_plus d, true)
  | 32 => (FLAGS, set_blank d, true)
  | 35 => (FLAGS, set_extra d, true)
  | 48 => (FLAGS, set_zero d, true)
  | _ => (WIDTH, d, false)
  end.

Definition step_width (c : Z) (d : directive) : F (PRINTF_MODES * directive * bool) :=
  if c =? 42 then let* w := va_int in ret (LEN, set_width w d, true)
  else if is_digit c then ret (WIDTH, set_width (i32 (i32 (width d * 10) + (c - 48))) d, true)
  else ret (LEN, d, false).

Definition step_prec (c : Z) (d : directive) : F (PRINTF_MODES * directive * bool) :=
  if c =? 42 then let* p := va_int in ret (LEN, set_precision p d, true)
  else if is_digit c then ret (PREC, set_precision (i32 (i32 (precision d * 10) + (c - 48))) d, true)
  else ret (LEN, d, false).

Definition step_len (c : Z) (d : directive) : F (PRINTF_MODES * directive * bool) :=
  match c with
  | 46 => if precision d =? -1 then ret (PREC, set_precision 0 d, true) else fail AssertionFailed
  | 104 => ret (LEN, set_len (if decide (len d = L_SHORT) then L_CHAR else L_SHORT) d, true)
  | 108 => ret (LEN, set_len (if decide (len d = L_LONG) then L_LONG_LONG else L_LONG) d, true)
  | 106 => ret (LEN, set_len L_INTMAX d, true)
  | 122 => ret (LEN, set_len L_SIZET d, true)
  | 116 => ret (LEN, set_len L_PTRDIFFT d, true)
  | 76 => ret (LEN, set_len L_LDOUB d, true)
  | _ => ret (SPEC, d, false)
  end.

(** The specifiers that only select a conversion. *)
Definition select (c : Z) : option conversion :=
  match c with
  | 100 | 105 => Some (mkConv true true false false 10)
  | 117 => Some (mkConv true false false false 10)
  | 111 => Some (mkConv true false false false 8)
  | 112 => Some (mkConv true false false false 16)
  | 120 => Some (mkConv true false false false 16)
  | 88 => Some (mkConv true false true false 16)
  | 102 | 101 | 103 => Some (mkConv true true false true 10)
  | 70 | 69 | 71 => Some (mkConv true true true true 10)
  | 97 => Some (mkConv true true false true 16)
  | 65 => Some (mkConv true true true true 16)
  | _ => None
  end.

(** [%s]: up to [precision] characters when that is positive, then blanks to
    [width]; [j] is the index in the string. *)
Fixpoint put_string (str : list Z) (j : Z) (d : directive) (symbols_printed : Z) : T (directive * Z) :=
  match str with
  | [] => ret (d, symbols_printed)
  | c2 :: str' =>
      if c2 =? 0 then ret (d, symbols_printed) else
      if (0 <? precision d) && (u32 (precision d) <=? j) then ret (d, symbols_printed) else
      snputc max_size c2 ;;;
      put_string str' (j + 1) (set_width (i32 (width d - 1)) d) (i32 (symbols_printed + 1))
  end.

(** The prefix printed for the flag [#]. *)
Definition put_prefix (d : directive) (v : conversion) (symbols_printed : Z) : T (directive * Z) :=
  if flags_extra d then
    match radix v with
    | 16 => snputc max_size ch_zero ;;; snputc max_size (if upper v then 88 else 120) ;;;
            let w := i32 (width d - 2) in
            ret (set_width (if w <? 0 then 0 else w) d, i32 (symbols_printed + 2))
    | 8 => snputc max_size ch_zero ;;;
           let w := i32 (width d - 1) in
           ret (set_width (if w <? 0 then 0 else w) d, i32 (symbols_printed + 1))
    | _ => ret (d, symbols_printed)
    end
  else ret (d, symbols_printed).

(** The specifiers that print at once; the others leave the output alone. *)
Definition put_direct (c : Z) (d : directive) (symbols_printed : Z) : F (directive * Z) :=
  match c with
  | 99 => let* a := va_int in
          out (snputc max_size (i8 a)) ;;; ret (d, i32 (symbols_printed + 1))
  | 115 => let* str := va_string in
           let* (d, symbols_printed) := out (put_string str 0 d symbols_printed) in
           let* symbols_printed := out (put_padding (Z.to_nat (width d)) false symbols_printed) in
           ret (d, symbols_printed)
  | 110 => store_count (len d) symbols_printed ;;; ret (d, symbols_printed)
  | 37 => out (snputc max_size 37) ;;; ret (d, i32 (symbols_printed + 1))
  | _ => ret (d, symbols_printed)
  end.

(** The printing of a number. *)
Definition put_number (d : directive) (v : conversion) (symbols_printed : Z) : F Z :=
  if number v then
    if floating v then fail AssertionFailed else
    if sign v then
      let* num := va_signed (len d) in
      let* n := out (snprintf_int num (force_sign d) (add_blank d) (Z.max (width d) (precision d))
                       (precision d) (radix v) (zero_pad d) (left_justify d) (upper v)) in
      ret (i32 (symbols_printed + n))
    else
      let* num := va_unsigned (len d) in
      let* n := out (snprintf_uint (Z.max (width d) (precision d)) (precision d) num (radix v)
                       (zero_pad d) (left_justify d) (upper v)) in
      ret (i32 (symbols_printed + n))
  else ret symbols_printed.

(** The mode SPEC; [%p] reads a long. *)
Definition step_spec (c : Z) (d : directive) (symbols_printed : Z) : F Z :=
  let d := if c =? 112 then set_len L_LONG d else d in
  let v := match select c with Some v => v | None => mkConv false false false false 10 end in
  let* (d, symbols_printed) := put_direct c d symbols_printed in
  let* (d, symbols_printed) := out (put_prefix d v symbols_printed) in
  put_number d v symbols_printed.

(** ** The loop over the format string *)

(** The characters of the format are looked at one after the other, in the mode
    the ones before have left. *)
Fixpoint format_loop (fuel : nat) (format : list Z) (i : nat) (mode : PRINTF_MODES)
    (d : directive) (symbols_printed : Z) : F Z :=
  match fuel with
  | O => fail OutOfFuel
  | S fuel' =>
      let* c := char_at format i in
      if c =? 0 then ret symbols_printed else
      let next mode d goto n :=
        format_loop fuel' format (if goto : bool then S i else i) mode d n in
      match mode with
      | NORMAL =>
          if c =? 37 then next FLAGS d true symbols_printed
          else out (snputc max_size c) ;;; next NORMAL d true (i32 (symbols_printed + 1))
      | FLAGS => let '(mode, d, goto) := step_flags c d in next mode d goto symbols_printed
      | WIDTH => let* (mode, d, goto) := step_width c d in next mode d goto symbols_printed
      | PREC => let* (mode, d, goto) := step_prec c d in next mode d goto symbols_printed
      | LEN => let* (mode, d, goto) := step_len c d in next mode d goto symbols_printed
      | SPEC => let* symbols_printed := step_spec c d symbols_printed in
                next NORMAL directive0 true symbols_printed
      end
  end.

End Format.

(** A character is looked at at most once per mode. *)
Definition format_fuel (format : list Z) : nat := 6 * length format + 7.

(** [vsnprintf(s, n, format, args)] on an array with the contents [s]: the
    result, the array and the stores of [%n]. *)
Definition vsnprintf (s : list Z) (n : Z) (format : list Z) (va : list va_slot)
  : result (Z * list Z * list (Z * Z)) :=
  let max_size := sub64 n 1 in
  match (let* symbols_printed := format_loop max_size (format_fuel format) format 0 NORMAL directive0 0 in
         out (snputc SIZE_MAX 0) ;;; ret symbols_printed) (mkIO (mkSn s 0) va []) with
  | Ok (rc, st) => Ok (rc, sn_s (sink st), stores st)
  | Fail f => Fail f
  end.

Definition snprintf := vsnprintf.
Definition vsprintf (s : list Z) (format : list Z) (va : list va_slot) := vsnprintf s SIZE_MAX format va.
Definition sprintf := vsprintf.

(** ** The two copies agree

    Each function of this copy is the one of Stdio.v with [snputc] as its
    character output. *)

Section Copies.
Context (max_size : Z).

Lemma put_zeros_copy n ml cp b : put_zeros max_size n ml cp b = Stdio.put_zeros (snputc max_size) n ml cp b.
Proof. revert ml cp b. induction n as [|n IH]; intros; cbn; [done|]. unfold bind. by destruct (snputc _ _ b) as [[[] b']|]. Qed.
Lemma put_padding_copy n p cp b : put_padding max_size n p cp b = Stdio.put_padding (snputc max_size) n p cp b.
Proof. revert cp b. induction n as [|n IH]; intros; cbn; [done|]. unfold bind. by destruct (snputc _ _ b) as [[[] b']|]. Qed.
Lemma put_field_copy n p md cp b : put_field max_size n p md cp b = Stdio.put_field (snputc max_size) n p md cp b.
Proof.
  revert md cp b. induction n as [|n IH]; intros; cbn; [done|]. unfold bind. destruct (p || (0 <? md));
    by destruct (snputc _ _ b) as [[[] b']|].
Qed.
Lemma put_buffer_copy pos l cp b : put_buffer max_size pos l cp b = Stdio.put_buffer (snputc max_size) pos l cp b.
Proof.
  revert cp b. induction pos as [|pos IH]; intros; cbn; [done|]. destruct (l !! pos); [|done]. unfold bind.
  by destruct (snputc _ _ b) as [[[] b']|].
Qed.
Lemma digit_loop_copy fuel l pos num rdx up : digit_loop fuel l pos num rdx up = Stdio.digit_loop fuel l pos num rdx up.
Proof.
  revert l pos num. induction fuel as [|fuel IH]; intros; cbn; [done|]. destruct (rdx =? 0); [done|]. destruct (hex_chars up !! _); [|done].
  destruct (pos <? 64); [|done]. by destruct (0 <? num / rdx).
Qed.

(** Sequences of equal steps are equal. *)
Lemma bind_copy {S A B} (m m' : M S A) (k k' : A -> M S B) s :
  (forall s, m s = m' s) -> (forall a s, k a s = k' a s) -> bind m k s = bind m' k' s.
Proof. intros Hm Hk. unfold bind. rewrite Hm. by destruct (m' s) as [[a s']|]. Qed.

Lemma snprintf_zero_copy ml md p o b : snprintf_zero max_size ml md p o b = Stdio.print_zero (snputc max_size) ml md p o b.
Proof.
  unfold snprintf_zero, Stdio.print_zero. destruct (1 <? ml); [|done]. destruct o.
  - apply bind_copy; [intros; apply put_zeros_copy|]. intros [ml' cp'] s. apply bind_copy; [done|]. intros [ml'' cp''] s'. apply put_padding_copy.
  - apply bind_copy; [intros; apply put_field_copy|done].
Qed.
Lemma snprintf_uint_copy ml md num rdx p o up b :
  snprintf_uint max_size ml md num rdx p o up b = Stdio.print_uint (snputc max_size) ml md num rdx p o up b.
Proof.
  unfold snprintf_uint, Stdio.print_uint. destruct (num =? 0); [apply snprintf_zero_copy|]. rewrite digit_loop_copy.
  destruct (Stdio.digit_loop _ _ _ _ _ _) as [[l pos]|]; [|done]. destruct (pos <? ml); [|apply put_buffer_copy]. destruct o.
  - apply bind_copy; [intros; apply put_zeros_copy|]. intros [ml' cp'] s. apply bind_copy; [intros; apply put_buffer_copy|].
    intros. apply put_padding_copy.
  - apply bind_copy; [intros; apply put_field_copy|]. intros. apply put_buffer_copy.
Qed.
Lemma snprintf_int_copy num fs ps ml md rdx p o up b :
  snprintf_int max_size num fs ps ml md rdx p o up b = Stdio.print_int (snputc max_size) num fs ps ml md rdx p o up b.
Proof.
  unfold snprintf_int, Stdio.print_int.
  assert (Hbody : forall ml num cp s,
    (let* n := snprintf_uint max_size ml md (wrap64 num) rdx p o up in ret (i32 (n + cp))) s =
    (let* n := Stdio.print_uint (snputc max_size) ml md (wrap64 num) rdx p o up in ret (i32 (n + cp))) s)
    by (intros; apply bind_copy; [intros; apply snprintf_uint_copy|done]).
  destruct (num <? 0); [|destruct fs; [|destruct ps]]; [apply bind_copy; auto..|apply Hbody].
Qed.

Lemma out_copy {A} (m m' : M snbuf A) s : (forall b, m b = m' b) -> out m s = out m' s.
Proof. intros Hm. unfold out. by rewrite Hm. Qed.

Lemma put_string_copy str j d n b : put_string max_size str j d n b = Stdio.put_string (snputc max_size) str j d n b.
Proof.
  revert j d n b. induction str as [|c str IH]; intros; cbn; [done|]. destruct (c =? 0); [done|]. destruct (_ && _); [done|].
  apply bind_copy; [done|]. intros. apply IH.
Qed.
Lemma put_direct_copy c d n s : put_direct max_size c d n s = Stdio.put_direct (snputc max_size) c d n s.
Proof.
  unfold put_direct, Stdio.put_direct. destruct (Z.eq_dec c 115) as [->|Hc]; [|done].
  apply bind_copy; [done|]. intros str s1. apply bind_copy; [intros; apply out_copy, put_string_copy|]. intros [d' n'] s2.
  apply bind_copy; [intros; apply out_copy, put_padding_copy|done].
Qed.
Lemma put_prefix_copy d v n b : put_prefix max_size d v n b = Stdio.put_prefix (snputc max_size) d v n b.
Proof. done. Qed.
Lemma put_number_copy d v n s : put_number max_size d v n s = Stdio.put_number (snputc max_size) d v n s.
Proof.
  unfold put_number, Stdio.put_number. destruct (number v); [|done]. destruct (floating v); [done|]. destruct (sign v).
  - apply bind_copy; [done|]. intros num s1. apply bind_copy; [intros; apply out_copy, snprintf_int_copy|done].
  - apply bind_copy; [done|]. intros num s1. apply bind_copy; [intros; apply out_copy, snprintf_uint_copy|done].
Qed.
Lemma step_spec_copy c d n s : step_spec max_size c d n s = Stdio.step_spec (snputc max_size) c d n s.
Proof.
  unfold step_spec, Stdio.step_spec. apply bind_copy; [intros; apply put_direct_copy|]. intros [d' n'] s1.
  apply bind_copy; [done|]. intros [d'' n''] s2. apply put_number_copy.
Qed.
Lemma format_loop_copy fuel format i mode d n s :
  format_loop max_size fuel format i mode d n s = Stdio.format_loop (snputc max_size) fuel format i mode d n s.
Proof.
  revert i mode d n s. induction fuel as [|fuel IH]; intros; cbn [format_loop Stdio.format_loop]; [done|].
  apply bind_copy; [done|]. intros c s1. destruct (c =? 0); [done|]. destruct mode.
  - destruct (c =? 37); [apply IH|]. apply bind_copy; [done|]. intros. apply IH.
  - change (step_flags c d) with (Stdio.step_flags c d). destruct (Stdio.step_flags c d) as [[m' d'] g]. apply IH.
  - apply bind_copy; [done|]. intros [[m' d'] g] s2. apply IH.
  - apply bind_copy; [done|]. intros [[m' d'] g] s2. apply IH.
  - apply bind_copy; [done|]. intros [[m' d'] g] s2. apply IH.
  - apply bind_copy; [intros; apply step_spec_copy|]. intros. apply IH.
Qed.
End Copies.

(** [vsnprintf] formats as [vfprintf] does, into the array. *)
Lemma vsnprintf_copy s n format va : vsnprintf s n format va =
  match (let* rc := Stdio.vformat (snputc (sub64 n 1)) format in out (snputc SIZE_MAX 0) ;;; ret rc) (mkIO (mkSn s 0) va []) with
  | Ok (rc, st) => Ok (rc, sn_s (sink st), stores st)
  | Fail f => Fail f
  end.
Proof. unfold vsnprintf. erewrite bind_copy; [reflexivity|intros; apply format_loop_copy|done]. Qed.

End Snprintf.
