(* ===== verification/StdioSpec.v ===== *)
(** * StdioSpec.v: what formatted output prints

    Every printing function of Stdio.v is shown to emit one text that does not
    depend on where the characters go ([uniform]); from that follow the relation
    between [vfprintf] and [vsnprintf], the count they return and termination.
    The numbers are then given in closed form. *)

From S2P Require Import Prelude FileDescriptor Graphics TTY Stdio Snprintf.
Import Stdio.
Import Snprintf(vsnprintf, snprintf, vsnprintf_copy).

#[local] Open Scope Z_scope.
#[local] Open Scope kernel_scope.

Module StdioSpec.

(** ** Texts *)

Section Puts.
Context {Sk : Type} (putc : Z -> M Sk unit).

(** Emitting a text. *)
Fixpoint emit_all (x : list Z) : M Sk unit :=
  match x with
  | [] => ret tt
  | c :: x' => putc c ;;; emit_all x'
  end.

(** A final result as a computation. *)
Definition done_with {A} (r : result A) : M Sk A :=
  match r with Ok a => ret a | Fail f => fail f end.

Lemma emit_all_app x y k : emit_all (x ++ y) k = (emit_all x ;;; emit_all y) k.
Proof.
  revert k. induction x as [|c x IH]; intros k; [done|].
  cbn. unfold bind. destruct (putc c k) as [[[] k']|]; [apply IH|done].
Qed.
End Puts.

(** A printing function, for every output. *)
Definition printer (A : Type) : Type := forall Sk, (Z -> M Sk unit) -> M Sk A.

(** [m] emits the text [x] and then returns or fails with [r], whatever the output is. *)
Definition emits {A} (m : printer A) (x : list Z) (r : result A) : Prop :=
  forall Sk putc k, m Sk putc k = (emit_all putc x ;;; done_with r) k.

Lemma emits_ret {A} (a : A) : emits (fun Sk putc => ret a) [] (Ok a).
Proof. done. Qed.

Lemma emits_fail {A} f : emits (A := A) (fun Sk putc => fail f) [] (Fail f).
Proof. done. Qed.

Lemma emits_putc c : emits (fun Sk putc => putc c) [c] (Ok tt).
Proof. intros Sk putc k. cbn. unfold bind. by destruct (putc c k) as [[[] k']|]. Qed.

Lemma emits_bind {A B} (m : printer A) (f : A -> printer B) x a y r :
  emits m x (Ok a) -> emits (f a) y r ->
  emits (fun Sk putc => bind (m Sk putc) (fun v => f v Sk putc)) (x ++ y) r.
Proof.
  intros Hm Hf Sk putc k. unfold bind at 1. rewrite Hm. unfold bind at 2. rewrite emit_all_app.
  unfold bind. destruct (emit_all putc x k) as [[[] k']|]; [|done]. cbn. apply Hf.
Qed.

Lemma emits_bind_fail {A B} (m : printer A) (f : A -> printer B) x e :
  emits m x (Fail e) -> emits (fun Sk putc => bind (m Sk putc) (fun v => f v Sk putc)) x (Fail e).
Proof.
  intros Hm Sk putc k. unfold bind at 1. rewrite Hm. unfold bind.
  by destruct (emit_all putc x k) as [[[] k']|].
Qed.

Lemma emits_then {B} c (f : printer B) y r :
  emits f y r -> emits (fun Sk putc => putc c ;;; f Sk putc) (c :: y) r.
Proof. intros Hf. apply (emits_bind _ (fun _ => f) [c] tt); [apply emits_putc|done]. Qed.

(** ** The loops *)

Lemma iter_pred n ml : - 2 ^ 31 <= ml - Z.of_nat n -> ml < 2 ^ 31 ->
  Nat.iter n (fun x => i32 (x - 1)) ml = ml - Z.of_nat n.
Proof.
  induction n as [|n IH]; intros H1 H2; [cbn; lia|].
  rewrite Nat.iter_succ, IH, i32_small; lia.
Qed.

Lemma put_zeros_emits n : forall ml cp,
  emits (fun Sk putc => put_zeros putc n ml (i32 cp)) (repeat 48 n)
        (Ok (Nat.iter n (fun x => i32 (x - 1)) ml, i32 (cp + Z.of_nat n))).
Proof.
  induction n as [|n IH]; intros ml cp; cbn [put_zeros repeat].
  - rewrite Z.add_0_r. apply emits_ret.
  - apply emits_then. rewrite i32_add, Nat.iter_succ_r.
    replace (cp + Z.of_nat (S n)) with (cp + 1 + Z.of_nat n) by lia. apply IH.
Qed.

Lemma put_padding_emits n pad : forall cp,
  emits (fun Sk putc => put_padding putc n pad (i32 cp))
        (repeat (if pad then 48 else 32) n) (Ok (i32 (cp + Z.of_nat n))).
Proof.
  induction n as [|n IH]; intros cp; cbn [put_padding repeat].
  - rewrite Z.add_0_r. apply emits_ret.
  - apply emits_then. rewrite i32_add.
    replace (cp + Z.of_nat (S n)) with (cp + 1 + Z.of_nat n) by lia. apply IH.
Qed.

(** The padding of a right-aligned number: zeros, then blanks. *)
Fixpoint field_text (n : nat) (pad : bool) (min_digits : Z) : list Z :=
  match n with
  | O => []
  | S n' => if pad || (0 <? min_digits) then 48 :: field_text n' pad (i32 (min_digits - 1))
            else 32 :: field_text n' pad min_digits
  end.

Lemma field_text_length n pad : forall md, length (field_text n pad md) = n.
Proof. induction n as [|n IH]; intros md; cbn; [done|]. destruct (pad || _); cbn; by rewrite IH. Qed.

Lemma put_field_emits n pad : forall md cp,
  emits (fun Sk putc => put_field putc n pad md (i32 cp)) (field_text n pad md)
        (Ok (i32 (cp + Z.of_nat n))).
Proof.
  induction n as [|n IH]; intros md cp; cbn [put_field field_text].
  - rewrite Z.add_0_r. apply emits_ret.
  - replace (cp + Z.of_nat (S n)) with (cp + 1 + Z.of_nat n) by lia.
    destruct (pad || _); apply emits_then; rewrite i32_add; apply IH.
Qed.

Lemma put_buffer_emits pos : forall buffer cp, (pos <= length buffer)%nat ->
  emits (fun Sk putc => put_buffer putc pos buffer (i32 cp)) (reverse (take pos buffer))
        (Ok (i32 (cp + Z.of_nat pos))).
Proof.
  induction pos as [|pos IH]; intros buffer cp Hl; cbn [put_buffer].
  - rewrite Z.add_0_r. apply emits_ret.
  - destruct (lookup_lt_is_Some_2 buffer pos ltac:(lia)) as [ch Hch]. rewrite Hch.
    rewrite (take_S_r _ _ _ Hch), reverse_app. cbn. apply emits_then. rewrite i32_add.
    replace (cp + Z.of_nat (S pos)) with (cp + 1 + Z.of_nat pos) by lia. apply IH. lia.
Qed.

(** ** The digits *)

(** The digits of a number, lowest first. *)
Fixpoint low_digits (fuel : nat) (num radix : Z) (up : bool) : list Z :=
  match fuel with
  | O => []
  | S fuel' =>
      nth (Z.to_nat (num mod radix)) (hex_chars up) 0 ::
      (if 0 <? num / radix then low_digits fuel' (num / radix) radix up else [])
  end.

(** The digits as they are read. *)
Definition digits (num radix : Z) (up : bool) : list Z := reverse (low_digits 64 num radix up).

(** Reading digits back. *)
Definition digit_value (c : Z) : Z :=
  if c <=? 57 then c - 48 else if c <=? 70 then c - 55 else c - 87.
Definition read_number (radix : Z) (ds : list Z) : Z :=
  fold_left (fun acc c => acc * radix + digit_value c) ds 0.

Lemma hex_char_value up d : 0 <= d < 16 -> digit_value (nth (Z.to_nat d) (hex_chars up) 0) = d.
Proof.
  intros H. assert (Hall : forallb (fun d => digit_value (nth d (hex_chars up) 0) =? Z.of_nat d) (seq 0 16) = true)
    by (by destruct up).
  rewrite forallb_forall in Hall. specialize (Hall (Z.to_nat d)).
  rewrite in_seq in Hall. rewrite Z2Nat.id in Hall by lia. apply Z.eqb_eq, Hall. lia.
Qed.

Lemma hex_char_lookup up d : 0 <= d < 16 ->
  hex_chars up !! Z.to_nat d = Some (nth (Z.to_nat d) (hex_chars up) 0).
Proof.
  intros H. destruct (nth_lookup_or_length (hex_chars up) (Z.to_nat d) 0) as [|Hl]; [done|].
  destruct up; cbn in Hl; lia.
Qed.

Lemma low_digits_length radix up n : 2 <= radix -> forall fuel num,
  0 <= num < radix ^ Z.of_nat n -> (1 <= n)%nat -> (length (low_digits fuel num radix up) <= n)%nat.
Proof.
  intros Hr. induction n as [|n IH]; intros fuel num Hn Hn1; [lia|].
  destruct fuel as [|fuel]; cbn; [lia|]. destruct (0 <? num / radix) eqn:E; zb; cbn; [|lia].
  assert (num / radix < radix ^ Z.of_nat n).
  { apply Z.div_lt_upper_bound; [lia|]. rewrite Nat2Z.inj_succ, Z.pow_succ_r in Hn; lia. }
  destruct n as [|n]; [cbn in *; lia|]. apply le_n_S, IH; lia.
Qed.

Lemma digits64 radix num : 2 <= radix -> u64 num -> 0 <= num < radix ^ 64.
Proof.
  intros Hr [H1 H2]. split; [done|]. eapply Z.lt_le_trans; [exact H2|].
  apply Z.pow_le_mono_l. lia.
Qed.

(** The loop stores the digits from [pos] on, as long as they fit the array. *)
Lemma digit_loop_spec radix up : 2 <= radix <= 16 -> forall fuel pos num buffer,
  0 <= num -> 0 <= pos -> length buffer = 64%nat ->
  let ds := low_digits fuel num radix up in
  num < radix ^ Z.of_nat fuel -> (1 <= fuel)%nat -> pos + Z.of_nat (length ds) <= 64 ->
  exists buffer', digit_loop fuel buffer pos num radix up = Ok (buffer', pos + Z.of_nat (length ds)) /\
    length buffer' = 64%nat /\
    take (Z.to_nat pos + length ds) buffer' = take (Z.to_nat pos) buffer ++ ds.
Proof.
  intros Hr. induction fuel as [|fuel IH]; intros pos num buffer Hn Hpos Hlen ds Hnf Hf Hfit; [lia|].
  pose proof (Z.mod_pos_bound num radix ltac:(lia)) as Hrem.
  subst ds. cbn [low_digits digit_loop] in *.
  rewrite (proj2 (Z.eqb_neq radix 0)) by lia. rewrite hex_char_lookup by lia.
  set (ch := nth _ _ _) in *.
  assert (Hp64 : pos < 64) by (destruct (0 <? num / radix); cbn in Hfit; lia).
  rewrite (proj2 (Z.ltb_lt pos 64) Hp64).
  assert (Hone : take (Z.to_nat pos + 1) (<[Z.to_nat pos := ch]> buffer) = take (Z.to_nat pos) buffer ++ [ch]).
  { replace (Z.to_nat pos + 1)%nat with (S (Z.to_nat pos)) by lia.
    rewrite (take_S_r _ _ ch) by (apply list_lookup_insert_eq; lia). by rewrite take_insert_ge by lia. }
  destruct (0 <? num / radix) eqn:E; zb.
  - cbn [length] in Hfit.
    destruct (IH (pos + 1) (num / radix) (<[Z.to_nat pos := ch]> buffer)) as (b' & Hrun & Hlen' & Htake).
    + lia.
    + lia.
    + by rewrite length_insert.
    + rewrite Nat2Z.inj_succ, Z.pow_succ_r in Hnf by lia. apply Z.div_lt_upper_bound; lia.
    + destruct fuel; [|lia]. rewrite Z.div_small in E; cbn in *; lia.
    + lia.
    + exists b'. cbn [length]. split; [rewrite Hrun; do 2 f_equal; lia|]. split; [done|].
      rewrite Z2Nat.inj_add in Htake by lia. change (Z.to_nat 1) with 1%nat in Htake.
      rewrite Hone, <- app_assoc in Htake. cbn in Htake. rewrite <- Htake. f_equal. lia.
  - eexists. cbn [length]. split; [done|]. split; [by rewrite length_insert|exact Hone].
Qed.

(** Printed digits read back as the number. *)
Lemma read_low_digits radix up : 2 <= radix <= 16 -> forall fuel num,
  0 <= num -> num < radix ^ Z.of_nat fuel -> (1 <= fuel)%nat ->
  read_number radix (reverse (low_digits fuel num radix up)) = num.
Proof.
  intros Hr. unfold read_number.
  induction fuel as [|fuel IH]; intros num Hn Hnf Hf; [lia|]. cbn [low_digits].
  pose proof (Z.mod_pos_bound num radix ltac:(lia)) as Hrem.
  pose proof (Z.div_mod num radix ltac:(lia)).
  rewrite reverse_cons, fold_left_app. cbn. rewrite hex_char_value by lia.
  destruct (0 <? num / radix) eqn:E; zb.
  - rewrite IH; [lia|lia| |].
    + rewrite Nat2Z.inj_succ, Z.pow_succ_r in Hnf by lia. apply Z.div_lt_upper_bound; lia.
    + destruct fuel; [|lia]. rewrite Z.div_small in E; cbn in *; lia.
  - assert (num / radix = 0) by (pose proof (Z.div_pos num radix); lia). cbn. lia.
Qed.

(** The digits of a 64-bit number fit the array, in every radix the formatter has. *)
Lemma digit_loop_fits radix up num : 2 <= radix <= 16 -> u64 num ->
  exists buffer, digit_loop 65 (repeat 0 64) 0 num radix up =
    Ok (buffer, Z.of_nat (length (digits num radix up))) /\
    (length (digits num radix up) <= length buffer)%nat /\
    reverse (take (length (digits num radix up)) buffer) = digits num radix up.
Proof.
  intros Hr Hnum. unfold digits. rewrite length_reverse.
  pose proof (digits64 radix num ltac:(lia) Hnum) as H64.
  assert (Hle := low_digits_length radix up 64 ltac:(lia) 65 num H64 ltac:(lia)).
  assert (Hst : forall f m, m < radix ^ Z.of_nat f -> 0 <= m -> (1 <= f)%nat ->
    low_digits (S f) m radix up = low_digits f m radix up).
  { induction f as [|f IH]; intros m Hm Hm0 Hf; [lia|]. cbn [low_digits].
    destruct (0 <? m / radix) eqn:E; [|done]. zb. f_equal.
    destruct f as [|f]; [rewrite Z.div_small in E; cbn in *; lia|].
    apply IH; [|lia|lia]. rewrite Nat2Z.inj_succ, Z.pow_succ_r in Hm by lia.
    apply Z.div_lt_upper_bound; lia. }
  rewrite (Hst 64%nat) in Hle by (cbn; lia).
  destruct (digit_loop_spec radix up Hr 65 0 num (repeat 0 64)) as (b & Hrun & Hlen & Htake).
  - apply Hnum.
  - lia.
  - done.
  - pose proof (Z.pow_le_mono_r radix 64 (Z.of_nat 65)). lia.
  - lia.
  - rewrite (Hst 64%nat) by (cbn; lia). lia.
  - rewrite (Hst 64%nat) in Hrun, Htake by (cbn; lia). exists b. rewrite Hrun.
    change (Z.to_nat 0) with 0%nat in Htake. rewrite Nat.add_0_l, take_0, app_nil_l in Htake.
    split; [done|]. split; [lia|]. by rewrite Htake.
Qed.

(** The loop stops at the end of the array at the latest. *)
Lemma digit_loop_stops fuel : forall buffer pos num radix up,
  0 <= pos -> 65 <= pos + Z.of_nat fuel -> (1 <= fuel)%nat ->
  length buffer = 64%nat ->
  match digit_loop fuel buffer pos num radix up with
  | Ok (b, p) => 0 <= p <= 64 /\ length b = 64%nat
  | Fail f => f <> OutOfFuel
  end.
Proof.
  induction fuel as [|fuel IH]; intros buffer pos num radix up Hp Hf Hf1 Hl; [lia|]. cbn [digit_loop].
  destruct (radix =? 0); [done|]. destruct (hex_chars up !! _); [|done].
  destruct (pos <? 64) eqn:E; zb; [|done].
  destruct (0 <? num / radix); [|by rewrite length_insert; split; [lia|]].
  apply IH; [lia|lia|lia|by rewrite length_insert].
Qed.

(** ** Numbers *)

(** A printing function that returns the number of characters it emitted, and
    always comes to an end. *)
Definition counted (m : printer Z) : Prop :=
  exists x r, emits m x r /\
    match r with Ok n => n = i32 (Z.of_nat (length x)) | Fail f => f <> OutOfFuel end.

Lemma i32_0 : i32 0 = 0.
Proof. done. Qed.

Lemma put_field_emits_0 n pad md :
  emits (fun Sk putc => put_field putc n pad md 0) (field_text n pad md) (Ok (i32 (Z.of_nat n))).
Proof. exact (put_field_emits n pad md 0). Qed.

(** The text of the number zero. *)
Definition zero_text (ml md : Z) (pad left : bool) : list Z :=
  let zero := if md =? 0 then [] else [48] in
  if 1 <? ml then
    if left then
      let ml' := Nat.iter (Z.to_nat md) (fun x => i32 (x - 1)) ml in
      let ml'' := if md =? 0 then ml' else i32 (ml' - 1) in
      repeat 48 (Z.to_nat md) ++ zero ++ repeat (if pad then 48 else 32) (Z.to_nat ml'')
    else
      let md' := if md =? 0 then md else i32 (md - 1) in
      let ml' := if md =? 0 then ml else i32 (ml - 1) in
      field_text (Z.to_nat ml') pad md' ++ zero
  else zero.

Lemma print_zero_emits ml md pad left :
  emits (fun Sk putc => print_zero putc ml md pad left) (zero_text ml md pad left)
        (Ok (i32 (Z.of_nat (length (zero_text ml md pad left))))).
Proof.
  unfold print_zero, zero_text. destruct (1 <? ml) eqn:E1.
  - destruct left.
    + rewrite !length_app, !repeat_length, !Nat2Z.inj_add.
      pose proof (put_zeros_emits (Z.to_nat md) ml 0) as Hz. rewrite i32_0, Z.add_0_l in Hz.
      eapply (emits_bind _ (fun p Sk putc => _)); [exact Hz|]. cbn beta iota.
      destruct (md =? 0); cbn [negb].
      * eapply (emits_bind _ (fun p Sk putc => _)); [apply emits_ret|]. cbn beta iota.
        rewrite Z.add_0_l. apply put_padding_emits.
      * eapply (emits_bind _ (fun p Sk putc => _)); [apply emits_then, emits_ret|]. cbn beta iota.
        rewrite i32_add. cbn [length]. rewrite Z.add_assoc. apply put_padding_emits.
    + rewrite length_app, field_text_length, Nat2Z.inj_add.
      destruct (md =? 0); cbn [negb];
        (eapply (emits_bind _ (fun p Sk putc => _)); [apply put_field_emits_0|]); cbn beta iota.
      * rewrite Z.add_0_r. apply emits_ret.
      * apply emits_then. rewrite i32_add. apply emits_ret.
  - destruct (md =? 0); cbn [negb]; [apply emits_ret|apply emits_then, emits_ret].
Qed.

(** The text of a number with the digits [ds]. *)
Definition uint_text (ml md : Z) (ds : list Z) (pad left : bool) : list Z :=
  let p := Z.of_nat (length ds) in
  if p <? ml then
    let ml' := i32 (ml - p) in
    let md' := i32 (md - p) in
    if left then
      repeat 48 (Z.to_nat md') ++ ds ++
      repeat (if pad then 48 else 32) (Z.to_nat (Nat.iter (Z.to_nat md') (fun x => i32 (x - 1)) ml'))
    else field_text (Z.to_nat ml') pad md' ++ ds
  else ds.

Lemma print_uint_digits ml md num radix pad left up buffer ds :
  num <> 0 -> digit_loop 65 (repeat 0 64) 0 num (wrap64 radix) up = Ok (buffer, Z.of_nat (length ds)) ->
  (length ds <= length buffer)%nat -> reverse (take (length ds) buffer) = ds ->
  emits (fun Sk putc => print_uint putc ml md num radix pad left up) (uint_text ml md ds pad left)
        (Ok (i32 (Z.of_nat (length (uint_text ml md ds pad left))))).
Proof.
  intros Hn Hloop Hlen Hds. unfold print_uint. rewrite (proj2 (Z.eqb_neq num 0) Hn), Hloop.
  unfold uint_text. cbv zeta.
  assert (Hbuf : forall cp, emits (fun Sk putc => put_buffer putc (length ds) buffer (i32 cp)) ds
    (Ok (i32 (cp + Z.of_nat (length ds))))).
  { intros cp. pose proof (put_buffer_emits (length ds) buffer cp Hlen) as H. by rewrite Hds in H. }
  rewrite Nat2Z.id. destruct (_ <? ml).
  - set (ml' := i32 (ml - _)). set (md' := i32 (md - _)). destruct left.
    + rewrite !length_app, !repeat_length, !Nat2Z.inj_add.
      pose proof (put_zeros_emits (Z.to_nat md') ml' 0) as Hz. rewrite i32_0, Z.add_0_l in Hz.
      eapply (emits_bind _ (fun p Sk putc => _)); [exact Hz|]. cbn beta iota.
      eapply (emits_bind _ (fun p Sk putc => _)); [apply Hbuf|]. cbn beta iota.
      rewrite Z.add_assoc. apply put_padding_emits.
    + rewrite length_app, field_text_length, Nat2Z.inj_add.
      eapply (emits_bind _ (fun p Sk putc => _)); [apply put_field_emits_0|].
      cbn beta iota. apply Hbuf.
  - exact (Hbuf 0).
Qed.

Lemma print_uint_counted ml md num radix pad left up :
  counted (fun Sk putc => print_uint putc ml md num radix pad left up).
Proof.
  destruct (decide (num = 0)) as [->|Hn].
  - exists (zero_text ml md pad left), (Ok (i32 (Z.of_nat (length (zero_text ml md pad left))))).
    split; [|done]. unfold print_uint. cbn. apply print_zero_emits.
  - pose proof (digit_loop_stops 65 (repeat 0 64) 0 num (wrap64 radix) up ltac:(lia) ltac:(lia)
      ltac:(lia) (repeat_length _ _)) as Hst.
    destruct (digit_loop 65 (repeat 0 64) 0 num (wrap64 radix) up) as [[b p]|f] eqn:E.
    + destruct Hst as [Hp Hb]. set (ds := reverse (take (Z.to_nat p) b)).
      assert (Hl : length ds = Z.to_nat p) by (unfold ds; rewrite length_reverse, length_take; lia).
      eexists _, (Ok _). split; [|reflexivity].
      apply (print_uint_digits ml md num radix pad left up b ds); [done| |lia|by rewrite Hl].
      rewrite E, Hl. do 2 f_equal. lia.
    + exists [], (Fail f). split; [|done]. unfold print_uint.
      rewrite (proj2 (Z.eqb_neq num 0) Hn), E. apply emits_fail.
Qed.

(** ** A calculus of texts *)

(** [m] comes to an end, having emitted a text and returned a value related by [Q]. *)
Definition twp {A} (m : printer A) (Q : list Z -> A -> Prop) : Prop :=
  exists x r, emits m x r /\ match r with Ok a => Q x a | Fail f => f <> OutOfFuel end.

Lemma twp_ret {A} (a : A) (Q : list Z -> A -> Prop) : Q [] a -> twp (fun Sk putc => ret a) Q.
Proof. intros H. exists [], (Ok a). split; [apply emits_ret|done]. Qed.

Lemma twp_bind {A B} (m : printer A) (f : A -> printer B) (Q1 : list Z -> A -> Prop) Q :
  twp m Q1 -> (forall x a, Q1 x a -> twp (f a) (fun y => Q (x ++ y))) ->
  twp (fun Sk putc => bind (m Sk putc) (fun v => f v Sk putc)) Q.
Proof.
  intros (x & [a|e] & Hm & H1) H2.
  - destruct (H2 x a H1) as (y & r & Hf & Hr). exists (x ++ y), r.
    split; [by eapply emits_bind|done].
  - exists x, (Fail e). split; [by apply emits_bind_fail|done].
Qed.

Lemma twp_putc c (Q : list Z -> unit -> Prop) : Q [c] tt -> twp (fun Sk putc => putc c) Q.
Proof. intros H. exists [c], (Ok tt). split; [apply emits_putc|done]. Qed.

Lemma twp_then {B} c (f : printer B) Q : twp f (fun y => Q (c :: y)) ->
  twp (fun Sk putc => putc c ;;; f Sk putc) Q.
Proof.
  intros H. eapply (twp_bind _ (fun _ => f) (fun x _ => x = [c])); [by apply twp_putc|].
  by intros ? ? ->.
Qed.

Lemma twp_counted (m : printer Z) (Q : list Z -> Z -> Prop) : counted m ->
  (forall x, Q x (i32 (Z.of_nat (length x)))) -> twp m Q.
Proof.
  intros (x & r & Hm & Hr) HQ. exists x, r. split; [done|]. destruct r; subst; eauto.
Qed.

(** The count that goes with a text. *)
Definition grows {A} (n0 : Z) (x : list Z) (r : A * Z) : Prop := snd r = i32 (n0 + Z.of_nat (length x)).

Lemma print_int_counted num fs ps ml md radix pad left up :
  twp (fun Sk putc => print_int putc num fs ps ml md radix pad left up)
      (fun x n => n = i32 (Z.of_nat (length x))).
Proof.
  assert (Hb : forall ml num k (x : list Z), k = Z.of_nat (length x) ->
    twp (fun Sk putc => let* n := print_uint putc ml md (wrap64 num) radix pad left up in ret (i32 (n + k)))
        (fun y n => n = i32 (Z.of_nat (length (x ++ y))))).
  { intros ml' num' k x ->. eapply (twp_bind _ (fun n Sk putc => _)).
    - apply (twp_counted _ (fun x n => n = i32 (Z.of_nat (length x)))); [|done]. apply print_uint_counted.
    - intros y n ->. apply twp_ret. rewrite i32_add, !length_app. cbn. f_equal. lia. }
  unfold print_int. cbv zeta.
  destruct (num <? 0); [|destruct fs; [|destruct ps]]; try apply twp_then.
  - by apply (Hb _ _ 1 [45]).
  - by apply (Hb _ _ 1 [43]).
  - by apply (Hb _ _ 1 [32]).
  - by apply (Hb _ _ 0 []).
Qed.

Lemma put_string_grows str : forall j d n0,
  twp (fun Sk putc => put_string putc str j d (i32 n0)) (grows n0).
Proof.
  assert (H0 : forall d n0, twp (fun Sk putc => ret (d, i32 n0)) (grows (A := directive) n0)).
  { intros d n0. apply twp_ret. unfold grows. cbn. by rewrite Z.add_0_r. }
  induction str as [|c str IH]; intros j d n0; cbn [put_string]; [apply H0|].
  destruct (c =? 0); [apply H0|]. destruct (_ && _); [apply H0|].
  apply twp_then. rewrite i32_add.
  destruct (IH (j + 1) (set_width (i32 (width d - 1)) d) (n0 + 1)) as (x & r & Hx & Hr).
  exists x, r. split; [done|]. destruct r; [|done]. unfold grows in *. cbn [length]. rewrite Hr. f_equal. lia.
Qed.

Lemma put_prefix_grows d v n0 : twp (fun Sk putc => put_prefix putc d v (i32 n0)) (grows n0).
Proof.
  assert (H0 : twp (fun Sk putc => ret (d, i32 n0)) (grows (A := directive) n0)).
  { apply twp_ret. unfold grows. cbn. by rewrite Z.add_0_r. }
  unfold put_prefix. destruct (flags_extra d); [|apply H0].
  destruct (decide (radix v = 16)) as [->|H16].
  { do 2 apply twp_then. apply twp_ret. unfold grows. cbn. by rewrite i32_add. }
  destruct (decide (radix v = 8)) as [->|H8].
  { apply twp_then. apply twp_ret. unfold grows. cbn. by rewrite i32_add. }
  destruct (radix v) as [|q|q]; try apply H0.
  repeat (destruct q as [q|q|]; try apply H0); congruence.
Qed.

(** *** With arguments *)

Definition fprinter (A : Type) : Type := forall Sk, (Z -> M Sk unit) -> M (io Sk) A.

(** With the arguments [va] and the stores [st] so far, [m] emits [x], whatever the
    output is; [r] is its result, the remaining arguments and the stores. *)
Definition femits {A} (m : fprinter A) va st x (r : result (A * list va_slot * list (Z * Z))) : Prop :=
  forall Sk putc k, m Sk putc (mkIO k va st) =
    match emit_all putc x k with
    | Ok (_, k') => match r with
                    | Ok (a, va', st') => Ok (a, mkIO k' va' st')
                    | Fail f => Fail f
                    end
    | Fail f => Fail f
    end.

Definition fwp {A} (m : fprinter A) (Q : list Z -> A -> Prop) : Prop :=
  forall va st, exists x r, femits m va st x r /\
    match r with Ok (a, _, _) => Q x a | Fail f => f <> OutOfFuel end.

Lemma fwp_ret {A} (a : A) (Q : list Z -> A -> Prop) : Q [] a -> fwp (fun Sk putc => ret a) Q.
Proof. intros H va st. by exists [], (Ok (a, va, st)). Qed.

Lemma fwp_fail {A} f (Q : list Z -> A -> Prop) : f <> OutOfFuel -> fwp (fun Sk putc => fail f) Q.
Proof. intros H va st. by exists [], (Fail f). Qed.

Lemma fwp_bind {A B} (m : fprinter A) (f : A -> fprinter B) (Q1 : list Z -> A -> Prop) Q :
  fwp m Q1 -> (forall x a, Q1 x a -> fwp (f a) (fun y => Q (x ++ y))) ->
  fwp (fun Sk putc => bind (m Sk putc) (fun v => f v Sk putc)) Q.
Proof.
  intros Hm Hf va st. destruct (Hm va st) as (x & [[[a va'] st']|e] & Hx & H1).
  - destruct (Hf x a H1 va' st') as (y & r & Hy & Hr). exists (x ++ y), r. split; [|done].
    intros Sk putc k. unfold bind at 1. rewrite Hx, emit_all_app. unfold bind.
    destruct (emit_all putc x k) as [[[] k']|]; [|done]. apply Hy.
  - exists x, (Fail e). split; [|done]. intros Sk putc k. unfold bind. rewrite Hx.
    by destruct (emit_all putc x k) as [[[] k']|].
Qed.

Lemma fwp_mono {A} (m : fprinter A) (Q Q' : list Z -> A -> Prop) :
  fwp m Q -> (forall x a, Q x a -> Q' x a) -> fwp m Q'.
Proof.
  intros Hm H va st. destruct (Hm va st) as (x & r & Hx & Hr). exists x, r. split; [done|].
  destruct r as [[[a ?] ?]|]; eauto.
Qed.

Lemma fwp_out {A} (m : printer A) Q : twp m Q -> fwp (fun Sk putc => out (m Sk putc)) Q.
Proof.
  intros (x & r & Hm & Hr) va st.
  exists x, (match r with Ok a => Ok (a, va, st) | Fail f => Fail f end).
  split; [|by destruct r]. intros Sk putc k. unfold out. cbn. rewrite Hm. unfold bind.
  destruct (emit_all putc x k) as [[[] k']|]; [|done]. by destruct r.
Qed.

(** The argument readers emit nothing. *)
Definition silent {A} (m : fprinter A) : Prop := fwp m (fun x _ => x = []).

Lemma silent_bind {A B} (m : fprinter A) (f : A -> fprinter B) :
  silent m -> (forall a, silent (f a)) ->
  silent (fun Sk putc => bind (m Sk putc) (fun v => f v Sk putc)).
Proof. intros Hm Hf. eapply fwp_bind; [exact Hm|]. intros ? a ->. apply Hf. Qed.

Lemma fwp_silent {A B} (m : fprinter A) (f : A -> fprinter B) Q :
  silent m -> (forall a, fwp (f a) Q) ->
  fwp (fun Sk putc => bind (m Sk putc) (fun v => f v Sk putc)) Q.
Proof. intros Hm Hf. eapply fwp_bind; [exact Hm|]. intros ? a ->. apply Hf. Qed.

Lemma silent_ret {A} (a : A) : silent (fun Sk putc => ret a).
Proof. by apply fwp_ret. Qed.

Lemma silent_va_next : silent (fun Sk putc => va_next).
Proof.
  intros [|a va] st.
  - by exists [], (Fail InvalidAccess).
  - by exists [], (Ok (a, va, st)).
Qed.

Create HintDb stdio.
#[local] Hint Resolve silent_ret silent_va_next : stdio.

Lemma silent_va_word : silent (fun Sk putc => va_word).
Proof.
  apply (silent_bind _ (fun a Sk putc => _)); [apply silent_va_next|].
  intros []; (apply silent_ret || by apply fwp_fail).
Qed.

Lemma silent_va_string : silent (fun Sk putc => va_string).
Proof.
  apply (silent_bind _ (fun a Sk putc => _)); [apply silent_va_next|].
  intros []; (apply silent_ret || by apply fwp_fail).
Qed.

Lemma silent_va_int : silent (fun Sk putc => va_int).
Proof. apply (silent_bind _ (fun a Sk putc => _)); [apply silent_va_word|]. intros; apply silent_ret. Qed.

Lemma silent_va_store v : silent (fun Sk putc => va_store v).
Proof.
  apply (silent_bind _ (fun a Sk putc => _)).
  - apply (silent_bind _ (fun a Sk putc => _)); [apply silent_va_next|].
    intros []; (apply silent_ret || by apply fwp_fail).
  - intros p va st. by exists [], (Ok (tt, va, st ++ [(p, v)])).
Qed.

#[local] Hint Resolve silent_va_word silent_va_string silent_va_int silent_va_store : stdio.

Lemma silent_va_signed l : silent (fun Sk putc => va_signed l).
Proof.
  destruct l; auto with stdio;
    (apply (silent_bind _ (fun a Sk putc => _)); [auto with stdio|intros; apply silent_ret]).
Qed.

Lemma silent_va_unsigned l : silent (fun Sk putc => va_unsigned l).
Proof.
  destruct l; (apply (silent_bind _ (fun a Sk putc => _)); [auto with stdio|intros; apply silent_ret]).
Qed.

Lemma silent_store_count l n : silent (fun Sk putc => store_count l n).
Proof. destruct l; apply silent_va_store. Qed.

#[local] Hint Resolve silent_va_signed silent_va_unsigned silent_store_count : stdio.

(** *** One specification *)

Lemma fwp_grows_ret {A} (d : A) n0 : fwp (fun Sk putc => ret (d, i32 n0)) (grows n0).
Proof. apply fwp_ret. unfold grows. cbn. by rewrite Z.add_0_r. Qed.

Lemma put_direct_grows c d n0 : fwp (fun Sk putc => put_direct putc c d (i32 n0)) (grows n0).
Proof.
  assert (H0 : fwp (fun Sk putc => ret (d, i32 n0)) (grows n0)) by apply fwp_grows_ret.
  assert (Hc : forall c, fwp (fun Sk putc => out (putc c) ;;; ret (d, i32 (i32 n0 + 1))) (grows n0)).
  { intros c'. eapply (fwp_bind _ (fun _ Sk putc => _)).
    - by apply fwp_out, (twp_putc c' (fun x _ => x = [c'])).
    - intros ? ? ->. apply fwp_ret. unfold grows. cbn. by rewrite i32_add. }
  assert (H99 : fwp (fun Sk putc => let* a := va_int in out (putc (i8 a)) ;;; ret (d, i32 (i32 n0 + 1))) (grows n0)).
  { apply (fwp_silent _ (fun a Sk putc => _)); [auto with stdio|]. intros a. apply Hc. }
  assert (H110 : fwp (fun Sk putc => store_count (len d) (i32 n0) ;;; ret (d, i32 n0)) (grows n0)).
  { apply (fwp_silent _ (fun a Sk putc => _)); [auto with stdio|]. intros _. apply H0. }
  assert (H115 : fwp (fun Sk putc => let* str := va_string in
    let* (d, n) := out (put_string putc str 0 d (i32 n0)) in
    let* n := out (put_padding putc (Z.to_nat (width d)) false n) in ret (d, n)) (grows n0)).
  { apply (fwp_silent _ (fun a Sk putc => _)); [auto with stdio|]. intros str.
    eapply (fwp_bind _ (fun a Sk putc => _)); [apply fwp_out, put_string_grows|].
    intros x [d' n] Hn. unfold grows in Hn. cbn in Hn. subst n. cbn beta iota.
    eapply (fwp_bind _ (fun a Sk putc => _)).
    - apply fwp_out. eexists _, (Ok _). split; [apply put_padding_emits|].
      instantiate (1 := fun y n => n = i32 (n0 + Z.of_nat (length (x ++ y)))).
      cbn beta. rewrite length_app, repeat_length. f_equal. lia.
    - intros y n Hn. apply fwp_ret. unfold grows. cbn. by rewrite app_nil_r. }
  unfold put_direct. destruct c as [|q|q]; [exact H0| |exact H0].
  repeat (destruct q as [q|q|]; try first [exact H0 | exact (Hc 37) | exact H99 | exact H110 | exact H115]).
Qed.

Lemma put_number_grows d v n0 :
  fwp (fun Sk putc => put_number putc d v (i32 n0)) (fun x n => n = i32 (n0 + Z.of_nat (length x))).
Proof.
  assert (Hp : forall m : printer Z, twp m (fun x n => n = i32 (Z.of_nat (length x))) ->
    fwp (fun Sk putc => let* n := out (m Sk putc) in ret (i32 (i32 n0 + n)))
        (fun x n => n = i32 (n0 + Z.of_nat (length x)))).
  { intros m Hm. eapply (fwp_bind _ (fun a Sk putc => _)); [by apply fwp_out|].
    intros x n ->. apply fwp_ret. by rewrite i32_add, i32_add_r, app_nil_r. }
  unfold put_number. destruct (number v); [|apply fwp_ret; cbn; by rewrite Z.add_0_r].
  destruct (floating v); [by apply fwp_fail|].
  destruct (sign v); (apply (fwp_silent _ (fun a Sk putc => _)); [auto with stdio|]); intros num; apply Hp.
  - apply print_int_counted.
  - apply twp_counted; [apply print_uint_counted|done].
Qed.

Lemma step_spec_grows c d n0 :
  fwp (fun Sk putc => step_spec putc c d (i32 n0)) (fun x n => n = i32 (n0 + Z.of_nat (length x))).
Proof.
  unfold step_spec. cbv zeta. set (d1 := if c =? 112 then _ else _). set (v := match select c with _ => _ end).
  eapply (fwp_bind _ (fun a Sk putc => _)); [apply put_direct_grows|].
  intros x [d2 n] Hn. unfold grows in Hn. cbn in Hn. subst n. cbn beta iota.
  eapply (fwp_bind _ (fun a Sk putc => _)); [apply fwp_out, put_prefix_grows|].
  intros y [d3 n] Hn. unfold grows in Hn. cbn in Hn. subst n. cbn beta iota.
  eapply fwp_mono; [apply put_number_grows|]. intros z n ->. rewrite !length_app. f_equal. lia.
Qed.

(** *** The loop *)

(** How many more looks a character may get in a mode. *)
Definition rank (m : PRINTF_MODES) : nat :=
  match m with NORMAL => 1 | SPEC => 2 | LEN => 3 | WIDTH | PREC => 4 | FLAGS => 5 end.

(** A step moves on to the next character or to a mode of smaller rank. *)
Definition progress (m : PRINTF_MODES) (r : PRINTF_MODES * directive * bool) : Prop :=
  let '(m', _, goto) := r in goto = true \/ (rank m' < rank m)%nat.

Lemma step_flags_progress c d : progress FLAGS (step_flags c d).
Proof.
  unfold step_flags. destruct c as [|q|q]; [right; cbn; lia| |right; cbn; lia].
  repeat (destruct q as [q|q|]; try (right; cbn; lia)); by left.
Qed.

Notation quiet m Q := (fwp m (fun x r => x = [] /\ Q r)).

Lemma mute_ret {A} (a : A) (Q : A -> Prop) : Q a -> quiet (fun Sk putc => ret a) Q.
Proof. intros H. by apply fwp_ret. Qed.

Lemma mute_bind {A B} (m : fprinter A) (f : A -> fprinter B) Q :
  silent m -> (forall a, quiet (f a) Q) ->
  quiet (fun Sk putc => bind (m Sk putc) (fun v => f v Sk putc)) Q.
Proof. intros Hm Hf. apply (fwp_silent m f); [done|]. apply Hf. Qed.

Lemma step_number_progress mode (c : Z) (f g : Z -> directive) (d d' : directive) (goto : PRINTF_MODES) :
  rank mode = 4%nat ->
  quiet (fun Sk putc => if c =? 42 then let* w := va_int in ret (LEN, f w, true)
                        else if is_digit c then ret (goto, d', true) else ret (LEN, d, false))
        (progress mode).
Proof.
  intros Hr. destruct (c =? 42).
  - apply (mute_bind _ (fun a Sk putc => _)); [auto with stdio|]. intros w. apply mute_ret. by left.
  - destruct (is_digit c); apply mute_ret; [by left|right; cbn; lia].
Qed.

Lemma step_len_progress c d : quiet (fun Sk putc => step_len c d) (progress LEN).
Proof.
  unfold step_len. destruct c as [|q|q]; [apply mute_ret; right; cbn; lia| |apply mute_ret; right; cbn; lia].
  repeat (destruct q as [q|q|]; try first [apply mute_ret; right; cbn; lia | apply mute_ret; by left]).
  destruct (precision d =? -1); [apply mute_ret; by left|by apply fwp_fail].
Qed.

Lemma char_at_quiet format i : (i <= length format)%nat ->
  quiet (fun Sk putc => char_at format i) (fun c => c <> 0 -> (i < length format)%nat).
Proof.
  intros Hi. unfold char_at. destruct (format !! i) as [c|] eqn:E.
  - apply mute_ret. intros _. by eapply lookup_lt_Some.
  - destruct (i =? length format)%nat; [by apply mute_ret|by apply fwp_fail].
Qed.

Lemma format_loop_grows fuel : forall format i mode d n0, (i <= length format)%nat ->
  (6 * (length format - i) + rank mode < fuel)%nat ->
  fwp (fun Sk putc => format_loop putc fuel format i mode d (i32 n0))
      (fun x n => n = i32 (n0 + Z.of_nat (length x))).
Proof.
  induction fuel as [|fuel IH]; intros format i mode d n0 Hi Hf; [lia|]. cbn [format_loop].
  eapply (fwp_bind _ (fun a Sk putc => _)); [by apply char_at_quiet|].
  intros ? c [-> Hc]. cbn beta. destruct (c =? 0) eqn:E; zb.
  { apply fwp_ret. cbn. by rewrite Z.add_0_r. }
  specialize (Hc E). clear E.
  assert (Hstep : forall m, fwp m (fun x r => x = [] /\ progress mode r) ->
    fwp (fun Sk putc => let* (mode, d, goto) := m Sk putc in
           format_loop putc fuel format (if goto : bool then S i else i) mode d (i32 n0))
        (fun x n => n = i32 (n0 + Z.of_nat (length x)))).
  { intros m Hm. eapply (fwp_bind _ (fun a Sk putc => _)); [exact Hm|].
    intros ? [[m' d'] goto] [-> Hp]. cbn beta iota. apply IH.
    - destruct goto; lia.
    - assert (rank m' <= 5)%nat by (destruct m'; cbn; lia).
      assert (1 <= rank mode)%nat by (destruct mode; cbn; lia).
      destruct Hp as [->|Hp]; [lia|]. destruct goto; lia. }
  destruct mode.
  - cbn [rank] in Hf. destruct (c =? 37); [apply IH; cbn [rank]; lia|].
    eapply (fwp_bind _ (fun a Sk putc => _)); [by apply fwp_out, (twp_putc c (fun x _ => x = [c]))|].
    intros ? ? ->. rewrite i32_add. eapply fwp_mono; [apply IH; cbn [rank]; lia|].
    intros x n ->. f_equal. cbn. lia.
  - apply (Hstep (fun Sk putc => ret (step_flags c d))).
    apply mute_ret, step_flags_progress.
  - apply Hstep. by apply step_number_progress.
  - apply Hstep. by apply step_number_progress.
  - apply Hstep. apply step_len_progress.
  - cbn [rank] in Hf. eapply (fwp_bind _ (fun a Sk putc => _)); [apply step_spec_grows|].
    intros x n ->. cbn beta. eapply fwp_mono; [apply IH; cbn [rank]; lia|].
    intros y n ->. f_equal. rewrite !length_app. cbn. lia.
Qed.

Lemma vformat_grows format :
  fwp (fun Sk putc => vformat putc format) (fun x n => n = i32 (Z.of_nat (length x))).
Proof. apply (format_loop_grows _ format 0 NORMAL directive0 0); unfold format_fuel; cbn; lia. Qed.

(** ** Into an array *)

(** The array after emitting [x] into it with room for [m] characters. *)
Definition sn_after (m : nat) (s x : list Z) : list Z := take m x ++ drop (length (take m x)) s.

Lemma snputc_emit_all m s : Z.of_nat m < W64 - 1 -> (m <= length s)%nat -> forall x y,
  emit_all (snputc (Z.of_nat m)) y (mkSn (sn_after m s x) (Z.of_nat (length (take m x)))) =
  Ok (tt, mkSn (sn_after m s (x ++ y)) (Z.of_nat (length (take m (x ++ y))))).
Proof.
  intros Hm Hs x y. revert x. induction y as [|c y IH]; intros x; [by rewrite app_nil_r|].
  cbn. unfold bind, snputc at 1. cbn.
  assert (Hlen : length (sn_after m s x) = length s).
  { unfold sn_after. rewrite length_app, length_drop, length_take. lia. }
  replace (x ++ c :: y) with ((x ++ [c]) ++ y) by by rewrite <- app_assoc.
  rewrite <- (IH (x ++ [c])).
  destruct (Nat.ltb_spec (length x) m) as [Hlt|Hge].
  - rewrite !length_take, Nat.min_r by lia.
    rewrite (proj2 (Z.ltb_lt _ _)) by lia. rewrite Hlen. rewrite (proj2 (Z.ltb_lt _ _)) by lia.
    rewrite add64_small by lia. f_equal. f_equal.
    + unfold sn_after. rewrite !take_ge by (rewrite ?length_app; cbn; lia).
      rewrite Nat2Z.id, <- app_assoc. rewrite insert_app_r_alt, Nat.sub_diag by lia.
      destruct (drop (length x) s) as [|z s'] eqn:Ed.
      { apply (f_equal length) in Ed. rewrite length_drop in Ed. cbn in Ed. lia. }
      cbn. f_equal. f_equal.
      replace (length (x ++ [c])) with (length x + 1)%nat by (rewrite length_app; cbn; lia).
      rewrite <- (drop_drop s 1 (length x)), Ed. done.
    + rewrite ?length_take, ?length_app. cbn. lia.
  - rewrite !length_take, Nat.min_l by lia. rewrite Z.ltb_irrefl.
    f_equal. unfold sn_after. rewrite !take_app_le by lia. f_equal. rewrite length_app. lia.
Qed.

Lemma vsnprintf_of_text s n format va x r : 1 <= n <= Z.of_nat (length s) -> n < W64 ->
  femits (fun Sk putc => vformat putc format) va [] x r ->
  vsnprintf s n format va =
    match r with
    | Ok (rc, _, st) =>
        Ok (rc, take (Z.to_nat (n - 1)) x ++ [0] ++ drop (S (Nat.min (Z.to_nat (n - 1)) (length x))) s, st)
    | Fail f => Fail f
    end.
Proof.
  intros Hn Hn64 Hx. rewrite vsnprintf_copy, sub64_small by lia.
  set (m := Z.to_nat (n - 1)). replace (n - 1) with (Z.of_nat m) by lia.
  unfold bind at 1. rewrite Hx.
  pose proof (snputc_emit_all m s ltac:(lia) ltac:(lia) [] x) as He.
  rewrite take_nil in He. cbn in He. unfold sn_after in He at 1. rewrite take_nil in He. cbn in He.
  rewrite drop_0 in He. change (Z.of_nat 0) with 0 in He. rewrite He. destruct r as [[[rc va'] st]|f]; [|done].
  unfold bind, out, snputc. cbn. unfold sn_after.
  rewrite length_take, length_app, length_take, length_drop.
  unfold SIZE_MAX, UINT64_MAX. rewrite (proj2 (Z.ltb_lt _ _)) by lia.
  rewrite (proj2 (Z.ltb_lt _ _)) by lia. cbn. do 3 f_equal.
  rewrite Nat2Z.id. rewrite insert_app_r_alt by (rewrite length_take; lia).
  rewrite length_take, Nat.sub_diag. destruct (drop (m `min` length x) s) as [|z s'] eqn:Ed.
  { apply (f_equal length) in Ed. rewrite length_drop in Ed. cbn in Ed. lia. }
  cbn. f_equal. f_equal. replace (S (m `min` length x)) with (m `min` length x + 1)%nat by lia.
  by rewrite <- (drop_drop s 1), Ed.
Qed.

Lemma snputc_room m c b : sn_size b < m -> snputc m c b =
  if sn_size b <? Z.of_nat (length (sn_s b)) then Ok (tt, mkSn (<[Z.to_nat (sn_size b) := c]> (sn_s b)) (add64 (sn_size b) 1)) else Fail InvalidAccess.
Proof. intros Hm. unfold snputc. by rewrite (proj2 (Z.ltb_lt _ _) Hm). Qed.

(** Without a limit in the way two bounds store the same. *)
Lemma snputc_bounds m m' : forall x b, sn_size b + Z.of_nat (length x) <= m -> sn_size b + Z.of_nat (length x) <= m' ->
  0 <= sn_size b -> Z.of_nat (length (sn_s b)) < W64 -> emit_all (snputc m) x b = emit_all (snputc m') x b.
Proof.
  induction x as [|c x IH]; intros b Hm Hm' H0 Hl; [done|]. cbn [emit_all length] in *. unfold bind. rewrite !snputc_room by lia.
  destruct (Z.ltb_spec (sn_size b) (Z.of_nat (length (sn_s b)))); [|done].
  apply IH; cbn; rewrite ?length_insert, ?add64_small; lia.
Qed.

(** A text that is longer than the array is stored past its end. *)
Lemma snputc_overflow m : forall x b, 0 <= sn_size b <= Z.of_nat (length (sn_s b)) -> Z.of_nat (length (sn_s b)) < m -> m < W64 ->
  Z.of_nat (length (sn_s b)) < sn_size b + Z.of_nat (length x) -> emit_all (snputc m) x b = Fail InvalidAccess.
Proof.
  induction x as [|c x IH]; intros b Hb Hm Hw Hlen; cbn [length] in Hlen; [lia|]. cbn [emit_all]. unfold bind. rewrite snputc_room by lia.
  destruct (Z.ltb_spec (sn_size b) (Z.of_nat (length (sn_s b)))); [|done].
  apply IH; cbn; rewrite ?length_insert, ?add64_small; lia.
Qed.

(** The size 0 is decremented to the largest one. *)
Lemma vsnprintf_size_zero s format va x r : Z.of_nat (length s) < W64 - 1 ->
  femits (fun Sk putc => vformat putc format) va [] x r ->
  vsnprintf s 0 format va =
    if Z.of_nat (length x) <=? Z.of_nat (length s) then
      match r with
      | Ok (rc, _, st) => if Z.of_nat (length x) <? Z.of_nat (length s) then Ok (rc, x ++ [0] ++ drop (S (length x)) s, st) else Fail InvalidAccess
      | Fail f => Fail f
      end
    else Fail InvalidAccess.
Proof.
  intros Hs Hx. rewrite vsnprintf_copy. change (sub64 0 1) with (W64 - 1). unfold bind at 1. rewrite Hx.
  destruct (Z.leb_spec (Z.of_nat (length x)) (Z.of_nat (length s))) as [Hle|Hgt].
  - rewrite (snputc_bounds (W64 - 1) (Z.of_nat (length s))) by (cbn; lia).
    pose proof (snputc_emit_all (length s) s ltac:(lia) ltac:(lia) [] x) as He.
    rewrite take_nil in He. cbn in He. unfold sn_after in He at 1. rewrite take_nil in He. cbn in He.
    rewrite drop_0 in He. change (Z.of_nat 0) with 0 in He. rewrite He. destruct r as [[[rc va'] st]|f]; [|done].
    unfold bind, out, snputc. cbn. unfold sn_after. rewrite take_ge by lia. rewrite length_app, length_drop.
    unfold SIZE_MAX, UINT64_MAX. rewrite (proj2 (Z.ltb_lt _ _)) by lia.
    destruct (Z.ltb_spec (Z.of_nat (length x)) (Z.of_nat (length s))) as [Hlt|Hge].
    + rewrite (proj2 (Z.ltb_lt _ _)) by lia. cbn. do 3 f_equal. rewrite Nat2Z.id, insert_app_r_alt, Nat.sub_diag by lia.
      destruct (drop (length x) s) as [|z s'] eqn:Ed; [apply (f_equal length) in Ed; rewrite length_drop in Ed; cbn in Ed; lia|].
      cbn. do 2 f_equal. replace (S (length x)) with (length x + 1)%nat by lia. by rewrite <- (drop_drop s 1), Ed.
    + by rewrite (proj2 (Z.ltb_ge _ _)) by lia.
  - by rewrite (snputc_overflow (W64 - 1)) by (cbn; lia).
Qed.

Lemma vfprintf_of_text valid file w format va x r :
  femits (fun Sk putc => vformat putc format) va [] x r ->
  vfprintf valid file format (mkIO w va []) =
    match (internal_lock file ;;; emit_all (stream_putc valid file) x) w, r with
    | Ok (_, w1), Ok (rc, va', st) =>
        match internal_unlock file w1 with Ok (_, w2) => Ok (rc, mkIO w2 va' st) | Fail f => Fail f end
    | Ok _, Fail f => Fail f
    | Fail f, _ => Fail f
    end.
Proof.
  intros Hx. cbv beta iota delta [vfprintf bind out sink args stores].
  destruct (internal_lock file w) as [[[] w1]|f]; [|done]. rewrite Hx.
  destruct (emit_all (stream_putc valid file) x w1) as [[[] w2]|f]; [|done].
  destruct r as [[[rc va'] st]|f]; [|done]. by destruct (internal_unlock file w2) as [[[] w3]|f].
Qed.

(** ** Theorems *)

(** C14: the two copies of the formatter print the same. For every format and arguments
    there is one text [x] and one outcome [r] such that [vfprintf] locks the stream,
    writes exactly [x] to it and unlocks it, while [vsnprintf] with a size [n] of at
    least 1 and an array of at least [n] characters stores the first [n - 1] characters
    of [x] and a terminator, touching no other element of the array; both return the
    length of [x] (as an [int]), truncated or not. A size of 0 is no limit: [vsnprintf]
    then stores the whole of [x] and the terminator, which runs past the end of an array
    that has no room for them. Formatting always comes to an end: where it fails, it is
    by an assertion, by missing arguments or, with size 0, by the stores past the end. *)
Theorem vsnprintf_is_prefix_of_vfprintf format va :
  exists x r,
    match r with Ok (rc, _, _) => rc = i32 (Z.of_nat (length x)) | Fail f => f <> OutOfFuel end /\
    (forall valid file w, vfprintf valid file format (mkIO w va []) =
      match (internal_lock file ;;; emit_all (stream_putc valid file) x) w, r with
      | Ok (_, w1), Ok (rc, va', st) =>
          match internal_unlock file w1 with Ok (_, w2) => Ok (rc, mkIO w2 va' st) | Fail f => Fail f end
      | Ok _, Fail f => Fail f
      | Fail f, _ => Fail f
      end) /\
    (forall s n, 1 <= n <= Z.of_nat (length s) -> n < W64 ->
      vsnprintf s n format va =
      match r with
      | Ok (rc, _, st) =>
          Ok (rc, take (Z.to_nat (n - 1)) x ++ [0] ++ drop (S (Nat.min (Z.to_nat (n - 1)) (length x))) s, st)
      | Fail f => Fail f
      end) /\
    (forall s, Z.of_nat (length s) < W64 - 1 ->
      vsnprintf s 0 format va =
      if Z.of_nat (length x) <=? Z.of_nat (length s) then
        match r with
        | Ok (rc, _, st) =>
            if Z.of_nat (length x) <? Z.of_nat (length s) then Ok (rc, x ++ [0] ++ drop (S (length x)) s, st) else Fail InvalidAccess
        | Fail f => Fail f
        end
      else Fail InvalidAccess).
Proof.
  destruct (vformat_grows format va []) as (x & r & Hx & Hr). exists x, r.
  split; [by destruct r as [[[]]|]|]. split_and!; intros.
  - by apply vfprintf_of_text.
  - by apply vsnprintf_of_text.
  - by apply vsnprintf_size_zero.
Qed.

Lemma vsnprintf_is_prefix_of_vfprintf_witness :
  exists x, vsnprintf [9; 9; 9; 9; 9; 9] 4 [37; 100; 33; 33] [VWord 42] =
    Ok (4, take 3 x ++ [0] ++ drop (S (Nat.min 3 (length x))) [9; 9; 9; 9; 9; 9], []).
Proof.
  destruct (vsnprintf_is_prefix_of_vfprintf [37; 100; 33; 33] [VWord 42]) as (x & r & _ & _ & H & _).
  exists x. specialize (H [9; 9; 9; 9; 9; 9] 4 ltac:(cbn; lia) ltac:(lia)).
  rewrite H. change (Z.to_nat (4 - 1)) with 3%nat in *.
  destruct r as [[[rc va'] st]|f]; [|vm_compute in H; discriminate H].
  assert (E : rc = 4 /\ st = []) by (vm_compute in H; by injection H).
  destruct E as [-> ->]. reflexivity.
Defined.

(** ** Numbers in closed form *)

(** The text of a number with the digits [ds] in a field of [ml] characters with a
    precision of [md] digits. *)
Definition number_text (ml md : Z) (ds : list Z) (pad left : bool) : list Z :=
  let p := Z.of_nat (length ds) in
  let zeros := Z.max 0 (md - p) in
  if ml <=? p then ds
  else if left then
    repeat 48 (Z.to_nat zeros) ++ ds ++ repeat (if pad then 48 else 32) (Z.to_nat (ml - p - zeros))
  else if pad then repeat 48 (Z.to_nat (ml - p)) ++ ds
  else repeat 48 (Z.to_nat (Z.min (ml - p) zeros)) ++ repeat 32 (Z.to_nat (ml - p - zeros)) ++ ds.

Lemma field_text_pad n : forall md, field_text n true md = repeat 48 n.
Proof. induction n as [|n IH]; intros md; cbn; [done|]. by rewrite IH. Qed.

Lemma field_text_blank n : forall md, - 2 ^ 31 <= md < 2 ^ 31 ->
  field_text n false md =
  repeat 48 (Z.to_nat (Z.min (Z.of_nat n) (Z.max 0 md))) ++
  repeat 32 (Z.to_nat (Z.of_nat n - Z.max 0 md)).
Proof.
  induction n as [|n IH]; intros md Hmd; cbn [field_text orb].
  - rewrite (Z.min_l 0), (Z2Nat.nonpos (Z.of_nat 0 - _)) by lia. done.
  - destruct (0 <? md) eqn:E; zb.
    + rewrite i32_small, IH by lia.
      replace (Z.to_nat (Z.min (Z.of_nat (S n)) (Z.max 0 md)))
        with (S (Z.to_nat (Z.min (Z.of_nat n) (Z.max 0 (md - 1))))) by lia.
      cbn [repeat app]. do 3 f_equal. lia.
    + rewrite IH by lia. rewrite !Z.max_l, !Z.min_r, !Z.sub_0_r by lia.
      rewrite !Nat2Z.id. done.
Qed.

Lemma uint_text_closed ml md ds pad left : (length ds <= 64)%nat ->
  - 2 ^ 31 + 64 <= md < 2 ^ 31 -> ml < 2 ^ 31 ->
  uint_text ml md ds pad left = number_text ml md ds pad left.
Proof.
  intros Hds Hmd Hml. unfold uint_text, number_text. cbv zeta.
  set (p := Z.of_nat (length ds)). assert (Hp : 0 <= p <= 64) by lia. clearbody p.
  destruct (p <? ml) eqn:E; zb.
  - rewrite (proj2 (Z.leb_gt _ _)) by lia. rewrite !i32_small by lia. destruct left.
    + rewrite iter_pred by lia. replace (Z.to_nat (Z.max 0 (md - p))) with (Z.to_nat (md - p)) by lia.
      do 4 f_equal. lia.
    + destruct pad; [by rewrite field_text_pad|].
      rewrite field_text_blank, <- app_assoc by lia. rewrite Z2Nat.id by lia. done.
  - by rewrite (proj2 (Z.leb_le _ _)) by lia.
Qed.

(** Printing a non-zero number. Whatever the output, [fprintf_uint] (and with
    it [snprintf_uint]) emits the digits, padded to the field as [number_text] says,
    and returns the length of that text; the digits of any 64-bit number fit its
    64-character buffer in every radix from 2 to 16, and reading them back gives the
    number. *)
Theorem print_uint_spec {Sk} (putc : Z -> M Sk unit) k ml md num radix pad left up :
  0 < num < W64 -> 2 <= radix <= 16 -> - 2 ^ 31 + 64 <= md < 2 ^ 31 -> ml < 2 ^ 31 ->
  let ds := digits num radix up in
  print_uint putc ml md num radix pad left up k =
    (emit_all putc (number_text ml md ds pad left) ;;;
     ret (i32 (Z.of_nat (length (number_text ml md ds pad left))))) k /\
  read_number radix ds = num /\ (length ds <= 64)%nat.
Proof.
  intros Hnum Hr Hmd Hml ds.
  destruct (digit_loop_fits radix up num Hr ltac:(unfold u64; lia)) as (b & Hloop & Hlen & Hds).
  assert (H64 : 0 <= num < radix ^ 64) by (apply digits64; unfold u64; lia).
  assert (Hl : (length ds <= 64)%nat).
  { unfold ds, digits. rewrite length_reverse. apply low_digits_length; lia. }
  split_and!; [|apply read_low_digits; lia|done].
  rewrite <- uint_text_closed by done.
  apply (print_uint_digits ml md num radix pad left up b ds); try done; [lia|].
  by rewrite wrap64_small by lia.
Qed.

Lemma print_uint_spec_witness :
  read_number 16 (digits 48879 16 false) = 48879 /\
  print_uint (snputc 10) 8 4 48879 16 false false false (mkSn (repeat 0 10) 0) =
    Ok (8, mkSn (number_text 8 4 (digits 48879 16 false) false false ++ [0; 0]) 8).
Proof.
  destruct (print_uint_spec (snputc 10) (mkSn (repeat 0 10) 0) 8 4 48879 16 false false false)
    as (H1 & H2 & _); [lia|lia|lia|lia|].
  split; [exact H2|]. rewrite H1. vm_compute. reflexivity.
Defined.

(** *** End to end *)

Lemma digits_0 radix up : 2 <= radix <= 16 -> digits 0 radix up = [48].
Proof.
  intros H. unfold digits. cbn [low_digits]. rewrite Zdiv_0_l, Zmod_0_l. by destruct up.
Qed.

Lemma print_uint_plain num : u64 num ->
  emits (fun Sk putc => print_uint putc 0 (-1) num 10 false false false) (digits num 10 false)
        (Ok (i32 (Z.of_nat (length (digits num 10 false))))).
Proof.
  intros [H1 H2]. destruct (decide (num = 0)) as [->|Hn].
  - rewrite digits_0 by lia. apply (emits_then 48 (fun Sk putc => ret 1)). apply emits_ret.
  - destruct (digit_loop_fits 10 false num ltac:(lia) (conj H1 H2)) as (b & Hloop & Hlen & Hds).
    pose proof (print_uint_digits 0 (-1) num 10 false false false b _ Hn Hloop Hlen Hds) as H.
    unfold uint_text in H. rewrite (proj2 (Z.ltb_ge _ _)) in H by lia. exact H.
Qed.

Lemma vformat_lu num : u64 num ->
  femits (fun Sk putc => vformat putc [37; 108; 117]) [VWord num] [] (digits num 10 false)
         (Ok (i32 (Z.of_nat (length (digits num 10 false))), [], [])).
Proof.
  intros Hnum Sk putc k. change (vformat putc [37; 108; 117]) with
    (let* n := step_spec putc 117 (set_len L_LONG directive0) 0 in
     format_loop putc 19 [37; 108; 117] 3 NORMAL directive0 n).
  unfold step_spec, put_direct, put_prefix, put_number, bind, out, va_word, va_next.
  cbn -[print_uint digits i32 wrap64].
  rewrite wrap64_small by exact Hnum. rewrite (print_uint_plain num Hnum).
  unfold bind. destruct (emit_all putc (digits num 10 false) k) as [[[] k']|]; [|done].
  cbn -[digits i32]. by rewrite i32_add_r, Z.add_0_l.
Qed.

(** Printing and reading back. [snprintf] with the format [%lu] into an array of
    at least 65 characters leaves there the decimal digits of the argument, a
    terminator and the rest of the array as it was, and returns the number of digits;
    the digits read back as the argument. *)
Theorem snprintf_lu_roundtrip s n num : u64 num -> 65 <= n <= Z.of_nat (length s) -> n < W64 ->
  let ds := digits num 10 false in
  snprintf s n [37; 108; 117] [VWord num] =
    Ok (Z.of_nat (length ds), ds ++ [0] ++ drop (S (length ds)) s, []) /\
  read_number 10 ds = num /\ Forall (fun c => 48 <= c <= 57) ds.
Proof.
  intros Hnum Hn Hn64 ds.
  assert (H64 : 0 <= num < 10 ^ 64) by (apply digits64; [lia|exact Hnum]).
  assert (Hl : (length ds <= 64)%nat).
  { unfold ds, digits. rewrite length_reverse. apply low_digits_length; lia. }
  split_and!.
  - assert (Hn1 : 1 <= n <= Z.of_nat (length s)) by lia. unfold snprintf.
    rewrite (vsnprintf_of_text s n _ _ _ _ Hn1 Hn64 (vformat_lu num Hnum)).
    fold ds. rewrite take_ge, Nat.min_r, i32_small by lia. done.
  - apply read_low_digits; lia.
  - unfold ds, digits. apply Forall_reverse. clear. generalize 64%nat as fuel. intros fuel.
    revert num. induction fuel as [|fuel IH]; intros num; cbn [low_digits]; [constructor|].
    constructor; [|by destruct (0 <? num / 10)].
    pose proof (Z.mod_pos_bound num 10 ltac:(lia)) as Hm. revert Hm. generalize (num mod 10). intros d Hd.
    assert (Hc : d = 0 \/ d = 1 \/ d = 2 \/ d = 3 \/ d = 4 \/ d = 5 \/ d = 6 \/ d = 7 \/ d = 8 \/ d = 9) by lia.
    destruct_or! Hc; subst; vm_compute; split; discriminate.
Qed.

Lemma snprintf_lu_roundtrip_witness :
  read_number 10 (digits 1234 10 false) = 1234 /\
  snprintf (repeat 9 70) 70 [37; 108; 117] [VWord 1234] = Ok (4, [49; 50; 51; 52; 0] ++ repeat 9 65, []).
Proof.
  destruct (snprintf_lu_roundtrip (repeat 9 70) 70 1234) as (H1 & H2 & _);
    [split; lia|cbn; lia|lia|].
  split; [exact H2|]. rewrite H1. vm_compute. reflexivity.
Defined.
End StdioSpec.
