(* ===== verification/ConsoleSpec.v ===== *)
(** * ConsoleSpec.v: formatted output on the screen

    The formatter (Stdio.v), the terminal (TTY.v) and the console (Graphics.v)
    composed: printing to a stream whose backend is a console in good order. *)

From S2P Require Import Prelude FileDescriptor Graphics TTY Stdio Snprintf StdioSpec.
Import FileDescriptor(TTYStream, IN, OUT, ERR, DEBUG, INVALID).
Import Stdio StdioSpec.
Import Snprintf(snprintf).

#[local] Open Scope Z_scope.
#[local] Open Scope kernel_scope.

Module ConsoleSpec.

Lemma EnableInterrupts_runs (i : bool) w (Q : unit -> TTY.world -> Prop) :
  Q tt (if i then TTY.set_interrupts true w else w) ->
  runs (TTY.EnableInterrupts (if i then 512 else 0)) w Q.
Proof. destruct i; intros HQ; apply (runs_eq _ _ tt _ _ eq_refl HQ). Qed.

Section Screen.
Context (valid : Z -> bool) (t : TTY.TTY) (stream : TTYStream) (p vp : Z).

(** The stream [stream] of the terminal [t] is the console [vp] behind backend [p],
    and the debug backend is there if the stream is mirrored. *)
Record screen_ok (w : TTY.world) : Prop := {
  s_tty : TTY.g_CurrentTTY w = Some t;
  s_stream : stream <> INVALID;
  s_backend : TTY.m_backends t !! TTY.stream_index stream = Some p;
  s_nonnull : p <> 0 /\ vp <> 0;
  s_type : exists b, TTY.backends w !! p = Some b /\ TTY.m_type b = TTY.VGA /\ TTY.m_vga b = vp;
  s_console : exists v, TTY.vgas w !! vp = Some v /\ Graphics.console_ok valid v;
  s_debug : TTY.mirrored t stream = true -> exists d db,
    TTY.m_backends t !! 3%nat = Some d /\ d <> 0 /\
    TTY.backends w !! d = Some db /\ TTY.m_type db = TTY.Debug
}.

(** What goes to the debug port. *)
Definition mirror (x : list Z) : list Z := if TTY.mirrored t stream then x else [].

(** The console after [w'] is the one of [w] with the text [x] printed on it. *)
Definition drawn (x : list Z) (w w' : TTY.world) : Prop := exists v v',
  TTY.vgas w !! vp = Some v /\ Graphics.PrintString valid x v = Ok (tt, v') /\ TTY.vgas w' = <[vp := v']> (TTY.vgas w).

Lemma drawn_nil w : screen_ok w -> drawn [] w w.
Proof. intros Hw. destruct (s_console w Hw) as (v & Hv & _). exists v, v. split_and!; [done|done|]. by rewrite insert_id. Qed.

Lemma drawn_app x y w1 w2 w3 : drawn x w1 w2 -> drawn y w2 w3 -> drawn (x ++ y) w1 w3.
Proof.
  intros (v & v' & Hv & Hp & E2) (u & u' & Hu & Hq & E3). rewrite E2, lookup_insert_eq in Hu. simplify_eq. exists v, u'.
  rewrite E3, E2, insert_insert_eq. split_and!; [done| |done]. clear Hv E2 E3. revert v Hp.
  induction x as [|c x IH]; intros v Hp; cbn in *; [by injection Hp as ->|].
  apply bind_Ok in Hp as ([] & v1 & H1 & Hp). unfold bind. rewrite H1. by apply IH.
Qed.

(** Writing changes the picture and the debug port only. *)
Definition wrote (x : list Z) (w w' : TTY.world) : Prop :=
  screen_ok w' /\ TTY.backends w' = TTY.backends w /\ TTY.interrupts w' = TTY.interrupts w /\
  TTY.port w' = TTY.port w ++ mirror x /\ drawn x w w'.

Lemma get_backend_runs q b w (Q : TTY.TTYBackend -> TTY.world -> Prop) :
  q <> 0 -> TTY.backends w !! q = Some b -> Q b w -> runs (TTY.get_backend q) w Q.
Proof.
  intros Hq Hb HQ. unfold TTY.get_backend. rewrite (proj2 (Z.eqb_neq q 0) Hq). mgo. rewrite Hb. by mgo.
Qed.

Lemma GetBackend_runs s q w (Q : Z -> TTY.world -> Prop) :
  TTY.m_backends t !! TTY.stream_index s = Some q -> Q q w -> runs (TTY.GetBackend t s) w Q.
Proof. intros Hq HQ. unfold TTY.GetBackend. rewrite Hq. by mgo. Qed.

Lemma on_backend_runs {A} (dflt : A) m w Q : screen_ok w ->
  runs (m p) w Q -> runs (TTY.on_backend t stream dflt m) w Q.
Proof.
  intros Hw Hm. unfold TTY.on_backend. mgo. eapply GetBackend_runs; [apply Hw|].
  by rewrite (proj2 (Z.eqb_neq p 0)) by apply Hw.
Qed.

Lemma WriteChar_wrote c w : screen_ok w ->
  runs (TTY.WriteChar valid t c stream) w (fun _ => wrote [c] w).
Proof.
  intros Hw. apply on_backend_runs; [done|]. apply runs_bind.
  destruct Hw as [H1 H2 H3 [H4 H4'] (b & Hb & Hty & Hvp) (v & Hv & Hok) H7].
  unfold TTY.Backend_WriteChar at 1. apply runs_bind. eapply get_backend_runs; [done|done|].
  rewrite Hty, Hvp, (proj2 (Z.eqb_neq vp 0)) by done. cbn [negb whenM].
  destruct (Graphics.PrintChar_prints valid c v Hok) as ([] & v' & Hrun & Hp).
  apply (runs_eq _ _ tt (TTY.set_vgas (<[vp := v']> (TTY.vgas w)) w)).
  { unfold TTY.call_vga. by rewrite Hv, Hrun. }
  assert (Hok' : Graphics.console_ok valid v') by (by eapply Graphics.prints_ok).
  assert (Hw1 : screen_ok (TTY.set_vgas (<[vp := v']> (TTY.vgas w)) w)).
  { split; try done; [by exists b|]. exists v'. cbn. by rewrite lookup_insert_eq. }
  assert (Hdr : forall w', TTY.vgas w' = <[vp := v']> (TTY.vgas w) -> drawn [c] w w').
  { intros w' Ew'. exists v, v'. split_and!; [done| |done]. cbn. unfold bind. by rewrite Hrun. }
  unfold wrote, mirror. apply runs_when; intros Hm; rewrite Hm.
  - destruct (H7 Hm) as (d & db & Hd & Hd0 & Hdb & Hdt). apply runs_bind.
    eapply GetBackend_runs; [exact Hd|]. unfold TTY.Backend_WriteChar. apply runs_bind.
    eapply get_backend_runs; [done|exact Hdb|]. rewrite Hdt. unfold TTY.debug_putc. mgo.
    split_and!; try done; [|by apply Hdr]. destruct Hw1. by split.
  - cbn. rewrite app_nil_r. split_and!; try done. by apply Hdr.
Qed.

Lemma wrote_nil w : screen_ok w -> wrote [] w w.
Proof. intros Hw. pose proof (drawn_nil w Hw). unfold wrote, mirror. destruct (TTY.mirrored t stream); by rewrite app_nil_r. Qed.

Lemma wrote_app x y w1 w2 w3 : wrote x w1 w2 -> wrote y w2 w3 -> wrote (x ++ y) w1 w3.
Proof.
  intros (_ & B1 & I1 & P1 & D1) (Hw & B2 & I2 & P2 & D2). unfold wrote, mirror in *.
  split_and!; [done|congruence|congruence| |by eapply drawn_app]. rewrite P2, P1, <- app_assoc.
  by destruct (TTY.mirrored t stream).
Qed.

(** The lock of the backend. *)
Definition unlocked (w : TTY.world) : Prop :=
  exists b, TTY.backends w !! p = Some b /\ TTY.m_lock b = false.

Lemma put_backend_ok w b b' i : screen_ok w -> TTY.backends w !! p = Some b ->
  TTY.m_type b' = TTY.m_type b -> TTY.m_vga b' = TTY.m_vga b ->
  screen_ok (TTY.set_interrupts i (TTY.set_backends (<[p := b']> (TTY.backends w)) w)).
Proof.
  intros [H1 H2 H3 H4 (b0 & Hb0 & Hty & Hvp) H6 H7] Hb Ety Evp. rewrite Hb in Hb0. simplify_eq.
  split; try done; cbn.
  - exists b'. rewrite lookup_insert_eq. split; [done|]. by rewrite Ety, Evp.
  - intros Hm. destruct (H7 Hm) as (d & db & Hd & Hd0 & Hdb & Hdt). exists d.
    destruct (decide (d = p)) as [->|Hne].
    + rewrite Hb in Hdb. simplify_eq. congruence.
    + exists db. by rewrite lookup_insert_ne by done.
Qed.
Context (file : Z) (Hfile : FDToTTYStream file = stream).

Lemma with_stream_runs {A} (a b : A) m w Q : screen_ok w -> runs (m t stream) w Q ->
  runs (with_stream file a b m) w Q.
Proof.
  intros Hw Hm. unfold with_stream. mgo. rewrite (s_tty _ Hw), Hfile.
  by rewrite decide_False by apply Hw.
Qed.

Lemma stream_putc_wrote c w : screen_ok w ->
  runs (stream_putc valid file c) w (fun _ => wrote [c] w).
Proof.
  intros Hw. unfold stream_putc, internal_fputc. cbn [whenM].
  apply runs_bind, runs_ret, runs_bind. unfold internal_write. apply with_stream_runs; [done|].
  cbn [write_each]. apply runs_bind, runs_bind.
  eapply runs_mono; [by apply WriteChar_wrote|]. intros ? w' Hw'. by mgo.
Qed.

Lemma emit_all_wrote x : forall w, screen_ok w ->
  runs (emit_all (stream_putc valid file) x) w (fun _ => wrote x w).
Proof.
  induction x as [|c x IH]; intros w Hw; cbn [emit_all].
  - apply runs_ret. by apply wrote_nil.
  - apply runs_bind. eapply runs_mono; [by apply stream_putc_wrote|]. intros ? w1 Hw1. cbv beta in Hw1.
    eapply runs_mono; [apply IH, Hw1|]. intros ? w2 Hw2. by apply (wrote_app [c] x w w1 w2).
Qed.


(** The backend while a call holds it. *)
Definition held (b : TTY.TTYBackend) (i : bool) : TTY.TTYBackend :=
  TTY.mkBackend (TTY.m_type b) true (if i then 512 else 0) (TTY.m_vga b).

Lemma lock_and_emit x b w : screen_ok w -> TTY.backends w !! p = Some b -> TTY.m_lock b = false ->
  runs (internal_lock file ;;; emit_all (stream_putc valid file) x) w
    (fun _ w' => screen_ok w' /\ TTY.interrupts w' = false /\ TTY.port w' = TTY.port w ++ mirror x /\
       TTY.backends w' !! p = Some (held b (TTY.interrupts w)) /\ drawn x w w').
Proof.
  intros Hw Hb Hl. unfold internal_lock. apply runs_bind, with_stream_runs; [done|].
  unfold TTY.Lock. apply on_backend_runs; [done|].
  unfold TTY.Backend_Lock, TTY.DisableInterrupts, TTY.put_backend. mgo.
  apply (get_backend_runs p b); [apply Hw|done|]. rewrite Hl. mgo.
  eapply runs_mono; [apply emit_all_wrote; by apply (put_backend_ok w b _ false Hw)|].
  intros ? w' (Hw' & Bw' & Iw' & Pw' & Dw'). rewrite Bw', Iw', Pw'. cbn. by rewrite lookup_insert_eq.
Qed.

Lemma unlock_restores b i w : screen_ok w -> TTY.interrupts w = false ->
  TTY.backends w !! p = Some (held b i) ->
  runs (internal_unlock file) w (fun _ w' => screen_ok w' /\ unlocked w' /\
    TTY.interrupts w' = i /\ TTY.port w' = TTY.port w /\ TTY.vgas w' = TTY.vgas w).
Proof.
  intros Hw Hi Hb. unfold internal_unlock. apply with_stream_runs; [done|].
  unfold TTY.Unlock. apply on_backend_runs; [done|].
  unfold TTY.Backend_Unlock, TTY.put_backend. mgo.
  eapply get_backend_runs; [apply Hw|exact Hb|]. cbn [TTY.m_type TTY.m_vga TTY.m_intState held].
  apply runs_bind, runs_modify, EnableInterrupts_runs.
  destruct i; (split; [|split; [|done]]).
  - by eapply (put_backend_ok w _ _ true Hw Hb).
  - eexists. cbn. by rewrite lookup_insert_eq.
  - pose proof (put_backend_ok w _ (TTY.mkBackend (TTY.m_type b) false 0 (TTY.m_vga b))
      (TTY.interrupts w) Hw Hb) as H. destruct w. by apply H.
  - eexists. cbn. by rewrite lookup_insert_eq.
Qed.
End Screen.


(** A terminal whose OUT is a console and whose DEBUG is the debug port. *)
Definition demo_tty : TTY.TTY := TTY.mkTTY [0; 8; 8; 16] true.
Definition demo_world : TTY.world :=
  TTY.mkWorld (Some demo_tty)
    (<[8 := TTY.mkBackend TTY.VGA false 0 32]> (<[16 := TTY.mkBackend TTY.Debug false 0 0]> ∅))
    (<[32 := Graphics.demo_vga]> ∅) [] true.

Lemma demo_screen_ok : screen_ok Graphics.demo_valid demo_tty OUT 8 32 demo_world.
Proof.
  split; try done.
  - by exists (TTY.mkBackend TTY.VGA false 0 32).
  - exists Graphics.demo_vga. split; [done|]. split; [exact Graphics.demo_fb_ok| | |].
    + cbn. unfold Graphics.CHAR_HEIGHT. lia.
    + cbn. unfold Graphics.CHAR_WIDTH. lia.
    + exists 0, 1. vm_compute. repeat split; discriminate || reflexivity.
  - intros _. by exists 16, (TTY.mkBackend TTY.Debug false 0 0).
Qed.

(** Emission into a list collects the text. *)
Definition collect (c : Z) : M (list Z) unit := fun l => Ok (tt, l ++ [c]).
Lemma collect_all x : forall l, emit_all collect x l = Ok (tt, l ++ x).
Proof. induction x as [|c x IH]; intros l; cbn; [by rewrite app_nil_r|]. unfold bind, collect at 1. by rewrite IH, <- app_assoc. Qed.


(** [Seek] takes any position: past the last row the cursor leaves the grid, and the
    next character is stored outside the framebuffer. *)
Example Seek_leaves_screen :
  (TTY.Seek demo_tty OUT 100 ;;; TTY.WriteChar Graphics.demo_valid demo_tty 65 OUT) demo_world =
  Fail InvalidAccess.
Proof. vm_compute. reflexivity. Qed.

(** [getc] stores a byte over the low byte of [EOF]: the character 0 comes back as -256. *)
Example fgetc_is_negative :
  match fgetc stdout demo_world with Ok (c, _) => c | Fail _ => 0 end = -256.
Proof. vm_compute. reflexivity. Qed.

(** A size of zero is decremented to the largest one: [snprintf] then stores past the array. *)
Example snprintf_size_zero : snprintf [] 0 [65] [] = Fail InvalidAccess.
Proof. vm_compute. reflexivity. Qed.

(** With a field width, the zeros of the precision come before the blanks. *)
Example precision_before_blanks :
  snprintf (repeat 9 10) 10 [37; 56; 46; 52; 100] [VWord 42] =
  Ok (8, [48; 48; 32; 32; 32; 32; 52; 50; 0; 9], []).
Proof. vm_compute. reflexivity. Qed.

(** A left-justified zero gets one digit more than its precision. *)
Example zero_has_extra_digit :
  snprintf (repeat 9 10) 10 [37; 45; 53; 46; 51; 100] [VWord 0] =
  Ok (5, [48; 48; 48; 48; 32; 0; 9; 9; 9; 9], []).
Proof. vm_compute. reflexivity. Qed.

(** The sign of a right-aligned number comes before the blanks. *)
Example sign_before_blanks :
  snprintf (repeat 9 10) 10 [37; 53; 100] [VWord (2 ^ 64 - 42)] =
  Ok (5, [45; 32; 32; 52; 50; 0; 9; 9; 9; 9], []).
Proof. vm_compute. reflexivity. Qed.
End ConsoleSpec.
