(* ===== verification/Futex.v ===== *)
(** * Futex.v: fast user-space locks (src/kernel/src/SystemCalls/Futex.cpp)

    A futex is a 32-bit word of user memory; the kernel keeps a queue of waiting
    threads per address, in a tree of the process, with a reference count. The
    scheduler and the user memory are reached through [Kernel]; a waiting list
    is a list of threads (ThreadList.v shows that class to be one). [Wait] is
    divided where the thread gives up the processor, and once more between the
    test of the word and the queueing, since user code may store to the word
    there. *)

From S2P Require Import Prelude FileDescriptor.

#[local] Open Scope Z_scope.
#[local] Open Scope kernel_scope.

Module Futex.

(** ** Data *)

Definition EINTR : Z := 4.
Definition EAGAIN : Z := 11.
Definition EFAULT : Z := 14.
Definition ETIMEDOUT : Z := 110.

Definition FUTEX_WAIT : Z := 0.
Definition FUTEX_WAKE : Z := 1.

Inductive FutexWakeReason : Set := NoReason | Woken | TimedOut | Interrupted.

Record FutexWaitQueue : Set := mkQueue {
  refCount : Z;
  m_waitingThreads : list Z;
  m_lock : bool
}.

(** The members of [Thread] that belong to futexes. *)
Record fthread : Set := mkFThread {
  blockedFutex : Z;
  wakeReason : FutexWakeReason
}.

(** What the futexes use of the scheduler and of the memory of the process. *)
Class Kernel (W : Type) : Type := {
  RemoveCurrentThread : M W Z;
  AddExistingThread : Z -> M W bool;
  UserReadAtomic32 : Z -> W -> option Z;
  ReadableFutex : Z -> W -> bool;     (* ValidateRead(futexPtr, 4) *)
  ReadableTime : Z -> W -> bool;      (* UserRead of the timeout *)
  HasPageMapper : W -> bool;
  NewQueue : W -> Z * W               (* operator new: an unused address *)
}.

(** The futexes of a process: the tree by address with its mutex, the queues,
    the threads, the interrupt flag and the rest of the kernel. *)
Record world (W : Type) : Type := mkWorld {
  tree : gmap Z Z;
  tree_locked : bool;
  queues : gmap Z FutexWaitQueue;
  threads : gmap Z fthread;
  interrupts : bool;
  rest : W
}.
Arguments mkWorld {W} _ _ _ _ _ _.
Arguments tree {W} _.
Arguments tree_locked {W} _.
Arguments queues {W} _.
Arguments threads {W} _.
Arguments interrupts {W} _.
Arguments rest {W} _.

Section Ops.
Context {W : Type} `{Kernel W}.

Notation T := (M (world W)).

Definition set_tree (t : gmap Z Z) (w : world W) : world W :=
  mkWorld t (tree_locked w) (queues w) (threads w) (interrupts w) (rest w).
Definition set_tree_locked (b : bool) (w : world W) : world W :=
  mkWorld (tree w) b (queues w) (threads w) (interrupts w) (rest w).
Definition set_queues (q : gmap Z FutexWaitQueue) (w : world W) : world W :=
  mkWorld (tree w) (tree_locked w) q (threads w) (interrupts w) (rest w).
Definition set_threads (t : gmap Z fthread) (w : world W) : world W :=
  mkWorld (tree w) (tree_locked w) (queues w) t (interrupts w) (rest w).
Definition set_interrupts (i : bool) (w : world W) : world W :=
  mkWorld (tree w) (tree_locked w) (queues w) (threads w) i (rest w).
Definition set_rest (r : W) (w : world W) : world W :=
  mkWorld (tree w) (tree_locked w) (queues w) (threads w) (interrupts w) r.

(** A call into the rest of the kernel. *)
Definition call {A} (m : M W A) : T A := fun w =>
  match m (rest w) with Ok (a, r) => Ok (a, set_rest r w) | Fail f => Fail f end.

(** Objects by address; a deleted one is no longer there. *)
Definition queue_at (q : Z) : T FutexWaitQueue := fun w =>
  match queues w !! q with Some x => Ok (x, w) | None => Fail InvalidAccess end.
Definition put_queue (q : Z) (x : FutexWaitQueue) : T unit :=
  modify (fun w => set_queues (<[q := x]> (queues w)) w).
Definition thread_at (t : Z) : T fthread := fun w =>
  match threads w !! t with Some x => Ok (x, w) | None => Fail InvalidAccess end.
Definition put_thread (t : Z) (x : fthread) : T unit :=
  modify (fun w => set_threads (<[t := x]> (threads w)) w).

Definition DisableInterrupts : T bool :=
  let* i := gets interrupts in modify (set_interrupts false) ;;; ret i.
Definition EnableInterrupts (i : bool) : T unit := whenM i (modify (set_interrupts true)).

Definition acquire (q : Z) : T unit :=
  let* x := queue_at q in
  if m_lock x then fail LockHeld else put_queue q (mkQueue (refCount x) (m_waitingThreads x) true).
Definition release (q : Z) : T unit :=
  let* x := queue_at q in put_queue q (mkQueue (refCount x) (m_waitingThreads x) false).

(** ** FutexWaitQueue *)

(** [Wait] up to the test of the word: the error, or nothing when the thread goes
    on to wait with the lock held; also the interrupt state. *)
Definition Wait_check (q futexPtr expected : Z) : T (option Z * bool) :=
  let* intState := DisableInterrupts in
  acquire q ;;;
  let* word := gets (fun w => UserReadAtomic32 futexPtr (rest w)) in
  match word with
  | None => release q ;;; EnableInterrupts intState ;;; ret (Some (- EFAULT), intState)
  | Some word =>
      if negb (word =? expected)
      then release q ;;; EnableInterrupts intState ;;; ret (Some (- EAGAIN), intState)
      else ret (None, intState)
  end.

(** [Wait] from there to the point where the thread leaves the processor. *)
Definition Wait_block (q : Z) : T Z :=
  let* thread := call RemoveCurrentThread in
  assertM (negb (thread =? 0)) ;;;
  put_thread thread (mkFThread q NoReason) ;;;
  let* x := queue_at q in
  put_queue q (mkQueue (refCount x) (m_waitingThreads x ++ [thread]) (m_lock x)) ;;;
  release q ;;;
  ret thread.

(** [Wait] after the thread is resumed. *)
Definition Wait_resume (thread : Z) (intState : bool) : T Z :=
  EnableInterrupts intState ;;;
  let* x := thread_at thread in
  match wakeReason x with
  | Woken => ret 0
  | TimedOut => ret (- ETIMEDOUT)
  | Interrupted => ret (- EINTR)
  | NoReason => fail AssertionFailed
  end.

(** The loop of [Wake]; [(int)maxCount] is negative from 2^31 on. *)
Fixpoint Wake_loop (fuel : nat) (q maxCount woken : Z) : T Z :=
  match fuel with
  | O => fail OutOfFuel
  | S fuel' =>
      let* x := queue_at q in
      match m_waitingThreads x with
      | [] => ret woken
      | thread :: others =>
          if woken <? i32 maxCount then
            put_queue q (mkQueue (refCount x) others (m_lock x)) ;;;
            put_thread thread (mkFThread 0 Woken) ;;;
            let* ok := call (AddExistingThread thread) in
            assertM ok ;;;
            Wake_loop fuel' q maxCount (woken + 1)
          else ret woken
      end
  end.

Definition Wake (q maxCount : Z) : T Z :=
  let* intState := DisableInterrupts in
  acquire q ;;;
  let* x := queue_at q in
  let* woken := Wake_loop (S (length (m_waitingThreads x))) q maxCount 0 in
  release q ;;;
  EnableInterrupts intState ;;;
  ret woken.

Definition Remove (q thread : Z) (reason : FutexWakeReason) : T unit :=
  acquire q ;;;
  let* t := thread_at thread in
  (if blockedFutex t =? q then
     let* x := queue_at q in
     put_queue q (mkQueue (refCount x) (filter (fun u => u <> thread) (m_waitingThreads x)) (m_lock x)) ;;;
     put_thread thread (mkFThread 0 reason) ;;;
     let* ok := call (AddExistingThread thread) in
     assertM ok
   else ret tt) ;;;
  release q.

(** ** The queues of a process *)

Definition lock_tree : T unit :=
  let* l := gets tree_locked in
  if l then fail LockHeld else modify (set_tree_locked true).
Definition unlock_tree : T unit := modify (set_tree_locked false).

Definition GetOrCreateFutex (virt : Z) : T Z :=
  lock_tree ;;;
  let* found := gets (fun w => tree w !! virt) in
  let* q := match found with
            | Some q => ret q
            | None =>
                let* q := call (fun r => Ok (NewQueue r)) in
                put_queue q (mkQueue 1 [] false) ;;;
                modify (fun w => set_tree (<[virt := q]> (tree w)) w) ;;;
                ret q
            end in
  let* x := queue_at q in
  put_queue q (mkQueue (add64 (refCount x) 1) (m_waitingThreads x) (m_lock x)) ;;;
  unlock_tree ;;;
  ret q.

Definition GetFutexForWake (virt : Z) : T (option Z) :=
  lock_tree ;;;
  let* found := gets (fun w => tree w !! virt) in
  match found with
  | None => unlock_tree ;;; ret None
  | Some q =>
      let* x := queue_at q in
      put_queue q (mkQueue (add64 (refCount x) 1) (m_waitingThreads x) (m_lock x)) ;;;
      unlock_tree ;;;
      ret (Some q)
  end.

Definition PutFutex (virt q : Z) : T unit :=
  lock_tree ;;;
  let* x := queue_at q in
  let count := sub64 (refCount x) 1 in
  put_queue q (mkQueue count (m_waitingThreads x) (m_lock x)) ;;;
  if count =? 0 then
    modify (fun w => set_tree (delete virt (tree w)) w) ;;;
    unlock_tree ;;;
    modify (fun w => set_queues (delete q (queues w)) w)
  else unlock_tree.

(** ** The system call *)

(** [sys_futex] up to its return or to the point where the thread waits, with the
    queue, the thread and the interrupt state to go on with. *)
Definition sys_futex (operation futexPtr value tm : Z) : T (Z + (Z * Z * bool)) :=
  if (negb (operation =? FUTEX_WAKE) && negb (operation =? FUTEX_WAIT)) || (futexPtr =? 0)
  then ret (inl (- FileDescriptor.EINVAL)) else
  let* mapper := gets (fun w => HasPageMapper (rest w)) in
  if negb mapper then ret (inl (- FileDescriptor.ENOSYS)) else
  let* readable := gets (fun w => ReadableFutex futexPtr (rest w)) in
  if negb readable then ret (inl (- EFAULT)) else
  let* time := gets (fun w => ReadableTime tm (rest w)) in
  if negb (tm =? 0) && negb time then ret (inl (- EFAULT)) else
  if operation =? FUTEX_WAIT then
    let* q := GetOrCreateFutex futexPtr in
    let* (rc, intState) := Wait_check q futexPtr value in
    match rc with
    | Some rc => PutFutex futexPtr q ;;; ret (inl rc)
    | None => let* thread := Wait_block q in ret (inr (q, thread, intState))
    end
  else
    let* q := GetFutexForWake futexPtr in
    match q with
    | None => ret (inl 0)
    | Some q => let* rc := Wake q value in PutFutex futexPtr q ;;; ret (inl rc)
    end.

(** The end of [sys_futex] for a thread that waited. *)
Definition sys_futex_resumed (futexPtr q thread : Z) (intState : bool) : T Z :=
  let* rc := Wait_resume thread intState in PutFutex futexPtr q ;;; ret rc.
End Ops.
End Futex.
