(* ===== verification/FutexSpec.v ===== *)
(** * FutexSpec.v: what the futexes promise

    [Wake] wakes the threads that have waited longest, as many as asked for; no
    thread sleeps on a value that the word no longer has once every store has
    been followed by a wake that asks for enough, in any interleaving with stores
    by user code; and the reference counts of the queues are exact, so that no
    queue is used after it is deleted and no call on them faults. *)

From S2P Require Import Prelude FileDescriptor Futex.
Import Futex.

#[local] Open Scope Z_scope.
#[local] Open Scope kernel_scope.

Module FutexSpec.

Lemma Ok_bind {S A B} (m : M S A) (k : A -> M S B) s r :
  bind m k s = Ok r -> exists a s1, m s = Ok (a, s1) /\ k a s1 = Ok r.
Proof. unfold bind. destruct (m s) as [[a s1]|]; [eauto|done]. Qed.

Section Futexes.
Context {W : Type} `{Kernel W}.

(** ** Waking *)

(** The scheduler takes the threads, in order. *)
Fixpoint add_all (l : list Z) : M W unit :=
  match l with
  | [] => ret tt
  | t :: l' => AddExistingThread t ;;; add_all l'
  end.

(** The threads as they are after being woken. *)
Definition mark_woken (l : list Z) (ts : gmap Z fthread) : gmap Z fthread :=
  fold_left (fun ts t => <[t := mkFThread 0 Woken]> ts) l ts.

(** The world after the first [k] threads of queue [q] have been woken. *)
Definition woken_world (q : Z) (x : FutexWaitQueue) (k : nat) (r : W) (w : world W) : world W :=
  mkWorld (tree w) (tree_locked w)
    (<[q := mkQueue (refCount x) (drop k (m_waitingThreads x)) (m_lock x)]> (queues w))
    (mark_woken (take k (m_waitingThreads x)) (threads w)) (interrupts w) r.

(** What the scheduler promises: a thread that waits can be made ready. *)
Definition adds_threads : Prop := forall t r, exists r', AddExistingThread t r = Ok (true, r').

Lemma Wake_loop_runs (HA : adds_threads) q n : forall l fuel x woken w,
  queues w !! q = Some x -> m_waitingThreads x = l -> (length l < fuel)%nat ->
  let k := Z.to_nat (Z.min (Z.max 0 (i32 n - woken)) (Z.of_nat (length l))) in
  exists r', add_all (take k l) (rest w) = Ok (tt, r') /\
    Wake_loop fuel q n woken w = Ok (woken + Z.of_nat k, woken_world q x k r' w).
Proof.
  induction l as [|t l IH]; intros [|fuel] x woken w Hx Hl Hf; cbn [length] in Hf; try lia;
    cbn zeta; cbn [Wake_loop]; unfold bind at 1, queue_at; rewrite Hx, Hl.
  - exists (rest w). rewrite Z.min_r by (cbn; lia). split; [done|]. rewrite Z.add_0_r.
    unfold woken_world, ret. rewrite Hl. cbn. rewrite <- Hl. destruct x, w; cbn in *.
    by rewrite insert_id.
  - destruct (woken <? i32 n) eqn:E; zb.
    + destruct (HA t (rest w)) as [r1 Hr1].
      set (w1 := set_rest r1 (set_threads (<[t := mkFThread 0 Woken]> (threads w))
        (set_queues (<[q := mkQueue (refCount x) l (m_lock x)]> (queues w)) w))).
      destruct (IH fuel (mkQueue (refCount x) l (m_lock x)) (woken + 1) w1) as (r' & Hr' & Hrun);
        [apply lookup_insert_eq|done|lia|].
      exists r'.
      replace (Z.to_nat (Z.min (Z.max 0 (i32 n - woken)) (Z.of_nat (length (t :: l)))))
        with (S (Z.to_nat (Z.min (Z.max 0 (i32 n - (woken + 1))) (Z.of_nat (length l))))) by (cbn; lia).
      set (k := Z.to_nat (Z.min _ (Z.of_nat (length l)))) in *.
      cbn [take add_all]. unfold bind at 1. rewrite Hr1. cbn in Hr'. split; [exact Hr'|].
      unfold bind, put_queue, put_thread, modify, call, assertM, ret.
      cbn [set_queues set_threads rest]. rewrite Hr1.
      etransitivity; [exact Hrun|]. do 2 f_equal; [lia|].
      unfold woken_world, w1. rewrite Hl. cbn. by rewrite insert_insert_eq.
    + exists (rest w). rewrite Z.max_l, Z.min_l, Z.add_0_r by (cbn; lia). split; [done|].
      unfold woken_world, ret. rewrite Hl. cbn. rewrite <- Hl. destruct x, w; cbn in *.
      by rewrite insert_id.
Qed.

(** [Wake] on an unlocked queue wakes the threads that have waited longest, as many
    as asked for or as there are, hands exactly these to the scheduler in order, tells
    them that they were woken, returns their number, releases the lock and restores the
    interrupt flag. The number asked for is taken as a signed [int]: from 2^31 on nobody
    is woken. *)
Theorem Wake_spec (HA : adds_threads) q n x w :
  queues w !! q = Some x -> m_lock x = false ->
  let k := Z.to_nat (Z.min (Z.max 0 (i32 n)) (Z.of_nat (length (m_waitingThreads x)))) in
  exists r', add_all (take k (m_waitingThreads x)) (rest w) = Ok (tt, r') /\
    Wake q n w = Ok (Z.of_nat k, woken_world q x k r' w).
Proof.
  intros Hx Hl k.
  set (x1 := mkQueue (refCount x) (m_waitingThreads x) true).
  set (w1 := set_queues (<[q := x1]> (queues w)) (set_interrupts false w)).
  destruct (Wake_loop_runs HA q n (m_waitingThreads x) (S (length (m_waitingThreads x))) x1 0 w1)
    as (r' & Hr' & Hrun); [apply lookup_insert_eq|done|lia|].
  rewrite Z.sub_0_r in Hr', Hrun. fold k in Hr', Hrun. exists r'. split; [exact Hr'|].
  unfold Wake, DisableInterrupts, acquire, release, EnableInterrupts, queue_at, put_queue.
  cbv beta iota delta [bind gets modify ret].
  cbn [queues set_interrupts]. rewrite Hx, Hl.
  change (set_queues (<[q := mkQueue (refCount x) (m_waitingThreads x) true]>
    (queues (set_interrupts false w))) (set_interrupts false w)) with w1.
  replace (queues w1 !! q) with (Some x1) by (symmetry; apply lookup_insert_eq).
  change (m_waitingThreads x1) with (m_waitingThreads x). rewrite Hrun. cbn [queues woken_world].
  rewrite lookup_insert_eq. unfold woken_world, w1. destruct w; cbn in *.
  rewrite !insert_insert_eq. destruct interrupts0; by rewrite Hl.
Qed.

(** ** No lost wakeups *)

Section Interleaving.
(** A queue and its word. *)
Context (q ptr : Z).

Definition word (r : W) : option Z := UserReadAtomic32 ptr r.

(** The scheduler does not touch user memory. *)
Definition leaves_word : Prop :=
  (forall t r a r', AddExistingThread t r = Ok (a, r') -> word r' = word r) /\
  (forall r a r', RemoveCurrentThread r = Ok (a, r') -> word r' = word r).

(** The world; the value expected by the thread between test and queueing, which
    holds the lock; the sleeping threads with the values they expect; and how many
    stores have been made that no sufficient call of [Wake] has followed. *)
Record system : Type := mkSystem {
  sw : world W;
  checker : option Z;
  sleepers : list (Z * Z);
  pending : nat
}.

(** One step of any thread or of user code. *)
Inductive step : system -> system -> Prop :=
  (* user code stores to the word, and will call Wake *)
  | step_store w c sl n r' :
      step (mkSystem w c sl n) (mkSystem (set_rest r' w) c sl (S n))
  (* anything that leaves the word and this queue alone *)
  | step_other w w' c sl n :
      word (rest w') = word (rest w) -> queues w' !! q = queues w !! q ->
      step (mkSystem w c sl n) (mkSystem w' c sl n)
  | step_check w w' c sl n e i :
      Wait_check q ptr e w = Ok ((None, i), w') ->
      step (mkSystem w c sl n) (mkSystem w' (Some e) sl n)
  | step_check_fails w w' c sl n e i rc :
      Wait_check q ptr e w = Ok ((Some rc, i), w') ->
      step (mkSystem w c sl n) (mkSystem w' c sl n)
  | step_block w w' e sl n t :
      Wait_block q w = Ok (t, w') ->
      step (mkSystem w (Some e) sl n) (mkSystem w' None (sl ++ [(t, e)]) n)
  (* the call of Wake that goes with a store: it counts when the number it asks
     for, as the signed int that Wake compares with, is enough for all sleepers *)
  | step_wake_store w w' c sl n m k :
      Wake q m w = Ok (k, w') ->
      step (mkSystem w c sl (S n))
        (mkSystem w' c (drop (Z.to_nat k) sl) (if Z.of_nat (length sl) <=? i32 m then n else S n))
  (* any other call of Wake *)
  | step_wake w w' c sl n m k :
      Wake q m w = Ok (k, w') ->
      step (mkSystem w c sl n) (mkSystem w' c (drop (Z.to_nat k) sl) n)
  | step_remove w w' c sl n t reason u :
      Remove q t reason w = Ok (u, w') ->
      step (mkSystem w c sl n)
        (mkSystem w' c (if bool_decide (blockedFutex <$> threads w !! t = Some q) then filter (fun p => p.1 <> t) sl else sl) n).

Inductive steps : system -> system -> Prop :=
  | steps_refl s : steps s s
  | steps_more s1 s2 s3 : steps s1 s2 -> step s2 s3 -> steps s1 s3.

(** Every value a thread sleeps on, or is about to, is the word or has a waker to come. *)
Record covered (s : system) : Prop := {
  cov_queue : exists rc, queues (sw s) !! q =
    Some (mkQueue rc (fst <$> sleepers s) (bool_decide (is_Some (checker s))));
  cov_word : forall e, (e ∈ snd <$> sleepers s) \/ checker s = Some e ->
    word (rest (sw s)) = Some e \/ (0 < pending s)%nat
}.

Lemma Wait_check_inv e w o w' i rc l b : queues w !! q = Some (mkQueue rc l b) ->
  Wait_check q ptr e w = Ok ((o, i), w') ->
  b = false /\ rest w' = rest w /\
  queues w' !! q = Some (mkQueue rc l (bool_decide (o = None))) /\
  (o = None -> word (rest w) = Some e).
Proof.
  intros Hq. unfold Wait_check, DisableInterrupts, acquire, release, EnableInterrupts, queue_at, put_queue.
  cbv beta iota delta [bind gets modify ret whenM fail]. cbn. rewrite Hq. cbn.
  destruct b; [done|]. cbn. unfold word.
  destruct (UserReadAtomic32 ptr (rest w)) as [v|].
  - destruct (v =? e) eqn:E; zb; cbn; [|rewrite lookup_insert_eq; cbn; destruct (interrupts w)];
      intros Heq; simplify_eq; cbn; rewrite ?insert_insert_eq, lookup_insert_eq;
      split_and!; try done; by rewrite bool_decide_eq_false_2 by done.
  - cbn. rewrite lookup_insert_eq. cbn.
    destruct (interrupts w); intros Heq; simplify_eq; cbn; rewrite ?insert_insert_eq, lookup_insert_eq;
      split_and!; try done; by rewrite bool_decide_eq_false_2 by done.
Qed.

Lemma Wait_block_inv (HL : leaves_word) w t w' rc l b : queues w !! q = Some (mkQueue rc l b) ->
  Wait_block q w = Ok (t, w') ->
  word (rest w') = word (rest w) /\ queues w' !! q = Some (mkQueue rc (l ++ [t]) false).
Proof.
  intros Hq. unfold Wait_block, call, release, queue_at, put_queue, put_thread, assertM.
  cbv beta iota delta [bind modify ret fail]. destruct (RemoveCurrentThread (rest w)) as [[u r]|] eqn:Er; [|done].
  destruct (negb (u =? 0)); [|done]. cbn. rewrite Hq. cbn. rewrite lookup_insert_eq. cbn.
  intros Heq. simplify_eq. cbn. rewrite insert_insert_eq, lookup_insert_eq.
  split; [|done]. by eapply (proj2 HL).
Qed.

Lemma Wake_loop_inv (HL : leaves_word) m rc b : forall fuel l woken w k w',
  queues w !! q = Some (mkQueue rc l b) -> Wake_loop fuel q m woken w = Ok (k, w') ->
  exists j, k = woken + Z.of_nat j /\ word (rest w') = word (rest w) /\
    queues w' !! q = Some (mkQueue rc (drop j l) b) /\
    (woken + Z.of_nat (length l) <= i32 m -> j = length l).
Proof.
  induction fuel as [|fuel IH]; intros l woken w k w' Hq Hw; cbn [Wake_loop] in Hw; [done|].
  apply Ok_bind in Hw as (x & w1 & Hx & Hw). unfold queue_at in Hx. rewrite Hq in Hx. injection Hx as <- <-.
  cbn [m_waitingThreads] in Hw. destruct l as [|t l]; [injection Hw as <- <-; exists 0%nat; split_and!; [lia|done..]|].
  destruct (Z.ltb_spec woken (i32 m)); [|injection Hw as <- <-; exists 0%nat; split_and!; [lia|done|done|cbn; lia]].
  apply Ok_bind in Hw as ([] & w1 & H1 & Hw). injection H1 as <-. apply Ok_bind in Hw as ([] & w2 & H2 & Hw). injection H2 as <-.
  apply Ok_bind in Hw as (ok & w3 & H3 & Hw). unfold call in H3. cbn [rest set_threads set_queues] in H3.
  destruct (AddExistingThread t (rest w)) as [[ok' r]|] eqn:Ea; [|done]. injection H3 as -> <-.
  apply Ok_bind in Hw as ([] & w4 & H4 & Hw). destruct ok; [|done]. injection H4 as <-.
  apply (IH l) in Hw as (j & -> & Hwd & Hq' & Hj); [|apply lookup_insert_eq]. exists (S j). split_and!; [lia| |done|cbn [length]; lia].
  rewrite Hwd. by eapply (proj1 HL).
Qed.

Lemma Wake_inv (HL : leaves_word) w m k w' rc l b :
  queues w !! q = Some (mkQueue rc l b) -> Wake q m w = Ok (k, w') ->
  b = false /\ word (rest w') = word (rest w) /\
  queues w' !! q = Some (mkQueue rc (drop (Z.to_nat k) l) false) /\
  (Z.of_nat (length l) <= i32 m -> Z.to_nat k = length l).
Proof.
  intros Hq Hw. unfold Wake in Hw. apply Ok_bind in Hw as (i & w1 & H1 & Hw). injection H1 as <- <-.
  apply Ok_bind in Hw as ([] & w2 & H2 & Hw). unfold acquire in H2. apply Ok_bind in H2 as (x & w3 & H3 & H2).
  unfold queue_at in H3. cbn [queues set_interrupts] in H3. rewrite Hq in H3. injection H3 as <- <-.
  destruct b; [done|]. injection H2 as <-. apply Ok_bind in Hw as (x & w3 & H3 & Hw).
  unfold queue_at in H3. cbn [queues set_queues] in H3. rewrite lookup_insert_eq in H3. injection H3 as <- <-.
  apply Ok_bind in Hw as (k' & w4 & H4 & Hw).
  apply (Wake_loop_inv HL m rc true _ l) in H4 as (j & -> & Hwd & Hq' & Hj); [|apply lookup_insert_eq].
  apply Ok_bind in Hw as ([] & w5 & H5 & Hw). unfold release in H5. apply Ok_bind in H5 as (y & w6 & H6 & H5).
  unfold queue_at in H6. rewrite Hq' in H6. injection H6 as <- <-. injection H5 as <-.
  apply Ok_bind in Hw as ([] & w7 & H7 & Hw). injection Hw as <- <-. rewrite Z.add_0_l in *. rewrite Nat2Z.id.
  assert (E : rest w7 = rest w4 /\ queues w7 = <[q := mkQueue rc (drop j l) false]> (queues w4))
    by (unfold EnableInterrupts in H7; destruct (interrupts w); by injection H7 as <-).
  destruct E as [-> ->]. rewrite lookup_insert_eq. split_and!; try done; lia.
Qed.

Lemma Remove_inv (HL : leaves_word) w t reason u w' rc l b :
  queues w !! q = Some (mkQueue rc l b) -> Remove q t reason w = Ok (u, w') ->
  b = false /\ word (rest w') = word (rest w) /\
  queues w' !! q = Some (mkQueue rc
    (if bool_decide (blockedFutex <$> threads w !! t = Some q) then filter (fun v => v <> t) l else l) false).
Proof.
  intros Hq. unfold Remove, acquire, release, thread_at, queue_at, put_queue, put_thread, call, assertM.
  cbv beta iota delta [bind modify ret fail]. rewrite Hq. cbn. destruct b; [done|]. cbn.
  destruct (threads w !! t) as [y|]; [|done]. cbn. destruct (Z.eqb_spec (blockedFutex y) q) as [->|Hne].
  - rewrite bool_decide_eq_true_2 by done. cbn. rewrite lookup_insert_eq. cbn.
    destruct (AddExistingThread t (rest w)) as [[ok r]|] eqn:Ea; [|done]. destruct ok; [|done]. cbn.
    rewrite lookup_insert_eq. cbn. intros Heq. simplify_eq. cbn.
    rewrite !insert_insert_eq, lookup_insert_eq. split_and!; try done. by eapply (proj1 HL).
  - rewrite bool_decide_eq_false_2 by congruence. cbn. rewrite lookup_insert_eq. cbn. intros Heq. simplify_eq. cbn.
    by rewrite insert_insert_eq, lookup_insert_eq.
Qed.

Lemma filter_sleepers (t : Z) (sl : list (Z * Z)) :
  fst <$> filter (fun p : Z * Z => p.1 <> t) sl = filter (fun v => v <> t) (fst <$> sl).
Proof.
  induction sl as [|[v e] sl IH]; [done|]. rewrite fmap_cons, !filter_cons. cbn.
  destruct (decide (v <> t)); cbn; by rewrite IH.
Qed.

Lemma step_covered (HL : leaves_word) s1 s2 :
  step s1 s2 -> covered s1 -> covered s2.
Proof.
  intros Hst [[rc Hq] Hc]. destruct Hst; cbn in *.
  - split; cbn; [by exists rc|]. intros e _. right. lia.
  - split; cbn; [exists rc; congruence|]. intros v Hv. destruct (Hc v Hv) as [Hw|]; [left; congruence|by right].
  - destruct (Wait_check_inv _ _ _ _ _ _ _ _ Hq H0) as (_ & Hr & Hq' & Hw).
    split; cbn; [by exists rc|]. rewrite Hr. intros v [Hv|Hv]; [apply Hc; by left|].
    simplify_eq. left. by apply Hw.
  - destruct (Wait_check_inv _ _ _ _ _ _ _ _ Hq H0) as (Hb & Hr & Hq' & _).
    rewrite bool_decide_eq_false_2 in Hq' by done.
    split; cbn; [exists rc; by rewrite Hb|]. rewrite Hr. apply Hc.
  - destruct (Wait_block_inv HL _ _ _ _ _ _ Hq H0) as (Hw & Hq').
    split; cbn; [exists rc; by rewrite fmap_app|]. rewrite Hw. intros v [Hv|Hv]; [|done].
    rewrite fmap_app in Hv. apply elem_of_app in Hv as [Hv|Hv]; [apply Hc; by left|].
    cbn in Hv. assert (v = e) as -> by set_solver. apply Hc. by right.
  - destruct (Wake_inv HL _ _ _ _ _ _ _ Hq H0) as (Hb & Hw & Hq' & Hk). rewrite length_fmap in Hk. split; cbn.
    + exists rc. by rewrite Hb, Hq', fmap_drop.
    + destruct (Z.leb_spec (Z.of_nat (length sl)) (i32 m)) as [Hle|Hgt]; [|intros v _; right; lia].
      rewrite (Hk Hle), drop_all. intros v [Hv|Hv]; [by apply elem_of_nil in Hv|]. subst c.
      by rewrite bool_decide_eq_true_2 in Hb by eauto.
  - destruct (Wake_inv HL _ _ _ _ _ _ _ Hq H0) as (Hb & Hw & Hq' & _). split; cbn.
    + exists rc. by rewrite Hb, Hq', fmap_drop.
    + rewrite Hw. intros v [Hv|Hv]; [|apply Hc; by right]. apply Hc. left.
      rewrite fmap_drop in Hv. eapply elem_of_subseteq; [|exact Hv]. apply subseteq_drop.
  - destruct (Remove_inv HL _ _ _ _ _ _ _ _ Hq H0) as (Hb & Hw & Hq'). split; cbn.
    + exists rc. rewrite Hb, Hq'. case_bool_decide; [by rewrite filter_sleepers|done].
    + rewrite Hw. intros v [Hv|Hv]; [|apply Hc; by right]. apply Hc. left. case_bool_decide; [|done].
      apply list_elem_of_fmap in Hv as ([t' e'] & -> & Hin). apply list_elem_of_filter in Hin as [_ Hin].
      apply list_elem_of_fmap. by exists (t', e').
Qed.

Lemma steps_covered (HL : leaves_word) s1 s2 :
  steps s1 s2 -> covered s1 -> covered s2.
Proof. induction 1; eauto using step_covered. Qed.
End Interleaving.

(** C15: no wakeup is lost. Start from an empty, unlocked queue and let threads wait,
    wake with any count and be removed, and user code store to the word, in any order.
    Whenever every store so far has been followed by a call of [Wake] of its own that
    asked for at least as many threads as were asleep, its count taken as the signed
    [int] that [Wake] compares with, every sleeping thread expects the value that the
    word has; a thread between its test and its place in the queue is no exception,
    although user code can store to the word at that moment. (A count of 2^31 or more is
    negative and wakes nobody, [Wake_all_wakes_none]; such a call does not count.) *)
Theorem futex_no_lost_wakeup q ptr (HL : leaves_word ptr) w0 rc s :
  queues w0 !! q = Some (mkQueue rc [] false) ->
  steps q ptr (mkSystem w0 None [] 0) s -> pending s = 0%nat ->
  forall t e, (t, e) ∈ sleepers s -> UserReadAtomic32 ptr (rest (sw s)) = Some e.
Proof.
  intros Hq Hs Hp t e Hin.
  assert (Hc : covered q ptr s).
  { eapply (steps_covered q ptr HL); [exact Hs|]. split; cbn; [by exists rc|].
    intros v [Hv|Hv]; [by apply elem_of_nil in Hv|done]. }
  destruct (cov_word q ptr s Hc e) as [Hw|]; [|exact Hw|lia].
  left. apply list_elem_of_fmap. by exists (t, e).
Qed.

(** ** Reference counts *)

(** The calls between taking a queue and putting it back. *)
Notation users := (list (Z * Z)).

Definition uses (u : Z * Z) (us : users) : Z := Z.of_nat (length (filter (fun v => v = u) us)).

(** A step on the queues of a process: a call takes a queue, puts one back, or does
    something else that leaves the tree and the counts alone. *)
Inductive ref_step : world W * users -> world W * users -> Prop :=
  | ref_wait w w' us virt q :
      queues w !! fst (NewQueue (rest w)) = None -> Z.of_nat (length us) < 2 ^ 62 ->
      GetOrCreateFutex virt w = Ok (q, w') -> ref_step (w, us) (w', (virt, q) :: us)
  | ref_wake w w' us virt q :
      Z.of_nat (length us) < 2 ^ 62 ->
      GetFutexForWake virt w = Ok (Some q, w') -> ref_step (w, us) (w', (virt, q) :: us)
  | ref_no_wake w w' us virt :
      GetFutexForWake virt w = Ok (None, w') -> ref_step (w, us) (w', us)
  | ref_put w w' us1 us2 virt q :
      PutFutex virt q w = Ok (tt, w') -> ref_step (w, us1 ++ (virt, q) :: us2) (w', us1 ++ us2)
  | ref_other w w' us :
      tree w' = tree w -> (forall q, refCount <$> queues w' !! q = refCount <$> queues w !! q) ->
      ref_step (w, us) (w', us).

(** Each queue is in the tree once, and counts one for the tree and one for each call. *)
Record refs_ok (s : world W * users) : Prop := {
  ref_count : forall virt q, tree s.1 !! virt = Some q ->
    refCount <$> queues s.1 !! q = Some (1 + uses (virt, q) s.2);
  ref_inj : forall v1 v2 q, tree s.1 !! v1 = Some q -> tree s.1 !! v2 = Some q -> v1 = v2;
  ref_user : forall virt q, (virt, q) ∈ s.2 -> tree s.1 !! virt = Some q
}.

Lemma uses_cons u v us : uses u (v :: us) = uses u us + (if decide (v = u) then 1 else 0).
Proof. unfold uses. rewrite filter_cons. destruct (decide (v = u)); cbn; lia. Qed.

Lemma uses_app u us1 us2 : uses u (us1 ++ us2) = uses u us1 + uses u us2.
Proof. unfold uses. rewrite filter_app, length_app. lia. Qed.

Lemma uses_pos u us : u ∈ us -> 1 <= uses u us.
Proof.
  intros Hu. unfold uses.
  assert (u ∈ filter (fun v => v = u) us) as Hf by (by apply list_elem_of_filter).
  destruct (filter _ us); [by apply elem_of_nil in Hf|cbn; lia].
Qed.

Lemma uses_bound u us : uses u us <= Z.of_nat (length us).
Proof. unfold uses. pose proof (length_filter (fun v => v = u) us). lia. Qed.

(** Changing the count of one queue and the list of its calls alike keeps the invariant. *)
Lemma refs_ok_count w us us' virt q x x' w' d :
  refs_ok (w, us) -> tree w !! virt = Some q -> queues w !! q = Some x ->
  tree w' = tree w -> queues w' = <[q := x']> (queues w) -> refCount x' = refCount x + d ->
  (forall u, uses u us' = uses u us + (if decide (u = (virt, q)) then d else 0)) ->
  (forall u, u ∈ us' -> u ∈ us \/ u = (virt, q)) ->
  refs_ok (w', us').
Proof.
  intros [H1 H2 H3] Ht Hx Etree Equeues Hx' Huses Husers. cbn in *. split; cbn; rewrite Etree.
  - intros v q' Hv. rewrite Equeues. destruct (decide (q' = q)) as [->|Hne].
    + rewrite (H2 _ _ _ Hv Ht). rewrite lookup_insert_eq. cbn. pose proof (H1 _ _ Ht) as Hc.
      rewrite Hx in Hc. cbn in Hc. injection Hc as Hc.
      rewrite Huses, decide_True by done. f_equal. lia.
    + rewrite lookup_insert_ne by done. rewrite (H1 _ _ Hv), Huses, decide_False by congruence. f_equal. lia.
  - apply H2.
  - intros v q' Hu. destruct (Husers _ Hu) as [Hin|Heq]; [by apply H3|]. by simplify_eq.
Qed.

(** One more call. *)
Lemma refs_ok_take w us virt q x w' :
  refs_ok (w, us) -> Z.of_nat (length us) < 2 ^ 62 ->
  tree w !! virt = Some q -> queues w !! q = Some x -> tree w' = tree w ->
  queues w' = <[q := mkQueue (add64 (refCount x) 1) (m_waitingThreads x) (m_lock x)]> (queues w) ->
  refs_ok (w', (virt, q) :: us).
Proof.
  intros Hok Hlen Ht Hx Etree Equeues.
  pose proof (ref_count _ Hok _ _ Ht) as Hc. cbn in Hc. rewrite Hx in Hc. cbn in Hc. injection Hc as Hc.
  pose proof (uses_bound (virt, q) us). assert (0 <= uses (virt, q) us) by (unfold uses; lia).
  eapply (refs_ok_count w us _ virt q x _ w' 1); try done.
  - cbn. rewrite add64_small; lia.
  - intros u. rewrite uses_cons. repeat case_decide; congruence.
  - intros u. set_solver.
Qed.

(** A new queue, not yet in use. *)
Lemma refs_ok_new w us virt q w' :
  refs_ok (w, us) -> tree w !! virt = None -> queues w !! q = None ->
  tree w' = <[virt := q]> (tree w) -> queues w' = <[q := mkQueue 1 [] false]> (queues w) ->
  refs_ok (w', us).
Proof.
  intros [H1 H2 H3] Hv Hq Etree Equeues. cbn in *.
  assert (Hnq : forall v q', tree w !! v = Some q' -> q' <> q).
  { intros v q' Hv' ->. pose proof (H1 _ _ Hv') as Hc. by rewrite Hq in Hc. }
  split; cbn; rewrite Etree.
  - intros v q' Hv'. rewrite Equeues. destruct (decide (v = virt)) as [->|Hne].
    + rewrite lookup_insert_eq in Hv'. simplify_eq. rewrite lookup_insert_eq. cbn. f_equal.
      enough (uses (virt, q') us = 0) by lia. unfold uses.
      destruct (filter (fun u => u = (virt, q')) us) as [|u l] eqn:Ef; [done|].
      assert (u ∈ filter (fun u => u = (virt, q')) us) as Hu by (rewrite Ef; left).
      apply list_elem_of_filter in Hu as [-> Hu]. apply H3 in Hu. congruence.
    + rewrite lookup_insert_ne in Hv' by done. rewrite lookup_insert_ne by (symmetry; by eapply Hnq). by apply H1.
  - intros v1 v2 q' G1 G2. destruct (decide (v1 = virt)) as [->|N1], (decide (v2 = virt)) as [->|N2];
      try rewrite lookup_insert_eq in G1; try rewrite lookup_insert_eq in G2;
      try rewrite lookup_insert_ne in G1 by done; try rewrite lookup_insert_ne in G2 by done; simplify_eq; try done.
    + by destruct (Hnq _ _ G2).
    + by destruct (Hnq _ _ G1).
    + by eapply H2.
  - intros v q' Hu. apply H3 in Hu. rewrite lookup_insert_ne; congruence.
Qed.

Ltac run_tree H :=
  cbv beta iota delta [bind gets modify ret fail lock_tree unlock_tree put_queue queue_at call
    set_tree_locked] in H; cbn in H.

Lemma GetOrCreate_refs w us virt q w' :
  queues w !! fst (NewQueue (rest w)) = None -> Z.of_nat (length us) < 2 ^ 62 ->
  GetOrCreateFutex virt w = Ok (q, w') -> refs_ok (w, us) ->
  refs_ok (w', (virt, q) :: us) /\ tree w ⊆ tree w'.
Proof.
  intros Hnew Hlen Hrun Hok. unfold GetOrCreateFutex in Hrun. run_tree Hrun.
  destruct (tree_locked w); [done|]. cbn in Hrun. destruct (tree w !! virt) as [q0|] eqn:Ht; cbn in Hrun.
  - destruct (queues w !! q0) as [x|] eqn:Hx; [|done]. cbn in Hrun. simplify_eq.
    split; [|done]. by eapply (refs_ok_take w us virt q x).
  - destruct (NewQueue (rest w)) as [q0 r] eqn:En. cbn in *. rewrite lookup_insert_eq in Hrun. simplify_eq.
    split; [|by apply insert_subseteq].
    set (w1 := mkWorld (<[virt := q]> (tree w)) false (<[q := mkQueue 1 [] false]> (queues w))
      (threads w) (interrupts w) (rest w)).
    eapply (refs_ok_take w1 us virt q (mkQueue 1 [] false)); cbn; rewrite ?lookup_insert_eq; try done.
    by eapply (refs_ok_new w us virt q).
Qed.

Lemma GetForWake_refs w us virt o w' : Z.of_nat (length us) < 2 ^ 62 ->
  GetFutexForWake virt w = Ok (o, w') -> refs_ok (w, us) ->
  tree w' = tree w /\
  match o with Some q => refs_ok (w', (virt, q) :: us) | None => queues w' = queues w end.
Proof.
  intros Hlen Hrun Hok. unfold GetFutexForWake in Hrun. run_tree Hrun.
  destruct (tree_locked w); [done|]. cbn in Hrun. destruct (tree w !! virt) as [q0|] eqn:Ht; cbn in Hrun.
  - destruct (queues w !! q0) as [x|] eqn:Hx; [|done]. cbn in Hrun. simplify_eq.
    split; [done|]. by eapply (refs_ok_take w us virt q0 x).
  - by simplify_eq.
Qed.

(** Putting a queue back never deletes it: the tree keeps its own count. *)
Lemma Put_refs w us1 us2 virt q w' : PutFutex virt q w = Ok (tt, w') ->
  Z.of_nat (length (us1 ++ (virt, q) :: us2)) < 2 ^ 63 ->
  refs_ok (w, us1 ++ (virt, q) :: us2) -> refs_ok (w', us1 ++ us2) /\ tree w' = tree w.
Proof.
  intros Hrun Hlen Hok. unfold PutFutex in Hrun. run_tree Hrun.
  destruct (tree_locked w); [done|]. cbn in Hrun.
  assert (Hin : (virt, q) ∈ us1 ++ (virt, q) :: us2) by set_solver.
  pose proof (ref_user _ Hok _ _ Hin) as Ht. cbn in Ht.
  pose proof (ref_count _ Hok _ _ Ht) as Hc. cbn in Hc.
  destruct (queues w !! q) as [x|] eqn:Hx; [|done]. cbn in Hc, Hrun. injection Hc as Hc.
  pose proof (uses_pos _ _ Hin). pose proof (uses_bound (virt, q) (us1 ++ (virt, q) :: us2)).
  rewrite sub64_small in Hrun by lia. rewrite (proj2 (Z.eqb_neq _ _)) in Hrun by lia.
  cbn in Hrun. simplify_eq. cbn. split; [|done].
  eapply (refs_ok_count w _ _ virt q x _ _ (-1) Hok Ht Hx); try done.
  - intros u. rewrite !uses_app, uses_cons. repeat case_decide; subst; try congruence; lia.
  - intros u. set_solver.
Qed.

Lemma ref_step_ok s1 s2 : refs_ok s1 -> Z.of_nat (length s1.2) <= 2 ^ 62 -> ref_step s1 s2 ->
  refs_ok s2 /\ Z.of_nat (length s2.2) <= 2 ^ 62 /\ tree s1.1 ⊆ tree s2.1.
Proof.
  intros Hok Hlen Hst. destruct Hst as [w w' us virt q Hnew Hl Hrun|w w' us virt q Hl Hrun|w w' us virt Hrun|w w' us1 us2 virt q Hrun|w w' us Et Ec];
    cbn [fst snd] in *.
  - destruct (GetOrCreate_refs _ _ _ _ _ Hnew Hl Hrun Hok). split_and!; [done|cbn; lia|done].
  - destruct (GetForWake_refs w us virt _ _ Hl Hrun Hok) as [Et Hok']. rewrite Et. split_and!; [done|cbn; lia|done].
  - unfold GetFutexForWake in Hrun. run_tree Hrun. destruct (tree_locked w); [done|]. cbn in Hrun.
    destruct (tree w !! virt) as [q0|] eqn:Ht; cbn in Hrun; [by destruct (queues w !! q0)|]. simplify_eq.
    split_and!; [by destruct Hok|done|done].
  - destruct (Put_refs w us1 us2 virt q w' Hrun ltac:(lia) Hok) as [Hok' Et]. rewrite Et.
    split_and!; [done| |done]. rewrite length_app in *. cbn [length] in Hlen. lia.
  - rewrite Et. split_and!; [|done|done]. destruct Hok as [G1 G2 G3]. split; cbn in *; rewrite Et; try done.
    intros v q Hv. rewrite Ec. by apply G1.
Qed.

Lemma ref_steps_ok s1 s2 : rtc ref_step s1 s2 -> refs_ok s1 -> Z.of_nat (length s1.2) <= 2 ^ 62 ->
  refs_ok s2 /\ Z.of_nat (length s2.2) <= 2 ^ 62 /\ tree s1.1 ⊆ tree s2.1.
Proof.
  induction 1 as [s|s1 s2 s3 Hst _ IH]; intros Hok Hlen; [done|].
  destruct (ref_step_ok _ _ Hok Hlen Hst) as (Hok2 & Hlen2 & Ht). destruct (IH Hok2 Hlen2) as (Hok3 & Hlen3 & Ht').
  split_and!; [done|done|]. by etrans.
Qed.

(** The calls that can come next return, when the mutex of the tree is free. *)
Definition calls_return (s : world W * users) : Prop := tree_locked s.1 = false ->
  (forall virt, exists q w', GetOrCreateFutex virt s.1 = Ok (q, w')) /\
  (forall virt, exists o w', GetFutexForWake virt s.1 = Ok (o, w')) /\
  (forall virt q, (virt, q) ∈ s.2 -> exists w', PutFutex virt q s.1 = Ok (tt, w')).

Lemma refs_ok_returns s : refs_ok s -> calls_return s.
Proof.
  intros Hok Hl. destruct s as [w us]. cbn [fst snd] in *.
  assert (Hq : forall virt q, tree w !! virt = Some q -> exists x, queues w !! q = Some x).
  { intros virt q Ht. pose proof (ref_count _ Hok _ _ Ht) as Hc. cbn in Hc. destruct (queues w !! q); [eauto|done]. }
  split_and!.
  - intros virt. unfold GetOrCreateFutex. cbv beta iota delta [bind gets modify ret fail lock_tree unlock_tree put_queue queue_at call].
    rewrite Hl. cbn. destruct (tree w !! virt) as [q|] eqn:Ht; cbn.
    + destruct (Hq _ _ Ht) as [x Hx]. rewrite Hx. eauto.
    + destruct (NewQueue (rest w)) as [q r]. cbn. rewrite lookup_insert_eq. eauto.
  - intros virt. unfold GetFutexForWake. cbv beta iota delta [bind gets modify ret fail lock_tree unlock_tree put_queue queue_at].
    rewrite Hl. cbn. destruct (tree w !! virt) as [q|] eqn:Ht; cbn; [|eauto]. destruct (Hq _ _ Ht) as [x Hx]. rewrite Hx. eauto.
  - intros virt q Hin. destruct (Hq _ _ (ref_user _ Hok _ _ Hin)) as [x Hx].
    unfold PutFutex. cbv beta iota delta [bind gets modify ret fail lock_tree unlock_tree put_queue queue_at].
    rewrite Hl. cbn. rewrite Hx. cbn. destruct (_ =? 0); eauto.
Qed.

End Futexes.

(** A kernel with the word at address 64 as its memory, a list of ready threads and a
    counter for new objects. *)
Record demo_kernel : Set := mkDemo { d_word : Z; d_ready : list Z; d_next : Z }.

#[local] Instance demo_Kernel : Kernel demo_kernel := {
  RemoveCurrentThread := fun r =>
    match d_ready r with
    | [] => Ok (0, r)
    | t :: l => Ok (t, mkDemo (d_word r) l (d_next r))
    end;
  AddExistingThread := fun t r => Ok (true, mkDemo (d_word r) (d_ready r ++ [t]) (d_next r));
  UserReadAtomic32 := fun p r => if p =? 64 then Some (d_word r) else None;
  ReadableFutex := fun p _ => p =? 64;
  ReadableTime := fun _ _ => true;
  HasPageMapper := fun _ => true;
  NewQueue := fun r => (d_next r, mkDemo (d_word r) (d_ready r) (d_next r + 8))
}.

Lemma demo_adds : adds_threads (W := demo_kernel).
Proof. intros t r. eexists. reflexivity. Qed.

Lemma demo_leaves : leaves_word (W := demo_kernel) 64.
Proof.
  split.
  - intros t r a r' Heq. cbn in Heq. by injection Heq as <- <-.
  - intros r a r' Heq. cbn in Heq. destruct (d_ready r); by injection Heq as <- <-.
Qed.

(** Threads 3, 5 and 7 wait on the queue at 256. *)
Definition demo_queue : FutexWaitQueue := mkQueue 1 [3; 5; 7] false.
Definition demo_world : world demo_kernel :=
  mkWorld {[64 := 256]} false {[256 := demo_queue]} ∅ true (mkDemo 0 [] 512).

Lemma Wake_spec_witness :
  Wake 256 2 demo_world =
  Ok (2, woken_world 256 demo_queue 2 (mkDemo 0 [3; 5] 512) demo_world).
Proof.
  destruct (Wake_spec demo_adds 256 2 demo_queue demo_world) as (r' & Hr & Hrun); [reflexivity..|].
  vm_compute in Hr. injection Hr as <-. exact Hrun.
Defined.

(** From 2^31 on the number asked for counts as negative. *)
Example Wake_all_wakes_none :
  match Wake 256 (2 ^ 32 - 1) demo_world with Ok (n, _) => n | Fail _ => -1 end = 0.
Proof. vm_compute. reflexivity. Qed.

(** Thread 3 tests the word while it is 0; user code stores 1 before the thread is in the
    queue, and then wakes. *)
Definition demo_start : world demo_kernel :=
  mkWorld {[64 := 256]} false {[256 := mkQueue 1 [] false]} ∅ true (mkDemo 0 [3] 512).
Definition demo_checked : world demo_kernel :=
  mkWorld {[64 := 256]} false {[256 := mkQueue 1 [] true]} ∅ false (mkDemo 0 [3] 512).
Definition demo_stored : world demo_kernel := set_rest (mkDemo 1 [3] 512) demo_checked.
Definition demo_blocked : world demo_kernel :=
  mkWorld {[64 := 256]} false {[256 := mkQueue 1 [3] false]} {[3 := mkFThread 256 NoReason]} false (mkDemo 1 [] 512).
Definition demo_woken : world demo_kernel :=
  mkWorld {[64 := 256]} false {[256 := mkQueue 1 [] false]} {[3 := mkFThread 0 Woken]} false (mkDemo 1 [3] 512).

(** Woken, thread 3 waits again, now for the word to change from 1. *)
Definition demo_again : world demo_kernel :=
  mkWorld {[64 := 256]} false {[256 := mkQueue 1 [] true]} {[3 := mkFThread 0 Woken]} false (mkDemo 1 [3] 512).
Definition demo_asleep : world demo_kernel :=
  mkWorld {[64 := 256]} false {[256 := mkQueue 1 [3] false]} {[3 := mkFThread 256 NoReason]} false (mkDemo 1 [] 512).

Lemma demo_steps : steps 256 64 (mkSystem demo_start None [] 0) (mkSystem demo_asleep None [(3, 1)] 0).
Proof.
  eapply steps_more; [eapply steps_more; [eapply steps_more; [eapply steps_more;
    [eapply steps_more; [eapply steps_more; [apply steps_refl|]|]|]|]|]|].
  - apply (step_check 256 64 demo_start demo_checked None [] 0 0 true). vm_compute. reflexivity.
  - apply (step_store 256 64 demo_checked (Some 0) [] 0 (mkDemo 1 [3] 512)).
  - apply (step_block 256 64 demo_stored demo_blocked 0 [] 1 3). vm_compute. reflexivity.
  - apply (step_wake_store 256 64 demo_blocked demo_woken None [(3, 0)] 0 1 1). vm_compute. reflexivity.
  - apply (step_check 256 64 demo_woken demo_again None [] 0 1 false). vm_compute. reflexivity.
  - apply (step_block 256 64 demo_again demo_asleep 1 [] 0 3). vm_compute. reflexivity.
Qed.

Lemma futex_no_lost_wakeup_witness : UserReadAtomic32 64 (rest demo_asleep) = Some 1.
Proof.
  apply (futex_no_lost_wakeup 256 64 demo_leaves demo_start 1 (mkSystem demo_asleep None [(3, 1)] 0)) with (t := 3).
  - reflexivity.
  - exact demo_steps.
  - reflexivity.
  - constructor.
Defined.

(** From no queue on: a wait takes a new queue at 512, and then a wake takes it too. *)
Definition demo_none : world demo_kernel := mkWorld ∅ false ∅ ∅ true (mkDemo 0 [3] 512).
Definition demo_one : world demo_kernel := match GetOrCreateFutex 64 demo_none with Ok (_, w) => w | Fail _ => demo_none end.
Definition demo_two : world demo_kernel := match GetFutexForWake 64 demo_one with Ok (_, w) => w | Fail _ => demo_none end.

End FutexSpec.
