(* ===== verification/SystemCalls.v ===== *)
(** * SystemCalls.v: the system call handlers (src/kernel/src/SystemCalls)

    A handler tests its arguments, copies to or from user memory through the
    Validate functions of the memory manager, and calls the descriptor table, the
    file system and the memory manager. Those are reached through [Env]. Modelled
    here, apart from the handlers, are user memory, where an access to an unmapped
    byte is a fault ([Fail InvalidAccess]), and the kernel buffers and objects a
    handler allocates, so that what it frees or forgets can be seen. *)

From S2P Require Import Prelude FileDescriptor.
Import FileDescriptor(FDType, File, TTY_, Directory, Invalid, FDOffsetStart, START, END_, CURRENT).

#[local] Open Scope Z_scope.
#[local] Open Scope kernel_scope.

Module SystemCalls.

(** ** Constants *)

Definition ESUCCESS : Z := 0.
Definition ENOENT : Z := 2.
Definition EBADF : Z := 9.
Definition ENOMEM : Z := 12.
Definition EFAULT : Z := 14.
Definition EEXIST : Z := 17.
Definition ENOTDIR : Z := 20.
Definition EISDIR : Z := 21.
Definition EINVAL : Z := 22.
Definition ENOTTY : Z := 25.
Definition ENOSYS : Z := 38.

Definition O_CREAT : Z := 64.
Definition O_DIRECTORY : Z := 65536.
Definition SEEK_SET : Z := 0.
Definition SEEK_CUR : Z := 1.
Definition SEEK_END : Z := 2.

Definition PROT_NONE : Z := 0.
Definition PROT_READ : Z := 1.
Definition PROT_WRITE : Z := 2.
Definition PROT_EXEC : Z := 4.
Definition MAP_PRIVATE : Z := 1.
Definition MAP_SHARED : Z := 2.
Definition MAP_ANONYMOUS : Z := 4.
Definition MAP_FIXED : Z := 8.
Definition MAP_POPULATE : Z := 16.
Definition MAP_FIXED_NOREPLACE : Z := 32.

Definition CLOCK_REALTIME : Z := 0.
Definition CLOCK_MONOTONIC : Z := 1.
Definition CLOCK_BOOTTIME : Z := 7.

(** [sizeof(FS::Dentry)] *)
Definition DENTRY_SIZE : Z := 280.

(** File types that occur below; the others only matter as being neither. *)
Inductive VType : Set := REG | DIR | OTHER.

#[global] Instance VType_eq_dec : EqDecision VType.
Proof. solve_decision. Defined.

(** The members of [VMM::AllocFlags] that [sys_mmap] sets. *)
Record AllocFlags : Set := mkAlloc {
  protection : Z;
  isPrivate : bool;
  allocPhys : bool;
  addrIsHint : bool;
  replace : bool
}.

(** ** The rest of the kernel

    [E] is its state. Buffers of the kernel are passed by contents. *)
Class Env (E : Type) : Type := {
  (* the process has a descriptor table, an address space *)
  HasFDManager : E -> bool;
  HasVMM : E -> bool;
  (* memory for an object of this size can be had *)
  can_alloc : Z -> E -> bool;
  (* address space: size and, for user memory, which bytes are mapped; the loops
     of the Validate functions need not end, [None] *)
  ValidateRead : Z -> Z -> gmap Z Z -> E -> option bool;
  ValidateWrite : Z -> Z -> gmap Z Z -> E -> option bool;
  AllocateAnonPages : Z -> Z -> AllocFlags -> E -> Z * E;
  FreePages : Z -> Z -> E -> bool * E;
  RemapPages : Z -> Z -> Z -> E -> bool * E;
  (* descriptor table *)
  fd_Get : Z -> E -> Z;
  fd_Allocate : Z -> E -> Z * E;
  fd_Free : Z -> E -> Z * E;
  (* descriptors *)
  desc_init : Z -> FDType -> Z -> E -> E;
  desc_isOpen : Z -> E -> bool;
  desc_GetType : Z -> E -> FDType;
  desc_GetVNode : Z -> E -> Z;
  desc_Open : Z -> Z -> E -> Z * E;
  desc_Close : Z -> E -> E;
  desc_Read : Z -> Z -> E -> Z * list Z * E;
  desc_Write : Z -> list Z -> E -> Z * Z * E;
  desc_Seek : Z -> Z -> FDOffsetStart -> E -> Z * Z * E;
  desc_GetDents : Z -> Z -> E -> Z * list (list Z) * E;
  (* file system *)
  VFS_Open : list Z -> E -> Z * Z * E;
  VFS_Close : Z -> E -> Z * E;
  VFS_CreateFile : list Z -> list Z -> E -> Z * E;
  VFS_BuildPath : Z -> E -> Z * list Z * E;
  VFS_MapFile : Z -> Z -> Z -> Z -> Z -> Z -> E -> Z * Z * E;
  vnode_GetType : Z -> E -> VType;
  (* clocks *)
  GetUnixEpochTime : E -> Z;
  GetNSTicks : E -> Z;
  (* the process and its thread *)
  GetPID : E -> Z;
  GetPPID : E -> Z;
  GetUIDs : E -> Z * Z * Z;
  GetGIDs : E -> Z * Z * Z;
  SetFSBase : Z -> E -> E
}.

(** User memory (the mapped bytes), the live kernel buffers and objects, the next
    address the allocator gives, and the rest. *)
Record state (E : Type) : Type := mkState {
  umem : gmap Z Z;
  kheap : gset Z;
  knext : Z;
  env : E
}.
Arguments mkState {E} _ _ _ _.
Arguments umem {E} _.
Arguments kheap {E} _.
Arguments knext {E} _.
Arguments env {E} _.

(** A C string in a buffer. *)
Fixpoint cstr (bytes : list Z) : list Z :=
  match bytes with
  | [] => []
  | c :: bytes' => if c =? 0 then [] else c :: cstr bytes'
  end.

(** The last slash of a path: what is before and what is after it. *)
Fixpoint split_last (path : list Z) : option (list Z * list Z) :=
  match path with
  | [] => None
  | c :: path' =>
      match split_last path' with
      | Some (parent, name) => Some (c :: parent, name)
      | None => if c =? 47 then Some ([], path') else None
      end
  end.

(** The little-endian bytes of an 8-byte value. *)
Fixpoint bytes_of (n : nat) (v : Z) : list Z :=
  match n with
  | O => []
  | S n' => v mod 256 :: bytes_of n' (v / 256)
  end.
Fixpoint value_of (bytes : list Z) : Z :=
  match bytes with [] => 0 | b :: bytes' => b + 256 * value_of bytes' end.

Section Calls.
Context {E : Type} `{Env E}.

Notation S := (M (state E)).

Definition set_umem (m : gmap Z Z) (s : state E) : state E := mkState m (kheap s) (knext s) (env s).
Definition set_env (e : E) (s : state E) : state E := mkState (umem s) (kheap s) (knext s) e.

(** Calls into the rest of the kernel. *)
Definition ask {A} (f : E -> A) : S A := gets (fun s => f (env s)).
Definition tell (f : E -> E) : S unit := modify (fun s => set_env (f (env s)) s).
Definition call {A} (f : E -> A * E) : S A := fun s => let (a, e) := f (env s) in Ok (a, set_env e s).

(** A validation; one that does not end does not return to the handler. *)
Definition validate (V : Z -> Z -> gmap Z Z -> E -> option bool) (buf size : Z) : S bool := fun s =>
  match V buf size (umem s) (env s) with Some ok => Ok (ok, s) | None => Fail OutOfFuel end.

(** [new] of [size] bytes, and [delete]. *)
Definition new (size : Z) : S Z := fun s =>
  if can_alloc size (env s)
  then Ok (knext s, mkState (umem s) ({[knext s]} ∪ kheap s) (knext s + 1) (env s))
  else Ok (0, s).
Definition delete (p : Z) : S unit := fun s =>
  if p =? 0 then Ok (tt, s) else
  if decide (p ∈ kheap s) then Ok (tt, mkState (umem s) (kheap s ∖ {[p]}) (knext s) (env s))
  else Fail InvalidAccess.

(** Accesses to user memory. *)
Fixpoint load (n : nat) (a : Z) : S (list Z) :=
  match n with
  | O => ret []
  | Datatypes.S n' =>
      let* b := gets (fun s => umem s !! a) in
      match b with
      | None => fail InvalidAccess
      | Some b => let* bs := load n' (add64 a 1) in ret (b :: bs)
      end
  end.
Fixpoint store (bytes : list Z) (a : Z) : S unit :=
  match bytes with
  | [] => ret tt
  | b :: bytes' =>
      let* old := gets (fun s => umem s !! a) in
      match old with
      | None => fail InvalidAccess
      | Some _ => modify (fun s => set_umem (<[a := b]> (umem s)) s) ;;; store bytes' (add64 a 1)
      end
  end.

(** ** SystemCall.cpp *)

(** [UserRead]; [kBuf] is the buffer's address, the result its contents. *)
Definition UserRead (userBuf kBuf size : Z) : S (option (list Z)) :=
  if (userBuf =? 0) || (kBuf =? 0) || (size =? 0) then ret None else
  let* ok := validate ValidateRead userBuf size in
  if negb ok then ret None else
  let* bytes := load (Z.to_nat size) userBuf in ret (Some bytes).

(** [UserWrite] of the bytes of a kernel buffer. *)
Definition UserWrite (userBuf kBuf : Z) (bytes : list Z) (validate_ : bool) : S bool :=
  let size := Z.of_nat (length bytes) in
  if (userBuf =? 0) || (kBuf =? 0) || (size =? 0) then ret false else
  let* ok := (if validate_ : bool then validate ValidateWrite userBuf size else ret true) in
  if negb ok then ret false else
  store bytes userBuf ;;; ret true.

(** An object on the kernel stack: any address but null. *)
Notation on_stack := 1 (only parsing).

(** ** File.cpp *)

(** The part of [sys_open] that finds or creates the file: its node, or an error. *)
Definition open_node (realPath : list Z) (flags : Z) : S (Z + Z) :=
  let path := cstr realPath in
  let* (rc, vnode) := call (fun e => VFS_Open path e) in
  if negb (rc <? 0) then ret (inr vnode) else
  if (rc =? - ENOENT) && (0 <? Z.land flags O_CREAT) then
    if List.last realPath 0 =? 47 then ret (inl (- EISDIR)) else
    let '(parent, name) := match split_last path with Some pn => pn | None => ([], path) end in
    let* rc := call (VFS_CreateFile parent name) in
    if rc <? 0 then ret (inl rc) else
    let* (rc, vnode) := call (fun e => VFS_Open path e) in
    if rc <? 0 then ret (inl rc) else ret (inr vnode)
  else ret (inl rc).

(** The rest of [sys_open]: a descriptor for the node. *)
Definition open_desc (realPath vnode flags : Z) : S Z :=
  let* type := ask (vnode_GetType vnode) in
  if negb (bool_decide (type = REG)) && negb (bool_decide (type = DIR)) then
    call (VFS_Close vnode) ;;; ret (- ENOSYS)
  else if negb (bool_decide (type = DIR)) && (0 <? Z.land flags O_DIRECTORY) then
    call (VFS_Close vnode) ;;; ret (- ENOTDIR)
  else
  let* desc := new 72 in
  if desc =? 0 then call (VFS_Close vnode) ;;; delete realPath ;;; ret (- ENOMEM) else
  tell (desc_init desc (if bool_decide (type = REG) then File else Directory) vnode) ;;;
  let* rc := call (desc_Open desc flags) in
  if rc <? 0 then
    delete desc ;;; call (VFS_Close vnode) ;;; delete realPath ;;; ret rc
  else
  let* fd := call (fd_Allocate desc) in
  (if fd <? 0
   then tell (desc_Close desc) ;;; delete desc ;;; call (VFS_Close vnode) ;;; ret tt
   else ret tt) ;;;
  delete realPath ;;;
  ret fd.

Definition sys_open (path pathLen flags : Z) : S Z :=
  let* manager := ask HasFDManager in
  if negb manager then ret (- ENOSYS) else
  let* realPath := new (add64 pathLen 1) in
  if realPath =? 0 then ret (- ENOMEM) else
  let* bytes := UserRead path realPath pathLen in
  match bytes with
  | None => delete realPath ;;; ret (- EFAULT)
  | Some bytes =>
      let* node := open_node bytes flags in
      match node with
      | inl rc => delete realPath ;;; ret rc
      | inr vnode => open_desc realPath vnode flags
      end
  end.

Definition sys_close (fd : Z) : S Z :=
  let* manager := ask HasFDManager in
  if negb manager then ret (- ENOSYS) else
  let* desc := call (fd_Free fd) in
  if desc =? 0 then ret (- EBADF) else
  let* open := ask (desc_isOpen desc) in
  if negb open then ret (- EBADF) else
  tell (desc_Close desc) ;;;
  let* type := ask (desc_GetType desc) in
  if negb (bool_decide (type = File)) then ret ESUCCESS else
  let* vnode := ask (desc_GetVNode desc) in
  if vnode =? 0 then ret (- EBADF) else
  let* rc := call (VFS_Close vnode) in
  if rc <? 0 then ret rc else
  delete desc ;;; ret ESUCCESS.

(** An open descriptor. *)
Definition open_fd (fd : Z) (k : Z -> S Z) : S Z :=
  let* desc := ask (fd_Get fd) in
  if desc =? 0 then ret (- EBADF) else
  let* open := ask (desc_isOpen desc) in
  if negb open then ret (- EBADF) else k desc.

Definition sys_read (fd buf count : Z) : S Z :=
  if count =? 0 then ret (- EINVAL) else
  let* manager := ask HasFDManager in
  if negb manager then ret (- ENOSYS) else
  let* ok := validate ValidateWrite buf count in
  if negb ok then ret (- EFAULT) else
  open_fd fd (fun desc =>
    let* kBuf := new count in
    if kBuf =? 0 then fail NullDereference else
    let* (rc, bytes) := call (fun e => desc_Read desc count e) in
    UserWrite buf kBuf bytes false ;;;
    delete kBuf ;;;
    ret (if rc <? 0 then rc else Z.of_nat (length bytes))).

Definition sys_write (fd buf count : Z) : S Z :=
  if count =? 0 then ret (- EINVAL) else
  let* manager := ask HasFDManager in
  if negb manager then ret (- ENOSYS) else
  open_fd fd (fun desc =>
    let* kBuf := new count in
    let* bytes := UserRead buf kBuf count in
    match bytes with
    | None => delete kBuf ;;; ret (- EFAULT)
    | Some bytes =>
        let* (rc, realCount) := call (fun e => desc_Write desc bytes e) in
        delete kBuf ;;;
        ret (if rc <? 0 then rc else realCount)
    end).

Definition sys_seek (fd offset whence : Z) : S Z :=
  if (whence <? SEEK_SET) || (SEEK_END <? whence) then ret (- EINVAL) else
  let* manager := ask HasFDManager in
  if negb manager then ret (- ENOSYS) else
  open_fd fd (fun desc =>
    let start := if whence =? SEEK_SET then START else if whence =? SEEK_CUR then CURRENT else END_ in
    let* (rc, realOffset) := call (fun e => desc_Seek desc offset start e) in
    if rc <? 0 then ret rc else ret realOffset).

Definition sys_isatty (fd : Z) : S Z :=
  let* manager := ask HasFDManager in
  if negb manager then ret (- ENOSYS) else
  open_fd fd (fun desc =>
    let* type := ask (desc_GetType desc) in
    if bool_decide (type = TTY_) then ret 0 else ret (- ENOTTY)).

(** The buffer has [count] entries, of which [GetDents] fills the first ones; all of
    them are copied to the user. [rest] is what the others hold. *)
Definition sys_getdents (rest : list Z) (fd buf maxRead bytesRead : Z) : S Z :=
  let* manager := ask HasFDManager in
  if negb manager then ret (- ENOSYS) else
  open_fd fd (fun desc =>
    let count := maxRead / DENTRY_SIZE in
    if count =? 0 then ret (- EINVAL) else
    let* kBuf := new (mul64 DENTRY_SIZE count) in
    if kBuf =? 0 then ret (- ENOMEM) else
    let* (rc, entries) := call (fun e => desc_GetDents desc count e) in
    if rc <? 0 then delete kBuf ;;; ret rc else
    let bytes := take (Z.to_nat (DENTRY_SIZE * count)) (concat entries ++ rest) in
    let* ok1 := UserWrite buf kBuf bytes true in
    let* ok2 := UserWrite bytesRead on_stack
                  (bytes_of 8 (mul64 (Z.of_nat (length entries)) DENTRY_SIZE)) true in
    delete kBuf ;;;
    ret (if ok1 && ok2 then rc else - EFAULT)).

(** [VFS_BuildPath] fills a buffer of [size] characters. *)
Definition sys_getcwd (buf size : Z) : S Z :=
  if (buf =? 0) || (size =? 0) then ret (- EINVAL) else
  let* ok := validate ValidateWrite buf size in
  if negb ok then ret (- EFAULT) else
  let* kBuf := new size in
  if kBuf =? 0 then ret (- ENOMEM) else
  let* (rc, bytes) := call (fun e => VFS_BuildPath size e) in
  if rc <? 0 then delete kBuf ;;; ret rc else
  let* ok := UserWrite buf kBuf bytes false in
  delete kBuf ;;;
  ret (if ok then ESUCCESS else - EFAULT).

(** ** Memory.cpp *)

Definition ValidateMmapFlags (flags : Z) : bool :=
  let both := Z.land flags (Z.lor MAP_SHARED MAP_PRIVATE) in
  let fixed := Z.lor MAP_FIXED MAP_FIXED_NOREPLACE in
  if (flags <=? 0) || (MAP_FIXED_NOREPLACE * 2 <=? flags) then false else
  if (both =? 0) || (both =? Z.lor MAP_SHARED MAP_PRIVATE) then false else
  if Z.land flags fixed =? fixed then false else true.

(** The conversion of [prot]; [Protection] has READ = 1, WRITE = 2 and EXECUTE = 4. *)
Definition to_protection (prot : Z) : Z :=
  let r := if Z.land prot PROT_READ =? 0 then 0 else 1 in
  let w := if Z.land prot PROT_WRITE =? 0 then 0 else 2 in
  let x := if Z.land prot PROT_EXEC =? 0 then 0 else 4 in
  Z.lor (Z.lor r w) x.

Definition has (flags f : Z) : bool := 0 <? Z.land flags f.

(** The extra arguments are an [int] and a 64-bit offset, packed. *)
Definition sys_mmap (addr length prot flags args : Z) : S Z :=
  if ((addr =? 0) && has flags MAP_FIXED) || (length =? 0) || (7 <? prot) || negb (ValidateMmapFlags flags)
  then ret (- EINVAL) else
  if prot =? Z.lor PROT_WRITE PROT_EXEC then ret (- ENOSYS) else
  let* vmm := ask HasVMM in
  if negb vmm then ret (- ENOSYS) else
  let* kArgs := UserRead args on_stack 12 in
  match kArgs with
  | None => ret (- EFAULT)
  | Some kArgs =>
      let addr := ALIGN_DOWN addr PAGE_SIZE in
      let pageCount := DIV_ROUNDUP length PAGE_SIZE in
      let protection := to_protection prot in
      if has flags MAP_ANONYMOUS then
        let* mem := call (AllocateAnonPages pageCount addr
          (mkAlloc protection (has flags MAP_PRIVATE) (has flags MAP_POPULATE)
             (Z.land flags (Z.lor MAP_FIXED MAP_FIXED_NOREPLACE) =? 0) (has flags MAP_FIXED))) in
        if mem =? 0 then ret (if Z.land flags MAP_FIXED =? 0 then - ENOMEM else - EEXIST) else ret mem
      else
        let* manager := ask HasFDManager in
        if negb manager then ret (- ENOSYS) else
        let* desc := ask (fd_Get (i32 (value_of (take 4 kArgs)))) in
        if desc =? 0 then ret (- EBADF) else
        let* open := ask (desc_isOpen desc) in
        let* type := ask (desc_GetType desc) in
        if negb open || negb (bool_decide (type = File)) then ret (- EBADF) else
        let* vnode := ask (desc_GetVNode desc) in
        if vnode =? 0 then ret (- EBADF) else
        let* (rc, mem) := call (fun e => VFS_MapFile addr length protection flags vnode
                                           (i64 (value_of (drop 4 kArgs))) e) in
        if rc <? 0 then ret rc else ret mem
  end.

Definition sys_munmap (addr length : Z) : S Z :=
  if (addr =? 0) || (length =? 0) then ret (- EINVAL) else
  let* vmm := ask HasVMM in
  if negb vmm then ret (- ENOSYS) else
  let* ok := call (FreePages (ALIGN_DOWN addr PAGE_SIZE) (DIV_ROUNDUP length PAGE_SIZE)) in
  ret (if ok : bool then ESUCCESS else - EINVAL).

Definition sys_mprotect (addr size prot : Z) : S Z :=
  if (addr =? 0) || (size =? 0) || (prot <=? PROT_NONE) || (7 <? prot) then ret (- EINVAL) else
  if prot =? Z.lor PROT_WRITE PROT_EXEC then ret (- ENOSYS) else
  let* vmm := ask HasVMM in
  if negb vmm then ret (- ENOSYS) else
  let* ok := call (RemapPages (ALIGN_DOWN addr PAGE_SIZE) (DIV_ROUNDUP size PAGE_SIZE) (to_protection prot)) in
  ret (if ok : bool then ESUCCESS else - EINVAL).

(** ** Time.cpp *)

Definition sys_clockget (clock time : Z) : S Z :=
  let finish tv_sec tv_nsec :=
    let* ok := UserWrite time on_stack (bytes_of 8 tv_sec ++ bytes_of 8 tv_nsec) true in
    ret (if ok : bool then ESUCCESS else - EFAULT) in
  if clock =? CLOCK_REALTIME then
    let* tv_sec := ask GetUnixEpochTime in
    if tv_sec =? 2 ^ 63 - 1 then ret (- ENOSYS) else
    finish tv_sec (i64 (tv_sec * 1000000000))
  else if (clock =? CLOCK_MONOTONIC) || (clock =? CLOCK_BOOTTIME) then
    let* ticks := ask GetNSTicks in
    let tv_nsec := i64 ticks in
    finish (Z.quot tv_nsec 1000000000) tv_nsec
  else ret (- ENOSYS).

(** ** Process.cpp *)

Definition sys_settcb (base : Z) : S Z :=
  let* vmm := ask HasVMM in
  if negb vmm then ret (- ENOSYS) else
  let* ok := validate ValidateRead base 1 in
  if negb ok then ret (- EFAULT) else
  tell (SetFSBase base) ;;; ret ESUCCESS.

Definition sys_getpid : S Z := ask GetPID.
Definition sys_getppid : S Z := ask GetPPID.
Definition sys_gettid : S Z := ask GetPID.

Definition write_ids (p : Z) (ids : Z * Z * Z) : S Z :=
  let '(a, b, c) := ids in
  let* ok := UserWrite p on_stack (bytes_of 8 a ++ bytes_of 8 b ++ bytes_of 8 c) true in
  ret (if ok : bool then ESUCCESS else - EFAULT).
Definition sys_getresuid (uids : Z) : S Z := let* ids := ask GetUIDs in write_ids uids ids.
Definition sys_getresgid (gids : Z) : S Z := let* ids := ask GetGIDs in write_ids gids ids.

(** ** The dispatcher (SystemCall.cpp)

    [int] parameters take the low half of their register. The calls for processes
    and futexes ([sys_exit], [sys_fork], [sys_exec], [sys_futex]) are [other];
    [rest] is the content of the unfilled entries of [sys_getdents]. *)
Definition SYSTEM_CALL_COUNT : Z := 22.

Definition HandleSystemCall (other : Z -> Z -> Z -> Z -> Z -> Z -> S Z) (rest : list Z)
    (num arg1 arg2 arg3 arg4 arg5 : Z) : S Z :=
  if SYSTEM_CALL_COUNT <=? num then ret (- ENOSYS) else
  match num with
  | 1 => sys_open arg1 arg2 (i32 arg3)
  | 2 => sys_close (i32 arg1)
  | 3 => sys_read (i32 arg1) arg2 arg3
  | 4 => sys_write (i32 arg1) arg2 arg3
  | 5 => sys_seek (i32 arg1) (i64 arg2) (i32 arg3)
  | 6 => sys_mmap arg1 arg2 (i32 arg3) (i32 arg4) arg5
  | 7 => sys_munmap arg1 arg2
  | 8 => sys_mprotect arg1 arg2 (i32 arg3)
  | 9 => sys_settcb arg1
  | 10 => sys_getpid
  | 11 => sys_getppid
  | 12 => sys_gettid
  | 13 => sys_getresuid arg1
  | 14 => sys_getresgid arg1
  | 15 => sys_clockget (i32 arg1) arg2
  | 16 => sys_isatty (i32 arg1)
  | 17 => sys_getdents rest (i32 arg1) arg2 arg3 arg4
  | 21 => sys_getcwd arg1 arg2
  | _ => other num arg1 arg2 arg3 arg4 arg5
  end.
End Calls.
End SystemCalls.
