(* ===== verification/SystemCallsSpec.v ===== *)
(** * SystemCallsSpec.v: system calls and user memory

    Under what the other parts of the kernel promise ([Laws]), no system call of
    SystemCalls.v faults on user memory, none changes user memory outside the
    buffers it is given, and the kernel objects each leaves are accounted for. A
    call may only fail to end in a validation that does not end. *)

From S2P Require Import Prelude FileDescriptor SystemCalls.
Import SystemCalls.

#[local] Open Scope Z_scope.
#[local] Open Scope kernel_scope.

Module SystemCallsSpec.

(** The addresses of a buffer. *)
Definition inside (buf size a : Z) : Prop := buf <= a < buf + size.

(** What the rest of the kernel promises. A buffer that passes validation is mapped,
    unless its end wraps around; reads and directory listings give no more than was
    asked for; a path fills the buffer. *)
Class Laws (E : Type) `{Env E} : Prop := {
  read_valid : forall b n m e, ValidateRead b n m e = Some true -> 0 <= b -> b + n < W64 ->
    forall a, inside b n a -> is_Some (m !! a);
  write_valid : forall b n m e, ValidateWrite b n m e = Some true -> 0 <= b -> b + n < W64 ->
    forall a, inside b n a -> is_Some (m !! a);
  read_count : forall d n e r bs e', desc_Read d n e = (r, bs, e') -> 0 <= n -> Z.of_nat (length bs) <= n;
  path_fills : forall n e r bs e', VFS_BuildPath n e = (r, bs, e') -> 0 <= n -> 0 <= r ->
    Z.of_nat (length bs) = n
}.

Section Spec.
Context {E : Type} `{Laws E}.

Notation S := (M (state E)).

(** Some validation does not end. *)
Definition can_hang : Prop := exists b n m e, ValidateRead b n m e = None \/ ValidateWrite b n m e = None.

(** A computation ends with [Q], or is in a validation that does not end. *)
Definition ends {A} (m : S A) (s : state E) (Q : A -> state E -> Prop) : Prop :=
  match m s with Ok (a, s') => Q a s' | Fail f => f = OutOfFuel /\ can_hang end.

Lemma ends_ret {A} (a : A) s (Q : A -> state E -> Prop) : Q a s -> ends (ret a) s Q.
Proof. done. Qed.
Lemma ends_bind {A B} (m : S A) (k : A -> S B) s Q : ends m s (fun a s' => ends (k a) s' Q) -> ends (bind m k) s Q.
Proof. unfold ends, bind. by destruct (m s) as [[a s']|f]. Qed.
Lemma ends_gets {A} (f : state E -> A) s (Q : A -> state E -> Prop) : Q (f s) s -> ends (gets f) s Q.
Proof. done. Qed.
Lemma ends_modify f s (Q : unit -> state E -> Prop) : Q tt (f s) -> ends (modify f) s Q.
Proof. done. Qed.
Lemma ends_if {A} (b : bool) (m1 m2 : S A) s Q : (b = true -> ends m1 s Q) -> (b = false -> ends m2 s Q) ->
  ends (if b then m1 else m2) s Q.
Proof. destruct b; auto. Qed.
Lemma ends_mono {A} (m : S A) s (Q Q' : A -> state E -> Prop) : ends m s Q -> (forall a s', Q a s' -> Q' a s') -> ends m s Q'.
Proof. unfold ends. destruct (m s) as [[a s']|]; auto. Qed.
Lemma ends_eq {A} (m : S A) s a s' (Q : A -> state E -> Prop) : m s = Ok (a, s') -> Q a s' -> ends m s Q.
Proof. unfold ends. by intros ->. Qed.
Lemma ends_read b n s (Q : bool -> state E -> Prop) : (forall ok, ValidateRead b n (umem s) (env s) = Some ok -> Q ok s) ->
  ends (validate ValidateRead b n) s Q.
Proof. intros HQ. unfold ends, validate. destruct (ValidateRead _ _ _ _) eqn:Ev; [by apply HQ|]. split; [done|]. exists b, n, (umem s), (env s). by left. Qed.
Lemma ends_write b n s (Q : bool -> state E -> Prop) : (forall ok, ValidateWrite b n (umem s) (env s) = Some ok -> Q ok s) ->
  ends (validate ValidateWrite b n) s Q.
Proof. intros HQ. unfold ends, validate. destruct (ValidateWrite _ _ _ _) eqn:Ev; [by apply HQ|]. split; [done|]. exists b, n, (umem s), (env s). by right. Qed.

(** Straight-line code. *)
Ltac ego := repeat (match goal with
  | |- ends (ret _) _ _ => apply ends_ret
  | |- ends (bind _ _) _ _ => apply ends_bind
  | |- ends (gets _) _ _ => apply ends_gets
  | |- ends (modify _) _ _ => apply ends_modify
  end; cbn beta iota).

(** The addresses given out so far are below the next one. *)
Definition heap_ok (s : state E) : Prop := 0 < knext s /\ forall p, p ∈ kheap s -> p < knext s.

(** [s'] has the same user memory mapped as [s], with the same contents outside [R]. *)
Definition frame (R : Z -> Prop) (s s' : state E) : Prop :=
  (forall a, is_Some (umem s' !! a) <-> is_Some (umem s !! a)) /\
  (forall a, ~ R a -> umem s' !! a = umem s !! a).

#[local] Instance frame_po R : PreOrder (frame R).
Proof.
  split.
  - by intros s.
  - intros s1 s2 s3 [H1 H2] [H3 H4]. split.
    + intros a. by rewrite H3, H1.
    + intros a Ha. by rewrite H4, H2.
Qed.

Lemma frame_mono (R R' : Z -> Prop) s s' : (forall a, R a -> R' a) -> frame R s s' -> frame R' s s'.
Proof. intros HR [H1 H2]. split; [done|]. intros a Ha. apply H2. auto. Qed.

Lemma frame_same R s s' : umem s' = umem s -> frame R s s'.
Proof. intros Heq. split; intros; by rewrite Heq. Qed.

(** Mapped user memory. *)
Definition mapped (buf size : Z) (s : state E) : Prop := forall a, inside buf size a -> is_Some (umem s !! a).

Lemma user_load_ends n : forall a s, 0 <= a -> a + Z.of_nat n < W64 -> mapped a (Z.of_nat n) s ->
  ends (load n a) s (fun bs s' => s' = s /\ length bs = n /\
    forall i, (i < n)%nat -> bs !! i = umem s !! (a + Z.of_nat i)).
Proof.
  induction n as [|n IH]; intros a s Ha Hw Hm; cbn [load]; [apply ends_ret; split_and!; try done; lia|].
  destruct (Hm a) as [b Hb]; [split; lia|]. ego. rewrite Hb. ego.
  destruct (decide (n = 0%nat)) as [->|Hn].
  { cbn [load]. ego. split_and!; try done. intros [|i] Hi; [|lia]. cbn. by rewrite Z.add_0_r, Hb. }
  rewrite add64_small by lia. eapply ends_mono.
  { apply IH; [lia|lia|]. intros c [Hc1 Hc2]. apply Hm. split; lia. }
  intros bs s' (-> & Hl & Hbs). ego. split_and!; [done|cbn; lia|].
  intros [|i] Hi; cbn; [by rewrite Z.add_0_r, Hb|]. rewrite Hbs by lia. f_equal. lia.
Qed.

Lemma user_store_ends bs : forall a s, 0 <= a -> a + Z.of_nat (length bs) < W64 ->
  mapped a (Z.of_nat (length bs)) s ->
  ends (store bs a) s (fun _ s' => frame (inside a (Z.of_nat (length bs))) s s' /\
    kheap s' = kheap s /\ knext s' = knext s /\ env s' = env s /\
    forall i, (i < length bs)%nat -> umem s' !! (a + Z.of_nat i) = bs !! i).
Proof.
  induction bs as [|b bs IH]; intros a s Ha Hw Hm; cbn [store length] in *.
  { apply ends_ret. split_and!; try done. intros; lia. }
  destruct (Hm a) as [b0 Hb0]; [split; lia|]. ego. rewrite Hb0. ego.
  set (s1 := set_umem (<[a := b]> (umem s)) s).
  assert (Hs1 : frame (inside a (Z.of_nat (1 + length bs))) s s1).
  { split; intros c; cbn.
    - destruct (decide (c = a)) as [->|]; [by rewrite lookup_insert_eq, Hb0|by rewrite lookup_insert_ne].
    - intros Hc. rewrite lookup_insert_ne; [done|]. intros ->. apply Hc. split; lia. }
  destruct bs as [|b' bs].
  { cbn [store]. ego. split_and!; try done. intros [|i] Hi; [|cbn in Hi; lia].
    cbn. by rewrite Z.add_0_r, lookup_insert_eq. }
  rewrite add64_small by (cbn [length] in Hw; lia).
  eapply ends_mono; [apply (IH (a + 1) s1)|].
  - lia.
  - lia.
  - intros c [Hc1 Hc2]. apply Hs1, Hm. split; lia.
  - intros ? s' (Hf & Hk & Hn & He & Hbs). split_and!; try done.
    + etransitivity; [exact Hs1|]. eapply frame_mono; [|exact Hf]. intros c [Hc1 Hc2]. split; lia.
    + intros [|i] Hi.
      * rewrite Z.add_0_r. rewrite (proj2 Hf) by (intros [Hc _]; lia). cbn. by rewrite lookup_insert_eq.
      * cbn. rewrite <- Hbs by lia. f_equal. lia.
Qed.

(** ** Copying *)

Lemma UserRead_ends b k n s : 0 <= b -> 0 <= n -> b + n < W64 ->
  ends (UserRead b k n) s (fun o s' => s' = s /\
    match o with
    | Some bs => Z.of_nat (length bs) = n /\
        forall i, (i < length bs)%nat -> bs !! i = umem s !! (b + Z.of_nat i)
    | None => b = 0 \/ k = 0 \/ n = 0 \/ ValidateRead b n (umem s) (env s) = Some false
    end).
Proof.
  intros Hb Hn Hw. unfold UserRead. apply ends_if; intros Hz; [ego|].
  { split; [done|]. rewrite !orb_true_iff in Hz. zb. destruct Hz as [[?|?]|?]; zb; tauto. }
  apply ends_bind, ends_read. intros ok Hv. destruct ok; cbn [negb]; [|ego; tauto]. ego. eapply ends_mono; [apply user_load_ends; [done|lia|]|].
  { intros a Ha. eapply read_valid; [exact Hv|done|lia|]. destruct Ha. split; lia. }
  intros bs s' (-> & Hl & Hbs). ego. split_and!; [done|lia|]. intros i Hi. apply Hbs. lia.
Qed.

Lemma UserWrite_ends b k bs v s : 0 <= b -> b + Z.of_nat (length bs) < W64 ->
  (v = false -> mapped b (Z.of_nat (length bs)) s) ->
  ends (UserWrite b k bs v) s (fun ok s' => frame (inside b (Z.of_nat (length bs))) s s' /\
    kheap s' = kheap s /\ knext s' = knext s /\ env s' = env s /\
    (ok = false -> s' = s) /\ (ok = true ->
       forall i, (i < length bs)%nat -> umem s' !! (b + Z.of_nat i) = bs !! i) /\
    (ok = false -> v = false -> b = 0 \/ k = 0 \/ bs = [])).
Proof.
  intros Hb Hw Hm. unfold UserWrite. cbv zeta. apply ends_if; intros Hz; [ego|].
  { split_and!; try done. intros _ _. rewrite !orb_true_iff in Hz.
    destruct Hz as [[?|?]|?]; zb; [tauto|tauto|]. destruct bs; [tauto|cbn in *; lia]. }
  assert (Hmap : forall ok, (if v then ValidateWrite b (Z.of_nat (length bs)) (umem s) (env s) = Some ok else ok = true) ->
    ok = true -> mapped b (Z.of_nat (length bs)) s).
  { intros ok Hv ->. destruct v; [|by apply Hm]. intros a Ha. by eapply write_valid. }
  apply ends_bind. eapply (ends_mono _ _ (fun ok s' => s' = s /\ if v then ValidateWrite b (Z.of_nat (length bs)) (umem s) (env s) = Some ok else ok = true)).
  { destruct v; [by apply ends_write|by apply ends_ret]. }
  intros ok s' [-> Hv]. destruct ok; cbn [negb]; [|ego; split_and!; try done; by intros _ ->].
  ego. eapply ends_mono; [apply user_store_ends; [done|done|by eapply Hmap]|].
  intros ? s' (Hf & Hk & Hn & He & Hbs). ego. by split_and!.
Qed.

(** ** Kernel buffers *)

(** A handler may only change user memory in [R]; the kernel buffers are as before. *)
Definition tidy (R : Z -> Prop) (s s' : state E) : Prop :=
  frame R s s' /\ kheap s' = kheap s /\ heap_ok s'.

(** The same while it holds the buffer [p]. *)
Definition holding (p : Z) (R : Z -> Prop) (s s' : state E) : Prop :=
  0 < p /\ p ∉ kheap s /\ frame R s s' /\ kheap s' = {[p]} ∪ kheap s /\ heap_ok s'.

Lemma tidy_refl R s : heap_ok s -> tidy R s s.
Proof. intros H1. unfold tidy. by split_and!. Qed.

Lemma tidy_env R s e : heap_ok s -> tidy R s (set_env e s).
Proof. intros H1. unfold tidy. by split_and!. Qed.

Lemma tidy_trans R s1 s2 s3 : tidy R s1 s2 -> tidy R s2 s3 -> tidy R s1 s3.
Proof. intros (F1 & K1 & _) (F2 & K2 & O2). unfold tidy. split_and!; [by transitivity s2|congruence|done]. Qed.

Lemma holding_step p R s s1 s2 : holding p R s s1 -> frame R s1 s2 -> kheap s2 = kheap s1 ->
  knext s2 = knext s1 -> holding p R s s2.
Proof.
  intros (Hp & Hn & Hf & Hk & Ho) F K N. unfold holding. split_and!; [done|done|by transitivity s1|congruence|].
  unfold heap_ok in *. by rewrite K, N.
Qed.

Lemma env_call_ends {A} (f : E -> A * E) s (Q : A -> state E -> Prop) :
  (forall a e, f (env s) = (a, e) -> Q a (set_env e s)) -> ends (call f) s Q.
Proof. intros HQ. unfold call. destruct (f (env s)) as [a e] eqn:Ef. eapply ends_eq; [by rewrite Ef|auto]. Qed.

Lemma new_ends R n s (Q : Z -> state E -> Prop) : heap_ok s ->
  (can_alloc n (env s) = false -> Q 0 s) ->
  (forall p s', p <> 0 -> env s' = env s -> umem s' = umem s -> holding p R s s' -> Q p s') ->
  ends (new n) s Q.
Proof.
  intros [Hk Hlt] G0 G1. unfold new. destruct (can_alloc n (env s)) eqn:Ea; [|eapply ends_eq; [by rewrite Ea|auto]].
  eapply ends_eq; [by rewrite Ea|]. apply G1; [lia|done|done|]. unfold holding. split_and!; try done.
  - intros Hin. apply Hlt in Hin. lia.
  - split; cbn; [lia|]. intros p Hp. apply elem_of_union in Hp as [->%elem_of_singleton|Hp]; [lia|].
    apply Hlt in Hp. lia.
Qed.

Lemma delete_ends R p s s1 (Q : unit -> state E -> Prop) : holding p R s s1 ->
  (forall s2, umem s2 = umem s1 -> env s2 = env s1 -> tidy R s s2 -> Q tt s2) -> ends (delete p) s1 Q.
Proof.
  intros (Hp & Hn & Hf & Hk & Ho) HQ. eapply ends_eq.
  { unfold delete. rewrite (proj2 (Z.eqb_neq p 0)) by lia. by rewrite decide_True by (rewrite Hk; set_solver). }
  apply HQ; try done.
  unfold tidy. split_and!; cbn; [|rewrite Hk; set_solver|].
  - etransitivity; [exact Hf|]. by apply frame_same.
  - destruct Ho as [O1 O2]. split; cbn; [done|]. intros q Hq. apply O2. set_solver.
Qed.

Lemma delete_null_ends s (Q : unit -> state E -> Prop) : Q tt s -> ends (delete 0) s Q.
Proof. intros HQ. by eapply ends_eq. Qed.

(** A bad descriptor ends a handler at once. *)
Lemma open_fd_ends fd k s (Q : Z -> state E -> Prop) :
  (fd_Get fd (env s) = 0 \/ desc_isOpen (fd_Get fd (env s)) (env s) = false -> Q (- EBADF) s) ->
  (fd_Get fd (env s) <> 0 -> desc_isOpen (fd_Get fd (env s)) (env s) = true ->
    ends (k (fd_Get fd (env s))) s Q) ->
  ends (open_fd fd k) s Q.
Proof.
  intros G0 G1. unfold open_fd, ask. ego. apply ends_if; intros Hd; zb; [ego; auto|].
  ego. apply ends_if; intros Ho; [ego; apply negb_true_iff in Ho; auto|].
  apply negb_false_iff in Ho. auto.
Qed.

(** ** The handlers *)

(** [sys_read], case by case. *)
Definition read_result (fd buf count : Z) (s : state E) (rc : Z) (s' : state E) : Prop :=
  if count =? 0 then rc = - EINVAL /\ s' = s else
  if negb (HasFDManager (env s)) then rc = - ENOSYS /\ s' = s else
  if negb (default false (ValidateWrite buf count (umem s) (env s))) then rc = - EFAULT /\ s' = s else
  if (fd_Get fd (env s) =? 0) || negb (desc_isOpen (fd_Get fd (env s)) (env s)) then rc = - EBADF /\ s' = s else
  let '(r, bytes, e') := desc_Read (fd_Get fd (env s)) count (env s) in
  env s' = e' /\ rc = (if r <? 0 then r else Z.of_nat (length bytes)) /\
  forall i, buf <> 0 -> (i < length bytes)%nat -> umem s' !! (buf + Z.of_nat i) = bytes !! i.

Lemma sys_read_ends fd buf count s : heap_ok s -> 0 <= buf -> 0 <= count -> buf + count < W64 ->
  can_alloc count (env s) = true ->
  ends (sys_read fd buf count) s (fun rc s' =>
    tidy (inside buf count) s s' /\ read_result fd buf count s rc s').
Proof.
  intros Hok Hb Hc Hw Ha. unfold sys_read, read_result, ask.
  destruct (count =? 0) eqn:Ec; zb; [ego; by split; [apply tidy_refl|]|].
  ego. destruct (HasFDManager (env s)); cbn [negb]; [|ego; by split; [apply tidy_refl|]].
  apply ends_bind, ends_write. intros ok Ev. rewrite Ev. cbn [default from_option id].
  destruct ok; cbn [negb]; [|ego; by split; [apply tidy_refl|]].
  apply open_fd_ends.
  { intros Hbad. split; [by apply tidy_refl|].
    destruct Hbad as [->| ->]; [done|]. by rewrite orb_true_r. }
  intros Hd Ho. rewrite (proj2 (Z.eqb_neq _ _) Hd), Ho. cbn [orb negb].
  apply ends_bind, (new_ends (inside buf count)); [done|congruence|].
  intros p s1 Hp He Hu Hh. rewrite (proj2 (Z.eqb_neq p 0) Hp). apply ends_bind, env_call_ends.
  intros [r bytes] e' Hread. rewrite He in Hread. rewrite Hread.
  pose proof (read_count _ _ _ _ _ _ Hread Hc) as Hlen.
  apply ends_bind. eapply ends_mono; [apply UserWrite_ends; [done|lia|]|].
  { intros _ a [Ha1 Ha2]. cbn. rewrite Hu. eapply write_valid; [exact Ev|done|lia|]. split; lia. }
  intros ok s2 (Hf & Hk & Hn & He2 & _ & Hok2 & Hbad). apply ends_bind, (delete_ends (inside buf count) p s).
  { eapply holding_step; [exact Hh| |done|done].
    eapply frame_mono; [|exact Hf]. intros a [Ha1 Ha2]. split; lia. }
  intros s3 Hu3 He3 Ht3. ego. split; [done|]. split; [by rewrite He3, He2|]. split; [done|].
  intros i Hb0 Hi. rewrite Hu3. destruct ok; [by apply Hok2|].
  destruct (Hbad eq_refl eq_refl) as [?|[?| ->]]; [lia|lia|cbn in Hi; lia].
Qed.

(** [sys_read] does not test its allocation: without memory it ends as before or
    goes on through the null pointer. *)
Lemma sys_read_no_memory fd buf count s : heap_ok s -> can_alloc count (env s) = false ->
  match sys_read fd buf count s with
  | Ok (_, s') => tidy (inside buf count) s s'
  | Fail f => f = OutOfFuel /\ can_hang \/ f = NullDereference
  end.
Proof.
  intros Hok Ha. pose proof (tidy_refl (inside buf count) s Hok) as Ht. unfold sys_read, ask. destruct (count =? 0); [done|].
  unfold bind at 1. unfold gets at 1. destruct (negb _); [done|]. unfold bind at 1, validate.
  destruct (ValidateWrite buf count (umem s) (env s)) as [ok|] eqn:Ev.
  2: { left. split; [done|]. exists buf, count, (umem s), (env s). by right. }
  destruct (negb ok); [done|]. unfold open_fd, ask, bind, gets. destruct (_ =? 0); [done|]. destruct (negb _); [done|].
  unfold new. rewrite Ha. by right.
Qed.

(** Early returns. *)
Ltac early := cbn [Z.eqb]; ego; by apply tidy_refl.

Lemma sys_write_ends fd buf count s : heap_ok s -> 0 <= buf -> 0 <= count -> buf + count < W64 ->
  ends (sys_write fd buf count) s (fun _ => tidy (fun _ => False) s).
Proof.
  intros Hok Hb Hc Hw. unfold sys_write, ask.
  apply ends_if; intros Ec; [early|]. ego. apply ends_if; intros _; [early|].
  apply open_fd_ends; [intros _; by apply tidy_refl|].
  intros Hd Ho. apply ends_bind, (new_ends (fun _ => False)); [done| |].
  - intros _. apply ends_bind. eapply ends_mono; [by apply UserRead_ends|].
    intros o s' (-> & Ho'). destruct o as [bs|]; [apply ends_bind, env_call_ends; intros [r n] e' _|];
      apply ends_bind, delete_null_ends; [ego; by apply tidy_env|early].
  - intros p s1 Hp He Hu Hh. apply ends_bind. eapply ends_mono; [by apply UserRead_ends|].
    intros o s' (-> & _). destruct o as [bs|]; [apply ends_bind, env_call_ends; intros [r n] e' _|];
      apply ends_bind, (delete_ends (fun _ => False) p s); try (intros s3 _ _ Ht; by ego); [|exact Hh].
    by eapply holding_step; [exact Hh|apply frame_same| |].
Qed.

(** A validated write, alone and while a buffer is held. *)
Lemma write_tidy (R : Z -> Prop) b k bs s : heap_ok s -> 0 <= b -> b + Z.of_nat (length bs) < W64 ->
  (forall a, inside b (Z.of_nat (length bs)) a -> R a) ->
  ends (UserWrite b k bs true) s (fun _ => tidy R s).
Proof.
  intros Hok Hb Hw HR. eapply ends_mono; [by apply UserWrite_ends|].
  intros ok s' (Hf & Hk & Hn & _). split; [by eapply frame_mono|]. split; [done|].
  unfold heap_ok in *. by rewrite Hk, Hn.
Qed.

Lemma write_holding p (R : Z -> Prop) b k bs s s1 : holding p R s s1 -> 0 <= b -> b + Z.of_nat (length bs) < W64 ->
  (forall a, inside b (Z.of_nat (length bs)) a -> R a) ->
  ends (UserWrite b k bs true) s1 (fun _ => holding p R s).
Proof.
  intros Hh Hb Hw HR. eapply ends_mono; [by apply UserWrite_ends|].
  intros ok s' (Hf & Hk & Hn & _). eapply holding_step; [exact Hh|by eapply frame_mono|done|done].
Qed.

Lemma length_bytes_of n v : length (bytes_of n v) = n.
Proof. revert v. induction n as [|n IH]; intros v; cbn; [done|]. by rewrite IH. Qed.

Lemma sys_getdents_ends rest fd buf maxRead bytesRead s : heap_ok s -> 0 <= buf -> 0 <= maxRead ->
  buf + maxRead < W64 -> 0 <= bytesRead -> bytesRead + 8 < W64 ->
  ends (sys_getdents rest fd buf maxRead bytesRead) s (fun _ =>
    tidy (fun a => inside buf maxRead a \/ inside bytesRead 8 a) s).
Proof.
  intros Hok Hb Hm Hw Hr Hw8. unfold sys_getdents, ask.
  ego. apply ends_if; intros _; [early|]. apply open_fd_ends; [intros _; by apply tidy_refl|].
  intros Hd Ho. cbv zeta. apply ends_if; intros Ec; [early|].
  assert (Hcount : DENTRY_SIZE * (maxRead / DENTRY_SIZE) <= maxRead) by (apply Z.mul_div_le; done).
  apply ends_bind, (new_ends (fun a => inside buf maxRead a \/ inside bytesRead 8 a)); [done|intros _; early|].
  intros p s1 Hp He Hu Hh. rewrite (proj2 (Z.eqb_neq p 0) Hp). apply ends_bind, env_call_ends.
  intros [rc entries] e' _. eapply (holding_step _ _ _ _ (set_env e' s1)) in Hh; [|by apply frame_same|done|done].
  apply ends_if; intros _; [apply ends_bind, (delete_ends _ _ _ _ _ Hh); intros s2 _ _ Ht; by ego|].
  set (bytes := take _ _). assert (Hlen : Z.of_nat (length bytes) <= maxRead).
  { pose proof (Z.div_pos maxRead DENTRY_SIZE Hm ltac:(done)). unfold bytes. rewrite length_take. lia. }
  apply ends_bind. eapply ends_mono; [apply (write_holding _ _ _ _ _ _ _ Hh); [done|lia|]|].
  { intros a [Ha1 Ha2]. left. split; lia. }
  intros ok1 s2 Hh2. cbv beta in Hh2. apply ends_bind.
  eapply ends_mono; [apply (write_holding _ _ _ _ _ _ _ Hh2); try rewrite length_bytes_of; [done|lia|by right]|].
  intros ok2 s3 Hh3. cbv beta in Hh3. apply ends_bind, (delete_ends _ _ _ _ _ Hh3). intros s4 _ _ Ht. by ego.
Qed.

Lemma sys_getcwd_ends buf size s : heap_ok s -> 0 <= buf -> 0 <= size -> buf + size < W64 ->
  ends (sys_getcwd buf size) s (fun _ => tidy (inside buf size) s).
Proof.
  intros Hok Hb Hn Hw. unfold sys_getcwd. apply ends_if; intros _; [early|].
  apply ends_bind, ends_write. intros ok0 Ev. destruct ok0; cbn [negb]; [|early].
  apply ends_bind, (new_ends (inside buf size)); [done|intros _; early|].
  intros p s1 Hp He Hu Hh. rewrite (proj2 (Z.eqb_neq p 0) Hp). apply ends_bind, env_call_ends.
  intros [rc bytes] e' Hpath. eapply (holding_step _ _ _ _ (set_env e' s1)) in Hh; [|by apply frame_same|done|done].
  apply ends_if; intros Hrc; [apply ends_bind, (delete_ends _ _ _ _ _ Hh); intros s2 _ _ Ht; by ego|]. zb.
  pose proof (path_fills _ _ _ _ _ Hpath Hn ltac:(lia)) as Hlen.
  apply ends_bind. eapply ends_mono; [apply UserWrite_ends; [done|lia|]|].
  { intros _ a Ha. cbn. rewrite Hu, Hlen in *. eapply write_valid; [exact Ev|done|lia|done]. }
  intros ok s2 (Hf & Hk & Hn2 & _). rewrite Hlen in Hf.
  apply ends_bind, (delete_ends (inside buf size) p s); [by eapply holding_step|]. intros s4 _ _ Ht. by ego.
Qed.

(** ** Opening and closing *)

Lemma holding_tidy p R s s1 s2 : holding p R s s1 -> tidy R s1 s2 -> holding p R s s2.
Proof.
  intros (Hp & Hn & Hf & Hk & Ho) (F & K & O). unfold holding.
  split_and!; [done|done|by transitivity s1|congruence|done].
Qed.

Lemma holding_env p R s s1 e : holding p R s s1 -> holding p R s (set_env e s1).
Proof. intros Hh. by eapply holding_step; [exact Hh|apply frame_same| |]. Qed.

(** Freeing the older of two buffers. *)
Lemma delete_older_ends R p q s s1 s2 (Q : unit -> state E -> Prop) : holding p R s s1 -> holding q R s1 s2 ->
  (forall s3, holding q R s s3 -> Q tt s3) -> ends (delete p) s2 Q.
Proof.
  intros (Hp & Hn & Hf & Hk & Ho) (Hq & Hn2 & Hf2 & Hk2 & Ho2) HQ. eapply ends_eq.
  { unfold delete. rewrite (proj2 (Z.eqb_neq p 0)) by lia. by rewrite decide_True by (rewrite Hk2, Hk; set_solver). }
  assert (q <> p) by (intros ->; set_solver).
  apply HQ. unfold holding. split_and!; [done|set_solver| |cbn; rewrite Hk2, Hk; set_solver|].
  - transitivity s1; [done|]. transitivity s2; [done|]. by apply frame_same.
  - destruct Ho2 as [O1 O2]. split; cbn; [done|]. intros r Hr. apply O2. set_solver.
Qed.

Lemma open_node_ends path flags s : ends (open_node path flags) s (fun node s' =>
  (exists e, s' = set_env e s) /\ (forall rc, node = inl rc -> rc < 0)).
Proof.
  unfold open_node. cbv zeta. apply ends_bind, env_call_ends. intros [rc vnode] e1 _.
  apply ends_if; intros Hrc; [ego; split; [by exists e1|done]|]. apply negb_false_iff in Hrc. zb.
  apply ends_if; intros _; [|ego; split; [by exists e1|congruence]].
  apply ends_if; intros _; [ego; split; [by exists e1|by intros ? [= <-]]|].
  destruct (match split_last (cstr path) with Some pn => pn | None => ([], cstr path) end) as [parent name].
  apply ends_bind, env_call_ends. intros rc2 e2 _. apply ends_if; intros Hrc2; zb; [ego; split; [by exists e2|congruence]|].
  apply ends_bind, env_call_ends. intros [rc3 v3] e3 _.
  apply ends_if; intros Hrc3; zb; ego; (split; [by exists e3|congruence]).
Qed.

(** An object made and kept, if [kept]; else none. *)
Definition one_more (s s' : state E) : Prop := exists p, holding p (fun _ => False) s s'.

Definition open_result (s : state E) (rc : Z) (s' : state E) : Prop :=
  if 0 <=? rc then one_more s s'
  else tidy (fun _ => False) s s' \/ ((rc = - ENOSYS \/ rc = - ENOTDIR) /\ one_more s s').

Lemma open_failed s rc s' : rc < 0 -> tidy (fun _ => False) s s' -> open_result s rc s'.
Proof. intros Hrc Ht. unfold open_result. rewrite (proj2 (Z.leb_gt 0 rc) Hrc). by left. Qed.

Lemma open_desc_ends p vnode flags s s1 : holding p (fun _ => False) s s1 ->
  ends (open_desc p vnode flags) s1 (open_result s).
Proof.
  intros Hh. unfold open_desc, ask, tell. ego. apply ends_if; intros _.
  { apply ends_bind, env_call_ends. intros rc e _. ego. right. split; [by left|]. exists p. by apply holding_env. }
  apply ends_if; intros _.
  { apply ends_bind, env_call_ends. intros rc e _. ego. right. split; [by right|]. exists p. by apply holding_env. }
  apply ends_bind, (new_ends (fun _ => False)); [apply Hh| |].
  { intros _. cbn [Z.eqb]. apply ends_bind, env_call_ends. intros rc e _.
    apply ends_bind, (delete_ends _ _ _ _ _ (holding_env _ _ _ _ e Hh)). intros s2 _ _ Ht. ego. by apply open_failed. }
  intros q s2 Hq _ _ Hh2. rewrite (proj2 (Z.eqb_neq q 0) Hq). ego. apply env_call_ends. intros rc e2 _.
  eapply (holding_env _ _ _ _ e2) in Hh2. apply ends_if; intros Hrc; zb.
  { apply ends_bind, (delete_ends _ _ _ _ _ Hh2). intros s3 _ _ Ht. apply ends_bind, env_call_ends. intros rc3 e3 _.
    apply ends_bind, (delete_ends _ _ _ _ _ (holding_env _ _ _ _ e3 (holding_tidy _ _ _ _ _ Hh Ht))).
    intros s4 _ _ Ht4. ego. by apply open_failed. }
  apply ends_bind, env_call_ends. intros fd e3 _. eapply (holding_env _ _ _ _ e3) in Hh2.
  apply ends_bind, ends_if; intros Hfd; zb.
  - ego. apply (delete_ends (fun _ => False) q s1). { eapply holding_env, Hh2. }
    intros s3 _ _ Ht. ego. apply env_call_ends. intros rc4 e4 _. ego.
    apply (delete_ends _ _ _ _ _ (holding_env _ _ _ _ e4 (holding_tidy _ _ _ _ _ Hh Ht))).
    intros s4 _ _ Ht4. ego. by apply open_failed.
  - ego. apply (delete_older_ends _ _ _ _ _ _ _ Hh Hh2). intros s3 Hh3. ego.
    unfold open_result. rewrite (proj2 (Z.leb_le 0 fd)) by lia. by exists q.
Qed.

Lemma sys_open_ends path pathLen flags s : heap_ok s -> 0 <= path -> 0 <= pathLen -> path + pathLen < W64 ->
  ends (sys_open path pathLen flags) s (open_result s).
Proof.
  intros Hok Hb Hn Hw. unfold sys_open, ask. ego.
  apply ends_if; intros _; [ego; by apply open_failed, tidy_refl|].
  apply ends_bind, (new_ends (fun _ => False)); [done|intros _; cbn [Z.eqb]; ego; by apply open_failed, tidy_refl|].
  intros p s1 Hp _ _ Hh. rewrite (proj2 (Z.eqb_neq p 0) Hp).
  apply ends_bind. eapply ends_mono; [by apply UserRead_ends|]. intros o s' (-> & _).
  destruct o as [bytes|].
  2:{ apply ends_bind, (delete_ends _ _ _ _ _ Hh). intros s2 _ _ Ht. ego. by apply open_failed. }
  apply ends_bind. eapply ends_mono; [apply open_node_ends|]. intros node s' [[e ->] Hrc].
  apply (holding_env _ _ _ _ e) in Hh. destruct node as [rc|vnode]; [|by apply open_desc_ends].
  apply ends_bind, (delete_ends _ _ _ _ _ Hh). intros s2 _ _ Ht. ego. apply open_failed; auto.
Qed.

(** The table holds live descriptors. *)
Definition live_table (s : state E) : Prop :=
  forall fd d e, fd_Free fd (env s) = (d, e) -> d <> 0 -> 0 < d /\ d ∈ kheap s.

Lemma sys_close_ends fd s : heap_ok s -> live_table s ->
  ends (sys_close fd) s (fun rc s' => frame (fun _ => False) s s' /\ heap_ok s' /\
    (kheap s' = kheap s \/ rc = ESUCCESS /\ exists d, d ∈ kheap s /\ kheap s' = kheap s ∖ {[d]})).
Proof.
  intros Hok Hl. unfold sys_close, ask, tell. ego. apply ends_if; intros _; [by ego; split_and!; try done; left|].
  apply ends_bind, env_call_ends. intros d e Hd. apply ends_if; intros Hz; zb; [by ego; split_and!; try done; left|].
  destruct (Hl _ _ _ Hd Hz) as [Hpos Hin]. ego. apply ends_if; intros _; [by ego; split_and!; try done; left|].
  ego. apply ends_if; intros _; [by ego; split_and!; try done; left|]. ego.
  apply ends_if; intros _; [by ego; split_and!; try done; left|].
  apply ends_bind, env_call_ends. intros rc e2 _. apply ends_if; intros _; [by ego; split_and!; try done; left|].
  apply ends_bind. eapply ends_eq.
  { unfold delete. rewrite (proj2 (Z.eqb_neq d 0)) by lia. cbn. by rewrite decide_True. }
  ego. split_and!; [done| |right; split; [done|]; by exists d].
  destruct Hok as [O1 O2]. split; cbn; [done|]. intros r Hr. apply O2. set_solver.
Qed.

(** ** The other handlers *)

Lemma sys_seek_ends fd offset whence s : heap_ok s ->
  ends (sys_seek fd offset whence) s (fun _ => tidy (fun _ => False) s).
Proof.
  intros Hok. unfold sys_seek, ask. apply ends_if; intros _; [early|]. ego. apply ends_if; intros _; [early|].
  apply open_fd_ends; [intros _; by apply tidy_refl|]. intros Hd Ho. cbv zeta. apply ends_bind, env_call_ends.
  intros [rc off] e _. apply ends_if; intros _; ego; by apply tidy_env.
Qed.

Lemma sys_isatty_ends fd s : heap_ok s -> ends (sys_isatty fd) s (fun _ => tidy (fun _ => False) s).
Proof.
  intros Hok. unfold sys_isatty, ask. ego. apply ends_if; intros _; [early|].
  apply open_fd_ends; [intros _; by apply tidy_refl|]. intros Hd Ho. ego. apply ends_if; intros _; early.
Qed.

Lemma sys_mmap_ends addr len prot flags args s : heap_ok s -> 0 <= args -> args + 12 < W64 ->
  ends (sys_mmap addr len prot flags args) s (fun _ => tidy (fun _ => False) s).
Proof.
  intros Hok Ha Hw. unfold sys_mmap, ask. apply ends_if; intros _; [early|]. apply ends_if; intros _; [early|]. ego.
  apply ends_if; intros _; [early|]. apply ends_bind. eapply ends_mono; [by apply UserRead_ends|].
  intros o s' (-> & _). destruct o as [kArgs|]; [|early]. cbv zeta. apply ends_if; intros _.
  { apply ends_bind, env_call_ends. intros mem e _. apply ends_if; intros _; ego; by apply tidy_env. }
  ego. apply ends_if; intros _; [early|]. ego. apply ends_if; intros _; [early|]. ego.
  apply ends_if; intros _; [early|]. ego. apply ends_if; intros _; [early|].
  apply ends_bind, env_call_ends. intros [rc mem] e _. apply ends_if; intros _; ego; by apply tidy_env.
Qed.

Lemma sys_munmap_ends addr len s : heap_ok s -> ends (sys_munmap addr len) s (fun _ => tidy (fun _ => False) s).
Proof.
  intros Hok. unfold sys_munmap, ask. apply ends_if; intros _; [early|]. ego. apply ends_if; intros _; [early|].
  apply ends_bind, env_call_ends. intros ok e _. ego. by apply tidy_env.
Qed.

Lemma sys_mprotect_ends addr size prot s : heap_ok s ->
  ends (sys_mprotect addr size prot) s (fun _ => tidy (fun _ => False) s).
Proof.
  intros Hok. unfold sys_mprotect, ask. apply ends_if; intros _; [early|]. apply ends_if; intros _; [early|].
  ego. apply ends_if; intros _; [early|]. apply ends_bind, env_call_ends. intros ok e _. ego. by apply tidy_env.
Qed.

Lemma sys_settcb_ends base s : heap_ok s -> ends (sys_settcb base) s (fun _ => tidy (fun _ => False) s).
Proof.
  intros Hok. unfold sys_settcb, ask, tell. ego. apply ends_if; intros _; [early|]. apply ends_bind, ends_read. intros ok _.
  apply ends_if; intros _; [early|]. ego. by apply tidy_env.
Qed.

Lemma write_ids_ends p ids s : heap_ok s -> 0 <= p -> p + 24 < W64 ->
  ends (write_ids p ids) s (fun _ => tidy (inside p 24) s).
Proof.
  intros Hok Hp Hw. destruct ids as [[a b] c]. unfold write_ids. apply ends_bind. eapply ends_mono.
  - apply (write_tidy (inside p 24)); rewrite ?length_app, ?length_bytes_of; done.
  - intros ok s' Ht. ego. done.
Qed.

Lemma sys_clockget_ends clock time s : heap_ok s -> 0 <= time -> time + 16 < W64 ->
  ends (sys_clockget clock time) s (fun _ => tidy (inside time 16) s).
Proof.
  intros Hok Hp Hw. unfold sys_clockget, ask. cbv zeta.
  assert (Hfin : forall x y, ends (let* ok := UserWrite time 1 (bytes_of 8 x ++ bytes_of 8 y) true in
     ret (if ok : bool then ESUCCESS else - EFAULT)) s (fun _ => tidy (inside time 16) s)).
  { intros x y. apply ends_bind. eapply ends_mono.
    - apply (write_tidy (inside time 16)); rewrite ?length_app, ?length_bytes_of; done.
    - intros ok s' Ht. ego. done. }
  apply ends_if; intros _; [ego; apply ends_if; intros _; [early|apply Hfin]|].
  apply ends_if; intros _; [apply ends_bind, ends_gets, Hfin|early].
Qed.

(** ** Every call *)

(** Where a call may write. *)
Definition may_write (num a1 a2 a3 a4 a : Z) : Prop :=
  match num with
  | 3 => inside a2 a3 a
  | 13 | 14 => inside a1 24 a
  | 15 => inside a2 16 a
  | 17 => inside a2 a3 a \/ inside a4 8 a
  | 21 => inside a1 a2 a
  | _ => False
  end.

(** The buffers of a call end below the top of the address space. *)
Definition no_wrap (num a1 a2 a3 a4 a5 : Z) : bool :=
  match num with
  | 1 | 21 => a1 + a2 <? W64
  | 3 | 4 => a2 + a3 <? W64
  | 6 => a5 + 12 <? W64
  | 13 | 14 => a1 + 24 <? W64
  | 15 => a2 + 16 <? W64
  | 17 => (a2 + a3 <? W64) && (a4 + 8 <? W64)
  | _ => true
  end.

(** Calls that are handled here. *)
Definition served (num : Z) : bool := (0 <? num) && negb ((18 <=? num) && (num <=? 20)).

(** What a call leaves: user memory outside its buffers, and the kernel objects; [sys_open] may add one
    and [sys_close] remove one. *)
Definition call_result (num a1 a2 a3 a4 : Z) (s : state E) (rc : Z) (s' : state E) : Prop :=
  frame (may_write num a1 a2 a3 a4) s s' /\ heap_ok s' /\
  match num with
  | 1 => open_result s rc s'
  | 2 => kheap s' = kheap s \/ rc = ESUCCESS /\ exists d, d ∈ kheap s /\ kheap s' = kheap s ∖ {[d]}
  | _ => kheap s' = kheap s
  end.

Lemma result_of_tidy num a1 a2 a3 a4 m s : num <> 1 -> num <> 2 ->
  ends m s (fun _ => tidy (may_write num a1 a2 a3 a4) s) -> ends m s (call_result num a1 a2 a3 a4 s).
Proof.
  intros N1 N2 Hm. eapply ends_mono; [exact Hm|]. intros rc s' (F & K & O). unfold call_result. split_and!; [done..|].
  destruct num as [|[[]|[]|]|]; done || lia.
Qed.

Lemma open_result_frame s rc s' : open_result s rc s' -> frame (fun _ => False) s s' /\ heap_ok s'.
Proof.
  unfold open_result, one_more, tidy, holding. destruct (0 <=? rc); [naive_solver|].
  intros [?|[_ ?]]; naive_solver.
Qed.


(** [sys_read], case by case. A zero count is EINVAL, a process without descriptors ENOSYS, a buffer
    that cannot be written EFAULT and a descriptor that is not open EBADF, tested in this order and with
    nothing changed. Otherwise the descriptor is read from, the bytes it gave are in the user's buffer, and
    the result is their number, or the error that came with them; memory outside the buffer and the kernel's
    objects are as before. *)
Theorem sys_read_spec other rest fd buf count a4 a5 s : heap_ok s -> 0 <= buf -> 0 <= count ->
  buf + count < W64 -> can_alloc count (env s) = true ->
  ends (HandleSystemCall other rest 3 fd buf count a4 a5) s (fun rc s' =>
    tidy (inside buf count) s s' /\ read_result (i32 fd) buf count s rc s').
Proof. intros. by apply sys_read_ends. Qed.
End Spec.

(** ** A small kernel

    One descriptor, object 1, open on a file; the file is of a type that depends on the kernel. *)
Record demo : Type := mkDemo { contents : list Z; type : VType }.

Definition all_mapped (b n : Z) (m : gmap Z Z) : bool :=
  forallb (fun a => bool_decide (is_Some (m !! a))) (seqZ b n).

Lemma all_mapped_spec b n m a : all_mapped b n m = true -> inside b n a -> is_Some (m !! a).
Proof.
  unfold all_mapped. rewrite forallb_forall. intros Hall [Ha1 Ha2].
  specialize (Hall a). rewrite bool_decide_eq_true in Hall. apply Hall.
  apply list_elem_of_In, elem_of_seqZ. lia.
Qed.

#[export] Instance demo_env : Env demo := {
  HasFDManager _ := true;
  HasVMM _ := true;
  can_alloc _ _ := true;
  ValidateRead b n m _ := Some (all_mapped b n m);
  ValidateWrite b n m _ := Some (all_mapped b n m);
  AllocateAnonPages n a f e := (a, e);
  FreePages _ _ e := (true, e);
  RemapPages _ _ _ e := (true, e);
  fd_Get _ _ := 1;
  fd_Allocate _ e := (3, e);
  fd_Free _ e := (1, e);
  desc_init _ _ _ e := e;
  desc_isOpen _ _ := true;
  desc_GetType _ _ := FileDescriptor.File;
  desc_GetVNode _ _ := 5;
  desc_Open _ _ e := (0, e);
  desc_Close _ e := e;
  desc_Read _ n e := (0, take (Z.to_nat n) (contents e), mkDemo (drop (Z.to_nat n) (contents e)) (type e));
  desc_Write _ bs e := (0, Z.of_nat (length bs), e);
  desc_Seek _ o _ e := (0, o, e);
  desc_GetDents _ _ e := (0, [], e);
  VFS_Open _ e := (0, 5, e);
  VFS_Close _ e := (0, e);
  VFS_CreateFile _ _ e := (0, e);
  VFS_BuildPath n e := (0, replicate (Z.to_nat n) 0, e);
  VFS_MapFile a _ _ _ _ _ e := (0, a, e);
  vnode_GetType _ e := type e;
  GetUnixEpochTime _ := 1700000000;
  GetNSTicks _ := 0;
  GetPID _ := 1;
  GetPPID _ := 0;
  GetUIDs _ := (0, 0, 0);
  GetGIDs _ := (0, 0, 0);
  SetFSBase _ e := e
}.

#[export] Instance demo_laws : Laws demo.
Proof.
  split; cbn.
  - intros b n m e [= Hv] _ _ a. by apply all_mapped_spec.
  - intros b n m e [= Hv] _ _ a. by apply all_mapped_spec.
  - intros d n e r bs e' [= <- <- <-] Hn. rewrite length_take. lia.
  - intros n e r bs e' [= <- <- <-] Hn _. rewrite length_replicate. lia.
Qed.

(** [n] zero bytes of user memory from [a]. *)
Definition zeroes (a : Z) (n : Z) : gmap Z Z := list_to_map ((fun x => (x, 0)) <$> seqZ a n).
Definition demo_state (t : VType) (n : Z) : state demo := mkState (zeroes 100 n) {[1]} 2 (mkDemo [7; 8; 9] t).

Lemma demo_heap_ok t n : heap_ok (demo_state t n).
Proof. split; cbn; [lia|]. intros p ->%elem_of_singleton. lia. Qed.

Lemma demo_live t n : live_table (demo_state t n).
Proof. intros fd d e [= <- <-] _. split; [lia|]. cbn. set_solver. Qed.


Lemma sys_read_spec_witness :
  ends (HandleSystemCall (fun _ _ _ _ _ _ => ret 0) [] 3 0 100 2 0 0) (demo_state REG 2) (fun rc s' =>
    tidy (inside 100 2) (demo_state REG 2) s' /\ read_result (i32 0) 100 2 (demo_state REG 2) rc s').
Proof.
  exact (sys_read_spec (fun _ _ _ _ _ _ => ret 0) [] 0 100 2 0 0 (demo_state REG 2)
    (demo_heap_ok REG 2) ltac:(lia) ltac:(lia) ltac:(done) eq_refl).
Defined.

(** ** What the handlers do not do *)

(** [sys_open] of something that is neither a file nor a directory forgets the copy of the path. *)
Example open_forgets_path :
  match sys_open 100 2 0 (demo_state OTHER 2) with
  | Ok (rc, s') => rc = - ENOSYS /\ kheap s' = {[1; 2]}
  | Fail _ => False
  end.
Proof. split; reflexivity. Qed.

(** [sys_getdents] copies the entries that were not filled as well: 280 bytes of the kernel's heap, with no
    entry listed. *)
Example getdents_copies_unfilled :
  match sys_getdents (replicate 280 42) 0 100 280 400 (demo_state DIR 400) with
  | Ok (rc, s') => rc = ESUCCESS /\ umem s' !! 100 = Some 42 /\ umem s' !! 379 = Some 42 /\ umem s' !! 400 = Some 0
  | Fail _ => False
  end.
Proof. vm_compute. by split_and!. Qed.

(** The nanoseconds of the real-time clock are those of the whole time, not of the current second. *)
Example clockget_nsec :
  match sys_clockget CLOCK_REALTIME 100 (demo_state REG 16) with
  | Ok (rc, s') => (fun i => default 0 (umem s' !! (108 + i))) <$> seqZ 0 8 = bytes_of 8 1700000000000000000
  | Fail _ => False
  end.
Proof. vm_compute. reflexivity. Qed.

(** [sys_mmap] accepts a negative protection. *)
Example mmap_negative_prot :
  match sys_mmap 4096 1 (-1) (Z.lor MAP_ANONYMOUS MAP_PRIVATE) 100 (demo_state REG 12) with
  | Ok (rc, _) => rc = 4096
  | Fail _ => False
  end.
Proof. vm_compute. reflexivity. Qed.
End SystemCallsSpec.
