(* ===== verification/CLib.v ===== *)
(** * CLib.v: the C library of the kernel (src/kernel/lib/src: string.c, stdlib.c, util.c, math.c)

    Memory is the map of the bytes that can be accessed; any other access is a
    fault ([Fail InvalidAccess]). [char] is signed. A loop over a string reads a new
    address in every round, so that the number of accessible bytes bounds its rounds;
    it is the fuel of these loops.

    Shown: the length of a string, copying and comparing strings, the last occurrence
    of a character, and that [memmove] moves bytes whatever the overlap. *)

From S2P Require Import Prelude.

#[local] Open Scope Z_scope.

Module CLib.

Notation mem := (gmap Z Z).

Definition load (p : Z) : M mem Z := fun m =>
  match m !! p with Some b => Ok (b, m) | None => Fail InvalidAccess end.
Definition store (p b : Z) : M mem unit := fun m =>
  match m !! p with Some _ => Ok (tt, <[p := b]> m) | None => Fail InvalidAccess end.

(** Rounds that the loop of a string function can make. *)
Definition rounds : M mem nat := gets (fun m => S (size m)).

(** ** string.c *)

Fixpoint strlen_loop (fuel : nat) (str len : Z) : M mem Z :=
  match fuel with
  | O => fail OutOfFuel
  | S fuel' =>
      let* c := load (add64 str len) in
      if c =? 0 then ret len else strlen_loop fuel' str (add64 len 1)
  end.
Definition strlen (str : Z) : M mem Z := let* n := rounds in strlen_loop n str 0.

(** The character after the last one allowed is read as well. *)
Fixpoint strnlen_loop (fuel : nat) (str maxlen len : Z) : M mem Z :=
  match fuel with
  | O => fail OutOfFuel
  | S fuel' =>
      let* c := load (add64 str len) in
      if negb (c =? 0) && (len <? maxlen) then strnlen_loop fuel' str maxlen (add64 len 1) else ret len
  end.
Definition strnlen (str maxlen : Z) : M mem Z := let* n := rounds in strnlen_loop n str maxlen 0.

(** One character; its value in the source after the store. *)
Definition copy_char (dst src i : Z) : M mem Z :=
  let* c := load (add64 src i) in
  store (add64 dst i) c ;;;
  load (add64 src i).

Fixpoint strcpy_loop (fuel : nat) (dst src i : Z) : M mem unit :=
  match fuel with
  | O => fail OutOfFuel
  | S fuel' =>
      let* c := copy_char dst src i in
      if c =? 0 then ret tt else strcpy_loop fuel' dst src (add64 i 1)
  end.
Definition strcpy (dst src : Z) : M mem Z :=
  if (dst =? 0) || (src =? 0) then ret dst else
  let* n := rounds in strcpy_loop n dst src 0 ;;; ret dst.

(** [n] is what is left. *)
Fixpoint strncpy_loop (n : nat) (dst src i : Z) : M mem unit :=
  match n with
  | O => ret tt
  | S n' =>
      let* c := copy_char dst src i in
      if c =? 0 then ret tt else strncpy_loop n' dst src (add64 i 1)
  end.
Definition strncpy (dst src n : Z) : M mem Z :=
  if (dst =? 0) || (src =? 0) then ret 0 else
  strncpy_loop (Z.to_nat n) dst src 0 ;;; ret dst.

Fixpoint strcmp_loop (fuel : nat) (str1 str2 i : Z) : M mem Z :=
  match fuel with
  | O => fail OutOfFuel
  | S fuel' =>
      let* c1 := load (add64 str1 i) in
      let* c2 := load (add64 str2 i) in
      if negb (c1 =? c2) then ret (if i8 c2 <? i8 c1 then 1 else -1) else
      if c1 =? 0 then ret 0 else strcmp_loop fuel' str1 str2 (add64 i 1)
  end.
Definition strcmp (str1 str2 : Z) : M mem Z := let* n := rounds in strcmp_loop n str1 str2 0.

Fixpoint strncmp_loop (n : nat) (str1 str2 i : Z) : M mem Z :=
  match n with
  | O => ret 0
  | S n' =>
      let* c1 := load (add64 str1 i) in
      let* c2 := load (add64 str2 i) in
      if negb (c1 =? c2) then ret (if i8 c2 <? i8 c1 then 1 else -1) else
      strncmp_loop n' str1 str2 (add64 i 1)
  end.
Definition strncmp (str1 str2 n : Z) : M mem Z := strncmp_loop (Z.to_nat n) str1 str2 0.

Fixpoint strchr_loop (fuel : nat) (str character i : Z) : M mem Z :=
  match fuel with
  | O => fail OutOfFuel
  | S fuel' =>
      let* c := load (add64 str i) in
      if c =? 0 then ret 0 else
      if i8 c =? i8 character then ret (add64 str i) else strchr_loop fuel' str character (add64 i 1)
  end.
Definition strchr (str character : Z) : M mem Z :=
  if str =? 0 then ret str else let* n := rounds in strchr_loop n str character 0.

(** [last]: the last occurrence so far, if any. *)
Fixpoint strrchr_loop (fuel : nat) (str character i : Z) (last : option Z) : M mem Z :=
  match fuel with
  | O => fail OutOfFuel
  | S fuel' =>
      let* c := load (add64 str i) in
      if c =? 0 then ret (match last with Some l => add64 str l | None => 0 end) else
      strrchr_loop fuel' str character (add64 i 1) (if i8 c =? i8 character then Some i else last)
  end.
Definition strrchr (str character : Z) : M mem Z :=
  if str =? 0 then ret 0 else let* n := rounds in strrchr_loop n str character 0 None.

(** ** stdlib.c *)

(** The loop of the conversions, for a type given by its conversion [cast]. *)
Fixpoint number_loop (cast : Z -> Z) (fuel : nat) (str i value : Z) : M mem Z :=
  match fuel with
  | O => fail OutOfFuel
  | S fuel' =>
      let* c := load (add64 str i) in
      if c =? 0 then ret value else
      number_loop cast fuel' str (i32 (i + 1)) (cast (cast (value + (i8 c - 48)) * 10))
  end.
Definition signed_number (cast : Z -> Z) (str : Z) : M mem Z :=
  let* c := load str in
  let* n := rounds in
  if c =? 45 then let* value := number_loop cast n str 1 0 in ret (cast (- value))
  else number_loop cast n str 0 0.
Definition atoi (str : Z) : M mem Z := signed_number i32 str.
Definition atol (str : Z) : M mem Z := signed_number i64 str.
Definition strtol (str : Z) : M mem Z := atol str.
Definition strtoul (str : Z) : M mem Z := let* n := rounds in number_loop wrap64 n str 0 0.

(** The generator's state: the seed and the four words. *)
Record rng : Set := mkRng { rseed : Z; rx : Z; ry : Z; rz : Z; rw : Z }.
Definition rng0 : rng := mkRng 1 123456789 362436069 521288629 88675123.
Definition srand (s : Z) (r : rng) : rng := mkRng (u32 s) (rx r) (ry r) (rz r) (rw r).
Definition rand (r : rng) : Z * rng :=
  let x := u32 (rx r * u32 (23786259 - rseed r)) in
  let t := Z.lxor x (u32 (Z.shiftl x 11)) in
  let w := Z.lxor (Z.lxor (Z.lxor (rw r) (Z.shiftr (rw r) 19)) t) (Z.shiftr t 8) in
  (w, mkRng (rseed r) (ry r) (rz r) (rw r) w).

(** ** util.c and util.asm *)

(** [rep stosb], [rep movsb]: forwards. *)
Fixpoint memset_loop (n : nat) (d value : Z) : M mem unit :=
  match n with
  | O => ret tt
  | S n' => store d value ;;; memset_loop n' (add64 d 1) value
  end.
Definition memset (dst value n : Z) : M mem Z := memset_loop (Z.to_nat n) dst (value mod 256) ;;; ret dst.

Fixpoint memcpy_loop (n : nat) (d s : Z) : M mem unit :=
  match n with
  | O => ret tt
  | S n' => (let* b := load s in store d b) ;;; memcpy_loop n' (add64 d 1) (add64 s 1)
  end.
Definition memcpy (dst src n : Z) : M mem Z := memcpy_loop (Z.to_nat n) dst src ;;; ret dst.

(** Backwards: the rounds [i = n, ..., 1]. *)
Fixpoint memmove_loop (i : nat) (d s : Z) : M mem unit :=
  match i with
  | O => ret tt
  | S i' => (let* b := load (add64 s (Z.of_nat i')) in store (add64 d (Z.of_nat i')) b) ;;; memmove_loop i' d s
  end.
Definition memmove (dst src n : Z) : M mem Z :=
  if dst <? src then memcpy dst src n else memmove_loop (Z.to_nat n) dst src ;;; ret dst.

Fixpoint memcmp_loop (n : nat) (s1 s2 : Z) : M mem Z :=
  match n with
  | O => ret 0
  | S n' =>
      let* b1 := load s1 in
      let* b2 := load s2 in
      if negb (b1 =? b2) then ret (if b2 <? b1 then 1 else -1)
      else memcmp_loop n' (add64 s1 1) (add64 s2 1)
  end.
Definition memcmp (s1 s2 n : Z) : M mem Z := memcmp_loop (Z.to_nat n) s1 s2.

Fixpoint memcmp_b_loop (n : nat) (s b : Z) : M mem bool :=
  match n with
  | O => ret true
  | S n' => let* c := load s in if negb (c =? b) then ret false else memcmp_b_loop n' (add64 s 1) b
  end.
Definition memcmp_b (s b n : Z) : M mem bool := memcmp_b_loop (Z.to_nat n) s (b mod 256).

(** ** math.c *)

Definition max (a b : Z) : Z := if b <? a then a else b.
Definition min (a b : Z) : Z := if a <? b then a else b.
Definition abs (n : Z) : Z := if n <? 0 then i32 (n * -1) else n.
Definition labs (n : Z) : Z := if n <? 0 then i64 (n * -1) else n.

(** ** Strings and blocks in memory *)

Fixpoint bytes_at (m : mem) (p : Z) (l : list Z) : Prop :=
  match l with [] => True | b :: l' => m !! p = Some b /\ bytes_at m (p + 1) l' end.

(** The string [s] with its terminator, ending below the top of the address space. *)
Definition cstring (m : mem) (p : Z) (s : list Z) : Prop :=
  0 <= p /\ p + Z.of_nat (length s) < W64 /\ 0 ∉ s /\ bytes_at m p (s ++ [0]).

Definition inside (p n a : Z) : Prop := p <= a < p + n.

Lemma bytes_at_lookup m l : forall p i, bytes_at m p l -> (i < length l)%nat -> m !! (p + Z.of_nat i) = l !! i.
Proof.
  induction l as [|b l IH]; intros p i Hl Hi; cbn in Hi; [lia|]. destruct Hl as [Hb Hl]. destruct i as [|i]; cbn.
  - by rewrite Z.add_0_r.
  - rewrite <- IH with (p := p + 1) by (done || lia). f_equal. lia.
Qed.

Lemma bytes_at_intro m l : forall p,
  (forall i, (i < length l)%nat -> m !! (p + Z.of_nat i) = l !! i) -> bytes_at m p l.
Proof.
  induction l as [|b l IH]; intros p Hl; [done|]. split.
  - rewrite <- (Z.add_0_r p). apply (Hl 0%nat). cbn. lia.
  - apply IH. intros i Hi. specialize (Hl (S i)). cbn [length lookup list_lookup] in Hl. transitivity (m !! (p + Z.of_nat (S i))); [f_equal; lia|]. apply Hl. lia.
Qed.

Lemma bytes_at_app m l1 l2 p : bytes_at m p (l1 ++ l2) <->
  bytes_at m p l1 /\ bytes_at m (p + Z.of_nat (length l1)) l2.
Proof.
  revert p. induction l1 as [|b l1 IH]; intros p; cbn [bytes_at app length].
  - rewrite Z.add_0_r. tauto.
  - rewrite IH. replace (p + 1 + Z.of_nat (length l1)) with (p + Z.of_nat (S (length l1))) by lia. tauto.
Qed.

Lemma bytes_at_frame m m' l : forall p, (forall a, inside p (Z.of_nat (length l)) a -> m' !! a = m !! a) ->
  bytes_at m p l -> bytes_at m' p l.
Proof.
  intros p Hm Hl. apply bytes_at_intro. intros i Hi. rewrite Hm by (split; lia). by apply bytes_at_lookup.
Qed.

(** A block of bytes needs as many addresses. *)
Lemma bytes_at_size m p l : bytes_at m p l -> (length l <= size m)%nat.
Proof.
  intros Hl. assert (Hsub : list_to_set (seqZ p (Z.of_nat (length l))) ⊆ dom m).
  { intros a Ha%elem_of_list_to_set%elem_of_seqZ. apply elem_of_dom.
    replace a with (p + Z.of_nat (Z.to_nat (a - p))) by lia. rewrite bytes_at_lookup with (l := l) by (done || lia).
    apply lookup_lt_is_Some. lia. }
  apply subseteq_size in Hsub. rewrite size_list_to_set in Hsub by apply NoDup_seqZ.
  rewrite length_seqZ, Nat2Z.id, size_dom in Hsub. done.
Qed.

Lemma cstring_cons m p c s : cstring m p (c :: s) -> m !! p = Some c /\ c <> 0 /\ cstring m (p + 1) s.
Proof.
  intros (Hp & Hw & Hz & Hc & Hl). rewrite not_elem_of_cons in Hz. cbn [length] in Hw.
  unfold cstring. split_and!; try done; try lia; try tauto; try congruence.
Qed.

Lemma cstring_nil m p : cstring m p [] -> m !! p = Some 0.
Proof. intros (_ & _ & _ & Hc & _). done. Qed.

Lemma cstring_fuel m p s : cstring m p s -> (length s < size m)%nat.
Proof. intros (_ & _ & _ & Hl). apply bytes_at_size in Hl. rewrite length_app in Hl. cbn in Hl. lia. Qed.

Lemma runs_load p b m (Q : Z -> mem -> Prop) : m !! p = Some b -> Q b m -> runs (load p) m Q.
Proof. intros Hb HQ. eapply runs_eq; [|exact HQ]. unfold load. by rewrite Hb. Qed.

Lemma runs_store p b m (Q : unit -> mem -> Prop) : is_Some (m !! p) -> Q tt (<[p := b]> m) -> runs (store p b) m Q.
Proof. intros [b0 Hb] HQ. eapply runs_eq; [|exact HQ]. unfold store. by rewrite Hb. Qed.

(** ** Strings *)

Lemma strlen_loop_runs s : forall fuel p i m, cstring m (p + i) s -> 0 <= p -> 0 <= i -> (length s < fuel)%nat ->
  runs (strlen_loop fuel p i) m (fun n m' => m' = m /\ n = i + Z.of_nat (length s)).
Proof.
  induction s as [|c s IH]; intros [|fuel] p i m Hs Hp Hi Hf; cbn [length] in Hf; try lia; cbn [strlen_loop].
  - pose proof Hs as (_ & Hw & _). cbn in Hw. rewrite add64_small by lia. apply runs_bind.
    eapply runs_load; [by apply cstring_nil|]. cbn. apply runs_ret. cbn. split; [done|lia].
  - pose proof Hs as (_ & Hw & _). cbn [length] in Hw. apply cstring_cons in Hs as (Hc & Hz & Hs).
    rewrite add64_small by lia. apply runs_bind. eapply runs_load; [done|].
    rewrite (proj2 (Z.eqb_neq c 0) Hz), add64_small by lia.
    eapply runs_mono; [apply IH; try lia; by rewrite Z.add_assoc|].
    intros n m' [-> ->]. split; [done|]. cbn. lia.
Qed.

Lemma strlen_runs m p s : cstring m p s -> runs (strlen p) m (fun n m' => m' = m /\ n = Z.of_nat (length s)).
Proof.
  intros Hs. unfold strlen, rounds. mgo. pose proof (cstring_fuel _ _ _ Hs). pose proof Hs as (Hp & _).
  eapply runs_mono; [apply (strlen_loop_runs s); [by rewrite Z.add_0_r|lia..]|done].
Qed.

(** [copy_char] when the target is outside the source string. *)
Lemma copy_char_runs d p i c m (Q : Z -> mem -> Prop) : m !! (p + i) = Some c -> 0 <= p + i < W64 ->
  0 <= d + i < W64 -> is_Some (m !! (d + i)) -> d + i <> p + i -> Q c (<[d + i := c]> m) ->
  runs (copy_char d p i) m Q.
Proof.
  intros Hc Hp Hd Hm Hne HQ. unfold copy_char. rewrite !add64_small by lia.
  apply runs_bind, (runs_load _ c); [done|]. apply runs_bind, runs_store; [done|].
  eapply runs_load; [|done]. by rewrite lookup_insert_ne.
Qed.

(** [m'] is [m] with the bytes [l] stored at [d]. *)
Definition stored (d : Z) (l : list Z) (m m' : mem) : Prop :=
  bytes_at m' d l /\ forall a, ~ inside d (Z.of_nat (length l)) a -> m' !! a = m !! a.

Definition disjoint (p n q k : Z) : Prop := forall a, inside p n a -> ~ inside q k a.

Definition writable (m : mem) (d n : Z) : Prop := forall a, inside d n a -> is_Some (m !! a).

Lemma strcpy_loop_runs s : forall fuel d p i m, cstring m (p + i) s -> 0 <= p -> 0 <= i -> 0 <= d ->
  d + i + Z.of_nat (length s) < W64 -> writable m (d + i) (Z.of_nat (length s) + 1) ->
  disjoint (d + i) (Z.of_nat (length s) + 1) (p + i) (Z.of_nat (length s) + 1) -> (length s < fuel)%nat ->
  runs (strcpy_loop fuel d p i) m (fun _ m' => stored (d + i) (s ++ [0]) m m').
Proof.
  induction s as [|c s IH]; intros [|fuel] d p i m Hs Hp Hi Hd Hw Hwr Hdj Hf; cbn [length] in *; try lia; cbn [strcpy_loop].
  - pose proof Hs as (_ & Hw' & _). cbn in Hw'. apply runs_bind, (copy_char_runs _ _ _ 0); try lia.
    + by apply cstring_nil.
    + apply Hwr. split; lia.
    + intros Heq. apply (Hdj (d + i)); split; lia.
    + cbn. apply runs_ret. split; cbn; [by rewrite lookup_insert_eq|].
      intros a Ha. rewrite lookup_insert_ne; [done|]. intros <-. apply Ha. split; lia.
  - pose proof Hs as (_ & Hw' & _). cbn [length] in Hw'. apply cstring_cons in Hs as (Hc & Hz & Hs).
    apply runs_bind, (copy_char_runs _ _ _ c); try lia; try done.
    + apply Hwr. split; lia.
    + intros Heq. apply (Hdj (d + i)); split; lia.
    + rewrite (proj2 (Z.eqb_neq c 0) Hz), add64_small by lia.
      eapply runs_mono; [apply IH; try lia|].
      * destruct Hs as (H1 & H2 & H3 & H4). rewrite <- Z.add_assoc in *.
        split; [done|]. split; [lia|]. split; [done|]. eapply bytes_at_frame; [|exact H4]. intros a [Ha1 Ha2]. rewrite length_app in Ha2. cbn in Ha2.
        apply lookup_insert_ne. intros <-. apply (Hdj (d + i)); split; lia.
      * intros a [Ha1 Ha2]. destruct (decide (a = d + i)) as [->|]; [by rewrite lookup_insert_eq|].
        rewrite lookup_insert_ne by done. apply Hwr. split; lia.
      * intros a [Ha1 Ha2] [Ha3 Ha4]. apply (Hdj a); split; lia.
      * intros _ m' [Hb Hfr]. rewrite Z.add_assoc in Hb, Hfr. rewrite length_app in Hfr. cbn [length] in Hfr.
        split; cbn [bytes_at app length].
        -- split; [|done]. rewrite Hfr by (intros [Ha _]; lia). by rewrite lookup_insert_eq.
        -- intros a Ha. rewrite length_app in Ha. cbn [length] in Ha.
           rewrite Hfr by (intros [Ha1 Ha2]; apply Ha; split; lia). apply lookup_insert_ne. intros <-. apply Ha. split; lia.
Qed.

Lemma strcpy_runs m d p s : cstring m p s -> 0 < p -> 0 < d -> d + Z.of_nat (length s) < W64 ->
  writable m d (Z.of_nat (length s) + 1) ->
  disjoint d (Z.of_nat (length s) + 1) p (Z.of_nat (length s) + 1) ->
  runs (strcpy d p) m (fun r m' => r = d /\ stored d (s ++ [0]) m m').
Proof.
  intros Hs Hp Hd Hw Hwr Hdj. unfold strcpy, rounds.
  rewrite (proj2 (Z.eqb_neq d 0)), (proj2 (Z.eqb_neq p 0)) by lia. cbn [orb]. mgo.
  pose proof (cstring_fuel _ _ _ Hs). eapply runs_mono.
  - apply (strcpy_loop_runs s); rewrite ?Z.add_0_r; try done; lia.
  - intros ? m' Hst. cbv beta in Hst. rewrite Z.add_0_r in Hst. by mgo.
Qed.

(** Comparison: zero exactly for equal strings, and otherwise the order of the first
    characters that differ. *)
Fixpoint order (s1 s2 : list Z) : Z :=
  match s1, s2 with
  | [], [] => 0
  | [], c2 :: _ => if i8 c2 <? 0 then 1 else -1
  | c1 :: _, [] => if 0 <? i8 c1 then 1 else -1
  | c1 :: s1', c2 :: s2' => if c1 =? c2 then order s1' s2' else if i8 c2 <? i8 c1 then 1 else -1
  end.

Lemma strcmp_loop_runs s1 : forall s2 fuel p q i m, cstring m (p + i) s1 -> cstring m (q + i) s2 ->
  0 <= p -> 0 <= q -> 0 <= i -> (length s1 < fuel)%nat ->
  runs (strcmp_loop fuel p q i) m (fun r m' => m' = m /\ r = order s1 s2).
Proof.
  induction s1 as [|c1 s1 IH]; intros [|c2 s2] [|fuel] p q i m H1 H2 Hp Hq Hi Hf; cbn [length] in Hf; try lia;
    cbn [strcmp_loop]; pose proof H1 as (_ & W1 & _); pose proof H2 as (_ & W2 & _); cbn [length] in W1, W2;
    rewrite !add64_small by lia.
  - apply runs_bind, (runs_load _ 0); [by apply cstring_nil|]. apply runs_bind, (runs_load _ 0); [by apply cstring_nil|].
    cbn. by apply runs_ret.
  - apply cstring_cons in H2 as (Hc & Hz & H2). apply runs_bind, (runs_load _ 0); [by apply cstring_nil|].
    apply runs_bind, (runs_load _ c2); [done|]. rewrite (proj2 (Z.eqb_neq 0 c2)) by lia. cbn. by apply runs_ret.
  - apply cstring_cons in H1 as (Hc & Hz & H1). apply runs_bind, (runs_load _ c1); [done|].
    apply runs_bind, (runs_load _ 0); [by apply cstring_nil|]. rewrite (proj2 (Z.eqb_neq c1 0)) by lia. cbn. by apply runs_ret.
  - apply cstring_cons in H1 as (Hc1 & Hz1 & H1). apply cstring_cons in H2 as (Hc2 & Hz2 & H2).
    apply runs_bind, (runs_load _ c1); [done|]. apply runs_bind, (runs_load _ c2); [done|]. cbn [order].
    destruct (c1 =? c2); cbn [negb]; [|by apply runs_ret]. rewrite (proj2 (Z.eqb_neq c1 0) Hz1).
    apply IH; rewrite ?Z.add_assoc; (done || lia).
Qed.

Lemma order_zero s1 : forall s2, order s1 s2 = 0 <-> s1 = s2.
Proof.
  induction s1 as [|c1 s1 IH]; intros [|c2 s2]; cbn; try done.
  - destruct (i8 c2 <? 0); done.
  - destruct (0 <? i8 c1); done.
  - destruct (c1 =? c2) eqn:E; zb; [rewrite IH; naive_solver|]. destruct (i8 c2 <? i8 c1); naive_solver.
Qed.

(** The last [c] of a string. *)
Lemma strrchr_loop_runs c s : forall fuel p i last m, cstring m (p + i) s -> 0 <= p -> 0 <= i -> (length s < fuel)%nat ->
  runs (strrchr_loop fuel p c i last) m (fun r m' => m' = m /\
    (r = (match last with Some l => add64 p l | None => 0 end) /\ Forall (fun b => i8 b <> i8 c) s \/
     exists pre b post, s = pre ++ b :: post /\ i8 b = i8 c /\ Forall (fun b => i8 b <> i8 c) post /\
       r = p + i + Z.of_nat (length pre))).
Proof.
  induction s as [|b s IH]; intros [|fuel] p i last m Hs Hp Hi Hf; cbn [length] in Hf; try lia; cbn [strrchr_loop];
    pose proof Hs as (_ & Hw & _); cbn [length] in Hw; rewrite add64_small by lia.
  - apply runs_bind, (runs_load _ 0); [by apply cstring_nil|]. cbn. apply runs_ret. split; [done|]. by left.
  - apply cstring_cons in Hs as (Hb & Hz & Hs). apply runs_bind, (runs_load _ b); [done|].
    rewrite (proj2 (Z.eqb_neq b 0) Hz), add64_small by lia.
    eapply runs_mono; [apply IH; try lia; by rewrite Z.add_assoc|].
    intros r m' [-> Hr]. split; [done|]. destruct Hr as [[-> Hall]|(pre & b' & post & -> & Hb' & Hpost & ->)].
    + destruct (i8 b =? i8 c) eqn:E; zb; [right; exists [], b, s|left; split; [done|by constructor]].
      split_and!; try done. rewrite add64_small by lia. cbn. lia.
    + right. exists (b :: pre), b', post. split_and!; try done. cbn [length]. lia.
Qed.

(** ** Blocks *)

Lemma memcpy_loop_runs l : forall d p m, bytes_at m p l -> 0 <= d -> 0 <= p ->
  d + Z.of_nat (length l) <= W64 -> p + Z.of_nat (length l) <= W64 -> writable m d (Z.of_nat (length l)) ->
  d <= p \/ p + Z.of_nat (length l) <= d ->
  runs (memcpy_loop (length l) d p) m (fun _ m' => stored d l m m').
Proof.
  induction l as [|b l IH]; intros d p m Hl Hd Hp Wd Wp Hwr Hov; cbn [length memcpy_loop] in *.
  { apply runs_ret. by split. }
  destruct Hl as [Hb Hl]. apply runs_bind, runs_bind, (runs_load _ b); [done|].
  apply runs_store; [apply Hwr; split; lia|]. set (m1 := <[d := b]> m).
  assert (Hm1 : forall a, a <> d -> m1 !! a = m !! a) by (intros a Ha; by apply lookup_insert_ne).
  destruct l as [|b' l].
  { cbn [memcpy_loop]. apply runs_ret. split; cbn; [split; [apply lookup_insert_eq|done]|].
    intros a Ha. apply Hm1. intros ->. apply Ha. split; lia. }
  cbn [length] in *. rewrite !add64_small by lia. eapply runs_mono; [apply IH; try lia|].
  - eapply bytes_at_frame; [|exact Hl]. cbn [length]. intros a [Ha1 Ha2]. apply Hm1. lia.
  - intros a [Ha1 Ha2]. rewrite Hm1 by lia. apply Hwr. split; lia.
  - intros _ m' [Hst Hfr]. cbn [length] in Hfr. split.
    + split; [|done]. rewrite Hfr by (intros [Ha _]; lia). apply lookup_insert_eq.
    + cbn [length]. intros a Ha. rewrite Hfr by (intros [Ha1 Ha2]; apply Ha; split; lia).
      apply Hm1. intros ->. apply Ha. split; lia.
Qed.

Lemma memmove_loop_runs l : forall d p m, bytes_at m p l -> 0 <= p -> p <= d ->
  d + Z.of_nat (length l) <= W64 -> writable m d (Z.of_nat (length l)) ->
  runs (memmove_loop (length l) d p) m (fun _ m' => stored d l m m').
Proof.
  induction l as [|b l IH] using rev_ind; intros d p m Hl Hp Hd Wd Hwr.
  { apply runs_ret. by split. }
  rewrite length_app, Nat.add_1_r in *. cbn [memmove_loop]. apply bytes_at_app in Hl as [Hl [Hb _]].
  rewrite !add64_small by lia. apply runs_bind, runs_bind, (runs_load _ b); [done|].
  apply runs_store; [apply Hwr; split; lia|]. set (m1 := <[d + Z.of_nat (length l) := b]> m).
  assert (Hm1 : forall a, a <> d + Z.of_nat (length l) -> m1 !! a = m !! a) by (intros a Ha; by apply lookup_insert_ne).
  eapply runs_mono; [apply IH; try lia|].
  - eapply bytes_at_frame; [|exact Hl]. intros a [Ha1 Ha2]. apply Hm1. lia.
  - intros a [Ha1 Ha2]. rewrite Hm1 by lia. apply Hwr. split; lia.
  - intros _ m' [Hst Hfr]. split.
    + apply bytes_at_app. split; [done|]. split; [|done].
      rewrite Hfr by (intros [_ Ha]; lia). apply lookup_insert_eq.
    + rewrite length_app, Nat.add_1_r. intros a Ha. rewrite Hfr by (intros [Ha1 Ha2]; apply Ha; split; lia).
      apply Hm1. intros ->. apply Ha. split; lia.
Qed.

(** [memmove] moves. If [l] is in memory at [src] and the [length l] bytes at [dst] can be written,
    then afterwards [l] is at [dst], no other byte has changed, and [dst] is returned, for every overlap
    of the two blocks. *)
Theorem memmove_spec m dst src l : bytes_at m src l -> 0 <= dst -> 0 <= src ->
  dst + Z.of_nat (length l) <= W64 -> src + Z.of_nat (length l) <= W64 ->
  writable m dst (Z.of_nat (length l)) ->
  runs (memmove dst src (Z.of_nat (length l))) m (fun r m' => r = dst /\ stored dst l m m').
Proof.
  intros Hl Hd Hp Wd Wp Hwr. unfold memmove, memcpy. rewrite Nat2Z.id. apply runs_if; intros Hlt; zb; apply runs_bind.
  - eapply runs_mono; [apply memcpy_loop_runs; (done || lia)|]. intros ? m' Hst. by mgo.
  - eapply runs_mono; [apply memmove_loop_runs; (done || lia)|]. intros ? m' Hst. by mgo.
Qed.

(** Strings survive copying. After [strcpy] of a string to a block that does not overlap it, both are
    the same string for [strlen] and for [strcmp], and only the target has changed. *)
Theorem strcpy_roundtrip m d p s : cstring m p s -> 0 < p -> 0 < d -> d + Z.of_nat (length s) < W64 ->
  writable m d (Z.of_nat (length s) + 1) ->
  disjoint d (Z.of_nat (length s) + 1) p (Z.of_nat (length s) + 1) ->
  runs (strcpy d p ;;; let* n := strlen d in let* c := strcmp d p in ret (n, c)) m (fun nc m' =>
    nc = (Z.of_nat (length s), 0) /\ stored d (s ++ [0]) m m' /\ cstring m' p s).
Proof.
  intros Hs Hp Hd Hw Hwr Hdj. apply runs_bind. eapply runs_mono; [by apply strcpy_runs|].
  intros r m' [-> Hst]. destruct Hst as [Hb Hfr]. rewrite length_app in Hfr. cbn in Hfr.
  assert (Hd' : cstring m' d s) by (unfold cstring; split_and!; try lia; [by destruct Hs as (_ & _ & ? & _)|done]).
  assert (Hp' : cstring m' p s).
  { destruct Hs as (H1 & H2 & H3 & H4). split; [done|]. split; [done|]. split; [done|].
    eapply bytes_at_frame; [|exact H4]. rewrite length_app. cbn. intros a Ha. apply Hfr. intros Ha'.
    apply (Hdj a); [destruct Ha'|destruct Ha]; split; lia. }
  apply runs_bind. eapply runs_mono; [apply (strlen_runs _ _ _ Hd')|]. intros n m'' [-> ->]. unfold strcmp, rounds. mgo.
  eapply runs_mono; [apply (strcmp_loop_runs s s); rewrite ?Z.add_0_r; try done; try lia|].
  { pose proof (cstring_fuel _ _ _ Hd'). lia. }
  intros c m'' [-> ->]. mgo. rewrite (proj2 (order_zero s s) eq_refl). split_and!; try done.
  split; [done|]. rewrite length_app. done.
Qed.

(** ** Concrete memories *)

Fixpoint put (p : Z) (l : list Z) (m : mem) : mem :=
  match l with [] => m | b :: l' => <[p := b]> (put (p + 1) l' m) end.

(** "ab" at 16, three bytes to write at 32. *)
Definition demo_mem : mem := put 16 [97; 98; 0] (put 32 [1; 2; 3] ∅).

Lemma demo_cstring : cstring demo_mem 16 [97; 98].
Proof. unfold cstring. split_and!; [lia|done|set_solver|]. repeat split. Qed.

Lemma demo_writable : writable demo_mem 32 3.
Proof.
  intros a [H1 H2]. assert (a = 32 \/ a = 33 \/ a = 34) as Ha by lia. destruct Ha as [-> |[-> | ->]]; by eexists.
Qed.

Lemma strcpy_roundtrip_witness :
  runs (strcpy 32 16 ;;; let* n := strlen 32 in let* c := strcmp 32 16 in ret (n, c)) demo_mem (fun nc m' =>
    nc = (2, 0) /\ stored 32 [97; 98; 0] demo_mem m' /\ cstring m' 16 [97; 98]).
Proof.
  exact (strcpy_roundtrip demo_mem 32 16 [97; 98] demo_cstring ltac:(lia) ltac:(lia) ltac:(done) demo_writable
    ltac:(intros a [H1 H2] [H3 H4]; cbn in *; lia)).
Defined.

(** Two bytes up by one: the blocks overlap. *)
Lemma memmove_spec_witness :
  runs (memmove 33 32 2) demo_mem (fun r m' => r = 33 /\ stored 33 [1; 2] demo_mem m').
Proof.
  apply (memmove_spec demo_mem 33 32 [1; 2]); try done.
  intros a [H1 H2]. apply demo_writable. cbn in *. split; lia.
Defined.

(** [strncmp] does not stop at the end of the strings: it compares equal strings as far as it is told,
    and faults where memory ends. *)
Example strncmp_past_end : strncmp 16 16 4 demo_mem = Fail InvalidAccess.
Proof. vm_compute. reflexivity. Qed.

(** [strnlen] of a block without terminator reads one byte past it. *)
Example strnlen_past_end : strnlen 32 3 demo_mem = Fail InvalidAccess.
Proof. vm_compute. reflexivity. Qed.

(** The conversions multiply by ten once too often. *)
Example atoi_42 :
  match atoi 64 (put 64 [52; 50; 0] ∅) with Ok (v, _) => v | Fail _ => 0 end = 420.
Proof. vm_compute. reflexivity. Qed.
End CLib.
