(* ===== verification/ELFStack.v ===== *)
(** * ELFStack.v: the initial stack of a process (src/kernel/src/Exec/ELF.cpp, PrepareELFStack)

    A new program finds on its stack, from the stack pointer up, the number of its
    arguments, the pointers to them and a null, the pointers to its environment and a
    null, and the auxiliary vector; the strings are above. Memory is that of CLib.v, and
    the C library functions are the ones modelled there. [VMM::MapPages] is a parameter.

    Shown: the stack that is built is the one that the System V ABI describes, with the
    stack pointer a multiple of 16, and nothing outside it is touched. *)

From S2P Require Import Prelude CLib.
Import CLib.

#[local] Open Scope Z_scope.

Module ELFStack.

(** ** Words in memory *)

Fixpoint le (n : nat) (v : Z) : list Z :=
  match n with O => [] | S n' => v mod 256 :: le n' (v / 256) end.

Fixpoint load_le (n : nat) (p : Z) : M mem Z :=
  match n with
  | O => ret 0
  | S n' => let* b := load p in let* v := load_le n' (add64 p 1) in ret (b + 256 * v)
  end.
Fixpoint store_le (n : nat) (p v : Z) : M mem unit :=
  match n with
  | O => ret tt
  | S n' => store p (v mod 256) ;;; store_le n' (add64 p 1) (v / 256)
  end.
Definition load64 (p : Z) : M mem Z := load_le 8 p.
Definition store64 (p v : Z) : M mem unit := store_le 8 p v.

(** ** ELF.hpp: the auxiliary vector *)

Record auxv64_t : Set := mkAux { a_type : Z; a_val : Z }.
Record auxv64list_t : Set := mkAuxList {
  phdr : auxv64_t;
  phnum : auxv64_t;
  phent : auxv64_t;
  entry : auxv64_t;
  execfn : auxv64_t;
  secure : auxv64_t;
  pagesz : auxv64_t;
  null : auxv64_t
}.

Definition AT_EXECFN : Z := 31.

Definition aux_words (x : auxv64list_t) : list Z :=
  concat ((fun a => [a_type a; a_val a]) <$>
    [phdr x; phnum x; phent x; entry x; execfn x; secure x; pagesz x; null x]).

Definition set_execfn (a : auxv64_t) (x : auxv64list_t) : auxv64list_t :=
  mkAuxList (phdr x) (phnum x) (phent x) (entry x) a (secure x) (pagesz x) (null x).

(** [sizeof(auxv64list_t)], [STACK_TOP_BUFFER] *)
Definition AUXV_SIZE : Z := 128.
Definition STACK_TOP_BUFFER : Z := 8.

(** The copy of the vector, word by word. *)
Fixpoint store_words (p : Z) (ws : list Z) : M mem unit :=
  match ws with
  | [] => ret tt
  | w :: ws' => store64 p w ;;; store_words (add64 p 8) ws'
  end.

(** ** PrepareELFStack *)

(** The number of strings in a null-terminated array, and the bytes they take. *)
Fixpoint count_strings (fuel : nat) (argv argc size : Z) : M mem (Z * Z) :=
  match fuel with
  | O => fail OutOfFuel
  | S fuel' =>
      let* p := load64 (add64 argv (mul64 8 argc)) in
      if p =? 0 then ret (argc, size) else
      let* n := strlen p in
      count_strings fuel' argv (add64 argc 1) (add64 size (add64 n 1))
  end.

(** The loops that copy the strings and set the pointers; [n] rounds are left. *)
Fixpoint copy_strings (n : nat) (argv i argStart argDataStart : Z) : M mem unit :=
  match n with
  | O => ret tt
  | S n' =>
      let* p := load64 (add64 argv (mul64 8 i)) in
      strcpy argDataStart p ;;;
      store64 (add64 argStart (mul64 8 i)) argDataStart ;;;
      let* p := load64 (add64 argv (mul64 8 i)) in
      let* len := strlen p in
      copy_strings n' argv (add64 i 1) argStart (add64 argDataStart (add64 len 1))
  end.

Section Stack.
Context (MapPages : Z -> Z -> mem -> bool * mem).

Definition map_pages (addr count : Z) : M mem bool := fun m => Ok (MapPages addr count m).

(** Returns the stack pointer, 0 for null. The vector and the address space are never null. *)
Definition PrepareELFStack (stackTop : Z) (auxv64 : auxv64list_t) (argv env path : Z) : M mem Z :=
  if (stackTop =? 0) || (argv =? 0) || (env =? 0) || (path =? 0) then ret 0 else
  let* pathLen := strlen path in
  let pathSize := add64 pathLen 1 in
  let* n := rounds in
  let* (argc, argDataSize) := count_strings n argv 0 0 in
  let* (envc, envDataSize) := count_strings n env 0 0 in
  let align := if Z.odd (add64 (add64 argc envc) 3) then 8 else 0 in
  let size := add64 (add64 (add64 (add64 (add64 (add64 (add64 argDataSize envDataSize) pathSize)
                (mul64 (add64 argc envc) 8)) 8) AUXV_SIZE) align) STACK_TOP_BUFFER in
  let base := sub64 stackTop size in
  let* ok := map_pages (ALIGN_DOWN base PAGE_SIZE) (DIV_ROUNDUP size PAGE_SIZE) in
  if negb ok then ret 0 else
  let stackTop := sub64 stackTop STACK_TOP_BUFFER in
  let argDataStart := sub64 stackTop argDataSize in
  let envDataStart := sub64 argDataStart envDataSize in
  let pathDataStart := sub64 envDataStart pathSize in
  let auxvStart := sub64 pathDataStart AUXV_SIZE in
  let auxvStart := sub64 (Z.land auxvStart (Z.lnot 15)) align in
  let envStart := sub64 (sub64 auxvStart (mul64 8 envc)) 8 in
  let argStart := sub64 (sub64 envStart (mul64 8 argc)) 8 in
  let argcPoint := sub64 argStart 8 in
  let auxv64 := set_execfn (mkAux AT_EXECFN pathDataStart) auxv64 in
  memcpy pathDataStart path pathSize ;;;
  store_words auxvStart (aux_words auxv64) ;;;
  copy_strings (Z.to_nat argc) argv 0 argStart argDataStart ;;;
  copy_strings (Z.to_nat envc) env 0 envStart envDataStart ;;;
  store64 (add64 argStart (mul64 8 argc)) 0 ;;;
  store64 (add64 envStart (mul64 8 envc)) 0 ;;;
  store64 argcPoint argc ;;;
  ret argcPoint.
End Stack.

(** ** Blocks of memory *)

Definition words (ws : list Z) : list Z := concat (le 8 <$> ws).

Notation len l := (Z.of_nat (length l)).

Definition inblocks (B : list (Z * list Z)) (a : Z) : Prop := Exists (fun b => inside b.1 (len b.2) a) B.

(** [m'] is [m] with the blocks [B] stored. *)
Definition stored_all (B : list (Z * list Z)) (m m' : mem) : Prop :=
  Forall (fun b => bytes_at m' b.1 b.2) B /\ forall a, ~ inblocks B a -> m' !! a = m !! a.

Lemma stored_one d l m m' : stored d l m m' -> stored_all [(d, l)] m m'.
Proof.
  intros [H1 H2]. split; [by repeat constructor|]. intros a Ha. apply H2. intros Hin. apply Ha. by constructor.
Qed.

Lemma bytes_at_unchanged m m' p l B : (forall a, ~ inblocks B a -> m' !! a = m !! a) ->
  (forall a, inside p (len l) a -> ~ inblocks B a) -> bytes_at m p l -> bytes_at m' p l.
Proof. intros Hm Hd. apply bytes_at_frame. auto. Qed.

Lemma stored_app B1 B2 m m1 m2 : stored_all B1 m m1 -> stored_all B2 m1 m2 ->
  (forall a, inblocks B1 a -> ~ inblocks B2 a) -> stored_all (B1 ++ B2) m m2.
Proof.
  intros [S1 F1] [S2 F2] Hd. split.
  - apply Forall_app. split; [|done]. rewrite Forall_forall in S1 |- *. intros [p l] Hin.
    eapply bytes_at_unchanged; [exact F2| |exact (S1 _ Hin)].
    intros a Ha. apply Hd, Exists_exists. by exists (p, l).
  - intros a Ha. unfold inblocks in Ha. rewrite Exists_app in Ha. rewrite F2, F1; tauto.
Qed.

Lemma stored_regroup B B' m m' : stored_all B m m' -> Forall (fun b => bytes_at m' b.1 b.2) B' ->
  (forall a, inblocks B a -> inblocks B' a) -> stored_all B' m m'.
Proof. intros [_ F] HB' Hsub. split; [done|]. intros a Ha. apply F. auto. Qed.

Lemma inblocks_nil a : inblocks [] a <-> False.
Proof. apply Exists_nil. Qed.

Lemma inblocks_cons p l B a : inblocks ((p, l) :: B) a <-> p <= a < p + len l \/ inblocks B a.
Proof. apply Exists_cons. Qed.

Lemma writable_stored B m m' d n : stored_all B m m' -> writable m d n -> writable m' d n.
Proof.
  intros [S1 F1] Hw a Ha. destruct (decide (inblocks B a)) as [Hin|Hout]; [|rewrite F1 by done; auto].
  apply Exists_exists in Hin as ([p l] & Hin & Hpl). rewrite Forall_forall in S1. specialize (S1 _ Hin).
  cbn in S1, Hpl. destruct Hpl as [H1 H2]. replace a with (p + Z.of_nat (Z.to_nat (a - p))) by lia.
  rewrite (bytes_at_lookup _ _ _ _ S1) by lia. apply lookup_lt_is_Some. lia.
Qed.

(** ** Loads and stores of words *)

Lemma length_le n v : length (le n v) = n.
Proof. revert v. induction n as [|n IH]; intros v; cbn; [done|]. by rewrite IH. Qed.

Lemma length_words ws : length (words ws) = (8 * length ws)%nat.
Proof.
  induction ws as [|w ws IH]; [done|]. unfold words in *. cbn [fmap list_fmap concat].
  rewrite length_app, length_le, IH. cbn [length]. lia.
Qed.

Lemma words_cons w ws : words (w :: ws) = le 8 w ++ words ws.
Proof. done. Qed.

Lemma words_app ws1 ws2 : words (ws1 ++ ws2) = words ws1 ++ words ws2.
Proof. unfold words. by rewrite fmap_app, concat_app. Qed.

Lemma load_le_runs n : forall p v m, bytes_at m p (le n v) -> 0 <= p -> p + Z.of_nat n <= W64 ->
  0 <= v < 256 ^ Z.of_nat n -> runs (load_le n p) m (fun r m' => m' = m /\ r = v).
Proof.
  induction n as [|n IH]; intros p v m Hl Hp Hw Hv; cbn [le load_le bytes_at] in *.
  { apply runs_ret. cbn in Hv. split; [done|lia]. }
  destruct Hl as [Hb Hl]. apply runs_bind, (runs_load _ _ _ _ Hb), runs_bind.
  destruct n as [|n].
  { cbn [load_le]. mgo. split; [done|]. change (256 ^ Z.of_nat 1) with 256 in Hv. zlia. }
  rewrite add64_small by lia. eapply runs_mono; [apply (IH _ (v / 256)); try done; try lia|].
  - replace (256 ^ Z.of_nat (S (S n))) with (256 ^ Z.of_nat (S n) * 256) in Hv
      by (rewrite (Nat2Z.inj_succ (S n)), Z.pow_succ_r by lia; lia).
    split; [apply Z.div_pos; lia|apply Z.div_lt_upper_bound; lia].
  - intros r m' [-> ->]. mgo. split; [done|]. zlia.
Qed.

Lemma load64_runs p v m : bytes_at m p (le 8 v) -> 0 <= p -> p + 8 <= W64 -> 0 <= v < W64 ->
  runs (load64 p) m (fun r m' => m' = m /\ r = v).
Proof. intros. apply load_le_runs; try done. Qed.

Lemma store_le_runs n : forall p v m, 0 <= p -> p + Z.of_nat n <= W64 -> writable m p (Z.of_nat n) ->
  runs (store_le n p v) m (fun _ m' => stored p (le n v) m m').
Proof.
  induction n as [|n IH]; intros p v m Hp Hw Hwr; cbn [store_le le].
  { apply runs_ret. by split. }
  apply runs_bind, runs_store; [apply Hwr; split; lia|]. set (m1 := <[p := v mod 256]> m).
  assert (Hm1 : forall a, a <> p -> m1 !! a = m !! a) by (intros a Ha; by apply lookup_insert_ne).
  destruct n as [|n].
  { cbn [store_le]. apply runs_ret. split; cbn; [split; [apply lookup_insert_eq|done]|].
    intros a Ha. apply Hm1. intros ->. apply Ha. split; lia. }
  rewrite add64_small by lia. eapply runs_mono; [apply IH; try lia|].
  - intros a [Ha1 Ha2]. rewrite Hm1 by lia. apply Hwr. split; lia.
  - intros _ m' [Hst Hfr]. rewrite length_le in Hfr. split.
    + split; [|done]. rewrite Hfr by (intros [Ha _]; lia). apply lookup_insert_eq.
    + cbn [length]. rewrite length_le. intros a Ha. rewrite Hfr by (intros [Ha1 Ha2]; apply Ha; split; lia).
      apply Hm1. intros ->. apply Ha. split; lia.
Qed.

Lemma store64_runs p v m : 0 <= p -> p + 8 <= W64 -> writable m p 8 ->
  runs (store64 p v) m (fun _ => stored_all [(p, le 8 v)] m).
Proof.
  intros Hp Hw Hwr. eapply runs_mono; [by apply (store_le_runs 8)|]. intros ? m' Hst. by apply stored_one.
Qed.

Lemma store_words_runs ws : forall p m, 0 <= p -> p + 8 * len ws <= W64 -> writable m p (8 * len ws) ->
  runs (store_words p ws) m (fun _ => stored_all [(p, words ws)] m).
Proof.
  induction ws as [|w ws IH]; intros p m Hp Hw Hwr; cbn [store_words].
  { apply runs_ret. split; [by repeat constructor|done]. }
  cbn [length] in Hw, Hwr. apply runs_bind. eapply runs_mono.
  { apply store64_runs; [done|lia|]. intros a [Ha1 Ha2]. apply Hwr. split; lia. }
  intros [] m1 S1. cbv beta in S1. destruct ws as [|w' ws].
  { cbn [store_words]. apply runs_ret. rewrite words_cons. unfold words. cbn [fmap list_fmap concat]. by rewrite app_nil_r. }
  cbn [length] in Hw, Hwr. rewrite add64_small by lia. eapply runs_mono; [apply IH; cbn [length]; try lia|].
  { eapply writable_stored; [exact S1|]. intros a [Ha1 Ha2]. apply Hwr. split; lia. }
  intros [] m2 S2. cbv beta in S2.
  assert (HS : stored_all ([(p, le 8 w)] ++ [(p + 8, words (w' :: ws))]) m m2).
  { eapply stored_app; [exact S1|exact S2|]. intros a Ha Hb. unfold inblocks in *.
    rewrite Exists_cons, Exists_nil in Ha, Hb. cbn [fst snd] in Ha, Hb. rewrite length_le in Ha.
    destruct Ha as [[]|[]], Hb as [[]|[]]. lia. }
  destruct HS as [HS HF]. rewrite Forall_app, !Forall_singleton in HS. cbn [fst snd] in HS.
  rewrite words_cons. split.
  - apply Forall_singleton. cbn [fst snd]. apply bytes_at_app. rewrite length_le. done.
  - intros a Ha. apply HF. intros Hin. apply Ha. unfold inblocks in *. rewrite Exists_app in Hin.
    rewrite !Exists_cons, !Exists_nil in *. cbn [fst snd] in *. left. unfold inside in *.
    rewrite length_app, length_le in *. destruct Hin as [[Hin|[]]|[Hin|[]]]; lia.
Qed.

(** ** Arrays of strings *)

(** The strings, each with its terminator, one after the other; where each of them starts. *)
Definition flat (strs : list (list Z)) : list Z := concat ((fun s => s ++ [0]) <$> strs).
Fixpoint starts (d : Z) (strs : list (list Z)) : list Z :=
  match strs with [] => [] | s :: strs' => d :: starts (d + len s + 1) strs' end.

Lemma flat_cons s strs : flat (s :: strs) = (s ++ [0]) ++ flat strs.
Proof. done. Qed.

Lemma length_flat_cons s strs : len (flat (s :: strs)) = len s + 1 + len (flat strs).
Proof. rewrite flat_cons, !length_app. cbn. lia. Qed.

Lemma length_starts strs : forall d, length (starts d strs) = length strs.
Proof. induction strs as [|s strs IH]; intros d; cbn; [done|]. by rewrite IH. Qed.

(** A null-terminated array at [argv] of pointers to the strings; array and strings are
    outside the stretch from [lo] to [hi]. *)
Definition source (m : mem) (lo hi argv : Z) (ptrs : list Z) (strs : list (list Z)) : Prop :=
  0 < argv /\ argv + 8 * (len ptrs + 1) <= W64 /\ bytes_at m argv (words (ptrs ++ [0])) /\
  disjoint argv (8 * (len ptrs + 1)) lo (hi - lo) /\
  Forall2 (fun p s => 0 < p /\ cstring m p s /\ disjoint p (len s + 1) lo (hi - lo)) ptrs strs.

Lemma source_length m lo hi argv ptrs strs : source m lo hi argv ptrs strs -> length strs = length ptrs.
Proof. intros (_ & _ & _ & _ & HF). by apply Forall2_length in HF. Qed.

Lemma cstring_frame m m' p s lo hi : (forall a, ~ inside lo (hi - lo) a -> m' !! a = m !! a) ->
  disjoint p (len s + 1) lo (hi - lo) -> cstring m p s -> cstring m' p s.
Proof.
  intros Hm Hd (H1 & H2 & H3 & H4). split; [done|]. split; [done|]. split; [done|].
  eapply bytes_at_frame; [|exact H4]. rewrite length_app. cbn. intros a [Ha1 Ha2]. apply Hm, Hd. split; lia.
Qed.

Lemma source_frame m m' lo hi argv ptrs strs : (forall a, ~ inside lo (hi - lo) a -> m' !! a = m !! a) ->
  source m lo hi argv ptrs strs -> source m' lo hi argv ptrs strs.
Proof.
  intros Hm (H1 & H2 & H3 & H4 & H5). split; [done|]. split; [done|]. split; [|split; [done|]].
  - eapply bytes_at_frame; [|exact H3]. rewrite length_words, length_app. cbn [length].
    intros a [Ha1 Ha2]. apply Hm, H4. split; lia.
  - eapply Forall2_impl; [exact H5|]. cbn. intros p s (Hp & Hs & Hd). split; [done|]. split; [|done].
    by eapply cstring_frame.
Qed.

Lemma source_nil m lo hi argv strs : source m lo hi argv [] strs -> strs = [] /\ bytes_at m argv (le 8 0).
Proof.
  intros (_ & _ & Hb & _ & HF). apply Forall2_nil_inv_l in HF as ->. split; [done|].
  unfold words in Hb. cbn [fmap list_fmap concat app] in Hb. by rewrite app_nil_r in Hb.
Qed.

Lemma source_cons m lo hi argv p ptrs strs0 : source m lo hi argv (p :: ptrs) strs0 ->
  exists s strs, strs0 = s :: strs /\ bytes_at m argv (le 8 p) /\ 0 < p < W64 /\ cstring m p s /\
    disjoint p (len s + 1) lo (hi - lo) /\ source m lo hi (argv + 8) ptrs strs.
Proof.
  intros (H1 & H2 & H3 & H4 & H5). apply Forall2_cons_inv_l in H5 as (s & strs & (Hp & Hs & Hd) & HF & ->).
  exists s, strs. cbn [app length] in *. rewrite words_cons, bytes_at_app, length_le in H3. destruct H3 as [H3 H3'].
  pose proof Hs as (_ & Hw & _). split_and!; try done; try lia.
  split; [lia|]. split; [lia|]. split; [done|]. split; [|done].
  intros a [Ha1 Ha2]. apply H4. split; lia.
Qed.

Lemma source_fuel m lo hi argv ptrs strs : source m lo hi argv ptrs strs -> (length ptrs < size m)%nat.
Proof.
  intros (_ & _ & Hb & _). apply bytes_at_size in Hb. rewrite length_words, length_app in Hb. cbn in Hb. lia.
Qed.

(** [A + 8 i] for the element [i] of an array. *)
Lemma element A i : 0 <= A -> 0 <= i -> A + 8 * i < W64 -> add64 A (mul64 8 i) = A + 8 * i.
Proof. intros. rewrite mul64_small, add64_small by lia. done. Qed.

Lemma count_strings_runs lo hi m ptrs : forall strs fuel argv i size, source m lo hi (argv + 8 * i) ptrs strs ->
  0 <= argv -> 0 <= i -> 0 <= size -> size + len (flat strs) < W64 -> (length ptrs < fuel)%nat ->
  runs (count_strings fuel argv i size) m (fun r m' => m' = m /\ r = (i + len ptrs, size + len (flat strs))).
Proof.
  induction ptrs as [|p ptrs IH]; intros strs [|fuel] argv i size Hs Ha Hi Hsz Hw Hf; cbn [length] in Hf; try lia;
    cbn [count_strings]; pose proof Hs as (Hpos & Hend & _); cbn [length] in Hend; rewrite element by lia; apply runs_bind.
  - apply source_nil in Hs as [-> Hb]. eapply runs_mono; [apply (load64_runs _ 0); (done || lia)|].
    intros r m' [-> ->]. cbn. apply runs_ret. split; [done|]. f_equal; lia.
  - apply source_cons in Hs as (s & strs' & -> & Hb & Hp & Hc & _ & Hs).
    eapply runs_mono; [apply (load64_runs _ p); (done || lia)|]. intros r m' [-> ->].
    rewrite (proj2 (Z.eqb_neq p 0)) by lia. apply runs_bind. eapply runs_mono; [by apply strlen_runs|].
    intros n m' [-> ->]. rewrite length_flat_cons in Hw.
    rewrite (add64_small (len s) 1), (add64_small size), (add64_small i) by lia.
    replace (argv + 8 * i + 8) with (argv + 8 * (i + 1)) in Hs by lia.
    eapply runs_mono; [apply (IH strs' _ _ _ _ Hs); lia|].
    intros r m' [-> ->]. split; [done|]. rewrite length_flat_cons. cbn [length]. f_equal; lia.
Qed.

(** Membership in blocks as inequalities. *)
Ltac blocks := cbn [app]; rewrite ?inblocks_cons, ?inblocks_nil, ?length_app, ?length_words, ?length_le; cbn [length].

(** One round writes the string and the pointer. *)
Lemma copy_strings_runs lo hi ptrs : forall strs argv i a d m, source m lo hi (argv + 8 * i) ptrs strs ->
  0 <= argv -> 0 <= i -> 0 <= lo -> hi <= W64 - 1 ->
  lo <= a + 8 * i -> 0 <= a -> a + 8 * (i + len ptrs) <= hi -> lo <= d -> 0 < d -> d + len (flat strs) <= hi ->
  disjoint d (len (flat strs)) (a + 8 * i) (8 * len ptrs) -> writable m lo (hi - lo) ->
  runs (copy_strings (length ptrs) argv i a d) m (fun _ =>
    stored_all [(d, flat strs); (a + 8 * i, words (starts d strs))] m).
Proof.
  induction ptrs as [|p ptrs IH]; intros strs argv i a d m Hs Hav Hi Hlo Hhi Ha Ha0 Hae Hd Hd0 Hde Hdj Hwr;
    cbn [length copy_strings] in *.
  { apply source_nil in Hs as [-> _]. apply runs_ret. split; [by repeat constructor|done]. }
  pose proof Hs as (Hpos & Hend & _). cbn [length] in Hend. rewrite !(element argv), (element a) by lia.
  pose proof Hs as Hs0. apply source_cons in Hs as (s & strs' & -> & Hb & Hp & Hc & Hpd & Hs).
  rewrite length_flat_cons in Hde, Hdj.
  apply runs_bind. eapply runs_mono; [apply (load64_runs _ p); (done || lia)|]. intros r m' [-> ->].
  apply runs_bind. eapply runs_mono; [apply strcpy_runs; try done; try lia|].
  { intros b [Hb1 Hb2]. apply Hwr. split; lia. }
  { intros b [Hb1 Hb2] Hb3. apply (Hpd b Hb3). split; lia. }
  intros r m1 [_ S1%stored_one]. apply runs_bind. eapply runs_mono; [apply store64_runs; try lia|].
  { eapply writable_stored; [exact S1|]. intros b [Hb1 Hb2]. apply Hwr. split; lia. }
  intros [] m2 S2. cbv beta in S2.
  assert (S12 : stored_all [(d, s ++ [0]); (a + 8 * i, le 8 d)] m m2).
  { apply (stored_app [(d, s ++ [0])] _ m m1); [exact S1|exact S2|]. intros b. blocks. intros Hb1 Hb2.
    apply (Hdj b); split; lia. }
  apply (source_frame _ m2) in Hs0.
  2:{ intros b Hb0. apply S12. blocks. unfold inside in Hb0. lia. }
  apply source_cons in Hs0 as (s' & strs'' & [= <- <-] & Hb2 & _ & Hc2 & _ & Hs2).
  apply runs_bind. eapply runs_mono; [apply (load64_runs _ p); (done || lia)|]. intros r' m' [-> ->].
  apply runs_bind. eapply runs_mono; [by apply strlen_runs|]. intros n m' [-> ->].
  rewrite (add64_small (len s) 1), (add64_small d), (add64_small i) by lia.
  replace (argv + 8 * i + 8) with (argv + 8 * (i + 1)) in Hs2 by lia.
  eapply runs_mono; [apply (IH _ _ _ _ _ _ Hs2); try lia|].
  { intros b [Hb3 Hb4] [Hb5 Hb6]. apply (Hdj b); split; lia. }
  { eapply writable_stored; [exact S12|exact Hwr]. }
  intros [] m3 S3. cbv beta in S3. pose proof (source_length _ _ _ _ _ _ Hs2) as Hl2.
  assert (HS : stored_all ([(d, s ++ [0]); (a + 8 * i, le 8 d)] ++
    [(d + (len s + 1), flat strs'); (a + 8 * (i + 1), words (starts (d + (len s + 1)) strs'))]) m m3).
  { eapply stored_app; [exact S12|exact S3|]. intros b. blocks. rewrite length_starts. intros Hb1 Hb3.
    pose proof (Hdj b) as Hdjb. unfold inside in Hdjb. lia. }
  eapply stored_regroup; [exact HS| |].
  - destruct HS as [HS _]. cbn [app] in HS. rewrite !Forall_cons in HS. cbn [fst snd] in HS.
    destruct HS as (B1 & B2 & B3 & B4 & _).
    constructor; [|constructor; [|constructor]]; cbn [fst snd starts].
    + rewrite flat_cons. apply bytes_at_app. split; [done|]. rewrite length_app. cbn [length].
      by replace (len s + 1) with (Z.of_nat (length s + 1)) in B3 by lia.
    + rewrite words_cons. apply bytes_at_app. rewrite length_le. split; [done|].
      replace (a + 8 * i + Z.of_nat 8) with (a + 8 * (i + 1)) by lia. by rewrite <- Z.add_assoc.
  - intros b. blocks. rewrite length_flat_cons, !length_starts. cbn [length]. lia.
Qed.

Lemma copy_all_runs lo hi ptrs strs argv a d m : source m lo hi argv ptrs strs ->
  0 <= lo -> hi <= W64 - 1 -> lo <= a -> a + 8 * len ptrs <= d -> lo < d -> d + len (flat strs) <= hi ->
  writable m lo (hi - lo) ->
  runs (copy_strings (length ptrs) argv 0 a d) m (fun _ =>
    stored_all [(d, flat strs); (a, words (starts d strs))] m).
Proof.
  intros Hs Hlo Hhi Ha Had Hd Hde Hwr. pose proof Hs as (Hpos & _).
  eapply runs_mono; [apply (copy_strings_runs lo hi ptrs strs); rewrite ?Z.add_0_r; try done; try lia|].
  - intros b [Hb1 Hb2] [Hb3 Hb4]. lia.
  - intros [] m' HS. cbv beta in HS. by rewrite Z.add_0_r in HS.
Qed.

(** ** All stores *)

(** A step that stores a block after the blocks [B]. *)
Lemma stores_step {A T} (k : M mem T) (rest : M mem A) B b m m1 (Q : A -> mem -> Prop) lo hi :
  stored_all B m m1 -> runs k m1 (fun _ => stored_all b m1) ->
  (forall a, inblocks B a -> ~ inblocks b a) ->
  (forall a, inblocks (B ++ b) a -> lo <= a < hi) -> writable m lo (hi - lo) ->
  (forall m2, stored_all (B ++ b) m m2 -> writable m2 lo (hi - lo) ->
     (forall a, ~ inside lo (hi - lo) a -> m2 !! a = m !! a) -> runs rest m2 Q) ->
  runs (k ;;; rest) m1 Q.
Proof.
  intros SB Hk Hd Hin Hwr Hrest. apply runs_bind. eapply runs_mono; [exact Hk|]. intros t m2 Sb. cbv beta in Sb.
  assert (S2 : stored_all (B ++ b) m m2) by (by eapply stored_app).
  apply Hrest; [done|by eapply writable_stored|].
  intros a Ha. apply S2. intros Hb. apply Ha. apply Hin in Hb. split; lia.
Qed.

Lemma memcpy_block d p l m : bytes_at m p (l ++ [0]) -> 0 <= d -> 0 <= p -> d + len l + 1 <= W64 -> p + len l + 1 <= W64 ->
  writable m d (len l + 1) -> disjoint d (len l + 1) p (len l + 1) ->
  runs (memcpy d p (len l + 1)) m (fun _ => stored_all [(d, l ++ [0])] m).
Proof.
  intros Hl Hd Hp Wd Wp Hwr Hdj. unfold memcpy. apply runs_bind.
  assert (HL : Z.to_nat (len l + 1) = length (l ++ [0])) by (rewrite length_app; cbn; lia).
  assert (HZ : len (l ++ [0]) = len l + 1) by lia. rewrite HL.
  eapply runs_mono; [apply memcpy_loop_runs; rewrite ?HZ; try done; try lia|].
  - destruct (decide (d <= p)); [by left|right]. destruct (decide (p + (len l + 1) <= d)); [done|].
    exfalso. apply (Hdj d); split; lia.
  - intros [] m' Hst. mgo. by apply stored_one.
Qed.

Lemma stores_runs lo hi m path P argv aptrs args env eptrs envs auxw argS envS aux pathD envD argD :
  cstring m path P -> disjoint path (len P + 1) lo (hi - lo) ->
  source m lo hi argv aptrs args -> source m lo hi env eptrs envs -> length auxw = 16%nat ->
  writable m lo (hi - lo) -> 0 < lo -> hi <= W64 - 1 ->
  argS = lo + 8 -> envS = argS + 8 * len aptrs + 8 -> aux = envS + 8 * len eptrs + 8 -> aux + 128 <= pathD ->
  envD = pathD + len P + 1 -> argD = envD + len (flat envs) -> argD + len (flat args) <= hi ->
  runs (memcpy pathD path (len P + 1) ;;; store_words aux auxw ;;;
        copy_strings (length aptrs) argv 0 argS argD ;;; copy_strings (length eptrs) env 0 envS envD ;;;
        store64 (argS + 8 * len aptrs) 0 ;;; store64 (envS + 8 * len eptrs) 0 ;;;
        store64 lo (len aptrs) ;;; ret lo) m
    (fun r m' => r = lo /\ stored_all
       [(pathD, P ++ [0]); (aux, words auxw); (argD, flat args); (argS, words (starts argD args));
        (envD, flat envs); (envS, words (starts envD envs)); (argS + 8 * len aptrs, le 8 0);
        (envS + 8 * len eptrs, le 8 0); (lo, le 8 (len aptrs))] m m').
Proof.
  intros Hc Hcd HA HE Haux Hwr Hlo Hhi EargS EenvS Eaux Epath EenvD EargD Ehi.
  pose proof (source_length _ _ _ _ _ _ HA) as LA. pose proof (source_length _ _ _ _ _ _ HE) as LE.
  pose proof Hc as (Hp0 & Hpw & _ & Hpb).
  assert (S0 : stored_all [] m m) by (split; [constructor|done]).
  apply (stores_step _ _ [] [(pathD, P ++ [0])] m m _ lo hi S0); [| | |exact Hwr|].
  { apply memcpy_block; [done|lia|lia|lia|lia| |].
    - intros a [Ha1 Ha2]. apply Hwr. split; lia.
    - intros a [Ha1 Ha2] Ha3. apply (Hcd a Ha3). split; lia. }
  1,2: intros a; blocks; lia.
  intros m1 S1 W1 F1. apply (stores_step _ _ _ [(aux, words auxw)] m m1 _ lo hi S1); [| | |exact Hwr|].
  { apply store_words_runs; [lia|lia|]. intros a [Ha1 Ha2]. apply W1. split; lia. }
  1,2: intros a; blocks; lia.
  intros m2 S2 W2 F2.
  apply (stores_step _ _ _ [(argD, flat args); (argS, words (starts argD args))] m m2 _ lo hi S2); [| | |exact Hwr|].
  { apply (copy_all_runs lo hi); try lia; [by apply (source_frame m)|done]. }
  1,2: intros a; blocks; rewrite ?length_starts; lia.
  intros m3 S3 W3 F3.
  apply (stores_step _ _ _ [(envD, flat envs); (envS, words (starts envD envs))] m m3 _ lo hi S3); [| | |exact Hwr|].
  { apply (copy_all_runs lo hi); try lia; [by apply (source_frame m)|done]. }
  1,2: intros a; blocks; rewrite ?length_starts; lia.
  intros m4 S4 W4 F4. apply (stores_step _ _ _ [(argS + 8 * len aptrs, le 8 0)] m m4 _ lo hi S4); [| | |exact Hwr|].
  { apply store64_runs; [lia|lia|]. intros a [Ha1 Ha2]. apply W4. split; lia. }
  1,2: intros a; blocks; rewrite ?length_starts; lia.
  intros m5 S5 W5 F5. apply (stores_step _ _ _ [(envS + 8 * len eptrs, le 8 0)] m m5 _ lo hi S5); [| | |exact Hwr|].
  { apply store64_runs; [lia|lia|]. intros a [Ha1 Ha2]. apply W5. split; lia. }
  1,2: intros a; blocks; rewrite ?length_starts; lia.
  intros m6 S6 W6 F6. apply (stores_step _ _ _ [(lo, le 8 (len aptrs))] m m6 _ lo hi S6); [| | |exact Hwr|].
  { apply store64_runs; [lia|lia|]. intros a [Ha1 Ha2]. apply W6. split; lia. }
  1,2: intros a; blocks; rewrite ?length_starts; lia.
  intros m7 S7 _ _. apply runs_ret. split; [done|]. exact S7.
Qed.

(** ** The result *)

Definition align_of (args envs : list (list Z)) : Z := if Z.odd (len args + len envs + 3) then 8 else 0.

(** What is asked of the memory manager. *)
Definition stack_size (args envs : list (list Z)) (P : list Z) : Z :=
  len (flat args) + len (flat envs) + (len P + 1) + (len args + len envs) * 8 + 8 + AUXV_SIZE +
  align_of args envs + STACK_TOP_BUFFER.

(** Where the vector and the whole stack start. *)
Definition path_addr (top : Z) (args envs : list (list Z)) (P : list Z) : Z :=
  top - STACK_TOP_BUFFER - len (flat args) - len (flat envs) - (len P + 1).
Definition aux_addr (top : Z) (args envs : list (list Z)) (P : list Z) : Z :=
  16 * ((path_addr top args envs P - AUXV_SIZE) / 16) - align_of args envs.
Definition stack_pointer (top : Z) (args envs : list (list Z)) (P : list Z) : Z :=
  aux_addr top args envs P - 8 * len envs - 8 - 8 * len args - 8 - 8.

(** The initial stack of the System V ABI for AMD64: from the stack pointer up, [argc], [argv] with a null,
    [environ] with a null and the auxiliary vector, whose AT_EXECFN entry is the path. *)
Definition abi_stack (m : mem) (r : Z) (args envs : list (list Z)) (P : list Z) (x : auxv64list_t) : Prop :=
  exists aptrs eptrs,
    bytes_at m r (words ([len args] ++ aptrs ++ [0] ++ eptrs ++ [0] ++ aux_words x)) /\
    Forall2 (cstring m) aptrs args /\ Forall2 (cstring m) eptrs envs /\
    a_type (execfn x) = AT_EXECFN /\ cstring m (a_val (execfn x)) P.

Lemma land_lnot_15 x : Z.land x (Z.lnot 15) = 16 * (x / 16).
Proof.
  change 15 with (Z.ones 4). rewrite <- Z.ldiff_land, Z.ldiff_ones_r by lia.
  rewrite Z.shiftl_mul_pow2, Z.shiftr_div_pow2 by lia. change (2 ^ 4) with 16. lia.
Qed.

Lemma stack_pointer_aligned top args envs P : stack_pointer top args envs P mod 16 = 0.
Proof.
  unfold stack_pointer, aux_addr. assert (Hal : (8 * (len args + len envs + 3) + align_of args envs) mod 16 = 0).
  { unfold align_of. set (n := len args + len envs + 3). pose proof (Zmod_odd n). destruct (Z.odd n); zlia. }
  set (q := path_addr top args envs P - AUXV_SIZE). zlia.
Qed.

(** Strings one after the other can be found where they start. *)
Lemma flat_cstrings m strs : forall d, bytes_at m d (flat strs) -> Forall (fun s => 0 ∉ s) strs -> 0 <= d ->
  d + len (flat strs) < W64 -> Forall2 (cstring m) (starts d strs) strs.
Proof.
  induction strs as [|s strs IH]; intros d Hb HF Hd Hw; [constructor|]. apply Forall_cons in HF as [Hs HF].
  rewrite length_flat_cons in Hw. rewrite flat_cons, bytes_at_app, length_app in Hb. destruct Hb as [Hb1 Hb2]. cbn in Hb2.
  constructor; [split; [lia|split; [lia|by split]]|]. apply IH; try done; try lia.
  replace (d + len s + 1) with (d + Z.of_nat (length s + 1)) by lia. done.
Qed.

Lemma source_proper m lo hi argv ptrs strs : source m lo hi argv ptrs strs -> Forall (fun s => 0 ∉ s) strs.
Proof.
  intros (_ & _ & _ & _ & HF). induction HF as [|p s ptrs' strs' (_ & (_ & _ & Hs & _) & _) _ IH]; by constructor.
Qed.

Lemma bytes_at_mono m m1 l : m ⊆ m1 -> forall p, bytes_at m p l -> bytes_at m1 p l.
Proof.
  intros Hm. induction l as [|b l IH]; intros p Hl; [done|]. destruct Hl as [Hb Hl]. split; [|by apply IH].
  by eapply lookup_weaken.
Qed.

Lemma cstring_mono m m1 p s : m ⊆ m1 -> cstring m p s -> cstring m1 p s.
Proof. intros Hm (H1 & H2 & H3 & H4). split; [done|]. split; [done|]. split; [done|]. by eapply bytes_at_mono. Qed.

Lemma source_mono m m1 lo hi argv ptrs strs : m ⊆ m1 -> source m lo hi argv ptrs strs -> source m1 lo hi argv ptrs strs.
Proof.
  intros Hm (H1 & H2 & H3 & H4 & H5). split; [done|]. split; [done|]. split; [by eapply bytes_at_mono|].
  split; [done|]. eapply Forall2_impl; [exact H5|]. cbn. intros p s (Hp & Hs & Hd). split; [done|].
  split; [by eapply cstring_mono|done].
Qed.

(** The blocks that are stored make up the stack. *)
Lemma blocks_abi m m' lo hi args envs P x argS envS aux pathD envD argD :
  stored_all
    [(pathD, P ++ [0]); (aux, words (aux_words x)); (argD, flat args); (argS, words (starts argD args));
     (envD, flat envs); (envS, words (starts envD envs)); (argS + 8 * len args, le 8 0);
     (envS + 8 * len envs, le 8 0); (lo, le 8 (len args))] m m' ->
  Forall (fun s => 0 ∉ s) args -> Forall (fun s => 0 ∉ s) envs -> 0 ∉ P -> 0 < lo -> hi <= W64 - 1 ->
  argS = lo + 8 -> envS = argS + 8 * len args + 8 -> aux = envS + 8 * len envs + 8 -> aux + 128 <= pathD ->
  envD = pathD + len P + 1 -> argD = envD + len (flat envs) -> argD + len (flat args) <= hi ->
  execfn x = mkAux AT_EXECFN pathD ->
  abi_stack m' lo args envs P x /\ forall a, ~ inside lo (hi - lo) a -> m' !! a = m !! a.
Proof.
  intros [HS HF] FA FE HP Hlo Hhi EargS EenvS Eaux Epath EenvD EargD Ehi Ex.
  rewrite !Forall_cons in HS. cbn [fst snd] in HS. destruct HS as (B1 & B2 & B3 & B4 & B5 & B6 & B7 & B8 & B9 & _).
  split.
  - exists (starts argD args), (starts envD envs). split_and!.
    + rewrite !words_app, !bytes_at_app, !length_words, !length_starts. unfold words. cbn [fmap list_fmap concat length].
      rewrite ?app_nil_r, ?length_le. subst argS envS aux. split_and!; try done.
      all: match goal with H : bytes_at ?m0 ?p ?l |- bytes_at ?m0 ?q ?l => replace q with p by lia; exact H end.
    + apply flat_cstrings; try done; lia.
    + apply flat_cstrings; try done; lia.
    + by rewrite Ex.
    + rewrite Ex. cbn. split; [lia|]. split; [lia|]. done.
  - intros a Ha. apply HF. blocks. rewrite !length_starts. unfold inside in Ha.
    assert (length (aux_words x) = 16%nat) as -> by done. lia.
Qed.

Lemma count_all_runs lo hi m ptrs strs argv fuel : source m lo hi argv ptrs strs -> len (flat strs) < W64 ->
  (size m < fuel)%nat ->
  runs (count_strings fuel argv 0 0) m (fun r m' => m' = m /\ r = (len strs, len (flat strs))).
Proof.
  intros Hs Hw Hf. pose proof (source_fuel _ _ _ _ _ _ Hs). pose proof (source_length _ _ _ _ _ _ Hs) as Hl.
  pose proof Hs as (Hpos & _).
  eapply runs_mono; [apply (count_strings_runs lo hi m ptrs strs); rewrite ?Z.add_0_r; try done; lia|].
  intros r m' [-> ->]. by rewrite Hl.
Qed.

(** The counts and sizes as the code computes them. *)
(** Sums that do not wrap, from the inside out. *)
Ltac add64_all := repeat match goal with
  | |- context [add64 ?x ?y] =>
      lazymatch x with context [add64] => fail | _ => lazymatch y with context [add64] => fail | _ =>
        rewrite (add64_small x y) by lia end end
  end.

Ltac sub64_all := repeat match goal with
  | |- context [sub64 ?x ?y] =>
      lazymatch x with context [sub64] => fail | _ => rewrite (sub64_small x y) by lia end
  end.

Lemma align_of_range args envs : 0 <= align_of args envs <= 8.
Proof. unfold align_of. destruct (Z.odd (len args + len envs + 3)); lia. Qed.

Lemma sizes top args envs P : 0 < stack_pointer top args envs P -> top < W64 ->
  let al := if Z.odd (add64 (add64 (len args) (len envs)) 3) then 8 else 0 in
  al = align_of args envs /\
  add64 (add64 (add64 (add64 (add64 (add64 (add64 (len (flat args)) (len (flat envs))) (add64 (len P) 1))
    (mul64 (add64 (len args) (len envs)) 8)) 8) AUXV_SIZE) al) STACK_TOP_BUFFER = stack_size args envs P /\
  sub64 top (stack_size args envs P) = top - stack_size args envs P /\
  stack_pointer top args envs P + 16 <= top - stack_size args envs P.
Proof.
  intros Hsp Htop al. unfold stack_pointer, aux_addr, path_addr, AUXV_SIZE, STACK_TOP_BUFFER in *.
  pose proof (align_of_range args envs).
  assert (Hdiv := Z.mul_div_le (top - 8 - len (flat args) - len (flat envs) - (len P + 1) - 128) 16 ltac:(lia)).
  assert (Hal : al = align_of args envs) by (unfold al, align_of; by rewrite (add64_small (len args)), add64_small by lia).
  split; [done|]. rewrite Hal. unfold stack_size, AUXV_SIZE, STACK_TOP_BUFFER.
  rewrite (add64_small (len (flat args))), (add64_small (len P)), (add64_small (len args)), mul64_small by lia.
  add64_all. rewrite sub64_small by lia. split_and!; lia.
Qed.

Section Result.
Context (MapPages : Z -> Z -> mem -> bool * mem).

Lemma PrepareELFStack_runs top x argv aptrs args env eptrs envs path P m m1 lo :
  lo = stack_pointer top args envs P -> 0 < lo -> top < W64 -> 0 < path ->
  cstring m path P -> disjoint path (len P + 1) lo (top - lo) ->
  source m lo top argv aptrs args -> source m lo top env eptrs envs ->
  MapPages (ALIGN_DOWN (top - stack_size args envs P) PAGE_SIZE)
    (DIV_ROUNDUP (stack_size args envs P) PAGE_SIZE) m = (true, m1) -> m ⊆ m1 -> writable m1 lo (top - lo) ->
  runs (PrepareELFStack MapPages top x argv env path) m (fun r m' =>
    r = lo /\
    abi_stack m' lo args envs P (set_execfn (mkAux AT_EXECFN (path_addr top args envs P)) x) /\
    forall a, ~ inside lo (top - lo) a -> m' !! a = m1 !! a).
Proof.
  intros Elo Hlo Htop Hpath Hc Hcd HA HE Hmap Hsub Hwr. unfold PrepareELFStack.
  pose proof (source_length _ _ _ _ _ _ HA) as LA. pose proof (source_length _ _ _ _ _ _ HE) as LE.
  pose proof HA as (HA0 & _). pose proof HE as (HE0 & _).
  destruct (sizes top args envs P ltac:(lia) Htop) as (Eal & Esz & Ebase & Hfit). cbn zeta in Eal, Esz.
  rewrite <- Elo in Hfit.
  assert (Hbnd : 0 < stack_size args envs P).
  { pose proof (align_of_range args envs). unfold stack_size, AUXV_SIZE, STACK_TOP_BUFFER. lia. }
  rewrite (proj2 (Z.eqb_neq top 0)), (proj2 (Z.eqb_neq argv 0)), (proj2 (Z.eqb_neq env 0)), (proj2 (Z.eqb_neq path 0)) by lia.
  cbn [orb]. apply runs_bind. eapply runs_mono; [by apply strlen_runs|]. intros n m' [-> ->]. cbv zeta.
  unfold rounds. apply runs_bind, runs_gets, runs_bind.
  assert (Hw : len (flat args) + len (flat envs) + len P + 8 * len args + 8 * len envs + 144 < W64).
  { unfold stack_size, AUXV_SIZE, STACK_TOP_BUFFER in Hfit. pose proof (align_of_range args envs). lia. }
  eapply runs_mono; [apply (count_all_runs lo top m aptrs args); [done|lia|lia]|]. intros ? m' [-> ->]. apply runs_bind.
  eapply runs_mono; [apply (count_all_runs lo top m eptrs envs); [done|lia|lia]|]. intros ? m' [-> ->].
  rewrite Esz, Eal, Ebase. apply runs_bind. eapply runs_eq; [unfold map_pages; by rewrite Hmap|]. cbn [negb].
  pose proof (align_of_range args envs) as Hal.
  unfold stack_pointer, aux_addr, path_addr, AUXV_SIZE, STACK_TOP_BUFFER in *.
  rewrite (sub64_small top 8), (add64_small (len P) 1), !(mul64_small 8) by lia.
  set (q := top - 8 - len (flat args) - len (flat envs) - (len P + 1)) in *.
  pose proof (Z.mul_div_le (q - 128) 16 ltac:(lia)) as Hdiv.
  replace (sub64 (top - 8) (len (flat args))) with (top - 8 - len (flat args)) by (rewrite sub64_small; lia).
  replace (sub64 (top - 8 - len (flat args)) (len (flat envs))) with (top - 8 - len (flat args) - len (flat envs))
    by (rewrite sub64_small; lia).
  replace (sub64 (top - 8 - len (flat args) - len (flat envs)) (len P + 1)) with q by (rewrite sub64_small; lia).
  rewrite (sub64_small q 128), land_lnot_15 by lia. set (z := (q - 128) / 16) in *. sub64_all. add64_all.
  rewrite !Nat2Z.id, <- Elo, LA, LE. rewrite LA, LE in Elo. eapply runs_mono.
  { apply (stores_runs lo top m1 path P argv aptrs args env eptrs envs); try done; try lia.
    - by eapply cstring_mono.
    - by eapply source_mono.
    - by eapply source_mono. }
  intros r m' [-> HS]. rewrite <- LA, <- LE in HS. split; [done|].
  eapply (blocks_abi _ _ lo top args envs P); [exact HS|..]; try done; try lia.
  - by eapply source_proper.
  - by eapply source_proper.
  - by destruct Hc as (_ & _ & ? & _).
Qed.

(** The stretch the stack needs is 16 to 31 bytes longer than the size that is computed. *)
Lemma stack_shortfall top args envs P :
  16 <= top - stack_pointer top args envs P - stack_size args envs P <= 31.
Proof.
  unfold stack_pointer, aux_addr, path_addr, stack_size, AUXV_SIZE, STACK_TOP_BUFFER.
  set (q := top - 8 - len (flat args) - len (flat envs) - (len P + 1) - 128).
  pose proof (Z.div_mod q 16 ltac:(lia)). pose proof (Z.mod_pos_bound q 16 ltac:(lia)). lia.
Qed.

(** What [VMM::MapPages] promises: the pages it maps are there, and nothing else changes. *)
Definition maps_pages : Prop := forall addr count m m1, MapPages addr count m = (true, m1) ->
  m ⊆ m1 /\ writable m1 addr (PAGE_SIZE * count).

(** The pages that are mapped hold the whole stack, unless its end lies below their first. *)
Lemma stack_mapped (HM : maps_pages) top args envs P m m1 lo : lo = stack_pointer top args envs P -> 0 < lo -> top < W64 ->
  top mod PAGE_SIZE = 0 -> ALIGN_DOWN (top - stack_size args envs P) PAGE_SIZE <= lo ->
  MapPages (ALIGN_DOWN (top - stack_size args envs P) PAGE_SIZE) (DIV_ROUNDUP (stack_size args envs P) PAGE_SIZE) m = (true, m1) ->
  m ⊆ m1 /\ writable m1 lo (top - lo).
Proof.
  intros Elo Hlo Htop Hal Hfit Hmap. destruct (HM _ _ _ _ Hmap) as [Hsub Hwr]. split; [done|].
  intros a [Ha1 Ha2]. apply Hwr. pose proof (stack_shortfall top args envs P) as Hs. rewrite <- Elo in Hs.
  assert (0 <= stack_size args envs P) by (pose proof (align_of_range args envs); unfold stack_size, AUXV_SIZE, STACK_TOP_BUFFER; lia).
  revert Hfit. unfold ALIGN_DOWN, DIV_ROUNDUP in *. intros Hfit. rewrite add64_small by (unfold W64 in *; zlia). split; zlia.
Qed.

(** C18: a program starts with the stack of the System V ABI. Let [argv] and [env] be null-terminated arrays
    of strings and [path] a string in kernel memory, outside the stretch of the stack that they need, let the
    stack end at a page boundary and [MapPages] map the pages that are asked for. The stretch is 16 to 31
    bytes longer than the size that is computed; when it does not reach below the page in which that size
    ends, [PrepareELFStack] returns a stack pointer that is a multiple of 16, at which lie the number of
    arguments, pointers to copies of the arguments and a null, pointers to copies of the environment and a
    null, and the auxiliary vector with AT_EXECFN pointing to a copy of the path; nothing outside the stretch
    is written. ([stack_below_mapping]: otherwise the stores go below the mapped pages.) *)
Theorem PrepareELFStack_abi (HM : maps_pages) top x argv aptrs args env eptrs envs path P m m1 :
  let lo := stack_pointer top args envs P in
  let size := stack_size args envs P in
  0 < lo -> top < W64 -> top mod PAGE_SIZE = 0 -> 0 < path -> cstring m path P -> disjoint path (len P + 1) lo (top - lo) ->
  source m lo top argv aptrs args -> source m lo top env eptrs envs ->
  MapPages (ALIGN_DOWN (top - size) PAGE_SIZE) (DIV_ROUNDUP size PAGE_SIZE) m = (true, m1) ->
  16 <= top - lo - size <= 31 /\
  (ALIGN_DOWN (top - size) PAGE_SIZE <= lo ->
   runs (PrepareELFStack MapPages top x argv env path) m (fun r m' =>
    r = lo /\ r mod 16 = 0 /\
    abi_stack m' r args envs P (set_execfn (mkAux AT_EXECFN (path_addr top args envs P)) x) /\
    forall a, ~ inside r (top - r) a -> m' !! a = m1 !! a)).
Proof.
  intros lo size Hlo Htop Hal Hpath Hc Hcd HA HE Hmap. split; [apply stack_shortfall|]. intros Hfit.
  destruct (stack_mapped HM top args envs P m m1 lo) as [Hsub Hwr]; try done. eapply runs_mono.
  - by eapply (PrepareELFStack_runs top x argv aptrs args env eptrs envs path P m m1 lo).
  - intros r m' (-> & Habi & Hfr). split; [done|]. split; [apply stack_pointer_aligned|by split].
Qed.
End Result.

(** ** Concrete stacks *)

(** Pages of zeroes. *)
Definition zero_pages (addr count : Z) (m : mem) : bool * mem :=
  (true, m ∪ list_to_map ((fun a => (a, 0)) <$> seqZ addr (4096 * count))).

Lemma zero_pages_spec addr count m :
  m ⊆ snd (zero_pages addr count m) /\ writable (snd (zero_pages addr count m)) addr (4096 * count).
Proof.
  split; [apply map_union_subseteq_l|]. intros a [H1 H2]. cbn. rewrite lookup_union_is_Some. right.
  destruct (list_to_map _ !! a) as [v|] eqn:E; [by exists v|]. apply not_elem_of_list_to_map in E.
  exfalso. apply E. rewrite <- list_fmap_compose. apply list_elem_of_fmap. exists a. split; [done|].
  apply elem_of_seqZ. lia.
Qed.

(** The program "p" with the argument "a" and no environment, and a stack that ends at 8192. *)
Definition demo_stack_mem : mem :=
  put 16 [97; 0] (put 24 [112; 0] (put 64 (words [16; 0]) (put 96 (words [0]) ∅))).
Definition demo_aux : auxv64list_t :=
  let z := mkAux 0 0 in mkAuxList z z z z z z z z.

Lemma demo_argv : source demo_stack_mem 8016 8192 64 [16] [[97]].
Proof.
  split; [lia|]. split; [done|]. split; [by repeat split|]. split; [intros a [? ?] [? ?]; cbn in *; lia|].
  constructor; [|constructor]. split; [lia|]. split.
  - split; [lia|]. split; [done|]. split; [set_solver|by repeat split].
  - intros a [? ?] [? ?]. cbn in *. lia.
Qed.

Lemma demo_env : source demo_stack_mem 8016 8192 96 [] [].
Proof.
  split; [lia|]. split; [done|]. split; [by repeat split|]. split; [intros a [? ?] [? ?]; cbn in *; lia|constructor].
Qed.

Lemma demo_path : cstring demo_stack_mem 24 [112].
Proof. split; [lia|]. split; [done|]. split; [set_solver|by repeat split]. Qed.

Lemma zero_pages_maps : maps_pages zero_pages.
Proof. intros addr count m m1 Hm. destruct (zero_pages_spec addr count m) as [H1 H2]. rewrite Hm in H1, H2. by split. Qed.

Lemma PrepareELFStack_abi_witness :
  runs (PrepareELFStack zero_pages 8192 demo_aux 64 96 24) demo_stack_mem (fun r m' =>
    r = 8016 /\ r mod 16 = 0 /\
    abi_stack m' r [[97]] [] [112] (set_execfn (mkAux AT_EXECFN 8180) demo_aux) /\
    forall a, ~ inside r (8192 - r) a -> m' !! a = snd (zero_pages 4096 1 demo_stack_mem) !! a).
Proof.
  apply (PrepareELFStack_abi zero_pages zero_pages_maps 8192 demo_aux 64 [16] [[97]] 96 [] [] 24 [112] demo_stack_mem
    (snd (zero_pages 4096 1 demo_stack_mem))).
  - reflexivity.
  - reflexivity.
  - reflexivity.
  - reflexivity.
  - exact demo_path.
  - intros a [H1 H2] [H3 H4]. change (stack_pointer 8192 [[97]] [] [112]) with 8016 in H3. cbn in H2. lia.
  - exact demo_argv.
  - exact demo_env.
  - reflexivity.
  - vm_compute. discriminate.
Defined.

(** The size asked for leaves out the two nulls and the rounding of the vector's address: a path of 3943
    characters fills the page that is mapped, and the stores that follow are below it. *)
Example stack_below_mapping :
  PrepareELFStack zero_pages 20480 demo_aux 96 96 4800
    (put 96 (words [0]) (put 4800 (replicate 3943 112 ++ [0]) ∅)) = Fail InvalidAccess.
Proof. vm_compute. reflexivity. Qed.
End ELFStack.
