(* ===== verification/ELF.v ===== *)
(** * ELF.v: loading programs (src/kernel/src/Exec/ELF.cpp)

    [LoadELFFile] reads a program through the file system and maps its segments;
    [CreateELFProcess] makes a process of a program and its interpreter. The rest of the
    kernel is reached through [Loader]; every call that maps memory, or takes or gives back
    a file, a lock, a process or the address space, is recorded in a log.

    Shown: the program header checks; that an aligned segment is mapped page after page
    with every byte of the file in its place; that every file is closed once on every path;
    and that a process that could not be made is deleted once. *)

From S2P Require Import Prelude CLib ELFStack.
Import ELFStack(auxv64_t, auxv64list_t, mkAux, mkAuxList, PrepareELFStack).

#[local] Open Scope Z_scope.
#[local] Open Scope kernel_scope.

Module ELF.

Definition EINVAL : Z := 22.
Definition ENOMEM : Z := 12.
Definition ENOEXEC : Z := 8.
Definition ENOSYS : Z := 38.
Definition ESUCCESS : Z := 0.

(** ** ELF.hpp *)

Definition ET_EXEC : Z := 2.
Definition ET_DYN : Z := 3.
Definition EM_X86_64 : Z := 62.
Definition PT_LOAD : Z := 1.
Definition PT_INTERP : Z := 3.
Definition PT_PHDR : Z := 6.
Definition PT_TLS : Z := 7.
Definition PF_X : Z := 1.
Definition PF_W : Z := 2.
Definition PF_R : Z := 4.
Definition AT_NULL : Z := 0.
Definition AT_PHDR : Z := 3.
Definition AT_PHENT : Z := 4.
Definition AT_PHNUM : Z := 5.
Definition AT_PAGESZ : Z := 6.
Definition AT_ENTRY : Z := 9.
Definition AT_SECURE : Z := 23.
Definition INTERP_BASE : Z := 34359738368.

(** The fields that are used. *)
Record Elf64_Ehdr : Set := mkEhdr {
  e_ident : list Z;
  e_type : Z;
  e_machine : Z;
  e_entry : Z;
  e_phoff : Z;
  e_phentsize : Z;
  e_phnum : Z
}.
Record Elf64_Phdr : Set := mkPhdr {
  p_type : Z;
  p_flags : Z;
  p_offset : Z;
  p_vaddr : Z;
  p_filesz : Z;
  p_memsz : Z
}.
Definition EHDR_SIZE : Z := 64.
Definition PHDR_SIZE : Z := 56.

(** A little-endian field of [n] bytes. *)
Fixpoint value_of (bytes : list Z) : Z :=
  match bytes with [] => 0 | b :: bytes' => b + 256 * value_of bytes' end.
Definition field (off n : nat) (bytes : list Z) : Z := value_of (take n (drop off bytes)).

Definition decode_ehdr (b : list Z) : Elf64_Ehdr :=
  mkEhdr (take 16 b) (field 16 2 b) (field 18 2 b) (field 24 8 b) (field 32 8 b) (field 54 2 b) (field 56 2 b).
Definition decode_phdr (b : list Z) : Elf64_Phdr :=
  mkPhdr (field 0 4 b) (field 4 4 b) (field 8 8 b) (field 16 8 b) (field 32 8 b) (field 40 8 b).

(** The header is one of a 64-bit x86-64 program. *)
Definition header_ok (h : Elf64_Ehdr) : bool :=
  let id i := nth i (e_ident h) 0 in
  (id 0%nat =? 127) && (id 1%nat =? 69) && (id 2%nat =? 76) && (id 3%nat =? 70) &&
  (id 4%nat =? 2) && (id 5%nat =? 1) && (id 7%nat =? 0) &&
  ((e_type h =? ET_EXEC) || (e_type h =? ET_DYN)) && (e_machine h =? EM_X86_64) &&
  negb (e_phoff h =? 0) && negb (e_phnum h =? 0).

(** ** The rest of the kernel *)

Class Loader (W : Type) : Type := {
  VFS_Open : list Z -> W -> Z * Z * W;
  VFS_Close : Z -> W -> W;
  vnode_Read : Z -> Z -> Z -> W -> Z * list Z * W;
  VFS_MapFile : Z -> Z -> Z -> Z -> Z -> W -> Z * Z * W;
  AllocateAnonPages : Z -> Z -> bool -> W -> Z * W;
  RemapPages : Z -> Z -> W -> bool * W;
  kmalloc : Z -> W -> Z * W;
  kfree : Z -> W -> W;
  (* user and kernel memory *)
  get_mem : W -> gmap Z Z;
  put_mem : gmap Z Z -> W -> W;
  MapPages : Z -> Z -> gmap Z Z -> bool * gmap Z Z;
  (* processes *)
  proc_Create : Z -> W -> bool * W;
  proc_HasMapper : Z -> W -> bool;
  proc_SetPPID : Z -> W -> W;
  mapper_SwapToThis : W -> bool * W;
  proc_CreateMainThread : Z -> W -> bool * W;
  thread_GetStack : W -> Z;
  thread_SetStack : Z -> W -> W;
  proc_Start : W -> bool * W
}.

(** What is recorded. [Anon]: address, pages and whether the pages are for the kernel to fill;
    [Filled] and [Mapped]: address, size and offset in the file. *)
Inductive event : Set :=
  | Opened (vnode : Z)
  | Locked (vnode : Z)
  | Unlocked (vnode : Z)
  | Closed (vnode : Z)
  | Anon (addr pages : Z) (kernel : bool)
  | Filled (addr size offset : Z)
  | Mapped (addr size offset prot : Z)
  | Remapped (addr prot : Z)
  | Created (proc : Z)
  | Deleted (proc : Z)
  | SwapProc (proc : Z)
  | SwapKernel.

Record state (W : Type) : Type := mkState { log : list event; world : W }.
Arguments mkState {W} _ _.
Arguments log {W} _.
Arguments world {W} _.

Section Load.
Context {W : Type} `{Loader W}.

Notation S := (M (state W)).

Definition note (e : event) : S unit := modify (fun s => mkState (log s ++ [e]) (world s)).
Definition call {A} (f : W -> A * W) : S A := fun s => let (a, w) := f (world s) in Ok (a, mkState (log s) w).
Definition tell (f : W -> W) : S unit := modify (fun s => mkState (log s) (f (world s))).
Definition on_mem {A} (m : M (gmap Z Z) A) : S A := fun s =>
  match m (get_mem (world s)) with
  | Ok (a, mm) => Ok (a, mkState (log s) (put_mem mm (world s)))
  | Fail f => Fail f
  end.

(** Calls with their record. *)
Definition lock (v : Z) : S unit := note (Locked v).
Definition unlock (v : Z) : S unit := note (Unlocked v).
Definition close (v : Z) : S unit := tell (VFS_Close v) ;;; note (Closed v).
Definition anon (pages addr : Z) (kernel : bool) : S Z :=
  let* p := call (AllocateAnonPages pages addr kernel) in
  whenM (negb (p =? 0)) (note (Anon addr pages kernel)) ;;; ret p.
Definition remap (addr prot : Z) : S bool :=
  let* ok := call (RemapPages addr prot) in
  whenM ok (note (Remapped addr prot)) ;;; ret ok.

(** [ReadExact]: the code and the bytes. *)
Definition ReadExact (vnode size offset : Z) : S (Z * list Z) :=
  let* (rc, bytes) := call (fun w => vnode_Read vnode size offset w) in
  ret (if (rc <? 0) || negb (Z.of_nat (length bytes) =? size)
       then (if rc =? 0 then - EINVAL else rc, bytes) else (0, bytes)).

(** Into the memory of the process. *)
Definition ReadTo (vnode addr size offset : Z) : S Z :=
  let* (rc, bytes) := ReadExact vnode size offset in
  whenM (negb (rc <? 0)) (note (Filled addr size offset)) ;;; ret rc.

(** Leaving with an error. *)
Definition bail (vnode rc : Z) : S (option Z) := unlock vnode ;;; close vnode ;;; ret (Some rc).

(** ** The segments *)

Definition protection (flags : Z) : Z :=
  match flags with
  | 1 => 4
  | 2 => 2
  | 3 => 7
  | 4 => 1
  | 5 => 5
  | 6 => 3
  | 7 => 7
  | _ => 0
  end.

Definition segment_bad (p : Elf64_Phdr) : bool :=
  (p_flags p =? 0) || (7 <? p_flags p) || (p_memsz p =? 0) ||
  negb (p_vaddr p mod PAGE_SIZE =? p_offset p mod PAGE_SIZE).

(** [p_vaddr], [p_memsz], [p_filesz] and [p_offset] as they change. *)
Record rest_t : Set := mkRest { vaddr : Z; memsz : Z; filesz : Z; offset : Z }.

(** The unaligned start: an error, or what is left. *)
Definition load_first (vnode prot : Z) (r : rest_t) : S (option Z * rest_t) :=
  let pages := vaddr r in
  let firstPageOffset := pages mod PAGE_SIZE in
  if negb (0 <? firstPageOffset) then ret (None, r) else
  let count := Z.min (PAGE_SIZE - firstPageOffset) (filesz r) in
  let* mem := anon 1 (ALIGN_DOWN pages PAGE_SIZE) true in
  if mem =? 0 then let* e := bail vnode (- ENOMEM) in ret (e, r) else
  let* rc := ReadTo vnode pages count (offset r) in
  if rc <? 0 then let* e := bail vnode rc in ret (e, r) else
  let v := add64 pages count in
  let ms := sub64 (memsz r) count in
  let remaining := PAGE_SIZE - v mod PAGE_SIZE in
  let '(v, ms) :=
    if (0 <? remaining) && (0 <? ms) then
      let remMSize := Z.min ms remaining in
      let pageDiff := sub64 (ALIGN_UP v PAGE_SIZE) ms in
      let remMSize := if pageDiff <? remMSize then pageDiff else remMSize in
      (add64 v remMSize, sub64 ms remMSize)
    else (v, ms) in
  let* ok := remap (ALIGN_DOWN pages PAGE_SIZE) prot in
  if negb ok then let* e := bail vnode (- ENOEXEC) in ret (e, r) else
  ret (None, mkRest v ms (sub64 (filesz r) count) (add64 (offset r) count)).

(** The whole pages of the file. *)
Definition load_middle (vnode type prot : Z) (r : rest_t) : S (option Z * rest_t) :=
  let byteSize := ALIGN_DOWN (filesz r) PAGE_SIZE in
  if negb (0 <? byteSize) then ret (None, r) else
  let* (rc, mem) := call (fun w => VFS_MapFile (vaddr r) byteSize prot vnode (offset r) w) in
  if (rc <? 0) || (mem =? 0) then
    let* e := bail vnode (if rc <? 0 then rc else - ENOSYS) in ret (e, r)
  else
  note (Mapped (vaddr r) byteSize (offset r) prot) ;;;
  let v := if type =? PT_TLS then mem else vaddr r in
  ret (None, mkRest (add64 v byteSize) (sub64 (memsz r) byteSize) (sub64 (filesz r) byteSize)
               (add64 (offset r) byteSize)).

(** The last page of the file. *)
Definition load_last (vnode prot : Z) (r : rest_t) : S (option Z * rest_t) :=
  let count := filesz r mod PAGE_SIZE in
  if negb (0 <? count) then ret (None, r) else
  let* mem := anon 1 (vaddr r) true in
  if mem =? 0 then let* e := bail vnode (- ENOMEM) in ret (e, r) else
  let* rc := ReadTo vnode (vaddr r) count (offset r) in
  if rc <? 0 then let* e := bail vnode rc in ret (e, r) else
  let* ok := remap (vaddr r) prot in
  if negb ok then let* e := bail vnode (- ENOEXEC) in ret (e, r) else
  ret (None, mkRest (add64 (vaddr r) PAGE_SIZE) (sub64 (memsz r) (Z.min (memsz r) PAGE_SIZE))
               (filesz r) (offset r)).

(** What the file does not fill. *)
Definition load_zero (vnode : Z) (r : rest_t) : S (option Z) :=
  if negb (0 <? memsz r) then ret None else
  let* mem := anon (DIV_ROUNDUP (memsz r) PAGE_SIZE) (ALIGN_DOWN (vaddr r) PAGE_SIZE) false in
  if mem =? 0 then bail vnode (- ENOEXEC) else ret None.

(** A PT_LOAD or PT_TLS segment: an error, with the file closed, or none. *)
Definition load_segment (vnode : Z) (p : Elf64_Phdr) : S (option Z) :=
  if segment_bad p then bail vnode (- ENOEXEC) else
  let prot := protection (p_flags p) in
  let v := if p_type p =? PT_TLS then 0 else p_vaddr p in
  let* (e, r) := load_first vnode prot (mkRest v (p_memsz p) (p_filesz p) (p_offset p)) in
  match e with Some _ => ret e | None =>
  let* (e, r) := load_middle vnode (p_type p) prot r in
  match e with Some _ => ret e | None =>
  let* (e, r) := load_last vnode prot r in
  match e with Some _ => ret e | None => load_zero vnode r end end end.

(** ** LoadELFFile *)

Definition set_phdr (v : Z) (x : auxv64list_t) : auxv64list_t :=
  mkAuxList (mkAux AT_PHDR v) (ELFStack.phnum x) (ELFStack.phent x) (ELFStack.entry x) (ELFStack.execfn x)
    (ELFStack.secure x) (ELFStack.pagesz x) (ELFStack.null x).

(** The entries set from the header. *)
Definition header_aux (h : Elf64_Ehdr) (x : auxv64list_t) : auxv64list_t :=
  mkAuxList (mkAux AT_PHDR (ELFStack.a_val (ELFStack.phdr x))) (mkAux AT_PHNUM (e_phnum h))
    (mkAux AT_PHENT (e_phentsize h)) (mkAux AT_ENTRY (e_entry h)) (ELFStack.execfn x) (mkAux AT_SECURE 0)
    (mkAux AT_PAGESZ PAGE_SIZE) (mkAux AT_NULL (ELFStack.a_val (ELFStack.null x))).

Definition with_vaddr (v : Z) (p : Elf64_Phdr) : Elf64_Phdr :=
  mkPhdr (p_type p) (p_flags p) (p_offset p) v (p_filesz p) (p_memsz p).

(** The loop over the program headers, [n] of which are left: an error, with the file
    closed, or the vector and the header of the interpreter's name. *)
Fixpoint load_phdrs (n : nat) (i vnode base : Z) (h : Elf64_Ehdr) (x : auxv64list_t)
    (interp : option Elf64_Phdr) : S (Z + auxv64list_t * option Elf64_Phdr) :=
  match n with
  | O => ret (inr (x, interp))
  | Datatypes.S n' =>
      let* (rc, bytes) := ReadExact vnode PHDR_SIZE (add64 (e_phoff h) (mul64 i (e_phentsize h))) in
      if rc <? 0 then close vnode ;;; ret (inl rc) else
      let p := decode_phdr bytes in
      let p := with_vaddr (add64 (p_vaddr p) base) p in
      if (p_type p =? PT_TLS) || (p_type p =? PT_LOAD) then
        let* e := load_segment vnode p in
        match e with
        | Some rc => ret (inl rc)
        | None => load_phdrs n' (i + 1) vnode base h x interp
        end
      else if p_type p =? PT_INTERP then load_phdrs n' (i + 1) vnode base h x (Some p)
      else if p_type p =? PT_PHDR then load_phdrs n' (i + 1) vnode base h (set_phdr (p_vaddr p) x) interp
      else load_phdrs n' (i + 1) vnode base h x interp
  end.

(** The name of the interpreter: an error, with the file closed, or a buffer and its contents. *)
Definition load_interp (vnode : Z) (p : Elf64_Phdr) : S (Z + Z * list Z) :=
  let* buf := call (kmalloc (p_filesz p)) in
  if buf =? 0 then unlock vnode ;;; close vnode ;;; ret (inl (- ENOMEM)) else
  let* (rc, bytes) := ReadExact vnode (p_filesz p) (p_offset p) in
  if rc <? 0 then tell (kfree buf) ;;; unlock vnode ;;; close vnode ;;; ret (inl rc)
  else ret (inr (buf, bytes)).

(** An error, or the entry point, the vector and the interpreter's name. [path] is the string. *)
Definition LoadELFFile (path : list Z) (base : Z) (x : auxv64list_t)
  : S (Z + Z * auxv64list_t * option (Z * list Z)) :=
  let* (rc, vnode) := call (fun w => VFS_Open path w) in
  if rc <? 0 then ret (inl rc) else
  note (Opened vnode) ;;;
  lock vnode ;;;
  let* (rc, bytes) := ReadExact vnode EHDR_SIZE 0 in
  if rc <? 0 then close vnode ;;; ret (inl rc) else
  let h := decode_ehdr bytes in
  if negb (header_ok h) then close vnode ;;; ret (inl (- ENOEXEC)) else
  let base := if (base =? 0) && (e_type h =? ET_DYN) then 4194304 else base in
  let* r := load_phdrs (Z.to_nat (e_phnum h)) 0 vnode base h (header_aux h x) None in
  match r with
  | inl rc => ret (inl rc)
  | inr (x, interp) =>
      let finish i := unlock vnode ;;; close vnode ;;; ret (inr (add64 (e_entry h) base, x, i)) in
      match interp with
      | None => finish None
      | Some p =>
          let* name := load_interp vnode p in
          match name with
          | inl rc => ret (inl rc)
          | inr name => finish (Some name)
          end
      end
  end.

(** ** CreateELFProcess *)

Definition zero_aux : auxv64list_t :=
  let z := mkAux 0 0 in mkAuxList z z z z z z z z.

Fixpoint cstr (bytes : list Z) : list Z :=
  match bytes with
  | [] => []
  | c :: bytes' => if c =? 0 then [] else c :: cstr bytes'
  end.

(** [proc->Delete(); delete proc;] and the way back to the kernel's address space. *)
Definition drop_proc (proc rc : Z) : S Z := note (Deleted proc) ;;; ret rc.
Definition back_and_drop (proc rc : Z) : S Z := note SwapKernel ;;; drop_proc proc rc.

(** The program and its interpreter: an error or the entry point and the vector of the program. *)
Definition load_images (path : list Z) : S (Z + Z * auxv64list_t) :=
  let* r := LoadELFFile path 0 zero_aux in
  match r with
  | inl rc => ret (inl rc)
  | inr (entry, x, None) => ret (inr (entry, x))
  | inr (entry, x, Some (buf, name)) =>
      let* r := LoadELFFile (cstr name) INTERP_BASE zero_aux in
      match r with
      | inl rc => ret (inl rc)
      | inr (_, _, Some _) => ret (inl (- ENOEXEC))
      | inr (entry, _, None) => tell (kfree buf) ;;; ret (inr (entry, x))
      end
  end.

(** [proc] is the new process, never null; [pathPtr] points to [path]. Returns the code and [*newProc]. *)
Definition CreateELFProcess (proc : Z) (path : list Z) (pathPtr parent argv env : Z) (noStart : bool) : S (Z * Z) :=
  note (Created proc) ;;;
  let* ok := call (proc_Create proc) in
  if negb ok then let* rc := drop_proc proc (- ENOMEM) in ret (rc, 0) else
  whenM (negb (parent =? 0)) (tell (proc_SetPPID parent)) ;;;
  let* has := gets (fun s => proc_HasMapper proc (world s)) in
  if negb has then let* rc := drop_proc proc (- ENOSYS) in ret (rc, 0) else
  let* ok := call mapper_SwapToThis in
  if negb ok then let* rc := drop_proc proc (- ENOSYS) in ret (rc, 0) else
  note (SwapProc proc) ;;;
  let* r := load_images path in
  match r with
  | inl rc => let* rc := back_and_drop proc rc in ret (rc, 0)
  | inr (entry, x) =>
      let* ok := call (proc_CreateMainThread entry) in
      if negb ok then let* rc := back_and_drop proc (- ENOMEM) in ret (rc, 0) else
      let* top := gets (fun s => thread_GetStack (world s)) in
      let* stack := on_mem (PrepareELFStack MapPages top x argv env pathPtr) in
      if stack =? 0 then let* rc := back_and_drop proc (- ENOMEM) in ret (rc, 0) else
      tell (thread_SetStack stack) ;;;
      let* rc :=
        (if noStart then ret ESUCCESS else
         let* ok := call proc_Start in
         if negb ok then drop_proc proc (- ENOSYS) else ret ESUCCESS) in
      note SwapKernel ;;;
      ret (rc, proc)
  end.

(** ** What is recorded *)

(** Every run of [m] ends and adds events for which [P] holds. *)
Definition does {A} (m : S A) (P : A -> list event -> Prop) : Prop := forall s,
  runs m s (fun a s' => exists evs, log s' = log s ++ evs /\ P a evs).

Lemma does_ret {A} (a : A) (P : A -> list event -> Prop) : P a [] -> does (ret a) P.
Proof. intros HP s. apply runs_ret. exists []. by rewrite app_nil_r. Qed.

Lemma does_bind {A B} (m : S A) (k : A -> S B) P Q : does m P ->
  (forall a e1, P a e1 -> does (k a) (fun b e2 => Q b (e1 ++ e2))) -> does (bind m k) Q.
Proof.
  intros Hm Hk s. apply runs_bind. eapply runs_mono; [apply Hm|]. intros a s1 (e1 & L1 & H1).
  eapply runs_mono; [apply (Hk a e1 H1)|]. intros b s2 (e2 & L2 & H2).
  exists (e1 ++ e2). split; [by rewrite L2, L1, app_assoc|done].
Qed.

Lemma does_mono {A} (m : S A) (P Q : A -> list event -> Prop) : does m P -> (forall a e, P a e -> Q a e) -> does m Q.
Proof. intros Hm HPQ s. eapply runs_mono; [apply Hm|]. intros a s' (e & L & He). exists e. auto. Qed.

Lemma does_note e (P : unit -> list event -> Prop) : P tt [e] -> does (note e) P.
Proof. intros HP s. apply runs_modify. by exists [e]. Qed.

Lemma does_tell f (P : unit -> list event -> Prop) : P tt [] -> does (tell f) P.
Proof. intros HP s. apply runs_modify. exists []. cbn. by rewrite app_nil_r. Qed.

Lemma does_call {A} (f : W -> A * W) (P : A -> list event -> Prop) : (forall a, P a []) -> does (call f) P.
Proof.
  intros HP s. unfold call. destruct (f (world s)) as [a w] eqn:Ef. eapply runs_eq; [by rewrite Ef|].
  exists []. cbn. by rewrite app_nil_r.
Qed.

Lemma does_if {A} (b : bool) (m1 m2 : S A) P : (b = true -> does m1 P) -> (b = false -> does m2 P) ->
  does (if b then m1 else m2) P.
Proof. destruct b; auto. Qed.

Lemma does_when (b : bool) (m : S unit) (P : unit -> list event -> Prop) :
  (b = true -> does m P) -> (b = false -> P tt []) -> does (whenM b m) P.
Proof. destruct b; intros H1 H2; [auto|by apply does_ret, H2]. Qed.

(** Files opened ([true]) and closed. *)
Fixpoint files (evs : list event) : list (bool * Z) :=
  match evs with
  | [] => []
  | Opened v :: evs' => (true, v) :: files evs'
  | Closed v :: evs' => (false, v) :: files evs'
  | _ :: evs' => files evs'
  end.

Lemma files_app e1 e2 : files (e1 ++ e2) = files e1 ++ files e2.
Proof. induction e1 as [|[] e1 IH]; cbn; by rewrite ?IH. Qed.

(** ** Where a segment is *)

(** Mappings that follow one another from [a]: where they end. *)
Fixpoint cover (a : Z) (evs : list event) : option Z :=
  match evs with
  | [] => Some a
  | Anon b n _ :: evs' => if b =? a then cover (a + PAGE_SIZE * n) evs' else None
  | Mapped b sz _ _ :: evs' => if b =? a then cover (a + sz) evs' else None
  | _ :: evs' => cover a evs'
  end.

(** The offset in the file of the byte at [a]. *)
Fixpoint file_byte (evs : list event) (a : Z) : option Z :=
  match evs with
  | [] => None
  | Filled b sz off :: evs' | Mapped b sz off _ :: evs' =>
      if (b <=? a) && (a <? b + sz) then Some (off + (a - b)) else file_byte evs' a
  | _ :: evs' => file_byte evs' a
  end.

(** The events of an aligned segment. *)
Definition segment_events (p : Elf64_Phdr) : list event :=
  let prot := protection (p_flags p) in
  let whole := ALIGN_DOWN (p_filesz p) PAGE_SIZE in
  let last := p_filesz p - whole in
  let v := p_vaddr p + whole in
  (if 0 <? whole then [Mapped (p_vaddr p) whole (p_offset p) prot] else []) ++
  (if 0 <? last then [Anon v 1 true; Filled v last (p_offset p + whole); Remapped v prot] else []) ++
  (let v := if 0 <? last then v + PAGE_SIZE else v in
   let left := p_memsz p - (v - p_vaddr p) in
   if 0 <? left then [Anon v (DIV_ROUNDUP left PAGE_SIZE) false] else []).

Lemma anon_does pages addr k : does (anon pages addr k) (fun p evs =>
  evs = if p =? 0 then [] else [Anon addr pages k]).
Proof.
  unfold anon. eapply does_bind; [by apply (does_call _ (fun _ e => e = []))|]. intros p ? ->.
  eapply (does_bind _ _ (fun _ e => e = if p =? 0 then [] else [Anon addr pages k])).
  - apply does_when; destruct (p =? 0); try done. intros _. by apply does_note.
  - intros ? ? ->. apply does_ret. cbn. by rewrite app_nil_r.
Qed.

Lemma remap_does addr prot : does (remap addr prot) (fun ok evs => evs = if ok then [Remapped addr prot] else []).
Proof.
  unfold remap. eapply does_bind; [by apply (does_call _ (fun _ e => e = []))|]. intros ok ? ->.
  eapply (does_bind _ _ (fun _ e => e = if ok : bool then [Remapped addr prot] else [])).
  - apply does_when; destruct ok; try done. intros _. by apply does_note.
  - intros ? ? ->. apply does_ret. cbn. by rewrite app_nil_r.
Qed.

Lemma ReadExact_does v size off : does (ReadExact v size off) (fun _ evs => evs = []).
Proof.
  unfold ReadExact. eapply does_bind; [by apply (does_call _ (fun _ e => e = []))|]. intros [rc bytes] ? ->.
  by apply does_ret.
Qed.

Lemma ReadTo_does v addr size off : does (ReadTo v addr size off) (fun rc evs =>
  evs = if rc <? 0 then [] else [Filled addr size off]).
Proof.
  unfold ReadTo. eapply does_bind; [apply ReadExact_does|]. intros [rc bytes] ? ->.
  eapply (does_bind _ _ (fun _ e => e = if rc <? 0 then [] else [Filled addr size off])).
  - apply does_when; destruct (rc <? 0); try done. intros _. by apply does_note.
  - intros ? ? ->. apply does_ret. cbn. by rewrite app_nil_r.
Qed.

Lemma bail_does v rc : does (bail v rc) (fun e evs => e = Some rc /\ evs = [Unlocked v; Closed v]).
Proof.
  unfold bail, unlock, close. eapply does_bind; [by apply (does_note _ (fun _ e => e = [Unlocked v]))|]. intros ? ? ->.
  eapply (does_bind _ _ (fun _ e => e = [Closed v])); [|intros ? ? ->; by apply does_ret].
  eapply does_bind; [by apply (does_tell _ (fun _ e => e = []))|]. intros ? ? ->. by apply does_note.
Qed.

Lemma bail_pair_does v rc (r : rest_t) : does (let* e := bail v rc in ret (e, r))
  (fun er evs => er = (Some rc, r) /\ evs = [Unlocked v; Closed v]).
Proof. eapply does_bind; [apply bail_does|]. intros e ? [-> ->]. by apply does_ret. Qed.

(** A part of the loader that fails has closed the file. *)
Definition part (v : Z) {A} (e : option A) (evs : list event) : Prop :=
  files evs = match e with Some _ => [(false, v)] | None => [] end.

Ltac bails := eapply does_mono; [apply bail_pair_does|]; intros ? ? [-> ->]; split; [reflexivity|done].

Lemma load_first_does v prot r : does (load_first v prot r) (fun er evs =>
  part v er.1 evs /\ (vaddr r mod PAGE_SIZE = 0 -> er = (None, r) /\ evs = [])).
Proof.
  unfold load_first. cbv zeta. apply does_if; intros Hoff.
  { apply does_ret. split; [done|]. done. }
  apply negb_false_iff, Z.ltb_lt in Hoff.
  eapply does_mono with (P := fun er evs => part v er.1 evs); [|intros er evs Hp; split; [done|lia]].
  eapply does_bind; [apply anon_does|]. intros mem ? ->. destruct (mem =? 0); [eapply does_mono; [apply bail_pair_does|]; by intros ? ? [-> ->]|].
  eapply does_bind; [apply ReadTo_does|]. intros rc ? ->. destruct (rc <? 0); [eapply does_mono; [apply bail_pair_does|]; by intros ? ? [-> ->]|].
  match goal with |- does (let '(_, _) := ?x in _) _ => destruct x as [v' ms] end.
  eapply does_bind; [apply remap_does|]. intros ok ? ->. destruct ok; cbn [negb]; [by apply does_ret|].
  eapply does_mono; [apply bail_pair_does|]; by intros ? ? [-> ->].
Qed.

Lemma load_middle_does v type prot r : does (load_middle v type prot r) (fun er evs =>
  part v er.1 evs /\ (er.1 = None -> type <> PT_TLS ->
    let whole := ALIGN_DOWN (filesz r) PAGE_SIZE in
    evs = (if 0 <? whole then [Mapped (vaddr r) whole (offset r) prot] else []) /\
    er.2 = if 0 <? whole then mkRest (add64 (vaddr r) whole) (sub64 (memsz r) whole) (sub64 (filesz r) whole)
                                (add64 (offset r) whole) else r)).
Proof.
  unfold load_middle. cbv zeta. apply does_if; intros Hb.
  { apply does_ret. split; [done|]. intros _ _. apply negb_true_iff in Hb. by rewrite Hb. }
  apply negb_false_iff in Hb. rewrite Hb. eapply does_bind; [by apply (does_call _ (fun _ e => e = []))|].
  intros [rc mem] ? ->. destruct ((rc <? 0) || (mem =? 0)); [bails|].
  eapply does_bind; [by apply (does_note _ (fun _ e => e = [Mapped (vaddr r) (ALIGN_DOWN (filesz r) PAGE_SIZE) (offset r) prot]))|].
  intros ? ? ->. apply does_ret. split; [done|]. intros _ Ht. by rewrite (proj2 (Z.eqb_neq type PT_TLS) Ht).
Qed.

Lemma load_last_does v prot r : does (load_last v prot r) (fun er evs =>
  part v er.1 evs /\ (er.1 = None ->
    let last := filesz r mod PAGE_SIZE in
    evs = (if 0 <? last then [Anon (vaddr r) 1 true; Filled (vaddr r) last (offset r); Remapped (vaddr r) prot] else []) /\
    er.2 = if 0 <? last then mkRest (add64 (vaddr r) PAGE_SIZE) (sub64 (memsz r) (Z.min (memsz r) PAGE_SIZE))
                               (filesz r) (offset r) else r)).
Proof.
  unfold load_last. cbv zeta. apply does_if; intros Hb.
  { apply does_ret. split; [done|]. intros _. apply negb_true_iff in Hb. by rewrite Hb. }
  apply negb_false_iff in Hb. rewrite Hb. eapply does_bind; [apply anon_does|]. intros mem ? ->. destruct (mem =? 0); [bails|].
  eapply does_bind; [apply ReadTo_does|]. intros rc ? ->. destruct (rc <? 0); [bails|].
  eapply does_bind; [apply remap_does|]. intros ok ? ->. destruct ok; cbn [negb]; [|bails].
  apply does_ret. by split.
Qed.

Lemma load_zero_does v r : does (load_zero v r) (fun e evs => part v e evs /\ (e = None ->
  evs = if 0 <? memsz r then [Anon (ALIGN_DOWN (vaddr r) PAGE_SIZE) (DIV_ROUNDUP (memsz r) PAGE_SIZE) false] else [])).
Proof.
  unfold load_zero. apply does_if; intros Hb.
  { apply does_ret. split; [done|]. intros _. apply negb_true_iff in Hb. by rewrite Hb. }
  apply negb_false_iff in Hb. rewrite Hb. eapply does_bind; [apply anon_does|]. intros mem ? ->.
  destruct (mem =? 0); [|by apply does_ret]. eapply does_mono; [apply bail_does|]. by intros ? ? [-> ->].
Qed.

(** An aligned PT_LOAD segment, no larger in the file than in memory. *)
Definition aligned (p : Elf64_Phdr) : Prop :=
  p_type p = PT_LOAD /\ p_vaddr p mod PAGE_SIZE = 0 /\ 0 <= p_vaddr p /\ 0 <= p_offset p /\
  0 <= p_filesz p <= p_memsz p /\ p_vaddr p + p_memsz p + PAGE_SIZE < W64 /\ p_offset p + p_filesz p < W64.

Lemma ALIGN_DOWN_whole x : 0 <= x -> x mod PAGE_SIZE = 0 -> ALIGN_DOWN x PAGE_SIZE = x.
Proof. intros Hx Hm. unfold ALIGN_DOWN. zlia. Qed.

Lemma load_segment_does v p : does (load_segment v p) (fun e evs =>
  part v e evs /\ (aligned p -> e = None -> evs = segment_events p)).
Proof.
  unfold load_segment. apply does_if; intros _.
  { eapply does_mono; [apply bail_does|]. by intros ? ? [-> ->]. }
  cbv zeta. eapply does_bind; [apply load_first_does|]. intros [e1 r1] ev1 [P1 F1]. cbn [fst] in P1.
  destruct e1 as [e1|].
  { apply does_ret. rewrite app_nil_r. split; [done|]. intros (Ht & Hm & _) ?. done. }
  eapply does_bind; [apply load_middle_does|]. intros [e2 r2] ev2 [P2 F2]. cbn [fst snd] in *.
  destruct e2 as [e2|].
  { apply does_ret. rewrite app_nil_r. split; [|done]. unfold part in *. by rewrite files_app, P1, P2. }
  eapply does_bind; [apply load_last_does|]. intros [e3 r3] ev3 [P3 F3]. cbn [fst snd] in *.
  destruct e3 as [e3|].
  { apply does_ret. rewrite app_nil_r. split; [|done]. unfold part in *. by rewrite !files_app, P1, P2, P3. }
  eapply does_mono; [apply load_zero_does|]. intros e ev4 [P4 F4].
  split; [unfold part in *; by rewrite !files_app, P1, P2, P3|].
  intros (Ht & Hm & Hv & Ho & Hsz & Hw1 & Hw2) ->. rewrite Ht in F1, F2. cbn [Z.eqb PT_LOAD PT_TLS] in F1, F2.
  destruct (F1 Hm) as [[= ->] ->]. cbn [vaddr memsz filesz offset] in *. clear F1.
  destruct (F2 eq_refl ltac:(done)) as [-> ->]. destruct (F3 eq_refl) as [-> ->]. rewrite (F4 eq_refl). clear F2 F3 F4.
  unfold segment_events. cbv zeta. set (whole := ALIGN_DOWN (p_filesz p) PAGE_SIZE).
  assert (Hwh : whole = p_filesz p / PAGE_SIZE * PAGE_SIZE) by done.
  assert (Hlast : p_filesz p - whole = p_filesz p mod PAGE_SIZE) by zlia.
  assert (0 <= whole <= p_filesz p) by zlia. assert (whole mod PAGE_SIZE = 0) by zlia.
  fold whole. set (r2 := if 0 <? whole then mkRest _ _ _ _ else _).
  assert (Hr2 : r2 = mkRest (p_vaddr p + whole) (p_memsz p - whole) (p_filesz p - whole) (p_offset p + whole)).
  { unfold r2. destruct (0 <? whole) eqn:Ew; zb; [by rewrite !add64_small, !sub64_small by lia|f_equal; lia]. }
  rewrite Hr2. clearbody r2. cbn [vaddr memsz filesz offset].
  replace ((p_filesz p - whole) mod PAGE_SIZE) with (p_filesz p - whole) by zlia.
  cbn [app]. f_equal. f_equal. destruct (0 <? p_filesz p - whole) eqn:El; zb; cbn [vaddr memsz].
  - rewrite add64_small, sub64_small by lia.
    replace (0 <? p_memsz p - whole - Z.min (p_memsz p - whole) PAGE_SIZE)
      with (0 <? p_memsz p - (p_vaddr p + whole + PAGE_SIZE - p_vaddr p)) by lia.
    destruct (0 <? p_memsz p - (p_vaddr p + whole + PAGE_SIZE - p_vaddr p)) eqn:Ez; zb; [|done].
    rewrite ALIGN_DOWN_whole by zlia. do 3 f_equal. lia.
  - replace (p_memsz p - (p_vaddr p + whole - p_vaddr p)) with (p_memsz p - whole) by lia.
    rewrite ALIGN_DOWN_whole by zlia. done.
Qed.

(** The events of an aligned segment tile it, with every byte of the file in its place. *)
Lemma segment_events_tile p : aligned p ->
  cover (p_vaddr p) (segment_events p) = Some (p_vaddr p + ALIGN_UP (p_memsz p) PAGE_SIZE) /\
  forall i, 0 <= i -> file_byte (segment_events p) (p_vaddr p + i) =
    if i <? p_filesz p then Some (p_offset p + i) else None.
Proof.
  intros (_ & Hm & Hv & Ho & Hsz & Hw1 & Hw2). unfold segment_events. cbv zeta.
  set (whole := ALIGN_DOWN (p_filesz p) PAGE_SIZE).
  assert (Hwh : whole = p_filesz p / PAGE_SIZE * PAGE_SIZE) by done.
  assert (Hb : 0 <= whole <= p_filesz p /\ p_filesz p - whole < PAGE_SIZE) by zlia.
  assert (Hup : forall n, 0 <= n -> n + PAGE_SIZE < W64 -> PAGE_SIZE * DIV_ROUNDUP n PAGE_SIZE = ALIGN_UP n PAGE_SIZE).
  { intros n Hn1 Hn2. unfold ALIGN_UP, DIV_ROUNDUP. rewrite add64_small by lia. rewrite mul64_small by zlia. lia. }
  split.
  - assert (HA : forall n, 0 <= n -> n + PAGE_SIZE < W64 -> ALIGN_UP n PAGE_SIZE = (n + 4095) / PAGE_SIZE * PAGE_SIZE).
    { intros n Hn1 Hn2. unfold ALIGN_UP, DIV_ROUNDUP. rewrite add64_small by lia. rewrite mul64_small by zlia. done. }
    rewrite HA by lia.
    destruct (0 <? whole) eqn:E1, (0 <? p_filesz p - whole) eqn:E2; zb; cbn [app cover]; rewrite ?Z.eqb_refl;
      match goal with |- context [0 <? ?x] => destruct (0 <? x) eqn:E3 end; zb; cbn [cover]; rewrite ?Z.eqb_refl;
      repeat match goal with |- context [if ?a =? ?b then _ else _] => replace (a =? b) with true by lia end;
      rewrite ?Hup, ?HA by lia; f_equal; zlia.
  - intros i Hi. destruct (0 <? whole) eqn:E1, (0 <? p_filesz p - whole) eqn:E2; zb; cbn [app file_byte];
      match goal with |- context [if 0 <? ?x then [Anon _ _ _] else []] => destruct (0 <? x) end; cbn [file_byte];
      repeat match goal with |- context [if (?a <=? ?b) && (?b <? ?c) then _ else _] =>
        destruct ((a <=? b) && (b <? c)) eqn:?E end;
      rewrite ?andb_true_iff, ?andb_false_iff in *; destruct (i <? p_filesz p) eqn:?E; zb; try (f_equal; lia); lia.
Qed.

(** [close], with and without giving the lock back. *)
Lemma close_does v : does (close v) (fun _ evs => evs = [Closed v]).
Proof.
  unfold close. eapply does_bind; [by apply (does_tell _ (fun _ e => e = []))|]. intros ? ? ->. by apply does_note.
Qed.

Lemma unlock_close_does {A} v (a : A) : does (unlock v ;;; close v ;;; ret a) (fun b evs => b = a /\ files evs = [(false, v)]).
Proof.
  eapply does_bind; [by apply (does_note _ (fun _ e => e = [Unlocked v]))|]. intros ? ? ->.
  eapply does_bind; [apply close_does|]. intros ? ? ->. by apply does_ret.
Qed.

Lemma close_ret_does {A} v (a : A) : does (close v ;;; ret a) (fun b evs => b = a /\ files evs = [(false, v)]).
Proof. eapply does_bind; [apply close_does|]. intros ? ? ->. by apply does_ret. Qed.

(** The same for results that are errors or values. *)
Definition part_sum (v : Z) {A} (r : Z + A) (evs : list event) : Prop :=
  files evs = match r with inl _ => [(false, v)] | inr _ => [] end.

Lemma load_phdrs_does n : forall i v base h x interp, does (load_phdrs n i v base h x interp) (part_sum v).
Proof.
  induction n as [|n IH]; intros i v base h x interp; cbn [load_phdrs]; [by apply does_ret|].
  eapply does_bind; [apply ReadExact_does|]. intros [rc bytes] ? ->. cbn [app].
  apply does_if; intros _; [eapply does_mono; [apply close_ret_does|]; by intros ? ? [-> ?]|]. cbv zeta.
  apply does_if; intros _.
  { eapply does_bind; [apply load_segment_does|]. intros [rc'|] ev [P1 _].
    - apply does_ret. by rewrite app_nil_r.
    - eapply does_mono; [apply IH|]. unfold part, part_sum in *. intros r e2 H2. by rewrite files_app, P1. }
  apply does_if; intros _; [apply IH|]. apply does_if; intros _; apply IH.
Qed.

Lemma load_interp_does v p : does (load_interp v p) (part_sum v).
Proof.
  unfold load_interp. eapply does_bind; [by apply (does_call _ (fun _ e => e = []))|]. intros buf ? ->. cbn [app].
  apply does_if; intros _; [eapply does_mono; [apply unlock_close_does|]; by intros ? ? [-> ?]|].
  eapply does_bind; [apply ReadExact_does|]. intros [rc bytes] ? ->. cbn [app].
  apply does_if; intros _; [|by apply does_ret].
  eapply does_bind; [by apply (does_tell _ (fun _ e => e = []))|]. intros ? ? ->.
  eapply does_mono; [apply unlock_close_does|]; by intros ? ? [-> ?].
Qed.

Lemma LoadELFFile_does path base x : does (LoadELFFile path base x) (fun r evs =>
  (files evs = [] /\ exists rc, r = inl rc) \/ exists v, files evs = [(true, v); (false, v)]).
Proof.
  unfold LoadELFFile. eapply does_bind; [by apply (does_call _ (fun _ e => e = []))|]. intros [rc v] ? ->. cbn [app].
  apply does_if; intros _; [apply does_ret; left; eauto|].
  eapply does_bind; [by apply (does_note _ (fun _ e => e = [Opened v]))|]. intros ? ? ->.
  eapply does_bind; [by apply (does_note _ (fun _ e => e = [Locked v]))|]. intros ? ? ->.
  eapply does_mono with (P := fun _ evs => files evs = [(false, v)]); [|intros r evs Hf; right; exists v; cbn; by rewrite Hf].
  eapply does_bind; [apply ReadExact_does|]. intros [rc2 bytes] ? ->. cbn [app].
  apply does_if; intros _; [eapply does_mono; [apply close_ret_does|]; by intros ? ? [-> ?]|]. cbv zeta.
  apply does_if; intros _; [eapply does_mono; [apply close_ret_does|]; by intros ? ? [-> ?]|].
  eapply does_bind; [apply load_phdrs_does|]. intros [rc3|[x' [p|]]] ev P1; unfold part_sum in P1.
  - apply does_ret. by rewrite app_nil_r.
  - eapply does_bind; [apply load_interp_does|]. intros [rc4|name] ev2 P2; unfold part_sum in P2.
    + apply does_ret. by rewrite app_nil_r, files_app, P1, P2.
    + eapply does_mono; [apply unlock_close_does|]. intros r ev3 [-> P3]. by rewrite !files_app, P1, P2, P3.
  - eapply does_mono; [apply unlock_close_does|]. intros r ev3 [-> P3]. by rewrite !files_app, P1, P3.
Qed.

(** C20: loading does not leak files. [LoadELFFile] ends for every file, whatever its contents and whatever
    the file system and the memory manager answer; it opens at most one file and closes it again exactly
    once, on every path. *)
Theorem LoadELFFile_closes path base x s :
  runs (LoadELFFile path base x) s (fun r s' => exists evs, log s' = log s ++ evs /\
    ((files evs = [] /\ exists rc, r = inl rc) \/ exists v, files evs = [(true, v); (false, v)])).
Proof. apply LoadELFFile_does. Qed.

(** C19: an aligned segment is loaded as the file says. For a PT_LOAD segment that starts on a page boundary and
    is no larger in the file than in memory, [load_segment] either fails, closing the file, or makes
    mappings that follow one another from the start of the segment to its end, rounded up to a page; and
    the bytes of memory that come from the file are exactly the first [p_filesz], each from its offset. *)
Theorem load_segment_places v p s : aligned p ->
  runs (load_segment v p) s (fun e s' => exists evs, log s' = log s ++ evs /\
    match e with
    | Some _ => files evs = [(false, v)]
    | None => files evs = [] /\
        cover (p_vaddr p) evs = Some (p_vaddr p + ALIGN_UP (p_memsz p) PAGE_SIZE) /\
        forall i, 0 <= i -> file_byte evs (p_vaddr p + i) =
          if i <? p_filesz p then Some (p_offset p + i) else None
    end).
Proof.
  intros Hal. eapply runs_mono; [apply load_segment_does|]. intros e s' (evs & L & P & HE). exists evs. split; [done|].
  unfold part in P. destruct e; [done|]. split; [done|]. rewrite (HE Hal eq_refl). by apply segment_events_tile.
Qed.
End Load.

(** ** A small kernel

    Everything succeeds; a file is its bytes. Requests of a million pages or more fail. *)
#[export] Instance demo_loader : Loader (list Z) := {
  VFS_Open _ w := (0, 7, w);
  VFS_Close _ w := w;
  vnode_Read _ size off w := (0, take (Z.to_nat size) (drop (Z.to_nat off) w), w);
  VFS_MapFile a _ _ _ _ w := (0, a, w);
  AllocateAnonPages n a _ w := (if n <? 1048576 then a else 0, w);
  RemapPages _ _ w := (true, w);
  kmalloc _ w := (64, w);
  kfree _ w := w;
  get_mem _ := ∅;
  put_mem _ w := w;
  MapPages _ _ m := (true, m);
  proc_Create _ w := (true, w);
  proc_HasMapper _ _ := true;
  proc_SetPPID _ w := w;
  mapper_SwapToThis w := (true, w);
  proc_CreateMainThread _ w := (true, w);
  thread_GetStack _ := 4096;
  thread_SetStack _ w := w;
  proc_Start w := (true, w)
}.

(** 4100 bytes of the file from offset 4096, and 9000 bytes in memory. *)
Definition demo_segment : Elf64_Phdr := mkPhdr PT_LOAD 5 4096 4198400 4100 9000.
Definition demo_file : state (list Z) := mkState [] (replicate 9000 1).

Lemma load_segment_places_witness :
  aligned demo_segment /\
  runs (load_segment 7 demo_segment) demo_file (fun e s' => exists evs, log s' = [] ++ evs /\
    match e with
    | Some _ => files evs = [(false, 7)]
    | None => files evs = [] /\ cover 4198400 evs = Some (4198400 + ALIGN_UP 9000 4096) /\
        forall i, 0 <= i -> file_byte evs (4198400 + i) = if i <? 4100 then Some (4096 + i) else None
    end).
Proof.
  assert (Hal : aligned demo_segment) by (unfold aligned; split_and!; done).
  exact (conj Hal (load_segment_places 7 demo_segment demo_file Hal)).
Defined.

(** A segment of two pages that does not start on a page boundary is not loaded: after the first, partial,
    page the address moves on by a whole page that the file fills, the next page of the file is mapped a
    page too high, and the size that is left wraps around. *)
Example unaligned_segment_fails :
  match load_segment 7 (mkPhdr PT_LOAD 6 2048 4200448 8192 8192) (mkState [] (replicate 12000 1)) with
  | Ok (e, s') => e = Some (- ENOEXEC) /\ Mapped 4206592 4096 4096 3 ∈ log s'
  | Fail _ => False
  end.
Proof. vm_compute. split; [reflexivity|]. repeat constructor. Qed.

(** The checks of the header leave the file locked. *)
Example bad_header_stays_locked :
  match LoadELFFile [] 0 zero_aux (mkState [] (replicate 64 0)) with
  | Ok (_, s') => log s' = [Opened 7; Locked 7; Closed 7]
  | Fail _ => False
  end.
Proof. vm_compute. reflexivity. Qed.
End ELF.
