(* ===== verification/InitRAMFS.v ===== *)
(** * InitRAMFS.v: unpacking the initial RAM file system (src/kernel/src/fs/InitRAMFS.cpp)

    The boot loader leaves a ustar archive in memory. It is read header by header, and the
    files and directories are made through the file system, which is an interface here
    ([FileSystem]) with its promises ([Laws]); InitRAMFSSpec.v keeps them with VFS.v and TempFS.v.
    Memory and strings are those of CLib.v; the archive itself is written to,
    where the slash at the end of a directory's name is cut off.

    Shown, from the promises: an archive that was made from a list of files and directories, each below a
    directory that is there, is unpacked to just these, with their contents and attributes. *)

From S2P Require Import Prelude CLib TempFS.
Import CLib.
Import TempFS.TempFS(VAttr, mkAttr, a_type, a_mode, a_uid, a_gid, a_fsid, a_inode, a_nlinks, a_size, a_fsBlockSize,
  a_atime, a_mtime, a_ctime, a_blocks).

#[local] Open Scope Z_scope.
#[local] Open Scope kernel_scope.

Module InitRAMFS.

Definition ENOSYS : Z := 38.
Definition SLASH : Z := 47.

(** Members of [USTARItemHeader] and their offsets. *)
Definition off_fileName : Z := 0.
Definition off_mode : Z := 100.
Definition off_uid : Z := 108.
Definition off_gid : Z := 116.
Definition off_size : Z := 124.
Definition off_mtime : Z := 136.
Definition off_type : Z := 156.
Definition off_ID : Z := 257.

(** ** The file system and the allocator *)
Class FileSystem (E : Type) : Type := {
  (* memory for so many characters can be had *)
  can_new : Z -> M E bool;
  (* parent, name, working directory *)
  VFS_CreateFile : list Z -> list Z -> Z -> M E Z;
  VFS_CreateDir : list Z -> list Z -> Z -> M E Z;
  (* path, working directory; result and vnode *)
  VFS_LookupPath : list Z -> Z -> M E (Z * Z);
  Lock : Z -> M E unit;
  Unlock : Z -> M E unit;
  GetAttr : Z -> M E (Z * VAttr);
  SetAttr : Z -> VAttr -> M E Z;
  (* vnode, contents; result and number of bytes *)
  Write : Z -> list Z -> M E (Z * Z)
}.

(** Memory, the number of buffers allocated and not freed, and the rest. *)
Record state (E : Type) : Type := mk { memory : mem; buffers : Z; env : E }.
Arguments mk {E} _ _ _.
Arguments memory {E} _.
Arguments buffers {E} _.
Arguments env {E} _.

Section Ops.
Context {E : Type} `{FileSystem E}.

Notation S := (M (state E)).

Definition on_mem {A} (f : M mem A) : S A := fun s =>
  match f (memory s) with Ok (a, m) => Ok (a, mk m (buffers s) (env s)) | Fail e => Fail e end.
Definition call {A} (f : M E A) : S A := fun s =>
  match f (env s) with Ok (a, e) => Ok (a, mk (memory s) (buffers s) e) | Fail e => Fail e end.
Definition count_buffers (n : Z) : S unit := modify (fun s => mk (memory s) (buffers s + n) (env s)).

(** What a callee reads: so many bytes, a string. *)
Fixpoint loads (n : nat) (p : Z) : M mem (list Z) :=
  match n with
  | O => ret []
  | Datatypes.S n' => let* b := load p in let* l := loads n' (add64 p 1) in ret (b :: l)
  end.
Definition load_string (p : Z) : M mem (list Z) := let* n := strlen p in loads (Z.to_nat n) p.

(** [n] characters are left. *)
Fixpoint octal_loop (n : nat) (str i v : Z) : M mem Z :=
  match n with
  | O => ret v
  | Datatypes.S n' =>
      let* c := load (add64 str i) in
      if c =? 0 then ret v else octal_loop n' str (add64 i 1) (wrap64 (mul64 v 8 + (i8 c - 48)))
  end.
Definition StringOctalToNum (str len : Z) : M mem Z := octal_loop (Z.to_nat len) str 0 0.

(** [memcmp(p, l, length of l) == 0] *)
Fixpoint starts_with (p : Z) (l : list Z) : M mem bool :=
  match l with
  | [] => ret true
  | c :: l' => let* b := load p in if b =? c then starts_with (add64 p 1) l' else ret false
  end.
Definition ustar : list Z := [117; 115; 116; 97; 114].

(** The parent's path and the address of the name; the slash at the end of the name of a
    directory is overwritten. A parent other than the root is in a buffer. *)
Definition last_slash (fileName : Z) : M mem Z :=
  let* name := strrchr fileName SLASH in
  if name =? 0 then ret name else
  let* c := load (add64 name 1) in
  if c =? 0 then store name 0 ;;; strrchr fileName SLASH else ret name.
Definition split_name (fileName : Z) : S (list Z * Z) :=
  let* name := on_mem (last_slash fileName) in
  if name =? 0 then ret ([SLASH], fileName) else
  let length := sub64 name fileName in
  let* ok := call (can_new (add64 length 1)) in
  if negb ok then fail NullDereference else
  count_buffers 1 ;;;
  let* parent := on_mem (loads (Z.to_nat length) fileName) in
  ret (parent, add64 name 1).

Definition set_attributes (mode uid gid mtime : Z) (x : VAttr) : VAttr :=
  mkAttr (a_type x) mode uid gid (a_fsid x) (a_inode x) (a_nlinks x) (a_size x) (a_fsBlockSize x) mtime mtime mtime (a_blocks x).

(** Find the new node and set its attributes: the node, locked, or the error. *)
Definition dress (header mode uid gid mtime cwd : Z) : S (Z + Z) :=
  let* path := on_mem (load_string (add64 header off_fileName)) in
  let* (rc, vnode) := call (VFS_LookupPath path cwd) in
  if rc <? 0 then ret (inl rc) else
  call (Lock vnode) ;;;
  let* (rc, attr) := call (GetAttr vnode) in
  if rc <? 0 then call (Unlock vnode) ;;; ret (inl rc) else
  let* rc := call (SetAttr vnode (set_attributes mode uid gid mtime attr)) in
  if rc <? 0 then call (Unlock vnode) ;;; ret (inl rc) else ret (inr vnode).

Definition make_file (header : Z) (parent : list Z) (name itemSize mode uid gid mtime cwd : Z) : S Z :=
  let* base := on_mem (load_string name) in
  let* rc := call (VFS_CreateFile parent base cwd) in
  if rc <? 0 then ret rc else
  let* r := dress header mode uid gid mtime cwd in
  match r with
  | inl rc => ret rc
  | inr vnode =>
      let* data := on_mem (loads (Z.to_nat itemSize) (add64 header 512)) in
      let* (rc, bytes) := call (Write vnode data) in
      call (Unlock vnode) ;;; ret rc
  end.

Definition make_dir (header : Z) (parent : list Z) (name mode uid gid mtime cwd : Z) : S Z :=
  let* base := on_mem (load_string name) in
  let* rc := call (VFS_CreateDir parent base cwd) in
  if rc <? 0 then ret rc else
  let* r := dress header mode uid gid mtime cwd in
  match r with
  | inl rc => ret rc
  | inr vnode => call (Unlock vnode) ;;; ret 0
  end.

(** The header of one item: its result and its size. *)
Definition load_item (header cwd : Z) : S (Z * Z) :=
  let* itemSize := on_mem (StringOctalToNum (add64 header off_size) 12) in
  let* uid := on_mem (StringOctalToNum (add64 header off_uid) 8) in
  let* gid := on_mem (StringOctalToNum (add64 header off_gid) 8) in
  let* mode := on_mem (StringOctalToNum (add64 header off_mode) 8) in
  let* mtime := on_mem (StringOctalToNum (add64 header off_mtime) 12) in
  let uid := u32 uid in
  let gid := u32 gid in
  let mode := mode mod 2 ^ 16 in
  let mtime := u32 mtime in
  let* (parent, name) := split_name (add64 header off_fileName) in
  let* type := on_mem (load (add64 header off_type)) in
  let* rc := (if type =? 48 then make_file header parent name itemSize mode uid gid mtime cwd else
              if type =? 53 then make_dir header parent name mode uid gid mtime cwd else ret (- ENOSYS)) in
  (if name =? add64 header off_fileName then ret tt else count_buffers (-1)) ;;;
  ret (rc, itemSize).

Fixpoint load_loop (fuel : nat) (data size cwd header : Z) : S Z :=
  match fuel with
  | O => fail OutOfFuel
  | Datatypes.S fuel' =>
      let* id := on_mem (starts_with (add64 header off_ID) ustar) in
      if negb (id && (sub64 header data <? size)) then ret 0 else
      let* c := on_mem (load (add64 header 99)) in
      if negb (c =? 0) then ret 0 else
      let* (rc, itemSize) := load_item header cwd in
      if rc <? 0 then ret rc else
      load_loop fuel' data size cwd (add64 header (add64 512 (ALIGN_UP itemSize 512)))
  end.

Definition LoadInitRAMFS (fuel : nat) (data size : Z) : S Z :=
  let* (rc, cwd) := call (VFS_LookupPath [SLASH] 0) in
  if rc <? 0 then ret rc else load_loop fuel data size cwd data.
End Ops.

(** ** Reading memory *)

Notation len l := (Z.of_nat (length l)).

Lemma loads_runs l : forall p m, bytes_at m p l -> 0 <= p -> p + len l <= W64 ->
  runs (loads (length l) p) m (fun r m' => r = l /\ m' = m).
Proof.
  induction l as [|b l IH]; intros p m Hl Hp Hw; cbn [length loads] in *; [by apply runs_ret|].
  destruct Hl as [Hb Hl]. apply runs_bind, (runs_load _ b); [done|]. apply runs_bind.
  destruct l as [|b' l]; [by apply runs_ret, runs_ret|]. rewrite add64_small by (cbn [length] in *; lia).
  eapply runs_mono; [apply IH; [done|lia|lia]|]. intros r m' [-> ->]. by apply runs_ret.
Qed.

Lemma load_string_runs m p s : cstring m p s -> runs (load_string p) m (fun r m' => r = s /\ m' = m).
Proof.
  intros Hs. apply runs_bind. eapply runs_mono; [by apply strlen_runs|]. intros n m' [-> ->]. rewrite Nat2Z.id.
  destruct Hs as (Hp & Hw & _ & Hl). apply bytes_at_app in Hl as [Hl _]. apply loads_runs; [done|done|lia].
Qed.

Lemma starts_with_runs l : forall p m, bytes_at m p l -> 0 <= p -> p + len l <= W64 ->
  runs (starts_with p l) m (fun r m' => r = true /\ m' = m).
Proof.
  induction l as [|b l IH]; intros p m Hl Hp Hw; cbn [starts_with length] in *; [by apply runs_ret|].
  destruct Hl as [Hb Hl]. apply runs_bind, (runs_load _ b); [done|]. rewrite Z.eqb_refl.
  destruct l as [|b' l]; [by apply runs_ret|]. rewrite add64_small by (cbn [length] in *; lia).
  apply IH; [done|lia|lia].
Qed.

(** *** Octal numbers *)

Fixpoint octal_digits (n : nat) (v : Z) : list Z :=
  match n with O => [] | S n' => octal_digits n' (v / 8) ++ [48 + v mod 8] end.

(** A field of [w] characters: digits and a zero. *)
Definition octal (w : nat) (v : Z) : list Z := octal_digits (Nat.pred w) v ++ [0].

Lemma length_octal_digits n : forall v, length (octal_digits n v) = n.
Proof. induction n as [|n IH]; intros v; cbn; [done|]. rewrite length_app, IH. cbn. lia. Qed.

Lemma octal_digits_range n : forall v, Forall (fun d => 48 <= d < 56) (octal_digits n v).
Proof.
  induction n as [|n IH]; intros v; cbn; [constructor|]. apply Forall_app. split; [done|]. repeat constructor; zlia.
Qed.

Definition octal_value (v : Z) (ds : list Z) : Z := fold_left (fun v d => 8 * v + (d - 48)) ds v.

Lemma octal_value_digits n : forall v x, octal_value v (octal_digits n x) = v * 8 ^ Z.of_nat n + x mod 8 ^ Z.of_nat n.
Proof.
  induction n as [|n IH]; intros v x; cbn [octal_digits].
  - cbn. rewrite Z.mod_1_r. lia.
  - unfold octal_value in *. rewrite fold_left_app, IH. cbn [fold_left]. rewrite Nat2Z.inj_succ, Z.pow_succ_r by lia.
    rewrite (Z.rem_mul_r x 8 (8 ^ Z.of_nat n)) by lia. lia.
Qed.

Lemma octal_loop_runs ds : forall n k str i v m, bytes_at m (str + i) (ds ++ [0]) -> Forall (fun d => 48 <= d < 56) ds ->
  (length ds < n)%nat -> 0 <= str -> 0 <= i -> str + i + len ds < W64 ->
  0 <= k -> 0 <= v < 8 ^ k -> k + len ds <= 21 ->
  runs (octal_loop n str i v) m (fun r m' => r = octal_value v ds /\ m' = m).
Proof.
  induction ds as [|d ds IH]; intros [|n] k str i v m Hl Hd Hn Hs Hi Hw Hk Hv Hb; cbn [length] in *; try lia;
    cbn [octal_loop]; destruct Hl as [Hc Hl]; rewrite add64_small by lia.
  { apply runs_bind, (runs_load _ 0); [done|]. by apply runs_ret. }
  apply Forall_cons in Hd as [Hd0 Hd]. apply runs_bind, (runs_load _ d); [done|].
  rewrite (proj2 (Z.eqb_neq d 0)) by lia. rewrite add64_small by lia.
  assert (8 ^ (k + 1) <= 2 ^ 63) as Hpow.
  { replace (2 ^ 63) with (8 ^ 21) by reflexivity. apply Z.pow_le_mono_r; lia. }
  rewrite Z.pow_add_r in Hpow by lia. change (8 ^ 1) with 8 in Hpow.
  replace (wrap64 (mul64 v 8 + (i8 d - 48))) with (8 * v + (d - 48)).
  2:{ rewrite mul64_small by lia. unfold i8. rewrite Z.mod_small by lia. rewrite wrap64_small; lia. }
  eapply runs_mono; [apply (IH n (k + 1)); try lia|done].
  - by rewrite Z.add_assoc.
  - done.
  - rewrite Z.pow_add_r by lia. change (8 ^ 1) with 8. lia.
Qed.

Lemma StringOctalToNum_runs (w : nat) v str m : bytes_at m str (octal w v) -> (0 < w <= 21)%nat -> 0 <= v < 8 ^ (Z.of_nat w - 1) ->
  0 <= str -> str + Z.of_nat w <= W64 ->
  runs (StringOctalToNum str (Z.of_nat w)) m (fun r m' => r = v /\ m' = m).
Proof.
  intros Hl Hw Hv Hs Hb. unfold StringOctalToNum, octal in *. rewrite Nat2Z.id.
  eapply runs_mono; [eapply (octal_loop_runs (octal_digits (Nat.pred w) v) w 0)|].
  - by rewrite Z.add_0_r.
  - apply octal_digits_range.
  - rewrite length_octal_digits. lia.
  - done.
  - lia.
  - rewrite length_octal_digits. lia.
  - lia.
  - cbn. lia.
  - rewrite length_octal_digits. lia.
  - intros r m' [-> ->]. split; [|done]. rewrite octal_value_digits, Z.mod_small; [lia|].
    replace (Z.of_nat (Nat.pred w)) with (Z.of_nat w - 1) by lia. done.
Qed.

(** *** The name of an item *)

Definition bytes (l : list Z) : Prop := Forall (fun b => 0 <= b < 256) l.

Lemma i8_slash b : 0 <= b < 256 -> i8 b = i8 SLASH -> b = SLASH.
Proof. unfold i8, SLASH. intros Hb. zlia. Qed.

Lemma strrchr_none m p s : cstring m p s -> 0 < p -> bytes s -> SLASH ∉ s ->
  runs (strrchr p SLASH) m (fun r m' => r = 0 /\ m' = m).
Proof.
  intros Hs Hp Hb Hn. unfold strrchr, rounds. rewrite (proj2 (Z.eqb_neq p 0)) by lia. mgo.
  pose proof (cstring_fuel _ _ _ Hs). eapply runs_mono; [apply (strrchr_loop_runs SLASH s); [by rewrite Z.add_0_r|lia..]|].
  intros r m' [-> [[-> _]|(pre & b & post & -> & Hb' & _)]]; [done|]. exfalso. apply Hn.
  apply Forall_app in Hb as [_ [Hb _]%Forall_cons]. rewrite <- (i8_slash b Hb Hb'). set_solver.
Qed.

Lemma strrchr_last m p pre post : cstring m p (pre ++ SLASH :: post) -> 0 < p -> bytes (pre ++ SLASH :: post) -> SLASH ∉ post ->
  runs (strrchr p SLASH) m (fun r m' => r = p + len pre /\ m' = m).
Proof.
  intros Hs Hp Hb Hn. unfold strrchr, rounds. rewrite (proj2 (Z.eqb_neq p 0)) by lia. mgo.
  pose proof (cstring_fuel _ _ _ Hs).
  eapply runs_mono; [apply (strrchr_loop_runs SLASH (pre ++ SLASH :: post)); [by rewrite Z.add_0_r|lia..]|].
  intros r m' [-> [[_ Hall]|(pre' & b & post' & Heq & Hb' & Hpost & ->)]].
  { apply Forall_app in Hall as [_ [Hc _]%Forall_cons]. done. }
  split; [|done]. rewrite Z.add_0_r. do 2 f_equal.
  assert (b = SLASH) as ->.
  { apply i8_slash; [|done]. rewrite Heq in Hb. by apply Forall_app in Hb as [_ [Hb _]%Forall_cons]. }
  assert (SLASH ∉ post') as Hn'. { intros Hin. rewrite Forall_forall in Hpost. by apply (Hpost _ Hin). }
  apply app_eq_inv in Heq as [(k & -> & Hk)|(k & -> & Hk)].
  - destruct k as [|x k]; [by rewrite app_nil_r|]. injection Hk as <- Hk. exfalso. apply Hn'. rewrite Hk. set_solver.
  - destruct k as [|x k]; [by rewrite app_nil_r|]. injection Hk as <- Hk. exfalso. apply Hn. rewrite Hk. set_solver.
Qed.

(** A path: the directory it is in, if that is not the root, and a name. *)
Definition path_of (parent : option (list Z)) (base : list Z) : list Z :=
  match parent with None => base | Some d => d ++ SLASH :: base end.

Record name_ok (parent : option (list Z)) (base : list Z) : Prop := {
  name_bytes : bytes (path_of parent base);
  name_zero : 0 ∉ path_of parent base;
  name_base : base <> [] /\ SLASH ∉ base;
  name_parent : match parent with None => True | Some [] => False | Some (c :: _) => c <> SLASH end;
  name_dots : base <> [46] /\ base <> [46; 46];
  name_short : (length (path_of parent base) <= 99)%nat
}.

Definition slash_at (p : Z) (parent : option (list Z)) : Z := match parent with None => 0 | Some d => p + len d end.

Lemma strrchr_path m p parent base : name_ok parent base -> cstring m p (path_of parent base) -> 0 < p ->
  runs (strrchr p SLASH) m (fun r m' => r = slash_at p parent /\ m' = m).
Proof.
  intros [Hb _ [_ Hn] _ _ _] Hs Hp. destruct parent as [d|]; cbn in *; [by eapply strrchr_last|by eapply strrchr_none].
Qed.

Lemma path_not_dir parent base m p : name_ok parent base -> cstring m p (path_of parent base) -> 0 < p -> slash_at p parent <> 0 ->
  exists c, m !! (slash_at p parent + 1) = Some c /\ c <> 0 /\ slash_at p parent + 1 < W64.
Proof.
  intros [_ Hz [Hne _] _ _ _] (_ & Hw & _ & Hl) Hp Hs. destruct parent as [d|]; [|done]. destruct base as [|c base]; [done|]. exists c.
  cbn [path_of slash_at] in *. rewrite <- app_assoc in Hl. apply bytes_at_app in Hl as [_ Hl]. destruct Hl as (_ & Hc & _).
  rewrite length_app in Hw. cbn [length] in Hw. split_and!; [done|set_solver|lia].
Qed.

(** The name as the archive has it: that of a directory ends in a slash. *)
Definition stored_name (dir : bool) (parent : option (list Z)) (base : list Z) : list Z :=
  path_of parent base ++ (if dir then [SLASH] else []).

(** The name without the slash at its end. *)
Lemma last_slash_runs (dir : bool) parent base m p : name_ok parent base -> cstring m p (stored_name dir parent base) -> 0 < p ->
  runs (last_slash p) m (fun r m' => r = slash_at p parent /\ cstring m' p (path_of parent base) /\
    forall a, ~ inside p (len (stored_name dir parent base)) a -> m' !! a = m !! a).
Proof.
  intros Hok Hs Hp. apply runs_bind. destruct dir; cbn [stored_name] in *.
  - unfold stored_name in *. eapply runs_mono; [apply (strrchr_last m p (path_of parent base) []); [done|done| |set_solver]|].
    { apply Forall_app. split; [apply Hok|by repeat constructor]. }
    intros r m' [-> ->]. destruct Hs as (_ & Hw & Hz & Hl). rewrite length_app in Hw. cbn [length] in Hw.
    rewrite (proj2 (Z.eqb_neq _ 0)) by lia. rewrite <- app_assoc in Hl. apply bytes_at_app in Hl as [Hl (Hc & H0 & _)].
    rewrite add64_small by lia. apply runs_bind, (runs_load _ 0); [done|]. cbn [Z.eqb].
    apply runs_bind, runs_store; [by rewrite Hc|].
    assert (cstring (<[p + len (path_of parent base) := 0]> m) p (path_of parent base)) as Hs'.
    { split_and!; [lia|lia|apply Hok|]. apply bytes_at_app. split; [|by split; [apply lookup_insert_eq|]].
      eapply bytes_at_frame; [|exact Hl]. intros a [Ha1 Ha2]. apply lookup_insert_ne. lia. }
    eapply runs_mono; [by eapply strrchr_path|]. intros r m' [-> ->]. split_and!; [done|done|].
    intros a Ha. apply lookup_insert_ne. intros <-. apply Ha. rewrite length_app. cbn [length]. split; lia.
  - unfold stored_name in Hs. rewrite app_nil_r in Hs. eapply runs_mono; [by eapply strrchr_path|]. intros r m' [-> ->].
    destruct (Z.eqb_spec (slash_at p parent) 0) as [Hz|Hz]; [by apply runs_ret|].
    destruct (path_not_dir _ _ _ _ Hok Hs Hp Hz) as (c & Hc & Hc0 & Hlt). rewrite add64_small.
    2:{ destruct parent; cbn in *; lia. }
    apply runs_bind, (runs_load _ c); [done|]. rewrite (proj2 (Z.eqb_neq c 0)) by done. by apply runs_ret.
Qed.

(** ** What the file system promises *)

(** The attributes that an archive sets, and a file or directory. *)
Record meta : Set := mkMeta { t_mode : Z; t_uid : Z; t_gid : Z; t_atime : Z; t_mtime : Z; t_ctime : Z }.
Inductive node : Set := NFile (x : meta) (data : list Z) | NDir (x : meta).

Definition with_meta (x : meta) (n : node) : node := match n with NFile _ d => NFile x d | NDir _ => NDir x end.

Definition parent_path (parent : option (list Z)) : list Z := match parent with None => [SLASH] | Some d => d end.
Definition parent_there (V : gmap (list Z) node) (parent : option (list Z)) : Prop :=
  match parent with None => True | Some d => exists x, V !! d = Some (NDir x) end.

(** [holds e V l]: the files and directories are [V], by path, and the vnode [l] is locked, if any;
    [names e v p]: vnode [v] is that of path [p], the root's is the empty one; [attr_of e v x]: its
    attributes are [x]. *)
Class Laws (E : Type) `{FileSystem E} : Type := {
  holds : E -> gmap (list Z) node -> option Z -> Prop;
  names : E -> Z -> list Z -> Prop;
  attr_of : E -> Z -> VAttr -> Prop;
  law_new n e V : holds e V None ->
    runs (can_new n) e (fun ok e' => ok = true /\ holds e' V None /\ forall v p, names e v p -> names e' v p);
  law_root e V : holds e V None ->
    runs (VFS_LookupPath [SLASH] 0) e (fun r e' => 0 <= r.1 /\ holds e' V None /\ names e' r.2 []);
  law_create_file e V parent base cwd : name_ok parent base -> holds e V None -> names e cwd [] ->
    parent_there V parent -> V !! path_of parent base = None ->
    runs (VFS_CreateFile (parent_path parent) base cwd) e (fun rc e' => 0 <= rc /\
      (exists x, holds e' (<[path_of parent base := NFile x []]> V) None) /\ names e' cwd []);
  law_create_dir e V parent base cwd : name_ok parent base -> holds e V None -> names e cwd [] ->
    parent_there V parent -> V !! path_of parent base = None ->
    runs (VFS_CreateDir (parent_path parent) base cwd) e (fun rc e' => 0 <= rc /\
      (exists x, holds e' (<[path_of parent base := NDir x]> V) None) /\ names e' cwd []);
  law_lookup e V parent base cwd : name_ok parent base -> holds e V None -> names e cwd [] ->
    is_Some (V !! path_of parent base) ->
    runs (VFS_LookupPath (path_of parent base) cwd) e (fun r e' => 0 <= r.1 /\ holds e' V None /\
      names e' r.2 (path_of parent base) /\ names e' cwd []);
  law_lock e V v path : holds e V None -> names e v path -> is_Some (V !! path) ->
    runs (Lock v) e (fun _ e' => holds e' V (Some v) /\ forall w p, names e w p -> names e' w p);
  law_unlock e V v path : holds e V (Some v) -> names e v path -> is_Some (V !! path) ->
    runs (Unlock v) e (fun _ e' => holds e' V None /\ forall w p, names e w p -> names e' w p);
  law_getattr e V v path : holds e V (Some v) -> names e v path -> is_Some (V !! path) ->
    runs (GetAttr v) e (fun r e' => 0 <= r.1 /\ attr_of e' v r.2 /\ holds e' V (Some v) /\
      forall w p, names e w p -> names e' w p);
  law_setattr e V v path n x mode uid gid mtime : holds e V (Some v) -> names e v path -> V !! path = Some n ->
    attr_of e v x ->
    runs (SetAttr v (set_attributes mode uid gid mtime x)) e (fun rc e' => 0 <= rc /\
      holds e' (<[path := with_meta (mkMeta mode uid gid mtime mtime mtime) n]> V) (Some v) /\
      forall w p, names e w p -> names e' w p);
  law_write e V v path x data : holds e V (Some v) -> names e v path -> V !! path = Some (NFile x []) ->
    Z.of_nat (length data) < 2 ^ 62 ->
    runs (Write v data) e (fun r e' => 0 <= r.1 /\ holds e' (<[path := NFile x data]> V) (Some v) /\
      forall w p, names e w p -> names e' w p)
}.

(** ** Archives *)

Record item : Set := mkItem {
  i_dir : bool;
  i_parent : option (list Z);
  i_base : list Z;
  i_mode : Z;
  i_uid : Z;
  i_gid : Z;
  i_mtime : Z;
  i_data : list Z
}.

Definition i_path (it : item) : list Z := path_of (i_parent it) (i_base it).
Definition i_name (it : item) : list Z := stored_name (i_dir it) (i_parent it) (i_base it).
Definition i_type (it : item) : Z := if i_dir it then 53 else 48.

Definition pad (n : nat) (l : list Z) : list Z := l ++ replicate (n - length l) 0.
Definition header_bytes (it : item) : list Z :=
  pad 100 (i_name it) ++ octal 8 (i_mode it) ++ octal 8 (i_uid it) ++ octal 8 (i_gid it) ++
  octal 12 (len (i_data it)) ++ octal 12 (i_mtime it) ++ replicate 8 32 ++ [i_type it] ++
  replicate 100 0 ++ ustar ++ replicate 250 0.
Definition blocks (n : nat) : nat := (512 * ((n + 511) / 512))%nat.
Definition item_bytes (it : item) : list Z := header_bytes it ++ pad (blocks (length (i_data it))) (i_data it).
Definition archive (items : list item) : list Z := concat (item_bytes <$> items).

(** What fits into the fields of a header. *)
Record wf_item (it : item) : Prop := {
  wf_name : name_ok (i_parent it) (i_base it);
  wf_length : (length (i_name it) <= 99)%nat;
  wf_mode : 0 <= i_mode it < 2 ^ 16;
  wf_uid : 0 <= i_uid it < 8 ^ 7;
  wf_gid : 0 <= i_gid it < 8 ^ 7;
  wf_mtime : 0 <= i_mtime it < 2 ^ 32;
  wf_size : len (i_data it) < 8 ^ 11;
  wf_dir : i_dir it = true -> i_data it = []
}.

Record header_at (m : mem) (p : Z) (it : item) : Prop := {
  at_name : cstring m p (i_name it);
  at_99 : m !! (p + 99) = Some 0;
  at_mode : bytes_at m (p + off_mode) (octal 8 (i_mode it));
  at_uid : bytes_at m (p + off_uid) (octal 8 (i_uid it));
  at_gid : bytes_at m (p + off_gid) (octal 8 (i_gid it));
  at_size : bytes_at m (p + off_size) (octal 12 (len (i_data it)));
  at_mtime : bytes_at m (p + off_mtime) (octal 12 (i_mtime it));
  at_type : m !! (p + off_type) = Some (i_type it);
  at_ID : bytes_at m (p + off_ID) ustar;
  at_data : bytes_at m (p + 512) (i_data it)
}.

Lemma length_pad n l : (length l <= n)%nat -> length (pad n l) = n.
Proof. intros Hl. unfold pad. rewrite length_app, length_replicate. lia. Qed.

Lemma length_octal w v : (0 < w)%nat -> length (octal w v) = w.
Proof. intros Hw. unfold octal. rewrite length_app, length_octal_digits. cbn. lia. Qed.

Lemma blocks_bounds n : (n <= blocks n < n + 512)%nat.
Proof.
  unfold blocks. pose proof (Nat.div_mod_eq (n + 511) 512). pose proof (Nat.mod_upper_bound (n + 511) 512). lia.
Qed.

Lemma length_header it : (length (i_name it) <= 99)%nat -> length (header_bytes it) = 512%nat.
Proof.
  intros Hl. unfold header_bytes. rewrite !length_app, length_pad, !length_octal, !length_replicate by lia. reflexivity.
Qed.

Lemma length_item it : (length (i_name it) <= 99)%nat -> length (item_bytes it) = (512 + blocks (length (i_data it)))%nat.
Proof.
  intros Hl. unfold item_bytes. pose proof (blocks_bounds (length (i_data it))).
  by rewrite length_app, length_header, length_pad by lia.
Qed.

Lemma pad_zero m p n l i : bytes_at m p (pad n l) -> (length l <= i < n)%nat -> m !! (p + Z.of_nat i) = Some 0.
Proof.
  intros Hm Hi. unfold pad in Hm. rewrite (bytes_at_lookup _ _ _ _ Hm) by (rewrite length_app, length_replicate; lia).
  rewrite lookup_app_r by lia. apply lookup_replicate. split; [done|lia].
Qed.

Lemma item_header m p it : wf_item it -> 0 < p -> p + 512 <= W64 -> bytes_at m p (item_bytes it) -> header_at m p it.
Proof.
  intros Hwf Hp Hw Hm. pose proof (wf_length _ Hwf) as Hl. unfold item_bytes, header_bytes in Hm. rewrite <- !app_assoc in Hm.
  apply bytes_at_app in Hm as [Hname Hm]. pose proof (pad_zero _ _ _ _ 99 Hname ltac:(lia)) as H99.
  pose proof (pad_zero _ _ _ _ (length (i_name it)) Hname ltac:(lia)) as Hend. unfold pad in Hname.
  apply bytes_at_app in Hname as [Hname _]. rewrite length_pad in Hm by lia. unfold pad in Hm.
  repeat match goal with H' : bytes_at _ _ (_ ++ _) |- _ => apply bytes_at_app in H' as [? H'] end.
  rewrite ?length_octal, ?length_replicate in * by lia. cbn [length ustar] in *.
  split; try match goal with H' : bytes_at m ?q ?l |- bytes_at m ?q' ?l => by replace q' with q by (unfold off_mode, off_uid, off_gid, off_size, off_mtime, off_ID; lia) end.
  - split_and!; [lia|lia| |by apply bytes_at_app; repeat split].
    unfold i_name, stored_name. rewrite elem_of_app. intros [Hc|Hc]; [by apply (wf_name _ Hwf) in Hc|].
    destruct (i_dir it); [by apply list_elem_of_singleton in Hc|by apply elem_of_nil in Hc].
  - done.
  - match goal with H' : bytes_at m ?q [i_type it] |- _ => destruct H' as [H' _]; rewrite <- H'; f_equal; unfold off_type; lia end.
Qed.

(** ** Unpacking *)

Section Unpack.
Context {E : Type} `{Laws E}.

Lemma runs_on_mem {A} (f : M mem A) m b (e : E) (Q : A -> state E -> Prop) :
  runs f m (fun a m' => Q a (mk m' b e)) -> runs (on_mem f) (mk m b e) Q.
Proof.
  intros (a & m' & Hf & HQ). eapply runs_eq; [|exact HQ]. unfold on_mem. cbn [memory]. by rewrite Hf.
Qed.

Lemma runs_call {A} (f : M E A) m b e (Q : A -> state E -> Prop) :
  runs f e (fun a e' => Q a (mk m b e')) -> runs (call f) (mk m b e) Q.
Proof.
  intros (a & e' & Hf & HQ). eapply runs_eq; [|exact HQ]. unfold call. cbn [env]. by rewrite Hf.
Qed.

(** Nothing but the name at [p] has changed. *)
Definition same_but_name (p : Z) (m m' : mem) : Prop := forall a, ~ inside p 100 a -> m' !! a = m !! a.

Lemma bytes_at_same p m m' q l : same_but_name p m m' -> p + 100 <= q -> bytes_at m q l -> bytes_at m' q l.
Proof. intros Hs Hq. apply bytes_at_frame. intros a [Ha _]. apply Hs. intros [_ Hc]. lia. Qed.

Lemma split_name_runs it V m b e p cwd : wf_item it -> cstring m p (i_name it) -> 0 < p -> p + 512 <= W64 ->
  holds e V None -> names e cwd [] ->
  runs (split_name p) (mk m b e) (fun r s => exists name, r = (parent_path (i_parent it), name) /\
    cstring (memory s) p (i_path it) /\ cstring (memory s) name (i_base it) /\ same_but_name p m (memory s) /\
    buffers s = b + (if name =? p then 0 else 1) /\ holds (env s) V None /\ names (env s) cwd []).
Proof.
  intros Hwf Hs Hp Hw He Hn. pose proof (wf_name _ Hwf) as Hok. pose proof (wf_length _ Hwf) as Hl.
  apply runs_bind, runs_on_mem. eapply runs_mono; [by apply (last_slash_runs (i_dir it))|].
  intros r m1 (-> & Hs1 & Hfr).
  assert (same_but_name p m m1) as Hsame.
  { intros a Ha. apply Hfr. intros Hc. apply Ha. unfold i_name in Hl. unfold inside in *. lia. }
  pose proof Hs1 as (_ & Hw1 & Hz1 & Hb1). unfold slash_at, i_path in *. destruct (i_parent it) as [d|]; cbn [path_of] in *.
  2:{ cbn [Z.eqb]. apply runs_ret. exists p. rewrite Z.eqb_refl, Z.add_0_r. done. }
  rewrite length_app in Hw1. cbn [length] in Hw1.
  rewrite (proj2 (Z.eqb_neq _ 0)) by lia. rewrite sub64_small by lia.
  replace (p + len d - p) with (len d) by lia. rewrite !add64_small by lia.
  apply runs_bind, runs_call. eapply runs_mono; [by apply law_new|]. intros ok e1 (-> & He1 & Hk1).
  cbn [negb]. apply runs_bind, runs_modify, runs_bind. cbn [memory buffers env]. rewrite Nat2Z.id.
  rewrite <- app_assoc in Hb1. pose proof Hb1 as [Hd [_ Hbase]]%bytes_at_app.
  apply runs_on_mem. eapply runs_mono; [apply loads_runs; [done|lia|lia]|]. intros r m2 [-> ->]. apply runs_ret.
  exists (p + len d + 1). cbn [memory buffers env]. rewrite (proj2 (Z.eqb_neq _ p)) by lia.
  split_and!; [done|split_and!; [lia|rewrite length_app; cbn [length]; lia|done|by rewrite <- app_assoc]| |done|done|done|by apply Hk1].
  split_and!; [lia|lia|set_solver|done].
Qed.

Definition i_meta (it : item) : meta := mkMeta (i_mode it) (i_uid it) (i_gid it) (i_mtime it) (i_mtime it) (i_mtime it).
Definition node_of (it : item) : node := if i_dir it then NDir (i_meta it) else NFile (i_meta it) (i_data it).

Lemma dress_runs it n V m b e p cwd : wf_item it -> cstring m p (i_path it) -> 0 <= p < W64 -> holds e V None -> names e cwd [] ->
  V !! i_path it = Some n ->
  runs (dress p (i_mode it) (i_uid it) (i_gid it) (i_mtime it) cwd) (mk m b e) (fun r s => exists v, r = inr v /\
    memory s = m /\ buffers s = b /\ names (env s) v (i_path it) /\ names (env s) cwd [] /\
    holds (env s) (<[i_path it := with_meta (i_meta it) n]> V) (Some v)).
Proof.
  intros Hwf Hs Hp He Hn Hv. unfold dress, off_fileName. rewrite add64_small, Z.add_0_r by lia.
  apply runs_bind, runs_on_mem. eapply runs_mono; [by apply load_string_runs|]. intros path m' [-> ->].
  apply runs_bind, runs_call. eapply runs_mono; [by apply (law_lookup e V); [apply Hwf|..]|].
  intros [rc v] e1 (Hrc & He1 & Hv1 & Hn1). cbn [fst snd] in *. rewrite (proj2 (Z.ltb_ge _ _) Hrc).
  apply runs_bind, runs_call. eapply runs_mono; [by eapply law_lock|]. intros [] e2 [He2 Hk2].
  apply runs_bind, runs_call. eapply runs_mono; [by eapply law_getattr; [|apply Hk2|]|]. intros [rc3 x] e3 (Hrc3 & Hx & He3 & Hk3).
  cbn [fst snd] in *. rewrite (proj2 (Z.ltb_ge _ _) Hrc3).
  apply runs_bind, runs_call. eapply runs_mono; [by eapply law_setattr; [|apply Hk3, Hk2|..]|]. intros rc4 e4 (Hrc4 & He4 & Hk4).
  rewrite (proj2 (Z.ltb_ge _ _) Hrc4).
  apply runs_ret. exists v. cbn [memory buffers env]. split_and!; [done|done|done|by apply Hk4, Hk3, Hk2|by apply Hk4, Hk3, Hk2|done].
Qed.

Lemma make_file_runs it V m b e p name cwd : wf_item it -> i_dir it = false -> cstring m p (i_path it) -> cstring m name (i_base it) ->
  bytes_at m (p + 512) (i_data it) -> 0 <= p -> p + 512 + len (i_data it) < W64 -> holds e V None -> names e cwd [] ->
  parent_there V (i_parent it) -> V !! i_path it = None ->
  runs (make_file p (parent_path (i_parent it)) name (len (i_data it)) (i_mode it) (i_uid it) (i_gid it) (i_mtime it) cwd) (mk m b e)
    (fun rc s => 0 <= rc /\ memory s = m /\ buffers s = b /\ names (env s) cwd [] /\ holds (env s) (<[i_path it := node_of it]> V) None).
Proof.
  intros Hwf Hdir Hs Hb Hd Hp Hw He Hn Hpar Hnew. apply runs_bind, runs_on_mem. eapply runs_mono; [by apply load_string_runs|].
  intros base m' [-> ->]. apply runs_bind, runs_call.
  eapply runs_mono; [by apply (law_create_file e V); [apply Hwf|..]|]. intros rc e1 (Hrc & (x & He1) & Hn1).
  rewrite (proj2 (Z.ltb_ge _ _) Hrc).
  apply runs_bind. eapply runs_mono; [by apply (dress_runs it (NFile x []) (<[i_path it := NFile x []]> V)); [done|done|lia|done|done|apply lookup_insert_eq]|].
  intros r [m2 b2 e2] (v & -> & Em & Eb & Hv & Hn2 & He2). cbn [memory buffers env with_meta] in *. subst m2 b2. rewrite insert_insert_eq in He2.
  rewrite Nat2Z.id, add64_small by lia.
  apply runs_bind, runs_on_mem. eapply runs_mono; [apply loads_runs; [done|lia|lia]|]. intros data m' [-> ->].
  pose proof (wf_size _ Hwf) as Hsz. change (8 ^ 11) with 8589934592 in Hsz.
  apply runs_bind, runs_call. eapply runs_mono; [by eapply law_write; [|..|lia]; [..|apply lookup_insert_eq]|].
  intros [rc3 k] e3 (Hrc3 & He3 & Hk3). rewrite insert_insert_eq in He3. cbn [fst] in Hrc3.
  apply runs_bind, runs_call. eapply runs_mono; [eapply law_unlock; [done|by apply Hk3|by rewrite lookup_insert_eq]|]. intros [] e4 [He4 Hk4]. apply runs_ret. cbn [memory buffers env].
  split_and!; [done|done|done|by apply Hk4, Hk3|]. unfold node_of. by rewrite Hdir.
Qed.

Lemma make_dir_runs it V m b e p name cwd : wf_item it -> i_dir it = true -> cstring m p (i_path it) -> cstring m name (i_base it) ->
  0 <= p < W64 -> holds e V None -> names e cwd [] -> parent_there V (i_parent it) -> V !! i_path it = None ->
  runs (make_dir p (parent_path (i_parent it)) name (i_mode it) (i_uid it) (i_gid it) (i_mtime it) cwd) (mk m b e)
    (fun rc s => 0 <= rc /\ memory s = m /\ buffers s = b /\ names (env s) cwd [] /\ holds (env s) (<[i_path it := node_of it]> V) None).
Proof.
  intros Hwf Hdir Hs Hb Hp He Hn Hpar Hnew. apply runs_bind, runs_on_mem. eapply runs_mono; [by apply load_string_runs|].
  intros base m' [-> ->]. apply runs_bind, runs_call.
  eapply runs_mono; [by apply (law_create_dir e V); [apply Hwf|..]|]. intros rc e1 (Hrc & (x & He1) & Hn1).
  rewrite (proj2 (Z.ltb_ge _ _) Hrc).
  apply runs_bind. eapply runs_mono; [by apply (dress_runs it (NDir x) (<[i_path it := NDir x]> V)); [done|done|lia|done|done|apply lookup_insert_eq]|].
  intros r [m2 b2 e2] (v & -> & Em & Eb & Hv & Hn2 & He2). cbn [memory buffers env with_meta] in *. subst m2 b2. rewrite insert_insert_eq in He2.
  apply runs_bind, runs_call. eapply runs_mono; [eapply law_unlock; [done|done|by rewrite lookup_insert_eq]|]. intros [] e4 [He4 Hk4]. apply runs_ret. cbn [memory buffers env].
  split_and!; [done|done|done|by apply Hk4|]. unfold node_of. by rewrite Hdir.
Qed.

(** A field of a header. *)
Lemma field_runs {A} (w : nat) off v (k : Z -> M (state E) A) m b e p (Q : A -> state E -> Prop) :
  bytes_at m (p + off) (octal w v) -> (0 < w <= 21)%nat -> 0 <= v < 8 ^ (Z.of_nat w - 1) -> 0 <= p -> 0 <= off -> p + off + Z.of_nat w <= W64 ->
  runs (k v) (mk m b e) Q -> runs (let* x := on_mem (StringOctalToNum (add64 p off) (Z.of_nat w)) in k x) (mk m b e) Q.
Proof.
  intros Hm Hw Hv Hp Ho Hb Hk. rewrite add64_small by lia. apply runs_bind, runs_on_mem.
  eapply runs_mono; [apply (StringOctalToNum_runs w v); [done|done|done|lia|lia]|]. by intros r m' [-> ->].
Qed.

Lemma load_item_runs it V m b e p cwd : wf_item it -> header_at m p it -> 0 < p -> p + 512 + len (i_data it) < W64 ->
  holds e V None -> names e cwd [] -> parent_there V (i_parent it) -> V !! i_path it = None ->
  runs (load_item p cwd) (mk m b e) (fun r s => 0 <= r.1 /\ r.2 = len (i_data it) /\ buffers s = b /\
    names (env s) cwd [] /\ holds (env s) (<[i_path it := node_of it]> V) None /\ same_but_name p m (memory s)).
Proof.
  intros Hwf Hh Hp Hw He Hn Hpar Hnew. destruct Hh as [Hname H99 Hmode Huid Hgid Hsize Hmtime Htype _ Hdata].
  pose proof Hwf as [Hok Hl Wmode Wuid Wgid Wmtime Wsize Wdir].
  unfold load_item. change 12 with (Z.of_nat 12). change 8 with (Z.of_nat 8).
  apply (field_runs 12 off_size (len (i_data it))); [done|lia|cbn; lia|lia|done|unfold off_size; lia|].
  apply (field_runs 8 off_uid (i_uid it)); [done|lia|cbn; lia|lia|done|unfold off_uid; lia|].
  apply (field_runs 8 off_gid (i_gid it)); [done|lia|cbn; lia|lia|done|unfold off_gid; lia|].
  apply (field_runs 8 off_mode (i_mode it)); [done|lia|cbn; lia|lia|done|unfold off_mode; lia|].
  apply (field_runs 12 off_mtime (i_mtime it)); [done|lia|cbn; lia|lia|done|unfold off_mtime; lia|].
  unfold u32. rewrite !Z.mod_small by lia. unfold off_fileName. rewrite (add64_small p 0), Z.add_0_r by lia.
  apply runs_bind. eapply runs_mono; [by apply (split_name_runs it V m b e p cwd Hwf Hname); [lia|lia|..]|].
  intros r [m1 b1 e1] (name & -> & Hs1 & Hb1 & Hsame & Eb & He1 & Hn1). cbn [memory buffers env] in *. subst b1.
  rewrite add64_small by (unfold off_type; lia).
  apply runs_bind, runs_on_mem, (runs_load _ (i_type it)); [rewrite Hsame; [done|unfold inside, off_type; lia]|].
  apply runs_bind. eapply runs_mono with (Q := fun rc s => 0 <= rc /\ memory s = m1 /\ buffers s = b + (if name =? p then 0 else 1) /\
    names (env s) cwd [] /\ holds (env s) (<[i_path it := node_of it]> V) None).
  { unfold i_type. destruct (i_dir it) eqn:Hdir; cbn [Z.eqb Pos.eqb].
    - apply make_dir_runs; try done. lia.
    - apply make_file_runs; try done; try lia. apply (bytes_at_same p m); [done|lia|done]. }
  intros rc [m2 b2 e2] (Hrc & Em & Eb & Hn2 & He2). cbn [memory buffers env] in *. subst m2 b2. apply runs_bind.
  destruct (name =? p); [apply runs_ret|apply runs_modify]; apply runs_ret; cbn [fst snd memory buffers env]; split_and!; try done; lia.
Qed.

(** Every item is below a directory that is there by then, and new. *)
Fixpoint fits (V : gmap (list Z) node) (items : list item) : Prop :=
  match items with
  | [] => True
  | it :: items' =>
      wf_item it /\ parent_there V (i_parent it) /\ V !! i_path it = None /\ fits (<[i_path it := node_of it]> V) items'
  end.
Definition unpacked (V : gmap (list Z) node) (items : list item) : gmap (list Z) node :=
  foldl (fun V it => <[i_path it := node_of it]> V) V items.

Lemma item_advance it : wf_item it ->
  add64 512 (ALIGN_UP (len (i_data it)) 512) = len (item_bytes it).
Proof.
  intros Hwf. rewrite length_item by apply Hwf. unfold blocks, ALIGN_UP, DIV_ROUNDUP.
  pose proof (wf_size _ Hwf) as Hs. change (8 ^ 11) with 8589934592 in Hs.
  rewrite (add64_small _ (512 - 1)) by lia. change (512 - 1) with 511.
  rewrite mul64_small by zlia. rewrite add64_small by zlia.
  rewrite Nat2Z.inj_add, Nat2Z.inj_mul, Nat2Z.inj_div, Nat2Z.inj_add. cbn. lia.
Qed.

Lemma load_loop_runs data size cwd items : forall fuel V p m b e,
  bytes_at m p (archive items ++ replicate 512 0) -> (length items < fuel)%nat -> 0 < data <= p ->
  p + len (archive items) + 512 < W64 -> p - data + len (archive items) <= size ->
  holds e V None -> names e cwd [] -> fits V items ->
  runs (load_loop fuel data size cwd p) (mk m b e) (fun rc s => rc = 0 /\ buffers s = b /\
    holds (env s) (unpacked V items) None /\ names (env s) cwd []).
Proof.
  induction items as [|it items IH]; intros [|fuel] V p m b e Hm Hf Hp Hw Hsz He Hn Hfit; cbn [length] in Hf; try lia; cbn [load_loop].
  - cbn [archive concat fmap list_fmap app length] in *. rewrite add64_small by (unfold off_ID; lia).
    apply runs_bind, runs_on_mem. cbn [starts_with ustar]. apply runs_bind, (runs_load _ 0).
    { change (p + off_ID) with (p + Z.of_nat 257). rewrite (bytes_at_lookup _ _ _ _ Hm) by (rewrite length_replicate; lia). done. }
    cbn [Z.eqb]. apply runs_ret. cbn [negb andb]. by apply runs_ret.
  - destruct Hfit as (Hwf & Hpar & Hnew & Hfit). change (archive (it :: items)) with (item_bytes it ++ archive items) in *.
    rewrite length_app, length_item in Hw, Hsz by apply Hwf. rewrite <- app_assoc in Hm. apply bytes_at_app in Hm as [Hit Hm].
    pose proof (blocks_bounds (length (i_data it))) as Hbl. assert (header_at m p it) as Hh by (apply item_header; [done|lia|lia|done]).
    apply runs_bind, runs_on_mem. rewrite add64_small by (unfold off_ID; lia).
    eapply runs_mono; [apply starts_with_runs; [apply Hh|unfold off_ID; lia|unfold off_ID; cbn; lia]|]. intros r m' [-> ->].
    rewrite sub64_small by lia. rewrite (proj2 (Z.ltb_lt _ _)) by lia. cbn [negb andb]. rewrite (add64_small p 99) by lia.
    apply runs_bind, runs_on_mem, (runs_load _ 0); [apply Hh|]. cbn [Z.eqb negb].
    apply runs_bind. eapply runs_mono; [apply (load_item_runs it V); [done|done|lia|lia|done..]|].
    intros [rc itemSize] [m1 b1 e1] (Hrc & Esz & Eb & Hn1 & He1 & Hsame). cbn [fst snd memory buffers env] in *. subst itemSize b1.
    rewrite (proj2 (Z.ltb_ge _ _) Hrc), item_advance, length_item by (done || apply Hwf). rewrite add64_small by lia.
    apply IH; [|lia|lia|lia|lia|done..].
    rewrite length_item in Hm by apply Hwf. apply (bytes_at_same p m); [done|lia|done].
Qed.

(** An archive that was packed from a list of files and directories and lies in memory
    is unpacked by [LoadInitRAMFS] to exactly these: it returns 0, every item is in the file
    system under its path with its contents, mode, owner, group and times, nothing else has changed,
    and every buffer has been freed. It takes one round more than there are items. *)
Lemma LoadInitRAMFS_runs items fuel data size V m e :
  bytes_at m data (archive items ++ replicate 512 0) -> holds e V None -> fits V items -> (length items < fuel)%nat ->
  0 < data -> data + len (archive items) + 512 < W64 -> len (archive items) <= size ->
  runs (LoadInitRAMFS fuel data size) (mk m 0 e) (fun rc s =>
    rc = 0 /\ buffers s = 0 /\ holds (env s) (unpacked V items) None).
Proof.
  intros Hm He Hfit Hf Hd Hw Hsz. apply runs_bind, runs_call. eapply runs_mono; [by apply law_root|].
  intros [rc cwd] e1 (Hrc & He1 & Hn). cbn [fst snd] in *. rewrite (proj2 (Z.ltb_ge _ _) Hrc).
  eapply runs_mono; [by apply (load_loop_runs data size cwd items fuel V); try done; lia|].
  intros rc' s (-> & -> & ? & _). done.
Qed.
End Unpack.

(** ** An archive *)

(** [d/] and [d/a], which holds one byte. *)
Definition demo_items : list item :=
  [mkItem true None [100] 493 0 0 5 []; mkItem false (Some [100]) [97] 420 1 2 6 [33]].
Definition demo_mem : mem :=
  list_to_map (zip (seqZ 4096 (len (archive demo_items ++ replicate 512 0))) (archive demo_items ++ replicate 512 0)).

Lemma name_ok_intro parent base :
  bool_decide (Forall (fun b => 1 <= b < 256) (path_of parent base)) = true -> base <> [] -> bool_decide (SLASH ∉ base) = true ->
  match parent with None => True | Some [] => False | Some (c :: _) => c <> SLASH end ->
  base <> [46] /\ base <> [46; 46] -> (length (path_of parent base) <= 99)%nat -> name_ok parent base.
Proof.
  intros Hb%bool_decide_eq_true Hne Hs%bool_decide_eq_true Hp Hdots Hlen. rewrite Forall_forall in Hb. split; [| |done|done|done|done].
  - apply Forall_forall. intros b Hin%Hb. lia.
  - intros Hin%Hb. lia.
Qed.

Lemma demo_fits : fits ∅ demo_items.
Proof.
  cbn [fits demo_items]. split_and!; [|done|done| |by eexists|done|done].
  - split; try done; cbn; try lia. by apply name_ok_intro; try done; cbn; lia.
  - split; try done; cbn; try lia. by apply name_ok_intro; try done; cbn; lia.
Qed.

Lemma demo_archive : bytes_at demo_mem 4096 (archive demo_items ++ replicate 512 0).
Proof.
  apply bytes_at_intro. intros i Hi. unfold demo_mem. set (l := archive demo_items ++ replicate 512 0) in *.
  destruct (lookup_lt_is_Some_2 l i Hi) as [b Hb]. rewrite Hb. apply elem_of_list_to_map_1.
  - rewrite fst_zip by (rewrite length_seqZ; lia). apply NoDup_seqZ.
  - apply elem_of_lookup_zip_with. exists i, (4096 + Z.of_nat i), b. split_and!; [done| |done]. apply lookup_seqZ. lia.
Qed.

(** Both items, as they come out. *)
Example demo_unpacked : unpacked ∅ demo_items !! [100; 47; 97] = Some (NFile (mkMeta 420 1 2 6 6 6) [33]).
Proof. reflexivity. Qed.

(** A character below the digits takes away from the number, which wraps around. *)
Example octal_below_zero : exists m, StringOctalToNum 16 12 m = Ok (2 ^ 64 - 8, m).
Proof. exists (list_to_map [(16, 40); (17, 0)]). vm_compute. reflexivity. Qed.

End InitRAMFS.
