(* ===== verification/InitRAMFSSpec.v ===== *)
(** * InitRAMFSSpec.v: the initial RAM file system in the kernel's own file system

    The promises that InitRAMFS.v asks of a file system are kept by VFS.v and
    TempFS.v, so that an archive is unpacked into vnodes: every item is found
    under its path, with its attributes, and a file gives its contents back. *)

From S2P Require Import Prelude AVLTree FileDescriptor FDManager TempFS VFS VFSSpec TempFSSpec CLib InitRAMFS.
#[local] Open Scope Z_scope.
#[local] Open Scope kernel_scope.

Module InitRAMFSSpec.
Import CLib(bytes_at).
Import VFS VFSSpec.
Import FileDescriptor(ESUCCESS).
Import InitRAMFS(meta, mkMeta, node, NFile, NDir).

(** ** Paths *)

Lemma cut_slash (l l' r r' : list Z) : l ++ r = l' ++ r' -> SLASH ∉ l -> SLASH ∉ l' ->
  (r = [] \/ exists t, r = SLASH :: t) -> (r' = [] \/ exists t, r' = SLASH :: t) -> l = l' /\ r = r'.
Proof.
  intros Heq Hl Hl' Hr Hr'.
  apply app_eq_inv in Heq as [(k & -> & ->)|(k & -> & ->)]; (destruct k as [|c k]; [by rewrite app_nil_r|]); exfalso.
  - destruct Hr' as [?|(t & [= -> _])]; [done|]. set_solver.
  - destruct Hr as [?|(t & [= -> _])]; [done|]. set_solver.
Qed.

Lemma path_tail_start names : path_tail names = [] \/ exists t, path_tail names = SLASH :: t.
Proof. destruct names; [by left|]. right. by eexists. Qed.

Lemma path_tail_inj names : forall names', Forall name_ok names -> Forall name_ok names' ->
  path_tail names = path_tail names' -> names = names'.
Proof.
  induction names as [|n names IH]; intros [|n' names']; try done. intros [Hn Hns]%Forall_cons [Hn' Hns']%Forall_cons Heq.
  cbn in Heq. injection Heq as Heq. fold (path_tail names) in Heq. fold (path_tail names') in Heq.
  apply cut_slash in Heq as [-> Heq]; [|apply Hn|apply Hn'|apply path_tail_start..]. f_equal. by apply IH.
Qed.

Lemma path_tail_join n names : path_tail (n :: names) = SLASH :: join (n :: names).
Proof. done. Qed.
Lemma join_inj names names' : Forall name_ok names -> Forall name_ok names' -> names <> [] -> names' <> [] ->
  join names = join names' -> names = names'.
Proof.
  intros Hn Hn' H0 H0' Heq. apply path_tail_inj; [done..|]. destruct names, names'; try done.
  by rewrite !path_tail_join, Heq.
Qed.
Lemma join_nonempty n names : name_ok n -> join (n :: names) <> [].
Proof. intros [Hn _ _ _ _ _]. by destruct n. Qed.
Lemma join_snoc names n : names <> [] -> join (names ++ [n]) = join names ++ SLASH :: n.
Proof. intros H. unfold join. rewrite path_tail_snoc. by destruct names. Qed.
Lemma join_single n : join [n] = n.
Proof. unfold join. cbn. by rewrite app_nil_r. Qed.

(** ** The vnodes of a tree *)

Section Tree.
Context {B : Type} `{BlockMemory B}.
Notation state := (@state B).
Context (rv r : Z).

Lemma reaches_names (s : state) v ns : reaches s rv r v ns -> Forall name_ok ns.
Proof. induction 1 as [|v ns n c _ IH Hc]; [constructor|]. apply Forall_app. split; [done|]. by repeat constructor; apply Hc. Qed.

Lemma reaches_inv (s : state) v ns : reaches s rv r v ns ->
  (v = r /\ ns = []) \/ exists w ms m, ns = ms ++ [m] /\ reaches s rv r w ms /\ child_of s rv w m v.
Proof. destruct 1; [by left|right; eauto 10]. Qed.

(** A path leads to one node, and a node has one path. *)
Lemma child_unique (s : state) v n c c' : child_of s rv v n c -> child_of s rv v n c' -> c = c'.
Proof.
  intros [(x & Hx & _ & _ & _ & _ & Hall) _ _] [(x' & Hx' & _ & _ & _ & Hc' & _) (y & Hy & _ & Hnm & _) _].
  rewrite Hx in Hx'. simplify_eq. destruct (Hall c' Hc') as (_ & y' & Hy' & Hun). rewrite Hy in Hy'. simplify_eq. symmetry. by apply Hun.
Qed.
Lemma reaches_node (s : state) v ns : reaches s rv r v ns -> forall v', reaches s rv r v' ns -> v = v'.
Proof.
  induction 1 as [|v ns n c Hv IH Hc]; intros v' [[-> E]|(w & ms & m & E & Hw & Hc')]%reaches_inv; try done.
  - by destruct ms.
  - by destruct ns.
  - apply app_inj_tail in E as [<- <-]. apply IH in Hw as <-. by eapply child_unique.
Qed.
Lemma child_parent (s : state) v n c v' n' : child_of s rv v n c -> child_of s rv v' n' c -> v = v' /\ n = n'.
Proof.
  intros [_ (y & Hy & _ & [Hnm _] & Hp & _) _] [_ (y' & Hy' & _ & [Hnm' _] & Hp' & _) _]. rewrite Hy in Hy'. injection Hy' as <-. split; congruence.
Qed.
Lemma root_no_child (s : state) v n : root_ok s rv r -> ~ child_of s rv v n r.
Proof.
  intros [_ _ (x & Hx & _ & Hp)] [(z & _ & Hv & _) (y & Hy & _ & _ & Hp' & _) _]. rewrite Hx in Hy. injection Hy as <-. congruence.
Qed.
Lemma reaches_path (s : state) v ns : root_ok s rv r -> reaches s rv r v ns -> forall ns', reaches s rv r v ns' -> ns = ns'.
Proof.
  intros Hro. induction 1 as [|v ns n c Hv IH Hc]; intros ns' [[E ->]|(w & ms & m & -> & Hw & Hc')]%reaches_inv; try done.
  - by apply root_no_child in Hc'.
  - rewrite E in Hc. by apply root_no_child in Hc.
  - destruct (child_parent _ _ _ _ _ _ Hc Hc') as [-> ->]. by rewrite (IH _ Hw).
Qed.

(** *** States with the same tree *)

Definition same_node (x y : VNode) : Prop :=
  a_type (m_attr x) = a_type (m_attr y) /\ m_vfs x = m_vfs y /\ m_vfsMounted x = m_vfsMounted y /\ m_parent x = m_parent y /\
  m_name x = m_name y /\ m_nameLen x = m_nameLen y /\ m_children x = m_children y.
Definition same_tree (s s' : state) : Prop :=
  g_rootVFS s = g_rootVFS s' /\ vfss s = vfss s' /\ forall v, option_Forall2 same_node (vnodes s !! v) (vnodes s' !! v).

Lemma same_node_refl x : same_node x x.
Proof. done. Qed.
Lemma same_tree_sym s s' : same_tree s s' -> same_tree s' s.
Proof.
  intros (H1 & H2 & H3). split_and!; [done..|]. intros v. destruct (H3 v) as [x y (?&?&?&?&?&?&?)|]; constructor. by split_and!.
Qed.
Lemma same_tree_at s s' v x : same_tree s s' -> vnodes s !! v = Some x -> exists y, vnodes s' !! v = Some y /\ same_node x y.
Proof. intros (_ & _ & H3) Hx. destruct (H3 v) as [x' y Hxy|]; simplify_eq; eauto. Qed.

Lemma child_of_same s s' v n c : same_tree s s' -> child_of s rv v n c -> child_of s' rv v n c.
Proof.
  intros Hs [(x & Hx & Hv & Hd & Hm & Hc & Hall) (y & Hy & Hc0 & [Hnm Hln] & Hp & Hmy & Hvf) Hn].
  destruct (same_tree_at _ _ _ _ Hs Hx) as (x' & Hx' & E1 & E2 & E3 & E4 & E5 & E6 & E7).
  destruct (same_tree_at _ _ _ _ Hs Hy) as (y' & Hy' & F1 & F2 & F3 & F4 & F5 & F6 & F7). constructor; [| |done].
  - exists x'. rewrite <- E1, <- E3, <- E7. split_and!; try done. intros d Hd'. destruct (Hall d Hd') as (Hd0 & z & Hz & Hun).
    split; [done|]. destruct (same_tree_at _ _ _ _ Hs Hz) as (z' & Hz' & _ & _ & _ & _ & G5 & G6 & _). exists z'. split; [done|].
    unfold named in *. by rewrite <- G5, <- G6.
  - exists y'. unfold named. rewrite <- F2, <- F3, <- F4, <- F5, <- F6. done.
Qed.
Lemma reaches_same s s' v ns : same_tree s s' -> reaches s rv r v ns -> reaches s' rv r v ns.
Proof. intros Hs. induction 1; [constructor|]. econstructor; [done|]. by eapply child_of_same. Qed.
Lemma root_ok_same s s' : same_tree s s' -> root_ok s rv r -> root_ok s' rv r.
Proof.
  intros Hs [H1 H2 (x & Hx & Hm & Hp)]. destruct (same_tree_at _ _ _ _ Hs Hx) as (x' & Hx' & _ & _ & E3 & E4 & _).
  destruct Hs as (E1 & E2 & _). constructor; [by rewrite <- E1|by rewrite <- E2|]. exists x'. by rewrite <- E3, <- E4.
Qed.
Lemma same_tree_update (s : state) v x y e : vnodes s !! v = Some x -> same_node x y ->
  same_tree s (set_vnodes (<[v := y]> (vnodes s)) (set_env e s)).
Proof.
  intros Hx Hxy. split_and!; [done..|]. intros w. cbn. destruct (decide (w = v)) as [->|Hw].
  - rewrite Hx, lookup_insert_eq. by constructor.
  - rewrite lookup_insert_ne by done. destruct (vnodes s !! w); constructor. apply same_node_refl.
Qed.

(** *** What a vnode is *)

Definition meta_of (x : VAttr) : meta := mkMeta (a_mode x) (a_uid x) (a_gid x) (a_atime x) (a_mtime x) (a_ctime x).

(** The bytes of a file are in one block, or it is empty. *)
Definition contents (x : VNode) (data : list Z) : Prop :=
  a_size (m_attr x) = Z.of_nat (length data) /\ a_blocks (m_attr x) = ALIGN_UP (Z.of_nat (length data)) PAGE_SIZE /\
  if decide (data = []) then m_blocks x = [] else
  m_defaultProt x = 3 /\ Z.of_nat (length data) < 2 ^ 62 /\
  exists addr pages rest, m_blocks x = [(0, mkBlock addr pages (data ++ rest))] /\
    pages = DIV_ROUNDUP (Z.of_nat (length data)) PAGE_SIZE /\ Z.of_nat (length (data ++ rest)) = pages * 4096.

Definition shows (x : VNode) (n : node) : Prop :=
  match n with
  | NFile t data => a_type (m_attr x) = REG /\ meta_of (m_attr x) = t /\ contents x data
  | NDir t => a_type (m_attr x) = DIR /\ meta_of (m_attr x) = t
  end.

(** The tree of vnodes is [V], by path; the node [l] is locked and no other. *)
Record holds (s : state) (V : gmap (list Z) node) (l : option Z) : Prop := {
  hd_root : root_ok s rv r;
  hd_fs : exists f, vfss s !! rv = Some f /\ m_type f = FS_TempFS;
  hd_dir : exists x, vnodes s !! r = Some x /\ a_type (m_attr x) = DIR /\ m_vfs x = rv;
  hd_lock : forall v x, vnodes s !! v = Some x -> m_lock x = bool_decide (l = Some v);
  hd_in : forall v ns, reaches s rv r v ns -> ns <> [] ->
    exists x n, vnodes s !! v = Some x /\ V !! join ns = Some n /\ shows x n;
  hd_all : forall p n, V !! p = Some n -> Z.of_nat (length p) < 2 ^ 63 /\
    exists v ns, ns <> [] /\ p = join ns /\ reaches s rv r v ns;
  hd_children : forall v ns x d, reaches s rv r v ns -> vnodes s !! v = Some x -> d ∈ m_children x ->
    exists n, child_of s rv v n d
}.
Definition names (s : state) (v : Z) (p : list Z) : Prop := exists ns, reaches s rv r v ns /\ p = join ns.

Lemma names_same s s' v p : same_tree s s' -> names s v p -> names s' v p.
Proof. intros Hs (ns & Hv & ->). exists ns. split; [|done]. by eapply reaches_same. Qed.

Lemma holds_path s V l p n : holds s V l -> V !! p = Some n -> p <> [].
Proof.
  intros Hh Hp. destruct (hd_all _ _ _ Hh p n Hp) as (_ & v & ns & Hns & -> & Hv). apply reaches_names in Hv.
  destruct ns; [done|]. apply Forall_cons in Hv as [Hn _]. by apply join_nonempty.
Qed.

(** The node of a path of [V]. *)
Lemma holds_node s V l v p n : holds s V l -> names s v p -> V !! p = Some n ->
  exists ns x, reaches s rv r v ns /\ ns <> [] /\ p = join ns /\ v <> 0 /\ vnodes s !! v = Some x /\ shows x n.
Proof.
  intros Hh (ns & Hv & ->) Hn. assert (Hns : ns <> []) by (intros ->; by apply (holds_path _ _ _ _ _ Hh) in Hn).
  destruct (hd_in _ _ _ Hh v ns Hv Hns) as (x & n' & Hx & Hn' & Hs). rewrite Hn in Hn'. injection Hn' as <-.
  exists ns, x. split_and!; try done. destruct (reaches_inv _ _ _ Hv) as [[_ ?]|(w & ms & m & _ & _ & Hc)]; [done|].
  destruct Hc as [_ (y & _ & Hv0 & _) _]. done.
Qed.

(** A change of one node that leaves the tree as it is. *)
Lemma holds_update s V l l' v ns x y n n' e : holds s V l -> reaches s rv r v ns -> ns <> [] -> vnodes s !! v = Some x ->
  same_node x y -> V !! join ns = Some n -> shows y n' -> m_lock y = bool_decide (l' = Some v) ->
  (forall w, w <> v -> bool_decide (l = Some w) = bool_decide (l' = Some w)) ->
  holds (set_vnodes (<[v := y]> (vnodes s)) (set_env e s)) (<[join ns := n']> V) l'.
Proof.
  intros Hh Hv Hns Hx Hxy Hn Hy Hlv Hlo. pose proof (same_tree_update s v x y e Hx Hxy) as Hs. pose proof (same_tree_sym _ _ Hs) as Hs'.
  set (s' := set_vnodes _ _) in *. destruct Hh as [Hro Hfs (x0 & Hx0 & Hd0 & Hf0) Hlk Hin Hall Hch]. constructor.
  - by eapply root_ok_same.
  - done.
  - destruct (same_tree_at _ _ _ _ Hs Hx0) as (y0 & Hy0 & E1 & E2 & _). exists y0. by rewrite <- E1, <- E2.
  - intros w z. cbn. destruct (decide (w = v)) as [->|Hw]; [rewrite lookup_insert_eq; by intros [= <-]|].
    rewrite lookup_insert_ne by done. intros Hz. rewrite <- Hlo by done. by eapply Hlk.
  - intros w ms Hw Hms. apply (reaches_same _ _ _ _ Hs') in Hw. cbn. destruct (decide (w = v)) as [->|Hwv].
    + rewrite (reaches_path s v ms Hro Hw ns Hv), !lookup_insert_eq. eauto.
    + assert (join ns <> join ms).
      { intros E. apply Hwv. apply join_inj in E; [|by eapply reaches_names..|done|done]. subst ms. by eapply reaches_node. }
      rewrite !lookup_insert_ne by done. by apply Hin.
  - intros p m Hp. destruct (decide (p = join ns)) as [->|Hpn].
    + split; [by apply (Hall _ _ Hn)|]. exists v, ns. split_and!; [done..|]. by eapply reaches_same.
    + rewrite lookup_insert_ne in Hp by done. destruct (Hall p m Hp) as (Hl & w & ms & Hms & -> & Hw). split; [done|].
      exists w, ms. split_and!; [done..|]. by eapply reaches_same.
  - intros w ms z d Hw Hz Hd. apply (reaches_same _ _ _ _ Hs') in Hw. destruct (same_tree_at _ _ _ _ Hs' Hz) as (z0 & Hz0 & E).
    destruct E as (_ & _ & _ & _ & _ & _ & Ec). rewrite Ec in Hd. destruct (Hch w ms z0 d Hw Hz0 Hd) as [m Hm].
    exists m. by eapply child_of_same.
Qed.

(** *** A new entry *)

Section Entry.
Context (s : state) (type : VType) (mode : Z) (cred : Credential) (v : Z) (x : VNode) (node : Z) (n : list Z).
Context (Hch : can_hold s v x n node).
Notation s' := (with_entry type mode cred rv v node n x s).

Lemma entry_old w y' : vnodes s' !! w = Some y' -> w <> node -> exists y, vnodes s !! w = Some y /\ m_attr y' = m_attr y /\
  m_vfsMounted y' = m_vfsMounted y /\ m_parent y' = m_parent y /\ m_vfs y' = m_vfs y /\ m_name y' = m_name y /\ m_nameLen y' = m_nameLen y /\
  m_children y' = if decide (w = v) then m_children y ++ [node] else m_children y.
Proof.
  destruct Hch as [(Hx & Hv & Hdir & Hmt) (_ & Hnv & Hf) Hnew _]. intros Hy' Hw. destruct (vnodes s !! w) as [y|] eqn:Hy.
  - destruct (with_entry_old s type mode cred rv v x node n Hx Hf Hdir Hmt Hnew w y Hy) as (y0 & Hy0 & E). rewrite Hy' in Hy0. injection Hy0 as <-. eauto.
  - exfalso. revert Hy'. unfold with_entry. cbn. assert (w <> v) by congruence. rewrite !lookup_insert_ne by done. congruence.
Qed.
Lemma entry_at : vnodes s' !! node = Some (new_entry type mode cred rv v node n).
Proof. destruct Hch as [(Hx & _) (_ & Hnv & Hf) _ _]. by apply with_entry_new. Qed.

Lemma child_of_entry w m c : (forall y, vnodes s !! w = Some y -> node ∉ m_children y) ->
  child_of s' rv w m c -> (w = v /\ m = n /\ c = node) \/ child_of s rv w m c.
Proof.
  intros Hno [(y' & Hy' & Hw & Hd & Hm & Hc & Hall) (z' & Hz' & Hc0 & [Hz1 Hz2] & Hp & Hmz & Hvz) Hmn].
  destruct (decide (c = node)) as [->|Hcn].
  { left. rewrite entry_at in Hz'. injection Hz' as <-. cbn in Hz1, Hp. split_and!; congruence. }
  right. destruct (decide (w = node)) as [->|Hwn].
  { exfalso. rewrite entry_at in Hy'. injection Hy' as <-. by apply not_elem_of_nil in Hc. }
  destruct (entry_old w y' Hy' Hwn) as (y & Hy & Ea & Em & _ & _ & _ & _ & Ec).
  destruct (entry_old c z' Hz' Hcn) as (z & Hz & _ & Em' & Ep & Ev & En & El & _). specialize (Hno y Hy). constructor; [| |done].
  - exists y. rewrite <- Ea, <- Em. split_and!; try done; [rewrite Ec in Hc; case_decide; set_solver|]. intros d Hdin.
    destruct (Hall d) as (Hd0 & y0' & Hy0' & Hun); [rewrite Ec; case_decide; set_solver|]. split; [done|].
    assert (d <> node) by (intros ->; done).
    destruct (entry_old d y0' Hy0') as (y0 & Hy0 & _ & _ & _ & _ & En0 & El0 & _); [done|]. exists y0. split; [done|].
    unfold named in *. by rewrite <- En0, <- El0.
  - exists z. unfold named. rewrite <- Em', <- Ep, <- Ev, <- En, <- El. done.
Qed.

Lemma reaches_entry names w ns : root_ok s rv r -> reaches s rv r v names ->
  (forall w ns y, reaches s rv r w ns -> vnodes s !! w = Some y -> node ∉ m_children y) ->
  reaches s' rv r w ns -> reaches s rv r w ns \/ (w = node /\ ns = names ++ [n]).
Proof.
  intros Hro Hv Hno. induction 1 as [|w ns m c Hw [IH|[-> ->]] Hc]; [left; constructor| |].
  - apply child_of_entry in Hc as [(-> & -> & ->)|Hc]; [|left; by econstructor|by intros y Hy; eapply Hno].
    right. by rewrite (reaches_path s v ns Hro IH names Hv).
  - exfalso. destruct Hc as [(y & Hy & _ & _ & _ & Hc & _) _ _]. rewrite entry_at in Hy. injection Hy as <-. by apply not_elem_of_nil in Hc.
Qed.

Lemma holds_entry V names n' : holds s V None -> reaches s rv r v names -> V !! join (names ++ [n]) = None ->
  Z.of_nat (length (join (names ++ [n]))) < 2 ^ 63 -> shows (new_entry type mode cred rv v node n) n' ->
  holds s' (<[join (names ++ [n]) := n']> V) None.
Proof.
  intros Hh Hv Hnew Hlen Hn'. pose proof Hch as [(Hx & Hv0 & Hdir & Hmt) (Hn0 & Hnv & Hf) Hcn Hok].
  destruct Hh as [Hro Hfs (x0 & Hx0 & Hd0 & Hf0) Hlk Hin Hall Hchi].
  assert (Hno : forall w ns y, reaches s rv r w ns -> vnodes s !! w = Some y -> node ∉ m_children y).
  { intros w ns y Hw Hy Hd. destruct (Hchi w ns y node Hw Hy Hd) as [m [_ (z & Hz & _) _]]. congruence. }
  assert (Hold : forall w ns, reaches s rv r w ns -> reaches s' rv r w ns) by (intros; by eapply reaches_old).
  constructor.
  - by eapply root_ok_old.
  - done.
  - destruct (with_entry_old s type mode cred rv v x node n Hx Hf Hdir Hmt Hcn r x0 Hx0) as (y0 & Hy0 & Ea & _ & _ & Ev & _).
    exists y0. by rewrite Ea, Ev.
  - intros w y. unfold with_entry. cbn. destruct (decide (w = v)) as [->|Hw]; [rewrite lookup_insert_eq; intros [= <-]; exact (Hlk v x Hx)|].
    rewrite lookup_insert_ne by done. destruct (decide (w = node)) as [->|Hwn]; [rewrite lookup_insert_eq; by intros [= <-]|].
    rewrite lookup_insert_ne by done. apply Hlk.
  - intros w ns Hw Hns. destruct (reaches_entry names w ns Hro Hv Hno Hw) as [Hw'|[-> ->]]; clear Hw; [rename Hw' into Hw|].
    + destruct (Hin w ns Hw Hns) as (y & m & Hy & Hm & Hs). assert (join (names ++ [n]) <> join ns) by congruence.
      rewrite lookup_insert_ne by done. assert (w <> node) by congruence. unfold with_entry. cbn.
      destruct (decide (w = v)) as [->|Hwv]; [|rewrite !lookup_insert_ne by done; eauto].
      rewrite lookup_insert_eq. rewrite Hx in Hy. injection Hy as <-. eexists _, m. split_and!; [done..|].
      destruct m as [t d|t]; [by destruct Hs as [Hs _]; rewrite Hdir in Hs|done].
    + rewrite lookup_insert_eq, entry_at. eauto.
  - intros p m Hp. destruct (decide (p = join (names ++ [n]))) as [->|Hpn].
    + split; [done|]. exists node, (names ++ [n]). split_and!; [by destruct names|done|]. econstructor; [by apply Hold|]. by apply child_of_new.
    + rewrite lookup_insert_ne in Hp by done. destruct (Hall p m Hp) as (Hl & w & ns & Hns & -> & Hw). eauto 10.
  - intros w ns y d Hw Hy Hd. destruct (reaches_entry names w ns Hro Hv Hno Hw) as [Hw'|[-> ->]]; clear Hw; [rename Hw' into Hw|].
    + assert (w <> node) by (intros ->; destruct (reaches_inv _ _ _ Hw) as [[-> _]|(u & ms & m & _ & _ & [_ (z & Hz & _) _])]; congruence).
      destruct (entry_old w y Hy) as (y0 & Hy0 & _ & _ & _ & _ & _ & _ & Ec); [done|].
      assert (Hd' : d ∈ m_children y0 \/ (w = v /\ d = node)) by (rewrite Ec in Hd; case_decide; set_solver).
      destruct Hd' as [Hd'|[-> ->]]; [|exists n; by apply child_of_new].
      destruct (Hchi w ns y0 d Hw Hy0 Hd') as [m Hm]. exists m. by apply child_of_old.
    + exfalso. rewrite entry_at in Hy. injection Hy as <-. by apply not_elem_of_nil in Hd.
Qed.
End Entry.
End Tree.

(** ** The operations *)

(** As long as there is memory: [new] gives a vnode an address that no other has,
    and a file gets the pages it asks for. *)
Class EnoughMemory (B : Type) `{BlockMemory B} : Type := {
  node_address : @state B -> Z;
  node_address_new s : node_address s <> 0 /\ vnodes s !! node_address s = None;
  blocks_had pages node obj (e : B) : 0 < pages -> exists addr data obj' e',
    AllocMemObjAnonPages pages node 0 obj e = (Some (addr, data, obj'), e') /\ Z.of_nat (length data) = pages * 4096
}.

Section OnVFS.
Context {B : Type} `{EnoughMemory B}.
Notation state := (@state B).
Context (rv r : Z) (cred : Credential).

#[local] Instance vfs_ops : InitRAMFS.FileSystem state := {
  can_new _ := ret true;
  VFS_CreateFile parent base cwd := fun s => VFS_CreateFile (Some parent) (Some base) cwd cred (node_address s) s;
  VFS_CreateDir parent base cwd := fun s => VFS_CreateDir (Some parent) (Some base) cwd cred (node_address s) s;
  VFS_LookupPath path cwd := let* (rc, v, _) := VFS_LookupPath (Some path) cwd in ret (rc, v);
  Lock := Lock;
  Unlock := Unlock;
  GetAttr := GetAttr;
  SetAttr := SetAttr;
  Write v data := Write v data (Z.of_nat (length data)) 0
}.

Notation holds := (holds rv r).
Notation names := (names rv r).
Notation reaches s := (reaches s rv r).

(** The path of a node of the tree is looked up from the root. *)
Lemma LookupPath_holds (s : state) V l v ns n : holds s V l -> reaches s v ns -> V !! join ns = Some n ->
  runs (VFS_LookupPath (Some (join ns)) r) s (fun res s' => s' = s /\ res = (ESUCCESS, v, rv)).
Proof.
  intros Hh Hv Hn. destruct (hd_all _ _ _ _ _ Hh _ _ Hn) as (Hl & _). destruct (hd_dir _ _ _ _ _ Hh) as (x & Hx & _ & Hvf).
  destruct ns as [|m ns]; [by apply (holds_path _ _ _ _ _ _ _ Hh) in Hn|]. eapply LookupPath_join_runs; [apply Hh|done..].
Qed.

(** The directory that an item goes into. *)
Lemma parent_found (s : state) V parent base : holds s V None -> InitRAMFS.name_ok parent base -> InitRAMFS.parent_there V parent ->
  exists v ns x, reaches s v ns /\ InitRAMFS.path_of parent base = join (ns ++ [base]) /\
    vnodes s !! v = Some x /\ v <> 0 /\ a_type (m_attr x) = DIR /\ m_vfsMounted x = 0 /\
    runs (VFS_LookupPath (Some (InitRAMFS.parent_path parent)) r) s (fun res s' => s' = s /\ res = (ESUCCESS, v, rv)).
Proof.
  intros Hh Hok Hp. destruct parent as [d|].
  - destruct Hp as [t Ht]. destruct (hd_all _ _ _ _ _ Hh _ _ Ht) as (_ & v & ns & Hns & -> & Hv).
    destruct (hd_in _ _ _ _ _ Hh v ns Hv Hns) as (x & n & Hx & Hn & Hs). rewrite Ht in Hn. injection Hn as <-. destruct Hs as [Hd _].
    destruct (reaches_inv _ _ _ _ _ Hv) as [[_ ?]|(w & ms & m & _ & _ & [_ (y & Hy & Hv0 & _ & _ & Hm & _) _])]; [done|].
    rewrite Hx in Hy. injection Hy as <-. exists v, ns, x. split_and!; try done; [by rewrite join_snoc|]. by eapply LookupPath_holds.
  - destruct (hd_dir _ _ _ _ _ Hh) as (x & Hx & Hd & _). pose proof (hd_root _ _ _ _ _ Hh) as Hro.
    pose proof Hro as [(_ & _ & Hr) _ (x' & Hx' & Hm & _)]. rewrite Hx in Hx'. injection Hx' as <-.
    exists r, [], x. split_and!; try done; [constructor|by rewrite app_nil_l, join_single|].
    apply (LookupPath_runs s rv r r []); [done|constructor|done].
Qed.

Lemma base_ok parent base : InitRAMFS.name_ok parent base -> name_ok base.
Proof.
  intros [_ Hz [Hne Hs] _ [Hd1 Hd2] Hl]. assert (0 ∉ base /\ (length base <= 99)%nat) as [Hz' Hl'].
  { destruct parent; cbn in *; [|done]. rewrite length_app in Hl. cbn [length] in Hl. split; [set_solver|lia]. }
  constructor; try done. unfold NAME_MAX. lia.
Qed.

Lemma create_holds (s : state) V type mode parent base n : InitRAMFS.name_ok parent base -> holds s V None ->
  InitRAMFS.parent_there V parent -> V !! InitRAMFS.path_of parent base = None ->
  (forall v node, shows (new_entry type mode cred rv v node base) n) ->
  runs (create type mode (Some (InitRAMFS.parent_path parent)) (Some base) r cred (node_address s)) s
    (fun rc s' => rc = ESUCCESS /\ holds s' (<[InitRAMFS.path_of parent base := n]> V) None /\ reaches s' r []).
Proof.
  intros Hok Hh Hp Hnew Hn. destruct (parent_found s V parent base Hh Hok Hp) as (v & ns & x & Hv & Epath & Hx & Hv0 & Hd & Hm & Hlk).
  rewrite Epath in *. pose proof (base_ok _ _ Hok) as Hb. destruct (node_address_new s) as [Ha0 Hfr].
  assert (Hlen : Z.of_nat (length (join (ns ++ [base]))) < 2 ^ 63) by (rewrite <- Epath; pose proof (InitRAMFS.name_short _ _ Hok); lia).
  assert (Hch : can_hold s v x base (node_address s)).
  { constructor; [done|split_and!; [done|congruence|done]| |done]. intros d Hd'.
    destruct (hd_children _ _ _ _ _ Hh v ns x d Hv Hx Hd') as [m Hc]. pose proof Hc as [_ (y & Hy & Hd0 & _) _].
    split; [done|]. exists y. split; [done|]. intros Hnm.
    assert (m = base) as ->. { destruct Hc as [_ (y' & Hy' & _ & [Hm' _] & _) _]. rewrite Hy in Hy'. injection Hy' as <-. destruct Hnm. congruence. }
    destruct (hd_in _ _ _ _ _ Hh d (ns ++ [base])) as (? & n0 & _ & Hn0 & _); [by econstructor|by destruct ns|]. congruence. }
  eapply runs_mono; [by eapply create_makes; [apply Hh|exact Hlk|exact Hch|apply Hh]|]. intros rc s' [-> ->].
  split_and!; [done|by apply holds_entry|constructor].
Qed.

(** An update of the locked node. *)
Lemma holds_locked (s : state) V v x y ns n n' e : holds s V (Some v) -> reaches s v ns -> ns <> [] -> vnodes s !! v = Some x ->
  same_node x y -> m_lock y = m_lock x -> V !! join ns = Some n -> shows y n' ->
  holds (set_vnodes (<[v := y]> (vnodes s)) (set_env e s)) (<[join ns := n']> V) (Some v).
Proof.
  intros Hh Hv Hns Hx Hxy Hl Hn Hy. eapply (holds_update rv r s V (Some v)); try done. rewrite Hl. by apply (hd_lock _ _ _ _ _ Hh v).
Qed.

Lemma set_attributes_shows x n mode uid gid mtime : shows x n ->
  shows (set_attr (InitRAMFS.set_attributes mode uid gid mtime (m_attr x)) x)
    (InitRAMFS.with_meta (mkMeta mode uid gid mtime mtime mtime) n).
Proof. destruct n as [t data|t]; [intros (? & _ & ?)|intros (? & _)]; by split_and!. Qed.

(** The first write to a file. *)
Lemma Write_holds (s : state) V v ns x t data : holds s V (Some v) -> reaches s v ns -> ns <> [] -> v <> 0 ->
  vnodes s !! v = Some x -> V !! join ns = Some (NFile t []) -> shows x (NFile t []) -> Z.of_nat (length data) < 2 ^ 62 ->
  runs (Write v data (Z.of_nat (length data)) 0) s (fun res s' => fst res = ESUCCESS /\
    same_tree s s' /\ holds s' (<[join ns := NFile t data]> V) (Some v)).
Proof.
  intros Hh Hv Hns Hv0 Hx Hn (Hreg & Hmeta & Hsz & Hbl & Hb) Hlen. destruct (decide (data = [])) as [->|Hd].
  { cbn. apply runs_ret. rewrite insert_id by done. split_and!; [done| |done].
    split_and!; [done..|]. intros w. destruct (vnodes s !! w); constructor. apply same_node_refl. }
  cbn in Hb. assert (0 < Z.of_nat (length data)) by (destruct data; [done|]; rewrite length_cons; lia).
  destruct (TempFSSpec.DIV_ROUNDUP_pages (Z.of_nat (length data)) ltac:(lia)) as [Hp1 Hp2].
  destruct (blocks_had (DIV_ROUNDUP (Z.of_nat (length data)) PAGE_SIZE) v (m_memObj x) (env s)) as (addr & pg & obj & e & Hal & Hpl); [lia|].
  eapply runs_mono; [apply (TempFSSpec.Write_first s v x Hv0 Hx data
    (mkBlock addr (DIV_ROUNDUP (Z.of_nat (length data)) PAGE_SIZE) pg) obj e); [done|done|done|lia|done]|].
  intros res s' [-> ->]. split_and!; [done|by eapply same_tree_update|].
  eapply holds_locked; [done..|]. split_and!; [done|by destruct t|]. unfold contents. split_and!; [done..|].
  rewrite decide_False by done. split_and!; [done|done|]. eexists _, _, _. split; [reflexivity|]. split; [done|].
  rewrite length_app, length_drop. cbn. lia.
Qed.

Lemma names_root (s : state) v : names s v [] -> v = r.
Proof.
  intros (ns & Hv & E). destruct ns as [|m ns]; [by eapply reaches_node; [|constructor]|].
  pose proof (reaches_names _ _ _ _ _ Hv) as [Hm _]%Forall_cons. by apply (join_nonempty m ns) in Hm.
Qed.

Lemma lookup_holds (s : state) V path : holds s V None -> is_Some (V !! path) ->
  runs (VFS_LookupPath (Some path) r) s (fun res s' => s' = s /\ exists v, res = (ESUCCESS, v, rv) /\ names s v path).
Proof.
  intros Hh [n Hn]. destruct (hd_all _ _ _ _ _ Hh path n Hn) as (_ & v & ns & Hns & -> & Hv).
  eapply runs_mono; [by eapply LookupPath_holds|]. intros res s' [-> ->]. split; [done|]. exists v. split; [done|]. by exists ns.
Qed.

Lemma Lock_holds (s : state) V v path : holds s V None -> names s v path -> is_Some (V !! path) ->
  runs (Lock v) s (fun _ s' => same_tree s s' /\ holds s' V (Some v)).
Proof.
  intros Hh Hv [n Hn]. destruct (holds_node _ _ _ _ _ _ _ _ Hh Hv Hn) as (ns & x & Hns & Hne & -> & Hv0 & Hx & Hs).
  unfold Lock. mstep. eapply ld_vnode_runs; [done..|]. rewrite (hd_lock _ _ _ _ _ Hh _ _ Hx), bool_decide_eq_false_2 by done.
  eapply upd_vnode_runs; [done..|]. split; [by apply (same_tree_update s v x (set_lock true x) (env s))|].
  rewrite <- (insert_id V (join ns) n) by done.
  eapply (holds_update rv r s V None (Some v) v ns x (set_lock true x) n n (env s)); try done.
  - cbn. by rewrite bool_decide_eq_true_2.
  - intros w Hw. rewrite !bool_decide_eq_false_2; [done|congruence|done].
Qed.

Lemma Unlock_holds (s : state) V v path : holds s V (Some v) -> names s v path -> is_Some (V !! path) ->
  runs (Unlock v) s (fun _ s' => same_tree s s' /\ holds s' V None).
Proof.
  intros Hh Hv [n Hn]. destruct (holds_node _ _ _ _ _ _ _ _ Hh Hv Hn) as (ns & x & Hns & Hne & -> & Hv0 & Hx & Hs).
  unfold Unlock. eapply upd_vnode_runs; [done..|]. split; [by apply (same_tree_update s v x (set_lock false x) (env s))|].
  rewrite <- (insert_id V (join ns) n) by done.
  eapply (holds_update rv r s V (Some v) None v ns x (set_lock false x) n n (env s)); try done.
  - intros w Hw. rewrite !bool_decide_eq_false_2; [done|done|congruence].
Qed.

Lemma SetAttr_holds (s : state) V v path n x mode uid gid mtime : holds s V (Some v) -> names s v path -> V !! path = Some n ->
  vnodes s !! v = Some x ->
  runs (SetAttr v (InitRAMFS.set_attributes mode uid gid mtime (m_attr x))) s (fun rc s' => rc = ESUCCESS /\ same_tree s s' /\
    holds s' (<[path := InitRAMFS.with_meta (mkMeta mode uid gid mtime mtime mtime) n]> V) (Some v)).
Proof.
  intros Hh Hv Hn Hx. destruct (holds_node _ _ _ _ _ _ _ _ Hh Hv Hn) as (ns & x' & Hns & Hne & -> & Hv0 & Hx' & Hs).
  rewrite Hx in Hx'. injection Hx' as <-. unfold SetAttr. mstep. eapply upd_vnode_runs; [done..|]. apply runs_ret.
  set (y := set_attr _ x). split_and!; [done|by apply (same_tree_update s v x y (env s))|].
  eapply (holds_locked s V v x y ns n _ (env s)); try done. by apply set_attributes_shows.
Qed.

(** VFS.v and TempFS.v keep the promises. *)
#[local] Instance vfs_laws : InitRAMFS.Laws state.
Proof.
  refine {| InitRAMFS.holds := holds; InitRAMFS.names := names;
            InitRAMFS.attr_of := fun s v a => exists x, vnodes s !! v = Some x /\ m_attr x = a |}; cbn.
  - intros n s V Hh. by apply runs_ret.
  - intros s V Hh. mstep. eapply runs_mono; [apply (LookupPath_runs s rv r r [] 0); [apply Hh|constructor|done]|].
    intros res s' [-> ->]. apply runs_ret. split_and!; [done|done|]. exists []. split; [constructor|done].
  - intros s V parent base cwd Hok Hh ->%names_root Hp Hnew.
    eapply runs_mono; [apply (create_holds s V _ _ parent base (NFile (mkMeta DEFAULT_FILE_MODE (euid cred) (egid cred) 0 0 0) [])); try done|].
    intros rc s' (-> & Hh' & Hr). split_and!; [done|by eexists|]. by exists [].
  - intros s V parent base cwd Hok Hh ->%names_root Hp Hnew.
    eapply runs_mono; [apply (create_holds s V _ _ parent base (NDir (mkMeta DEFAULT_DIR_MODE (euid cred) (egid cred) 0 0 0))); try done|].
    intros rc s' (-> & Hh' & Hr). split_and!; [done|by eexists|]. by exists [].
  - intros s V parent base cwd Hok Hh Hc Hs. pose proof (names_root _ _ Hc) as ->. mstep.
    eapply runs_mono; [by apply (lookup_holds s V)|]. intros res s' [-> (v & -> & Hv)]. by apply runs_ret.
  - intros s V v path Hh Hv Hs. eapply runs_mono; [by eapply Lock_holds|]. intros [] s' [Hst Hh']. split; [done|].
    intros w p. by apply names_same.
  - intros s V v path Hh Hv Hs. eapply runs_mono; [by eapply Unlock_holds|]. intros [] s' [Hst Hh']. split; [done|].
    intros w p. by apply names_same.
  - intros s V v path Hh Hv [n Hn]. destruct (holds_node _ _ _ _ _ _ _ _ Hh Hv Hn) as (ns & x & _ & _ & _ & Hv0 & Hx & _).
    unfold GetAttr. mstep. eapply ld_vnode_runs; [done..|]. apply runs_ret. cbn. split_and!; [done|by eexists|done|done].
  - intros s V v path n a mode uid gid mtime Hh Hv Hn (x & Hx & <-). eapply runs_mono; [by eapply SetAttr_holds|].
    intros rc s' (-> & Hst & Hh'). split_and!; [done|done|]. intros w p. by apply names_same.
  - intros s V v path t data Hh Hv Hn Hl. destruct (holds_node _ _ _ _ _ _ _ _ Hh Hv Hn) as (ns & x & Hns & Hne & -> & Hv0 & Hx & Hs).
    eapply runs_mono; [by eapply Write_holds|]. intros res s' (-> & Hst & Hh'). split_and!; [done|done|]. intros w p. by apply names_same.
Defined.

(** ** What is found in the tree *)

Definition node_meta (n : node) : meta := match n with NFile t _ | NDir t => t end.
Definition node_type (n : node) : VType := match n with NFile _ _ => REG | NDir _ => DIR end.

(** The path is looked up, the node has the attributes, and a file gives its bytes back at any
    offset. *)
Definition found (s : state) (p : list Z) (n : node) : Prop := exists v,
  runs (VFS_LookupPath (Some p) r) s (fun res s' => s' = s /\ res = (ESUCCESS, v, rv)) /\
  runs (GetAttr v) s (fun res s' => s' = s /\ res.1 = ESUCCESS /\ meta_of res.2 = node_meta n /\ a_type res.2 = node_type n) /\
  match n with
  | NDir _ => True
  | NFile _ data => forall out k o, 0 <= k < 2 ^ 62 -> 0 <= o < 2 ^ 62 -> Z.min k (Z.of_nat (length data) - o) <= Z.of_nat (length out) ->
      runs (Read v out k o) s (fun res s' => s' = s /\ res = TempFSSpec.read_back data out k o)
  end.

Lemma contents_written x data : data <> [] -> contents x data -> exists block,
  x = TempFSSpec.written x data block (m_memObj x) /\ 0 < Z.of_nat (length data) < 2 ^ 62 /\
  b_pages block = DIV_ROUNDUP (Z.of_nat (length data)) PAGE_SIZE /\ Z.of_nat (length (b_data block)) = b_pages block * 4096.
Proof.
  intros Hne (Hsz & Hbl & Hc). rewrite decide_False in Hc by done. destruct Hc as (Hpr & Hlen & addr & pages & rest & Hb & Hp & Hl).
  exists (mkBlock addr pages (data ++ rest)). cbn. split_and!; [|destruct data; [done|rewrite length_cons; lia]|done|done|done].
  unfold TempFSSpec.written. cbn. rewrite drop_app_length, <- Hb, <- Hbl, <- Hsz, <- Hpr. destruct x as [a]; destruct a. done.
Qed.

Lemma read_holds (s : state) v x data out k o : v <> 0 -> vnodes s !! v = Some x -> contents x data ->
  0 <= k < 2 ^ 62 -> 0 <= o < 2 ^ 62 -> Z.min k (Z.of_nat (length data) - o) <= Z.of_nat (length out) ->
  runs (Read v out k o) s (fun res s' => s' = s /\ res = TempFSSpec.read_back data out k o).
Proof.
  intros Hv Hx Hc Hk Ho Hout. destruct (decide (data = [])) as [->|Hne].
  - destruct Hc as (Hsz & _). unfold Read, TempFSSpec.read_back. mstep. eapply ld_vnode_runs; [done..|]. rewrite Hsz.
    cbn [length]. change (Z.of_nat 0) with 0. rewrite !(proj2 (Z.leb_le 0 o)) by lia. by apply runs_ret.
  - destruct (contents_written x data Hne Hc) as (block & Hw & Hlen & Hp & Hl). rewrite Hw in Hx.
    eapply TempFSSpec.Read_first; done.
Qed.

Lemma found_holds (s : state) V l p n : holds s V l -> V !! p = Some n -> found s p n.
Proof.
  intros Hh Hn. destruct (hd_all _ _ _ _ _ Hh p n Hn) as (_ & v & ns & Hns & -> & Hv).
  destruct (holds_node _ _ s V l v (join ns) n Hh ltac:(by exists ns) Hn) as (_ & x & _ & _ & _ & Hv0 & Hx & Hs).
  exists v. split_and!; [by eapply LookupPath_holds| |].
  - unfold GetAttr. mstep. eapply ld_vnode_runs; [done..|]. apply runs_ret. by destruct n; destruct Hs as (? & ? & _) || destruct Hs.
  - destruct n as [t data|t]; [|done]. destruct Hs as (_ & _ & Hc). intros out k o. by apply (read_holds s v x).
Qed.

(** A file system that was just mounted is empty. *)
Lemma MountRoot_holds (e : B) : rv <> 0 -> r <> 0 ->
  runs (VFS_MountRoot FS_TempFS rv r cred) (mk ∅ ∅ 0 e) (fun rc s => rc = ESUCCESS /\ holds s ∅ None).
Proof.
  intros Hrv Hr. unfold VFS_MountRoot. mstep. mstep. unfold Mount. mstep. unfold new_vnode. mstep. mstep. unfold Create. cbn [negb andb Z.eqb].
  mstep. mstep. eapply ld_vnode_runs; [done|cbn; apply lookup_insert_eq|]. mstep. eapply upd_vnode_runs; [done|cbn; apply lookup_insert_eq|].
  mstep. cbn [whenM]. apply runs_ret. mstep. eapply upd_vnode_runs; [done|cbn; apply lookup_insert_eq|]. mstep. cbn [whenM]. apply runs_ret.
  apply runs_ret. cbn [Z.ltb Z.compare ESUCCESS]. mstep. eapply upd_vnode_runs; [done|cbn; apply lookup_insert_eq|].
  mstep. eapply ld_vfs_runs; [done|cbn; apply lookup_insert_eq|]. mstep. mstep. apply runs_ret. cbn [Z.ltb Z.compare ESUCCESS].
  mstep. mstep. apply runs_ret. split; [done|]. unfold set_vnodes, set_vfss. cbn. rewrite !insert_insert_eq.
  match goal with |- holds ?s' _ _ => set (s := s') end.
  assert (Hno : forall v n c, ~ child_of s rv v n c).
  { intros v n c [(x & Hx & _ & _ & _ & Hc & _) _ _]. unfold s in Hx. cbn in Hx. apply lookup_insert_Some in Hx as [[_ <-]|[_ Hx]]; [|done].
    by apply not_elem_of_nil in Hc. }
  assert (Hre : forall v ns, reaches s v ns -> ns = []).
  { intros v ns [[_ ->]|(w & ms & m & _ & _ & Hc)]%reaches_inv; [done|]. by apply Hno in Hc. }
  constructor.
  - constructor; [done|eexists; split; [cbn; apply lookup_insert_eq|done]|eexists; split; [cbn; apply lookup_insert_eq|done]].
  - eexists. split; [cbn; apply lookup_insert_eq|done].
  - eexists. split; [cbn; apply lookup_insert_eq|done].
  - intros v x. cbn. intros [[_ <-]|[_ Hx]]%lookup_insert_Some; done.
  - intros v ns Hv%Hre. done.
  - intros p n. by rewrite lookup_empty.
  - intros v ns x d _ Hx Hd. unfold s in Hx. cbn in Hx. apply lookup_insert_Some in Hx as [[_ <-]|[_ Hx]]; [|done].
    by apply not_elem_of_nil in Hd.
Qed.

(** C24: an archive of files and directories, each below a directory that is there by
    then and under a new name, is unpacked into the vnodes of the kernel's file system. If
    it lies in memory, with names of at most 99 characters, and memory does not run
    out, [LoadInitRAMFS] returns 0, has freed every buffer, and the tree is the old one with
    exactly these items: each is found by [VFS_LookupPath] under its path, with its
    type, mode, owner, group and times, and [Read] gives the bytes of a file.  It takes one
    round more than there are items. *)
Theorem LoadInitRAMFS_unpacks items fuel data size V m (s : state) :
  bytes_at m data (InitRAMFS.archive items ++ replicate 512 0) -> holds s V None -> InitRAMFS.fits V items ->
  (length items < fuel)%nat -> 0 < data -> data + Z.of_nat (length (InitRAMFS.archive items)) + 512 < W64 ->
  Z.of_nat (length (InitRAMFS.archive items)) <= size ->
  runs (InitRAMFS.LoadInitRAMFS fuel data size) (InitRAMFS.mk m 0 s) (fun rc s' =>
    rc = 0 /\ InitRAMFS.buffers s' = 0 /\ holds (InitRAMFS.env s') (InitRAMFS.unpacked V items) None /\
    forall p n, InitRAMFS.unpacked V items !! p = Some n -> found (InitRAMFS.env s') p n).
Proof.
  intros Hm Hh Hfit Hf Hd Hw Hsz. eapply runs_mono; [by apply (InitRAMFS.LoadInitRAMFS_runs items fuel data size V m s)|].
  intros rc s' (-> & -> & Hh'). split_and!; [done..|]. intros p n. by apply found_holds with (l := None).
Qed.
End OnVFS.

(** ** Witnesses *)

(** The zeroed memory of VFSSpec.v, with an address for a new vnode that is not in use. *)
#[local] Existing Instance zeroed_memory.
#[local] Instance enough_memory : EnoughMemory unit.
Proof.
  refine {| node_address := fun s => fresh (dom (vnodes s) ∪ {[0]}) |}.
  - intros s. pose proof (is_fresh (dom (vnodes s) ∪ {[0]})) as Hf. split; [set_solver|]. apply not_elem_of_dom. set_solver.
  - intros pages node obj e Hp. cbn. eexists _, _, _, _. split; [done|]. rewrite length_replicate. lia.
Defined.

Lemma mounted_holds : holds 1 2 mounted ∅ None.
Proof.
  destruct (MountRoot_holds 1 2 user tt) as (rc & s & Hrun & _ & Hh); [done..|].
  unfold mounted, exec. by rewrite Hrun.
Qed.

Lemma LoadInitRAMFS_unpacks_witness : holds 1 2 mounted ∅ None /\
  runs (InitRAMFS.LoadInitRAMFS (H := vfs_ops user) 3 4096 2048) (InitRAMFS.mk InitRAMFS.demo_mem 0 mounted) (fun rc s' =>
    rc = 0 /\ InitRAMFS.buffers s' = 0 /\ holds 1 2 (InitRAMFS.env s') (InitRAMFS.unpacked ∅ InitRAMFS.demo_items) None /\
    forall p n, InitRAMFS.unpacked ∅ InitRAMFS.demo_items !! p = Some n -> found 1 2 (InitRAMFS.env s') p n).
Proof.
  split; [exact mounted_holds|].
  apply (LoadInitRAMFS_unpacks 1 2 user InitRAMFS.demo_items 3 4096 2048 ∅ InitRAMFS.demo_mem mounted);
    [apply InitRAMFS.demo_archive|apply mounted_holds|apply InitRAMFS.demo_fits|cbn; lia|lia|vm_compute; reflexivity|vm_compute; discriminate].
Defined.

(** The mark of a header is read before its address is compared with the size. *)
Example reads_past_end : InitRAMFS.LoadInitRAMFS (H := vfs_ops user) 1 4096 0 (InitRAMFS.mk ∅ 0 mounted) = Fail InvalidAccess.
Proof. vm_compute. reflexivity. Qed.

(** A name of 100 characters, which has no zero after it, ends the loop with success: nothing is unpacked. *)
Definition long_item : InitRAMFS.item := InitRAMFS.mkItem false None (replicate 100 97) 420 0 0 0 [].
Definition long_mem : CLib.mem :=
  list_to_map (zip (seqZ 4096 1024) (InitRAMFS.archive [long_item] ++ replicate 512 0)).
Example long_name_stops :
  match InitRAMFS.LoadInitRAMFS (H := vfs_ops user) 2 4096 512 (InitRAMFS.mk long_mem 0 mounted) with
  | Ok (rc, s') => (rc, bool_decide (dom (vnodes (InitRAMFS.env s')) = {[2]}))
  | Fail _ => (-1, false)
  end = (0, true).
Proof. vm_compute. reflexivity. Qed.
End InitRAMFSSpec.
