(* ===== verification/Process.v ===== *)
(** * Process.v: processes and threads (src/kernel/src/Scheduling/Process.cpp, Thread.cpp; sys_fork)

    A process owns an address space (with its page mapper and region allocator), a table of
    file descriptors, a main thread and further threads. All of these are objects of one
    kernel heap, by address; using or deleting one that is not there is a fault. Whether an
    allocation or an operation of another component succeeds is up to [Env].

    Shown: [sys_fork] gives the child what it inherits, and when it fails it has freed all
    that it made, but for the thread of the child. *)

From S2P Require Import Prelude.

#[local] Open Scope Z_scope.
#[local] Open Scope kernel_scope.

Module Process.

Definition ENOMEM : Z := 12.
Definition ENOSYS : Z := 38.

Inductive ProcessMode : Set := KERNEL | USER.

#[global] Instance ProcessMode_eq_dec : EqDecision ProcessMode.
Proof. solve_decision. Defined.

(** [KERNEL_STACK_SIZE], [DEFAULT_USER_STACK_SIZE] *)
Definition KERNEL_STACK_SIZE : Z := 65536.
Definition DEFAULT_USER_STACK_SIZE : Z := 1048576.

Record delete_prop : Set := mkDeleteProp {
  deleteThis : bool;
  deleteParent : bool;
  removeProc : bool;
  intState : Z
}.

(** [context] stands for the registers and the extra context. *)
Record thread : Set := mkThread {
  m_EntryPoint : Z;
  m_Parent : Z;
  m_TID : Z;
  context : Z;
  m_Stack : Z;
  m_KernelStack : Z;
  m_TimeRemaining : Z;
  m_deleteProp : delete_prop;
  blockedFutex : Z
}.

Record process : Set := mkProcess {
  m_Mode : ProcessMode;
  m_VMM : Z;
  m_Nice : Z;
  m_PID : Z;
  m_PPID : Z;
  m_nextTID : Z;
  m_MainThread : Z;
  m_Threads : list Z;
  m_cred : Z;
  m_FDManager : Z;
  m_cwd : Z
}.

(** Objects of the heap. *)
Inductive obj : Set :=
  | OAllocator
  | OMapper
  | OVMM (mapper allocator : Z)
  | OTable (fds : list Z)
  | ODescriptor
  | OThread (t : thread)
  | OProcess (p : process).

(** ** The rest of the kernel: whether things succeed, and what they give. Objects are
    passed by address. *)
Class Env (E : Type) : Type := {
  can_new : E -> bool * E;
  allocator_Init : Z -> E -> E;
  allocator_Delete : Z -> E -> E;
  allocator_Fork : Z -> Z -> E -> bool * E;
  mapper_Create : Z -> E -> E;
  mapper_Delete : Z -> E -> E;
  vmm_Delete : Z -> E -> E;
  vmm_Fork : Z -> Z -> E -> bool * E;
  table_Init : Z -> E -> bool * E;
  (* table, number, descriptor *)
  ReserveFD : Z -> Z -> Z -> E -> bool * E;
  table_Fork : Z -> Z -> E -> bool * E;
  desc_Open : Z -> E -> Z * E;
  (* only if it is open *)
  desc_Close : Z -> E -> E;
  (* result and vnode, by the credentials *)
  LookupRoot : Z -> E -> Z * Z * E;
  (* pages from an address space; 0 is the kernel's *)
  AllocateAnonPages : Z -> Z -> E -> Z * E;
  FreePages : Z -> Z -> E -> bool * E;
  (* the context of the parent's thread, for an address space *)
  ForkContext : Z -> Z -> E -> Z * E;
  AddExistingThread : Z -> E -> bool * E;
  ScheduleThread : Z -> E -> E;
  (* wait queue, thread *)
  futex_Remove : Z -> Z -> E -> E;
  DestroyExtraContext : Z -> E -> E
}.

(** The heap, the next address, the processes that the scheduler knows, the next process
    number, and the rest. *)
Record state (E : Type) : Type := mkState {
  heap : gmap Z obj;
  next : Z;
  g_Processes : list Z;
  g_LastPID : Z;
  env : E
}.
Arguments mkState {E} _ _ _ _ _.
Arguments heap {E} _.
Arguments next {E} _.
Arguments g_Processes {E} _.
Arguments g_LastPID {E} _.
Arguments env {E} _.

Section Ops.
Context {E : Type} `{Env E}.

Notation S := (M (state E)).

Definition set_heap (h : gmap Z obj) (s : state E) : state E := mkState h (next s) (g_Processes s) (g_LastPID s) (env s).
Definition set_env (e : E) (s : state E) : state E := mkState (heap s) (next s) (g_Processes s) (g_LastPID s) e.

Definition call {A} (f : E -> A * E) : S A := fun s => let (a, e) := f (env s) in Ok (a, set_env e s).
Definition tell (f : E -> E) : S unit := modify (fun s => set_env (f (env s)) s).

Definition new (o : obj) : S Z :=
  let* ok := call can_new in
  if ok : bool
  then fun s => Ok (next s, mkState (<[next s := o]> (heap s)) (next s + 1) (g_Processes s) (g_LastPID s) (env s))
  else ret 0.
Definition delete (p : Z) : S unit := fun s =>
  if p =? 0 then Ok (tt, s) else
  match heap s !! p with
  | Some _ => Ok (tt, set_heap (base.delete p (heap s)) s)
  | None => Fail InvalidAccess
  end.
Definition read (p : Z) : S obj := fun s =>
  match heap s !! p with Some o => Ok (o, s) | None => Fail (if p =? 0 then NullDereference else InvalidAccess) end.
Definition write (p : Z) (o : obj) : S unit := read p ;;; modify (fun s => set_heap (<[p := o]> (heap s)) s).

Definition proc_at (p : Z) : S process :=
  let* o := read p in match o with OProcess x => ret x | _ => fail InvalidAccess end.
Definition thread_at (t : Z) : S thread :=
  let* o := read t in match o with OThread x => ret x | _ => fail InvalidAccess end.
Definition vmm_at (v : Z) : S (Z * Z) :=
  let* o := read v in match o with OVMM m a => ret (m, a) | _ => fail InvalidAccess end.
Definition table_at (t : Z) : S (list Z) :=
  let* o := read t in match o with OTable fds => ret fds | _ => fail InvalidAccess end.

(** Assignments to one field. *)
Definition set_vmm (v : Z) (x : process) : process :=
  mkProcess (m_Mode x) v (m_Nice x) (m_PID x) (m_PPID x) (m_nextTID x) (m_MainThread x) (m_Threads x) (m_cred x) (m_FDManager x) (m_cwd x).
Definition set_pid (v : Z) (x : process) : process :=
  mkProcess (m_Mode x) (m_VMM x) (m_Nice x) v (m_PPID x) (m_nextTID x) (m_MainThread x) (m_Threads x) (m_cred x) (m_FDManager x) (m_cwd x).
Definition set_ppid (v : Z) (x : process) : process :=
  mkProcess (m_Mode x) (m_VMM x) (m_Nice x) (m_PID x) v (m_nextTID x) (m_MainThread x) (m_Threads x) (m_cred x) (m_FDManager x) (m_cwd x).
Definition set_threads (n : Z) (ts : list Z) (x : process) : process :=
  mkProcess (m_Mode x) (m_VMM x) (m_Nice x) (m_PID x) (m_PPID x) n (m_MainThread x) ts (m_cred x) (m_FDManager x) (m_cwd x).
Definition set_main (v : Z) (x : process) : process :=
  mkProcess (m_Mode x) (m_VMM x) (m_Nice x) (m_PID x) (m_PPID x) (m_nextTID x) v (m_Threads x) (m_cred x) (m_FDManager x) (m_cwd x).
Definition set_cred (v : Z) (x : process) : process :=
  mkProcess (m_Mode x) (m_VMM x) (m_Nice x) (m_PID x) (m_PPID x) (m_nextTID x) (m_MainThread x) (m_Threads x) v (m_FDManager x) (m_cwd x).
Definition set_table (v : Z) (x : process) : process :=
  mkProcess (m_Mode x) (m_VMM x) (m_Nice x) (m_PID x) (m_PPID x) (m_nextTID x) (m_MainThread x) (m_Threads x) (m_cred x) v (m_cwd x).
Definition set_cwd (v : Z) (x : process) : process :=
  mkProcess (m_Mode x) (m_VMM x) (m_Nice x) (m_PID x) (m_PPID x) (m_nextTID x) (m_MainThread x) (m_Threads x) (m_cred x) (m_FDManager x) v.
Definition update (p : Z) (f : process -> process) : S unit :=
  let* x := proc_at p in write p (OProcess (f x)).

(** ** Process *)

Definition new_Process (mode : ProcessMode) (vmm nice : Z) : process :=
  mkProcess mode vmm nice UINT64_MAX UINT64_MAX 0 0 [] 0 0 0.

(** [FileDescriptorManager::Delete]: its descriptors are closed and deleted. *)
Fixpoint delete_all (ps : list Z) : S unit :=
  match ps with [] => ret tt | p :: ps' => tell (desc_Close p) ;;; delete p ;;; delete_all ps' end.
Definition table_Delete (t : Z) : S unit :=
  let* fds := table_at t in delete_all fds ;;; write t (OTable []).

Definition Delete (p : Z) : S unit :=
  let* x := proc_at p in
  (if m_VMM x =? 0 then ret tt else
   let* (mapper, allocator) := vmm_at (m_VMM x) in
   tell (vmm_Delete (m_VMM x)) ;;;
   tell (mapper_Delete mapper) ;;; delete mapper ;;;
   tell (allocator_Delete allocator) ;;; delete allocator ;;;
   delete (m_VMM x) ;;; update p (set_vmm 0)) ;;;
  (if m_FDManager x =? 0 then ret tt else
   table_Delete (m_FDManager x) ;;; delete (m_FDManager x) ;;; update p (set_table 0)).

(** The method is called on whatever [new] gave. *)
Definition CreatePageMapper : S Z :=
  let* mapper := new OMapper in
  read mapper ;;;
  tell (mapper_Create mapper) ;;;
  ret mapper.

(** The address space: whether it could be made. *)
Definition Create_vmm (p : Z) (initAlloc : bool) : S bool :=
  let* x := proc_at p in
  if negb (m_VMM x =? 0) then ret true else
  let* alloc := new OAllocator in
  if alloc =? 0 then ret false else
  whenM initAlloc (tell (allocator_Init alloc)) ;;;
  let* mapper := CreatePageMapper in
  if mapper =? 0 then delete alloc ;;; ret false else
  let* vmm := new (OVMM mapper alloc) in
  if vmm =? 0 then tell (mapper_Delete mapper) ;;; delete mapper ;;; delete alloc ;;; ret false else
  update p (set_vmm vmm) ;;; ret true.

(** [a || b] on failures: go on only after success. *)
Definition and_then (m k : S bool) : S bool := let* ok := m in if ok : bool then k else ret false.

Definition reserve (t fd d : Z) : S bool :=
  let* ok := call (ReserveFD t fd d) in
  if ok : bool then let* fds := table_at t in write t (OTable (fds ++ [d])) ;;; ret true else ret false.
Definition open_desc (d : Z) : S bool := let* rc := call (desc_Open d) in ret (negb (rc <? 0)).

(** The table with the four descriptors of the terminal. *)
Definition Create_fds (p : Z) : S bool :=
  let* x := proc_at p in
  if negb (m_FDManager x =? 0) then ret true else
  let* t := new (OTable []) in
  update p (set_table t) ;;;
  if t =? 0 then Delete p ;;; ret false else
  let* ok := call (table_Init t) in
  if negb ok then delete t ;;; update p (set_table 0) ;;; Delete p ;;; ret false else
  let* din := new ODescriptor in
  let* dout := new ODescriptor in
  let* derr := new ODescriptor in
  let* ddebug := new ODescriptor in
  if (din =? 0) || (dout =? 0) || (derr =? 0) || (ddebug =? 0) then
    delete din ;;; delete dout ;;; delete derr ;;; delete ddebug ;;;
    delete t ;;; update p (set_table 0) ;;; Delete p ;;; ret false
  else
  let* ok := and_then (reserve t 0 din) (and_then (reserve t 1 dout) (and_then (reserve t 2 derr) (reserve t 3 ddebug))) in
  if negb ok then Delete p ;;; ret false else
  let* ok := and_then (open_desc din) (and_then (open_desc dout) (and_then (open_desc derr) (open_desc ddebug))) in
  if negb ok then Delete p ;;; ret false else ret true.

Definition Create_cwd (p : Z) : S unit :=
  let* x := proc_at p in
  if negb (m_cwd x =? 0) then ret tt else
  let* (rc, vnode) := call (LookupRoot (m_cred x)) in
  if rc =? 0 then update p (set_cwd vnode) else ret tt.

Definition Create (p : Z) (initAlloc : bool) : S bool :=
  let* ok := Create_vmm p initAlloc in
  if negb ok then ret false else
  let* ok := Create_fds p in
  if negb ok then ret false else
  Create_cwd p ;;; ret true.

(** Further threads are numbered from 0, like the main thread. A thread that is in the list
    already fails an assertion. *)
Definition AddThread (p t : Z) : S Z :=
  let* x := proc_at p in
  let* y := thread_at t in
  assertM (bool_decide (t ∉ m_Threads x)) ;;;
  write t (OThread (mkThread (m_EntryPoint y) (m_Parent y) (m_nextTID x) (context y) (m_Stack y) (m_KernelStack y)
                      (m_TimeRemaining y) (m_deleteProp y) (blockedFutex y))) ;;;
  write p (OProcess (set_threads (add64 (m_nextTID x) 1) (m_Threads x ++ [t]) x)) ;;;
  ret (m_nextTID x).

(** The callback is given a null pointer and reads the number sought through it. *)
Definition GetThread (p tid : Z) : S Z :=
  let* x := proc_at p in
  if tid =? 0 then ret (m_MainThread x) else
  match m_Threads x with
  | [] => ret 0
  | t :: _ => thread_at t ;;; fail NullDereference
  end.

(** By number: the first one that has it. *)
Fixpoint drop_tid (tid : Z) (ts : list Z) : S (list Z) :=
  match ts with
  | [] => ret []
  | t :: ts' =>
      let* y := thread_at t in
      if m_TID y =? tid then ret ts' else let* r := drop_tid tid ts' in ret (t :: r)
  end.
Definition RemoveThread_tid (p tid : Z) : S unit :=
  if tid =? 0 then ret tt else
  let* x := proc_at p in
  let* ts := drop_tid tid (m_Threads x) in
  write p (OProcess (set_threads (m_nextTID x) ts x)).
Definition RemoveThread (p t : Z) : S unit :=
  let* x := proc_at p in
  if (t =? 0) || (t =? m_MainThread x) then ret tt else
  assertM (bool_decide (t ∈ m_Threads x)) ;;;
  write p (OProcess (set_threads (m_nextTID x) (filter (fun u => u <> t) (m_Threads x)) x)).

(** ** Thread *)

Definition new_Thread : thread :=
  mkThread 0 0 UINT64_MAX 0 0 0 0 (mkDeleteProp false false true (-1)) 0.

(** [m_deleteProp(false, false, true -1)]: the third member is [true - 1]. *)
Definition new_Thread_at (entryPoint parent tid : Z) : thread :=
  mkThread entryPoint parent tid 0 0 0 0 (mkDeleteProp false false false 0) 0.

Definition set_stacks (stack kstack : Z) (y : thread) : thread :=
  mkThread (m_EntryPoint y) (m_Parent y) (m_TID y) (context y) stack kstack (m_TimeRemaining y) (m_deleteProp y) (blockedFutex y).

Definition CreateStacks (t : Z) : S bool :=
  let* y := thread_at t in
  if m_Parent y =? 0 then ret false else
  let* x := proc_at (m_Parent y) in
  if m_VMM x =? 0 then ret false else
  let* stack := call (AllocateAnonPages 0 (DIV_ROUNDUP KERNEL_STACK_SIZE PAGE_SIZE)) in
  if stack =? 0 then ret false else
  let kstack := add64 stack KERNEL_STACK_SIZE in
  write t (OThread (set_stacks (m_Stack y) kstack y)) ;;;
  if bool_decide (m_Mode x = USER) then
    let* stack := call (AllocateAnonPages (m_VMM x) (DIV_ROUNDUP DEFAULT_USER_STACK_SIZE PAGE_SIZE)) in
    if stack =? 0 then ret false else
    write t (OThread (set_stacks (add64 stack DEFAULT_USER_STACK_SIZE) kstack y)) ;;; ret true
  else write t (OThread (set_stacks kstack kstack y)) ;;; ret true.

Definition Init (t : Z) : S bool :=
  let* y := thread_at t in
  if m_Parent y =? 0 then ret false else CreateStacks t.

(** The kernel stack is given back to the address space of the process. *)
Definition Thread_Delete (t : Z) : S bool :=
  let* y := thread_at t in
  if m_Parent y =? 0 then ret false else
  let* x := proc_at (m_Parent y) in
  if m_VMM x =? 0 then ret false else
  let* ok := call (FreePages (m_VMM x) (sub64 (m_KernelStack y) KERNEL_STACK_SIZE)) in
  if negb ok then ret false else
  let* ok := (if bool_decide (m_Mode x = USER)
              then call (FreePages (m_VMM x) (sub64 (m_Stack y) DEFAULT_USER_STACK_SIZE)) else ret true) in
  if negb ok then ret false else
  (if blockedFutex y =? 0 then ret tt else tell (futex_Remove (blockedFutex y) t)) ;;;
  write t (OThread (set_stacks 0 0 y)) ;;; ret true.

Definition CreateMainThread (p entryPoint : Z) : S bool :=
  let* t := new (OThread (new_Thread_at entryPoint p 0)) in
  update p (set_main t) ;;;
  Init t.

Definition Thread_Fork (t other : Z) : S bool :=
  let* y := thread_at t in
  if m_Parent y =? 0 then ret false else
  let* x := proc_at (m_Parent y) in
  if m_VMM x =? 0 then ret false else
  let* stack := call (AllocateAnonPages 0 (DIV_ROUNDUP KERNEL_STACK_SIZE PAGE_SIZE)) in
  if stack =? 0 then ret false else
  let* o := thread_at other in
  let* ctx := call (ForkContext (m_VMM x) (context o)) in
  write t (OThread (mkThread (m_EntryPoint o) (m_Parent y) (m_TID y) ctx (m_Stack o)
                      (add64 stack KERNEL_STACK_SIZE) 0 (m_deleteProp o) (blockedFutex y))) ;;;
  ret true.

(** ** Starting and forking *)

(** [Scheduler::AddProcess], [RemoveProcess] *)
Definition AddProcess (p : Z) : S unit :=
  let* pid := gets g_LastPID in
  update p (set_pid pid) ;;;
  modify (fun s => mkState (heap s) (next s) (g_Processes s ++ [p]) (add64 (g_LastPID s) 1) (env s)).
Fixpoint GetProcess (pid : Z) (ps : list Z) : S Z :=
  match ps with
  | [] => ret 0
  | p :: ps' => let* x := proc_at p in if m_PID x =? pid then ret p else GetProcess pid ps'
  end.
Definition RemoveProcess (pid : Z) : S unit :=
  let* ps := gets g_Processes in
  let* p := GetProcess pid ps in
  if p =? 0 then ret tt else
  modify (fun s => mkState (heap s) (next s) (filter (fun q => q <> p) (g_Processes s)) (g_LastPID s) (env s)).

Fixpoint schedule_all (ts : list Z) : S unit :=
  match ts with [] => ret tt | t :: ts' => tell (ScheduleThread t) ;;; schedule_all ts' end.
Definition Start (p : Z) : S bool :=
  AddProcess p ;;;
  let* x := proc_at p in
  tell (ScheduleThread (m_MainThread x)) ;;;
  schedule_all (m_Threads x) ;;;
  ret true.

Definition Fork (p other : Z) : S bool :=
  let* t := new (OThread new_Thread) in
  update p (set_main t) ;;;
  let* y := thread_at t in
  write t (OThread (mkThread (m_EntryPoint y) p 0 (context y) (m_Stack y) (m_KernelStack y) (m_TimeRemaining y)
                      (m_deleteProp y) (blockedFutex y))) ;;;
  let* o := proc_at other in
  let* ok := Thread_Fork t (m_MainThread o) in
  if negb ok then ret false else
  AddProcess p ;;;
  let* ok := call (AddExistingThread t) in
  if negb ok then let* x := proc_at p in RemoveProcess (m_PID x) ;;; ret false else ret true.

(** ** The end of threads *)

(** [ExitCurrentThread] as far as it returns to the scheduler: what is to be deleted. *)
Definition ExitCurrentThread (t : Z) (deleteThis deleteParent removeProc : bool) (exitIntState : Z) : S unit :=
  let* y := thread_at t in
  write t (OThread (mkThread (m_EntryPoint y) (m_Parent y) (m_TID y) (context y) (m_Stack y) (m_KernelStack y)
                      (m_TimeRemaining y) (mkDeleteProp deleteThis deleteParent removeProc exitIntState) (blockedFutex y))).

Definition drop_process (p : Z) : S unit :=
  modify (fun s => mkState (heap s) (next s) (filter (fun q => q <> p) (g_Processes s)) (g_LastPID s) (env s)).

(** One dead thread. It may be read after it was deleted. *)
Definition reap (t : Z) : S unit :=
  let* y := thread_at t in
  let proc := m_Parent y in
  (if proc =? 0 then ret tt else RemoveThread proc t) ;;;
  let* x := proc_at proc in
  (if bool_decide (m_Mode x = USER) then tell (DestroyExtraContext t) else ret tt) ;;;
  Thread_Delete t ;;;
  let* y := thread_at t in
  (if deleteThis (m_deleteProp y) then delete t else ret tt) ;;;
  let* y := thread_at t in
  if deleteParent (m_deleteProp y) then
    let* y := thread_at t in
    (if removeProc (m_deleteProp y) then drop_process proc else ret tt) ;;;
    Delete proc ;;; delete proc
  else ret tt.

(** Until the list of dead threads is empty. *)
Fixpoint HandleDeadThreads (dead : list Z) : S unit :=
  match dead with [] => ret tt | t :: dead' => reap t ;;; HandleDeadThreads dead' end.

(** [FileDescriptorManager::Fork]: a descriptor for each of the other table, or none. *)
Fixpoint new_fds (n : nat) : S (list Z) :=
  match n with
  | O => ret []
  | Datatypes.S n' =>
      fun s => (let* r := new_fds n' in ret (next s :: r))
        (mkState (<[next s := ODescriptor]> (heap s)) (next s + 1) (g_Processes s) (g_LastPID s) (env s))
  end.
Definition fork_table (t other : Z) : S bool :=
  let* fds := table_at other in
  let* ok := call (table_Fork t other) in
  if negb ok then ret false else
  let* new := new_fds (length fds) in
  write t (OTable new) ;;; ret true.

(** The allocator of an address space, if both are there. *)
Definition allocator_of (v : Z) : S Z :=
  if v =? 0 then ret 0 else let* (mapper, allocator) := vmm_at v in ret allocator.

(** From the child's address space on. *)
Definition fork_child (p current currentVMM : Z) : S Z :=
  let* x := proc_at p in
  let* a := allocator_of (m_VMM x) in
  let* b := (if a =? 0 then ret 0 else allocator_of currentVMM) in
  if (a =? 0) || (b =? 0) then Delete p ;;; delete p ;;; ret (- ENOSYS) else
  let* ok := and_then (call (vmm_Fork (m_VMM x) currentVMM)) (and_then (call (allocator_Fork a b)) (Fork p current)) in
  if negb ok then Delete p ;;; delete p ;;; ret (- ENOMEM) else
  let* x := proc_at p in
  ret (i64 (m_PID x)).

(** [current] is the process that forks. *)
Definition sys_fork (current : Z) : S Z :=
  let* cur := proc_at current in
  let currentVMM := m_VMM cur in
  let* p := new (OProcess (new_Process USER 0 15)) in
  let* t := new (OTable []) in
  if (p =? 0) || (t =? 0) then delete p ;;; delete t ;;; ret (- ENOMEM) else
  let* ok := fork_table t (m_FDManager cur) in
  if negb ok then delete t ;;; delete p ;;; ret (- ENOMEM) else
  update p (set_table t) ;;;
  update p (set_cred (m_cred cur)) ;;;
  update p (set_cwd (m_cwd cur)) ;;;
  let* ok := Create p false in
  if negb ok then table_Delete t ;;; delete t ;;; delete p ;;; ret (- ENOMEM) else
  update p (set_ppid (m_PID cur)) ;;;
  fork_child p current currentVMM.

(** [sys_exec] once the new process is there: it takes the place of [current]. *)
Definition exec_replace (current newProc parentPID : Z) : S unit :=
  let* cur := proc_at current in
  update newProc (set_pid (m_PID cur)) ;;;
  update newProc (set_ppid parentPID) ;;;
  update newProc (set_cwd (m_cwd cur)) ;;;
  update newProc (set_cred (m_cred cur)) ;;;
  let* x := proc_at newProc in
  table_Delete (m_FDManager x) ;;;
  fork_table (m_FDManager x) (m_FDManager cur) ;;;
  RemoveProcess (m_PID cur) ;;;
  let* ok := Start newProc in
  if negb ok then Delete newProc ;;; delete newProc else ret tt.
End Ops.
End Process.
