(* ===== verification/ProcessSpec.v ===== *)
(** * ProcessSpec.v: what [sys_fork] leaves in the kernel heap

    The state that is reached from [s0] is described by the objects that were made since:
    [made s0 H ps n s] says that the heap of [s] is that of [s0] with the objects of [H] added,
    at new addresses. Every operation of Process.v then changes [H] alone. *)

From S2P Require Import Prelude Process.

#[local] Open Scope Z_scope.
#[local] Open Scope kernel_scope.

Module ProcessSpec.
Import Process.

(** [H] without the addresses of [L]. *)
Definition gone (L : list Z) (H : gmap Z obj) : gmap Z obj := filter (fun kv => kv.1 ∉ L) H.

Lemma lookup_gone L H a : gone L H !! a = if decide (a ∈ L) then None else H !! a.
Proof.
  unfold gone. case_decide as Ha.
  - apply map_lookup_filter_None. right. intros o _. cbn. tauto.
  - destruct (H !! a) as [o|] eqn:Ho; [by apply map_lookup_filter_Some|by apply map_lookup_filter_None; left].
Qed.

Lemma lookup_gone_in L H a : a ∈ L -> gone L H !! a = None.
Proof. intros Ha. rewrite lookup_gone. by rewrite decide_True. Qed.

Lemma lookup_gone_out L H a : a ∉ L -> gone L H !! a = H !! a.
Proof. intros Ha. rewrite lookup_gone. by rewrite decide_False. Qed.

Lemma gone_nil H : gone [] H = H.
Proof. apply map_eq. intros a. apply lookup_gone_out. set_solver. Qed.

Lemma delete_gone L H a : base.delete a (gone L H) = gone (a :: L) H.
Proof.
  apply map_eq. intros b. rewrite lookup_gone. destruct (decide (a = b)) as [->|Hab].
  - rewrite lookup_delete_eq, decide_True by set_solver. done.
  - rewrite lookup_delete_ne by done. rewrite lookup_gone.
    repeat case_decide; set_solver.
Qed.

Lemma delete_is_gone H a : base.delete a H = gone [a] H.
Proof. by rewrite <- (gone_nil H) at 1; rewrite delete_gone. Qed.

Lemma insert_gone L H a o : a ∉ L -> <[a := o]> (gone L H) = gone L (<[a := o]> H).
Proof.
  intros Ha. apply map_eq. intros b. rewrite lookup_gone. destruct (decide (a = b)) as [->|Hab].
  - by rewrite lookup_insert_eq, decide_False, lookup_insert_eq.
  - by rewrite !lookup_insert_ne, lookup_gone.
Qed.

Lemma gone_insert L H a o : a ∈ L -> gone L (<[a := o]> H) = gone L H.
Proof.
  intros Ha. apply map_eq. intros b. rewrite !lookup_gone. case_decide; [done|].
  apply lookup_insert_ne. congruence.
Qed.

Lemma gone_all L H : (forall a o, H !! a = Some o -> a ∈ L) -> gone L H = ∅.
Proof.
  intros HL. apply map_empty. intros a. rewrite lookup_gone. case_decide as Ha; [done|].
  destruct (H !! a) as [o|] eqn:Ho; [|done]. by apply HL in Ho.
Qed.

Section Spec.
Context {E : Type} `{Env E}.

Notation S := (M (state E)).

(** Runs to [Q], or dereferences the null pointer of an allocation that failed. *)
Definition safe {A} (m : S A) (s : state E) (Q : A -> state E -> Prop) : Prop :=
  match m s with
  | Ok (a, s') => Q a s'
  | Fail f => f = NullDereference /\ exists e : E, fst (can_new e) = false
  end.

Lemma safe_ret {A} (a : A) s (Q : A -> state E -> Prop) : Q a s -> safe (ret a) s Q.
Proof. done. Qed.

Lemma safe_bind {A B} (m : S A) (k : A -> S B) s Q :
  safe m s (fun a s' => safe (k a) s' Q) -> safe (bind m k) s Q.
Proof. unfold safe, bind. by destruct (m s) as [[a s']|f]. Qed.

Lemma safe_gets {A} (f : state E -> A) s (Q : A -> state E -> Prop) : Q (f s) s -> safe (gets f) s Q.
Proof. done. Qed.

Lemma safe_assert b s (Q : unit -> state E -> Prop) : b = true -> Q tt s -> safe (assertM b) s Q.
Proof. by intros -> HQ. Qed.

(** ** What was made since [s0] *)

Record made (s0 : state E) (H : gmap Z obj) (ps : list Z) (n : Z) (s : state E) : Prop := {
  made_heap : heap s = H ∪ heap s0;
  made_range : forall a o, H !! a = Some o -> next s0 <= a < next s;
  made_next : next s0 <= next s;
  made_procs : g_Processes s = ps;
  made_pid : g_LastPID s = n
}.

(** Addresses in use are not null and have been given out. *)
Definition wf_heap (s : state E) : Prop :=
  0 < next s /\ forall a o, heap s !! a = Some o -> 0 < a < next s.

(** Apply a rule at the description of the current state. *)
Tactic Notation "at_made" uconstr(rule) :=
  eapply rule; lazymatch goal with |- wf_heap _ => eassumption | |- made _ _ _ _ _ => eassumption | |- _ => idtac end.

Section Made.
Variable s0 : state E.
Hypothesis Hwf : wf_heap s0.
Variables (ps : list Z) (n : Z).

Lemma made_start : made s0 ∅ (g_Processes s0) (g_LastPID s0) s0.
Proof. split; [by rewrite (left_id_L ∅ (∪))|intros a o Ha; by rewrite lookup_empty in Ha|lia|done|done]. Qed.

Lemma made_new_at H' s a o : made s0 H' ps n s -> H' !! a = Some o -> heap s !! a = Some o.
Proof. intros [-> _ _ _ _] Ha. by apply lookup_union_Some_l. Qed.

Lemma made_old_at H' s a o : made s0 H' ps n s -> heap s0 !! a = Some o -> heap s !! a = Some o.
Proof.
  intros [-> Hr _ _ _] Ha. rewrite lookup_union_r; [done|]. destruct (H' !! a) as [o'|] eqn:Ho; [|done].
  specialize (Hr _ _ Ho). destruct Hwf as [_ Hw]. specialize (Hw _ _ Ha). lia.
Qed.

Lemma made_pos H' s a o : made s0 H' ps n s -> H' !! a = Some o -> a <> 0.
Proof. intros Hm Ha. pose proof (made_range _ _ _ _ _ Hm _ _ Ha). destruct Hwf. lia. Qed.

Lemma made_env H' s e : made s0 H' ps n s -> made s0 H' ps n (set_env e s).
Proof. intros []. by split. Qed.

Lemma safe_call {A} (f : E -> A * E) H' s Q :
  made s0 H' ps n s -> (forall a s', made s0 H' ps n s' -> Q a s') -> safe (call f) s Q.
Proof. intros Hm HQ. unfold safe, call. destruct (f (env s)) as [a e]. by apply HQ, made_env. Qed.

Lemma safe_tell f H' s Q :
  made s0 H' ps n s -> (forall s', made s0 H' ps n s' -> Q tt s') -> safe (tell f) s Q.
Proof. intros Hm HQ. by apply HQ, made_env. Qed.

Lemma safe_new o H' s (Q : Z -> state E -> Prop) :
  made s0 H' ps n s ->
  ((exists e : E, fst (can_new e) = false) -> forall s', made s0 H' ps n s' -> Q 0 s') ->
  (forall a s', a <> 0 -> H' !! a = None -> next s0 <= a -> made s0 (<[a := o]> H') ps n s' -> Q a s') ->
  safe (new o) s Q.
Proof.
  intros Hm H0 HQ. unfold new. apply safe_bind. unfold safe, call.
  destruct (can_new (env s)) as [[] e] eqn:Hc.
  - destruct Hm as [Hh Hr Hn Hp Hl], Hwf as [Hpos _].
    assert (H' !! next s = None) as Hnone.
    { destruct (H' !! next s) eqn:Ho; [|done]. specialize (Hr _ _ Ho). lia. }
    apply HQ; [cbn; lia|done|cbn; lia|]. split; cbn; [by rewrite Hh, insert_union_l| |lia|done|done].
    intros a o' [[<- _]|[_ Ha]]%lookup_insert_Some; [lia|]. specialize (Hr _ _ Ha). lia.
  - apply H0; [exists (env s); by rewrite Hc|by apply made_env].
Qed.

Lemma made_delete H' s p :
  made s0 H' ps n s -> is_Some (H' !! p) -> made s0 (base.delete p H') ps n (set_heap (base.delete p (heap s)) s).
Proof.
  intros [Hh Hr Hn Hp Hl] [o Ho]. split; cbn; try done.
  - assert (heap s0 !! p = None) as Hnone.
    { destruct (heap s0 !! p) eqn:Hc; [|done]. specialize (Hr _ _ Ho). destruct Hwf as [_ Hw]. specialize (Hw _ _ Hc). lia. }
    by rewrite Hh, delete_union, (delete_id (heap s0)).
  - intros a o' [_ Ha]%lookup_delete_Some. eauto.
Qed.

Lemma safe_delete p H' s Q :
  made s0 H' ps n s -> is_Some (H' !! p) ->
  (forall s', made s0 (base.delete p H') ps n s' -> Q tt s') -> safe (delete p) s Q.
Proof.
  intros Hm [o Ho] HQ. unfold safe, delete. pose proof (made_pos _ _ _ _ Hm Ho).
  destruct (Z.eqb_spec p 0); [done|]. rewrite (made_new_at _ _ _ _ Hm Ho). apply HQ. by apply made_delete.
Qed.

Lemma safe_delete_null s (Q : unit -> state E -> Prop) : Q tt s -> safe (delete 0) s Q.
Proof. done. Qed.

Lemma safe_read p o s (Q : obj -> state E -> Prop) : heap s !! p = Some o -> Q o s -> safe (read p) s Q.
Proof. intros Hp HQ. unfold safe, read. by rewrite Hp. Qed.

Lemma safe_proc p x s (Q : process -> state E -> Prop) :
  heap s !! p = Some (OProcess x) -> Q x s -> safe (proc_at p) s Q.
Proof. intros Hp HQ. apply safe_bind. by apply (safe_read _ _ _ _ Hp). Qed.

Lemma safe_thread p x s (Q : thread -> state E -> Prop) :
  heap s !! p = Some (OThread x) -> Q x s -> safe (thread_at p) s Q.
Proof. intros Hp HQ. apply safe_bind. by apply (safe_read _ _ _ _ Hp). Qed.

Lemma safe_table p x s (Q : list Z -> state E -> Prop) :
  heap s !! p = Some (OTable x) -> Q x s -> safe (table_at p) s Q.
Proof. intros Hp HQ. apply safe_bind. by apply (safe_read _ _ _ _ Hp). Qed.

Lemma safe_vmm p m a s (Q : Z * Z -> state E -> Prop) :
  heap s !! p = Some (OVMM m a) -> Q (m, a) s -> safe (vmm_at p) s Q.
Proof. intros Hp HQ. apply safe_bind. by apply (safe_read _ _ _ _ Hp). Qed.

Lemma safe_write p o H' s Q :
  made s0 H' ps n s -> is_Some (H' !! p) ->
  (forall s', made s0 (<[p := o]> H') ps n s' -> Q tt s') -> safe (write p o) s Q.
Proof.
  intros Hm [o' Ho] HQ. apply safe_bind, (safe_read _ o'); [by apply (made_new_at _ _ _ _ Hm)|].
  apply HQ. destruct Hm as [Hh Hr Hn Hp Hl]. split; cbn; try done.
  - by rewrite Hh, insert_union_l.
  - intros a o1 [[<- _]|[_ Ha]]%lookup_insert_Some; eauto.
Qed.

Lemma safe_update p f x H' s Q :
  made s0 H' ps n s -> H' !! p = Some (OProcess x) ->
  (forall s', made s0 (<[p := OProcess (f x)]> H') ps n s' -> Q tt s') -> safe (update p f) s Q.
Proof.
  intros Hm Hp HQ. apply safe_bind, (safe_proc _ x); [by apply (made_new_at _ _ _ _ Hm)|].
  by apply (safe_write _ _ _ _ _ Hm).
Qed.

(** ** The operations *)

Lemma delete_all_safe l L H' s Q :
  made s0 (gone L H') ps n s -> NoDup l -> (forall d, d ∈ l -> d ∉ L /\ is_Some (H' !! d)) ->
  (forall s', made s0 (gone (l ++ L) H') ps n s' -> Q tt s') -> safe (delete_all l) s Q.
Proof.
  revert L s. induction l as [|d l IH]; intros L s Hm Hl Hd HQ; cbn [delete_all].
  - by apply safe_ret, HQ.
  - apply NoDup_cons in Hl as [Hdl Hl]. destruct (Hd d) as [HdL [o Ho]]; [set_solver|].
    apply safe_bind. at_made safe_tell. intros s1 Hm1.
    apply safe_bind. at_made safe_delete; [by rewrite lookup_gone_out by done|]. intros s2 Hm2.
    rewrite delete_gone in Hm2. apply (IH _ _ Hm2 Hl).
    + intros d' Hd'. destruct (Hd d'); [set_solver|]. split; [set_solver|done].
    + intros s' Hm'. apply HQ. by replace (gone ((d :: l) ++ L) H') with (gone (l ++ d :: L) H')
        by (apply map_eq; intros b; rewrite !lookup_gone; repeat case_decide; set_solver).
Qed.

Lemma table_Delete_safe t l L H' s Q :
  made s0 (gone L H') ps n s -> H' !! t = Some (OTable l) -> t ∉ L -> t ∉ l -> NoDup l ->
  (forall d, d ∈ l -> d ∉ L /\ is_Some (H' !! d)) ->
  (forall s', made s0 (gone (l ++ L) (<[t := OTable []]> H')) ps n s' -> Q tt s') -> safe (table_Delete t) s Q.
Proof.
  intros Hm Ht HtL Htl Hl Hd HQ. apply safe_bind, (safe_table _ l).
  { apply (made_new_at _ _ _ _ Hm). by rewrite lookup_gone_out. }
  apply safe_bind. at_made delete_all_safe; [done|done|]. intros s1 Hm1.
  at_made safe_write; [by rewrite lookup_gone_out by set_solver|]. intros s2 Hm2. apply HQ.
  by rewrite insert_gone in Hm2 by set_solver.
Qed.

Lemma CreatePageMapper_safe H' s (Q : Z -> state E -> Prop) :
  made s0 H' ps n s ->
  (forall a s', a <> 0 -> H' !! a = None -> next s0 <= a -> made s0 (<[a := OMapper]> H') ps n s' -> Q a s') ->
  safe CreatePageMapper s Q.
Proof.
  intros Hm HQ. apply safe_bind. at_made safe_new.
  - intros He s1 [Hh Hr Hn _ _]. unfold bind, safe, read. rewrite Hh, lookup_union_None_2; [done| |].
    + destruct (H' !! 0) eqn:Ho; [|done]. destruct Hwf. specialize (Hr _ _ Ho). lia.
    + destruct (heap s0 !! 0) eqn:Ho; [|done]. destruct Hwf as [_ Hw]. specialize (Hw _ _ Ho). lia.
  - intros a s1 Ha HN Hle Hm1. apply safe_bind, (safe_read _ OMapper).
    { apply (made_new_at _ _ _ _ Hm1), lookup_insert_eq. }
    apply safe_bind. at_made safe_tell. intros s2 Hm2. apply safe_ret. by apply HQ.
Qed.

(** The objects of an address space [v] with its page mapper and allocator. *)
Definition space (v m a : Z) (H' : gmap Z obj) : gmap Z obj :=
  <[v := OVMM m a]> (<[m := OMapper]> (<[a := OAllocator]> H')).

Lemma Create_vmm_safe p x H' s Q :
  made s0 H' ps n s -> H' !! p = Some (OProcess x) -> m_VMM x = 0 ->
  (forall s', made s0 H' ps n s' -> Q false s') ->
  (forall v m a s', v <> 0 -> a <> 0 -> H' !! a = None -> (<[a := OAllocator]> H') !! m = None ->
     (<[m := OMapper]> (<[a := OAllocator]> H')) !! v = None ->
     made s0 (<[p := OProcess (set_vmm v x)]> (space v m a H')) ps n s' -> Q true s') ->
  safe (Create_vmm p false) s Q.
Proof.
  intros Hm Hp Hx H0 HQ. apply safe_bind, (safe_proc _ x); [by apply (made_new_at _ _ _ _ Hm)|].
  rewrite Hx. cbn [negb Z.eqb]. apply safe_bind. at_made safe_new.
  { intros _ s1 Hm1. by apply safe_ret, H0. }
  intros a s1 Ha HaN _ Hm1. destruct (Z.eqb_spec a 0); [done|]. apply safe_bind, safe_ret, safe_bind.
  at_made CreatePageMapper_safe. intros m s2 Hmp HmN _ Hm2. destruct (Z.eqb_spec m 0); [done|].
  apply safe_bind. at_made safe_new.
  - intros _ s3 Hm3. cbn [Z.eqb]. apply safe_bind. at_made safe_tell. intros s4 Hm4.
    apply safe_bind. at_made safe_delete; [by rewrite lookup_insert_eq|]. rewrite delete_insert_id by done. intros s5 Hm5.
    apply safe_bind. at_made safe_delete; [by rewrite lookup_insert_eq|]. rewrite delete_insert_id by done. intros s6 Hm6.
    by apply safe_ret, H0.
  - intros v s3 Hv HvN _ Hm3. destruct (Z.eqb_spec v 0); [done|].
    assert (p <> a /\ p <> m /\ p <> v) as (Hpa & Hpm & Hpv).
    { pose proof HmN as [Hm0 _]%lookup_insert_None. pose proof HvN as [[Hv0 _]%lookup_insert_None _]%lookup_insert_None. split_and!; congruence. }
    apply safe_bind. at_made (safe_update _ _ x); [by rewrite !lookup_insert_ne by done|].
    intros s4 Hm4. apply safe_ret. by apply (HQ v m a).
Qed.

Lemma new_fds_safe k H' s (Q : list Z -> state E -> Prop) :
  made s0 H' ps n s ->
  (forall l H1 s', length l = k -> NoDup l -> (forall d, d ∈ l -> H' !! d = None /\ H1 !! d = Some ODescriptor) ->
     (forall b, b ∉ l -> H1 !! b = H' !! b) -> made s0 H1 ps n s' -> Q l s') ->
  safe (new_fds k) s Q.
Proof.
  revert H' s Q. induction k as [|k IH]; intros H' s Q Hm HQ; cbn [new_fds].
  - apply safe_ret, (HQ [] H'); [done|constructor|set_solver|done|done].
  - assert (H' !! next s = None) as HN.
    { destruct (H' !! next s) eqn:Ho; [|done]. pose proof (made_range _ _ _ _ _ Hm _ _ Ho). lia. }
    apply (safe_bind (new_fds k)), (IH (<[next s := ODescriptor]> H')).
    { destruct Hm as [Hh Hr Hn Hp Hl]. split; cbn; [by rewrite Hh, insert_union_l| |lia|done|done].
      intros a o [[<- _]|[_ Ha]]%lookup_insert_Some; [lia|]. specialize (Hr _ _ Ha). lia. }
    intros l H1 s' Hk Hl Hd Hb Hm'. apply safe_ret.
    assert (next s ∉ l) as Hns. { intros [Hc _]%Hd. by rewrite lookup_insert_eq in Hc. }
    apply (HQ (next s :: l) H1); [by cbn; f_equal|by constructor| | |done].
    + intros d [->|Hd']%elem_of_cons; [split; [done|]|].
      * rewrite Hb by done. apply lookup_insert_eq.
      * destruct (Hd _ Hd') as [Hd1 ?]. split; [|done]. by rewrite lookup_insert_ne in Hd1 by congruence.
    + intros b Hbl. rewrite Hb by set_solver. apply lookup_insert_ne. set_solver.
Qed.

(** The table of process [x] and its descriptors. *)
Record holds (H' : gmap Z obj) (p : Z) (x : process) (l : list Z) : Prop := {
  holds_proc : H' !! p = Some (OProcess x);
  holds_table : H' !! m_FDManager x = Some (OTable l);
  holds_nodup : NoDup l;
  holds_descs : forall d, d ∈ l -> H' !! d = Some ODescriptor
}.

(** The address space of process [x]. *)
Record has_space (H' : gmap Z obj) (x : process) (m a : Z) : Prop := {
  space_vmm : H' !! m_VMM x = Some (OVMM m a);
  space_mapper : H' !! m = Some OMapper;
  space_allocator : H' !! a = Some OAllocator
}.

Lemma fork_table_safe t other fds H' s Q :
  made s0 H' ps n s -> H' !! t = Some (OTable []) -> heap s0 !! other = Some (OTable fds) ->
  (forall s', made s0 H' ps n s' -> Q false s') ->
  (forall l H1 s', length l = length fds -> NoDup l -> H1 !! t = Some (OTable l) ->
     (forall d, d ∈ l -> H' !! d = None /\ H1 !! d = Some ODescriptor) ->
     (forall b, b ∉ l -> b <> t -> H1 !! b = H' !! b) -> made s0 H1 ps n s' -> Q true s') ->
  safe (fork_table t other) s Q.
Proof.
  intros Hm Ht Ho H0 HQ. apply safe_bind, (safe_table _ fds); [by apply (made_old_at _ _ _ _ Hm)|].
  apply safe_bind. at_made safe_call. intros [|] s1 Hm1; cbn [negb]; [|by apply safe_ret, H0].
  apply safe_bind. at_made new_fds_safe. intros l H1 s2 Hk Hl Hd Hb Hm2.
  assert (t ∉ l) as Htl. { intros [Hc _]%Hd. congruence. }
  apply safe_bind. at_made safe_write; [by rewrite Hb|]. intros s3 Hm3. apply safe_ret.
  apply (HQ l (<[t := OTable l]> H1)); [done|done|apply lookup_insert_eq| | |done].
  - intros d Hd'. destruct (Hd _ Hd'). split; [done|]. rewrite lookup_insert_ne; [done|]. congruence.
  - intros b Hb' Hbt. rewrite lookup_insert_ne by done. by apply Hb.
Qed.

Lemma discard_safe p x l m a rc H' s (Q : Z -> state E -> Prop) :
  made s0 H' ps n s -> holds H' p x l -> has_space H' x m a ->
  (forall s', made s0 (gone (p :: m_FDManager x :: l ++ [m_VMM x; a; m]) H') ps n s' -> Q rc s') ->
  safe (Delete p ;;; delete p ;;; ret rc) s Q.
Proof.
  intros Hm [Hp Ht Hl Hd] [Hv Hmp Ha] HQ.
  assert (p ∉ [m_VMM x; a; m]) as Hp1. { rewrite !elem_of_cons, elem_of_nil. intros Hc. destruct_or! Hc; congruence. }
  assert (m_FDManager x ∉ [m_VMM x; a; m]) as Ht1. { rewrite !elem_of_cons, elem_of_nil. intros Hc. destruct_or! Hc; congruence. }
  assert (m_FDManager x ∉ l) as Ht2. { intros Hc%Hd. congruence. }
  assert (p ∉ l) as Hp2. { intros Hc%Hd. congruence. }
  assert (p <> m_FDManager x) as Hpt by congruence.
  assert (forall d, d ∈ l -> d ∉ [m_VMM x; a; m]) as Hdv.
  { intros d Hd'%Hd. rewrite !elem_of_cons, elem_of_nil. intros Hc. destruct_or! Hc; congruence. }
  pose proof (made_pos _ _ _ _ Hm Hv). pose proof (made_pos _ _ _ _ Hm Ht).
  apply safe_bind, safe_bind, (safe_proc _ x); [by apply (made_new_at _ _ _ _ Hm)|].
  destruct (Z.eqb_spec (m_VMM x) 0); [done|]. destruct (Z.eqb_spec (m_FDManager x) 0); [done|].
  apply safe_bind, safe_bind, (safe_vmm _ m a); [by apply (made_new_at _ _ _ _ Hm)|].
  apply safe_bind. at_made safe_tell. intros s1 Hm1.
  apply safe_bind. at_made safe_tell. intros s2 Hm2.
  apply safe_bind. at_made safe_delete; [done|]. rewrite delete_is_gone. intros s3 Hm3.
  apply safe_bind. at_made safe_tell. intros s4 Hm4.
  apply safe_bind. at_made safe_delete. { rewrite lookup_gone_out; [done|]. set_unfold. intros [|]; congruence. }
  rewrite delete_gone. intros s5 Hm5.
  apply safe_bind. at_made safe_delete. { rewrite lookup_gone_out; [done|]. set_unfold. intros Hc. destruct_or! Hc; congruence. }
  rewrite delete_gone. intros s6 Hm6.
  at_made (safe_update _ _ x); [by rewrite lookup_gone_out|]. rewrite insert_gone by done. intros s7 Hm7.
  apply safe_bind. at_made table_Delete_safe; [by rewrite lookup_insert_ne|done|done|done| |].
  { intros d Hd'. split; [by apply Hdv|]. rewrite lookup_insert_ne by congruence. by rewrite Hd. }
  intros s8 Hm8. apply safe_bind. at_made safe_delete; [rewrite lookup_gone_out by set_solver; by rewrite lookup_insert_eq|].
  rewrite delete_gone. intros s9 Hm9.
  at_made (safe_update _ _ (set_vmm 0 x)).
  { rewrite lookup_gone_out by set_solver. rewrite lookup_insert_ne by done. apply lookup_insert_eq. }
  rewrite insert_gone by set_solver. intros s10 Hm10.
  apply safe_bind. at_made safe_delete; [rewrite lookup_gone_out by set_solver; by rewrite lookup_insert_eq|].
  rewrite delete_gone. rewrite !gone_insert by set_solver. intros s11 Hm11. by apply safe_ret, HQ.
Qed.
End Made.

(** ** The process list *)

Lemma AddProcess_safe s0 ps n p x H' s Q :
  made s0 H' ps n s -> H' !! p = Some (OProcess x) ->
  (forall s', made s0 (<[p := OProcess (set_pid n x)]> H') (ps ++ [p]) (add64 n 1) s' -> Q tt s') ->
  safe (AddProcess p) s Q.
Proof.
  intros Hm Hp HQ. apply safe_bind, safe_gets. rewrite (made_pid _ _ _ _ _ Hm).
  apply safe_bind. at_made (safe_update s0 ps n p (set_pid n) x); [done|]. intros s1 [Hh Hr Hn Hps Hl].
  apply HQ. split; cbn; [done|done|done|by rewrite Hps|by rewrite Hl].
Qed.

Lemma GetProcess_last ps p x s (Q : Z -> state E -> Prop) :
  (forall q, q ∈ ps -> exists y, heap s !! q = Some (OProcess y) /\ m_PID y <> m_PID x) ->
  heap s !! p = Some (OProcess x) -> Q p s -> safe (GetProcess (m_PID x) (ps ++ [p])) s Q.
Proof.
  induction ps as [|q ps IH]; intros Hps Hp HQ; cbn [app GetProcess].
  - apply safe_bind, (safe_proc _ x); [done|]. rewrite Z.eqb_refl. by apply safe_ret.
  - destruct (Hps q) as (y & Hq & Hne); [set_solver|].
    apply safe_bind, (safe_proc _ y); [done|]. destruct (Z.eqb_spec (m_PID y) (m_PID x)); [done|].
    apply IH; [|done|done]. intros q' Hq'. apply Hps. set_solver.
Qed.

Lemma RemoveProcess_safe s0 ps n p x H' s Q :
  wf_heap s0 -> made s0 H' (ps ++ [p]) n s -> H' !! p = Some (OProcess x) ->
  (forall q, q ∈ ps -> exists y, heap s0 !! q = Some (OProcess y) /\ m_PID y <> m_PID x) ->
  (forall s', made s0 H' ps n s' -> Q tt s') -> safe (RemoveProcess (m_PID x)) s Q.
Proof.
  intros Hwf Hm Hp Hps HQ. pose proof (made_range _ _ _ _ _ Hm _ _ Hp) as Hr.
  apply safe_bind, safe_gets. rewrite (made_procs _ _ _ _ _ Hm).
  apply safe_bind, (GetProcess_last _ _ x).
  { intros q (y & Hq & Hne)%Hps. exists y. split; [|done]. at_made made_old_at. done. }
  { at_made made_new_at. done. }
  destruct (Z.eqb_spec p 0); [destruct Hwf; lia|]. apply HQ. destruct Hm as [Hh Hr' Hn' Hl Hpid].
  split; cbn; [done|done|done| |done]. rewrite Hl, filter_app, filter_cons_False by (cbn; tauto).
  rewrite filter_nil, app_nil_r. apply filter_all. intros q (y & Hq & _)%Hps ->.
  destruct Hwf as [_ Hw]. specialize (Hw _ _ Hq). lia.
Qed.

(** ** Forking *)

(** What a fork needs of the state: the process that forks has its objects, and the process
    numbers in use are below the next one. *)
Record can_fork (s0 : state E) (current : Z) (cur : process) (fds : list Z) (mt : thread) : Prop := {
  fork_wf : wf_heap s0;
  fork_current : heap s0 !! current = Some (OProcess cur);
  fork_fds : heap s0 !! m_FDManager cur = Some (OTable fds);
  fork_space : m_VMM cur = 0 \/ exists m a, heap s0 !! m_VMM cur = Some (OVMM m a);
  fork_main : heap s0 !! m_MainThread cur = Some (OThread mt);
  fork_pids : forall q, q ∈ g_Processes s0 -> exists y, heap s0 !! q = Some (OProcess y) /\ m_PID y < g_LastPID s0;
  fork_pid : 0 <= g_LastPID s0 < 2 ^ 63
}.

(** The main thread of the child [p], made from [mt]. *)
Definition forked_thread (p : Z) (mt : thread) (ctx kstack : Z) : thread :=
  mkThread (m_EntryPoint mt) p 0 ctx (m_Stack mt) kstack 0 (m_deleteProp mt) 0.

Lemma Thread_Fork_safe s0 ps n t y p x other mt H' s Q :
  wf_heap s0 -> made s0 H' ps n s -> H' !! t = Some (OThread y) -> m_Parent y = p -> m_TID y = 0 -> blockedFutex y = 0 ->
  H' !! p = Some (OProcess x) -> m_VMM x <> 0 -> heap s0 !! other = Some (OThread mt) ->
  (forall s', made s0 H' ps n s' -> Q false s') ->
  (forall ctx kstack s', made s0 (<[t := OThread (forked_thread p mt ctx kstack)]> H') ps n s' -> Q true s') ->
  safe (Thread_Fork t other) s Q.
Proof.
  intros Hwf Hm Ht Hpar Htid Hfx Hp Hv Ho H0 HQ.
  apply safe_bind, (safe_thread _ y); [at_made made_new_at; done|]. rewrite Hpar.
  destruct (Z.eqb_spec p 0) as [Hz|_]; [by apply (made_pos _ Hwf _ _ _ _ _ _ Hm) in Hp|].
  apply safe_bind, (safe_proc _ x); [at_made made_new_at; done|]. destruct (Z.eqb_spec (m_VMM x) 0); [done|].
  apply safe_bind. at_made safe_call. intros stack s1 Hm1.
  destruct (Z.eqb_spec stack 0); [by apply safe_ret, H0|].
  apply safe_bind, (safe_thread _ mt); [at_made made_old_at; done|].
  apply safe_bind. at_made safe_call. intros ctx s2 Hm2. rewrite Htid, Hfx.
  apply safe_bind. at_made safe_write; [done|]. intros s3 Hm3. apply safe_ret. by eapply HQ.
Qed.

(** [H1] is [H'] but for process [p] and the new thread [t]. *)
Record forking (H' H1 : gmap Z obj) (p t : Z) (x1 : process) (y : thread) : Prop := {
  forking_fresh : H' !! t = None;
  forking_proc : H1 !! p = Some (OProcess x1);
  forking_thread : H1 !! t = Some (OThread y);
  forking_rest : forall b, b <> t -> b <> p -> H1 !! b = H' !! b
}.

Lemma forking_inserts H' p t x o x1 y :
  H' !! p = Some (OProcess x) -> H' !! t = None ->
  forking H' (<[t := OThread y]> (<[p := OProcess x1]> (<[t := o]> H'))) p t x1 y.
Proof.
  intros Hp Ht. assert (p <> t) by congruence. split; [done| | |].
  - rewrite !lookup_insert_ne by done. apply lookup_insert_eq.
  - apply lookup_insert_eq.
  - intros b Hb1 Hb2. by rewrite !lookup_insert_ne by done.
Qed.

Lemma forking_set_thread H' H1 p t x1 y y' :
  forking H' H1 p t x1 y -> p <> t -> forking H' (<[t := OThread y']> H1) p t x1 y'.
Proof.
  intros [Hf Hp Ht Hr] Hpt. split; [done|by rewrite lookup_insert_ne|apply lookup_insert_eq|].
  intros b Hb1 Hb2. rewrite lookup_insert_ne by done. by apply Hr.
Qed.

Lemma forking_set H' H1 p t x1 x2 y :
  forking H' H1 p t x1 y -> p <> t -> forking H' (<[p := OProcess x2]> H1) p t x2 y.
Proof.
  intros [Hf Hp Ht Hr] Hpt. split; [done|apply lookup_insert_eq|by rewrite lookup_insert_ne|].
  intros b Hb1 Hb2. rewrite lookup_insert_ne by done. by apply Hr.
Qed.

Lemma Fork_safe s0 current cur fds mt p x H' s Q :
  can_fork s0 current cur fds mt -> made s0 H' (g_Processes s0) (g_LastPID s0) s ->
  H' !! p = Some (OProcess x) -> m_VMM x <> 0 ->
  (forall t y x1 n' H1 s', forking H' H1 p t x1 y -> m_VMM x1 = m_VMM x -> m_FDManager x1 = m_FDManager x ->
     made s0 H1 (g_Processes s0) n' s' -> Q false s') ->
  (forall t ctx k H1 s', forking H' H1 p t (set_pid (g_LastPID s0) (set_main t x)) (forked_thread p mt ctx k) ->
     made s0 H1 (g_Processes s0 ++ [p]) (add64 (g_LastPID s0) 1) s' -> Q true s') ->
  safe (Fork p current) s Q.
Proof.
  intros [Hwf Hcur _ _ Hmain Hpids _] Hm Hp Hv H0 HQ. apply safe_bind. at_made safe_new.
  { intros He s1 Hm1. apply safe_bind. at_made (safe_update _ _ _ _ _ x); [done|]. intros s2 [Hh Hr Hn _ _].
    unfold safe, bind, thread_at, read, bind. rewrite Hh, lookup_union_None_2; [done| |].
    - destruct (_ !! 0) eqn:Ho; [|done]. destruct Hwf. specialize (Hr _ _ Ho). lia.
    - destruct (heap s0 !! 0) eqn:Ho; [|done]. destruct Hwf as [_ Hw]. specialize (Hw _ _ Ho). lia. }
  intros t s1 _ HtN _ Hm1. assert (p <> t) as Hpt by congruence.
  apply safe_bind. at_made (safe_update _ _ _ _ _ x); [by rewrite lookup_insert_ne|]. intros s2 Hm2.
  apply safe_bind, (safe_thread _ new_Thread).
  { at_made made_new_at. rewrite lookup_insert_ne by done. apply lookup_insert_eq. }
  apply safe_bind. at_made safe_write; [rewrite lookup_insert_ne, lookup_insert_eq by done; done|]. intros s3 Hm3.
  apply safe_bind, (safe_proc _ cur); [at_made made_old_at; done|].
  pose proof (forking_inserts H' p t x (OThread new_Thread) (set_main t x)
                (mkThread 0 p 0 0 0 0 0 (m_deleteProp new_Thread) 0) Hp HtN) as Hf.
  apply safe_bind. at_made (Thread_Fork_safe _ _ _ _ _ p (set_main t x) _ mt);
    [apply lookup_insert_eq|done|done|done|rewrite lookup_insert_ne by done; apply lookup_insert_eq|done|done| |].
  { intros s4 Hm4. apply safe_ret. eapply H0; [exact Hf|done|done|done]. }
  intros ctx k s4 Hm4. cbn [negb]. apply (forking_set_thread _ _ _ _ _ _ (forked_thread p mt ctx k)) in Hf; [|done].
  apply safe_bind. at_made (AddProcess_safe _ _ _ _ (set_main t x)); [apply Hf|].
  intros s5 Hm5. apply safe_bind. at_made safe_call. intros [|] s6 Hm6; cbn [negb].
  - apply safe_ret. eapply HQ; [apply (forking_set _ _ _ _ _ _ _ Hf Hpt)|done].
  - apply safe_bind, (safe_proc _ (set_pid (g_LastPID s0) (set_main t x))); [at_made made_new_at; apply lookup_insert_eq|].
    apply safe_bind. at_made (RemoveProcess_safe _ _ _ _ (set_pid (g_LastPID s0) (set_main t x))); [apply lookup_insert_eq| |].
    { intros q (y & Hq & Hlt)%Hpids. exists y. split; [done|]. cbn. lia. }
    intros s7 Hm7. apply safe_ret. eapply H0; [apply (forking_set _ _ _ _ _ (set_pid (g_LastPID s0) (set_main t x)) _ Hf Hpt)|done|done|done].
Qed.

(** The objects of the child [p] are all that was made. *)
Record child (H' : gmap Z obj) (p : Z) (x : process) (l : list Z) (m a : Z) : Prop := {
  child_holds : holds H' p x l;
  child_space : has_space H' x m a;
  child_only : forall b o, H' !! b = Some o -> b ∈ p :: m_FDManager x :: l ++ [m_VMM x; a; m]
}.

Lemma child_set H' p x x' l m a :
  child H' p x l m a -> m_FDManager x' = m_FDManager x -> m_VMM x' = m_VMM x ->
  child (<[p := OProcess x']> H') p x' l m a.
Proof.
  intros [[Hp Ht Hl Hd] [Hv Hmp Ha] Ho] Ef Ev. split; [split|split|].
  all: rewrite ?Ef, ?Ev; try (rewrite lookup_insert_ne by congruence; done).
  - apply lookup_insert_eq.
  - done.
  - intros d Hd'. specialize (Hd _ Hd'). rewrite lookup_insert_ne; [done|congruence].
  - intros b o [[<- _]|[_ Hb]]%lookup_insert_Some; [set_solver|eauto].
Qed.

Lemma child_forking H' H1 p t x x1 y l m a :
  child H' p x l m a -> forking H' H1 p t x1 y -> m_FDManager x1 = m_FDManager x -> m_VMM x1 = m_VMM x ->
  holds H1 p x1 l /\ has_space H1 x1 m a.
Proof.
  intros [[Hp Ht Hl Hd] [Hv Hmp Ha] _] [Hf Hp1 Ht1 Hr] Ef Ev. split; split.
  all: rewrite ?Ef, ?Ev; try (rewrite Hr by congruence; done).
  - done.
  - done.
  - intros d Hd'. specialize (Hd _ Hd'). rewrite Hr; [done|congruence|congruence].
Qed.

(** Nothing is left of the attempt but, maybe, a thread. *)
Definition undone (s0 s : state E) : Prop :=
  g_Processes s = g_Processes s0 /\
  (heap s = heap s0 \/ exists t y, next s0 <= t /\ heap s = <[t := OThread y]> (heap s0)).

Lemma undone_all s0 H' L n s :
  made s0 (gone L H') (g_Processes s0) n s -> (forall b o, H' !! b = Some o -> b ∈ L) -> undone s0 s.
Proof.
  intros [Hh _ _ Hp _] HL. split; [done|]. left. by rewrite Hh, gone_all, (left_id_L ∅ (∪)).
Qed.

Lemma undone_thread s0 H' H1 p t x x1 y l m a n s :
  child H' p x l m a -> forking H' H1 p t x1 y ->
  made s0 (gone (p :: m_FDManager x :: l ++ [m_VMM x; a; m]) H1) (g_Processes s0) n s -> undone s0 s.
Proof.
  intros [[Hp Ht _ Hd] [Hv Hmp Ha] Ho] [Hf Hp1 Ht1 Hr] [Hh Hrg Hn Hps _]. split; [done|]. right. exists t, y.
  assert (t ∉ p :: m_FDManager x :: l ++ [m_VMM x; a; m]) as HtL.
  { rewrite !elem_of_cons, elem_of_app, !elem_of_cons, elem_of_nil. intros Hc. destruct_or! Hc; try congruence.
    specialize (Hd _ Hc). congruence. }
  split; [apply (Hrg t (OThread y)); by rewrite lookup_gone_out|]. rewrite Hh.
  replace (gone _ H1) with ({[t := OThread y]} : gmap Z obj); [by rewrite insert_union_singleton_l|].
  apply map_eq. intros b. rewrite lookup_gone. destruct (decide (t = b)) as [<-|Hb].
  - by rewrite lookup_singleton_eq, decide_False.
  - rewrite lookup_singleton_ne by done. case_decide as HbL; [done|]. rewrite Hr; [|done|set_solver].
    destruct (H' !! b) eqn:Hc; [|done]. by apply Ho in Hc.
Qed.

(** What the child [p] of process [cur] is: its own address space, table and main thread, all at
    new addresses; it inherits the credentials, the working directory, the descriptors and
    the main thread's entry point and stack. *)
Record forked (s0 s : state E) (cur : process) (fds : list Z) (mt : thread) (p : Z) (c : process) : Prop := {
  forked_proc : heap s !! p = Some (OProcess c);
  forked_pid : m_PID c = g_LastPID s0 /\ m_PPID c = m_PID cur;
  forked_mode : m_Mode c = USER /\ m_Nice c = 15 /\ m_cred c = m_cred cur /\ (m_cwd cur <> 0 -> m_cwd c = m_cwd cur);
  forked_table : exists l, heap s !! m_FDManager c = Some (OTable l) /\ length l = length fds /\ NoDup l /\
                   forall d, d ∈ l -> heap s !! d = Some ODescriptor /\ next s0 <= d;
  forked_space : exists m a, heap s !! m_VMM c = Some (OVMM m a) /\ heap s !! m = Some OMapper /\ heap s !! a = Some OAllocator;
  forked_main : exists ctx k, heap s !! m_MainThread c = Some (OThread (forked_thread p mt ctx k));
  forked_fresh : next s0 <= p /\ next s0 <= m_FDManager c /\ next s0 <= m_VMM c /\ next s0 <= m_MainThread c;
  forked_rest : forall b o, heap s0 !! b = Some o -> heap s !! b = Some o;
  forked_list : g_Processes s = g_Processes s0 ++ [p]
}.

(** What [sys_fork] may do. *)
Definition fork_outcome (s0 : state E) (cur : process) (fds : list Z) (mt : thread) (rc : Z) (s : state E) : Prop :=
  ((rc = - ENOMEM \/ rc = - ENOSYS) /\ undone s0 s) \/
  (rc = g_LastPID s0 /\ exists p c, forked s0 s cur fds mt p c).

(** The child as it is before its threads are made. *)
Record inherits (cur x : process) : Prop := {
  inherits_ids : m_Mode x = USER /\ m_Nice x = 15 /\ m_PPID x = m_PID cur;
  inherits_cred : m_cred x = m_cred cur;
  inherits_cwd : m_cwd cur <> 0 -> m_cwd x = m_cwd cur
}.

Lemma forked_intro s0 s' n cur fds mt H' H1 p t x l m a ctx k :
  wf_heap s0 -> child H' p x l m a -> inherits cur x -> length l = length fds ->
  forking H' H1 p t (set_pid (g_LastPID s0) (set_main t x)) (forked_thread p mt ctx k) ->
  made s0 H1 (g_Processes s0 ++ [p]) n s' -> forked s0 s' cur fds mt p (set_pid (g_LastPID s0) (set_main t x)).
Proof.
  intros Hwf Hc [(Hmo & Hni & Hpp) Hcr Hcw] Hk Hf Hm.
  destruct (child_forking _ _ _ _ _ _ _ _ _ _ Hc Hf eq_refl eq_refl) as [[Hp Ht Hl Hd] [Hv Hmp Ha]].
  pose proof (forking_thread _ _ _ _ _ _ Hf) as Hth. pose proof (made_range _ _ _ _ _ Hm) as Hr.
  split.
  - at_made made_new_at. done.
  - done.
  - done.
  - exists l. split_and!; [at_made made_new_at; done|done|done|]. intros d Hd'%Hd.
    split; [at_made made_new_at; done|]. apply Hr in Hd'. lia.
  - exists m, a. split_and!; at_made made_new_at; done.
  - exists ctx, k. at_made made_new_at. done.
  - apply Hr in Hp, Ht, Hv, Hth. cbn in *. lia.
  - intros b o Hb. at_made made_old_at. done.
  - apply (made_procs _ _ _ _ _ Hm).
Qed.

Lemma fork_child_safe s0 current cur fds mt H' p x l m a s :
  can_fork s0 current cur fds mt -> made s0 H' (g_Processes s0) (g_LastPID s0) s ->
  child H' p x l m a -> inherits cur x -> length l = length fds ->
  safe (fork_child p current (m_VMM cur)) s (fork_outcome s0 cur fds mt).
Proof.
  intros Hcf Hm Hc Hi Hk. pose proof (fork_wf _ _ _ _ _ Hcf) as Hwf. pose proof Hc as [[Hp Ht Hl Hd] [Hv Hmp Ha] Ho].
  pose proof (made_pos _ Hwf _ _ _ _ _ _ Hm Hv). pose proof (made_pos _ Hwf _ _ _ _ _ _ Hm Ha).
  apply safe_bind, (safe_proc _ x); [at_made made_new_at; done|].
  apply safe_bind. unfold allocator_of at 1. destruct (Z.eqb_spec (m_VMM x) 0); [done|].
  apply safe_bind, (safe_vmm _ m a); [at_made made_new_at; done|]. apply safe_ret.
  destruct (Z.eqb_spec a 0); [done|]. cbn [orb].
  assert (forall rc s1, rc = - ENOMEM \/ rc = - ENOSYS -> made s0 H' (g_Processes s0) (g_LastPID s0) s1 ->
    safe (Delete p ;;; delete p ;;; ret rc) s1 (fork_outcome s0 cur fds mt)) as Hdis.
  { intros rc s1 Hrc Hm1. at_made discard_safe; [apply Hc|apply Hc|]. intros s2 Hm2. left. split; [done|].
    by apply (undone_all _ _ _ _ _ Hm2). }
  apply safe_bind. unfold allocator_of.
  destruct (Z.eqb_spec (m_VMM cur) 0) as [Hz|Hz].
  { apply safe_ret. cbn [Z.eqb]. apply Hdis; [by right|done]. }
  destruct (fork_space _ _ _ _ _ Hcf) as [|(m' & b & Hv')]; [done|].
  apply safe_bind, (safe_vmm _ m' b); [at_made made_old_at; done|]. apply safe_ret.
  destruct (Z.eqb_spec b 0). { apply Hdis; [by right|done]. }
  apply safe_bind. unfold and_then. apply safe_bind. at_made safe_call. intros [|] s1 Hm1; [|apply safe_ret, Hdis; [by left|done]].
  apply safe_bind. at_made safe_call. intros [|] s2 Hm2; [|apply safe_ret, Hdis; [by left|done]].
  eapply Fork_safe; [exact Hcf|eassumption|exact Hp|done| |].
  - intros t y x1 n' K1 s3 Hf Ev Et Hm3. cbn [negb].
    destruct (child_forking _ _ _ _ _ _ _ _ _ _ Hc Hf Et Ev) as [Hh Hs].
    at_made discard_safe; [exact Hh|exact Hs|]. rewrite Et, Ev. intros s4 Hm4. left. split; [by left|].
    by apply (undone_thread _ _ _ _ _ _ _ _ _ _ _ _ _ Hc Hf Hm4).
  - intros t ctx k K1 s3 Hf Hm3. cbn [negb].
    pose proof (forked_intro _ _ _ _ _ _ _ _ _ _ _ _ _ _ _ _ Hwf Hc Hi Hk Hf Hm3) as Hfk.
    apply safe_bind. eapply safe_proc; [apply Hfk|]. apply safe_ret. right. split; [|eauto].
    cbn. destruct (fork_pid _ _ _ _ _ Hcf). unfold i64. rewrite Z.mod_small by lia. lia.
Qed.

(** A child [p] that has a table [t] and no address space yet: that is all that was made. *)
Record bare (H1 : gmap Z obj) (p t : Z) (x : process) (l : list Z) : Prop := {
  bare_proc : H1 !! p = Some (OProcess x);
  bare_table : H1 !! t = Some (OTable l);
  bare_nodup : NoDup l;
  bare_descs : forall d, d ∈ l -> H1 !! d = Some ODescriptor;
  bare_only : forall b o, H1 !! b = Some o -> b ∈ p :: t :: l
}.

Lemma bare_set H1 p t x x' l : bare H1 p t x l -> bare (<[p := OProcess x']> H1) p t x' l.
Proof.
  intros [Hp Ht Hl Hd Ho]. split.
  - apply lookup_insert_eq.
  - rewrite lookup_insert_ne; [done|congruence].
  - done.
  - intros d Hd'%Hd. rewrite lookup_insert_ne; [done|congruence].
  - intros b o [[<- _]|[_ Hb%Ho]]%lookup_insert_Some; [set_solver|done].
Qed.

(** The table was forked into the new child. *)
Lemma bare_intro p t x l K :
  p <> t -> NoDup l -> K !! t = Some (OTable l) ->
  (forall d, d ∈ l -> (<[t := OTable []]> (<[p := OProcess x]> (∅ : gmap Z obj))) !! d = None /\ K !! d = Some ODescriptor) ->
  (forall b, b ∉ l -> b <> t -> K !! b = (<[t := OTable []]> (<[p := OProcess x]> (∅ : gmap Z obj))) !! b) ->
  bare K p t x l.
Proof.
  intros Hpt Hl Ht Hd Hb.
  assert (p ∉ l) as Hpl. { intros [Hc _]%Hd. by rewrite lookup_insert_ne, lookup_insert_eq in Hc. }
  split; [|done|done|intros d Hd'; by apply Hd|].
  - rewrite Hb by done. by rewrite lookup_insert_ne, lookup_insert_eq.
  - intros b o Hbo. destruct (decide (b ∈ p :: t :: l)) as [|Hn]; [done|].
    apply not_elem_of_cons in Hn as [Hnp [Hnt Hnl]%not_elem_of_cons].
    by rewrite Hb, !lookup_insert_ne in Hbo by done.
Qed.

Lemma child_create p t x l H1 v m a :
  bare H1 p t x l -> m_FDManager x = t ->
  H1 !! a = None -> (<[a := OAllocator]> H1) !! m = None -> (<[m := OMapper]> (<[a := OAllocator]> H1)) !! v = None ->
  child (<[p := OProcess (set_vmm v x)]> (space v m a H1)) p (set_vmm v x) l m a.
Proof.
  intros [Hp Ht Hl Hd Ho] <- HaN HmN HvN. unfold space.
  pose proof HmN as [HmN1 Ham]%lookup_insert_None. pose proof HvN as [[HvN1 Hav]%lookup_insert_None Hmv]%lookup_insert_None.
  assert (forall b o, H1 !! b = Some o -> b <> p ->
    (<[p := OProcess (set_vmm v x)]> (<[v := OVMM m a]> (<[m := OMapper]> (<[a := OAllocator]> H1)))) !! b = Some o) as Hold.
  { intros b o Hb Hbp. rewrite !lookup_insert_ne by congruence. done. }
  split; [split|split|].
  - apply lookup_insert_eq.
  - cbn; apply Hold; [done|congruence].
  - done.
  - intros d Hd'%Hd. apply Hold; [done|congruence].
  - cbn. rewrite lookup_insert_ne by congruence. apply lookup_insert_eq.
  - rewrite !lookup_insert_ne by congruence. apply lookup_insert_eq.
  - rewrite !lookup_insert_ne by congruence. apply lookup_insert_eq.
  - intros b o [[<- _]|[_ [[<- _]|[_ [[<- _]|[_ [[<- _]|[_ Hb%Ho]]%lookup_insert_Some]]%lookup_insert_Some]]%lookup_insert_Some]]%lookup_insert_Some; cbn; set_solver.
Qed.

Lemma Create_cwd_safe s0 ps n p x H' s Q :
  made s0 H' ps n s -> H' !! p = Some (OProcess x) ->
  (forall x' s', x' = x \/ (m_cwd x = 0 /\ exists v, x' = set_cwd v x) ->
     made s0 (<[p := OProcess x']> H') ps n s' -> Q tt s') ->
  safe (Create_cwd p) s Q.
Proof.
  intros Hm Hp HQ. assert (forall s', made s0 H' ps n s' -> Q tt s') as Hsame.
  { intros s' Hm'. apply (HQ x); [by left|]. by rewrite insert_id. }
  apply safe_bind, (safe_proc _ x); [at_made made_new_at; done|].
  destruct (Z.eqb_spec (m_cwd x) 0); cbn [negb]; [|by apply safe_ret, Hsame].
  apply safe_bind. at_made safe_call. intros [rc v] s1 Hm1. destruct (rc =? 0); [|by apply safe_ret, Hsame].
  at_made (safe_update _ _ _ _ _ x); [done|]. intros s2 Hm2. apply (HQ (set_cwd v x)); [right; eauto|done].
Qed.

(** Undoing a child that has no address space. *)
Lemma unwind_safe s0 p t x l H1 cur fds mt s :
  wf_heap s0 -> made s0 H1 (g_Processes s0) (g_LastPID s0) s ->
  bare H1 p t x l -> safe (table_Delete t ;;; delete t ;;; delete p ;;; ret (- ENOMEM)) s (fork_outcome s0 cur fds mt).
Proof.
  intros Hwf Hm [Hp Ht Hl Hd Ho].
  assert (p <> t) by congruence. assert (t ∉ l) by (intros Hc%Hd; congruence). assert (p ∉ l) by (intros Hc%Hd; congruence).
  rewrite <- (gone_nil H1) in Hm. apply safe_bind. at_made table_Delete_safe; [done|set_solver|done|done| |].
  { intros d Hd'%Hd. split; [set_solver|done]. }
  rewrite app_nil_r. intros s1 Hm1.
  apply safe_bind. at_made safe_delete; [by rewrite lookup_gone_out, lookup_insert_eq by done|]. intros s2 Hm2.
  rewrite delete_gone in Hm2. apply safe_bind. at_made safe_delete.
  { rewrite lookup_gone_out by set_solver. by rewrite lookup_insert_ne, Hp by done. }
  intros s3 Hm3. rewrite delete_gone, gone_insert in Hm3 by set_solver. apply safe_ret. left. split; [by left|].
  apply (undone_all _ _ _ _ _ Hm3). intros b o Hb%Ho. set_solver.
Qed.

Lemma undone_empty s0 n s : made s0 ∅ (g_Processes s0) n s -> undone s0 s.
Proof. intros [Hh _ _ Hp _]. split; [done|]. left. by rewrite Hh, (left_id_L ∅ (∪)). Qed.

(** The two allocations at the start, or nothing. *)
Lemma start_safe s0 current cur fds mt x k :
  can_fork s0 current cur fds mt ->
  (forall p t s, made s0 (<[t := OTable []]> (<[p := OProcess x]> ∅)) (g_Processes s0) (g_LastPID s0) s -> p <> t ->
     safe (k p t) s (fork_outcome s0 cur fds mt)) ->
  safe (let* p := new (OProcess x) in
        let* t := new (OTable []) in
        if (p =? 0) || (t =? 0) then delete p ;;; delete t ;;; ret (- ENOMEM) else k p t) s0 (fork_outcome s0 cur fds mt).
Proof.
  intros Hcf Hk. pose proof (fork_wf _ _ _ _ _ Hcf) as Hwf. pose proof (made_start s0) as Hm.
  assert (forall n s, made s0 ∅ (g_Processes s0) n s -> fork_outcome s0 cur fds mt (- ENOMEM) s) as Hout.
  { intros n s Hm'. left. split; [by left|]. by eapply undone_empty. }
  apply safe_bind. at_made safe_new.
  - intros _ s1 Hm1. apply safe_bind. at_made safe_new.
    + intros _ s2 Hm2. cbn [orb Z.eqb]. apply safe_bind, safe_delete_null, safe_bind, safe_delete_null, safe_ret. by eapply Hout.
    + intros t s2 Ht _ _ Hm2. cbn [orb Z.eqb]. apply safe_bind, safe_delete_null, safe_bind.
      at_made safe_delete; [by rewrite lookup_insert_eq|]. rewrite delete_insert_id by done. intros s3 Hm3. apply safe_ret. by eapply Hout.
  - intros p s1 Hp _ _ Hm1. apply safe_bind. at_made safe_new.
    + intros _ s2 Hm2. rewrite orb_true_r. apply safe_bind.
      at_made safe_delete; [by rewrite lookup_insert_eq|]. rewrite delete_insert_id by done. intros s3 Hm3.
      apply safe_bind, safe_delete_null, safe_ret. by eapply Hout.
    + intros t s2 Ht HtN _ Hm2. destruct (Z.eqb_spec p 0); [done|]. destruct (Z.eqb_spec t 0); [done|].
      apply (Hk p t s2 Hm2). intros ->. by rewrite lookup_insert_eq in HtN.
Qed.

(** From the creation of the child's address space on. *)
Lemma create_child_safe s0 current cur fds mt p t x l H1 s :
  can_fork s0 current cur fds mt -> made s0 H1 (g_Processes s0) (g_LastPID s0) s -> bare H1 p t x l ->
  m_FDManager x = t -> m_VMM x = 0 -> length l = length fds -> inherits cur (set_ppid (m_PID cur) x) -> m_cwd x = m_cwd cur ->
  safe (let* ok := Create p false in
        if negb ok then table_Delete t ;;; delete t ;;; delete p ;;; ret (- ENOMEM) else
        update p (set_ppid (m_PID cur)) ;;; fork_child p current (m_VMM cur)) s (fork_outcome s0 cur fds mt).
Proof.
  intros Hcf Hm Hb Ht Hv Hk Hi Hcw. pose proof (fork_wf _ _ _ _ _ Hcf) as Hwf. pose proof (bare_proc _ _ _ _ _ Hb) as Hp.
  apply safe_bind, safe_bind. at_made (Create_vmm_safe _ Hwf _ _ _ x); [done|done| |].
  { intros s1 Hm1. apply safe_ret. by eapply unwind_safe. }
  intros v m a s1 _ _ HaN HmN HvN Hm1. cbn [negb].
  pose proof (child_create _ _ _ _ _ _ _ _ Hb Ht HaN HmN HvN) as Hc. pose proof (holds_proc _ _ _ _ (child_holds _ _ _ _ _ _ Hc)) as Hp1.
  pose proof (holds_table _ _ _ _ (child_holds _ _ _ _ _ _ Hc)) as Ht1.
  apply safe_bind, safe_bind, (safe_proc _ (set_vmm v x)); [at_made made_new_at; done|].
  destruct (Z.eqb_spec (m_FDManager (set_vmm v x)) 0) as [Hz|_]; [by apply (made_pos _ Hwf _ _ _ _ _ _ Hm1) in Ht1|].
  cbn [negb]. apply safe_ret. cbn [negb]. apply safe_bind. at_made Create_cwd_safe; [done|].
  intros x' s2 Hx' Hm2. apply safe_ret. cbn [negb].
  apply safe_bind. at_made (safe_update _ _ _ _ _ x'); [apply lookup_insert_eq|]. intros s3 Hm3.
  assert (m_FDManager x' = m_FDManager x /\ m_VMM x' = v /\ m_Mode x' = m_Mode x /\ m_Nice x' = m_Nice x /\ m_cred x' = m_cred x /\
          (m_cwd x <> 0 -> m_cwd x' = m_cwd x)) as (E1 & E2 & E3 & E4 & E5 & E6).
  { destruct Hx' as [->|(Hz & w & ->)]; [done|]. by cbn in *. }
  eapply fork_child_safe; [exact Hcf|exact Hm3| | |exact Hk].
  - apply (child_set _ _ x'); [|done|done]. apply (child_set _ _ _ _ _ _ _ Hc); [done|done].
  - destruct Hi as [(I1 & I2 & I3) I4 I5]. cbn in *. split; cbn; [by rewrite E3, E4|by rewrite E5|]. intros Hz.
    rewrite E6 by congruence. done.
Qed.

(** C23: [sys_fork] has one of two outcomes. Either it fails with ENOMEM or ENOSYS and the
    kernel heap and the list of processes are what they were, but for at most one thread that
    is left behind; or it returns the next process number and there is one more process, made
    of new objects only, with the parent's number, credentials, working directory, as many
    descriptors, and a main thread at the parent's entry point and stack, while every
    object that was there is unchanged. No object is used after it was deleted or deleted
    twice; the only fault is a null dereference after an allocation has failed. *)
Theorem sys_fork_spec s0 current cur fds mt :
  can_fork s0 current cur fds mt -> safe (sys_fork current) s0 (fork_outcome s0 cur fds mt).
Proof.
  intros Hcf. pose proof Hcf as [Hwf Hcur Hfds _ _ _ _].
  apply safe_bind, (safe_proc _ cur); [done|]. apply (start_safe _ current cur fds mt); [done|].
  intros p t s1 Hm1 Hpt. apply safe_bind. at_made fork_table_safe; [apply lookup_insert_eq|done| |].
  { intros s2 Hm2. cbn [negb]. apply safe_bind. at_made safe_delete; [by rewrite lookup_insert_eq|]. intros s3 Hm3.
    rewrite delete_insert_id in Hm3 by (by rewrite lookup_insert_ne).
    apply safe_bind. at_made safe_delete; [by rewrite lookup_insert_eq|]. intros s4 Hm4. rewrite delete_insert_id in Hm4 by done.
    apply safe_ret. left. split; [by left|]. by eapply undone_empty. }
  intros l K s2 Hk Hl Ht Hd Hb Hm2. cbn [negb]. pose proof (bare_intro _ _ _ _ _ Hpt Hl Ht Hd Hb) as B.
  apply safe_bind. at_made safe_update; [apply B|]. intros s3 Hm3. apply (bare_set _ _ _ _ (set_table t (new_Process USER 0 15))) in B.
  apply safe_bind. at_made safe_update; [apply B|]. intros s4 Hm4. eapply bare_set in B.
  apply safe_bind. at_made safe_update; [apply B|]. intros s5 Hm5. eapply bare_set in B.
  eapply (create_child_safe _ _ _ _ _ _ _ _ l); [done|exact Hm5|exact B|done|done|done|done|done].
Qed.

Lemma runs_proc p x (s : state E) (Q : process -> state E -> Prop) :
  heap s !! p = Some (OProcess x) -> Q x s -> runs (proc_at p) s Q.
Proof. intros Hp HQ. eapply runs_eq; [|exact HQ]. unfold proc_at, bind, read. by rewrite Hp. Qed.

Lemma runs_thread p x (s : state E) (Q : thread -> state E -> Prop) :
  heap s !! p = Some (OThread x) -> Q x s -> runs (thread_at p) s Q.
Proof. intros Hp HQ. eapply runs_eq; [|exact HQ]. unfold thread_at, bind, read. by rewrite Hp. Qed.

Lemma runs_write p o (s : state E) (Q : unit -> state E -> Prop) :
  is_Some (heap s !! p) -> Q tt (set_heap (<[p := o]> (heap s)) s) -> runs (write p o) s Q.
Proof. intros [o1 Hp] HQ. eapply runs_eq; [|exact HQ]. unfold write, bind, read. by rewrite Hp. Qed.

(** Adding a thread and removing it gives the list of threads back. *)
Lemma AddThread_RemoveThread p t x y (s : state E) :
  heap s !! p = Some (OProcess x) -> heap s !! t = Some (OThread y) -> t <> 0 -> t <> m_MainThread x -> t ∉ m_Threads x ->
  runs (AddThread p t ;;; RemoveThread p t) s (fun _ s' =>
    heap s' !! p = Some (OProcess (set_threads (add64 (m_nextTID x) 1) (m_Threads x) x))).
Proof.
  intros Hp Ht Ht0 Htm Htl. assert (p <> t) as Hpt by congruence.
  apply runs_bind, runs_bind, (runs_proc _ x); [done|]. apply runs_bind, (runs_thread _ y); [done|].
  apply runs_bind, runs_assert; [by apply bool_decide_eq_true_2|]. apply runs_bind, runs_write; [by eexists|].
  apply runs_bind, runs_write; [cbn; rewrite lookup_insert_ne by done; by eexists|]. apply runs_ret.
  apply runs_bind. eapply runs_proc; [apply lookup_insert_eq|]. cbn [m_MainThread m_Threads m_nextTID set_threads].
  destruct (Z.eqb_spec t 0); [done|]. destruct (Z.eqb_spec t (m_MainThread x)); [done|]. cbn [orb].
  apply runs_bind, runs_assert; [apply bool_decide_eq_true_2; set_solver|].
  apply runs_write; [cbn; rewrite lookup_insert_eq; by eexists|]. cbn. rewrite lookup_insert_eq.
  rewrite filter_app, filter_cons_False by (cbn; tauto). rewrite filter_nil, app_nil_r.
  rewrite filter_all; [done|]. intros q Hq ->. done.
Qed.
End Spec.

(** ** Concrete runs *)

(** The outcomes of the next allocations (then they succeed), and whether the scheduler takes
    the thread. *)
Definition script : Type := list bool * bool.

#[local] Instance script_env : Env script := {|
  can_new := fun e => match e.1 with [] => (true, e) | b :: l => (b, (l, e.2)) end;
  allocator_Init := fun _ e => e;
  allocator_Delete := fun _ e => e;
  allocator_Fork := fun _ _ e => (true, e);
  mapper_Create := fun _ e => e;
  mapper_Delete := fun _ e => e;
  vmm_Delete := fun _ e => e;
  vmm_Fork := fun _ _ e => (true, e);
  table_Init := fun _ e => (true, e);
  ReserveFD := fun _ _ _ e => (true, e);
  table_Fork := fun _ _ e => (true, e);
  desc_Open := fun _ e => (0, e);
  desc_Close := fun _ e => e;
  LookupRoot := fun _ e => (0, 7, e);
  AllocateAnonPages := fun _ _ e => (65536, e);
  FreePages := fun _ _ e => (true, e);
  ForkContext := fun _ c e => (c, e);
  AddExistingThread := fun _ e => (e.2, e);
  ScheduleThread := fun _ e => e;
  futex_Remove := fun _ _ e => e;
  DestroyExtraContext := fun _ e => e
|}.

Definition parent : process := mkProcess USER 2 15 1 0 0 6 [] 1000 5 9.
Definition parent_thread : thread := mkThread 4096 1 0 77 8192 12288 10 (mkDeleteProp false false true (-1)) 0.
Definition parent_heap : gmap Z obj := list_to_map
  [(1, OProcess parent); (2, OVMM 3 4); (3, OMapper); (4, OAllocator); (5, OTable [7; 8]); (6, OThread parent_thread);
   (7, ODescriptor); (8, ODescriptor)].
Definition parent_state (e : script) : state script := mkState parent_heap 10 [1] 2 e.

Lemma parent_can_fork e : can_fork (parent_state e) 1 parent [7; 8] parent_thread.
Proof.
  split; [split; [done|]|done|done|right; by exists 3, 4|done| |done].
  - intros a o Ha%elem_of_list_to_map_2. cbn [next parent_state].
    rewrite !elem_of_cons, elem_of_nil in Ha. destruct_or! Ha; simplify_eq; lia.
  - intros q ->%list_elem_of_singleton. by exists parent.
Qed.

Lemma sys_fork_spec_witness :
  safe (sys_fork 1) (parent_state ([], true)) (fork_outcome (parent_state ([], true)) parent [7; 8] parent_thread).
Proof. apply sys_fork_spec. apply parent_can_fork. Defined.

Definition result_of {A} (m : M (state script) A) (e : script) : result A :=
  match m (parent_state e) with Ok (a, _) => Ok a | Fail f => Fail f end.
Definition left_behind (m : M (state script) Z) (e : script) : list Z :=
  match m (parent_state e) with
  | Ok (_, s) => filter (fun a => 10 <= a) (map_to_list (heap s)).*1
  | Fail _ => []
  end.

Example fork_returns_pid : result_of (sys_fork 1) ([], true) = Ok 2.
Proof. vm_compute. reflexivity. Qed.

(** The address space cannot be made: everything is given back. *)
Example fork_no_memory : result_of (sys_fork 1) ([true; true; true; true; false], true) = Ok (- ENOMEM) /\
  left_behind (sys_fork 1) ([true; true; true; true; false], true) = [].
Proof. vm_compute. split; reflexivity. Qed.

(** The thread, and likewise the page mapper, is used without a look at what [new] gave. *)
Example fork_null_thread : result_of (sys_fork 1) ([true; true; true; true; true; false], true) = Fail NullDereference /\
  result_of (sys_fork 1) ([true; true; true; false], true) = Fail NullDereference.
Proof. vm_compute. split; reflexivity. Qed.

(** The scheduler does not take the thread: the process is undone but not its thread. *)
Example fork_leaks_thread : result_of (sys_fork 1) ([], false) = Ok (- ENOMEM) /\
  left_behind (sys_fork 1) ([], false) = [17].
Proof. vm_compute. split; reflexivity. Qed.

(** A second thread has the number of the main thread, and a search for any other faults. *)
Example second_thread : result_of (let* t := new (OThread new_Thread) in AddThread 1 t) ([], true) = Ok 0 /\
  result_of (let* t := new (OThread new_Thread) in AddThread 1 t ;;; GetThread 1 1) ([], true) = Fail NullDereference.
Proof. vm_compute. split; reflexivity. Qed.

(** A thread that exits with its process, as [sys_exit] has it, is used after it was deleted. *)
Example exit_uses_freed_thread :
  result_of (ExitCurrentThread 6 true true true 0 ;;; HandleDeadThreads [6]) ([], true) = Fail InvalidAccess.
Proof. vm_compute. reflexivity. Qed.

(** If the thread itself is kept, the process is taken apart in order. *)
Example exit_keeps_thread :
  match (ExitCurrentThread 6 false true true 0 ;;; HandleDeadThreads [6]) (parent_state ([], true)) with
  | Ok (_, s) => (map_to_list (heap s)).*1 = [6] /\ g_Processes s = []
  | Fail _ => False
  end.
Proof. vm_compute. split; reflexivity. Qed.

(** The process that [exec] puts in the place of process 1 gets a new number when it is started. *)
Definition exec_demo : M (state script) Z :=
  let* p := new (OProcess (new_Process USER 0 15)) in
  Create p true ;;;
  CreateMainThread p 4096 ;;;
  exec_replace 1 p 0 ;;;
  let* x := proc_at p in
  ret (m_PID x).
Example exec_changes_pid : result_of exec_demo ([], true) = Ok 2.
Proof. vm_compute. reflexivity. Qed.
End ProcessSpec.
