(* ===== verification/Exec.v ===== *)
(** * Exec.v: the arguments of exec (src/kernel/src/SystemCalls/Process.cpp, SystemCall.cpp)

    [sys_exec] copies the path, the arguments and the environment from user memory into
    kernel buffers, has the program loaded and frees the buffers. User memory, program
    loading and the exchange of the processes are an interface ([Kernel]); the latter is
    [Process.exec_replace]. The buffers are kept by address with their contents, so that
    what is lost or freed twice can be seen.

    Shown: as long as there is memory, [sys_exec] frees each buffer it takes exactly once on
    every path. *)

From S2P Require Import Prelude.

#[local] Open Scope Z_scope.
#[local] Open Scope kernel_scope.

Module Exec.

Definition ESUCCESS : Z := 0.
Definition ENOMEM : Z := 12.
Definition EFAULT : Z := 14.
Definition ENOSYS : Z := 38.

(** ** User memory and the other components *)
Class Kernel (E : Type) : Type := {
  can_alloc : E -> bool * E;
  (* [UserRead] of a pointer: whether it can be read, and its value *)
  UserRead : Z -> E -> bool * Z * E;
  (* at most so many characters: whether the end was reached, and the characters *)
  CopyStringFromUser : Z -> Z -> E -> bool * list Z * E;
  (* number of the parent, the process with a number *)
  GetPPID : E -> Z;
  GetProcess : Z -> E -> Z;
  (* path, parent, arguments, environment; code and new process *)
  CreateELFProcess : option (list Z) -> Z -> list (list Z) -> list (list Z) -> E -> Z * Z * E;
  (* the new process takes the place of the current one, which exits *)
  exec_replace : Z -> Z -> E -> E
}.

(** The kernel buffers, the next address, and the rest. *)
Record state (E : Type) : Type := mk { bufs : gmap Z (list Z); nextbuf : Z; env : E }.
Arguments mk {E} _ _ _.
Arguments bufs {E} _.
Arguments nextbuf {E} _.
Arguments env {E} _.

Section Ops.
Context {E : Type} `{Kernel E}.

Notation S := (M (state E)).

Definition call {A} (f : E -> A * E) : S A := fun s => let (a, e) := f (env s) in Ok (a, mk (bufs s) (nextbuf s) e).
Definition set_bufs (b : gmap Z (list Z)) (s : state E) : state E := mk b (nextbuf s) (env s).

Definition kmalloc : S Z :=
  let* ok := call can_alloc in
  if ok : bool then fun s => Ok (nextbuf s, mk (<[nextbuf s := []]> (bufs s)) (nextbuf s + 1) (env s)) else ret 0.
Definition kfree (p : Z) : S unit := fun s =>
  if p =? 0 then Ok (tt, s) else
  match bufs s !! p with
  | Some _ => Ok (tt, set_bufs (delete p (bufs s)) s)
  | None => Fail InvalidAccess
  end.
Definition contents (p : Z) : S (list Z) := fun s =>
  match bufs s !! p with Some l => Ok (l, s) | None => Fail (if p =? 0 then NullDereference else InvalidAccess) end.
Definition fill (p : Z) (l : list Z) : S unit := contents p ;;; modify (fun s => set_bufs (<[p := l]> (bufs s)) s).

(** The contents move to a new buffer; without memory the old one stays. *)
Definition krealloc (p : Z) : S Z :=
  let* l := contents p in
  let* q := kmalloc in
  if q =? 0 then ret 0 else fill q l ;;; kfree p ;;; ret q.

(** [UserReadString]: whether it succeeded, and the buffer. The loop of the source returns
    in its first round. *)
Definition UserReadString (userStr : Z) : S (bool * Z) :=
  if userStr =? 0 then ret (false, 0) else
  let* buffer := kmalloc in
  let* (ok, block) := call (CopyStringFromUser userStr 64) in
  (if bool_decide (block = []) then ret tt else fill buffer block) ;;;
  if (ok : bool) then ret (true, buffer) else
  if Z.of_nat (length block) =? 64 then let* buffer := krealloc buffer in ret (true, buffer)
  else kfree buffer ;;; ret (false, 0).

(** [kfree] of the elements below the index, from the last one. *)
Fixpoint free_all (ps : list Z) : S unit :=
  match ps with [] => ret tt | p :: ps' => free_all ps' ;;; kfree p end.

(** [argv] is the address of an array, its elements up to [argIndex] are [args]. *)
Definition CleanupArgEnv (argv : Z) (args : list Z) (env : Z) (envs : list Z) : S unit :=
  (if argv =? 0 then ret tt else free_all args ;;; kfree argv) ;;;
  (if env =? 0 then ret tt else free_all envs ;;; kfree env).

(** The pointers of a user array up to a null, read by [at]. [n] is their number so far, in a
    buffer for [max]; [lose] is what is freed when there is no memory, [undo] when the array
    cannot be read. The result is an error, or the buffer and its elements. *)
Fixpoint read_pointers (fuel : nat) (at_ : Z -> Z) (undo lose : Z -> S unit) (buf : Z) (n max : Z) (ptrs : list Z)
  : S (Z + Z * list Z) :=
  match fuel with
  | O => fail OutOfFuel
  | Datatypes.S fuel' =>
      let* (ok, arg) := call (UserRead (at_ n)) in
      if negb ok then undo buf ;;; ret (inl (- EFAULT)) else
      let* buf := (if n =? max then krealloc buf else ret buf) in
      if (n =? max) && (buf =? 0) then lose buf ;;; ret (inl (- ENOMEM)) else
      let max := if n =? max then max + 8 else max in
      contents buf ;;;
      if arg =? 0 then ret (inr (buf, ptrs)) else
      read_pointers fuel' at_ undo lose buf (n + 1) max (ptrs ++ [arg])
  end.

(** The strings of user pointers: the buffers so far when one cannot be read, or all. *)
Fixpoint read_strings (ptrs done : list Z) : S (list Z + list Z) :=
  match ptrs with
  | [] => ret (inr done)
  | p :: ptrs' =>
      let* (ok, buffer) := UserReadString p in
      if negb ok then ret (inl done) else read_strings ptrs' (done ++ [buffer])
  end.

(** The environment is read at the index [argc] in every round. The result is an error, or the
    two arrays with the buffers of their elements. *)
Definition CopyArgEnvFromUser (fuel : nat) (argv envv : Z) : S (Z + (Z * list Z) * (Z * list Z)) :=
  let* currentArgv := kmalloc in
  let* r := read_pointers fuel (fun argc => add64 argv (8 * argc)) kfree (fun _ => ret tt) currentArgv 0 8 [] in
  match r with
  | inl rc => ret (inl rc)
  | inr (currentArgv, args) =>
      let argc := Z.of_nat (length args) in
      let* currentEnv := kmalloc in
      let* r := read_pointers fuel (fun _ => add64 envv (8 * argc)) (fun e => kfree currentArgv ;;; kfree e)
                  (fun e => kfree e) currentEnv 0 8 [] in
      match r with
      | inl rc => ret (inl rc)
      | inr (currentEnv, envs) =>
          let* r := read_strings args [] in
          match r with
          | inl done => CleanupArgEnv currentArgv done currentEnv [] ;;; ret (inl (- EFAULT))
          | inr args =>
              let* r := read_strings envs [] in
              match r with
              | inl done => CleanupArgEnv currentArgv args currentEnv done ;;; ret (inl (- EFAULT))
              | inr envs => ret (inr ((currentArgv, args), (currentEnv, envs)))
              end
          end
      end
  end.

(** The strings of an array that ends at its first null. *)
Fixpoint strings (ps : list Z) : S (list (list Z)) :=
  match ps with
  | [] => ret []
  | p :: ps' => if p =? 0 then ret [] else let* l := contents p in let* r := strings ps' in ret (l :: r)
  end.

(** The parent's number and the parent, or none if the process with number 1 is gone as well. *)
Definition find_parent : S (option (Z * Z)) :=
  let* e := gets env in
  let parentPID := i64 (GetPPID e) in
  if parentPID <? 0 then ret (Some (parentPID, 0)) else
  if negb (GetProcess parentPID e =? 0) then ret (Some (parentPID, GetProcess parentPID e)) else
  if GetProcess 1 e =? 0 then ret None else ret (Some (1, GetProcess 1 e)).

(** An error, or the current thread has exited. *)
Definition sys_exec (fuel : nat) (path argv envp : Z) : S (option Z) :=
  if (path =? 0) || (argv =? 0) || (envp =? 0) then ret (Some (- EFAULT)) else
  let* par := find_parent in
  match par with
  | None => ret (Some (- ENOSYS))
  | Some (parentPID, parent) =>
      let* (ok, kPath) := UserReadString path in
      if negb ok then ret (Some (- EFAULT)) else
      let* r := CopyArgEnvFromUser fuel argv envp in
      match r with
      | inl rc => kfree kPath ;;; ret (Some rc)
      | inr ((kArgv, args), (kEnv, envs)) =>
          let* p := (if kPath =? 0 then ret None else let* l := contents kPath in ret (Some l)) in
          let* a := strings args in
          let* v := strings envs in
          let* (rc, newProc) := call (CreateELFProcess p parent a v) in
          kfree kPath ;;;
          CleanupArgEnv kArgv args kEnv envs ;;;
          if rc <? 0 then ret (Some rc) else
          modify (fun s => mk (bufs s) (nextbuf s) (exec_replace newProc parentPID (env s))) ;;;
          ret None
      end
  end.

(** ** Who owns the buffers *)

(** The buffers of [s] are those of [s0], as they were, and those of [L]. *)
Record own (s0 : state E) (L : list Z) (s : state E) : Prop := {
  own_old : forall a, a < nextbuf s0 -> bufs s !! a = bufs s0 !! a;
  own_new : forall a, nextbuf s0 <= a -> is_Some (bufs s !! a) <-> a ∈ L;
  own_range : forall a, a ∈ L -> nextbuf s0 <= a < nextbuf s;
  own_nodup : NoDup L;
  own_next : 0 < nextbuf s0 <= nextbuf s
}.

Definition wf_bufs (s : state E) : Prop := 0 < nextbuf s /\ forall a l, bufs s !! a = Some l -> a < nextbuf s.

Lemma own_start s : wf_bufs s -> own s [] s.
Proof.
  intros [Hp Hw]. split; [done| |set_solver|constructor|lia]. intros a Ha. split; [|set_solver].
  intros [l Hl]. apply Hw in Hl. lia.
Qed.

Lemma own_end s0 s : wf_bufs s0 -> own s0 [] s -> bufs s = bufs s0.
Proof.
  intros [_ Hw] [Ho Hn _ _ _]. apply map_eq. intros a. destruct (Z.lt_ge_cases a (nextbuf s0)) as [Ha|Ha]; [by apply Ho|].
  destruct (bufs s !! a) eqn:H1; [by destruct (not_elem_of_nil a); apply Hn; [|rewrite H1]|].
  destruct (bufs s0 !! a) eqn:H2; [|done]. apply Hw in H2. lia.
Qed.

#[local] Instance own_perm s0 : Proper ((≡ₚ) ==> (=) ==> iff) (own s0).
Proof.
  assert (forall L L', L ≡ₚ L' -> forall s, own s0 L s -> own s0 L' s) as Hp.
  { intros L L' HL s [Ho Hn Hr Hd Hx]. split; [done| | |by rewrite <- HL|done].
    - intros a Ha. rewrite Hn by done. by rewrite HL.
    - intros a Ha. apply Hr. by rewrite HL. }
  intros L L' HL s s' <-. split; apply Hp; [done|by symmetry].
Qed.

Section Rules.
Variable s0 : state E.

Lemma runs_call_own {A} (f : E -> A * E) L s (Q : A -> state E -> Prop) :
  own s0 L s -> (forall s', own s0 L s' -> Q (fst (f (env s))) s') -> runs (call f) s Q.
Proof.
  intros [Ho Hn Hr Hd Hx] HQ. destruct (f (env s)) as [a e] eqn:Hf.
  eapply runs_eq; [unfold call; rewrite Hf; done|]. apply HQ. by split.
Qed.

Lemma runs_kfree p L s (Q : unit -> state E -> Prop) :
  own s0 (p :: L) s -> (forall s', own s0 L s' -> Q tt s') -> runs (kfree p) s Q.
Proof.
  intros [Ho Hn Hr Hd Hx] HQ. apply NoDup_cons in Hd as [HpL Hd]. pose proof (Hr p ltac:(set_solver)) as Hp.
  destruct (proj2 (Hn p ltac:(lia)) ltac:(set_solver)) as [l Hl].
  eapply runs_eq; [unfold kfree; rewrite (proj2 (Z.eqb_neq p 0)) by lia; rewrite Hl; done|]. apply HQ. split; cbn [bufs nextbuf set_bufs].
  - intros a Ha. rewrite lookup_delete_ne by lia. by apply Ho.
  - intros a Ha. destruct (decide (p = a)) as [<-|Hne].
    + rewrite lookup_delete_eq. split; [by intros []|done].
    + rewrite lookup_delete_ne, Hn by done. set_solver.
  - intros a Ha. apply Hr. set_solver.
  - done.
  - done.
Qed.

Lemma runs_contents p L s (Q : list Z -> state E -> Prop) :
  own s0 L s -> p ∈ L -> (forall l, Q l s) -> runs (contents p) s Q.
Proof.
  intros [Ho Hn Hr Hd Hx] Hp HQ. pose proof (Hr _ Hp). destruct (proj2 (Hn p ltac:(lia)) Hp) as [l Hl].
  eapply runs_eq; [unfold contents; rewrite Hl; done|done].
Qed.

Lemma runs_fill p l L s (Q : unit -> state E -> Prop) :
  own s0 L s -> p ∈ L -> (forall s', own s0 L s' -> Q tt s') -> runs (fill p l) s Q.
Proof.
  intros HL Hp HQ. apply runs_bind, (runs_contents _ L); [done|done|]. intros _. apply runs_modify, HQ.
  destruct HL as [Ho Hn Hr Hd Hx]. pose proof (Hr _ Hp). split; cbn [bufs nextbuf set_bufs]; [|intros a Ha|done|done|done].
  - intros a Ha. rewrite lookup_insert_ne by lia. by apply Ho.
  - destruct (decide (p = a)) as [<-|Hne]; [|by rewrite lookup_insert_ne, Hn].
    rewrite lookup_insert_eq. split; [done|by eexists].
Qed.

Lemma free_all_runs ps : forall L s (Q : unit -> state E -> Prop),
  own s0 (ps ++ L) s -> (forall s', own s0 L s' -> Q tt s') -> runs (free_all ps) s Q.
Proof.
  induction ps as [|p ps IH]; intros L s Q HL HQ; cbn [free_all app] in *; [by apply runs_ret, HQ|].
  apply runs_bind, (IH (p :: L)); [by rewrite <- Permutation_middle|]. intros s1 H1. by apply (runs_kfree p L).
Qed.

Lemma CleanupArgEnv_runs argv args env envs s (Q : unit -> state E -> Prop) L :
  own s0 (argv :: args ++ env :: envs ++ L) s -> (forall s', own s0 L s' -> Q tt s') -> runs (CleanupArgEnv argv args env envs) s Q.
Proof.
  intros HL HQ. pose proof HL as [_ _ Hr _ Hx].
  pose proof (Hr argv ltac:(set_solver)) as Ha. pose proof (Hr env ltac:(set_solver)) as He. unfold CleanupArgEnv.
  rewrite (proj2 (Z.eqb_neq argv 0)), (proj2 (Z.eqb_neq env 0)) by lia.
  apply runs_bind, runs_bind, (free_all_runs _ (argv :: env :: envs ++ L)); [by rewrite <- Permutation_middle|]. intros s1 H1.
  apply (runs_kfree argv (env :: envs ++ L)); [done|]. intros s2 H2.
  apply runs_bind, (free_all_runs _ (env :: L)); [by rewrite <- Permutation_middle|]. intros s3 H3.
  by apply (runs_kfree env L).
Qed.

Lemma strings_runs ps : forall L s (Q : list (list Z) -> state E -> Prop),
  own s0 L s -> (forall p, p ∈ ps -> p ∈ L) -> (forall r, Q r s) -> runs (strings ps) s Q.
Proof.
  induction ps as [|p ps IH]; intros L s Q HL Hp HQ; cbn [strings]; [by apply runs_ret|].
  destruct (p =? 0); [by apply runs_ret|]. apply runs_bind, (runs_contents _ L); [done|apply Hp; set_solver|]. intros l.
  apply runs_bind, (IH L); [done|intros q Hq; apply Hp; set_solver|]. intros r. by apply runs_ret.
Qed.

Hypothesis enough : forall e : E, fst (can_alloc e) = true.

Lemma runs_kmalloc L s (Q : Z -> state E -> Prop) :
  own s0 L s -> (forall p s', p <> 0 -> own s0 (p :: L) s' -> Q p s') -> runs kmalloc s Q.
Proof.
  intros HL HQ. apply runs_bind. apply (runs_call_own _ L); [done|]. intros s1 [Ho Hn Hr Hd Hx]. rewrite enough.
  eapply runs_eq; [done|]. apply HQ; [lia|]. split; cbn [bufs nextbuf].
  - intros a Ha. rewrite lookup_insert_ne by lia. by apply Ho.
  - intros a Ha. destruct (decide (nextbuf s1 = a)) as [<-|Hne].
    + rewrite lookup_insert_eq. split; [set_solver|by eexists].
    + rewrite lookup_insert_ne, Hn by done. set_solver.
  - intros a [->|Ha]%elem_of_cons; [lia|]. apply Hr in Ha. lia.
  - constructor; [|done]. intros Ha%Hr. lia.
  - lia.
Qed.

Lemma runs_krealloc p L s (Q : Z -> state E -> Prop) :
  own s0 (p :: L) s -> (forall q s', q <> 0 -> own s0 (q :: L) s' -> Q q s') -> runs (krealloc p) s Q.
Proof.
  intros HL HQ. apply runs_bind, (runs_contents _ (p :: L)); [done|set_solver|]. intros l.
  apply runs_bind, (runs_kmalloc (p :: L)); [done|]. intros q s1 Hq H1. rewrite (proj2 (Z.eqb_neq q 0)) by done.
  apply runs_bind, (runs_fill _ _ (q :: p :: L)); [done|set_solver|]. intros s2 H2.
  apply runs_bind, (runs_kfree p (q :: L)); [by rewrite Permutation_swap in H2|]. intros s3 H3. by apply runs_ret, HQ.
Qed.

Lemma UserReadString_runs u L s (Q : bool * Z -> state E -> Prop) :
  own s0 L s -> (forall b s', b <> 0 -> own s0 (b :: L) s' -> Q (true, b) s') -> (forall s', own s0 L s' -> Q (false, 0) s') ->
  runs (UserReadString u) s Q.
Proof.
  intros HL HT HF. unfold UserReadString. destruct (u =? 0); [by apply runs_ret, HF|].
  apply runs_bind, (runs_kmalloc L); [done|]. intros b s1 Hb H1.
  apply runs_bind, (runs_call_own _ (b :: L)); [done|]. intros s2 H2. destruct (fst _) as [ok block].
  apply runs_bind. eapply (runs_mono _ _ (fun _ s' => own s0 (b :: L) s')).
  { case_bool_decide; [by apply runs_ret|]. apply (runs_fill _ _ (b :: L)); [done|set_solver|done]. }
  intros _ s3 H3. destruct ok; [by apply runs_ret, HT|]. destruct (_ =? 64).
  - apply runs_bind, (runs_krealloc b L); [done|]. intros q s4 Hq H4. by apply runs_ret, HT.
  - apply runs_bind, (runs_kfree b L); [done|]. intros s4 H4. by apply runs_ret, HF.
Qed.

Lemma read_strings_runs ptrs : forall fin L s (Q : list Z + list Z -> state E -> Prop),
  own s0 (fin ++ L) s -> (forall d s', own s0 (d ++ L) s' -> Q (inl d) s') -> (forall d s', own s0 (d ++ L) s' -> Q (inr d) s') ->
  runs (read_strings ptrs fin) s Q.
Proof.
  induction ptrs as [|p ptrs IH]; intros fin L s Q HL Hl Hr; cbn [read_strings]; [by apply runs_ret, Hr|].
  apply runs_bind, (UserReadString_runs _ (fin ++ L)); [done| |].
  - intros b s1 _ H1. cbn [negb]. apply (IH _ L); [|done|done]. rewrite <- app_assoc. cbn [app]. by rewrite <- Permutation_middle.
  - intros s1 H1. cbn [negb]. by apply runs_ret, Hl.
Qed.

(** What user memory holds at an address does not change: whether it can be read, and the pointer. *)
Variable user : Z -> bool * Z.
Hypothesis stable : forall a e, fst (UserRead a e) = user a.

Definition stops (a : Z) : Prop := fst (user a) = false \/ snd (user a) = 0.

(** Room for one more element. *)
Lemma grow_runs (buf n max : Z) L s : own s0 (buf :: L) s ->
  runs (if n =? max then krealloc buf else ret buf) s (fun b s' => b <> 0 /\ own s0 (b :: L) s').
Proof.
  intros HL. destruct (n =? max).
  - by apply (runs_krealloc buf L).
  - apply runs_ret. split; [|done]. pose proof HL as [_ _ Hr _ Hx]. pose proof (Hr buf ltac:(set_solver)). lia.
Qed.

(** [k] rounds are left. *)
Lemma read_pointers_runs k : forall fuel at_ undo lose buf n max ptrs L K s (Q : Z + Z * list Z -> state E -> Prop),
  own s0 (buf :: L) s -> (k < fuel)%nat -> (forall i : nat, (i < k)%nat -> ~ stops (at_ (n + Z.of_nat i))) ->
  stops (at_ (n + Z.of_nat k)) ->
  (forall b s1, own s0 (b :: L) s1 -> runs (undo b) s1 (fun _ s2 => own s0 K s2)) ->
  (forall s', own s0 K s' -> Q (inl (- EFAULT)) s') ->
  (forall b l s', own s0 (b :: L) s' -> length l = (length ptrs + k)%nat -> Q (inr (b, l)) s') ->
  runs (read_pointers fuel at_ undo lose buf n max ptrs) s Q.
Proof.
  induction k as [|k IH]; intros [|fuel] at_ undo lose buf n max ptrs L K s Q HL Hf Hgo Hst Hundo Herr Hok; try lia;
    cbn [read_pointers]; apply runs_bind, (runs_call_own _ (buf :: L)); [done| |done|]; intros s1 HL1; rewrite stable.
  - rewrite Z.add_0_r in Hst. unfold stops in Hst. destruct (user (at_ n)) as [ok arg]. destruct ok; cbn [negb].
    2:{ apply runs_bind. eapply runs_mono; [by apply Hundo|]. intros [] s2 HK. by apply runs_ret, Herr. }
    assert (arg = 0) as -> by (by destruct Hst).
    apply runs_bind. eapply runs_mono; [by apply grow_runs|]. intros b s2 [Hb HL2]. rewrite (proj2 (Z.eqb_neq b 0)), andb_false_r by done.
    apply runs_bind, (runs_contents _ (b :: L)); [done|set_solver|]. intros _. cbn [Z.eqb]. apply runs_ret, Hok; [done|lia].
  - pose proof (Hgo 0%nat ltac:(lia)) as Hn. rewrite Z.add_0_r in Hn. unfold stops in Hn.
    destruct (user (at_ n)) as [ok arg]. cbn in Hn. destruct ok; [|by destruct Hn; left]. cbn [negb].
    apply runs_bind. eapply runs_mono; [by apply grow_runs|]. intros b s2 [Hb HL2]. rewrite (proj2 (Z.eqb_neq b 0)), andb_false_r by done.
    apply runs_bind, (runs_contents _ (b :: L)); [done|set_solver|]. intros _.
    rewrite (proj2 (Z.eqb_neq arg 0)) by (intros ->; apply Hn; by right).
    apply (IH _ _ _ _ _ _ _ _ L K); [done|lia| | |done|done|].
    + intros i Hi. specialize (Hgo (Datatypes.S i) ltac:(lia)). by replace (n + 1 + Z.of_nat i) with (n + Z.of_nat (Datatypes.S i)) by lia.
    + by replace (n + 1 + Z.of_nat k) with (n + Z.of_nat (Datatypes.S k)) by lia.
    + intros b' l s' HL' Hl. apply Hok; [done|]. rewrite length_app in Hl. cbn in Hl. lia.
Qed.

(** The arguments end at [argc], and the entry of the environment with that index ends it. *)
Record ends (argv envv : Z) (argc : nat) : Prop := {
  ends_args : forall i : nat, (i < argc)%nat -> ~ stops (add64 argv (8 * Z.of_nat i));
  ends_argc : stops (add64 argv (8 * Z.of_nat argc));
  ends_env : stops (add64 envv (8 * Z.of_nat argc))
}.

Lemma arrays_perm (a v : Z) (args envs L : list Z) : envs ++ args ++ v :: a :: L ≡ₚ a :: args ++ v :: envs ++ L.
Proof.
  rewrite (Permutation_app_comm envs), <- app_assoc. cbn [app]. rewrite <- !Permutation_middle.
  rewrite Permutation_swap. by rewrite (Permutation_app_comm L).
Qed.

Lemma CopyArgEnvFromUser_runs fuel argv envv argc L s (Q : Z + (Z * list Z) * (Z * list Z) -> state E -> Prop) :
  own s0 L s -> (argc < fuel)%nat -> ends argv envv argc ->
  (forall s', own s0 L s' -> Q (inl (- EFAULT)) s') ->
  (forall a args v envs s', own s0 (a :: args ++ v :: envs ++ L) s' -> Q (inr ((a, args), (v, envs))) s') ->
  runs (CopyArgEnvFromUser fuel argv envv) s Q.
Proof.
  intros HL Hf [Hgo Hst Henv] Herr Hok. apply runs_bind, (runs_kmalloc L); [done|]. intros a s1 _ HL1.
  apply runs_bind, (read_pointers_runs argc _ _ _ _ _ _ _ _ L L); [done|done|done|done| |by intros s' HL'; apply runs_ret, Herr|].
  { intros b s2 HL2. by apply (runs_kfree b L). }
  intros a' args s2 HL2 Hargs. cbn in Hargs. rewrite Hargs.
  apply runs_bind, (runs_kmalloc (a' :: L)); [done|]. intros v s3 _ HL3.
  apply runs_bind, (read_pointers_runs 0 _ _ _ _ _ _ _ _ (a' :: L) L); [done|lia|lia|done| |by intros s' HL'; apply runs_ret, Herr|].
  { intros b s4 HL4. apply runs_bind, (runs_kfree a' (b :: L)); [by rewrite Permutation_swap in HL4|].
    intros s5 HL5. by apply (runs_kfree b L). }
  intros v' envs s4 HL4 _. apply runs_bind, (read_strings_runs _ _ (v' :: a' :: L)); [done| |].
  - intros d s5 HL5. apply runs_bind, (CleanupArgEnv_runs _ _ _ _ _ _ L); [|by intros s6 HL6; apply runs_ret, Herr].
    cbn [app]. rewrite Permutation_swap in HL5. by rewrite <- Permutation_middle in HL5.
  - intros d s5 HL5. apply runs_bind, (read_strings_runs _ _ (d ++ v' :: a' :: L)); [done| |].
    + intros d' s6 HL6. apply runs_bind, (CleanupArgEnv_runs _ _ _ _ _ _ L); [|by intros s7 HL7; apply runs_ret, Herr].
      by rewrite <- arrays_perm.
    + intros d' s6 HL6. apply runs_ret, Hok. by rewrite <- arrays_perm.
Qed.

End Rules.

(** As long as there is memory, and the arguments and the environment end where they are looked
    at, [sys_exec] comes to an end, with an error or with the new program in place; it has then
    freed every buffer it took, and has freed or changed no other one. *)
Theorem sys_exec_frees s0 user fuel path argv envp argc :
  wf_bufs s0 -> (forall e : E, fst (can_alloc e) = true) -> (forall a (e : E), fst (UserRead a e) = user a) ->
  ends user argv envp argc -> (argc < fuel)%nat ->
  runs (sys_exec fuel path argv envp) s0 (fun r s => bufs s = bufs s0 /\ (forall rc, r = Some rc -> rc < 0)).
Proof.
  intros Hwf He Hu Hends Hf. pose proof (own_start _ Hwf) as HL.
  assert (forall s rc, own s0 [] s -> rc < 0 -> bufs s = bufs s0 /\ (forall rc', Some rc = Some rc' -> rc' < 0)) as Herr.
  { intros s rc Ho Hrc. split; [by apply own_end|]. by intros rc' [= <-]. }
  unfold sys_exec. destruct (_ || _); [apply runs_ret; by apply Herr|].
  apply runs_bind. eapply (runs_mono _ _ (fun _ s => s = s0)).
  { unfold find_parent. mgo. destruct (_ <? _); [by apply runs_ret|]. destruct (negb _); [by apply runs_ret|].
    destruct (_ =? 0); by apply runs_ret. }
  intros [[parentPID parent]|] s ->; [|apply runs_ret; by apply Herr].
  apply runs_bind, (UserReadString_runs s0 He _ []); [done| |intros s1 HL1; cbn [negb]; apply runs_ret; by apply Herr].
  intros kPath s1 Hk HL1. cbn [negb]. apply runs_bind, (CopyArgEnvFromUser_runs s0 He user Hu _ _ _ argc [kPath]); [done|done|done| |].
  { intros s2 HL2. apply runs_bind, (runs_kfree s0 kPath []); [done|]. intros s3 HL3. apply runs_ret. by apply Herr. }
  intros a args v envs s2 HL2. rewrite (proj2 (Z.eqb_neq kPath 0)) by done.
  apply runs_bind, runs_bind. eapply runs_contents; [exact HL2|set_solver|]. intros l. apply runs_ret.
  apply runs_bind. eapply strings_runs; [exact HL2|set_solver|]. intros al.
  apply runs_bind. eapply strings_runs; [exact HL2|set_solver|]. intros vl.
  apply runs_bind. eapply runs_call_own; [exact HL2|]. intros s3 HL3. destruct (fst _) as [rc newProc].
  apply runs_bind, (runs_kfree s0 kPath (a :: args ++ v :: envs)).
  { rewrite app_comm_cons, (app_comm_cons envs [kPath] v), app_assoc in HL3. by rewrite Permutation_app_comm in HL3. }
  intros s4 HL4. apply runs_bind, (CleanupArgEnv_runs s0 _ _ _ _ _ _ []); [by rewrite app_nil_r|].
  intros s5 HL5. destruct (Z.ltb_spec rc 0); [apply runs_ret; by apply Herr|].
  apply runs_bind, runs_modify, runs_ret. cbn [bufs]. split; [by apply own_end|done].
Qed.
End Ops.

(** ** Concrete runs *)

(** User memory: pointers at addresses; every string is [x]. What was loaded is recorded. *)
Record demo : Set := mkDemo { pointers : list (Z * Z); loaded : list (nat * nat) }.

Definition demo_user (l : list (Z * Z)) (a : Z) : bool * Z :=
  match list_find (fun kv => kv.1 = a) l with Some (_, kv) => (true, kv.2) | None => (false, 0) end.

#[local] Instance demo_kernel : Kernel demo := {|
  can_alloc := fun e => (true, e);
  UserRead := fun a e => (demo_user (pointers e) a, e);
  CopyStringFromUser := fun _ _ e => ((true, [120; 0]), e);
  GetPPID := fun _ => 0;
  GetProcess := fun _ _ => 7;
  CreateELFProcess := fun _ _ args envs e => ((0, 9), mkDemo (pointers e) (loaded e ++ [(length args, length envs)]));
  exec_replace := fun _ _ e => e
|}.

(** One argument at 64; an environment of two strings at 96. *)
Definition demo_pointers : list (Z * Z) := [(64, 256); (72, 0); (96, 512); (104, 0)].
Definition demo_env : list (Z * Z) := [(64, 256); (72, 0); (96, 512); (104, 513); (112, 0)].
Definition demo_state (l : list (Z * Z)) : state demo := mk ∅ 1 (mkDemo l []).

(** The environment is looked up at the index after the last argument: here its one string is
    not passed on. *)
Example exec_loses_environment :
  match sys_exec 5 32 64 96 (demo_state demo_pointers) with Ok (r, s) => r = None /\ loaded (env s) = [(1%nat, 0%nat)] | Fail _ => False end.
Proof. vm_compute. split; reflexivity. Qed.

(** With one string more the same entry is read again and again. *)
Example exec_spins : sys_exec 1000 32 64 96 (demo_state demo_env) = Fail OutOfFuel.
Proof. vm_compute. reflexivity. Qed.
End Exec.
