(* ===== verification/Time.v ===== *)
(** * Time.v: clocks (src/kernel/src/HAL/Time.cpp, HAL/drivers/HPET.cpp, arch/x86_64/CMOS.cpp)

    The date and the time of day are read from the registers of the CMOS clock, which are given
    by what the successive reads return; the ticks of the HPET likewise. The interrupt flag,
    which is off during a read, is left out.

    Shown: the number of days since 1970 agrees with counting days one by one in the Gregorian
    calendar, and the time that is computed from the registers of a clock in its 24-hour mode
    is the time the clock shows. *)

From S2P Require Import Prelude.

#[local] Open Scope Z_scope.
#[local] Open Scope kernel_scope.

Module Time.

(** ** Dates *)

(** [DaysSinceUnixEpoch]: [int32_t year, uint8_t month, uint8_t day]. *)
Definition DaysSinceUnixEpoch (year month day : Z) : Z :=
  let year := i32 (year - (if month <=? 2 then 1 else 0)) in
  let era := Z.quot (if 0 <=? year then year else i32 (year - 399)) 400 in
  let yoe := u32 (i32 (year - i32 (era * 400))) in
  let doy := u32 (Z.quot (153 * (if 2 <? month then month - 3 else month + 9) + 2) 5 + day - 1) in
  let doe := u32 (u32 (yoe * 365) + yoe / 4 - yoe / 100 + doy) in
  i32 (i32 (i32 (era * 146097) + i32 doe) - 719468).

Record TimeOfDay : Set := mkTime {
  seconds : Z;
  minutes : Z;
  hours : Z;
  dayOfMonth : Z;
  month : Z;
  year : Z
}.

(** ** CMOS.cpp *)

Definition reg_Seconds : Z := 0.
Definition reg_Minutes : Z := 2.
Definition reg_Hours : Z := 4.
Definition reg_DayOfMonth : Z := 7.
Definition reg_Month : Z := 8.
Definition reg_Year : Z := 9.
Definition reg_StatusA : Z := 10.
Definition reg_StatusB : Z := 11.
Definition reg_Century : Z := 255.

(** What the [k]-th read gives for a register, and how many reads there have been; then the
    variables of the driver. *)
Record clock : Type := mkClock {
  device : nat -> Z -> Z;
  reads : nat;
  g_hasCMOS : bool;
  CMOS_CENTURY_REG : Z;
  g_CMOSFlags : Z
}.

Definition ReadCMOS (reg : Z) : M clock Z := fun c =>
  let reg := if reg =? reg_Century then CMOS_CENTURY_REG c else reg in
  Ok (device c (reads c) reg, mkClock (device c) (S (reads c)) (g_hasCMOS c) (CMOS_CENTURY_REG c) (g_CMOSFlags c)).

Definition InitCMOS (centuryReg : Z) : M clock unit :=
  modify (fun c => mkClock (device c) (reads c) (g_hasCMOS c) centuryReg (g_CMOSFlags c)) ;;;
  let* flags := ReadCMOS reg_StatusB in
  modify (fun c => mkClock (device c) (reads c) true (CMOS_CENTURY_REG c) flags).

Definition from_bcd (value : Z) : Z := (Z.land value 15 + Z.shiftr value 4 * 10) mod 256.

Definition ReadCMOSMaybeBCD (reg : Z) : M clock Z :=
  let* value := ReadCMOS reg in
  let* flags := gets g_CMOSFlags in
  if negb (Z.land flags 4 =? 0) then ret value else ret (from_bcd value).

(** While an update of the registers is in progress. *)
Fixpoint wait_update (fuel : nat) : M clock unit :=
  match fuel with
  | O => fail OutOfFuel
  | S fuel' => let* val := ReadCMOS reg_StatusA in if Z.land val 128 =? 0 then ret tt else wait_update fuel'
  end.

(** The hours of a 12-hour clock are doubled after noon. *)
Definition decode_hours (flags hours : Z) : Z :=
  if Z.land flags 2 =? 0 then
    let pm := negb (Z.land hours 128 =? 0) in
    let hours := Z.land hours 127 in
    let hours := if Z.land flags 4 =? 0 then from_bcd hours else hours in
    let hours := hours * (if pm then 2 else 1) mod 256 in
    if hours =? 24 then 0 else hours
  else if Z.land flags 4 =? 0 then from_bcd hours else hours.

Definition CMOSGetTimeOfDay (fuel : nat) : M clock (option TimeOfDay) :=
  let* has := gets g_hasCMOS in
  if negb has then ret None else
  wait_update fuel ;;;
  let* seconds := ReadCMOSMaybeBCD reg_Seconds in
  let* minutes := ReadCMOSMaybeBCD reg_Minutes in
  let* hours := ReadCMOS reg_Hours in
  let* dayOfMonth := ReadCMOSMaybeBCD reg_DayOfMonth in
  let* month := ReadCMOSMaybeBCD reg_Month in
  let* year := ReadCMOSMaybeBCD reg_Year in
  let* centuryReg := gets CMOS_CENTURY_REG in
  let* century := (if negb (centuryReg =? 0) then ReadCMOSMaybeBCD centuryReg else ret 20) in
  let* flags := gets g_CMOSFlags in
  ret (Some (mkTime seconds minutes (decode_hours flags hours) dayOfMonth month (year + century * 100))).

(** [INT64_MAX] *)
Definition NO_TIME : Z := 2 ^ 63 - 1.

Definition HAL_GetUnixEpochTime (fuel : nat) : M clock Z :=
  let* r := CMOSGetTimeOfDay fuel in
  match r with
  | None => ret NO_TIME
  | Some t =>
      let days := DaysSinceUnixEpoch (year t) (month t) (dayOfMonth t) in
      ret (days * 86400 + hours t * 3600 + minutes t * 60 + seconds t)
  end.

(** ** HPET.cpp *)

Record HPET : Set := mkHPET { m_period : Z; m_nsperiod : Z; m_freq : Z }.

(** From the period in femtoseconds; a period below a nanosecond fails an assertion. *)
Definition HPET_Init (period : Z) : option HPET :=
  let nsperiod := period / 1000000 in
  if 0 <? nsperiod then Some (mkHPET period nsperiod (1000000000000000 / period)) else None.
Definition GetNSTicks (h : HPET) (counter : Z) : Z := mul64 (m_nsperiod h) counter.

(** ** HAL/Time.cpp *)

(** What the [k]-th read of the clocks gives: the counter of the HPET, if there is one, and the
    ticks in milliseconds. *)
Record timer : Type := mkTimer {
  g_HPET : option HPET;
  counter : nat -> Z;
  g_HALTimerTicks : nat -> Z;
  g_HALTimeReady : bool;
  looks : nat
}.

Definition look (f : nat -> Z) : M timer Z := fun t =>
  Ok (f (looks t), mkTimer (g_HPET t) (counter t) (g_HALTimerTicks t) (g_HALTimeReady t) (S (looks t))).

(** The two clocks, as [HAL_SleepNS] reads them: nanoseconds or milliseconds. *)
Definition sleep_clock : M timer Z :=
  let* h := gets g_HPET in
  match h with
  | Some h => let* c := gets counter in look (fun k => GetNSTicks h (c k))
  | None => let* c := gets g_HALTimerTicks in look c
  end.

Definition HAL_GetNSTicks : M timer Z :=
  let* h := gets g_HPET in
  match h with
  | Some h => let* c := gets counter in look (fun k => GetNSTicks h (c k))
  | None => let* c := gets g_HALTimerTicks in let* t := look c in ret (mul64 t 1000000)
  end.

Fixpoint wait_until (fuel : nat) (end_ : Z) : M timer unit :=
  match fuel with
  | O => fail OutOfFuel
  | S fuel' => let* now := sleep_clock in if now <? end_ then wait_until fuel' end_ else ret tt
  end.

Definition HAL_SleepNS (fuel : nat) (ns : Z) : M timer unit :=
  let* ready := gets g_HALTimeReady in
  if negb ready then ret tt else
  let* h := gets g_HPET in
  let* now := sleep_clock in
  wait_until fuel (add64 now (match h with Some _ => ns | None => DIV_ROUNDUP ns 1000000 end)).

(** While the scheduler does not run yet. *)
Definition HAL_Sleep_early (fuel : nat) (ms : Z) : M timer unit := HAL_SleepNS fuel (mul64 ms 100000).

(** ** The calendar *)

Definition leap (y : Z) : bool := (y mod 4 =? 0) && (negb (y mod 100 =? 0) || (y mod 400 =? 0)).
Definition days_in (y m : Z) : Z :=
  if m =? 2 then (if leap y then 29 else 28) else
  if (m =? 4) || (m =? 6) || (m =? 9) || (m =? 11) then 30 else 31.

Record date : Set := mkDate { d_year : Z; d_month : Z; d_day : Z }.

Definition valid (d : date) : Prop := 1 <= d_month d <= 12 /\ 1 <= d_day d <= days_in (d_year d) (d_month d).

Definition next_day (d : date) : date :=
  if d_day d <? days_in (d_year d) (d_month d) then mkDate (d_year d) (d_month d) (d_day d + 1) else
  if d_month d <? 12 then mkDate (d_year d) (d_month d + 1) 1 else mkDate (d_year d + 1) 1 1.

(** The [n]-th day after 1 January 1970, day by day. *)
Definition day_number (n : nat) : date := Nat.iter n next_day (mkDate 1970 1 1).

(** The days without overflow. *)
Definition civil (y m d : Z) : Z :=
  let y := y - (if m <=? 2 then 1 else 0) in
  365 * y + y / 4 - y / 100 + y / 400 + (153 * (if 2 <? m then m - 3 else m + 9) + 2) / 5 + d - 1 - 719468.

Lemma u32_small x : 0 <= x < 2 ^ 32 -> u32 x = x.
Proof. apply Z.mod_small. Qed.

Lemma DaysSinceUnixEpoch_civil y m d : 1 <= y <= 5000000 -> 1 <= m <= 12 -> 1 <= d <= 31 ->
  DaysSinceUnixEpoch y m d = civil y m d.
Proof.
  intros Hy Hm Hd. unfold DaysSinceUnixEpoch, civil. cbv zeta.
  set (y' := y - (if m <=? 2 then 1 else 0)). assert (0 <= y' <= 5000000) as Hy' by (unfold y'; destruct (m <=? 2); lia).
  set (mp := if 2 <? m then m - 3 else m + 9). assert (0 <= mp <= 11) as Hmp.
  { unfold mp. destruct (Z.ltb_spec 2 m); lia. }
  rewrite (i32_small y') by lia. rewrite (proj2 (Z.leb_le 0 y')) by lia. rewrite !Z.quot_div_nonneg by lia.
  set (era := y' / 400). assert (400 * era <= y' < 400 * era + 400) as He by (unfold era; zlia).
  rewrite (i32_small (era * 400)) by lia. rewrite (i32_small (y' - era * 400)) by lia.
  set (yoe := y' - era * 400). rewrite (u32_small yoe) by (unfold yoe; lia).
  rewrite (u32_small (yoe * 365)) by (unfold yoe; lia).
  set (doy := (153 * mp + 2) / 5 + d - 1). assert (0 <= doy <= 400) as Hdoy by (unfold doy; zlia).
  rewrite (u32_small doy) by lia.
  assert (0 <= yoe * 365 + yoe / 4 - yoe / 100 + doy < 150000) as Hdoe by (unfold yoe in *; zlia).
  set (doe := yoe * 365 + yoe / 4 - yoe / 100 + doy) in *.
  rewrite (u32_small doe), (i32_small doe), (i32_small (era * 146097)), (i32_small (era * 146097 + doe)), i32_small by lia.
  unfold doe.
  assert (yoe / 4 = y' / 4 - 100 * era) as -> by (unfold yoe; zlia).
  assert (yoe / 100 = y' / 100 - 4 * era) as -> by (unfold yoe; zlia).
  unfold yoe, era, doy. lia.
Qed.

(** A leap year is one day longer. *)
Lemma leap_step y : y / 4 - y / 100 + y / 400 = (y - 1) / 4 - (y - 1) / 100 + (y - 1) / 400 + (if leap y then 1 else 0).
Proof.
  unfold leap. destruct (Z.eqb_spec (y mod 4) 0), (Z.eqb_spec (y mod 100) 0), (Z.eqb_spec (y mod 400) 0); cbn [andb orb negb]; zlia.
Qed.

Lemma month_cases m : 1 <= m <= 12 -> m ∈ [1; 2; 3; 4; 5; 6; 7; 8; 9; 10; 11; 12].
Proof. intros Hm. rewrite !elem_of_cons. lia. Qed.

Lemma days_in_bounds y m : 28 <= days_in y m <= 31.
Proof. unfold days_in. destruct (m =? 2), (leap y), (m =? 4), (m =? 6), (m =? 9), (m =? 11); cbn; lia. Qed.

Lemma next_day_valid d : valid d -> valid (next_day d).
Proof.
  intros [Hm Hd]. unfold next_day. destruct (Z.ltb_spec (d_day d) (days_in (d_year d) (d_month d))); [split; cbn; lia|].
  pose proof (days_in_bounds (d_year d) (d_month d + 1)). pose proof (days_in_bounds (d_year d + 1) 1).
  destruct (Z.ltb_spec (d_month d) 12); split; cbn [d_year d_month d_day]; lia.
Qed.

Definition civil_date (d : date) : Z := civil (d_year d) (d_month d) (d_day d).

(** Comparisons of constants. *)
Ltac compare :=
  repeat match goal with
  | |- context [?a <? ?b] => let v := eval vm_compute in (a <? b) in change (a <? b) with v
  | |- context [?a <=? ?b] => let v := eval vm_compute in (a <=? b) in change (a <=? b) with v
  | |- context [?a =? ?b] => let v := eval vm_compute in (a =? b) in change (a =? b) with v
  end.

Lemma civil_next d : valid d -> civil_date (next_day d) = civil_date d + 1.
Proof.
  destruct d as [y m d]. intros [Hm Hd]. cbn [d_year d_month d_day] in *. unfold next_day, civil_date. cbn [d_year d_month d_day].
  destruct (Z.ltb_spec d (days_in y m)) as [Hlt|Hge]; cbn [d_year d_month d_day]; [unfold civil; lia|].
  assert (d = days_in y m) as -> by lia. clear Hd Hge. pose proof (leap_step y) as Hl. unfold civil, days_in.
  apply month_cases in Hm. rewrite !elem_of_cons, elem_of_nil in Hm. destruct_or! Hm; try done; subst m;
    compare; cbn [orb]; cbv iota; compare; cbv iota; cbn [d_year d_month d_day]; compare; cbv iota;
    rewrite ?Z.sub_0_r, ?Z.add_simpl_r; destruct (leap y); zlia.
Qed.

Lemma day_number_valid n : valid (day_number n).
Proof. induction n as [|n IH]; [split; cbn; lia|]. by apply next_day_valid. Qed.

Lemma civil_day_number n : civil_date (day_number n) = Z.of_nat n.
Proof.
  induction n as [|n IH]; [reflexivity|]. change (day_number (S n)) with (next_day (day_number n)).
  rewrite civil_next by apply day_number_valid. rewrite IH. lia.
Qed.

Lemma day_number_year n : 1970 <= d_year (day_number n).
Proof.
  induction n as [|n IH]; [cbn; lia|]. change (day_number (S n)) with (next_day (day_number n)). unfold next_day.
  destruct (_ <? _); [done|]. destruct (_ <? _); cbn; lia.
Qed.

Lemma year_bound n : Z.of_nat n <= 1800000000 -> d_year (day_number n) <= 5000000.
Proof.
  intros Hn. pose proof (civil_day_number n) as Hc. pose proof (day_number_valid n) as [Hm Hd]. pose proof (day_number_year n).
  unfold civil_date, civil in Hc. destruct (d_month _ <=? 2), (2 <? d_month _); zlia.
Qed.

(** The days since 1970 are the number of steps in the calendar, for about five million years. *)
Theorem DaysSinceUnixEpoch_counts n : Z.of_nat n <= 1800000000 ->
  DaysSinceUnixEpoch (d_year (day_number n)) (d_month (day_number n)) (d_day (day_number n)) = Z.of_nat n.
Proof.
  intros Hn. pose proof (day_number_valid n) as [Hm Hd]. pose proof (day_number_year n). pose proof (year_bound n Hn).
  pose proof (days_in_bounds (d_year (day_number n)) (d_month (day_number n))).
  rewrite DaysSinceUnixEpoch_civil by lia. apply civil_day_number.
Qed.

(** ** What the clock shows *)

Definition to_bcd (v : Z) : Z := 16 * (v / 10) + v mod 10.
Definition enc (bcd : bool) (v : Z) : Z := if bcd then to_bcd v else v.

Lemma from_to_bcd v : 0 <= v < 100 -> from_bcd (to_bcd v) = v.
Proof.
  intros Hv. unfold from_bcd, to_bcd. change 15 with (Z.ones 4). rewrite Z.land_ones, Z.shiftr_div_pow2 by lia.
  change (2 ^ 4) with 16. zlia.
Qed.

(** A clock in its 24-hour mode that shows [t] once it has been found busy [busy] times. *)
Record shows (c : clock) (bcd : bool) (t : TimeOfDay) (busy : nat) : Prop := {
  shows_there : g_hasCMOS c = true;
  shows_mode : Z.land (g_CMOSFlags c) 4 = (if bcd then 0 else 4) /\ Z.land (g_CMOSFlags c) 2 <> 0;
  shows_busy : forall i, (i < busy)%nat -> Z.land (device c (reads c + i) reg_StatusA) 128 <> 0;
  shows_ready : Z.land (device c (reads c + busy) reg_StatusA) 128 = 0;
  shows_seconds k : (reads c + busy < k)%nat -> device c k reg_Seconds = enc bcd (seconds t);
  shows_minutes k : (reads c + busy < k)%nat -> device c k reg_Minutes = enc bcd (minutes t);
  shows_hours k : (reads c + busy < k)%nat -> device c k reg_Hours = enc bcd (hours t);
  shows_day k : (reads c + busy < k)%nat -> device c k reg_DayOfMonth = enc bcd (dayOfMonth t);
  shows_month k : (reads c + busy < k)%nat -> device c k reg_Month = enc bcd (month t);
  shows_year k : (reads c + busy < k)%nat -> device c k reg_Year = enc bcd (year t mod 100);
  shows_century : if CMOS_CENTURY_REG c =? 0 then year t / 100 = 20
    else forall k, (reads c + busy < k)%nat -> device c k (CMOS_CENTURY_REG c) = enc bcd (year t / 100);
  shows_range : 0 <= seconds t < 60 /\ 0 <= minutes t < 60 /\ 0 <= hours t < 24 /\ 0 <= dayOfMonth t < 100 /\ 0 <= month t < 100 /\
    0 <= year t < 10000
}.

Definition at_read (c : clock) (k : nat) : clock := mkClock (device c) k (g_hasCMOS c) (CMOS_CENTURY_REG c) (g_CMOSFlags c).

Lemma ReadCMOS_runs c k reg (Q : Z -> clock -> Prop) : reg <> reg_Century ->
  Q (device c k reg) (at_read c (S k)) -> runs (ReadCMOS reg) (at_read c k) Q.
Proof. intros Hr HQ. eapply runs_eq; [|exact HQ]. unfold ReadCMOS. by rewrite (proj2 (Z.eqb_neq _ _) Hr). Qed.

Lemma wait_update_runs c busy : forall fuel k (Q : unit -> clock -> Prop), (busy < fuel)%nat ->
  (forall i, (i < busy)%nat -> Z.land (device c (k + i) reg_StatusA) 128 <> 0) ->
  Z.land (device c (k + busy) reg_StatusA) 128 = 0 ->
  Q tt (at_read c (S (k + busy))) -> runs (wait_update fuel) (at_read c k) Q.
Proof.
  induction busy as [|busy IH]; intros [|fuel] k Q Hf Hb Hr HQ; try lia; cbn [wait_update]; apply runs_bind, ReadCMOS_runs; try done.
  - rewrite Nat.add_0_r in *. rewrite Hr. by apply runs_ret.
  - specialize (Hb 0%nat ltac:(lia)) as H0. rewrite Nat.add_0_r in H0. rewrite (proj2 (Z.eqb_neq _ _) H0).
    apply IH; [lia| | |].
    + intros i Hi. rewrite Nat.add_succ_l, <- Nat.add_succ_r. apply Hb. lia.
    + by rewrite Nat.add_succ_l, <- Nat.add_succ_r.
    + by rewrite Nat.add_succ_l, <- Nat.add_succ_r.
Qed.

Section Shown.
Variables (c : clock) (bcd : bool) (t : TimeOfDay) (busy : nat).
Hypothesis Hc : shows c bcd t busy.

Lemma read_field_runs k reg v (Q : Z -> clock -> Prop) : device c k reg = enc bcd v -> reg <> reg_Century -> 0 <= v < 100 ->
  Q v (at_read c (S k)) -> runs (ReadCMOSMaybeBCD reg) (at_read c k) Q.
Proof.
  intros Hd Hr Hv HQ. apply runs_bind, ReadCMOS_runs; [done|]. apply runs_bind, runs_gets. cbn [g_CMOSFlags at_read].
  destruct (shows_mode _ _ _ _ Hc) as [Hm _]. rewrite Hm, Hd. destruct bcd; cbn [enc Z.eqb negb]; apply runs_ret; [|done].
  by rewrite from_to_bcd.
Qed.

Lemma decode_hours_shown : decode_hours (g_CMOSFlags c) (enc bcd (hours t)) = hours t.
Proof.
  destruct (shows_mode _ _ _ _ Hc) as [Hm H2]. pose proof (shows_range _ _ _ _ Hc) as (_ & _ & Hh & _). unfold decode_hours.
  rewrite (proj2 (Z.eqb_neq _ _) H2), Hm. destruct bcd; cbn [enc Z.eqb]; [|done]. apply from_to_bcd. lia.
Qed.

Lemma CMOSGetTimeOfDay_runs fuel (Q : option TimeOfDay -> clock -> Prop) : (busy < fuel)%nat -> CMOS_CENTURY_REG c <> reg_Century ->
  (forall c', Q (Some t) c') -> runs (CMOSGetTimeOfDay fuel) c Q.
Proof.
  intros Hf Hcr HQ. pose proof (shows_range _ _ _ _ Hc) as (Hs & Hmi & Hh & Hd & Hm & Hy).
  assert (c = at_read c (reads c)) as -> by (by destruct c). apply runs_bind, runs_gets. cbn [g_hasCMOS at_read].
  rewrite (shows_there _ _ _ _ Hc). cbn [negb].
  apply runs_bind, (wait_update_runs c busy); [done|apply Hc|apply Hc|].
  apply runs_bind, (read_field_runs _ _ (seconds t)); [apply Hc; lia|done|lia|].
  apply runs_bind, (read_field_runs _ _ (minutes t)); [apply Hc; lia|done|lia|].
  apply runs_bind, ReadCMOS_runs; [done|]. rewrite (shows_hours _ _ _ _ Hc) by lia.
  apply runs_bind, (read_field_runs _ _ (dayOfMonth t)); [apply Hc; lia|done|lia|].
  apply runs_bind, (read_field_runs _ _ (month t)); [apply Hc; lia|done|lia|].
  apply runs_bind, (read_field_runs _ _ (year t mod 100)); [apply Hc; lia|done|zlia|].
  apply runs_bind, runs_gets. cbn [CMOS_CENTURY_REG at_read].
  apply runs_bind. eapply (runs_mono _ _ (fun v c' => v = year t / 100 /\ g_CMOSFlags c' = g_CMOSFlags c)).
  { pose proof (shows_century _ _ _ _ Hc) as Hcent. destruct (Z.eqb_spec (CMOS_CENTURY_REG c) 0); cbn [negb]; [by apply runs_ret|].
    apply (read_field_runs _ _ (year t / 100)); [apply Hcent; lia|done|zlia|done]. }
  intros v c' [-> Hfl]. apply runs_bind, runs_gets, runs_ret. rewrite Hfl, decode_hours_shown.
  replace (year t mod 100 + year t / 100 * 100) with (year t) by zlia. destruct t. apply HQ.
Qed.
End Shown.

(** C25: When the CMOS clock is in its 24-hour mode, with its registers in binary or BCD, and shows the
    [n]-th day of the calendar after 1 January 1970, counted day by day with the leap years of
    the Gregorian calendar, and a time of that day, then [HAL_GetUnixEpochTime] returns the
    seconds that have passed since 1970, however often the clock was found busy before. *)
Theorem GetUnixEpochTime_spec c bcd t busy n fuel :
  shows c bcd t busy -> mkDate (year t) (month t) (dayOfMonth t) = day_number n -> CMOS_CENTURY_REG c <> reg_Century ->
  (busy < fuel)%nat ->
  runs (HAL_GetUnixEpochTime fuel) c (fun r _ => r = Z.of_nat n * 86400 + hours t * 3600 + minutes t * 60 + seconds t).
Proof.
  intros Hc Hday Hcr Hf. apply runs_bind, (CMOSGetTimeOfDay_runs _ _ _ _ Hc); [done|done|]. intros c'. apply runs_ret.
  pose proof (shows_range _ _ _ _ Hc) as (_ & _ & _ & _ & _ & Hy).
  assert (Z.of_nat n <= 1800000000) as Hn.
  { pose proof (civil_day_number n) as Hcd. pose proof (day_number_valid n) as [Hm Hd]. rewrite <- Hday in Hcd, Hm, Hd. cbn in Hcd, Hm, Hd.
    pose proof (days_in_bounds (year t) (month t)). unfold civil_date, civil in Hcd. cbn in Hcd.
    destruct (month t <=? 2), (2 <? month t); zlia. }
  pose proof (DaysSinceUnixEpoch_counts n Hn) as Hcount. rewrite <- Hday in Hcount. cbn [d_year d_month d_day] in Hcount.
  by rewrite Hcount.
Qed.

(** ** Waiting *)

Definition at_look (t : timer) (k : nat) : timer := mkTimer (g_HPET t) (counter t) (g_HALTimerTicks t) (g_HALTimeReady t) k.

(** The clock that [HAL_SleepNS] reads. *)
Definition shown (t : timer) (k : nat) : Z :=
  match g_HPET t with Some h => GetNSTicks h (counter t k) | None => g_HALTimerTicks t k end.

Lemma sleep_clock_runs t k (Q : Z -> timer -> Prop) : Q (shown t k) (at_look t (S k)) -> runs sleep_clock (at_look t k) Q.
Proof.
  intros HQ. unfold shown in HQ. apply runs_bind, runs_gets. cbn [g_HPET at_look].
  destruct (g_HPET t); apply runs_bind, runs_gets; by eapply runs_eq.
Qed.

Lemma wait_until_runs t end_ j : forall fuel k (Q : unit -> timer -> Prop), (j < fuel)%nat ->
  (forall i, (i < j)%nat -> shown t (k + i) < end_) -> end_ <= shown t (k + j) -> Q tt (at_look t (S (k + j))) ->
  runs (wait_until fuel end_) (at_look t k) Q.
Proof.
  induction j as [|j IH]; intros [|fuel] k Q Hf Hb He HQ; try lia; cbn [wait_until]; apply runs_bind, sleep_clock_runs.
  - rewrite Nat.add_0_r in *. rewrite (proj2 (Z.ltb_ge _ _) He). by apply runs_ret.
  - pose proof (Hb 0%nat ltac:(lia)) as H0. rewrite Nat.add_0_r in H0. rewrite (proj2 (Z.ltb_lt _ _) H0).
    apply IH; [lia| | |].
    + intros i Hi. rewrite Nat.add_succ_l, <- Nat.add_succ_r. apply Hb. lia.
    + by rewrite Nat.add_succ_l, <- Nat.add_succ_r.
    + by rewrite Nat.add_succ_l, <- Nat.add_succ_r.
Qed.

(** [HAL_SleepNS] returns at the first look at the clock at which the time has passed, in
    nanoseconds with an HPET and in milliseconds, rounded up, without one. *)
Lemma HAL_SleepNS_waits t ns fuel j :
  let k := looks t in
  let end_ := add64 (shown t k) (match g_HPET t with Some _ => ns | None => DIV_ROUNDUP ns 1000000 end) in
  g_HALTimeReady t = true -> (j < fuel)%nat -> (forall i, (i < j)%nat -> shown t (S k + i) < end_) -> end_ <= shown t (S k + j) ->
  runs (HAL_SleepNS fuel ns) t (fun _ t' => looks t' = S (S k + j)).
Proof.
  intros k end_ Hr Hf Hb He. assert (t = at_look t k) as Ht by (by destruct t). rewrite Ht at 1.
  apply runs_bind, runs_gets. cbn [g_HALTimeReady at_look]. rewrite Hr. cbn [negb].
  apply runs_bind, runs_gets. cbn [g_HPET at_look]. apply runs_bind, sleep_clock_runs.
  by apply (wait_until_runs t end_ j).
Qed.

(** ** Concrete values *)

(** 12:34:56 on 1 March 2000. *)
Definition demo_time : TimeOfDay := mkTime 56 34 12 1 3 2000.
Definition demo_registers (reg : Z) : Z :=
  match reg with 0 => 86 | 2 => 52 | 4 => 18 | 7 => 1 | 8 => 3 | 9 => 0 | 50 => 32 | _ => 0 end.
Definition demo_clock : clock :=
  mkClock (fun k reg => if reg =? reg_StatusA then (match k with O => 128 | _ => 0 end) else demo_registers reg) 0 true 50 2.

Lemma demo_shows : shows demo_clock true demo_time 1.
Proof.
  split; try done; try (intros k _; reflexivity).
  - intros [|i] Hi; [done|lia].
Qed.

Lemma GetUnixEpochTime_spec_witness :
  runs (HAL_GetUnixEpochTime 2) demo_clock (fun r _ => r = 11017 * 86400 + 12 * 3600 + 34 * 60 + 56).
Proof.
  apply (GetUnixEpochTime_spec demo_clock true demo_time 1 11017 2 demo_shows); [vm_compute; reflexivity|done|lia].
Defined.

(** In the 12-hour mode one o'clock in the afternoon is read as two, and noon as midnight. *)
Example afternoon : decode_hours 0 129 = 2 /\ decode_hours 0 146 = 0 /\ decode_hours 0 18 = 12.
Proof. vm_compute. repeat split; reflexivity. Qed.

(** The period of the usual HPET is cut to 69 ns: a second has 988 million nanoseconds. *)
Example hpet_slow : (fun h => GetNSTicks h 14318180) <$> HPET_Init 69841279 = Some 987954420.
Proof. vm_compute. reflexivity. Qed.

(** A sleep of five milliseconds before the scheduler runs: it ends after half a millisecond. *)
Example sleep_too_short :
  match HAL_Sleep_early 10 5 (mkTimer (Some (mkHPET 1000000 1 1000000000)) (fun k => 250000 * Z.of_nat k) (fun _ => 0) true 0) with
  | Ok (_, t) => counter t (Nat.pred (looks t)) = 500000
  | Fail _ => False
  end.
Proof. vm_compute. reflexivity. Qed.
End Time.
