(* ===== verification/IOAPIC.v ===== *)
(** * IOAPIC.v: I/O APICs (src/kernel/src/arch/x86_64/interrupts/APIC/IOAPIC.cpp)

    The two memory-mapped windows of the chip, a register that selects and a register that
    gives access to what is selected, are the parameter [Device]; what its documentation says
    of them is the class [DeviceLaws]. A redirection entry is the packed bit field of IOAPIC.hpp,
    which is read and written as two 32-bit registers.

    Shown: reading an entry gives what the two registers hold, writing one changes the bits
    that can be written of its two registers and no other entry, and the start-up leaves every
    entry masked. *)

From S2P Require Import Prelude.

#[local] Open Scope Z_scope.
#[local] Open Scope kernel_scope.

Module IOAPIC.

(** ** The chip *)

(** The 32-bit word at an offset from the base address. *)
Class Device (D : Type) : Type := {
  rd32 : Z -> D -> Z;
  wr32 : Z -> Z -> D -> D
}.

(** The bits of a redirection register that software can change: not the delivery status, the
    remote IRR and the reserved bits. *)
Definition writable (r b : Z) : bool :=
  if Z.even r then (b <=? 11) || (b =? 13) || (b =? 15) || (b =? 16) else 24 <=? b.

Class DeviceLaws (D : Type) `{!Device D} : Type := {
  reg : D -> Z -> Z;
  reg_u32 d r : 0 <= reg d r < 2 ^ 32;
  sel_write d v : Z.land (rd32 0 (wr32 0 v d)) 255 = Z.land v 255;
  sel_reg d v r : reg (wr32 0 v d) r = reg d r;
  win_read d : rd32 16 d = reg d (Z.land (rd32 0 d) 255);
  win_other d v r : r <> Z.land (rd32 0 d) 255 -> reg (wr32 16 v d) r = reg d r;
  win_write d v b : 16 <= Z.land (rd32 0 d) 255 -> 0 <= b < 32 -> writable (Z.land (rd32 0 d) 255) b = true ->
    Z.testbit (reg (wr32 16 v d) (Z.land (rd32 0 d) 255)) b = Z.testbit v b
}.

Inductive x86_64_IOAPIC_Register : Set := R_ID | R_VER | R_ARB | R_REDTBL_0.
Definition register_code (r : x86_64_IOAPIC_Register) : Z :=
  match r with R_ID => 0 | R_VER => 1 | R_ARB => 2 | R_REDTBL_0 => 16 end.

Inductive x86_64_IOAPIC_DeliveryMode : Set := Fixed | LowestPriority | SMI | NMI | INIT | ExtINT.
Definition delivery_code (d : x86_64_IOAPIC_DeliveryMode) : Z :=
  match d with Fixed => 0 | LowestPriority => 1 | SMI => 2 | NMI => 4 | INIT => 5 | ExtINT => 7 end.

(** ** Redirection entries *)

Record x86_64_IOAPIC_RedirectionEntry : Set := mkEntry {
  Vector : Z;
  DeliveryMode : Z;
  DestMode : Z;
  DeliveryStatus : Z;
  IntPolarity : Z;
  RemoteIRR : Z;
  TriggerMode : Z;
  Masked : Z;
  Reserved : Z;
  Destination : Z
}.

Definition set_Vector v e := mkEntry (v mod 256) (DeliveryMode e) (DestMode e) (DeliveryStatus e) (IntPolarity e)
  (RemoteIRR e) (TriggerMode e) (Masked e) (Reserved e) (Destination e).
Definition set_DeliveryMode v e := mkEntry (Vector e) (v mod 8) (DestMode e) (DeliveryStatus e) (IntPolarity e)
  (RemoteIRR e) (TriggerMode e) (Masked e) (Reserved e) (Destination e).
Definition set_DestMode v e := mkEntry (Vector e) (DeliveryMode e) (v mod 2) (DeliveryStatus e) (IntPolarity e)
  (RemoteIRR e) (TriggerMode e) (Masked e) (Reserved e) (Destination e).
Definition set_IntPolarity v e := mkEntry (Vector e) (DeliveryMode e) (DestMode e) (DeliveryStatus e) (v mod 2)
  (RemoteIRR e) (TriggerMode e) (Masked e) (Reserved e) (Destination e).
Definition set_TriggerMode v e := mkEntry (Vector e) (DeliveryMode e) (DestMode e) (DeliveryStatus e) (IntPolarity e)
  (RemoteIRR e) (v mod 2) (Masked e) (Reserved e) (Destination e).
Definition set_Masked v e := mkEntry (Vector e) (DeliveryMode e) (DestMode e) (DeliveryStatus e) (IntPolarity e)
  (RemoteIRR e) (TriggerMode e) (v mod 2) (Reserved e) (Destination e).
Definition set_Destination v e := mkEntry (Vector e) (DeliveryMode e) (DestMode e) (DeliveryStatus e) (IntPolarity e)
  (RemoteIRR e) (TriggerMode e) (Masked e) (Reserved e) (v mod 256).

(** [w] bits from bit [k]. *)
Definition field (k w x : Z) : Z := Z.land (Z.shiftr x k) (Z.ones w).

(** The packed structure as the two words it is stored in, and back. *)
Definition buffer0 (e : x86_64_IOAPIC_RedirectionEntry) : Z :=
  Vector e + 2 ^ 8 * DeliveryMode e + 2 ^ 11 * DestMode e + 2 ^ 12 * DeliveryStatus e + 2 ^ 13 * IntPolarity e +
  2 ^ 14 * RemoteIRR e + 2 ^ 15 * TriggerMode e + 2 ^ 16 * Masked e + 2 ^ 17 * field 0 15 (Reserved e).
Definition buffer1 (e : x86_64_IOAPIC_RedirectionEntry) : Z := field 15 24 (Reserved e) + 2 ^ 24 * Destination e.
Definition of_buffer (b0 b1 : Z) : x86_64_IOAPIC_RedirectionEntry :=
  mkEntry (field 0 8 b0) (field 8 3 b0) (field 11 1 b0) (field 12 1 b0) (field 13 1 b0) (field 14 1 b0) (field 15 1 b0)
    (field 16 1 b0) (field 17 15 b0 + 2 ^ 15 * field 0 24 b1) (field 24 8 b1).

(** ** The class [x86_64_IOAPIC] *)

Record ioapic {D : Type} : Type := mkIOAPIC {
  m_ID : Z;
  m_baseAddress : Z;
  m_GSIBase : Z;
  m_maxRedirectionEntries : Z;
  chip : D
}.
Arguments ioapic : clear implicits.

Section Ops.
Context {D : Type} `{!Device D}.
Implicit Types a : ioapic D.

(** The constructor; the number of entries is set by [Init]. *)
Definition IOAPIC_new (address GSIBase : Z) (d : D) : ioapic D := mkIOAPIC D 255 address GSIBase 0 d.

Definition set_chip (d : D) a : ioapic D := mkIOAPIC D (m_ID a) (m_baseAddress a) (m_GSIBase a) (m_maxRedirectionEntries a) d.
Definition mmio_read (off : Z) : M (ioapic D) Z := gets (fun a => rd32 off (chip a)).
Definition mmio_write (off v : Z) : M (ioapic D) unit := modify (fun a => set_chip (wr32 off v (chip a)) a).

(** The register number goes into the low byte of the selecting register. *)
Definition WriteRegister (r value : Z) : M (ioapic D) unit :=
  let* buffer := mmio_read 0 in
  let buffer := Z.land buffer (u32 (Z.lnot 255)) in
  let buffer := Z.lor buffer r in
  mmio_write 0 buffer ;;;
  mmio_write 16 value.

Definition ReadRegister (r : Z) : M (ioapic D) Z :=
  let* buffer := mmio_read 0 in
  let buffer := Z.land buffer (u32 (Z.lnot 255)) in
  let buffer := Z.lor buffer r in
  mmio_write 0 buffer ;;;
  mmio_read 16.

Definition WriteRegister_enum (r : x86_64_IOAPIC_Register) (value : Z) : M (ioapic D) unit :=
  WriteRegister (register_code r mod 256) value.
Definition ReadRegister_enum (r : x86_64_IOAPIC_Register) : M (ioapic D) Z := ReadRegister (register_code r mod 256).

(** The index is a [uint8_t], and so is the register number. *)
Definition SetRedirectionEntry (index : Z) (entry : x86_64_IOAPIC_RedirectionEntry) : M (ioapic D) unit :=
  let index := index mod 256 in
  let* max := gets m_maxRedirectionEntries in
  if max <? index then ret tt else
  WriteRegister ((register_code R_REDTBL_0 + index * 2) mod 256) (buffer0 entry) ;;;
  WriteRegister ((register_code R_REDTBL_0 + index * 2 + 1) mod 256) (buffer1 entry).

Definition GetRedirectionEntry (index : Z) : M (ioapic D) x86_64_IOAPIC_RedirectionEntry :=
  let index := index mod 256 in
  let* max := gets m_maxRedirectionEntries in
  if max <? index then ret (mkEntry 0 0 0 0 0 0 0 0 0 0) else
  let* b0 := ReadRegister ((register_code R_REDTBL_0 + index * 2) mod 256) in
  let* b1 := ReadRegister ((register_code R_REDTBL_0 + index * 2 + 1) mod 256) in
  ret (of_buffer b0 b1).

Definition GetID a : Z := m_ID a.
Definition GetGSIBase a : Z := m_GSIBase a.
Definition GetMaxGSI a : Z := u32 (m_GSIBase a + m_maxRedirectionEntries a - 1).

(** The loop of [Init]: [i] is a [uint8_t]. *)
Definition init_entry (i : Z) : M (ioapic D) unit :=
  let* entry := GetRedirectionEntry i in
  SetRedirectionEntry i
    (set_Masked 1 (set_TriggerMode 0 (set_IntPolarity 0 (set_DestMode 0 (set_DeliveryMode 0 (set_Vector 0 entry)))))).
Fixpoint init_loop (fuel : nat) (i : Z) : M (ioapic D) unit :=
  match fuel with
  | O => fail OutOfFuel
  | S fuel' =>
      let* max := gets m_maxRedirectionEntries in
      if i <? max then init_entry i ;;; init_loop fuel' ((i + 1) mod 256) else ret tt
  end.

(** [Init], once the page of the chip is mapped and before the chip is put into [g_IOAPICs]. *)
Definition Init : M (ioapic D) unit :=
  let* id := ReadRegister_enum R_ID in
  modify (fun a => mkIOAPIC D (Z.land (Z.shiftr id 24) 255) (m_baseAddress a) (m_GSIBase a) (m_maxRedirectionEntries a) (chip a)) ;;;
  let* ver := ReadRegister_enum R_VER in
  modify (fun a => mkIOAPIC D (m_ID a) (m_baseAddress a) (m_GSIBase a) ((Z.land (Z.shiftr ver 16) 255 + 1) mod 256) (chip a)) ;;;
  init_loop 257 0.

(** The chip that has the interrupt, by its position in [g_IOAPICs]. *)
Fixpoint find_ioapic (i : nat) (GSI : Z) (l : list (ioapic D)) : option nat :=
  match l with
  | [] => None
  | a :: l' => if (GetGSIBase a <=? GSI) && (GSI <=? GetMaxGSI a) then Some i else find_ioapic (S i) GSI l'
  end.
Definition x86_64_GetIOAPICForGSI (GSI : Z) (g_IOAPICs : list (ioapic D)) : option nat := find_ioapic 0 GSI g_IOAPICs.

End Ops.

(** ** Interrupt redirections *)

Record x86_64_IRQRedirectionEntry : Set := mkRedirection { source : Z; GSI : Z }.

(** Lists are appended to. *)
Definition x86_64_SetGSIRedirection (src gsi : Z) (l : list x86_64_IRQRedirectionEntry) : list x86_64_IRQRedirectionEntry :=
  if src =? gsi then l else l ++ [mkRedirection src gsi].

Fixpoint x86_64_GetGSIFromSource (src : Z) (l : list x86_64_IRQRedirectionEntry) : Z :=
  match l with
  | [] => src
  | e :: l' => if source e =? src then GSI e else x86_64_GetGSIFromSource src l'
  end.

(** ** Bit fields *)

Lemma field_mod k w x : 0 <= k -> 0 <= w -> field k w x = (x / 2 ^ k) mod 2 ^ w.
Proof. intros Hk Hw. unfold field. by rewrite Z.land_ones, Z.shiftr_div_pow2. Qed.

Lemma field_ext k w x y : 0 <= k -> 0 <= w ->
  (forall b, k <= b < k + w -> Z.testbit x b = Z.testbit y b) -> field k w x = field k w y.
Proof.
  intros Hk Hw Hb. apply Z.bits_inj'. intros n Hn. unfold field. rewrite !Z.land_spec, !Z.shiftr_spec by done.
  destruct (decide (n < w)).
  - f_equal. apply Hb. lia.
  - rewrite Z.ones_spec_high by lia. by rewrite !andb_false_r.
Qed.

Lemma field_range k w x : 0 <= k -> 0 <= w -> 0 <= field k w x < 2 ^ w.
Proof. intros Hk Hw. rewrite field_mod by done. apply Z.mod_pos_bound. lia. Qed.

(** The fields fit into their widths. *)
Record fits (e : x86_64_IOAPIC_RedirectionEntry) : Prop := {
  fits_Vector : 0 <= Vector e < 2 ^ 8;
  fits_DeliveryMode : 0 <= DeliveryMode e < 2 ^ 3;
  fits_DestMode : 0 <= DestMode e < 2 ^ 1;
  fits_DeliveryStatus : 0 <= DeliveryStatus e < 2 ^ 1;
  fits_IntPolarity : 0 <= IntPolarity e < 2 ^ 1;
  fits_RemoteIRR : 0 <= RemoteIRR e < 2 ^ 1;
  fits_TriggerMode : 0 <= TriggerMode e < 2 ^ 1;
  fits_Masked : 0 <= Masked e < 2 ^ 1;
  fits_Reserved : 0 <= Reserved e < 2 ^ 39;
  fits_Destination : 0 <= Destination e < 2 ^ 8
}.

Lemma of_buffer_fits b0 b1 : fits (of_buffer b0 b1).
Proof.
  split; cbn -[field Z.pow Z.add Z.mul]; try (apply field_range; lia).
  pose proof (field_range 17 15 b0 ltac:(lia) ltac:(lia)). pose proof (field_range 0 24 b1 ltac:(lia) ltac:(lia)). lia.
Qed.

(** The setters keep the fields in their widths. *)
Lemma set_fits e v : fits e -> fits (set_Vector v e) /\ fits (set_DeliveryMode v e) /\ fits (set_DestMode v e) /\
  fits (set_IntPolarity v e) /\ fits (set_TriggerMode v e) /\ fits (set_Masked v e) /\ fits (set_Destination v e).
Proof. intros []. repeat split; cbn [Vector DeliveryMode DestMode DeliveryStatus IntPolarity RemoteIRR TriggerMode Masked Reserved
    Destination set_Vector set_DeliveryMode set_DestMode set_IntPolarity set_TriggerMode set_Masked set_Destination];
  try lia; apply Z.mod_pos_bound; lia. Qed.

Lemma fits_set_Vector e v : fits e -> fits (set_Vector v e). Proof. intros H. by destruct (set_fits e v H). Qed.
Lemma fits_set_DeliveryMode e v : fits e -> fits (set_DeliveryMode v e). Proof. intros H. by destruct (set_fits e v H) as (_ & ? & _). Qed.
Lemma fits_set_DestMode e v : fits e -> fits (set_DestMode v e). Proof. intros H. by destruct (set_fits e v H) as (_ & _ & ? & _). Qed.
Lemma fits_set_IntPolarity e v : fits e -> fits (set_IntPolarity v e). Proof. intros H. by destruct (set_fits e v H) as (_ & _ & _ & ? & _). Qed.
Lemma fits_set_TriggerMode e v : fits e -> fits (set_TriggerMode v e). Proof. intros H. by destruct (set_fits e v H) as (_ & _ & _ & _ & ? & _). Qed.
Lemma fits_set_Masked e v : fits e -> fits (set_Masked v e). Proof. intros H. by destruct (set_fits e v H) as (_ & _ & _ & _ & _ & ? & _). Qed.
Lemma fits_set_Destination e v : fits e -> fits (set_Destination v e). Proof. intros H. by destruct (set_fits e v H) as (_ & _ & _ & _ & _ & _ & ?). Qed.

Create HintDb ioapic.
#[export] Hint Resolve of_buffer_fits fits_set_Vector fits_set_DeliveryMode fits_set_DestMode fits_set_IntPolarity
  fits_set_TriggerMode fits_set_Masked fits_set_Destination : ioapic.

(** An entry survives being stored. *)
Lemma of_buffer_buffer e : fits e -> of_buffer (buffer0 e) (buffer1 e) = e.
Proof.
  intros []. destruct e as [v dm dst ds ip ri tm mk rs dn]; cbn [Vector DeliveryMode DestMode DeliveryStatus IntPolarity RemoteIRR TriggerMode
    Masked Reserved Destination] in *.
  unfold of_buffer, buffer0, buffer1. cbn [Vector DeliveryMode DestMode DeliveryStatus IntPolarity RemoteIRR TriggerMode
    Masked Reserved Destination]. rewrite !field_mod by lia.
  f_equal; zlia.
Qed.

(** ** The operations *)

(** What software sets in an entry. *)
Definition settings (e : x86_64_IOAPIC_RedirectionEntry) : Z * Z * Z * Z * Z * Z * Z :=
  (Vector e, DeliveryMode e, DestMode e, IntPolarity e, TriggerMode e, Masked e, Destination e).

Section Specs.
Context {D : Type} `{!Device D} `{!DeviceLaws D}.
Implicit Types a : ioapic D.

Definition entry_of a (i : Z) : x86_64_IOAPIC_RedirectionEntry :=
  of_buffer (reg (chip a) (16 + 2 * i)) (reg (chip a) (17 + 2 * i)).

(** The members and what the registers hold; the selecting register is not part of it. *)
Record same a a' : Prop := {
  same_ID : m_ID a' = m_ID a;
  same_base : m_baseAddress a' = m_baseAddress a;
  same_GSI : m_GSIBase a' = m_GSIBase a;
  same_max : m_maxRedirectionEntries a' = m_maxRedirectionEntries a;
  same_reg r : reg (chip a') r = reg (chip a) r
}.

(** Only the entry [i] may differ. *)
Record changes a (i : Z) (e : x86_64_IOAPIC_RedirectionEntry) a' : Prop := {
  ch_ID : m_ID a' = m_ID a;
  ch_base : m_baseAddress a' = m_baseAddress a;
  ch_GSI : m_GSIBase a' = m_GSIBase a;
  ch_max : m_maxRedirectionEntries a' = m_maxRedirectionEntries a;
  ch_entry : settings (entry_of a' i) = settings e;
  ch_other j : j <> i -> entry_of a' j = entry_of a j
}.

Lemma select_low b r : 0 <= r < 256 -> Z.land (Z.lor (Z.land b (u32 (Z.lnot 255))) r) 255 = r.
Proof.
  intros Hr. rewrite Z.land_lor_distr_l, <- Z.land_assoc. change (Z.land (u32 (Z.lnot 255)) 255) with 0.
  rewrite Z.land_0_r, Z.lor_0_l. change 255 with (Z.ones 8). rewrite Z.land_ones by lia. apply Z.mod_small. lia.
Qed.

Lemma ReadRegister_runs a r (Q : Z -> ioapic D -> Prop) : 0 <= r < 256 ->
  (forall a', same a a' -> Q (reg (chip a) r) a') -> runs (ReadRegister r) a Q.
Proof.
  intros Hr HQ. unfold ReadRegister, mmio_read, mmio_write. mgo. rewrite win_read. cbn [chip set_chip].
  rewrite sel_write, select_low, sel_reg by done. apply HQ. split; try done. intros r'. apply sel_reg.
Qed.

Lemma WriteRegister_runs a r v (Q : unit -> ioapic D -> Prop) : 16 <= r < 256 ->
  (forall d, (forall r', r' <> r -> reg d r' = reg (chip a) r') ->
     (forall b, 0 <= b < 32 -> writable r b = true -> Z.testbit (reg d r) b = Z.testbit v b) -> Q tt (set_chip d a)) ->
  runs (WriteRegister r v) a Q.
Proof.
  intros Hr HQ. unfold WriteRegister, mmio_read, mmio_write. mgo. cbn [chip set_chip].
  set (d := wr32 0 _ (chip a)). assert (Hs : Z.land (rd32 0 d) 255 = r).
  { unfold d. rewrite sel_write. apply select_low. lia. }
  apply HQ.
  - intros r' Hne. rewrite win_other by congruence. apply sel_reg.
  - intros b Hb Hw. pose proof (win_write d v b) as H. rewrite Hs in H. apply H; [lia|done|done].
Qed.

Lemma GetRedirectionEntry_runs a i (Q : x86_64_IOAPIC_RedirectionEntry -> ioapic D -> Prop) :
  0 <= i < 120 -> i <= m_maxRedirectionEntries a ->
  (forall a', same a a' -> Q (entry_of a i) a') -> runs (GetRedirectionEntry i) a Q.
Proof.
  intros Hi Hm HQ. unfold GetRedirectionEntry. cbv zeta. rewrite (Z.mod_small i) by lia.
  change (register_code R_REDTBL_0) with 16. rewrite !Z.mod_small by lia.
  mstep. apply runs_gets. cbn beta. rewrite (proj2 (Z.ltb_ge _ _)) by lia.
  mstep. apply ReadRegister_runs; [lia|]. intros a1 H1.
  mstep. apply ReadRegister_runs; [lia|]. intros a2 H2.
  apply runs_ret. rewrite (same_reg _ _ H1). replace (16 + i * 2) with (16 + 2 * i) by lia.
  replace (16 + 2 * i + 1) with (17 + 2 * i) by lia. apply HQ. destruct H1, H2. split; congruence.
Qed.

Lemma settings_written d e i : fits e -> 0 <= i ->
  (forall b, 0 <= b < 32 -> writable (16 + 2 * i) b = true -> Z.testbit (reg d (16 + 2 * i)) b = Z.testbit (buffer0 e) b) ->
  (forall b, 0 <= b < 32 -> writable (17 + 2 * i) b = true -> Z.testbit (reg d (17 + 2 * i)) b = Z.testbit (buffer1 e) b) ->
  settings (of_buffer (reg d (16 + 2 * i)) (reg d (17 + 2 * i))) = settings e.
Proof.
  intros Hf Hi H0 H1. rewrite <- (of_buffer_buffer e Hf) at 1.
  assert (He : Z.even (16 + 2 * i) = true) by (rewrite Z.even_add_mul_2; done).
  assert (Ho : Z.even (17 + 2 * i) = false) by (rewrite Z.even_add_mul_2; done).
  unfold writable in H0, H1. rewrite He in H0. rewrite Ho in H1. unfold settings, of_buffer.
  cbn [Vector DeliveryMode DestMode IntPolarity TriggerMode Masked Destination].
  repeat apply (f_equal2 pair); apply field_ext; try lia; intros b Hb; (apply H0 || apply H1); lia.
Qed.

Lemma SetRedirectionEntry_runs a i e (Q : unit -> ioapic D -> Prop) :
  0 <= i < 120 -> i <= m_maxRedirectionEntries a -> fits e ->
  (forall a', changes a i e a' -> Q tt a') -> runs (SetRedirectionEntry i e) a Q.
Proof.
  intros Hi Hm Hf HQ. unfold SetRedirectionEntry. cbv zeta. rewrite (Z.mod_small i) by lia.
  change (register_code R_REDTBL_0) with 16. rewrite !Z.mod_small by lia.
  mstep. apply runs_gets. cbn beta. rewrite (proj2 (Z.ltb_ge _ _)) by lia.
  replace (16 + i * 2 + 1) with (17 + 2 * i) by lia. replace (16 + i * 2) with (16 + 2 * i) by lia.
  mstep. apply WriteRegister_runs; [lia|]. intros d1 Ho1 Hw1.
  apply WriteRegister_runs; [lia|]. cbn [chip set_chip]. intros d2 Ho2 Hw2.
  apply HQ. split; try done; unfold entry_of; cbn [chip set_chip].
  - apply settings_written; [done|lia| |done]. intros b Hb Hw. rewrite Ho2 by lia. by apply Hw1.
  - intros j Hj. rewrite !Ho2, !Ho1 by lia. done.
Qed.

(** Reading an entry, changing it and writing it back. *)
Lemma update_entry_runs a i f (Q : unit -> ioapic D -> Prop) :
  0 <= i < 120 -> i <= m_maxRedirectionEntries a -> fits (f (entry_of a i)) ->
  (forall a', changes a i (f (entry_of a i)) a' -> Q tt a') ->
  runs (let* e := GetRedirectionEntry i in SetRedirectionEntry i (f e)) a Q.
Proof.
  intros Hi Hm Hf HQ. mstep. apply GetRedirectionEntry_runs; [done..|]. intros a1 H1.
  apply SetRedirectionEntry_runs; [done|by rewrite (same_max _ _ H1)|done|]. intros a2 H2. apply HQ.
  destruct H2 as [? ? ? ? ? Hoth]. split; try (destruct H1; congruence).
  intros j Hj. rewrite Hoth by done. unfold entry_of. by rewrite !(same_reg _ _ H1).
Qed.

(** ** Start-up *)

(** What [Init] leaves of an entry. *)
Definition reset_entry (e : x86_64_IOAPIC_RedirectionEntry) : x86_64_IOAPIC_RedirectionEntry :=
  set_Masked 1 (set_TriggerMode 0 (set_IntPolarity 0 (set_DestMode 0 (set_DeliveryMode 0 (set_Vector 0 e))))).

Lemma reset_fits e : fits e -> fits (reset_entry e).
Proof. unfold reset_entry. auto 10 with ioapic. Qed.

Lemma init_loop_runs : forall fuel a i (Q : unit -> ioapic D -> Prop),
  0 <= i <= m_maxRedirectionEntries a -> m_maxRedirectionEntries a <= 120 ->
  (Z.to_nat (m_maxRedirectionEntries a - i) < fuel)%nat ->
  (forall a', m_ID a' = m_ID a -> m_baseAddress a' = m_baseAddress a -> m_GSIBase a' = m_GSIBase a ->
     m_maxRedirectionEntries a' = m_maxRedirectionEntries a ->
     (forall j, i <= j < m_maxRedirectionEntries a -> settings (entry_of a' j) = settings (reset_entry (entry_of a j))) ->
     (forall j, ~ i <= j < m_maxRedirectionEntries a -> entry_of a' j = entry_of a j) -> Q tt a') ->
  runs (init_loop fuel i) a Q.
Proof.
  induction fuel as [|fuel IH]; intros a i Q Hi Hm Hf HQ; [lia|]. cbn [init_loop].
  mstep. apply runs_gets. cbn beta. destruct (Z.ltb_spec i (m_maxRedirectionEntries a)) as [Hlt|Hge].
  - mstep. apply (update_entry_runs a i reset_entry); [lia|lia|apply reset_fits, of_buffer_fits|]. intros a1 [H1 H2 H3 H4 He Hoth].
    rewrite Z.mod_small by lia. apply IH; rewrite ?H4; [lia..|].
    intros a2 G1 G2 G3 G4 Ge Go. apply HQ; [congruence..| |].
    + intros j Hj. destruct (decide (j = i)) as [->|Hne].
      * rewrite Go by lia. done.
      * rewrite Ge by lia. by rewrite Hoth.
    + intros j Hj. rewrite Go by lia. apply Hoth. lia.
  - apply runs_ret. apply HQ; try done. intros j Hj. lia.
Qed.

Definition entries (ver : Z) : Z := field 16 8 ver + 1.

(** The start-up ends, takes the identifier and the number of entries from the chip and leaves every entry
    masked, with the vector 0, fixed and physical delivery, active high and edge triggered, to the destination it had. *)
Theorem Init_masks a : entries (reg (chip a) 1) <= 120 ->
  runs Init a (fun _ a' =>
    m_ID a' = field 24 8 (reg (chip a) 0) /\ m_GSIBase a' = m_GSIBase a /\ m_baseAddress a' = m_baseAddress a /\
    m_maxRedirectionEntries a' = entries (reg (chip a) 1) /\
    forall j, 0 <= j < entries (reg (chip a) 1) ->
      settings (entry_of a' j) = (0, 0, 0, 0, 0, 1, Destination (entry_of a j))).
Proof.
  intros He. unfold Init, ReadRegister_enum. pose proof (field_range 16 8 (reg (chip a) 1) ltac:(lia) ltac:(lia)) as Hr. unfold entries in *.
  change (register_code R_ID mod 256) with 0. change (register_code R_VER mod 256) with 1.
  mstep. apply ReadRegister_runs; [lia|]. intros a1 H1. mstep. apply runs_modify.
  mstep. apply ReadRegister_runs; [lia|]. intros a2 H2. mstep. apply runs_modify. cbn [chip] in *.
  rewrite (same_reg _ _ H1). change (Z.land (Z.shiftr (reg (chip a) 1) 16) 255) with (field 16 8 (reg (chip a) 1)).
  rewrite Z.mod_small by lia. apply init_loop_runs; cbn [m_maxRedirectionEntries m_ID m_baseAddress m_GSIBase]; [lia..|].
  intros a3 G1 G2 G3 G4 G5 _. destruct H1 as [? ? ? ? S1], H2 as [I2 ? ? ? S2].
  split_and!; [by rewrite G1, I2|cbn in *; congruence..|].
  intros j Hj. rewrite G5 by lia. unfold entry_of. cbn [chip]. rewrite !S2. cbn [chip]. by rewrite !S1.
Qed.

(** ** Which chip an interrupt belongs to *)

(** The members of a chip that is ready. *)
Record ready a : Prop := {
  ready_count : 0 < m_maxRedirectionEntries a <= 120;
  ready_base : 0 <= m_GSIBase a;
  ready_last : m_GSIBase a + m_maxRedirectionEntries a <= 2 ^ 32
}.

Lemma GetMaxGSI_ready a : ready a -> GetMaxGSI a = m_GSIBase a + m_maxRedirectionEntries a - 1.
Proof. intros []. unfold GetMaxGSI, u32. apply Z.mod_small. lia. Qed.

Definition has_GSI a (g : Z) : Prop := m_GSIBase a <= g < m_GSIBase a + m_maxRedirectionEntries a.

Lemma find_ioapic_spec l g : Forall ready l -> forall i,
  match find_ioapic i g l with
  | Some p => exists k a, p = (i + k)%nat /\ l !! k = Some a /\ has_GSI a g /\
      forall k' a', (k' < k)%nat -> l !! k' = Some a' -> ~ has_GSI a' g
  | None => forall a, a ∈ l -> ~ has_GSI a g
  end.
Proof.
  induction 1 as [|a l Ha Hl IH]; intros i; cbn [find_ioapic]; [intros a Ha%elem_of_nil; done|].
  rewrite GetMaxGSI_ready by done. unfold GetGSIBase.
  destruct (Z.leb_spec (m_GSIBase a) g), (Z.leb_spec g (m_GSIBase a + m_maxRedirectionEntries a - 1)); cbn [andb];
    try (specialize (IH (S i)); destruct (find_ioapic (S i) g l) as [p|];
      [destruct IH as (k & b & -> & Hk & Hb & Hf); exists (S k), b; split_and!; [lia|done|done|];
       intros [|k'] a' Hlt Hlk; [injection Hlk as <-; unfold has_GSI; lia|apply (Hf k'); [lia|done]]
      |intros b [->|Hb]%elem_of_cons; [unfold has_GSI; lia|by apply IH]]).
  exists 0%nat, a. split_and!; [lia|done|unfold has_GSI; lia|]. intros; lia.
Qed.

End Specs.

(** The first redirection of a source decides; a source without one is its own interrupt. *)
Lemma GetGSIFromSource_spec src l :
  x86_64_GetGSIFromSource src l = default src (GSI <$> head (filter (fun e => source e = src) l)).
Proof.
  induction l as [|e l IH]; [done|]. cbn [x86_64_GetGSIFromSource]. rewrite filter_cons.
  destruct (Z.eqb_spec (source e) src); case_decide; done.
Qed.

End IOAPIC.
