(* ===== verification/IRQ.v ===== *)
(** * IRQ.v: interrupts (PIC.cpp, ISR.cpp and IRQ.cpp in src/kernel/src/arch/x86_64/interrupts,
      HAL/HAL.cpp, DataStructures/HashMap.hpp)

    The table of interrupt handlers, the legacy interrupt controllers, and the allocation of
    vectors to the interrupts of the I/O APICs. Processors and chips are known by their position
    in a list. What is written to I/O ports, the end-of-interrupt messages and the pages that
    are mapped are a trace. The handlers that drivers register are parameters; they may do
    anything to the state. The memory for the small records comes from [new], which is taken to
    succeed; the locks are left out, as nothing here holds one while it calls a handler. *)

From S2P Require Import Prelude AVLTree Bitmap IOAPIC.

#[local] Open Scope Z_scope.
#[local] Open Scope kernel_scope.

(** ** HashMap.hpp: a wrapper of the tree *)

Module HashMap.
Section HashMap.
Context {V : Type}.
Definition t : Type := list (Z * V).
Definition insert (key : Z) (data : V) (h : t) : t := snd (AVLTree.Insert key data h).
Definition remove (key : Z) (h : t) : t := AVLTree.Remove key h.
Definition get (key : Z) (h : t) : option V := AVLTree.Find key h.
Definition forEach {A} (callback : Z -> V -> A -> A) (h : t) (a : A) : A := AVLTree.forEach callback h a.
Definition forEachUntil {A} (callback : Z -> V -> A -> bool * A) (h : t) (a : A) : A :=
  AVLTree.forEachUntil callback 0 0 h a.

(** An entry that is there is kept. *)
Lemma get_insert k v k' h : AVLTree.sorted h ->
  get k' (insert k v h) = if k' =? k then Some (default v (get k h)) else get k' h.
Proof.
  intros Hs. unfold get, insert, AVLTree.Insert, AVLTree.Find. destruct (AVLTree.RB_FIND k h) as [v'|] eqn:E; cbn [snd].
  - destruct (Z.eqb_spec k' k) as [->|]; done.
  - rewrite AVLTree.RB_FIND_INSERT by done. by rewrite E.
Qed.

Lemma get_remove k k' h : AVLTree.sorted h -> get k' (remove k h) = if k' =? k then None else get k' h.
Proof.
  intros Hs. unfold get, remove, AVLTree.Remove, AVLTree.Find. destruct (AVLTree.RB_FIND k h) as [v'|] eqn:E.
  - by rewrite AVLTree.RB_FIND_REMOVE.
  - by destruct (Z.eqb_spec k' k) as [->|].
Qed.

Lemma sorted_insert k v h : AVLTree.sorted h -> AVLTree.sorted (insert k v h).
Proof.
  intros Hs. unfold insert, AVLTree.Insert. destruct (AVLTree.RB_FIND k h); cbn; [done|]. by apply AVLTree.sorted_INSERT.
Qed.
Lemma sorted_remove k h : AVLTree.sorted h -> AVLTree.sorted (remove k h).
Proof.
  intros Hs. unfold remove, AVLTree.Remove. destruct (AVLTree.RB_FIND k h); [|done]. by apply AVLTree.sorted_REMOVE.
Qed.
End HashMap.
Arguments t : clear implicits.
End HashMap.

Module IRQ.
Import IOAPIC.

(** ** State *)

Record x86_64_ISR_Frame : Set := mkFrame {
  f_CR3 : Z; f_CR2 : Z;
  f_R15 : Z; f_R14 : Z; f_R13 : Z; f_R12 : Z; f_R11 : Z; f_R10 : Z; f_R9 : Z; f_R8 : Z;
  f_RDI : Z; f_RSI : Z; f_RBP : Z; f_RBX : Z; f_RDX : Z; f_RCX : Z; f_RAX : Z;
  INT : Z; ERR : Z;
  f_RIP : Z; f_CS : Z; f_RFLAGS : Z; f_RSP : Z; f_SS : Z
}.

Record x86_64_Registers : Set := mkRegisters {
  RAX : Z; RBX : Z; RCX : Z; RDX : Z; RSI : Z; RDI : Z; RSP : Z; RBP : Z;
  R8 : Z; R9 : Z; R10 : Z; R11 : Z; R12 : Z; R13 : Z; R14 : Z; R15 : Z;
  RIP : Z; CS : Z; SS : Z; RFLAGS : Z; CR3 : Z; _align : Z
}.

(** Null pointers are [None]; the second is written through. *)
Definition x86_64_Convert_ISRRegs_To_StandardRegs (frame : option x86_64_ISR_Frame) (state : option x86_64_Registers) :
    option x86_64_Registers :=
  match state, frame with
  | Some _, Some f =>
      Some (mkRegisters (f_RAX f) (f_RBX f) (f_RCX f) (f_RDX f) (f_RSI f) (f_RDI f) (f_RSP f) (f_RBP f)
        (f_R8 f) (f_R9 f) (f_R10 f) (f_R11 f) (f_R12 f) (f_R13 f) (f_R14 f) (f_R15 f)
        (f_RIP f) (f_CS f mod 2 ^ 16) (f_SS f mod 2 ^ 16) (f_RFLAGS f) (f_CR3 f) 0)
  | _, _ => state
  end.

(** The functions in [g_ISR_Handlers]: those of this file, or the one at an address. *)
Inductive isr_handler : Set := PICHandler | IRQHandler | OtherISR (f : Z).

(** The functions that take a global system interrupt. *)
Inductive gsi_handler : Set := HAL_GSIHandlerWrapper | DriverGSI (f : Z).

Record HandlerData : Set := mkHandler { handler : gsi_handler; ctx : Z }.
Record x86_64_ProcessorIRQData : Type := mkIRQData {
  usedInterrupts : Bitmap.RawBitmap;
  handlerMap : HashMap.t HandlerData
}.
(** What of [x86_64_Processor] takes part: the identifier of its local APIC and its interrupts. *)
Record x86_64_Processor : Type := mkProcessor {
  m_LAPIC : option Z;
  m_IRQData : option x86_64_ProcessorIRQData
}.
Record x86_64_IRQInfo : Set := mkInfo { proc : option nat; interrupt : Z }.
Record HAL_IntHandlerData : Set := mkInt { int_GSI : Z; int_handler : Z; int_ctx : Z }.

Inductive event : Set :=
  | outb (port value : Z)
  | IOWait
  | MapPage (addr : Z)
  | EOI (lapic : Z).

Record machine {D : Type} : Type := mkMachine {
  g_IOAPICs : list (ioapic D);
  g_IRQRedirections : list x86_64_IRQRedirectionEntry;
  g_interruptMap : HashMap.t x86_64_IRQInfo;
  processors : list x86_64_Processor;
  current : option nat;
  g_ISR_Handlers : list (option isr_handler);
  g_x86_64_CurrentPICMask : Z;
  in_exception : bool;
  int_data : gmap Z HAL_IntHandlerData;
  trace : list event
}.
Arguments machine : clear implicits.

Section Setters.
Context {D : Type}.
Implicit Types m : machine D.
Definition set_IOAPICs v m : machine D := mkMachine D v (g_IRQRedirections m) (g_interruptMap m) (processors m) (current m)
  (g_ISR_Handlers m) (g_x86_64_CurrentPICMask m) (in_exception m) (int_data m) (trace m).
Definition set_Redirections v m : machine D := mkMachine D (g_IOAPICs m) v (g_interruptMap m) (processors m) (current m)
  (g_ISR_Handlers m) (g_x86_64_CurrentPICMask m) (in_exception m) (int_data m) (trace m).
Definition set_interruptMap v m : machine D := mkMachine D (g_IOAPICs m) (g_IRQRedirections m) v (processors m) (current m)
  (g_ISR_Handlers m) (g_x86_64_CurrentPICMask m) (in_exception m) (int_data m) (trace m).
Definition set_processors v m : machine D := mkMachine D (g_IOAPICs m) (g_IRQRedirections m) (g_interruptMap m) v (current m)
  (g_ISR_Handlers m) (g_x86_64_CurrentPICMask m) (in_exception m) (int_data m) (trace m).
Definition set_current v m : machine D := mkMachine D (g_IOAPICs m) (g_IRQRedirections m) (g_interruptMap m) (processors m) v
  (g_ISR_Handlers m) (g_x86_64_CurrentPICMask m) (in_exception m) (int_data m) (trace m).
Definition set_ISR_Handlers v m : machine D := mkMachine D (g_IOAPICs m) (g_IRQRedirections m) (g_interruptMap m) (processors m)
  (current m) v (g_x86_64_CurrentPICMask m) (in_exception m) (int_data m) (trace m).
Definition set_PICMask v m : machine D := mkMachine D (g_IOAPICs m) (g_IRQRedirections m) (g_interruptMap m) (processors m)
  (current m) (g_ISR_Handlers m) v (in_exception m) (int_data m) (trace m).
Definition set_in_exception v m : machine D := mkMachine D (g_IOAPICs m) (g_IRQRedirections m) (g_interruptMap m) (processors m)
  (current m) (g_ISR_Handlers m) (g_x86_64_CurrentPICMask m) v (int_data m) (trace m).
Definition set_int_data v m : machine D := mkMachine D (g_IOAPICs m) (g_IRQRedirections m) (g_interruptMap m) (processors m)
  (current m) (g_ISR_Handlers m) (g_x86_64_CurrentPICMask m) (in_exception m) v (trace m).
Definition set_trace v m : machine D := mkMachine D (g_IOAPICs m) (g_IRQRedirections m) (g_interruptMap m) (processors m)
  (current m) (g_ISR_Handlers m) (g_x86_64_CurrentPICMask m) (in_exception m) (int_data m) v.

Definition emit (e : event) : M (machine D) unit := modify (fun m => set_trace (trace m ++ [e]) m).
End Setters.

(** ** PIC.cpp *)

Definition PIC_MASTER_COMMAND : Z := 32.
Definition PIC_MASTER_DATA : Z := 33.
Definition PIC_SLAVE_COMMAND : Z := 160.
Definition PIC_SLAVE_DATA : Z := 161.
Definition PIC_EOI : Z := 32.
Definition PIC_ICW1_ICW4 : Z := 1.
Definition PIC_ICW1_INIT : Z := 16.
Definition PIC_ICW4_8086 : Z := 1.
Definition x86_64_PIC_REMAP_OFFSET : Z := 32.

Section Ops.
Context {D : Type} `{!Device D}.
Notation M := (M (machine D)).

Definition x86_64_PIC_MaskAll : M unit :=
  emit (outb PIC_MASTER_DATA 255) ;;;
  emit (outb PIC_SLAVE_DATA 255) ;;;
  modify (set_PICMask 65535).

Definition outb_wait (port value : Z) : M unit := emit (outb port value) ;;; emit IOWait.

Definition x86_64_PIC_Init : M unit :=
  outb_wait PIC_MASTER_COMMAND (Z.lor PIC_ICW1_INIT PIC_ICW1_ICW4) ;;;
  outb_wait PIC_SLAVE_COMMAND (Z.lor PIC_ICW1_INIT PIC_ICW1_ICW4) ;;;
  outb_wait PIC_MASTER_DATA x86_64_PIC_REMAP_OFFSET ;;;
  outb_wait PIC_SLAVE_DATA (x86_64_PIC_REMAP_OFFSET + 8) ;;;
  outb_wait PIC_MASTER_DATA 4 ;;;
  outb_wait PIC_SLAVE_DATA 2 ;;;
  outb_wait PIC_MASTER_DATA PIC_ICW4_8086 ;;;
  outb_wait PIC_SLAVE_DATA PIC_ICW4_8086 ;;;
  x86_64_PIC_MaskAll.

Definition x86_64_PIC_SendEOI (irq : Z) : M unit :=
  whenM (8 <=? irq) (emit (outb PIC_SLAVE_COMMAND PIC_EOI)) ;;;
  emit (outb PIC_MASTER_COMMAND PIC_EOI).

(** The half of the mask that has the bit is written; the mask is a [uint16_t]. *)
Definition write_mask (irq : Z) : M unit :=
  let* mask := gets g_x86_64_CurrentPICMask in
  if irq <? 8 then emit (outb PIC_MASTER_DATA (Z.land mask 255))
  else emit (outb PIC_SLAVE_DATA (Z.land (Z.shiftr mask 8) 255)).
Definition x86_64_PIC_MaskIRQ (irq : Z) : M unit :=
  modify (fun m => set_PICMask (Z.lor (g_x86_64_CurrentPICMask m) (Z.shiftl 1 irq) mod 2 ^ 16) m) ;;;
  write_mask irq.
Definition x86_64_PIC_UnmaskIRQ (irq : Z) : M unit :=
  modify (fun m => set_PICMask (Z.land (g_x86_64_CurrentPICMask m) (Z.lnot (Z.shiftl 1 irq)) mod 2 ^ 16) m) ;;;
  write_mask irq.

(** ** The table of handlers (ISR.cpp) *)

Definition x86_64_ISR_RegisterHandler (vector : Z) (h : isr_handler) : M unit :=
  modify (fun m => set_ISR_Handlers (<[Z.to_nat (vector mod 256) := Some h]> (g_ISR_Handlers m)) m).

(** Without the gates of the interrupt table, which Descriptors.v has. *)
Definition x86_64_InitISRs : M unit := modify (set_ISR_Handlers (replicate 256 None)).

(** ** IRQ.cpp *)

Fixpoint register_PIC (n : nat) (i : Z) : M unit :=
  match n with
  | O => ret tt
  | S n' => x86_64_ISR_RegisterHandler i PICHandler ;;; register_PIC n' (i + 1)
  end.
Definition x86_64_IRQ_EarlyInit : M unit := x86_64_PIC_Init ;;; register_PIC 16 x86_64_PIC_REMAP_OFFSET.

Definition upd_processor (q : nat) (f : x86_64_Processor -> x86_64_Processor) : M unit :=
  modify (fun m => set_processors (alter f q (processors m)) m).
Definition SetIRQData (q : nat) (d : x86_64_ProcessorIRQData) : M unit :=
  upd_processor q (fun p => mkProcessor (m_LAPIC p) (Some d)).

(** The buffer: six bytes of ones, zeros, and the last two bits. *)
Definition initial_used : list Z := replicate 6 255 ++ replicate 25 0 ++ [192].

Definition x86_64_IRQ_FullInit : M unit :=
  let* cur := gets current in
  match cur with
  | None => fail AssertionFailed
  | Some q => SetIRQData q (mkIRQData (Bitmap.mkBitmap initial_used 32) [])
  end.

Definition get_processor (q : nat) : M x86_64_Processor :=
  let* ps := gets processors in
  match ps !! q with Some p => ret p | None => fail InvalidAccess end.

(** A call of a method of a chip. *)
Definition on_ioapic {A} (p : nat) (f : Prelude.M (ioapic D) A) : M A := fun m =>
  match g_IOAPICs m !! p with
  | Some a => match f a with
              | Ok (x, a') => Ok (x, set_IOAPICs (<[p := a']> (g_IOAPICs m)) m)
              | Fail e => Fail e
              end
  | None => Fail InvalidAccess
  end.

(** [x86_64_IOAPIC::Init] of a chip: its page is mapped, and it is put into the list. *)
Definition IOAPIC_Init (a : ioapic D) : M unit :=
  emit (MapPage (m_baseAddress a)) ;;;
  match Init a with
  | Ok (_, a') => modify (fun m => set_IOAPICs (g_IOAPICs m ++ [a']) m)
  | Fail e => fail e
  end.

Definition ioapic_for (GSI : Z) : M (option nat) := gets (fun m => x86_64_GetIOAPICForGSI GSI (g_IOAPICs m)).

(** The entry of an interrupt is read, changed and written back. *)
Definition update_entry (p : nat) (GSI : Z) (f : x86_64_IOAPIC_RedirectionEntry -> x86_64_IOAPIC_RedirectionEntry) : M unit :=
  on_ioapic p (
    let* base := gets GetGSIBase in
    let index := u32 (GSI - base) in
    let* entry := GetRedirectionEntry index in
    SetRedirectionEntry index (f entry)).

Definition x86_64_IOAPIC_SetRedirection (source GSI : Z) (activeLow level : bool) : M unit :=
  let* p := ioapic_for GSI in
  match p with
  | None => ret tt
  | Some p =>
      update_entry p GSI (fun e => set_TriggerMode (if level then 1 else 0) (set_IntPolarity (if activeLow then 1 else 0) e)) ;;;
      modify (fun m => set_Redirections (x86_64_SetGSIRedirection source GSI (g_IRQRedirections m)) m)
  end.

Definition x86_64_MaskGSI (GSI : Z) : M bool :=
  let* p := ioapic_for GSI in
  match p with
  | None => ret false
  | Some p => update_entry p GSI (set_Masked 1) ;;; ret true
  end.
Definition x86_64_UnmaskGSI (GSI : Z) : M bool :=
  let* p := ioapic_for GSI in
  match p with
  | None => ret false
  | Some p => update_entry p GSI (set_Masked 0) ;;; ret true
  end.

(** A call of a method of the bitmap of used vectors. *)
Definition bitmap {A} (f : Prelude.M Bitmap.RawBitmap A) (d : x86_64_ProcessorIRQData) : M (A * x86_64_ProcessorIRQData) :=
  match f (usedInterrupts d) with
  | Ok (x, b) => ret (x, mkIRQData b (handlerMap d))
  | Fail e => fail e
  end.

(** What is done with the vector that was found. *)
Definition assign (p q : nat) (data : x86_64_ProcessorIRQData) (i GSI : Z) (h : gsi_handler) (c : Z) : M bool :=
  let* pr := get_processor q in
  match m_LAPIC pr with
  | None => ret false
  | Some id =>
      update_entry p GSI (fun e =>
        set_Masked 1 (set_Destination id (set_Vector i (set_DeliveryMode (delivery_code Fixed) e)))) ;;;
      modify (fun m => set_interruptMap (HashMap.insert GSI (mkInfo (Some q) i) (g_interruptMap m)) m) ;;;
      let data := mkIRQData (usedInterrupts data) (HashMap.insert i (mkHandler h c) (handlerMap data)) in
      x86_64_ISR_RegisterHandler i IRQHandler ;;;
      let* r := bitmap (Bitmap.Set_ i true) data in
      SetIRQData q (snd r) ;;;
      ret true
  end.

(** The vectors from [i], [n] of them. *)
Fixpoint find_vector (n : nat) (i : Z) (p q : nat) (data : x86_64_ProcessorIRQData) (GSI : Z) (h : gsi_handler) (c : Z) : M bool :=
  match n with
  | O => ret false
  | S n' =>
      let* r := bitmap (Bitmap.Get i) data in
      if negb (fst r) then assign p q data i GSI h c else find_vector n' (i + 1) p q data GSI h c
  end.

Definition x86_64_RegisterGSIHandler (GSI : Z) (h : gsi_handler) (c : Z) : M bool :=
  let* p := ioapic_for GSI in
  match p with
  | None => ret false
  | Some p =>
      let* cur := gets current in
      match cur with
      | None => ret false
      | Some q =>
          let* pr := get_processor q in
          match m_IRQData pr with
          | None => ret false
          | Some data => find_vector 206 48 p q data GSI h c
          end
      end
  end.

Definition x86_64_RemoveGSIHandler (GSI : Z) : M bool :=
  let* map := gets g_interruptMap in
  match HashMap.get GSI map with
  | None => ret false
  | Some info =>
  match proc info with
  | None => ret false
  | Some q =>
  let* pr := get_processor q in
  match m_IRQData pr with
  | None => ret false
  | Some data =>
  match HashMap.get (interrupt info) (handlerMap data) with
  | None => ret false
  | Some handlerData =>
  let* p := ioapic_for GSI in
  match p with
  | None => ret false
  | Some p =>
      update_entry p GSI (fun e => set_Vector 0 (set_Masked 1 e)) ;;;
      modify (fun m => set_interruptMap (HashMap.remove GSI (g_interruptMap m)) m) ;;;
      SetIRQData q (mkIRQData (usedInterrupts data) (HashMap.remove (interrupt info) (handlerMap data))) ;;;
      ret true
  end end end end end.

(** ** HAL.cpp *)

(** [data]: the address [new] gives. *)
Definition HAL_RegisterIntHandler (data GSI h c : Z) : M Z :=
  modify (fun m => set_int_data (<[data := mkInt GSI h c]> (int_data m)) m) ;;;
  let* ok := x86_64_RegisterGSIHandler GSI HAL_GSIHandlerWrapper data in
  if ok then ret data else
  modify (fun m => set_int_data (delete data (int_data m)) m) ;;; ret 0.

Definition HAL_RemoveIntHandler (data : Z) : M bool :=
  if data =? 0 then ret false else
  let* ds := gets int_data in
  match ds !! data with
  | None => fail InvalidAccess
  | Some h =>
      let* ok := x86_64_RemoveGSIHandler (int_GSI h) in
      if ok then modify (fun m => set_int_data (delete data (int_data m)) m) ;;; ret true else ret false
  end.

(** ** Interrupts *)

Section Handlers.
(** The functions of the drivers and of the rest of the kernel. *)
Context (call_gsi : Z -> x86_64_ISR_Frame -> Z -> M unit) (call_int : Z -> Z -> M unit)
  (call_isr : Z -> x86_64_ISR_Frame -> M unit) (PageFaultHandler : x86_64_ISR_Frame -> M unit)
  (HandleNMI : x86_64_ISR_Frame -> M bool).

(** [HAL_GSIHandlerWrapper]: the handler is given the record that was made for it. *)
Definition run_wrapper (c : Z) : M unit :=
  if c =? 0 then ret tt else
  let* ds := gets int_data in
  match ds !! c with None => fail InvalidAccess | Some h => call_int (int_handler h) c end.

Definition run_gsi (h : HandlerData) (frame : x86_64_ISR_Frame) : M unit :=
  match handler h with
  | HAL_GSIHandlerWrapper => run_wrapper (ctx h)
  | DriverGSI f => call_gsi f frame (ctx h)
  end.

Definition x86_64_PICHandler (frame : x86_64_ISR_Frame) : M unit :=
  x86_64_PIC_SendEOI ((INT frame - x86_64_PIC_REMAP_OFFSET) mod 256).

(** The key of the map is a [uint8_t]. *)
Definition x86_64_IRQHandler (frame : x86_64_ISR_Frame) : M unit :=
  let* cur := gets current in
  match cur with
  | None => fail AssertionFailed
  | Some q =>
      let* pr := get_processor q in
      match m_LAPIC pr with
      | None => fail AssertionFailed
      | Some lapic =>
          match m_IRQData pr with
          | None => emit (EOI lapic)
          | Some data =>
              match HashMap.get (INT frame mod 256) (handlerMap data) with
              | None => emit (EOI lapic)
              | Some h => run_gsi h frame ;;; emit (EOI lapic)
              end
          end
      end
  end.

Definition run_isr (h : isr_handler) (frame : x86_64_ISR_Frame) : M unit :=
  match h with
  | PICHandler => x86_64_PICHandler frame
  | IRQHandler => x86_64_IRQHandler frame
  | OtherISR f => call_isr f frame
  end.

(** An exception that nothing handles is a panic, or an endless halt when there was one before. *)
Definition x86_64_ISR_Handler (frame : x86_64_ISR_Frame) : M unit :=
  let* hs := gets g_ISR_Handlers in
  match hs !! Z.to_nat (INT frame) with
  | None => fail InvalidAccess
  | Some (Some h) => run_isr h frame
  | Some None =>
      let unhandled :=
        let* ex := gets in_exception in
        if ex then fail OutOfFuel else modify (set_in_exception true) ;;; fail AssertionFailed in
      if INT frame =? 14 then PageFaultHandler frame
      else if INT frame =? 2 then let* done := HandleNMI frame in if done then ret tt else unhandled
      else unhandled
  end.

End Handlers.
End Ops.

End IRQ.
