(* ===== verification/IRQSpec.v ===== *)
(** * IRQSpec.v: correctness of the interrupts of the I/O APICs (IRQ.v)

    The interrupts that have a handler, as a map from their numbers, are represented by the
    entries of the chips, the map of interrupts, the maps of handlers and the bitmaps of the
    processors and the table of interrupt handlers together. Every operation keeps the
    representation, and an interrupt that is not masked gets to its own handler. *)

From S2P Require Import Prelude AVLTree Bitmap IOAPIC IRQ.

#[local] Open Scope Z_scope.
#[local] Open Scope kernel_scope.

Module IRQSpec.
Import IOAPIC IRQ.

(** An interrupt with a handler. *)
Record route : Set := mkRoute { r_handler : HandlerData; r_masked : bool }.
Definition with_masked (b : bool) (r : route) : route := mkRoute (r_handler r) b.

Section Spec.
Context {D : Type} `{!Device D} `{!DeviceLaws D}.
Implicit Types (m : machine D) (a : ioapic D) (R : gmap Z route).

Definition entry_ok (e : x86_64_IOAPIC_RedirectionEntry) (v id : Z) (masked : bool) : Prop :=
  Vector e = v /\ DeliveryMode e = 0 /\ DestMode e = 0 /\ Masked e = (if masked then 1 else 0) /\ Destination e = id.

(** The parts that have to agree for one interrupt. *)
Record routed m (g : Z) (r : route) (info : x86_64_IRQInfo) : Prop := {
  rt_vector : 48 <= interrupt info < 254;
  rt_chip : exists p a, x86_64_GetIOAPICForGSI g (g_IOAPICs m) = Some p /\ g_IOAPICs m !! p = Some a /\
    exists q pr data id, proc info = Some q /\ processors m !! q = Some pr /\ m_LAPIC pr = Some id /\ m_IRQData pr = Some data /\
      entry_ok (entry_of a (g - m_GSIBase a)) (interrupt info) id (r_masked r) /\
      HashMap.get (interrupt info) (handlerMap data) = Some (r_handler r);
  rt_isr : g_ISR_Handlers m !! Z.to_nat (interrupt info) = Some (Some IRQHandler)
}.

Record chip_ok a : Prop := {
  chip_ready : ready a;
  chip_physical j : 0 <= j < m_maxRedirectionEntries a -> DestMode (entry_of a j) = 0
}.

Record data_ok (d : x86_64_ProcessorIRQData) : Prop := {
  data_wf : Bitmap.wf (usedInterrupts d);
  data_size : Bitmap.m_Size (usedInterrupts d) = 32;
  data_sorted : AVLTree.sorted (handlerMap d);
  data_used v h : 0 <= v < 256 -> HashMap.get v (handlerMap d) = Some h -> Bitmap.bit (usedInterrupts d) v = true
}.

Record rep m R : Prop := {
  rep_table : length (g_ISR_Handlers m) = 256%nat;
  rep_chips : Forall chip_ok (g_IOAPICs m);
  rep_sorted : AVLTree.sorted (g_interruptMap m);
  rep_data q pr d : processors m !! q = Some pr -> m_IRQData pr = Some d -> data_ok d;
  rep_current q : current m = Some q -> is_Some (processors m !! q);
  rep_lapic q pr id : processors m !! q = Some pr -> m_LAPIC pr = Some id -> 0 <= id < 256;
  rep_routes g : match R !! g, HashMap.get g (g_interruptMap m) with
    | Some r, Some info => 0 <= g < 2 ^ 32 /\ routed m g r info
    | None, None => True
    | _, _ => False
    end;
  rep_inj g g' info info' : HashMap.get g (g_interruptMap m) = Some info -> HashMap.get g' (g_interruptMap m) = Some info' ->
    proc info = proc info' -> interrupt info = interrupt info' -> g = g'
}.

(** ** Chips *)

(** What decides which chip has an interrupt. *)
Definition range a : Z * Z := (m_GSIBase a, m_maxRedirectionEntries a).

Lemma find_ioapic_range l l' g i : range <$> l = range <$> l' -> find_ioapic i g l = find_ioapic i g l'.
Proof.
  revert l' i. induction l as [|a l IH]; intros [|a' l'] i; cbn; [done..|]. intros [= Hb Hm Hl].
  unfold GetGSIBase, GetMaxGSI. rewrite Hb, Hm. destruct (_ && _); [done|]. by apply IH.
Qed.

Lemma range_insert (l : list (ioapic D)) (p : nat) a a' : l !! p = Some a -> range a' = range a -> range <$> <[p := a']> l = range <$> l.
Proof.
  intros Hp Hr. rewrite list_fmap_insert, Hr. apply list_insert_id. by rewrite list_lookup_fmap, Hp.
Qed.

Lemma chips_ready l : Forall chip_ok l -> Forall ready l.
Proof. intros H. eapply Forall_impl; [exact H|]. by intros a []. Qed.

(** The chip of an interrupt. *)
Lemma chip_of m R g p : rep m R -> x86_64_GetIOAPICForGSI g (g_IOAPICs m) = Some p ->
  exists a, g_IOAPICs m !! p = Some a /\ chip_ok a /\ has_GSI a g.
Proof.
  intros Hm Hp. pose proof (find_ioapic_spec (g_IOAPICs m) g (chips_ready _ (rep_chips _ _ Hm)) 0) as H.
  unfold x86_64_GetIOAPICForGSI in Hp. rewrite Hp in H. destruct H as (k & a & -> & Ha & Hg & _). exists a. split; [done|].
  split; [|done]. pose proof (rep_chips _ _ Hm) as Hc. rewrite Forall_lookup in Hc. by eapply Hc.
Qed.

Lemma on_ioapic_runs {A} m p a (f : M (ioapic D) A) (Q : A -> machine D -> Prop) : g_IOAPICs m !! p = Some a ->
  runs f a (fun x a' => Q x (set_IOAPICs (<[p := a']> (g_IOAPICs m)) m)) -> runs (on_ioapic p f) m Q.
Proof.
  intros Ha (x & a' & Hf & HQ). eapply runs_eq; [|exact HQ]. unfold on_ioapic. by rewrite Ha, Hf.
Qed.

Lemma update_GSI_runs m R g p a f (Q : unit -> machine D -> Prop) : rep m R ->
  x86_64_GetIOAPICForGSI g (g_IOAPICs m) = Some p -> g_IOAPICs m !! p = Some a -> fits (f (entry_of a (g - m_GSIBase a))) ->
  (forall a', changes a (g - m_GSIBase a) (f (entry_of a (g - m_GSIBase a))) a' ->
     Q tt (set_IOAPICs (<[p := a']> (g_IOAPICs m)) m)) ->
  runs (update_entry p g f) m Q.
Proof.
  intros Hm Hp Ha Hf HQ. destruct (chip_of m R g p Hm Hp) as (a1 & Ha1 & [[Hc Hb Hl] _] & Hg). simplify_eq.
  unfold has_GSI in Hg. apply (on_ioapic_runs m p a); [done|]. mstep. mstep. cbn beta zeta. unfold u32, GetGSIBase.
  rewrite (Z.mod_small (g - _)) by lia.
  apply (IOAPIC.update_entry_runs a (g - m_GSIBase a) f); [lia|lia|done|done].
Qed.

Lemma entry_settings e e' : settings e = settings e' ->
  Vector e = Vector e' /\ DeliveryMode e = DeliveryMode e' /\ DestMode e = DestMode e' /\ Masked e = Masked e' /\
  Destination e = Destination e'.
Proof. unfold settings. intros [= E1 E2 E3 E4 E5 E6 E7]. done. Qed.

(** An entry that is changed with the processor and the routing kept. *)
Lemma chip_ok_changes a i e a' : chip_ok a -> 0 <= i -> changes a i e a' -> DestMode e = 0 -> chip_ok a'.
Proof.
  intros [[Hc Hb Hl] Hp] Hi [H1 H2 H3 H4 He Ho] Hd. split.
  - split; rewrite ?H3, ?H4; done.
  - intros j Hj. rewrite H4 in Hj. destruct (decide (j = i)) as [->|Hne].
    + destruct (entry_settings _ _ He) as (_ & _ & -> & _). done.
    + rewrite Ho by done. by apply Hp.
Qed.

(** ** Frames *)

Section Entry.
(** One entry of one chip has been changed. *)
Context (m : machine D) (g : Z) (p : nat) (a a' : ioapic D) (e : x86_64_IOAPIC_RedirectionEntry).
Context (Ha : g_IOAPICs m !! p = Some a) (Hch : changes a (g - m_GSIBase a) e a').

Lemma changed_range : range <$> <[p := a']> (g_IOAPICs m) = range <$> g_IOAPICs m.
Proof. apply (range_insert _ _ a); [done|]. unfold range. by rewrite (ch_GSI _ _ _ _ Hch), (ch_max _ _ _ _ Hch). Qed.

Lemma changed_find g' : x86_64_GetIOAPICForGSI g' (<[p := a']> (g_IOAPICs m)) = x86_64_GetIOAPICForGSI g' (g_IOAPICs m).
Proof. apply find_ioapic_range, changed_range. Qed.

Lemma changed_lookup : <[p := a']> (g_IOAPICs m) !! p = Some a'.
Proof. apply list_lookup_insert_eq. by eapply lookup_lt_Some. Qed.

Lemma changed_other g' p' b : g' <> g -> g_IOAPICs m !! p' = Some b ->
  exists b', <[p := a']> (g_IOAPICs m) !! p' = Some b' /\ m_GSIBase b' = m_GSIBase b /\
    entry_of b' (g' - m_GSIBase b) = entry_of b (g' - m_GSIBase b).
Proof.
  intros Hg Hb. destruct (decide (p' = p)) as [->|Hne].
  - simplify_eq. exists a'. split; [apply changed_lookup|]. split; [apply Hch|]. apply (ch_other _ _ _ _ Hch). lia.
  - exists b. by rewrite list_lookup_insert_ne.
Qed.

Lemma changed_chips : Forall chip_ok (g_IOAPICs m) -> has_GSI a g -> DestMode e = 0 ->
  Forall chip_ok (<[p := a']> (g_IOAPICs m)).
Proof.
  intros Hc Hg He. apply Forall_insert; [done|]. rewrite Forall_lookup in Hc.
  eapply chip_ok_changes; [by eapply Hc| |exact Hch|done]. unfold has_GSI in Hg. lia.
Qed.
End Entry.

(** An interrupt whose parts are untouched. *)
Lemma routed_keep m m' g r info : routed m g r info ->
  (forall p b, x86_64_GetIOAPICForGSI g (g_IOAPICs m) = Some p -> g_IOAPICs m !! p = Some b ->
     x86_64_GetIOAPICForGSI g (g_IOAPICs m') = Some p /\ exists b', g_IOAPICs m' !! p = Some b' /\ m_GSIBase b' = m_GSIBase b /\
       entry_of b' (g - m_GSIBase b) = entry_of b (g - m_GSIBase b)) ->
  (forall q pr d, proc info = Some q -> processors m !! q = Some pr -> m_IRQData pr = Some d ->
     HashMap.get (interrupt info) (handlerMap d) = Some (r_handler r) ->
     exists pr' d', processors m' !! q = Some pr' /\ m_LAPIC pr' = m_LAPIC pr /\ m_IRQData pr' = Some d' /\
       HashMap.get (interrupt info) (handlerMap d') = Some (r_handler r)) ->
  g_ISR_Handlers m' !! Z.to_nat (interrupt info) = Some (Some IRQHandler) ->
  routed m' g r info.
Proof.
  intros [Hv (p & a & Hp & Ha & q & pr & d & id & Hq & Hpr & Hid & Hd & He & Hh) _] Hchip Hproc Hisr. split; [done| |done].
  destruct (Hchip p a Hp Ha) as (Hp' & b' & Hb' & Hbase & Hent).
  destruct (Hproc q pr d Hq Hpr Hd Hh) as (pr' & d' & Hpr' & Hl & Hd' & Hg').
  exists p, b'. split_and!; [done..|]. exists q, pr', d', id. rewrite Hbase, Hent, Hg'. split_and!; congruence.
Qed.

Lemma entry_of_physical m R g p a : rep m R -> x86_64_GetIOAPICForGSI g (g_IOAPICs m) = Some p -> g_IOAPICs m !! p = Some a ->
  has_GSI a g /\ DestMode (entry_of a (g - m_GSIBase a)) = 0.
Proof.
  intros Hm Hp Ha. destruct (chip_of m R g p Hm Hp) as (a1 & Ha1 & [_ Hph] & Hg). simplify_eq. split; [done|].
  apply Hph. unfold has_GSI in Hg. lia.
Qed.

(** ** Masking *)

Definition mask_bit (b : bool) : Z := if b then 1 else 0.

Lemma mask_runs m R g p b : rep m R -> x86_64_GetIOAPICForGSI g (g_IOAPICs m) = Some p ->
  runs (update_entry p g (set_Masked (mask_bit b))) m (fun _ m' => rep m' (alter (with_masked b) g R)).
Proof.
  intros Hm Hp. destruct (chip_of m R g p Hm Hp) as (a & Ha & _ & _).
  destruct (entry_of_physical m R g p a Hm Hp Ha) as [Hg Hph].
  eapply update_GSI_runs; [done..|apply fits_set_Masked, of_buffer_fits|]. intros a' Hch.
  destruct Hm as [H1 H2 H3 H4 Hc H5 H6 H7]. split; cbn [g_ISR_Handlers g_IOAPICs g_interruptMap processors set_IOAPICs]; try done.
  - by eapply changed_chips.
  - intros g'. specialize (H6 g'). destruct (decide (g' = g)) as [->|Hne].
    + rewrite lookup_alter_eq. destruct (R !! g) as [r|]; [|done]. cbn [fmap option_fmap option_map].
      destruct (HashMap.get g (g_interruptMap m)) as [info|]; [|done]. destruct H6 as [Hgr [Hv (p1 & a1 & Hp1 & Ha1 & Hrest) Hisr]].
      split; [done|]. assert (p1 = p) as -> by congruence. assert (a1 = a) as -> by congruence. split; [done| |done].
      cbn [g_IOAPICs set_IOAPICs processors]. exists p, a'. rewrite (changed_find m g p a a' _ Ha Hch), (changed_lookup m p a a' Ha).
      split_and!; [done..|]. destruct Hrest as (q & pr & d & id & Hq & Hpr & Hid & Hd & (E1 & E2 & E3 & E4 & E5) & Hh).
      exists q, pr, d, id. split_and!; [done..| |done]. rewrite (ch_GSI _ _ _ _ Hch).
      destruct (entry_settings _ _ (ch_entry _ _ _ _ Hch)) as (F1 & F2 & F3 & F4 & F5). unfold entry_ok.
      rewrite F1, F2, F3, F4, F5. split_and!; try done. by destruct b.
    + rewrite lookup_alter_ne by done. destruct (R !! g') as [r|], (HashMap.get g' _) as [info|]; try done.
      destruct H6 as [Hgr H6]. split; [done|]. apply (routed_keep m); [done| | |apply H6].
      * intros p' b' Hp' Hb'. cbn [g_IOAPICs set_IOAPICs]. rewrite (changed_find m g p a a' _ Ha Hch). split; [done|]. by eapply changed_other.
      * intros q pr d _ Hpr Hd Hh. by exists pr, d.
Qed.

Lemma MaskGSI_runs m R g : rep m R ->
  runs (x86_64_MaskGSI g) m (fun ok m' =>
    ok = bool_decide (is_Some (x86_64_GetIOAPICForGSI g (g_IOAPICs m))) /\ rep m' (if ok then alter (with_masked true) g R else R)).
Proof.
  intros Hm. unfold x86_64_MaskGSI, ioapic_for. mgo. destruct (x86_64_GetIOAPICForGSI g (g_IOAPICs m)) as [p|] eqn:Hp; mstep.
  - eapply runs_mono; [by apply (mask_runs m R g p true)|]. intros ? m' Hm'. mstep. split; [|done]. by rewrite bool_decide_eq_true_2.
  - done.
Qed.

Lemma UnmaskGSI_runs m R g : rep m R ->
  runs (x86_64_UnmaskGSI g) m (fun ok m' =>
    ok = bool_decide (is_Some (x86_64_GetIOAPICForGSI g (g_IOAPICs m))) /\ rep m' (if ok then alter (with_masked false) g R else R)).
Proof.
  intros Hm. unfold x86_64_UnmaskGSI, ioapic_for. mgo. destruct (x86_64_GetIOAPICForGSI g (g_IOAPICs m)) as [p|] eqn:Hp; mstep.
  - eapply runs_mono; [by apply (mask_runs m R g p false)|]. intros ? m' Hm'. mstep. split; [|done]. by rewrite bool_decide_eq_true_2.
  - done.
Qed.

(** ** Registering a handler *)

(** The vectors that are given out. *)
Definition vectors : list Z := seqZ 48 206.
Definition free_vector (d : x86_64_ProcessorIRQData) : option Z :=
  head (filter (fun v => Bitmap.bit (usedInterrupts d) v = false) vectors).

(** Whether a handler can be registered: there is a chip, and the current processor has its data, a local APIC
    and a free vector. *)
Definition can_register m (g : Z) : bool :=
  match x86_64_GetIOAPICForGSI g (g_IOAPICs m), current m ≫= (processors m !!.) with
  | Some _, Some pr =>
      match m_IRQData pr, m_LAPIC pr with Some d, Some _ => bool_decide (is_Some (free_vector d)) | _, _ => false end
  | _, _ => false
  end.

(** The data of a processor once the vector [i] has a handler. *)
Definition with_handler (d : x86_64_ProcessorIRQData) (i : Z) (h : HandlerData) : x86_64_ProcessorIRQData :=
  mkIRQData (Bitmap.updated (usedInterrupts d) i true) (HashMap.insert i h (handlerMap d)).

Lemma with_handler_ok d i h : data_ok d -> 0 <= i < 256 -> data_ok (with_handler d i h).
Proof.
  intros [Hw Hs Hso Hu] Hi. split; cbn [usedInterrupts handlerMap with_handler].
  - apply Bitmap.updated_wf; [done|lia].
  - by rewrite Bitmap.updated_size.
  - by apply HashMap.sorted_insert.
  - intros v h' Hv. rewrite HashMap.get_insert by done. rewrite Bitmap.updated_bit by (first [done|lia]).
    destruct (Z.eqb_spec v i), (decide (v = i)); try done. by apply Hu.
Qed.

(** The state once the vector [i] of the processor [q] is assigned to [g]. *)
Definition assigned m (p q : nat) (a' : ioapic D) (d : x86_64_ProcessorIRQData) (i g : Z) (h : HandlerData) : machine D :=
  set_processors (alter (fun pr => mkProcessor (m_LAPIC pr) (Some (with_handler d i h))) q (processors m))
    (set_ISR_Handlers (<[Z.to_nat i := Some IRQHandler]> (g_ISR_Handlers m))
      (set_interruptMap (HashMap.insert g (mkInfo (Some q) i) (g_interruptMap m))
        (set_IOAPICs (<[p := a']> (g_IOAPICs m)) m))).

(** The change of the entry. *)
Definition assign_entry (i id : Z) (e : x86_64_IOAPIC_RedirectionEntry) : x86_64_IOAPIC_RedirectionEntry :=
  set_Masked 1 (set_Destination id (set_Vector i (set_DeliveryMode (delivery_code Fixed) e))).

Lemma assign_eq m R p q a pr d i g h c id (Q : bool -> machine D -> Prop) :
  rep m R -> x86_64_GetIOAPICForGSI g (g_IOAPICs m) = Some p -> g_IOAPICs m !! p = Some a ->
  processors m !! q = Some pr -> m_IRQData pr = Some d -> m_LAPIC pr = Some id -> 48 <= i < 254 ->
  (forall a', changes a (g - m_GSIBase a) (assign_entry i id (entry_of a (g - m_GSIBase a))) a' ->
     Q true (assigned m p q a' d i g (mkHandler h c))) ->
  runs (assign p q d i g h c) m Q.
Proof.
  intros Hm Hp Ha Hpr Hd Hid Hi HQ. pose proof (rep_data _ _ Hm q pr d Hpr Hd) as [Hw Hs _ _].
  unfold assign, get_processor. do 3 mstep. cbn beta. rewrite Hpr. mstep. rewrite Hid. mstep.
  eapply update_GSI_runs; [done..| |].
  { unfold assign_entry, entry_of. auto 10 with ioapic. }
  intros a' Hch. unfold x86_64_ISR_RegisterHandler. mgo. unfold bitmap. cbn [usedInterrupts].
  rewrite Bitmap.Set_eq by (done || lia). unfold SetIRQData, upd_processor. mgo. rewrite Z.mod_small by lia. by apply HQ.
Qed.

Section Assigned.
Context (m : machine D) (R : gmap Z route) (p q : nat) (a a' : ioapic D) (pr : x86_64_Processor) (d : x86_64_ProcessorIRQData)
  (i g id : Z) (h : HandlerData).
Context (Hm : rep m R) (Hp : x86_64_GetIOAPICForGSI g (g_IOAPICs m) = Some p) (Ha : g_IOAPICs m !! p = Some a)
  (Hpr : processors m !! q = Some pr) (Hd : m_IRQData pr = Some d) (Hid : m_LAPIC pr = Some id) (Hi : 48 <= i < 254)
  (Hfree : Bitmap.bit (usedInterrupts d) i = false)
  (Hg : 0 <= g < 2 ^ 32) (Hnew : R !! g = None)
  (Hch : changes a (g - m_GSIBase a) (assign_entry i id (entry_of a (g - m_GSIBase a))) a').

Let m' : machine D := assigned m p q a' d i g h.

Lemma assigned_get g' : HashMap.get g' (g_interruptMap m') =
  if g' =? g then Some (mkInfo (Some q) i) else HashMap.get g' (g_interruptMap m).
Proof.
  cbn [m' g_interruptMap assigned set_processors set_ISR_Handlers set_interruptMap]. rewrite HashMap.get_insert by apply Hm.
  pose proof (rep_routes _ _ Hm g) as H. rewrite Hnew in H. by destruct (HashMap.get g (g_interruptMap m)).
Qed.

Lemma assigned_processor : processors m' !! q = Some (mkProcessor (Some id) (Some (with_handler d i h))).
Proof. cbn [m' processors assigned set_processors]. by rewrite list_lookup_alter_eq, Hpr, <- Hid. Qed.

Lemma no_handler : HashMap.get i (handlerMap d) = None.
Proof.
  destruct (HashMap.get i (handlerMap d)) as [h'|] eqn:E; [|done]. destruct (rep_data _ _ Hm q pr d Hpr Hd) as [_ _ _ Hu].
  rewrite (Hu i h') in Hfree by (done || lia). done.
Qed.

Lemma assigned_new : routed m' g (mkRoute h true) (mkInfo (Some q) i).
Proof.
  pose proof (rep_lapic _ _ Hm q pr id Hpr Hid) as Hid'. destruct (entry_of_physical m R g p a Hm Hp Ha) as [_ Hph].
  split; cbn [interrupt proc]; [lia| |].
  - exists p, a'. cbn [m' g_IOAPICs assigned set_processors set_ISR_Handlers set_interruptMap set_IOAPICs].
    rewrite (changed_find m g p a a' _ Ha Hch), (changed_lookup m p a a' Ha). split_and!; [done..|].
    exists q, (mkProcessor (Some id) (Some (with_handler d i h))), (with_handler d i h), id.
    split_and!; [done|apply assigned_processor|done|done| |].
    + rewrite (ch_GSI _ _ _ _ Hch). destruct (entry_settings _ _ (ch_entry _ _ _ _ Hch)) as (F1 & F2 & F3 & F4 & F5).
      unfold entry_ok. rewrite F1, F2, F3, F4, F5. unfold assign_entry.
      cbn -[Z.modulo entry_of]. rewrite !Z.mod_small by lia. done.
    + cbn [with_handler handlerMap]. rewrite HashMap.get_insert by apply (rep_data _ _ Hm q pr d Hpr Hd).
      rewrite Z.eqb_refl, no_handler. done.
  - cbn [m' g_ISR_Handlers assigned set_processors set_ISR_Handlers]. apply list_lookup_insert_eq.
    rewrite (rep_table _ _ Hm). lia.
Qed.

Lemma assigned_rep : rep m' (<[g := mkRoute h true]> R).
Proof.
  destruct (entry_of_physical m R g p a Hm Hp Ha) as [Hgsi Hph]. split.
  - cbn [m' g_ISR_Handlers assigned set_processors set_ISR_Handlers]. rewrite length_insert. apply Hm.
  - cbn [m' g_IOAPICs assigned set_processors set_ISR_Handlers set_interruptMap set_IOAPICs].
    eapply changed_chips; [done..|apply Hm|done|done].
  - apply HashMap.sorted_insert, Hm.
  - intros q' pr' d'. cbn [m' processors assigned set_processors]. destruct (decide (q' = q)) as [->|Hne].
    + rewrite list_lookup_alter_eq, Hpr. intros [= <-] [= <-]. apply with_handler_ok; [by eapply Hm|lia].
    + rewrite list_lookup_alter_ne by done. apply Hm.
  - intros q' Hq'. destruct (rep_current _ _ Hm q' Hq') as [pr' Hpr']. cbn [m' processors assigned set_processors].
    destruct (decide (q' = q)) as [->|Hne]; [by rewrite list_lookup_alter_eq, Hpr|by rewrite list_lookup_alter_ne, Hpr'].
  - intros q' pr' id'. cbn [m' processors assigned set_processors]. destruct (decide (q' = q)) as [->|Hne].
    + rewrite list_lookup_alter_eq, Hpr. intros [= <-] Hid'. by apply (rep_lapic _ _ Hm q pr).
    + rewrite list_lookup_alter_ne by done. apply Hm.
  - intros g'. rewrite assigned_get. destruct (Z.eqb_spec g' g) as [->|Hne].
    + rewrite lookup_insert_eq. split; [done|]. apply assigned_new.
    + rewrite lookup_insert_ne by done. pose proof (rep_routes _ _ Hm g') as H.
      destruct (R !! g') as [r|], (HashMap.get g' (g_interruptMap m)) as [info|]; try done. destruct H as [Hg' H]. split; [done|].
      apply (routed_keep m); [done| | |].
      * intros p' b Hp' Hb. cbn [m' g_IOAPICs assigned set_processors set_ISR_Handlers set_interruptMap set_IOAPICs].
        rewrite (changed_find m g p a a' _ Ha Hch). split; [done|]. by eapply changed_other.
      * intros q' pr' d' Hq' Hpr' Hd' Hh'. cbn [m' processors assigned set_processors]. destruct (decide (q' = q)) as [->|Hq].
        -- rewrite list_lookup_alter_eq, Hpr. assert (pr' = pr) as -> by congruence. assert (d' = d) as -> by congruence. eexists _, _. split_and!; [done..|]. cbn [with_handler handlerMap].
           rewrite HashMap.get_insert by apply (rep_data _ _ Hm q pr d Hpr Hd).
           destruct (Z.eqb_spec (interrupt info) i) as [E|]; [|done]. rewrite <- E, Hh'. done.
        -- rewrite list_lookup_alter_ne by done. by exists pr', d'.
      * cbn [m' g_ISR_Handlers assigned set_processors set_ISR_Handlers]. rewrite list_lookup_insert. case_decide; [done|]. apply H.
  - intros g1 g2 info1 info2. rewrite !assigned_get.
    assert (Hold : forall g' info', HashMap.get g' (g_interruptMap m) = Some info' -> proc info' = Some q -> interrupt info' <> i).
    { intros g' info' Hget Hq Hi'. pose proof (rep_routes _ _ Hm g') as H. rewrite Hget in H.
      destruct (R !! g') as [r|]; [|done]. destruct H as [_ [_ (p1 & a1 & _ & _ & q1 & pr1 & d1 & id1 & Hq1 & Hpr1 & _ & Hd1 & _ & Hh1) _]].
      pose proof no_handler. assert (q1 = q) as -> by congruence. assert (pr1 = pr) as -> by congruence. congruence. }
    destruct (Z.eqb_spec g1 g) as [->|], (Z.eqb_spec g2 g) as [->|]; intros; simplify_eq; try done.
    + exfalso. by eapply Hold.
    + exfalso. by eapply Hold.
    + by eapply (rep_inj _ _ Hm).
Qed.
End Assigned.

Lemma find_vector_runs m R p q a pr d g h c (Q : bool -> machine D -> Prop) :
  rep m R -> x86_64_GetIOAPICForGSI g (g_IOAPICs m) = Some p -> g_IOAPICs m !! p = Some a ->
  processors m !! q = Some pr -> m_IRQData pr = Some d -> 0 <= g < 2 ^ 32 -> R !! g = None ->
  forall n i, 48 <= i -> i + Z.of_nat n = 254 ->
  match m_LAPIC pr, head (filter (fun v => Bitmap.bit (usedInterrupts d) v = false) (seqZ i (Z.of_nat n))) with
  | Some id, Some _ => forall m', rep m' (<[g := mkRoute (mkHandler h c) true]> R) -> Q true m'
  | _, _ => Q false m
  end -> runs (find_vector n i p q d g h c) m Q.
Proof.
  intros Hm Hp Ha Hpr Hd Hg Hnew n. pose proof (rep_data _ _ Hm q pr d Hpr Hd) as [Hw Hs _ _].
  induction n as [|n IH]; intros i Hi Hn HQ; cbn [find_vector].
  { cbn in HQ. destruct (m_LAPIC pr); by mstep. }
  unfold bitmap. rewrite Bitmap.Get_eq, Hs by (done || lia). rewrite (proj2 (Z.ltb_lt i _)) by lia. mgo. cbn [fst].
  rewrite Nat2Z.inj_succ, seqZ_cons in HQ by lia. rewrite Z.pred_succ, filter_cons in HQ.
  destruct (Bitmap.bit (usedInterrupts d) i) eqn:Hb; cbn [negb].
  - rewrite decide_False in HQ by done. replace (Z.succ i) with (i + 1) in HQ by lia. apply IH; [lia..|done].
  - rewrite decide_True in HQ by done. cbn [head] in HQ. destruct (m_LAPIC pr) as [id|] eqn:Hid.
    + eapply assign_eq; [done..|lia|]. intros a' Hch. apply HQ. eapply assigned_rep; [done..|lia|done|done|done|done].
    + unfold assign, get_processor. mgo. rewrite Hpr. mgo. rewrite Hid. by mstep.
Qed.

Lemma RegisterGSIHandler_runs m R g h c : rep m R -> 0 <= g < 2 ^ 32 -> R !! g = None ->
  runs (x86_64_RegisterGSIHandler g h c) m (fun ok m' =>
    ok = can_register m g /\ if ok then rep m' (<[g := mkRoute (mkHandler h c) true]> R) else m' = m).
Proof.
  intros Hm Hg Hnew. pose proof (rep_current _ _ Hm) as Hcur. unfold x86_64_RegisterGSIHandler, ioapic_for, can_register. do 2 mstep. cbn beta.
  destruct (x86_64_GetIOAPICForGSI g (g_IOAPICs m)) as [p|] eqn:Hp; [|by mstep]. do 2 mstep. cbn beta.
  destruct (current m) as [q|]; [|by mstep]. destruct (Hcur q eq_refl) as [pr Hpr]. cbn [mbind option_bind]. unfold get_processor.
  do 3 mstep. cbn beta. rewrite Hpr. mstep. destruct (m_IRQData pr) as [d|] eqn:Hd; [|by mstep].
  destruct (chip_of m R g p Hm Hp) as (a & Ha & _ & _).
  eapply find_vector_runs; [done..|lia|lia|]. unfold free_vector.
  change (seqZ 48 (Z.of_nat 206)) with vectors. destruct (m_LAPIC pr); [|done].
  destruct (head _); [|done]. intros m' Hm'. by split; [|].
Qed.

(** ** Removing a handler *)

Definition without_handler (d : x86_64_ProcessorIRQData) (i : Z) : x86_64_ProcessorIRQData :=
  mkIRQData (usedInterrupts d) (HashMap.remove i (handlerMap d)).

Lemma without_handler_ok d i : data_ok d -> data_ok (without_handler d i).
Proof.
  intros [Hw Hs Hso Hu]. split; cbn [without_handler usedInterrupts handlerMap]; try done; [by apply HashMap.sorted_remove|].
  intros v h Hv. rewrite HashMap.get_remove by done. destruct (v =? i); [done|]. by apply Hu.
Qed.

Definition removed m (p q : nat) (a' : ioapic D) (d : x86_64_ProcessorIRQData) (i g : Z) : machine D :=
  set_processors (alter (fun pr => mkProcessor (m_LAPIC pr) (Some (without_handler d i))) q (processors m))
    (set_interruptMap (HashMap.remove g (g_interruptMap m)) (set_IOAPICs (<[p := a']> (g_IOAPICs m)) m)).

Section Removed.
Context (m : machine D) (R : gmap Z route) (p q : nat) (a a' : ioapic D) (pr : x86_64_Processor) (d : x86_64_ProcessorIRQData)
  (i g : Z) (e : x86_64_IOAPIC_RedirectionEntry).
Context (Hm : rep m R) (Hp : x86_64_GetIOAPICForGSI g (g_IOAPICs m) = Some p) (Ha : g_IOAPICs m !! p = Some a)
  (Hpr : processors m !! q = Some pr) (Hd : m_IRQData pr = Some d)
  (Hget : HashMap.get g (g_interruptMap m) = Some (mkInfo (Some q) i)) (He : DestMode e = 0)
  (Hch : changes a (g - m_GSIBase a) e a').

Let m' : machine D := removed m p q a' d i g.

Lemma removed_get g' : HashMap.get g' (g_interruptMap m') = if g' =? g then None else HashMap.get g' (g_interruptMap m).
Proof. cbn [m' removed g_interruptMap set_processors set_interruptMap]. apply HashMap.get_remove, Hm. Qed.

Lemma removed_rep : rep m' (delete g R).
Proof.
  destruct (entry_of_physical m R g p a Hm Hp Ha) as [Hgsi _]. split.
  - apply Hm.
  - cbn [m' g_IOAPICs removed set_processors set_interruptMap set_IOAPICs]. eapply changed_chips; [done..|apply Hm|done|done].
  - apply HashMap.sorted_remove, Hm.
  - intros q' pr' d'. cbn [m' processors removed set_processors]. destruct (decide (q' = q)) as [->|Hne].
    + rewrite list_lookup_alter_eq, Hpr. intros [= <-] [= <-]. apply without_handler_ok. by eapply Hm.
    + rewrite list_lookup_alter_ne by done. apply Hm.
  - intros q' Hq'. destruct (rep_current _ _ Hm q' Hq') as [pr' Hpr']. cbn [m' processors removed set_processors].
    destruct (decide (q' = q)) as [->|Hne]; [by rewrite list_lookup_alter_eq, Hpr|by rewrite list_lookup_alter_ne, Hpr'].
  - intros q' pr' id'. cbn [m' processors removed set_processors]. destruct (decide (q' = q)) as [->|Hne].
    + rewrite list_lookup_alter_eq, Hpr. intros [= <-] Hid'. by apply (rep_lapic _ _ Hm q pr).
    + rewrite list_lookup_alter_ne by done. apply Hm.
  - intros g'. rewrite removed_get. destruct (Z.eqb_spec g' g) as [->|Hne]; [by rewrite lookup_delete_eq|].
    rewrite lookup_delete_ne by done. pose proof (rep_routes _ _ Hm g') as H.
    destruct (R !! g') as [r|], (HashMap.get g' (g_interruptMap m)) as [info|] eqn:Hget'; try done.
    destruct H as [Hg' H]. split; [done|]. apply (routed_keep m); [done| | |apply H].
    + intros p' b Hp' Hb. cbn [m' g_IOAPICs removed set_processors set_interruptMap set_IOAPICs].
      rewrite (changed_find m g p a a' _ Ha Hch). split; [done|]. by eapply changed_other.
    + intros q' pr' d' Hq' Hpr' Hd' Hh'. cbn [m' processors removed set_processors]. destruct (decide (q' = q)) as [->|Hq].
      * rewrite list_lookup_alter_eq, Hpr. assert (pr' = pr) as -> by congruence. assert (d' = d) as -> by congruence.
        eexists _, _. split_and!; [done..|]. cbn [without_handler handlerMap].
        rewrite HashMap.get_remove by apply (rep_data _ _ Hm q pr d Hpr Hd).
        destruct (Z.eqb_spec (interrupt info) i) as [E|]; [|done]. destruct Hne. by eapply (rep_inj _ _ Hm).
      * rewrite list_lookup_alter_ne by done. by exists pr', d'.
  - intros g1 g2 info1 info2. rewrite !removed_get. destruct (g1 =? g), (g2 =? g); try done. apply (rep_inj _ _ Hm).
Qed.
End Removed.

Lemma RemoveGSIHandler_runs m R g : rep m R ->
  runs (x86_64_RemoveGSIHandler g) m (fun ok m' => ok = bool_decide (is_Some (R !! g)) /\ rep m' (delete g R)).
Proof.
  intros Hm. unfold x86_64_RemoveGSIHandler. do 2 mstep. cbn beta. pose proof (rep_routes _ _ Hm g) as H.
  destruct (R !! g) as [r|] eqn:Hr, (HashMap.get g (g_interruptMap m)) as [info|] eqn:Hget; try done.
  - destruct H as [_ [Hv (p & a & Hp & Ha & q & pr & d & id & Hq & Hpr & Hid & Hd & He & Hh) _]]. rewrite Hq.
    unfold get_processor. do 3 mstep. cbn beta. rewrite Hpr. mstep. rewrite Hd, Hh. unfold ioapic_for. do 2 mstep. cbn beta.
    rewrite Hp. mstep. eapply update_GSI_runs; [done..|unfold entry_of; auto with ioapic|].
    intros a' Hch. unfold SetIRQData, upd_processor. mgo. split; [by rewrite bool_decide_eq_true_2|].
    refine (removed_rep m R p q a a' pr d (interrupt info) g _ Hm Hp Ha Hpr Hd _ _ Hch); [rewrite <- Hq; by destruct info|].
    by destruct (entry_of_physical m R g p a Hm Hp Ha).
  - mstep. split; [done|]. by rewrite delete_id.
Qed.

(** ** The operations together *)

Inductive op : Set :=
  | ORegister (g : Z) (h : gsi_handler) (c : Z)
  | ORemove (g : Z)
  | OMask (g : Z)
  | OUnmask (g : Z).

Definition run_op (o : op) : M (machine D) bool :=
  match o with
  | ORegister g h c => x86_64_RegisterGSIHandler g h c
  | ORemove g => x86_64_RemoveGSIHandler g
  | OMask g => x86_64_MaskGSI g
  | OUnmask g => x86_64_UnmaskGSI g
  end.
Fixpoint run_ops (os : list op) : M (machine D) (list bool) :=
  match os with
  | [] => ret []
  | o :: os' => let* b := run_op o in let* bs := run_ops os' in ret (b :: bs)
  end.

(** What an operation may answer and do to the interrupts that have a handler. *)
Inductive op_spec R : op -> bool -> gmap Z route -> Prop :=
  | spec_register g h c : R !! g = None -> op_spec R (ORegister g h c) true (<[g := mkRoute (mkHandler h c) true]> R)
  | spec_no_vector g h c : op_spec R (ORegister g h c) false R
  | spec_remove g : op_spec R (ORemove g) (bool_decide (is_Some (R !! g))) (delete g R)
  | spec_mask g : op_spec R (OMask g) true (alter (with_masked true) g R)
  | spec_unmask g : op_spec R (OUnmask g) true (alter (with_masked false) g R)
  | spec_mask_none g : op_spec R (OMask g) false R
  | spec_unmask_none g : op_spec R (OUnmask g) false R.
Inductive ops_spec : gmap Z route -> list op -> list bool -> gmap Z route -> Prop :=
  | specs_nil R : ops_spec R [] [] R
  | specs_cons R R1 R2 o os b bs : op_spec R o b R1 -> ops_spec R1 os bs R2 -> ops_spec R (o :: os) (b :: bs) R2.

(** An interrupt is not registered again before it is removed. *)
Fixpoint legal (X : gset Z) (os : list op) : Prop :=
  match os with
  | [] => True
  | ORegister g _ _ :: os' => 0 <= g < 2 ^ 32 /\ g ∉ X /\ legal ({[g]} ∪ X) os'
  | ORemove g :: os' => legal (X ∖ {[g]}) os'
  | _ :: os' => legal X os'
  end.

Lemma run_op_runs m R o : rep m R ->
  match o with ORegister g _ _ => 0 <= g < 2 ^ 32 /\ R !! g = None | _ => True end ->
  runs (run_op o) m (fun b m' => exists R', op_spec R o b R' /\ rep m' R').
Proof.
  intros Hm Hl. destruct o as [g h c|g|g|g]; cbn [run_op].
  - destruct Hl as [Hg Hn]. eapply runs_mono; [by apply RegisterGSIHandler_runs|]. intros ok m' [_ H].
    destruct ok; [eexists; split; [by constructor|done]|]. subst m'. exists R. split; [constructor|done].
  - eapply runs_mono; [by apply RemoveGSIHandler_runs|]. intros ok m' [-> H]. eexists. split; [constructor|done].
  - eapply runs_mono; [by apply MaskGSI_runs|]. intros ok m' [_ H]. destruct ok; eexists; (split; [constructor|done]).
  - eapply runs_mono; [by apply UnmaskGSI_runs|]. intros ok m' [_ H]. destruct ok; eexists; (split; [constructor|done]).
Qed.

Lemma dom_op_spec R o b R' : op_spec R o b R' ->
  dom R' ⊆ match o with ORegister g _ _ => {[g]} ∪ dom R | ORemove g => dom R ∖ {[g]} | _ => dom R end.
Proof. destruct 1; rewrite ?dom_insert_L, ?dom_delete_L, ?dom_alter_L; set_solver. Qed.

Lemma run_ops_runs os : forall m R X, rep m R -> dom R ⊆ X -> legal X os ->
  runs (run_ops os) m (fun bs m' => exists R', ops_spec R os bs R' /\ rep m' R').
Proof.
  induction os as [|o os IH]; intros m R X Hm HX Hl; cbn [run_ops].
  { mstep. exists R. split; [constructor|done]. }
  mstep. eapply runs_mono.
  { apply (run_op_runs m R o Hm). destruct o; try done. cbn in Hl. destruct Hl as (Hg & Hn & _). split; [done|].
    apply not_elem_of_dom. set_solver. }
  intros b m1 (R1 & Hs & Hm1). pose proof (dom_op_spec _ _ _ _ Hs) as Hd. mstep.
  assert (exists X1, dom R1 ⊆ X1 /\ legal X1 os) as (X1 & HX1 & Hl1).
  { destruct o; cbn in Hl, Hd; [exists ({[g]} ∪ X)|exists (X ∖ {[g]})|exists X|exists X]; (split; [set_solver|]); tauto. }
  eapply runs_mono; [by apply (IH m1 R1 X1)|]. intros bs m2 (R2 & Hs2 & Hm2). mstep. exists R2. split; [by econstructor|done].
Qed.

(** ** Delivery *)

(** The processor and the vector the chip signals for an interrupt: with fixed delivery to a physical
    destination, the processor whose local APIC has the identifier. *)
Definition signals m (g : Z) : option (nat * Z) :=
  p ← x86_64_GetIOAPICForGSI g (g_IOAPICs m);
  a ← g_IOAPICs m !! p;
  let e := entry_of a (g - m_GSIBase a) in
  if (Masked e =? 0) && (DeliveryMode e =? 0) && (DestMode e =? 0) then
    q ← fst <$> list_find (fun pr => m_LAPIC pr = Some (Destination e)) (processors m);
    Some (q, Vector e)
  else None.

(** Processors have local APICs of their own. *)
Definition distinct_LAPICs m : Prop :=
  forall q q' pr pr' id, processors m !! q = Some pr -> processors m !! q' = Some pr' ->
    m_LAPIC pr = Some id -> m_LAPIC pr' = Some id -> q = q'.

Section Deliver.
Context (call_gsi : Z -> x86_64_ISR_Frame -> Z -> M (machine D) unit) (call_int : Z -> Z -> M (machine D) unit)
  (call_isr : Z -> x86_64_ISR_Frame -> M (machine D) unit) (PageFaultHandler : x86_64_ISR_Frame -> M (machine D) unit)
  (HandleNMI : x86_64_ISR_Frame -> M (machine D) bool).

Lemma deliver m R g r : rep m R -> distinct_LAPICs m -> R !! g = Some r -> r_masked r = false ->
  exists q v id, signals m g = Some (q, v) /\
    (exists pr, processors m !! q = Some pr /\ m_LAPIC pr = Some id) /\
    forall frame, INT frame = v ->
      x86_64_ISR_Handler call_gsi call_int call_isr PageFaultHandler HandleNMI frame (set_current (Some q) m) =
      (run_gsi call_gsi call_int (r_handler r) frame ;;; emit (EOI id)) (set_current (Some q) m).
Proof.
  intros Hm Hdis Hr Hk. pose proof (rep_routes _ _ Hm g) as H. rewrite Hr in H.
  destruct (HashMap.get g (g_interruptMap m)) as [info|]; [|done].
  destruct H as [_ [Hv (p & a & Hp & Ha & q & pr & d & id & Hq & Hpr & Hid & Hd & (E1 & E2 & E3 & E4 & E5) & Hh) Hisr]].
  exists q, (interrupt info), id. rewrite Hk in E4. split_and!.
  - unfold signals. rewrite Hp. cbn [mbind option_bind]. rewrite Ha. cbn [mbind option_bind]. rewrite E1, E2, E3, E4, E5.
    cbn [Z.eqb andb]. rewrite (proj2 (list_find_Some _ _ q pr)); [done|]. split_and!; [done..|].
    intros q' pr' Hq' Hlt Hl. rewrite (Hdis q' q pr' pr id) in Hlt by done. lia.
  - by exists pr.
  - intros frame Hf. unfold x86_64_ISR_Handler, bind, gets. cbn [g_ISR_Handlers set_current]. rewrite Hf, Hisr.
    unfold run_isr, x86_64_IRQHandler, get_processor, bind, gets. cbn [current processors set_current]. rewrite Hpr.
    cbn [ret]. rewrite Hid, Hd, Hf, Z.mod_small, Hh by lia. done.
Qed.

Lemma masked_silent m R g r : rep m R -> R !! g = Some r -> r_masked r = true -> signals m g = None.
Proof.
  intros Hm Hr Hk. pose proof (rep_routes _ _ Hm g) as H. rewrite Hr in H.
  destruct (HashMap.get g (g_interruptMap m)) as [info|]; [|done].
  destruct H as [_ [Hv (p & a & Hp & Ha & q & pr & d & id & Hq & Hpr & Hid & Hd & (E1 & E2 & E3 & E4 & E5) & Hh) Hisr]].
  unfold signals. rewrite Hp. cbn [mbind option_bind]. rewrite Ha. cbn [mbind option_bind]. by rewrite E4, Hk.
Qed.
End Deliver.

(** ** Start-up *)

(** After the chips have been found and before the bootstrap processor has its data. *)
Record booted m (q : nat) : Prop := {
  boot_table : length (g_ISR_Handlers m) = 256%nat;
  boot_chips : Forall chip_ok (g_IOAPICs m);
  boot_map : g_interruptMap m = [];
  boot_current : current m = Some q /\ is_Some (processors m !! q);
  boot_data q' pr : processors m !! q' = Some pr -> m_IRQData pr = None;
  boot_lapic q' pr id : processors m !! q' = Some pr -> m_LAPIC pr = Some id -> 0 <= id < 256
}.

Lemma initial_data_ok : data_ok (mkIRQData (Bitmap.mkBitmap initial_used 32) []).
Proof.
  split; cbn [usedInterrupts handlerMap Bitmap.m_Size]; [|done|done|done]. split; cbn [Bitmap.m_Size Bitmap.m_Buffer]; [done| |lia].
  unfold initial_used. rewrite !Forall_app. unfold Bitmap.byte. split_and!; repeat constructor; lia.
Qed.

Lemma FullInit_runs m q : booted m q -> runs x86_64_IRQ_FullInit m (fun _ m' => rep m' ∅).
Proof.
  intros [H1 H2 H3 [Hc [pr Hpr]] Hd Hl]. unfold x86_64_IRQ_FullInit. mgo. rewrite Hc. unfold SetIRQData, upd_processor. mgo. split.
  - done.
  - done.
  - cbn. by rewrite H3.
  - cbn [processors set_processors]. intros q' pr' d'. destruct (decide (q' = q)) as [->|Hne].
    + rewrite list_lookup_alter_eq, Hpr. intros [= <-] [= <-]. apply initial_data_ok.
    + rewrite list_lookup_alter_ne by done. intros Hpr' Hd'. by rewrite (Hd q' pr') in Hd'.
  - cbn [processors set_processors current]. rewrite Hc. intros q' [= <-]. by rewrite list_lookup_alter_eq, Hpr.
  - cbn [processors set_processors]. intros q' pr' id. destruct (decide (q' = q)) as [->|Hne].
    + rewrite list_lookup_alter_eq, Hpr. intros [= <-]. by apply (Hl q pr).
    + rewrite list_lookup_alter_ne by done. apply Hl.
  - intros g. cbn [g_interruptMap set_processors]. by rewrite lookup_empty, H3.
  - cbn [g_interruptMap set_processors]. intros g g' info info'. by rewrite H3.
Qed.

(** A chip whose start-up is done is as the representation wants it. *)
Lemma Init_chip_ok a : entries (reg (chip a) 1) <= 120 -> 0 <= m_GSIBase a ->
  m_GSIBase a + entries (reg (chip a) 1) <= 2 ^ 32 -> runs Init a (fun _ a' => chip_ok a').
Proof.
  intros He Hb Hl. eapply runs_mono; [by apply Init_masks|]. intros ? a' (_ & Hg & _ & Hm & Hs).
  pose proof (field_range 16 8 (reg (chip a) 1) ltac:(lia) ltac:(lia)) as Hr. unfold entries in *. split.
  - split; lia.
  - intros j Hj. rewrite Hm in Hj. specialize (Hs j Hj). unfold settings in Hs. by injection Hs.
Qed.

(** C26: From the start-up on, registering, removing, masking and unmasking the handlers of global system interrupts in any order in
    which none is registered twice ends, answers and changes the interrupts that have a handler as the abstract map says; in
    the state that results an interrupt that is masked is not signalled, and one that is not masked is signalled to one
    processor, where the interrupt handler does nothing but run the function and the context that were registered for it
    and then end the interrupt at that processor's local APIC. *)
Theorem GSI_handlers_refine (call_gsi : Z -> x86_64_ISR_Frame -> Z -> M (machine D) unit) (call_int : Z -> Z -> M (machine D) unit)
    (call_isr : Z -> x86_64_ISR_Frame -> M (machine D) unit) (PageFaultHandler : x86_64_ISR_Frame -> M (machine D) unit)
    (HandleNMI : x86_64_ISR_Frame -> M (machine D) bool) (m : machine D) (q0 : nat) (os : list op) :
  booted m q0 -> legal ∅ os ->
  runs (x86_64_IRQ_FullInit ;;; run_ops os) m (fun bs m' => exists R, ops_spec ∅ os bs R /\ rep m' R /\
    forall g r, R !! g = Some r ->
      if r_masked r then signals m' g = None else
      distinct_LAPICs m' ->
      exists q v id, signals m' g = Some (q, v) /\
        (exists pr, processors m' !! q = Some pr /\ m_LAPIC pr = Some id) /\
        forall frame, INT frame = v ->
          x86_64_ISR_Handler call_gsi call_int call_isr PageFaultHandler HandleNMI frame (set_current (Some q) m') =
          (run_gsi call_gsi call_int (r_handler r) frame ;;; emit (EOI id)) (set_current (Some q) m')).
Proof.
  intros Hb Hl. mstep. eapply runs_mono; [by eapply FullInit_runs|]. intros u m1 Hm1.
  eapply runs_mono; [apply (run_ops_runs os m1 ∅ ∅ Hm1); [by rewrite dom_empty_L|done]|].
  intros bs m2 (R & Hs & Hm2). exists R. split_and!; [done..|]. intros g r Hr. destruct (r_masked r) eqn:Hk.
  - by eapply masked_silent.
  - intros Hdis. by eapply deliver.
Qed.

End Spec.
(** ** A chip *)

(** The selecting register and the registers. *)
Record model_chip : Type := mkChip { sel : Z; regs : gmap Z Z }.

#[export] Instance model_Device : Device model_chip := {
  rd32 off d := if off =? 16 then u32 (default 0 (regs d !! Z.land (sel d) 255)) else sel d;
  wr32 off v d := if off =? 16 then mkChip (sel d) (<[Z.land (sel d) 255 := v]> (regs d)) else mkChip v (regs d)
}.

#[export] Program Instance model_DeviceLaws : DeviceLaws model_chip := {
  reg d r := u32 (default 0 (regs d !! r))
}.
Next Obligation. intros d r. apply Z.mod_pos_bound. lia. Qed.
Next Obligation. done. Qed.
Next Obligation. done. Qed.
Next Obligation. done. Qed.
Next Obligation. intros d v r Hr. cbn in *. by rewrite lookup_insert_ne by done. Qed.
Next Obligation.
  intros d v b _ Hb _. cbn in *. rewrite lookup_insert_eq. cbn. unfold u32. by rewrite Z.mod_pow2_bits_low by lia.
Qed.

Definition example_chip : ioapic model_chip := mkIOAPIC _ 0 4273995776 0 24 (mkChip 0 ∅).
Definition example : machine model_chip :=
  mkMachine _ [example_chip] [] [] [mkProcessor (Some 3) None] (Some 0%nat) (replicate 256 None) 65535 false ∅ [].

Lemma example_booted : booted example 0.
Proof.
  split; try done.
  - apply Forall_singleton. split; [split; cbn; lia|done].
  - intros [|q] pr; cbn; [by intros [= <-]|done].
  - intros [|q] pr id; cbn; [intros [= <-] [= <-]; lia|done].
Qed.

Definition example_ops : list op := [ORegister 4 (DriverGSI 7) 11; OUnmask 4; ORegister 9 (DriverGSI 8) 12; ORemove 4].

Lemma GSI_handlers_refine_witness :
  runs (x86_64_IRQ_FullInit ;;; run_ops example_ops) example (fun bs m' => exists R, ops_spec ∅ example_ops bs R /\ rep m' R).
Proof.
  eapply runs_mono.
  - apply (GSI_handlers_refine (fun _ _ _ => ret tt) (fun _ _ => ret tt) (fun _ _ => ret tt) (fun _ => ret tt) (fun _ => ret false)
      example 0 example_ops example_booted).
    cbn. split_and!; (done || lia || set_solver).
  - intros bs m' (R & Hs & Hm & _). by exists R.
Defined.

(** The answers of a sequence of operations from the start-up. *)
Definition answers (os : list op) : option (list bool) :=
  match (x86_64_IRQ_FullInit ;;; run_ops os) example with Ok (bs, _) => Some bs | Fail _ => None end.

(** Removing a handler does not give its vector back: an interrupt can be registered and removed 206 times, and then no
    interrupt of the processor can be registered any more. *)
Theorem vectors_are_not_returned :
  answers (concat (replicate 206 [ORegister 4 (DriverGSI 7) 11; ORemove 4]) ++ [ORegister 9 (DriverGSI 8) 12]) =
  Some (replicate 412 true ++ [false]).
Proof. vm_compute. reflexivity. Qed.

(** Registering an interrupt a second time changes its entry but not the map of interrupts: when it is then removed, the
    vector of the first handler is cleared and the second handler can never be removed. *)
Theorem register_twice :
  match (x86_64_IRQ_FullInit ;;; run_ops [ORegister 4 (DriverGSI 7) 11; ORegister 4 (DriverGSI 8) 12; ORemove 4; ORemove 4]) example with
  | Ok (bs, m) => bs = [true; true; true; false] /\
      handlerMap <$> (processors m !! 0%nat ≫= m_IRQData) = Some [(49, mkHandler (DriverGSI 8) 12)]
  | Fail _ => False
  end.
Proof. vm_compute. split; reflexivity. Qed.

(** A handler that is registered through the HAL is given the address of the HAL's own record instead of its context. *)
Theorem HAL_handler_context {D} (call_gsi : Z -> x86_64_ISR_Frame -> Z -> M (machine D) unit) (call_int : Z -> Z -> M (machine D) unit)
    (m : machine D) (data g f c : Z) frame : data <> 0 -> int_data m !! data = Some (mkInt g f c) ->
  run_gsi call_gsi call_int (mkHandler HAL_GSIHandlerWrapper data) frame m = call_int f data m.
Proof.
  intros Hd Hi. unfold run_gsi, run_wrapper, bind, gets. cbn [handler ctx]. rewrite (proj2 (Z.eqb_neq _ _) Hd), Hi. done.
Qed.

End IRQSpec.
