(* ===== verification/Descriptors.v ===== *)
(** * Descriptors.v: the interrupt and segment tables (interrupts/IDT.cpp, interrupts/ISR.cpp, GDT.cpp and the task
      state segment of Processor.cpp, in src/kernel/src/arch/x86_64)

    A descriptor is the packed structure the code fills, and the words it is in memory, which the processor reads. The
    addresses of the assembly stubs and of the tables are parameters.

    Shown: every gate leads to the stub of its vector with the privilege and the stack the code means, and the segment
    descriptors, as the processor decodes their words, cover the whole address space at the levels 0 and 3 and give the
    address of the task state segment back; the I/O permission map is left at the offset 0, inside of the segment. *)

From S2P Require Import Prelude.

#[local] Open Scope Z_scope.
#[local] Open Scope kernel_scope.

Module Descriptors.

(** [w] bits from bit [k]. *)
Definition bits (k w x : Z) : Z := Z.land (Z.shiftr x k) (Z.ones w).

(** ** IDT.cpp *)

Definition GateType_Interrupt : Z := 14.
Definition x86_64_GDT_KERNEL_CODE_SEGMENT : Z := 8.

Record x86_64_IDTEntry : Set := mkGate {
  Offset0 : Z;
  Selector : Z;
  IST : Z;
  Reserved0 : Z;
  Type_ : Z;
  Zero : Z;
  DPL : Z;
  Present : Z;
  Offset1 : Z;
  Offset2 : Z;
  Reserved1 : Z
}.

Record x86_64_IDTPointer : Set := mkIDTR { Limit : Z; Base : Z }.

(** The table and the pointer that was loaded last. *)
Record idt_state : Type := mkIDT { g_x86_64_IDT : list x86_64_IDTEntry; idtr : option x86_64_IDTPointer }.

Definition zero_gate : x86_64_IDTEntry := mkGate 0 0 0 0 0 0 0 0 0 0 0.

Definition set_gate (i : nat) (f : x86_64_IDTEntry -> x86_64_IDTEntry) : M idt_state unit :=
  modify (fun s => mkIDT (alter f i (g_x86_64_IDT s)) (idtr s)).

Definition x86_64_IDT_SetHandler (vector : nat) (handlerAddress : Z) : M idt_state unit :=
  set_gate vector (fun g => mkGate (Z.land handlerAddress 65535) (Selector g) (IST g) (Reserved0 g) (Type_ g) (Zero g) (DPL g)
    (Present g) (Z.land (Z.shiftr handlerAddress 16) 65535) (Z.land (Z.shiftr handlerAddress 32) (2 ^ 32 - 1)) (Reserved1 g)).

(** [x86_64_ISR_SetIDTHandlers]: one call for each of the 256 stubs. *)
Fixpoint set_handlers (stub : nat -> Z) (vectors : list nat) : M idt_state unit :=
  match vectors with
  | [] => ret tt
  | v :: vs => x86_64_IDT_SetHandler v (stub v) ;;; set_handlers stub vs
  end.
Definition x86_64_ISR_SetIDTHandlers (stub : nat -> Z) : M idt_state unit := set_handlers stub (seq 0 256).

(** The loop of [x86_64_InitIDT]. *)
Definition init_gate (g : x86_64_IDTEntry) : x86_64_IDTEntry :=
  mkGate (Offset0 g) x86_64_GDT_KERNEL_CODE_SEGMENT 0 (Reserved0 g) GateType_Interrupt (Zero g) 0 1 (Offset1 g) (Offset2 g) (Reserved1 g).
Fixpoint init_gates (l : list nat) : M idt_state unit :=
  match l with [] => ret tt | i :: l' => set_gate i init_gate ;;; init_gates l' end.

(** [&g_x86_64_IDT] and [sizeof]. *)
Definition sizeof_IDT : Z := 256 * 16.
Definition x86_64_CreateIDTR (addr : Z) : x86_64_IDTPointer := mkIDTR (sizeof_IDT - 1) addr.

(** The handlers are cleared in IRQ.v. *)
Definition x86_64_InitIDT (addr : Z) (stub : nat -> Z) : M idt_state unit :=
  modify (fun s => mkIDT (replicate 256 zero_gate) (idtr s)) ;;;
  init_gates (seq 0 256) ;;;
  x86_64_ISR_SetIDTHandlers stub ;;;
  modify (fun s => mkIDT (g_x86_64_IDT s) (Some (mkIDTR (sizeof_IDT - 1) addr))).

Definition set_IST (v : Z) (g : x86_64_IDTEntry) : x86_64_IDTEntry :=
  mkGate (Offset0 g) (Selector g) (v mod 8) (Reserved0 g) (Type_ g) (Zero g) (DPL g) (Present g) (Offset1 g) (Offset2 g) (Reserved1 g).
Definition x86_64_IDT_SetISTS : M idt_state unit := set_gate 2 (set_IST 1) ;;; set_gate 8 (set_IST 2).

(** The two words of a gate. *)
Definition gate_words (g : x86_64_IDTEntry) : Z * Z :=
  (Offset0 g + 2 ^ 16 * Selector g + 2 ^ 32 * IST g + 2 ^ 35 * Reserved0 g + 2 ^ 40 * Type_ g + 2 ^ 44 * Zero g + 2 ^ 45 * DPL g +
   2 ^ 47 * Present g + 2 ^ 48 * Offset1 g, Offset2 g + 2 ^ 32 * Reserved1 g).

(** What the processor takes from them: the address, the segment, the stack of the task state segment, the type,
    the privilege that may raise the interrupt and whether there is a gate. *)
Record gate : Set := mkDecoded { target : Z; segment : Z; ist : Z; type : Z; dpl : Z; present : bool }.
Definition decode_gate (w : Z * Z) : gate :=
  mkDecoded (bits 0 16 (fst w) + 2 ^ 16 * bits 48 16 (fst w) + 2 ^ 32 * bits 0 32 (snd w)) (bits 16 16 (fst w)) (bits 32 3 (fst w))
    (bits 40 4 (fst w)) (bits 45 2 (fst w)) (bits 47 1 (fst w) =? 1).

(** ** GDT.cpp *)

Definition Accessed : Z := 1.
Definition ReadWrite : Z := 2.
Definition Execute : Z := 8.
Definition System : Z := 0.
Definition NonSystem : Z := 16.
Definition Privilege0 : Z := 0.
Definition Privilege3 : Z := 96.
Definition SegPresent : Z := 128.
Definition TSS_AVAIL : Z := 9.
Definition Granularity : Z := 8.
Definition LongMode : Z := 2.
Definition x86_64_GDT_ENTRY_COUNT : Z := 7.
Definition x86_64_GDT_USER_CODE_SEGMENT : Z := 32.
Definition x86_64_GDT_USER_DATA_SEGMENT : Z := 24.
Definition x86_64_GDT_KERNEL_DATA_SEGMENT : Z := 16.
Definition x86_64_TSS_SEGMENT : Z := 40.

Record x86_64_GDTEntry : Set := mkSegment {
  Limit0 : Z; Base0 : Z; Base1 : Z; Access : Z; Limit1 : Z; Flags : Z; Base2 : Z
}.
Record x86_64_GDTSystemEntry : Set := mkSystem { low_part : x86_64_GDTEntry; Base3 : Z; Reserved : Z }.

Definition segment_word (e : x86_64_GDTEntry) : Z :=
  Limit0 e + 2 ^ 16 * Base0 e + 2 ^ 32 * Base1 e + 2 ^ 40 * Access e + 2 ^ 48 * Limit1 e + 2 ^ 52 * Flags e + 2 ^ 56 * Base2 e.
Definition system_words (e : x86_64_GDTSystemEntry) : list Z := [segment_word (low_part e); Base3 e + 2 ^ 32 * Reserved e].

Definition lors (l : list Z) : Z := foldr Z.lor 0 l.
Definition flat_segment (access : Z) : x86_64_GDTEntry := mkSegment 65535 0 0 access 15 (Z.lor LongMode Granularity) 0.

(** The task state segment. *)
Record x86_64_TSS : Set := mkTSS { RSP : list Z; tss_IST : list Z; IOPB : Z }.
Definition sizeof_TSS : Z := 104.

Definition tss_descriptor (TSSBase : Z) : x86_64_GDTSystemEntry :=
  let TSSLimit := sizeof_TSS in
  mkSystem (mkSegment (Z.land TSSLimit 65535) (Z.land TSSBase 65535) (Z.land (Z.shiftr TSSBase 16) 255)
      (lors [TSS_AVAIL; System; Privilege0; SegPresent]) (Z.land (Z.shiftr TSSLimit 16) 15) 0 (Z.land (Z.shiftr TSSBase 24) 255))
    (Z.land (Z.shiftr TSSBase 32) (2 ^ 32 - 1)) 0.

(** The words of the table that is loaded, the pointer, and the two selectors that go with it. *)
Record gdt : Type := mkGDT { words : list Z; gdtr : x86_64_IDTPointer; codeSegment : Z; dataSegment : Z }.
Definition x86_64_InitGDT (entries TSS : Z) : gdt :=
  mkGDT
    ([0;
      segment_word (flat_segment (lors [Accessed; ReadWrite; Execute; NonSystem; Privilege0; SegPresent]));
      segment_word (flat_segment (lors [Accessed; ReadWrite; NonSystem; Privilege0; SegPresent]));
      segment_word (flat_segment (lors [Accessed; ReadWrite; NonSystem; Privilege3; SegPresent]));
      segment_word (flat_segment (lors [Accessed; ReadWrite; Execute; NonSystem; Privilege3; SegPresent]))] ++
     system_words (tss_descriptor TSS))
    (mkIDTR (8 * x86_64_GDT_ENTRY_COUNT - 1) entries) 8 16.

(** How the processor decodes a segment, and the longer form of a system segment. *)
Record decoded : Set := mkSeg {
  s_base : Z; s_limit : Z; s_present : bool; s_dpl : Z; s_code_data : bool; s_execute : bool; s_long : bool; s_type : Z
}.
Definition decode_segment (w : Z) : decoded :=
  mkSeg (bits 16 24 w + 2 ^ 24 * bits 56 8 w)
    (let l := bits 0 16 w + 2 ^ 16 * bits 48 4 w in if bits 55 1 w =? 1 then l * 4096 + 4095 else l)
    (bits 47 1 w =? 1) (bits 45 2 w) (bits 44 1 w =? 1) (bits 43 1 w =? 1) (bits 53 1 w =? 1) (bits 40 4 w).
Definition decode_system (w0 w1 : Z) : decoded :=
  let s := decode_segment w0 in
  mkSeg (s_base s + 2 ^ 32 * bits 0 32 w1) (s_limit s) (s_present s) (s_dpl s) (s_code_data s) (s_execute s) (s_long s) (s_type s).

(** The selector's table index. *)
Definition selected (g : gdt) (selector : Z) : option decoded := decode_segment <$> words g !! Z.to_nat (selector / 8).

(** ** The task state segment (Processor.cpp) *)

Definition KERNEL_STACK_SIZE : Z := 65536.

(** [memset] at the start of [Init]. *)
Definition zero_TSS : x86_64_TSS := mkTSS [0; 0; 0] (replicate 7 0) 0.

(** [InitTSS], with the addresses [AllocateAnonPages] gives for the two stacks, 0 when it fails. *)
Definition InitTSS (kernelStack stack0 stack1 : Z) (t : x86_64_TSS) : option x86_64_TSS :=
  let t := mkTSS (<[0%nat := kernelStack]> (RSP t)) (<[1%nat := add64 stack1 KERNEL_STACK_SIZE]>
    (<[0%nat := add64 stack0 KERNEL_STACK_SIZE]> (tss_IST t))) (IOPB t) in
  if (kernelStack =? 0) || (default 0 (tss_IST t !! 0%nat) =? 0) || (default 0 (tss_IST t !! 1%nat) =? 0) then None else Some t.

(** The structure, and what [taskKernelStack] of the state of the processor is set to. *)
Definition SwitchKernelStack (stack : Z) (t : x86_64_TSS) : x86_64_TSS * Z :=
  (mkTSS (<[0%nat := stack]> (RSP t)) (tss_IST t) (IOPB t), stack).

(** The bytes of the structure. *)
Definition le_bytes (n : nat) (x : Z) : list Z := (fun i => bits (8 * Z.of_nat i) 8 x) <$> seq 0 n.
Definition tss_bytes (t : x86_64_TSS) : list Z :=
  le_bytes 4 0 ++ concat (le_bytes 8 <$> RSP t) ++ le_bytes 8 0 ++ concat (le_bytes 8 <$> tss_IST t) ++ le_bytes 10 0 ++ le_bytes 2 (IOPB t).

(** Whether a program at level 3 may use a port: the bit of the permission map, which begins at [IOPB] and has to
    lie below the limit of the segment, is clear. *)
Definition user_may_use (t : x86_64_TSS) (limit port : Z) : bool :=
  (IOPB t + port / 8 + 1 <=? limit) &&
  match tss_bytes t !! Z.to_nat (IOPB t + port / 8) with Some b => negb (Z.testbit b (port mod 8)) | None => false end.

(** ** Correctness *)

Lemma bits_mod k w x : 0 <= k -> 0 <= w -> bits k w x = (x / 2 ^ k) mod 2 ^ w.
Proof. intros Hk Hw. unfold bits. by rewrite Z.land_ones, Z.shiftr_div_pow2. Qed.

(** Every gate has been given the fields the loop sets. *)
Lemma init_gates_eq l : forall s, init_gates l s = Ok (tt, mkIDT (foldl (fun t i => alter init_gate i t) (g_x86_64_IDT s) l) (idtr s)).
Proof. induction l as [|i l IH]; intros s; cbn [init_gates]; [by destruct s|]. unfold bind, set_gate, modify. by rewrite IH. Qed.

Definition with_target (h : Z) (g : x86_64_IDTEntry) : x86_64_IDTEntry :=
  mkGate (Z.land h 65535) (Selector g) (IST g) (Reserved0 g) (Type_ g) (Zero g) (DPL g)
    (Present g) (Z.land (Z.shiftr h 16) 65535) (Z.land (Z.shiftr h 32) (2 ^ 32 - 1)) (Reserved1 g).

Lemma set_handlers_eq stub l : forall s,
  set_handlers stub l s = Ok (tt, mkIDT (foldl (fun t i => alter (with_target (stub i)) i t) (g_x86_64_IDT s) l) (idtr s)).
Proof. induction l as [|i l IH]; intros s; cbn [set_handlers]; [by destruct s|]. unfold bind, x86_64_IDT_SetHandler, set_gate, modify. by rewrite IH. Qed.

(** Changing each of a number of elements once. *)
Lemma foldl_alter {A} (f : nat -> A -> A) (l : list nat) (i : nat) : forall t : list A, NoDup l ->
  foldl (fun t i => alter (f i) i t) t l !! i = (if decide (i ∈ l) then f i <$> t !! i else t !! i).
Proof.
  induction l as [|j l IH]; intros t Hn; cbn [foldl]; [by rewrite decide_False by apply not_elem_of_nil|].
  apply NoDup_cons in Hn as [Hj Hn]. rewrite IH by done. destruct (decide (i = j)) as [->|Hne].
  - rewrite decide_False by done. rewrite decide_True by set_solver. apply list_lookup_alter_eq.
  - rewrite list_lookup_alter_ne by done. do 2 case_decide; set_solver.
Qed.

Lemma foldl_alter_length {A} (f : nat -> A -> A) (l : list nat) : forall t : list A,
  length (foldl (fun t i => alter (f i) i t) t l) = length t.
Proof. induction l as [|j l IH]; intros t; cbn [foldl]; [done|]. rewrite IH. apply length_alter. Qed.

Definition final_gate (stub : nat -> Z) (v : nat) : x86_64_IDTEntry := with_target (stub v) (init_gate zero_gate).

Lemma InitIDT_gates addr stub s : runs (x86_64_InitIDT addr stub) s (fun _ s' =>
  idtr s' = Some (x86_64_CreateIDTR addr) /\ length (g_x86_64_IDT s') = 256%nat /\
  forall v, (v < 256)%nat -> g_x86_64_IDT s' !! v = Some (final_gate stub v)).
Proof.
  eapply runs_eq.
  { unfold x86_64_InitIDT, x86_64_ISR_SetIDTHandlers, bind, modify. rewrite init_gates_eq, set_handlers_eq. reflexivity. }
  cbn beta iota delta [g_x86_64_IDT idtr]. split; [done|]. split.
  { by rewrite (foldl_alter_length (fun i => with_target (stub i))), (foldl_alter_length (fun _ => init_gate)), length_replicate. }
  intros v Hv. assert (v ∈ seq 0 256) as Hin by (apply elem_of_seq; lia).
  rewrite (foldl_alter (fun i => with_target (stub i))), decide_True by (done || apply NoDup_seq).
  rewrite (foldl_alter (fun _ => init_gate)), decide_True by (done || apply NoDup_seq).
  rewrite lookup_replicate_2 by done. done.
Qed.

Lemma decode_gate_words stub v i : 0 <= stub v < W64 -> 0 <= i < 8 ->
  decode_gate (gate_words (set_IST i (final_gate stub v))) = mkDecoded (stub v) 8 i 14 0 true.
Proof.
  intros Hs Hi. unfold decode_gate, gate_words, final_gate, with_target, init_gate, set_IST, zero_gate.
  cbn [Offset0 Selector IST Reserved0 Type_ Zero DPL Present Offset1 Offset2 Reserved1 fst snd].
  unfold x86_64_GDT_KERNEL_CODE_SEGMENT, GateType_Interrupt.
  change 65535 with (Z.ones 16). change (2 ^ 32 - 1) with (Z.ones 32). rewrite !Z.land_ones, !Z.shiftr_div_pow2 by lia.
  rewrite (Z.mod_small i) by lia. set (h := stub v) in *.
  assert (Hb : forall w, bits 47 1 w = 1 -> (bits 47 1 w =? 1) = true) by (intros w ->; done).
  f_equal; rewrite ?Hb; try done; rewrite !bits_mod by lia; zlia.
Qed.

Lemma set_IST_0 stub v : set_IST 0 (final_gate stub v) = final_gate stub v.
Proof. reflexivity. Qed.

(** The stack of a gate: a stack of its own for non-maskable interrupts and for double faults. *)
Definition stack_of (v : nat) : Z := if decide (v = 2%nat) then 1 else if decide (v = 8%nat) then 2 else 0.

(** C27: After the interrupt table has been set up and the stacks have been chosen, the processor finds for each of the
    256 vectors a present interrupt gate that leads to the stub of that vector in the kernel's code segment, that programs cannot
    raise, and that changes to a stack of its own exactly for non-maskable interrupts and double faults; the pointer covers
    the 256 gates. *)
Theorem IDT_gates (addr : Z) (stub : nat -> Z) (s : idt_state) : (forall v, 0 <= stub v < W64) ->
  runs (x86_64_InitIDT addr stub ;;; x86_64_IDT_SetISTS) s (fun _ s' =>
    idtr s' = Some (mkIDTR (16 * Z.of_nat (length (g_x86_64_IDT s')) - 1) addr) /\
    forall v, (v < 256)%nat ->
      (decode_gate ∘ gate_words <$> g_x86_64_IDT s' !! v) = Some (mkDecoded (stub v) 8 (stack_of v) 14 0 true)).
Proof.
  intros Hs. mstep. eapply runs_mono; [apply InitIDT_gates|]. intros u s1 (Hp & Hl & Hg).
  unfold x86_64_IDT_SetISTS, set_gate. mgo. cbn [idtr g_x86_64_IDT]. split.
  { rewrite Hp, !length_alter, Hl. done. }
  intros v Hv. unfold stack_of. rewrite !list_lookup_alter.
  repeat case_decide; try lia; subst; rewrite Hg by done; cbn [fmap option_fmap option_map compose]; f_equal;
    [apply decode_gate_words; [done|lia]..|].
  rewrite <- set_IST_0. apply decode_gate_words; [done|lia].
Qed.

Lemma IDT_gates_witness :
  runs (x86_64_InitIDT 4096 (fun v => 16 * (Z.of_nat v mod 256)) ;;; x86_64_IDT_SetISTS) (mkIDT [] None) (fun _ s' =>
    decode_gate ∘ gate_words <$> g_x86_64_IDT s' !! 8%nat = Some (mkDecoded 128 8 2 14 0 true)).
Proof.
  eapply runs_mono.
  - apply (IDT_gates 4096 (fun v => 16 * (Z.of_nat v mod 256)) (mkIDT [] None)). intros v. zlia.
  - intros u s' [_ H]. exact (H 8%nat ltac:(lia)).
Defined.

(** ** Segments *)

(** The segment table has, for the selectors the kernel uses, the present flat 64-bit code and data segments of the levels 0 and
    3 over the whole address space, and an available task state segment at the address that was given; the selectors that are loaded
    are the kernel's. *)
Theorem GDT_segments (entries TSS : Z) : 0 <= TSS < W64 ->
  let g := x86_64_InitGDT entries TSS in
  let flat level execute := mkSeg 0 (2 ^ 32 - 1) true level true execute true (if execute then 11 else 3) in
  selected g x86_64_GDT_KERNEL_CODE_SEGMENT = Some (flat 0 true) /\
  selected g x86_64_GDT_KERNEL_DATA_SEGMENT = Some (flat 0 false) /\
  selected g x86_64_GDT_USER_CODE_SEGMENT = Some (flat 3 true) /\
  selected g x86_64_GDT_USER_DATA_SEGMENT = Some (flat 3 false) /\
  codeSegment g = x86_64_GDT_KERNEL_CODE_SEGMENT /\ dataSegment g = x86_64_GDT_KERNEL_DATA_SEGMENT /\
  exists w0 w1, words g !! Z.to_nat (x86_64_TSS_SEGMENT / 8) = Some w0 /\ words g !! Z.to_nat (x86_64_TSS_SEGMENT / 8 + 1) = Some w1 /\
    decode_system w0 w1 = mkSeg TSS sizeof_TSS true 0 false true false 9 /\
  Limit (gdtr g) = 8 * Z.of_nat (length (words g)) - 1.
Proof.
  intros HT. cbv zeta. split_and!; try reflexivity.
  exists (segment_word (low_part (tss_descriptor TSS))), (Base3 (tss_descriptor TSS) + 2 ^ 32 * 0). split_and!; try reflexivity.
  unfold decode_system, decode_segment, segment_word, tss_descriptor. cbn [low_part Base3 Limit0 Base0 Base1 Access Limit1 Flags Base2
    s_base s_limit s_present s_dpl s_code_data s_execute s_long s_type]. change (lors _) with 137.
  change (Z.land sizeof_TSS 65535) with 104. change (Z.land (Z.shiftr sizeof_TSS 16) 15) with 0. change sizeof_TSS with 104.
  change 65535 with (Z.ones 16). change 255 with (Z.ones 8). change (2 ^ 32 - 1) with (Z.ones 32).
  rewrite !Z.land_ones, !Z.shiftr_div_pow2 by lia.
  set (w := 104 + _ + _ + _ + _ + _ + _). assert (Hw : w = 104 + 2 ^ 16 * (TSS mod 2 ^ 24) + 2 ^ 40 * 137 + 2 ^ 56 * (TSS / 2 ^ 24 mod 2 ^ 8)).
  { unfold w. zlia. }
  rewrite !bits_mod by lia.
  assert (w / 2 ^ 55 mod 2 ^ 1 = 0) as -> by (rewrite Hw; zlia). assert (w / 2 ^ 47 mod 2 ^ 1 = 1) as -> by (rewrite Hw; zlia).
  assert (w / 2 ^ 44 mod 2 ^ 1 = 0) as -> by (rewrite Hw; zlia). assert (w / 2 ^ 43 mod 2 ^ 1 = 1) as -> by (rewrite Hw; zlia).
  assert (w / 2 ^ 53 mod 2 ^ 1 = 0) as -> by (rewrite Hw; zlia).
  cbn [Z.eqb Pos.eqb]. f_equal; rewrite Hw; zlia.
Qed.

Lemma GDT_segments_witness : exists w0 w1, words (x86_64_InitGDT 4096 18446603336221200384) !! 5%nat = Some w0 /\
  words (x86_64_InitGDT 4096 18446603336221200384) !! 6%nat = Some w1 /\
  decode_system w0 w1 = mkSeg 18446603336221200384 104 true 0 false true false 9.
Proof.
  destruct (GDT_segments 4096 18446603336221200384 ltac:(lia)) as (_ & _ & _ & _ & _ & _ & w0 & w1 & H0 & H1 & H2 & _).
  exists w0, w1. exact (conj H0 (conj H1 H2)).
Defined.

(** ** What is wrong with the task state segment *)

(** The bytes of the unused stack pointers. *)
Lemma unused_bytes ks i0 i1 (j : nat) : (12 <= j < 28)%nat ->
  tss_bytes (mkTSS (<[0%nat := ks]> [0; 0; 0]) (<[1%nat := i1]> (<[0%nat := i0]> (replicate 7 0))) 0) !! j = Some 0.
Proof. intros Hj. do 12 (destruct j as [|j]; [lia|]). do 16 (destruct j as [|j]; [reflexivity|]). lia. Qed.

(** The permission map of the ports begins at the offset 0, so that the unused stack pointers are taken for it: programs may
    use the ports 0x60 to 0xDF, among them the keyboard controller, the clock and the second interrupt controller. *)
Theorem user_ports_open kernelStack stack0 stack1 t : InitTSS kernelStack stack0 stack1 zero_TSS = Some t ->
  forall port, 96 <= port < 224 -> user_may_use t sizeof_TSS port = true.
Proof.
  unfold InitTSS. destruct (_ || _); [done|]. intros [= <-] port Hp. unfold user_may_use. cbn [IOPB RSP tss_IST zero_TSS].
  match goal with |- context [tss_bytes ?t !! ?j] => assert (tss_bytes t !! j = Some 0) as -> by (apply unused_bytes; zlia) end.
  apply andb_true_iff. split; [apply Z.leb_le; unfold sizeof_TSS; zlia|]. by rewrite Z.bits_0.
Qed.

(** A stack that could not be allocated is not noticed, as the size has been added to the null pointer. *)
Theorem InitTSS_takes_null kernelStack stack1 : 0 < kernelStack -> 0 <= stack1 < 2 ^ 48 ->
  is_Some (InitTSS kernelStack 0 stack1 zero_TSS).
Proof.
  intros Hk Hs. unfold InitTSS. cbn [RSP tss_IST zero_TSS replicate insert list_insert list_lookup lookup default].
  unfold add64, wrap64, KERNEL_STACK_SIZE. cbn [id]. rewrite !Z.mod_small by lia.
  rewrite (proj2 (Z.eqb_neq kernelStack 0)), (proj2 (Z.eqb_neq (stack1 + _) 0)) by lia. done.
Qed.

End Descriptors.
