(* ===== verification/LocalAPIC.v ===== *)
(** * LocalAPIC.v: local APICs and interprocessor interrupts (LocalAPIC.cpp and IPI.cpp in
      src/kernel/src/arch/x86_64/interrupts/APIC)

    The registers are a device: what a read gives is a function of the writes so far and of the number of the read.
    What is done outside the object, pages that are mapped and what the start of another processor does, is a list of actions.

    Shown: the interrupt command register is given the fields that were asked for, its high half first; another processor is started by the
    commands and with the waits, the stack and the page of code that its documentation asks for; the ticks of the
    timer are the greatest number whose time is not longer than the period that is wanted, with the greatest divisor; what
    the start-up does to the local vectors. *)

From S2P Require Import Prelude PMM PageMapper Descriptors.

#[local] Open Scope Z_scope.
#[local] Open Scope kernel_scope.

Module LocalAPIC.

(** ** Registers *)

Definition LAPIC_ID : Z := 32.
Definition R_EOI : Z := 176.
Definition SpuriousIV : Z := 240.
Definition LVT_CMCI : Z := 752.
Definition ICR0 : Z := 768.
Definition ICR1 : Z := 784.
Definition LVT_Timer : Z := 800.
Definition LVT_LINT0 : Z := 848.
Definition LVT_ERR : Z := 880.
Definition InitialCount : Z := 896.
Definition CurrentCount : Z := 912.
Definition DivideConfig : Z := 992.

Definition LAPIC_TIMER_PERIOD : Z := 2000000000.
Definition LAPIC_TIMER_INT : Z := 254.
Definition HPET_WAIT_NS : Z := 10000000.
Definition UINT32_MAX : Z := 2 ^ 32 - 1.

Record NMISource : Set := mkNMI { used : bool; activeLow : bool; levelTriggered : bool }.

(** What [StartCPU] gives the code that a processor starts with. *)
Record x86_64_APInfo : Set := mkAPInfo {
  cr3 : Z; cr4Extras : Z; stackEnd : Z; func : Z; ap_proc : Z; IDTR : Descriptors.x86_64_IDTPointer
}.

(** What is done outside the object: the globals it sets and the calls it makes. *)
Inductive action : Set :=
  | Set_g_BSP_LAPIC
  | MapPage (virt phys prot : Z) (uncachable : bool)
  | UnmapPage (virt : Z)
  | SetLAPIC (proc : Z)
  | AcquireTramp
  | ReleaseTramp
  | ClearStack (stack size : Z)
  | InitNewProcessor (proc : Z)
  | SetCPUState (proc : Z)
  | CopyTrampoline (dst size : Z)
  | CopyInfo (dst : Z) (info : x86_64_APInfo)
  | SleepNS (ns : Z)
  | Acquire_apLock (proc : Z).

(** The members, and the device: the writes so far, how many reads there were, and what a read gives. An action comes with the number
    of writes that were done before it. *)
Record lapic : Type := mkLAPIC {
  m_BSP : bool;
  m_ID : Z;
  m_NMISources : list NMISource;
  m_timerPeriod : Z;
  m_timerTicks : Z;
  m_timerDivisor : Z;
  device : list (Z * Z) -> nat -> Z -> Z;
  writes : list (Z * Z);
  reads : nat;
  handlers : list Z;
  m_LAPICBase : Z;
  m_addressOverride : bool;
  actions : list (nat * action)
}.

Definition set_ID v l := mkLAPIC (m_BSP l) v (m_NMISources l) (m_timerPeriod l) (m_timerTicks l) (m_timerDivisor l) (device l) (writes l) (reads l) (handlers l) (m_LAPICBase l) (m_addressOverride l) (actions l).
Definition set_NMISources v l := mkLAPIC (m_BSP l) (m_ID l) v (m_timerPeriod l) (m_timerTicks l) (m_timerDivisor l) (device l) (writes l) (reads l) (handlers l) (m_LAPICBase l) (m_addressOverride l) (actions l).
Definition set_timerPeriod v l := mkLAPIC (m_BSP l) (m_ID l) (m_NMISources l) v (m_timerTicks l) (m_timerDivisor l) (device l) (writes l) (reads l) (handlers l) (m_LAPICBase l) (m_addressOverride l) (actions l).
Definition set_timer t d l := mkLAPIC (m_BSP l) (m_ID l) (m_NMISources l) (m_timerPeriod l) t d (device l) (writes l) (reads l) (handlers l) (m_LAPICBase l) (m_addressOverride l) (actions l).
Definition set_io w r l := mkLAPIC (m_BSP l) (m_ID l) (m_NMISources l) (m_timerPeriod l) (m_timerTicks l) (m_timerDivisor l) (device l) w r (handlers l) (m_LAPICBase l) (m_addressOverride l) (actions l).
Definition set_handlers v l := mkLAPIC (m_BSP l) (m_ID l) (m_NMISources l) (m_timerPeriod l) (m_timerTicks l) (m_timerDivisor l) (device l) (writes l) (reads l) v (m_LAPICBase l) (m_addressOverride l) (actions l).
Definition set_base v l := mkLAPIC (m_BSP l) (m_ID l) (m_NMISources l) (m_timerPeriod l) (m_timerTicks l) (m_timerDivisor l) (device l) (writes l) (reads l) (handlers l) v (m_addressOverride l) (actions l).
Definition set_override v l := mkLAPIC (m_BSP l) (m_ID l) (m_NMISources l) (m_timerPeriod l) (m_timerTicks l) (m_timerDivisor l) (device l) (writes l) (reads l) (handlers l) (m_LAPICBase l) v (actions l).
Definition set_actions v l := mkLAPIC (m_BSP l) (m_ID l) (m_NMISources l) (m_timerPeriod l) (m_timerTicks l) (m_timerDivisor l) (device l) (writes l) (reads l) (handlers l) (m_LAPICBase l) (m_addressOverride l) v.

Definition act (a : action) : M lapic unit := modify (fun l => set_actions (actions l ++ [(length (writes l), a)]) l).

Definition ReadRegister (r : Z) : M lapic Z := fun l => Ok (device l (writes l) (reads l) r, set_io (writes l) (S (reads l)) l).
Definition WriteRegister (r v : Z) : M lapic unit := modify (fun l => set_io (writes l ++ [(r, v)]) (reads l) l).

Definition SendEOI : M lapic unit := WriteRegister R_EOI 0.
Definition GetID (l : lapic) : Z := m_ID l.
Definition SetTimerPeriod (period : Z) : M lapic unit := modify (set_timerPeriod period).

(** The vectors whose handlers the bootstrap processor registers. *)
Definition register_ISR (vector : Z) : M lapic unit := modify (fun l => set_handlers (handlers l ++ [vector]) l).

Definition AddNMISource (LINT : Z) (low level : bool) : M lapic unit :=
  if 1 <? LINT then ret tt else modify (fun l => set_NMISources (<[Z.to_nat LINT := mkNMI true low level]> (m_NMISources l)) l).

(** ** Start-up *)

(** A local vector is masked; [i] counts from the first one, and two of the places in between are no local vectors. *)
Definition mask_LVT (i : Z) : M lapic unit :=
  if (i =? 1) || (i =? 2) then ret tt else
  let* value := ReadRegister (LVT_CMCI + i * 16) in
  WriteRegister (LVT_CMCI + i * 16) (Z.lor value (Z.shiftl 1 16)).
Fixpoint mask_LVTs (n : nat) (i : Z) : M lapic unit :=
  match n with O => ret tt | S n' => mask_LVT i ;;; mask_LVTs n' (i + 1) end.

Definition nmi_LVT (value : Z) (s : NMISource) : Z :=
  let value := Z.land value 4294903808 in
  let value := Z.lor value (if activeLow s then 0 else Z.shiftl 1 13) in
  let value := Z.lor value (if levelTriggered s then 0 else Z.shiftl 1 15) in
  Z.lor value (Z.shiftl 4 8).
Definition setup_NMI (i : Z) : M lapic unit :=
  let* ss := gets m_NMISources in
  match ss !! Z.to_nat i with
  | None => fail InvalidAccess
  | Some s =>
      if negb (used s) then ret tt else
      let* value := ReadRegister (LVT_LINT0 + i * 16) in
      WriteRegister (LVT_LINT0 + i * 16) (nmi_LVT value s)
  end.

Definition spurious (value : Z) : Z := Z.lor (Z.lor (Z.land value 4294937600) 255) 256.

(** The part of [Init] for a processor that runs already; the processor [g_BSP] is the number 0. *)
Definition Init_started : M lapic unit :=
  let* id := ReadRegister LAPIC_ID in
  modify (set_ID (Z.land (Z.shiftr id 24) 255)) ;;;
  mask_LVTs (Z.to_nat ((LVT_ERR - LVT_CMCI) / 16)) 0 ;;;
  setup_NMI 0 ;;;
  setup_NMI 1 ;;;
  let* bsp := gets m_BSP in
  whenM bsp (register_ISR 255) ;;;
  let* value := ReadRegister SpuriousIV in
  WriteRegister SpuriousIV (spurious value) ;;;
  whenM bsp (act (SetLAPIC 0)).

(** ** The timer *)

Definition g_LAPICDivisorLookup : list Z := [11; 0; 1; 2; 3; 8; 9; 10].

(** The counter of the HPET, by the number of the read, and its period in femtoseconds. *)
Record hpet : Type := mkHPET { period : Z; counter : nat -> Z }.

Fixpoint wait_counter (fuel k : nat) (h : hpet) (end_ : Z) : option nat :=
  match fuel with
  | O => None
  | S fuel' => if counter h k <? end_ then wait_counter fuel' (S k) h end_ else Some (S k)
  end.

(** The period in picoseconds, from where the count of the timer ended. *)
Definition timer_period (end_ : Z) : Z :=
  let period := HPET_WAIT_NS * 1000 / (UINT32_MAX - end_) in
  let freq := ALIGN_UP (1000000000000 / period) 100000 in
  1000000000000 / freq.

Definition calibrate (fuel : nat) (h : hpet) : M lapic bool :=
  let* value := ReadRegister DivideConfig in
  WriteRegister DivideConfig (Z.lor value 11) ;;;
  let* value := ReadRegister LVT_Timer in
  WriteRegister LVT_Timer (Z.lor (Z.land value (Z.lnot 393216)) 65536) ;;;
  let HPETStart := counter h 0 in
  let HPETEnd := add64 HPETStart (HPET_WAIT_NS * 1000000 / period h) in
  WriteRegister InitialCount UINT32_MAX ;;;
  match wait_counter fuel 1 h HPETEnd with
  | None => fail OutOfFuel
  | Some _ =>
      let* end_ := ReadRegister CurrentCount in
      WriteRegister InitialCount 0 ;;;
      if (end_ =? 0) || (end_ =? UINT32_MAX) then ret false else
      modify (set_timerPeriod (timer_period end_)) ;;; ret true
  end.

(** The loop that looks for the divisor. *)
Fixpoint find_divisor (divisor : nat) (p : Z) : nat :=
  match divisor with
  | O => O
  | S d => if mul64 (2 ^ Z.of_nat divisor) p <=? LAPIC_TIMER_PERIOD then divisor else find_divisor d p
  end.

Definition start_timer : M lapic bool :=
  let* p := gets m_timerPeriod in
  if LAPIC_TIMER_PERIOD <? p then ret false else
  let divisor := find_divisor 7 p in
  let timerDivisor := 2 ^ Z.of_nat divisor mod 256 in
  modify (set_timer (u32 (LAPIC_TIMER_PERIOD / mul64 p timerDivisor)) timerDivisor) ;;;
  let* bsp := gets m_BSP in
  whenM bsp (register_ISR LAPIC_TIMER_INT) ;;;
  let* value := ReadRegister DivideConfig in
  WriteRegister DivideConfig (Z.lor (Z.land value 11) (default 0 (g_LAPICDivisorLookup !! divisor))) ;;;
  let* value := ReadRegister LVT_Timer in
  WriteRegister LVT_Timer (Z.lor (Z.land value (Z.lnot 459007)) (Z.lor 131072 LAPIC_TIMER_INT)) ;;;
  let* ticks := gets m_timerTicks in
  WriteRegister InitialCount ticks ;;;
  ret true.

Definition InitTimer (fuel : nat) (g_HPET : option hpet) : M lapic bool :=
  let* p := gets m_timerPeriod in
  if p =? 0 then
    match g_HPET with
    | None => ret false
    | Some h => let* ok := calibrate fuel h in if ok then start_timer else ret false
    end
  else start_timer.

(** ** IPI.cpp *)

Definition DM_NMI : Z := 4.
Definition DM_INIT : Z := 5.
Definition DM_Startup : Z := 6.
Definition AllExcSelf : Z := 3.
Definition LevelAssert : Z := 1.

(** While the interrupt has not been delivered. *)
Fixpoint wait_delivered (fuel : nat) : M lapic unit :=
  match fuel with
  | O => fail OutOfFuel
  | S fuel' => let* v := ReadRegister ICR0 in if 0 <? Z.land v (Z.shiftl 1 12) then wait_delivered fuel' else ret tt
  end.

Definition icr_value (old dest vector deliveryMode mode destMode shorthand level : Z) : Z :=
  let value := Z.land old (Z.lnot (Z.lor (Z.shiftl 255 56) 839679)) in
  let value := Z.lor value (Z.shiftl dest 56) in
  let value := Z.lor value vector in
  let value := Z.lor value (Z.shiftl deliveryMode 8) in
  let value := Z.lor value (Z.shiftl mode 15) in
  let value := Z.lor value (Z.shiftl destMode 11) in
  let value := Z.lor value (Z.shiftl shorthand 18) in
  Z.lor value (Z.shiftl level 14).

Definition RaiseIPI (fuel : nat) (dest vector deliveryMode mode destMode shorthand level : Z) : M lapic unit :=
  let* t0 := ReadRegister ICR0 in
  let* t1 := ReadRegister ICR1 in
  let value := icr_value (t0 + 2 ^ 32 * t1) dest vector deliveryMode mode destMode shorthand level in
  WriteRegister ICR1 (Z.shiftr value 32) ;;;
  WriteRegister ICR0 (Z.land value (Z.ones 32)) ;;;
  wait_delivered fuel.

(** ** The object and the start of a processor *)

(** The constructor; the number of ticks and the divisor are left as they are in memory. *)
Definition LAPIC_new (BSP : bool) (ID ticks divisor : Z) (dev : list (Z * Z) -> nat -> Z -> Z) (ws : list (Z * Z)) (rs : nat) : lapic :=
  mkLAPIC BSP ID [mkNMI false false false; mkNMI false false false] 0 ticks divisor dev ws rs [] 0 false
    (if BSP then [(length ws, Set_g_BSP_LAPIC)] else []).

Definition AP_TRAMP_LOAD : Z := 0.
Definition AP_TRAMP_DATA_ADDR : Z := 3968.

(** What the rest of the kernel gives: the offset of the direct map, the register with the base address, the root table, whether there are five levels of
    tables, the stack ([AllocateAnonPages], 0 when it fails), the new processor, and the addresses of [x86_64_AP_Init] and
    of the interrupt table. *)
Record surroundings : Set := mkSurroundings {
  g_HHDMOffset : Z;
  MSR_APIC_BASE : Z;
  g_KernelRootPageTable : Z;
  Is5LevelPagingSupported : bool;
  stack : Z;
  new_proc : Z;
  AP_Init : Z;
  IDT_address : Z
}.

Section Start.
Context (e : surroundings) (fuel : nat).

Definition SetAddressOverride (address : Z) : M lapic unit :=
  modify (set_override true) ;;;
  modify (set_base (PMM.to_HHDM (g_HHDMOffset e) address)).

Definition APInfo : x86_64_APInfo :=
  mkAPInfo (u32 (PMM.from_HHDM (g_HHDMOffset e) (g_KernelRootPageTable e))) (if Is5LevelPagingSupported e then Z.shiftl 1 12 else 0)
    (add64 (stack e) Descriptors.KERNEL_STACK_SIZE) (AP_Init e) (new_proc e) (Descriptors.x86_64_CreateIDTR (IDT_address e)).

(** With the defaults of [RaiseIPI]: edge, physical, no shorthand, assert. *)
Definition raise_default (vector deliveryMode : Z) : M lapic unit :=
  let* id := gets m_ID in
  RaiseIPI fuel id vector deliveryMode 0 0 0 LevelAssert.

Definition StartCPU : M lapic unit :=
  if UINT32_MAX <? PMM.from_HHDM (g_HHDMOffset e) (g_KernelRootPageTable e) then fail AssertionFailed else
  act AcquireTramp ;;;
  if stack e =? 0 then fail AssertionFailed else
  act (ClearStack (stack e) Descriptors.KERNEL_STACK_SIZE) ;;;
  act (SetLAPIC (new_proc e)) ;;;
  act (InitNewProcessor (new_proc e)) ;;;
  act (SetCPUState (new_proc e)) ;;;
  act (MapPage AP_TRAMP_LOAD AP_TRAMP_LOAD PageMapper.READ_WRITE_EXECUTE false) ;;;
  act (CopyTrampoline AP_TRAMP_LOAD PAGE_SIZE) ;;;
  act (CopyInfo AP_TRAMP_DATA_ADDR APInfo) ;;;
  raise_default 0 DM_INIT ;;;
  act (SleepNS (10 * 1000000)) ;;;
  raise_default 0 DM_Startup ;;;
  act (SleepNS (200 * 1000)) ;;;
  raise_default 0 DM_Startup ;;;
  act (SleepNS (200 * 1000)) ;;;
  act (Acquire_apLock (new_proc e)) ;;;
  act (UnmapPage AP_TRAMP_LOAD) ;;;
  act ReleaseTramp.

Definition Init (started : bool) : M lapic unit :=
  let* over := gets m_addressOverride in
  whenM (negb over) (modify (set_base (PMM.to_HHDM (g_HHDMOffset e) (Z.land (MSR_APIC_BASE e) 4294963200)))) ;;;
  let* bsp := gets m_BSP in
  let* base := gets m_LAPICBase in
  whenM bsp (act (MapPage base (PMM.from_HHDM (g_HHDMOffset e) base) PageMapper.READ_WRITE true)) ;;;
  if started then Init_started else StartCPU.
End Start.

(** ** Interprocessor interrupts *)

(** [w] bits from bit [k]. *)
Definition bits (k w x : Z) : Z := Z.land (Z.shiftr x k) (Z.ones w).

Lemma bits_ext k w x y : 0 <= k -> (forall b, k <= b < k + w -> Z.testbit x b = Z.testbit y (b - k)) ->
  (forall b, w <= b -> Z.testbit y b = false) -> 0 <= w -> bits k w x = y.
Proof.
  intros Hk Hx Hy Hw. apply Z.bits_inj'. intros n Hn. unfold bits. rewrite Z.land_spec, Z.shiftr_spec by done.
  destruct (decide (n < w)).
  - rewrite Z.ones_spec_low, andb_true_r, Hx by lia. f_equal. lia.
  - rewrite Z.ones_spec_high, andb_false_r, Hy by lia. done.
Qed.

Lemma testbit_outside y w b : 0 <= y < 2 ^ w -> 0 <= w -> b < 0 \/ w <= b -> Z.testbit y b = false.
Proof.
  intros Hy Hw [Hb|Hb]; [by apply Z.testbit_neg_r|]. destruct (decide (y = 0)) as [->|]; [apply Z.bits_0|]. apply Z.bits_above_log2; [lia|].
  apply Z.lt_le_trans with w; [|lia]. apply Z.log2_lt_pow2; lia.
Qed.

Section ICR.
Context (old dest vector deliveryMode mode destMode shorthand level : Z).
Context (Hd : 0 <= dest < 2 ^ 8) (Hv : 0 <= vector < 2 ^ 8) (Hm : 0 <= deliveryMode < 2 ^ 3) (Ht : 0 <= mode < 2 ^ 1)
  (Hdm : 0 <= destMode < 2 ^ 1) (Hs : 0 <= shorthand < 2 ^ 2) (Hl : 0 <= level < 2 ^ 1).

Let value : Z := icr_value old dest vector deliveryMode mode destMode shorthand level.

(** A bit of the command. *)
Lemma icr_testbit b : 0 <= b < 64 -> Z.testbit value b =
  (Z.testbit old b && negb (bool_decide (56 <= b) || bool_decide (b < 12) || bool_decide (b = 14) || bool_decide (b = 15) ||
     bool_decide (b = 18) || bool_decide (b = 19))) ||
  Z.testbit dest (b - 56) || Z.testbit vector b || Z.testbit deliveryMode (b - 8) || Z.testbit mode (b - 15) ||
  Z.testbit destMode (b - 11) || Z.testbit shorthand (b - 18) || Z.testbit level (b - 14).
Proof.
  intros Hb. unfold value, icr_value. cbv zeta. rewrite !Z.lor_spec, Z.land_spec, Z.lnot_spec, Z.lor_spec, !Z.shiftl_spec by lia.
  do 7 f_equal. f_equal. f_equal.
  assert (Hc : forall n : nat, (n < 64)%nat -> let b := Z.of_nat n in Z.testbit 255 (b - 56) || Z.testbit 839679 b =
    bool_decide (56 <= b) || bool_decide (b < 12) || bool_decide (b = 14) || bool_decide (b = 15) || bool_decide (b = 18) || bool_decide (b = 19)).
  { intros n Hn. do 64 (destruct n as [|n]; [reflexivity|]). lia. }
  specialize (Hc (Z.to_nat b)). rewrite Z2Nat.id in Hc by lia. apply Hc. lia.
Qed.

Ltac icr_field :=
  unfold value; apply bits_ext; [lia| | |lia];
  [intros b Hb; rewrite icr_testbit by lia; try match goal with H : 18 <= ?b < _ |- _ => destruct (decide (b = 18)) end;
   repeat match goal with
   | |- context [bool_decide ?P] => first [rewrite (bool_decide_eq_true_2 P) by lia|rewrite (bool_decide_eq_false_2 P) by lia]
   end; cbn [negb orb]; rewrite ?andb_false_r; cbn [orb];
   repeat first
     [rewrite (testbit_outside dest 8 (b - 56)) by lia|rewrite (testbit_outside vector 8 b) by lia
     |rewrite (testbit_outside deliveryMode 3 (b - 8)) by lia|rewrite (testbit_outside mode 1 (b - 15)) by lia
     |rewrite (testbit_outside destMode 1 (b - 11)) by lia|rewrite (testbit_outside shorthand 2 (b - 18)) by lia
     |rewrite (testbit_outside level 1 (b - 14)) by lia];
   rewrite ?orb_false_r; cbn [orb]; f_equal; lia
  |intros b Hb; eapply testbit_outside; [eassumption|lia|lia]].

Lemma icr_dest : bits 56 8 value = dest. Proof. icr_field. Qed.
Lemma icr_vector : bits 0 8 value = vector. Proof. icr_field. Qed.
Lemma icr_delivery : bits 8 3 value = deliveryMode. Proof. icr_field. Qed.
Lemma icr_destMode : bits 11 1 value = destMode. Proof. icr_field. Qed.
Lemma icr_level : bits 14 1 value = level. Proof. icr_field. Qed.
Lemma icr_trigger : bits 15 1 value = mode. Proof. icr_field. Qed.
Lemma icr_shorthand : bits 18 2 value = shorthand. Proof. icr_field. Qed.
End ICR.

(** The command register as software sees it. *)
Record command : Set := mkCommand {
  c_dest : Z; c_vector : Z; c_delivery : Z; c_trigger : Z; c_destMode : Z; c_shorthand : Z; c_level : Z
}.
Definition decode (hi lo : Z) : command :=
  let v := lo + 2 ^ 32 * hi in
  mkCommand (bits 56 8 v) (bits 0 8 v) (bits 8 3 v) (bits 15 1 v) (bits 11 1 v) (bits 18 2 v) (bits 14 1 v).

(** The chip accepts the command after being found busy [k] times. *)
Definition accepts (l : lapic) (k : nat) : Prop :=
  (forall i, (i < k)%nat -> 0 < Z.land (device l (writes l) (reads l + i) ICR0) (Z.shiftl 1 12)) /\
  Z.land (device l (writes l) (reads l + k) ICR0) (Z.shiftl 1 12) <= 0.

Lemma wait_delivered_runs k : forall fuel l, (k < fuel)%nat -> accepts l k ->
  runs (wait_delivered fuel) l (fun _ l' => l' = set_io (writes l) (reads l + S k) l).
Proof.
  induction k as [|k IH]; intros [|fuel] l Hf [Hb Hr]; try lia; cbn [wait_delivered]; mstep;
    (eapply runs_eq; [reflexivity|]); cbn beta.
  - rewrite Nat.add_0_r in Hr. rewrite (proj2 (Z.ltb_ge _ _)) by done. mstep. f_equal. lia.
  - specialize (Hb 0%nat) as Hb0. rewrite Nat.add_0_r in Hb0. rewrite (proj2 (Z.ltb_lt _ _)) by (apply Hb0; lia).
    eapply runs_mono; [apply (IH fuel)|]; [lia| |].
    + split; cbn [device writes reads set_io].
      * intros i Hi. replace (S (reads l) + i)%nat with (reads l + S i)%nat by lia. apply Hb. lia.
      * by replace (S (reads l) + k)%nat with (reads l + S k)%nat by lia.
    + intros ? l' ->. cbn [writes reads set_io]. unfold set_io. cbn. f_equal. lia.
Qed.

(** The fields that are asked for fit into the command. *)
Record fits (c : command) : Prop := {
  fit_dest : 0 <= c_dest c < 2 ^ 8; fit_vector : 0 <= c_vector c < 2 ^ 8; fit_delivery : 0 <= c_delivery c < 2 ^ 3;
  fit_trigger : 0 <= c_trigger c < 2 ^ 1; fit_destMode : 0 <= c_destMode c < 2 ^ 1; fit_shorthand : 0 <= c_shorthand c < 2 ^ 2;
  fit_level : 0 <= c_level c < 2 ^ 1
}.

(** The two writes that give a command. *)
Definition sends (c : command) (ws : list (Z * Z)) : Prop :=
  exists hi lo, ws = [(ICR1, hi); (ICR0, lo)] /\ 0 <= lo < 2 ^ 32 /\ decode hi lo = c.

Lemma RaiseIPI_runs (l : lapic) (fuel : nat) (c : command) : fits c ->
  (forall hi lo, exists k, (k < fuel)%nat /\ accepts (set_io (writes l ++ [(ICR1, hi); (ICR0, lo)]) (S (S (reads l))) l) k) ->
  runs (RaiseIPI fuel (c_dest c) (c_vector c) (c_delivery c) (c_trigger c) (c_destMode c) (c_shorthand c) (c_level c)) l
    (fun _ l' => exists ws r, sends c ws /\ l' = set_io (writes l ++ ws) r l).
Proof.
  intros Hc Ha. unfold RaiseIPI. mstep. eapply runs_eq; [reflexivity|]. cbn beta.
  mstep. eapply runs_eq; [reflexivity|]. cbn beta zeta. set (v := icr_value _ _ _ _ _ _ _ _). unfold WriteRegister.
  do 4 mstep. cbn [writes reads set_io]. destruct (Ha (Z.shiftr v 32) (Z.land v (Z.ones 32))) as (k & Hk & Hk'). eapply runs_mono.
  { apply (wait_delivered_runs k); [done|].
    unfold set_io in *. cbn in *. rewrite <- app_assoc. exact Hk'. }
  intros ? l' ->. cbn [writes set_io]. eexists [(ICR1, Z.shiftr v 32); (ICR0, Z.land v (Z.ones 32))], _. split.
  2: { unfold set_io. cbn. by rewrite <- app_assoc. }
  exists (Z.shiftr v 32), (Z.land v (Z.ones 32)). split; [done|].
  rewrite Z.land_ones by lia. split; [apply Z.mod_pos_bound; lia|]. unfold decode. rewrite Z.shiftr_div_pow2 by lia.
  replace (v mod 2 ^ 32 + 2 ^ 32 * (v / 2 ^ 32)) with v by zlia. cbv zeta. unfold v.
  destruct c; rewrite icr_dest, icr_vector, icr_delivery, icr_destMode, icr_level, icr_trigger, icr_shorthand by apply Hc. done.
Qed.

(** Raising an interprocessor interrupt writes the high half of the command register and then, which sends it, the low half;
    the two hold the destination, vector, modes and shorthand that were asked for, and the call ends once the
    chip has delivered the interrupt. *)
Theorem RaiseIPI_sends (l : lapic) (fuel k : nat) (dest vector deliveryMode mode destMode shorthand level : Z) :
  0 <= dest < 2 ^ 8 -> 0 <= vector < 2 ^ 8 -> 0 <= deliveryMode < 2 ^ 3 -> 0 <= mode < 2 ^ 1 -> 0 <= destMode < 2 ^ 1 ->
  0 <= shorthand < 2 ^ 2 -> 0 <= level < 2 ^ 1 -> (k < fuel)%nat ->
  (forall hi lo, accepts (set_io (writes l ++ [(ICR1, hi); (ICR0, lo)]) (S (S (reads l))) l) k) ->
  runs (RaiseIPI fuel dest vector deliveryMode mode destMode shorthand level) l (fun _ l' => exists hi lo,
    writes l' = writes l ++ [(ICR1, hi); (ICR0, lo)] /\ 0 <= lo < 2 ^ 32 /\
    decode hi lo = mkCommand dest vector deliveryMode mode destMode shorthand level).
Proof.
  intros Hd Hv Hm Ht Hdm Hs Hl Hk Ha. eapply runs_mono.
  - apply (RaiseIPI_runs l fuel (mkCommand dest vector deliveryMode mode destMode shorthand level)); [by split|]. intros hi lo. by exists k.
  - intros ? l' (ws & r & (hi & lo & -> & Hlo & Hdec) & ->). by exists hi, lo.
Qed.

(** A device that takes commands at once. *)
Definition example_lapic : lapic :=
  mkLAPIC true 255 [mkNMI false false false; mkNMI true true false] 1000 0 0 (fun ws _ r => if r =? ICR0 then 0 else 7) [] 0 [] 0 false [].

Lemma RaiseIPI_sends_witness :
  runs (RaiseIPI 1 3 0 DM_Startup 0 0 0 LevelAssert) example_lapic (fun _ l' => exists hi lo,
    writes l' = [(ICR1, hi); (ICR0, lo)] /\ 0 <= lo < 2 ^ 32 /\ decode hi lo = mkCommand 3 0 6 0 0 0 1).
Proof.
  apply (RaiseIPI_sends example_lapic 1 0 3 0 DM_Startup 0 0 0 LevelAssert); try (unfold DM_Startup, LevelAssert; lia).
  intros hi lo. split; [lia|]. reflexivity.
Defined.

(** ** The start of a processor *)

Definition INIT_to (id : Z) : command := mkCommand id 0 DM_INIT 0 0 0 LevelAssert.
Definition SIPI_to (id : Z) : command := mkCommand id (AP_TRAMP_LOAD / PAGE_SIZE) DM_Startup 0 0 0 LevelAssert.

Lemma fits_default id d : 0 <= id < 2 ^ 8 -> 0 <= d < 2 ^ 3 -> fits (mkCommand id 0 d 0 0 0 LevelAssert).
Proof. unfold LevelAssert. split; cbn; lia. Qed.

(** What [StartCPU] leaves alone, what it has written and what it has done. *)
Definition at_state (l l0 : lapic) (w : list (Z * Z)) (acts : list (nat * action)) : Prop :=
  device l0 = device l /\ m_ID l0 = m_ID l /\ writes l0 = w /\ actions l0 = acts.

Lemma act_then {A} (k : M lapic A) a l l0 w acts Q : at_state l l0 w acts ->
  (forall l1, at_state l l1 w (acts ++ [(length w, a)]) -> runs k l1 Q) -> runs (act a ;;; k) l0 Q.
Proof. intros (? & ? & <- & <-) Hk. unfold act. do 2 mstep. by apply Hk. Qed.

Lemma raise_then {A} (k : M lapic A) fuel d l l0 w acts Q : 0 <= m_ID l < 2 ^ 8 -> 0 <= d < 2 ^ 3 ->
  (forall ws r, exists k, (k < fuel)%nat /\ accepts (set_io ws r l) k) -> at_state l l0 w acts ->
  (forall l1 ws, sends (mkCommand (m_ID l) 0 d 0 0 0 LevelAssert) ws -> at_state l l1 (w ++ ws) acts -> runs k l1 Q) ->
  runs (raise_default fuel 0 d ;;; k) l0 Q.
Proof.
  intros Hid Hd Hacc (Hdev & Heq & <- & <-) Hk. unfold raise_default. do 3 mstep. rewrite Heq. eapply runs_mono.
  - apply (RaiseIPI_runs l0 fuel (mkCommand (m_ID l) 0 d 0 0 0 LevelAssert)); [by apply fits_default|].
    intros hi lo. destruct (Hacc (writes l0 ++ [(ICR1, hi); (ICR0, lo)]) (S (S (reads l0)))) as (j & Hj & Hj').
    exists j. split; [done|]. unfold accepts in *. cbn [device writes reads set_io] in *. by rewrite Hdev.
  - intros [] l' (ws & r & Hs & ->). by eapply Hk.
Qed.

(** Starting a processor, with the root table below four gigabytes, a stack, and a chip that gets idle: the code to start with and
    its data are in the page the start-up interrupt names, which is mapped with all rights before the first command and unmapped after the new
    processor has shown that it runs; the commands are one initialisation and two start-ups to this processor, ten milliseconds and
    200 microseconds apart; the stack it is given ends where the allocated one does. *)
Theorem StartCPU_sequence (e : surroundings) (fuel : nat) (l : lapic) :
  0 <= m_ID l < 2 ^ 8 -> PMM.from_HHDM (g_HHDMOffset e) (g_KernelRootPageTable e) <= UINT32_MAX -> stack e <> 0 ->
  (forall ws r, exists k, (k < fuel)%nat /\ accepts (set_io ws r l) k) -> writes l = [] -> actions l = [] ->
  runs (StartCPU e fuel) l (fun _ l' => exists w1 w2 w3,
    sends (INIT_to (m_ID l)) w1 /\ sends (SIPI_to (m_ID l)) w2 /\ sends (SIPI_to (m_ID l)) w3 /\ writes l' = w1 ++ w2 ++ w3 /\
    actions l' =
      [(0%nat, AcquireTramp); (0%nat, ClearStack (stack e) Descriptors.KERNEL_STACK_SIZE); (0%nat, SetLAPIC (new_proc e));
       (0%nat, InitNewProcessor (new_proc e)); (0%nat, SetCPUState (new_proc e));
       (0%nat, MapPage AP_TRAMP_LOAD AP_TRAMP_LOAD PageMapper.READ_WRITE_EXECUTE false); (0%nat, CopyTrampoline AP_TRAMP_LOAD PAGE_SIZE);
       (0%nat, CopyInfo AP_TRAMP_DATA_ADDR (APInfo e)); (2%nat, SleepNS 10000000); (4%nat, SleepNS 200000); (6%nat, SleepNS 200000);
       (6%nat, Acquire_apLock (new_proc e)); (6%nat, UnmapPage AP_TRAMP_LOAD); (6%nat, ReleaseTramp)] /\
    m_ID l' = m_ID l).
Proof.
  intros Hid Hroot Hst Hacc Hw Ha. unfold StartCPU. rewrite (proj2 (Z.ltb_ge _ _)) by done. rewrite (proj2 (Z.eqb_neq _ _)) by done.
  assert (Hst0 : at_state l l [] []) by done. clear Hw Ha.
  do 8 (eapply act_then; [eassumption|]; intros ? ?).
  eapply raise_then; [done|unfold DM_INIT; lia|done|eassumption|]. intros ? w1 (hi1 & lo1 & -> & Hc1) ?.
  eapply act_then; [eassumption|]; intros ? ?.
  eapply raise_then; [done|unfold DM_Startup; lia|done|eassumption|]. intros ? w2 (hi2 & lo2 & -> & Hc2) ?.
  eapply act_then; [eassumption|]; intros ? ?.
  eapply raise_then; [done|unfold DM_Startup; lia|done|eassumption|]. intros ? w3 (hi3 & lo3 & -> & Hc3) ?.
  do 3 (eapply act_then; [eassumption|]; intros ? ?).
  lazymatch goal with H : at_state l ?l0 _ _ |- runs _ ?l0 _ => destruct H as (_ & Hm & Hw & Ha) end.
  unfold act. mstep. eexists _, _, _. split; [by exists hi1, lo1|]. split; [by exists hi2, lo2|]. split; [by exists hi3, lo3|].
  cbn [writes actions set_actions m_ID]. by rewrite Hw, Ha.
Qed.

Definition example_surroundings : surroundings := mkSurroundings 4096 4276092928 12288 false 65536 5 77 88.
Lemma StartCPU_sequence_witness :
  runs (StartCPU example_surroundings 1) example_lapic (fun _ l' => length (writes l') = 6%nat).
Proof.
  eapply runs_mono.
  - apply (StartCPU_sequence example_surroundings 1 example_lapic); [cbn; lia|vm_compute; discriminate|discriminate| |done|done].
    intros ws r. exists 0%nat. split; [lia|]. split; [lia|]. reflexivity.
  - intros _ l' (w1 & w2 & w3 & (? & ? & -> & _) & (? & ? & -> & _) & (? & ? & -> & _) & Hw & _). rewrite Hw. reflexivity.
Defined.

(** ** The timer *)

Lemma find_divisor_spec p : 0 < p <= LAPIC_TIMER_PERIOD -> forall n, (n <= 7)%nat ->
  let d := find_divisor n p in
  (d <= n)%nat /\ 2 ^ Z.of_nat d * p <= LAPIC_TIMER_PERIOD /\
  forall d', (d < d' <= n)%nat -> LAPIC_TIMER_PERIOD < 2 ^ Z.of_nat d' * p.
Proof.
  intros Hp. unfold LAPIC_TIMER_PERIOD in *. induction n as [|n IH]; intros Hn; cbn [find_divisor].
  { split_and!; [lia|cbn; lia|intros; lia]. }
  assert (0 < 2 ^ Z.of_nat (S n) <= 128).
  { change 128 with (2 ^ 7). split; [lia|]. apply Z.pow_le_mono_r; lia. }
  rewrite mul64_small by nia. destruct (Z.leb_spec (2 ^ Z.of_nat (S n) * p) LAPIC_TIMER_PERIOD) as [Hle|Hgt];
    unfold LAPIC_TIMER_PERIOD in *.
  - split_and!; [lia|done|intros; lia].
  - destruct (IH ltac:(lia)) as (H1 & H2 & H3). split_and!; [lia|done|]. intros d' Hd'.
    destruct (decide (d' = S n)) as [->|]; [done|]. apply H3. lia.
Qed.

(** The value of the register for a divisor, by the documentation of the chip. *)
Definition divide_code (d : nat) : option Z := g_LAPICDivisorLookup !! d.

Definition timer_LVT (v : Z) : bool := (bits 0 8 v =? LAPIC_TIMER_INT) && (bits 16 1 v =? 0) && (bits 17 2 v =? 1).

Lemma timer_LVT_set v : timer_LVT (Z.lor (Z.land v (Z.lnot 459007)) (Z.lor 131072 LAPIC_TIMER_INT)) = true.
Proof.
  unfold timer_LVT, LAPIC_TIMER_INT. change (Z.lor 131072 254) with 131326.
  assert (Hb : forall k w c, 0 <= k -> 0 <= w -> (forall n : nat, (n < Z.to_nat w)%nat ->
      Z.testbit 459007 (Z.of_nat n + k) = true /\ Z.testbit 131326 (Z.of_nat n + k) = Z.testbit c (Z.of_nat n)) ->
      (forall b, w <= b -> Z.testbit c b = false) -> bits k w (Z.lor (Z.land v (Z.lnot 459007)) 131326) = c).
  { intros k w c Hk Hw Hn Hc. apply bits_ext; [done| |done|done]. intros b Hb. rewrite Z.lor_spec, Z.land_spec, Z.lnot_spec by lia.
    destruct (Hn (Z.to_nat (b - k)) ltac:(lia)) as [H1 H2]. rewrite Z2Nat.id in H1, H2 by lia.
    replace (b - k + k) with b in H1, H2 by lia. rewrite H1, H2. cbn [negb]. by rewrite andb_false_r. }
  assert (bits 0 8 (Z.lor (Z.land v (Z.lnot 459007)) 131326) = 254) as ->.
  { apply Hb; [lia|lia| |intros b ?; eapply (testbit_outside _ 8); lia].
    intros n Hn. do 8 (destruct n as [|n]; [split; reflexivity|]). lia. }
  assert (bits 16 1 (Z.lor (Z.land v (Z.lnot 459007)) 131326) = 0) as ->.
  { apply Hb; [lia|lia| |intros; apply Z.bits_0]. intros n Hn. destruct n as [|n]; [split; reflexivity|]. lia. }
  assert (bits 17 2 (Z.lor (Z.land v (Z.lnot 459007)) 131326) = 1) as ->; [|done].
  apply Hb; [lia|lia| |intros b ?; eapply (testbit_outside _ 2); lia].
  intros n Hn. do 2 (destruct n as [|n]; [split; reflexivity|]). lia.
Qed.

(** For a timer whose period is known and not longer than the two milliseconds that are wanted, the start of the timer succeeds and chooses
    the greatest power of two up to 128 and then the greatest number of ticks whose time is not longer than that; it writes a
    divide configuration that has the code of the divisor, an entry with the timer's vector that is periodic and not
    masked, and last the number of ticks. *)
Theorem start_timer_rate (l : lapic) : 0 < m_timerPeriod l <= LAPIC_TIMER_PERIOD ->
  runs start_timer l (fun ok l' => ok = true /\ exists d code config lvt,
    (d <= 7)%nat /\ divide_code d = Some code /\ m_timerDivisor l' = 2 ^ Z.of_nat d /\
    1 <= m_timerTicks l' /\
    m_timerTicks l' * (m_timerDivisor l' * m_timerPeriod l) <= LAPIC_TIMER_PERIOD <
      (m_timerTicks l' + 1) * (m_timerDivisor l' * m_timerPeriod l) /\
    (forall d', (d < d' <= 7)%nat -> LAPIC_TIMER_PERIOD < 2 ^ Z.of_nat d' * m_timerPeriod l) /\
    writes l' = writes l ++ [(DivideConfig, config); (LVT_Timer, lvt); (InitialCount, m_timerTicks l')] /\
    Z.land config code = code /\ timer_LVT lvt = true).
Proof.
  intros Hp. unfold start_timer. do 2 mstep. cbn beta. rewrite (proj2 (Z.ltb_ge _ _)) by lia. cbv zeta.
  destruct (find_divisor_spec _ Hp 7 ltac:(lia)) as (H1 & H2 & H3). set (d := find_divisor 7 _) in *.
  assert (Hpow : 0 < 2 ^ Z.of_nat d <= 128).
  { change 128 with (2 ^ 7). split; [lia|]. apply Z.pow_le_mono_r; lia. }
  rewrite (Z.mod_small (2 ^ _)) by lia. unfold LAPIC_TIMER_PERIOD in *.
  set (q := 2 ^ Z.of_nat d * m_timerPeriod l) in *. assert (0 < q) by (unfold q; apply Z.mul_pos_pos; lia).
  unfold mul64, wrap64. rewrite (Z.mul_comm (m_timerPeriod l)). fold q. rewrite (Z.mod_small q) by lia. assert (1 <= 2000000000 / q) by (apply Z.div_le_lower_bound; lia).
  assert (2000000000 / q <= 2000000000) by (apply Z.div_le_upper_bound; nia).
  unfold u32. rewrite (Z.mod_small (_ / q)) by lia.
  destruct (lookup_lt_is_Some_2 g_LAPICDivisorLookup d) as [code Hcode]; [change (length g_LAPICDivisorLookup) with 8%nat; lia|].
  rewrite Hcode. cbn [default]. pose proof (Z.div_mod 2000000000 q ltac:(lia)). pose proof (Z.mod_pos_bound 2000000000 q ltac:(lia)).
  assert (Hland : forall v, Z.land (Z.lor v code) code = code).
  { intros v. apply Z.bits_inj'. intros n Hn. rewrite Z.land_spec, Z.lor_spec. by destruct (Z.testbit v n), (Z.testbit code n). }
  unfold runs, bind, gets, modify, whenM, register_ISR, WriteRegister, ReadRegister, ret, modify.
  destruct (m_BSP l) eqn:Hb; cbn [m_BSP set_timer]; rewrite Hb; eexists true, _;
    (split; [reflexivity|]); (split; [done|]); eexists d, code, _, _;
    cbn [m_timerDivisor m_timerTicks set_io set_timer set_handlers writes]; rewrite <- !app_assoc; fold q;
    (split_and!; [lia|done|done|lia|lia|lia|done|reflexivity|apply Hland|apply timer_LVT_set]).
Qed.

Lemma start_timer_rate_witness :
  runs start_timer example_lapic (fun ok l' => ok = true /\ m_timerTicks l' * (m_timerDivisor l' * 1000) <= 2000000000).
Proof.
  eapply runs_mono.
  - apply (start_timer_rate example_lapic). unfold LAPIC_TIMER_PERIOD. cbn. lia.
  - intros ok l' (Hok & d & code & config & lvt & _ & _ & _ & _ & [H _] & _). exact (conj Hok H).
Defined.

(** ** What goes wrong *)

(** A device whose divide configuration reads back what was written; the timer counts a thousand million times a second. *)
Definition readback (ws : list (Z * Z)) (r : Z) : Z :=
  default 0 (last (filter (fun w => fst w = r) ws) ≫= fun w => Some (snd w)).
Definition measured_lapic : lapic :=
  mkLAPIC true 255 [] 0 0 0 (fun ws _ r => if r =? CurrentCount then UINT32_MAX - 10000000 else readback ws r) [] 0 [] 0 false [].

(** When the timer was measured first, the bits of "divide by one" stay in the divide configuration: the number of ticks
    is computed for the divisor 128, and the timer runs 128 times too fast. *)
Theorem measured_timer_too_fast :
  match InitTimer 2 (Some (mkHPET 10000000 (fun k => 1000000 * Z.of_nat k))) measured_lapic with
  | Ok (ok, l') => ok = true /\ m_timerDivisor l' = 128 /\ m_timerTicks l' = 15625 /\ readback (writes l') DivideConfig = 11 /\
      divide_code 0 = Some 11
  | Fail _ => False
  end.
Proof. vm_compute. split_and!; reflexivity. Qed.

(** The start-up does not write the local vector for errors: it is not masked. *)
Theorem error_LVT_not_masked :
  match Init_started example_lapic with
  | Ok (_, l') => fst <$> writes l' = [752; 800; 816; 832; 848; 864; 864; 240]
  | Fail _ => False
  end.
Proof. vm_compute. reflexivity. Qed.

(** The polarity and the trigger mode of the local pins for non-maskable interrupts are the opposite of what was asked for: bit 13
    is active low and bit 15 level triggered. *)
Theorem nmi_LVT_inverted (v : Z) (s : NMISource) :
  Z.testbit (nmi_LVT v s) 13 = negb (activeLow s) /\ Z.testbit (nmi_LVT v s) 15 = negb (levelTriggered s).
Proof.
  unfold nmi_LVT. cbv zeta. rewrite !Z.lor_spec, !Z.land_spec.
  change (Z.testbit 4294903808 13) with false. change (Z.testbit 4294903808 15) with false. rewrite !andb_false_r.
  destruct (activeLow s), (levelTriggered s); split; reflexivity.
Qed.

End LocalAPIC.
