(* ===== verification/NMI.v ===== *)
(** * NMI.v: non-maskable interrupts between processors (src/kernel/src/arch/x86_64/interrupts/NMI.cpp)

    A processor asks all the others to invalidate pages or to halt and waits until they have done so. The steps of the
    processors, between which the others may run, are a relation: acquiring a lock, working under it, sending the interrupt, one
    look at the counter. The number of processors is a parameter; what [Scheduler::SaveOnInt] answers is left open. An interrupt that comes
    while one is handled stays pending, and the code that asks is suspended while its processor handles one.

    Shown: whatever the order of the steps, the wait is over only when every other processor has done what was asked for, with
    the data of this request, and as long as no processor has been halted a request always gets on. A panic forces the lock of
    the requests open before it asks for a halt; this is covered while no request is under way, and shown to break the protocol
    otherwise.

    The interrupts for one processor are functions on the data of that processor. *)

From S2P Require Import Prelude.

#[local] Open Scope Z_scope.
#[local] Open Scope kernel_scope.

Module NMI.

Inductive x86_64_NMIType : Set := HALT | INVPAGES | YIELD | NONE.
#[export] Instance NMIType_eq_dec : EqDecision x86_64_NMIType. Proof. solve_decision. Defined.

Record x86_64_NMI_InvPagesData : Set := mkInv { start : Z; pageCount : Z }.

(** A lock is held by a processor or free; [yieldData], which nothing uses, is left out. *)
Record GlobalNMIData : Set := mkGlobal {
  type : x86_64_NMIType;
  invPagesData : x86_64_NMI_InvPagesData;
  cpuCount : nat;
  maxCPUCount : nat;
  lock : option nat;
  raiseLock : option nat
}.

Definition g_NMIData : GlobalNMIData := mkGlobal NONE (mkInv 0 0) 0 0 None None.

Definition set_lock v g := mkGlobal (type g) (invPagesData g) (cpuCount g) (maxCPUCount g) v (raiseLock g).
Definition set_raiseLock v g := mkGlobal (type g) (invPagesData g) (cpuCount g) (maxCPUCount g) (lock g) v.
Definition set_cpuCount v g := mkGlobal (type g) (invPagesData g) v (maxCPUCount g) (lock g) (raiseLock g).

(** What is asked for. *)
Record request : Set := mkRequest { rq_type : x86_64_NMIType; rq_data : x86_64_NMI_InvPagesData }.

(** [SetData] under the lock, for [count] other processors; a request to yield is a panic. *)
Definition SetData_body (q : request) (count : nat) (g : GlobalNMIData) : GlobalNMIData :=
  mkGlobal (rq_type q) (if decide (rq_type q = INVPAGES) then rq_data q else invPagesData g) 0 count (lock g) (raiseLock g).

(** The last processor that handles a request ends it. *)
Definition reset (g : GlobalNMIData) : GlobalNMIData := mkGlobal NONE (invPagesData g) (cpuCount g) 0 (lock g) (raiseLock g).

(** What a processor did for a request. *)
Inductive action : Set := Invalidated (d : x86_64_NMI_InvPagesData) | Halting.
Definition action_of (q : request) : action :=
  if decide (rq_type q = INVPAGES) then Invalidated (rq_data q) else Halting.

(** ** The steps *)

(** Where [GlobalNMI::Raise] is: waiting for [raiseLock], for [lock], working under it, releasing it, sending, waiting, releasing
    [raiseLock]. *)
Inductive raising : Set :=
  | RIdle
  | RRaise (q : request)
  | RSet (q : request)
  | RFill (q : request)
  | RUnlock (q : request)
  | RSend (q : request)
  | RWait (q : request)
  | RDone (q : request).

(** Where [x86_64_HandleNMI] is; [h]: the processor halts after it has released the lock. *)
Inductive handling : Set :=
  | HIdle
  | HWant
  | HCheck
  | HAct
  | HCount (h : bool)
  | HLast (h : bool)
  | HUnlock (h : bool)
  | HHalted.
#[export] Instance handling_eq_dec : EqDecision handling. Proof. solve_decision. Defined.

(** [acted], [counted]: what the processors did, and which have counted themselves, since the data was last set. *)
Record state : Type := mkState {
  global : GlobalNMIData;
  raise : nat -> raising;
  handle : nat -> handling;
  pending : nat -> bool;
  acted : nat -> option action;
  counted : gset nat
}.

Definition with_global g s := mkState g (raise s) (handle s) (pending s) (acted s) (counted s).
Definition with_raise (c : nat) v s := mkState (global s) (<[c := v]> (raise s)) (handle s) (pending s) (acted s) (counted s).
Definition with_handle (c : nat) v s := mkState (global s) (raise s) (<[c := v]> (handle s)) (pending s) (acted s) (counted s).
Definition with_pending v s := mkState (global s) (raise s) (handle s) v (acted s) (counted s).
Definition with_acted v s := mkState (global s) (raise s) (handle s) (pending s) v (counted s).
Definition with_counted v s := mkState (global s) (raise s) (handle s) (pending s) (acted s) v.

Section Steps.
(** The number of processors. *)
Context (n : nat).

(** The interprocessor interrupt to all but the sender. *)
Definition RaiseIPI_all (r : nat) (p : nat -> bool) : nat -> bool :=
  fun c => if decide (c <> r /\ (c < n)%nat) then true else p c.

Inductive step : state -> state -> Prop :=
  (** [Raise]: the processor is not handling an interrupt *)
  | step_raise_lock s c q : raise s c = RRaise q -> handle s c = HIdle -> raiseLock (global s) = None ->
      step s (with_global (set_raiseLock (Some c) (global s)) (with_raise c (RSet q) s))
  | step_set_lock s c q : raise s c = RSet q -> handle s c = HIdle -> lock (global s) = None ->
      step s (with_global (set_lock (Some c) (global s)) (with_raise c (RFill q) s))
  | step_fill s c q : raise s c = RFill q -> handle s c = HIdle ->
      step s (with_counted ∅ (with_acted (fun _ => None) (with_global (SetData_body q (n - 1) (global s)) (with_raise c (RUnlock q) s))))
  | step_set_unlock s c q : raise s c = RUnlock q -> handle s c = HIdle ->
      step s (with_global (set_lock None (global s)) (with_raise c (RSend q) s))
  | step_send s c q : raise s c = RSend q -> handle s c = HIdle ->
      step s (with_pending (RaiseIPI_all c (pending s)) (with_raise c (RWait q) s))
  | step_wait s c q : raise s c = RWait q -> handle s c = HIdle -> (n - 1 <= cpuCount (global s))%nat ->
      step s (with_raise c (RDone q) s)
  | step_raise_unlock s c q : raise s c = RDone q -> handle s c = HIdle ->
      step s (with_global (set_raiseLock None (global s)) (with_raise c RIdle s))
  (** [x86_64_HandleNMI] *)
  | step_enter s c : pending s c = true -> handle s c = HIdle ->
      step s (with_pending (<[c := false]> (pending s)) (with_handle c HWant s))
  | step_handle_lock s c : handle s c = HWant -> lock (global s) = None ->
      step s (with_global (set_lock (Some c) (global s)) (with_handle c HCheck s))
  | step_check s c : handle s c = HCheck ->
      step s (with_handle c (if decide (type (global s) = NONE) then HUnlock false else HAct) s)
  | step_invalidate s c : handle s c = HAct -> type (global s) = INVPAGES ->
      step s (with_acted (<[c := Some (Invalidated (invPagesData (global s)))]> (acted s)) (with_handle c (HCount false) s))
  | step_halt s c h : handle s c = HAct -> type (global s) = HALT ->
      step s (with_acted (<[c := Some Halting]> (acted s)) (with_handle c (HCount h) s))
  | step_count s c h : handle s c = HCount h ->
      step s (with_counted ({[c]} ∪ counted s) (with_global (set_cpuCount (S (cpuCount (global s))) (global s))
        (with_handle c (if decide (S (cpuCount (global s)) = maxCPUCount (global s)) then HLast h else HUnlock h) s)))
  | step_reset s c h : handle s c = HLast h ->
      step s (with_global (reset (global s)) (with_handle c (HUnlock h) s))
  | step_handle_unlock s c h : handle s c = HUnlock h ->
      step s (with_global (set_lock None (global s)) (with_handle c (if h then HHalted else HIdle) s)).

(** A processor begins to ask. *)
Inductive begin : state -> state -> Prop :=
  | begin_raise s c q : (c < n)%nat -> raise s c = RIdle -> handle s c = HIdle -> rq_type q = HALT \/ rq_type q = INVPAGES ->
      begin s (with_raise c (RRaise q) s).

(** [ForceAllowRaise], with which a panic starts: the lock of the requests is released, whoever holds it. *)
Definition ForceAllowRaise (s : state) : state := with_global (set_raiseLock None (global s)) s.

Definition initial : state := mkState g_NMIData (fun _ => RIdle) (fun _ => HIdle) (fun _ => false) (fun _ => None) ∅.

Inductive reachable : state -> Prop :=
  | reach_initial : reachable initial
  | reach_step s s' : reachable s -> step s s' -> reachable s'
  | reach_begin s s' : reachable s -> begin s s' -> reachable s'
  | reach_force s : reachable s -> raiseLock (global s) = None -> reachable (ForceAllowRaise s).

(** The same with a panic at any time, also while a request is under way. *)
Inductive reachable_forced : state -> Prop :=
  | forced_initial : reachable_forced initial
  | forced_step s s' : reachable_forced s -> step s s' -> reachable_forced s'
  | forced_begin s s' : reachable_forced s -> begin s s' -> reachable_forced s'
  | forced_force s : reachable_forced s -> reachable_forced (ForceAllowRaise s).

End Steps.

(** ** Invariant *)

Definition calm (h : handling) : Prop := h = HIdle \/ h = HHalted.
Definition ending (h : handling) : Prop := (exists b, h = HLast b) \/ (exists b, h = HUnlock b).
(** Where the lock is held. *)
Definition locked_h (h : handling) : Prop := h = HCheck \/ h = HAct \/ (exists b, h = HCount b) \/ ending h.
Definition locked_r (p : raising) : Prop := (exists q, p = RFill q) \/ (exists q, p = RUnlock q).

(** The request of a processor that holds [raiseLock]. *)
Definition holds (p : raising) : option request :=
  match p with RIdle | RRaise _ => None | RSet q | RFill q | RUnlock q | RSend q | RWait q | RDone q => Some q end.
Definition asks (p : raising) : option request := match p with RRaise q => Some q | _ => holds p end.

Section Invariant.
Context (n : nat).
Implicit Types s : state.

Definition quiet s : Prop := forall c, pending s c = false /\ (calm (handle s c) \/ ending (handle s c)).

(** The data of the request is set. *)
Record live (q : request) s : Prop := {
  live_type : type (global s) = rq_type q;
  live_data : rq_type q = INVPAGES -> invPagesData (global s) = rq_data q;
  live_max : maxCPUCount (global s) = (n - 1)%nat
}.

Record fresh (q : request) s : Prop := {
  fresh_live : live q s;
  fresh_rest c : pending s c = false /\ calm (handle s c);
  fresh_count : cpuCount (global s) = 0%nat;
  fresh_counted : counted s = ∅
}.

(** A processor that has not counted itself: the interrupt is pending, or it is being handled. *)
Definition due (q : request) s (c : nat) : Prop :=
  (pending s c = true /\ calm (handle s c)) \/
  (pending s c = false /\ (handle s c = HWant \/ handle s c = HCheck \/ handle s c = HAct \/
     exists h, handle s c = HCount h /\ acted s c = Some (action_of q))).

Record flight (r : nat) (q : request) s : Prop := {
  fl_live : (cpuCount (global s) < n - 1)%nat -> live q s;
  fl_size : cpuCount (global s) = size (counted s);
  fl_counted c : c ∈ counted s -> c <> r /\ (c < n)%nat /\ acted s c = Some (action_of q) /\ pending s c = false /\
    (calm (handle s c) \/ ending (handle s c));
  fl_due c : (c < n)%nat -> c <> r -> c ∉ counted s -> due q s c;
  fl_last c h : handle s c = HLast h -> (n - 1 <= cpuCount (global s))%nat;
  fl_self : pending s r = false /\ handle s r = HIdle
}.

Definition phase s (r : nat) : Prop :=
  match raise s r with
  | RSet _ | RFill _ => quiet s
  | RUnlock q | RSend q => fresh q s
  | RWait q => flight r q s
  | RDone q => flight r q s /\ (n - 1 <= cpuCount (global s))%nat
  | RIdle | RRaise _ => False
  end.

Record inv s : Prop := {
  inv_lock c : lock (global s) = Some c <-> locked_r (raise s c) \/ locked_h (handle s c);
  inv_raise c : raiseLock (global s) = Some c <-> is_Some (holds (raise s c));
  inv_excl c : locked_r (raise s c) -> handle s c = HIdle;
  inv_ask c q : asks (raise s c) = Some q -> (c < n)%nat /\ (rq_type q = HALT \/ rq_type q = INVPAGES);
  inv_out c : (n <= c)%nat -> pending s c = false /\ handle s c = HIdle;
  inv_phase : match raiseLock (global s) with None => quiet s | Some r => phase s r end
}.

Lemma locked_holds p : locked_r p -> is_Some (holds p).
Proof. intros [[q ->]|[q ->]]; done. Qed.

Lemma fn_upd {A} (f : nat -> A) c v d : <[c := v]> f d = if decide (c = d) then v else f d.
Proof. reflexivity. Qed.

(** There is room for a processor that has not counted itself. *)
Lemma due_room r q s c : flight r q s -> (c < n)%nat -> (r < n)%nat -> c <> r -> c ∉ counted s -> (cpuCount (global s) < n - 1)%nat.
Proof.
  intros Hf Hc Hr Hne Hnc. rewrite (fl_size _ _ _ Hf).
  assert (counted s ⊆ set_seq 0 n ∖ {[r; c]}) as Hsub.
  { intros d Hd. destruct (fl_counted _ _ _ Hf d Hd) as (? & ? & _). rewrite elem_of_difference, elem_of_set_seq.
    split; [lia|]. intros [?%elem_of_singleton|?%elem_of_singleton]%elem_of_union; congruence. }
  apply subseteq_size in Hsub. rewrite size_difference in Hsub.
  - rewrite size_set_seq, size_union, !size_singleton in Hsub by set_solver. lia.
  - intros d. rewrite elem_of_union, !elem_of_singleton, elem_of_set_seq. lia.
Qed.

Lemma due_live r q s c : flight r q s -> (c < n)%nat -> (r < n)%nat -> c <> r -> c ∉ counted s -> live q s.
Proof. intros Hf Hc Hr Hne Hnc. apply (fl_live _ _ _ Hf). exact (due_room r q s c Hf Hc Hr Hne Hnc). Qed.

(** ** Handlers *)

Definition busy s (c : nat) : Prop :=
  pending s c = true \/ handle s c = HWant \/ handle s c = HCheck \/ handle s c = HAct \/ exists h, handle s c = HCount h.

Lemma quiet_not_busy s c : quiet s -> busy s c -> False.
Proof.
  intros Hq Hb. destruct (Hq c) as [Hp Hh]. unfold busy, calm, ending in *. naive_solver congruence.
Qed.

Lemma fresh_quiet q s : fresh q s -> quiet s.
Proof. intros [_ H _ _] c. destruct (H c). auto. Qed.

(** An interrupt is handled only while a processor waits for it. *)
Lemma in_flight s c : inv s -> busy s c -> exists r q, raiseLock (global s) = Some r /\ raise s r = RWait q /\ flight r q s /\
  (c < n)%nat /\ (r < n)%nat /\ c <> r /\ c ∉ counted s /\ live q s.
Proof.
  intros Hi Hb. pose proof (inv_phase _ Hi) as Hp. destruct (raiseLock (global s)) as [r|] eqn:Hr; [|by destruct (quiet_not_busy s c)].
  assert (Hcn : (c < n)%nat).
  { destruct (decide (c < n)%nat) as [|Hge]; [done|]. destruct (inv_out _ Hi c ltac:(lia)). unfold busy in Hb. naive_solver congruence. }
  unfold phase in Hp. pose proof (inv_ask _ Hi r) as Hask.
  assert (Hfl : forall q, flight r q s -> c <> r /\ c ∉ counted s).
  { intros q Hf. split.
    - intros ->. destruct (fl_self _ _ _ Hf). unfold busy in Hb. naive_solver congruence.
    - intros Hc. destruct (fl_counted _ _ _ Hf c Hc) as (_ & _ & _ & Hpd & Hh). unfold busy, calm, ending in *. naive_solver congruence. }
  destruct (raise s r) as [|q|q|q|q|q|q|q] eqn:Hrr; try done; try (by destruct (quiet_not_busy s c));
    try (by destruct (quiet_not_busy s c); [by eapply fresh_quiet|]).
  - destruct (Hask q eq_refl) as [Hrn _]. destruct (Hfl q Hp) as [Hne Hnc]. exists r, q. split_and!; try done. exact (due_live r q s c Hp Hcn Hrn Hne Hnc).
  - destruct Hp as [Hf Hcnt]. destruct (Hask q eq_refl) as [Hrn _]. destruct (Hfl q Hf) as [Hne Hnc]. exfalso.
    pose proof (due_room r q s c Hf Hcn Hrn Hne Hnc). lia.
Qed.

(** A move of a processor that has not counted itself. *)
Lemma flight_move r q s s' c : flight r q s -> live q s -> c <> r -> c ∉ counted s ->
  (forall d, d <> c -> handle s' d = handle s d /\ pending s' d = pending s d /\ acted s' d = acted s d) ->
  type (global s') = type (global s) -> invPagesData (global s') = invPagesData (global s) ->
  maxCPUCount (global s') = maxCPUCount (global s) -> cpuCount (global s') = cpuCount (global s) -> counted s' = counted s ->
  due q s' c -> flight r q s'.
Proof.
  intros Hf [L1 L2 L3] Hne Hnc Hd G1 G2 G3 G4 G5 Hdue. destruct Hf as [F1 F2 F3 F4 F5 F6]. split.
  - intros _. split; congruence || (rewrite G2; done).
  - congruence.
  - intros d. rewrite G5. intros Hdc. destruct (Hd d) as (-> & -> & ->); [congruence|]. by apply F3.
  - intros d Hdn Hdr. rewrite G5. intros Hdc. destruct (decide (d = c)) as [->|Hdne]; [done|].
    unfold due. destruct (Hd d Hdne) as (-> & -> & ->). by apply F4.
  - intros d h Hh. rewrite G4. destruct (decide (d = c)) as [->|Hdne].
    + unfold due, calm in Hdue. naive_solver congruence.
    + destruct (Hd d Hdne) as (E & _ & _). rewrite E in Hh. by eapply F5.
  - destruct (Hd r) as (-> & -> & _); [congruence|done].
Qed.

Lemma inv_enter s c : inv s -> pending s c = true -> handle s c = HIdle ->
  inv (with_pending (<[c := false]> (pending s)) (with_handle c HWant s)).
Proof.
  intros Hi Hp Hh. destruct (in_flight s c Hi ltac:(by left)) as (r & q & Hr & Hrr & Hf & Hcn & Hrn & Hne & Hnc & Hl).
  destruct Hi as [I1 I2 Ie I3 I4 _]. split; cbn [with_pending with_handle global raise handle pending]; try done.
  - intros d. rewrite I1, fn_upd. case_decide; [subst d|done]. rewrite Hh. unfold locked_h, ending. naive_solver congruence.
  - intros d Hd. rewrite fn_upd. case_decide; [subst d|by apply Ie]. destruct Hne. apply locked_holds, I2 in Hd. congruence.
  - intros d Hd. rewrite !fn_upd. case_decide; [lia|]. by apply I4.
  - rewrite Hr. unfold phase. cbn [raise with_pending with_handle]. rewrite Hrr.
    eapply (flight_move r q s _ c); try done; cbn [with_pending with_handle handle pending acted].
    + intros d Hd. rewrite !fn_upd, !decide_False by done. done.
    + right. cbn. rewrite !fn_upd, !decide_True by done. auto.
Qed.

Lemma inv_handle_lock s c : inv s -> handle s c = HWant -> lock (global s) = None ->
  inv (with_global (set_lock (Some c) (global s)) (with_handle c HCheck s)).
Proof.
  intros Hi Hh Hlk. destruct (in_flight s c Hi ltac:(unfold busy; auto)) as (r & q & Hr & Hrr & Hf & Hcn & Hrn & Hne & Hnc & Hl).
  pose proof (fl_due _ _ _ Hf c Hcn Hne Hnc) as Hdue.
  destruct Hi as [I1 I2 Ie I3 I4 _]. split; cbn [with_global with_handle global raise handle pending set_lock lock raiseLock]; try done.
  - intros d. rewrite fn_upd. specialize (I1 d). rewrite Hlk in I1. case_decide; [subst d|].
    + split; [intros _; right; left; done|done].
    + split; [congruence|]. intros Hx%I1. done.
  - intros d Hd. rewrite fn_upd. case_decide; [subst d|by apply Ie]. apply Ie in Hd. congruence.
  - intros d Hd. rewrite fn_upd. case_decide; [lia|]. by apply I4.
  - rewrite Hr. unfold phase. cbn [raise with_global with_handle]. rewrite Hrr.
    eapply (flight_move r q s _ c); try done; cbn [with_global with_handle handle pending acted].
    + intros d Hd. rewrite !fn_upd, !decide_False by done. done.
    + unfold due in *. cbn [with_global with_handle handle pending acted]. rewrite !fn_upd, !decide_True by done. unfold calm in *. naive_solver congruence.
Qed.

(** The steps of a handler between two that keep the lock. *)
Lemma inv_act s s' c : inv s -> busy s c -> locked_h (handle s c) ->
  (forall q, live q s -> due q s c -> due q s' c) -> locked_h (handle s' c) ->
  raise s' = raise s -> counted s' = counted s -> global s' = global s ->
  (forall d, d <> c -> handle s' d = handle s d /\ pending s' d = pending s d /\ acted s' d = acted s d) ->
  inv s'.
Proof.
  intros Hi Hb Hl0 Hdue Hl1 G1 G2 G3 Hd.
  destruct (in_flight s c Hi Hb) as (r & q & Hr & Hrr & Hf & Hcn & Hrn & Hne & Hnc & Hl).
  destruct Hi as [I1 I2 Ie I3 I4 _]. split.
  - intros d. rewrite G3, I1, G1. destruct (decide (d = c)) as [->|Hdc]; [tauto|]. by destruct (Hd d Hdc) as (-> & _ & _).
  - intros d. by rewrite G3, G1.
  - intros d. rewrite G1. intros Hx%Ie. destruct (decide (d = c)) as [->|Hdc]; [|by destruct (Hd d Hdc) as (-> & _ & _)].
    unfold locked_h, ending in Hl0. naive_solver congruence.
  - intros d. rewrite G1. apply I3.
  - intros d Hdn. destruct (Hd d ltac:(lia)) as (-> & -> & _). by apply I4.
  - rewrite G3, Hr. unfold phase. rewrite G1, Hrr. eapply (flight_move r q s _ c); rewrite ?G3; try done.
    apply Hdue; [done|]. by apply (fl_due _ _ _ Hf).
Qed.

Lemma inv_count s c h : inv s -> handle s c = HCount h ->
  inv (with_counted ({[c]} ∪ counted s) (with_global (set_cpuCount (S (cpuCount (global s))) (global s))
        (with_handle c (if decide (S (cpuCount (global s)) = maxCPUCount (global s)) then HLast h else HUnlock h) s))).
Proof.
  intros Hi Hh. destruct (in_flight s c Hi ltac:(unfold busy; eauto 10)) as (r & q & Hr & Hrr & Hf & Hcn & Hrn & Hne & Hnc & Hl).
  pose proof (fl_due _ _ _ Hf c Hcn Hne Hnc) as Hdue. pose proof (due_room _ _ _ _ Hf Hcn Hrn Hne Hnc) as Hroom.
  set (h' := if decide _ then HLast h else HUnlock h). assert (Hend : ending h') by (unfold ending, h'; case_decide; eauto).
  destruct Hi as [I1 I2 Ie I3 I4 _].
  split; cbn [with_counted with_global with_handle global raise handle pending set_cpuCount lock raiseLock]; try done.
  - intros d. rewrite I1, fn_upd. case_decide; [subst d|done]. rewrite Hh. unfold locked_h. split; intros _; right; eauto 10.
  - intros d Hd. rewrite fn_upd. case_decide; [subst d|by apply Ie]. apply Ie in Hd. congruence.
  - intros d Hd. rewrite fn_upd. case_decide; [lia|]. by apply I4.
  - rewrite Hr. unfold phase. cbn [raise with_counted with_global with_handle]. rewrite Hrr. destruct Hf as [F1 F2 F3 F4 F5 F6]. destruct Hl as [L1 L2 L3].
    split; cbn [with_counted with_global with_handle global raise handle pending acted counted set_cpuCount cpuCount type invPagesData maxCPUCount].
    + intros _. by split.
    + rewrite size_union, size_singleton by set_solver. lia.
    + intros d Hd%elem_of_union. rewrite fn_upd. unfold due, calm in Hdue. case_decide; [subst d|].
      * split_and!; [done|done|naive_solver congruence|naive_solver congruence|by right].
      * apply F3. set_solver.
    + intros d Hdn Hdr Hdc. unfold due. cbn [handle pending acted with_counted with_global with_handle]. rewrite fn_upd, decide_False by set_solver.
      apply F4; [done|done|set_solver].
    + intros d h1. rewrite fn_upd. case_decide; [|intros Hd; apply F5 in Hd; lia]. unfold h'. case_decide; [|done]. intros _. rewrite L3 in *. lia.
    + rewrite fn_upd, decide_False by done. done.
Qed.

Lemma quiet_move s g c h : quiet s -> calm h \/ ending h -> quiet (with_global g (with_handle c h s)).
Proof.
  intros Hq Hh d. destruct (Hq d). cbn [with_global with_handle pending handle]. rewrite fn_upd. split; [done|]. by case_decide.
Qed.

(** The end of a handler. *)
Lemma phase_end s c g h : inv s -> ending (handle s c) -> calm h \/ ending h -> (forall b, h <> HLast b) ->
  raiseLock g = raiseLock (global s) -> cpuCount g = cpuCount (global s) ->
  (exists b, handle s c = HLast b) \/
    (type g = type (global s) /\ invPagesData g = invPagesData (global s) /\ maxCPUCount g = maxCPUCount (global s)) ->
  match raiseLock g with None => quiet (with_global g (with_handle c h s)) | Some r => phase (with_global g (with_handle c h s)) r end.
Proof.
  intros Hi He Hh Hnl G1 G2 G3. pose proof (inv_phase _ Hi) as Hp. rewrite G1. destruct (raiseLock (global s)) as [r|]; [|by apply quiet_move].
  assert (Hnc : ~ calm (handle s c)) by (unfold calm, ending in *; naive_solver congruence).
  assert (Hfl : forall q, flight r q s -> flight r q (with_global g (with_handle c h s))).
  { intros q [F1 F2 F3 F4 F5 F6]. split; cbn [with_global with_handle global handle pending acted counted].
    - rewrite G2. intros Hlt. destruct G3 as [[b Hb]|(E1 & E2 & E3)]; [apply F5 in Hb; lia|]. destruct (F1 Hlt) as [L1 L2 L3].
      split; cbn [with_global with_handle global]; [congruence| |congruence]. rewrite E2. done.
    - by rewrite G2.
    - intros d Hd. rewrite fn_upd. destruct (F3 d Hd) as (? & ? & ? & ? & ?). by case_decide.
    - intros d Hdn Hdr Hdc. unfold due. cbn [handle pending acted with_global with_handle]. rewrite fn_upd. case_decide; [subst d|by apply F4].
      pose proof (F4 c Hdn Hdr Hdc) as Hd. unfold due, calm, ending in *. naive_solver congruence.
    - intros d b. rewrite G2, fn_upd. case_decide; [congruence|]. apply F5.
    - rewrite fn_upd. case_decide; [subst c|done]. unfold calm in Hnc. destruct F6. tauto. }
  unfold phase in *. cbn [raise with_global with_handle global].
  destruct (raise s r); try done; try (by apply quiet_move); try (by destruct Hnc; apply Hp); [by apply Hfl|].
  rewrite G2. destruct Hp. split; [by apply Hfl|done].
Qed.

Lemma inv_reset s c h : inv s -> handle s c = HLast h -> inv (with_global (reset (global s)) (with_handle c (HUnlock h) s)).
Proof.
  intros Hi Hh. pose proof (phase_end s c (reset (global s)) (HUnlock h) Hi ltac:(unfold ending; eauto) ltac:(unfold ending; eauto)
    ltac:(done) eq_refl eq_refl ltac:(eauto)) as Hph.
  destruct Hi as [I1 I2 Ie I3 I4 _]. split; cbn [with_global with_handle global raise handle pending]; try done.
  - intros d. cbn [reset lock]. rewrite I1, fn_upd. case_decide; [subst d|done]. rewrite Hh. unfold locked_h, ending. split; intros _; right; eauto 10.
  - intros d Hd. rewrite fn_upd. case_decide; [subst d|by apply Ie]. apply Ie in Hd. congruence.
  - intros d Hd. rewrite fn_upd. destruct (I4 d Hd). case_decide; [subst d; congruence|done].
Qed.

Lemma inv_handle_unlock s c h : inv s -> handle s c = HUnlock h ->
  inv (with_global (set_lock None (global s)) (with_handle c (if h then HHalted else HIdle) s)).
Proof.
  intros Hi Hh. pose proof (phase_end s c (set_lock None (global s)) (if h then HHalted else HIdle) Hi ltac:(unfold ending; eauto)
    ltac:(unfold calm; destruct h; auto) ltac:(by destruct h) eq_refl eq_refl ltac:(by right)) as Hph.
  destruct Hi as [I1 I2 Ie I3 I4 _]. split; cbn [with_global with_handle global raise handle pending]; try done.
  - intros d. cbn [set_lock lock]. rewrite fn_upd.
    assert (Hc : lock (global s) = Some c) by (apply I1; right; unfold locked_h, ending; rewrite Hh; eauto 10).
    split; [done|]. intros Hd. exfalso. destruct (decide (c = d)) as [<-|Hne].
    + destruct Hd as [Hd|Hd]; [apply Ie in Hd; congruence|]. unfold locked_h, ending in Hd. destruct h; naive_solver congruence.
    + apply I1 in Hd. congruence.
  - intros d Hd. rewrite fn_upd. case_decide; [subst d|by apply Ie]. apply Ie in Hd. congruence.
  - intros d Hd. rewrite fn_upd. destruct (I4 d Hd). case_decide; [subst d; congruence|done].
Qed.

(** ** The processor that asks *)

Lemma flight_raise r q s c v : flight r q s -> flight r q (with_raise c v s).
Proof. intros [F1 F2 F3 F4 F5 F6]. split; try done. intros Hlt. by destruct (F1 Hlt). Qed.

(** Its part of the invariant. *)
Lemma inv_move s s' c v : inv s -> handle s c = HIdle -> raise s' = <[c := v]> (raise s) -> handle s' = handle s ->
  (forall d, (n <= d)%nat -> pending s' d = pending s d) -> (forall q, asks v = Some q -> asks (raise s c) = Some q) ->
  (lock (global s') = Some c <-> locked_r v) ->
  (forall d, d <> c -> lock (global s') = Some d <-> lock (global s) = Some d) ->
  (raiseLock (global s') = Some c <-> is_Some (holds v)) ->
  (forall d, d <> c -> raiseLock (global s') = Some d <-> raiseLock (global s) = Some d) ->
  match raiseLock (global s') with None => quiet s' | Some r => phase s' r end -> inv s'.
Proof.
  intros [I1 I2 Ie I3 I4 _] Hh Hr Hhd Hp Hask L1 L2 R1 R2 Hph. split; try done.
  - intros d. rewrite Hr, Hhd, fn_upd. case_decide; [subst d|rewrite L2 by done; apply I1].
    rewrite L1, Hh. unfold locked_h, ending. naive_solver congruence.
  - intros d. rewrite Hr, fn_upd. case_decide; [by subst d|]. rewrite R2 by done. apply I2.
  - intros d. rewrite Hr, Hhd, fn_upd. case_decide; [by subst d|]. apply Ie.
  - intros d q. rewrite Hr, fn_upd. case_decide; [subst d|apply I3]. intros Hq%Hask. by apply I3.
  - intros d Hd. rewrite Hhd, Hp by done. by apply I4.
Qed.

Lemma phase_at s s' c v : raise s' = <[c := v]> (raise s) -> raise s' c = v.
Proof. intros ->. apply fn_lookup_insert. Qed.

Lemma holder s c q : inv s -> holds (raise s c) = Some q -> raiseLock (global s) = Some c.
Proof. intros Hi Hc. apply (inv_raise _ Hi). by rewrite Hc. Qed.

Ltac raise_move Hi := eapply (inv_move _ _ _ _ Hi); [eassumption|reflexivity|reflexivity|intros; reflexivity|..].

Lemma inv_raise_lock s c q : inv s -> raise s c = RRaise q -> handle s c = HIdle -> raiseLock (global s) = None ->
  inv (with_global (set_raiseLock (Some c) (global s)) (with_raise c (RSet q) s)).
Proof.
  intros Hi Hr Hh Hl. raise_move Hi; cbn [with_global with_raise global set_raiseLock lock raiseLock].
  - by rewrite Hr.
  - split; [|unfold locked_r; naive_solver congruence]. intros [Hx|Hx]%(inv_lock _ Hi); rewrite ?Hr, ?Hh in Hx;
      unfold locked_r, locked_h, ending in Hx; naive_solver congruence.
  - done.
  - by cbn.
  - intros d Hd. split; congruence.
  - unfold phase. cbn [with_global with_raise raise]. rewrite fn_lookup_insert. pose proof (inv_phase _ Hi) as Hp. by rewrite Hl in Hp.
Qed.

Lemma inv_set_lock s c q : inv s -> raise s c = RSet q -> handle s c = HIdle -> lock (global s) = None ->
  inv (with_global (set_lock (Some c) (global s)) (with_raise c (RFill q) s)).
Proof.
  intros Hi Hr Hh Hl. pose proof (holder s c q Hi ltac:(by rewrite Hr)) as Hrl.
  raise_move Hi; cbn [with_global with_raise global set_lock lock raiseLock].
  - by rewrite Hr.
  - split; [|done]. intros _. left. by exists q.
  - intros d Hd. split; congruence.
  - by rewrite Hrl.
  - done.
  - rewrite Hrl. pose proof (inv_phase _ Hi) as Hp. rewrite Hrl in Hp. unfold phase in *. cbn [with_global with_raise raise].
    rewrite fn_lookup_insert. by rewrite Hr in Hp.
Qed.

Lemma inv_fill s c q : inv s -> raise s c = RFill q -> handle s c = HIdle ->
  inv (with_counted ∅ (with_acted (fun _ => None) (with_global (SetData_body q (n - 1) (global s)) (with_raise c (RUnlock q) s)))).
Proof.
  intros Hi Hr Hh. pose proof (holder s c q Hi ltac:(by rewrite Hr)) as Hrl.
  assert (Hlk : lock (global s) = Some c) by (apply (inv_lock _ Hi); left; left; eauto).
  raise_move Hi; cbn [with_counted with_acted with_global with_raise global SetData_body lock raiseLock].
  - by rewrite Hr.
  - split; [|done]. intros _. right. by exists q.
  - done.
  - by rewrite Hrl.
  - done.
  - rewrite Hrl. pose proof (inv_phase _ Hi) as Hp. rewrite Hrl in Hp. unfold phase in *.
    cbn [with_counted with_acted with_global with_raise raise]. rewrite fn_lookup_insert. rewrite Hr in Hp. split; try done.
    + split; cbn [with_counted with_acted with_global global SetData_body type invPagesData maxCPUCount]; try done.
      intros Hq. by rewrite decide_True.
    + intros d. cbn [with_counted with_acted with_global with_raise pending handle]. destruct (Hp d) as [Hpd [Hc|He]]; [done|]. split; [done|].
      assert (lock (global s) = Some d) as Hd by (apply (inv_lock _ Hi); right; unfold locked_h; auto).
      assert (d = c) as -> by congruence. rewrite Hh. by left.
Qed.

Lemma inv_set_unlock s c q : inv s -> raise s c = RUnlock q -> handle s c = HIdle ->
  inv (with_global (set_lock None (global s)) (with_raise c (RSend q) s)).
Proof.
  intros Hi Hr Hh. pose proof (holder s c q Hi ltac:(by rewrite Hr)) as Hrl.
  assert (Hlk : lock (global s) = Some c) by (apply (inv_lock _ Hi); left; right; eauto).
  raise_move Hi; cbn [with_global with_raise global set_lock lock raiseLock].
  - by rewrite Hr.
  - split; [done|]. unfold locked_r. naive_solver congruence.
  - intros d Hd. split; congruence.
  - by rewrite Hrl.
  - done.
  - rewrite Hrl. pose proof (inv_phase _ Hi) as Hp. rewrite Hrl in Hp. unfold phase in *. cbn [with_global with_raise raise].
    rewrite fn_lookup_insert. rewrite Hr in Hp. destruct Hp as [[L1 L2 L3] P2 P3 P4]. split; [by split|done..].
Qed.

Lemma inv_send s c q : inv s -> raise s c = RSend q -> handle s c = HIdle ->
  inv (with_pending (RaiseIPI_all n c (pending s)) (with_raise c (RWait q) s)).
Proof.
  intros Hi Hr Hh. pose proof (holder s c q Hi ltac:(by rewrite Hr)) as Hrl.
  eapply (inv_move _ _ c (RWait q) Hi); [done|reflexivity|reflexivity|..];
    cbn [with_pending with_raise global lock raiseLock pending]; unfold RaiseIPI_all.
  - intros d Hd. by rewrite decide_False by lia.
  - by rewrite Hr.
  - split; [|unfold locked_r; naive_solver congruence]. intros [Hx|Hx]%(inv_lock _ Hi); rewrite ?Hr, ?Hh in Hx;
      unfold locked_r, locked_h, ending in Hx; naive_solver congruence.
  - done.
  - by rewrite Hrl.
  - done.
  - rewrite Hrl. pose proof (inv_phase _ Hi) as Hp. rewrite Hrl in Hp. unfold phase in *. cbn [with_pending with_raise raise].
    rewrite fn_lookup_insert. rewrite Hr in Hp. destruct Hp as [[L1 L2 L3] P2 P3 P4].
    split; cbn [with_pending with_raise global handle pending acted counted].
    + intros _. by split.
    + by rewrite P3, P4, size_empty.
    + rewrite P4. set_solver.
    + intros d Hd Hne _. left. cbn [with_pending with_raise pending handle]. rewrite decide_True by done. split; [done|]. apply P2.
    + intros d h Hd. destruct (P2 d) as [_ Hc]. unfold calm in Hc. naive_solver congruence.
    + rewrite decide_False by tauto. split; [apply P2|done].
Qed.

Lemma inv_wait s c q : inv s -> raise s c = RWait q -> handle s c = HIdle -> (n - 1 <= cpuCount (global s))%nat ->
  inv (with_raise c (RDone q) s).
Proof.
  intros Hi Hr Hh Hc. pose proof (holder s c q Hi ltac:(by rewrite Hr)) as Hrl.
  raise_move Hi; cbn [with_raise global].
  - by rewrite Hr.
  - split; [|unfold locked_r; naive_solver congruence]. intros [Hx|Hx]%(inv_lock _ Hi); rewrite ?Hr, ?Hh in Hx;
      unfold locked_r, locked_h, ending in Hx; naive_solver congruence.
  - done.
  - by rewrite Hrl.
  - done.
  - rewrite Hrl. pose proof (inv_phase _ Hi) as Hp. rewrite Hrl in Hp. unfold phase in *. cbn [with_raise raise global].
    rewrite fn_lookup_insert. rewrite Hr in Hp. split; [by apply flight_raise|done].
Qed.

(** When the wait is over every other processor has counted itself. *)
Lemma all_counted s c q : inv s -> raise s c = RDone q -> flight c q s /\ forall d, (d < n)%nat -> d <> c -> d ∈ counted s.
Proof.
  intros Hi Hr. pose proof (inv_phase _ Hi) as Hp. rewrite (holder s c q Hi ltac:(by rewrite Hr)) in Hp. unfold phase in Hp. rewrite Hr in Hp.
  destruct Hp as [Hf Hc]. split; [done|]. intros d Hd Hne. destruct (decide (d ∈ counted s)) as [|Hnc]; [done|].
  destruct (inv_ask _ Hi c q) as [Hcn _]; [by rewrite Hr|]. pose proof (due_room c q s d Hf Hd Hcn Hne Hnc). lia.
Qed.

Lemma inv_raise_unlock s c q : inv s -> raise s c = RDone q -> handle s c = HIdle ->
  inv (with_global (set_raiseLock None (global s)) (with_raise c RIdle s)).
Proof.
  intros Hi Hr Hh. pose proof (holder s c q Hi ltac:(by rewrite Hr)) as Hrl. destruct (all_counted s c q Hi Hr) as [Hf Hall].
  raise_move Hi; cbn [with_global with_raise global set_raiseLock lock raiseLock].
  - done.
  - split; [|unfold locked_r; naive_solver congruence]. intros [Hx|Hx]%(inv_lock _ Hi); rewrite ?Hr, ?Hh in Hx;
      unfold locked_r, locked_h, ending in Hx; naive_solver congruence.
  - done.
  - split; [done|]. cbn. by intros [].
  - intros d Hd. split; congruence.
  - intros d. cbn [with_global with_raise pending handle]. destruct (decide (d = c)) as [->|Hne].
    { destruct (fl_self _ _ _ Hf) as [-> ->]. split; [done|]. left. by left. }
    destruct (decide (d < n)%nat) as [Hd|Hd].
    + by destruct (fl_counted _ _ _ Hf d (Hall d Hd Hne)) as (_ & _ & _ & ? & ?).
    + destruct (inv_out _ Hi d ltac:(lia)) as [-> ->]. split; [done|]. left. by left.
Qed.

Lemma inv_begin s s' : inv s -> begin n s s' -> inv s'.
Proof.
  intros Hi Hb. destruct Hb as [s0 c q Hc Hr Hh Hq]. destruct Hi as [I1 I2 Ie I3 I4 I5]. split; cbn [with_raise global raise handle pending]; try done.
  - intros d. rewrite I1, fn_upd. case_decide; [subst d|done]. rewrite Hr. unfold locked_r. naive_solver congruence.
  - intros d. rewrite I2, fn_upd. case_decide; [subst d|done]. by rewrite Hr.
  - intros d. rewrite fn_upd. case_decide; [|apply Ie]. unfold locked_r. naive_solver congruence.
  - intros d q'. rewrite fn_upd. case_decide; [subst d|apply I3]. by intros [= <-].
  - destruct (raiseLock (global s0)) as [r|] eqn:Hrl; [|done]. unfold phase in *. cbn [with_raise raise global]. rewrite fn_upd.
    case_decide; [subst r; by rewrite Hr in I5|]. destruct (raise s0 r); try done.
    + destruct I5 as [[L1 L2 L3] P2 P3 P4]. split; [by split|done..].
    + destruct I5 as [[L1 L2 L3] P2 P3 P4]. split; [by split|done..].
    + by apply flight_raise.
    + destruct I5. split; [by apply flight_raise|done].
Qed.

Lemma inv_step s s' : inv s -> step n s s' -> inv s'.
Proof.
  intros Hi Hs. destruct Hs as [s c q|s c q|s c q|s c q|s c q|s c q|s c q|s c|s c|s c Hh|s c Hh Ht|s c h Hh Ht|s c h|s c h|s c h].
  - by apply inv_raise_lock.
  - by apply inv_set_lock.
  - by apply inv_fill.
  - by apply inv_set_unlock.
  - by apply inv_send.
  - by apply inv_wait.
  - by eapply inv_raise_unlock.
  - by apply inv_enter.
  - by apply inv_handle_lock.
  - destruct (in_flight s c Hi ltac:(unfold busy; auto)) as (r & q & Hr & Hrr & Hf & Hcn & Hrn & Hne & Hnc & Hl).
    destruct (inv_ask _ Hi r q ltac:(by rewrite Hrr)) as [_ Hq].
    rewrite decide_False by (rewrite (live_type _ _ Hl); naive_solver congruence).
    apply (inv_act s _ c Hi); try done; [unfold busy; auto|unfold locked_h; auto| | |].
    + intros q' _. unfold due. cbn [with_handle pending handle acted]. rewrite fn_lookup_insert. rewrite Hh. unfold calm. naive_solver congruence.
    + cbn [with_handle handle]. rewrite fn_lookup_insert. unfold locked_h. auto.
    + intros d Hd. cbn [with_handle handle pending acted]. by rewrite fn_lookup_insert_ne.
  - apply (inv_act s _ c Hi); try done; [unfold busy; auto|unfold locked_h; auto| | |]; cbn [with_acted with_handle handle pending acted].
    + intros q' [L1 L2 _]. unfold due. cbn [with_acted with_handle pending handle acted]. rewrite !fn_lookup_insert. rewrite Hh. unfold calm, action_of.
      intros Hd. right. split; [naive_solver congruence|]. right. right. right. exists false. split; [done|].
      rewrite decide_True by congruence. rewrite L2 by congruence. done.
    + rewrite fn_lookup_insert. unfold locked_h. eauto 10.
    + intros d Hd. by rewrite !fn_lookup_insert_ne.
  - apply (inv_act s _ c Hi); try done; [unfold busy; auto|unfold locked_h; auto| | |]; cbn [with_acted with_handle handle pending acted].
    + intros q' [L1 L2 _]. unfold due. cbn [with_acted with_handle pending handle acted]. rewrite !fn_lookup_insert. rewrite Hh. unfold calm, action_of.
      intros Hd. right. split; [naive_solver congruence|]. right. right. right. exists h. split; [done|].
      by rewrite decide_False by congruence.
    + rewrite fn_lookup_insert. unfold locked_h. eauto 10.
    + intros d Hd. by rewrite !fn_lookup_insert_ne.
  - by apply inv_count.
  - by apply inv_reset.
  - by apply inv_handle_unlock.
Qed.

Lemma inv_initial : inv initial.
Proof.
  split; cbn [initial global raise handle pending g_NMIData lock raiseLock holds asks].
  - intros c. split; [done|]. unfold locked_r, locked_h, ending. naive_solver congruence.
  - intros c. split; [done|]. intros [q Hq]. done.
  - done.
  - done.
  - done.
  - intros c. unfold calm. auto.
Qed.

(** Without a request under way a panic releases a lock that is free. *)
Lemma force_free s : raiseLock (global s) = None -> ForceAllowRaise s = s.
Proof. intros Hr. destruct s as [[] ? ? ? ? ?]. cbn in *. by subst. Qed.

Lemma inv_reachable s : reachable n s -> inv s.
Proof.
  induction 1 as [|s s' _ IH Hst|s s' _ IH Hb|s _ IH Hr]; [apply inv_initial|by eapply inv_step|by eapply inv_begin|].
  by rewrite force_free.
Qed.

(** C28: In every state that the steps of any number of processors can lead to, however they are interleaved and whoever has asked before,
    with panics that force the lock of the requests open only while no request is under way, when the wait of a processor is over every
    other processor has done what this request asks for: it has invalidated the pages of this request, or is about to halt.
    (With a panic while a request is under way this fails: [ForceAllowRaise_breaks].) *)
Theorem NMI_all_acted (s : state) (r : nat) (q : request) : reachable n s -> raise s r = RDone q ->
  forall c, (c < n)%nat -> c <> r -> acted s c = Some (action_of q).
Proof.
  intros Hs Hr c Hc Hne. apply inv_reachable in Hs. destruct (all_counted s r q Hs Hr) as [Hf Hall].
  by destruct (fl_counted _ _ _ Hf c (Hall c Hc Hne)) as (_ & _ & ? & _).
Qed.

(** ** Progress *)

Section Progress.
Context (s : state) (Hi : inv s) (Hnh : forall c, handle s c <> HHalted).

Lemma locked_progress c : locked_h (handle s c) -> exists s', step n s s'.
Proof.
  intros [Hc|[Hc|[[h Hc]|[[h Hc]|[h Hc]]]]].
  - eexists. by apply (step_check n s c).
  - destruct (in_flight s c Hi ltac:(unfold busy; auto)) as (r & q & Hr & Hrr & _ & _ & _ & _ & _ & Hl).
    destruct (inv_ask _ Hi r q ltac:(by rewrite Hrr)) as [_ Hq]. pose proof (live_type _ _ Hl) as Ht. destruct Hq as [Hq|Hq].
    + eexists. apply (step_halt n s c true); congruence.
    + eexists. apply (step_invalidate n s c); congruence.
  - eexists. by apply (step_count n s c h).
  - eexists. by apply (step_reset n s c h).
  - eexists. by apply (step_handle_unlock n s c h).
Qed.

(** Whoever has the lock gets on. *)
Lemma lock_progress c : lock (global s) = Some c -> exists s', step n s s'.
Proof.
  intros [Hl|Hl]%(inv_lock _ Hi); [|by eapply locked_progress]. pose proof (inv_excl _ Hi c Hl) as Hh.
  destruct Hl as [[q Hq]|[q Hq]]; eexists; [by apply (step_fill n s c q)|by apply (step_set_unlock n s c q)].
Qed.

Lemma handler_progress c : handle s c <> HIdle -> exists s', step n s s'.
Proof.
  intros Hc. destruct (handle s c) as [| | | |h|h|h|] eqn:Hh; try done; try (eapply (locked_progress c); rewrite Hh; unfold locked_h, ending; eauto 10; fail).
  - destruct (lock (global s)) as [d|] eqn:Hl; [by eapply lock_progress|]. eexists. by apply (step_handle_lock n s c).
  - by destruct (Hnh c).
Qed.

Lemma due_progress r q c : flight r q s -> (c < n)%nat -> c <> r -> c ∉ counted s -> exists s', step n s s'.
Proof.
  intros Hf Hc Hne Hnc. destruct (fl_due _ _ _ Hf c Hc Hne Hnc) as [[Hp Hcalm]|[_ Hh]].
  - destruct Hcalm as [Hh|Hh]; [|by destruct (Hnh c)]. eexists. by apply (step_enter n s c).
  - apply (handler_progress c). naive_solver congruence.
Qed.

Lemma someone_due r q : flight r q s -> (cpuCount (global s) < n - 1)%nat -> exists c, (c < n)%nat /\ c <> r /\ c ∉ counted s.
Proof.
  intros Hf Hlt. rewrite (fl_size _ _ _ Hf) in Hlt.
  assert (~ (set_seq 0 n ∖ {[r]} ⊆ counted s)) as Hns.
  { intros Hsub%subseteq_size. pose proof (size_difference_alt (C := gset nat) (set_seq 0 n) {[r]}) as Hd.
    assert (size (set_seq 0 n ∩ {[r]} : gset nat) <= 1)%nat.
    { rewrite <- (size_singleton (C := gset nat) r). apply subseteq_size. set_solver. }
    rewrite size_set_seq in Hd. lia. }
  destruct (set_choose_or_empty (set_seq 0 n ∖ {[r]} ∖ counted s)) as [[c Hc]|He].
  - exists c. rewrite !elem_of_difference, elem_of_set_seq, elem_of_singleton in Hc. split_and!; [lia|tauto..].
  - destruct Hns. intros d Hd. destruct (decide (d ∈ counted s)); [done|]. set_solver.
Qed.

Lemma holder_progress r q : holds (raise s r) = Some q -> exists s', step n s s'.
Proof.
  intros Hr. destruct (decide (handle s r = HIdle)) as [Hh|Hh]; [|by eapply handler_progress].
  pose proof (inv_phase _ Hi) as Hp. rewrite (holder s r q Hi Hr) in Hp. unfold phase in Hp.
  destruct (raise s r) as [|q'|q'|q'|q'|q'|q'|q'] eqn:Hrr; try done.
  - destruct (lock (global s)) as [d|] eqn:Hl; [by eapply lock_progress|]. eexists. by apply (step_set_lock n s r q').
  - eexists. by apply (step_fill n s r q').
  - eexists. by apply (step_set_unlock n s r q').
  - eexists. by apply (step_send n s r q').
  - destruct (decide (n - 1 <= cpuCount (global s))%nat); [eexists; by apply (step_wait n s r q')|].
    destruct (someone_due r q' Hp ltac:(lia)) as (c & Hc & Hne & Hnc). by eapply due_progress.
  - eexists. by apply (step_raise_unlock n s r q').
Qed.
End Progress.


End Invariant.

(** ** Two processors *)

Definition example_request : request := mkRequest INVPAGES (mkInv 8192 3).

(** The next step from a state that can be reached. *)
Tactic Notation "next" hyp(H) uconstr(t) := eapply reach_step in H; cycle 1; [eapply t; reflexivity|].

Lemma NMI_all_acted_witness : exists s, reachable 2 s /\ raise s 0%nat = RDone example_request /\
  acted s 1%nat = Some (Invalidated (mkInv 8192 3)).
Proof.
  pose proof (reach_begin 2 _ _ (reach_initial 2)
    (begin_raise 2 initial 0%nat example_request ltac:(lia) eq_refl eq_refl (or_intror eq_refl))) as H.
  next H (step_raise_lock 2 _ 0%nat example_request).
  next H (step_set_lock 2 _ 0%nat example_request).
  next H (step_fill 2 _ 0%nat example_request).
  next H (step_set_unlock 2 _ 0%nat example_request).
  next H (step_send 2 _ 0%nat example_request).
  next H (step_enter 2 _ 1%nat).
  next H (step_handle_lock 2 _ 1%nat).
  next H (step_check 2 _ 1%nat).
  next H (step_invalidate 2 _ 1%nat).
  next H (step_count 2 _ 1%nat false).
  next H (step_wait 2 _ 0%nat example_request).
  eexists. split; [exact H|]. split; [reflexivity|].
  apply (NMI_all_acted 2 _ 0%nat example_request H); [reflexivity|lia|lia].
Defined.


(** A panic while a request is under way: processor 0 waits for processor 1 to invalidate pages; processor 1, which has not
    seen the interrupt yet, panics, forces the lock open and asks for a halt. It then takes the interrupt of processor 0 for its own
    request, halts and counts itself, and the wait of processor 0 is over with nothing invalidated. *)
Tactic Notation "nextf" hyp(H) uconstr(t) := eapply forced_step in H; cycle 1; [eapply t; reflexivity|].
Definition halt_request : request := mkRequest HALT (mkInv 0 0).

Lemma ForceAllowRaise_breaks : exists s, reachable_forced 2 s /\ raise s 0%nat = RDone example_request /\ acted s 1%nat = Some Halting /\
  action_of example_request <> Halting.
Proof.
  pose proof (forced_begin 2 _ _ (forced_initial 2)
    (begin_raise 2 initial 0%nat example_request ltac:(lia) eq_refl eq_refl (or_intror eq_refl))) as H.
  nextf H (step_raise_lock 2 _ 0%nat example_request).
  nextf H (step_set_lock 2 _ 0%nat example_request).
  nextf H (step_fill 2 _ 0%nat example_request).
  nextf H (step_set_unlock 2 _ 0%nat example_request).
  nextf H (step_send 2 _ 0%nat example_request).
  apply forced_force in H.
  eapply forced_begin in H; cycle 1; [eapply (begin_raise 2 _ 1%nat halt_request); [lia|reflexivity|reflexivity|by left]|].
  nextf H (step_raise_lock 2 _ 1%nat halt_request).
  nextf H (step_set_lock 2 _ 1%nat halt_request).
  nextf H (step_fill 2 _ 1%nat halt_request).
  nextf H (step_set_unlock 2 _ 1%nat halt_request).
  nextf H (step_enter 2 _ 1%nat).
  nextf H (step_handle_lock 2 _ 1%nat).
  nextf H (step_check 2 _ 1%nat).
  nextf H (step_halt 2 _ 1%nat true).
  nextf H (step_count 2 _ 1%nat true).
  nextf H (step_wait 2 _ 0%nat example_request).
  eexists. split; [exact H|]. split_and!; [reflexivity|reflexivity|done].
Qed.

(** ** Interrupts for one processor *)

Record LocalNMIData : Set := mkLocal {
  l_type : x86_64_NMIType;
  l_invPagesData : x86_64_NMI_InvPagesData;
  l_yieldData : bool;
  l_handled : Z
}.

(** [LocalNMI::Init] *)
Definition LocalNMI_Init : LocalNMIData := mkLocal NONE (mkInv 0 0) false 0.

(** [LocalNMI::Raise] under the locks; [None] is the panic. *)
Definition LocalNMI_set (q : request) (d : LocalNMIData) : option LocalNMIData :=
  match rq_type q with
  | INVPAGES => Some (mkLocal INVPAGES (rq_data q) (l_yieldData d) 0)
  | YIELD => None
  | t => Some (mkLocal t (l_invPagesData d) (l_yieldData d) 0)
  end.

Inductive local_action : Set := LHalt | LInvalidate (d : x86_64_NMI_InvPagesData) | LYield (force : bool).

(** The second half of [x86_64_HandleNMI], when there is no request to all: what is done, and whether the interrupt was one of
    the kernel's. *)
Definition LocalNMI_handle (d : LocalNMIData) : bool * option local_action * LocalNMIData :=
  let handled := mkLocal (l_type d) (l_invPagesData d) (l_yieldData d) 1 in
  match l_type d with
  | NONE => (false, None, d)
  | HALT => (true, Some LHalt, handled)
  | INVPAGES => (true, Some (LInvalidate (l_invPagesData d)), handled)
  | YIELD => (true, Some (LYield (l_yieldData d)), handled)
  end.

(** A request to one processor is done there. *)
Lemma LocalNMI_done q d d' : rq_type q = INVPAGES -> LocalNMI_set q d = Some d' ->
  l_handled d' = 0 /\ LocalNMI_handle d' = (true, Some (LInvalidate (rq_data q)), mkLocal INVPAGES (rq_data q) (l_yieldData d) 1).
Proof. intros Ht. unfold LocalNMI_set. rewrite Ht. by intros [= <-]. Qed.

(** The request stays: a later interrupt that the kernel has not sent, which should be reported, is taken for the same request again. *)
Theorem LocalNMI_repeats d : l_type d <> NONE ->
  let '(_, a, d') := LocalNMI_handle d in let '(mine, a', _) := LocalNMI_handle d' in mine = true /\ a' = a.
Proof. intros Ht. destruct d as [[] ? ? ?]; done. Qed.

(** A request to another processor to yield is always a panic. *)
Theorem LocalNMI_no_yield data d : LocalNMI_set (mkRequest YIELD data) d = None.
Proof. done. Qed.

End NMI.
