(* ===== verification/Symbols.v ===== *)
(** * Symbols.v: the symbol table of the kernel (src/kernel/src/KernelSymbols.cpp, src/tools/src/buildsymboltable.cpp)

    The build pipes the list of symbols that [nm] prints through a tool, which leaves the letters of the types out; the kernel
    parses what the tool prints and finds the symbol an address belongs to. Characters are bytes.

    Shown: for every list of symbols the tool accepts what [nm] prints, and the table the kernel makes of its output has
    exactly the symbols of the kernel's region, the first of several at one address; a look-up gives the symbol at the
    greatest address that is not above. *)

From S2P Require Import Prelude AVLTree.

#[local] Open Scope Z_scope.
#[local] Open Scope kernel_scope.

Module Symbols.

(** ** buildsymboltable.cpp *)

Inductive Stage : Set := Address | Space1 | Ignore | Space2 | Name | Done.

Definition between (a c b : Z) : bool := (a <=? c) && (c <=? b).
Definition is_hex (c : Z) : bool := between 48 c 57 || between 97 c 102 || between 65 c 70.
Definition is_letter (c : Z) : bool := between 97 c 122 || between 65 c 90.

(** One character: the next stage and what is printed, or an error. *)
Definition tool_char (stage : Stage) (c : Z) : option (Stage * list Z) :=
  match stage with
  | Address => if c =? 32 then Some (Space1, []) else if is_hex c then Some (Address, [c]) else None
  | Space1 => if is_letter c then Some (Ignore, []) else None
  | Ignore => if c =? 32 then Some (Space2, []) else None
  | Space2 => Some (Name, [32; c])
  | Name => Some (if c =? 10 then Done else Name, [c])
  | Done => if is_hex c then Some (Address, [c]) else None
  end.

(** The output and the exit status; the character 255 looks like the end of the file. *)
Fixpoint tool_loop (stage : Stage) (input : list Z) : list Z * Z :=
  match input with
  | [] => ([], 0)
  | c :: input' =>
      if i8 c =? -1 then ([], 0) else
      match tool_char stage c with
      | None => ([], 1)
      | Some (stage', out) => let (o, status) := tool_loop stage' input' in (out ++ o, status)
      end
  end.
Definition tool_main (input : list Z) : list Z * Z := tool_loop Address input.

(** ** KernelSymbols.cpp *)

Record SymbolTable : Type := mkTable {
  m_symbols : list (Z * list Z);
  m_regionStart : Z;
  m_regionEnd : Z
}.

(** The constructor. *)
Definition SymbolTable_new : SymbolTable := mkTable [] 0 UINT64_MAX.

Definition AddSymbol (address : Z) (name : list Z) (t : SymbolTable) : SymbolTable :=
  mkTable (snd (AVLTree.Insert address name (m_symbols t))) (m_regionStart t) (m_regionEnd t).
Definition RemoveSymbol (address : Z) (t : SymbolTable) : SymbolTable :=
  mkTable (AVLTree.Remove address (m_symbols t)) (m_regionStart t) (m_regionEnd t).
Definition SetMemRegion (regionStart regionEnd : Z) (t : SymbolTable) : SymbolTable := mkTable (m_symbols t) regionStart regionEnd.

(** The name and the address of the symbol. *)
Definition FindSymbol (address : Z) (t : SymbolTable) : option (list Z * Z) :=
  match AVLTree.FindNodeOrLower address (m_symbols t) with
  | None => None
  | Some (key, value) => Some (value, key)
  end.

Inductive fill_stage : Set := FAddress | FName.

(** The variables of the loop: [current_name] is a position in the data. *)
Record fill_state : Type := mkFill {
  current_address : Z;
  current_name : nat;
  current_name_length : nat;
  stage : fill_stage;
  table : SymbolTable
}.

(** A digit is taken in. *)
Definition digit (address c base : Z) : Z := add64 (mul64 address 16) (c - base).

(** One round of the loop, for the character at [i]. *)
Definition fill_char (data : list Z) (i : nat) (c : Z) (s : fill_state) : fill_state :=
  match stage s with
  | FAddress =>
      if c =? 32 then mkFill (current_address s) (S i) 0 FName (table s)
      else
        let a :=
          if between 48 c 57 then digit (current_address s) c 48
          else if between 97 c 102 then digit (current_address s) c 87
          else if between 65 c 70 then digit (current_address s) c 55
          else current_address s in
        mkFill a (current_name s) (current_name_length s) FAddress (table s)
  | FName =>
      if c =? 10 then
        let addr := current_address s in
        let t := table s in
        mkFill 0 0 0 FAddress
          (if (m_regionStart t <=? addr) && (addr <=? m_regionEnd t)
           then AddSymbol addr (take (current_name_length s) (drop (current_name s) data)) t else t)
      else mkFill (current_address s) (current_name s) (S (current_name_length s)) FName (table s)
  end.
Fixpoint fill_loop (data : list Z) (i : nat) (rest : list Z) (s : fill_state) : fill_state :=
  match rest with [] => s | c :: rest' => fill_loop data (S i) rest' (fill_char data i c s) end.

Definition FillFromRawStringData (data : list Z) (t : SymbolTable) : SymbolTable :=
  match data with
  | [] => t
  | _ => table (fill_loop data 0 data (mkFill 0 0 0 FAddress t))
  end.

(** ** What nm prints *)

Record symbol : Type := mkSymbol { s_address : Z; s_letter : Z; s_name : list Z }.

Definition hexdigit (d : Z) : Z := if d <? 10 then 48 + d else 87 + d.
(** The [n] last digits. *)
Fixpoint hex_digits (n : nat) (x : Z) : list Z :=
  match n with O => [] | S n' => hex_digits n' (x / 16) ++ [hexdigit (x mod 16)] end.

Definition nm_line (s : symbol) : list Z := hex_digits 16 (s_address s) ++ [32; s_letter s; 32] ++ s_name s ++ [10].
Definition nm_text (l : list symbol) : list Z := concat (nm_line <$> l).
(** Without the letter. *)
Definition raw_line (s : symbol) : list Z := hex_digits 16 (s_address s) ++ [32] ++ s_name s ++ [10].

Record symbol_ok (s : symbol) : Prop := {
  ok_address : u64 (s_address s);
  ok_letter : is_letter (s_letter s) = true;
  ok_name : s_name s <> [];
  ok_chars c : c ∈ s_name s -> 0 <= c < 255 /\ c <> 10
}.

(** ** The tool *)

Lemma hexdigit_hex d : 0 <= d < 16 -> is_hex (hexdigit d) = true /\ 48 <= hexdigit d <= 102.
Proof.
  intros Hd. unfold hexdigit, is_hex, between. destruct (Z.ltb_spec d 10).
  - rewrite (proj2 (Z.leb_le 48 _)), (proj2 (Z.leb_le _ 57)) by lia. split; [done|lia].
  - rewrite (proj2 (Z.leb_le 97 _)), (proj2 (Z.leb_le _ 102)) by lia. split; [by rewrite orb_true_r|lia].
Qed.

Lemma hex_digits_hex n : forall x, Forall (fun c => is_hex c = true /\ 48 <= c <= 102) (hex_digits n x).
Proof.
  induction n as [|n IH]; intros x; cbn [hex_digits]; [constructor|]. apply Forall_app. split; [apply IH|].
  apply Forall_singleton, hexdigit_hex. apply Z.mod_pos_bound. lia.
Qed.

Lemma i8_small c : 0 <= c < 255 -> (i8 c =? -1) = false.
Proof. intros Hc. apply Z.eqb_neq. unfold i8. zlia. Qed.

Lemma tool_cons st c rest : 0 <= c < 255 -> tool_loop st (c :: rest) =
  match tool_char st c with
  | None => ([], 1)
  | Some (st', out) => let (o, status) := tool_loop st' rest in (out ++ o, status)
  end.
Proof. intros Hc. cbn [tool_loop]. by rewrite i8_small. Qed.

(** Digits are copied. *)
Lemma tool_digits ds rest : Forall (fun c => is_hex c = true /\ 48 <= c <= 102) ds ->
  tool_loop Address (ds ++ rest) = (ds ++ fst (tool_loop Address rest), snd (tool_loop Address rest)).
Proof.
  induction 1 as [|c ds [Hh Hc] _ IH]; [cbn [app]; apply surjective_pairing|]. cbn [app tool_loop].
  rewrite i8_small by lia. unfold tool_char. rewrite (proj2 (Z.eqb_neq c 32)), Hh by lia. by rewrite IH.
Qed.

Lemma tool_name cs rest : (forall c, c ∈ cs -> 0 <= c < 255 /\ c <> 10) ->
  tool_loop Name (cs ++ 10 :: rest) = (cs ++ 10 :: fst (tool_loop Done rest), snd (tool_loop Done rest)).
Proof.
  induction cs as [|c cs IH]; intros Hc; cbn [app tool_loop tool_char].
  - rewrite i8_small by lia. cbn [Z.eqb Pos.eqb]. by destruct (tool_loop Done rest).
  - destruct (Hc c) as [Hr Hn]; [by left|]. rewrite i8_small, (proj2 (Z.eqb_neq c 10)) by lia.
    rewrite IH by (intros d Hd; apply Hc; by right). done.
Qed.

(** The first digit after a line. *)
Lemma tool_done ds rest : ds <> [] -> Forall (fun c => is_hex c = true /\ 48 <= c <= 102) ds ->
  tool_loop Done (ds ++ rest) = tool_loop Address (ds ++ rest).
Proof.
  intros Hne Hd. destruct Hd as [|c ds [Hh Hc] Hds]; [done|]. cbn [app tool_loop tool_char]. rewrite i8_small by lia.
  by rewrite (proj2 (Z.eqb_neq c 32)), Hh by lia.
Qed.

Lemma tool_line s rest : symbol_ok s ->
  tool_loop Address (nm_line s ++ rest) = (raw_line s ++ fst (tool_loop Done rest), snd (tool_loop Done rest)).
Proof.
  intros [_ Hl Hn Hc]. unfold nm_line, raw_line. rewrite <- !app_assoc. rewrite tool_digits by apply hex_digits_hex.
  assert (65 <= s_letter s <= 122) as Hlr by (unfold is_letter, between in Hl; lia).
  destruct (s_name s) as [|c cs]; [done|]. destruct (Hc c) as [Hcr Hcn]; [by left|].
  cbn [app]. rewrite !tool_cons by lia. cbn [tool_char]. rewrite Z.eqb_refl, tool_cons by lia. cbn [tool_char]. rewrite Hl.
  rewrite tool_cons by lia. cbn [tool_char]. rewrite Z.eqb_refl, tool_cons by lia. cbn [tool_char app]. rewrite <- ?app_assoc. cbn [app].
  rewrite tool_name by (intros d Hd; apply Hc; by right). done.
Qed.

Lemma nm_line_digits s : exists rest, nm_line s = hex_digits 16 (s_address s) ++ rest.
Proof. by eexists. Qed.

Lemma tool_text l : Forall symbol_ok l -> tool_loop Done (nm_text l) = (concat (raw_line <$> l), 0).
Proof.
  induction 1 as [|s l Hs _ IH]; [done|]. unfold nm_text in *. cbn [fmap list_fmap concat].
  assert (Hd : tool_loop Done (nm_line s ++ concat (nm_line <$> l)) = tool_loop Address (nm_line s ++ concat (nm_line <$> l))).
  { destruct (nm_line_digits s) as [r ->]. rewrite <- app_assoc. apply tool_done; [|apply hex_digits_hex].
    intros [_ [=]]%app_eq_nil. }
  cbn [fmap list_fmap concat] in *. rewrite Hd, tool_line by done. change (list_fmap _ _ nm_line l) with (nm_line <$> l).
  by rewrite IH.
Qed.

Lemma tool_main_spec l : Forall symbol_ok l -> tool_main (nm_text l) = (concat (raw_line <$> l), 0).
Proof.
  intros Hl. destruct Hl as [|s l Hs Hl]; [done|]. unfold tool_main, nm_text. cbn [fmap list_fmap concat].
  rewrite tool_line by done. change (list_fmap _ _ nm_line l) with (nm_line <$> l). fold (nm_text l). by rewrite tool_text.
Qed.

(** ** The kernel's parser *)

Lemma fill_app data i l r : forall s, fill_loop data i (l ++ r) s = fill_loop data (i + length l) r (fill_loop data i l s).
Proof.
  revert i. induction l as [|c l IH]; intros i s; cbn [app fill_loop length]; [by rewrite Nat.add_0_r|].
  rewrite IH. f_equal. lia.
Qed.

Lemma fill_digit data i d a k n t : 0 <= d < 16 -> 0 <= a -> a * 16 + d < W64 ->
  fill_char data i (hexdigit d) (mkFill a k n FAddress t) = mkFill (a * 16 + d) k n FAddress t.
Proof.
  intros Hd Ha Hb. unfold fill_char, hexdigit, between, digit. cbn [stage current_address current_name current_name_length table].
  rewrite mul64_small by lia. destruct (Z.ltb_spec d 10).
  - rewrite (proj2 (Z.eqb_neq _ 32)), (proj2 (Z.leb_le 48 _)), (proj2 (Z.leb_le _ 57)) by lia. cbn [andb]. rewrite add64_small by lia.
    f_equal. lia.
  - rewrite (proj2 (Z.eqb_neq _ 32)), (proj2 (Z.leb_gt _ 57)), andb_false_r by lia.
    rewrite (proj2 (Z.leb_le 97 _)), (proj2 (Z.leb_le _ 102)) by lia. cbn [andb]. rewrite add64_small by lia. f_equal. lia.
Qed.

Lemma length_hex_digits m : forall x, length (hex_digits m x) = m.
Proof. induction m as [|m IH]; intros x; cbn [hex_digits]; [done|]. rewrite length_app, IH. cbn. lia. Qed.

Lemma fill_hex data k n t m : forall x i, 0 <= x < 16 ^ Z.of_nat m -> (m <= 16)%nat ->
  fill_loop data i (hex_digits m x) (mkFill 0 k n FAddress t) = mkFill x k n FAddress t.
Proof.
  induction m as [|m IH]; intros x i Hx Hm; cbn [hex_digits]; [cbn; f_equal; lia|].
  rewrite Nat2Z.inj_succ, Z.pow_succ_r in Hx by lia.
  assert (16 * 16 ^ Z.of_nat m <= W64).
  { change W64 with (16 * 16 ^ 15). apply Z.mul_le_mono_nonneg_l; [lia|]. apply Z.pow_le_mono_r; lia. }
  rewrite fill_app, IH by (lia || zlia). cbn [fill_loop]. rewrite fill_digit by zlia. f_equal. zlia.
Qed.

Lemma fill_chars data a k t cs : forall i n, (forall c, c ∈ cs -> c <> 10) ->
  fill_loop data i cs (mkFill a k n FName t) = mkFill a k (n + length cs) FName t.
Proof.
  induction cs as [|c cs IH]; intros i n Hc; cbn [fill_loop length]; [f_equal; lia|].
  unfold fill_char at 1. cbn [stage current_address current_name current_name_length table].
  rewrite (proj2 (Z.eqb_neq c 10)) by (apply Hc; by left). rewrite IH by (intros d Hd; apply Hc; by right). f_equal. lia.
Qed.

(** What a line adds. *)
Definition in_region (t : SymbolTable) (a : Z) : bool := (m_regionStart t <=? a) && (a <=? m_regionEnd t).
Definition add_symbol (t : SymbolTable) (s : symbol) : SymbolTable :=
  if in_region t (s_address s) then AddSymbol (s_address s) (s_name s) t else t.

Lemma fill_line data pre post s k n t : symbol_ok s -> data = pre ++ raw_line s ++ post ->
  fill_loop data (length pre) (raw_line s) (mkFill 0 k n FAddress t) = mkFill 0 0 0 FAddress (add_symbol t s).
Proof.
  intros [Ha _ _ Hc] Hdata. unfold raw_line. rewrite !fill_app. rewrite fill_hex by (unfold u64 in Ha; lia).
  rewrite length_hex_digits. cbn [fill_loop length].
  change (fill_char data (length pre + 16) 32 (mkFill (s_address s) k n FAddress t)) with (mkFill (s_address s) (S (length pre + 16)) 0 FName t).
  rewrite fill_chars by (intros c Hin; by apply Hc). unfold fill_char. cbn [stage table current_address current_name current_name_length Z.eqb Pos.eqb].
  f_equal. unfold add_symbol, in_region. destruct (_ && _); [|done]. f_equal. cbn [Nat.add].
  assert (E : data = (pre ++ hex_digits 16 (s_address s) ++ [32]) ++ s_name s ++ (10 :: post)).
  { rewrite Hdata. unfold raw_line. by rewrite <- !app_assoc. }
  rewrite E. rewrite drop_app_length'; [by rewrite take_app_length|]. rewrite !length_app, length_hex_digits. cbn [length]. lia.
Qed.

Lemma fill_text l : forall pre data t, Forall symbol_ok l -> data = pre ++ concat (raw_line <$> l) ->
  fill_loop data (length pre) (concat (raw_line <$> l)) (mkFill 0 0 0 FAddress t) = mkFill 0 0 0 FAddress (foldl add_symbol t l).
Proof.
  induction l as [|s l IH]; intros pre data t Hl Hdata; [done|]. apply Forall_cons in Hl as [Hs Hl].
  change (concat (raw_line <$> s :: l)) with (raw_line s ++ concat (raw_line <$> l)) in *.
  rewrite fill_app. erewrite fill_line by done. rewrite <- length_app. rewrite IH; [done|done|]. by rewrite <- app_assoc.
Qed.

Lemma Fill_spec l t : Forall symbol_ok l -> FillFromRawStringData (concat (raw_line <$> l)) t = foldl add_symbol t l.
Proof.
  intros Hl. destruct l as [|s l]; [done|]. pose proof (fill_text (s :: l) [] _ t Hl eq_refl) as H. unfold FillFromRawStringData.
  destruct (concat (raw_line <$> s :: l)) as [|c cs] eqn:E.
  - exfalso. apply (f_equal length) in E. cbn [fmap list_fmap concat] in E. unfold raw_line in E. rewrite !length_app, length_hex_digits in E. cbn in E. lia.
  - cbn [length app] in H. by rewrite H.
Qed.

(** The symbols of the region at an address, in the order of the list. *)
Definition at_address (t : SymbolTable) (a : Z) (l : list symbol) : list symbol :=
  filter (fun s => s_address s = a /\ in_region t a = true) l.

Lemma table_region t s : m_regionStart (add_symbol t s) = m_regionStart t /\ m_regionEnd (add_symbol t s) = m_regionEnd t.
Proof. unfold add_symbol. by destruct (in_region _ _). Qed.

Lemma find_symbols l : forall t, AVLTree.sorted (m_symbols t) ->
  AVLTree.sorted (m_symbols (foldl add_symbol t l)) /\
  forall a, AVLTree.RB_FIND a (m_symbols (foldl add_symbol t l)) =
    match AVLTree.RB_FIND a (m_symbols t) with Some v => Some v | None => s_name <$> head (at_address t a l) end.
Proof.
  induction l as [|s l IH]; intros t Hs; cbn [foldl]; [split; [done|]; intros a; by destruct (AVLTree.RB_FIND a (m_symbols t))|].
  assert (Hs' : AVLTree.sorted (m_symbols (add_symbol t s)) /\ forall a, AVLTree.RB_FIND a (m_symbols (add_symbol t s)) =
    match AVLTree.RB_FIND a (m_symbols t) with Some v => Some v
    | None => if decide (s_address s = a /\ in_region t a = true) then Some (s_name s) else None end).
  { unfold add_symbol. destruct (in_region t (s_address s)) eqn:Hr.
    - unfold AddSymbol, AVLTree.Insert. cbn [m_symbols]. destruct (AVLTree.RB_FIND (s_address s) (m_symbols t)) as [v|] eqn:Hf; cbn [snd].
      + split; [done|]. intros a. destruct (AVLTree.RB_FIND a (m_symbols t)) eqn:Hfa; [done|]. rewrite decide_False; [done|]. intros [<- _]. congruence.
      + split; [by apply AVLTree.sorted_INSERT|]. intros a. rewrite AVLTree.RB_FIND_INSERT by done.
        destruct (Z.eqb_spec a (s_address s)) as [->|Hne]; [rewrite Hf, decide_True by done; done|].
        destruct (AVLTree.RB_FIND a (m_symbols t)); [done|]. rewrite decide_False; [done|]. intros [<- _]. done.
    - split; [done|]. intros a. destruct (AVLTree.RB_FIND a (m_symbols t)); [done|]. rewrite decide_False; [done|]. intros [<- ?]. congruence. }
  destruct Hs' as [Hs1 Hf1]. destruct (IH _ Hs1) as [Hs2 Hf2]. split; [done|]. intros a. rewrite Hf2, Hf1.
  destruct (AVLTree.RB_FIND a (m_symbols t)); [done|]. unfold at_address, in_region. destruct (table_region t s) as [-> ->].
  rewrite filter_cons. unfold in_region. case_decide; done.
Qed.

(** The first element that is kept. *)
Lemma filter_first {A} (P : A -> Prop) `{forall x, Decision (P x)} (l : list A) x r : filter P l = x :: r ->
  exists l1 l2, l = l1 ++ x :: l2 /\ P x /\ Forall (fun y => ~ P y) l1.
Proof.
  induction l as [|y l IH]; [done|]. rewrite filter_cons. case_decide as Hy.
  - intros [= -> _]. by exists [], l.
  - intros (l1 & l2 & -> & Hx & Hl)%IH. exists (y :: l1), l2. split_and!; [done..|by constructor].
Qed.

(** C30: For every list of symbols, the tool accepts what [nm] prints for them, and the table that the kernel fills from the tool's output answers a look-up
    with the name and the address of a symbol of the list inside of the kernel's region whose address is the greatest that is not above the one
    that is looked up, the first one in the list of those at this address; it answers with none only if there is no such symbol. *)
Theorem symbols_roundtrip (l : list symbol) (regionStart regionEnd p : Z) : Forall symbol_ok l ->
  let t := SetMemRegion regionStart regionEnd SymbolTable_new in
  let inside s := regionStart <= s_address s <= regionEnd in
  snd (tool_main (nm_text l)) = 0 /\
  match FindSymbol p (FillFromRawStringData (fst (tool_main (nm_text l))) t) with
  | Some (name, base) => exists l1 s l2, l = l1 ++ s :: l2 /\ s_name s = name /\ s_address s = base /\ inside s /\ base <= p /\
      (forall s', s' ∈ l1 -> s_address s' <> base) /\ (forall s', s' ∈ l -> inside s' -> s_address s' <= p -> s_address s' <= base)
  | None => forall s, s ∈ l -> inside s -> p < s_address s
  end.
Proof.
  intros Hl. cbv zeta. rewrite tool_main_spec by done. cbn [fst snd]. split; [done|]. rewrite Fill_spec by done.
  set (t := SetMemRegion _ _ _). destruct (find_symbols l t ltac:(done)) as [Hs Hf].
  assert (Hin : forall a, in_region t a = true <-> regionStart <= a <= regionEnd) by (intros a; unfold in_region; cbn; lia).
  assert (Hnone : forall a s, AVLTree.RB_FIND a (m_symbols (foldl add_symbol t l)) = None -> s ∈ l -> regionStart <= s_address s <= regionEnd ->
    s_address s <> a).
  { intros a s Ha Hsl Hr <-. rewrite Hf in Ha. cbn in Ha. destruct (head (at_address t (s_address s) l)) eqn:Hh; [done|].
    apply head_None in Hh. assert (s ∈ at_address t (s_address s) l) as Hx; [|by rewrite Hh in Hx; apply elem_of_nil in Hx].
    apply list_elem_of_filter. split; [|done]. split; [done|]. by apply Hin. }
  unfold FindSymbol. pose proof (AVLTree.FindNodeOrLower_spec _ p Hs) as Hlow.
  destruct (AVLTree.FindNodeOrLower p _) as [[base name]|].
  - destruct Hlow as (Hb & Hle & Hmax). rewrite Hf in Hb. cbn in Hb.
    destruct (at_address t base l) as [|s r] eqn:Hat; [done|]. cbn in Hb. injection Hb as Hn.
    unfold at_address in Hat. apply filter_first in Hat as (l1 & l2 & -> & [Ha Hr] & H1).
    exists l1, s, l2. split_and!; try done; [by apply Hin; rewrite Ha..| |].
    + intros s' Hs' E. rewrite Forall_forall in H1. apply (H1 s' Hs'). split; [done|]. done.
    + intros s' Hs' Hi Hp. destruct (decide (s_address s' <= base)); [done|]. exfalso.
      eapply (Hnone (s_address s') s'); [apply Hmax; lia|done|done|done].
  - intros s Hsl Hi. destruct (decide (p < s_address s)); [done|]. exfalso.
    eapply (Hnone (s_address s) s); [apply Hlow; lia|done|done|done].
Qed.

Definition example_symbols : list symbol :=
  [mkSymbol 18446744071562067968 84 [95; 115]; mkSymbol 18446744071562068032 116 [102; 111; 111]; mkSymbol 4096 65 [98]].

Lemma example_ok : Forall symbol_ok example_symbols.
Proof.
  assert (H : forall a c n, u64 a -> is_letter c = true -> n <> [] -> Forall (fun c => 0 <= c < 255 /\ c <> 10) n -> symbol_ok (mkSymbol a c n)).
  { intros a c n Ha Hc Hn Hf. split; cbn [s_address s_letter s_name]; try done. by apply Forall_forall. }
  unfold example_symbols. do 3 (apply Forall_cons; split; [apply H; [unfold u64; lia|reflexivity|done|repeat (constructor; [lia|]); constructor]|]). constructor.
Qed.

Lemma symbols_roundtrip_witness :
  snd (tool_main (nm_text example_symbols)) = 0 /\
  FindSymbol 18446744071562068040 (FillFromRawStringData (fst (tool_main (nm_text example_symbols)))
    (SetMemRegion 18446744071562067968 18446744073709551615 SymbolTable_new)) = Some ([102; 111; 111], 18446744071562068032).
Proof.
  pose proof (symbols_roundtrip example_symbols 18446744071562067968 18446744073709551615 18446744071562068040 example_ok) as H.
  cbv zeta in H. destruct H as [H _]. split; [exact H|]. vm_compute. reflexivity.
Defined.

End Symbols.
