(* ===== verification/CPUInfo.v ===== *)
(** * CPUInfo.v: identification of the processor and SIMD contexts (src/kernel/src/arch/x86_64/Processor.cpp)

    What the CPUID instruction gives is a parameter; the memory for the contexts is an address that [kcalloc] gives, and
    what is freed is the address that is passed to [kfree]. Saving and restoring the registers is not part of the model.

    Shown: a processor that spells a signature in its registers is recognised by it, start-up goes on exactly when
    the processor has SSE2, and the region of a context is aligned and lies inside of its block; the address that is freed
    is not the one that was allocated. *)

From S2P Require Import Prelude.
From Stdlib Require Import String Ascii.

#[local] Open Scope Z_scope.
#[local] Open Scope list_scope.

Module CPUInfo.

Record x86_64_CPUIDResult : Set := mkCPUID { EAX : Z; EBX : Z; ECX : Z; EDX : Z }.

Inductive x86_Vendor : Set :=
  | VENDOR_INTEL | VENDOR_CYRIX | VENDOR_AMD | VENDOR_UMC | VENDOR_CENTAUR | VENDOR_TRANSMETA | VENDOR_NSC | VENDOR_HYGON
  | VENDOR_ZHAOXIN | VENDOR_VORTEX | VENDOR_UNKNOWN.
#[global] Instance x86_Vendor_eq_dec : EqDecision x86_Vendor.
Proof. solve_decision. Defined.
Inductive x86_Hypervisor : Set :=
  | HYPER_NONE | HYPER_QEMU | HYPER_KVM | HYPER_VMWARE | HYPER_VIRTUALBOX | HYPER_XEN | HYPER_HYPERV | HYPER_PARALLELS | HYPER_UNKNOWN.
Inductive x86_64_SIMDSaveMethod : Set := FXSAVE | XSAVE.

Record SIMDInfo : Set := mkSIMD {
  has_FPU : bool; has_MMX : bool; has_SSE : bool; has_SSE2 : bool; has_SSE3 : bool; has_SSSE3 : bool; has_SSE41 : bool;
  has_SSE42 : bool; has_AVX : bool; has_FXSR : bool; has_XSAVE : bool; has_AVX2 : bool;
  XCR0 : Z; XSAVESize : Z; saveMethod : x86_64_SIMDSaveMethod
}.

Record x86_64_CPUInfo : Set := mkInfo {
  vendor : x86_Vendor;
  vendorStr : list Z;
  modelStr : list Z;
  maxCPUID : Z;
  maxExtendedCPUID : Z;
  hypervisor : x86_Hypervisor;
  hypervisorStr : list Z;
  maxHypervisorCPUID : Z;
  simd : SIMDInfo
}.

(** A string literal as bytes, and the four bytes of a register. *)
Definition lit (s : string) : list Z := (fun c => Z.of_N (N_of_ascii c)) <$> list_ascii_of_string s.
Definition le4 (x : Z) : list Z := [x mod 256; x / 2 ^ 8 mod 256; x / 2 ^ 16 mod 256; x / 2 ^ 24 mod 256].

(** [strncmp] of twelve characters; the kernel's compares all of them. *)
Definition STR_CMP (s : list Z) (a : string) : bool := bool_decide (s = lit a).

Definition vendor_of (s : list Z) : x86_Vendor :=
  if STR_CMP s "GenuineIntel" then VENDOR_INTEL
  else if STR_CMP s "CyrixInstead" then VENDOR_CYRIX
  else if STR_CMP s "AuthenticAMD" then VENDOR_AMD
  else if STR_CMP s "UMC UMC UMC " then VENDOR_UMC
  else if STR_CMP s "CentaurHauls" then VENDOR_CENTAUR
  else if STR_CMP s "GenuineTMx86" then VENDOR_TRANSMETA
  else if STR_CMP s "Geode by NSC" then VENDOR_NSC
  else if STR_CMP s "HygonGenuine" then VENDOR_HYGON
  else if STR_CMP s "  Shanghai  " then VENDOR_ZHAOXIN
  else if STR_CMP s "Vortex86 SoC" then VENDOR_VORTEX
  else VENDOR_UNKNOWN.

Definition hypervisor_of (s : list Z) : x86_Hypervisor :=
  if STR_CMP s "TCGTCGTCGTCG" then HYPER_QEMU
  else if STR_CMP s "KVMKVMKVM   " then HYPER_KVM
  else if STR_CMP s "VMwareVMware" then HYPER_VMWARE
  else if STR_CMP s "VboxVboxVbox" then HYPER_VIRTUALBOX
  else if STR_CMP s "XenVMMXenVMM" then HYPER_XEN
  else if STR_CMP s "Microsoft Hv" then HYPER_HYPERV
  else if STR_CMP s " prl hyperv " then HYPER_PARALLELS
  else HYPER_UNKNOWN.

Section Fill.
Context (CPUID : Z -> Z -> x86_64_CPUIDResult).

Definition bit (x k : Z) : bool := 0 <? Z.land x (Z.shiftl 1 k).

Definition model_part (i : Z) : list Z :=
  let r := CPUID (2147483650 + i) 0 in le4 (EAX r) ++ le4 (EBX r) ++ le4 (ECX r) ++ le4 (EDX r).

(** The last part of [FillCPUInfo]; the size is what it was. *)
Definition fill_SIMD (max : Z) (old : SIMDInfo) : option SIMDInfo :=
  let r := CPUID 1 0 in
  let FPU := bit (EDX r) 0 in
  let MMX := bit (EDX r) 23 in
  let SSE := bit (EDX r) 25 in
  let SSE2 := bit (EDX r) 26 in
  let FXSR := bit (EDX r) 24 in
  let XS := bit (ECX r) 26 in
  if negb FPU || negb MMX || negb SSE || negb SSE2 || negb FXSR then None else
  let AVX2 := if 7 <=? max then bit (EBX (CPUID 7 0)) 5 else false in
  let use := (13 <=? max) && XS in
  let xcr0 := if use then Z.lor (Z.shiftl (EDX (CPUID 13 0)) 32) (EAX (CPUID 13 0)) else 0 in
  Some (mkSIMD FPU MMX SSE SSE2 (bit (ECX r) 0) (bit (ECX r) 9) (bit (ECX r) 19) (bit (ECX r) 20) (bit (ECX r) 28) FXSR XS AVX2
    xcr0 (XSAVESize old) (if use then XSAVE else FXSAVE)).

(** [FillCPUInfo]: [old] is what the structure held, [None] the panic. *)
Definition FillCPUInfo (old : x86_64_CPUInfo) : option x86_64_CPUInfo :=
  let r := CPUID 0 0 in
  let vs := le4 (EBX r) ++ le4 (EDX r) ++ le4 (ECX r) in
  let model := model_part 0 ++ model_part 1 ++ model_part 2 in
  let virtual := bit (ECX (CPUID 1 0)) 31 in
  let h := CPUID 1073741824 0 in
  let hs := if virtual then le4 (EBX h) ++ le4 (ECX h) ++ le4 (EDX h) else hypervisorStr old in
  match fill_SIMD (EAX r) (simd old) with
  | None => None
  | Some s =>
      Some (mkInfo (vendor_of vs) vs model (EAX r) (EAX (CPUID 2147483648 0))
        (if virtual then hypervisor_of hs else HYPER_NONE) hs (if virtual then EAX h else maxHypervisorCPUID old) s)
  end.

(** The size of a context: from the processor once it is set up for the features in use, or, for the bootstrap processor only, 512. *)
Definition set_XSAVESize (BSP : bool) (s : SIMDInfo) : SIMDInfo :=
  let n := match saveMethod s with XSAVE => EBX (CPUID 13 0) | FXSAVE => if BSP then 512 else XSAVESize s end in
  mkSIMD (has_FPU s) (has_MMX s) (has_SSE s) (has_SSE2 s) (has_SSE3 s) (has_SSSE3 s) (has_SSE41 s) (has_SSE42 s) (has_AVX s)
    (has_FXSR s) (has_XSAVE s) (has_AVX2 s) (XCR0 s) n (saveMethod s).
End Fill.

(** ** Contexts *)

Record CPU_ExtraContext : Set := mkContext { fsBase : Z; gsBase : Z; SIMDSaveRegion : Z }.

(** [kcalloc] is asked for [context_size] bytes and gives [buffer]; the last two components are what is stored for MXCSR and
    FCW. *)
Definition context_size (s : SIMDInfo) : Z := match saveMethod s with XSAVE => XSAVESize s + 48 | FXSAVE => XSAVESize s end.
Definition InitExtraContext (s : SIMDInfo) (buffer : Z) : CPU_ExtraContext * Z * Z :=
  (mkContext 0 0 (match saveMethod s with XSAVE => ALIGN_UP buffer 64 | FXSAVE => buffer end), 8064, 895).
(** What is freed. *)
Definition DestroyExtraContext (c : CPU_ExtraContext) : Z := SIMDSaveRegion c.
(** The region is copied: from, to, and how much. *)
Definition CopyExtraContext (s : SIMDInfo) (dst src : CPU_ExtraContext) : CPU_ExtraContext * (Z * Z * Z) :=
  (mkContext (fsBase src) (gsBase src) (SIMDSaveRegion dst), (SIMDSaveRegion src, SIMDSaveRegion dst, XSAVESize s)).

(** ** Correctness *)

Definition le4_value (b : list Z) : Z :=
  match b with [b0; b1; b2; b3] => b0 + 2 ^ 8 * b1 + 2 ^ 16 * b2 + 2 ^ 24 * b3 | _ => 0 end.

Lemma le4_of b0 b1 b2 b3 : Forall (fun b => 0 <= b < 256) [b0; b1; b2; b3] -> le4 (le4_value [b0; b1; b2; b3]) = [b0; b1; b2; b3].
Proof. rewrite !Forall_cons. intros (? & ? & ? & ? & _). unfold le4, le4_value. repeat f_equal; zlia. Qed.

(** A processor whose registers spell a signature is recognised by it. *)
Lemma vendor_recognised CPUID old info b0 b1 b2 b3 c0 c1 c2 c3 d0 d1 d2 d3 :
  Forall (fun b => 0 <= b < 256) [b0; b1; b2; b3] -> Forall (fun b => 0 <= b < 256) [c0; c1; c2; c3] ->
  Forall (fun b => 0 <= b < 256) [d0; d1; d2; d3] ->
  EBX (CPUID 0 0) = le4_value [b0; b1; b2; b3] -> EDX (CPUID 0 0) = le4_value [c0; c1; c2; c3] ->
  ECX (CPUID 0 0) = le4_value [d0; d1; d2; d3] -> FillCPUInfo CPUID old = Some info ->
  vendorStr info = [b0; b1; b2; b3; c0; c1; c2; c3; d0; d1; d2; d3] /\ vendor info = vendor_of (vendorStr info).
Proof.
  intros Hb Hc Hd Eb Ed Ec. unfold FillCPUInfo. cbv zeta.
  rewrite Eb, Ed, Ec, (le4_of b0 b1 b2 b3 Hb), (le4_of c0 c1 c2 c3 Hc), (le4_of d0 d1 d2 d3 Hd).
  destruct (fill_SIMD _ _ _); [|done]. intros [= <-]. split; reflexivity.
Qed.

Lemma bit_testbit x k : 0 <= x -> 0 <= k -> bit x k = Z.testbit x k.
Proof.
  intros Hx Hk. unfold bit. rewrite Z.shiftl_1_l. destruct (Z.testbit x k) eqn:Hb.
  - apply Z.ltb_lt. assert (Z.land x (2 ^ k) <> 0) as Hne.
    { intros E. apply (f_equal (fun v => Z.testbit v k)) in E. rewrite Z.land_spec, Hb, Z.pow2_bits_true, Z.bits_0 in E by done. done. }
    assert (0 <= Z.land x (2 ^ k)) by (apply Z.land_nonneg; lia). lia.
  - apply Z.ltb_ge. assert (Z.land x (2 ^ k) = 0) as ->; [|lia]. apply Z.bits_inj'. intros n Hn. rewrite Z.land_spec, Z.bits_0.
    destruct (decide (n = k)) as [->|]; [by rewrite Hb|]. rewrite Z.pow2_bits_false by done. apply andb_false_r.
Qed.

(** Start-up goes on exactly when the processor has the features of SSE2; then AVX2 and the way contexts are saved depend on the leaves the processor has. *)
Theorem FillCPUInfo_needs_SSE2 CPUID old : 0 <= EDX (CPUID 1 0) -> 0 <= ECX (CPUID 1 0) ->
  match FillCPUInfo CPUID old with
  | None => exists k, k ∈ [0; 23; 24; 25; 26] /\ Z.testbit (EDX (CPUID 1 0)) k = false
  | Some info => Forall (fun k => Z.testbit (EDX (CPUID 1 0)) k = true) [0; 23; 24; 25; 26] /\
      (saveMethod (simd info) = XSAVE <-> 13 <= EAX (CPUID 0 0) /\ Z.testbit (ECX (CPUID 1 0)) 26 = true)
  end.
Proof.
  intros Hd Hc. unfold FillCPUInfo, fill_SIMD. cbv zeta. rewrite !(bit_testbit (EDX _)), !(bit_testbit (ECX (CPUID 1 0))) by lia.
  destruct (Z.testbit (EDX (CPUID 1 0)) 0) eqn:E0; cbn [negb orb]; [|exists 0; set_solver].
  destruct (Z.testbit (EDX (CPUID 1 0)) 23) eqn:E1; cbn [negb orb]; [|exists 23; set_solver].
  destruct (Z.testbit (EDX (CPUID 1 0)) 25) eqn:E2; cbn [negb orb]; [|exists 25; set_solver].
  destruct (Z.testbit (EDX (CPUID 1 0)) 26) eqn:E3; cbn [negb orb]; [|exists 26; set_solver].
  destruct (Z.testbit (EDX (CPUID 1 0)) 24) eqn:E4; cbn [negb orb]; [|exists 24; set_solver].
  cbn [simd saveMethod]. split; [repeat constructor; done|].
  destruct (Z.leb_spec 13 (EAX (CPUID 0 0))), (Z.testbit (ECX (CPUID 1 0)) 26); cbn [andb]; split; intros; try done; lia.
Qed.

(** The region lies in the block that was allocated and is aligned as the instructions want it. *)
Theorem context_fits s buffer : 0 <= XSAVESize s < 2 ^ 32 -> 0 <= buffer < 2 ^ 63 -> buffer mod 16 = 0 ->
  let region := SIMDSaveRegion (fst (fst (InitExtraContext s buffer))) in
  buffer <= region /\ region + XSAVESize s <= buffer + context_size s /\ (saveMethod s = XSAVE -> region mod 64 = 0).
Proof.
  intros Hs Hb Hm. unfold InitExtraContext, context_size. cbn [fst SIMDSaveRegion]. destruct (saveMethod s); [split_and!; (lia || done)|].
  unfold ALIGN_UP, DIV_ROUNDUP. rewrite add64_small by lia. rewrite mul64_small by zlia. split_and!; [zlia|zlia|]. intros _. zlia.
Qed.

(** ** What goes wrong *)

(** The aligned address is freed instead of the one that was allocated. *)
Theorem context_freed_elsewhere s buffer : saveMethod s = XSAVE -> 0 <= buffer < 2 ^ 63 -> buffer mod 64 <> 0 ->
  DestroyExtraContext (fst (fst (InitExtraContext s buffer))) <> buffer.
Proof.
  intros Hs Hb Hm. unfold DestroyExtraContext, InitExtraContext. cbn [fst SIMDSaveRegion]. rewrite Hs. unfold ALIGN_UP, DIV_ROUNDUP.
  rewrite add64_small by lia. rewrite mul64_small by zlia. zlia.
Qed.

(** The signatures of KVM and VirtualBox are not recognised. *)
Example KVM_unknown : hypervisor_of [75; 86; 77; 75; 86; 77; 75; 86; 77; 0; 0; 0] = HYPER_UNKNOWN.
Proof. vm_compute. reflexivity. Qed.
Example VirtualBox_unknown : hypervisor_of (lit "VBoxVBoxVBox") = HYPER_UNKNOWN.
Proof. vm_compute. reflexivity. Qed.

(** Another processor than the first that saves with FXSAVE keeps whatever the size was. *)
Theorem AP_size_not_set CPUID s : saveMethod s = FXSAVE -> XSAVESize (set_XSAVESize CPUID false s) = XSAVESize s.
Proof. unfold set_XSAVESize. intros ->. done. Qed.

End CPUInfo.
