(* ===== verification/Timer.v ===== *)
(** * Timer.v: the ticks of the timers (PIT.cpp and TSC.cpp in src/kernel/src/arch/x86_64, HAL_TimerTick and HAL_EndTimerTick of
      src/kernel/src/HAL/Time.cpp, and the handlers of the timer in interrupts/APIC/LocalAPIC.cpp)

    The interrupt of a timer goes through the scheduler, which either returns, so that the handler ends the interrupt, or
    switches to another thread and never returns, so that the scheduler has to end it. The state puts together the scheduler of
    Scheduler.v and the local APICs of LocalAPIC.v.

    Shown: each interrupt of the local timer is ended exactly once, at the chip of the processor that took it, whatever the
    scheduler does; the frequency of the time stamp counter where the processor gives it, and where the computation overflows. *)

From S2P Require Import Prelude Scheduler SchedulerSpec SchedulerTick IOAPIC IRQ Descriptors LocalAPIC CPUInfo.

#[local] Open Scope Z_scope.
#[local] Open Scope kernel_scope.

Module Timer.

(** ** State *)

Record processor : Set := mkProcessor { isBSP : bool; m_LAPIC : option nat }.

Record machine : Type := mkMachine {
  sched : Scheduler.state;
  lapics : list LocalAPIC.lapic;
  processors : list processor;
  current : option nat;  (* [GetCurrentProcessor] *)
  g_BSP : nat;
  g_BSP_LAPIC : option nat;
  g_HALTimerTicks : Z;
  g_x86_64_PITTicks : Z
}.

Definition set_sched v m := mkMachine v (lapics m) (processors m) (current m) (g_BSP m) (g_BSP_LAPIC m) (g_HALTimerTicks m) (g_x86_64_PITTicks m).
Definition set_lapics v m := mkMachine (sched m) v (processors m) (current m) (g_BSP m) (g_BSP_LAPIC m) (g_HALTimerTicks m) (g_x86_64_PITTicks m).
Definition set_ticks v m := mkMachine (sched m) (lapics m) (processors m) (current m) (g_BSP m) (g_BSP_LAPIC m) v (g_x86_64_PITTicks m).
Definition set_PITTicks v m := mkMachine (sched m) (lapics m) (processors m) (current m) (g_BSP m) (g_BSP_LAPIC m) (g_HALTimerTicks m) v.

Definition on_sched {A} (f : M Scheduler.state A) : M machine A := fun m =>
  match f (sched m) with Ok (x, s) => Ok (x, set_sched s m) | Fail e => Fail e end.
Definition on_lapic {A} (p : nat) (f : M LocalAPIC.lapic A) : M machine A := fun m =>
  match lapics m !! p with
  | Some l => match f l with Ok (x, l') => Ok (x, set_lapics (<[p := l']> (lapics m)) m) | Fail e => Fail e end
  | None => Fail InvalidAccess
  end.
Definition processor_of (q : nat) : M machine processor :=
  let* ps := gets processors in
  match ps !! q with Some p => ret p | None => fail NullDereference end.

(** ** HAL/Time.cpp *)

Definition HAL_EndTimerTick : M machine unit :=
  let* cur := gets current in
  match cur with
  | None => ret tt
  | Some q =>
      let* p := processor_of q in
      match m_LAPIC p with None => ret tt | Some l => on_lapic l LocalAPIC.SendEOI end
  end.

(** The calls of [HAL_EndTimerTick] the scheduler has made. *)
Fixpoint ends (es : list Scheduler.event) : M machine unit :=
  match es with
  | [] => ret tt
  | Scheduler.EndTimerTick :: es' => HAL_EndTimerTick ;;; ends es'
  | _ :: es' => ends es'
  end.

(** [Scheduler_PrepForTimerTick] and [Scheduler::TimerTick] on the kernel stack of the processor: [Some t] when the thread [t] is run and the call
    does not return. *)
Definition Scheduler_PrepForTimerTick (ms : Z) : M machine (option Z) :=
  let* cur := gets current in
  match cur with
  | None => fail NullDereference
  | Some q =>
      let* before := gets (fun m => length (Scheduler.events (sched m))) in
      let* r := on_sched (Scheduler.TimerTick q ms) in
      let* es := gets (fun m => Scheduler.events (sched m)) in
      ends (drop before es) ;;;
      ret r
  end.

Definition HAL_TimerTick (q : nat) (ticks : Z) : M machine (option Z) :=
  let* p := processor_of q in
  whenM (isBSP p) (modify (fun m => set_ticks (add64 (g_HALTimerTicks m) ticks) m)) ;;;
  Scheduler_PrepForTimerTick ticks.

(** ** The local timer (LocalAPIC.cpp) *)

Definition TimerInterrupt (lapic q : nat) : M machine (option Z) :=
  let* r := HAL_TimerTick q (LocalAPIC.LAPIC_TIMER_PERIOD / 1000000000) in
  match r with
  | Some t => ret (Some t)
  | None => on_lapic lapic LocalAPIC.SendEOI ;;; ret None
  end.

Definition x86_64_LAPIC_TimerInterrupt : M machine (option Z) :=
  let* cur := gets current in
  let* bsp := gets g_BSP in
  let q := default bsp cur in
  let* p := processor_of q in
  let* bsp_lapic := gets g_BSP_LAPIC in
  let lapic := match m_LAPIC p with Some l => Some l | None => if bool_decide (q = bsp) then bsp_lapic else None end in
  match lapic with
  | None => fail AssertionFailed
  | Some l => TimerInterrupt l q
  end.

(** ** PIT.cpp *)

Definition PIT_CHANNEL0 : Z := 64.
Definition PIT_COMMAND : Z := 67.
Definition PIT_COMMAND_CHANNEL0 : Z := 0.
Definition PIT_COMMAND_ACCESS_LOHI : Z := 48.
Definition PIT_COMMAND_MODE3 : Z := 6.
Definition PIT_COMMAND_BINARY : Z := 0.

Definition x86_64_PIT_Handler : M machine (option Z) :=
  modify (fun m => set_PITTicks (add64 (g_x86_64_PITTicks m) 5) m) ;;;
  let* cur := gets current in
  match cur with None => fail NullDereference | Some q => HAL_TimerTick q 5 end.

Definition x86_64_PIT_GetTicks : M machine Z := gets g_x86_64_PITTicks.
Definition x86_64_PIT_SetTicks (ticks : Z) : M machine unit := modify (set_PITTicks ticks).

Section PIT.
Context {D : Type} `{!IOAPIC.Device D}.

Definition x86_64_PIT_SetDivisor (divisor : Z) : M (IRQ.machine D) unit :=
  IRQ.emit (IRQ.outb PIT_CHANNEL0 (Z.land divisor 255)) ;;;
  IRQ.emit (IRQ.outb PIT_CHANNEL0 (Z.land (Z.shiftr divisor 8) 255)).

(** [handler] is the address of [x86_64_PIT_Handler]. *)
Definition x86_64_PIT_Init (handler : Z) : M (IRQ.machine D) unit :=
  IRQ.emit (IRQ.outb PIT_COMMAND
    (Z.lor (Z.lor (Z.lor PIT_COMMAND_CHANNEL0 PIT_COMMAND_ACCESS_LOHI) PIT_COMMAND_MODE3) PIT_COMMAND_BINARY)) ;;;
  let* GSI := gets (fun m => IOAPIC.x86_64_GetGSIFromSource 0 (IRQ.g_IRQRedirections m)) in
  let* ok := IRQ.x86_64_RegisterGSIHandler GSI (IRQ.DriverGSI handler) 0 in
  if negb ok then fail AssertionFailed else
  x86_64_PIT_SetDivisor 5966.
End PIT.

(** ** TSC.cpp *)

Section TSC.
Context (CPUID : Z -> Z -> CPUInfo.x86_64_CPUIDResult) (info : CPUInfo.x86_64_CPUInfo).

Definition x86_64_IsInvariantTSCSupported : bool :=
  if Z.land (CPUInfo.EDX (CPUID 1 0)) 16 =? 0 then false else
  if CPUInfo.maxExtendedCPUID info <? 2147483655 then false else
  0 <? Z.land (CPUInfo.EDX (CPUID 2147483655 0)) 256.

(** The operands of the products are 32 bits wide. *)
Definition crystal_from_base (mhz numerator denominator : Z) : Z := u32 (u32 (mhz * 1000000) * denominator) / numerator.

(** The frequency, and the period the local APIC is given. *)
Definition x86_64_TSCNativeGetFrequency (lapic : option LocalAPIC.lapic) : Z * option LocalAPIC.lapic :=
  if negb (bool_decide (CPUInfo.vendor info = CPUInfo.VENDOR_INTEL)) || (CPUInfo.maxCPUID info <? 21) then (0, lapic) else
  let result := CPUID 21 0 in
  if (CPUInfo.EAX result =? 0) || (CPUInfo.EBX result =? 0) then (0, lapic) else
  let crystalFreq := CPUInfo.ECX result in
  let crystalFreq :=
    if (crystalFreq =? 0) && (22 <=? CPUInfo.maxCPUID info)
    then crystal_from_base (CPUInfo.EAX (CPUID 22 0)) (CPUInfo.EBX result) (CPUInfo.EAX result) else crystalFreq in
  if crystalFreq =? 0 then (0, lapic) else
  (mul64 crystalFreq (CPUInfo.EBX result) / CPUInfo.EAX result,
   LocalAPIC.set_timerPeriod (1000000000000 / crystalFreq) <$> lapic).

End TSC.

(** [x86_64_TSCInit] of a processor, or of the current one, each with its information and its local APIC: whether it succeeds, whether
    [x86_64_TSCEnable] has been called, and the local APIC of the processor. *)
Definition x86_64_TSCInit (CPUID : Z -> Z -> CPUInfo.x86_64_CPUIDResult) (proc cur : option (CPUInfo.x86_64_CPUInfo * option LocalAPIC.lapic)) :
    bool * bool * option LocalAPIC.lapic :=
  match (match proc with Some p => Some p | None => cur end) with
  | None => (false, false, None)
  | Some (info, lapic) =>
      if negb (x86_64_IsInvariantTSCSupported CPUID info) then (false, false, lapic) else
      let (freq, lapic) := x86_64_TSCNativeGetFrequency CPUID info lapic in
      if freq =? 0 then (false, true, lapic) else (true, true, lapic)
  end.

(** ** What the scheduler leaves in the list of events *)

Section NoEvent.
Import Scheduler.
Implicit Types s : Scheduler.state.

(** An operation that adds no event. *)
Definition no_event {A} (f : M Scheduler.state A) : Prop := forall s a s', f s = Ok (a, s') -> events s' = events s.

Lemma no_event_ret {A} (a : A) : no_event (ret a). Proof. by intros s ? s' [= _ <-]. Qed.
Lemma no_event_fail {A} e : no_event (fail (A := A) e). Proof. done. Qed.
Lemma no_event_gets {A} (f : Scheduler.state -> A) : no_event (gets f). Proof. by intros s ? s' [= _ <-]. Qed.
Lemma no_event_bind {A B} (f : M Scheduler.state A) (g : A -> M Scheduler.state B) : no_event f -> (forall a, no_event (g a)) -> no_event (bind f g).
Proof.
  intros Hf Hg s b s'' H. unfold bind in H. destruct (f s) as [[a s']|] eqn:E; [|done]. by rewrite (Hg _ _ _ _ H), (Hf _ _ _ E).
Qed.
Lemma no_event_when (b : bool) (f : M Scheduler.state unit) : no_event f -> no_event (whenM b f).
Proof. destruct b; [done|]. intros _. apply no_event_ret. Qed.
Lemma no_event_assert b : no_event (assertM b). Proof. destruct b; [apply no_event_ret|done]. Qed.
Lemma no_event_cpu i : no_event (cpu i).
Proof. intros s a s' H. unfold cpu in H. destruct (procs s !! i); [by injection H as _ <-|done]. Qed.
Lemma no_event_thread_of t : no_event (thread_of t).
Proof. intros s a s' H. unfold thread_of in H. destruct (t =? 0); [done|]. destruct (threads s !! t); [by injection H as _ <-|done]. Qed.
Lemma no_event_process_of t : no_event (process_of t).
Proof. intros s a s' H. unfold process_of in H. destruct (t =? 0); [done|]. destruct (processes s !! t); [by injection H as _ <-|done]. Qed.
Lemma no_event_procs v : no_event (modify (fun s => set_procs (v s) s)). Proof. by intros s ? s' [= _ <-]. Qed.
Lemma no_event_threads v : no_event (modify (fun s => set_threads (v s) s)). Proof. by intros s ? s' [= _ <-]. Qed.
Lemma no_event_steal b : no_event (modify (set_steal b)). Proof. by intros s ? s' [= _ <-]. Qed.
End NoEvent.

Create HintDb no_event.
#[export] Hint Resolve no_event_ret no_event_fail no_event_gets no_event_bind no_event_when no_event_assert no_event_cpu no_event_thread_of no_event_process_of no_event_procs
  no_event_threads no_event_steal : no_event.

Ltac no_events :=
  repeat match goal with
  | |- no_event (bind _ _) => apply no_event_bind; [|intros ?; cbv zeta]
  | |- no_event (let (_, _) := ?x in _) => destruct x
  | |- no_event (match ?x with _ => _ end) => destruct x
  | |- no_event (if ?x then _ else _) => destruct x
  | |- no_event (whenM _ _) => apply no_event_when
  | |- no_event _ => solve [auto with no_event]
  end.

Section NoEventOps.
Import Scheduler.
Lemma no_event_upd_cpu i f : no_event (upd_cpu i f). Proof. unfold upd_cpu. no_events. Qed.
Lemma no_event_upd_thread t f : no_event (upd_thread t f). Proof. unfold upd_thread. no_events. Qed.
Lemma no_event_ready i n : no_event (ready i n). Proof. unfold ready. no_events. Qed.
Lemma no_event_set_ready i n l : no_event (set_ready i n l). Proof. apply no_event_upd_cpu. Qed.
#[local] Hint Resolve no_event_upd_cpu no_event_upd_thread no_event_ready no_event_set_ready : no_event.
Lemma no_event_lock_ready i n : no_event (lock_ready i n). Proof. unfold lock_ready. no_events. Qed.
Lemma no_event_unlock_ready i n : no_event (unlock_ready i n). Proof. unfold unlock_ready. no_events. Qed.
Lemma no_event_nice_of t : no_event (nice_of t). Proof. unfold nice_of. no_events. Qed.
Lemma no_event_pushBack t l : no_event (pushBack t l). Proof. unfold pushBack, unlinked. no_events. Qed.
#[local] Hint Resolve no_event_lock_ready no_event_unlock_ready no_event_nice_of no_event_pushBack : no_event.
Lemma no_event_enqueue i n t : no_event (enqueue i n t). Proof. unfold enqueue. no_events. Qed.
Lemma no_event_runCount i n : no_event (runCount i n). Proof. unfold runCount. no_events. Qed.
Lemma no_event_set_runCount i n v : no_event (set_runCount i n v). Proof. apply no_event_upd_cpu. Qed.
Lemma no_event_acquire_cpuInfo t : no_event (acquire_cpuInfo t). Proof. unfold acquire_cpuInfo. no_events. Qed.
Lemma no_event_release_cpuInfo t : no_event (release_cpuInfo t). Proof. apply no_event_upd_thread. Qed.
Lemma no_event_acquire_cpu i : no_event (acquire_cpu i). Proof. unfold acquire_cpu. no_events. Qed.
Lemma no_event_release_cpu i : no_event (release_cpu i). Proof. apply no_event_upd_cpu. Qed.
#[local] Hint Resolve no_event_enqueue no_event_runCount no_event_set_runCount no_event_acquire_cpuInfo no_event_release_cpuInfo no_event_acquire_cpu
  no_event_release_cpu : no_event.

Lemma no_event_scan n : forall src cur i thread nice, no_event (scan n src cur i thread nice).
Proof. induction n as [|n IH]; intros; cbn [scan]; no_events; apply IH. Qed.
#[local] Hint Resolve no_event_scan : no_event.
Lemma no_event_steal_from me id others : no_event (steal_from me id others).
Proof. induction others as [|src others IH]; cbn [steal_from]; no_events; apply IH. Qed.
Lemma no_event_StealThread me : no_event (StealThreadFromOther me).
Proof. unfold StealThreadFromOther. no_events. apply no_event_steal_from. Qed.
Lemma no_event_reset_counts n : forall me i, no_event (reset_counts n me i).
Proof. induction n as [|n IH]; intros; cbn [reset_counts]; no_events; apply IH. Qed.
#[local] Hint Resolve no_event_StealThread no_event_reset_counts : no_event.
Lemma no_event_PickNext me b : no_event (PickNext me b). Proof. unfold PickNext. cbv zeta. no_events. Qed.
Lemma no_event_wake me ms t : no_event (wake me ms t). Proof. unfold wake. no_events. Qed.
Lemma no_event_wake_all me ms l : no_event (wake_all me ms l).
Proof. induction l as [|t l IH]; cbn [wake_all]; [no_events|]. apply no_event_bind; [apply no_event_wake|by intros _]. Qed.
Lemma no_event_lock_sleeping me b : no_event (lock_sleeping me b). Proof. apply no_event_upd_cpu. Qed.
#[local] Hint Resolve no_event_PickNext no_event_wake_all no_event_lock_sleeping : no_event.

(** The part of a tick before the next thread is picked. *)
Lemma tick_old_events (me : nat) (c : ProcessorState) (ms : Z) s b s' :
  (if c_currentThread c =? 0 then ret false else
     emit (SaveContext (c_currentThread c)) ;;;
     let* x := thread_of (c_currentThread c) in
     let left := if t_timeRemaining x <=? ms then 0 else t_timeRemaining x - ms in
     upd_thread (c_currentThread c) (set_time left) ;;;
     if (0 <? left) && negb (c_isIdle c) then ret true else
     whenM (negb (c_isIdle c)) (let* n := nice_of (c_currentThread c) in enqueue me n (c_currentThread c)) ;;;
     upd_cpu me (set_current 0) ;;;
     ret false) s = Ok (b, s') ->
  exists es, events s' = events s ++ es /\ EndTimerTick ∉ es.
Proof.
  destruct (c_currentThread c =? 0); [intros [= _ <-]; exists []; rewrite app_nil_r; set_solver|]. intros H.
  apply bind_Ok in H as ([] & s1 & [= <-] & H). exists [SaveContext (c_currentThread c)]. split; [|set_solver].
  lazymatch type of H with ?f _ = _ => assert (Hq : no_event f) by no_events end. by rewrite (Hq _ _ _ H).
Qed.

(** A tick that returns has not ended the interrupt; one that switches to a thread has, once. *)
Lemma TimerTick_events me ms s r s' : TimerTick me ms s = Ok (r, s') ->
  exists es, events s' = events s ++ es ++ match r with Some _ => [EndTimerTick] | None => [] end /\ EndTimerTick ∉ es.
Proof.
  unfold TimerTick. intros H. apply bind_Ok in H as (c & s1 & H1 & H). apply no_event_cpu in H1.
  destruct (negb (c_startAllowed c)); [injection H as <- <-; exists []; rewrite app_nil_r, H1; set_solver|].
  apply bind_Ok in H as ([] & s2 & H2 & H). assert (E2 : events s2 = events s1).
  { destruct (locked (c_sleeping c)); [done|]. by apply no_event_lock_sleeping in H2. }
  apply bind_Ok in H as ([] & s3 & H3%no_event_wake_all & H). apply bind_Ok in H as ([] & s4 & H4%no_event_lock_sleeping & H).
  apply bind_Ok in H as (c' & s5 & H5%no_event_cpu & H). apply bind_Ok in H as (b & s6 & H6 & H).
  apply tick_old_events in H6 as (es & H6 & Hes). exists es. split; [|done].
  destruct b; [injection H as <- <-; rewrite app_nil_r; congruence|].
  apply bind_Ok in H as ([] & s7 & H7%no_event_PickNext & H). apply bind_Ok in H as (c2 & s8 & H8%no_event_cpu & H).
  apply bind_Ok in H as ([] & s9 & H9%no_event_assert & H). apply bind_Ok in H as ([] & s10 & H10%no_event_upd_thread & H).
  apply bind_Ok in H as ([] & s11 & [= <-] & H). unfold run_current in H. apply bind_Ok in H as (c3 & s12 & H12%no_event_cpu & [= <- <-]).
  rewrite H12. cbn [events]. rewrite H10, H9, H8, H7, H6, H5, H4, H3, E2, H1. by rewrite app_assoc.
Qed.
End NoEventOps.

(** ** One end of interrupt for each interrupt *)

(** The processor that takes the interrupt: its number, its record and its chip. *)
Record taken (m : machine) (q p : nat) (pr : processor) (l : LocalAPIC.lapic) : Prop := {
  tk_current : current m = Some q;
  tk_processor : processors m !! q = Some pr;
  tk_lapic : m_LAPIC pr = Some p;
  tk_chip : lapics m !! p = Some l
}.

(** The chip [p] has been told once that the interrupt is over, and no other chip anything. *)
Definition ended (m m' : machine) (p : nat) (l : LocalAPIC.lapic) : Prop :=
  lapics m' = <[p := LocalAPIC.set_io (LocalAPIC.writes l ++ [(LocalAPIC.R_EOI, 0)]) (LocalAPIC.reads l) l]> (lapics m).

Lemma processor_at m q pr Q : processors m !! q = Some pr -> Q pr m -> runs (processor_of q) m Q.
Proof. intros Hp HQ. exists pr, m. split; [|done]. unfold processor_of, bind, gets. by rewrite Hp. Qed.

Lemma SendEOI_at m p l Q : lapics m !! p = Some l ->
  Q tt (set_lapics (<[p := LocalAPIC.set_io (LocalAPIC.writes l ++ [(LocalAPIC.R_EOI, 0)]) (LocalAPIC.reads l) l]> (lapics m)) m) ->
  runs (on_lapic p LocalAPIC.SendEOI) m Q.
Proof. intros Hl HQ. eexists tt, _. split; [|exact HQ]. unfold on_lapic. rewrite Hl. reflexivity. Qed.

Lemma EndTimerTick_runs m q p pr l : taken m q p pr l ->
  runs HAL_EndTimerTick m (fun _ m' => ended m m' p l /\ m' = set_lapics (lapics m') m).
Proof.
  intros [Hc Hp Hl Hch]. unfold HAL_EndTimerTick. do 2 mstep. rewrite Hc. mstep. apply (processor_at _ _ pr); [done|]. rewrite Hl.
  by apply (SendEOI_at _ _ l).
Qed.

(** A list of events without the end of a tick calls nothing. *)
Lemma ends_none es es' : Scheduler.EndTimerTick ∉ es -> ends (es ++ es') = ends es'.
Proof. induction es as [|[]]; intros Hn; cbn [ends app]; set_solver. Qed.

(** What becomes of the scheduler. *)
Lemma TimerTick_wf s q c0 ms : SchedulerTick.wf s -> Scheduler.procs s !! q = Some c0 ->
  runs (Scheduler.TimerTick q ms) s (fun r s' => SchedulerTick.wf s' /\ SchedulerTick.all_held s' ≡ₚ SchedulerTick.all_held s).
Proof.
  intros Hwf Hc0. destruct (Scheduler.c_startAllowed c0) eqn:Es.
  - eapply runs_mono; [by eapply SchedulerTick.TimerTick_runs|]. by intros r s' (? & ? & _).
  - unfold Scheduler.TimerTick, Scheduler.cpu. mstep. eapply runs_eq; [by rewrite Hc0|]. cbn beta. rewrite Es. cbn [negb]. by mstep.
Qed.

Lemma PrepForTimerTick_runs m q p pr l c0 ms : taken m q p pr l -> SchedulerTick.wf (sched m) -> Scheduler.procs (sched m) !! q = Some c0 ->
  runs (Scheduler_PrepForTimerTick ms) m (fun r m' => SchedulerTick.wf (sched m') /\
    SchedulerTick.all_held (sched m') ≡ₚ SchedulerTick.all_held (sched m) /\
    m' = set_lapics (lapics m') (set_sched (sched m') m) /\
    match r with None => lapics m' = lapics m | Some _ => ended m m' p l end).
Proof.
  intros Ht Hwf Hc0. unfold Scheduler_PrepForTimerTick. do 2 mstep. rewrite (tk_current _ _ _ _ _ Ht). do 3 mstep.
  destruct (TimerTick_wf _ _ _ ms Hwf Hc0) as (r & s' & Hr & Hwf' & Hall).
  apply (runs_eq _ _ r (set_sched s' m)); [unfold on_sched; by rewrite Hr|]. do 2 mstep. cbn beta.
  apply TimerTick_events in Hr as (es & He & Hes). cbn [sched set_sched]. rewrite He, drop_app_length, ends_none by done.
  mstep. destruct r as [t|]; cbn [ends].
  - mstep. eapply runs_mono; [apply (EndTimerTick_runs _ q p pr l); by destruct Ht|].
    intros [] m' [Hend Hm']. do 2 mstep. rewrite Hm'. by split_and!.
  - by do 2 mstep.
Qed.

(** C31: the interrupt of the local timer on a processor of a well-formed scheduler: the handler runs to its end, and whether the interrupted
    thread goes on or another one is switched to, the chip of this processor, and no other, is told exactly once that the interrupt is
    over; no thread is lost or duplicated; and the bootstrap processor, and no other, counts the two milliseconds. *)
Theorem timer_interrupt_ended_once (m : machine) (q p : nat) (pr : processor) (l : LocalAPIC.lapic) (c0 : Scheduler.ProcessorState) :
  taken m q p pr l -> SchedulerTick.wf (sched m) -> Scheduler.procs (sched m) !! q = Some c0 ->
  runs x86_64_LAPIC_TimerInterrupt m (fun r m' => ended m m' p l /\ SchedulerTick.wf (sched m') /\
    SchedulerTick.all_held (sched m') ≡ₚ SchedulerTick.all_held (sched m) /\
    g_HALTimerTicks m' = if isBSP pr then add64 (g_HALTimerTicks m) 2 else g_HALTimerTicks m).
Proof.
  intros Ht Hwf Hc0. pose proof Ht as [Hc Hp Hl Hch]. unfold x86_64_LAPIC_TimerInterrupt. do 4 mstep. rewrite Hc. cbn [default id].
  mstep. apply (processor_at _ _ pr); [done|]. do 2 mstep. rewrite Hl. unfold TimerInterrupt, HAL_TimerTick. do 2 mstep.
  apply (processor_at _ _ pr); [done|]. mstep.
  set (m1 := if isBSP pr then set_ticks (add64 (g_HALTimerTicks m) 2) m else m).
  apply (runs_eq _ _ tt m1); [unfold m1; by destruct (isBSP pr)|]. cbn beta.
  assert (Ht1 : taken m1 q p pr l) by (unfold m1; by destruct (isBSP pr)).
  assert (Es : sched m1 = sched m) by (unfold m1; by destruct (isBSP pr)).
  assert (El : lapics m1 = lapics m) by (unfold m1; by destruct (isBSP pr)).
  assert (Eg : g_HALTimerTicks m1 = if isBSP pr then add64 (g_HALTimerTicks m) 2 else g_HALTimerTicks m) by (unfold m1; by destruct (isBSP pr)).
  clearbody m1. rewrite <- Es in *. eapply runs_mono; [by apply (PrepForTimerTick_runs m1 q p pr l c0)|].
  intros [t|] m' (Hwf' & Hall & Hm' & Hr).
  - mstep. split_and!; [unfold ended in *; by rewrite <- El|done|done|]. by rewrite Hm'.
  - mstep. apply (SendEOI_at _ _ l); [by rewrite Hr, El|]. mstep. split_and!; [unfold ended; cbn; by rewrite Hr, El|done|done|].
    rewrite Hm'. done.
Qed.

(** Two processors with a chip each; the first takes the interrupt. *)
Definition timer_demo : machine :=
  mkMachine SchedulerTick.tick_demo [LocalAPIC.example_lapic; LocalAPIC.example_lapic] [mkProcessor true (Some 0%nat); mkProcessor false (Some 1%nat)]
    (Some 0%nat) 0 (Some 0%nat) 40 0.

Lemma timer_interrupt_ended_once_witness :
  runs x86_64_LAPIC_TimerInterrupt timer_demo (fun r m' => ended timer_demo m' 0 LocalAPIC.example_lapic /\ g_HALTimerTicks m' = 42).
Proof.
  eapply runs_mono.
  - apply (timer_interrupt_ended_once timer_demo 0 0 (mkProcessor true (Some 0%nat)) LocalAPIC.example_lapic SchedulerTick.busy);
      [by split|exact SchedulerTick.tick_demo_wf|reflexivity].
  - intros r m' (H & _ & _ & Ht). exact (conj H Ht).
Defined.

(** The handler falls back to the bootstrap processor when no processor is current, and then uses the state of the current one, which is not there. *)
Theorem timer_fallback_fails (m : machine) (pr : processor) : current m = None -> processors m !! g_BSP m = Some pr -> m_LAPIC pr <> None ->
  x86_64_LAPIC_TimerInterrupt m = Fail NullDereference.
Proof.
  intros Hc Hp Hl. unfold x86_64_LAPIC_TimerInterrupt, processor_of, bind, gets, ret. rewrite Hc. cbn [default]. rewrite Hp.
  destruct (m_LAPIC pr) as [l|] eqn:E; [|done]. unfold TimerInterrupt, HAL_TimerTick, processor_of, bind, gets, ret. rewrite Hp.
  unfold Scheduler_PrepForTimerTick, whenM, modify, bind, gets, ret. destruct (isBSP pr); cbn; by rewrite Hc.
Qed.

Lemma timer_fallback_fails_witness :
  x86_64_LAPIC_TimerInterrupt (mkMachine SchedulerTick.tick_demo [] [mkProcessor true (Some 0%nat)] None 0 None 0 0) = Fail NullDereference.
Proof. by apply (timer_fallback_fails (mkMachine SchedulerTick.tick_demo [] [mkProcessor true (Some 0%nat)] None 0 None 0 0) (mkProcessor true (Some 0%nat))). Defined.

(** ** The programmable timer *)

(** The two bytes that are written, the low one first, are the divisor. *)
Theorem PIT_SetDivisor_bytes {D} `{!IOAPIC.Device D} (divisor : Z) (m : IRQ.machine D) : 0 <= divisor < 2 ^ 16 ->
  runs (x86_64_PIT_SetDivisor divisor) m (fun _ m' => exists lo hi,
    IRQ.trace m' = IRQ.trace m ++ [IRQ.outb PIT_CHANNEL0 lo; IRQ.outb PIT_CHANNEL0 hi] /\
    0 <= lo < 256 /\ 0 <= hi < 256 /\ lo + 256 * hi = divisor).
Proof.
  intros Hd. unfold x86_64_PIT_SetDivisor, IRQ.emit. do 3 mstep. eexists _, _. cbn [IRQ.trace IRQ.set_trace]. rewrite <- app_assoc.
  split; [reflexivity|]. change 255 with (Z.ones 8). rewrite !Z.land_ones, Z.shiftr_div_pow2 by lia. zlia.
Qed.

(** ** The time stamp counter *)

(** Where the processor gives the frequency of its crystal, the frequency is the one its documentation defines, rounded down, and the local
    APIC gets the period of the crystal in picoseconds. *)
Theorem TSC_frequency (CPUID : Z -> Z -> CPUInfo.x86_64_CPUIDResult) (info : CPUInfo.x86_64_CPUInfo) (lapic : option LocalAPIC.lapic) :
  CPUInfo.vendor info = CPUInfo.VENDOR_INTEL -> 21 <= CPUInfo.maxCPUID info ->
  0 < CPUInfo.EAX (CPUID 21 0) < 2 ^ 32 -> 0 < CPUInfo.EBX (CPUID 21 0) < 2 ^ 32 -> 0 < CPUInfo.ECX (CPUID 21 0) < 2 ^ 32 ->
  x86_64_TSCNativeGetFrequency CPUID info lapic =
    (CPUInfo.ECX (CPUID 21 0) * CPUInfo.EBX (CPUID 21 0) / CPUInfo.EAX (CPUID 21 0),
     LocalAPIC.set_timerPeriod (1000000000000 / CPUInfo.ECX (CPUID 21 0)) <$> lapic).
Proof.
  intros Hv Hm Ha Hb Hc. unfold x86_64_TSCNativeGetFrequency. rewrite bool_decide_eq_true_2 by done. rewrite (proj2 (Z.ltb_ge _ _)) by lia.
  cbn [negb orb]. cbv zeta. rewrite (proj2 (Z.eqb_neq (CPUInfo.EAX _) _)), (proj2 (Z.eqb_neq (CPUInfo.EBX _) _)), (proj2 (Z.eqb_neq (CPUInfo.ECX _) _)) by lia.
  cbn [orb andb]. rewrite (proj2 (Z.eqb_neq (CPUInfo.ECX _) _)) by lia. rewrite mul64_small; [done|].
  change W64 with (2 ^ 32 * 2 ^ 32). nia.
Qed.

(** A processor of 2.2 GHz that does not give the frequency of its crystal: the product in 32 bits overflows, and the frequency comes out as 52.5 MHz. *)
Theorem TSC_crystal_overflow (info : CPUInfo.x86_64_CPUInfo) :
  CPUInfo.vendor info = CPUInfo.VENDOR_INTEL -> 22 <= CPUInfo.maxCPUID info ->
  fst (x86_64_TSCNativeGetFrequency (fun leaf _ => if leaf =? 21 then CPUInfo.mkCPUID 2 184 0 0 else CPUInfo.mkCPUID 2200 0 0 0) info None) = 52516268 /\
  2200 * 1000000 * 2 / 184 * 184 / 2 = 2199999956.
Proof.
  intros Hv Hm. split; [|reflexivity]. unfold x86_64_TSCNativeGetFrequency. rewrite bool_decide_eq_true_2 by done.
  rewrite (proj2 (Z.ltb_ge _ _)), (proj2 (Z.leb_le _ _)) by lia. reflexivity.
Qed.

End Timer.
