(* ===== verification/ACPI.v ===== *)
(** * ACPI.v: the tables of the firmware (MADT.cpp, MCFG.cpp, HPET.cpp, FADT.cpp, Init.cpp and uACPIAPI.cpp in src/kernel/src/HAL/ACPI)

    The interpreter of the tables, uACPI, and its descriptions of their structures are not part of the kernel's sources. How the bytes at an address are an
    entry of a table is a parameter of the model; a status that is no error is [true].

    Shown: the walk over the entries of the MADT ends and collects them in order when the lengths of the entries add up, and never ends at an
    entry of length zero; what each local APIC is told of its pins; the address of a register in the configuration space of PCI lies in
    the pages that are mapped for it and no two registers share one; the pages that are mapped for uACPI cover what it asked for. *)

From S2P Require Import Prelude PMM PageMapper Descriptors Time IOAPIC IRQ LocalAPIC.

#[local] Open Scope Z_scope.
#[local] Open Scope kernel_scope.

Module ACPI.

(** ** MADT.cpp *)

Record acpi_madt_lapic : Set := mkLapic { uid : Z; lapic_id : Z; lapic_flags : Z }.
Record acpi_madt_ioapic : Set := mkIoapic { ioapic_address : Z; gsi_base : Z }.
Record acpi_madt_interrupt_source_override : Set := mkISO { iso_source : Z; iso_gsi : Z; iso_flags : Z }.
Record acpi_madt_nmi_source : Set := mkNMISource { nmi_flags : Z; nmi_gsi : Z }.
Record acpi_madt_lapic_nmi : Set := mkLNMI { lnmi_uid : Z; lnmi_flags : Z; lint : Z }.

(** An entry, by its type. *)
Inductive entry : Set :=
  | E_LAPIC (e : acpi_madt_lapic)
  | E_IOAPIC (e : acpi_madt_ioapic)
  | E_INTERRUPT_SOURCE_OVERRIDE (e : acpi_madt_interrupt_source_override)
  | E_NMI_SOURCE (e : acpi_madt_nmi_source)
  | E_LAPIC_NMI (e : acpi_madt_lapic_nmi)
  | E_LAPIC_ADDRESS_OVERRIDE (address : Z)
  | E_OTHER.

(** The table: its length, the size of what comes before the entries, their address, and what there is at an address. *)
Record acpi_madt : Type := mkMADT {
  hdr_length : Z;
  sizeof_madt : Z;
  entries : Z;
  entry_at : Z -> entry;
  length_at : Z -> Z
}.

(** The local variables of [InitMADT]. *)
Record collected : Set := mkCollected {
  LAPICBase : Z;
  lapics : list acpi_madt_lapic;
  ioapics : list acpi_madt_ioapic;
  ISOs : list acpi_madt_interrupt_source_override;
  NMIs : list acpi_madt_nmi_source;
  LNMIs : list acpi_madt_lapic_nmi
}.
Definition nothing : collected := mkCollected 0 [] [] [] [] [].

(** The [switch]; lists are appended to. *)
Definition collect (e : entry) (c : collected) : collected :=
  match e with
  | E_LAPIC e =>
      if negb (Z.land (lapic_flags e) 1 =? 0)
      then mkCollected (LAPICBase c) (lapics c ++ [e]) (ioapics c) (ISOs c) (NMIs c) (LNMIs c) else c
  | E_IOAPIC e => mkCollected (LAPICBase c) (lapics c) (ioapics c ++ [e]) (ISOs c) (NMIs c) (LNMIs c)
  | E_INTERRUPT_SOURCE_OVERRIDE e => mkCollected (LAPICBase c) (lapics c) (ioapics c) (ISOs c ++ [e]) (NMIs c) (LNMIs c)
  | E_NMI_SOURCE e => mkCollected (LAPICBase c) (lapics c) (ioapics c) (ISOs c) (NMIs c ++ [e]) (LNMIs c)
  | E_LAPIC_NMI e => mkCollected (LAPICBase c) (lapics c) (ioapics c) (ISOs c) (NMIs c) (LNMIs c ++ [e])
  | E_LAPIC_ADDRESS_OVERRIDE a => mkCollected a (lapics c) (ioapics c) (ISOs c) (NMIs c) (LNMIs c)
  | E_OTHER => c
  end.

(** The [while] loop. *)
Fixpoint walk (fuel : nat) (t : acpi_madt) (current_size e : Z) (c : collected) : option collected :=
  match fuel with
  | O => None
  | S fuel' =>
      if current_size <? hdr_length t
      then walk fuel' t (add64 current_size (length_at t e)) (add64 e (length_at t e)) (collect (entry_at t e) c)
      else Some c
  end.

Section MADT.
(** What the flags of an entry say: [ACPI_MADT_POLARITY_ACTIVE_LOW] and [ACPI_MADT_TRIGGERING_LEVEL] under their masks. *)
Context (active_low level : Z -> bool).

Definition add_NMI (table : acpi_madt_lapic) (n : acpi_madt_lapic_nmi) : M LocalAPIC.lapic unit :=
  whenM ((lnmi_uid n =? 255) || (lnmi_uid n =? uid table))
    (LocalAPIC.AddNMISource (lint n) (active_low (lnmi_flags n)) (level (lnmi_flags n))).
Fixpoint add_NMIs (table : acpi_madt_lapic) (ns : list acpi_madt_lapic_nmi) : M LocalAPIC.lapic unit :=
  match ns with [] => ret tt | n :: ns' => add_NMI table n ;;; add_NMIs table ns' end.

(** The body of the loop over the local APICs, for a new object. *)
Definition init_lapic (e : LocalAPIC.surroundings) (fuel : nat) (c : collected) (table : acpi_madt_lapic) (BSP : bool) : M LocalAPIC.lapic unit :=
  whenM (negb (LAPICBase c =? 0)) (LocalAPIC.SetAddressOverride e (LAPICBase c)) ;;;
  add_NMIs table (LNMIs c) ;;;
  LocalAPIC.Init e fuel BSP.

(** All registers are those of the processor that runs, whose writes and reads so far are [ws] and [rs]; [around] gives what the kernel gives
    for each processor, and the objects are returned. *)
Fixpoint init_lapics (around : acpi_madt_lapic -> LocalAPIC.surroundings) (fuel : nat) (dev : list (Z * Z) -> nat -> Z -> Z) (CurrentLAPICID : Z)
    (c : collected) (tables : list acpi_madt_lapic) (ws : list (Z * Z)) (rs : nat) : result (list LocalAPIC.lapic) :=
  match tables with
  | [] => Ok []
  | table :: tables' =>
      let BSP := CurrentLAPICID =? lapic_id table in
      match init_lapic (around table) fuel c table BSP (LocalAPIC.LAPIC_new BSP (lapic_id table) 0 0 dev ws rs) with
      | Fail f => Fail f
      | Ok (_, l) =>
          match init_lapics around fuel dev CurrentLAPICID c tables' (LocalAPIC.writes l) (LocalAPIC.reads l) with
          | Fail f => Fail f
          | Ok ls => Ok (l :: ls)
          end
      end
  end.

Context {D : Type} `{!IOAPIC.Device D} (g_HHDMOffset : Z) (chip_at : Z -> D).

Fixpoint init_ioapics (l : list acpi_madt_ioapic) : M (IRQ.machine D) unit :=
  match l with
  | [] => ret tt
  | t :: l' =>
      let address := PMM.to_HHDM g_HHDMOffset (ioapic_address t) in
      IRQ.IOAPIC_Init (IOAPIC.IOAPIC_new address (gsi_base t) (chip_at address)) ;;;
      init_ioapics l'
  end.

Fixpoint redirect (l : list acpi_madt_interrupt_source_override) : M (IRQ.machine D) unit :=
  match l with
  | [] => ret tt
  | i :: l' => IRQ.x86_64_IOAPIC_SetRedirection (iso_source i) (iso_gsi i) (active_low (iso_flags i)) (level (iso_flags i)) ;;; redirect l'
  end.

(** What follows the loops over the table, once the local APICs are up. *)
Definition init_chips (c : collected) : M (IRQ.machine D) unit :=
  if bool_decide (ioapics c = []) then fail AssertionFailed else
  init_ioapics (ioapics c) ;;;
  redirect (ISOs c).

(** [InitMADT] with the table uACPI finds; [None] when it finds none. *)
Definition InitMADT (table : option acpi_madt) (around : acpi_madt_lapic -> LocalAPIC.surroundings) (fuel : nat)
    (dev : list (Z * Z) -> nat -> Z -> Z) (CurrentLAPICID : Z) : M (IRQ.machine D) (option (list LocalAPIC.lapic)) :=
  match table with
  | None => ret None
  | Some t =>
      match walk fuel t (sizeof_madt t) (entries t) nothing with
      | None => fail OutOfFuel
      | Some c =>
          match init_lapics around fuel dev CurrentLAPICID c (lapics c) [] 0 with
          | Fail f => fail f
          | Ok ls => init_chips c ;;; ret (Some ls)
          end
      end
  end.
End MADT.

(** ** MCFG.cpp *)

Record acpi_mcfg_allocation : Set := mkAlloc { address : Z; segment : Z; start_bus : Z; end_bus : Z }.

Record acpi_mcfg : Type := mkMCFG {
  mcfg_length : Z;
  sizeof_mcfg : Z;
  sizeof_allocation : Z;
  mcfg_entries : Z;
  alloc_at : Z -> acpi_mcfg_allocation
}.

(** The list of allocations, what has been mapped (virtual and physical address, number of pages), and the accesses of the configuration space:
    address, width in bytes, value. *)
Record pci : Type := mkPCI {
  g_MCFGAllocations : list acpi_mcfg_allocation;
  mapped : list (Z * Z * Z);
  space : Z -> Z -> Z;
  written : list (Z * Z * Z)
}.

Section MCFG.
Context (g_HHDMOffset : Z).
Notation to_HHDM := (PMM.to_HHDM g_HHDMOffset).

(** The product is an [int]; an end below the start gives a negative one. *)
Definition mapSize (a : acpi_mcfg_allocation) : Z :=
  wrap64 (address a mod PAGE_SIZE + 4096 * 8 * 32 * (end_bus a - start_bus a + 1)).

Definition add_allocation (a : acpi_mcfg_allocation) : M pci unit :=
  let phys := ALIGN_DOWN (address a) PAGE_SIZE in
  modify (fun p => mkPCI (g_MCFGAllocations p ++ [a]) (mapped p ++ [(to_HHDM phys, phys, DIV_ROUNDUP (mapSize a) PAGE_SIZE)])
    (space p) (written p)).

Fixpoint walk_MCFG (fuel : nat) (t : acpi_mcfg) (current_size e : Z) : M pci unit :=
  match fuel with
  | O => fail OutOfFuel
  | S fuel' =>
      if current_size <? mcfg_length t then
        add_allocation (alloc_at t e) ;;;
        walk_MCFG fuel' t (add64 current_size (sizeof_allocation t)) (add64 e (sizeof_allocation t))
      else ret tt
  end.

Definition InitMCFG (table : option acpi_mcfg) (fuel : nat) : M pci bool :=
  match table with
  | None => ret false
  | Some t => walk_MCFG fuel t (sizeof_mcfg t) (mcfg_entries t) ;;; ret true
  end.

Fixpoint GetMCFGAlloc (seg bus : Z) (l : list acpi_mcfg_allocation) : option acpi_mcfg_allocation :=
  match l with
  | [] => None
  | a :: l' => if (segment a =? seg) && (start_bus a <=? bus) && (bus <=? end_bus a) then Some a else GetMCFGAlloc seg bus l'
  end.

Definition MCFG_Validate (seg bus : Z) : M pci bool :=
  gets (fun p => match GetMCFGAlloc seg bus (g_MCFGAllocations p) with Some _ => true | None => false end).

(** The sum in the reads and writes; the operands of [|] are converted to [uint32_t]. *)
Definition config_address (a : acpi_mcfg_allocation) (bus device function offset : Z) : Z :=
  add64 (to_HHDM (address a))
    (Z.lor (Z.lor (Z.lor (u32 (Z.shiftl (bus - start_bus a) 20)) (Z.shiftl device 15)) (Z.shiftl function 12)) offset).

(** [MCFG_Read8], [MCFG_Read16] and [MCFG_Read32] by the number of bytes, [None] for their [false]; [out] says whether the pointer is not null. *)
Definition MCFG_Read (width : Z) (out : bool) (seg bus device function offset : Z) : M pci (option Z) :=
  if negb out then ret None else
  gets (fun p => match GetMCFGAlloc seg bus (g_MCFGAllocations p) with
                 | None => None
                 | Some a => Some (space p width (config_address a bus device function offset))
                 end).
Definition MCFG_Read8 := MCFG_Read 1.
Definition MCFG_Read16 := MCFG_Read 2.
Definition MCFG_Read32 := MCFG_Read 4.

Definition MCFG_Write (width data seg bus device function offset : Z) : M pci bool :=
  let* l := gets g_MCFGAllocations in
  match GetMCFGAlloc seg bus l with
  | None => ret false
  | Some a =>
      modify (fun p => mkPCI (g_MCFGAllocations p) (mapped p) (space p)
        (written p ++ [(config_address a bus device function offset, width, data)])) ;;;
      ret true
  end.
Definition MCFG_Write8 := MCFG_Write 1.
Definition MCFG_Write16 := MCFG_Write 2.
Definition MCFG_Write32 := MCFG_Write 4.
End MCFG.

(** ** HPET.cpp and FADT.cpp *)

(** [InitHPET] with the space of the address the table gives, whether the page could be mapped, and the period the chip shows; an assertion of
    [HPET::Init] fails when the period is below a nanosecond. The previous [g_HPET] stays on failure. *)
Definition InitHPET (table : option Z) (page : bool) (period : Z) (g_HPET : option Time.HPET) : result (bool * option Time.HPET) :=
  match table with
  | None => Ok (false, g_HPET)
  | Some address_space_id =>
      if negb (address_space_id =? 0) then Ok (false, g_HPET) else
      if negb page then Ok (false, g_HPET) else
      match Time.HPET_Init period with
      | None => Fail AssertionFailed
      | Some h => Ok (true, Some h)
      end
  end.

(** [InitFADT] with whether the table says that there is no clock, and the register of the century. *)
Definition InitFADT (table : option (bool * Z)) : M Time.clock bool :=
  match table with
  | None => ret false
  | Some (no_CMOS_RTC, century) => whenM (negb no_CMOS_RTC) (Time.InitCMOS century) ;;; ret true
  end.

(** The waits of the start of processors, in order. *)
Fixpoint sleeps (fuel : nat) (acts : list (nat * LocalAPIC.action)) : M Time.timer unit :=
  match acts with
  | [] => ret tt
  | (_, LocalAPIC.SleepNS ns) :: acts' => Time.HAL_SleepNS fuel ns ;;; sleeps fuel acts'
  | _ :: acts' => sleeps fuel acts'
  end.

(** ** uACPIAPI.cpp *)

Inductive uacpi_status : Set := UACPI_STATUS_OK | UACPI_STATUS_INVALID_ARGUMENT | UACPI_STATUS_NOT_FOUND | UACPI_STATUS_INTERNAL_ERROR.

(** The pages from [i] to [end_] that are mapped, with their addresses and the flags. *)
Fixpoint map_pages (fuel : nat) (g_HHDMOffset i end_ : Z) : option (list (Z * Z * Z)) :=
  match fuel with
  | O => None
  | S fuel' =>
      if i <? end_
      then cons (PMM.to_HHDM g_HHDMOffset i, i, 134217731) <$> map_pages fuel' g_HHDMOffset (add64 i PAGE_SIZE) end_
      else Some []
  end.
Definition uacpi_kernel_map (fuel : nat) (g_HHDMOffset phys_addr size : Z) : option (list (Z * Z * Z) * Z) :=
  let start := ALIGN_DOWN phys_addr PAGE_SIZE in
  let end_ := ALIGN_UP (add64 phys_addr size) PAGE_SIZE in
  (fun ps => (ps, PMM.to_HHDM g_HHDMOffset phys_addr)) <$> map_pages fuel g_HHDMOffset start end_.

Record uacpi_pci_address : Set := mkAddress { pa_segment : Z; pa_bus : Z; pa_device : Z; pa_function : Z }.

Section PCI.
Context (g_HHDMOffset : Z).

Definition uacpi_kernel_pci_device_open (a : uacpi_pci_address) : M pci (uacpi_status * option uacpi_pci_address) :=
  let* ok := MCFG_Validate (pa_segment a) (pa_bus a) in
  ret (if negb ok then (UACPI_STATUS_NOT_FOUND, None) else (UACPI_STATUS_OK, Some a)).

(** The offset is a [size_t] and becomes a [uint32_t]. *)
Definition pci_read (width : Z) (a : uacpi_pci_address) (offset : Z) (out : bool) : M pci (uacpi_status * option Z) :=
  let* r := MCFG_Read g_HHDMOffset width out (pa_segment a) (pa_bus a) (pa_device a) (pa_function a) (u32 offset) in
  ret (match r with Some v => (UACPI_STATUS_OK, Some v) | None => (UACPI_STATUS_INVALID_ARGUMENT, None) end).
Definition uacpi_kernel_pci_read8 := pci_read 1.
Definition uacpi_kernel_pci_read16 := pci_read 2.
Definition uacpi_kernel_pci_read32 := pci_read 4.

Definition pci_write (width : Z) (a : uacpi_pci_address) (offset value : Z) : M pci uacpi_status :=
  let* ok := MCFG_Write g_HHDMOffset width value (pa_segment a) (pa_bus a) (pa_device a) (pa_function a) (u32 offset) in
  ret (if ok then UACPI_STATUS_OK else UACPI_STATUS_INVALID_ARGUMENT).
Definition uacpi_kernel_pci_write8 := pci_write 1.
Definition uacpi_kernel_pci_write16 := pci_write 2.
Definition uacpi_kernel_pci_write32 := pci_write 4.
End PCI.

(** Ports: the start and the length of a range, and the port of an access, a [uint16_t]. *)
Record uACPIAPI_IOHandle : Set := mkIO { io_start : Z; io_length : Z }.
Definition io_port (h : uACPIAPI_IOHandle) (offset : Z) : Z := add64 (io_start h) offset mod 2 ^ 16.

(** The loop of [uacpi_kernel_stall] and [uacpi_kernel_sleep]. *)
Fixpoint wait_ns (fuel : nat) (start nsec : Z) : M Time.timer unit :=
  match fuel with
  | O => fail OutOfFuel
  | S fuel' => let* now := Time.HAL_GetNSTicks in if sub64 now start <? nsec then wait_ns fuel' start nsec else ret tt
  end.
Definition uacpi_kernel_stall (fuel : nat) (usec : Z) : M Time.timer unit :=
  let* start := Time.HAL_GetNSTicks in wait_ns fuel start (usec * 1000).
Definition uacpi_kernel_sleep (fuel : nat) (msec : Z) : M Time.timer unit :=
  let* start := Time.HAL_GetNSTicks in wait_ns fuel start (mul64 msec 1000000).

Section Handlers.
Context {D : Type} `{!IOAPIC.Device D}.
Definition uacpi_kernel_install_interrupt_handler (data irq handler ctx : Z) : M (IRQ.machine D) (uacpi_status * option Z) :=
  let* d := IRQ.HAL_RegisterIntHandler data irq handler ctx in
  ret (if d =? 0 then (UACPI_STATUS_INTERNAL_ERROR, None) else (UACPI_STATUS_OK, Some d)).
Definition uacpi_kernel_uninstall_interrupt_handler (irq_handle : Z) : M (IRQ.machine D) uacpi_status :=
  let* ok := IRQ.HAL_RemoveIntHandler irq_handle in
  ret (if ok then UACPI_STATUS_OK else UACPI_STATUS_INTERNAL_ERROR).
End Handlers.

(** ** The walk over the MADT *)

(** The entries that lie one after the other from an address, with their lengths. *)
Fixpoint laid_out (t : acpi_madt) (a : Z) (es : list (entry * Z)) : Prop :=
  match es with
  | [] => True
  | (x, n) :: es' => entry_at t a = x /\ length_at t a = n /\ 0 < n /\ laid_out t (a + n) es'
  end.
Definition total (es : list (entry * Z)) : Z := foldr (fun e n => snd e + n) 0 es.

(** What the entries say, in their order. *)
Definition enabled (e : entry) : option acpi_madt_lapic :=
  match e with E_LAPIC e => if Z.testbit (lapic_flags e) 0 then Some e else None | _ => None end.
Definition summary (es : list entry) : collected :=
  mkCollected
    (default 0 (last (omap (fun e => match e with E_LAPIC_ADDRESS_OVERRIDE a => Some a | _ => None end) es)))
    (omap enabled es)
    (omap (fun e => match e with E_IOAPIC e => Some e | _ => None end) es)
    (omap (fun e => match e with E_INTERRUPT_SOURCE_OVERRIDE e => Some e | _ => None end) es)
    (omap (fun e => match e with E_NMI_SOURCE e => Some e | _ => None end) es)
    (omap (fun e => match e with E_LAPIC_NMI e => Some e | _ => None end) es).

Lemma land_1_testbit x : negb (Z.land x 1 =? 0) = Z.testbit x 0.
Proof. rewrite Z.bit0_odd. change 1 with (Z.ones 1). rewrite Z.land_ones by lia. change (2 ^ 1) with 2. rewrite Zmod_odd. by destruct (Z.odd x). Qed.

Lemma summary_snoc es e : summary (es ++ [e]) = collect e (summary es).
Proof.
  unfold summary. rewrite !omap_app. destruct e as [l|i|o|n|n|a|]; cbn [omap list_omap enabled collect]; rewrite ?app_nil_r; try done.
  - rewrite land_1_testbit. destruct (Z.testbit (lapic_flags l) 0); by rewrite ?app_nil_r.
  - by rewrite last_snoc.
Qed.

Lemma walk_spec t es : forall fuel cur a pre, laid_out t a es -> cur + total es = hdr_length t -> 0 <= cur -> hdr_length t < W64 ->
  0 <= a -> a + total es < W64 -> (length es < fuel)%nat ->
  walk fuel t cur a (summary pre) = Some (summary (pre ++ es.*1)).
Proof.
  assert (Hpos : forall a es, laid_out t a es -> 0 <= total es).
  { intros a es'. revert a. induction es' as [|[x n] es' IH]; intros a; cbn; [lia|]. intros (_ & _ & Hn & Hl). specialize (IH _ Hl). unfold total in *. cbn. lia. }
  induction es as [|[x n] es IH]; intros [|fuel] cur a pre Hl Hc H0 Hw Ha Hb Hf; cbn [length] in Hf; try lia; cbn [walk fmap list_fmap fst].
  - rewrite (proj2 (Z.ltb_ge _ _)), app_nil_r by (cbn in *; lia). done.
  - cbn in Hl. destruct Hl as (Hx & Hn & Hpn & Hl). pose proof (Hpos _ _ Hl). change (total ((x, n) :: es)) with (n + total es) in *.
    rewrite (proj2 (Z.ltb_lt _ _)), Hn, Hx, <- summary_snoc by lia. rewrite !add64_small by lia.
    rewrite (IH fuel (cur + n) (a + n) (pre ++ [x])); [by rewrite <- app_assoc|done|lia..].
Qed.

(** The walk over a table whose entries, each of at least one byte, fill it: it ends after as many rounds as there are entries, and has collected every enabled
    local APIC, every I/O APIC, every override and every pin for non-maskable interrupts once, in the order of the table, and the last address for the registers. *)
Theorem MADT_walk_collects (t : acpi_madt) (es : list (entry * Z)) (fuel : nat) :
  laid_out t (entries t) es -> sizeof_madt t + total es = hdr_length t -> 0 <= sizeof_madt t -> hdr_length t < W64 ->
  0 <= entries t -> entries t + total es < W64 -> (length es < fuel)%nat ->
  walk fuel t (sizeof_madt t) (entries t) nothing = Some (summary (es.*1)).
Proof. intros. by apply (walk_spec t es fuel _ _ []). Qed.

(** At an entry of length zero the walk never ends, however the rest of the table is. *)
Theorem MADT_walk_endless (t : acpi_madt) (fuel : nat) (cur a : Z) (c : collected) :
  length_at t a = 0 -> 0 <= cur < hdr_length t -> hdr_length t < W64 -> 0 <= a < W64 -> walk fuel t cur a c = None.
Proof.
  intros Hn Hc Hw Ha. revert c. induction fuel as [|fuel IH]; intros c; [done|]. cbn [walk]. rewrite (proj2 (Z.ltb_lt _ _)) by lia.
  rewrite Hn, !add64_small, !Z.add_0_r by lia. apply IH.
Qed.

(** ** The pins of the local APICs *)

Section Pins.
Context (active_low level : Z -> bool) (table : acpi_madt_lapic).

(** The entries for this processor and a pin. *)
Definition pin_entries (i : Z) (ns : list acpi_madt_lapic_nmi) : list acpi_madt_lapic_nmi :=
  filter (fun n => (lnmi_uid n = 255 \/ lnmi_uid n = uid table) /\ lint n = i) ns.
Definition pin (i : Z) (ns : list acpi_madt_lapic_nmi) : LocalAPIC.NMISource :=
  match last (pin_entries i ns) with
  | Some n => LocalAPIC.mkNMI true (active_low (lnmi_flags n)) (level (lnmi_flags n))
  | None => LocalAPIC.mkNMI false false false
  end.

Lemma pin_snoc i ns n : pin i (ns ++ [n]) =
  if decide ((lnmi_uid n = 255 \/ lnmi_uid n = uid table) /\ lint n = i)
  then LocalAPIC.mkNMI true (active_low (lnmi_flags n)) (level (lnmi_flags n)) else pin i ns.
Proof.
  unfold pin, pin_entries. rewrite filter_app, filter_cons. destruct (decide _); rewrite filter_nil; [by rewrite last_snoc|by rewrite app_nil_r].
Qed.

Lemma add_NMIs_runs ns : forall pre l, Forall (fun n => 0 <= lint n) ns -> LocalAPIC.m_NMISources l = [pin 0 pre; pin 1 pre] ->
  runs (add_NMIs active_low level table ns) l (fun _ l' => l' = LocalAPIC.set_NMISources [pin 0 (pre ++ ns); pin 1 (pre ++ ns)] l).
Proof.
  induction ns as [|n ns IH]; intros pre l Hns Hl; cbn [add_NMIs].
  { mstep. rewrite app_nil_r, <- Hl. by destruct l. }
  apply Forall_cons in Hns as [Hn Hns]. mstep. apply (runs_eq _ _ tt (LocalAPIC.set_NMISources [pin 0 (pre ++ [n]); pin 1 (pre ++ [n])] l)).
  - assert (Hsame : LocalAPIC.set_NMISources [pin 0 pre; pin 1 pre] l = l) by (rewrite <- Hl; by destruct l).
    unfold add_NMI, LocalAPIC.AddNMISource. rewrite !pin_snoc.
    destruct (decide (lnmi_uid n = 255 \/ lnmi_uid n = uid table)) as [Hu|Hu].
    + rewrite (proj2 (orb_true_iff _ _)) by (rewrite !Z.eqb_eq; exact Hu). cbn [whenM].
      destruct (Z.ltb_spec 1 (lint n)) as [Hlt|Hle].
      * rewrite !decide_False by lia. by rewrite Hsame.
      * unfold modify. rewrite Hl. destruct (decide (lint n = 0)) as [E|E].
        -- rewrite E, (decide_True (P := _ /\ 0 = 0)), (decide_False (P := _ /\ 0 = 1)) by lia. reflexivity.
        -- assert (lint n = 1) as -> by lia. rewrite (decide_True (P := _ /\ 1 = 1)), (decide_False (P := _ /\ 1 = 0)) by lia. reflexivity.
    + rewrite (proj2 (orb_false_iff _ _)) by (rewrite !Z.eqb_neq; split; tauto). cbn [whenM]. rewrite !decide_False by tauto. by rewrite Hsame.
  - eapply runs_mono; [apply (IH (pre ++ [n])); [done|reflexivity]|]. intros _ l' ->. rewrite <- app_assoc. by destruct l.
Qed.

(** A local APIC is told for each of its two pins what the last entry for its processor, or for all of them, says, and that the pin is not in use when there is none. *)
Theorem MADT_pins (ns : list acpi_madt_lapic_nmi) (BSP : bool) (ID : Z) dev ws rs : Forall (fun n => 0 <= lint n) ns ->
  runs (add_NMIs active_low level table ns) (LocalAPIC.LAPIC_new BSP ID 0 0 dev ws rs) (fun _ l' =>
    LocalAPIC.m_NMISources l' = [pin 0 ns; pin 1 ns] /\ LocalAPIC.m_ID l' = ID /\ LocalAPIC.writes l' = ws).
Proof. intros Hns. eapply runs_mono; [by apply (add_NMIs_runs ns [])|]. by intros _ l' ->. Qed.
End Pins.

(** ** The overrides *)

Section Overrides.
Context {D : Type} `{!IOAPIC.Device D} (active_low level : Z -> bool).
Implicit Types a : IOAPIC.ioapic D.
Implicit Types m : IRQ.machine D.

(** An access of a register ends and changes nothing but the chip. *)
Definition touches {A} (f : M (IOAPIC.ioapic D) A) : Prop := forall a, runs f a (fun _ a' => exists d, a' = IOAPIC.set_chip d a).

Lemma touches_bind {A B} (f : M (IOAPIC.ioapic D) A) (g : A -> M (IOAPIC.ioapic D) B) : touches f -> (forall x, touches (g x)) -> touches (bind f g).
Proof.
  intros Hf Hg a. mstep. eapply runs_mono; [apply Hf|]. intros x ? (d & ->). eapply runs_mono; [apply Hg|]. intros y ? (d' & ->). by exists d'.
Qed.
Lemma touches_ret {A} (x : A) : touches (ret x).
Proof. intros a. mstep. exists (IOAPIC.chip a). by destruct a. Qed.
Lemma touches_gets {A} (f : IOAPIC.ioapic D -> A) : touches (gets f).
Proof. intros a. mstep. exists (IOAPIC.chip a). by destruct a. Qed.
Lemma touches_write off v : touches (IOAPIC.mmio_write off v).
Proof. intros a. unfold IOAPIC.mmio_write. mstep. eauto. Qed.

Lemma touches_update index (f : IOAPIC.x86_64_IOAPIC_RedirectionEntry -> IOAPIC.x86_64_IOAPIC_RedirectionEntry) :
  touches (let* base := gets IOAPIC.GetGSIBase in
           let* e := IOAPIC.GetRedirectionEntry (index base) in IOAPIC.SetRedirectionEntry (index base) (f e)).
Proof.
  assert (Hr : forall r, touches (IOAPIC.ReadRegister r)).
  { intros r. unfold IOAPIC.ReadRegister, IOAPIC.mmio_read. repeat (apply touches_bind; [|intros ?]); auto using touches_gets, touches_write. }
  assert (Hw : forall r v, touches (IOAPIC.WriteRegister r v)).
  { intros r v. unfold IOAPIC.WriteRegister, IOAPIC.mmio_read. repeat (apply touches_bind; [|intros ?]); auto using touches_gets, touches_write. }
  apply touches_bind; [apply touches_gets|intros base]. apply touches_bind; [|intros e].
  - unfold IOAPIC.GetRedirectionEntry. apply touches_bind; [apply touches_gets|intros mx]. destruct (_ <? _); [apply touches_ret|].
    repeat (apply touches_bind; [apply Hr|intros ?]). apply touches_ret.
  - unfold IOAPIC.SetRedirectionEntry. apply touches_bind; [apply touches_gets|intros mx]. destruct (_ <? _); [apply touches_ret|].
    apply touches_bind; [apply Hw|intros _]. apply Hw.
Qed.

(** The chip of an interrupt is found by what does not change. *)
Lemma find_same g p a d (l : list (IOAPIC.ioapic D)) : l !! p = Some a -> forall i,
  IOAPIC.find_ioapic i g (<[p := IOAPIC.set_chip d a]> l) = IOAPIC.find_ioapic i g l.
Proof.
  revert p. induction l as [|b l IH]; intros [|p] Hp i; cbn in *; [done..| |].
  - by injection Hp as ->.
  - by rewrite IH.
Qed.
Lemma find_is_there g (l : list (IOAPIC.ioapic D)) : forall i p, IOAPIC.find_ioapic i g l = Some p -> exists k a, p = (i + k)%nat /\ l !! k = Some a.
Proof.
  induction l as [|b l IH]; intros i p; cbn; [done|]. destruct (_ && _); [intros [= <-]; exists 0%nat, b; split; [lia|done]|].
  intros Hf. destruct (IH _ _ Hf) as (k & a & -> & Ha). exists (S k), a. split; [lia|done].
Qed.

Definition served m (i : acpi_madt_interrupt_source_override) : Prop := IOAPIC.x86_64_GetIOAPICForGSI (iso_gsi i) (IRQ.g_IOAPICs m) <> None.

Lemma SetRedirection_runs m i : served m i ->
  runs (IRQ.x86_64_IOAPIC_SetRedirection (iso_source i) (iso_gsi i) (active_low (iso_flags i)) (level (iso_flags i))) m (fun _ m' =>
    IRQ.g_IRQRedirections m' = IOAPIC.x86_64_SetGSIRedirection (iso_source i) (iso_gsi i) (IRQ.g_IRQRedirections m) /\
    forall j, served m j -> served m' j).
Proof.
  intros Hs. unfold IRQ.x86_64_IOAPIC_SetRedirection, IRQ.ioapic_for. do 2 mstep. cbn beta.
  destruct (IOAPIC.x86_64_GetIOAPICForGSI (iso_gsi i) (IRQ.g_IOAPICs m)) as [p|] eqn:Ep; [|done].
  destruct (find_is_there _ _ _ _ Ep) as (k & a & -> & Ha). cbn [Nat.add] in *.
  mstep. unfold IRQ.update_entry.
  match goal with |- runs (IRQ.on_ioapic _ ?f) _ _ => assert (Ht : touches f) by apply (touches_update (fun base => u32 (iso_gsi i - base))) end.
  destruct (Ht a) as ([] & a' & Hr & d & ->). eapply runs_eq; [unfold IRQ.on_ioapic; rewrite Ha, Hr; reflexivity|].
  mstep. split; [done|]. intros j Hj. unfold served in *. cbn. unfold IOAPIC.x86_64_GetIOAPICForGSI. by rewrite find_same.
Qed.

(** The overrides of interrupts that some chip has: afterwards a legacy interrupt is the one its first override names that differs from it,
    and itself when there is none. *)
Theorem MADT_redirects (l : list acpi_madt_interrupt_source_override) (m : IRQ.machine D) :
  Forall (served m) l -> IRQ.g_IRQRedirections m = [] ->
  runs (redirect active_low level l) m (fun _ m' => forall src, IOAPIC.x86_64_GetGSIFromSource src (IRQ.g_IRQRedirections m') =
    default src (iso_gsi <$> head (filter (fun i => iso_source i = src /\ iso_gsi i <> src) l))).
Proof.
  intros Hl Hm. assert (Hgen : runs (redirect active_low level l) m (fun _ m' => IRQ.g_IRQRedirections m' = IRQ.g_IRQRedirections m ++
    ((fun i => IOAPIC.mkRedirection (iso_source i) (iso_gsi i)) <$> filter (fun i => iso_gsi i <> iso_source i) l))).
  { clear Hm. revert m Hl. induction l as [|i l IH]; intros m Hl; cbn [redirect]; [mstep; by rewrite app_nil_r|].
    apply Forall_cons in Hl as [Hi Hl]. mstep. eapply runs_mono; [by apply SetRedirection_runs|]. intros _ m1 [H1 Hs].
    eapply runs_mono; [apply IH; eapply Forall_impl; [exact Hl|apply Hs]|]. intros _ m2 ->. rewrite H1. unfold IOAPIC.x86_64_SetGSIRedirection.
    rewrite filter_cons. destruct (Z.eqb_spec (iso_source i) (iso_gsi i)) as [E|E].
    - rewrite decide_False by (rewrite E; tauto). done.
    - rewrite decide_True by congruence. by rewrite <- app_assoc. }
  eapply runs_mono; [exact Hgen|]. cbn beta. intros _ m' -> src. rewrite Hm, IOAPIC.GetGSIFromSource_spec. cbn [app]. clear.
  induction l as [|i l IH]; [done|]. rewrite !filter_cons. destruct (decide (iso_source i = src)) as [E|E].
  - destruct (decide (iso_gsi i = src)) as [E2|E2].
    + rewrite (decide_False (P := iso_gsi i <> iso_source i)), (decide_False (P := _ /\ _)) by (try tauto; congruence). apply IH.
    + rewrite (decide_True (P := iso_gsi i <> iso_source i)), (decide_True (P := _ /\ _)) by (try tauto; congruence).
      rewrite fmap_cons, filter_cons, decide_True by done. done.
  - rewrite (decide_False (P := _ /\ _)) by tauto. destruct (decide (iso_gsi i <> iso_source i)); [|apply IH].
    rewrite fmap_cons, filter_cons, decide_False by done. apply IH.
Qed.
End Overrides.

(** ** The configuration space *)

Lemma lor_shiftl_low x k y : 0 <= k -> 0 <= y < 2 ^ k -> Z.lor (Z.shiftl x k) y = x * 2 ^ k + y.
Proof.
  intros Hk Hy. rewrite <- Z.shiftl_mul_pow2 by done. symmetry. rewrite Z.add_nocarry_lxor, Z.lxor_lor; [done|..].
  all: apply Z.bits_inj'; intros n Hn; rewrite Z.land_spec, Z.bits_0, Z.shiftl_spec by done;
    destruct (Z.lt_ge_cases n k); [rewrite Z.testbit_neg_r by lia; done|];
    rewrite (LocalAPIC.testbit_outside y k n) by lia; by rewrite andb_false_r.
Qed.

Lemma lor_fields x k y j : 0 <= j <= k -> 0 <= y < 2 ^ (k - j) -> Z.lor (Z.shiftl x k) (Z.shiftl y j) = Z.shiftl (x * 2 ^ (k - j) + y) j.
Proof.
  intros Hj Hy. rewrite <- (lor_shiftl_low x (k - j) y) by lia. rewrite Z.shiftl_lor, Z.shiftl_shiftl by lia. do 2 f_equal. lia.
Qed.

(** A register of a function of a device on a bus. *)
Record location : Set := mkLocation { l_bus : Z; l_device : Z; l_function : Z; l_offset : Z }.
Record valid (a : acpi_mcfg_allocation) (x : location) : Prop := {
  v_bus : start_bus a <= l_bus x <= end_bus a;
  v_device : 0 <= l_device x < 32;
  v_function : 0 <= l_function x < 8;
  v_offset : 0 <= l_offset x < 4096
}.
(** An allocation as firmware gives it: buses are bytes, and the space lies below the end of memory, also in the direct map. *)
Record sane (g_HHDMOffset : Z) (a : acpi_mcfg_allocation) : Prop := {
  s_buses : 0 <= start_bus a <= end_bus a;
  s_bytes : end_bus a < 256;
  s_address : 0 <= address a;
  s_offset : 0 <= g_HHDMOffset;
  s_room : address a + 2 ^ 28 + g_HHDMOffset + 2 * PAGE_SIZE < W64
}.

Definition linear (a : acpi_mcfg_allocation) (x : location) : Z :=
  (l_bus x - start_bus a) * 2 ^ 20 + l_device x * 2 ^ 15 + l_function x * 2 ^ 12 + l_offset x.

Lemma config_address_linear h a x : sane h a -> valid a x ->
  config_address h a (l_bus x) (l_device x) (l_function x) (l_offset x) = address a + h + linear a x /\
  0 <= linear a x < (end_bus a - start_bus a + 1) * 2 ^ 20.
Proof.
  intros [Hb Hb' Ha Ho Hr] [Vb Vd Vf Vo]. unfold config_address, PMM.to_HHDM, linear. change PAGE_SIZE with 4096 in Hr. change (2 ^ 28) with 268435456 in Hr.
  rewrite (Z.shiftl_mul_pow2 (l_bus x - _)) by lia. unfold u32. rewrite Z.mod_small by lia. rewrite <- Z.shiftl_mul_pow2 by lia.
  rewrite (lor_fields _ 20 _ 15) by lia. rewrite (lor_fields _ 15 _ 12) by lia. rewrite lor_shiftl_low by lia.
  change (2 ^ (20 - 15)) with 32. change (2 ^ (15 - 12)) with 8. change (2 ^ 12) with 4096.
  rewrite (add64_small (address a) h) by lia. rewrite add64_small by lia.
  rewrite Z.shiftl_mul_pow2 by lia. split; lia.
Qed.

(** The pages that are mapped for an allocation. *)
Definition window (h : Z) (a : acpi_mcfg_allocation) : Z * Z * Z :=
  (PMM.to_HHDM h (ALIGN_DOWN (address a) PAGE_SIZE), ALIGN_DOWN (address a) PAGE_SIZE, DIV_ROUNDUP (mapSize a) PAGE_SIZE).

Lemma walk_MCFG_runs h t k : forall fuel cur e p, (k < fuel)%nat -> cur + Z.of_nat k * sizeof_allocation t = mcfg_length t -> 0 < sizeof_allocation t ->
  0 <= cur -> mcfg_length t < W64 -> 0 <= e -> e + Z.of_nat k * sizeof_allocation t < W64 ->
  runs (walk_MCFG h fuel t cur e) p (fun _ p' =>
    let l := (fun i => alloc_at t (e + Z.of_nat i * sizeof_allocation t)) <$> seq 0 k in
    g_MCFGAllocations p' = g_MCFGAllocations p ++ l /\ mapped p' = mapped p ++ (window h <$> l)).
Proof.
  induction k as [|k IH]; intros [|fuel] cur e p Hf Hc Hs H0 Hw He He'; cbn [walk_MCFG]; try lia.
  - rewrite (proj2 (Z.ltb_ge _ _)) by lia. mstep. by rewrite !app_nil_r.
  - rewrite (proj2 (Z.ltb_lt _ _)) by nia. unfold add_allocation. do 2 mstep. rewrite !add64_small by nia.
    eapply runs_mono; [apply IH; [lia|lia|lia|lia|lia|lia|lia]|]. cbn beta zeta. cbn [g_MCFGAllocations mapped].
    intros _ p' [-> ->]. rewrite <- !app_assoc. cbn [seq]. rewrite !fmap_cons. rewrite <- !(fmap_S_seq 0). cbn [app].
    replace (e + Z.of_nat 0 * sizeof_allocation t) with e by lia.
    assert (Hl : ((fun i => alloc_at t (e + sizeof_allocation t + Z.of_nat i * sizeof_allocation t)) <$> seq 0 k) =
      ((fun i => alloc_at t (e + Z.of_nat i * sizeof_allocation t)) <$> (S <$> seq 0 k))).
    { rewrite <- list_fmap_compose. apply list_fmap_ext. intros ? i _. cbn. f_equal. lia. }
    rewrite Hl. done.
Qed.

Lemma GetMCFGAlloc_in seg bus l a : GetMCFGAlloc seg bus l = Some a -> a ∈ l /\ segment a = seg /\ start_bus a <= bus <= end_bus a.
Proof.
  induction l as [|b l IH]; cbn; [done|]. destruct ((segment b =? seg) && _ && _) eqn:E.
  - intros [= ->]. split; [set_solver|]. rewrite !andb_true_iff in E. destruct E as [[E1 E2] E3]. zb. lia.
  - intros H. destruct (IH H) as [? ?]. split; [set_solver|done].
Qed.

(** After the walk over a table of [k] sane allocations, which ends, every register of the buses of an allocation that the lookup gives lies in pages that were mapped, at the
    place of the window that the physical address says, and two registers of the same allocation have different addresses. *)
Theorem MCFG_registers (h : Z) (t : acpi_mcfg) (k fuel : nat) (p : pci) :
  (k < fuel)%nat -> sizeof_mcfg t + Z.of_nat k * sizeof_allocation t = mcfg_length t -> 0 < sizeof_allocation t -> 0 <= sizeof_mcfg t ->
  mcfg_length t < W64 -> 0 <= mcfg_entries t -> mcfg_entries t + Z.of_nat k * sizeof_allocation t < W64 ->
  (forall e, sane h (alloc_at t e)) -> g_MCFGAllocations p = [] ->
  runs (InitMCFG h (Some t) fuel) p (fun ok p' => ok = true /\ length (g_MCFGAllocations p') = k /\
    forall seg bus a, GetMCFGAlloc seg bus (g_MCFGAllocations p') = Some a ->
      (forall x, l_bus x = bus -> valid a x -> exists v ph n, (v, ph, n) ∈ mapped p' /\
        let c := config_address h a bus (l_device x) (l_function x) (l_offset x) in
        v <= c < v + n * PAGE_SIZE /\ c - v = address a + linear a x - ph) /\
      (forall x y, valid a x -> valid a y ->
        config_address h a (l_bus x) (l_device x) (l_function x) (l_offset x) =
        config_address h a (l_bus y) (l_device y) (l_function y) (l_offset y) -> x = y)).
Proof.
  intros Hf Hl Hs H0 Hw He He' Hsane Hp. unfold InitMCFG. mstep. eapply runs_mono; [by apply (walk_MCFG_runs h t k)|].
  cbn beta zeta. intros _ p' [Hall Hmap]. mstep. rewrite Hall, Hp. cbn [app]. split; [done|]. split; [by rewrite length_fmap, length_seq|].
  intros seg bus a Ha. apply GetMCFGAlloc_in in Ha as (Hin & _ & Hbus).
  assert (Ha : sane h a) by (apply list_elem_of_fmap in Hin as (i & -> & _); apply Hsane). split.
  - intros x Hx Hv. exists (window h a).1.1, (window h a).1.2, (window h a).2. split.
    { rewrite Hmap, Hp in *. rewrite elem_of_app. right. apply list_elem_of_fmap. exists a. split; [by destruct a|done]. }
    cbn zeta. rewrite <- Hx. destruct (config_address_linear h a x Ha Hv) as [-> Hlin]. cbn [window fst snd].
    destruct Ha as [Sb Sb' Sa So Sr]. unfold PMM.to_HHDM, mapSize. change PAGE_SIZE with 4096 in *. change (2 ^ 28) with 268435456 in *.
    destruct (ALIGN_DOWN_bounds (address a) 4096 ltac:(lia) ltac:(lia)) as (D1 & D2 & D3). unfold DIV_ROUNDUP.
    assert (Hmod : address a mod 4096 = address a - ALIGN_DOWN (address a) 4096) by (unfold ALIGN_DOWN; zlia).
    rewrite wrap64_small by (rewrite Hmod; lia). rewrite !add64_small by (rewrite ?Hmod; lia). rewrite Hmod. zlia.
  - intros [b1 d1 f1 o1] [b2 d2 f2 o2] H1 H2 Heq.
    destruct (config_address_linear h a _ Ha H1) as [E1 _]. destruct (config_address_linear h a _ Ha H2) as [E2 _].
    rewrite E1, E2 in Heq. destruct H1, H2. unfold linear in Heq. cbn in *. assert (b1 = b2 /\ d1 = d2 /\ f1 = f2 /\ o1 = o2) as (-> & -> & -> & ->) by lia. done.
Qed.

(** ** Memory and time for uACPI *)

Lemma map_pages_spec h n : forall fuel i, (n < fuel)%nat -> 0 <= i -> i + Z.of_nat n * PAGE_SIZE < W64 ->
  map_pages fuel h i (i + Z.of_nat n * PAGE_SIZE) =
    Some ((fun k => let a := i + Z.of_nat k * PAGE_SIZE in (PMM.to_HHDM h a, a, 134217731)) <$> seq 0 n).
Proof.
  change PAGE_SIZE with 4096. induction n as [|n IH]; intros [|fuel] i Hf Hi Hb; cbn [map_pages]; try lia.
  - by rewrite (proj2 (Z.ltb_ge _ _)) by lia.
  - rewrite (proj2 (Z.ltb_lt _ _)) by lia. change PAGE_SIZE with 4096. rewrite add64_small by lia.
    replace (i + Z.of_nat (S n) * 4096) with (i + 4096 + Z.of_nat n * 4096) by lia. rewrite IH by lia. cbn [seq].
    rewrite fmap_cons, <- (fmap_S_seq 0), <- list_fmap_compose. change (Z.of_nat 0 * 4096) with 0. rewrite Z.add_0_r. cbn [fmap option_fmap option_map]. do 2 f_equal.
    apply list_fmap_ext. intros ? k _. cbn. replace (i + 4096 + Z.of_nat k * 4096) with (i + Z.of_nat (S k) * 4096) by lia. done.
Qed.

(** A range that uACPI wants mapped: the loop ends; the page of each byte of the range is mapped, writable and not executable, where the direct map has it, and the
    address that is returned is that of the first byte there. *)
Theorem uacpi_map_covers (h phys size : Z) (fuel : nat) : 0 <= phys -> 0 <= size -> phys + size + PAGE_SIZE < W64 -> size / PAGE_SIZE + 3 < Z.of_nat fuel ->
  exists ps, uacpi_kernel_map fuel h phys size = Some (ps, PMM.to_HHDM h phys) /\
    forall b, phys <= b < phys + size -> (PMM.to_HHDM h (ALIGN_DOWN b PAGE_SIZE), ALIGN_DOWN b PAGE_SIZE, 134217731) ∈ ps.
Proof.
  intros Hp Hs Hw Hf. unfold uacpi_kernel_map. change PAGE_SIZE with 4096 in *. rewrite add64_small by lia.
  destruct (ALIGN_DOWN_bounds phys 4096 ltac:(lia) ltac:(lia)) as (D1 & D2 & D3).
  destruct (ALIGN_UP_bounds (phys + size) 4096 ltac:(lia) ltac:(lia) ltac:(lia)) as (U1 & U2).
  set (s := ALIGN_DOWN phys 4096) in *. set (e := ALIGN_UP (phys + size) 4096) in *.
  assert (He : e = s + Z.of_nat (Z.to_nat ((e - s) / 4096)) * 4096) by zlia.
  rewrite He. change 4096 with PAGE_SIZE at 2. rewrite (map_pages_spec h (Z.to_nat ((e - s) / 4096)) fuel s) by (change PAGE_SIZE with 4096; zlia).
  eexists. split; [reflexivity|]. intros b Hb. apply list_elem_of_fmap. change PAGE_SIZE with 4096. exists (Z.to_nat ((b - s) / 4096)). split.
  - assert (ALIGN_DOWN b 4096 = s + Z.of_nat (Z.to_nat ((b - s) / 4096)) * 4096) as <-; [unfold ALIGN_DOWN; zlia|done].
  - apply elem_of_seq. zlia.
Qed.

(** What the [k]-th look at the clock gives in nanoseconds. *)
Definition ns_at (t : Time.timer) (k : nat) : Z :=
  match Time.g_HPET t with Some h => Time.GetNSTicks h (Time.counter t k) | None => mul64 (Time.g_HALTimerTicks t k) 1000000 end.

Lemma GetNSTicks_runs t (Q : Z -> Time.timer -> Prop) :
  Q (ns_at t (Time.looks t)) (Time.at_look t (S (Time.looks t))) -> runs Time.HAL_GetNSTicks t Q.
Proof.
  unfold ns_at, Time.HAL_GetNSTicks. intros HQ. do 2 mstep. destruct (Time.g_HPET t) as [h|] eqn:E.
  - do 2 mstep. eapply runs_eq; [reflexivity|]. exact HQ.
  - do 3 mstep. eapply runs_eq; [reflexivity|]. mstep. exact HQ.
Qed.

Lemma wait_ns_runs j : forall fuel t start nsec, (j < fuel)%nat ->
  (forall i, (i < j)%nat -> sub64 (ns_at t (Time.looks t + i)) start < nsec) -> nsec <= sub64 (ns_at t (Time.looks t + j)) start ->
  runs (wait_ns fuel start nsec) t (fun _ t' => t' = Time.at_look t (Time.looks t + S j)).
Proof.
  induction j as [|j IH]; intros [|fuel] t start nsec Hf Hb Hd; try lia; cbn [wait_ns]; mstep; apply GetNSTicks_runs.
  - rewrite Nat.add_0_r in Hd. rewrite (proj2 (Z.ltb_ge _ _)) by done. mstep. f_equal. lia.
  - pose proof (Hb 0%nat ltac:(lia)) as Hb0. rewrite Nat.add_0_r in Hb0. rewrite (proj2 (Z.ltb_lt _ _)) by done.
    eapply runs_mono; [apply (IH fuel); [lia| |]|].
    + intros i Hi. specialize (Hb (S i) ltac:(lia)). change (ns_at (Time.at_look t ?k) ?n) with (ns_at t n). cbn [Time.looks Time.at_look].
      by replace (S (Time.looks t) + i)%nat with (Time.looks t + S i)%nat by lia.
    + change (ns_at (Time.at_look t ?k) ?n) with (ns_at t n). cbn [Time.looks Time.at_look].
      by replace (S (Time.looks t) + j)%nat with (Time.looks t + S j)%nat by lia.
    + intros _ t' ->. cbn [Time.looks Time.at_look]. unfold Time.at_look. cbn. f_equal. lia.
Qed.

(** [uacpi_kernel_stall] ends at the first look at the clock that is at least the wanted time after the first one. *)
Theorem uacpi_stall_waits (t : Time.timer) (usec : Z) (fuel j : nat) : (j < fuel)%nat ->
  (forall i, (i < j)%nat -> sub64 (ns_at t (Time.looks t + S i)) (ns_at t (Time.looks t)) < usec * 1000) ->
  usec * 1000 <= sub64 (ns_at t (Time.looks t + S j)) (ns_at t (Time.looks t)) ->
  runs (uacpi_kernel_stall fuel usec) t (fun _ t' => t' = Time.at_look t (Time.looks t + S (S j))).
Proof.
  intros Hf Hb Hd. unfold uacpi_kernel_stall. mstep. apply GetNSTicks_runs. eapply runs_mono; [apply (wait_ns_runs j); [done| |]|].
  - intros i Hi. change (ns_at (Time.at_look t ?k) ?n) with (ns_at t n). cbn [Time.looks Time.at_look].
    replace (S (Time.looks t) + i)%nat with (Time.looks t + S i)%nat by lia. by apply Hb.
  - change (ns_at (Time.at_look t ?k) ?n) with (ns_at t n). cbn [Time.looks Time.at_look].
    by replace (S (Time.looks t) + j)%nat with (Time.looks t + S j)%nat by lia.
  - intros _ t' ->. cbn [Time.looks Time.at_look]. unfold Time.at_look. cbn. f_equal. lia.
Qed.

(** [HAL_EarlyInit] starts the processors, from [ACPI::EarlyInit], before it starts the clocks: none of the waits between the interrupts that start a processor
    looks at a clock. *)
Theorem AP_delays_skipped (t : Time.timer) (fuel : nat) (acts : list (nat * LocalAPIC.action)) : Time.g_HALTimeReady t = false ->
  runs (sleeps fuel acts) t (fun _ t' => t' = t).
Proof.
  intros Ht. induction acts as [|[k []] acts IH]; cbn [sleeps]; try exact IH; [by mstep|].
  mstep. unfold Time.HAL_SleepNS. do 2 mstep. rewrite Ht. cbn [negb]. mstep. exact IH.
Qed.

(** ** Examples *)

(** A table with two processors, of which the second is not enabled, an I/O APIC and an override. *)
Definition example_entries : list (entry * Z) :=
  [(E_LAPIC (mkLapic 0 0 1), 8); (E_LAPIC (mkLapic 1 2 0), 8); (E_IOAPIC (mkIoapic 4273995776 0), 12);
   (E_INTERRUPT_SOURCE_OVERRIDE (mkISO 0 2 0), 10); (E_LAPIC_NMI (mkLNMI 255 5 1), 6)].
Definition example_MADT : acpi_madt :=
  mkMADT 88 44 1044
    (fun a => if a =? 1044 then E_LAPIC (mkLapic 0 0 1) else if a =? 1052 then E_LAPIC (mkLapic 1 2 0)
              else if a =? 1060 then E_IOAPIC (mkIoapic 4273995776 0) else if a =? 1072 then E_INTERRUPT_SOURCE_OVERRIDE (mkISO 0 2 0)
              else E_LAPIC_NMI (mkLNMI 255 5 1))
    (fun a => if a =? 1044 then 8 else if a =? 1052 then 8 else if a =? 1060 then 12 else if a =? 1072 then 10 else 6).

Lemma MADT_walk_collects_witness : walk 6 example_MADT 44 1044 nothing =
  Some (mkCollected 0 [mkLapic 0 0 1] [mkIoapic 4273995776 0] [mkISO 0 2 0] [] [mkLNMI 255 5 1]).
Proof. apply (MADT_walk_collects example_MADT example_entries 6); cbn; split_and?; try done; lia. Defined.

Definition example_MCFG : acpi_mcfg := mkMCFG 60 44 16 2044 (fun _ => mkAlloc 2952790016 0 0 255).
Lemma MCFG_registers_witness :
  runs (InitMCFG 18446603336221196288 (Some example_MCFG) 2) (mkPCI [] [] (fun _ _ => 0) []) (fun ok p' => ok = true /\ length (g_MCFGAllocations p') = 1%nat).
Proof.
  eapply runs_mono.
  - apply (MCFG_registers 18446603336221196288 example_MCFG 1 2 (mkPCI [] [] (fun _ _ => 0) [])); try done; try lia.
  - intros ok p' (H1 & H2 & _). exact (conj H1 H2).
Defined.

End ACPI.
