(* ===== verification/TaskUtil.v ===== *)
(** * TaskUtil.v: contexts of threads and page faults (Scheduling/TaskUtil.cpp, Scheduling/Task.asm, Memory/PageFault.cpp and
      [Processor::ForkRegisters] of Processor.cpp, all in src/kernel/src/arch/x86_64)

    The registers of a thread that does not run are kept in a structure; an interrupt leaves them in a frame on the stack. The model of the processor has
    the registers a thread sees.

    Shown: what an interrupt saved is what a switch back to the thread restores; a new thread begins at its entry point with the segments of its mode
    and with interrupts enabled; a page fault is given to the memory manager whose region the address lies in, and ends in a panic, at most once,
    exactly when that does not resolve it. *)

From S2P Require Import Prelude PMM PageMapper VMM Scheduler IRQ Descriptors.

#[local] Open Scope Z_scope.
#[local] Open Scope kernel_scope.

Module TaskUtil.
Import IRQ.

(** ** Contexts *)

(** [INT] and [ERR] of the frame stay. *)
Definition x86_64_CopyToISRFrame (regs : x86_64_Registers) (frame : x86_64_ISR_Frame) : x86_64_ISR_Frame :=
  {| f_RAX := RAX regs; f_RBX := RBX regs; f_RCX := RCX regs; f_RDX := RDX regs; f_RSP := RSP regs; f_RBP := RBP regs; f_RSI := RSI regs;
     f_RDI := RDI regs; f_R8 := R8 regs; f_R9 := R9 regs; f_R10 := R10 regs; f_R11 := R11 regs; f_R12 := R12 regs; f_R13 := R13 regs;
     f_R14 := R14 regs; f_R15 := R15 regs; f_RIP := RIP regs; f_RFLAGS := RFLAGS regs; f_CS := CS regs; f_SS := SS regs;
     f_CR2 := 0; f_CR3 := CR3 regs; INT := INT frame; ERR := ERR frame |}.

(** The selectors of the structure are 16 bits wide. *)
Definition x86_64_CopyFromISRFrame (frame : x86_64_ISR_Frame) (regs : x86_64_Registers) : x86_64_Registers :=
  {| RAX := f_RAX frame; RBX := f_RBX frame; RCX := f_RCX frame; RDX := f_RDX frame; RSP := f_RSP frame; RBP := f_RBP frame; RSI := f_RSI frame;
     RDI := f_RDI frame; R8 := f_R8 frame; R9 := f_R9 frame; R10 := f_R10 frame; R11 := f_R11 frame; R12 := f_R12 frame; R13 := f_R13 frame;
     R14 := f_R14 frame; R15 := f_R15 frame; RIP := f_RIP frame; RFLAGS := f_RFLAGS frame; CS := f_CS frame mod 2 ^ 16; SS := f_SS frame mod 2 ^ 16;
     CR3 := f_CR3 frame; _align := _align regs |}.

Record ThreadEntryPoint : Set := mkEntry { EntryPoint : Z; Data : Z }.

(** [pageTable] is that of the mapper. *)
Definition x86_64_SetThreadRegisters (g_HHDMOffset stack : Z) (entryPoint : ThreadEntryPoint) (mode : Scheduler.ProcessMode) (pageTable : Z) :
    x86_64_Registers :=
  let code := match mode with Scheduler.KERNEL => Descriptors.x86_64_GDT_KERNEL_CODE_SEGMENT
                            | Scheduler.USER => Z.lor Descriptors.x86_64_GDT_USER_CODE_SEGMENT 3 end in
  let data := match mode with Scheduler.KERNEL => Descriptors.x86_64_GDT_KERNEL_DATA_SEGMENT
                            | Scheduler.USER => Z.lor Descriptors.x86_64_GDT_USER_DATA_SEGMENT 3 end in
  {| RAX := 0; RBX := 0; RCX := 0; RDX := 0; RSI := 0; RDI := Data entryPoint; RSP := stack; RBP := 0; R8 := 0; R9 := 0; R10 := 0; R11 := 0;
     R12 := 0; R13 := 0; R14 := 0; R15 := 0; RIP := EntryPoint entryPoint; CS := code; SS := data; RFLAGS := 514;
     CR3 := PMM.from_HHDM g_HHDMOffset pageTable; _align := 0 |}.

(** The frame goes to [x86_64_Halt]; [rbp] is that of the function. *)
Definition x86_64_CreateHaltISRFrame (g_HHDMOffset g_KernelRootPageTable rbp halt : Z) (f : x86_64_ISR_Frame) : x86_64_ISR_Frame :=
  {| f_CR3 := PMM.from_HHDM g_HHDMOffset g_KernelRootPageTable; f_CR2 := f_CR2 f; f_R15 := f_R15 f; f_R14 := f_R14 f; f_R13 := f_R13 f;
     f_R12 := f_R12 f; f_R11 := f_R11 f; f_R10 := f_R10 f; f_R9 := f_R9 f; f_R8 := f_R8 f; f_RDI := f_RDI f; f_RSI := f_RSI f; f_RBP := rbp;
     f_RBX := f_RBX f; f_RDX := f_RDX f; f_RCX := f_RCX f; f_RAX := f_RAX f; INT := INT f; ERR := ERR f; f_RIP := halt;
     f_CS := Descriptors.x86_64_GDT_KERNEL_CODE_SEGMENT; f_RFLAGS := 2; f_RSP := 0; f_SS := Descriptors.x86_64_GDT_KERNEL_DATA_SEGMENT |}.

Definition ForkRegisters (g_HHDMOffset : Z) (old : x86_64_Registers) (newReturnValue pageTable : Z) : x86_64_Registers :=
  {| RAX := newReturnValue; RBX := RBX old; RCX := RCX old; RDX := RDX old; RSI := RSI old; RDI := RDI old; RSP := RSP old; RBP := RBP old;
     R8 := R8 old; R9 := R9 old; R10 := R10 old; R11 := R11 old; R12 := R12 old; R13 := R13 old; R14 := R14 old; R15 := R15 old; RIP := RIP old;
     CS := Z.lor Descriptors.x86_64_GDT_USER_CODE_SEGMENT 3; SS := Z.lor Descriptors.x86_64_GDT_USER_DATA_SEGMENT 3; RFLAGS := RFLAGS old;
     CR3 := PMM.from_HHDM g_HHDMOffset pageTable; _align := _align old |}.

(** ** Base addresses *)

Definition MSR_FS_BASE : Z := 3221225728.
Definition MSR_GS_BASE : Z := 3221225729.
Definition MSR_KERNEL_GS_BASE : Z := 3221225730.

Definition x86_64_WriteMSR (msr v : Z) : M (gmap Z Z) unit := modify (fun s => <[msr := v]> s).
Definition x86_64_ReadMSR (msr : Z) : M (gmap Z Z) Z := gets (fun s => default 0 (s !! msr)).

Definition x86_64_SetGSBases (kernelBase base : Z) : M (gmap Z Z) unit :=
  x86_64_WriteMSR MSR_GS_BASE base ;;;
  x86_64_WriteMSR MSR_KERNEL_GS_BASE kernelBase.
Definition x86_64_SetFSBase (base : Z) : M (gmap Z Z) unit := x86_64_WriteMSR MSR_FS_BASE base.
Definition x86_64_SetGSBase (base : Z) : M (gmap Z Z) unit := x86_64_WriteMSR MSR_GS_BASE base.
Definition x86_64_SetKernelGSBase (base : Z) : M (gmap Z Z) unit := x86_64_WriteMSR MSR_KERNEL_GS_BASE base.
Definition x86_64_GetFSBase : M (gmap Z Z) Z := x86_64_ReadMSR MSR_FS_BASE.
Definition x86_64_GetGSBase : M (gmap Z Z) Z := x86_64_ReadMSR MSR_GS_BASE.
Definition x86_64_GetKernelGSBase : M (gmap Z Z) Z := x86_64_ReadMSR MSR_KERNEL_GS_BASE.

(** ** Switching (Task.asm) *)

(** What a thread sees of the processor. *)
Record cpu : Set := mkCPU {
  p_gprs : list Z;  (* RAX RBX RCX RDX RSI RDI RBP R8 ... R15 *)
  p_RSP : Z; p_RIP : Z; p_RFLAGS : Z; p_CS : Z; p_SS : Z; p_CR3 : Z
}.

(** The state after [iretq] from a frame whose registers have been popped. *)
Definition return_from (f : x86_64_ISR_Frame) : cpu :=
  mkCPU [f_RAX f; f_RBX f; f_RCX f; f_RDX f; f_RSI f; f_RDI f; f_RBP f; f_R8 f; f_R9 f; f_R10 f; f_R11 f; f_R12 f; f_R13 f; f_R14 f; f_R15 f]
    (f_RSP f) (f_RIP f) (f_RFLAGS f) (f_CS f) (f_SS f) (f_CR3 f).

(** [x86_64_SwitchTask]: the state of the thread, and whether [swapgs] was done. *)
Definition x86_64_SwitchTask (r : x86_64_Registers) : cpu * bool :=
  (mkCPU [RAX r; RBX r; RCX r; RDX r; RSI r; RDI r; RBP r; R8 r; R9 r; R10 r; R11 r; R12 r; R13 r; R14 r; R15 r]
     (RSP r) (RIP r) (RFLAGS r) (CS r) (SS r) (CR3 r),
   negb (Z.land (SS r) 3 =? 0)).

(** [x86_64_KernelSwitchTask], with the segments that are loaded: the flags and the address go over the new stack. *)
Definition x86_64_KernelSwitchTask (cs ss : Z) (r : x86_64_Registers) : cpu :=
  let sp := RSP r in
  let sp := sub64 sp 8 in
  let sp := sub64 sp 8 in
  let sp := add64 sp 8 in
  let sp := add64 sp 8 in
  mkCPU [RAX r; RBX r; RCX r; RDX r; RSI r; RDI r; RBP r; R8 r; R9 r; R10 r; R11 r; R12 r; R13 r; R14 r; R15 r]
    sp (RIP r) (RFLAGS r) cs ss (CR3 r).

(** ** Page faults *)

Record x86_64_PageFaultCode : Set := mkFault { pf_present : bool; pf_write : bool; pf_user : bool; reservedWrite : bool; pf_execute : bool }.
Definition fault_code (err : Z) : x86_64_PageFaultCode :=
  mkFault (0 <? Z.land err 1) (0 <? Z.land err 2) (0 <? Z.land err 4) (0 <? Z.land err 8) (0 <? Z.land err 16).

Inductive operation : Set := op_write | op_execute | op_reserved | op_read.
Definition operation_of (c : x86_64_PageFaultCode) : operation :=
  if pf_write c then op_write else if pf_execute c then op_execute else if reservedWrite c then op_reserved else op_read.

(** How the handler ends; the text of the panic is made of what is given here. *)
Inductive outcome : Set :=
  | Returned
  | Panicked (user : bool) (what : operation) (present : bool) (address : Z)
  | Halted.

(** What [Scheduler::isRunning], the state of the current processor and [g_KProcess] give: a process has a mode and a memory manager. *)
Record process : Set := mkProcess { mode : Scheduler.ProcessMode; m_VMM : option Z }.
Record scheduling : Set := mkScheduling {
  isRunning : bool;
  current_parent : option process;  (* of the current thread, if there is a state and a thread *)
  g_KProcess : option process
}.

Record faulting {E : Type} : Type := mkFaulting { memory : @VMM.state E; inPageFault : bool }.
Arguments faulting : clear implicits.

Section PageFault.
Context {E : Type} `{VMM.Machine E} (kcalloc_ok : nat -> bool) (GetPage : Z -> Z -> Z -> bool -> M (@VMM.state E) (bool * Z)).
Context (la57 : bool) (g_KVMM : option Z).
Notation faulting := (faulting E).
Notation mkFaulting := (mkFaulting E).

Definition on_memory {A} (f : M (@VMM.state E) A) : M faulting A := fun s =>
  match f (memory s) with Ok (x, v) => Ok (x, mkFaulting v (inPageFault s)) | Fail e => Fail e end.

Definition fault_process (s : scheduling) : option process := if isRunning s then current_parent s else g_KProcess s.

Definition fault_VMM (s : scheduling) (address : Z) : option Z :=
  match fault_process s with
  | None => None
  | Some p => match mode p with
              | Scheduler.USER => if PageMapper.IsInUserRegion la57 address then m_VMM p else g_KVMM
              | Scheduler.KERNEL => m_VMM p
              end
  end.

Definition panic_once (c : x86_64_PageFaultCode) (address : Z) : M faulting outcome :=
  let* b := gets inPageFault in
  if b then ret Halted else
  modify (fun s => mkFaulting (memory s) true) ;;;
  ret (Panicked (pf_user c) (operation_of c) (pf_present c) address).

Definition x86_64_PageFaultHandler (s : scheduling) (frame : x86_64_ISR_Frame) : M faulting outcome :=
  let code := fault_code (ERR frame) in
  let* resolved :=
    (if reservedWrite code then ret false else
     match fault_VMM s (f_CR2 frame) with
     | None => ret false
     | Some v => on_memory (VMM.HandlePageFault kcalloc_ok GetPage v (VMM.mkCode (pf_present code) (pf_write code) (pf_user code) (pf_execute code)) (f_CR2 frame))
     end) in
  if resolved then ret Returned else panic_once code (f_CR2 frame).

(** The fault as the memory manager is told of it, and whether that resolves it. *)
Definition VMM_code (err : Z) : VMM.PageFaultCode :=
  VMM.mkCode (Z.testbit err 0) (Z.testbit err 1) (Z.testbit err 2) (Z.testbit err 4).

Lemma land_pow2_testbit x k : 0 <= k -> 0 <= x -> (0 <? Z.land x (2 ^ k)) = Z.testbit x k.
Proof.
  intros Hk Hx. assert (E1 : Z.land x (2 ^ k) = if Z.testbit x k then 2 ^ k else 0).
  { apply Z.bits_inj'. intros n Hn. rewrite Z.land_spec, Z.pow2_bits_eqb by done. destruct (Z.eqb_spec k n) as [->|Hne].
    - destruct (Z.testbit x n); [by rewrite Z.pow2_bits_true by done|by rewrite Z.bits_0].
    - rewrite andb_false_r. destruct (Z.testbit x k); [by rewrite Z.pow2_bits_false by lia|by rewrite Z.bits_0]. }
  rewrite E1. destruct (Z.testbit x k); [apply Z.ltb_lt; by apply Z.pow_pos_nonneg; lia|done].
Qed.

Lemma fault_code_bits err : 0 <= err ->
  fault_code err = mkFault (Z.testbit err 0) (Z.testbit err 1) (Z.testbit err 2) (Z.testbit err 3) (Z.testbit err 4).
Proof.
  intros He. unfold fault_code.
  f_equal; [apply (land_pow2_testbit err 0)|apply (land_pow2_testbit err 1)|apply (land_pow2_testbit err 2)|apply (land_pow2_testbit err 3)|
    apply (land_pow2_testbit err 4)]; lia.
Qed.

(** What the handler does, given what the memory manager answers: the fault is given, with its kind, to the manager of the process when the address lies in
    the region of programs or the process is the kernel, and to the kernel's otherwise; when that resolves it the handler returns and leaves the memory as the manager left it;
    in every other case (a reserved bit was set, there is no process or no manager, or it does not resolve the fault) the processor stops with a panic, and the
    second time without one. *)
Theorem page_fault_dispatch (sc : scheduling) (frame : x86_64_ISR_Frame) (s : faulting) : 0 <= ERR frame ->
  match fault_VMM sc (f_CR2 frame) with
  | Some v =>
      Z.testbit (ERR frame) 3 = false ->
      match VMM.HandlePageFault kcalloc_ok GetPage v (VMM_code (ERR frame)) (f_CR2 frame) (memory s) with
      | Ok (true, m') => x86_64_PageFaultHandler sc frame s = Ok (Returned, mkFaulting m' (inPageFault s))
      | Ok (false, m') => exists o, x86_64_PageFaultHandler sc frame s = Ok (o, mkFaulting m' true) /\ o <> Returned /\ (o = Halted <-> inPageFault s = true)
      | Fail e => x86_64_PageFaultHandler sc frame s = Fail e
      end
  | None => exists o, x86_64_PageFaultHandler sc frame s = Ok (o, mkFaulting (memory s) true) /\ o <> Returned /\ (o = Halted <-> inPageFault s = true)
  end /\
  (Z.testbit (ERR frame) 3 = true ->
   exists o, x86_64_PageFaultHandler sc frame s = Ok (o, mkFaulting (memory s) true) /\ o <> Returned /\ (o = Halted <-> inPageFault s = true)).
Proof.
  intros He. assert (Hpanic : forall c a m b, exists o, panic_once c a (mkFaulting m b) = Ok (o, mkFaulting m true) /\ o <> Returned /\ (o = Halted <-> b = true)).
  { intros c a m b. unfold panic_once, bind, gets, modify, ret. cbn. destruct b; eexists; by split_and!. }
  unfold x86_64_PageFaultHandler. rewrite fault_code_bits by done. cbn [reservedWrite pf_present pf_write pf_user pf_execute]. cbv zeta.
  unfold bind at 1 2 3 4 5. unfold VMM_code. destruct s as [m b]. cbn [memory inPageFault] in *. split.
  - destruct (fault_VMM sc (f_CR2 frame)) as [v|].
    + intros Hr. rewrite Hr. unfold on_memory. cbn [memory inPageFault]. destruct (VMM.HandlePageFault _ _ _ _ _ _) as [[[] m']|e]; [done|apply Hpanic|done].
    + destruct (Z.testbit (ERR frame) 3); unfold ret; apply Hpanic.
  - intros Hr. rewrite Hr. unfold ret. apply Hpanic.
Qed.
End PageFault.

(** ** Contexts *)

(** What an interrupt saved of a thread is what the switch back to it restores, if the selectors are selectors; the base address of GS is exchanged exactly
    for a thread of a program. *)
Theorem interrupt_switch_resumes (f : x86_64_ISR_Frame) (regs : x86_64_Registers) : 0 <= f_CS f < 2 ^ 16 -> 0 <= f_SS f < 2 ^ 16 ->
  x86_64_SwitchTask (x86_64_CopyFromISRFrame f regs) = (return_from f, negb (Z.land (f_SS f) 3 =? 0)).
Proof. intros Hc Hs. unfold x86_64_SwitchTask, x86_64_CopyFromISRFrame, return_from. cbn. by rewrite !Z.mod_small by lia. Qed.

(** The registers that are copied into a frame are what the return from the interrupt gives, and copying them back gives the same registers. *)
Theorem frame_roundtrip (f : x86_64_ISR_Frame) (r r' : x86_64_Registers) : 0 <= CS r < 2 ^ 16 -> 0 <= SS r < 2 ^ 16 -> _align r' = _align r ->
  return_from (x86_64_CopyToISRFrame r f) = fst (x86_64_SwitchTask r) /\ x86_64_CopyFromISRFrame (x86_64_CopyToISRFrame r f) r' = r.
Proof.
  intros Hc Hs Ha. split; [done|]. unfold x86_64_CopyFromISRFrame, x86_64_CopyToISRFrame. cbn. rewrite !Z.mod_small, Ha by lia. by destruct r.
Qed.

(** A new thread starts at its entry point, with its argument and its stack, with interrupts enabled, in the page table of its process, and with the
    code and data segments of its mode, which are present; a program's have privilege level 3 and request it. *)
Theorem new_thread_starts (h stack pageTable entries TSS : Z) (e : ThreadEntryPoint) (mode : Scheduler.ProcessMode) :
  let '(c, swapped) := x86_64_SwitchTask (x86_64_SetThreadRegisters h stack e mode pageTable) in
  let level := match mode with Scheduler.KERNEL => 0 | Scheduler.USER => 3 end in
  p_RIP c = EntryPoint e /\ p_gprs c !! 5%nat = Some (Data e) /\ p_RSP c = stack /\ Z.testbit (p_RFLAGS c) 9 = true /\
  p_CR3 c = PMM.from_HHDM h pageTable /\ p_CS c mod 4 = level /\ p_SS c mod 4 = level /\ swapped = negb (level =? 0) /\
  exists code data, Descriptors.selected (Descriptors.x86_64_InitGDT entries TSS) (p_CS c) = Some code /\
    Descriptors.selected (Descriptors.x86_64_InitGDT entries TSS) (p_SS c) = Some data /\
    Descriptors.s_present code = true /\ Descriptors.s_execute code = true /\ Descriptors.s_dpl code = level /\
    Descriptors.s_present data = true /\ Descriptors.s_execute data = false /\ Descriptors.s_dpl data = level.
Proof. destruct mode; cbn zeta; split_and!; try reflexivity; eexists _, _; split_and!; reflexivity. Qed.

(** A switch inside the kernel leaves the stack pointer where it was. *)
Theorem kernel_switch_stack (cs ss : Z) (r : x86_64_Registers) : 16 <= RSP r < W64 ->
  x86_64_KernelSwitchTask cs ss r = mkCPU (p_gprs (fst (x86_64_SwitchTask r))) (RSP r) (RIP r) (RFLAGS r) cs ss (CR3 r).
Proof.
  intros Hr. unfold x86_64_KernelSwitchTask. cbn zeta. f_equal.
  rewrite (sub64_small (RSP r)) by lia. rewrite sub64_small by lia. rewrite (add64_small (_ - _)) by lia. rewrite add64_small; lia.
Qed.

End TaskUtil.
