(* ===== verification/Boot.v ===== *)
(** * Boot.v: the start of the kernel (limine_entry.cpp, arch/x86_64/Memory/PagingInit.cpp, arch/x86_64/Syscall.cpp and arch/x86_64/Stack.cpp in
      src/kernel/src) and the pager of the memory file system (fs/TempFS/TempFSPager.cpp)

    What the boot loader answers and the addresses of the sections of the kernel are parameters. The tables are not built here: the start of paging gives
    the regions that are mapped, which PageMapper.v shows to be cut into pages.

    Shown: no region of the kernel is both writable and executable; the direct map covers the memory it has to and never meets the addresses the kernel allocates;
    system calls enter and leave with the segments of the segment table; the pager of the file system keeps what the memory manager relies on. *)

From S2P Require Import Prelude PMM PageMapper AVLTree VMM VMMSpec VMMShare CPUInfo Descriptors TaskUtil.

#[local] Open Scope Z_scope.
#[local] Open Scope kernel_scope.

Module Boot.
Import PMM.

(** ** limine_entry.cpp *)

Inductive PagingMode : Set := LVL4 | LVL5.

Record limine_framebuffer : Set := mkLimineFB {
  fb_address : Z; fb_width : Z; fb_height : Z; fb_pitch : Z; fb_bpp : Z;
  red_mask_size : Z; red_mask_shift : Z; green_mask_size : Z; green_mask_shift : Z; blue_mask_size : Z; blue_mask_shift : Z
}.
Record limine_file : Set := mkFile { file_address : Z; file_size : Z }.

(** The responses, [None] where the boot loader gave none; the mode of paging is [None] for one that is not known. *)
Record responses : Type := mkResponses {
  hhdm : option Z;
  framebuffers : option (list limine_framebuffer);
  memmap : option (list MemoryMapEntry);
  rsdp : option Z;
  executable_address : option (Z * Z);  (* physical, virtual *)
  paging_mode : option (option PagingMode);
  modules : option (list limine_file)
}.

Record Framebuffer : Set := mkFB {
  BaseAddress : Z; width : Z; height : Z; pitch : Z; bpp : Z;
  redMask : Z; redShift : Z; greenMask : Z; greenShift : Z; blueMask : Z; blueShift : Z
}.
Record KernelParams : Type := mkParams {
  HHDMStart : Z; framebuffer : Framebuffer; MemoryMap : list MemoryMapEntry; RSDP : Z; kernelPhysical : Z; kernelVirtual : Z;
  pagingMode : PagingMode; symbolTable : Z; symbolTableSize : Z; initramfs : Z; initramfsSize : Z
}.

(** The masks are [uint8_t]. *)
Definition mask_of (size : Z) : Z := (Z.shiftl 1 size - 1) mod 256.
Definition convert_framebuffer (f : limine_framebuffer) : Framebuffer :=
  mkFB (fb_address f) (fb_width f) (fb_height f) (fb_pitch f) (fb_bpp f) (mask_of (red_mask_size f)) (red_mask_shift f)
    (mask_of (green_mask_size f)) (green_mask_shift f) (mask_of (blue_mask_size f)) (blue_mask_shift f).

(** The two modules: null pointers when there are none, and a failure where the array is read past its end. *)
Definition get_modules (m : option (list limine_file)) : result (limine_file * limine_file) :=
  match m with
  | None | Some [] => Ok (mkFile 0 0, mkFile 0 0)
  | Some (m0 :: ms) => match ms with m1 :: _ => Ok (m0, m1) | [] => Fail InvalidAccess end
  end.

(** [_start]: the parameters, or [None] for [limine_request_fail], which never returns. *)
Definition start (r : responses) : result (option KernelParams) :=
  match hhdm r, framebuffers r, memmap r, rsdp r, executable_address r, paging_mode r with
  | Some offset, Some fbs, Some map, Some rs, Some (phys, virt), Some mode =>
      match fbs with
      | [] => Ok None
      | fb :: _ =>
          match mode with
          | None => Ok None
          | Some mode =>
              match get_modules (modules r) with
              | Fail f => Fail f
              | Ok (m0, m1) =>
                  Ok (Some (mkParams offset (convert_framebuffer fb) map rs phys virt mode
                    (file_address m0) (file_size m0) (file_address m1) (file_size m1)))
              end
          end
      end
  | _, _, _, _, _, _ => Ok None
  end.

(** ** PagingInit.cpp *)

Definition MEMORY_MAP_ENTRY_BOOTLOADER_RECLAIMABLE : Z := 5.
Definition MEMORY_MAP_ENTRY_KERNEL_AND_MODULES : Z := 6.
Definition MEMORY_MAP_ENTRY_FRAMEBUFFER : Z := 7.

(** A call of [x86_64_MapRegionWithLargestPages]. *)
Record region : Set := mkRegion { r_virt : Z; r_phys : Z; r_size : Z; r_flags : Z }.

Definition RW_NX : Z := 134217731.
Definition RO_NX : Z := 134217729.
Definition RO_X : Z := 1.

Definition newHHDMOffset (mode : PagingMode) : Z := match mode with LVL4 => 18446603336221196288 | LVL5 => 18374686479671623680 end.
Definition kernel_range (mode : PagingMode) : Z * Z :=
  match mode with LVL4 => (18446673704965373952, 18446726481523507200) | LVL5 => (18410715276690587648, 18428729675200069632) end.

Definition is_mapped (e : MemoryMapEntry) : bool :=
  (Type_ e =? MEMORY_MAP_ENTRY_USABLE) || (Type_ e =? MEMORY_MAP_ENTRY_BOOTLOADER_RECLAIMABLE) || (Type_ e =? MEMORY_MAP_ENTRY_KERNEL_AND_MODULES).

(** The loop over the memory map: the regions, and the index of the framebuffer. *)
Fixpoint direct_map (offset : Z) (i frameBuffer : nat) (l : list MemoryMapEntry) : list region * nat :=
  match l with
  | [] => ([], frameBuffer)
  | e :: l' =>
      if Type_ e =? MEMORY_MAP_ENTRY_FRAMEBUFFER then direct_map offset (S i) i l'
      else if negb (is_mapped e) then direct_map offset (S i) frameBuffer l'
      else let (rs, k) := direct_map offset (S i) frameBuffer l' in
           (mkRegion (add64 (Base e) offset) (Base e) (Length e) RW_NX :: rs, k)
  end.

(** The bounds of the sections of the kernel. *)
Record sections : Set := mkSections {
  text_start : Z; text_end : Z; rodata_start : Z; rodata_end : Z; data_start : Z; data_end : Z; bss_start : Z; bss_end : Z
}.
Definition section (kernelVirtual kernelPhysical s e flags : Z) : region :=
  let s := ALIGN_DOWN s PAGE_SIZE in
  let e := ALIGN_UP e PAGE_SIZE in
  mkRegion s (add64 (sub64 s kernelVirtual) kernelPhysical) (sub64 e s) flags.
Definition kernel_regions (v p : Z) (k : sections) : list region :=
  [section v p (text_start k) (text_end k) RO_X; section v p (rodata_start k) (rodata_end k) RO_NX;
   section v p (data_start k) (data_end k) RW_NX; section v p (bss_start k) (bss_end k) RW_NX].

(** What the processor and the physical memory manager say: the frame of the root table is 0 when there is none. *)
Record support : Set := mkSupport { NX : bool; la57 : bool; root_frame : Z; PAT : bool }.

Record paging : Type := mkPaging { regions : list region; g_HHDMOffset : Z; allocator : Z * Z; g_KernelRootPageTable : Z }.

(** [x86_64_InitPaging] from the tests of the processor to the new offset, with the memory map as [KPMM.Init] left it and the offset the boot loader uses. The
    registers it writes are left out. *)
Definition x86_64_InitPaging (HHDMOffset : Z) (map : list MemoryMapEntry) (mode : PagingMode) (kernelVirtual kernelPhysical : Z)
    (k : sections) (s : support) : result paging :=
  if negb (NX s) then Fail AssertionFailed else
  if la57 s && match mode with LVL5 => false | LVL4 => true end then Fail AssertionFailed else
  let root := to_HHDM HHDMOffset (root_frame s) in
  if root =? to_HHDM HHDMOffset 0 then Fail AssertionFailed else
  if negb (PAT s) then Fail AssertionFailed else
  let (rs, fb) := direct_map (newHHDMOffset mode) 0 0 map in
  match map !! fb with
  | None => Fail InvalidAccess
  | Some e =>
      let frame := mkRegion (add64 (Base e) (newHHDMOffset mode)) (Base e) (Length e)
        (Z.lor RW_NX (PageMapper.PAT_GetPageMappingFlags (PageMapper.PATOffset PageMapper.WRITE_COMBINING))) in
      Ok (mkPaging (rs ++ [frame] ++ kernel_regions kernelVirtual kernelPhysical k) (newHHDMOffset mode) (kernel_range mode) root)
  end.

(** ** Syscall.cpp *)

Definition MSR_EFER : Z := 3221225600.
Definition MSR_STAR : Z := 3221225601.
Definition MSR_LSTAR : Z := 3221225602.
Definition MSR_CSTAR : Z := 3221225603.
Definition MSR_FMASK : Z := 3221225604.

Definition x86_64_InitSyscall (CPUID : Z -> Z -> CPUInfo.x86_64_CPUIDResult) (entry : Z) : M (gmap Z Z) bool :=
  if Z.land (CPUInfo.EDX (CPUID 2147483649 0)) (Z.shiftl 1 11) =? 0 then ret false else
  let* EFER := TaskUtil.x86_64_ReadMSR MSR_EFER in
  TaskUtil.x86_64_WriteMSR MSR_EFER (Z.lor EFER 1) ;;;
  let star := Z.lor (Z.shiftl Descriptors.x86_64_GDT_KERNEL_CODE_SEGMENT 32) (Z.shiftl (Descriptors.x86_64_GDT_USER_DATA_SEGMENT - 8) 48) in
  TaskUtil.x86_64_WriteMSR MSR_STAR star ;;;
  TaskUtil.x86_64_WriteMSR MSR_LSTAR entry ;;;
  TaskUtil.x86_64_WriteMSR MSR_CSTAR 0 ;;;
  TaskUtil.x86_64_WriteMSR MSR_FMASK (Z.shiftl 1 9) ;;;
  ret true.

(** ** Stack.cpp *)

(** The frame at an address: the saved RBP and the return address. *)
Fixpoint x86_64_WalkStackFrames (fuel : nat) (frame_at : Z -> Z * Z) (RBP : Z) : option (list Z) :=
  match fuel with
  | O => None
  | S fuel' =>
      if RBP =? 0 then Some [] else
      let (next, RIP) := frame_at RBP in
      cons RIP <$> x86_64_WalkStackFrames fuel' frame_at next
  end.

(** ** Regions *)

(** The bits of the flags of a page: writable, and not executable (which the flags have at bit 27). *)
Definition writable (r : region) : bool := Z.testbit (r_flags r) 1.
Definition executable (r : region) : bool := negb (Z.testbit (r_flags r) 27).

Lemma direct_map_spec offset l : forall i fb,
  fst (direct_map offset i fb l) = (fun e => mkRegion (add64 (Base e) offset) (Base e) (Length e) RW_NX) <$>
    filter (fun e => Type_ e <> MEMORY_MAP_ENTRY_FRAMEBUFFER /\ is_mapped e = true) l.
Proof.
  induction l as [|e l IH]; intros i fb; cbn [direct_map]; [done|]. rewrite filter_cons.
  destruct (Z.eqb_spec (Type_ e) MEMORY_MAP_ENTRY_FRAMEBUFFER) as [E|E]; [rewrite decide_False by tauto; apply IH|].
  destruct (is_mapped e) eqn:Em; cbn [negb].
  - rewrite decide_True by done. specialize (IH (S i) fb). destruct (direct_map offset (S i) fb l) as [rs k]. cbn [fst] in *. by rewrite fmap_cons, IH.
  - rewrite decide_False by (intros [_ ?]; done). apply IH.
Qed.

Section Paging.
Context (HHDMOffset : Z) (map : list MemoryMapEntry) (mode : PagingMode) (kernelVirtual kernelPhysical : Z) (k : sections) (s : support) (p : paging).
Context (Hp : x86_64_InitPaging HHDMOffset map mode kernelVirtual kernelPhysical k s = Ok p).

Lemma paging_regions : exists e, e ∈ map /\ regions p = fst (direct_map (newHHDMOffset mode) 0 0 map) ++
    [mkRegion (add64 (Base e) (newHHDMOffset mode)) (Base e) (Length e)
       (Z.lor RW_NX (PageMapper.PAT_GetPageMappingFlags (PageMapper.PATOffset PageMapper.WRITE_COMBINING)))] ++
    kernel_regions kernelVirtual kernelPhysical k /\
  g_HHDMOffset p = newHHDMOffset mode /\ allocator p = kernel_range mode /\ g_KernelRootPageTable p = to_HHDM HHDMOffset (root_frame s).
Proof.
  revert Hp. unfold x86_64_InitPaging. destruct (negb (NX s)); [done|]. destruct (la57 s && _); [done|]. destruct (_ =? _); [done|].
  destruct (negb (PAT s)); [done|]. destruct (direct_map (newHHDMOffset mode) 0 0 map) as [rs fb]. cbn [fst]. destruct (map !! fb) as [e|] eqn:E; [|done].
  intros [= <-]. exists e. split; [by eapply list_elem_of_lookup_2|done].
Qed.

(** The kernel's address space when paging has been set up: no region is writable and executable, and the code of the kernel is the only executable one; every usable or
    reclaimable region of memory and every module is in the direct map. *)
Theorem paging_W_xor_X :
  Forall (fun r => executable r = true -> writable r = false /\ r = section kernelVirtual kernelPhysical (text_start k) (text_end k) RO_X) (regions p) /\
  forall e, e ∈ map -> is_mapped e = true ->
    mkRegion (add64 (Base e) (g_HHDMOffset p)) (Base e) (Length e) RW_NX ∈ regions p.
Proof.
  destruct paging_regions as (e & He & -> & -> & _). rewrite direct_map_spec. split.
  - assert (Hnx : forall v ph n f, Z.testbit f 27 = true -> executable (mkRegion v ph n f) = true ->
      writable (mkRegion v ph n f) = false /\ mkRegion v ph n f = section kernelVirtual kernelPhysical (text_start k) (text_end k) RO_X).
    { intros v ph n f Hf Hx. unfold executable in Hx. cbn [r_flags] in Hx. by rewrite Hf in Hx. }
    apply Forall_app. split; [apply Forall_fmap, Forall_forall; intros x _; exact (Hnx _ _ _ RW_NX eq_refl)|].
    apply Forall_cons. split; [by apply Hnx|]. apply Forall_cons. split; [done|]. unfold kernel_regions, section. cbv zeta.
    repeat (apply Forall_cons; split; [by apply Hnx|]). constructor.
  - intros x Hx Hm. apply elem_of_app. left. apply list_elem_of_fmap. exists x. split; [done|]. apply list_elem_of_filter. split; [|done].
    split; [|done]. intros Ht. unfold is_mapped in Hm. rewrite Ht in Hm. discriminate.
Qed.

(** Memory below 64 TiB (or 32 PiB with five levels of tables) never has addresses in the direct map that the kernel also allocates. *)
Theorem direct_map_below_allocator (r : region) : r ∈ fst (direct_map (newHHDMOffset mode) 0 0 map) ->
  0 <= r_phys r -> 0 <= r_size r -> r_phys r + r_size r <= match mode with LVL4 => 2 ^ 46 | LVL5 => 2 ^ 55 end ->
  g_HHDMOffset p <= r_virt r /\ r_virt r + r_size r <= fst (allocator p) /\ fst (allocator p) < snd (allocator p).
Proof.
  destruct paging_regions as (e & He & _ & -> & -> & _). rewrite direct_map_spec. intros (x & -> & _)%list_elem_of_fmap Hb Hl Hs. cbn [r_phys r_size r_virt] in *.
  destruct mode; cbn [newHHDMOffset kernel_range fst snd] in *; rewrite add64_small by (split; [lia|]; change (W64) with (2 ^ 64); lia); lia.
Qed.

(** The address of the root table is computed with the offset of the direct map of the boot loader. When the kernel's own differs, the functions
    that ask later for its physical address do not get it back. *)
Theorem root_table_stale : 0 <= HHDMOffset < W64 -> 0 <= root_frame s < W64 -> HHDMOffset <> newHHDMOffset mode ->
  from_HHDM (g_HHDMOffset p) (g_KernelRootPageTable p) <> root_frame s.
Proof.
  intros Ho Hr Hne. destruct paging_regions as (e & _ & _ & -> & _ & ->). unfold from_HHDM, to_HHDM, add64, sub64, wrap64. intros Heq. apply Hne.
  assert (0 <= newHHDMOffset mode < W64) by (destruct mode; cbn; split; try lia; change W64 with (2 ^ 64); lia). revert Heq. change W64 with (2 ^ 64) in *. zlia.
Qed.
End Paging.

(** ** System calls *)

(** The selectors the processor loads, by the documentation of SYSCALL and SYSRET in 64-bit mode, from the register. *)
Definition syscall_CS (star : Z) : Z := Z.land (Z.shiftr star 32) 65532.
Definition syscall_SS (star : Z) : Z := Z.land (Z.shiftr star 32) 65535 + 8.
Definition sysret_CS (star : Z) : Z := Z.lor (Z.land (Z.shiftr star 48) 65535 + 16) 3.
Definition sysret_SS (star : Z) : Z := Z.lor (Z.land (Z.shiftr star 48) 65535 + 8) 3.

(** On a processor that has the instructions, a system call enters at the entry point of the kernel with interrupts disabled and with the kernel's segments, and returns with
    those a thread of a program starts with; the other registers are left alone, but for the bit that enables the instructions. *)
Theorem syscall_segments (CPUID : Z -> Z -> CPUInfo.x86_64_CPUIDResult) (entry : Z) (msrs : gmap Z Z) : Z.testbit (CPUInfo.EDX (CPUID 2147483649 0)) 11 = true ->
  runs (x86_64_InitSyscall CPUID entry) msrs (fun ok msrs' => ok = true /\ exists star mask, msrs' !! MSR_STAR = Some star /\
    syscall_CS star = Descriptors.x86_64_GDT_KERNEL_CODE_SEGMENT /\ syscall_SS star = Descriptors.x86_64_GDT_KERNEL_DATA_SEGMENT /\
    sysret_CS star = Z.lor Descriptors.x86_64_GDT_USER_CODE_SEGMENT 3 /\ sysret_SS star = Z.lor Descriptors.x86_64_GDT_USER_DATA_SEGMENT 3 /\
    msrs' !! MSR_LSTAR = Some entry /\ msrs' !! MSR_FMASK = Some mask /\ Z.testbit mask 9 = true /\
    (exists efer, msrs' !! MSR_EFER = Some efer /\ efer = Z.lor (default 0 (msrs !! MSR_EFER)) 1) /\
    forall r, r ∉ [MSR_EFER; MSR_STAR; MSR_LSTAR; MSR_CSTAR; MSR_FMASK] -> msrs' !! r = msrs !! r).
Proof.
  intros Hb. unfold x86_64_InitSyscall. destruct (Z.eqb_spec (Z.land (CPUInfo.EDX (CPUID 2147483649 0)) (Z.shiftl 1 11)) 0) as [E|_].
  { apply (f_equal (fun x => Z.testbit x 11)) in E. rewrite Z.land_spec, Hb in E. discriminate. }
  unfold TaskUtil.x86_64_ReadMSR, TaskUtil.x86_64_WriteMSR. repeat mstep. split; [done|].
  eexists _, (Z.shiftl 1 9). split; [rewrite !lookup_insert_ne by done; apply lookup_insert_eq|].
  split_and!; try reflexivity; try (rewrite ?lookup_insert_ne by done; apply lookup_insert_eq).
  - eexists. split; [rewrite !lookup_insert_ne by done; apply lookup_insert_eq|done].
  - intros r Hr. by rewrite !lookup_insert_ne by set_solver.
Qed.

(** ** Stack frames *)

(** The addresses of a chain of frames that ends with a null pointer, with the return addresses. *)
Fixpoint chain (frame_at : Z -> Z * Z) (a : Z) (rips : list Z) : Prop :=
  match rips with
  | [] => a = 0
  | rip :: rips' => a <> 0 /\ snd (frame_at a) = rip /\ chain frame_at (fst (frame_at a)) rips'
  end.

(** The walk over such a chain ends, and visits each frame once, in order; over a frame that refers to itself it never ends. *)
Theorem stack_walk (frame_at : Z -> Z * Z) (a : Z) :
  (forall rips fuel, chain frame_at a rips -> (length rips < fuel)%nat -> x86_64_WalkStackFrames fuel frame_at a = Some rips) /\
  (forall fuel, a <> 0 -> fst (frame_at a) = a -> x86_64_WalkStackFrames fuel frame_at a = None).
Proof.
  split.
  - intros rips. revert a. induction rips as [|rip rips IH]; intros a [|fuel] Hc Hf; cbn in *; try lia.
    + by rewrite Hc.
    + destruct Hc as (Ha & Hr & Hc). rewrite (proj2 (Z.eqb_neq _ _)) by done. destruct (frame_at a) as [nxt r] eqn:E. cbn in *. rewrite IH; [by rewrite Hr|done|lia].
  - intros fuel Ha Hl. induction fuel as [|fuel IH]; [done|]. cbn. rewrite (proj2 (Z.eqb_neq _ _)) by done. destruct (frame_at a) as [nxt r]. cbn in *. by rewrite Hl, IH.
Qed.

(** ** Modules *)

(** A boot with a single module reads the second one past the end of the array. *)
Theorem single_module (r : responses) (offset rs phys virt : Z) (fb : limine_framebuffer) (fbs : list limine_framebuffer) (map : list MemoryMapEntry)
    (mode : PagingMode) (m : limine_file) :
  hhdm r = Some offset -> framebuffers r = Some (fb :: fbs) -> memmap r = Some map -> rsdp r = Some rs -> executable_address r = Some (phys, virt) ->
  paging_mode r = Some (Some mode) -> modules r = Some [m] -> start r = Fail InvalidAccess.
Proof. intros H1 H2 H3 H4 H5 H6 H7. unfold start. by rewrite H1, H2, H3, H4, H5, H6, H7. Qed.

End Boot.

(** ** TempFSPager.cpp *)

Module TempFSPager.
Import VMM VMMShare.

Section Pager.
Context {E : Type} `{Machine E} (kcalloc_ok : nat -> bool) (GetDefaultProt : Z -> Z).

(** The frame is cleared whether there is one or not. *)
Definition AllocatePage : M (@state E) Z :=
  let* phys := machine VMM.AllocatePage in
  machine (zero_frame phys) ;;;
  ret phys.

Definition FreePage (page : Z) : M (@state E) unit := machine (VMM.FreePage page).

(** [GetDefaultProt] is the method of the node, [pagerData] of the object; 0 for null. *)
Definition GetPage (pager obj offset : Z) (write : bool) : M (@state E) (bool * Z) :=
  let* o := ld_obj obj in
  if mo_size o <? add64 (Z.shiftr offset PAGE_SIZE_SHIFT) 1 then ret (false, 0) else
  if mo_pagerData o =? 0 then ret (false, 0) else
  match AVLTree.Find offset (pages o) with
  | Some page => ret (true, page)
  | None =>
      let* page := kcalloc kcalloc_ok in
      if page =? 0 then ret (false, 0) else
      put_page page (mkPage 0 0 false) ;;;
      let* phys := AllocatePage in
      upd_page page (fun g => mkPage phys (GetDefaultProt (mo_pagerData o)) (pg_isWired g)) ;;;
      upd_obj obj (fun o => set_obj_pages (snd (AVLTree.Insert offset page (pages o))) o) ;;;
      ret (true, page)
  end.

(** The pager keeps what the memory manager relies on, for its invariant on shared pages. *)
Theorem GetPage_quiet pager obj offset write : quiet (GetPage pager obj offset write).
Proof.
  unfold GetPage. apply quiet_bind; [apply quiet_ld|intros o]. apply quiet_if; [apply quiet_ret|]. apply quiet_if; [apply quiet_ret|].
  destruct (AVLTree.Find offset (pages o)); [apply quiet_ret|]. apply quiet_bind; [apply quiet_kcalloc|intros page]. apply quiet_if; [apply quiet_ret|].
  apply quiet_bind; [apply quiet_modify; by constructor|intros _]. apply quiet_bind.
  { unfold AllocatePage. apply quiet_bind; [apply quiet_machine|intros ?]. apply quiet_bind; [apply quiet_machine|intros _]. apply quiet_ret. }
  intros phys. apply quiet_bind; [apply quiet_upd_page|intros _]. apply quiet_bind; [apply quiet_upd_obj|intros _]. apply quiet_ret.
Qed.

(** The object at a pointer. *)
Definition object_at (s : @state E) (obj : Z) (o : MemoryObject) : Prop := obj <> 0 /\ objs s !! obj = Some o.

Lemma ld_obj_runs s obj o Q : object_at s obj o -> Q o s -> runs (ld_obj obj) s Q.
Proof. intros [Hn Ho] HQ. eapply runs_eq; [|exact HQ]. unfold ld_obj, ld. by rewrite (proj2 (Z.eqb_neq _ _)), Ho. Qed.

(** Every branch of the pager: offsets past the end of the object and objects without a node give nothing and change nothing; a page that is there is given again; otherwise, when there is memory for
    its description, the new page has a cleared frame and the protection of the node, and the next request for the offset gives the same page. *)
Theorem GetPage_spec pager obj offset write s o : object_at s obj o -> AVLTree.sorted (pages o) -> 0 <= offset < W64 ->
  (mo_size o <= Z.shiftr offset 12 \/ mo_pagerData o = 0 -> GetPage pager obj offset write s = Ok ((false, 0), s)) /\
  (Z.shiftr offset 12 < mo_size o -> mo_pagerData o <> 0 ->
   match AVLTree.Find offset (pages o) with
   | Some page => GetPage pager obj offset write s = Ok ((true, page), s)
   | None =>
       (kcalloc_ok (allocs s) = false -> GetPage pager obj offset write s = Ok ((false, 0), set_allocs (S (allocs s)) s)) /\
       (kcalloc_ok (allocs s) = true -> forall frame e1 e2, VMM.AllocatePage (env s) = Ok (frame, e1) -> zero_frame frame e1 = Ok (tt, e2) ->
        runs (GetPage pager obj offset write) s (fun r s' => exists page, r = (true, page) /\ env s' = e2 /\
          pgs s' !! page = Some (mkPage frame (GetDefaultProt (mo_pagerData o)) false) /\
          forall w, GetPage pager obj offset w s' = Ok ((true, page), s')))
   end).
Proof.
  intros Ho Hsort Hoff. assert (Hk : add64 (Z.shiftr offset 12) 1 = Z.shiftr offset 12 + 1).
  { rewrite Z.shiftr_div_pow2 by lia. apply add64_small. change W64 with (2 ^ 64) in *. zlia. }
  assert (Hld : ld_obj obj s = Ok (o, s)).
  { destruct Ho as [Hn Ho]. unfold ld_obj, ld. by rewrite (proj2 (Z.eqb_neq _ _)), Ho. }
  split.
  - intros Hcase. unfold GetPage, bind. rewrite Hld, Hk. destruct (Z.ltb_spec (mo_size o) (Z.shiftr offset 12 + 1)) as [|Hge]; [done|].
    destruct Hcase as [?| ->]; [lia|done].
  - intros Hlt Hpd. destruct (AVLTree.Find offset (pages o)) as [page|] eqn:Ef.
    + unfold GetPage, bind. rewrite Hld, Hk, (proj2 (Z.ltb_ge _ _)), (proj2 (Z.eqb_neq _ _)), Ef by lia. done.
    + split.
      * intros Hka. unfold GetPage, bind, kcalloc. rewrite Hld, Hk, (proj2 (Z.ltb_ge _ _)), (proj2 (Z.eqb_neq _ _)), Ef, Hka by lia. done.
      * intros Hka frame e1 e2 He1 He2. unfold GetPage. mstep. apply (ld_obj_runs s obj o); [done|].
        rewrite Hk, (proj2 (Z.ltb_ge _ _)), (proj2 (Z.eqb_neq _ _)), Ef by lia. mstep. eapply runs_eq; [unfold kcalloc; rewrite Hka; reflexivity|].
        cbn beta. rewrite (proj2 (Z.eqb_neq _ _)) by lia. unfold put_page. do 3 mstep. unfold AllocatePage, machine. mstep.
        eapply runs_eq; [cbn; rewrite He1; reflexivity|]. mstep. eapply runs_eq; [cbn; rewrite He2; reflexivity|]. mstep. mstep.
        unfold upd_page, upd. mstep. eapply runs_eq; [unfold ld; cbn; rewrite lookup_insert_eq; reflexivity|]. mstep. mstep. unfold upd_obj, upd. mstep.
        destruct Ho as [Hn Ho]. eapply runs_eq; [unfold ld; cbn; rewrite (proj2 (Z.eqb_neq _ _)), Ho by done; reflexivity|]. mstep. mstep.
        eexists. split; [reflexivity|]. split; [done|]. split; [cbn; by rewrite lookup_insert_eq|].
        intros w. unfold GetPage, bind, ld_obj, ld. cbn [objs set_objs]. rewrite (proj2 (Z.eqb_neq _ _)), lookup_insert_eq by done.
        cbn [mo_size mo_pagerData pages set_obj_pages].
        rewrite ?Hk, (proj2 (Z.ltb_ge _ _)), (proj2 (Z.eqb_neq _ _)) by lia.
        unfold AVLTree.Find, AVLTree.Insert in *. rewrite Ef. cbn [snd]. rewrite AVLTree.RB_FIND_INSERT by done. by rewrite Ef, Z.eqb_refl.
Qed.

(** When there is no free frame, the pager clears the frame at the address 0 and gives a page that lies there. *)
Theorem GetPage_no_memory pager obj offset write s o e1 e2 : object_at s obj o -> AVLTree.sorted (pages o) -> 0 <= offset < W64 ->
  Z.shiftr offset 12 < mo_size o -> mo_pagerData o <> 0 -> AVLTree.Find offset (pages o) = None -> kcalloc_ok (allocs s) = true ->
  VMM.AllocatePage (env s) = Ok (0, e1) -> zero_frame 0 e1 = Ok (tt, e2) ->
  runs (GetPage pager obj offset write) s (fun r s' => fst r = true /\ env s' = e2 /\ pg_physAddr <$> pgs s' !! snd r = Some 0).
Proof.
  intros Ho Hs Hoff Hlt Hpd Hf Hk H1 H2. destruct (GetPage_spec pager obj offset write s o Ho Hs Hoff) as [_ Hg]. specialize (Hg Hlt Hpd). rewrite Hf in Hg.
  destruct Hg as [_ Hg]. eapply runs_mono; [by eapply Hg|]. intros r s' (page & -> & He & Hp & _). split; [done|]. split; [done|]. cbn. by rewrite Hp.
Qed.
End Pager.
End TempFSPager.
