(* ===== verification/CxxABI.v ===== *)
(** * CxxABI.v: what the compiler calls (src/kernel/lib/src/icxxabi.cpp)

    The table of destructors and the guards of static variables. Functions and objects are addresses, 0 is null; the calls of destructors are a trace, and a destructor
    is taken not to register another one.

    Shown: the final call runs each registered destructor once, in the reverse of the order of registration, and the next one nothing; what the removal of a single one does to the others, and
    that a guard tells the first visitor not to initialise. *)

From S2P Require Import Prelude.

#[local] Open Scope Z_scope.
#[local] Open Scope kernel_scope.

Module CxxABI.

Definition ATEXIT_MAX_FUNCS : nat := 128.

Record atexit_func_entry_t : Set := mkEntry { dtor : Z; obj_ptr : Z; dso_handle : Z }.

Record state : Set := mk { __atexit_funcs : list atexit_func_entry_t; __atexit_func_count : nat; called : list (Z * Z) }.
Definition initial : state := mk (replicate ATEXIT_MAX_FUNCS (mkEntry 0 0 0)) 0 [].

Definition __cxa_atexit (func arg dso : Z) : M state Z := fun s =>
  if (ATEXIT_MAX_FUNCS <=? __atexit_func_count s)%nat then Ok (-1, s)
  else Ok (0, mk (<[__atexit_func_count s := mkEntry func arg dso]> (__atexit_funcs s)) (S (__atexit_func_count s)) (called s)).

Definition entry (i : nat) : M state atexit_func_entry_t := fun s =>
  match __atexit_funcs s !! i with Some e => Ok (e, s) | None => Fail InvalidAccess end.
Definition set_entry (i : nat) (e : atexit_func_entry_t) : M state unit :=
  modify (fun s => mk (<[i := e]> (__atexit_funcs s)) (__atexit_func_count s) (called s)).
(** The destructor is called, and forgotten. *)
Definition call_entry (i : nat) (e : atexit_func_entry_t) : M state unit :=
  modify (fun s => mk (__atexit_funcs s) (__atexit_func_count s) (called s ++ [(dtor e, obj_ptr e)])) ;;;
  set_entry i (mkEntry 0 (obj_ptr e) (dso_handle e)).

(** The loops, from [i] entries down. *)
Fixpoint finalize_all (i : nat) : M state unit :=
  match i with
  | O => ret tt
  | S i' =>
      let* e := entry i' in
      whenM (negb (dtor e =? 0)) (call_entry i' e) ;;;
      finalize_all i'
  end.

(** The entries from [j], [n] of them, move one place down. *)
Fixpoint move_up (n j : nat) : M state unit :=
  match n with
  | O => ret tt
  | S n' => let* e := entry j in set_entry (j - 1) e ;;; move_up n' (S j)
  end.
Fixpoint finalize_one (f : Z) (i : nat) : M state unit :=
  match i with
  | O => ret tt
  | S i' =>
      let* e := entry i' in
      whenM (dtor e =? f) (
        call_entry i' e ;;;
        let* count := gets __atexit_func_count in
        move_up (count - i) i) ;;;
      finalize_one f i'
  end.

Definition __cxa_finalize (f : Z) : M state unit :=
  let* count := gets __atexit_func_count in
  if f =? 0 then finalize_all count else finalize_one f count.

(** The guard of a static variable; the old value of [__atomic_test_and_set] is returned. *)
Definition __cxa_guard_acquire (g : bool) : Z * bool := (if g then 1 else 0, true).
Definition __cxa_guard_release (g : bool) : bool := false.

(** ** Destructors *)

Fixpoint register (l : list (Z * Z)) : M state unit :=
  match l with [] => ret tt | (f, a) :: l' => __cxa_atexit f a 0 ;;; register l' end.

(** The table after the registration of the destructors of a list. *)
Definition holds (s : state) (l : list (Z * Z)) : Prop :=
  __atexit_func_count s = length l /\ (length l <= length (__atexit_funcs s))%nat /\
  forall i f a, l !! i = Some (f, a) -> __atexit_funcs s !! i = Some (mkEntry f a 0).

Lemma register_holds l : forall s l0, holds s l0 -> length (__atexit_funcs s) = ATEXIT_MAX_FUNCS -> (length l0 + length l <= ATEXIT_MAX_FUNCS)%nat ->
  runs (register l) s (fun _ s' => holds s' (l0 ++ l) /\ length (__atexit_funcs s') = ATEXIT_MAX_FUNCS /\ called s' = called s).
Proof.
  induction l as [|[f a] l IH]; intros s l0 (Hc & Hl & Hh) Hlen Hb; cbn [register].
  { mstep. rewrite app_nil_r. by split_and!. }
  cbn [length] in Hb. mstep. eapply runs_eq.
  { unfold __cxa_atexit. rewrite (proj2 (Nat.leb_gt _ _)) by (rewrite Hc; lia). reflexivity. }
  eapply runs_mono; [apply (IH _ (l0 ++ [(f, a)]))|].
  - split; cbn; [rewrite length_app, Hc; cbn; lia|]. split; [rewrite length_app, length_insert; cbn; lia|]. intros i g b Hi. rewrite Hc.
    destruct (decide (i = length l0)) as [->|Hne].
    + rewrite lookup_app_r, Nat.sub_diag in Hi by lia. injection Hi as <- <-. apply list_lookup_insert_eq. lia.
    + rewrite list_lookup_insert_ne by done. apply Hh. apply lookup_app_Some in Hi as [?|[Hge Hi]]; [done|]. apply lookup_lt_Some in Hi. cbn in Hi. lia.
  - cbn. by rewrite length_insert.
  - rewrite length_app. cbn. lia.
  - rewrite <- app_assoc. by intros _ s' H.
Qed.

(** The loop over the first entries of a table: calls in the reverse order, and the entries are null afterwards. *)
Lemma finalize_all_runs i : forall s l, (forall j f a, l !! j = Some (f, a) -> f <> 0) -> length l = i ->
  (forall j f a, l !! j = Some (f, a) -> __atexit_funcs s !! j = Some (mkEntry f a 0)) ->
  runs (finalize_all i) s (fun _ s' => called s' = called s ++ reverse l /\ __atexit_func_count s' = __atexit_func_count s /\
    (forall j, (j < i)%nat -> dtor <$> __atexit_funcs s' !! j = Some 0) /\
    forall j, (i <= j)%nat -> __atexit_funcs s' !! j = __atexit_funcs s !! j).
Proof.
  induction i as [|i IH]; intros s l Hnz Hlen Hh; cbn [finalize_all].
  { apply length_zero_iff_nil in Hlen as ->. mstep. split_and!; [by rewrite app_nil_r|done|intros; lia|done]. }
  destruct l as [|x l _] using rev_ind; [done|]. rewrite length_app in Hlen. cbn in Hlen. destruct x as [f a].
  assert (Hx : (l ++ [(f, a)]) !! i = Some (f, a)) by (replace i with (length l + 0)%nat by lia; by rewrite lookup_app_r, Nat.add_sub_swap, Nat.sub_diag by lia).
  mstep. eapply runs_eq; [unfold entry; by rewrite (Hh _ _ _ Hx)|]. cbn [dtor]. rewrite (proj2 (Z.eqb_neq _ _)) by by eapply Hnz. cbn [negb whenM].
  unfold call_entry, set_entry. do 4 mstep. cbn [__atexit_funcs called __atexit_func_count obj_ptr dso_handle dtor].
  eapply runs_mono; [apply (IH _ l); [|lia|]|].
  - intros j g b Hj. eapply Hnz. by apply lookup_app_l_Some.
  - intros j g b Hj. cbn. rewrite list_lookup_insert_ne by (apply lookup_lt_Some in Hj; lia). apply Hh. by apply lookup_app_l_Some.
  - cbn. intros _ s' (Hc & Hn & H0 & Hr). split_and!; [rewrite Hc, reverse_app, <- app_assoc; done|done| |].
    + intros j Hj. destruct (decide (j = i)) as [->|]; [|apply H0; lia]. rewrite Hr, list_lookup_insert_eq by (try lia; apply lookup_lt_is_Some; eauto). done.
    + intros j Hj. rewrite Hr, list_lookup_insert_ne by lia. done.
Qed.

(** A loop over null entries calls nothing. *)
Lemma finalize_none i : forall s, (forall j, (j < i)%nat -> dtor <$> __atexit_funcs s !! j = Some 0) -> finalize_all i s = Ok (tt, s).
Proof.
  induction i as [|i IH]; intros s H0; [done|]. cbn [finalize_all]. unfold bind, entry. specialize (H0 i ltac:(lia)) as Hi.
  destruct (__atexit_funcs s !! i) as [e|]; [|done]. injection Hi as Hi. rewrite Hi. cbn. apply IH. intros j Hj. apply H0. lia.
Qed.

(** Of at most 128 destructors that are registered, the final call runs each once, the last one first; a second final call runs none. *)
Theorem destructors_run_once (l : list (Z * Z)) : (length l <= 128)%nat -> Forall (fun x => fst x <> 0) l ->
  runs (register l ;;; __cxa_finalize 0 ;;; __cxa_finalize 0) initial (fun _ s => called s = reverse l).
Proof.
  intros Hl Hnz. mstep. eapply runs_mono; [apply (register_holds l initial []); [split_and!; [done|cbn; lia|done]|done|exact Hl]|].
  cbn [app]. intros _ s ((Hc & Hlen & Hh) & _ & Hcall). unfold __cxa_finalize. mstep. do 2 mstep. cbn [Z.eqb]. rewrite Hc.
  eapply runs_mono; [apply (finalize_all_runs (length l) s l); [|done|exact Hh]|].
  { intros j f a Hj. exact (Forall_lookup_1 _ _ _ _ Hnz Hj). }
  intros _ s' (Hcalled & Hcount & H0 & _). do 2 mstep. cbn [Z.eqb]. eapply runs_eq; [apply finalize_none; rewrite Hcount, Hc; exact H0|]. by rewrite Hcalled, Hcall.
Qed.

Lemma destructors_run_once_witness :
  runs (register [(7, 1); (8, 2)] ;;; __cxa_finalize 0 ;;; __cxa_finalize 0) initial (fun _ s => called s = [(8, 2); (7, 1)]).
Proof. apply (destructors_run_once [(7, 1); (8, 2)]); [cbn; lia|]. repeat constructor; discriminate. Defined.

(** The removal of one destructor moves the others but keeps their number, so that the last one is there twice and is run twice. *)
Theorem finalize_one_duplicates :
  runs (register [(7, 1); (8, 2)] ;;; __cxa_finalize 7 ;;; __cxa_finalize 0) initial (fun _ s => called s = [(7, 1); (8, 2); (8, 2)]).
Proof. eexists _, _. split; [vm_compute; reflexivity|reflexivity]. Qed.

(** ** Guards *)

(** What the compiler makes of a static variable: it is initialised when the guard gives something other than 0; the number of initialisations is counted. *)
Definition visit (s : bool * nat) : bool * nat :=
  let '(g, n) := s in
  let '(r, g) := __cxa_guard_acquire g in
  if r =? 0 then (g, n) else (__cxa_guard_release g, S n).

(** The variable is not initialised by the first visit, and again by every second one. *)
Theorem guard_inverted (k : nat) : Nat.iter (2 * k) visit (false, 0%nat) = (false, k) /\ Nat.iter (2 * k + 1) visit (false, 0%nat) = (true, k).
Proof.
  induction k as [|k [IH1 IH2]]; [done|]. replace (2 * S k)%nat with (S (2 * k + 1)) by lia. replace (S (2 * k + 1) + 1)%nat with (S (S (2 * k + 1))) by lia.
  cbn [Nat.iter]. rewrite !Nat.iter_succ, IH2. done.
Qed.

End CxxABI.
